(* ===== verification/_CoqProject ===== *)
-Q . S2P
Prelude.v
Output.v
Sequence.v
BlockManager.v
BlockManagerFacts.v
Policy.v
KVBase.v
Scheduler.v
Lifecycle.v
SchedulerInv.v
SchedulerSteps.v
ScheduleFacts.v
AdmitFacts.v
LaunchFacts.v
ReconcileFacts.v
SchedulerReach.v
NixlConnector.v
NixlTransfer.v
StopChecker.v
OutputProcessor.v
Frames.v
Metrics.v
SpecDecode.v
Engine.v
EngineFacts.v
Core.v
CoreClient.v
AsyncLLM.v
Protocol.v
ApiServer.v
ApiFacts.v
Arrays.v
AttnContext.v
ModelRunner.v
ModelRunnerFacts.v
Instances.v
Config.v
Tensors.v
Ranks.v
Linear.v
EmbedHead.v
Qwen3.v
Qwen3Load.v
Qwen3Facts.v
Attention.v
Moe.v
MLA.v
TorchAttention.v
TorchFacts.v
MoeFacts.v
MoeRanks.v
AttentionFacts.v
MLAFacts.v
MLAStep.v
StepAttention.v
TorchMLAFacts.v
Deepseek.v
DeepseekFacts.v
Passes.v
Proposer.v
ProposerFacts.v
DrafterStep.v
Sampler.v
ModelStep.v
ModelStepFacts.v
RunnerInstances.v
LayerInstances.v
MemoryProperties.v
SchedulerProperties.v
RequestProperties.v
ConnectorProperties.v
EngineProperties.v
ServingProperties.v
HttpProperties.v
RunnerProperties.v
LayerProperties.v
AttentionProperties.v
MLAProperties.v
DrafterProperties.v
ConfigProperties.v
