(* ===== verification/Prelude.v ===== *)
(** * Verification of lean-vLLM

    A model of the serving engine in [src/lean_vllm], from the HTTP call down to
    the arithmetic of a forward pass, and the theorems that make it correct.
    What belongs to a library, or runs as a kernel on the device, is a parameter
    with its documented behaviour as laws, or is left out and listed at the end.

    ** Parts

    A file models a component, in the source's own names; a file with [Facts],
    [Inv], [Steps], [Step] or [Reach] in its name proves what its components
    promise; the files that end in [Properties] hold the theorems that are the
    claims. Paths are those of src/lean_vllm.

    The host's engine:

    - [Prelude] (this file): record update, Python's exceptions, the state and
      error monad [M] with its total-correctness triples [wp], loops, slices,
      integer parsing and the lemmas they share.
    - [Output], [Sequence]: sampling_params.py, engine/output.py,
      engine/sequence.py. A request's record, its tokens, pending slots and the
      chained hashes of its full blocks.
    - [BlockManager], [BlockManagerFacts]: engine/block_manager.py. Reference
      counts, the free queue, the prefix cache.
    - [Policy]: engine/policy.py, FCFS and priority, behind
      [SchedulingPolicy] and its laws.
    - [KVBase]: kv_transfer/base.py and __init__.py, with the aggregation of the
      ranks' reports. The scheduler half of a connector is the class
      [KVConnectorScheduler] with its laws.
    - [Scheduler]: engine/scheduler.py in full. A queue or a dict holds
      references to sequences, which live in the store [heap] by [seq_id], so
      that aliasing is the code's. [Lifecycle] is the abstract registry of
      requests by status that the scheduler refines; [SchedulerInv] the
      invariant [Inv]; [SchedulerSteps], [ScheduleFacts], [AdmitFacts],
      [LaunchFacts], [ReconcileFacts] prove each operation; [SchedulerReach]
      is the state machine the engine drives; [Frames] what no step touches.
    - [NixlConnector], [NixlTransfer]: kv_transfer/nixl_connector.py. The
      scheduler half, which implements that class; the worker's shares of
      heads, descriptors, sends, polling, handshake and reads. The agent and
      the network are oracles that answer from the history of calls.
    - [StopChecker], [OutputProcessor]: entrypoints/stop_checker.py,
      utils/detokenizer.py, engine/output_processor.py.
    - [Metrics]: engine/metrics.py, as the log of calls to the instruments.
    - [Engine], [EngineFacts]: engine/llm_engine.py; the runner's call and the
      tokenizer are the classes [Engine.ModelRunner] and [Tokenizer].
    - [Core], [CoreClient], [AsyncLLM]: engine/core.py, core_client.py,
      async_llm.py: the core process's loop, the futures of its client, and the
      server's front end, composed in one transition system in which a coroutine
      is split where it awaits. A stop comes on the loop's thread, or on another
      between two of the loop's turns, and then ends the streams in a later one.
    - [Protocol], [ApiServer], [ApiFacts]: entrypoints/protocol.py and
      api_server.py: a call is a coroutine of that system, with a schedule of
      what the others do at each of its waits, and the point where its client
      leaves.
    - [Config]: config.py, with the parts of envs.py, utils/device.py,
      models/__init__.py and attention/selector.py that its checks ask.

    A step of the runner:

    - [Arrays], [AttnContext], [ModelRunner], [ModelRunnerFacts]:
      utils/context.py and the preparation of a batch in engine/model_runner.py.
      An array or tensor is the list of its values.
    - [Passes]: how those arrays reach a model, directly, in a piecewise graph's
      bucket or in a full graph's buffers. What a model with a paged cache
      promises is stated against a sequence model that sees a sequence's own
      earlier cache entries and nothing else ([TargetOk], [DrafterOk]).
    - [SpecDecode], [Sampler]: spec_decode/config.py, rejection_sampler.py and
      layers/sampler.py: temperatures, top-k and top-p, the exponential race,
      and the acceptance of drafts.
    - [Proposer], [ProposerFacts], [DrafterStep]: spec_decode/mtp_proposer.py,
      over the MTP layers in turn as models/deepseek_mtp.py takes them, each with
      a cache of its own. [DrafterOk] asks of layer 0 the passes over a batch,
      and of every layer those of one token a row.
    - [ModelStep], [ModelStepFacts]: [run] and [run_model] of
      engine/model_runner.py with the replays and captures, what one step
      computes, and how the step after it starts from what it left.

    The layers:

    - [Tensors], [Ranks]: exact scalars and PyTorch's operations on them, and
      tensor-parallel ranks as programs that run in lockstep and meet in
      collectives.
    - [Linear], [EmbedHead], [Qwen3], [Qwen3Load], [Qwen3Facts]:
      layers/linear.py, embed_head.py, activation.py, layernorm.py,
      rotary_embedding.py and models/qwen3.py: construction, loading, passes.
    - [Attention], [AttentionFacts], [StepAttention], [TorchAttention],
      [TorchFacts]: layers/attention.py over any backend that keeps the promises
      of [BackendOk], and attention/torch_backend.py, which keeps them.
    - [MLA], [MLAFacts], [MLAStep], [TorchMLAFacts]: [MLAAttention] of
      layers/attention.py with attention/merge.py, and the portable backend's
      part of it.
    - [Moe], [MoeFacts], [MoeRanks]: layers/moe.py on the portable path.
    - [Deepseek], [DeepseekFacts]: models/deepseek_v2.py, and an expert layer's
      load from a checkpoint's tensors in any order (the loop of utils/loader.py
      with the tensors' names resolved).

    [Instances], [RunnerInstances], [LayerInstances]: the concrete engine, step
    and layers on which the witnesses are evaluated.

    ** Theorems

    - [MemoryProperties]: in every reachable state the reference counts are
      the tables' references; blocks are shared between equal prefixes only; a
      step writes only private slots; an idle scheduler has every block back.
    - [SchedulerProperties]: the limits of a step, what launching and
      reconciling commit, and the prefix that [can_allocate] takes from the
      cache: the longest whose blocks are published, but for the prompt's last
      block; with lemmas on admissions, aborts and the connector's reports.
    - [RequestProperties]: commits, pickling, hashes, and the routing of outputs.
    - [ConnectorProperties]: aggregation refines a counter per request; the
      head shares partition; sends await their readers; posting always ends.
    - [EngineProperties]: a step's outputs are the tokens it appended and the
      ends of exactly the sequences that ended in it; admission is all or
      nothing.
    - [ServingProperties], [HttpProperties]: the core answers until shutdown; no
      one waits on a dead core; a call leaves no request behind and answers its
      stream's text cut at the first stop string.
    - [ConfigProperties]: no configuration escapes its checks, and one that
      passes them all is accepted.
    - [RunnerProperties]: a prepared batch is its rows laid end to end, with
      what the device holds of the last step; its split separates the rows by
      length with exact key lengths where they are planned with.
    - [DrafterProperties]: on whatever path its passes take, a step's greedy
      tokens are the model's own continuation of each sequence, drafts or not,
      and two calls of [run] in a row decode one text; a sampled token is one
      that its sequence's own top-k and top-p keep; a draft is kept by its
      probability; drafts are autoregressive, each from its step's layer. With
      more than one layer a draft may follow from what earlier drafts left in
      that layer's cache, since the first pass fills layer 0's alone; the tokens
      decoded are the same.
    - [AttentionProperties], [MLAProperties]: every token attends exactly its
      own sequence's tokens up to itself, over pages, chunks of cached latents
      and both forms of latent attention; the portable backend keeps a
      backend's promises.
    - [LayerProperties]: the ranks neither hang nor raise, load their part of
      the checkpoint and compute what one process computes; experts are the
      best ones, mixed by their weights; rotation makes positions distances.

    ** Conventions, bounds and fuel

    A method is a function in [M S]: it returns a value or raises an [exn], and
    either way leaves a state. [wp m s Q] says that it returns, so a theorem
    with [wp] is about total correctness. Integers are [Z], since Python's are
    unbounded; floats that the host compares are exact rationals, and the
    entries of a tensor are those of a commutative ring or an ordered field
    ([Scalar], [Ordered], [Softmax], [Sampling] with their laws), so that a
    theorem about a layer is about its formula and not about rounding. What
    PyTorch computes by itself is in classes ([Torch], [TorchGroups], [Sdpa],
    [TopK]) whose laws are the documented formulas. Random numbers are
    arguments. Replaying a captured graph runs the captured pass over the
    graph's buffers again; a capture only records.

    A loop whose end is not structural takes fuel and raises [OutOfFuel]
    without it. The scheduler's loops are called with the length of the queue
    that their turns shorten, plus one, and the [wp] lemma of each shows that it
    is enough; the core's loop takes its fuel as an argument, and its theorem
    gives the amount that ends it; [generate] takes a number of steps, and
    nothing is proved of how many it needs. A set whose iteration order Python
    leaves open is iterated in any order ([SetOrder]); a clock is any function
    of the number of its readings.

    ** Not modelled

    - Kernels: the Triton code of layers/ and attention/, and the backends that
      call kernel libraries (flash, flashinfer, flashmla). Their arithmetic is
      floating point and their memory the device's; [BackendOk] says what a
      layer needs of one.
    - Rounding, NaN, and the int32 and float32 casts of tensors.
    - engine/compilation.py, memory profiling and the cache's allocation, graph
      capture as the device does it, warmup: the device's and torch.compile's.
    - The layers of models/deepseek_mtp.py (a layer's pass is in the class
      [Drafter]), and the scaling rules of rotary frequencies, which are
      arguments.
    - Threads within [AsyncLLM.stop]: another thread's call is one step between
      the loop's turns, where AsyncMPClient.shutdown asks for the loop's thread;
      a closed event loop.
    - utils/loader.py, engine/input_buffers.py, engine/sampled_tokens.py: files,
      pinned buffers and copies; a tensor is the list of its values.
    - entrypoints/disagg_proxy.py, which relays bodies unread by httpx; the
      command line; HTTP itself.
    - Serialization by libraries: msgpack and JSON bytes, pydantic's coercion
      (a parameter), Prometheus's text; the pickler and the digests of block
      hashes are parameters, with an absence of collisions as a hypothesis
      where a theorem needs it.
    - gloo's calls between the ranks of a runner, process supervision, logging. *)

From stdpp Require Export base gmap sets list strings numbers sorting pretty.
From Stdlib Require Export QArith.Qcanon.


(** ** Record update

    [Eta R] gives the eta-expansion of a record type; a setter for any
    projection is derived from it, so [s <| f := v |>] is the record [s] with
    the one field [f] replaced, as a Python attribute assignment does. *)

Class Eta (R : Type) := eta_expand : R -> R.

Class Setter {R T : Type} (proj : R -> T) := update_field : (T -> T) -> R -> R.

Ltac derive_setter :=
  lazymatch goal with
  | |- @Setter ?R ?T ?proj =>
      let inst := constr:(_ : Eta R) in
      let body := eval hnf in (@eta_expand R inst) in
      lazymatch eval pattern proj in body with
      | ?F proj =>
          let upd := eval cbv beta in (fun (g : T -> T) (r : R) => F (fun r' => g (proj r')) r) in
          exact upd
      end
  end.

#[export] Hint Extern 1 (Setter _) => derive_setter : typeclass_instances.

Declare Scope py_scope.
Delimit Scope py_scope with py.
Open Scope py_scope.
Open Scope nat_scope.

Notation "r <| f := v |>" := (update_field (proj := f) (fun _ => v) r)
  (at level 1, left associativity, f at level 99, v at level 99) : py_scope.

Notation "r <| f ::= g |>" := (update_field (proj := f) g r)
  (at level 1, left associativity, f at level 99, g at level 99) : py_scope.

Arguments update_field {R T} proj {_} _ _.

(** ** Exceptions

    The Python exceptions the modelled code raises or catches, and
    [OutOfFuel], which no Python program raises: a fuelled loop returns it
    when its fuel runs out, and each loop has a theorem that it never does. *)

Inductive exn : Type :=
| AssertionError (msg : string)
| KeyError
| IndexError
| ValueError (msg : string)
| TypeError
| AttributeError
| RuntimeError (msg : string)
| ConnectionError (msg : string)
| InvalidRequest (msg : string)
| DuplicateRequestId (msg : string)
| EngineDeadError (msg : string)
| HTTPException (status : Z) (detail : string)
| OverflowError
| ZeroDivisionError
| CancelledError
| SystemExit
| ExternalError (msg : string)
| OutOfFuel.

#[export] Instance exn_eq_dec : EqDecision exn.
Proof. solve_decision. Defined.

(** ** The state and exception monad

    A method that mutates a state [S] and returns an [A] is [M S A]. State
    changes made before a raise are kept, as in Python. *)

Definition M (S A : Type) : Type := S -> (exn + A) * S.

Definition ret {S A} (a : A) : M S A := fun s => (inr a, s).

Definition raise {S A} (e : exn) : M S A := fun s => (inl e, s).

Definition bind {S A B} (m : M S A) (k : A -> M S B) : M S B := fun s =>
  match m s with
  | (inr a, s') => k a s'
  | (inl e, s') => (inl e, s')
  end.

Definition gets {S A} (f : S -> A) : M S A := fun s => (inr (f s), s).

Definition modify {S} (f : S -> S) : M S unit := fun s => (inr tt, f s).

(** [try m except e: h e]. *)
Definition try_except {S A} (m : M S A) (h : exn -> M S A) : M S A := fun s =>
  match m s with
  | (inr a, s') => (inr a, s')
  | (inl e, s') => h e s'
  end.

Definition assert_ {S} (b : bool) (msg : string) : M S unit :=
  if b then ret tt else raise (AssertionError msg).

(** The value of an optional lookup, or the exception a failed one raises. *)
Definition or_raise {S A} (o : option A) (e : exn) : M S A :=
  match o with Some a => ret a | None => raise e end.

Notation "'let!' x := m 'in' k" := (bind m (fun x => k))
  (at level 10, x pattern, m at level 100, k at level 200) : py_scope.

Notation "m ;;; k" := (bind m (fun _ => k))
  (at level 100, k at level 200, right associativity) : py_scope.

Definition when {S} (b : bool) (m : M S unit) : M S unit := if b then m else ret tt.

(** Run a method of a part of the state. *)
Definition zoom {S T A} (get : S -> T) (put : T -> S -> S) (m : M T A) : M S A := fun s =>
  match m (get s) with (r, t) => (r, put t s) end.

Definition on_fst {S T A} (m : M S A) : M (S * T) A :=
  zoom fst (fun s p => (s, p.2)) m.

Definition on_snd {S T A} (m : M T A) : M (S * T) A :=
  zoom snd (fun t p => (p.1, t)) m.

(** [for x in l: f x]. *)
Fixpoint for_each {S A} (l : list A) (f : A -> M S unit) : M S unit :=
  match l with
  | [] => ret tt
  | x :: l' => f x;;; for_each l' f
  end.

(** [for i in range(a, b): f i]. *)
Definition for_range {S} (a b : Z) (f : Z -> M S unit) : M S unit :=
  for_each (seqZ a (b - a)) f.

(** [[f x for x in l]]. *)
Fixpoint collect {S A B} (l : list A) (f : A -> M S B) : M S (list B) :=
  match l with
  | [] => ret []
  | x :: l' => let! y := f x in let! ys := collect l' f in ret (y :: ys)
  end.

(** [while cond: body], where the body returns [false] for a [break]. *)
Fixpoint while_ {S} (fuel : nat) (cond : S -> bool) (body : M S bool) : M S unit :=
  match fuel with
  | O => raise OutOfFuel
  | Datatypes.S fuel' =>
      let! c := gets cond in
      if c
      then (let! go := body in if go : bool then while_ fuel' cond body else ret tt)
      else ret tt
  end.

(** ** Python lists

    Indices and slices with Python's treatment of negative and out-of-range
    positions. *)

Definition py_pos {A} (l : list A) (i : Z) : nat :=
  Z.to_nat (if (i <? 0)%Z then Z.max 0 (Z.of_nat (length l) + i)
            else Z.min i (Z.of_nat (length l)))%Z.

(** [l[i:j]]. *)
Definition py_slice {A} (l : list A) (i j : Z) : list A :=
  take (py_pos l j - py_pos l i) (drop (py_pos l i) l).

(** [l[i:]]. *)
Definition py_from {A} (l : list A) (i : Z) : list A := drop (py_pos l i) l.

(** [l[:j]]. *)
Definition py_upto {A} (l : list A) (j : Z) : list A := take (py_pos l j) l.

(** [l[i]], [None] where Python raises IndexError. *)
Definition py_get {A} (l : list A) (i : Z) : option A :=
  let n := Z.of_nat (length l) in
  if (i <? 0)%Z
  then (if (n + i <? 0)%Z then None else l !! Z.to_nat (n + i))
  else l !! Z.to_nat i.

Definition Zlen {A} (l : list A) : Z := Z.of_nat (length l).

(** [sum(l)]. *)
Definition Zsum (l : list Z) : Z := foldr Z.add 0%Z l.

(** Remove the first element satisfying the test, as [deque.remove] and
    [list.remove] do; [None] where Python raises ValueError. *)
Fixpoint remove_first {A} (P : A -> bool) (l : list A) : option (list A) :=
  match l with
  | [] => None
  | x :: l' => if P x then Some l' else (x ::.) <$> remove_first P l'
  end.

(** ** JSON-like values

    What a request body or a [kv_transfer_params] dict may hold. *)

Inductive pyval : Type :=
| PNone
| PBool (b : bool)
| PInt (z : Z)
| PFloat (q : Qc)
| PStr (s : string)
| PList (l : list pyval)
| PDict (d : list (string * pyval)).

(** [bool(v)]. *)
Definition truthy (v : pyval) : bool :=
  match v with
  | PNone => false
  | PBool b => b
  | PInt z => negb (z =? 0)%Z
  | PFloat q => if Qc_eq_dec q 0%Qc then false else true
  | PStr s => match s with EmptyString => false | _ => true end
  | PList l => match l with [] => false | _ => true end
  | PDict d => match d with [] => false | _ => true end
  end.

(** [bool(d.get(k))] for a dict [d]. *)
Definition get_truthy (d : gmap string pyval) (k : string) : bool :=
  match d !! k with Some v => truthy v | None => false end.

(** [min(l, default=d)] and [max(l, default=d)]. *)
Definition min_default (l : list Z) (d : Z) : Z :=
  match l with [] => d | x :: l' => foldl Z.min x l' end.
Definition max_default (l : list Z) (d : Z) : Z :=
  match l with [] => d | x :: l' => foldl Z.max x l' end.

(** ** Total-correctness triples

    [wp m s Q]: run from [s], the method [m] returns normally, and its value
    and the state it leaves satisfy [Q]. A raise, [OutOfFuel] included,
    falsifies it. *)

Definition wp {S A} (m : M S A) (s : S) (Q : A -> S -> Prop) : Prop :=
  match m s with
  | (inr a, s') => Q a s'
  | (inl _, _) => False
  end.

Section wp_rules.
Context {S : Type}.
Implicit Types s : S.

Lemma wp_ret {A} (a : A) s Q : Q a s -> wp (ret a) s Q.
Proof. done. Qed.

Lemma wp_bind {A B} (m : M S A) (k : A -> M S B) s Q :
  wp m s (fun a s' => wp (k a) s' Q) -> wp (bind m k) s Q.
Proof. unfold wp, bind. by destruct (m s) as [[e|a] s']. Qed.

Lemma wp_bind_inv {A B} (m : M S A) (k : A -> M S B) s Q :
  wp (bind m k) s Q -> wp m s (fun a s' => wp (k a) s' Q).
Proof. unfold wp, bind. by destruct (m s) as [[e|a] s']. Qed.

Lemma wp_gets {A} (f : S -> A) s Q : Q (f s) s -> wp (gets f) s Q.
Proof. done. Qed.

Lemma wp_modify (f : S -> S) s Q : Q tt (f s) -> wp (modify f) s Q.
Proof. done. Qed.

Lemma wp_assert b msg s Q : b = true -> Q tt s -> wp (assert_ b msg) s Q.
Proof. by intros ->. Qed.

Lemma wp_or_raise {A} (o : option A) e a s Q :
  o = Some a -> Q a s -> wp (or_raise o e) s Q.
Proof. by intros ->. Qed.

Lemma wp_mono {A} (m : M S A) s (P Q : A -> S -> Prop) :
  wp m s P -> (forall a s', P a s' -> Q a s') -> wp m s Q.
Proof. unfold wp. destruct (m s) as [[e|a] s']; naive_solver. Qed.

Lemma wp_when b (m : M S unit) s Q :
  (b = true -> wp m s Q) -> (b = false -> Q tt s) -> wp (when b m) s Q.
Proof. destruct b; [intros H _; by apply H | intros _ H; by apply H]. Qed.

Lemma wp_if {A} (b : bool) (m1 m2 : M S A) s Q :
  (b = true -> wp m1 s Q) -> (b = false -> wp m2 s Q) ->
  wp (if b then m1 else m2) s Q.
Proof. destruct b; naive_solver. Qed.

Lemma wp_try {A} (m : M S A) h s Q : wp m s Q -> wp (try_except m h) s Q.
Proof. unfold wp, try_except. by destruct (m s) as [[e|a] s']. Qed.

Lemma wp_zoom {T A} (get : S -> T) (put : T -> S -> S) (m : M T A) s Q :
  wp m (get s) (fun a t => Q a (put t s)) -> wp (zoom get put m) s Q.
Proof. unfold wp, zoom. by destruct (m (get s)) as [[e|a] t]. Qed.

(** [ends m s Q X]: from [s], [m] either returns and satisfies [Q] or raises
    and leaves a state satisfying [X]. *)
Definition ends {A} (m : M S A) s (Q : A -> S -> Prop) (X : S -> Prop) : Prop :=
  match m s with
  | (inr a, s') => Q a s'
  | (inl _, s') => X s'
  end.

Lemma ends_bind {A B} (m : M S A) (k : A -> M S B) s Q X :
  ends m s (fun a s' => ends (k a) s' Q X) X -> ends (bind m k) s Q X.
Proof. unfold ends, bind. by destruct (m s) as [[e|a] s']. Qed.

Lemma ends_mono {A} (m : M S A) s (P Q : A -> S -> Prop) (X Y : S -> Prop) :
  ends m s P X -> (forall a s', P a s' -> Q a s') -> (forall s', X s' -> Y s') -> ends m s Q Y.
Proof. unfold ends. destruct (m s) as [[e|a] s']; naive_solver. Qed.

(** A handler that recovers from every exception. *)
Lemma wp_try_ends {A} (m : M S A) h s Q :
  ends m s Q (fun s' => forall e, wp (h e) s' Q) -> wp (try_except m h) s Q.
Proof. unfold ends, wp, try_except. destruct (m s) as [[e|a] s']; naive_solver. Qed.

(** The loop rule: the invariant may mention the elements already visited. *)
Lemma wp_for_each {A} (l : list A) (f : A -> M S unit) s (I : list A -> S -> Prop) :
  I [] s ->
  (forall done_ x rest s', l = done_ ++ x :: rest -> I done_ s' ->
     wp (f x) s' (fun _ s'' => I (done_ ++ [x]) s'')) ->
  wp (for_each l f) s (fun _ s' => I l s').
Proof.
  intros HI Hstep.
  enough (forall rest done_ s', l = done_ ++ rest -> I done_ s' ->
    wp (for_each rest f) s' (fun _ s'' => I l s'')) as H by by apply (H l []).
  induction rest as [|x rest IH]; intros done_ s' -> Hs'; simpl.
  - by rewrite app_nil_r.
  - apply wp_bind. eapply wp_mono; [by eapply Hstep|].
    intros [] s'' Hs''. apply (IH (done_ ++ [x])); [by rewrite <-app_assoc | done].
Qed.

Lemma wp_collect {A B} (l : list A) (f : A -> M S B) s (I : list A -> list B -> S -> Prop) :
  I [] [] s ->
  (forall done_ x rest ys s', l = done_ ++ x :: rest -> I done_ ys s' ->
     wp (f x) s' (fun y s'' => I (done_ ++ [x]) (ys ++ [y]) s'')) ->
  wp (collect l f) s (fun ys s' => I l ys s').
Proof.
  intros HI Hstep.
  enough (forall rest done_ ys s', l = done_ ++ rest -> I done_ ys s' ->
    wp (collect rest f) s' (fun ys' s'' => I l (ys ++ ys') s'')) as H.
  { exact (H l [] [] s eq_refl HI). }
  induction rest as [|x rest IH]; intros done_ ys s' -> Hs'; simpl.
  - unfold wp, ret. by rewrite !app_nil_r.
  - apply wp_bind. eapply wp_mono; [by eapply Hstep|].
    intros y s'' Hs''. apply wp_bind. eapply wp_mono.
    { apply (IH (done_ ++ [x]) (ys ++ [y])); [by rewrite <-app_assoc | exact Hs'']. }
    intros ys' s3 H3. unfold wp, ret. replace (ys ++ y :: ys') with ((ys ++ [y]) ++ ys'); [done | by rewrite <-app_assoc].
Qed.

(** The fuelled-loop rule: a measure that every iteration decreases, below
    the fuel, proves that the loop ends. *)
Lemma wp_while fuel (cond : S -> bool) body s (mu : S -> nat) (I Q : S -> Prop) :
  I s -> mu s < fuel ->
  (forall s', I s' -> cond s' = false -> Q s') ->
  (forall s', I s' -> cond s' = true ->
     wp body s' (fun go s'' => if go : bool then I s'' /\ mu s'' < mu s' else Q s'')) ->
  wp (while_ fuel cond body) s (fun _ s' => Q s').
Proof.
  intros HI Hmu Hend Hstep. revert s HI Hmu.
  induction fuel as [|fuel IH]; intros s HI Hmu; [lia|]. simpl.
  apply wp_bind, wp_gets. destruct (cond s) eqn:Hc; [|by apply wp_ret, Hend].
  apply wp_bind. eapply wp_mono; [by apply Hstep|].
  intros [] s' Hs'; [|by apply wp_ret]. apply IH; [naive_solver | lia].
Qed.

(** A triple gives the run itself. *)
Lemma wp_run {A} (m : M S A) s Q :
  wp m s Q -> exists a s', m s = (inr a, s') /\ Q a s'.
Proof. unfold wp. destruct (m s) as [[e|a] s'] eqn:E; [done|]. eauto. Qed.

Lemma run_wp {A} (m : M S A) s a s' (Q : A -> S -> Prop) :
  m s = (inr a, s') -> Q a s' -> wp m s Q.
Proof. unfold wp. by intros ->. Qed.

Lemma wp_elim {A} (m : M S A) s a s' (Q : A -> S -> Prop) :
  wp m s Q -> m s = (inr a, s') -> Q a s'.
Proof. unfold wp. by intros H E; rewrite E in H. Qed.

End wp_rules.

(** One step of a triple proof: the rule of the head construct. *)
Ltac wp_step :=
  lazymatch goal with
  | |- wp (bind _ _) _ _ => apply wp_bind
  | |- wp (ret _) _ _ => apply wp_ret
  | |- wp (gets _) _ _ => apply wp_gets
  | |- wp (modify _) _ _ => apply wp_modify
  | |- wp (zoom _ _ _) _ _ => apply wp_zoom
  | |- wp (on_fst _) _ _ => unfold on_fst; apply wp_zoom
  | |- wp (on_snd _) _ _ => unfold on_snd; apply wp_zoom
  | |- wp (assert_ _ _) _ _ => apply wp_assert
  end.

Ltac wp_steps := repeat (wp_step; cbn beta).

(** Use a proved triple for the call at the head of the goal. *)
Tactic Notation "wp_call" uconstr(H) := (eapply wp_mono; [eapply H|]).

(** ** Lemmas on lists and slices *)

Section lists.
Context {A : Type}.
Implicit Types l : list A.

Lemma py_slice_nonneg l (i j : Z) :
  (0 <= i <= j)%Z -> (j <= Zlen l)%Z ->
  py_slice l i j = take (Z.to_nat (j - i)) (drop (Z.to_nat i) l).
Proof.
  intros Hij Hj. unfold py_slice, py_pos, Zlen in *.
  destruct (Z.ltb_spec i 0), (Z.ltb_spec j 0); try lia.
  f_equal; [lia|]. f_equal; lia.
Qed.

Lemma remove_first_perm (P : A -> bool) l :
  (exists x, x ∈ l /\ P x = true) ->
  exists x l', remove_first P l = Some l' /\ P x = true /\ x ∈ l /\ l ≡ₚ x :: l'.
Proof.
  induction l as [|y l IH]; intros (x & Hx & HP); [by apply elem_of_nil in Hx|].
  simpl. destruct (P y) eqn:HPy.
  - exists y, l. repeat split; [done | constructor | done].
  - apply elem_of_cons in Hx as [->|Hx]; [congruence|].
    destruct IH as (z & l' & -> & HPz & Hz & Hp); [eauto|].
    exists z, (y :: l'). repeat split; [done | by constructor |].
    rewrite Hp. constructor.
Qed.

Lemma filter_ext_in (P Q : A -> Prop) `{forall x, Decision (P x), forall x, Decision (Q x)} l :
  (forall x, x ∈ l -> P x <-> Q x) -> filter P l = filter Q l.
Proof.
  induction l as [|x l IH]; intros Hl; [done|]. rewrite !filter_cons.
  rewrite IH by (intros; apply Hl; by right). specialize (Hl x ltac:(by left)).
  do 2 case_decide; tauto.
Qed.

(** Removing by identity removes the one occurrence. *)
Lemma remove_first_eq `{!EqDecision A} x l :
  x ∈ l -> exists l', remove_first (fun y => bool_decide (y = x)) l = Some l' /\ l ≡ₚ x :: l'.
Proof.
  intros Hx. destruct (remove_first_perm (fun y => bool_decide (y = x)) l)
    as (y & l' & Hr & Hy & _ & Hp).
  { exists x. split; [done|]. by apply bool_decide_eq_true. }
  apply bool_decide_eq_true in Hy as ->. eauto.
Qed.

Lemma remove_first_sublist (P : A -> bool) l l' :
  remove_first P l = Some l' -> l' `sublist_of` l.
Proof.
  revert l'. induction l as [|x l IH]; simpl; intros l' H; [done|].
  destruct (P x); [injection H as ->; by constructor|].
  destruct (remove_first P l) as [l''|]; [|done]. injection H as <-.
  constructor. by apply IH.
Qed.

End lists.

Lemma Zlen_app {A} (l k : list A) : Zlen (l ++ k) = (Zlen l + Zlen k)%Z.
Proof. unfold Zlen. rewrite length_app. lia. Qed.

Lemma Zlen_nonneg {A} (l : list A) : (0 <= Zlen l)%Z.
Proof. unfold Zlen. lia. Qed.

Lemma Zsum_app l k : Zsum (l ++ k) = (Zsum l + Zsum k)%Z.
Proof. unfold Zsum. induction l; simpl; lia. Qed.

Lemma elem_of_seqZ_iff (m n k : Z) : k ∈ seqZ m n <-> (m <= k < m + n)%Z.
Proof. apply elem_of_seqZ. Qed.

(** [range(a, b)] unfolds at its first element. *)
Lemma for_range_cons {S} a b (f : Z -> M S unit) :
  (a < b)%Z -> for_range a b f = (f a;;; for_range (a + 1) b f).
Proof.
  intros H. unfold for_range. rewrite (seqZ_cons a (b - a)) by lia. simpl.
  replace (Z.pred (b - a)) with (b - (a + 1))%Z by lia. reflexivity.
Qed.

Lemma for_range_nil {S} a b (f : Z -> M S unit) :
  (b <= a)%Z -> for_range a b f = ret tt.
Proof. intros H. unfold for_range. by rewrite seqZ_nil by lia. Qed.

(** The loop rule for [range(a, b)]: the invariant is indexed by the next
    value of the loop variable. *)
Lemma wp_for_range {S} a b (f : Z -> M S unit) s (I : Z -> S -> Prop) :
  (a <= b)%Z -> I a s ->
  (forall i s', (a <= i < b)%Z -> I i s' -> wp (f i) s' (fun _ s'' => I (i + 1)%Z s'')) ->
  wp (for_range a b f) s (fun _ s' => I b s').
Proof.
  intros Hab HI Hstep. remember (Z.to_nat (b - a)) as n eqn:Hn.
  revert a s Hab HI Hstep Hn. induction n as [|n IH]; intros a s Hab HI Hstep Hn.
  - rewrite for_range_nil by lia. apply wp_ret. by replace b with a by lia.
  - rewrite for_range_cons by lia. apply wp_bind. eapply wp_mono; [apply Hstep; [lia|done]|].
    intros [] s' Hs'. apply IH; [lia | done | | lia].
    intros i s'' Hi. apply Hstep. lia.
Qed.

Create HintDb py.
#[export] Hint Resolve Zlen_nonneg : py.

(** ** Occurrences in a list *)

Fixpoint occ (i : nat) (l : list nat) : nat :=
  match l with
  | [] => 0
  | x :: l' => (if decide (x = i) then 1 else 0) + occ i l'
  end.

Lemma occ_app i l k : occ i (l ++ k) = occ i l + occ i k.
Proof. induction l; simpl; lia. Qed.

Lemma occ_pos i l : 0 < occ i l <-> i ∈ l.
Proof.
  induction l as [|x l IH]; simpl; [rewrite elem_of_nil; lia|].
  rewrite elem_of_cons. case_decide; subst; [naive_solver lia|].
  rewrite <-IH. naive_solver lia.
Qed.

Lemma occ_zero i l : i ∉ l -> occ i l = 0.
Proof. intros Hi. destruct (occ i l) eqn:E; [done|]. destruct Hi. apply occ_pos. lia. Qed.

Lemma occ_reverse i l : occ i (reverse l) = occ i l.
Proof. induction l; [done|]. rewrite reverse_cons, occ_app. simpl. lia. Qed.

Lemma occ_lookup_two i l j k :
  l !! j = Some i -> l !! k = Some i -> j <> k -> 2 <= occ i l.
Proof.
  revert j k. induction l as [|x l IH]; intros j k Hj Hk Hne; [done|].
  assert (Hin : forall n, l !! n = Some i -> 0 < occ i l).
  { intros n Hn. apply occ_pos, list_elem_of_lookup. eauto. }
  simpl. destruct j as [|j], k as [|k]; simpl in *; [done| | |].
  - injection Hj as ->. rewrite decide_True by done. apply Hin in Hk. lia.
  - injection Hk as ->. rewrite decide_True by done. apply Hin in Hj. lia.
  - enough (2 <= occ i l) by lia. apply (IH j k); [done|done|lia].
Qed.

Lemma py_get_lookup {A} (l : list A) (i : Z) :
  (0 <= i)%Z -> py_get l i = l !! Z.to_nat i.
Proof. intros Hi. unfold py_get. by destruct (Z.ltb_spec i 0); [lia|]. Qed.

(** Dropping the one occurrence of an element from a duplicate-free list. *)
Lemma filter_ne_length (j : nat) l :
  NoDup l -> j ∈ l -> S (length (filter (fun k => k <> j) l)) = length l.
Proof.
  induction 1 as [|x l Hx Hnd IH]; intros Hj; [by apply elem_of_nil in Hj|].
  rewrite filter_cons. case_decide as Hxj.
  - apply elem_of_cons in Hj as [->|Hj]; [done|]. simpl. by rewrite IH.
  - assert (x = j) as -> by (destruct (decide (x = j)); naive_solver). simpl. f_equal.
    clear -Hx. induction l as [|y l IH]; [done|]. apply not_elem_of_cons in Hx as [Hne Hx].
    rewrite filter_cons, decide_True by done. simpl. by rewrite IH.
Qed.

(** A ceiling division that is at most [n]. *)
Lemma ceil_div_le (a b n : Z) : (0 < b -> (a + b - 1) / b <= n -> a <= n * b)%Z.
Proof.
  intros Hb Hn. pose proof (Z.mul_succ_div_gt (a + b - 1) b Hb) as Hgt.
  assert (b * ((a + b - 1) / b) <= b * n)%Z by (apply Z.mul_le_mono_nonneg_l; lia). lia.
Qed.

Lemma ceil_div_ge (a b n : Z) : (0 < b -> a <= n * b -> (a + b - 1) / b <= n)%Z.
Proof.
  intros Hb Hn. enough ((a + b - 1) / b < n + 1)%Z by lia.
  apply Z.div_lt_upper_bound; lia.
Qed.
