(* ===== verification/Output.v ===== *)
(** * Request outputs, request metrics and sampling parameters

    [engine/output.py] and [sampling_params.py]: the records a request carries
    in and out of the engine. Times ([perf_counter] seconds) are exact
    rationals; rounding is not modelled. *)

From S2P Require Import Prelude.

(** ** [sampling_params.SamplingParams] *)

Record SamplingParams := {
  sp_temperature : Qc;
  sp_top_p : Qc;
  sp_top_k : Z;
  sp_max_tokens : Z;
  sp_ignore_eos : bool;
  sp_stop_token_ids : list Z;
  sp_skip_special_tokens : bool;
  sp_priority : Z;
  sp_kv_transfer_params : option (gmap string pyval)
}.

#[export] Instance eta_SamplingParams : Eta SamplingParams := fun p =>
  Build_SamplingParams (sp_temperature p) (sp_top_p p) (sp_top_k p) (sp_max_tokens p)
    (sp_ignore_eos p) (sp_stop_token_ids p) (sp_skip_special_tokens p) (sp_priority p)
    (sp_kv_transfer_params p).

(** The dataclass defaults. *)
Definition default_SamplingParams : SamplingParams :=
  {| sp_temperature := 1%Qc; sp_top_p := 1%Qc; sp_top_k := 0; sp_max_tokens := 64;
     sp_ignore_eos := false; sp_stop_token_ids := []; sp_skip_special_tokens := true;
     sp_priority := 0; sp_kv_transfer_params := None |}.

Definition Qc_leb (p q : Qc) : bool := bool_decide (p <= q)%Qc.
Definition Qc_ltb (p q : Qc) : bool := bool_decide (p < q)%Qc.
Definition Qc_eqb (p q : Qc) : bool := bool_decide (p = q).

(** [SamplingParams.__post_init__]: the assertions, then greedy decoding
    clears the truncations. *)
Definition SamplingParams_post_init : M SamplingParams unit :=
  let! p := gets id in
  assert_ (Qc_leb 0 (sp_temperature p)) "";;;
  assert_ (1 <=? sp_max_tokens p)%Z "";;;
  assert_ (Qc_ltb 0 (sp_top_p p) && Qc_leb (sp_top_p p) 1) "";;;
  assert_ (-1 <=? sp_top_k p)%Z "";;;
  when (Qc_eqb (sp_temperature p) 0)
    (modify (fun p => p <| sp_top_p := 1%Qc |> <| sp_top_k := 0%Z |>)).

(** ** [engine.output.RequestMetrics] *)

Record RequestMetrics := {
  rm_arrival_time : Qc;
  rm_num_prompt_tokens : Z;
  rm_num_completion_tokens : Z;
  rm_num_preemptions : Z;
  rm_first_scheduled_time : option Qc;
  rm_first_token_time : option Qc;
  rm_finish_time : option Qc
}.

Definition since (t : option Qc) (start : Qc) : option Qc := (fun t => t - start)%Qc <$> t.

Definition queue_time (m : RequestMetrics) : option Qc :=
  since (rm_first_scheduled_time m) (rm_arrival_time m).

Definition ttft (m : RequestMetrics) : option Qc :=
  since (rm_first_token_time m) (rm_arrival_time m).

Definition e2e (m : RequestMetrics) : option Qc :=
  since (rm_finish_time m) (rm_arrival_time m).

(** Mean seconds per output token after the first. *)
Definition tpot (m : RequestMetrics) : option Qc :=
  match rm_finish_time m, rm_first_token_time m with
  | Some finish, Some first =>
      if (rm_num_completion_tokens m <? 2)%Z then None
      else Some ((finish - first) / Qc_of_Z (rm_num_completion_tokens m - 1))%Qc
  | _, _ => None
  end.

(** ** [engine.output.RequestOutput] *)

Record RequestOutput := {
  ro_request_id : string;
  ro_token_ids : list Z;
  ro_text : string;
  ro_finished : bool;
  ro_finish_reason : option string;
  ro_metrics : option RequestMetrics;
  ro_kv_transfer_params : option (gmap string pyval)
}.

#[export] Instance eta_RequestOutput : Eta RequestOutput := fun r =>
  Build_RequestOutput (ro_request_id r) (ro_token_ids r) (ro_text r) (ro_finished r)
    (ro_finish_reason r) (ro_metrics r) (ro_kv_transfer_params r).

(** ** Lemmas *)

(** What the constructor of [SamplingParams] guarantees. *)
Definition SamplingParamsOk (p : SamplingParams) : Prop :=
  (0 <= sp_temperature p)%Qc /\ (1 <= sp_max_tokens p)%Z /\
  (0 < sp_top_p p)%Qc /\ (sp_top_p p <= 1)%Qc /\ (-1 <= sp_top_k p)%Z /\
  (sp_temperature p = 0%Qc -> sp_top_p p = 1%Qc /\ sp_top_k p = 0%Z).

Lemma SamplingParams_post_init_ok p p' :
  SamplingParams_post_init p = (inr tt, p') -> SamplingParamsOk p'.
Proof.
  unfold SamplingParams_post_init, bind, gets, id, Qc_leb, Qc_ltb, Qc_eqb. simpl.
  destruct (decide (0 <= sp_temperature p)%Qc) as [Ht|Ht];
    [rewrite (bool_decide_eq_true_2 _ Ht) | by rewrite (bool_decide_eq_false_2 _ Ht)].
  destruct (Z.leb_spec 1 (sp_max_tokens p)) as [Hm|]; [|done]. simpl.
  destruct (decide (0 < sp_top_p p)%Qc) as [Hp|Hp];
    [rewrite (bool_decide_eq_true_2 _ Hp) | by rewrite (bool_decide_eq_false_2 _ Hp)].
  destruct (decide (sp_top_p p <= 1)%Qc) as [Hp1|Hp1];
    [rewrite (bool_decide_eq_true_2 _ Hp1) | by rewrite (bool_decide_eq_false_2 _ Hp1)].
  destruct (Z.leb_spec (-1) (sp_top_k p)) as [Hk|]; [|done]. simpl.
  unfold SamplingParamsOk. case_bool_decide as H0; intros [= <-]; simpl; [|tauto].
  split_and!; [done | done | done | done | lia | done].
Qed.
