(* ===== verification/Sequence.v ===== *)
(** * Sequences

    [engine/sequence.py]: one request's tokens, counters, block table and
    chained block hashes, and the pickled form a tensor-parallel worker
    receives. *)

From Stdlib Require Import Strings.Byte.
From S2P Require Import Prelude Output.

(** ** Block hashes *)

(** [int.from_bytes(bytes, "big")]. *)
Definition int_from_bytes_big (bs : list byte) : Z :=
  foldl (fun acc b => acc * 256 + Z.of_N (Byte.to_N b))%Z 0%Z bs.

(** The class attributes of [Sequence], set once from the configuration. The
    digests and the pickler are library code, so they are parameters. *)
Class SeqSettings := {
  block_size : Z;
  enable_prefix_caching : bool;
  hash_algo : string;
  pickle_dumps : Z * list Z -> list byte;
  sha256_digest : list byte -> list byte;
  xxh128_digest : list byte -> list byte
}.

Inductive SequenceStatus :=
| WAITING
| WAITING_FOR_REMOTE_KVS
| RUNNING
| FINISHED.

#[export] Instance SequenceStatus_eq_dec : EqDecision SequenceStatus.
Proof. solve_decision. Defined.

(** The object attributes. [seq_id], drawn from a process-wide counter, is the
    object's identity, and so its address in a store of sequences. *)
Record Sequence := {
  seq_id : nat;
  request_id : string;
  status : SequenceStatus;
  token_ids : list Z;
  last_token : Z;
  num_tokens : Z;
  num_prompt_tokens : Z;
  num_cached_tokens : Z;
  num_pending_tokens : Z;
  num_published_blocks : Z;
  num_scheduled_tokens : Z;
  num_new_tokens : Z;
  spec_token_ids : list Z;
  is_prefill : bool;
  block_table : list nat;
  block_hashes : list Z;
  temperature : Qc;
  top_p : Qc;
  top_k : Z;
  max_tokens : Z;
  ignore_eos : bool;
  stop_token_ids : list Z;
  skip_special_tokens : bool;
  priority : Z;
  kv_transfer_params : option (gmap string pyval);
  kv_transfer_result : option (gmap string pyval);
  finish_reason : option string;
  num_preemptions : Z;
  arrival_time : Qc;
  first_scheduled_time : option Qc;
  first_token_time : option Qc;
  finish_time : option Qc
}.

#[export] Instance eta_Sequence : Eta Sequence := fun s =>
  Build_Sequence (seq_id s) (request_id s) (status s) (token_ids s) (last_token s)
    (num_tokens s) (num_prompt_tokens s) (num_cached_tokens s) (num_pending_tokens s)
    (num_published_blocks s) (num_scheduled_tokens s) (num_new_tokens s) (spec_token_ids s)
    (is_prefill s) (block_table s) (block_hashes s) (temperature s) (top_p s) (top_k s)
    (max_tokens s) (ignore_eos s) (stop_token_ids s) (skip_special_tokens s) (priority s)
    (kv_transfer_params s) (kv_transfer_result s) (finish_reason s) (num_preemptions s)
    (arrival_time s) (first_scheduled_time s) (first_token_time s) (finish_time s).

Section Sequence.
Context `{SeqSettings}.

(** [_serialize]. *)
Definition serialize (token_ids : list Z) (prefix : Z) : list byte :=
  pickle_dumps (prefix, token_ids).

Definition sha256_hash (token_ids : list Z) (prefix : Z) : Z :=
  int_from_bytes_big (sha256_digest (serialize token_ids prefix)).

Definition xxhash_hash (token_ids : list Z) (prefix : Z) : Z :=
  int_from_bytes_big (xxh128_digest (serialize token_ids prefix)).

Definition HASH_ALGOS : gmap string (list Z -> Z -> Z) :=
  {[ "sha256" := sha256_hash; "xxhash" := xxhash_hash ]}.

Definition is_finished (s : Sequence) : bool := bool_decide (status s = FINISHED).

Definition num_completion_tokens (s : Sequence) : Z := num_tokens s - num_prompt_tokens s.

Definition num_planned_tokens (s : Sequence) : Z := num_tokens s + num_pending_tokens s.

Definition prompt_token_ids (s : Sequence) : list Z :=
  py_upto (token_ids s) (num_prompt_tokens s).

Definition completion_token_ids (s : Sequence) : list Z :=
  py_from (token_ids s) (num_prompt_tokens s).

Definition num_blocks (s : Sequence) : Z :=
  (num_planned_tokens s + block_size - 1) / block_size.

(** [block(i)]. *)
Definition block (i : Z) : M Sequence (list Z) :=
  let! n := gets num_blocks in
  assert_ ((0 <=? i) && (i <? n))%Z "";;;
  gets (fun s => py_slice (token_ids s) (i * block_size) ((i + 1) * block_size)).

Definition extend_block_hashes : M Sequence unit :=
  if negb enable_prefix_caching then ret tt else
  let! algo := or_raise (HASH_ALGOS !! hash_algo) KeyError in
  let! first := gets (fun s => Zlen (block_hashes s)) in
  let! last_ := gets (fun s => num_tokens s / block_size)%Z in
  for_range first last_ (fun i =>
    let! prefix := gets (fun s => default (-1)%Z (last (block_hashes s))) in
    let! toks := block i in
    modify (fun s => s <| block_hashes ::= (fun hs => hs ++ [algo toks prefix]) |>)).

Definition reserve_token (n : Z) : M Sequence unit :=
  modify (fun s => s <| num_pending_tokens ::= Z.add n |>).

Definition commit_token (token_id : Z) : M Sequence unit :=
  let! pending := gets num_pending_tokens in
  assert_ (negb (pending =? 0))%Z "commit_token without a reservation";;;
  modify (fun s => s <| token_ids ::= (fun l => l ++ [token_id]) |>
                     <| last_token := token_id |>
                     <| num_tokens ::= Z.add 1 |>
                     <| num_pending_tokens ::= Z.add (-1) |>);;;
  extend_block_hashes.

Definition append_token (token_id : Z) : M Sequence unit :=
  reserve_token 1;;; commit_token token_id.

Definition drop_pending : M Sequence unit :=
  modify (fun s => s <| num_pending_tokens := 0%Z |>).

(** [Sequence.__init__]: [id] is the next value of the counter and [now] the
    clock's reading. An empty prompt has no last token, an IndexError. *)
Definition new_Sequence (id : nat) (now : Qc) (toks : list Z)
    (params : option SamplingParams) (rid : option string) : exn + Sequence :=
  let p := default default_SamplingParams params in
  match last toks with
  | None => inl IndexError
  | Some t =>
      let s := {| seq_id := id;
         request_id := default ("req-" +:+ pretty id) rid;
         status := WAITING;
         token_ids := toks;
         last_token := t;
         num_tokens := Zlen toks;
         num_prompt_tokens := Zlen toks;
         num_cached_tokens := 0;
         num_pending_tokens := 0;
         num_published_blocks := 0;
         num_scheduled_tokens := 0;
         num_new_tokens := 0;
         spec_token_ids := [];
         is_prefill := true;
         block_table := [];
         block_hashes := [];
         temperature := sp_temperature p;
         top_p := sp_top_p p;
         top_k := sp_top_k p;
         max_tokens := sp_max_tokens p;
         ignore_eos := sp_ignore_eos p;
         stop_token_ids := sp_stop_token_ids p;
         skip_special_tokens := sp_skip_special_tokens p;
         priority := sp_priority p;
         kv_transfer_params := sp_kv_transfer_params p;
         kv_transfer_result := None;
         finish_reason := None;
         num_preemptions := 0;
         arrival_time := now;
         first_scheduled_time := None;
         first_token_time := None;
         finish_time := None |} in
      match extend_block_hashes s with
      | (inl e, _) => inl e
      | (inr _, s') => inr s'
      end
  end.

(** [Sequence.metrics]. *)
Definition seq_metrics (s : Sequence) : RequestMetrics :=
  {| rm_arrival_time := arrival_time s;
     rm_num_prompt_tokens := num_prompt_tokens s;
     rm_num_completion_tokens := num_completion_tokens s;
     rm_num_preemptions := num_preemptions s;
     rm_first_scheduled_time := first_scheduled_time s;
     rm_first_token_time := first_token_time s;
     rm_finish_time := finish_time s |}.

End Sequence.

#[global] Arguments block {_} _ _ : simpl never.
#[global] Arguments extend_block_hashes {_} _ : simpl never.
#[global] Arguments reserve_token _ _ : simpl never.
#[global] Arguments commit_token {_} _ _ : simpl never.
#[global] Arguments drop_pending _ : simpl never.

(** ** Pickling

    The tuple a worker receives. The last component is the last token for a
    decode sequence and the whole token list for a prefill. *)

Record SeqState := {
  st_seq_id : nat; st_temperature : Qc; st_top_k : Z; st_top_p : Qc;
  st_num_tokens : Z; st_num_prompt_tokens : Z; st_num_cached_tokens : Z;
  st_num_scheduled_tokens : Z; st_num_pending_tokens : Z; st_is_prefill : bool;
  st_block_table : list nat; st_spec_token_ids : list Z;
  st_last_state : Z + list Z
}.

(** [__getstate__]. *)
Definition getstate (s : Sequence) : SeqState :=
  {| st_seq_id := seq_id s; st_temperature := temperature s; st_top_k := top_k s;
     st_top_p := top_p s; st_num_tokens := num_tokens s;
     st_num_prompt_tokens := num_prompt_tokens s;
     st_num_cached_tokens := num_cached_tokens s;
     st_num_scheduled_tokens := num_scheduled_tokens s;
     st_num_pending_tokens := num_pending_tokens s; st_is_prefill := is_prefill s;
     st_block_table := block_table s; st_spec_token_ids := spec_token_ids s;
     st_last_state := if is_prefill s then inr (token_ids s) else inl (last_token s) |}.

(** The attributes an unpickled sequence has: the worker's view. *)
Record WorkerSequence := {
  ws_seq_id : nat; ws_temperature : Qc; ws_top_k : Z; ws_top_p : Qc;
  ws_num_tokens : Z; ws_num_prompt_tokens : Z; ws_num_cached_tokens : Z;
  ws_num_scheduled_tokens : Z; ws_num_pending_tokens : Z; ws_is_prefill : bool;
  ws_block_table : list nat; ws_spec_token_ids : list Z;
  ws_token_ids : list Z; ws_last_token : Z
}.

(** [__setstate__]: an empty pickled token list has no last token. *)
Definition setstate (st : SeqState) : exn + WorkerSequence :=
  let mk toks t := inr
    {| ws_seq_id := st_seq_id st; ws_temperature := st_temperature st;
       ws_top_k := st_top_k st; ws_top_p := st_top_p st;
       ws_num_tokens := st_num_tokens st; ws_num_prompt_tokens := st_num_prompt_tokens st;
       ws_num_cached_tokens := st_num_cached_tokens st;
       ws_num_scheduled_tokens := st_num_scheduled_tokens st;
       ws_num_pending_tokens := st_num_pending_tokens st; ws_is_prefill := st_is_prefill st;
       ws_block_table := st_block_table st; ws_spec_token_ids := st_spec_token_ids st;
       ws_token_ids := toks; ws_last_token := t |} in
  match st_last_state st with
  | inr toks => match last toks with Some t => mk toks t | None => inl IndexError end
  | inl t => mk [] t
  end.

(** ** Well-formedness *)

Section Facts.
Context `{SeqSettings}.

(** What [Config.__post_init__] checks of the settings. *)
Class SettingsOk : Prop := {
  block_size_pos : (0 < block_size)%Z;
  hash_algo_known : is_Some (HASH_ALGOS !! hash_algo)
}.

(** The configured hash function. *)
Definition block_hash : list Z -> Z -> Z :=
  default (fun _ _ => 0%Z) (HASH_ALGOS !! hash_algo).

(** Block [i] of a token list. *)
Definition block_at (ts : list Z) (i : nat) : list Z :=
  take (Z.to_nat block_size) (drop (i * Z.to_nat block_size) ts).

(** The reference: the chained hashes of the first [n] blocks. *)
Fixpoint chain_hashes (ts : list Z) (n : nat) : list Z :=
  match n with
  | O => []
  | S n' => let hs := chain_hashes ts n' in
            hs ++ [block_hash (block_at ts n') (default (-1)%Z (last hs))]
  end.

Definition num_full_blocks (ts : list Z) : nat := length ts / Z.to_nat block_size.

Definition expected_hashes (ts : list Z) : list Z :=
  if enable_prefix_caching then chain_hashes ts (num_full_blocks ts) else [].

Record SeqWf (s : Sequence) : Prop := {
  wf_len : num_tokens s = Zlen (token_ids s);
  wf_prompt : (1 <= num_prompt_tokens s <= num_tokens s)%Z;
  wf_pending : (0 <= num_pending_tokens s)%Z;
  wf_last : last (token_ids s) = Some (last_token s);
  wf_hashes : block_hashes s = expected_hashes (token_ids s)
}.

Lemma int_from_bytes_big_nonneg bs : (0 <= int_from_bytes_big bs)%Z.
Proof.
  unfold int_from_bytes_big.
  enough (forall acc, 0 <= acc ->
    0 <= foldl (fun a b => a * 256 + Z.of_N (Byte.to_N b)) acc bs)%Z as Hx by by apply Hx.
  induction bs as [|b bs IH]; intros acc Ha; simpl; [done|]. apply IH. lia.
Qed.

(** Hashes never collide with the chain's starting value -1. *)
Lemma block_hash_nonneg ts p : (0 <= block_hash ts p)%Z.
Proof.
  unfold block_hash, HASH_ALGOS.
  destruct (decide (hash_algo = "sha256")) as [->|H1].
  { rewrite lookup_insert_eq. apply int_from_bytes_big_nonneg. }
  rewrite lookup_insert_ne by done.
  destruct (decide (hash_algo = "xxhash")) as [->|H2].
  { rewrite lookup_singleton_eq. apply int_from_bytes_big_nonneg. }
  by rewrite lookup_singleton_ne.
Qed.

Lemma chain_hashes_length ts n : length (chain_hashes ts n) = n.
Proof. induction n; simpl; [done|]. rewrite length_app; simpl. lia. Qed.

Lemma chain_hashes_lookup ts n i :
  i < n -> chain_hashes ts n !! i = last (chain_hashes ts (S i)).
Proof.
  induction n as [|n IH]; intros Hi; [lia|].
  change (chain_hashes ts (S n)) with
    (chain_hashes ts n ++ [block_hash (block_at ts n) (default (-1)%Z (last (chain_hashes ts n)))]).
  destruct (decide (i = n)) as [->|].
  - rewrite lookup_app_r by by rewrite chain_hashes_length.
    rewrite chain_hashes_length, Nat.sub_diag. simpl. by rewrite last_snoc.
  - rewrite lookup_app_l by (rewrite chain_hashes_length; lia). apply IH. lia.
Qed.

Lemma chain_hashes_last ts n :
  last (chain_hashes ts (S n)) =
  Some (block_hash (block_at ts n) (default (-1)%Z (last (chain_hashes ts n)))).
Proof. simpl. by rewrite last_snoc. Qed.

Lemma chain_hashes_nonneg ts n h : h ∈ chain_hashes ts n -> (0 <= h)%Z.
Proof.
  induction n; simpl; [by intros ?%elem_of_nil|].
  rewrite elem_of_app, list_elem_of_singleton. intros [?| ->]; [auto|].
  apply block_hash_nonneg.
Qed.

(** A block only depends on the tokens up to its end. *)
Lemma block_at_app ts k i :
  S i * Z.to_nat block_size <= length ts -> block_at (ts ++ k) i = block_at ts i.
Proof.
  intros Hi. unfold block_at. rewrite drop_app_le by lia.
  rewrite take_app_le; [done|]. rewrite length_drop. lia.
Qed.

Lemma chain_hashes_app ts k n :
  n * Z.to_nat block_size <= length ts -> chain_hashes (ts ++ k) n = chain_hashes ts n.
Proof.
  induction n as [|n IH]; intros Hn; [done|]. simpl in *.
  rewrite IH by lia. by rewrite block_at_app by (simpl; lia).
Qed.

Context {Hok : SettingsOk}.

Lemma bs_nat_pos : 0 < Z.to_nat block_size.
Proof. pose proof block_size_pos. lia. Qed.

Lemma num_full_blocks_Z ts : Z.of_nat (num_full_blocks ts) = (Zlen ts / block_size)%Z.
Proof.
  unfold num_full_blocks, Zlen. pose proof block_size_pos.
  rewrite Nat2Z.inj_div. by rewrite Z2Nat.id by lia.
Qed.

Lemma num_full_blocks_le ts : num_full_blocks ts * Z.to_nat block_size <= length ts.
Proof.
  unfold num_full_blocks. rewrite Nat.mul_comm. apply Nat.Div0.mul_div_le.
Qed.

Lemma block_at_slice ts i :
  (S i * Z.to_nat block_size <= length ts) ->
  py_slice ts (Z.of_nat i * block_size) ((Z.of_nat i + 1) * block_size) = block_at ts i.
Proof.
  intros Hi. pose proof block_size_pos as Hbs.
  rewrite py_slice_nonneg; [|nia|unfold Zlen; nia]. unfold block_at. f_equal; [|f_equal]; nia.
Qed.

(** [block(i)] on a block whose tokens are all there. *)
Lemma block_spec s i :
  num_tokens s = Zlen (token_ids s) -> (0 <= num_pending_tokens s)%Z ->
  i < num_full_blocks (token_ids s) ->
  block (Z.of_nat i) s = (inr (block_at (token_ids s) i), s).
Proof.
  intros Hlen Hp Hi. pose proof (num_full_blocks_le (token_ids s)) as Hle.
  pose proof bs_nat_pos. pose proof block_size_pos.
  unfold block, num_blocks, num_planned_tokens, bind, gets, assert_.
  assert (Hd : (Z.of_nat i + 1 <=
     (num_tokens s + num_pending_tokens s + block_size - 1) / block_size)%Z).
  { apply Z.div_le_lower_bound; [lia|]. rewrite Hlen. unfold Zlen. nia. }
  destruct (Z.leb_spec 0 (Z.of_nat i)); [|lia].
  destruct (Z.ltb_spec (Z.of_nat i)
     ((num_tokens s + num_pending_tokens s + block_size - 1) / block_size)); [|lia].
  unfold andb, ret. rewrite block_at_slice by nia. done.
Qed.

(** [_extend_block_hashes] completes any initial part of the chain. *)
Lemma extend_block_hashes_spec s k :
  num_tokens s = Zlen (token_ids s) -> (0 <= num_pending_tokens s)%Z ->
  k <= num_full_blocks (token_ids s) ->
  (enable_prefix_caching = false -> k = 0) ->
  block_hashes s = chain_hashes (token_ids s) k ->
  extend_block_hashes s = (inr tt, s <| block_hashes := expected_hashes (token_ids s) |>).
Proof.
  intros Hlen Hp Hk Hoff Hh.
  enough (wp extend_block_hashes s (fun _ s' =>
    s' = s <| block_hashes := expected_hashes (token_ids s) |>)) as Hwp.
  { apply wp_run in Hwp as ([] & s' & -> & ->). done. }
  unfold extend_block_hashes, expected_hashes. destruct enable_prefix_caching; simpl.
  2: { apply wp_ret. rewrite Hoff in Hh by done. destruct s; simpl in *. by subst. }
  destruct hash_algo_known as [algo Halgo].
  assert (Heq : block_hash = algo) by (unfold block_hash; by rewrite Halgo).
  wp_steps. eapply wp_or_raise; [exact Halgo|]. wp_steps.
  rewrite Hlen, <-num_full_blocks_Z, Hh. unfold Zlen. rewrite chain_hashes_length.
  pose (I := fun (i : Z) (s' : Sequence) =>
    s' = s <| block_hashes := chain_hashes (token_ids s) (Z.to_nat i) |>).
  eapply wp_mono; [apply (wp_for_range _ _ _ _ I); [lia| |]|].
  - unfold I. rewrite Nat2Z.id, <-Hh. by destruct s.
  - intros i s' Hi ->. wp_steps. replace i with (Z.of_nat (Z.to_nat i)) by lia.
    eapply run_wp; [apply block_spec; simpl; [done|done|lia]|].
    apply wp_modify. unfold I. simpl. rewrite Nat2Z.id.
    replace (Z.to_nat (Z.of_nat (Z.to_nat i) + 1)) with (S (Z.to_nat i)) by lia.
    simpl. by rewrite Heq.
  - intros [] s'. unfold I. by rewrite Nat2Z.id.
Qed.

(** [commit_token] in closed form: the token moves from pending to
    committed, and the hashes follow. *)
Definition committed (t : Z) (s : Sequence) : Sequence :=
  s <| token_ids ::= (fun l => l ++ [t]) |> <| last_token := t |>
    <| num_tokens ::= Z.add 1 |> <| num_pending_tokens ::= Z.add (-1) |>
    <| block_hashes := expected_hashes (token_ids s ++ [t]) |>.

Lemma num_full_blocks_snoc ts t : num_full_blocks ts <= num_full_blocks (ts ++ [t]).
Proof. unfold num_full_blocks. apply Nat.Div0.div_le_mono. rewrite length_app. lia. Qed.

Lemma commit_token_spec s t :
  SeqWf s -> (0 < num_pending_tokens s)%Z ->
  commit_token t s = (inr tt, committed t s).
Proof.
  intros Hwf Hp. unfold commit_token, bind, gets, assert_, modify.
  destruct (Z.eqb_spec (num_pending_tokens s) 0); [lia|]. simpl.
  rewrite (extend_block_hashes_spec _ (length (block_hashes s))); simpl.
  - done.
  - rewrite (wf_len _ Hwf), Zlen_app. unfold Zlen; simpl. lia.
  - lia.
  - rewrite (wf_hashes _ Hwf). unfold expected_hashes. destruct enable_prefix_caching; simpl; [|lia].
    rewrite chain_hashes_length. apply num_full_blocks_snoc.
  - rewrite (wf_hashes _ Hwf). unfold expected_hashes. by intros ->.
  - rewrite (wf_hashes _ Hwf) at 1 2. unfold expected_hashes.
    destruct enable_prefix_caching; [|done]. rewrite chain_hashes_length.
    rewrite chain_hashes_app; [done|]. apply num_full_blocks_le.
Qed.

Lemma commit_token_unreserved s t :
  num_pending_tokens s = 0%Z ->
  commit_token t s = (inl (AssertionError "commit_token without a reservation"), s).
Proof. intros Hp. unfold commit_token, bind, gets. by rewrite Hp. Qed.

Lemma committed_wf s t : SeqWf s -> (0 < num_pending_tokens s)%Z -> SeqWf (committed t s).
Proof.
  intros [Hl Hpr Hp Hla Hh] Hp0. constructor; simpl; try lia.
  - rewrite Hl, Zlen_app. unfold Zlen; simpl; lia.
  - by rewrite last_snoc.
  - done.
Qed.

Lemma new_Sequence_spec id now toks params rid :
  toks <> [] ->
  exists s, new_Sequence id now toks params rid = inr s /\ SeqWf s /\
    seq_id s = id /\ status s = WAITING /\ token_ids s = toks /\
    block_table s = [] /\ num_cached_tokens s = 0%Z /\ num_pending_tokens s = 0%Z /\
    num_published_blocks s = 0%Z /\ is_prefill s = true /\ spec_token_ids s = [] /\
    num_tokens s = num_prompt_tokens s /\ num_preemptions s = 0%Z /\
    max_tokens s = sp_max_tokens (default default_SamplingParams params) /\
    kv_transfer_params s = sp_kv_transfer_params (default default_SamplingParams params) /\
    request_id s = default ("req-" +:+ pretty id) rid /\ num_completion_tokens s = 0%Z.
Proof.
  intros Hne. unfold new_Sequence.
  destruct (last toks) as [t|] eqn:Ht; [|by apply last_None in Ht].
  match goal with |- context [extend_block_hashes ?s0] => set (s := s0) end.
  rewrite (extend_block_hashes_spec s 0) by (simpl; done || lia).
  eexists. split; [done|]. split.
  - constructor; simpl; try done. destruct toks; [done|]. unfold Zlen; simpl. lia.
  - split_and!; try done. unfold num_completion_tokens; simpl. lia.
Qed.

Lemma new_Sequence_empty id now params rid :
  new_Sequence id now [] params rid = inl IndexError.
Proof. done. Qed.

(** The chain identifies the whole prefix: with a collision-free hash, equal
    entries of two chains stand at the same index, after the same tokens. *)
Lemma chain_hashes_inj ts1 ts2 i j :
  (forall b1 p1 b2 p2, block_hash b1 p1 = block_hash b2 p2 -> b1 = b2 /\ p1 = p2) ->
  S i * Z.to_nat block_size <= length ts1 ->
  S j * Z.to_nat block_size <= length ts2 ->
  last (chain_hashes ts1 (S i)) = last (chain_hashes ts2 (S j)) ->
  i = j /\ take (S i * Z.to_nat block_size) ts1 = take (S j * Z.to_nat block_size) ts2.
Proof.
  intros Hinj. revert j. induction i as [|i IH]; intros j Hi Hj Heq;
    rewrite !chain_hashes_last in Heq; injection Heq as [Hb Hp]%Hinj.
  - destruct j as [|j].
    { split; [done|]. unfold block_at in Hb. by rewrite !Nat.mul_1_l. }
    rewrite chain_hashes_last in Hp. simpl in Hp.
    match type of Hp with _ = block_hash ?b ?p => pose proof (block_hash_nonneg b p) end. lia.
  - destruct j as [|j].
    { rewrite ?chain_hashes_last in Hp. simpl in Hp.
      match type of Hp with block_hash ?b ?p = _ => pose proof (block_hash_nonneg b p) end. lia. }
    destruct (IH j) as [-> Ht]; [lia|lia| |].
    { rewrite ?chain_hashes_last in Hp. simpl in Hp. by rewrite !chain_hashes_last, Hp. }
    split; [done|]. unfold block_at in Hb.
    replace (S (S j) * Z.to_nat block_size)
      with (S j * Z.to_nat block_size + Z.to_nat block_size) by lia.
    rewrite <-(take_take_drop ts1), <-(take_take_drop ts2). rewrite Ht. by rewrite Hb.
Qed.

(** The worker's copy of a sequence: every attribute the runner reads is
    kept, a prefill keeps its tokens, and a decode only its last one. *)
Lemma pickle_roundtrip s :
  SeqWf s ->
  exists w, setstate (getstate s) = inr w /\
    ws_seq_id w = seq_id s /\ ws_temperature w = temperature s /\
    ws_top_k w = top_k s /\ ws_top_p w = top_p s /\
    ws_num_tokens w = num_tokens s /\ ws_num_prompt_tokens w = num_prompt_tokens s /\
    ws_num_cached_tokens w = num_cached_tokens s /\
    ws_num_scheduled_tokens w = num_scheduled_tokens s /\
    ws_num_pending_tokens w = num_pending_tokens s /\ ws_is_prefill w = is_prefill s /\
    ws_block_table w = block_table s /\ ws_spec_token_ids w = spec_token_ids s /\
    ws_last_token w = last_token s /\
    ws_token_ids w = (if is_prefill s then token_ids s else []).
Proof.
  intros [_ _ _ Hlast _]. unfold getstate, setstate. simpl.
  destruct (is_prefill s); simpl; [rewrite Hlast|]; eexists; repeat split.
Qed.

End Facts.
