(* ===== verification/BlockManager.v ===== *)
(** * The paged KV-cache block manager

    [engine/block_manager.py]: reference-counted blocks, the queue of free
    blocks in least-recently-released order, and the prefix cache that maps
    chained block hashes to blocks. *)

From S2P Require Import Prelude Output Sequence.

(** ** [Block] *)

Record Block := {
  block_id : nat;
  ref_count : Z;
  b_hash : Z;
  b_token_ids : list Z
}.

#[export] Instance eta_Block : Eta Block := fun b =>
  Build_Block (block_id b) (ref_count b) (b_hash b) (b_token_ids b).

Definition new_Block (id : nat) : Block :=
  {| block_id := id; ref_count := 0; b_hash := -1; b_token_ids := [] |}.

Definition update_block (h : Z) (toks : list Z) (b : Block) : Block :=
  b <| b_hash := h |> <| b_token_ids := toks |>.

Definition reset_block (b : Block) : Block :=
  b <| ref_count := 1%Z |> <| b_hash := (-1)%Z |> <| b_token_ids := [] |>.

(** ** [FreeKVCacheBlockQueue]

    An ordered dict from block id to block object. The objects are those of
    [BlockManager.blocks], so the queue is the list of its keys. *)

Module FreeQueue.

Definition num_free_blocks (q : list nat) : Z := Zlen q.

Definition popleft : M (list nat) nat :=
  let! q := gets (fun x => x) in
  match q with
  | [] => raise (AssertionError "no free blocks")
  | id :: q' => modify (fun _ => q');;; ret id
  end.

Definition remove (id : nat) : M (list nat) unit :=
  let! q := gets (fun x => x) in
  assert_ (bool_decide (id ∈ q)) "";;;
  modify (filter (fun j => j <> id)).

(** Assigning to a present key keeps its position. *)
Definition append (id : nat) : M (list nat) unit :=
  modify (fun q => if bool_decide (id ∈ q) then q else q ++ [id]).

Definition get_all_free_blocks (q : list nat) : list nat := q.

End FreeQueue.

(** ** [BlockManager] *)

Record BlockManager := {
  bm_block_size : Z;
  bm_enable_prefix_caching : bool;
  recompute_last_hit : bool;
  blocks : list Block;
  hash_to_block_id : gmap Z nat;
  free_block_queue : list nat;
  used_block_ids : gset nat
}.

#[export] Instance eta_BlockManager : Eta BlockManager := fun m =>
  Build_BlockManager (bm_block_size m) (bm_enable_prefix_caching m) (recompute_last_hit m)
    (blocks m) (hash_to_block_id m) (free_block_queue m) (used_block_ids m).

Definition new_BlockManager (num_blocks bsize : Z) (caching last_hit : bool) : BlockManager :=
  {| bm_block_size := bsize;
     bm_enable_prefix_caching := caching;
     recompute_last_hit := last_hit;
     blocks := new_Block <$> seq 0 (Z.to_nat num_blocks);
     hash_to_block_id := ∅;
     free_block_queue := seq 0 (Z.to_nat num_blocks);
     used_block_ids := ∅ |}.

Definition usage (m : BlockManager) : Qc :=
  match blocks m with
  | [] => 0%Qc
  | _ => (Qc_of_Z (Z.of_nat (size (used_block_ids m))) / Qc_of_Z (Zlen (blocks m)))%Qc
  end.

Definition on_free {A} (m : M (list nat) A) : M BlockManager A :=
  zoom free_block_queue (fun q bm => bm <| free_block_queue := q |>) m.

(** [self.blocks[id]], by reference: the object may then be mutated. *)
Definition get_block (id : nat) : M BlockManager Block :=
  let! bs := gets blocks in or_raise (bs !! id) IndexError.

Definition set_block (id : nat) (f : Block -> Block) : M BlockManager unit :=
  modify (fun m => m <| blocks ::= alter f id |>).

Definition allocate_block : M BlockManager nat :=
  let! id := on_free FreeQueue.popleft in
  let! b := get_block id in
  assert_ (ref_count b =? 0)%Z "";;;
  let! m := gets hash_to_block_id in
  when (negb (b_hash b =? -1)%Z && bool_decide (m !! b_hash b = Some id))
    (modify (fun m => m <| hash_to_block_id ::= delete (b_hash b) |>));;;
  set_block id reset_block;;;
  modify (fun m => m <| used_block_ids ::= union {[id]} |>);;;
  ret id.

Definition deallocate_block (id : nat) : M BlockManager unit :=
  let! b := get_block id in
  assert_ (ref_count b =? 0)%Z "";;;
  let! used := gets used_block_ids in
  (if bool_decide (id ∈ used)
   then modify (fun m => m <| used_block_ids := used ∖ {[id]} |>)
   else raise KeyError);;;
  on_free (FreeQueue.append id).

Section Operations.
Context `{SeqSettings}.

(** Blocks for existing tokens, pending tokens and the lookahead slots. *)
Definition num_blocks_for (m : BlockManager) (s : Sequence) (num_lookahead : Z) : Z :=
  (num_planned_tokens s + num_lookahead + bm_block_size m - 1) / bm_block_size m.

(** The loop of [can_allocate], over the remaining indices, with the number
    of cached blocks, of new blocks, and whether the last hit was held. *)
Fixpoint count_hits (idxs : list Z) (num_cached num_new : Z) (held : bool)
    : M (BlockManager * Sequence) (Z * Z * bool) :=
  match idxs with
  | [] => ret (num_cached, num_new, held)
  | i :: idxs' =>
      let! hs := gets (fun p => block_hashes p.2) in
      let! h := or_raise (py_get hs i) IndexError in
      let! found := gets (fun p => hash_to_block_id p.1 !! h) in
      match found with
      | None => ret (num_cached, num_new, held)
      | Some id =>
          let! b := on_fst (get_block id) in
          let! toks := on_snd (block i) in
          if bool_decide (b_token_ids b = toks) then
            let! used := gets (fun p => used_block_ids p.1) in
            let now_held := bool_decide (id ∈ used) in
            count_hits idxs' (num_cached + 1)
              (if now_held then num_new - 1 else num_new) now_held
          else ret (num_cached, num_new, held)
      end
  end.

(** The reusable prefix in blocks, or -1 if the allocation cannot fit. *)
Definition can_allocate (num_lookahead : Z) : M (BlockManager * Sequence) Z :=
  let! p := gets (fun x => x) in
  let num_new := num_blocks_for p.1 p.2 num_lookahead in
  let range := if bm_enable_prefix_caching p.1 then seqZ 0 (num_blocks p.2 - 1) else [] in
  let! (num_cached, num_new, held) := count_hits range 0 num_new false in
  let undo := recompute_last_hit p.1 && negb (num_cached =? 0)%Z in
  let num_cached := if undo then (num_cached - 1)%Z else num_cached in
  let num_new := if undo && held then (num_new + 1)%Z else num_new in
  if (FreeQueue.num_free_blocks (free_block_queue p.1) <? num_new)%Z
  then ret (-1)%Z else ret num_cached.

Definition push_table (id : nat) : M (BlockManager * Sequence) unit :=
  on_snd (modify (fun s => s <| block_table ::= (fun t => t ++ [id]) |>)).

(** Take one cached block: another holder, or out of the free queue. *)
Definition take_hit (id : nat) : M BlockManager unit :=
  let! _ := get_block id in
  let! used := gets used_block_ids in
  if bool_decide (id ∈ used)
  then set_block id (fun b => b <| ref_count ::= Z.add 1 |>)
  else
    set_block id (fun b => b <| ref_count := 1%Z |>);;;
    on_free (FreeQueue.remove id);;;
    modify (fun m => m <| used_block_ids ::= union {[id]} |>).

Definition allocate (num_cached num_lookahead : Z) : M (BlockManager * Sequence) unit :=
  let! table := gets (fun p => block_table p.2) in
  assert_ (bool_decide (table = [])) "";;;
  for_range 0 num_cached (fun i =>
    let! hs := gets (fun p => block_hashes p.2) in
    let! h := or_raise (py_get hs i) IndexError in
    let! m := gets (fun p => hash_to_block_id p.1) in
    let! id := or_raise (m !! h) KeyError in
    on_fst (take_hit id);;;
    push_table id);;;
  let! n := gets (fun p => num_blocks_for p.1 p.2 num_lookahead) in
  for_range num_cached n (fun _ =>
    let! id := on_fst allocate_block in push_table id);;;
  let! bs := gets (fun p => bm_block_size p.1) in
  on_snd (modify (fun s => s <| num_cached_tokens := (num_cached * bs)%Z |>
                             <| num_published_blocks := num_cached |>)).

Definition release_ref (id : nat) : M BlockManager unit :=
  let! _ := get_block id in
  set_block id (fun b => b <| ref_count ::= Z.add (-1) |>);;;
  let! b := get_block id in
  when (ref_count b =? 0)%Z (deallocate_block id).

Definition deallocate : M (BlockManager * Sequence) unit :=
  let! table := gets (fun p => block_table p.2) in
  for_each (reverse table) (fun id => on_fst (release_ref id));;;
  on_snd (modify (fun s => s <| num_cached_tokens := 0%Z |>
                             <| num_published_blocks := 0%Z |>
                             <| block_table := [] |>)).

Definition num_missing_blocks (m : BlockManager) (s : Sequence) (num_lookahead : Z) : Z :=
  Z.max (num_blocks_for m s num_lookahead - Zlen (block_table s)) 0.

Definition can_append (m : BlockManager) (s : Sequence) (num_lookahead : Z) : bool :=
  (num_missing_blocks m s num_lookahead <=? FreeQueue.num_free_blocks (free_block_queue m))%Z.

Definition may_append (num_lookahead : Z) : M (BlockManager * Sequence) unit :=
  let! n := gets (fun p => num_missing_blocks p.1 p.2 num_lookahead) in
  for_range 0 n (fun _ => let! id := on_fst allocate_block in push_table id).

(** Publish block [i] of the sequence. *)
Definition publish_block (i : Z) : M (BlockManager * Sequence) unit :=
  let! table := gets (fun p => block_table p.2) in
  let! id := or_raise (py_get table i) IndexError in
  let! b := on_fst (get_block id) in
  let! hs := gets (fun p => block_hashes p.2) in
  let! h := or_raise (py_get hs i) IndexError in
  let! toks := on_snd (block i) in
  on_fst (set_block id (update_block h toks);;;
          modify (fun m => m <| hash_to_block_id ::= insert h (block_id b) |>)).

Definition hash_blocks (num_computed_tokens : Z) : M (BlockManager * Sequence) unit :=
  let! p := gets (fun x => x) in
  if negb (bm_enable_prefix_caching p.1) then ret tt else
  let end_ := (Z.min num_computed_tokens (num_tokens p.2) / bm_block_size p.1)%Z in
  for_range (num_published_blocks p.2) end_ publish_block;;;
  on_snd (modify (fun s => s <| num_published_blocks ::= fun n => Z.max n end_ |>)).

End Operations.

#[global] Arguments get_block _ _ : simpl never.
#[global] Arguments set_block _ _ _ : simpl never.
#[global] Arguments allocate_block _ : simpl never.
#[global] Arguments deallocate_block _ _ : simpl never.
#[global] Arguments can_allocate {_} _ _ : simpl never.
#[global] Arguments take_hit _ _ : simpl never.
#[global] Arguments push_table _ _ : simpl never.
#[global] Arguments allocate _ _ _ : simpl never.
#[global] Arguments release_ref _ _ : simpl never.
#[global] Arguments deallocate _ : simpl never.
#[global] Arguments may_append _ _ : simpl never.
#[global] Arguments publish_block {_} _ _ : simpl never.
#[global] Arguments hash_blocks {_} _ _ : simpl never.
