(* ===== verification/BlockManagerFacts.v ===== *)
(** * Correctness of the block manager

    The invariant [BMInv] relates the blocks' reference counts, the set of
    used blocks and the free queue to the block tables that hold them, and
    the prefix cache to the hashes of the blocks it names. [TableOk] says what
    one sequence's table holds: published blocks with that sequence's tokens,
    and private unpublished ones. Every operation preserves both, raises
    nothing, and keeps ([Frame]) the blocks of other sequences. *)

From S2P Require Import Prelude Output Sequence BlockManager.

(** ** The invariant *)

(** [refs j] is the number of references to block [j] in block tables. *)
Record BMInv (m : BlockManager) (refs : nat -> nat) : Prop := {
  inv_block : forall j b, blocks m !! j = Some b ->
    block_id b = j /\ ref_count b = Z.of_nat (refs j);
  inv_dom : forall j, 0 < refs j -> j < length (blocks m);
  inv_used : forall j, j ∈ used_block_ids m <-> 0 < refs j;
  inv_free_nodup : NoDup (free_block_queue m);
  inv_free : forall j, j ∈ free_block_queue m <-> j < length (blocks m) /\ refs j = 0;
  inv_map : forall h j, hash_to_block_id m !! h = Some j ->
    h <> (-1)%Z /\ exists b, blocks m !! j = Some b /\ b_hash b = h
}.

#[export] Instance BMInv_proper m : Proper (pointwise_relation nat eq ==> iff) (BMInv m).
Proof.
  enough (forall r1 r2, (forall j, r1 j = r2 j) -> BMInv m r1 -> BMInv m r2) as Hx.
  { intros r1 r2 Hr. split; apply Hx; intros j; [apply Hr | symmetry; apply Hr]. }
  intros r1 r2 Hr [H1 H2 H3 H4 H5 H6].
  constructor; try done; intros j; rewrite <-Hr; auto.
Qed.

(** References with one more table. *)
Definition refs_with (refs : nat -> nat) (t : list nat) (j : nat) : nat := refs j + occ j t.

Lemma refs_with_app refs t u j :
  refs_with refs (t ++ u) j = refs_with (refs_with refs t) u j.
Proof. unfold refs_with. rewrite occ_app. lia. Qed.

Lemma refs_with_nil refs j : refs_with refs [] j = refs j.
Proof. unfold refs_with. simpl. lia. Qed.

Definition SameConfig (m m' : BlockManager) : Prop :=
  bm_block_size m' = bm_block_size m /\
  bm_enable_prefix_caching m' = bm_enable_prefix_caching m /\
  recompute_last_hit m' = recompute_last_hit m /\
  length (blocks m') = length (blocks m).

(** What a step leaves alone: the contents of the blocks that [keep] counts,
    and the privacy of the unpublished ones. *)
Definition Frame (keep : nat -> nat) (m : BlockManager) (refs : nat -> nat)
    (m' : BlockManager) (refs' : nat -> nat) : Prop :=
  SameConfig m m' /\
  forall j b, 0 < keep j -> blocks m !! j = Some b ->
    exists b', blocks m' !! j = Some b' /\ b_hash b' = b_hash b /\
      b_token_ids b' = b_token_ids b /\
      (b_hash b = (-1)%Z -> refs j = 1 -> refs' j = 1).

#[export] Instance SameConfig_preorder : PreOrder SameConfig.
Proof.
  split; [intros m; repeat split|].
  intros m1 m2 m3 (?&?&?&?) (?&?&?&?). repeat split; congruence.
Qed.

Lemma Frame_refl keep m refs refs' :
  (forall j, refs' j = refs j) -> Frame keep m refs m refs'.
Proof. intros Hr. split; [done|]. intros j b _ Hb. exists b. rewrite Hr. done. Qed.

Lemma Frame_trans keep m1 r1 m2 r2 m3 r3 :
  Frame keep m1 r1 m2 r2 -> Frame keep m2 r2 m3 r3 -> Frame keep m1 r1 m3 r3.
Proof.
  intros [Hc1 H1] [Hc2 H2]. split; [by etrans|].
  intros j b Hj Hb. destruct (H1 j b Hj Hb) as (b2 & Hb2 & Hh & Ht & Hr).
  destruct (H2 j b2 Hj Hb2) as (b3 & Hb3 & Hh3 & Ht3 & Hr3).
  exists b3. rewrite Hh3, Ht3. repeat split; try done. intros. apply Hr3; [congruence|auto].
Qed.

Lemma Frame_weaken keep keep' m1 r1 m2 r2 :
  (forall j, 0 < keep' j -> 0 < keep j) -> Frame keep m1 r1 m2 r2 -> Frame keep' m1 r1 m2 r2.
Proof. intros Hk [Hc H]. split; [done|]. intros j b Hj. auto. Qed.

Lemma Frame_ext keep m1 r1 r1' m2 r2 r2' :
  (forall j, r1 j = r1' j) -> (forall j, r2 j = r2' j) ->
  Frame keep m1 r1 m2 r2 -> Frame keep m1 r1' m2 r2'.
Proof.
  intros H1 H2 [Hc H]. split; [done|]. intros j b Hj Hb.
  destruct (H j b Hj Hb) as (b' & ? & ? & ? & Hr). exists b'.
  rewrite <-H1, <-H2. done.
Qed.

Section Facts.
Context `{SeqSettings}.

(** What a sequence's block table holds. *)
Record TableOk (m : BlockManager) (refs : nat -> nat) (s : Sequence) : Prop := {
  tbl_published : (0 <= num_published_blocks s <= Zlen (block_table s))%Z;
  tbl_blocks : forall i j, block_table s !! i = Some j ->
    exists b, blocks m !! j = Some b /\
      if (Z.of_nat i <? num_published_blocks s)%Z
      then block_hashes s !! i = Some (b_hash b) /\
           b_token_ids b = block_at (token_ids s) i
      else b_hash b = (-1)%Z /\ refs j = 1
}.

Lemma TableOk_frame keep m refs m' refs' s :
  TableOk m refs s -> Frame keep m refs m' refs' ->
  (forall j, j ∈ block_table s -> 0 < keep j) -> TableOk m' refs' s.
Proof.
  intros [Hp Hb] [_ Hf] Hk. split; [done|]. intros i j Hij.
  destruct (Hb i j Hij) as (b & Hbj & Hcase).
  destruct (Hf j b) as (b' & Hb' & Hh & Ht & Hr); [|done|].
  { apply Hk, list_elem_of_lookup. eauto. }
  exists b'. split; [done|]. rewrite Hh, Ht.
  case_match; [done|]. destruct Hcase as [Hm1 Hr1]. split; [done|auto].
Qed.

(** ** The block-level operations *)

Lemma get_block_spec m refs j :
  BMInv m refs -> j < length (blocks m) ->
  exists b, get_block j m = (inr b, m) /\ blocks m !! j = Some b /\
    block_id b = j /\ ref_count b = Z.of_nat (refs j).
Proof.
  intros Hi Hj. destruct (lookup_lt_is_Some_2 _ _ Hj) as [b Hb]. exists b.
  unfold get_block, bind, gets. rewrite Hb. destruct (inv_block _ _ Hi j b Hb). done.
Qed.

Lemma lookup_alter_blocks (l : list Block) f j k :
  alter f j l !! k = if decide (j = k) then f <$> l !! k else l !! k.
Proof. rewrite list_lookup_alter. case_decide; by subst. Qed.

Lemma allocate_block_spec m refs j q :
  BMInv m refs -> free_block_queue m = j :: q ->
  exists m', allocate_block m = (inr j, m') /\
    BMInv m' (refs_with refs [j]) /\ free_block_queue m' = q /\ refs j = 0 /\
    j < length (blocks m) /\
    (exists b, blocks m' !! j = Some b /\ b_hash b = (-1)%Z) /\
    Frame refs m refs m' (refs_with refs [j]).
Proof.
  intros Hi Hq.
  assert (Hj : j < length (blocks m) /\ refs j = 0).
  { apply (inv_free _ _ Hi). rewrite Hq. constructor. }
  destruct Hj as [Hj Hr0].
  destruct (lookup_lt_is_Some_2 _ _ Hj) as [b Hb].
  destruct (inv_block _ _ Hi j b Hb) as [Hid Hrc]. rewrite Hr0 in Hrc.
  assert (Hnd : NoDup (j :: q)) by (rewrite <-Hq; apply (inv_free_nodup _ _ Hi)).
  apply NoDup_cons in Hnd as [Hjq Hndq].
  set (drop_entry := negb (b_hash b =? -1)%Z &&
         bool_decide (hash_to_block_id m !! b_hash b = Some j)).
  set (m' := {| bm_block_size := bm_block_size m;
       bm_enable_prefix_caching := bm_enable_prefix_caching m;
       recompute_last_hit := recompute_last_hit m;
       blocks := alter reset_block j (blocks m);
       hash_to_block_id := if drop_entry then delete (b_hash b) (hash_to_block_id m)
                           else hash_to_block_id m;
       free_block_queue := q;
       used_block_ids := {[j]} ∪ used_block_ids m |}).
  exists m'. split.
  { unfold allocate_block, on_free, zoom, FreeQueue.popleft, get_block, set_block, bind, gets,
      modify, ret, or_raise, assert_, when, raise. rewrite Hq. simpl. rewrite Hb. simpl.
    rewrite Hrc. simpl. fold drop_entry. by destruct drop_entry. }
  assert (Hbl : forall k, blocks m' !! k =
     if decide (j = k) then Some (reset_block b) else blocks m !! k).
  { intros k. unfold m'; simpl. rewrite lookup_alter_blocks. case_decide; [by subst; rewrite Hb|done]. }
  assert (Hlen : length (blocks m') = length (blocks m)) by apply length_alter.
  split.
  { constructor.
    - intros k bk. rewrite Hbl. unfold refs_with. simpl. case_decide as Hk.
      + intros [= <-]. subst k. simpl. rewrite Hr0. split; [done|lia].
      + intros Hbk. destruct (inv_block _ _ Hi k bk Hbk) as [? ->]. split; [done|lia].
    - intros k. rewrite Hlen. unfold refs_with. simpl. case_decide; [subst; lia|].
      intros Hk. apply (inv_dom _ _ Hi). lia.
    - intros k. unfold m', refs_with; simpl. rewrite elem_of_union, elem_of_singleton.
      rewrite (inv_used _ _ Hi). case_decide; naive_solver lia.
    - done.
    - intros k. rewrite Hlen. change (free_block_queue m') with q.
      pose proof (inv_free _ _ Hi k) as Hk. rewrite Hq, elem_of_cons in Hk.
      unfold refs_with; simpl. case_decide; subst; [|naive_solver lia].
      split; [done|lia].
    - intros h k Hh.
      assert (Hh0 : hash_to_block_id m !! h = Some k).
      { unfold m' in Hh; simpl in Hh. destruct drop_entry; [|done].
        by apply lookup_delete_Some in Hh as [_ ?]. }
      destruct (inv_map _ _ Hi h k Hh0) as (Hne & bk & Hbk & Hhk).
      split; [done|]. rewrite Hbl. case_decide; [|by eauto]. subst k.
      exfalso. assert (bk = b) by congruence. subst bk.
      unfold m' in Hh; simpl in Hh. unfold drop_entry in Hh.
      destruct (Z.eqb_spec (b_hash b) (-1)); [congruence|].
      rewrite Hhk in Hh. rewrite bool_decide_eq_true_2 in Hh by done.
      simpl in Hh. by rewrite lookup_delete_eq in Hh. }
  split; [done|]. split; [done|]. split; [done|]. split.
  { exists (reset_block b). rewrite Hbl, decide_True by done. done. }
  split; [by repeat split|].
  intros k bk Hk Hbk. rewrite Hbl. case_decide; [subst; lia|].
  exists bk. repeat split; [done|]. intros _ Hk1. unfold refs_with; simpl.
  rewrite decide_False by done. lia.
Qed.

Lemma take_hit_spec m refs j b :
  BMInv m refs -> blocks m !! j = Some b -> b_hash b <> (-1)%Z ->
  exists m', take_hit j m = (inr tt, m') /\
    BMInv m' (refs_with refs [j]) /\
    Frame refs m refs m' (refs_with refs [j]) /\
    hash_to_block_id m' = hash_to_block_id m /\
    (forall k, (fun b => (b_hash b, b_token_ids b)) <$> blocks m' !! k =
               (fun b => (b_hash b, b_token_ids b)) <$> blocks m !! k) /\
    length (free_block_queue m') + (if decide (j ∈ used_block_ids m) then 0 else 1) =
      length (free_block_queue m).
Proof.
  intros Hi Hb Hh. pose proof (lookup_lt_Some _ _ _ Hb) as Hj.
  destruct (inv_block _ _ Hi j b Hb) as [Hid Hrc].
  set (held := bool_decide (j ∈ used_block_ids m)).
  set (upd := fun b : Block => if held then b <| ref_count ::= Z.add 1 |> else b <| ref_count := 1%Z |>).
  set (m' := {| bm_block_size := bm_block_size m;
       bm_enable_prefix_caching := bm_enable_prefix_caching m;
       recompute_last_hit := recompute_last_hit m;
       blocks := alter upd j (blocks m);
       hash_to_block_id := hash_to_block_id m;
       free_block_queue := if held then free_block_queue m
                           else filter (fun k => k <> j) (free_block_queue m);
       used_block_ids := if held then used_block_ids m else {[j]} ∪ used_block_ids m |}).
  assert (Hfree : held = false -> j ∈ free_block_queue m).
  { intros Hf. apply bool_decide_eq_false in Hf. apply (inv_free _ _ Hi). split; [done|].
    rewrite (inv_used _ _ Hi) in Hf. lia. }
  assert (Hr : held = true <-> 0 < refs j).
  { unfold held. rewrite bool_decide_eq_true. apply (inv_used _ _ Hi). }
  exists m'. split.
  { unfold take_hit, get_block, set_block, on_free, zoom, FreeQueue.remove, bind, gets, modify,
      or_raise, ret, assert_, m', upd, when. rewrite Hb. simpl. fold held.
    destruct held; [done|]. simpl. rewrite bool_decide_eq_true_2 by by apply Hfree. done. }
  assert (Hbl : forall k, blocks m' !! k = if decide (j = k) then Some (upd b) else blocks m !! k).
  { intros k. unfold m'; simpl. rewrite lookup_alter_blocks. case_decide; [by subst; rewrite Hb|done]. }
  assert (Hsame : b_hash (upd b) = b_hash b /\ b_token_ids (upd b) = b_token_ids b /\
                  block_id (upd b) = block_id b).
  { unfold upd. by destruct held. }
  destruct Hsame as (Hs1 & Hs2 & Hs3).
  assert (Hlen : length (blocks m') = length (blocks m)) by apply length_alter.
  split.
  { constructor.
    - intros k bk. rewrite Hbl. unfold refs_with; simpl. case_decide as Hk.
      + intros [= <-]. subst k. rewrite Hs3. split; [done|]. unfold upd.
        destruct held; simpl; [lia|]. assert (~ 0 < refs j) by (intros ?%Hr; done). lia.
      + intros Hbk. destruct (inv_block _ _ Hi k bk Hbk) as [? ->]. split; [done|lia].
    - intros k. rewrite Hlen. unfold refs_with; simpl. case_decide; [subst; lia|].
      intros Hk. apply (inv_dom _ _ Hi). lia.
    - intros k. unfold m', refs_with; simpl. pose proof (inv_used _ _ Hi k).
      destruct held eqn:Eh; [|rewrite elem_of_union, elem_of_singleton];
        case_decide; naive_solver lia.
    - unfold m'; simpl. destruct held; [|apply NoDup_filter]; apply (inv_free_nodup _ _ Hi).
    - intros k. rewrite Hlen. unfold m', refs_with; simpl. pose proof (inv_free _ _ Hi k).
      destruct held eqn:Eh; [|rewrite list_elem_of_filter]; case_decide; naive_solver lia.
    - intros h k Hh0. destruct (inv_map _ _ Hi h k Hh0) as (Hne & bk & Hbk & Hhk).
      split; [done|]. rewrite Hbl. case_decide; [|by eauto]. subst k.
      exists (upd b). split; [done|]. rewrite Hs1. congruence. }
  split.
  { split; [by repeat split|]. intros k bk Hk Hbk. rewrite Hbl. case_decide.
    - subst k. assert (bk = b) by congruence. subst bk. exists (upd b).
      split; [done|]. split; [done|]. split; [done|]. congruence.
    - exists bk. repeat split; [done|]. intros _ Hk1. unfold refs_with; simpl.
      rewrite decide_False by done. lia. }
  split; [done|]. split.
  { intros k. rewrite Hbl. case_decide; [|done]. subst k. rewrite Hb. simpl. by rewrite Hs1, Hs2. }
  unfold m'; simpl. unfold held in *. destruct (decide (j ∈ used_block_ids m)) as [Hu|Hu].
  - rewrite bool_decide_eq_true_2 by done. lia.
  - rewrite bool_decide_eq_false_2 in Hfree |- * by done.
    pose proof (filter_ne_length j _ (inv_free_nodup _ _ Hi) (Hfree eq_refl)). lia.
Qed.

(** ** Growing a block table *)

(** [fresh] was appended to the table: private blocks without a hash. *)
Record Grown (refs : nat -> nat) (m : BlockManager) (s : Sequence) (fresh : list nat)
    (m' : BlockManager) (s' : Sequence) : Prop := {
  gr_seq : s' = s <| block_table ::= fun t => t ++ fresh |>;
  gr_inv : BMInv m' (refs_with refs fresh);
  gr_frame : Frame refs m refs m' (refs_with refs fresh);
  gr_nodup : NoDup fresh;
  gr_fresh : forall j, j ∈ fresh -> refs j = 0 /\
    exists b, blocks m' !! j = Some b /\ b_hash b = (-1)%Z;
  gr_free : length (free_block_queue m') + length fresh = length (free_block_queue m)
}.

Lemma Grown_nil refs m s : BMInv m refs -> Grown refs m s [] m s.
Proof.
  intros Hi. constructor.
  - destruct s; unfold update_field; simpl. by rewrite app_nil_r.
  - by eapply BMInv_proper; [intros j; apply refs_with_nil|].
  - apply Frame_refl. apply refs_with_nil.
  - constructor.
  - intros j Hj. by apply elem_of_nil in Hj.
  - simpl. lia.
Qed.

Lemma Grown_snoc refs m s fresh m1 s1 :
  Grown refs m s fresh m1 s1 -> 0 < length (free_block_queue m1) ->
  wp (let! j := on_fst allocate_block in push_table j) (m1, s1)
     (fun _ p => exists j, Grown refs m s (fresh ++ [j]) p.1 p.2).
Proof.
  intros [Hs Hi Hf Hnd Hfr Hlen] Hpos.
  destruct (free_block_queue m1) as [|j q] eqn:Hq; [simpl in Hpos; lia|].
  destruct (allocate_block_spec m1 _ j q Hi Hq)
    as (m2 & Hrun & Hi2 & Hq2 & Hr0 & Hj & (b & Hb & Hbh) & Hf2).
  wp_step. unfold on_fst. wp_step. eapply run_wp; [exact Hrun|].
  unfold push_table. wp_steps. exists j.
  unfold refs_with in Hr0.
  constructor; simpl.
  - subst s1. destruct s; unfold update_field; simpl. by rewrite app_assoc.
  - eapply BMInv_proper; [|exact Hi2]. intros k. apply refs_with_app.
  - eapply Frame_trans; [exact Hf|]. eapply Frame_weaken, Frame_ext; [| | |exact Hf2].
    + intros k Hk. unfold refs_with. lia.
    + done.
    + intros k. symmetry. apply refs_with_app.
  - apply NoDup_app. split; [done|]. split; [|apply NoDup_singleton].
    intros k Hk ->%list_elem_of_singleton. apply occ_pos in Hk. lia.
  - intros k. rewrite elem_of_app, list_elem_of_singleton. intros [Hk| ->].
    + destruct (Hfr k Hk) as (Hk0 & bk & Hbk & Hbkh). split; [done|].
      destruct Hf2 as [_ Hf2]. destruct (Hf2 k bk) as (b' & Hb' & Hh' & _); [|done|].
      { unfold refs_with. apply occ_pos in Hk. lia. }
      exists b'. split; [done|congruence].
    + split; [lia|eauto].
  - rewrite length_app, Hq2. simpl. simpl in Hlen. lia.
Qed.

Lemma grow_loop refs m s a b :
  BMInv m refs -> (a <= b)%Z -> Z.to_nat (b - a) <= length (free_block_queue m) ->
  wp (for_range a b (fun _ => let! j := on_fst allocate_block in push_table j)) (m, s)
     (fun _ p => exists fresh, length fresh = Z.to_nat (b - a) /\ Grown refs m s fresh p.1 p.2).
Proof.
  intros Hi Hab Hfree.
  pose (I := fun (i : Z) (p : BlockManager * Sequence) =>
    exists fresh, length fresh = Z.to_nat (i - a) /\ Grown refs m s fresh p.1 p.2).
  apply (wp_for_range _ _ _ _ I); [done| |].
  - exists []. split; [simpl; lia|]. by apply Grown_nil.
  - intros i [m1 s1] Hr (fresh & Hl & Hg). simpl in Hg.
    eapply wp_mono; [eapply Grown_snoc; [exact Hg|]|].
    { pose proof (gr_free _ _ _ _ _ _ Hg). lia. }
    intros [] p (j & Hg'). exists (fresh ++ [j]). split; [|done].
    rewrite length_app. simpl. lia.
Qed.

(** The fresh blocks of a grown table are private. *)
Lemma Grown_private refs m s fresh m' s' j :
  Grown refs m s fresh m' s' -> j ∈ fresh -> refs_with refs fresh j = 1.
Proof.
  intros Hg Hj. destruct (gr_fresh _ _ _ _ _ _ Hg j Hj) as [Hr _].
  unfold refs_with. rewrite Hr. simpl.
  apply list_elem_of_lookup in Hj as Hj'. destruct Hj' as [i Hi].
  assert (Hlt : 0 < occ j fresh) by by apply occ_pos.
  pose proof (gr_nodup _ _ _ _ _ _ Hg) as Hnd. clear -Hnd Hlt.
  induction Hnd as [|x l Hx Hnd IH]; simpl in *; [lia|]. case_decide; [|lia].
  subst. rewrite occ_zero by done. lia.
Qed.

(** ** The prefix cache *)

(** The manager runs with the settings of the sequences. *)
Definition BMConfig (m : BlockManager) : Prop :=
  bm_block_size m = block_size /\ bm_enable_prefix_caching m = enable_prefix_caching.

(** The reference for the prefix lookup: the blocks cached for consecutive
    blocks of the tokens, from block [i], at most [n], up to the first miss. *)
Fixpoint prefix_match (m : BlockManager) (hs ts : list Z) (i n : nat) : list nat :=
  match n with
  | O => []
  | S n' =>
      match hs !! i ≫= (fun h => hash_to_block_id m !! h) with
      | None => []
      | Some j =>
          match blocks m !! j with
          | None => []
          | Some b => if decide (b_token_ids b = block_at ts i)
                      then j :: prefix_match m hs ts (S i) n' else []
          end
      end
  end.

Definition held_count (m : BlockManager) (ids : list nat) : nat :=
  length (filter (fun j => j ∈ used_block_ids m) ids).

Definition cached_prefix (m : BlockManager) (s : Sequence) : list nat :=
  let ids := if bm_enable_prefix_caching m
             then prefix_match m (block_hashes s) (token_ids s) 0 (Z.to_nat (num_blocks s - 1))
             else [] in
  if recompute_last_hit m then take (pred (length ids)) ids else ids.

(** The reference for [can_allocate]: the length of the cached prefix, if the
    blocks it does not supply or does not already hold are free. *)
Definition can_allocate_ref (m : BlockManager) (s : Sequence) (la : Z) : Z :=
  let ids := cached_prefix m s in
  if (Zlen (free_block_queue m) <? num_blocks_for m s la - Z.of_nat (held_count m ids))%Z
  then (-1)%Z else Zlen ids.

(** Block [i] of the sequence's tokens is published, as block [j] of the cache. *)
Definition Hit (m : BlockManager) (s : Sequence) (i j : nat) : Prop :=
  exists h b, block_hashes s !! i = Some h /\ hash_to_block_id m !! h = Some j /\
    blocks m !! j = Some b /\ b_token_ids b = block_at (token_ids s) i.

(** Block [i] of the sequence is cached in block [ids !! i]. *)
Definition Hits (m : BlockManager) (s : Sequence) (ids : list nat) : Prop :=
  forall i j, ids !! i = Some j -> Hit m s i j.

(** The longest published prefix of the sequence, short of its last block: no list of hits goes further. *)
Record LongestPrefix (m : BlockManager) (s : Sequence) (ids : list nat) : Prop := {
  lp_hits : Hits m s ids;
  lp_short : (Zlen ids < num_blocks s)%Z;
  lp_longest js : Hits m s js -> (Zlen js < num_blocks s)%Z -> length js <= length ids
}.

Lemma prefix_match_hits m hs ts i n k j :
  prefix_match m hs ts i n !! k = Some j -> exists h b, hs !! (i + k) = Some h /\
    hash_to_block_id m !! h = Some j /\ blocks m !! j = Some b /\
    b_token_ids b = block_at ts (i + k).
Proof.
  revert i k. induction n as [|n IH]; intros i k Hk; simpl in Hk; [done|].
  destruct (hs !! i) as [h|] eqn:Hh; simpl in Hk; [|done].
  destruct (hash_to_block_id m !! h) as [j'|] eqn:Hj; [|done].
  destruct (blocks m !! j') as [b|] eqn:Hb; [|done].
  case_decide; [|done]. destruct k as [|k]; simpl in Hk.
  - injection Hk as ->. rewrite Nat.add_0_r. eauto 10.
  - replace (i + S k) with (S i + k) by lia. by apply IH.
Qed.

Lemma prefix_match_length m hs ts i n : length (prefix_match m hs ts i n) <= n.
Proof.
  revert i. induction n as [|n IH]; intros i; simpl; [lia|].
  destruct (hs !! i ≫= _) as [j|]; simpl; [|lia].
  destruct (blocks m !! j) as [b|]; simpl; [|lia].
  case_decide; simpl; [|lia]. pose proof (IH (S i)). lia.
Qed.

Lemma cached_prefix_hits m s : Hits m s (cached_prefix m s).
Proof.
  intros i j. unfold cached_prefix.
  set (ids := if bm_enable_prefix_caching m then _ else _). intros Hij.
  assert (Hij' : ids !! i = Some j).
  { destruct (recompute_last_hit m); [|done].
    apply lookup_take_Some in Hij. naive_solver. }
  unfold ids in Hij'. destruct (bm_enable_prefix_caching m); [|done].
  by apply prefix_match_hits in Hij'.
Qed.

Lemma prefix_match_longest m s js i n : Hits m s js -> length js <= i + n ->
  (forall k j, i <= k < i + length (prefix_match m (block_hashes s) (token_ids s) i n) -> js !! k = Some j ->
     prefix_match m (block_hashes s) (token_ids s) i n !! (k - i) = Some j) /\
  length js <= i + length (prefix_match m (block_hashes s) (token_ids s) i n).
Proof.
  intros Hjs. revert i. induction n as [|n IH]; intros i Hl; simpl; [split; [intros; lia|lia]|].
  destruct (js !! i) as [j|] eqn:Hj.
  - destruct (Hjs i j Hj) as (h & b & -> & Hm & Hb & Ht). simpl. rewrite Hm, Hb, decide_True by done.
    destruct (IH (S i) ltac:(lia)) as [H1 H2]. simpl. split; [|lia].
    intros k j' Hk Hkj. destruct (decide (k = i)) as [->|Hne].
    + rewrite Nat.sub_diag. simpl. congruence.
    + replace (k - i) with (S (k - S i)) by lia. apply H1; [lia|done].
  - apply lookup_ge_None in Hj. split; [|lia]. intros k j Hk Hkj. apply lookup_lt_Some in Hkj. lia.
Qed.

Lemma held_count_cons m j ids :
  held_count m (j :: ids) = (if bool_decide (j ∈ used_block_ids m) then 1 else 0) + held_count m ids.
Proof.
  unfold held_count. rewrite filter_cons. case_decide as Hj.
  - by rewrite bool_decide_eq_true_2.
  - by rewrite bool_decide_eq_false_2.
Qed.

Lemma held_count_snoc m j ids :
  held_count m (ids ++ [j]) = held_count m ids + (if bool_decide (j ∈ used_block_ids m) then 1 else 0).
Proof.
  unfold held_count. rewrite filter_app, length_app. f_equal.
  pose proof (held_count_cons m j []) as Hc. unfold held_count in Hc. simpl in Hc.
  rewrite Hc. simpl. lia.
Qed.

Lemma held_count_le m ids : held_count m ids <= length ids.
Proof. apply length_filter. Qed.

(** Whether the last of the hits is held, [held] for none. *)
Definition last_held (m : BlockManager) (ids : list nat) (held : bool) : bool :=
  match last ids with Some j => bool_decide (j ∈ used_block_ids m) | None => held end.

Context {Hok : SettingsOk}.

Lemma count_hits_spec m refs s i n nc nn held :
  BMInv m refs -> SeqWf s -> enable_prefix_caching = true ->
  i + n <= num_full_blocks (token_ids s) ->
  let ids := prefix_match m (block_hashes s) (token_ids s) i n in
  count_hits (seqZ (Z.of_nat i) (Z.of_nat n)) nc nn held (m, s) =
    (inr (nc + Zlen ids, nn - Z.of_nat (held_count m ids), last_held m ids held)%Z, (m, s)).
Proof.
  intros Hi Hwf Hon. revert i nc nn held. induction n as [|n IH]; intros i nc nn held Hle ids.
  { unfold ids. simpl. unfold ret, last_held, held_count, Zlen; simpl. do 4 f_equal; lia. }
  rewrite seqZ_cons by lia. unfold ids. simpl.
  destruct (lookup_lt_is_Some_2 (block_hashes s) i) as [h Hh].
  { rewrite (wf_hashes _ Hwf). unfold expected_hashes. rewrite Hon, chain_hashes_length. lia. }
  assert (Hmiss : ret (nc, nn, held) (m, s) =
    (inr (nc + Zlen (@nil nat), nn - Z.of_nat (held_count m []), last_held m [] held)%Z, (m, s))).
  { unfold ret, held_count, Zlen; simpl. do 4 f_equal; lia. }
  unfold bind, gets, on_fst, on_snd, zoom; simpl.
  rewrite py_get_lookup, Nat2Z.id, Hh by lia. simpl.
  destruct (hash_to_block_id m !! h) as [j|] eqn:Hj; [|exact Hmiss].
  destruct (inv_map _ _ Hi h j Hj) as (_ & b & Hb & _).
  unfold get_block, bind, gets; simpl. rewrite Hb; simpl.
  rewrite (block_spec s i) by (apply Hwf || lia). simpl.
  case_decide as Ht; [rewrite bool_decide_eq_true_2 by done|
                      rewrite bool_decide_eq_false_2 by done; exact Hmiss].
  replace (Z.succ (Z.of_nat i)) with (Z.of_nat (S i)) by lia.
  replace (Z.pred (Z.of_nat (S n))) with (Z.of_nat n) by lia.
  rewrite IH by lia. rewrite held_count_cons. unfold Zlen; simpl.
  set (ids' := prefix_match m (block_hashes s) (token_ids s) (S i) n).
  assert (Hlast : last_held m ids' (bool_decide (j ∈ used_block_ids m)) = last_held m (j :: ids') held).
  { unfold last_held. rewrite last_cons. by destruct (last ids'). }
  rewrite Hlast. do 4 f_equal; [lia|]. destruct (bool_decide (j ∈ used_block_ids m)); lia.
Qed.

Lemma num_blocks_full s :
  SeqWf s -> num_pending_tokens s = 0%Z ->
  Z.to_nat (num_blocks s - 1) <= num_full_blocks (token_ids s).
Proof.
  intros Hwf Hp. pose proof block_size_pos. pose proof (num_full_blocks_Z (token_ids s)) as Hf.
  unfold num_blocks, num_planned_tokens. rewrite Hp, (wf_len _ Hwf).
  enough ((Zlen (token_ids s) + 0 + block_size - 1) / block_size <=
          Zlen (token_ids s) / block_size + 1)%Z by lia.
  rewrite <-(Z.div_add _ 1) by lia. apply Z.div_le_mono; lia.
Qed.

(** [can_allocate] computes the reference, reading only. *)
Lemma can_allocate_eq m refs s la :
  BMInv m refs -> BMConfig m -> SeqWf s -> num_pending_tokens s = 0%Z ->
  can_allocate la (m, s) = (inr (can_allocate_ref m s la), (m, s)).
Proof.
  intros Hi [Hbs Hon] Hwf Hp. unfold can_allocate, can_allocate_ref, cached_prefix.
  unfold bind at 1, gets at 1. simpl. rewrite Hon.
  set (n := Z.to_nat (num_blocks s - 1)).
  set (ids := if enable_prefix_caching
              then prefix_match m (block_hashes s) (token_ids s) 0 n else []).
  assert (Hloop : count_hits (if enable_prefix_caching then seqZ 0 (num_blocks s - 1) else [])
      0 (num_blocks_for m s la) false (m, s) =
    (inr (Zlen ids, num_blocks_for m s la - Z.of_nat (held_count m ids), last_held m ids false)%Z,
     (m, s))).
  { unfold ids. destruct enable_prefix_caching eqn:He.
    - replace (seqZ 0 (num_blocks s - 1)) with (seqZ (Z.of_nat 0) (Z.of_nat n)).
      + rewrite (count_hits_spec m refs) by (done || apply num_blocks_full; done). done.
      + unfold seqZ, n. by rewrite Nat2Z.id.
    - simpl. unfold ret, Zlen, held_count; simpl. do 4 f_equal. lia. }
  unfold bind. rewrite Hloop. unfold FreeQueue.num_free_blocks.
  assert (Hz : Zlen ids = 0%Z <-> ids = []).
  { unfold Zlen. destruct ids; simpl; split; try done; lia. }
  destruct (recompute_last_hit m); simpl.
  2: { by destruct (_ <? _)%Z. }
  destruct (decide (ids = [])) as [->|Hne].
  { simpl. unfold held_count, Zlen; simpl. by destruct (_ <? _)%Z. }
  destruct (Z.eqb_spec (Zlen ids) 0) as [?%Hz|_]; [done|]. simpl.
  destruct (exists_last Hne) as (ids0 & j & Hids). rewrite Hids.
  unfold last_held. rewrite last_snoc, held_count_snoc, length_app; simpl.
  rewrite Nat.add_1_r; simpl. rewrite take_app_le, take_ge by lia. rewrite Zlen_app.
  destruct (bool_decide (j ∈ used_block_ids m)).
  - replace (num_blocks_for m s la - Z.of_nat (held_count m ids0 + 1) + 1)%Z
      with (num_blocks_for m s la - Z.of_nat (held_count m ids0))%Z by lia.
    replace (Zlen ids0 + Zlen [j] - 1)%Z with (Zlen ids0) by (unfold Zlen; simpl; lia).
    by destruct (_ <? _)%Z.
  - rewrite Nat.add_0_r.
    replace (Zlen ids0 + Zlen [j] - 1)%Z with (Zlen ids0) by (unfold Zlen; simpl; lia).
    by destruct (_ <? _)%Z.
Qed.

Lemma cached_prefix_length m s :
  BMConfig m -> SeqWf s -> (0 <= num_pending_tokens s)%Z ->
  (Zlen (cached_prefix m s) < num_blocks s)%Z.
Proof.
  intros [Hbs Hon] Hwf Hp. pose proof block_size_pos.
  assert (Hnb : (1 <= num_blocks s)%Z).
  { pose proof (wf_prompt _ Hwf). unfold num_blocks, num_planned_tokens.
    apply Z.div_le_lower_bound; lia. }
  unfold cached_prefix. rewrite Hon.
  set (ids := if enable_prefix_caching then _ else _).
  assert (Hl : length ids <= Z.to_nat (num_blocks s - 1)).
  { unfold ids. destruct enable_prefix_caching; [apply prefix_match_length|simpl; lia]. }
  destruct (recompute_last_hit m); unfold Zlen; [rewrite length_take|]; lia.
Qed.

Lemma num_blocks_for_le m s la :
  BMConfig m -> (0 <= la)%Z -> (num_blocks s <= num_blocks_for m s la)%Z.
Proof.
  intros [Hbs _] Hla. pose proof block_size_pos. unfold num_blocks, num_blocks_for.
  rewrite Hbs. apply Z.div_le_mono; lia.
Qed.

(** The blocks that a new sequence takes: its longest published prefix, less the last hit where that is recomputed. *)
Definition kept_hits (m : BlockManager) (ids : list nat) : list nat :=
  if recompute_last_hit m then take (pred (length ids)) ids else ids.

Lemma cached_prefix_longest m s : BMConfig m -> SeqWf s -> (0 <= num_pending_tokens s)%Z -> enable_prefix_caching = true ->
  exists ids, LongestPrefix m s ids /\ cached_prefix m s = kept_hits m ids.
Proof.
  intros [Hbs Hon] Hwf Hp He. assert (Hnb : (1 <= num_blocks s)%Z).
  { pose proof block_size_pos. pose proof (wf_prompt _ Hwf). unfold num_blocks, num_planned_tokens. apply Z.div_le_lower_bound; lia. }
  exists (prefix_match m (block_hashes s) (token_ids s) 0 (Z.to_nat (num_blocks s - 1))). split.
  - split.
    + intros i j Hi. by apply prefix_match_hits in Hi.
    + pose proof (prefix_match_length m (block_hashes s) (token_ids s) 0 (Z.to_nat (num_blocks s - 1))). unfold Zlen. lia.
    + intros js Hjs Hl. apply (prefix_match_longest m s js 0); [done|]. unfold Zlen in Hl. lia.
  - unfold cached_prefix, kept_hits. by rewrite Hon, He.
Qed.

Lemma cached_prefix_off m s : BMConfig m -> enable_prefix_caching = false -> cached_prefix m s = [].
Proof. intros [_ Hon] He. unfold cached_prefix. rewrite Hon, He. simpl. by destruct (recompute_last_hit m). Qed.

(** What [allocate] leaves, for a sequence that took the cached blocks [ids]
    and the [fresh] ones. *)
Record Allocated (refs : nat -> nat) (m : BlockManager) (s : Sequence) (ids : list nat)
    (la : Z) (m' : BlockManager) (s' : Sequence) : Prop := {
  al_seq : exists fresh, s' = s <| block_table := ids ++ fresh |>
      <| num_cached_tokens := (Zlen ids * block_size)%Z |>
      <| num_published_blocks := Zlen ids |>;
  al_len : Zlen (block_table s') = num_blocks_for m s la;
  al_inv : BMInv m' (refs_with refs (block_table s'));
  al_frame : Frame refs m refs m' (refs_with refs (block_table s'));
  al_table : TableOk m' (refs_with refs (block_table s')) s'
}.

(** The blocks of the hits, taken one after the other. *)
Record Taken (refs : nat -> nat) (m : BlockManager) (s : Sequence) (ids : list nat)
    (m' : BlockManager) (s' : Sequence) : Prop := {
  tk_seq : s' = s <| block_table := ids |>;
  tk_inv : BMInv m' (refs_with refs ids);
  tk_frame : Frame refs m refs m' (refs_with refs ids);
  tk_map : hash_to_block_id m' = hash_to_block_id m;
  tk_contents : forall k, (fun b => (b_hash b, b_token_ids b)) <$> blocks m' !! k =
                          (fun b => (b_hash b, b_token_ids b)) <$> blocks m !! k;
  tk_free : length (free_block_queue m) <=
    length (free_block_queue m') + (length ids - held_count m ids)
}.

Lemma take_hits refs m s ids :
  BMInv m refs -> block_table s = [] -> Hits m s ids ->
  wp (for_range 0 (Zlen ids) (fun i =>
    let! hs := gets (fun p => block_hashes p.2) in
    let! h := or_raise (py_get hs i) IndexError in
    let! mp := gets (fun p => hash_to_block_id p.1) in
    let! j := or_raise (mp !! h) KeyError in
    on_fst (take_hit j);;; push_table j)) (m, s)
    (fun _ p => Taken refs m s ids p.1 p.2).
Proof.
  intros Hi Htab Hhits.
  pose (I := fun (i : Z) (p : BlockManager * Sequence) =>
    Taken refs m s (take (Z.to_nat i) ids) p.1 p.2).
  eapply wp_mono; [apply (wp_for_range _ _ _ _ I); [unfold Zlen; lia| |]|].
  - unfold I. rewrite take_0. constructor; simpl; try done; try lia.
    + destruct s; simpl in *. by subst.
    + eapply BMInv_proper; [intros j; apply refs_with_nil|done].
    + apply Frame_refl, refs_with_nil.
  - intros i [m1 s1] Hr [Hs1 Hi1 Hf1 Hm1 Hc1 Hfree1]. simpl in *.
    destruct (lookup_lt_is_Some_2 ids (Z.to_nat i)) as [j Hj]; [unfold Zlen in Hr; lia|].
    destruct (Hhits _ _ Hj) as (h & b & Hh & Hmap & Hb & _).
    destruct (inv_map _ _ Hi h j Hmap) as (Hne & b0 & Hb0 & Hbh).
    assert (b0 = b) by congruence. subst b0.
    pose proof (Hc1 j) as Hcj. rewrite Hb in Hcj. simpl in Hcj.
    destruct (blocks m1 !! j) as [b1|] eqn:Hb1; [|done]. simpl in Hcj.
    injection Hcj as Hh1 Ht1.
    wp_steps. simpl. rewrite Hs1. simpl. rewrite py_get_lookup by lia.
    eapply wp_or_raise; [exact Hh|]. wp_steps. simpl. rewrite Hm1. eapply wp_or_raise; [exact Hmap|].
    destruct (take_hit_spec m1 _ j b1 Hi1 Hb1) as (m2 & Hrun & Hi2 & Hf2 & Hm2 & Hc2 & Hfree2);
      [congruence|].
    wp_steps. eapply run_wp; [exact Hrun|]. unfold push_table. wp_steps. unfold I; simpl.
    replace (Z.to_nat (i + 1)) with (S (Z.to_nat i)) by lia. rewrite (take_S_r _ _ j) by done.
    constructor; simpl.
    + done.
    + eapply BMInv_proper; [|exact Hi2]. intros k. apply refs_with_app.
    + eapply Frame_trans; [exact Hf1|]. eapply Frame_weaken, Frame_ext; [| | |exact Hf2].
      * intros k Hk. unfold refs_with. lia.
      * done.
      * intros k. symmetry. apply refs_with_app.
    + congruence.
    + intros k. by rewrite Hc2.
    + rewrite length_app, held_count_snoc. simpl.
      pose proof (held_count_le m (take (Z.to_nat i) ids)).
      case_bool_decide as Hu; case_decide as Hu1; try lia.
      apply (inv_used _ _ Hi) in Hu. destruct Hu1. apply (inv_used _ _ Hi1).
      unfold refs_with. lia.
  - intros [] p. unfold I, Zlen. by rewrite Nat2Z.id, firstn_all.
Qed.

(** After a successful [can_allocate], [allocate] succeeds. *)
Lemma allocate_spec m refs s la :
  BMInv m refs -> BMConfig m -> SeqWf s -> (0 <= num_pending_tokens s)%Z ->
  block_table s = [] -> (0 <= la)%Z -> can_allocate_ref m s la <> (-1)%Z ->
  wp (allocate (can_allocate_ref m s la) la) (m, s)
     (fun _ p => Allocated refs m s (cached_prefix m s) la p.1 p.2).
Proof.
  intros Hi Hcfg Hwf Hp Htab Hla Hfit.
  assert (Hfree : (num_blocks_for m s la - Z.of_nat (held_count m (cached_prefix m s)) <=
                   Zlen (free_block_queue m))%Z /\
                  can_allocate_ref m s la = Zlen (cached_prefix m s)).
  { unfold can_allocate_ref in *.
    destruct (Z.ltb_spec (Zlen (free_block_queue m))
      (num_blocks_for m s la - Z.of_nat (held_count m (cached_prefix m s)))); [done|].
    split; [lia|done]. }
  destruct Hfree as [Hfree ->]. clear Hfit.
  pose proof (cached_prefix_hits m s) as Hhits.
  pose proof (cached_prefix_length m s Hcfg Hwf Hp) as Hlen.
  pose proof (num_blocks_for_le m s la Hcfg Hla) as Hnb.
  set (ids := cached_prefix m s) in *.
  pose proof (held_count_le m ids) as Hheld.
  unfold allocate. wp_steps. simpl. rewrite Htab. wp_steps. { done. }
  wp_call take_hits; [done..|].
  intros [] [m1 s1] [Hs1 Hi1 Hf1 Hm1 Hc1 Hfree1]. simpl in *. wp_steps. simpl.
  assert (Hn1 : num_blocks_for m1 s1 la = num_blocks_for m s la).
  { rewrite Hs1. destruct Hf1 as [(Hb & _) _]. unfold num_blocks_for. by rewrite Hb. }
  rewrite Hn1.
  wp_call (grow_loop (refs_with refs ids)); [done|lia|unfold Zlen in *; lia|].
  intros [] [m2 s2] (fresh & Hfl & Hg). simpl in *. wp_steps. simpl.
  pose proof (gr_seq _ _ _ _ _ _ Hg) as Hs2. pose proof (gr_frame _ _ _ _ _ _ Hg) as Hf2.
  assert (Hbs2 : bm_block_size m2 = block_size).
  { destruct Hf1 as [(Hb1 & _) _], Hf2 as [(Hb2 & _) _]. destruct Hcfg. congruence. }
  rewrite Hbs2, Hs2, Hs1. simpl.
  assert (Hinv2 : BMInv m2 (refs_with refs (ids ++ fresh))).
  { eapply BMInv_proper; [|exact (gr_inv _ _ _ _ _ _ Hg)]. intros j. apply refs_with_app. }
  constructor; simpl.
  - by exists fresh.
  - rewrite Zlen_app. unfold Zlen in *. lia.
  - done.
  - eapply Frame_trans; [exact Hf1|]. eapply Frame_weaken, Frame_ext; [| | |exact Hf2].
    + intros k Hk. unfold refs_with. lia.
    + done.
    + intros k. symmetry. apply refs_with_app.
  - constructor; simpl; [rewrite Zlen_app; unfold Zlen; lia|].
    intros i j Hij. apply lookup_app_Some in Hij as [Hij|[Hge Hij]].
    + pose proof (lookup_lt_Some _ _ _ Hij).
      destruct (Hhits i j Hij) as (h & b & Hh & Hmap & Hb & Ht).
      destruct (inv_map _ _ Hi h j Hmap) as (_ & b0 & Hb0 & Hbh).
      assert (b0 = b) by congruence. subst b0.
      pose proof (Hc1 j) as Hcj. rewrite Hb in Hcj. simpl in Hcj.
      destruct (blocks m1 !! j) as [b1|] eqn:Hb1; [|done]. simpl in Hcj.
      injection Hcj as Hh1 Ht1. destruct Hf2 as [_ Hf2].
      destruct (Hf2 j b1) as (b2 & Hb2 & Hh2 & Ht2 & _); [|done|].
      { unfold refs_with. assert (0 < occ j ids); [|lia].
        apply occ_pos, list_elem_of_lookup. eauto. }
      exists b2. split; [done|]. destruct (Z.ltb_spec (Z.of_nat i) (Zlen ids)); [|unfold Zlen in *; lia].
      split; [|congruence]. rewrite Hh. f_equal. congruence.
    + assert (Hjf : j ∈ fresh) by (apply list_elem_of_lookup; eauto).
      destruct (gr_fresh _ _ _ _ _ _ Hg j Hjf) as (Hr0 & b & Hb & Hbh).
      exists b. split; [done|].
      destruct (Z.ltb_spec (Z.of_nat i) (Zlen ids)); [unfold Zlen in *; lia|].
      split; [done|]. rewrite refs_with_app. by eapply Grown_private.
Qed.

(** ** Releasing a block table *)

(** The contents of the blocks, reference counts aside. *)
Definition SameContents (m m' : BlockManager) : Prop :=
  forall k, (fun b => (b_hash b, b_token_ids b)) <$> blocks m' !! k =
            (fun b => (b_hash b, b_token_ids b)) <$> blocks m !! k.

Lemma SameContents_frame keep m refs m' refs' :
  SameConfig m m' -> SameContents m m' ->
  (forall j, 0 < keep j -> refs j = 1 -> refs' j = 1) -> Frame keep m refs m' refs'.
Proof.
  intros Hc Hs Hr. split; [done|]. intros j b Hj Hb.
  pose proof (Hs j) as Hsj. rewrite Hb in Hsj. simpl in Hsj.
  destruct (blocks m' !! j) as [b'|]; [|done]. simpl in Hsj. injection Hsj as Hh Ht.
  exists b'. auto.
Qed.

Lemma release_ref_spec m refs j :
  BMInv m (refs_with refs [j]) ->
  exists m', release_ref j m = (inr tt, m') /\ BMInv m' refs /\
    SameConfig m m' /\ SameContents m m' /\ hash_to_block_id m' = hash_to_block_id m.
Proof.
  intros Hi.
  assert (Hrj : refs_with refs [j] j = S (refs j)).
  { unfold refs_with; simpl. rewrite decide_True by done. lia. }
  assert (Hrk : forall k, k <> j -> refs_with refs [j] k = refs k).
  { intros k Hk. unfold refs_with; simpl. rewrite decide_False by done. lia. }
  assert (Hj : j < length (blocks m)) by (apply (inv_dom _ _ Hi); lia).
  destruct (lookup_lt_is_Some_2 _ _ Hj) as [b Hb].
  destruct (inv_block _ _ Hi j b Hb) as [Hid Hrc]. rewrite Hrj in Hrc.
  set (last_ := bool_decide (refs j = 0)).
  assert (Hused : j ∈ used_block_ids m) by (apply (inv_used _ _ Hi); lia).
  assert (Hnf : j ∉ free_block_queue m).
  { intros [_ Hf]%(inv_free _ _ Hi). lia. }
  set (m' := {| bm_block_size := bm_block_size m;
       bm_enable_prefix_caching := bm_enable_prefix_caching m;
       recompute_last_hit := recompute_last_hit m;
       blocks := alter (fun b => b <| ref_count ::= Z.add (-1) |>) j (blocks m);
       hash_to_block_id := hash_to_block_id m;
       free_block_queue := if last_ then free_block_queue m ++ [j] else free_block_queue m;
       used_block_ids := if last_ then used_block_ids m ∖ {[j]} else used_block_ids m |}).
  assert (Hbl : forall k, blocks m' !! k =
      if decide (j = k) then Some (b <| ref_count ::= Z.add (-1) |>) else blocks m !! k).
  { intros k. unfold m'; simpl. rewrite lookup_alter_blocks. case_decide; [by subst; rewrite Hb|done]. }
  assert (Hlen : length (blocks m') = length (blocks m)) by apply length_alter.
  assert (Hlast : last_ = true <-> refs j = 0) by apply bool_decide_eq_true.
  exists m'. split.
  { unfold release_ref, get_block, set_block, bind, gets, modify, or_raise, ret. simpl.
    rewrite Hb. simpl. rewrite lookup_alter_blocks, decide_True, Hb by done. simpl.
    rewrite Hrc. unfold when, m'. destruct (Z.eqb_spec (-1 + Z.of_nat (S (refs j))) 0) as [He|He].
    - assert (last_ = true) as -> by (apply Hlast; lia).
      unfold deallocate_block, get_block, on_free, zoom, FreeQueue.append, bind, gets, modify,
        or_raise, ret, assert_. simpl.
      rewrite lookup_alter_blocks, decide_True, Hb by done. simpl. rewrite Hrc.
      destruct (Z.eqb_spec (-1 + Z.of_nat (S (refs j))) 0); [|lia]. simpl.
      rewrite bool_decide_eq_true_2 by done. by rewrite bool_decide_eq_false_2.
    - destruct last_; [|done]. pose proof (proj1 Hlast eq_refl). lia. }
  split.
  { constructor.
    - intros k bk. rewrite Hbl. case_decide as Hk.
      + intros [= <-]. subst k. simpl. split; [done|lia].
      + intros Hbk. destruct (inv_block _ _ Hi k bk Hbk) as [? ->]. by rewrite Hrk.
    - intros k Hk. rewrite Hlen. apply (inv_dom _ _ Hi). unfold refs_with. lia.
    - intros k. unfold m'; simpl. pose proof (inv_used _ _ Hi k) as Hu.
      destruct (decide (k = j)) as [->|Hk]; [rewrite Hrj in Hu|rewrite Hrk in Hu by done];
        destruct last_ eqn:El; rewrite ?elem_of_difference, ?elem_of_singleton;
        naive_solver lia.
    - unfold m'; simpl. destruct last_; [|apply (inv_free_nodup _ _ Hi)].
      apply NoDup_app. split; [apply (inv_free_nodup _ _ Hi)|].
      split; [|apply NoDup_singleton]. intros k Hk ->%list_elem_of_singleton. done.
    - intros k. rewrite Hlen. unfold m'; simpl. pose proof (inv_free _ _ Hi k) as Hf.
      destruct (decide (k = j)) as [->|Hk]; [rewrite Hrj in Hf|rewrite Hrk in Hf by done];
        destruct last_ eqn:El; rewrite ?elem_of_app, ?list_elem_of_singleton;
        naive_solver lia.
    - intros h k Hh0. destruct (inv_map _ _ Hi h k Hh0) as (Hne & bk & Hbk & Hhk).
      split; [done|]. rewrite Hbl. case_decide; [|by eauto]. subst k.
      exists (b <| ref_count ::= Z.add (-1) |>). split; [done|]. simpl. congruence. }
  split; [by repeat split|]. split; [|done].
  intros k. rewrite Hbl. case_decide; [|done]. subst k. by rewrite Hb.
Qed.

(** [deallocate] gives every reference of the table back. *)
Lemma deallocate_spec m others s :
  BMInv m (refs_with others (block_table s)) ->
  wp deallocate (m, s) (fun _ p =>
    p.2 = s <| num_cached_tokens := 0%Z |> <| num_published_blocks := 0%Z |>
            <| block_table := [] |> /\
    BMInv p.1 others /\ SameConfig m p.1 /\ SameContents m p.1 /\
    hash_to_block_id p.1 = hash_to_block_id m).
Proof.
  intros Hi. unfold deallocate. wp_steps. simpl.
  pose (I := fun (done_ : list nat) (p : BlockManager * Sequence) =>
    p.2 = s /\ BMInv p.1 (refs_with others (drop (length done_) (reverse (block_table s)))) /\
    SameConfig m p.1 /\ SameContents m p.1 /\ hash_to_block_id p.1 = hash_to_block_id m).
  eapply wp_mono; [apply (wp_for_each _ _ _ I)|].
  - unfold I; simpl. split_and!; try done.
    eapply BMInv_proper; [|exact Hi]. intros j. unfold refs_with. simpl. rewrite drop_0. by rewrite occ_reverse.
  - intros done_ j rest [m1 s1] Hl (Hs1 & Hi1 & Hc1 & Hk1 & Hm1). simpl in *.
    rewrite Hl, drop_app_length in Hi1.
    destruct (release_ref_spec m1 (refs_with others rest) j) as (m2 & Hrun & Hi2 & Hc2 & Hk2 & Hm2).
    { eapply BMInv_proper; [|exact Hi1]. intros k. unfold refs_with; simpl. lia. }
    wp_step. eapply run_wp; [exact Hrun|]. unfold I; simpl. split_and!; [done| | | |congruence].
    + replace (drop (length (done_ ++ [j])) (reverse (block_table s))) with rest; [done|].
      rewrite Hl, length_app. simpl. rewrite cons_middle, app_assoc.
      rewrite drop_app_length'; [done|]. rewrite length_app. done.
    + by etrans.
    + intros k. by rewrite Hk2.
  - intros [] [m1 s1] (Hs1 & Hi1 & Hc1 & Hk1 & Hm1). simpl in *. wp_steps. simpl. subst s1.
    split_and!; [done| |done|done|done].
    eapply BMInv_proper; [|exact Hi1]. intros j. rewrite drop_ge by done.
    by rewrite refs_with_nil.
Qed.

(** ** Appending and publishing *)

Lemma may_append_spec m others s la :
  BMInv m (refs_with others (block_table s)) -> TableOk m (refs_with others (block_table s)) s ->
  can_append m s la = true ->
  wp (may_append la) (m, s) (fun _ p => exists fresh,
    p.2 = s <| block_table ::= fun t => t ++ fresh |> /\
    (num_blocks_for m s la <= Zlen (block_table p.2))%Z /\
    BMInv p.1 (refs_with others (block_table p.2)) /\
    Frame (refs_with others (block_table s)) m (refs_with others (block_table s))
      p.1 (refs_with others (block_table p.2)) /\
    TableOk p.1 (refs_with others (block_table p.2)) p.2).
Proof.
  intros Hi Ht Hcan. unfold can_append in Hcan. apply Z.leb_le in Hcan.
  unfold may_append. wp_steps. simpl.
  assert (Hn0 : (0 <= num_missing_blocks m s la)%Z) by (unfold num_missing_blocks; lia).
  wp_call (grow_loop (refs_with others (block_table s)) m s); [done|lia| |].
  { unfold FreeQueue.num_free_blocks, Zlen in Hcan. lia. }
  intros [] [m1 s1] (fresh & Hfl & Hg). simpl in *. exists fresh.
  pose proof (gr_seq _ _ _ _ _ _ Hg) as Hs1. rewrite Hs1. simpl.
  assert (Hext : forall j, refs_with (refs_with others (block_table s)) fresh j =
                           refs_with others (block_table s ++ fresh) j).
  { intros j. symmetry. apply refs_with_app. }
  assert (Hf : Frame (refs_with others (block_table s)) m (refs_with others (block_table s))
      m1 (refs_with others (block_table s ++ fresh))).
  { eapply Frame_ext; [done|exact Hext|exact (gr_frame _ _ _ _ _ _ Hg)]. }
  split_and!; [done| | |done|].
  - rewrite Zlen_app. unfold Zlen at 2. rewrite Hfl. unfold num_missing_blocks in *.
    unfold num_blocks_for in *. lia.
  - eapply BMInv_proper; [|exact (gr_inv _ _ _ _ _ _ Hg)]. intros j. by rewrite Hext.
  - assert (Ht1 : TableOk m1 (refs_with others (block_table s ++ fresh)) s).
    { eapply TableOk_frame; [exact Ht|exact Hf|]. intros j Hj. unfold refs_with.
      apply occ_pos in Hj. lia. }
    destruct Ht1 as [Hp Hb]. constructor; simpl.
    + rewrite Zlen_app. pose proof (Zlen_nonneg fresh). lia.
    + intros i j Hij. apply lookup_app_Some in Hij as [Hij|[Hge Hij]]; [by apply Hb|].
      assert (Hjf : j ∈ fresh) by (apply list_elem_of_lookup; eauto).
      destruct (gr_fresh _ _ _ _ _ _ Hg j Hjf) as (Hr0 & b & Hbj & Hbh).
      exists b. split; [done|].
      destruct (Z.ltb_spec (Z.of_nat i) (num_published_blocks s)); [unfold Zlen in *; lia|].
      split; [done|]. rewrite <-Hext. by eapply Grown_private.
Qed.

Lemma expected_hashes_lookup s i :
  SeqWf s -> enable_prefix_caching = true -> i < num_full_blocks (token_ids s) ->
  exists h, block_hashes s !! i = Some h /\ (0 <= h)%Z.
Proof.
  intros Hwf Hon Hi. rewrite (wf_hashes _ Hwf). unfold expected_hashes. rewrite Hon.
  destruct (lookup_lt_is_Some_2 (chain_hashes (token_ids s) (num_full_blocks (token_ids s))) i)
    as [h Hh]; [by rewrite chain_hashes_length|].
  exists h. split; [done|]. eapply chain_hashes_nonneg, list_elem_of_lookup. eauto.
Qed.

Lemma publish_block_spec m others s i :
  BMInv m (refs_with others (block_table s)) ->
  TableOk m (refs_with others (block_table s)) (s <| num_published_blocks := Z.of_nat i |>) ->
  SeqWf s -> enable_prefix_caching = true ->
  i < length (block_table s) -> i < num_full_blocks (token_ids s) ->
  wp (publish_block (Z.of_nat i)) (m, s) (fun _ p => p.2 = s /\
    BMInv p.1 (refs_with others (block_table s)) /\
    Frame others m (refs_with others (block_table s)) p.1 (refs_with others (block_table s)) /\
    TableOk p.1 (refs_with others (block_table s)) (s <| num_published_blocks := Z.of_nat (S i) |>)).
Proof.
  intros Hi Ht Hwf Hon Hlt Hfull.
  destruct (lookup_lt_is_Some_2 (block_table s) i Hlt) as [j Hj].
  destruct (tbl_blocks _ _ _ Ht i j Hj) as (b & Hb & Hcase).
  simpl in Hcase. rewrite Z.ltb_irrefl in Hcase. destruct Hcase as [Hbh Hr1].
  destruct (expected_hashes_lookup s i Hwf Hon Hfull) as (h & Hh & Hh0).
  destruct (inv_block _ _ Hi j b Hb) as [Hid Hrc].
  assert (Honly : forall k j', block_table s !! k = Some j' -> k <> i -> j' <> j).
  { intros k j' Hk Hne ->. pose proof (occ_lookup_two j _ k i Hk Hj Hne).
    unfold refs_with in Hr1. lia. }
  unfold publish_block, on_fst, on_snd. wp_steps. simpl. rewrite py_get_lookup, Nat2Z.id by lia.
  eapply wp_or_raise; [exact Hj|]. wp_steps. simpl. unfold get_block. wp_steps.
  eapply wp_or_raise; [exact Hb|]. wp_steps. simpl. rewrite py_get_lookup, Nat2Z.id by lia.
  eapply wp_or_raise; [exact Hh|]. wp_steps. simpl.
  eapply run_wp; [apply block_spec; apply Hwf || done|]. wp_steps. unfold set_block. wp_steps.
  simpl. set (b' := update_block h (block_at (token_ids s) i) b).
  match goal with |- context [BMInv ?x _] => set (m' := x) end.
  assert (Hbl : forall k, blocks m' !! k = if decide (j = k) then Some b' else blocks m !! k).
  { intros k. unfold m'; simpl. rewrite lookup_alter_blocks. case_decide; [by subst; rewrite Hb|done]. }
  assert (Hlen : length (blocks m') = length (blocks m)) by (unfold m'; simpl; apply length_alter).
  split_and!; [done| | |].
  - constructor.
    + intros k bk. rewrite Hbl. case_decide as Hk; [|by apply (inv_block _ _ Hi)].
      intros [= <-]. by subst k.
    + intros k. rewrite Hlen. apply (inv_dom _ _ Hi).
    + apply (inv_used _ _ Hi).
    + apply (inv_free_nodup _ _ Hi).
    + intros k. rewrite Hlen. apply (inv_free _ _ Hi).
    + intros h' k Hk. unfold m' in Hk; simpl in Hk. rewrite Hbl.
      apply lookup_insert_Some in Hk as [[<- <-]|[Hne Hk]].
      * split; [lia|]. rewrite Hid, decide_True by done. by exists b'.
      * destruct (inv_map _ _ Hi h' k Hk) as (Hn & bk & Hbk & Hhk). split; [done|].
        case_decide; [|by eauto]. subst k. congruence.
  - split; [by repeat split|]. intros k bk Hk Hbk. rewrite Hbl. case_decide; [|by exists bk].
    subst k. assert (0 < occ j (block_table s)).
    { apply occ_pos, list_elem_of_lookup. eauto. }
    unfold refs_with in Hr1. lia.
  - destruct Ht as [Hp Hbs]. constructor; simpl; [unfold Zlen; lia|].
    intros k j' Hk. rewrite Hbl. destruct (decide (k = i)) as [->|Hne].
    + assert (j' = j) by congruence. subst j'. rewrite decide_True by done. exists b'.
      split; [done|]. destruct (Z.ltb_spec (Z.of_nat i) (Z.of_nat (S i))); [|lia]. done.
    + rewrite decide_False by (intros <-; by eapply Honly).
      destruct (Hbs k j' Hk) as (bk & Hbk & Hc). exists bk. split; [done|].
      simpl in Hc.
      destruct (Z.ltb_spec (Z.of_nat k) (Z.of_nat i)), (Z.ltb_spec (Z.of_nat k) (Z.of_nat (S i)));
        done || lia.
Qed.

(** [hash_blocks] publishes every full block that is computed and committed. *)
Lemma hash_blocks_spec m others s n :
  BMInv m (refs_with others (block_table s)) -> BMConfig m ->
  TableOk m (refs_with others (block_table s)) s -> SeqWf s ->
  (Z.min n (num_tokens s) / block_size <= Zlen (block_table s))%Z ->
  wp (hash_blocks n) (m, s) (fun _ p =>
    p.2 = s <| num_published_blocks := if enable_prefix_caching
               then Z.max (num_published_blocks s) (Z.min n (num_tokens s) / block_size)
               else num_published_blocks s |> /\
    BMInv p.1 (refs_with others (block_table s)) /\
    Frame others m (refs_with others (block_table s)) p.1 (refs_with others (block_table s)) /\
    TableOk p.1 (refs_with others (block_table s)) p.2).
Proof.
  intros Hi [Hbs Hon] Ht Hwf Hend. pose proof block_size_pos.
  unfold hash_blocks. wp_steps. simpl. rewrite Hon.
  destruct enable_prefix_caching eqn:He; simpl.
  2: { apply wp_ret. simpl.
       assert (Hs : s <| num_published_blocks := num_published_blocks s |> = s) by by destruct s.
       rewrite Hs. split_and!; [done|done|by apply Frame_refl|done]. }
  rewrite Hbs. set (e := (Z.min n (num_tokens s) / block_size)%Z) in *. unfold on_snd. wp_steps.
  pose proof (tbl_published _ _ _ Ht) as Hpub.
  destruct (decide (num_published_blocks s <= e)%Z) as [Hle|Hgt].
  2: { rewrite for_range_nil by lia. apply wp_ret. wp_steps. simpl.
       replace (Z.max (num_published_blocks s) e) with (num_published_blocks s) by lia.
       assert (Hs : s <| num_published_blocks := num_published_blocks s |> = s) by by destruct s.
       rewrite Hs.
       assert (Hs2 : s <| num_published_blocks ::= fun n0 => Z.max n0 e |> = s).
       { destruct s; unfold update_field; simpl in *. f_equal. lia. }
       rewrite Hs2. split_and!; [done|done|by apply Frame_refl|done]. }
  assert (Hfull : (e <= Z.of_nat (num_full_blocks (token_ids s)))%Z).
  { rewrite num_full_blocks_Z, <-(wf_len _ Hwf). apply Z.div_le_mono; lia. }
  pose (I := fun (i : Z) (p : BlockManager * Sequence) => p.2 = s /\
    BMInv p.1 (refs_with others (block_table s)) /\
    Frame others m (refs_with others (block_table s)) p.1 (refs_with others (block_table s)) /\
    TableOk p.1 (refs_with others (block_table s)) (s <| num_published_blocks := i |>)).
  eapply wp_mono; [apply (wp_for_range _ _ _ _ I); [done| |]|].
  - unfold I; simpl. assert (Hs : s <| num_published_blocks := num_published_blocks s |> = s) by by destruct s.
    rewrite Hs. split_and!; [done|done|by apply Frame_refl|done].
  - intros i [m1 s1] Hr (Hs1 & Hi1 & Hf1 & Ht1). simpl in *. subst s1.
    pose proof (publish_block_spec m1 others s (Z.to_nat i) Hi1) as Hrun.
    replace (Z.of_nat (S (Z.to_nat i))) with (i + 1)%Z in Hrun by lia.
    replace (Z.of_nat (Z.to_nat i)) with i in Hrun by lia.
    wp_call Hrun; [done|done|done|unfold Zlen in *; lia|lia|].
    intros [] [m2 s2] (Hs2 & Hi2 & Hf2 & Ht2). simpl in *.
    unfold I; simpl. split_and!; [done|done|by eapply Frame_trans|done].
  - intros [] [m1 s1] (Hs1 & Hi1 & Hf1 & Ht1). simpl in *. subst s1. wp_steps. simpl.
    replace (Z.max (num_published_blocks s) e) with e by lia.
    assert (Hs2 : s <| num_published_blocks ::= fun n0 => Z.max n0 e |> =
                  s <| num_published_blocks := e |>).
    { destruct s; unfold update_field; simpl in *. f_equal. lia. }
    rewrite Hs2. done.
Qed.

End Facts.
