(* ===== verification/Policy.v ===== *)
(** * Scheduling policies

    [engine/policy.py]: the waiting queue and the choice of preemption
    victims, as an interface with its laws, and the two policies that
    implement it. A queue entry carries the attributes a policy reads, none of
    which changes after construction; [seq_id] stands for the object. *)

From S2P Require Import Prelude Output Sequence.

Record QItem := { qi_id : nat; qi_priority : Z; qi_arrival : Qc }.

#[export] Instance QItem_eq_dec : EqDecision QItem.
Proof. solve_decision. Defined.

Definition item_of (s : Sequence) : QItem :=
  {| qi_id := seq_id s; qi_priority := priority s; qi_arrival := arrival_time s |}.

(** ** The interface

    [SchedulingPolicy] names the abstract methods; a deque of running
    sequences is passed as their items. *)

Class SchedulingPolicy (Q : Type) := {
  pol_add : QItem -> Q -> Q;
  pol_requeue : QItem -> Q -> Q;
  pol_peek : Q -> option QItem;
  pol_pop : Q -> option (QItem * Q);
  pol_remove : QItem -> Q -> option Q;
  pol_len : Q -> nat;
  pol_iter : Q -> list QItem;
  pol_victim : Q -> list QItem -> option QItem;
  pol_by_urgency : Q -> list QItem -> list QItem
}.

(** What the scheduler relies on. *)
Class SchedulingPolicyLaws (Q : Type) `{SchedulingPolicy Q} : Prop := {
  pol_len_iter : forall q, pol_len q = length (pol_iter q);
  pol_add_iter : forall x q, pol_iter (pol_add x q) ≡ₚ x :: pol_iter q;
  pol_requeue_iter : forall x q, pol_iter (pol_requeue x q) ≡ₚ x :: pol_iter q;
  pol_peek_some : forall q, pol_iter q <> [] -> exists x, pol_peek q = Some x;
  pol_peek_none : forall q, pol_iter q = [] -> pol_peek q = None;
  pol_pop_peek : forall q x, pol_peek q = Some x ->
    exists q', pol_pop q = Some (x, q') /\ pol_iter q ≡ₚ x :: pol_iter q';
  pol_remove_iter : forall x q, x ∈ pol_iter q ->
    exists q', pol_remove x q = Some q' /\ pol_iter q ≡ₚ x :: pol_iter q';
  pol_victim_in : forall q l, l <> [] -> exists x, pol_victim q l = Some x /\ x ∈ l;
  pol_by_urgency_perm : forall q l, pol_by_urgency q l ≡ₚ l
}.

(** ** [Fcfs] *)

Module Fcfs.

Record Queue := mk { queue : list QItem }.

Definition init : Queue := mk [].
Definition add (x : QItem) (q : Queue) : Queue := mk (queue q ++ [x]).
Definition requeue (x : QItem) (q : Queue) : Queue := mk (x :: queue q).
Definition peek (q : Queue) : option QItem := head (queue q).
Definition pop (q : Queue) : option (QItem * Queue) :=
  match queue q with [] => None | x :: l => Some (x, mk l) end.
(** [deque.remove] compares by identity. *)
Definition remove (x : QItem) (q : Queue) : option Queue :=
  mk <$> remove_first (fun y => bool_decide (y = x)) (queue q).
Definition victim (q : Queue) (running : list QItem) : option QItem := last running.
Definition by_urgency (q : Queue) (running : list QItem) : list QItem := running.

End Fcfs.

#[export] Instance Fcfs_policy : SchedulingPolicy Fcfs.Queue := {
  pol_add := Fcfs.add;
  pol_requeue := Fcfs.requeue;
  pol_peek := Fcfs.peek;
  pol_pop := Fcfs.pop;
  pol_remove := Fcfs.remove;
  pol_len := fun q => length (Fcfs.queue q);
  pol_iter := Fcfs.queue;
  pol_victim := Fcfs.victim;
  pol_by_urgency := Fcfs.by_urgency
}.

(** ** [Priority]

    The heap holds the entries by [(priority, arrival_time, seq_id)], which
    [seq_id] makes a total order. [heapq] is modelled by its contract: the
    list is kept sorted, so its head is [heap[0]], the smallest entry, which
    [heappop] removes. *)

Module Priority.

Record Queue := mk { heap : list QItem }.

(** Tuple comparison, strict on the first component that differs. *)
Definition key_lt (x y : QItem) : bool :=
  if (qi_priority x <? qi_priority y)%Z then true
  else if (qi_priority y <? qi_priority x)%Z then false
  else if Qc_ltb (qi_arrival x) (qi_arrival y) then true
  else if Qc_ltb (qi_arrival y) (qi_arrival x) then false
  else bool_decide (qi_id x < qi_id y).

Fixpoint heappush (x : QItem) (l : list QItem) : list QItem :=
  match l with
  | [] => [x]
  | y :: l' => if key_lt x y then x :: l else y :: heappush x l'
  end.

Definition init : Queue := mk [].
Definition add (x : QItem) (q : Queue) : Queue := mk (heappush x (heap q)).
Definition peek (q : Queue) : option QItem := head (heap q).
Definition pop (q : Queue) : option (QItem * Queue) :=
  match heap q with [] => None | x :: l => Some (x, mk l) end.
Definition remove (x : QItem) (q : Queue) : option Queue :=
  mk <$> remove_first (fun y => bool_decide (y = x)) (heap q).

(** [_urgency] comparisons: priority, then arrival. *)
Definition urgency_lt (x y : QItem) : bool :=
  if (qi_priority x <? qi_priority y)%Z then true
  else if (qi_priority y <? qi_priority x)%Z then false
  else Qc_ltb (qi_arrival x) (qi_arrival y).

(** [max(running, key=_urgency)]: the first of the largest. *)
Definition victim (q : Queue) (running : list QItem) : option QItem :=
  match running with
  | [] => None
  | x :: l => Some (foldl (fun best y => if urgency_lt best y then y else best) x l)
  end.

(** Stable insertion: [sorted(running, key=_urgency)]. *)
Fixpoint insert (x : QItem) (l : list QItem) : list QItem :=
  match l with
  | [] => [x]
  | y :: l' => if urgency_lt y x then y :: insert x l' else x :: l
  end.

Definition by_urgency (q : Queue) (running : list QItem) : list QItem :=
  foldr insert [] running.

End Priority.

#[export] Instance Priority_policy : SchedulingPolicy Priority.Queue := {
  pol_add := Priority.add;
  pol_requeue := Priority.add;
  pol_peek := Priority.peek;
  pol_pop := Priority.pop;
  pol_remove := Priority.remove;
  pol_len := fun q => length (Priority.heap q);
  pol_iter := Priority.heap;
  pol_victim := Priority.victim;
  pol_by_urgency := Priority.by_urgency
}.

(** ** [SchedulingPolicy.create] *)

Inductive Policy :=
| PFcfs (q : Fcfs.Queue)
| PPriority (q : Priority.Queue).

Definition create (name : string) : exn + Policy :=
  if bool_decide (name = "fcfs") then inr (PFcfs Fcfs.init)
  else if bool_decide (name = "priority") then inr (PPriority Priority.init)
  else inl (ValueError ("unknown scheduling policy '" +:+ name +:+
                        "', expected one of ['fcfs', 'priority']")).

(** Dynamic dispatch. *)
#[export] Instance Policy_policy : SchedulingPolicy Policy := {
  pol_add := fun x q => match q with
    | PFcfs q => PFcfs (pol_add x q) | PPriority q => PPriority (pol_add x q) end;
  pol_requeue := fun x q => match q with
    | PFcfs q => PFcfs (pol_requeue x q) | PPriority q => PPriority (pol_requeue x q) end;
  pol_peek := fun q => match q with
    | PFcfs q => pol_peek q | PPriority q => pol_peek q end;
  pol_pop := fun q => match q with
    | PFcfs q => (fun p => (p.1, PFcfs p.2)) <$> pol_pop q
    | PPriority q => (fun p => (p.1, PPriority p.2)) <$> pol_pop q end;
  pol_remove := fun x q => match q with
    | PFcfs q => PFcfs <$> pol_remove x q | PPriority q => PPriority <$> pol_remove x q end;
  pol_len := fun q => match q with
    | PFcfs q => pol_len q | PPriority q => pol_len q end;
  pol_iter := fun q => match q with
    | PFcfs q => pol_iter q | PPriority q => pol_iter q end;
  pol_victim := fun q l => match q with
    | PFcfs q => pol_victim q l | PPriority q => pol_victim q l end;
  pol_by_urgency := fun q l => match q with
    | PFcfs q => pol_by_urgency q l | PPriority q => pol_by_urgency q l end
}.

(** ** The laws *)

#[export] Instance Fcfs_laws : SchedulingPolicyLaws Fcfs.Queue.
Proof.
  constructor; simpl; try done.
  - intros x q. rewrite Permutation_app_comm. done.
  - intros [[|x l]] Hq; [done|]. by exists x.
  - by intros [l] Hl; simpl in *; subst.
  - intros [[|y l]] x Hx; [done|]. injection Hx as ->. by exists (Fcfs.mk l).
  - intros x q Hx. destruct (remove_first_eq x _ Hx) as (l' & Hr & Hp).
    exists (Fcfs.mk l'). unfold Fcfs.remove. by rewrite Hr.
  - intros q l Hl. destruct (last l) as [x|] eqn:Hx; [|by apply last_None in Hx].
    exists x. split; [done|]. by apply last_Some_elem_of.
Qed.

Lemma heappush_perm x l : Priority.heappush x l ≡ₚ x :: l.
Proof.
  induction l as [|y l IH]; simpl; [done|]. case_match; [done|].
  rewrite IH. constructor.
Qed.

Lemma insert_perm x l : Priority.insert x l ≡ₚ x :: l.
Proof.
  induction l as [|y l IH]; simpl; [done|]. case_match; [|done].
  rewrite IH. constructor.
Qed.

Lemma fold_max_in l x :
  foldl (fun best y => if Priority.urgency_lt best y then y else best) x l ∈ x :: l.
Proof.
  revert x. induction l as [|y l IH]; intros x; simpl; [constructor|].
  case_match.
  - apply elem_of_cons. right. apply IH.
  - pose proof (IH x) as Hx. apply elem_of_cons in Hx as [->|Hx]; [constructor|].
    by do 2 (apply elem_of_cons; right).
Qed.

#[export] Instance Priority_laws : SchedulingPolicyLaws Priority.Queue.
Proof.
  constructor; simpl; try done.
  - intros x q. apply heappush_perm.
  - intros x q. apply heappush_perm.
  - intros [[|x l]] Hq; [done|]. by exists x.
  - by intros [l] Hl; simpl in *; subst.
  - intros [[|y l]] x Hx; [done|]. injection Hx as ->. by exists (Priority.mk l).
  - intros x q Hx. destruct (remove_first_eq x _ Hx) as (l' & Hr & Hp).
    exists (Priority.mk l'). unfold Priority.remove. by rewrite Hr.
  - intros q [|x l] Hl; [done|]. eexists. split; [done|]. apply fold_max_in.
  - intros q l. unfold Priority.by_urgency. induction l as [|x l IH]; simpl; [done|].
    by rewrite insert_perm, IH.
Qed.

#[export] Instance Policy_laws : SchedulingPolicyLaws Policy.
Proof.
  constructor.
  - intros [q|q]; apply (pol_len_iter q).
  - intros x [q|q]; apply (pol_add_iter x q).
  - intros x [q|q]; apply (pol_requeue_iter x q).
  - intros [q|q]; apply (pol_peek_some q).
  - intros [q|q]; apply (pol_peek_none q).
  - intros [q|q] x Hx; destruct (pol_pop_peek q x Hx) as (q' & Hq & Hp);
      [exists (PFcfs q') | exists (PPriority q')]; simpl in *; by rewrite Hq.
  - intros x [q|q] Hx; destruct (pol_remove_iter x q Hx) as (q' & Hq & Hp);
      [exists (PFcfs q') | exists (PPriority q')]; simpl in *; by rewrite Hq.
  - intros [q|q]; apply (pol_victim_in q).
  - intros [q|q]; apply (pol_by_urgency_perm q).
Qed.

(** ** What each policy decides *)

(** First come, first served: a queue of arrivals is popped in order, and a
    preempted sequence goes back before them. *)
Lemma fcfs_order x l : Fcfs.pop (Fcfs.requeue x (Fcfs.mk l)) = Some (x, Fcfs.mk l).
Proof. done. Qed.

Section PriorityOrder.

Definition key_le (x y : QItem) : Prop := Priority.key_lt y x = false.

Lemma Qc_ltb_spec p q : reflect (p < q)%Qc (Qc_ltb p q).
Proof. unfold Qc_ltb. apply bool_decide_reflect. Qed.

Lemma key_lt_spec x y :
  Priority.key_lt x y = true <->
  (qi_priority x < qi_priority y)%Z \/
  (qi_priority x = qi_priority y /\ ((qi_arrival x < qi_arrival y)%Qc \/
    (qi_arrival x = qi_arrival y /\ qi_id x < qi_id y))).
Proof.
  unfold Priority.key_lt.
  destruct (Z.ltb_spec (qi_priority x) (qi_priority y)); [naive_solver|].
  destruct (Z.ltb_spec (qi_priority y) (qi_priority x)); [split; [done|naive_solver lia]|].
  destruct (Qc_ltb_spec (qi_arrival x) (qi_arrival y)) as [Hxy|Hxy].
  { split; [|done]. intros _. right. split; [lia|by left]. }
  destruct (Qc_ltb_spec (qi_arrival y) (qi_arrival x)) as [Hyx|Hyx].
  { split; [done|]. intros [?|(_ & [?|[He _]])]; [lia|done|].
    rewrite He in Hyx. by apply Qclt_not_eq in Hyx. }
  rewrite bool_decide_eq_true. apply Qcnot_lt_le in Hxy. apply Qcnot_lt_le in Hyx.
  assert (qi_arrival x = qi_arrival y) by by apply Qcle_antisym.
  split; [intros ?; right; split; [lia|by right]|].
  intros [?|(_ & [Hlt|[_ ?]])]; [lia| |done].
  by apply Qcle_not_lt in Hlt.
Qed.

Lemma key_le_spec x y :
  key_le x y <->
  (qi_priority x < qi_priority y)%Z \/
  (qi_priority x = qi_priority y /\ ((qi_arrival x < qi_arrival y)%Qc \/
    (qi_arrival x = qi_arrival y /\ qi_id x <= qi_id y))).
Proof.
  unfold key_le. rewrite <-not_true_iff_false, key_lt_spec. split.
  - intros Hn. destruct (Z.lt_trichotomy (qi_priority x) (qi_priority y)) as [|[Hp|]]; [by left| |tauto].
    right. split; [done|]. destruct (Qc_dec (qi_arrival x) (qi_arrival y)) as [[|Hlt]|Ha]; [by left| |].
    + destruct Hn. right. split; [done|by left].
    + right. split; [done|]. destruct (decide (qi_id y < qi_id x)); [|lia].
      destruct Hn. right. split; [done|]. by right.
  - assert (Hirr : forall a : Qc, ~ (a < a)%Qc) by (intros a Ha; by apply Qclt_not_eq in Ha).
    intros Hle Hlt. destruct Hle as [?|[? [Ha|[Ha ?]]]], Hlt as [?|[? [Hb|[Hb ?]]]]; try lia.
    + eapply Hirr, Qclt_trans; done.
    + rewrite Hb in Ha. by eapply Hirr.
    + rewrite Ha in Hb. by eapply Hirr.
Qed.

#[local] Instance key_le_trans : Transitive key_le.
Proof.
  intros x y z. rewrite !key_le_spec.
  intros [?|[? [Ha|[Ha ?]]]] [?|[? [Hb|[Hb ?]]]]; try (left; lia); right; (split; [lia|]).
  - left. by apply Qclt_trans with (qi_arrival y).
  - left. by rewrite <-Hb.
  - left. by rewrite Ha.
  - right. split; [congruence|lia].
Qed.

Lemma key_lt_le x y : Priority.key_lt x y = true -> key_le x y.
Proof. rewrite key_lt_spec, key_le_spec. naive_solver lia. Qed.

(** The model of the heap keeps its entries sorted. *)
Definition heap_sorted (q : Priority.Queue) : Prop := StronglySorted key_le (Priority.heap q).

Lemma heappush_sorted x l : StronglySorted key_le l -> StronglySorted key_le (Priority.heappush x l).
Proof.
  induction 1 as [|y l Hl IH Hy]; simpl; [by repeat constructor|].
  destruct (Priority.key_lt x y) eqn:Hxy.
  - apply key_lt_le in Hxy. constructor; [by constructor|]. constructor; [done|].
    eapply Forall_impl; [exact Hy|]. intros z Hz. by transitivity y.
  - constructor; [done|]. rewrite heappush_perm. by constructor.
Qed.

Lemma remove_first_sorted P l l' :
  StronglySorted key_le l -> remove_first P l = Some l' -> StronglySorted key_le l'.
Proof.
  intros Hl. revert l'. induction Hl as [|y l Hl IH Hy]; intros l' Hr; simpl in Hr; [done|].
  case_match; [by simplify_eq|]. destruct (remove_first P l) as [k|] eqn:Hk; simplify_eq/=.
  constructor; [by apply IH|]. rewrite Forall_forall in Hy |- *. intros z Hz. apply Hy.
  clear -Hk Hz. revert k Hk Hz. induction l as [|w l IH]; intros k Hk Hz; simpl in Hk; [done|].
  case_match; [simplify_eq; by constructor|].
  destruct (remove_first P l) as [k'|]; simplify_eq/=.
  apply elem_of_cons in Hz as [->|Hz]; [by constructor|]. constructor. by eapply IH.
Qed.

(** The queues the scheduler can build. *)
Inductive priority_built : Priority.Queue -> Prop :=
| built_init : priority_built Priority.init
| built_add x q : priority_built q -> priority_built (Priority.add x q)
| built_pop x q q' : priority_built q -> Priority.pop q = Some (x, q') -> priority_built q'
| built_remove x q q' : priority_built q -> Priority.remove x q = Some q' -> priority_built q'.

Lemma built_sorted q : priority_built q -> heap_sorted q.
Proof.
  unfold heap_sorted. induction 1 as [|x q _ IH|x q q' _ IH Hp|x q q' _ IH Hr]; simpl.
  - constructor.
  - by apply heappush_sorted.
  - destruct q as [[|y l]]; [done|]. injection Hp as -> <-. simpl in *.
    by apply StronglySorted_inv in IH as [IH _].
  - unfold Priority.remove in Hr. destruct (remove_first _ _) eqn:Hk; simplify_eq/=.
    by eapply remove_first_sorted.
Qed.

Lemma sorted_head_min q x q' y :
  heap_sorted q -> Priority.pop q = Some (x, q') -> y ∈ Priority.heap q -> key_le x y.
Proof.
  unfold heap_sorted. destruct q as [[|z l]]; intros Hs Hp Hy; [done|].
  injection Hp as -> <-. simpl in *. apply StronglySorted_inv in Hs as [_ Hx]. apply elem_of_cons in Hy as [->|Hy].
  - rewrite key_le_spec. right. split; [done|]. right. split; [done|lia].
  - rewrite Forall_forall in Hx. by apply Hx.
Qed.

(** ** Urgency *)

Definition urgency_le (x y : QItem) : Prop := Priority.urgency_lt y x = false.

#[export] Instance urgency_le_dec x y : Decision (urgency_le x y).
Proof. unfold urgency_le. apply _. Defined.

Lemma urgency_lt_spec x y :
  Priority.urgency_lt x y = true <->
  (qi_priority x < qi_priority y)%Z \/
  (qi_priority x = qi_priority y /\ (qi_arrival x < qi_arrival y)%Qc).
Proof.
  unfold Priority.urgency_lt.
  destruct (Z.ltb_spec (qi_priority x) (qi_priority y)); [naive_solver|].
  destruct (Z.ltb_spec (qi_priority y) (qi_priority x)); [split; [done|naive_solver lia]|].
  destruct (Qc_ltb_spec (qi_arrival x) (qi_arrival y)).
  - split; [|done]. intros _. right. split; [lia|done].
  - split; [done|]. intros [?|[_ ?]]; [lia|done].
Qed.

Lemma urgency_le_spec x y :
  urgency_le x y <->
  (qi_priority x < qi_priority y)%Z \/
  (qi_priority x = qi_priority y /\ (qi_arrival x <= qi_arrival y)%Qc).
Proof.
  unfold urgency_le. rewrite <-not_true_iff_false, urgency_lt_spec. split.
  - intros Hn. destruct (Z.lt_trichotomy (qi_priority x) (qi_priority y)) as [|[Hp|]]; [by left| |tauto].
    right. split; [done|]. apply Qcnot_lt_le. naive_solver.
  - intros [?|[? Hle]] [?|[? Hlt]]; try lia. by apply Qcle_not_lt in Hle.
Qed.

#[local] Instance urgency_le_preorder : PreOrder urgency_le.
Proof.
  split.
  - intros x. rewrite urgency_le_spec. right. split; [done|apply Qcle_refl].
  - intros x y z. rewrite !urgency_le_spec. intros [?|[? ?]] [?|[? ?]]; try (left; lia).
    right. split; [lia|]. by eapply Qcle_trans.
Qed.

Lemma urgency_lt_le x y : Priority.urgency_lt x y = true -> urgency_le x y.
Proof. rewrite urgency_lt_spec, urgency_le_spec. naive_solver eauto using Qclt_le_weak. Qed.

Lemma by_urgency_sorted q l : StronglySorted urgency_le (Priority.by_urgency q l).
Proof.
  unfold Priority.by_urgency. induction l as [|x l IH]; simpl; [constructor|].
  induction IH as [|y k Hk IHk Hy]; simpl; [by repeat constructor|].
  destruct (Priority.urgency_lt y x) eqn:Hyx.
  - constructor; [done|]. rewrite insert_perm. constructor; [by apply urgency_lt_le|done].
  - assert (urgency_le x y) by done. constructor; [by constructor|]. constructor; [done|].
    eapply Forall_impl; [exact Hy|]. intros z Hz. by transitivity y.
Qed.

(** The sequences as urgent as [y]. *)
Definition peers (y : QItem) (l : list QItem) : list QItem :=
  filter (fun z => urgency_le z y /\ urgency_le y z) l.

Lemma insert_peers x l y :
  StronglySorted urgency_le l -> peers y (Priority.insert x l) = peers y (x :: l).
Proof.
  unfold peers. induction 1 as [|z l Hl IH Hz]; simpl; [done|].
  destruct (Priority.urgency_lt z x) eqn:Hzx; [|done].
  rewrite (filter_cons _ z (Priority.insert x l)), IH, !filter_cons.
  destruct (decide (urgency_le z y /\ urgency_le y z)) as [[Hzy Hyz]|]; [|done].
  destruct (decide (urgency_le x y /\ urgency_le y x)) as [[Hxy _]|]; [|done].
  assert (Hxz : urgency_le x z) by (transitivity y; done). unfold urgency_le in Hxz. congruence.
Qed.

(** Equally urgent sequences keep their order. *)
Lemma by_urgency_stable q l y : peers y (Priority.by_urgency q l) = peers y l.
Proof.
  unfold Priority.by_urgency. induction l as [|x l IH]; [done|]. simpl.
  rewrite insert_peers by apply (by_urgency_sorted q l). unfold peers in *.
  rewrite !filter_cons. by rewrite IH.
Qed.

Lemma fold_max_le l x :
  let v := foldl (fun best y => if Priority.urgency_lt best y then y else best) x l in
  urgency_le x v /\ Forall (fun y => urgency_le y v) l.
Proof.
  revert x. induction l as [|y l IH]; intros x; simpl; [done|].
  destruct (Priority.urgency_lt x y) eqn:Hxy.
  - destruct (IH y) as [H1 H2]. split; [transitivity y; [by apply urgency_lt_le|done]|]. by constructor.
  - destruct (IH x) as [H1 H2]. split; [done|]. constructor; [|done].
    by transitivity x.
Qed.

Lemma victim_least_urgent q l v :
  Priority.victim q l = Some v -> v ∈ l /\ forall y, y ∈ l -> urgency_le y v.
Proof.
  destruct l as [|x l]; simpl; [done|]. intros [= <-]. split; [apply fold_max_in|].
  destruct (fold_max_le l x) as [H1 H2]. intros y [->|Hy]%elem_of_cons; [done|].
  rewrite Forall_forall in H2. by apply H2.
Qed.

End PriorityOrder.
