(* ===== verification/KVBase.v ===== *)
(** * The KV connector interface

    [kv_transfer/base.py] and [kv_transfer/__init__.py]: the configuration,
    the check of a request's transfer parameters, the metadata the two halves
    of a connector exchange, the aggregation of the ranks' reports, and the
    scheduler half's interface with the laws the scheduler relies on. *)


From S2P Require Import Prelude Output Sequence.

(** ** [KVTransferConfig] *)

Inductive KVRole := kv_producer | kv_consumer | kv_both.

#[export] Instance KVRole_eq_dec : EqDecision KVRole.
Proof. solve_decision. Defined.

Definition role_name (r : KVRole) : string :=
  match r with
  | kv_producer => "kv_producer"
  | kv_consumer => "kv_consumer"
  | kv_both => "kv_both"
  end.

Record KVTransferConfig := {
  kv_connector : string;
  kv_role : KVRole;
  kv_ip : string;
  kv_port : Z;
  engine_id : string
}.

Definition is_producer (c : KVTransferConfig) : bool :=
  match kv_role c with kv_producer | kv_both => true | kv_consumer => false end.

Definition is_consumer (c : KVTransferConfig) : bool :=
  match kv_role c with kv_consumer | kv_both => true | kv_producer => false end.

(** [parse_kv_transfer_config], after pydantic parsed the fields: only known
    connectors. *)
Definition CONNECTORS : list string := ["NixlConnector"].

Definition parse_kv_transfer_config (c : KVTransferConfig) : exn + KVTransferConfig :=
  if bool_decide (kv_connector c ∈ CONNECTORS) then inr c
  else inl (ValueError ("unknown kv_connector '" +:+ kv_connector c +:+
                        "', expected one of ['NixlConnector']")).

(** ** [check_kv_transfer_params]

    The strict pydantic model [_RemotePrefill] is library code: its validation
    is a parameter, giving the location and message of the first error. *)
Definition check_kv_transfer_params
    (model_validate : gmap string pyval -> option (string * string))
    (params : pyval) (as_dict : gmap string pyval) (kv : option KVTransferConfig) : option string :=
  match params with
  | PDict _ =>
      match kv with
      | None => Some "kv_transfer_params needs an engine started with kv_transfer_config"
      | Some c =>
          if get_truthy as_dict "do_remote_decode" && negb (is_producer c)
          then Some ("do_remote_decode needs kv_role kv_producer or kv_both, not " +:+ role_name (kv_role c))
          else if get_truthy as_dict "do_remote_prefill" then
            if negb (is_consumer c)
            then Some ("do_remote_prefill needs kv_role kv_consumer or kv_both, not " +:+ role_name (kv_role c))
            else match model_validate as_dict with
                 | Some (loc, msg) => Some ("do_remote_prefill needs " +:+ loc +:+ ": " +:+ msg)
                 | None => None
                 end
          else None
      end
  | _ => Some "kv_transfer_params must be an object"
  end.

(** ** Metadata and reports *)

Record ReqToRecv := {
  local_block_ids : list nat;
  remote_block_ids : list Z;
  remote_request_id : string;
  remote_engine_id : string;
  remote_host : string;
  remote_port : Z;
  remote_tp_size : Z
}.

Record KVConnectorMetadata := {
  reqs_to_recv : gmap string ReqToRecv;
  reqs_to_send : gmap string (list nat)
}.

Definition metadata_truthy (m : KVConnectorMetadata) : bool :=
  negb (bool_decide (reqs_to_recv m = ∅)) || negb (bool_decide (reqs_to_send m = ∅)).

Record KVTransferStats := { seconds : Qc; num_bytes : Z }.

(** Ranks load in parallel: the slowest sets the time, the bytes add up. *)
Definition merge_stats (a b : KVTransferStats) : KVTransferStats :=
  {| seconds := if Qc_ltb (seconds a) (seconds b) then seconds b else seconds a;
     num_bytes := num_bytes a + num_bytes b |}.

Record KVConnectorOutput := {
  finished_sending : gset string;
  finished_recving : gset string;
  failed_recving : gset string;
  expired_sending : gset string;
  recv_stats : gmap string KVTransferStats
}.

#[export] Instance eta_KVConnectorOutput : Eta KVConnectorOutput := fun o =>
  Build_KVConnectorOutput (finished_sending o) (finished_recving o) (failed_recving o)
    (expired_sending o) (recv_stats o).

Definition empty_KVConnectorOutput : KVConnectorOutput :=
  {| finished_sending := ∅; finished_recving := ∅; failed_recving := ∅;
     expired_sending := ∅; recv_stats := ∅ |}.

(** ** [KVOutputAggregator]

    A [Counter] is a map whose absent keys count zero. Sets are visited in
    the order of [elements]: the visits of distinct requests commute. *)

Record KVOutputAggregator := {
  ag_world_size : Z;
  ag_sent : gmap string Z;
  ag_recved : gmap string Z;
  ag_failed : gset string;
  ag_expired : gset string;
  ag_stats : gmap string KVTransferStats
}.

#[export] Instance eta_KVOutputAggregator : Eta KVOutputAggregator := fun a =>
  Build_KVOutputAggregator (ag_world_size a) (ag_sent a) (ag_recved a) (ag_failed a)
    (ag_expired a) (ag_stats a).

Definition new_KVOutputAggregator (world_size : Z) : KVOutputAggregator :=
  {| ag_world_size := world_size; ag_sent := ∅; ag_recved := ∅; ag_failed := ∅;
     ag_expired := ∅; ag_stats := ∅ |}.

Definition counter_get (c : gmap string Z) (r : string) : Z := default 0%Z (c !! r).

(** One rank's report that [r] was sent. *)
Definition note_sent (r : string) (st : KVOutputAggregator * KVConnectorOutput) :
    KVOutputAggregator * KVConnectorOutput :=
  let (a, res) := st in
  let n := (counter_get (ag_sent a) r + 1)%Z in
  if (n =? ag_world_size a)%Z then
    let a := a <| ag_sent := delete r (ag_sent a) |> in
    let res := res <| finished_sending ::= union {[r]} |> in
    if bool_decide (r ∈ ag_expired a)
    then (a <| ag_expired := ag_expired a ∖ {[r]} |>, res <| expired_sending ::= union {[r]} |>)
    else (a, res)
  else (a <| ag_sent := <[r := n]> (ag_sent a) |>, res).

(** One rank's report that the load of [r] ended. *)
Definition note_recved (r : string) (st : KVOutputAggregator * KVConnectorOutput) :
    KVOutputAggregator * KVConnectorOutput :=
  let (a, res) := st in
  let n := (counter_get (ag_recved a) r + 1)%Z in
  if (n =? ag_world_size a)%Z then
    let failed := bool_decide (r ∈ ag_failed a) in
    let stats := ag_stats a !! r in
    let a := a <| ag_recved := delete r (ag_recved a) |>
               <| ag_failed := ag_failed a ∖ {[r]} |>
               <| ag_stats := delete r (ag_stats a) |> in
    if failed then (a, res <| failed_recving ::= union {[r]} |>)
    else
      let res := res <| finished_recving ::= union {[r]} |> in
      (a, match stats with
          | Some s => res <| recv_stats := <[r := s]> (recv_stats res) |>
          | None => res
          end)
  else (a <| ag_recved := <[r := n]> (ag_recved a) |>, res).

Definition note_stats (stats : gmap string KVTransferStats) (a : KVOutputAggregator) :
    KVOutputAggregator :=
  a <| ag_stats := map_fold (fun r s acc =>
         <[r := match acc !! r with None => s | Some seen => merge_stats seen s end]> acc)
         (ag_stats a) stats |>.

(** One rank's output. *)
Definition aggregate_one (st : KVOutputAggregator * KVConnectorOutput) (o : KVConnectorOutput) :
    KVOutputAggregator * KVConnectorOutput :=
  let (a, res) := st in
  let a := a <| ag_failed ::= union (failed_recving o) |>
             <| ag_expired ::= union (expired_sending o) |> in
  let a := note_stats (recv_stats o) a in
  let st := foldl (fun st r => note_sent r st) (a, res) (elements (finished_sending o)) in
  foldl (fun st r => note_recved r st) st (elements (finished_recving o ∪ failed_recving o)).

Definition aggregate (outputs : list KVConnectorOutput) : M KVOutputAggregator KVConnectorOutput :=
  fun a => let (a', res) := foldl aggregate_one (a, empty_KVConnectorOutput) outputs in (inr res, a').

(** ** The scheduler half *)

Class KVConnectorScheduler (C : Type) := {
  kv_get_num_new_matched_tokens : Z -> M (C * Sequence) (Z * bool);
  kv_update_state_after_alloc : Z -> M (C * Sequence) unit;
  kv_build_connector_meta : M C KVConnectorMetadata;
  kv_request_finished : M (C * Sequence) (bool * option (gmap string pyval))
}.

(** [bool(params and params.get("do_remote_prefill"))]. *)
Definition wants_remote_prefill (s : Sequence) : bool :=
  match kv_transfer_params s with
  | Some d => get_truthy d "do_remote_prefill"
  | None => false
  end.

(** The laws: on a sequence whose parameters passed the admission check
    ([kv_ok]), the methods return, touch nothing of the sequence but its
    parameters, and load, asynchronously and once, only what they ask for. *)
Class KVConnectorLaws (C : Type) `{KVConnectorScheduler C} := {
  kv_ok : option (gmap string pyval) -> Prop;
  kv_match_law : forall c s n, kv_ok (kv_transfer_params s) ->
    (wants_remote_prefill s = true -> n < num_prompt_tokens s)%Z ->
    wp (kv_get_num_new_matched_tokens n) (c, s) (fun r p =>
      exists params, p.2 = s <| kv_transfer_params := params |> /\ kv_ok params /\
        (if (r.1 =? 0)%Z then wants_remote_prefill p.2 = false
         else r.2 = true /\ wants_remote_prefill s = true /\ wants_remote_prefill p.2 = true));
  kv_update_law : forall c s n, kv_ok (kv_transfer_params s) -> wants_remote_prefill s = true ->
    wp (kv_update_state_after_alloc n) (c, s) (fun _ p =>
      exists params, p.2 = s <| kv_transfer_params := params |> /\ kv_ok params /\
        wants_remote_prefill p.2 = false);
  kv_meta_law : forall c, wp kv_build_connector_meta c (fun _ _ => True);
  kv_finished_law : forall c s, wp kv_request_finished (c, s) (fun _ p => p.2 = s)
}.

(** Iteration over a set: an order that Python leaves open. *)
Class SetOrder := {
  set_order : gset string -> list string;
  set_order_perm : forall X, set_order X ≡ₚ elements X
}.

(** ** Aggregating the ranks' reports

    [KVOutputAggregator.aggregate] refines, request by request, a counter that
    restarts when every rank has reported: [tally]. *)


(** ** The specification: one request's reports

    How many ranks have reported, and whether one of them flagged it (a load
    that failed, a send that expired). A report may flag the request and may
    end its transfer on that rank. *)

Definition Tally : Type := Z * bool.

Definition tally (ws : Z) (t : Tally) (report : bool * bool) : Tally * option bool :=
  let flag := t.2 || report.1 in
  if report.2 then
    if (t.1 + 1 =? ws)%Z then ((0%Z, false), Some flag) else ((t.1 + 1, flag)%Z, None)
  else ((t.1, flag), None).

Fixpoint tallies (ws : Z) (t : Tally) (reports : list (bool * bool)) : Tally * list bool :=
  match reports with
  | [] => (t, [])
  | r :: rest =>
      let (t1, out) := tally ws t r in
      let (t2, outs) := tallies ws t1 rest in
      (t2, option_list out ++ outs)
  end.

Definition reported (reports : list (bool * bool)) : Z := Zlen (List.filter snd reports).
Definition flagged (reports : list (bool * bool)) : bool := existsb fst reports.

Lemma tallies_app ws t l k :
  tallies ws t (l ++ k) =
  let (t1, o1) := tallies ws t l in let (t2, o2) := tallies ws t1 k in (t2, o1 ++ o2).
Proof.
  revert t. induction l as [|r l IH]; intros t; simpl; [by destruct (tallies ws t k)|].
  destruct (tally ws t r) as [t1 o]. rewrite IH. destruct (tallies ws t1 l) as [t2 o2].
  destruct (tallies ws t2 k) as [t3 o3]. by rewrite app_assoc.
Qed.

Lemma reported_app l k : reported (l ++ k) = (reported l + reported k)%Z.
Proof. unfold reported, Zlen. rewrite List.filter_app, length_app. lia. Qed.

Lemma tallies_waiting ws n f l :
  (0 <= n)%Z -> (n + reported l < ws)%Z ->
  tallies ws (n, f) l = ((n + reported l, f || flagged l)%Z, []).
Proof.
  revert n f. induction l as [|[fl nm] l IH]; intros n f Hn Hl; simpl.
  - unfold reported, Zlen. simpl. by rewrite Z.add_0_r, orb_false_r.
  - assert (reported ((fl, nm) :: l) = ((if nm then 1 else 0) + reported l))%Z as Hr.
    { unfold reported, Zlen. simpl. destruct nm; simpl; lia. }
    assert (0 <= reported l)%Z as Hp by (unfold reported, Zlen; lia).
    rewrite Hr in Hl |- *. unfold tally. simpl. destruct nm.
    + destruct (Z.eqb_spec (n + 1) ws); [lia|]. rewrite IH by lia. simpl. by rewrite orb_assoc, <- Z.add_assoc.
    + rewrite IH by lia. simpl. by rewrite orb_assoc.
Qed.

(** ** What the aggregator holds and answers about one request *)

Definition loads_of (a : KVOutputAggregator) (r : string) : Tally :=
  (counter_get (ag_recved a) r, bool_decide (r ∈ ag_failed a)).
Definition sends_of (a : KVOutputAggregator) (r : string) : Tally :=
  (counter_get (ag_sent a) r, bool_decide (r ∈ ag_expired a)).

Definition load_report (r : string) (o : KVConnectorOutput) : bool * bool :=
  (bool_decide (r ∈ failed_recving o), bool_decide (r ∈ finished_recving o ∪ failed_recving o)).
Definition send_report (r : string) (o : KVConnectorOutput) : bool * bool :=
  (bool_decide (r ∈ expired_sending o), bool_decide (r ∈ finished_sending o)).

(** The answers about [r] went from those of [res] to those of [res'] by
    [outs]. *)
Definition LoadAnswers (r : string) (res res' : KVConnectorOutput) (outs : list bool) : Prop :=
  (r ∈ finished_recving res' <-> r ∈ finished_recving res \/ false ∈ outs) /\
  (r ∈ failed_recving res' <-> r ∈ failed_recving res \/ true ∈ outs).
Definition SendAnswers (r : string) (res res' : KVConnectorOutput) (outs : list bool) : Prop :=
  (r ∈ finished_sending res' <-> r ∈ finished_sending res \/ outs <> []) /\
  (r ∈ expired_sending res' <-> r ∈ expired_sending res \/ true ∈ outs).

Definition Agg : Type := KVOutputAggregator * KVConnectorOutput.

(** One step of the machine on each side, from [st] to [st']. *)
Record Steps (r : string) (st st' : Agg) (loads sends : list (bool * bool)) : Prop := {
  stp_world : ag_world_size st'.1 = ag_world_size st.1;
  stp_loads : (tallies (ag_world_size st.1) (loads_of st.1 r) loads).1 = loads_of st'.1 r;
  stp_sends : (tallies (ag_world_size st.1) (sends_of st.1 r) sends).1 = sends_of st'.1 r;
  stp_load_out : LoadAnswers r st.2 st'.2 (tallies (ag_world_size st.1) (loads_of st.1 r) loads).2;
  stp_send_out : SendAnswers r st.2 st'.2 (tallies (ag_world_size st.1) (sends_of st.1 r) sends).2
}.

Lemma Steps_refl r st : Steps r st st [] [].
Proof. split; simpl; try done; split; rewrite ?elem_of_nil; naive_solver. Qed.

Lemma Steps_trans r s1 s2 s3 l1 l2 k1 k2 :
  Steps r s1 s2 l1 k1 -> Steps r s2 s3 l2 k2 -> Steps r s1 s3 (l1 ++ l2) (k1 ++ k2).
Proof.
  intros [W1 L1 S1 LA1 SA1] [W2 L2 S2 LA2 SA2]. rewrite W1 in *. rewrite <- L1 in *. rewrite <- S1 in *.
  split; rewrite ?tallies_app; [congruence|..];
    destruct (tallies (ag_world_size s1.1) (loads_of s1.1 r) l1) as [t1 o1];
    destruct (tallies (ag_world_size s1.1) (sends_of s1.1 r) k1) as [u1 p1]; simpl in *;
    destruct (tallies (ag_world_size s1.1) t1 l2) as [t2 o2];
    destruct (tallies (ag_world_size s1.1) u1 k2) as [u2 p2]; simpl in *; try done.
  - destruct LA1 as [F1 D1], LA2 as [F2 D2]. split.
    + rewrite F2, F1, elem_of_app. tauto.
    + rewrite D2, D1, elem_of_app. tauto.
  - destruct SA1 as [F1 D1], SA2 as [F2 D2]. split.
    + rewrite F2, F1. destruct p1; simpl; [tauto|]. split; [intros _; by right | by left; right].
    + rewrite D2, D1, elem_of_app. tauto.
Qed.

(** ** One report, in pieces *)

Lemma tally_idle ws t l : tallies ws t ((false, false) :: l) = tallies ws t l.
Proof. destruct t as [n f]. simpl. rewrite orb_false_r. by destruct (tallies ws (n, f) l). Qed.

Lemma tally_split ws t fl nm : tallies ws t [(fl, false); (false, nm)] = tallies ws t [(fl, nm)].
Proof.
  destruct t as [n f]. unfold tallies, tally. simpl. rewrite orb_false_r.
  by destruct nm, (n + 1 =? ws)%Z.
Qed.

Lemma counter_insert c (r r0 : string) n :
  counter_get (<[r0 := n]> c) r = if decide (r0 = r) then n else counter_get c r.
Proof. unfold counter_get. destruct (decide (r0 = r)) as [<-|]; [by rewrite lookup_insert_eq | by rewrite lookup_insert_ne]. Qed.

Lemma counter_delete c (r r0 : string) :
  counter_get (delete r0 c) r = if decide (r0 = r) then 0%Z else counter_get c r.
Proof. unfold counter_get. destruct (decide (r0 = r)) as [<-|]; [by rewrite lookup_delete_eq | by rewrite lookup_delete_ne]. Qed.

Lemma decide_remove (X : gset string) r0 r :
  bool_decide (r ∈ X ∖ {[r0]}) = if decide (r0 = r) then false else bool_decide (r ∈ X).
Proof. case_decide; [apply bool_decide_eq_false | apply bool_decide_ext]; set_solver. Qed.

(** Nothing about [r] changed. *)
Definition Untouched (r : string) (st st' : Agg) : Prop :=
  ag_world_size st'.1 = ag_world_size st.1 /\ loads_of st'.1 r = loads_of st.1 r /\
  sends_of st'.1 r = sends_of st.1 r /\
  (r ∈ finished_recving st'.2 <-> r ∈ finished_recving st.2) /\
  (r ∈ failed_recving st'.2 <-> r ∈ failed_recving st.2) /\
  (r ∈ finished_sending st'.2 <-> r ∈ finished_sending st.2) /\
  (r ∈ expired_sending st'.2 <-> r ∈ expired_sending st.2).

Lemma Steps_idle r st st' l k :
  Untouched r st st' -> (forall t, tallies (ag_world_size st.1) t l = (t, [])) ->
  (forall t, tallies (ag_world_size st.1) t k = (t, [])) -> Steps r st st' l k.
Proof.
  intros (? & ? & ? & ? & ? & ? & ?) Hl Hk.
  split; rewrite ?Hl, ?Hk; simpl; try done; split; rewrite ?elem_of_nil; naive_solver.
Qed.

Lemma tallies_idle ws t : tallies ws t [(false, false)] = (t, []).
Proof. by rewrite tally_idle. Qed.

Lemma loads_eq a r n f :
  counter_get (ag_recved a) r = n -> bool_decide (r ∈ ag_failed a) = f -> loads_of a r = (n, f).
Proof. by intros <- <-. Qed.

Lemma sends_eq a r n f :
  counter_get (ag_sent a) r = n -> bool_decide (r ∈ ag_expired a) = f -> sends_of a r = (n, f).
Proof. by intros <- <-. Qed.

Lemma note_recved_other r r0 st : r <> r0 -> Untouched r st (note_recved r0 st).
Proof.
  intros Hr. destruct st as [a res]. unfold note_recved, Untouched.
  destruct (counter_get (ag_recved a) r0 + 1 =? ag_world_size a)%Z;
    [destruct (bool_decide (r0 ∈ ag_failed a)); [|destruct (ag_stats a !! r0)]|];
    cbn -[counter_get]; unfold loads_of, sends_of; cbn -[counter_get];
    rewrite ?counter_insert, ?counter_delete, ?decide_remove, ?decide_False by congruence;
    split_and!; set_solver.
Qed.

Lemma note_recved_here r st : Steps r st (note_recved r st) [(false, true)] [].
Proof.
  destruct st as [a res].
  assert (tallies (ag_world_size a) (loads_of a r) [(false, true)] =
    if (counter_get (ag_recved a) r + 1 =? ag_world_size a)%Z
    then ((0%Z, false), [bool_decide (r ∈ ag_failed a)])
    else ((counter_get (ag_recved a) r + 1, bool_decide (r ∈ ag_failed a))%Z, [])) as Ht.
  { unfold tallies, tally, loads_of. cbn [fst snd]. rewrite orb_false_r. by destruct (_ =? _)%Z. }
  unfold note_recved.
  destruct (counter_get (ag_recved a) r + 1 =? ag_world_size a)%Z;
    [destruct (bool_decide (r ∈ ag_failed a)); [|destruct (ag_stats a !! r)]|];
    (split; cbn [fst snd]; rewrite ?Ht; cbn [fst snd]; try done;
     [symmetry; apply loads_eq; cbn -[counter_get];
        rewrite ?counter_insert, ?counter_delete, ?decide_remove, ?decide_True by done; done | |]);
    split; cbn -[counter_get]; rewrite ?elem_of_union, ?elem_of_singleton, ?elem_of_nil, ?list_elem_of_singleton; naive_solver.
Qed.

Lemma note_recved_steps r r0 st :
  Steps r st (note_recved r0 st) [(false, bool_decide (r = r0))] [].
Proof.
  case_bool_decide as Hr; [subst; apply note_recved_here|].
  apply Steps_idle; [by apply note_recved_other | apply tallies_idle | done].
Qed.

Lemma note_sent_other r r0 st : r <> r0 -> Untouched r st (note_sent r0 st).
Proof.
  intros Hr. destruct st as [a res]. unfold note_sent, Untouched.
  destruct (counter_get (ag_sent a) r0 + 1 =? ag_world_size a)%Z;
    [cbn [ag_expired update_field]; destruct (bool_decide (r0 ∈ _))|];
    cbn -[counter_get]; unfold loads_of, sends_of; cbn -[counter_get];
    rewrite ?counter_insert, ?counter_delete, ?decide_remove, ?decide_False by congruence;
    split_and!; set_solver.
Qed.

Lemma note_sent_here r st : Steps r st (note_sent r st) [] [(false, true)].
Proof.
  destruct st as [a res].
  assert (tallies (ag_world_size a) (sends_of a r) [(false, true)] =
    if (counter_get (ag_sent a) r + 1 =? ag_world_size a)%Z
    then ((0%Z, false), [bool_decide (r ∈ ag_expired a)])
    else ((counter_get (ag_sent a) r + 1, bool_decide (r ∈ ag_expired a))%Z, [])) as Ht.
  { unfold tallies, tally, sends_of. cbn [fst snd]. rewrite orb_false_r. by destruct (_ =? _)%Z. }
  unfold note_sent.
  destruct (counter_get (ag_sent a) r + 1 =? ag_world_size a)%Z;
    [change (ag_expired (a <| ag_sent := delete r (ag_sent a) |>)) with (ag_expired a);
       destruct (bool_decide (r ∈ ag_expired a)) eqn:He|];
    (split; cbn [fst snd]; rewrite ?Ht; cbn [fst snd]; try done;
     [symmetry; apply sends_eq; cbn -[counter_get];
        rewrite ?counter_insert, ?counter_delete, ?decide_remove, ?decide_True by done; done | |]);
    split; cbn -[counter_get]; rewrite ?elem_of_union, ?elem_of_singleton, ?elem_of_nil, ?list_elem_of_singleton; naive_solver.
Qed.

Lemma note_sent_steps r r0 st :
  Steps r st (note_sent r0 st) [] [(false, bool_decide (r = r0))].
Proof.
  case_bool_decide as Hr; [subst; apply note_sent_here|].
  apply Steps_idle; [by apply note_sent_other | done | apply tallies_idle].
Qed.

(** ** A set of requests, each noted once *)

Lemma Steps_tallies r st st' l k l' k' :
  Steps r st st' l k ->
  (forall t, tallies (ag_world_size st.1) t l' = tallies (ag_world_size st.1) t l) ->
  (forall t, tallies (ag_world_size st.1) t k' = tallies (ag_world_size st.1) t k) ->
  Steps r st st' l' k'.
Proof. intros [? ? ? ? ?] Hl Hk. split; rewrite ?Hl, ?Hk; done. Qed.

Lemma tallies_named ws t (r r0 : string) l :
  r0 ∉ l ->
  tallies ws t [(false, bool_decide (r ∈ r0 :: l))] =
  tallies ws t ([(false, bool_decide (r = r0))] ++ [(false, bool_decide (r ∈ l))]).
Proof.
  intros Hr0. destruct (decide (r = r0)) as [<-|Hne].
  - rewrite (bool_decide_eq_true_2 (r ∈ r :: l)) by apply list_elem_of_here.
    rewrite (bool_decide_eq_true_2 (r = r)) by done. rewrite (bool_decide_eq_false_2 (r ∈ l)) by done.
    rewrite tallies_app. destruct (tallies ws t [(false, true)]) as [t1 o1]. by rewrite tallies_idle, app_nil_r.
  - rewrite (bool_decide_eq_false_2 (r = r0)) by done. cbn [app]. rewrite tally_idle.
    do 3 f_equal. apply bool_decide_ext. rewrite elem_of_cons. tauto.
Qed.

(** The loads' side, or the sends' side, of a step. *)
Definition Side (loads : bool) r st st' l : Prop :=
  if loads then Steps r st st' l [] else Steps r st st' [] l.

Lemma note_each loads (note : string -> Agg -> Agg) r l st :
  (forall r0 st, Side loads r st (note r0 st) [(false, bool_decide (r = r0))]) -> NoDup l ->
  Side loads r st (foldl (fun st r0 => note r0 st) st l) [(false, bool_decide (r ∈ l))].
Proof.
  intros Hn. revert st. induction l as [|r0 l IH]; intros st Hd; cbn [foldl].
  - rewrite bool_decide_eq_false_2 by apply not_elem_of_nil.
    destruct loads; apply Steps_idle; unfold Untouched; try done; apply tallies_idle.
  - apply NoDup_cons in Hd as [Hr0 Hd]. specialize (IH (note r0 st) Hd). specialize (Hn r0 st).
    destruct loads; (eapply Steps_tallies; [eapply Steps_trans; [exact Hn | exact IH]|..]);
      intros t; try done; by apply tallies_named.
Qed.

(** ** The whole of [aggregate] *)

Lemma note_stats_same stats a : exists s, note_stats stats a = a <| ag_stats := s |>.
Proof. by eexists. Qed.

Lemma aggregate_one_steps r st o :
  Steps r st (aggregate_one st o) [load_report r o] [send_report r o].
Proof.
  destruct st as [a res]. unfold aggregate_one.
  set (a1 := note_stats _ _).
  assert (Steps r (a, res) (a1, res)
    [(bool_decide (r ∈ failed_recving o), false)] [(bool_decide (r ∈ expired_sending o), false)]) as H1.
  { split; cbn [fst snd]; [done| apply pair_eq; split; [done|] | apply pair_eq; split; [done|] | |].
    - cbn. rewrite orb_comm, <- bool_decide_or. apply bool_decide_ext. symmetry. apply elem_of_union.
    - cbn. rewrite orb_comm, <- bool_decide_or. apply bool_decide_ext. symmetry. apply elem_of_union.
    - split; rewrite elem_of_nil; naive_solver.
    - split; [|rewrite elem_of_nil]; naive_solver. }
  pose proof (note_each false note_sent r (elements (finished_sending o)) (a1, res)
    (note_sent_steps r) (NoDup_elements _)) as H2.
  set (st2 := foldl _ (a1, res) _) in *. 
  pose proof (note_each true note_recved r (elements (finished_recving o ∪ failed_recving o)) st2
    (note_recved_steps r) (NoDup_elements _)) as H3.
  eapply Steps_tallies; [exact (Steps_trans _ _ _ _ _ _ _ _ (Steps_trans _ _ _ _ _ _ _ _ H1 H2) H3)|..];
    intros t; cbn [app]; unfold load_report, send_report; rewrite tally_split; do 3 f_equal;
    apply bool_decide_ext; by rewrite elem_of_elements.
Qed.

Lemma aggregate_steps r outputs st :
  Steps r st (foldl aggregate_one st outputs) (load_report r <$> outputs) (send_report r <$> outputs).
Proof.
  revert st. induction outputs as [|o outputs IH]; intros st; [apply Steps_refl|].
  exact (Steps_trans r _ _ _ [load_report r o] _ [send_report r o] _ (aggregate_one_steps r st o) (IH _)).
Qed.

(** A run of [aggregate] over several steps' reports. *)
Fixpoint aggregates (batches : list (list KVConnectorOutput)) : M KVOutputAggregator (list KVConnectorOutput) :=
  match batches with
  | [] => ret []
  | b :: rest => let! res := aggregate b in let! more := aggregates rest in ret (res :: more)
  end.

Definition loads_ended (r : string) (res : KVConnectorOutput) : bool :=
  bool_decide (r ∈ finished_recving res ∪ failed_recving res).

Lemma aggregate_spec r outputs a :
  wp (aggregate outputs) a (fun res a' =>
    Steps r (a, empty_KVConnectorOutput) (a', res) (load_report r <$> outputs) (send_report r <$> outputs)).
Proof.
  unfold wp, aggregate. pose proof (aggregate_steps r outputs (a, empty_KVConnectorOutput)) as Hs.
  by destruct (foldl aggregate_one (a, empty_KVConnectorOutput) outputs).
Qed.

(** While reports are missing, nothing is answered about [r] and they are
    counted. *)
Lemma aggregates_waiting r batches a n f :
  loads_of a r = (n, f) -> (0 <= n)%Z ->
  (n + reported (load_report r <$> concat batches) < ag_world_size a)%Z ->
  wp (aggregates batches) a (fun results a' =>
    length results = length batches /\
    Forall (fun res => loads_ended r res = false) results /\ ag_world_size a' = ag_world_size a /\
    loads_of a' r = ((n + reported (load_report r <$> concat batches))%Z,
                     f || flagged (load_report r <$> concat batches))).
Proof.
  revert a n f. induction batches as [|b batches IH]; intros a n f Ha Hn Hlt; cbn [aggregates concat] in *.
  - apply wp_ret. rewrite Ha. unfold reported, Zlen. simpl. rewrite Z.add_0_r, orb_false_r. done.
  - rewrite fmap_app, reported_app in Hlt |- *.
    assert (0 <= reported (load_report r <$> b) /\ 0 <= reported (load_report r <$> concat batches))%Z as [Hb Hc]
      by (unfold reported, Zlen; lia).
    apply wp_bind. wp_call (aggregate_spec r b a). intros res a1 [Hw Hl _ [Hf Hd] _]. cbn [fst snd] in *.
    rewrite Ha, tallies_waiting in * by lia. cbn [fst snd] in *.
    apply wp_bind. wp_call (IH a1 (n + reported (load_report r <$> b))%Z (f || flagged (load_report r <$> b))).
    + by rewrite <- Hl.
    + lia.
    + rewrite Hw. lia.
    + intros results a2 (Hlen & Hall & Hw2 & Ha2). apply wp_ret. split_and!.
      * simpl. by rewrite Hlen.
      * constructor; [|done]. apply bool_decide_eq_false. rewrite elem_of_union, Hf, Hd, !elem_of_nil.
        set_solver.
      * by rewrite Hw2.
      * rewrite Ha2. unfold flagged. rewrite existsb_app, orb_assoc. f_equal. lia.
Qed.

Lemma aggregates_app before b a Q :
  wp (aggregates before) a (fun early a1 => wp (aggregate b) a1 (fun final a2 => Q (early ++ [final]) a2)) ->
  wp (aggregates (before ++ [b])) a Q.
Proof.
  revert a Q. induction before as [|b0 before IH]; intros a Q; cbn [aggregates app].
  - intros Hq. apply wp_bind. exact Hq.
  - intros Hq. apply wp_bind_inv in Hq. apply wp_bind. eapply wp_mono; [exact Hq|].
    intros res a1 Hr. apply wp_bind_inv in Hr. apply wp_bind. apply IH.
    eapply wp_mono; [exact Hr|]. intros early a2 He. exact He.
Qed.

Lemma flagged_loads r outputs :
  flagged (load_report r <$> outputs) = true <-> exists o, o ∈ outputs /\ r ∈ failed_recving o.
Proof.
  unfold flagged. rewrite List.existsb_exists. split.
  - intros (p & Hp%list_elem_of_In & Hf). apply list_elem_of_fmap in Hp as (o & -> & Ho).
    exists o. split; [done|]. by apply bool_decide_eq_true in Hf.
  - intros (o & Ho & Hf). exists (load_report r o). split.
    + apply list_elem_of_In, list_elem_of_fmap. eauto.
    + by apply bool_decide_eq_true.
Qed.

(** The last rank's report settles the load. *)
Lemma aggregates_settled r before b o ws :
  let all := concat before ++ b ++ [o] in
  reported (load_report r <$> concat before ++ b) = (ws - 1)%Z -> (load_report r o).2 = true ->
  wp (aggregates (before ++ [b ++ [o]])) (new_KVOutputAggregator ws) (fun results a' =>
    exists early final, results = early ++ [final] /\ length early = length before /\
      Forall (fun res => loads_ended r res = false) early /\
      loads_of a' r = (0%Z, false) /\
      (r ∈ failed_recving final <-> exists o, o ∈ all /\ r ∈ failed_recving o) /\
      (r ∈ finished_recving final <-> forall o, o ∈ all -> r ∉ failed_recving o)).
Proof.
  intros all Hr Ho. apply aggregates_app. rewrite fmap_app, reported_app in Hr.
  assert (0 <= reported (load_report r <$> b) /\ 0 <= reported (load_report r <$> concat before))%Z as [Hb Hc]
    by (unfold reported, Zlen; lia).
  wp_call (aggregates_waiting r before (new_KVOutputAggregator ws) 0%Z false); [done | lia | cbn [ag_world_size new_KVOutputAggregator]; lia|].
  intros early a1 (Hlen & Hearly & Hw & Hl). cbn [ag_world_size new_KVOutputAggregator] in Hw.
  wp_call (aggregate_spec r (b ++ [o]) a1). intros final a2 [_ Hl2 _ [Hf Hd] _]. cbn [fst snd] in *.
  assert (tallies (ag_world_size a1) (loads_of a1 r) (load_report r <$> b ++ [o]) =
    ((0%Z, false), [flagged (load_report r <$> all)])) as Ht.
  { rewrite Hl, Hw, fmap_app, tallies_app, tallies_waiting by lia. unfold all.
    destruct (load_report r o) as [fl nm] eqn:Hro. simpl in Ho. subst nm. rewrite !fmap_app. cbn [fmap list_fmap].
    rewrite Hro. cbn [tallies]. unfold tally. cbn [fst snd].
    replace (0 + reported (load_report r <$> concat before) + reported (load_report r <$> b) + 1)%Z with ws by lia.
    rewrite Z.eqb_refl. unfold flagged. rewrite !existsb_app. cbn. by rewrite !orb_assoc, orb_false_r. }
  rewrite Ht in *. cbn [fst snd] in *. rewrite list_elem_of_singleton in Hf, Hd.
  exists early, final. split_and!; try done.
  - rewrite Hd, <- flagged_loads. set_solver.
  - rewrite Hf. split.
    + intros [Hx|Hx] o' Ho' Hfo; [set_solver|]. rewrite (proj2 (flagged_loads r all)) in Hx; eauto; done.
    + intros Hno. right. destruct (flagged (load_report r <$> all)) eqn:Hfl; [|done].
      apply flagged_loads in Hfl as (o' & Ho' & Hfo). by destruct (Hno o' Ho').
Qed.
