(* ===== verification/Scheduler.v ===== *)
(** * The scheduler

    [engine/scheduler.py]: the step's token budget, admission of waiting
    requests against the block manager, preemption, the launch and the
    reconciliation of sampled tokens, and the requests whose blocks a KV
    connector loads or sends.

    A queue, a dict or a step's output holds references to sequences; they are
    addresses ([seq_id]) in the store [heap]. *)

From S2P Require Import Prelude Output Sequence BlockManager Policy KVBase.

(** ** [SchedulerOutput] and [LaunchedRow] *)

Record SchedulerOutput := {
  scheduled : list nat;
  preempted : list nat;
  dropped : list nat;
  num_prefill_tokens : Z;
  num_decode_tokens : Z;
  num_queried_blocks : Z;
  num_cached_blocks : Z;
  kv_connector_metadata : option KVConnectorMetadata
}.

#[export] Instance eta_SchedulerOutput : Eta SchedulerOutput := fun o =>
  Build_SchedulerOutput (scheduled o) (preempted o) (dropped o) (num_prefill_tokens o)
    (num_decode_tokens o) (num_queried_blocks o) (num_cached_blocks o) (kv_connector_metadata o).

Definition empty_SchedulerOutput : SchedulerOutput :=
  {| scheduled := []; preempted := []; dropped := []; num_prefill_tokens := 0;
     num_decode_tokens := 0; num_queried_blocks := 0; num_cached_blocks := 0;
     kv_connector_metadata := None |}.

(** [__bool__]. *)
Definition output_truthy (o : SchedulerOutput) : bool := bool_decide (scheduled o <> []).

Record LaunchedRow := {
  row_seq : nat;
  row_num_preemptions : Z;
  row_num_draft_tokens : Z
}.

(** The attributes [Scheduler.__init__] reads from the configuration. *)
Record SchedulerConfig := {
  max_num_seqs : Z;
  max_num_batched_tokens : Z;
  eos : Z;
  kvcache_block_size : Z;
  num_kvcache_blocks : Z;
  cfg_enable_prefix_caching : bool;
  enable_chunked_prefill : bool;
  long_prefill_token_threshold : Z;
  speculative_tokens : option Z
}.

Definition num_speculative_tokens (c : SchedulerConfig) : Z := default 0%Z (speculative_tokens c).

(** Extra KV slots for the drafts a step makes. *)
Definition num_lookahead_tokens (c : SchedulerConfig) : Z := Z.max (num_speculative_tokens c - 1) 0.

Definition PLACEHOLDER_TOKEN_ID : Z := -1.

(** ** The state *)

Record Scheduler {Q C : Type} := {
  config : SchedulerConfig;
  block_manager : BlockManager;
  waiting : Q;
  running : list nat;
  seqs : gmap string nat;
  connector : option C;
  recving : gmap string nat;
  sending : gmap string nat;
  heap : gmap nat Sequence;
  ticks : nat
}.
#[global] Arguments Scheduler : clear implicits.

#[export] Instance eta_Scheduler {Q C} : Eta (Scheduler Q C) := fun x =>
  Build_Scheduler Q C (config x) (block_manager x) (waiting x) (running x) (seqs x) (connector x)
    (recving x) (sending x) (heap x) (ticks x).

(** The local variables of [schedule]. *)
Record Locals := {
  output : SchedulerOutput;
  budget : Z;
  still_running : list nat
}.

#[export] Instance eta_Locals : Eta Locals := fun l =>
  Build_Locals (output l) (budget l) (still_running l).

Definition new_Scheduler {Q C} (c : SchedulerConfig) (policy : Q) (conn : option C) : Scheduler Q C :=
  {| config := c;
     block_manager := new_BlockManager (num_kvcache_blocks c) (kvcache_block_size c)
       (cfg_enable_prefix_caching c) (bool_decide (is_Some (speculative_tokens c)));
     waiting := policy;
     running := [];
     seqs := ∅;
     connector := conn;
     recving := ∅;
     sending := ∅;
     heap := ∅;
     ticks := 0 |}.

Section Scheduler.
Context `{SeqSettings} `{SetOrder} {Q C : Type} `{SchedulingPolicy Q} `{KVConnectorScheduler C}.

(** [perf_counter]: the clock's successive readings. *)
Variable clock : nat -> Qc.

Local Abbreviation Sch := (Scheduler Q C).

(** ** Access to the store *)

Definition get_seq (i : nat) : M Sch Sequence :=
  let! h := gets heap in or_raise (h !! i) AttributeError.

(** Run a method of the sequence at [i]. *)
Definition on_seq {A} (i : nat) (m : M Sequence A) : M Sch A :=
  let! s := get_seq i in
  zoom (fun _ => s) (fun s' x => x <| heap ::= <[i := s']> |>) m.

Definition set_seq (i : nat) (f : Sequence -> Sequence) : M Sch unit := on_seq i (modify f).

(** Run a method of the block manager on the sequence at [i]. *)
Definition on_blocks {A} (i : nat) (m : M (BlockManager * Sequence) A) : M Sch A :=
  let! s := get_seq i in
  zoom (fun x => (block_manager x, s))
    (fun p x => x <| block_manager := p.1 |> <| heap ::= <[i := p.2]> |>) m.

(** Run a method of the connector on the sequence at [i]. *)
Definition on_connector {A} (i : nat) (c : C) (m : M (C * Sequence) A) : M Sch A :=
  let! s := get_seq i in
  zoom (fun _ => (c, s)) (fun p x => x <| connector := Some p.1 |> <| heap ::= <[i := p.2]> |>) m.

Definition perf_counter : M Sch Qc :=
  let! n := gets ticks in modify (fun x => x <| ticks := S n |>);;; ret (clock n).

(** The items a policy sees of the sequences at these addresses. *)
Definition items (l : list nat) : M Sch (list QItem) :=
  collect l (fun i => let! s := get_seq i in ret (item_of s)).

(** ** Small operations *)

Definition sch_is_finished (x : Sch) : bool :=
  (pol_len (waiting x) =? 0)%nat && bool_decide (running x = []) &&
  bool_decide (recving x = ∅) && bool_decide (sending x = ∅).

(** The sequence [s] was just constructed, at a fresh address. *)
Definition add (s : Sequence) : M Sch unit :=
  let! x := gets id in
  let rid := request_id s in
  if bool_decide (is_Some (seqs x !! rid)) || bool_decide (is_Some (recving x !! rid)) ||
     bool_decide (is_Some (sending x !! rid))
  then raise (DuplicateRequestId (rid +:+ " is already in flight"))
  else modify (fun x => x <| heap ::= <[seq_id s := s]> |>
                          <| seqs ::= <[rid := seq_id s]> |>
                          <| waiting ::= pol_add (item_of s) |>).

(** [_finish]. *)
Definition finish (i : nat) (reason : string) : M Sch unit :=
  set_seq i (fun s => s <| status := FINISHED |> <| finish_reason := Some reason |>);;;
  let! t := perf_counter in
  set_seq i (fun s => s <| finish_time := Some t |>).

(** [_drop], without and with an output to tell. *)
Definition drop (i : nat) (reason : string) : M Sch unit :=
  finish i reason;;;
  on_seq i drop_pending;;;
  let! s := get_seq i in
  let! live := gets seqs in
  let! _ := or_raise (live !! request_id s) KeyError in
  modify (fun x => x <| seqs ::= delete (request_id s) |>).

Definition drop_noting (i : nat) (reason : string) : M (Sch * Locals) unit :=
  on_fst (drop i reason);;;
  on_snd (modify (fun l => l <| output ::= fun o => o <| dropped ::= fun d => d ++ [i] |> |>)).

(** [_free]. *)
Definition free (i : nat) : M Sch unit :=
  let! conn := gets connector in
  match conn with
  | Some c =>
      let! (hold, result) := on_connector i c kv_request_finished in
      set_seq i (fun s => s <| kv_transfer_result := result |>);;;
      if hold : bool
      then let! s := get_seq i in modify (fun x => x <| sending ::= <[request_id s := i]> |>)
      else on_blocks i deallocate
  | None => on_blocks i deallocate
  end.

(** [deque.remove] on the running sequences. *)
Definition remove_running (i : nat) : M Sch unit :=
  let! l := gets running in
  let! l' := or_raise (remove_first (fun j => bool_decide (j = i)) l)
               (ValueError "deque.remove(x): x not in deque") in
  modify (fun x => x <| running := l' |>).

Definition remove_waiting (i : nat) : M Sch unit :=
  let! s := get_seq i in
  let! q := gets waiting in
  let! q' := or_raise (pol_remove (item_of s) q) (ValueError "x not in queue") in
  modify (fun x => x <| waiting := q' |>).

Definition abort (rid reason : string) : M Sch bool :=
  let! live := gets seqs in
  match live !! rid with
  | None => ret false
  | Some i =>
      modify (fun x => x <| seqs ::= delete rid |>);;;
      let! s := get_seq i in
      if bool_decide (status s = WAITING_FOR_REMOTE_KVS) then finish i reason;;; ret true
      else
        (if bool_decide (status s = WAITING) then remove_waiting i else remove_running i);;;
        on_seq i drop_pending;;;
        finish i reason;;;
        free i;;;
        ret true
  end.

(** ** Scheduling one sequence *)

(** [_schedule]. *)
Definition schedule_seq (i : nat) (budget : Z) : M (Sch * Locals) Z :=
  let! s := on_fst (get_seq i) in
  let! c := gets (fun p => config p.1) in
  let n := if is_prefill s then Z.min (num_tokens s - num_cached_tokens s) budget
           else (1 + Zlen (spec_token_ids s))%Z in
  let n := if is_prefill s && enable_chunked_prefill c &&
              negb (long_prefill_token_threshold c =? 0)%Z
           then Z.min n (long_prefill_token_threshold c) else n in
  on_fst (set_seq i (fun s => s <| num_scheduled_tokens := n |>));;;
  when (bool_decide (first_scheduled_time s = None))
    (let! t := on_fst perf_counter in
     on_fst (set_seq i (fun s => s <| first_scheduled_time := Some t |>)));;;
  on_snd (modify (fun l => l <| output ::= fun o =>
    let o := o <| scheduled ::= fun r => r ++ [i] |> in
    if is_prefill s then o <| num_prefill_tokens ::= Z.add n |>
    else o <| num_decode_tokens ::= Z.add n |> |>));;;
  ret n.

(** [_preempt]. *)
Definition preempt (i : nat) : M (Sch * Locals) unit :=
  on_fst (set_seq i (fun s => s <| status := WAITING |> <| is_prefill := true |>
                                <| num_preemptions ::= Z.add 1 |>));;;
  on_fst (on_seq i drop_pending);;;
  on_fst (set_seq i (fun s => s <| spec_token_ids := [] |>));;;
  on_fst (on_blocks i deallocate);;;
  let! s := on_fst (get_seq i) in
  on_fst (modify (fun x => x <| waiting ::= pol_requeue (item_of s) |>));;;
  on_snd (modify (fun l => l <| output ::= fun o => o <| preempted ::= fun r => r ++ [i] |> |>)).

Definition keep_running (i : nat) : M (Sch * Locals) unit :=
  on_snd (modify (fun l => l <| still_running ::= fun r => r ++ [i] |>)).

(** [_make_room]: every turn of its loop takes a sequence off [running] or
    returns. *)
Fixpoint make_room (fuel : nat) (i : nat) (la : Z) : M (Sch * Locals) bool :=
  match fuel with
  | O => raise OutOfFuel
  | S fuel' =>
      let! s := on_fst (get_seq i) in
      let! x := gets fst in
      let! l := gets snd in
      if can_append (block_manager x) s la then ret true
      else if bool_decide (running x <> []) then
        let! its := on_fst (items (running x)) in
        let! v := or_raise (pol_victim (waiting x) its) (ValueError "max() of an empty sequence") in
        on_fst (remove_running (qi_id v));;;
        preempt (qi_id v);;;
        make_room fuel' i la
      else if bool_decide (still_running l <> []) || bool_decide (scheduled (output l) <> []) then
        preempt i;;; ret false
      else if negb (num_pending_tokens s =? 0)%Z then
        keep_running i;;; ret false
      else if negb (bool_decide (recving x = ∅)) || negb (bool_decide (sending x = ∅)) then
        keep_running i;;; ret false
      else
        on_fst (on_blocks i deallocate);;;
        drop_noting i "capacity";;;
        ret false
  end.

Definition schedule_within (i : nat) : M (Sch * Locals) unit :=
  let! b := gets (fun p => budget p.2) in
  let! n := schedule_seq i b in
  on_snd (modify (fun l => l <| budget ::= fun b => b - n |>%Z)).

(** One turn of the loop over the running sequences, for the sequence it
    popped. *)
Definition schedule_running (i : nat) : M (Sch * Locals) unit :=
  let! c := gets (fun p => config p.1) in
  let! l := gets snd in
  let! s := on_fst (get_seq i) in
  if (budget l <=? 0)%Z || (max_num_seqs c <=? Zlen (scheduled (output l)))%Z then keep_running i
  else if (max_tokens s <=? num_planned_tokens s - num_prompt_tokens s)%Z then keep_running i
  else if negb (is_prefill s) then
    let num_left := (max_tokens s - (num_planned_tokens s - num_prompt_tokens s))%Z in
    let step_limit := Z.min (budget l) num_left in
    let drafts_to_keep := Z.max (step_limit - 1) 0 in
    on_fst (set_seq i (fun s => s <| spec_token_ids ::= fun d => py_upto d drafts_to_keep |>));;;
    let! s := on_fst (get_seq i) in
    let la := (Zlen (spec_token_ids s) + num_lookahead_tokens c)%Z in
    let! n := gets (fun p => length (running p.1)) in
    let! ok := make_room (S n) i la in
    if ok : bool then
      on_fst (on_blocks i (may_append la));;;
      schedule_within i;;;
      keep_running i
    else ret tt
  else
    schedule_within i;;;
    keep_running i.

Definition pop_running : M (Sch * Locals) nat :=
  let! l := gets (fun p => running p.1) in
  match l with
  | [] => raise IndexError
  | i :: l' => on_fst (modify (fun x => x <| running := l' |>));;; ret i
  end.

(** ** Admission *)

Definition never_fits (x : Sch) (s : Sequence) : bool :=
  (Zlen (blocks (block_manager x)) <?
   num_blocks_for (block_manager x) s (num_lookahead_tokens (config x)))%Z.

Definition loads_remotely (x : Sch) (s : Sequence) : bool :=
  match connector x with None => false | Some _ => wants_remote_prefill s end.

Definition pop_waiting : M Sch nat :=
  let! q := gets waiting in
  let! p := or_raise (pol_pop q) IndexError in
  modify (fun x => x <| waiting := p.2 |>);;;
  ret (qi_id p.1).

Definition peek_waiting : M Sch nat :=
  let! q := gets waiting in
  let! v := or_raise (pol_peek q) IndexError in
  ret (qi_id v).

(** [_admit]. *)
Definition admit_request (i : nat) (num_cached budget : Z) : M (Sch * Locals) Z :=
  let! _ := on_fst pop_waiting in
  let! c := gets (fun p => config p.1) in
  on_fst (on_blocks i (allocate num_cached (num_lookahead_tokens c)));;;
  let! s := on_fst (get_seq i) in
  on_snd (modify (fun l => l <| output ::= fun o =>
    o <| num_queried_blocks ::= Z.add (num_blocks s) |>
      <| num_cached_blocks ::= Z.add num_cached |> |>));;;
  let! conn := gets (fun p => connector p.1) in
  let! loading := on_fst match conn with
    | None => ret false
    | Some co =>
        let! (num_external, load_async) :=
          on_connector i co (kv_get_num_new_matched_tokens (num_cached_tokens s)) in
        if negb (num_external =? 0)%Z then
          assert_ load_async "only asynchronous loads are implemented";;;
          let! conn := gets connector in
          let! co := or_raise conn AttributeError in
          on_connector i co (kv_update_state_after_alloc num_external);;;
          set_seq i (fun s => s <| status := WAITING_FOR_REMOTE_KVS |>);;;
          modify (fun x => x <| recving ::= <[request_id s := i]> |>);;;
          ret true
        else ret false
    end in
  if loading : bool then ret 0%Z
  else
    on_fst (set_seq i (fun s => s <| status := RUNNING |>));;;
    let! n := schedule_seq i budget in
    on_fst (modify (fun x => x <| running ::= fun r => r ++ [i] |>));;;
    ret n.

Definition admit_within (i : nat) (num_cached : Z) : M (Sch * Locals) unit :=
  let! b := gets (fun p => budget p.2) in
  let! n := admit_request i num_cached b in
  on_snd (modify (fun l => l <| budget ::= fun b => b - n |>%Z)).

(** The condition of the admission loop: a waiting request, a free row and,
    when chunking, budget left. *)
Definition may_admit (chunked : bool) (p : Sch * Locals) : bool :=
  negb (pol_len (waiting p.1) =? 0)%nat &&
  (Zlen (scheduled (output p.2)) <? max_num_seqs (config p.1))%Z &&
  (negb chunked || (0 <? budget p.2)%Z).

(** One turn of the admission loop of [schedule]; [false] is its [break]. *)
Definition admit_next : M (Sch * Locals) bool :=
  let! i := on_fst peek_waiting in
  let! s := on_fst (get_seq i) in
  let! x := gets fst in
  if never_fits x s then
    let! _ := on_fst pop_waiting in drop_noting i "capacity";;; ret true
  else
    let! num_cached := on_fst (on_blocks i (can_allocate (num_lookahead_tokens (config x)))) in
    if (num_cached =? -1)%Z then ret false
    else admit_within i num_cached;;; ret true.

(** One turn of the loop of [_schedule_whole_prompts]. *)
Definition admit_whole : M (Sch * Locals) bool :=
  let! i := on_fst peek_waiting in
  let! s := on_fst (get_seq i) in
  let! x := gets fst in
  let! l := gets snd in
  if never_fits x s then
    let! _ := on_fst pop_waiting in drop_noting i "capacity";;; ret true
  else
    let! num_cached := on_fst (on_blocks i (can_allocate (num_lookahead_tokens (config x)))) in
    if (num_cached =? -1)%Z then ret false
    else
      let n := (num_tokens s - num_cached * kvcache_block_size (config x))%Z in
      let n := if loads_remotely x s then 0%Z else n in
      if (max_num_batched_tokens (config x) <? n)%Z then
        let! _ := on_fst pop_waiting in drop_noting i "capacity";;; ret true
      else if (budget l <? n)%Z then ret false
      else admit_within i num_cached;;; ret true.

(** ** [schedule] *)

Definition new_locals (x : Sch) (d : list nat) : Locals :=
  {| output := empty_SchedulerOutput <| dropped := d |>;
     budget := max_num_batched_tokens (config x);
     still_running := [] |}.

(** Run a body on fresh local variables and return its output. *)
Definition with_locals (d : list nat) (m : M (Sch * Locals) unit) : M Sch SchedulerOutput := fun x =>
  match m (x, new_locals x d) with
  | (inr _, (x', l)) => (inr (output l), x')
  | (inl e, (x', _)) => (inl e, x')
  end.

(** [_schedule_whole_prompts]. *)
Definition schedule_whole_prompts : M Sch SchedulerOutput :=
  with_locals [] (let! n := gets (fun p => pol_len (waiting p.1)) in
                  while_ (S n) (may_admit false) admit_whole).

(** [_with_connector_meta]. *)
Definition with_connector_meta (o : SchedulerOutput) : M Sch SchedulerOutput :=
  let! conn := gets connector in
  match conn with
  | None => ret o
  | Some c =>
      let! meta := zoom (fun _ => c) (fun c' x => x <| connector := Some c' |>)
                     kv_build_connector_meta in
      ret (o <| kv_connector_metadata := Some meta |>)
  end.

(** The running sequences, most urgent first. *)
Definition sort_running : M (Sch * Locals) unit :=
  let! x := gets fst in
  let! its := on_fst (items (running x)) in
  on_fst (modify (fun x => x <| running := qi_id <$> pol_by_urgency (waiting x) its |>)).

(** The loop over the running sequences. *)
Definition schedule_all_running : M (Sch * Locals) unit :=
  let! n := gets (fun p => length (running p.1)) in
  while_ (S n) (fun p => bool_decide (running p.1 <> []))
    (let! i := pop_running in schedule_running i;;; ret true);;;
  let! l := gets snd in
  on_fst (modify (fun x => x <| running := still_running l |>)).

Definition admit_all : M (Sch * Locals) unit :=
  let! n := gets (fun p => pol_len (waiting p.1)) in
  while_ (S n) (may_admit true) admit_next.

(** The mixed step: running sequences first, then admissions. *)
Definition schedule_step (d : list nat) : M Sch SchedulerOutput :=
  with_locals d (
    sort_running;;;
    schedule_all_running;;;
    let! p := gets id in
    when (enable_chunked_prefill (config p.1) && bool_decide (preempted (output p.2) = []))
      admit_all).

Definition schedule : M Sch SchedulerOutput :=
  let! c := gets config in
  if negb (enable_chunked_prefill c) then
    let! o := schedule_whole_prompts in
    if output_truthy o then with_connector_meta o
    else let! o := schedule_step (dropped o) in with_connector_meta o
  else let! o := schedule_step [] in with_connector_meta o.

(** ** [advance] *)

(** The turn for one sequence: its sampling row, if it samples. *)
Definition advance_seq (i : nat) : M Sch (option LaunchedRow) :=
  set_seq i (fun s => s <| num_cached_tokens ::= Z.add (num_scheduled_tokens s) |>
                        <| num_scheduled_tokens := 0%Z |>);;;
  let! s := get_seq i in
  let num_draft_tokens := Zlen (spec_token_ids s) in
  set_seq i (fun s => s <| spec_token_ids := [] |>);;;
  on_blocks i (hash_blocks (num_cached_tokens s));;;
  let! s := get_seq i in
  if (num_cached_tokens s <? num_planned_tokens s)%Z then ret None
  else
    let! c := gets config in
    set_seq i (fun s => s <| is_prefill := false |>);;;
    on_seq i (reserve_token (1 + num_draft_tokens));;;
    set_seq i (fun s => s <| spec_token_ids :=
      replicate (Z.to_nat (num_speculative_tokens c)) PLACEHOLDER_TOKEN_ID |>);;;
    ret (Some {| row_seq := i; row_num_preemptions := num_preemptions s;
                 row_num_draft_tokens := num_draft_tokens |}).

Definition advance (l : list nat) : M Sch (list LaunchedRow) :=
  let! rows := collect l advance_seq in
  ret (omap id rows).

(** ** [reconcile] *)

(** A row of sampled tokens: one token, or a speculative step's list. *)
Definition new_token_ids (sampled : Z + list Z) : list Z :=
  match sampled with inl t => [t] | inr l => l end.

(** Why the token just committed ends the request, if it does. *)
Definition stop_reason (eos_ : Z) (s : Sequence) (t : Z) : option string :=
  if ((t =? eos_)%Z && negb (ignore_eos s)) || bool_decide (t ∈ stop_token_ids s)
  then Some "stop"
  else if (num_completion_tokens s =? max_tokens s)%Z then Some "length"
  else None.

(** Commit the tokens up to the first that stops the request. *)
Fixpoint commit_tokens (i : nat) (toks : list Z) : M Sch (option string) :=
  match toks with
  | [] => ret None
  | t :: toks' =>
      on_seq i (commit_token t);;;
      set_seq i (fun s => s <| num_new_tokens ::= Z.add 1 |>);;;
      let! s := get_seq i in
      let! c := gets config in
      match stop_reason (eos c) s t with
      | Some r => ret (Some r)
      | None => commit_tokens i toks'
      end
  end.

(** The turn of [reconcile] for row [k]; [true] when it processed the row. *)
Definition reconcile_row (drafts : option (list (list Z))) (k : nat) (row : LaunchedRow)
    (sampled : Z + list Z) : M Sch bool :=
  let i := row_seq row in
  let! s := get_seq i in
  if is_finished s || negb (num_preemptions s =? row_num_preemptions row)%Z then ret false
  else
    let new := new_token_ids sampled in
    let num_rejected := (row_num_draft_tokens row - (Zlen new - 1))%Z in
    set_seq i (fun s => s <| num_cached_tokens ::= fun n => n - num_rejected |>%Z
                          <| num_pending_tokens ::= fun n => n - num_rejected |>%Z
                          <| num_new_tokens := 0%Z |>);;;
    let! reason := commit_tokens i new in
    let! s := get_seq i in
    when (bool_decide (first_token_time s = None))
      (let! t := perf_counter in set_seq i (fun s => s <| first_token_time := Some t |>));;;
    match reason with
    | None =>
        match drafts with
        | Some d =>
            when (num_pending_tokens s =? 0)%Z
              (let! dr := or_raise (d !! k) IndexError in
               set_seq i (fun s => s <| spec_token_ids := dr |>))
        | None => ret tt
        end
    | Some r =>
        on_seq i drop_pending;;;
        remove_running i;;;
        drop i r;;;
        free i
    end;;;
    ret true.

(** The loop over the rows that have tokens, from row [k]; the sequences whose
    results were processed. *)
Fixpoint reconcile_rows (drafts : option (list (list Z))) (k : nat) (rows : list LaunchedRow)
    (toks : list (Z + list Z)) : M Sch (list nat) :=
  match rows, toks with
  | row :: rows', sampled :: toks' =>
      let! done_ := reconcile_row drafts k row sampled in
      let! rest := reconcile_rows drafts (S k) rows' toks' in
      ret (if done_ : bool then row_seq row :: rest else rest)
  | _, _ => ret []
  end.

Definition reconcile (rows : list LaunchedRow) (toks : list (Z + list Z))
    (drafts : option (list (list Z))) : M Sch (list nat) :=
  reconcile_rows drafts 0 rows toks.

(** ** [update_from_kv_connector_output] *)

Definition finish_sending (rid : string) : M Sch unit :=
  let! m := gets sending in
  match m !! rid with
  | None => ret tt
  | Some i =>
      modify (fun x => x <| sending ::= delete rid |>);;;
      on_blocks i deallocate
  end.

Definition finish_recving (loaded : gset string) (rid : string) : M Sch unit :=
  let! m := gets recving in
  let! i := or_raise (m !! rid) KeyError in
  modify (fun x => x <| recving ::= delete rid |>);;;
  let! s := get_seq i in
  if is_finished s then on_blocks i deallocate
  else
    when (bool_decide (rid ∈ loaded))
      (set_seq i (fun s => s <| num_cached_tokens := num_prompt_tokens s - 1 |>%Z);;;
       let! s := get_seq i in
       on_blocks i (hash_blocks (num_cached_tokens s)));;;
    set_seq i (fun s => s <| status := RUNNING |>);;;
    modify (fun x => x <| running ::= fun r => r ++ [i] |>).

Definition update_from_kv_connector_output (o : KVConnectorOutput) : M Sch unit :=
  for_each (set_order (finished_sending o)) finish_sending;;;
  for_each (set_order (finished_recving o ∪ failed_recving o)) (finish_recving (finished_recving o)).

End Scheduler.
