(* ===== verification/Lifecycle.v ===== *)
(** * The life cycle of a request, abstractly

    The scheduler keeps each request in a queue, a deque or a dict according
    to its status. [Registry] is that bookkeeping without tokens or blocks:
    the queue of waiting requests, the running ones, the live ones by request
    id, and those whose blocks a connector loads or sends. [RegOk] says the
    containers agree with the statuses. Each change of status the scheduler
    makes is one transition here, and keeps [RegOk]. *)

From S2P Require Import Prelude Output Sequence Policy.

Record Meta := { mt_item : QItem; mt_rid : string; mt_status : SequenceStatus }.

Definition meta_of (s : Sequence) : Meta :=
  {| mt_item := item_of s; mt_rid := request_id s; mt_status := status s |}.

Definition with_status (st : SequenceStatus) (m : Meta) : Meta :=
  {| mt_item := mt_item m; mt_rid := mt_rid m; mt_status := st |}.

Record Registry := {
  rg_wait : list QItem;
  rg_run : list nat;
  rg_live : gmap string nat;
  rg_recv : gmap string nat;
  rg_send : gmap string nat
}.

#[export] Instance eta_Registry : Eta Registry := fun g =>
  Build_Registry (rg_wait g) (rg_run g) (rg_live g) (rg_recv g) (rg_send g).

Record RegOk (mh : gmap nat Meta) (g : Registry) : Prop := {
  reg_ids : forall i m, mh !! i = Some m -> qi_id (mt_item m) = i;
  reg_wait_nodup : NoDup (rg_wait g);
  reg_wait : forall q, q ∈ rg_wait g <->
    exists m, mh !! qi_id q = Some m /\ mt_item m = q /\ mt_status m = WAITING;
  reg_run_nodup : NoDup (rg_run g);
  reg_run : forall i, i ∈ rg_run g <-> exists m, mh !! i = Some m /\ mt_status m = RUNNING;
  reg_live : forall r i, rg_live g !! r = Some i <->
    exists m, mh !! i = Some m /\ mt_rid m = r /\ mt_status m <> FINISHED;
  reg_recv : forall r i, rg_recv g !! r = Some i -> exists m, mh !! i = Some m /\
    mt_rid m = r /\ (mt_status m = WAITING_FOR_REMOTE_KVS \/ mt_status m = FINISHED);
  reg_load : forall i m, mh !! i = Some m -> mt_status m = WAITING_FOR_REMOTE_KVS ->
    rg_recv g !! mt_rid m = Some i;
  reg_send : forall r i, rg_send g !! r = Some i -> exists m, mh !! i = Some m /\
    mt_rid m = r /\ mt_status m = FINISHED;
  reg_excl : forall r i, rg_live g !! r = Some i -> rg_send g !! r = None /\
    forall j, rg_recv g !! r = Some j -> j = i
}.

Lemma RegOk_empty : RegOk ∅ {| rg_wait := []; rg_run := []; rg_live := ∅; rg_recv := ∅; rg_send := ∅ |}.
Proof.
  constructor; simpl; try constructor; try (intros; set_solver).
  all: try (intros; by rewrite ?lookup_empty in *).
  all: try (intros (m & Hm & _); by rewrite lookup_empty in Hm).
  all: try (intros ?; by rewrite ?lookup_empty in *).
Qed.

(** ** Any change of the status of a live request *)

Record Moves (i : nat) (m : Meta) (st : SequenceStatus) (g g' : Registry) : Prop := {
  mv_wait_nodup : NoDup (rg_wait g');
  mv_wait : forall q, q ∈ rg_wait g' <->
    (q = mt_item m /\ st = WAITING) \/ (q <> mt_item m /\ q ∈ rg_wait g);
  mv_run_nodup : NoDup (rg_run g');
  mv_run : forall k, k ∈ rg_run g' <-> (k = i /\ st = RUNNING) \/ (k <> i /\ k ∈ rg_run g);
  mv_live : rg_live g' = if decide (st = FINISHED) then delete (mt_rid m) (rg_live g) else rg_live g;
  mv_recv : forall r, r <> mt_rid m -> rg_recv g' !! r = rg_recv g !! r;
  mv_recv_here :
    (rg_recv g' !! mt_rid m = Some i /\ (st = WAITING_FOR_REMOTE_KVS \/ st = FINISHED)) \/
    (rg_recv g' !! mt_rid m = None /\ st <> WAITING_FOR_REMOTE_KVS);
  mv_send : forall r, r <> mt_rid m -> rg_send g' !! r = rg_send g !! r;
  mv_send_here : rg_send g' !! mt_rid m = None \/
    (rg_send g' !! mt_rid m = Some i /\ st = FINISHED)
}.

Lemma lookup_here (mh : gmap nat Meta) i (m : Meta) k mk :
  <[i := m]> mh !! k = Some mk <-> (k = i /\ mk = m) \/ (k <> i /\ mh !! k = Some mk).
Proof. rewrite lookup_insert_Some. naive_solver. Qed.

Section Move.
Context (mh : gmap nat Meta) (g g' : Registry) (i : nat) (m : Meta) (st : SequenceStatus).
Hypothesis Hok : RegOk mh g.
Hypothesis Hm : mh !! i = Some m.
Hypothesis Hlive : mt_status m <> FINISHED.
Hypothesis Hmv : Moves i m st g g'.

Local Lemma live_here : rg_live g !! mt_rid m = Some i.
Proof. apply (reg_live _ _ Hok). eauto. Qed.

Local Lemma live_unique k mk :
  mh !! k = Some mk -> mt_rid mk = mt_rid m -> mt_status mk <> FINISHED -> k = i.
Proof.
  intros Hk Hr Hf. assert (rg_live g !! mt_rid m = Some k) as Hl.
  { apply (reg_live _ _ Hok). eauto. }
  pose proof live_here. congruence.
Qed.

Local Lemma item_ne q : q <> mt_item m -> (exists mq, mh !! qi_id q = Some mq /\ mt_item mq = q) ->
  qi_id q <> i.
Proof. intros Hne (mq & Hq & <-) He. rewrite He in Hq. congruence. Qed.

Lemma reg_move : RegOk (<[i := with_status st m]> mh) g'.
Proof.
  pose proof (reg_ids _ _ Hok i m Hm) as Hid. pose proof live_here as Hl.
  destruct (reg_excl _ _ Hok _ _ Hl) as [Hsn Hre].
  constructor.
  - intros k mk [[-> ->]|[_ Hk]]%lookup_here; [done|by apply (reg_ids _ _ Hok)].
  - apply (mv_wait_nodup _ _ _ _ _ Hmv).
  - intros q. rewrite (mv_wait _ _ _ _ _ Hmv), (reg_wait _ _ Hok). split.
    + intros [[-> Hst]|[Hne (mq & Hq & Hi & Hs)]].
      * exists (with_status st m). rewrite lookup_here. naive_solver.
      * exists mq. rewrite lookup_here. split; [right|done].
        split; [|done]. apply item_ne; eauto.
    + intros (mq & Hq & Hi & Hs). apply lookup_here in Hq as [[He ->]|[Hne Hq]]; simpl in *.
      * left. split; [done|done].
      * right. split; [congruence|eauto].
  - apply (mv_run_nodup _ _ _ _ _ Hmv).
  - intros k. rewrite (mv_run _ _ _ _ _ Hmv), (reg_run _ _ Hok). split.
    + intros [[-> Hst]|[Hne (mk & Hk & Hs)]].
      * exists (with_status st m). rewrite lookup_here. naive_solver.
      * exists mk. rewrite lookup_here. naive_solver.
    + intros (mk & Hk & Hs). apply lookup_here in Hk as [[He ->]|[Hne Hk]]; simpl in *; eauto.
  - intros r k. rewrite (mv_live _ _ _ _ _ Hmv).
    setoid_rewrite lookup_here. split.
    + case_decide as Hst.
      * rewrite lookup_delete_Some. intros [Hne Hk].
        apply (reg_live _ _ Hok) in Hk as (mk & Hk & Hr & Hs). exists mk.
        split; [right|done]. split; [congruence|done].
      * intros (mk & Hk & Hr & Hs)%(reg_live _ _ Hok). destruct (decide (k = i)) as [->|].
        -- exists (with_status st m). split; [by left|]. split; [simpl; congruence|done].
        -- exists mk. auto.
    + intros (mk & [[-> ->]|[Hne Hk]] & Hr & Hs); simpl in *.
      * rewrite decide_False by done. by subst.
      * assert (rg_live g !! r = Some k) by (apply (reg_live _ _ Hok); eauto).
        case_decide; [|done]. rewrite lookup_delete_ne; [done|]. intros He.
        apply Hne. subst r. by eapply live_unique.
  - intros r k Hk. destruct (decide (r = mt_rid m)) as [->|Hr].
    + destruct (mv_recv_here _ _ _ _ _ Hmv) as [[Hi Hs]|[Hn _]]; [|congruence].
      assert (k = i) by congruence. subst k. exists (with_status st m).
      rewrite lookup_here. naive_solver.
    + rewrite (mv_recv _ _ _ _ _ Hmv) in Hk by done.
      destruct (reg_recv _ _ Hok _ _ Hk) as (mk & Hmk & Hrk & Hs). exists mk.
      rewrite lookup_here. split; [right|done]. split; [congruence|done].
  - intros k mk [[-> ->]|[Hne Hk]]%lookup_here Hs; simpl in *.
    + destruct (mv_recv_here _ _ _ _ _ Hmv) as [[Hi _]|[_ Hn]]; [done|congruence].
    + pose proof (reg_load _ _ Hok k mk Hk Hs) as Hrec.
      destruct (decide (mt_rid mk = mt_rid m)) as [He|He].
      * exfalso. apply Hne. eapply live_unique; [done|done|congruence].
      * by rewrite (mv_recv _ _ _ _ _ Hmv) by done.
  - intros r k Hk. destruct (decide (r = mt_rid m)) as [->|Hr].
    + destruct (mv_send_here _ _ _ _ _ Hmv) as [Hn|[Hi Hs]]; [congruence|].
      assert (k = i) by congruence. subst k. exists (with_status st m).
      rewrite lookup_here. naive_solver.
    + rewrite (mv_send _ _ _ _ _ Hmv) in Hk by done.
      destruct (reg_send _ _ Hok _ _ Hk) as (mk & Hmk & Hrk & Hs). exists mk.
      rewrite lookup_here. split; [right|done]. split; [congruence|done].
  - intros r k. rewrite (mv_live _ _ _ _ _ Hmv). intros Hk.
    assert (Hk0 : rg_live g !! r = Some k /\ (st = FINISHED -> r <> mt_rid m)).
    { case_decide; [|done]. apply lookup_delete_Some in Hk as [? ?]. done. }
    destruct Hk0 as [Hk0 Hne]. destruct (decide (r = mt_rid m)) as [->|Hr].
    + assert (k = i) by congruence. subst k. split.
      * destruct (mv_send_here _ _ _ _ _ Hmv) as [Hn|[Hi Hs]]; [done|]. by destruct Hne.
      * intros j Hj. destruct (mv_recv_here _ _ _ _ _ Hmv) as [[Hi Hs]|[Hn _]]; congruence.
    + rewrite (mv_send _ _ _ _ _ Hmv), (mv_recv _ _ _ _ _ Hmv) by done.
      by apply (reg_excl _ _ Hok).
Qed.

(** Where a live request of each status is, and is not. *)
Lemma live_not_sending : rg_send g !! mt_rid m = None.
Proof. apply (reg_excl _ _ Hok _ _ live_here). Qed.

Lemma live_not_recving : mt_status m <> WAITING_FOR_REMOTE_KVS -> rg_recv g !! mt_rid m = None.
Proof.
  intros Hs. destruct (rg_recv g !! mt_rid m) as [j|] eqn:Hj; [|done].
  destruct (reg_excl _ _ Hok _ _ live_here) as [_ He]. rewrite (He j Hj) in Hj.
  destruct (reg_recv _ _ Hok _ _ Hj) as (mj & Hmj & _ & Hst). exfalso.
  assert (mj = m) by congruence. subst mj. by destruct Hst.
Qed.

End Move.

(** ** The scheduler's transitions *)

Section Transitions.
Context (mh : gmap nat Meta) (g : Registry) (i : nat) (m : Meta).
Hypothesis Hok : RegOk mh g.
Hypothesis Hm : mh !! i = Some m.

Lemma running_in : mt_status m = RUNNING -> i ∈ rg_run g.
Proof. intros Hs. apply (reg_run _ _ Hok). eauto. Qed.

Lemma waiting_in : mt_status m = WAITING -> mt_item m ∈ rg_wait g.
Proof.
  intros Hs. apply (reg_wait _ _ Hok). exists m. by rewrite (reg_ids _ _ Hok i m Hm).
Qed.

Lemma not_running_in : mt_status m <> RUNNING -> i ∉ rg_run g.
Proof. intros Hs (m' & Hm' & ?)%(reg_run _ _ Hok). congruence. Qed.

Lemma not_waiting_in : mt_status m <> WAITING -> mt_item m ∉ rg_wait g.
Proof.
  intros Hs (m' & Hm' & ? & ?)%(reg_wait _ _ Hok).
  rewrite (reg_ids _ _ Hok i m Hm) in Hm'. congruence.
Qed.

Lemma perm_run_iff run' : rg_run g ≡ₚ i :: run' ->
  NoDup run' /\ forall k, k ∈ run' <-> k <> i /\ k ∈ rg_run g.
Proof.
  intros Hp. pose proof (reg_run_nodup _ _ Hok) as Hnd. rewrite Hp in Hnd.
  apply NoDup_cons in Hnd as [Hni Hnd]. split; [done|]. intros k.
  rewrite Hp, elem_of_cons. naive_solver.
Qed.

Lemma perm_wait_iff w' : rg_wait g ≡ₚ mt_item m :: w' ->
  NoDup w' /\ forall q, q ∈ w' <-> q <> mt_item m /\ q ∈ rg_wait g.
Proof.
  intros Hp. pose proof (reg_wait_nodup _ _ Hok) as Hnd. rewrite Hp in Hnd.
  apply NoDup_cons in Hnd as [Hni Hnd]. split; [done|]. intros k.
  rewrite Hp, elem_of_cons. naive_solver.
Qed.

(** Preemption: from the running ones back to the queue. *)
Lemma reg_preempt run' w' :
  mt_status m = RUNNING -> rg_run g ≡ₚ i :: run' -> w' ≡ₚ mt_item m :: rg_wait g ->
  RegOk (<[i := with_status WAITING m]> mh) (g <| rg_run := run' |> <| rg_wait := w' |>).
Proof.
  intros Hs Hrun Hw. destruct (perm_run_iff _ Hrun) as [Hnr Hr].
  apply (reg_move mh g); [done|done|congruence|].
  pose proof (not_waiting_in ltac:(congruence)) as Hnw.
  constructor; simpl; try done.
  - rewrite Hw. constructor; [done|apply (reg_wait_nodup _ _ Hok)].
  - intros q. rewrite Hw, elem_of_cons. destruct (decide (q = mt_item m)); naive_solver.
  - intros k. rewrite Hr. naive_solver.
  - right. split; [|done]. apply (live_not_recving mh g i m); congruence.
  - left. apply (live_not_sending mh g i m); congruence.
Qed.

(** Admission: from the queue to the running ones. *)
Lemma reg_admit w' run' :
  mt_status m = WAITING -> rg_wait g ≡ₚ mt_item m :: w' -> run' ≡ₚ i :: rg_run g ->
  RegOk (<[i := with_status RUNNING m]> mh) (g <| rg_wait := w' |> <| rg_run := run' |>).
Proof.
  intros Hs Hw Hrun. destruct (perm_wait_iff _ Hw) as [Hnw Hwi].
  apply (reg_move mh g); [done|done|congruence|].
  pose proof (not_running_in ltac:(congruence)) as Hnr.
  constructor; simpl; try done.
  - intros q. rewrite Hwi. naive_solver.
  - rewrite Hrun. constructor; [done|apply (reg_run_nodup _ _ Hok)].
  - intros k. rewrite Hrun, elem_of_cons. destruct (decide (k = i)); naive_solver.
  - right. split; [|done]. apply (live_not_recving mh g i m); congruence.
  - left. apply (live_not_sending mh g i m); congruence.
Qed.

(** Admission of a remote load. *)
Lemma reg_start_load w' :
  mt_status m = WAITING -> rg_wait g ≡ₚ mt_item m :: w' ->
  RegOk (<[i := with_status WAITING_FOR_REMOTE_KVS m]> mh)
    (g <| rg_wait := w' |> <| rg_recv ::= <[mt_rid m := i]> |>).
Proof.
  intros Hs Hw. destruct (perm_wait_iff _ Hw) as [Hnw Hwi].
  apply (reg_move mh g); [done|done|congruence|].
  pose proof (not_running_in ltac:(congruence)) as Hnr.
  constructor; simpl; try done.
  - intros q. rewrite Hwi. naive_solver.
  - apply (reg_run_nodup _ _ Hok).
  - intros k. destruct (decide (k = i)); naive_solver.
  - intros r Hr. by rewrite lookup_insert_ne.
  - left. rewrite lookup_insert_eq. auto.
  - left. apply (live_not_sending mh g i m); congruence.
Qed.

(** The end of a load: to the running ones. *)
Lemma reg_loaded run' :
  mt_status m = WAITING_FOR_REMOTE_KVS -> run' ≡ₚ i :: rg_run g ->
  RegOk (<[i := with_status RUNNING m]> mh)
    (g <| rg_recv ::= delete (mt_rid m) |> <| rg_run := run' |>).
Proof.
  intros Hs Hrun. apply (reg_move mh g); [done|done|congruence|].
  pose proof (not_running_in ltac:(congruence)) as Hnr.
  pose proof (not_waiting_in ltac:(congruence)) as Hnw.
  constructor; simpl; try done.
  - apply (reg_wait_nodup _ _ Hok).
  - intros q. destruct (decide (q = mt_item m)); naive_solver.
  - rewrite Hrun. constructor; [done|apply (reg_run_nodup _ _ Hok)].
  - intros k. rewrite Hrun, elem_of_cons. destruct (decide (k = i)); naive_solver.
  - intros r Hr. by rewrite lookup_delete_ne.
  - right. by rewrite lookup_delete_eq.
  - left. apply (live_not_sending mh g i m); congruence.
Qed.

(** The end of a waiting or running request, held for a decode instance or
    not: it leaves the container its status names. *)
Lemma reg_finish w' run' (hold : bool) :
  (mt_status m = RUNNING /\ rg_run g ≡ₚ i :: run' /\ w' = rg_wait g) \/
  (mt_status m = WAITING /\ rg_wait g ≡ₚ mt_item m :: w' /\ run' = rg_run g) ->
  RegOk (<[i := with_status FINISHED m]> mh)
    (g <| rg_wait := w' |> <| rg_run := run' |> <| rg_live ::= delete (mt_rid m) |>
       <| rg_send ::= fun d => if hold then <[mt_rid m := i]> d else d |>).
Proof.
  intros Hc. assert (Hlive : mt_status m <> FINISHED) by naive_solver congruence.
  pose proof (live_not_sending mh g i m Hok Hm Hlive) as Hns.
  assert (Hnr : rg_recv g !! mt_rid m = None).
  { apply (live_not_recving mh g i m); naive_solver congruence. }
  apply (reg_move mh g); [done|done|done|].
  constructor; simpl; try done.
  - destruct Hc as [(? & ? & ->)|(? & Hw & ->)]; [apply (reg_wait_nodup _ _ Hok)|].
    by destruct (perm_wait_iff _ Hw).
  - intros q. destruct Hc as [(? & ? & ->)|(? & Hw & ->)].
    + pose proof (not_waiting_in ltac:(congruence)). destruct (decide (q = mt_item m)); naive_solver.
    + destruct (perm_wait_iff _ Hw) as [_ ->]. naive_solver.
  - destruct Hc as [(? & Hr & ->)|(? & Hw & ->)]; [|apply (reg_run_nodup _ _ Hok)].
    by destruct (perm_run_iff _ Hr).
  - intros k. destruct Hc as [(? & Hr & ->)|(? & Hw & ->)].
    + destruct (perm_run_iff _ Hr) as [_ ->]. naive_solver.
    + pose proof (not_running_in ltac:(congruence)). destruct (decide (k = i)); naive_solver.
  - right. done.
  - intros r Hr. destruct hold; [|done]. by rewrite lookup_insert_ne.
  - destruct hold; [right; by rewrite lookup_insert_eq|by left].
Qed.

(** An abort during a load: the entry stays until the load ends. *)
Lemma reg_abort_load :
  mt_status m = WAITING_FOR_REMOTE_KVS ->
  RegOk (<[i := with_status FINISHED m]> mh) (g <| rg_live ::= delete (mt_rid m) |>).
Proof.
  intros Hs. apply (reg_move mh g); [done|done|congruence|].
  pose proof (not_running_in ltac:(congruence)) as Hnr.
  pose proof (not_waiting_in ltac:(congruence)) as Hnw.
  constructor; simpl; try done.
  - apply (reg_wait_nodup _ _ Hok).
  - intros q. destruct (decide (q = mt_item m)); naive_solver.
  - apply (reg_run_nodup _ _ Hok).
  - intros k. destruct (decide (k = i)); naive_solver.
  - left. split; [by apply (reg_load _ _ Hok)|by right].
  - left. apply (live_not_sending mh g i m); congruence.
Qed.

(** A finished request leaves the transfers. *)
Lemma reg_release_recv :
  mt_status m = FINISHED -> rg_recv g !! mt_rid m = Some i ->
  RegOk mh (g <| rg_recv ::= delete (mt_rid m) |>).
Proof.
  intros Hs Hi. pose proof Hok as [A B D E F G I J K L].
  constructor; simpl; try done.
  - intros r k [? Hk]%lookup_delete_Some. by apply I.
  - intros k mk Hk Hst. rewrite lookup_delete_ne; [by apply J|]. intros He.
    pose proof (J k mk Hk Hst) as Hrec. congruence.
  - intros r k Hl. destruct (L r k Hl) as [Hsn Hr]. split; [done|].
    intros j [_ Hj]%lookup_delete_Some. by apply Hr.
Qed.

Lemma reg_release_send r : RegOk mh (g <| rg_send ::= delete r |>).
Proof.
  pose proof Hok as [A B D E F G I J K L]. constructor; simpl; try done.
  - intros r' k [? Hk]%lookup_delete_Some. by apply K.
  - intros r' k Hl. destruct (L r' k Hl) as [Hsn Hr]. split; [|done].
    rewrite lookup_delete_None. by right.
Qed.

End Transitions.

(** A new request, at a fresh address, under an id that is not in flight. *)
Lemma reg_add mh g i m w' :
  RegOk mh g -> mh !! i = None -> qi_id (mt_item m) = i -> mt_status m = WAITING ->
  rg_live g !! mt_rid m = None -> rg_recv g !! mt_rid m = None -> rg_send g !! mt_rid m = None ->
  w' ≡ₚ mt_item m :: rg_wait g ->
  RegOk (<[i := m]> mh) (g <| rg_wait := w' |> <| rg_live ::= <[mt_rid m := i]> |>).
Proof.
  intros Hok Hi Hid Hs Hl Hr Hsd Hw. pose proof Hok as [A B D E F G I J K L].
  pose proof (lookup_here mh i m) as Hlk.
  assert (Hold : forall k mk, mh !! k = Some mk -> k <> i) by (intros k mk Hk ->; congruence).
  assert (Hnw : forall q, q ∈ rg_wait g -> qi_id q <> i).
  { intros q (mq & Hq & _)%D. eauto. }
  constructor; simpl.
  - intros k mk [[-> ->]|[_ Hk]]%Hlk; [done|by apply A].
  - rewrite Hw. constructor; [|done]. intros Hin. by apply Hnw in Hin.
  - intros q. rewrite Hw, elem_of_cons. setoid_rewrite Hlk. split.
    + intros [->|Hq]; [eauto 10|]. pose proof (Hnw q Hq).
      apply D in Hq as (mq & Hq & ?). eauto 10.
    + intros (mq & [[Hq ->]|[Hne Hq]] & Hit & Hst); [by left|right]. apply D. eauto.
  - done.
  - intros k. rewrite F. setoid_rewrite Hlk. split.
    + intros (mk & Hk & ?). pose proof (Hold _ _ Hk). eauto 10.
    + intros (mk & [[-> ->]|[Hne Hk]] & Hst); [congruence|eauto].
  - intros r k. rewrite lookup_insert_Some, G. setoid_rewrite Hlk. split.
    + intros [[<- <-]|[Hne (mk & Hk & ?)]]; [exists m; split_and!; auto; congruence|].
      pose proof (Hold _ _ Hk). eauto 10.
    + intros (mk & [[-> ->]|[Hne Hk]] & Hrk & Hst); [by left|right]. split; [|eauto].
      intros <-. assert (rg_live g !! mt_rid m = Some k) by (apply G; eauto). congruence.
  - intros r k Hk. destruct (I r k Hk) as (mk & Hmk & ?). exists mk.
    rewrite Hlk. pose proof (Hold _ _ Hmk). auto.
  - intros k mk [[-> ->]|[Hne Hk]]%Hlk Hst; [congruence|by apply J].
  - intros r k Hk. destruct (K r k Hk) as (mk & Hmk & ?). exists mk.
    rewrite Hlk. pose proof (Hold _ _ Hmk). auto.
  - intros r k. rewrite lookup_insert_Some. intros [[<- <-]|[Hne Hk]]; [|by apply L].
    split; [done|]. intros j Hj. congruence.
Qed.
