(* ===== verification/SchedulerInv.v ===== *)
(** * The scheduler's invariant

    [MemOk] states the memory safety of the store: the block manager's
    reference counts are the references the block tables make, and every
    table holds what [TableOk] says. [SeqOk] states what each status promises
    of a sequence's counters, [RowsOk] ties the launched rows to the pending
    tokens, and [Inv] joins them to the registry of [Lifecycle]. *)

From S2P Require Import Prelude Output Sequence BlockManager BlockManagerFacts Policy KVBase Scheduler Lifecycle.

(** ** References to blocks over the store *)

Definition total_refs (h : gmap nat Sequence) (j : nat) : nat :=
  map_fold (fun _ s n => occ j (block_table s) + n) 0 h.

(** The references of the other sequences. *)
Definition others (h : gmap nat Sequence) (i : nat) : nat -> nat := total_refs (delete i h).

Lemma total_refs_insert h i s j :
  h !! i = None -> total_refs (<[i := s]> h) j = occ j (block_table s) + total_refs h j.
Proof.
  intros Hi. unfold total_refs. rewrite map_fold_insert_L; [done| |done].
  intros. lia.
Qed.

Lemma total_refs_split h i s j :
  h !! i = Some s -> total_refs h j = refs_with (others h i) (block_table s) j.
Proof.
  intros Hi. unfold refs_with, others. rewrite <-(insert_delete_id h i s Hi) at 1.
  rewrite total_refs_insert by by rewrite lookup_delete_eq. lia.
Qed.

Lemma total_refs_update h i s j :
  total_refs (<[i := s]> h) j = refs_with (others h i) (block_table s) j.
Proof.
  unfold refs_with, others. rewrite <-insert_delete_eq.
  rewrite total_refs_insert by by rewrite lookup_delete_eq. lia.
Qed.

Lemma others_pos h i k s j :
  h !! k = Some s -> k <> i -> j ∈ block_table s -> 0 < others h i j.
Proof.
  intros Hk Hne Hj. unfold others. rewrite (total_refs_split _ k s).
  - unfold refs_with. apply occ_pos in Hj. lia.
  - by rewrite lookup_delete_ne.
Qed.

Section Invariant.
Context `{SeqSettings} `{!SettingsOk} `{SetOrder}.

(** ** Memory safety *)

Record MemOk (m : BlockManager) (h : gmap nat Sequence) : Prop := {
  mem_cfg : BMConfig m;
  mem_inv : BMInv m (total_refs h);
  mem_seq : forall i s, h !! i = Some s ->
    seq_id s = i /\ SeqWf s /\ TableOk m (total_refs h) s
}.

Lemma TableOk_ext m refs refs' s :
  (forall j, refs j = refs' j) -> TableOk m refs s -> TableOk m refs' s.
Proof.
  intros Hr [Hp Hb]. split; [done|]. intros i j Hij.
  destruct (Hb i j Hij) as (b & Hbj & Hc). exists b. by rewrite <-Hr.
Qed.

Lemma mem_inv_at m h i s :
  MemOk m h -> h !! i = Some s -> BMInv m (refs_with (others h i) (block_table s)).
Proof.
  intros Hm Hi. eapply BMInv_proper; [|apply (mem_inv _ _ Hm)].
  intros j. symmetry. by apply total_refs_split.
Qed.

Lemma mem_table_at m h i s :
  MemOk m h -> h !! i = Some s -> TableOk m (refs_with (others h i) (block_table s)) s.
Proof.
  intros Hm Hi. eapply TableOk_ext; [|apply (mem_seq _ _ Hm i s Hi)].
  intros j. by apply total_refs_split.
Qed.

(** An operation of the block manager on one sequence keeps the store safe. *)
Lemma MemOk_update m h i s m' s' :
  MemOk m h -> h !! i = Some s -> seq_id s' = i -> SeqWf s' ->
  BMInv m' (refs_with (others h i) (block_table s')) ->
  Frame (others h i) m (refs_with (others h i) (block_table s))
    m' (refs_with (others h i) (block_table s')) ->
  TableOk m' (refs_with (others h i) (block_table s')) s' ->
  MemOk m' (<[i := s']> h).
Proof.
  intros Hm Hi Hid Hwf Hinv Hf Ht. constructor.
  - destruct Hf as [(Hb & Hc & _) _]. destruct (mem_cfg _ _ Hm). split; congruence.
  - eapply BMInv_proper; [|exact Hinv]. intros j. apply total_refs_update.
  - intros k sk. rewrite lookup_insert_Some. intros [[<- <-]|[Hne Hk]].
    + split; [done|]. split; [done|]. eapply TableOk_ext; [|exact Ht].
      intros j. symmetry. apply total_refs_update.
    + destruct (mem_seq _ _ Hm k sk Hk) as (? & ? & Htk). split; [done|]. split; [done|].
      eapply TableOk_ext; [intros j; symmetry; apply total_refs_update|].
      eapply TableOk_frame; [|exact Hf|].
      * eapply TableOk_ext; [|exact Htk]. intros j. by apply total_refs_split.
      * intros j Hj. by eapply others_pos.
Qed.

(** A change that touches neither tokens, hashes nor blocks. *)
Definition SameMemory (s s' : Sequence) : Prop :=
  seq_id s' = seq_id s /\ token_ids s' = token_ids s /\ last_token s' = last_token s /\
  num_tokens s' = num_tokens s /\ num_prompt_tokens s' = num_prompt_tokens s /\
  num_published_blocks s' = num_published_blocks s /\ block_table s' = block_table s /\
  block_hashes s' = block_hashes s /\ (0 <= num_pending_tokens s')%Z.

Lemma TableOk_same m refs s s' :
  block_table s' = block_table s -> num_published_blocks s' = num_published_blocks s ->
  token_ids s' = token_ids s -> block_hashes s' = block_hashes s ->
  TableOk m refs s -> TableOk m refs s'.
Proof.
  intros Hb Hp Ht Hh [Hpub Hbl]. constructor; rewrite Hb, Hp, ?Ht, ?Hh; [done|].
  intros i j Hij. destruct (Hbl i j Hij) as (b & Hbj & Hc). exists b. by rewrite ?Ht, ?Hh.
Qed.

Lemma SeqWf_same s s' : SameMemory s s' -> SeqWf s -> SeqWf s'.
Proof.
  intros (_ & Ht & Hl & Hn & Hpr & _ & _ & Hh & Hp) [W1 W2 W3 W4 W5].
  constructor; rewrite ?Ht, ?Hl, ?Hn, ?Hpr, ?Hh; done.
Qed.

Lemma MemOk_same m h i s s' :
  MemOk m h -> h !! i = Some s -> SameMemory s s' -> MemOk m (<[i := s']> h).
Proof.
  intros Hm Hi Hs. destruct (mem_seq _ _ Hm i s Hi) as (Hid & Hwf & _).
  pose proof Hs as (Hi' & Ht & _ & _ & _ & Hp & Hb & Hh & _).
  eapply MemOk_update; [done|done|congruence|by eapply SeqWf_same| | |]; rewrite Hb.
  - by apply mem_inv_at.
  - by apply Frame_refl.
  - eapply TableOk_same; [done..|]. by apply mem_table_at.
Qed.

Lemma MemOk_insert m h i s :
  MemOk m h -> h !! i = None -> seq_id s = i -> SeqWf s -> block_table s = [] ->
  num_published_blocks s = 0%Z -> MemOk m (<[i := s]> h).
Proof.
  intros Hm Hi Hid Hwf Hb Hp.
  assert (Hr : forall j, total_refs (<[i := s]> h) j = total_refs h j).
  { intros j. rewrite total_refs_insert, Hb by done. done. }
  constructor.
  - apply (mem_cfg _ _ Hm).
  - eapply BMInv_proper; [exact Hr|apply (mem_inv _ _ Hm)].
  - intros k sk. rewrite lookup_insert_Some. intros [[<- <-]|[Hne Hk]].
    + split; [done|]. split; [done|]. constructor; rewrite Hb, ?Hp; [done|].
      intros ? j Hj. by rewrite lookup_nil in Hj.
    + destruct (mem_seq _ _ Hm k sk Hk) as (? & ? & Htk). split_and!; [done|done|].
      eapply TableOk_ext; [|exact Htk]. done.
Qed.

(** ** What a status promises *)

Record CfgOk (c : SchedulerConfig) : Prop := {
  cfg_bs : kvcache_block_size c = block_size;
  cfg_seqs : (0 < max_num_seqs c)%Z;
  cfg_budget : (0 < max_num_batched_tokens c)%Z;
  cfg_long : (0 <= long_prefill_token_threshold c)%Z;
  cfg_spec : (0 <= num_speculative_tokens c)%Z
}.

Lemma lookahead_nonneg c : (0 <= num_lookahead_tokens c)%Z.
Proof. unfold num_lookahead_tokens. lia. Qed.

(** Prefilling: blocks for every token, some left to compute. *)
Record PrefillOk (s : Sequence) : Prop := {
  pf_flag : is_prefill s = true;
  pf_pending : num_pending_tokens s = 0%Z;
  pf_spec : spec_token_ids s = [];
  pf_cached : (0 <= num_cached_tokens s < num_tokens s)%Z;
  pf_table : (num_tokens s <= Zlen (block_table s) * block_size)%Z
}.

(** Decoding: every planned token but the last is computed. *)
Record DecodeOk (s : Sequence) : Prop := {
  dc_flag : is_prefill s = false;
  dc_cached : num_cached_tokens s = (num_planned_tokens s - 1)%Z;
  dc_table : (num_cached_tokens s <= Zlen (block_table s) * block_size)%Z
}.

(** Published blocks are computed and committed. *)
Definition PublishedOk (s : Sequence) : Prop :=
  (num_published_blocks s * block_size <= num_cached_tokens s)%Z /\
  (num_published_blocks s * block_size <= num_tokens s)%Z.

Definition LimitOk (s : Sequence) : Prop :=
  (num_completion_tokens s < max_tokens s)%Z /\
  (num_planned_tokens s - num_prompt_tokens s <= max_tokens s)%Z.

Definition StatusOk (s : Sequence) : Prop :=
  match status s with
  | WAITING => is_prefill s = true /\ num_pending_tokens s = 0%Z /\ spec_token_ids s = [] /\
      block_table s = [] /\ num_cached_tokens s = 0%Z /\ num_published_blocks s = 0%Z /\ LimitOk s
  | WAITING_FOR_REMOTE_KVS => PrefillOk s /\ PublishedOk s /\ LimitOk s /\
      (num_published_blocks s * block_size < num_prompt_tokens s)%Z
  | RUNNING => (if is_prefill s then PrefillOk s else DecodeOk s) /\ PublishedOk s /\ LimitOk s
  | FINISHED => True
  end.

Context {Q C : Type} `{SchedulingPolicyLaws Q} `{KVConnectorLaws C}.

(** A remote prefill is asked for once, by a request that has computed
    nothing; without a connector the request's flag is ignored. *)
Definition RemoteOk (conn : option C) (s : Sequence) : Prop :=
  kv_ok (kv_transfer_params s) /\
  (is_Some conn -> wants_remote_prefill s = true ->
   status s = WAITING /\ num_tokens s = num_prompt_tokens s \/ status s = FINISHED).

Definition SeqOk (conn : option C) (s : Sequence) : Prop := StatusOk s /\ RemoteOk conn s.

(** ** The launched rows *)

(** Slots the rows of sequence [i] hold, for a preemption count [p]. *)
Definition row_of (i : nat) (p : Z) (r : LaunchedRow) : Prop :=
  row_seq r = i /\ row_num_preemptions r = p.

#[global] Instance row_of_dec i p r : Decision (row_of i p r).
Proof. unfold row_of. apply _. Defined.

Definition reserved (rows : list LaunchedRow) (i : nat) (p : Z) : Z :=
  Zsum ((fun r => 1 + row_num_draft_tokens r)%Z <$> filter (row_of i p) rows).

Record RowsOk (h : gmap nat Sequence) (rows : list LaunchedRow) : Prop := {
  rows_known : forall r, r ∈ rows -> (0 <= row_num_draft_tokens r)%Z /\
    exists s, h !! row_seq r = Some s /\ (row_num_preemptions r <= num_preemptions s)%Z;
  rows_pending : forall i s, h !! i = Some s -> status s <> FINISHED ->
    num_pending_tokens s = reserved rows i (num_preemptions s)
}.

(** ** The invariant *)

Definition meta (h : gmap nat Sequence) : gmap nat Meta := meta_of <$> h.

Definition registry (x : Scheduler Q C) (run : list nat) : Registry :=
  {| rg_wait := pol_iter (waiting x); rg_run := run; rg_live := seqs x;
     rg_recv := recving x; rg_send := sending x |}.

(** Only a transfer keeps the blocks of a finished request. *)
Definition HeldOk (h : gmap nat Sequence) (rc sd : gmap string nat) : Prop :=
  forall i s, h !! i = Some s -> status s = FINISHED ->
    block_table s = [] \/ rc !! request_id s = Some i \/ sd !! request_id s = Some i.

(** [run] holds the running sequences: the deque, and those a step has taken
    from it. *)
Record Inv (x : Scheduler Q C) (run : list nat) (rows : list LaunchedRow) : Prop := {
  inv_cfg : CfgOk (config x);
  inv_mem : MemOk (block_manager x) (heap x);
  inv_reg : RegOk (meta (heap x)) (registry x run);
  inv_seq : forall i s, heap x !! i = Some s -> SeqOk (connector x) s;
  inv_held : HeldOk (heap x) (recving x) (sending x);
  inv_rows : RowsOk (heap x) rows
}.

Lemma meta_lookup h i s : h !! i = Some s -> meta h !! i = Some (meta_of s).
Proof. intros Hi. unfold meta. by rewrite lookup_fmap, Hi. Qed.

Lemma meta_lookup_inv h i m :
  meta h !! i = Some m -> exists s, h !! i = Some s /\ m = meta_of s.
Proof.
  unfold meta. rewrite lookup_fmap. destruct (h !! i) as [s|]; [|done].
  intros [= <-]. eauto.
Qed.

Lemma meta_insert h i s : meta (<[i := s]> h) = <[i := meta_of s]> (meta h).
Proof. apply fmap_insert. Qed.

Lemma meta_same h i s s' :
  h !! i = Some s -> meta_of s' = meta_of s -> meta (<[i := s']> h) = meta h.
Proof.
  intros Hi Hm. rewrite meta_insert, Hm. apply insert_id. by apply meta_lookup.
Qed.

(** ** Finding a sequence *)

Section Find.
Context (x : Scheduler Q C) (run : list nat) (rows : list LaunchedRow).
Hypothesis Hinv : Inv x run rows.

Lemma inv_running i : i ∈ run -> exists s, heap x !! i = Some s /\ status s = RUNNING.
Proof.
  intros (m & Hm & Hs)%(reg_run _ _ (inv_reg _ _ _ Hinv)).
  apply meta_lookup_inv in Hm as (s & Hi & ->). eauto.
Qed.

Lemma inv_waiting q : q ∈ pol_iter (waiting x) ->
  exists s, heap x !! qi_id q = Some s /\ status s = WAITING /\ item_of s = q.
Proof.
  intros (m & Hm & Hi & Hs)%(reg_wait _ _ (inv_reg _ _ _ Hinv)).
  apply meta_lookup_inv in Hm as (s & Hl & ->). eauto.
Qed.

Lemma inv_live r i : seqs x !! r = Some i ->
  exists s, heap x !! i = Some s /\ request_id s = r /\ status s <> FINISHED.
Proof.
  intros (m & Hm & Hi & Hs)%(reg_live _ _ (inv_reg _ _ _ Hinv)).
  apply meta_lookup_inv in Hm as (s & Hl & ->). eauto.
Qed.

Lemma inv_live_back i s : heap x !! i = Some s -> status s <> FINISHED ->
  seqs x !! request_id s = Some i.
Proof.
  intros Hi Hs. apply (reg_live _ _ (inv_reg _ _ _ Hinv)). exists (meta_of s).
  split; [by apply meta_lookup|done].
Qed.

Lemma inv_wf i s : heap x !! i = Some s -> seq_id s = i /\ SeqWf s.
Proof. intros Hi. by destruct (mem_seq _ _ (inv_mem _ _ _ Hinv) i s Hi) as (? & ? & _). Qed.

Lemma inv_status i s : heap x !! i = Some s -> StatusOk s.
Proof. intros Hi. by destruct (inv_seq _ _ _ Hinv i s Hi). Qed.

Lemma inv_remote i s : heap x !! i = Some s -> RemoteOk (connector x) s.
Proof. intros Hi. by destruct (inv_seq _ _ _ Hinv i s Hi). Qed.

Lemma inv_pending i s : heap x !! i = Some s -> status s <> FINISHED ->
  num_pending_tokens s = reserved rows i (num_preemptions s).
Proof. apply (rows_pending _ _ (inv_rows _ _ _ Hinv)). Qed.

End Find.

(** ** Updating one sequence *)

Lemma SeqOk_insert conn (h : gmap nat Sequence) i s :
  (forall k sk, h !! k = Some sk -> SeqOk conn sk) -> SeqOk conn s ->
  forall k sk, <[i := s]> h !! k = Some sk -> SeqOk conn sk.
Proof. intros Hh Hs k sk [[<- <-]|[_ Hk]]%lookup_insert_Some; [done|eauto]. Qed.

Lemma RowsOk_update h rows i s s' :
  RowsOk h rows -> h !! i = Some s ->
  (num_preemptions s <= num_preemptions s')%Z ->
  (status s' <> FINISHED -> num_pending_tokens s' = reserved rows i (num_preemptions s')) ->
  RowsOk (<[i := s']> h) rows.
Proof.
  intros [Hk Hp] Hi Hle Hpend. constructor.
  - intros r Hr. destruct (Hk r Hr) as (Hd & sr & Hsr & Hn). split; [done|].
    destruct (decide (row_seq r = i)) as [He|He].
    + exists s'. rewrite He, lookup_insert_eq. split; [done|].
      assert (sr = s) by congruence. subst sr. lia.
    + exists sr. by rewrite lookup_insert_ne.
  - intros k sk [[<- <-]|[_ Hk']]%lookup_insert_Some; [done|by apply Hp].
Qed.

(** No row knows a preemption that has not happened yet. *)
Lemma reserved_future h rows i s :
  RowsOk h rows -> h !! i = Some s -> reserved rows i (1 + num_preemptions s) = 0%Z.
Proof.
  intros [Hk _] Hi. unfold reserved.
  assert (filter (row_of i (1 + num_preemptions s)) rows = []) as ->; [|done].
  apply elem_of_nil_inv. intros r [[Hs Hp] Hr]%list_elem_of_filter.
  destruct (Hk r Hr) as (_ & sr & Hsr & Hle). rewrite Hs in Hsr.
  assert (sr = s) by congruence. subst sr. lia.
Qed.

Lemma reserved_nonneg rows i p :
  (forall r, r ∈ rows -> (0 <= row_num_draft_tokens r)%Z) -> (0 <= reserved rows i p)%Z.
Proof.
  intros Hk. unfold reserved.
  assert (Forall (fun r => 0 <= row_num_draft_tokens r)%Z rows) as Hf by by apply Forall_forall.
  clear Hk. induction Hf as [|r l Hr Hf IH]; [done|].
  rewrite filter_cons. case_decide; [|done]. rewrite fmap_cons. simpl in *. lia.
Qed.

Lemma reserved_cons r rows i p :
  reserved (r :: rows) i p =
  ((if decide (row_of i p r) then 1 + row_num_draft_tokens r else 0) + reserved rows i p)%Z.
Proof. unfold reserved. rewrite filter_cons. by case_decide. Qed.

Lemma reserved_app rows1 rows2 i p :
  reserved (rows1 ++ rows2) i p = (reserved rows1 i p + reserved rows2 i p)%Z.
Proof. unfold reserved. by rewrite filter_app, fmap_app, Zsum_app. Qed.

(** A change of one sequence that keeps its status, identity and blocks. *)
Lemma Inv_set x run rows i s s' :
  Inv x run rows -> heap x !! i = Some s -> SameMemory s s' -> meta_of s' = meta_of s ->
  SeqOk (connector x) s' -> num_preemptions s' = num_preemptions s ->
  num_pending_tokens s' = num_pending_tokens s ->
  Inv (x <| heap ::= <[i := s']> |>) run rows.
Proof.
  intros Hx Hi Hs Hm Hok Hpr Hpe. pose proof Hs as (_ & _ & _ & _ & _ & _ & Hb & _).
  assert (Hst : status s' = status s) by (by injection Hm).
  assert (Hr : request_id s' = request_id s) by (by injection Hm).
  constructor; simpl.
  - apply (inv_cfg _ _ _ Hx).
  - eapply MemOk_same; [apply (inv_mem _ _ _ Hx)|done|done].
  - erewrite meta_same by done. apply (inv_reg _ _ _ Hx).
  - apply SeqOk_insert; [apply (inv_seq _ _ _ Hx)|done].
  - intros k sk [[<- <-]|[_ Hk]]%lookup_insert_Some Hf; [|by apply (inv_held _ _ _ Hx)].
    rewrite Hb, Hr. rewrite Hst in Hf. by apply (inv_held _ _ _ Hx).
  - eapply RowsOk_update; [apply (inv_rows _ _ _ Hx)|done|lia|].
    rewrite Hst, Hpe, Hpr. by apply (rows_pending _ _ (inv_rows _ _ _ Hx)).
Qed.

End Invariant.
