(* ===== verification/SchedulerSteps.v ===== *)
(** * The scheduler's elementary operations keep the invariant

    Triples for access to the store, for finishing, freeing and preempting a
    sequence, for admission and for the assignment of a step's tokens: none
    raises, each keeps [Inv], and each leaves the other sequences alone. *)

From S2P Require Import Prelude Output Sequence BlockManager BlockManagerFacts Policy KVBase Scheduler Lifecycle.
From S2P Require Import SchedulerInv.

Section Steps.
Context `{SeqSettings} `{!SettingsOk} `{SetOrder}.
Context {Q C : Type} `{SchedulingPolicyLaws Q} `{KVConnectorLaws C}.
Variable clock : nat -> Qc.
Local Abbreviation Sch := (Scheduler Q C).
Implicit Types x : Sch.

(** ** Access to the store *)

Lemma wp_get_seq i x s (Q' : Sequence -> Sch -> Prop) :
  heap x !! i = Some s -> Q' s x -> wp (get_seq i) x Q'.
Proof. intros Hi HQ. unfold get_seq. wp_steps. by eapply wp_or_raise. Qed.

Lemma wp_on_seq {A} i (m : M Sequence A) x s Q' :
  heap x !! i = Some s -> wp m s (fun a s' => Q' a (x <| heap ::= <[i := s']> |>)) ->
  wp (on_seq i m) x Q'.
Proof. intros Hi HQ. unfold on_seq. wp_step. eapply wp_get_seq; [done|]. by wp_step. Qed.

Lemma wp_set_seq i f x s (Q' : unit -> Sch -> Prop) :
  heap x !! i = Some s -> Q' tt (x <| heap ::= <[i := f s]> |>) -> wp (set_seq i f) x Q'.
Proof. intros Hi HQ. unfold set_seq. eapply wp_on_seq; [done|]. by wp_step. Qed.

Lemma wp_on_blocks {A} i (m : M (BlockManager * Sequence) A) x s Q' :
  heap x !! i = Some s ->
  wp m (block_manager x, s)
    (fun a p => Q' a (x <| block_manager := p.1 |> <| heap ::= <[i := p.2]> |>)) ->
  wp (on_blocks i m) x Q'.
Proof. intros Hi HQ. unfold on_blocks. wp_step. eapply wp_get_seq; [done|]. by wp_step. Qed.

Lemma wp_on_connector {A} i c (m : M (C * Sequence) A) x s Q' :
  heap x !! i = Some s ->
  wp m (c, s) (fun a p => Q' a (x <| connector := Some p.1 |> <| heap ::= <[i := p.2]> |>)) ->
  wp (on_connector i c m) x Q'.
Proof. intros Hi HQ. unfold on_connector. wp_step. eapply wp_get_seq; [done|]. by wp_step. Qed.

Lemma wp_perf_counter x (Q' : Qc -> Sch -> Prop) :
  Q' (clock (ticks x)) (x <| ticks := S (ticks x) |>) -> wp (perf_counter clock) x Q'.
Proof. intros HQ. unfold perf_counter. by wp_steps. Qed.

Lemma wp_items x l (Q' : list QItem -> Sch -> Prop) ss :
  Forall2 (fun i s => heap x !! i = Some s) l ss ->
  Q' (item_of <$> ss) x -> wp (items l) x Q'.
Proof.
  intros Hss. revert Q'. unfold items. induction Hss as [|i s l ss Hi Hss IH]; intros Q' HQ; simpl.
  - by wp_step.
  - do 2 wp_step. eapply wp_get_seq; [done|]. do 2 wp_step. apply IH. by wp_step.
Qed.

Lemma put_put x i s s' :
  x <| heap ::= <[i := s]> |> <| heap ::= <[i := s']> |> = x <| heap ::= <[i := s']> |>.
Proof. destruct x. unfold update_field; simpl. by rewrite insert_insert_eq. Qed.

(** ** Building the invariant of a step's result *)

Lemma HeldOk_insert h rc sd rc' sd' i s :
  HeldOk h rc sd ->
  (forall r k, k <> i -> rc !! r = Some k -> rc' !! r = Some k) ->
  (forall r k, k <> i -> sd !! r = Some k -> sd' !! r = Some k) ->
  (status s = FINISHED -> block_table s = [] \/ rc' !! request_id s = Some i \/
     sd' !! request_id s = Some i) ->
  HeldOk (<[i := s]> h) rc' sd'.
Proof.
  intros Hh Hrc Hsd Hs k sk [[<- <-]|[Hne Hk]]%lookup_insert_Some Hf; [by apply Hs|].
  destruct (Hh k sk Hk Hf) as [?|[?|?]]; auto.
Qed.

Lemma Inv_perm x run run' rows : run ≡ₚ run' -> Inv x run rows -> Inv x run' rows.
Proof.
  intros Hp [A B D E F G]. constructor; try done. destruct D as [D1 D2 D3 D4 D5 D6 D7 D8 D9 D10].
  constructor; simpl in *; try done.
  - by rewrite <-Hp.
  - intros i. by rewrite <-Hp.
Qed.

(** A change of the status of sequence [i]. *)
Lemma Inv_move x run rows i s x' run' s' :
  Inv x run rows -> heap x !! i = Some s -> heap x' = <[i := s']> (heap x) ->
  config x' = config x -> (is_Some (connector x') -> is_Some (connector x)) ->
  meta_of s' = with_status (status s') (meta_of s) ->
  MemOk (block_manager x') (heap x') ->
  RegOk (<[i := with_status (status s') (meta_of s)]> (meta (heap x))) (registry x' run') ->
  SeqOk (connector x) s' ->
  HeldOk (heap x') (recving x') (sending x') ->
  (num_preemptions s <= num_preemptions s')%Z ->
  (status s' <> FINISHED -> num_pending_tokens s' = reserved rows i (num_preemptions s')) ->
  Inv x' run' rows.
Proof.
  intros Hx Hi Hh Hc Hconn Hm Hmem Hreg Hs Hheld Hpr Hpe. constructor.
  - rewrite Hc. apply (inv_cfg _ _ _ Hx).
  - done.
  - by rewrite Hh, meta_insert, Hm.
  - intros k sk Hk. rewrite Hh in Hk.
    assert (SeqOk (connector x) sk) as [Hst [Hkv Hre]].
    { eapply SeqOk_insert; [apply (inv_seq _ _ _ Hx)|done|done]. }
    split; [done|]. split; [done|]. intros Hsome. by apply Hre, Hconn.
  - done.
  - rewrite Hh. eapply RowsOk_update; [apply (inv_rows _ _ _ Hx)|done|done|done].
Qed.

Lemma MemOk_emptied m h i s m' s' :
  MemOk m h -> h !! i = Some s -> seq_id s' = i -> SeqWf s' ->
  block_table s' = [] -> num_published_blocks s' = 0%Z ->
  BMInv m' (others h i) -> SameConfig m m' -> SameContents m m' ->
  MemOk m' (<[i := s']> h).
Proof.
  intros Hm Hi Hid Hwf Hb Hp Hinv Hcfg Hcont.
  eapply MemOk_update; [done|done|done|done| | |]; rewrite ?Hb.
  - eapply BMInv_proper; [|exact Hinv]. intros j. apply refs_with_nil.
  - apply SameContents_frame; [done|done|]. intros j Hj. unfold refs_with; simpl. lia.
  - constructor; rewrite ?Hb, ?Hp; [done|]. intros ? j Hj. by rewrite lookup_nil in Hj.
Qed.

(** ** Finishing *)

Definition finished (reason : string) (t : Qc) (s : Sequence) : Sequence :=
  s <| status := FINISHED |> <| finish_reason := Some reason |> <| finish_time := Some t |>.

Lemma finish_run i reason x s :
  heap x !! i = Some s ->
  wp (finish clock i reason) x (fun _ x' => exists t,
    x' = x <| ticks := S (ticks x) |> <| heap ::= <[i := finished reason t s]> |>).
Proof.
  intros Hi. unfold finish. wp_step. eapply wp_set_seq; [done|]. wp_step.
  apply wp_perf_counter. eapply wp_set_seq; [simpl; apply lookup_insert_eq|].
  exists (clock (ticks x)). destruct x. unfold update_field; simpl. by rewrite insert_insert_eq.
Qed.

Definition dropped_seq (reason : string) (t : Qc) (s : Sequence) : Sequence :=
  finished reason t s <| num_pending_tokens := 0%Z |>.

Lemma drop_run i reason x s j :
  heap x !! i = Some s -> seqs x !! request_id s = Some j ->
  wp (drop clock i reason) x (fun _ x' => exists t,
    x' = x <| ticks := S (ticks x) |> <| heap ::= <[i := dropped_seq reason t s]> |>
           <| seqs ::= delete (request_id s) |>).
Proof.
  intros Hi Hl. unfold drop. wp_step. eapply wp_mono; [by apply finish_run|].
  intros [] x1 [t ->]. wp_step. eapply wp_on_seq; [simpl; apply lookup_insert_eq|].
  unfold drop_pending. wp_step. wp_step. eapply wp_get_seq; [simpl; apply lookup_insert_eq|].
  wp_steps. simpl. eapply wp_or_raise; [done|]. wp_step. exists t.
  destruct x. unfold update_field; simpl. by rewrite insert_insert_eq.
Qed.

(** ** Releasing *)

Definition released (s : Sequence) : Sequence :=
  s <| num_cached_tokens := 0%Z |> <| num_published_blocks := 0%Z |> <| block_table := [] |>.

Lemma released_wf s : SeqWf s -> SeqWf (released s).
Proof. intros [A B D E F]. by constructor. Qed.

Lemma deallocate_run i x s :
  heap x !! i = Some s -> MemOk (block_manager x) (heap x) ->
  wp (on_blocks i deallocate) x (fun _ x' => exists m',
    MemOk m' (<[i := released s]> (heap x)) /\
    x' = x <| block_manager := m' |> <| heap ::= <[i := released s]> |>).
Proof.
  intros Hi Hm. eapply wp_on_blocks; [done|].
  wp_call deallocate_spec; [by apply mem_inv_at|].
  intros [] [m' s'] (Hs' & Hinv & Hcfg & Hcont & _). simpl in *. subst s'.
  exists m'. split; [|done]. destruct (mem_seq _ _ Hm i s Hi) as (Hid & Hwf & _).
  by eapply MemOk_emptied; [exact Hm|done|done|apply released_wf|..].
Qed.

(** A finished request's blocks, released or held. *)
Record Freed (x x' : Sch) (i : nat) (s s' : Sequence) (hold : bool) : Prop := {
  fr_heap : heap x' = <[i := s']> (heap x);
  fr_config : config x' = config x;
  fr_conn : is_Some (connector x') -> is_Some (connector x);
  fr_waiting : waiting x' = waiting x;
  fr_running : running x' = running x;
  fr_seqs : seqs x' = seqs x;
  fr_recving : recving x' = recving x;
  fr_sending : sending x' = if hold then <[request_id s := i]> (sending x) else sending x;
  fr_meta : meta_of s' = meta_of s;
  fr_preempt : num_preemptions s' = num_preemptions s;
  fr_params : kv_transfer_params s' = kv_transfer_params s;
  fr_tokens : token_ids s' = token_ids s;
  fr_reason : finish_reason s' = finish_reason s;
  fr_new : num_new_tokens s' = num_new_tokens s;
  fr_mem : MemOk (block_manager x') (heap x');
  fr_table : hold = false -> block_table s' = []
}.

Lemma free_spec i x s :
  heap x !! i = Some s -> MemOk (block_manager x) (heap x) ->
  wp (free i) x (fun _ x' => exists s' hold, Freed x x' i s s' hold).
Proof.
  intros Hi Hm. unfold free. wp_steps. destruct (connector x) as [c|] eqn:Hc.
  2: { wp_call deallocate_run; [done|done|]. intros [] x' (m' & Hm' & ->).
       exists (released s), false. by constructor. }
  wp_step. eapply wp_on_connector; [done|]. wp_call kv_finished_law.
  intros [hold result] [c' s'] Hs'. simpl in Hs'. subst s'. wp_step.
  eapply wp_set_seq; [simpl; apply lookup_insert_eq|]. simpl.
  set (s1 := s <| kv_transfer_result := result |>).
  assert (Hm1 : MemOk (block_manager x) (<[i := s1]> (heap x))).
  { eapply MemOk_same; [done|done|]. destruct (mem_seq _ _ Hm i s Hi) as (_ & Hwf & _).
    repeat split. apply (wf_pending _ Hwf). }
  destruct hold.
  - wp_step. eapply wp_get_seq; [simpl; apply lookup_insert_eq|]. wp_step.
    exists s1, true. constructor; simpl; rewrite ?insert_insert_eq; done.
  - wp_call deallocate_run; [simpl; apply lookup_insert_eq|simpl; by rewrite insert_insert_eq|].
    intros [] x' (m' & Hm' & ->). exists (released s1), false.
    simpl in *. rewrite !insert_insert_eq in Hm'.
    constructor; simpl; rewrite ?insert_insert_eq; done.
Qed.

(** ** Preemption *)

Definition add_preempted (i : nat) (l : Locals) : Locals :=
  l <| output ::= fun o => o <| preempted ::= fun r => r ++ [i] |> |>.

Definition requeued (s : Sequence) : Sequence :=
  released (s <| status := WAITING |> <| is_prefill := true |> <| num_preemptions ::= Z.add 1 |>
              <| num_pending_tokens := 0%Z |> <| spec_token_ids := [] |>).

(** What a step on sequence [i] leaves alone. *)
Record Apart (i : nat) (x x' : Sch) : Prop := {
  ap_config : config x' = config x;
  ap_conn : is_Some (connector x') -> is_Some (connector x);
  ap_heap : forall k, k <> i -> heap x' !! k = heap x !! k
}.

Lemma Apart_trans i x1 x2 x3 : Apart i x1 x2 -> Apart i x2 x3 -> Apart i x1 x3.
Proof.
  intros [A1 A2 A3] [B1 B2 B3]. constructor; [congruence|auto|].
  intros k Hk. by rewrite B3, A3.
Qed.

Lemma requeued_ok conn s :
  status s = RUNNING -> SeqOk conn s -> SeqWf s -> SeqOk conn (requeued s).
Proof.
  intros Hs [Hst [Hkv Hre]] Hwf. unfold StatusOk in Hst. rewrite Hs in Hst.
  destruct Hst as (_ & _ & Hlim & _). unfold num_completion_tokens in Hlim.
  split.
  - unfold StatusOk; simpl. split_and!; try done.
    unfold LimitOk, num_completion_tokens, num_planned_tokens in *; simpl. lia.
  - split; [done|]. intros Hc Hw. destruct (Hre Hc Hw) as [[? _]|?]; congruence.
Qed.

Lemma preempt_spec x l run run' rows i :
  Inv x run rows -> run ≡ₚ i :: run' ->
  wp (preempt i) (x, l) (fun _ p => Inv p.1 run' rows /\ running p.1 = running x /\
    Apart i x p.1 /\ (exists s', heap p.1 !! i = Some s' /\ status s' = WAITING) /\
    p.2 = add_preempted i l).
Proof.
  intros Hx Hrun. destruct (inv_running _ _ _ Hx i) as (s & Hi & Hs); [rewrite Hrun; constructor|].
  destruct (inv_wf _ _ _ Hx i s Hi) as [Hid Hwf].
  unfold preempt. wp_steps. simpl. eapply wp_set_seq; [done|]. wp_steps. simpl.
  eapply wp_on_seq; [simpl; apply lookup_insert_eq|].
  unfold drop_pending. wp_steps. simpl.
  eapply wp_set_seq; [simpl; apply lookup_insert_eq|]. wp_steps. simpl.
  wp_call deallocate_run; [simpl; apply lookup_insert_eq| |].
  { simpl. rewrite !insert_insert_eq. eapply MemOk_same; [apply (inv_mem _ _ _ Hx)|done|].
    repeat split; simpl; done. }
  intros [] x1 (m' & Hm' & ->). wp_steps. simpl.
  eapply wp_get_seq; [simpl; apply lookup_insert_eq|]. wp_steps. simpl in *.
  rewrite !insert_insert_eq in Hm' |- *. fold (requeued s).
  split_and!; [|done| |eexists; split; [apply lookup_insert_eq|done]|done].
  2: { constructor; simpl; try done. intros k Hk. by rewrite !lookup_insert_ne. }
  eapply (Inv_move x run rows i s _ _ (requeued s)); simpl; rewrite ?insert_insert_eq; try done.
  - apply (reg_preempt _ (registry x run) i (meta_of s)); simpl; try done.
    + apply (inv_reg _ _ _ Hx).
    + by apply meta_lookup.
    + apply pol_requeue_iter.
  - apply requeued_ok; [done|by apply (inv_seq _ _ _ Hx i)|done].
  - eapply HeldOk_insert; [apply (inv_held _ _ _ Hx)|done|done|done].
  - lia.
  - intros _. symmetry. by eapply reserved_future; [apply (inv_rows _ _ _ Hx)|].
Qed.

(** ** Arrival *)

Definition in_flight (x : Sch) (r : string) : bool :=
  bool_decide (is_Some (seqs x !! r)) || bool_decide (is_Some (recving x !! r)) ||
  bool_decide (is_Some (sending x !! r)).

Lemma add_refused x s :
  in_flight x (request_id s) = true ->
  add s x = (inl (DuplicateRequestId (request_id s +:+ " is already in flight")), x).
Proof.
  intros Hd. unfold add, bind, gets, id. fold (in_flight x (request_id s)). by rewrite Hd.
Qed.

Lemma add_spec x run rows s :
  Inv x run rows -> heap x !! seq_id s = None -> SeqWf s -> status s = WAITING ->
  num_preemptions s = 0%Z -> SeqOk (connector x) s -> in_flight x (request_id s) = false ->
  wp (add s) x (fun _ x' => Inv x' run rows /\ running x' = running x /\
    heap x' = <[seq_id s := s]> (heap x) /\ seqs x' = <[request_id s := seq_id s]> (seqs x)).
Proof.
  intros Hx Hi Hwf Hs Hpr Hok Hdup. pose proof Hdup as Hd. unfold in_flight in Hdup.
  apply orb_false_iff in Hdup as [[Hl Hr]%orb_false_iff Hsd].
  apply bool_decide_eq_false, eq_None_not_Some in Hl, Hr, Hsd.
  assert (Hw : num_pending_tokens s = 0%Z /\ block_table s = [] /\ num_published_blocks s = 0%Z).
  { destruct Hok as [Hst _]. unfold StatusOk in Hst. rewrite Hs in Hst. tauto. }
  destruct Hw as (Hp & Hb & Hpub).
  unfold add. wp_step. apply wp_gets. unfold id. fold (in_flight x (request_id s)). rewrite Hd. wp_step.
  split_and!; [|done..]. constructor; simpl.
  - apply (inv_cfg _ _ _ Hx).
  - apply MemOk_insert; try done. apply (inv_mem _ _ _ Hx).
  - rewrite meta_insert.
    apply (reg_add _ (registry x run) (seq_id s) (meta_of s)); simpl; try done.
    + apply (inv_reg _ _ _ Hx).
    + unfold meta. by rewrite lookup_fmap, Hi.
    + apply pol_add_iter.
  - apply SeqOk_insert; [apply (inv_seq _ _ _ Hx)|done].
  - eapply HeldOk_insert; [apply (inv_held _ _ _ Hx)|done|done|by intros; congruence].
  - destruct (inv_rows _ _ _ Hx) as [Hk Hpend]. constructor.
    + intros r Hrow. destruct (Hk r Hrow) as (? & sr & Hsr & ?). split; [done|].
      exists sr. rewrite lookup_insert_ne; [done|congruence].
    + intros k sk [[<- <-]|[_ Hk']]%lookup_insert_Some Hf; [|by apply Hpend].
      rewrite Hp. unfold reserved.
      assert (filter (row_of (seq_id s) (num_preemptions s)) rows = []) as ->; [|done].
      apply elem_of_nil_inv. intros r [[Hrs _] Hrow]%list_elem_of_filter.
      destruct (Hk r Hrow) as (_ & sr & Hsr & _). congruence.
Qed.

(** ** The end of a request *)

(** A waiting or running request, taken out of its container, then marked
    finished and freed: the invariant without it. *)
Lemma finished_inv x x1 x2 rows i s s1 s2 hold run run' w' :
  Inv x run rows -> heap x !! i = Some s ->
  (status s = RUNNING /\ run ≡ₚ i :: run' /\ w' = waiting x) \/
  (status s = WAITING /\ pol_iter (waiting x) ≡ₚ item_of s :: pol_iter w' /\ run' = run) ->
  heap x1 = <[i := s1]> (heap x) -> config x1 = config x -> connector x1 = connector x ->
  waiting x1 = w' -> seqs x1 = delete (request_id s) (seqs x) ->
  recving x1 = recving x -> sending x1 = sending x ->
  meta_of s1 = with_status FINISHED (meta_of s) -> num_preemptions s1 = num_preemptions s ->
  kv_transfer_params s1 = kv_transfer_params s ->
  Freed x1 x2 i s1 s2 hold ->
  Inv x2 run' rows.
Proof.
  intros Hx Hi Hwhere Hh Hc Hcn Hw Hl Hrc Hsd Hm Hp Hpar [F1 F2 F3 F4 F5 F6 F7 F8 F9 F10 F11 F12 _ _ F13 F14].
  assert (Hm2 : meta_of s2 = with_status FINISHED (meta_of s)) by congruence.
  assert (Hst2 : status s2 = FINISHED) by (by injection Hm2).
  assert (Hr2 : request_id s2 = request_id s) by (by injection Hm2).
  assert (Hr1 : request_id s1 = request_id s) by (by injection Hm).
  eapply (Inv_move x run rows i s x2 run' s2); try done.
  - by rewrite F1, Hh, insert_insert_eq.
  - congruence.
  - rewrite <-Hcn. done.
  - by rewrite Hm2, Hst2.
  - rewrite Hst2.
    pose proof (reg_finish (meta (heap x)) (registry x run) i (meta_of s)
      (inv_reg _ _ _ Hx) (meta_lookup _ _ _ Hi) (pol_iter w') run' hold) as Hreg.
    assert (Heq : registry x2 run' = (registry x run) <| rg_wait := pol_iter w' |> <| rg_run := run' |>
      <| rg_live ::= delete (mt_rid (meta_of s)) |>
      <| rg_send ::= fun d => if hold then <[mt_rid (meta_of s) := i]> d else d |>).
    { unfold registry, update_field; simpl. rewrite F4, F6, F7, F8, Hw, Hl, Hrc, Hsd, Hr1. done. }
    rewrite Heq. apply Hreg. simpl.
    destruct Hwhere as [(?&?&->)|(?&?&?)]; [left|right]; done.
  - split; [unfold StatusOk; by rewrite Hst2|].
    destruct (inv_remote _ _ _ Hx i s Hi) as [Hkv Hre].
    assert (Hpar2 : kv_transfer_params s2 = kv_transfer_params s) by congruence.
    split; [by rewrite Hpar2|]. intros _ _. by right.
  - rewrite F1, Hh, insert_insert_eq. eapply HeldOk_insert; [apply (inv_held _ _ _ Hx)|..].
    + intros r k _. by rewrite F7, Hrc.
    + intros r k Hk Hsk. rewrite F8, Hsd. destruct hold; [|done].
      rewrite lookup_insert_ne; [done|]. rewrite Hr1. intros <-.
      pose proof (live_not_sending _ (registry x run) i (meta_of s) (inv_reg _ _ _ Hx)
        (meta_lookup _ _ _ Hi)) as Hn. simpl in Hn. rewrite Hn in Hsk; [done|].
      destruct Hwhere as [(->&_)|(->&_)]; done.
    + intros _. destruct hold; [right; right|left; by apply F14].
      rewrite F8, Hr2, Hr1. apply lookup_insert_eq.
  - rewrite F10, Hp. done.
Qed.

Lemma remove_running_run i x :
  i ∈ running x ->
  wp (remove_running i) x (fun _ x' => exists l', running x ≡ₚ i :: l' /\ x' = x <| running := l' |>).
Proof.
  intros Hi. unfold remove_running. wp_steps.
  destruct (remove_first_eq i (running x) Hi) as (l' & Hr & Hp).
  eapply wp_or_raise; [exact Hr|]. wp_step. eauto.
Qed.

Lemma remove_waiting_run i s x :
  heap x !! i = Some s -> item_of s ∈ pol_iter (waiting x) ->
  wp (remove_waiting i) x (fun _ x' => exists w', pol_iter (waiting x) ≡ₚ item_of s :: pol_iter w' /\
    x' = x <| waiting := w' |>).
Proof.
  intros Hi Hin. unfold remove_waiting. wp_step. eapply wp_get_seq; [done|]. wp_steps.
  destruct (pol_remove_iter (item_of s) (waiting x) Hin) as (w' & Hr & Hp).
  eapply wp_or_raise; [exact Hr|]. wp_step. eauto.
Qed.

Lemma finished_same (s : Sequence) reason t :
  (0 <= num_pending_tokens s)%Z ->
  SameMemory s (finished reason t s) /\
  SameMemory s (finished reason t (s <| num_pending_tokens := 0%Z |>)) /\
  SameMemory s (dropped_seq reason t s).
Proof. intros Hp. split_and!; repeat split; simpl; done || lia. Qed.

Lemma abort_spec x rows r reason :
  Inv x (running x) rows ->
  wp (abort clock r reason) x (fun b x' => Inv x' (running x') rows /\
    b = bool_decide (is_Some (seqs x !! r)) /\ seqs x' = delete r (seqs x) /\
    (b = false -> x' = x)).
Proof.
  intros Hx. unfold abort. wp_steps. destruct (seqs x !! r) as [i|] eqn:Hr.
  2: { wp_step. split_and!; [done|done| |done]. by rewrite delete_id. }
  rewrite (bool_decide_eq_true_2 (is_Some (Some i))) by eauto.
  destruct (inv_live _ _ _ Hx r i Hr) as (s & Hi & Hrid & Hlive). subst r.
  destruct (inv_wf _ _ _ Hx i s Hi) as [Hid Hwf]. pose proof (wf_pending _ Hwf) as Hpend.
  wp_steps. eapply wp_get_seq; [exact Hi|]. case_bool_decide as Hrem.
  - wp_step. wp_call finish_run; [exact Hi|]. intros [] x1 [t ->]. wp_step. simpl.
    split_and!; [|done..].
    eapply (Inv_move x (running x) rows i s _ _ (finished reason t s)); simpl; try done.
    + eapply MemOk_same; [apply (inv_mem _ _ _ Hx)|done|by apply finished_same].
    + apply (reg_abort_load _ (registry x (running x)) i (meta_of s)); simpl; try done.
      * apply (inv_reg _ _ _ Hx).
      * by apply meta_lookup.
    + split; [done|]. split; [apply (inv_remote _ _ _ Hx i s Hi)|]. intros _ _. by right.
    + eapply HeldOk_insert; [apply (inv_held _ _ _ Hx)|done|done|]. intros _. right. left.
      by apply (reg_load _ _ (inv_reg _ _ _ Hx) i (meta_of s)); [apply meta_lookup|].
  - assert (Hrun : forall x1 run' w', 
      (status s = RUNNING /\ running x ≡ₚ i :: run' /\ w' = waiting x) \/
      (status s = WAITING /\ pol_iter (waiting x) ≡ₚ item_of s :: pol_iter w' /\ run' = running x) ->
      x1 = x <| seqs ::= delete (request_id s) |> <| waiting := w' |> <| running := run' |> ->
      wp (on_seq i drop_pending;;; finish clock i reason;;; free i;;; ret true) x1
        (fun b x' => Inv x' (running x') rows /\
           b = true /\ seqs x' = delete (request_id s) (seqs x) /\
           (b = false -> x' = x))).
    { intros x1 run' w' Hwhere ->. wp_step. eapply wp_on_seq; [exact Hi|].
      unfold drop_pending. do 2 wp_step.
      wp_call finish_run; [simpl; apply lookup_insert_eq|]. intros [] x2 [t ->]. wp_step. simpl.
      wp_call free_spec; [simpl; apply lookup_insert_eq| |].
      { simpl. rewrite insert_insert_eq.
        eapply MemOk_same; [apply (inv_mem _ _ _ Hx)|done|by apply finished_same]. }
      intros [] x3 (s3 & hold & Hf). wp_step.
      pose proof (fr_running _ _ _ _ _ _ Hf) as Hrun. simpl in Hrun.
      pose proof (fr_seqs _ _ _ _ _ _ Hf) as Hsq. simpl in Hsq.
      split_and!; [|done|done|done]. rewrite Hrun.
      eapply finished_inv; [exact Hx|exact Hi|exact Hwhere|..|exact Hf]; simpl;
        rewrite ?insert_insert_eq; done. }
    case_bool_decide as Hw.
    + wp_step. wp_call remove_waiting_run; [exact Hi| |].
      { by apply (waiting_in _ (registry x (running x)) i (meta_of s) (inv_reg _ _ _ Hx));
          [apply meta_lookup|]. }
      intros [] x1 (w' & Hp & ->). eapply Hrun; [by right|]. by destruct x.
    + assert (Hst : status s = RUNNING) by (by destruct (status s)).
      wp_step. wp_call remove_running_run.
      { simpl. by apply (running_in _ (registry x (running x)) i (meta_of s) (inv_reg _ _ _ Hx));
          [apply meta_lookup|]. }
      intros [] x1 (l' & Hp & ->). eapply Hrun; [by left|]. by destruct x.
Qed.

End Steps.
