(* ===== verification/ScheduleFacts.v ===== *)
(** * [schedule] keeps the invariant and its budgets

    The step's token budget, the bound on its rows, preemption under memory
    pressure and admission. [OutOk] is what holds of the output while the
    step is being built. *)

From S2P Require Import Prelude Output Sequence BlockManager BlockManagerFacts Policy KVBase Scheduler Lifecycle.
From S2P Require Import SchedulerInv SchedulerSteps.

Section Schedule.
Context `{SeqSettings} `{!SettingsOk} `{SetOrder}.
Context {Q C : Type} `{SchedulingPolicyLaws Q} `{KVConnectorLaws C}.
Variable clock : nat -> Qc.
Local Abbreviation Sch := (Scheduler Q C).
Implicit Types x : Sch.

(** ** What a scheduled sequence may do *)

(** The tokens one sequence gets of a budget [b]. *)
Definition tokens_for (c : SchedulerConfig) (s : Sequence) (b : Z) : Z :=
  if is_prefill s then
    let n := Z.min (num_tokens s - num_cached_tokens s) b in
    if enable_chunked_prefill c && negb (long_prefill_token_threshold c =? 0)%Z
    then Z.min n (long_prefill_token_threshold c) else n
  else (1 + Zlen (spec_token_ids s))%Z.

(** A decode has room for its token and its drafts: in the request's limit
    and in its blocks. *)
Definition DecodeRoom (s : Sequence) (n : Z) : Prop :=
  (num_planned_tokens s + n - num_prompt_tokens s <= max_tokens s)%Z /\
  (num_cached_tokens s + n <= Zlen (block_table s) * block_size)%Z.

Definition ScheduledOk (s : Sequence) : Prop :=
  status s = RUNNING /\ (0 <= num_scheduled_tokens s)%Z /\
  if is_prefill s then (num_cached_tokens s + num_scheduled_tokens s <= num_tokens s)%Z
  else num_scheduled_tokens s = (1 + Zlen (spec_token_ids s))%Z /\
       DecodeRoom s (num_scheduled_tokens s).

(** What else one of the loops guarantees of the sequences it schedules. *)
Variable P : Sequence -> Prop.

Definition scheduled_at (x : Sch) (i : nat) : Prop :=
  exists s, heap x !! i = Some s /\ ScheduledOk s /\ P s.

Definition status_at (x : Sch) (st : SequenceStatus) (i : nat) : Prop :=
  exists s, heap x !! i = Some s /\ status s = st.

(** The tokens of a step. *)
Definition step_tokens (x : Sch) (l : list nat) : Z :=
  Zsum ((fun i => match heap x !! i with Some s => num_scheduled_tokens s | None => 0 end)%Z <$> l).

(** The output under construction; [run] are the sequences the step keeps
    running. *)
Record OutOk (x : Sch) (l : Locals) (run : list nat) : Prop := {
  oo_sched : Forall (scheduled_at x) (scheduled (output l));
  oo_nodup : NoDup (scheduled (output l));
  oo_run : forall i, i ∈ scheduled (output l) -> i ∈ run;
  oo_tokens : step_tokens x (scheduled (output l)) =
    (num_prefill_tokens (output l) + num_decode_tokens (output l))%Z;
  oo_budget : (num_prefill_tokens (output l) + num_decode_tokens (output l) + budget l =
    max_num_batched_tokens (config x))%Z;
  oo_left : (0 <= budget l)%Z;
  oo_len : (Zlen (scheduled (output l)) <= max_num_seqs (config x))%Z;
  oo_pre : Forall (status_at x WAITING) (preempted (output l));
  oo_drop : Forall (status_at x FINISHED) (dropped (output l))
}.

Lemma step_tokens_apart x x' i l :
  Apart i x x' -> i ∉ l -> step_tokens x' l = step_tokens x l.
Proof.
  intros Ha Hi. unfold step_tokens. f_equal. apply list_fmap_ext.
  intros n k Hk. rewrite (ap_heap _ _ _ Ha); [done|]. intros ->. apply Hi.
  apply list_elem_of_lookup. eauto.
Qed.

Lemma status_at_apart x x' st i l :
  Apart i x x' -> i ∉ l -> Forall (status_at x st) l -> Forall (status_at x' st) l.
Proof.
  intros Ha Hi Hl. rewrite Forall_forall in Hl |- *. intros k Hk.
  destruct (Hl k Hk) as (s & Hs & ?). exists s.
  rewrite (ap_heap _ _ _ Ha); [done|]. by intros ->.
Qed.

(** A step on a sequence the output does not name. *)
Lemma OutOk_apart x x' l run i :
  OutOk x l run -> Apart i x x' -> i ∉ scheduled (output l) -> i ∉ preempted (output l) ->
  i ∉ dropped (output l) -> OutOk x' l run.
Proof.
  intros [A B D E F G I J K] Ha Hs Hp Hd. constructor; try done.
  - rewrite Forall_forall in A |- *. intros k Hk. destruct (A k Hk) as (s & Hsk & ?). exists s.
    rewrite (ap_heap _ _ _ Ha); [done|]. by intros ->.
  - by rewrite (step_tokens_apart x x' i).
  - by rewrite (ap_config _ _ _ Ha).
  - by rewrite (ap_config _ _ _ Ha).
  - by eapply status_at_apart.
  - by eapply status_at_apart.
Qed.

Lemma OutOk_run x l run run' :
  OutOk x l run -> (forall i, i ∈ run -> i ∈ run') -> OutOk x l run'.
Proof. intros [A B D E F G I J K] Hr. constructor; try done. auto. Qed.

(** A live sequence is neither preempted nor dropped, and a waiting one is
    not dropped. *)
Lemma status_not_in x st i l s :
  Forall (status_at x st) l -> heap x !! i = Some s -> status s <> st -> i ∉ l.
Proof.
  intros Hl Hi Hs Hin. rewrite Forall_forall in Hl.
  destruct (Hl i Hin) as (s' & Hs' & ?). congruence.
Qed.

(** ** [_schedule] *)

Definition add_scheduled (i : nat) (prefill : bool) (n : Z) (l : Locals) : Locals :=
  l <| output ::= fun o =>
    let o := o <| scheduled ::= fun r => r ++ [i] |> in
    if prefill then o <| num_prefill_tokens ::= Z.add n |>
    else o <| num_decode_tokens ::= Z.add n |> |>.

Definition scheduled_seq (n : Z) (t : option Qc) (s : Sequence) : Sequence :=
  s <| num_scheduled_tokens := n |> <| first_scheduled_time := t |>.

Lemma schedule_seq_run x l i s b :
  heap x !! i = Some s ->
  wp (schedule_seq clock i b) (x, l) (fun n p => exists t k,
    n = tokens_for (config x) s b /\
    p.1 = x <| ticks := k |> <| heap ::= <[i := scheduled_seq n t s]> |> /\
    p.2 = add_scheduled i (is_prefill s) n l).
Proof.
  intros Hi. unfold schedule_seq. wp_steps. simpl. eapply wp_get_seq; [done|]. wp_steps. simpl.
  match goal with |- context [update_field num_scheduled_tokens (fun _ => ?n) _] => set (n0 := n) end.
  assert (Hn : n0 = tokens_for (config x) s b).
  { unfold n0, tokens_for. by destruct (is_prefill s). }
  eapply wp_set_seq; [done|]. wp_steps. apply wp_when.
  - intros _. wp_steps. simpl. apply wp_perf_counter. wp_steps. simpl.
    eapply wp_set_seq; [simpl; apply lookup_insert_eq|]. wp_steps. simpl.
    exists (Some (clock (ticks x))), (S (ticks x)). split; [done|]. split; [|done].
    destruct x; unfold update_field; simpl. by rewrite insert_insert_eq.
  - intros _. wp_steps. simpl. exists (first_scheduled_time s), (ticks x).
    split; [done|]. split; [|done].
    destruct x, s; unfold update_field; simpl. done.
Qed.

Lemma tokens_for_bounds c s b :
  CfgOk c -> (0 <= b)%Z ->
  (if is_prefill s then (num_cached_tokens s < num_tokens s)%Z
   else (1 + Zlen (spec_token_ids s) <= b)%Z) ->
  (0 <= tokens_for c s b <= b)%Z /\ ((0 < b)%Z -> (1 <= tokens_for c s b)%Z) /\
  (is_prefill s = true -> num_cached_tokens s + tokens_for c s b <= num_tokens s)%Z.
Proof.
  intros Hc Hb Hs. unfold tokens_for. pose proof (cfg_long _ Hc).
  pose proof (Zlen_nonneg (spec_token_ids s)).
  destruct (is_prefill s); [|split; [lia|split; [lia|done]]].
  destruct (enable_chunked_prefill c), (Z.eqb_spec (long_prefill_token_threshold c) 0); simpl; lia.
Qed.

Lemma Inv_ticks x k run rows : Inv x run rows -> Inv (x <| ticks := k |>) run rows.
Proof. by intros [A B D E F G]. Qed.

Lemma schedule_seq_spec x l run rows i s b :
  Inv x run rows -> heap x !! i = Some s -> status s = RUNNING -> (0 <= b)%Z ->
  (is_prefill s = false -> (1 + Zlen (spec_token_ids s) <= b)%Z /\
     DecodeRoom s (1 + Zlen (spec_token_ids s))) ->
  wp (schedule_seq clock i b) (x, l) (fun n p => exists s',
    heap p.1 !! i = Some s' /\ ScheduledOk s' /\ num_scheduled_tokens s' = n /\
    (0 <= n <= b)%Z /\ ((0 < b)%Z -> (1 <= n)%Z) /\ n = tokens_for (config x) s b /\
    (exists t, s' = scheduled_seq n t s) /\
    Inv p.1 run rows /\ Apart i x p.1 /\ running p.1 = running x /\
    waiting p.1 = waiting x /\ p.2 = add_scheduled i (is_prefill s) n l).
Proof.
  intros Hx Hi Hst Hb Hdec. wp_call schedule_seq_run; [done|].
  intros n [x' l'] (t & k & Hn & Hx' & Hl'). simpl in *.
  pose proof (inv_status _ _ _ Hx i s Hi) as Hs. unfold StatusOk in Hs. rewrite Hst in Hs.
  destruct Hs as (Hphase & Hpub & Hlim).
  destruct (tokens_for_bounds (config x) s b (inv_cfg _ _ _ Hx) Hb) as (Hbd & Hpos & Hpf).
  { destruct (is_prefill s) eqn:Hp; [by apply Hphase|by apply Hdec]. }
  exists (scheduled_seq n t s). rewrite Hx'. simpl. rewrite lookup_insert_eq.
  split; [done|]. split.
  { unfold ScheduledOk, scheduled_seq; simpl. rewrite Hst, Hn. split; [done|]. split; [lia|].
    destruct (is_prefill s) eqn:Hp; [by apply Hpf|]. destruct (Hdec eq_refl) as [_ Hroom].
    unfold tokens_for. rewrite Hp. split; [done|]. exact Hroom. }
  split; [done|]. split; [lia|]. split; [intros; rewrite Hn; auto|]. split; [done|].
  split; [by eexists|]. split.
  { eapply (Inv_set (x <| ticks := k |>)); [by apply Inv_ticks|done| | | | |]; try done.
    - repeat split; simpl. apply (wf_pending s). by apply (inv_wf _ _ _ Hx i).
    - destruct (inv_seq _ _ _ Hx i s Hi) as [Hs1 Hs2]. split; [|done].
      unfold StatusOk, scheduled_seq; simpl. rewrite Hst.
      split_and!; [|exact Hpub|exact Hlim].
      destruct (is_prefill s) eqn:Hp; destruct Hphase; by constructor. }
  split; [|done]. constructor; simpl; try done. intros k' Hk. by rewrite lookup_insert_ne.
Qed.

(** Scheduling one more sequence keeps [OutOk]. *)
Lemma OutOk_schedule x x' l run i s' (pf : bool) n :
  OutOk x l run -> Apart i x x' -> i ∉ scheduled (output l) -> i ∉ preempted (output l) ->
  i ∉ dropped (output l) -> heap x' !! i = Some s' -> ScheduledOk s' -> P s' ->
  num_scheduled_tokens s' = n -> (n <= budget l)%Z ->
  (Zlen (scheduled (output l)) < max_num_seqs (config x))%Z ->
  OutOk x' ((add_scheduled i pf n l) <| budget ::= fun b => (b - n)%Z |>) (i :: run).
Proof.
  clear clock. intros Ho Ha Hs Hp Hd Hi Hok HP Hn Hb Hlt.
  pose proof (OutOk_apart x x' l run i Ho Ha Hs Hp Hd) as [A B D E F G I J K].
  rewrite (ap_config _ _ _ Ha) in *.
  set (o := add_scheduled i pf n l).
  assert (Hsched : scheduled (output o) = scheduled (output l) ++ [i]) by (by unfold o; destruct pf).
  assert (Htok : (num_prefill_tokens (output o) + num_decode_tokens (output o) =
    num_prefill_tokens (output l) + num_decode_tokens (output l) + n)%Z).
  { unfold o; destruct pf; simpl; lia. }
  assert (Hpre : preempted (output o) = preempted (output l)) by (by unfold o; destruct pf).
  assert (Hdr : dropped (output o) = dropped (output l)) by (by unfold o; destruct pf).
  assert (Hbud : budget o = budget l) by (by unfold o; destruct pf).
  clearbody o. constructor; simpl; rewrite ?Hsched, ?Hpre, ?Hdr, ?Htok, ?Hbud, ?(ap_config _ _ _ Ha); try done.
  - apply Forall_app. split; [done|]. apply Forall_singleton. by exists s'.
  - apply NoDup_app. split; [done|]. split; [|apply NoDup_singleton].
    by intros k Hk ->%list_elem_of_singleton.
  - intros k. rewrite elem_of_app, list_elem_of_singleton, elem_of_cons. naive_solver.
  - unfold step_tokens in *. rewrite fmap_app, Zsum_app, E. simpl. rewrite Hi. lia.
  - lia.
  - lia.
  - rewrite Zlen_app. unfold Zlen at 2. simpl. lia.
Qed.

(** ** Dropping a request *)

Definition add_dropped (i : nat) (l : Locals) : Locals :=
  l <| output ::= fun o => o <| dropped ::= fun d => d ++ [i] |> |>.

(** A waiting or running request without blocks, out of its container. *)
Lemma drop_noting_spec x x1 l rows i s s1 m reason run run' w' :
  Inv x run rows -> heap x !! i = Some s ->
  (status s = RUNNING /\ run ≡ₚ i :: run' /\ w' = waiting x) \/
  (status s = WAITING /\ pol_iter (waiting x) ≡ₚ item_of s :: pol_iter w' /\ run' = run) ->
  x1 = x <| block_manager := m |> <| heap ::= <[i := s1]> |> <| waiting := w' |> ->
  MemOk m (<[i := s1]> (heap x)) -> block_table s1 = [] -> meta_of s1 = meta_of s ->
  num_preemptions s1 = num_preemptions s -> kv_transfer_params s1 = kv_transfer_params s ->
  wp (drop_noting clock i reason) (x1, l) (fun _ p => Inv p.1 run' rows /\ Apart i x p.1 /\
    running p.1 = running x /\ status_at p.1 FINISHED i /\ waiting p.1 = w' /\ p.2 = add_dropped i l).
Proof.
  intros Hx Hi Hwhere -> Hm Hb Hmeta Hpr Hpar. unfold drop_noting. wp_steps. simpl.
  assert (Hr1 : request_id s1 = request_id s) by (by injection Hmeta).
  wp_call (drop_run (Q:=Q) (C:=C)); simpl.
  { apply lookup_insert_eq. }
  { rewrite Hr1. eapply inv_live_back; [exact Hx|done|]. destruct Hwhere as [(->&_)|(->&_)]; done. }
  intros [] x2 [t ->]. wp_steps. simpl.
  destruct (mem_seq _ _ Hm i s1) as (Hid1 & Hwf1 & _); [apply lookup_insert_eq|].
  set (s2 := dropped_seq reason t s1).
  assert (Hm2 : MemOk m (<[i := s2]> (heap x))).
  { rewrite <-(insert_insert_eq (heap x) i s2 s1). eapply MemOk_same; [exact Hm|apply lookup_insert_eq|].
    apply (finished_same s1 reason t). apply (wf_pending _ Hwf1). }
  split_and!; [| |done| |done|done].
  - match goal with |- Inv ?y _ _ => assert (Freed y y i s2 s2 false) as Hf end.
    { constructor; simpl; rewrite ?insert_insert_eq; try done. }
    eapply finished_inv; [exact Hx|exact Hi|exact Hwhere|..|exact Hf]; simpl;
      rewrite ?insert_insert_eq; try done; [congruence|].
    unfold meta_of, with_status, item_of in *. simpl.
    injection Hmeta as -> -> -> -> _. done.
  - constructor; simpl; try done. intros k Hk. by rewrite !lookup_insert_ne.
  - exists s2. simpl. by rewrite lookup_insert_eq.
Qed.

Lemma OutOk_drop x x' l run i :
  OutOk x l run -> Apart i x x' -> i ∉ scheduled (output l) -> i ∉ preempted (output l) ->
  i ∉ dropped (output l) -> status_at x' FINISHED i -> OutOk x' (add_dropped i l) run.
Proof.
  intros Ho Ha Hs Hp Hd Hf.
  destruct (OutOk_apart x x' l run i Ho Ha Hs Hp Hd) as [A B D E F G I J K].
  constructor; simpl; try done. apply Forall_app. split; [done|]. by apply Forall_singleton.
Qed.

Lemma OutOk_preempt x x' l run i :
  OutOk x l run -> Apart i x x' -> i ∉ scheduled (output l) -> i ∉ preempted (output l) ->
  i ∉ dropped (output l) -> status_at x' WAITING i -> OutOk x' (add_preempted i l) run.
Proof.
  intros Ho Ha Hs Hp Hd Hf.
  destruct (OutOk_apart x x' l run i Ho Ha Hs Hp Hd) as [A B D E F G I J K].
  constructor; simpl; try done. apply Forall_app. split; [done|]. by apply Forall_singleton.
Qed.

(** ** [_make_room] *)

Lemma running_seqs x run rows l :
  Inv x run rows -> (forall i, i ∈ l -> i ∈ run) ->
  exists ss, Forall2 (fun i s => heap x !! i = Some s) l ss /\ qi_id <$> (item_of <$> ss) = l.
Proof.
  intros Hx Hl. induction l as [|i l IH]; [by exists []|].
  destruct IH as (ss & Hss & Hids); [intros; apply Hl; by constructor|].
  destruct (inv_running _ _ _ Hx i) as (s & Hi & _); [apply Hl; constructor|].
  exists (s :: ss). split; [by constructor|]. rewrite !fmap_cons, Hids. f_equal.
  by apply (inv_wf _ _ _ Hx).
Qed.

(** A sequence of [run] outside the output's lists. *)
Lemma out_of_output x l run run0 rows i s :
  Inv x run0 rows -> OutOk x l run -> heap x !! i = Some s -> status s = RUNNING -> i ∉ run ->
  i ∉ scheduled (output l) /\ i ∉ preempted (output l) /\ i ∉ dropped (output l).
Proof.
  intros Hx Ho Hi Hs Hr. split_and!.
  - intros Hin. by apply Hr, (oo_run _ _ _ Ho).
  - eapply status_not_in; [apply (oo_pre _ _ _ Ho)|done|congruence].
  - eapply status_not_in; [apply (oo_drop _ _ _ Ho)|done|congruence].
Qed.

Record RoomOk (x : Sch) (l : Locals) (i : nat) (s : Sequence) (la : Z) (rows : list LaunchedRow)
    (ok : bool) (x' : Sch) (l' : Locals) : Prop := {
  rm_config : config x' = config x;
  rm_running : length (running x') <= length (running x);
  rm_out : OutOk x' l' (still_running l');
  rm_sched : scheduled (output l') = scheduled (output l);
  rm_budget : budget l' = budget l;
  rm_case : if ok
    then still_running l' = still_running l /\ heap x' !! i = Some s /\
         can_append (block_manager x') s la = true /\
         Inv x' (running x' ++ i :: still_running l') rows
    else Inv x' (running x' ++ still_running l') rows
}.

Lemma NoDup_mid {A} (l k : list A) (i : A) :
  NoDup (l ++ i :: k) -> i ∉ l /\ i ∉ k /\ forall j, j ∈ l -> j ∉ k.
Proof.
  intros (Hl & Hd & [Hi Hk]%NoDup_cons)%NoDup_app. split_and!; [|done|].
  - intros Hin. apply (Hd i Hin). constructor.
  - intros j Hj Hin. apply (Hd j Hj). by constructor.
Qed.

Lemma make_room_spec fuel x l rows i s la :
  Inv x (running x ++ i :: still_running l) rows -> heap x !! i = Some s ->
  length (running x) < fuel -> OutOk x l (still_running l) ->
  wp (make_room clock fuel i la) (x, l) (fun ok p => RoomOk x l i s la rows ok p.1 p.2).
Proof.
  revert x l. induction fuel as [|fuel IH]; intros x l Hx Hi Hlen Ho; [lia|].
  pose proof (reg_run_nodup _ _ (inv_reg _ _ _ Hx)) as Hnd. simpl in Hnd.
  destruct (NoDup_mid _ _ _ Hnd) as (Hir & His & Hdj).
  destruct (inv_running _ _ _ Hx i) as (s0 & Hi0 & Hst); [set_solver|].
  assert (s0 = s) by congruence. subst s0.
  destruct (out_of_output x l _ _ rows i s Hx Ho Hi Hst His) as (Ho1 & Ho2 & Ho3).
  simpl. wp_steps. simpl. eapply wp_get_seq; [done|]. wp_steps. simpl.
  destruct (can_append (block_manager x) s la) eqn:Hcan; [wp_step; by constructor|].
  case_bool_decide as Hrun.
  { wp_steps. simpl.
    destruct (running_seqs x _ rows (running x) Hx) as (ss & Hss & Hids); [set_solver|].
    eapply wp_items; [exact Hss|]. wp_steps. simpl.
    destruct (pol_victim_in (waiting x) (item_of <$> ss)) as (v & Hv & Hvin).
    { intros Hnil. rewrite Hnil in Hids. by destruct (running x). }
    eapply wp_or_raise; [exact Hv|]. wp_steps. simpl.
    assert (Hvr : qi_id v ∈ running x) by (rewrite <-Hids; apply list_elem_of_fmap; eauto).
    wp_call (remove_running_run (Q:=Q) (C:=C)); [done|]. intros [] x1 (l1 & Hp & ->). wp_steps. simpl.
    destruct (inv_running _ _ _ Hx (qi_id v)) as (sv & Hsv & Hstv); [set_solver|].
    destruct (out_of_output x l _ _ rows (qi_id v) sv Hx Ho Hsv Hstv) as (V1 & V2 & V3); [by apply Hdj|].
    assert (Hvi : qi_id v <> i) by (intros He; by rewrite He in Hvr).
    wp_call (preempt_spec (x <| running := l1 |>) l (running x ++ i :: still_running l)
      (l1 ++ i :: still_running l) rows (qi_id v)).
    { by destruct Hx. }
    { by rewrite Hp. }
    intros [] [x2 l2] (Hx2 & Hr2 & Ha & Hsw & Hl2). simpl in *.
    assert (Ha' : Apart (qi_id v) x x2) by (by destruct Ha).
    assert (Ho2' : OutOk x2 l2 (still_running l2)).
    { rewrite Hl2. simpl. eapply OutOk_preempt; done. }
    wp_call (IH x2 l2); [|by rewrite (ap_heap _ _ _ Ha')|rewrite Hr2, Hp in *; simpl in *; lia|done|].
    { rewrite Hr2, Hl2. done. }
    intros ok [x3 l3] [R1 R2 R3 R4 R5 R6]. simpl in *. constructor; try done.
    - by rewrite R1, (ap_config _ _ _ Ha').
    - rewrite Hr2 in R2. rewrite Hp. simpl. lia.
    - by rewrite R4, Hl2.
    - by rewrite R5, Hl2.
    - destruct ok; [|done]. rewrite Hl2 in R6. done. }
  assert (Hnil : running x = []) by (by destruct (running x)). rewrite Hnil in *. simpl in *.
  case_match eqn:Hst2.
  { wp_step. wp_call preempt_spec; [exact Hx|done|]. intros [] [x2 l2] (Hx2 & Hr2 & Ha & Hsw & Hl2).
    wp_step. simpl in *. constructor; try done.
    - apply (ap_config _ _ _ Ha).
    - by rewrite Hr2, Hnil.
    - rewrite Hl2. simpl. by eapply OutOk_preempt.
    - by rewrite Hl2.
    - by rewrite Hl2.
    - by rewrite Hr2, Hnil, Hl2. }
  assert (Hkeep : wp (keep_running i;;; ret false) (x, l)
    (fun ok p => RoomOk x l i s la rows ok p.1 p.2)).
  { unfold keep_running. wp_steps. constructor; simpl; try done.
    - destruct (OutOk_run x l (still_running l) (still_running l ++ [i]) Ho); [set_solver|].
      by constructor.
    - rewrite Hnil. simpl. eapply Inv_perm; [|exact Hx]. by rewrite Permutation_app_comm. }
  case_match; [exact Hkeep|]. case_match; [exact Hkeep|].
  wp_steps. simpl. wp_call (deallocate_run (Q:=Q) (C:=C)); [exact Hi|apply (inv_mem _ _ _ Hx)|].
  intros [] x1 (m' & Hm' & ->). wp_steps. simpl.
  wp_call (drop_noting_spec x _ l rows i s (released s) m' "capacity" (i :: still_running l)
    (still_running l) (waiting x)); [exact Hx|done|by left|by destruct x|exact Hm'|done|done|done|done|].
  intros [] [x2 l2] (Hx2 & Ha & Hr2 & Hf & _ & Hl2). wp_step. simpl in *. constructor; try done.
  - apply (ap_config _ _ _ Ha).
  - by rewrite Hr2, Hnil.
  - rewrite Hl2. simpl. by eapply OutOk_drop.
  - by rewrite Hl2.
  - by rewrite Hl2.
  - by rewrite Hr2, Hnil, Hl2.
Qed.

#[local] Arguments make_room : simpl never.

(** ** The loop over the running sequences *)

Lemma may_append_inv x run rows i s la :
  Inv x run rows -> heap x !! i = Some s -> status s = RUNNING -> is_prefill s = false ->
  can_append (block_manager x) s la = true ->
  wp (on_blocks i (may_append la)) x (fun _ x' => exists fresh,
    let s' := s <| block_table ::= fun t => t ++ fresh |> in
    Inv x' run rows /\ Apart i x x' /\ running x' = running x /\ heap x' !! i = Some s' /\
    (num_planned_tokens s + la <= Zlen (block_table s') * block_size)%Z).
Proof.
  intros Hx Hi Hst Hdec Hcan. pose proof (inv_mem _ _ _ Hx) as Hm. pose proof block_size_pos as Hbs.
  destruct (mem_seq _ _ Hm i s Hi) as (Hid & Hwf & _).
  eapply wp_on_blocks; [done|].
  wp_call may_append_spec; [by apply mem_inv_at|by apply mem_table_at|done|].
  intros [] [m' s'] (fresh & Hs' & Hnb & Hinv & Hf & Ht). simpl in *. exists fresh.
  assert (Hcap : (num_planned_tokens s + la <= Zlen (block_table s') * block_size)%Z).
  { unfold num_blocks_for in Hnb. destruct (mem_cfg _ _ Hm) as [Hb _]. rewrite Hb in Hnb.
    by apply ceil_div_le. }
  assert (Hlen : (Zlen (block_table s) <= Zlen (block_table s'))%Z).
  { subst s'. simpl. rewrite Zlen_app. pose proof (Zlen_nonneg fresh). lia. }
  assert (Hm' : MemOk m' (<[i := s']> (heap x))).
  { eapply MemOk_update; [exact Hm|done|by subst s'| |done| |done].
    - subst s'. destruct Hwf; by constructor.
    - eapply Frame_weaken; [|exact Hf]. intros j Hj. unfold refs_with. lia. }
  pose proof (inv_status _ _ _ Hx i s Hi) as Hs. unfold StatusOk in Hs. rewrite Hst, Hdec in Hs.
  destruct Hs as ([D1 D2 D3] & Hpub & Hlim).
  rewrite Hs' in *. split_and!; [|constructor; simpl; try done|done|apply lookup_insert_eq|done].
  2: { intros k Hk. by rewrite lookup_insert_ne. }
  eapply (Inv_move x run rows i s _ run (s <| block_table ::= fun t => t ++ fresh |>)); simpl; try done.
  - assert (with_status (status s) (meta_of s) = meta_of s) as -> by done.
    rewrite insert_id by by apply meta_lookup. apply (inv_reg _ _ _ Hx).
  - split; [|apply (inv_remote _ _ _ Hx i s Hi)]. unfold StatusOk; simpl. rewrite Hst, Hdec.
    split_and!; [constructor; simpl in *; [done|done|nia]|exact Hpub|exact Hlim].
  - eapply HeldOk_insert; [apply (inv_held _ _ _ Hx)|done|done|]. simpl. by rewrite Hst.
  - intros Hf'. apply (inv_pending _ _ _ Hx i s Hi Hf').
Qed.

Lemma trim_drafts_inv x run rows i s n :
  Inv x run rows -> heap x !! i = Some s -> is_prefill s = false -> status s = RUNNING ->
  Inv (x <| heap ::= <[i := s <| spec_token_ids ::= fun d => py_upto d n |>]> |>) run rows.
Proof.
  intros Hx Hi Hdec Hst. eapply Inv_set; try done.
  - repeat split. simpl. apply (wf_pending s). by apply (inv_wf _ _ _ Hx i).
  - split; [|apply (inv_remote _ _ _ Hx i s Hi)].
    pose proof (inv_status _ _ _ Hx i s Hi) as Hs. unfold StatusOk in *; simpl in *.
    rewrite Hst, Hdec in *. destruct Hs as ([D1 D2 D3] & Hpub & Hlim). by split_and!.
Qed.

Lemma py_upto_length {A} (l : list A) (n : Z) : (0 <= n)%Z -> (Zlen (py_upto l n) <= n)%Z.
Proof.
  intros Hn. unfold py_upto, py_pos, Zlen. rewrite length_take.
  destruct (Z.ltb_spec n 0); lia.
Qed.

(** The loop schedules no sequence without tokens. *)
Hypothesis P_positive : forall s, ScheduledOk s -> (1 <= num_scheduled_tokens s)%Z -> P s.

Record StepOk (rows : list LaunchedRow) (x : Sch) (l : Locals) : Prop := {
  st_inv : Inv x (running x ++ still_running l) rows;
  st_out : OutOk x l (still_running l)
}.

Lemma schedule_within_spec x l rows i s :
  Inv x (running x ++ i :: still_running l) rows -> OutOk x l (still_running l) ->
  heap x !! i = Some s -> (0 < budget l)%Z ->
  (Zlen (scheduled (output l)) < max_num_seqs (config x))%Z ->
  (is_prefill s = false -> (1 + Zlen (spec_token_ids s) <= budget l)%Z /\
     DecodeRoom s (1 + Zlen (spec_token_ids s))) ->
  wp (schedule_within clock i;;; keep_running i) (x, l) (fun _ p => StepOk rows p.1 p.2 /\
    running p.1 = running x /\ config p.1 = config x).
Proof.
  intros Hx Ho Hi Hb Hlen Hdec.
  pose proof (reg_run_nodup _ _ (inv_reg _ _ _ Hx)) as Hnd. simpl in Hnd.
  destruct (NoDup_mid _ _ _ Hnd) as (Hir & His & _).
  destruct (inv_running _ _ _ Hx i) as (s0 & Hi0 & Hst); [set_solver|].
  assert (s0 = s) by congruence. subst s0.
  destruct (out_of_output x l _ _ rows i s Hx Ho Hi Hst His) as (Ho1 & Ho2 & Ho3).
  unfold schedule_within, keep_running. wp_steps. simpl.
  wp_call schedule_seq_spec; [exact Hx|done|done|lia|done|].
  intros n [x' l'] (s' & Hi' & Hok & Hn & Hbd & Hpos & _ & _ & Hx' & Ha & Hr & _ & Hl'). simpl in *.
  wp_steps. simpl. split; [|split; [done|apply (ap_config _ _ _ Ha)]].
  pose proof (OutOk_schedule x x' l (still_running l) i s' (is_prefill s) n Ho Ha Ho1 Ho2 Ho3 Hi'
    Hok (P_positive s' Hok ltac:(lia)) Hn ltac:(lia) Hlen) as Ho'.
  subst l'. constructor; simpl.
  - rewrite Hr. eapply Inv_perm; [|exact Hx'].
    apply Permutation_app_head. by rewrite Permutation_app_comm.
  - assert (Ho'' : OutOk x' ((add_scheduled i (is_prefill s) n l) <| budget ::= fun b => (b - n)%Z |>)
      (still_running l ++ [i])) by (eapply OutOk_run; [exact Ho'|set_solver]).
    by destruct Ho''.
Qed.

Lemma keep_running_spec x l rows i :
  Inv x (running x ++ i :: still_running l) rows -> OutOk x l (still_running l) ->
  wp (keep_running i) (x, l) (fun _ p => StepOk rows p.1 p.2 /\
    running p.1 = running x /\ config p.1 = config x).
Proof.
  intros Hx Ho. unfold keep_running. wp_steps. simpl. split; [|done]. constructor; simpl.
  - eapply Inv_perm; [|exact Hx]. apply Permutation_app_head. by rewrite Permutation_app_comm.
  - assert (Ho' : OutOk x l (still_running l ++ [i])) by (eapply OutOk_run; [exact Ho|set_solver]).
    by destruct Ho'.
Qed.

Lemma schedule_running_spec x l rows i :
  Inv x (running x ++ i :: still_running l) rows -> OutOk x l (still_running l) ->
  wp (schedule_running clock i) (x, l) (fun _ p => StepOk rows p.1 p.2 /\
    length (running p.1) <= length (running x) /\ config p.1 = config x).
Proof.
  intros Hx Ho. destruct (inv_running _ _ _ Hx i) as (s & Hi & Hst); [set_solver|].
  assert (Hweak : forall m : M (Sch * Locals) unit, wp m (x, l) (fun _ p => StepOk rows p.1 p.2 /\
      running p.1 = running x /\ config p.1 = config x) ->
    wp m (x, l) (fun _ p => StepOk rows p.1 p.2 /\
      length (running p.1) <= length (running x) /\ config p.1 = config x)).
  { intros m Hm. eapply wp_mono; [exact Hm|]. intros [] p (? & -> & ?). done. }
  unfold schedule_running. wp_steps. simpl. eapply wp_get_seq; [done|].
  case_match eqn:Hfull; [by apply Hweak, keep_running_spec|].
  apply orb_false_iff in Hfull as [Hb%Z.leb_gt Hlen%Z.leb_gt].
  destruct (Z.leb_spec (max_tokens s) (num_planned_tokens s - num_prompt_tokens s)) as [|Hlim];
    [by apply Hweak, keep_running_spec|].
  destruct (is_prefill s) eqn:Hdec; simpl.
  { apply Hweak. eapply schedule_within_spec; try done. by rewrite Hdec. }
  set (keep := Z.max _ 0). wp_steps. simpl. eapply wp_set_seq; [done|]. wp_steps. simpl.
  eapply wp_get_seq; [simpl; apply lookup_insert_eq|]. wp_steps.
  simpl.
  set (s1 := s <| spec_token_ids ::= fun d => py_upto d keep |>).
  pose proof (trim_drafts_inv x _ rows i s keep Hx Hi Hdec Hst) as Hx1. fold s1 in Hx1.
  assert (Ho1 : OutOk (x <| heap ::= <[i := s1]> |>) l (still_running l)).
  { pose proof (reg_run_nodup _ _ (inv_reg _ _ _ Hx)) as Hnd. simpl in Hnd.
    destruct (NoDup_mid _ _ _ Hnd) as (Hir & His & _).
    destruct (out_of_output x l _ _ rows i s Hx Ho Hi Hst His) as (? & ? & ?).
    eapply OutOk_apart; [exact Ho| |done..]. constructor; simpl; try done.
    intros k Hk. by rewrite lookup_insert_ne. }
  assert (Hdr : (Zlen (spec_token_ids s1) <= keep)%Z) by (apply py_upto_length; lia).
  wp_call make_room_spec; [exact Hx1|simpl; apply lookup_insert_eq|simpl; lia|exact Ho1|].
  intros ok [x2 l2] [R1 R2 R3 R4 R5 R6]. simpl in *. destruct ok.
  2: { wp_step. split; [by constructor|done]. }
  destruct R6 as (Hstill & Hi2 & Hcan & Hx2). wp_steps. simpl.
  set (la := (Zlen (py_upto (spec_token_ids s) keep) + num_lookahead_tokens (config x))%Z) in *.
  assert (Hla : (Zlen (spec_token_ids s1) <= la)%Z).
  { pose proof (lookahead_nonneg (config x)). unfold la, s1; simpl. lia. }
  wp_call may_append_inv; [exact Hx2|exact Hi2|done|done|exact Hcan|].
  intros [] x3 (fresh & Hx3 & Ha3 & Hr3 & Hi3 & Hcap). wp_steps. simpl in *.
  assert (Hout3 : OutOk x3 l2 (still_running l2)).
  { pose proof (reg_run_nodup _ _ (inv_reg _ _ _ Hx2)) as Hnd. simpl in Hnd.
    destruct (NoDup_mid _ _ _ Hnd) as (Hir & His & _).
    destruct (out_of_output x2 l2 _ _ rows i s1 Hx2 R3 Hi2 Hst His) as (? & ? & ?).
    by eapply OutOk_apart. }
  pose proof (inv_status _ _ _ Hx2 i s1 Hi2) as Hs1. unfold StatusOk in Hs1. simpl in Hs1.
  rewrite Hst, Hdec in Hs1. destruct Hs1 as ([_ D2 _] & _ & _). simpl in D2.
  rewrite <-Hr3 in Hx3. apply (wp_bind_inv _ (fun _ => keep_running i)).
  eapply wp_mono; [eapply (schedule_within_spec x3 l2 rows i); [exact Hx3|done|exact Hi3|lia| |]|].
  - rewrite (ap_config _ _ _ Ha3), R1, R4. lia.
  - intros _. simpl. unfold DecodeRoom, num_planned_tokens in *; simpl in *. unfold s1 in Hdr; simpl in Hdr.
    unfold s1 in Hla; simpl in Hla. rewrite R5. unfold keep, num_planned_tokens in *. lia.
  - intros [] [x4 l4] (Hok & Hr4 & Hc4). simpl in *. split; [done|]. split.
    + rewrite Hr4, Hr3. done.
    + rewrite Hc4, (ap_config _ _ _ Ha3). done.
Qed.

Lemma schedule_all_running_spec x l rows :
  StepOk rows x l ->
  wp (schedule_all_running clock) (x, l) (fun _ p => Inv p.1 (running p.1) rows /\
    OutOk p.1 p.2 (running p.1) /\ config p.1 = config x).
Proof.
  intros Hst. unfold schedule_all_running. wp_steps.
  pose (I := fun p : Sch * Locals => StepOk rows p.1 p.2 /\ config p.1 = config x).
  eapply wp_mono; [eapply (wp_while _ _ _ _ (fun p => length (running p.1)) I
    (fun p => StepOk rows p.1 p.2 /\ running p.1 = [] /\ config p.1 = config x))|].
  - done.
  - simpl. lia.
  - intros [x1 l1] [Hs1 Hc] Hn%bool_decide_eq_false. split; [done|]. simpl in *.
    split; [|done]. by destruct (running x1); [|exfalso; apply Hn].
  - intros [x1 l1] [[Hx1 Ho1] Hc] Hn%bool_decide_eq_true. simpl in *.
    unfold pop_running. wp_steps. simpl. destruct (running x1) as [|i r] eqn:Hr; [done|].
    wp_steps. simpl.
    eapply wp_mono; [eapply (schedule_running_spec (x1 <| running := r |>) l1 rows i)|].
    + simpl. destruct Hx1. constructor; try done. simpl in *.
      eapply (Inv_perm x1 (i :: r ++ still_running l1)); [by rewrite Permutation_middle|].
      by constructor.
    + by destruct Ho1.
    + intros [] [x2 l2] (Hs2 & Hlen & Hc2). wp_step. simpl in *. split; [|lia].
      split; [done|]. simpl. congruence.
  - intros [] [x1 l1] ([Hx1 Ho1] & Hn & Hc). wp_steps. simpl in *. rewrite Hn in Hx1. simpl in Hx1.
    split_and!; [by destruct Hx1|by destruct Ho1|done].
Qed.

End Schedule.
