(* ===== verification/AdmitFacts.v ===== *)
(** * Admission

    Both admission loops, and [schedule] as a whole: from a state of the
    invariant it returns, keeps the invariant, and its output respects the
    budgets. *)

From S2P Require Import Prelude Output Sequence BlockManager BlockManagerFacts Policy KVBase Scheduler Lifecycle.
From S2P Require Import SchedulerInv SchedulerSteps ScheduleFacts.

#[local] Arguments make_room : simpl never.

Section Admit.
Context `{SeqSettings} `{!SettingsOk} `{SetOrder}.
Context {Q C : Type} `{SchedulingPolicyLaws Q} `{KVConnectorLaws C}.
Variable clock : nat -> Qc.
Local Abbreviation Sch := (Scheduler Q C).
Implicit Types x : Sch.

Lemma can_allocate_run x run rows i s la :
  Inv x run rows -> heap x !! i = Some s -> num_pending_tokens s = 0%Z ->
  wp (on_blocks i (can_allocate la)) x (fun r x' =>
    r = can_allocate_ref (block_manager x) s la /\ x' = x).
Proof.
  intros Hx Hi Hp. pose proof (inv_mem _ _ _ Hx) as Hm.
  eapply wp_on_blocks; [done|]. eapply run_wp.
  - eapply can_allocate_eq; [apply (mem_inv _ _ Hm)|apply (mem_cfg _ _ Hm)| |done].
    by apply (inv_wf _ _ _ Hx i).
  - simpl. split; [done|]. destruct x; unfold update_field; simpl in *. by rewrite insert_id.
Qed.

(** The head of the queue. *)
Lemma head_waiting x run rows :
  Inv x run rows -> pol_len (waiting x) <> 0 ->
  exists s q', pol_peek (waiting x) = Some (item_of s) /\
    pol_pop (waiting x) = Some (item_of s, q') /\
    pol_iter (waiting x) ≡ₚ item_of s :: pol_iter q' /\
    S (pol_len q') = pol_len (waiting x) /\
    heap x !! seq_id s = Some s /\ status s = WAITING.
Proof.
  intros Hx Hlen. rewrite pol_len_iter in Hlen.
  destruct (pol_peek_some (waiting x)) as [q Hq]; [by intros Hn; rewrite Hn in Hlen|].
  destruct (pol_pop_peek _ _ Hq) as (q' & Hpop & Hp).
  destruct (inv_waiting _ _ _ Hx q) as (s & Hs & Hst & <-); [rewrite Hp; constructor|].
  exists s, q'. split_and!; try done. by rewrite !pol_len_iter, Hp.
Qed.

(** A sequence that took its blocks. *)
Record Admission (x : Sch) (i : nat) (s s1 : Sequence) (m1 : BlockManager) : Prop := {
  ad_seq : exists t c p, s1 = s <| block_table := t |> <| num_cached_tokens := c |>
             <| num_published_blocks := p |>;
  ad_mem : MemOk m1 (<[i := s1]> (heap x));
  ad_prefill : PrefillOk s1;
  ad_published : PublishedOk s1;
  ad_limit : LimitOk s1;
  ad_cached : (num_cached_tokens s1 = num_published_blocks s1 * block_size)%Z;
  ad_hits : (num_cached_tokens s1 =
    can_allocate_ref (block_manager x) s (num_lookahead_tokens (config x)) * block_size)%Z
}.

Lemma allocate_inv x run rows i s nc x0 :
  Inv x run rows -> heap x !! i = Some s -> status s = WAITING ->
  nc = can_allocate_ref (block_manager x) s (num_lookahead_tokens (config x)) -> nc <> (-1)%Z ->
  heap x0 = heap x -> block_manager x0 = block_manager x ->
  wp (on_blocks i (allocate nc (num_lookahead_tokens (config x)))) x0 (fun _ x' =>
    exists s1 m1, Admission x i s s1 m1 /\
      x' = x0 <| block_manager := m1 |> <| heap ::= <[i := s1]> |>).
Proof.
  intros Hx Hi Hst -> Hfit Hh Hb. pose proof (inv_mem _ _ _ Hx) as Hm.
  pose proof block_size_pos as Hbs. pose proof (lookahead_nonneg (config x)) as Hla.
  destruct (mem_seq _ _ Hm i s Hi) as (Hid & Hwf & _). pose proof (mem_cfg _ _ Hm) as Hcfg.
  pose proof (inv_status _ _ _ Hx i s Hi) as Hs. unfold StatusOk in Hs. rewrite Hst in Hs.
  destruct Hs as (Hpf & Hpe & Hsp & Htab & _ & _ & Hlim).
  pose proof (mem_inv_at _ _ i s Hm Hi) as Hinv. rewrite Htab in Hinv.
  assert (Hinv0 : BMInv (block_manager x) (others (heap x) i)).
  { eapply BMInv_proper; [|exact Hinv]. intros j. symmetry. apply refs_with_nil. }
  eapply wp_on_blocks; [by rewrite Hh|]. rewrite Hb.
  wp_call allocate_spec; [exact Hinv0|done|done|lia|done|done|done|].
  intros [] [m1 s1] [(fresh & Hs1) Hlen Hi1 Hf1 Ht1]. simpl in *. exists s1, m1.
  split; [|done].
  pose proof (cached_prefix_length _ _ Hcfg Hwf ltac:(lia)) as Hcl.
  set (ids := cached_prefix (block_manager x) s) in *.
  assert (Href : can_allocate_ref (block_manager x) s (num_lookahead_tokens (config x)) = Zlen ids).
  { unfold can_allocate_ref in *. fold ids in Hfit |- *. by destruct (_ <? _)%Z. }
  assert (Hcached : (Zlen ids * block_size < num_tokens s)%Z).
  { unfold num_blocks, num_planned_tokens in Hcl. rewrite Hpe in Hcl.
    destruct (Z.lt_ge_cases (Zlen ids * block_size) (num_tokens s)) as [|Hge]; [done|].
    pose proof (ceil_div_ge (num_tokens s + 0) block_size (Zlen ids) Hbs ltac:(lia)). lia. }
  assert (Hroom : (num_tokens s <= Zlen (block_table s1) * block_size)%Z).
  { unfold num_blocks_for, num_planned_tokens in Hlen. rewrite (proj1 Hcfg), Hpe in Hlen.
    pose proof (ceil_div_le _ block_size (Zlen (block_table s1)) Hbs ltac:(rewrite Hlen; done)). lia. }
  pose proof (Zlen_nonneg ids) as Hids.
  assert (Hcomm : s1 = s <| block_table := ids ++ fresh |> <| num_cached_tokens := (Zlen ids * block_size)%Z |>
             <| num_published_blocks := Zlen ids |>) by done.
  constructor.
  - by eexists _, _, _.
  - eapply MemOk_update; [exact Hm|exact Hi|by subst s1|destruct Hwf; subst s1; by constructor|done| |done].
    rewrite Htab. eapply Frame_ext; [|done|exact Hf1]. intros j. symmetry. apply refs_with_nil.
  - subst s1; constructor; simpl in *; try done. nia.
  - subst s1; unfold PublishedOk; simpl. lia.
  - subst s1. exact Hlim.
  - by subst s1.
  - rewrite Href. by subst s1.
Qed.

Variable P : Sequence -> Prop.

Definition AdmitOk (x : Sch) (rows : list LaunchedRow) (q' : Q) (p : Sch * Locals) : Prop :=
  Inv p.1 (running p.1) rows /\ OutOk P p.1 p.2 (running p.1) /\ preempted (output p.2) = [] /\
  config p.1 = config x /\ waiting p.1 = q' /\ (is_Some (connector p.1) -> is_Some (connector x)).

(** [_admit], when the sequence becomes running. *)
Lemma admit_running x x1 l rows i s s2 q' :
  Inv x (running x) rows -> OutOk P x l (running x) -> preempted (output l) = [] ->
  heap x !! i = Some s -> status s = WAITING ->
  (Zlen (scheduled (output l)) < max_num_seqs (config x))%Z ->
  Inv x1 (i :: running x) rows -> running x1 = running x -> waiting x1 = q' ->
  Apart i x x1 -> heap x1 !! i = Some s2 -> status s2 = RUNNING -> is_prefill s2 = true ->
  (forall n t, n = tokens_for (config x) s2 (budget l) -> ScheduledOk (scheduled_seq n t s2) ->
     ((0 < budget l)%Z -> (1 <= n)%Z) -> P (scheduled_seq n t s2)) ->
  wp (let! n := schedule_seq clock i (budget l) in
      on_fst (modify (fun x => x <| running ::= fun r => r ++ [i] |>));;; ret n) (x1, l)
     (fun n p => AdmitOk x rows q' (p.1, p.2 <| budget ::= fun b => (b - n)%Z |>)).
Proof.
  intros Hx Ho Hpre Hi Hst Hlen Hx1 Hr1 Hq Ha Hi2 Hst2 Hpf HP. wp_step.
  pose proof (oo_left _ _ _ _ Ho) as Hleft.
  wp_call schedule_seq_spec; [exact Hx1|done|done|done|by rewrite Hpf|].
  intros n [x3 l3] (s3 & Hi3 & Hok & Hn & Hbd & Hpos & Htk & (t & Hs3) & Hx3 & Ha3 & Hr3 & Hw3 & Hl3).
  simpl in *. wp_steps. unfold AdmitOk. simpl.
  rewrite (ap_config _ _ _ Ha) in Htk.
  assert (Hir : i ∉ running x).
  { intros Hin. destruct (inv_running _ _ _ Hx i Hin) as (s0 & ? & ?). congruence. }
  assert (Ha13 : Apart i x x3).
  { by eapply Apart_trans. }
  split_and!.
  - rewrite Hr3, Hr1. assert (Inv x3 (running x ++ [i]) rows) as Hx4.
    { eapply Inv_perm; [|exact Hx3]. by rewrite Permutation_app_comm. }
    by destruct Hx4.
  - assert (Ho3 : OutOk P x3 ((add_scheduled i true n l) <| budget ::= fun b => (b - n)%Z |>)
      (i :: running x)).
    { eapply OutOk_schedule; [exact Ho|done| | | |done|done| |done|lia|done].
      - intros Hin. by apply Hir, (oo_run _ _ _ _ Ho).
      - rewrite Hpre. by intros ?%elem_of_nil.
      - eapply status_not_in; [apply (oo_drop _ _ _ _ Ho)|done|congruence].
      - rewrite Hs3. apply HP; [done|by rewrite <-Hs3|done]. }
    rewrite Hpf in Hl3. subst l3. rewrite Hr3, Hr1.
    eapply (OutOk_run _ _ _ _ (running x ++ [i])) in Ho3; [by destruct Ho3|set_solver].
  - rewrite Hl3, Hpf. done.
  - apply (ap_config _ _ _ Ha13).
  - congruence.
  - apply (ap_conn _ _ _ Ha13).
Qed.

(** The state in which an admitted sequence of parameters [params] is marked
    running. *)
Lemma admitted_running x rows i s s1 m1 q' params x1 :
  Inv x (running x) rows -> heap x !! i = Some s -> status s = WAITING ->
  pol_iter (waiting x) ≡ₚ item_of s :: pol_iter q' ->
  Admission x i s s1 m1 -> kv_ok params ->
  (is_Some (connector x) -> wants_remote_prefill (s1 <| kv_transfer_params := params |>) = false) ->
  let s2 := s1 <| kv_transfer_params := params |> <| status := RUNNING |> in
  heap x1 = <[i := s2]> (heap x) -> block_manager x1 = m1 -> waiting x1 = q' ->
  config x1 = config x -> (is_Some (connector x1) -> is_Some (connector x)) ->
  seqs x1 = seqs x -> recving x1 = recving x -> sending x1 = sending x ->
  Inv x1 (i :: running x) rows.
Proof.
  intros Hx Hi Hst Hp [(t & c & p & Hs1) A2 A3 A4 A5 _ _] Hkv Hw s2 Hh Hb Hq Hc Hcn Hsq Hrc Hsd.
  pose proof (inv_status _ _ _ Hx i s Hi) as Hs. unfold StatusOk in Hs. rewrite Hst in Hs.
  assert (Hm1 : s1 = s <| block_table := t |> <| num_cached_tokens := c |>
             <| num_published_blocks := p |>) by done.
  eapply (Inv_move x (running x) rows i s x1 (i :: running x) s2); try done.
  - subst s2 s1. done.
  - rewrite Hh, Hb. rewrite <-(insert_insert_eq (heap x) i s2 s1).
    eapply MemOk_same; [exact A2|apply lookup_insert_eq|]. repeat split. simpl.
    destruct A3 as [_ -> _ _ _]. done.
  - subst s2. simpl.
    pose proof (reg_admit (meta (heap x)) (registry x (running x)) i (meta_of s)
      (inv_reg _ _ _ Hx) (meta_lookup _ _ _ Hi) (pol_iter q') (i :: running x) Hst Hp) as Hr.
    unfold registry, update_field in *; simpl in *. rewrite Hq, Hsq, Hrc, Hsd. by apply Hr.
  - split.
    + subst s2. unfold StatusOk; simpl. destruct A3 as [B1 B2 B3 B4 B5]. rewrite B1.
      split_and!; [by constructor|exact A4|exact A5].
    + split; [done|]. intros Hsome Hwant. subst s2. simpl in *.
      change (wants_remote_prefill (s1 <| kv_transfer_params := params |>) = true) in Hwant.
      rewrite Hw in Hwant; done.
  - rewrite Hh, Hrc, Hsd. eapply HeldOk_insert; [apply (inv_held _ _ _ Hx)|done..].
  - subst s2 s1. simpl. lia.
  - intros _. subst s2. simpl. destruct A3 as [_ -> _ _ _]. subst s1. simpl.
    rewrite <-(inv_pending _ _ _ Hx i s Hi) by congruence. symmetry. apply Hs.
Qed.

(** The state in which it waits for its blocks. *)
Lemma admitted_loading x rows i s s1 m1 q' params x1 :
  Inv x (running x) rows -> heap x !! i = Some s -> status s = WAITING ->
  pol_iter (waiting x) ≡ₚ item_of s :: pol_iter q' ->
  Admission x i s s1 m1 -> kv_ok params -> is_Some (connector x) -> wants_remote_prefill s = true ->
  wants_remote_prefill (s1 <| kv_transfer_params := params |>) = false ->
  let s2 := s1 <| kv_transfer_params := params |> <| status := WAITING_FOR_REMOTE_KVS |> in
  heap x1 = <[i := s2]> (heap x) -> block_manager x1 = m1 -> waiting x1 = q' ->
  config x1 = config x ->
  seqs x1 = seqs x -> recving x1 = <[request_id s := i]> (recving x) -> sending x1 = sending x ->
  Inv x1 (running x) rows.
Proof.
  intros Hx Hi Hst Hp [(t & c & p & Hs1) A2 A3 A4 A5 A6 _] Hkv Hconn Hws Hw s2 Hh Hb Hq Hc Hsq Hrc Hsd.
  pose proof (inv_status _ _ _ Hx i s Hi) as Hs. unfold StatusOk in Hs. rewrite Hst in Hs.
  destruct (inv_remote _ _ _ Hx i s Hi) as [_ Hre]. destruct (Hre Hconn Hws) as [[_ Htok]|?]; [|congruence].
  assert (Hnr : recving x !! request_id s = None).
  { pose proof (live_not_recving _ (registry x (running x)) i (meta_of s) (inv_reg _ _ _ Hx)
      (meta_lookup _ _ _ Hi)) as Hn. simpl in Hn. rewrite Hst in Hn. by apply Hn. }
  eapply (Inv_move x (running x) rows i s x1 (running x) s2); try done.
  - subst s2 s1. done.
  - rewrite Hh, Hb. rewrite <-(insert_insert_eq (heap x) i s2 s1).
    eapply MemOk_same; [exact A2|apply lookup_insert_eq|]. repeat split. simpl.
    destruct A3 as [_ -> _ _ _]. done.
  - subst s2. simpl.
    pose proof (reg_start_load (meta (heap x)) (registry x (running x)) i (meta_of s)
      (inv_reg _ _ _ Hx) (meta_lookup _ _ _ Hi) (pol_iter q') Hst Hp) as Hr.
    unfold registry, update_field in *; simpl in *. rewrite Hq, Hsq, Hrc, Hsd. by apply Hr.
  - split.
    + subst s2. unfold StatusOk; simpl. destruct A3 as [B1 B2 B3 B4 B5].
      split_and!; [by constructor|exact A4|exact A5|].
      rewrite <-A6. subst s1; simpl in *. lia.
    + split; [done|]. intros Hsome Hwant. subst s2. simpl in *.
      change (wants_remote_prefill (s1 <| kv_transfer_params := params |>) = true) in Hwant.
      rewrite Hw in Hwant; done.
  - rewrite Hh, Hrc, Hsd. eapply HeldOk_insert; [apply (inv_held _ _ _ Hx)| |done|done].
    intros r k Hk Hr. rewrite lookup_insert_ne; [done|]. intros <-. congruence.
  - subst s2 s1. simpl. lia.
  - intros _. subst s2. simpl. destruct A3 as [_ -> _ _ _]. subst s1. simpl.
    rewrite <-(inv_pending _ _ _ Hx i s Hi) by congruence. symmetry. apply Hs.
Qed.

(** What the loop knows of a sequence it admits and schedules. *)
Definition AdmitP (x : Sch) (l : Locals) (s : Sequence) (nc : Z) : Prop :=
  forall s', ScheduledOk s' -> is_prefill s' = true -> num_tokens s' = num_tokens s ->
    num_cached_tokens s' = (nc * block_size)%Z ->
    num_scheduled_tokens s' = tokens_for (config x) s' (budget l) ->
    ((0 < budget l)%Z -> (1 <= num_scheduled_tokens s')%Z) -> P s'.

Lemma Apart_put i x x' s :
  heap x' = <[i := s]> (heap x) -> config x' = config x ->
  (is_Some (connector x') -> is_Some (connector x)) -> Apart i x x'.
Proof. intros Hh Hc Hcn. constructor; [done|done|]. intros k Hk. by rewrite Hh, lookup_insert_ne. Qed.

Lemma add_scheduled_fields i pf n l :
  preempted (output (add_scheduled i pf n l)) = preempted (output l) /\
  budget (add_scheduled i pf n l) = budget l.
Proof. by destruct pf. Qed.

(** Counting the prefix-cache lookups of an admission. *)
Definition count_blocks (a b : Z) (l : Locals) : Locals :=
  l <| output ::= fun o => o <| num_queried_blocks ::= Z.add a |> <| num_cached_blocks ::= Z.add b |> |>.

Lemma OutOk_count x l run a b : OutOk P x l run -> OutOk P x (count_blocks a b l) run.
Proof. by intros [A B D E F G I J K]. Qed.

Lemma admit_spec x l rows i s q' nc :
  Inv x (running x) rows -> OutOk P x l (running x) -> preempted (output l) = [] ->
  heap x !! i = Some s -> status s = WAITING -> pol_pop (waiting x) = Some (item_of s, q') ->
  pol_iter (waiting x) ≡ₚ item_of s :: pol_iter q' ->
  nc = can_allocate_ref (block_manager x) s (num_lookahead_tokens (config x)) -> nc <> (-1)%Z ->
  (Zlen (scheduled (output l)) < max_num_seqs (config x))%Z -> AdmitP x l s nc ->
  wp (admit_request clock i nc (budget l)) (x, l)
    (fun n p => AdmitOk x rows q' (p.1, p.2 <| budget ::= fun b => (b - n)%Z |>)).
Proof.
  intros Hx Ho Hpre Hi Hst Hpop Hp Hnc Hfit Hlen HP.
  unfold admit_request, pop_waiting. wp_steps. simpl. eapply wp_or_raise; [exact Hpop|]. wp_steps. simpl.
  wp_call (allocate_inv x); [exact Hx|exact Hi|exact Hst|exact Hnc|exact Hfit|done|done|].
  intros [] x1 (s1 & m1 & Had & ->). wp_steps. simpl.
  eapply wp_get_seq; [simpl; apply lookup_insert_eq|]. wp_steps. simpl.
  fold (count_blocks (num_blocks s1) nc l).
  pose proof (OutOk_count x l (running x) (num_blocks s1) nc Ho) as Ho'.
  set (l' := count_blocks (num_blocks s1) nc l) in *.
  pose proof Had as [(t & c & pb & Hs1) A2 A3 A4 A5 A6 A7]. rewrite <-Hnc in A7.
  destruct (inv_remote _ _ _ Hx i s Hi) as [Hkv Hre].
  assert (Hpar1 : kv_transfer_params s1 = kv_transfer_params s) by by subst s1.
  assert (Hfields : num_tokens s1 = num_tokens s /\ num_prompt_tokens s1 = num_prompt_tokens s /\
    request_id s1 = request_id s) by (by subst s1).
  destruct Hfields as (Htok1 & Hpr1 & Hrid1).
  assert (Hrun : forall params x2, kv_ok params ->
    (is_Some (connector x) -> wants_remote_prefill (s1 <| kv_transfer_params := params |>) = false) ->
    let s2 := s1 <| kv_transfer_params := params |> <| status := RUNNING |> in
    heap x2 = <[i := s2]> (heap x) -> block_manager x2 = m1 -> waiting x2 = q' ->
    config x2 = config x -> (is_Some (connector x2) -> is_Some (connector x)) ->
    seqs x2 = seqs x -> recving x2 = recving x -> sending x2 = sending x ->
    running x2 = running x ->
    wp (let! n := schedule_seq clock i (budget l') in
        on_fst (modify (fun x => x <| running ::= fun r => r ++ [i] |>));;; ret n) (x2, l')
      (fun n p => AdmitOk x rows q' (p.1, p.2 <| budget ::= fun b => (b - n)%Z |>))).
  { intros params x2 Hok Hw s2 Hh Hb Hq Hc Hcn Hsq Hrc Hsd Hrn.
    eapply (admit_running x x2 l' rows i s s2 q'); try done.
    - eapply (admitted_running x rows i s s1 m1 q' params); done.
    - by eapply Apart_put.
    - by rewrite Hh, lookup_insert_eq.
    - apply A3.
    - intros n t' Hn Hok' Hpos. apply HP; try done; apply A3. }
  destruct (connector x) as [co|] eqn:Hco.
  2: { wp_steps. simpl. eapply wp_set_seq; [simpl; apply lookup_insert_eq|]. wp_steps. simpl.
       apply (wp_bind_inv (schedule_seq clock i (budget l))
         (fun n => on_fst (modify (fun x => x <| running ::= fun r => r ++ [i] |>));;; ret n)).
       change (budget l) with (budget l').
       eapply (Hrun (kv_transfer_params s1)); simpl; rewrite ?insert_insert_eq; try done.
       - by rewrite Hpar1.
       - by rewrite Hco. }
  assert (Hwant : wants_remote_prefill s1 = wants_remote_prefill s).
  { unfold wants_remote_prefill. by rewrite Hpar1. }
  wp_step. eapply wp_on_connector; [simpl; apply lookup_insert_eq|].
  wp_call kv_match_law.
  { by rewrite Hpar1. }
  { intros Hw. rewrite Hwant in Hw. destruct (Hre ltac:(eauto) Hw) as [[_ Ht]|Hf]; [|congruence].
    destruct A3 as [_ _ _ B4 _]. lia. }
  intros [n async] [co1 s2] (params & Hs2 & Hok & Hcase). simpl in *. subst s2.
  destruct (Z.eqb_spec n 0) as [->|Hn0]; simpl.
  - wp_steps. simpl. eapply wp_set_seq; [simpl; apply lookup_insert_eq|]. wp_steps. simpl.
    apply (wp_bind_inv (schedule_seq clock i (budget l))
      (fun n => on_fst (modify (fun x => x <| running ::= fun r => r ++ [i] |>));;; ret n)).
    change (budget l) with (budget l').
    eapply (Hrun params); simpl; rewrite ?insert_insert_eq; done.
  - destruct Hcase as (-> & Hws & Hws2). wp_steps; [done|]. wp_steps. simpl.
    wp_steps. eapply wp_on_connector; [simpl; apply lookup_insert_eq|].
    wp_call kv_update_law; [exact Hok|exact Hws2|].
    intros [] [co2 s3] (params2 & Hs3 & Hok2 & Hw3). simpl in *. subst s3. wp_step.
    eapply wp_set_seq; [simpl; apply lookup_insert_eq|]. wp_steps. simpl.
    assert (Hl0 : l' <| budget ::= fun b => (b - 0)%Z |> = l').
    { destruct l' as [o b st]. unfold update_field; simpl. f_equal. lia. }
    unfold AdmitOk. simpl. split_and!; [|rewrite Hl0|done|done|done|done].
    + eapply (admitted_loading x rows i s s1 m1 q' params2); simpl;
        rewrite ?insert_insert_eq, ?Hrid1; try done; congruence.
    + eapply (OutOk_apart P x _ l' _ i); [exact Ho'| | | |].
      * eapply Apart_put; simpl; rewrite ?insert_insert_eq; [reflexivity|done|by rewrite Hco].
      * intros Hin. apply (oo_run _ _ _ _ Ho') in Hin.
        destruct (inv_running _ _ _ Hx i Hin) as (s0 & ? & ?). congruence.
      * unfold l'; simpl. rewrite Hpre. by intros ?%elem_of_nil.
      * eapply status_not_in; [apply (oo_drop _ _ _ _ Ho')|done|congruence].
Qed.

(** ** The admission loops *)

(** Between two turns of an admission loop that began in [x0]. *)
Record LoopOk (rows : list LaunchedRow) (x0 x : Sch) (l : Locals) : Prop := {
  lp_inv : Inv x (running x) rows;
  lp_out : OutOk P x l (running x);
  lp_pre : preempted (output l) = [];
  lp_config : config x = config x0;
  lp_conn : is_Some (connector x) -> is_Some (connector x0)
}.

Definition TurnOk (rows : list LaunchedRow) (x0 x : Sch) (go : bool) (p : Sch * Locals) : Prop :=
  if go then LoopOk rows x0 p.1 p.2 /\ pol_len (waiting p.1) < pol_len (waiting x)
  else LoopOk rows x0 p.1 p.2.

(** The head of the queue cannot be served. *)
Lemma drop_head rows x0 x l s q' reason :
  LoopOk rows x0 x l -> pol_pop (waiting x) = Some (item_of s, q') ->
  pol_iter (waiting x) ≡ₚ item_of s :: pol_iter q' -> S (pol_len q') = pol_len (waiting x) ->
  heap x !! seq_id s = Some s -> status s = WAITING ->
  wp (let! _ := on_fst pop_waiting in drop_noting clock (seq_id s) reason;;; ret true) (x, l)
    (TurnOk rows x0 x).
Proof.
  intros [Hx Ho Hpre Hc Hcn] Hpop Hp Hl Hi Hst. unfold pop_waiting. wp_steps. simpl.
  eapply wp_or_raise; [exact Hpop|]. wp_steps. simpl.
  pose proof (inv_status _ _ _ Hx _ s Hi) as Hs. unfold StatusOk in Hs. rewrite Hst in Hs.
  wp_call (drop_noting_spec clock x _ l rows (seq_id s) s s (block_manager x) reason (running x)
    (running x) q').
  { done. } { done. } { right. done. }
  { destruct x; unfold update_field; simpl in *. by rewrite insert_id. }
  { rewrite insert_id by done. apply (inv_mem _ _ _ Hx). }
  { apply Hs. } { done. } { done. } { done. }
  intros [] [x2 l2] (Hx2 & Ha & Hr & Hf & Hw & Hl2). wp_step. simpl in *.
  split; [|rewrite Hw; lia]. constructor; simpl; rewrite ?Hr; try done.
  - rewrite Hl2. eapply OutOk_drop; [exact Ho|exact Ha| | | |done].
    + intros Hin%(oo_run _ _ _ _ Ho). destruct (inv_running _ _ _ Hx _ Hin) as (s0 & ? & ?). congruence.
    + rewrite Hpre. by intros ?%elem_of_nil.
    + eapply status_not_in; [apply (oo_drop _ _ _ _ Ho)|done|congruence].
  - by rewrite Hl2.
  - by rewrite (ap_config _ _ _ Ha).
  - intros Hs2. by apply Hcn, (ap_conn _ _ _ Ha).
Qed.

(** The head of the queue is admitted. *)
Lemma admit_head rows x0 x l s q' nc :
  LoopOk rows x0 x l -> pol_pop (waiting x) = Some (item_of s, q') ->
  pol_iter (waiting x) ≡ₚ item_of s :: pol_iter q' -> S (pol_len q') = pol_len (waiting x) ->
  heap x !! seq_id s = Some s -> status s = WAITING ->
  nc = can_allocate_ref (block_manager x) s (num_lookahead_tokens (config x)) -> nc <> (-1)%Z ->
  (Zlen (scheduled (output l)) < max_num_seqs (config x))%Z -> AdmitP x l s nc ->
  wp (admit_within clock (seq_id s) nc;;; ret true) (x, l) (TurnOk rows x0 x).
Proof.
  intros [Hx Ho Hpre Hc Hcn] Hpop Hp Hl Hi Hst Hnc Hfit Hlen HP. unfold admit_within. wp_steps. simpl.
  wp_call admit_spec; [exact Hx|exact Ho|exact Hpre|exact Hi|exact Hst|exact Hpop|exact Hp|
    exact Hnc|exact Hfit|exact Hlen|exact HP|].
  intros n [x2 l2] (A1 & A2 & A3 & A4 & A5 & A6). wp_steps. simpl in *.
  split; [|rewrite A5; lia]. constructor; simpl; try done; [congruence|auto].
Qed.

Lemma may_admit_true chunked x l :
  may_admit chunked (x, l) = true ->
  pol_len (waiting x) <> 0 /\ (Zlen (scheduled (output l)) < max_num_seqs (config x))%Z /\
  (chunked = true -> (0 < budget l)%Z).
Proof.
  unfold may_admit. simpl. intros [[Hm1%negb_true_iff%Nat.eqb_neq Hm2%Z.ltb_lt]%andb_true_iff Hm3]%andb_true_iff.
  split_and!; [done|done|]. intros ->. simpl in Hm3. by apply Z.ltb_lt.
Qed.

(** The loop of [schedule]: some budget is left at each admission. *)
Lemma admit_next_spec rows x0 x l :
  (forall s, ScheduledOk s -> (1 <= num_scheduled_tokens s)%Z -> P s) ->
  LoopOk rows x0 x l -> may_admit true (x, l) = true ->
  wp (admit_next clock) (x, l) (TurnOk rows x0 x).
Proof.
  intros HP Hok (Hne & Hlen & Hb)%may_admit_true. pose proof Hok as [Hx Ho Hpre Hc Hcn].
  destruct (head_waiting _ _ _ Hx Hne) as (s & q' & Hpk & Hpop & Hp & Hl & Hi & Hst).
  unfold admit_next, peek_waiting. wp_steps. simpl. eapply wp_or_raise; [exact Hpk|]. wp_steps. simpl.
  eapply wp_get_seq; [exact Hi|]. wp_steps. simpl.
  case_match; [by eapply drop_head|]. wp_steps. simpl.
  pose proof (inv_status _ _ _ Hx _ s Hi) as Hs. unfold StatusOk in Hs. rewrite Hst in Hs.
  wp_call can_allocate_run; [exact Hx|exact Hi|apply Hs|]. intros nc ? (Hnc & ->).
  destruct (Z.eqb_spec nc (-1)) as [->|Hfit]; [by wp_step|].
  eapply admit_head; try done. intros s' Hok' _ _ _ _ Hpos. apply HP; [done|auto].
Qed.

Lemma admit_all_spec rows x l :
  (forall s, ScheduledOk s -> (1 <= num_scheduled_tokens s)%Z -> P s) ->
  LoopOk rows x x l ->
  wp (admit_all clock) (x, l) (fun _ p => LoopOk rows x p.1 p.2).
Proof.
  intros HP Hok. unfold admit_all. wp_steps.
  apply (wp_while _ _ _ _ (fun p => pol_len (waiting p.1)) (fun p => LoopOk rows x p.1 p.2)
    (fun p => LoopOk rows x p.1 p.2)); [done|simpl; lia|done|].
  intros [x1 l1] Hl1 Hm. wp_call admit_next_spec; [done|done|done|].
  intros [] p Hp; exact Hp.
Qed.

(** The loop of [_schedule_whole_prompts]: without a connector, a prompt is
    scheduled whole. *)
Lemma admit_whole_spec rows x0 x l :
  (forall s, ScheduledOk s -> is_prefill s = true ->
     (~ is_Some (connector x0) -> num_cached_tokens s + num_scheduled_tokens s = num_tokens s)%Z -> P s) ->
  enable_chunked_prefill (config x0) = false ->
  LoopOk rows x0 x l -> may_admit false (x, l) = true ->
  wp (admit_whole clock) (x, l) (TurnOk rows x0 x).
Proof.
  intros HP Hoff Hok (Hne & Hlen & _)%may_admit_true. pose proof Hok as [Hx Ho Hpre Hc Hcn].
  destruct (head_waiting _ _ _ Hx Hne) as (s & q' & Hpk & Hpop & Hp & Hl & Hi & Hst).
  unfold admit_whole, peek_waiting. wp_steps. simpl. eapply wp_or_raise; [exact Hpk|]. wp_steps. simpl.
  eapply wp_get_seq; [exact Hi|]. wp_steps. simpl.
  case_match; [by eapply drop_head|]. wp_steps. simpl.
  pose proof (inv_status _ _ _ Hx _ s Hi) as Hs. unfold StatusOk in Hs. rewrite Hst in Hs.
  wp_call can_allocate_run; [exact Hx|exact Hi|apply Hs|]. intros nc ? (Hnc & ->).
  destruct (Z.eqb_spec nc (-1)) as [->|Hfit]; [by wp_step|].
  set (n := if loads_remotely x s then _ else _).
  destruct (Z.ltb_spec (max_num_batched_tokens (config x)) n); [by eapply drop_head|].
  destruct (Z.ltb_spec (budget l) n) as [|Hle]; [by wp_step|].
  eapply admit_head; try done. intros s' Hok' Hpf Htk Hca Hsch _. apply HP; [done|done|].
  intros Hnone. rewrite Hsch. unfold tokens_for. rewrite Hpf, Hc, Hoff. simpl.
  assert (loads_remotely x s = false) as Hlr.
  { unfold loads_remotely. destruct (connector x); [|done]. exfalso. eauto. }
  unfold n in Hle. rewrite Hlr in Hle. rewrite (cfg_bs _ (inv_cfg _ _ _ Hx)) in Hle. lia.
Qed.

Lemma new_locals_ok x d :
  CfgOk (config x) -> Forall (status_at x FINISHED) d ->
  OutOk P x (new_locals x d) [].
Proof.
  intros Hc Hd. constructor; simpl; try done; try constructor.
  - pose proof (cfg_budget _ Hc). lia.
  - unfold Zlen; simpl. pose proof (cfg_seqs _ Hc). lia.
Qed.

(** ** [schedule] *)

(** What a step's output promises. *)
Record OutputOk (x : Sch) (o : SchedulerOutput) : Prop := {
  so_sched : Forall (scheduled_at P x) (scheduled o);
  so_nodup : NoDup (scheduled o);
  so_run : forall i, i ∈ scheduled o -> i ∈ running x;
  so_tokens : step_tokens x (scheduled o) = (num_prefill_tokens o + num_decode_tokens o)%Z;
  so_budget : (num_prefill_tokens o + num_decode_tokens o <= max_num_batched_tokens (config x))%Z;
  so_len : (Zlen (scheduled o) <= max_num_seqs (config x))%Z;
  so_pre : Forall (status_at x WAITING) (preempted o);
  so_drop : Forall (status_at x FINISHED) (dropped o)
}.

Lemma OutOk_output x l : OutOk P x l (running x) -> OutputOk x (output l).
Proof. intros [A B D E F G I J K]. constructor; try done. lia. Qed.

Lemma wp_with_locals x d (m : M (Sch * Locals) unit) (R : SchedulerOutput -> Sch -> Prop) :
  wp m (x, new_locals x d) (fun _ p => R (output p.2) p.1) -> wp (with_locals d m) x R.
Proof. unfold wp, with_locals. by destruct (m (x, new_locals x d)) as [[e|[]] [x' l']]. Qed.

Lemma schedule_whole_prompts_spec rows x :
  (forall s, ScheduledOk s -> is_prefill s = true ->
     (~ is_Some (connector x) -> num_cached_tokens s + num_scheduled_tokens s = num_tokens s)%Z -> P s) ->
  enable_chunked_prefill (config x) = false -> Inv x (running x) rows ->
  wp (schedule_whole_prompts clock) x (fun o x' => Inv x' (running x') rows /\ OutputOk x' o /\
    preempted o = [] /\ config x' = config x).
Proof.
  intros HP Hoff Hx. apply wp_with_locals. wp_steps.
  eapply wp_mono; [apply (wp_while _ _ _ _ (fun p => pol_len (waiting p.1))
    (fun p => LoopOk rows x p.1 p.2) (fun p => LoopOk rows x p.1 p.2))|].
  - simpl. constructor; try done.
    eapply OutOk_run; [apply new_locals_ok; [apply (inv_cfg _ _ _ Hx)|constructor]|set_solver].
  - simpl. lia.
  - done.
  - intros [x1 l1] Hl1 Hm. wp_call (admit_whole_spec rows x); [done|done|done|done|].
    intros [] p Hp; exact Hp.
  - intros [] [x1 l1] [A B D E F]. simpl in *. split_and!; try done. by apply OutOk_output.
Qed.

Lemma schedule_step_spec rows x d :
  (forall s, ScheduledOk s -> (1 <= num_scheduled_tokens s)%Z -> P s) ->
  Inv x (running x) rows -> Forall (status_at x FINISHED) d ->
  wp (schedule_step clock d) x (fun o x' => Inv x' (running x') rows /\ OutputOk x' o).
Proof.
  intros HP Hx Hd. apply wp_with_locals. unfold sort_running. wp_steps. simpl.
  destruct (running_seqs x _ rows (running x) Hx) as (ss & Hss & Hids); [done|].
  eapply wp_items; [exact Hss|]. wp_steps. simpl.
  set (r := qi_id <$> pol_by_urgency (waiting x) (item_of <$> ss)).
  assert (Hr : r ≡ₚ running x).
  { rewrite <-Hids. unfold r. apply fmap_Permutation, pol_by_urgency_perm. }
  wp_call schedule_all_running_spec; [exact HP| |].
  { constructor; simpl.
    - rewrite app_nil_r. assert (Inv x r rows) as Hx' by (eapply Inv_perm; [|exact Hx]; by rewrite Hr).
      by destruct Hx'.
    - pose proof (new_locals_ok x d (inv_cfg _ _ _ Hx) Hd) as Ho. by destruct Ho. }
  intros [] [x1 l1] (Hx1 & Ho1 & Hc1). wp_steps. simpl in *. apply wp_when.
  - intros [_ Hpre%bool_decide_eq_true]%andb_true_iff. unfold id in Hpre; simpl in Hpre.
    wp_call admit_all_spec; [exact HP|by constructor|].
    intros [] [x2 l2] [A B D E F]. simpl in *. split; [done|]. by apply OutOk_output.
  - intros _. simpl. split; [done|]. by apply OutOk_output.
Qed.

End Admit.
