(* ===== verification/LaunchFacts.v ===== *)
(** * [schedule], the launch of a step, and the ends of transfers

    [schedule] in full; [advance] after the launch; and the update from the
    KV connector's report: each keeps the invariant. *)

From S2P Require Import Prelude Output Sequence BlockManager BlockManagerFacts Policy KVBase Scheduler Lifecycle.
From S2P Require Import SchedulerInv SchedulerSteps ScheduleFacts AdmitFacts.

#[local] Arguments make_room : simpl never.

Section Launch.
Context `{SeqSettings} `{!SettingsOk} `{SetOrder}.
Context {Q C : Type} `{SchedulingPolicyLaws Q} `{KVConnectorLaws C}.
Local Abbreviation Sch := (Scheduler Q C).
Implicit Types x : Sch.

(** ** [schedule] *)

(** A step that mixes prefills and decodes gives every sequence a token. *)
Definition Positive (s : Sequence) : Prop := (1 <= num_scheduled_tokens s)%Z.

(** A step of whole prompts: prefills only, complete unless a connector turned
    a remote prefill down. *)
Definition Whole (conn : option C) (s : Sequence) : Prop :=
  is_prefill s = true /\
  (~ is_Some conn -> num_cached_tokens s + num_scheduled_tokens s = num_tokens s)%Z.

Definition ScheduleOk (x x' : Sch) (o : SchedulerOutput) : Prop :=
  OutputOk Positive x' o \/
  (enable_chunked_prefill (config x) = false /\ scheduled o <> [] /\ OutputOk (Whole (connector x)) x' o).

Lemma OutputOk_same P x x' o o' :
  heap x' = heap x -> running x' = running x -> config x' = config x ->
  o' = o <| kv_connector_metadata := kv_connector_metadata o' |> ->
  OutputOk P x o -> OutputOk P x' o'.
Proof.
  intros Hh Hr Hc -> [A B D E F G I J]. unfold scheduled_at, status_at, step_tokens in *.
  constructor; simpl; unfold scheduled_at, status_at, step_tokens; rewrite ?Hh, ?Hr, ?Hc; done.
Qed.

Lemma with_connector_meta_spec x x0 o rows :
  Inv x (running x) rows -> ScheduleOk x0 x o ->
  wp (with_connector_meta o) x (fun o' x' => Inv x' (running x') rows /\ ScheduleOk x0 x' o' /\
    heap x' = heap x /\ recving x' = recving x).
Proof.
  intros Hx Ho. unfold with_connector_meta. wp_steps. destruct (connector x) as [c|] eqn:Hc.
  2: { by wp_step. }
  wp_steps. wp_call kv_meta_law. intros meta_ c' _. wp_steps. split_and!; [| |done|done].
  - destruct Hx as [A B D E F G]. constructor; simpl; try done.
    intros i s Hi. destruct (E i s Hi) as [? [? Hre]]. split; [done|]. split; [done|].
    intros _. apply Hre. by rewrite Hc.
  - destruct Ho as [Ho|(? & ? & Ho)]; [left|right; split; [done|split; [done|]]];
      by eapply OutputOk_same; [..|exact Ho].
Qed.

Lemma schedule_spec (clock : nat -> Qc) x rows :
  Inv x (running x) rows ->
  wp (schedule clock) x (fun o x' => Inv x' (running x') rows /\ ScheduleOk x x' o).
Proof.
  intros Hx. unfold schedule. wp_steps.
  assert (Hmeta : forall x' o, Inv x' (running x') rows -> ScheduleOk x x' o ->
    wp (with_connector_meta o) x' (fun o' x'' => Inv x'' (running x'') rows /\ ScheduleOk x x'' o')).
  { intros x' o Hx' Ho. wp_call with_connector_meta_spec; [done|done|]. naive_solver. }
  destruct (enable_chunked_prefill (config x)) eqn:Hch; simpl.
  - wp_step. wp_call (schedule_step_spec clock Positive); [done|done|by constructor|].
    intros o x' [Hx' Ho]. apply Hmeta; [done|by left].
  - wp_step. wp_call (schedule_whole_prompts_spec clock (Whole (connector x))); [by split|done|done|].
    intros o x' (Hx' & Ho & _ & Hc). unfold output_truthy. case_bool_decide as Hs.
    + apply Hmeta; [done|]. right. done.
    + wp_step. wp_call (schedule_step_spec clock Positive); [done|done|apply (so_drop _ _ _ Ho)|].
      intros o2 x2 [Hx2 Ho2]. apply Hmeta; [done|by left].
Qed.

(** ** Writes go to private blocks *)

(** Every position a scheduled sequence is about to compute lies in a block
    that it holds alone and that the prefix cache does not name. *)
Lemma scheduled_slot_private x run rows i s pos :
  Inv x run rows -> heap x !! i = Some s -> ScheduledOk s ->
  (num_cached_tokens s <= pos < num_cached_tokens s + num_scheduled_tokens s)%Z ->
  exists j b, block_table s !! Z.to_nat (pos / block_size) = Some j /\
    blocks (block_manager x) !! j = Some b /\ b_hash b = (-1)%Z /\
    total_refs (heap x) j = 1 /\
    (forall h, hash_to_block_id (block_manager x) !! h <> Some j).
Proof.
  intros Hx Hi (Hst & Hn & Hphase) Hpos. pose proof block_size_pos as Hbs.
  destruct (mem_seq _ _ (inv_mem _ _ _ Hx) i s Hi) as (_ & Hwf & Ht).
  pose proof (inv_status _ _ _ Hx i s Hi) as Hs. unfold StatusOk in Hs. rewrite Hst in Hs.
  destruct Hs as (Hph & [Hpub _] & _).
  assert (Hup : (pos < Zlen (block_table s) * block_size)%Z).
  { destruct (is_prefill s); [|destruct Hphase as [? [_ ?]]; lia].
    destruct Hph as [_ _ _ _ ?]. lia. }
  pose proof (tbl_published _ _ _ Ht) as Hp0.
  assert (Hlo : (num_published_blocks s <= pos / block_size)%Z).
  { apply Z.div_le_lower_bound; lia. }
  assert (Hhi : (pos / block_size < Zlen (block_table s))%Z).
  { apply Z.div_lt_upper_bound; lia. }
  destruct (lookup_lt_is_Some_2 (block_table s) (Z.to_nat (pos / block_size))) as [j Hj].
  { unfold Zlen in Hhi. lia. }
  destruct (tbl_blocks _ _ _ Ht _ j Hj) as (b & Hb & Hcase).
  destruct (Z.ltb_spec (Z.of_nat (Z.to_nat (pos / block_size))) (num_published_blocks s)); [lia|].
  destruct Hcase as [Hh Hr]. exists j, b. split_and!; try done.
  intros h Hj2. destruct (inv_map _ _ (mem_inv _ _ (inv_mem _ _ _ Hx)) h j Hj2) as (Hne & b' & Hb' & Hh').
  congruence.
Qed.

(** ** A change of a live sequence within its status *)

Lemma Inv_keep x run rows rows' i s x' s' :
  Inv x run rows -> heap x !! i = Some s -> status s <> FINISHED ->
  heap x' = <[i := s']> (heap x) -> config x' = config x ->
  (is_Some (connector x') -> is_Some (connector x)) -> waiting x' = waiting x ->
  seqs x' = seqs x -> recving x' = recving x -> sending x' = sending x ->
  MemOk (block_manager x') (heap x') -> meta_of s' = meta_of s -> SeqOk (connector x) s' ->
  RowsOk (heap x') rows' -> Inv x' run rows'.
Proof.
  intros Hx Hi Hst Hh Hc Hcn Hw Hsq Hrc Hsd Hm Hmeta Hok Hrows.
  assert (Hst' : status s' = status s) by (by injection Hmeta).
  constructor.
  - rewrite Hc. apply (inv_cfg _ _ _ Hx).
  - done.
  - rewrite Hh. erewrite meta_same by done. unfold registry. rewrite Hw, Hsq, Hrc, Hsd.
    apply (inv_reg _ _ _ Hx).
  - intros k sk Hk. rewrite Hh in Hk.
    assert (SeqOk (connector x) sk) as [? [? Hre]].
    { eapply SeqOk_insert; [apply (inv_seq _ _ _ Hx)|done|done]. }
    split; [done|]. split; [done|]. auto.
  - rewrite Hh, Hrc, Hsd. eapply HeldOk_insert; [apply (inv_held _ _ _ Hx)|done|done|congruence].
  - done.
Qed.

(** ** [advance] *)

(** The rows with one more, for a sequence that reserves its slots. *)
Lemma RowsOk_launch h rows i s s' d :
  RowsOk h rows -> h !! i = Some s -> status s <> FINISHED -> (0 <= d)%Z ->
  num_preemptions s' = num_preemptions s ->
  num_pending_tokens s' = (num_pending_tokens s + (1 + d))%Z ->
  RowsOk (<[i := s']> h) (rows ++ [{| row_seq := i; row_num_preemptions := num_preemptions s;
                                      row_num_draft_tokens := d |}]).
Proof.
  intros [Hk Hp] Hi Hst Hd Hpr Hpe. constructor.
  - intros r [Hr| ->%list_elem_of_singleton]%elem_of_app.
    + destruct (Hk r Hr) as (? & sr & Hsr & ?). split; [done|].
      destruct (decide (row_seq r = i)) as [He|He].
      * exists s'. rewrite He, lookup_insert_eq. split; [done|].
        assert (sr = s) by congruence. subst sr. lia.
      * exists sr. by rewrite lookup_insert_ne.
    + simpl. split; [done|]. exists s'. rewrite lookup_insert_eq. split; [done|lia].
  - intros k sk [[<- <-]|[Hne Hk']]%lookup_insert_Some Hf; rewrite reserved_app, reserved_cons; unfold reserved at 2; simpl.
    + rewrite decide_True by (split; simpl; congruence). rewrite Hpr, <-(Hp i s Hi Hst). lia.
    + rewrite decide_False by (intros [? _]; done). rewrite <-(Hp k sk Hk' Hf). lia.
Qed.

Lemma RowsOk_set h rows i s s' :
  RowsOk h rows -> h !! i = Some s -> status s <> FINISHED ->
  num_preemptions s' = num_preemptions s -> num_pending_tokens s' = num_pending_tokens s ->
  RowsOk (<[i := s']> h) rows.
Proof.
  intros Hr Hi Hst Hpr Hpe. eapply RowsOk_update; [done|done|lia|]. intros _.
  rewrite Hpr, Hpe. by apply (rows_pending _ _ Hr).
Qed.

(** A row for a sequence that computed everything planned. *)
Definition new_row (i : nat) (s : Sequence) : LaunchedRow :=
  {| row_seq := i; row_num_preemptions := num_preemptions s;
     row_num_draft_tokens := Zlen (spec_token_ids s) |}.

(** Whether the sequence samples in this step. *)
Definition samples (s : Sequence) : bool :=
  (num_planned_tokens s <=? num_cached_tokens s + num_scheduled_tokens s)%Z.

Lemma advance_seq_spec x run rows i s :
  Inv x run rows -> heap x !! i = Some s -> ScheduledOk s ->
  wp (advance_seq i) x (fun r x' => exists s',
    r = (if samples s then Some (new_row i s) else None) /\
    Inv x' run (rows ++ option_list r) /\ Apart i x x' /\ running x' = running x /\
    heap x' !! i = Some s' /\ token_ids s' = token_ids s /\
    num_cached_tokens s' = (num_cached_tokens s + num_scheduled_tokens s)%Z /\
    is_prefill s' = is_prefill s && negb (samples s) /\
    num_pending_tokens s' = (num_pending_tokens s +
      if samples s then 1 + Zlen (spec_token_ids s) else 0)%Z).
Proof.
  intros Hx Hi (Hst & Hn & Hphase). pose proof block_size_pos as Hbs.
  pose proof (inv_mem _ _ _ Hx) as Hm. destruct (mem_seq _ _ Hm i s Hi) as (Hid & Hwf & Ht).
  pose proof (inv_status _ _ _ Hx i s Hi) as Hs. unfold StatusOk in Hs. rewrite Hst in Hs.
  destruct Hs as (Hph & [Hpub1 Hpub2] & [Hlim1 Hlim2]).
  set (n := num_scheduled_tokens s) in *.
  unfold advance_seq. wp_steps. simpl. eapply wp_set_seq; [done|]. wp_steps.
  eapply wp_get_seq; [simpl; apply lookup_insert_eq|]. wp_steps.
  eapply wp_set_seq; [simpl; apply lookup_insert_eq|]. wp_steps. simpl.
  set (s2 := s <| num_cached_tokens ::= Z.add n |> <| num_scheduled_tokens := 0%Z |>
               <| spec_token_ids := [] |>).
  eapply wp_on_blocks; [simpl; apply lookup_insert_eq|]. simpl.
  assert (Hwf2 : SeqWf s2) by (destruct Hwf; by constructor).
  assert (Hup : (num_cached_tokens s + n <= Zlen (block_table s) * block_size)%Z).
  { destruct (is_prefill s); [destruct Hph as [_ _ _ _ ?]; lia|]. apply Hphase. }
  wp_call (hash_blocks_spec _ (others (heap x) i)).
  { exact (mem_inv_at _ _ i s Hm Hi). }
  { apply (mem_cfg _ _ Hm). }
  { eapply TableOk_same; [| | | |exact (mem_table_at _ _ i s Hm Hi)]; done. }
  { exact Hwf2. }
  { simpl. transitivity ((Zlen (block_table s) * block_size) / block_size)%Z;
      [apply Z.div_le_mono; lia|]. rewrite Z.div_mul by lia. done. }
  intros [] [m3 s3] (Hs3 & Hi3 & Hf3 & Ht3). simpl in *.
  set (pub := num_published_blocks s3).
  assert (Hpubeq : s3 = s2 <| num_published_blocks := pub |>) by (unfold pub; by rewrite Hs3).
  assert (Hpub : (pub * block_size <= num_cached_tokens s + n)%Z /\ (pub * block_size <= num_tokens s)%Z).
  { unfold pub. rewrite Hs3. simpl. fold n.
    pose proof (Z.mul_div_le (Z.min (n + num_cached_tokens s) (num_tokens s)) block_size Hbs).
    destruct enable_prefix_caching; [|lia].
    match goal with |- context [Z.max ?a ?b] => destruct (Z.max_spec a b) as [[_ ->]|[_ ->]] end; lia. }
  assert (Hm3 : forall s4, SameMemory s3 s4 -> MemOk m3 (<[i := s4]> (heap x))).
  { intros s4 Hsm. rewrite <-(insert_insert_eq (heap x) i s4 s3).
    eapply MemOk_same; [|apply lookup_insert_eq|done].
    eapply MemOk_update; [exact Hm|exact Hi|by subst s3|destruct Hwf2; subst s3; by constructor| | |];
      rewrite Hpubeq; simpl; [exact Hi3|exact Hf3|].
    rewrite <-Hpubeq. exact Ht3. }
  clearbody pub. clear Hs3 Hi3 Hf3 Ht3. subst s3. wp_steps.
  eapply wp_get_seq; [simpl; apply lookup_insert_eq|]. simpl.
  assert (Hsam : (n + num_cached_tokens s <? num_planned_tokens s)%Z = negb (samples s)).
  { unfold samples. fold n. rewrite Z.ltb_antisym. f_equal. f_equal; lia. }
  assert (Hpend2 : num_planned_tokens (s2 <| num_published_blocks := pub |>) = num_planned_tokens s) by done.
  rewrite Hpend2. simpl. rewrite Hsam.
  destruct (samples s) eqn:Hsp; simpl.
  - wp_steps. simpl. eapply wp_set_seq; [simpl; apply lookup_insert_eq|]. wp_steps. simpl.
    eapply wp_on_seq; [simpl; apply lookup_insert_eq|]. unfold reserve_token. wp_steps. simpl.
    eapply wp_set_seq; [simpl; apply lookup_insert_eq|]. wp_steps. simpl.
    eexists. split; [done|]. rewrite !insert_insert_eq.
    split; [|split; [|split; [done|split; [apply lookup_insert_eq|]]]].
    + eapply (Inv_keep x run rows _ i s); [exact Hx|exact Hi|congruence|simpl; by rewrite !insert_insert_eq|
        done|done|done|done|done|done| |done| |]; simpl; rewrite ?insert_insert_eq.
      * apply Hm3. repeat split; simpl. pose proof (Zlen_nonneg (spec_token_ids s)).
        pose proof (wf_pending _ Hwf). lia.
      * split; [|apply (inv_remote _ _ _ Hx i s Hi)]. unfold StatusOk; simpl. rewrite Hst.
        unfold samples, num_planned_tokens in *. apply Z.leb_le in Hsp. fold n in Hsp.
        unfold PublishedOk, LimitOk, num_completion_tokens, num_planned_tokens in *; simpl.
        destruct (is_prefill s) eqn:Hpf.
        -- destruct Hph as [_ P2 P3 P4 P5]. rewrite P3. unfold Zlen at 1 2; simpl.
           split_and!; [constructor; unfold num_planned_tokens; simpl; [done|lia|lia]|lia|lia|lia|lia].
        -- destruct Hphase as (Hn1 & Hr1 & Hr2), Hph as [_ D2 D3].
           unfold num_planned_tokens in *.
           split_and!; [constructor; unfold num_planned_tokens; simpl; [done|lia|lia]|lia|lia|lia|lia].
      * eapply RowsOk_launch; [apply (inv_rows _ _ _ Hx)|exact Hi|congruence|apply Zlen_nonneg|done|].
        simpl. lia.
    + eapply Apart_put; simpl; rewrite ?insert_insert_eq; [reflexivity|done|done].
    + simpl. split; [done|]. rewrite andb_false_r. split_and!; [lia|done|lia].
  - wp_steps. simpl. eexists. split; [done|]. rewrite app_nil_r, !insert_insert_eq.
    unfold samples in Hsp. apply Z.leb_gt in Hsp. fold n in Hsp.
    assert (Hpf : is_prefill s = true).
    { destruct (is_prefill s) eqn:Hpf; [done|]. destruct Hph as [_ D2 _], Hphase as [Hn1 _].
      pose proof (Zlen_nonneg (spec_token_ids s)). unfold num_planned_tokens in *. lia. }
    rewrite Hpf in Hph, Hphase. destruct Hph as [_ P2 P3 P4 P5].
    split; [|split; [|split; [done|split; [apply lookup_insert_eq|]]]].
    + eapply (Inv_keep x run rows _ i s); [exact Hx|exact Hi|congruence|simpl; by rewrite !insert_insert_eq|
        done|done|done|done|done|done| |done| |]; simpl; rewrite ?insert_insert_eq.
      * apply Hm3. repeat split; simpl. lia.
      * split; [|apply (inv_remote _ _ _ Hx i s Hi)]. unfold StatusOk; simpl. rewrite Hst, Hpf.
        unfold PublishedOk, LimitOk, num_completion_tokens, num_planned_tokens in *; simpl.
        split_and!; [constructor; simpl; [done|done|done|lia|lia]|lia|lia|lia|lia].
      * eapply RowsOk_set; [apply (inv_rows _ _ _ Hx)|exact Hi|congruence|done|done].
    + eapply Apart_put; simpl; rewrite ?insert_insert_eq; [reflexivity|done|done].
    + simpl. split; [done|]. rewrite Hpf. split_and!; [lia|done|lia].
Qed.

(** What [advance] makes of one sequence. *)
Definition Advanced (s s' : Sequence) : Prop :=
  token_ids s' = token_ids s /\
  num_cached_tokens s' = (num_cached_tokens s + num_scheduled_tokens s)%Z /\
  is_prefill s' = is_prefill s && negb (samples s) /\
  num_pending_tokens s' = (num_pending_tokens s +
    if samples s then 1 + Zlen (spec_token_ids s) else 0)%Z.

(** The sampling rows of a launched step, in its order. *)
Definition rows_for (x : Sch) (l : list nat) : list LaunchedRow :=
  omap (fun i => s ← heap x !! i; if samples s then Some (new_row i s) else None) l.

Lemma rows_for_snoc x l i s :
  heap x !! i = Some s ->
  rows_for x (l ++ [i]) = rows_for x l ++ option_list (if samples s then Some (new_row i s) else None).
Proof.
  intros Hi. unfold rows_for. rewrite omap_app. f_equal. simpl. rewrite Hi. simpl.
  by destruct (samples s).
Qed.

Lemma omap_id_snoc {A} (l : list (option A)) (o : option A) :
  omap id (l ++ [o]) = omap id l ++ option_list o.
Proof. rewrite omap_app. by destruct o. Qed.

Lemma advance_spec x run rows l :
  Inv x run rows -> NoDup l ->
  Forall (fun i => exists s, heap x !! i = Some s /\ ScheduledOk s) l ->
  wp (advance l) x (fun rows' x' => rows' = rows_for x l /\ Inv x' run (rows ++ rows') /\
    running x' = running x /\
    (forall i, i ∉ l -> heap x' !! i = heap x !! i) /\
    (forall i s, i ∈ l -> heap x !! i = Some s -> exists s', heap x' !! i = Some s' /\ Advanced s s')).
Proof.
  intros Hx Hnd Hall. unfold advance. wp_step.
  pose (I := fun (done_ : list nat) (ys : list (option LaunchedRow)) (x' : Sch) =>
    omap id ys = rows_for x done_ /\ Inv x' run (rows ++ omap id ys) /\ running x' = running x /\
    (forall i, i ∉ done_ -> heap x' !! i = heap x !! i) /\
    (forall i s, i ∈ done_ -> heap x !! i = Some s -> exists s', heap x' !! i = Some s' /\ Advanced s s')).
  eapply wp_mono; [apply (wp_collect l advance_seq x I)|].
  - unfold I; simpl. rewrite app_nil_r. split_and!; try done. by intros ? ? ?%elem_of_nil.
  - intros done_ i rest ys x1 Hl (Hr & Hx1 & Hrun & Hout & Hin).
    rewrite Hl in Hnd. destruct (NoDup_mid _ _ _ Hnd) as (Hni & Hnr & _).
    rewrite Hl in Hall. apply Forall_app in Hall as [_ [(s & Hs & Hok) _]%Forall_cons].
    wp_call advance_seq_spec; [exact Hx1|by rewrite Hout|done|].
    intros r x2 (s' & Hr2 & Hx2 & Ha & Hrun2 & Hs' & Hadv). unfold I.
    rewrite omap_id_snoc. split_and!.
    + rewrite Hr, Hr2. symmetry. by apply rows_for_snoc.
    + by rewrite app_assoc.
    + congruence.
    + intros k Hk. rewrite (ap_heap _ _ _ Ha) by set_solver. apply Hout. set_solver.
    + intros k sk Hk Hsk. destruct (decide (k = i)) as [->|Hne].
      * exists s'. split; [done|]. assert (sk = s) by congruence. by subst sk.
      * rewrite (ap_heap _ _ _ Ha) by done. apply Hin; [set_solver|done].
  - intros ys x' (Hr & Hx' & Hrun & Hout & Hin). wp_step. by split_and!.
Qed.

(** ** [update_from_kv_connector_output] *)

(** What a report leaves alone: the sequences that run or wait. *)
Definition KeepsActive (x x' : Sch) : Prop :=
  forall i s, heap x !! i = Some s -> status s = RUNNING \/ status s = WAITING ->
    heap x' !! i = Some s.

Lemma finish_sending_spec x rows r :
  Inv x (running x) rows ->
  wp (finish_sending r) x (fun _ x' => Inv x' (running x') rows /\ sending x' = delete r (sending x) /\
    recving x' = recving x /\ running x' = running x /\ KeepsActive x x').
Proof.
  intros Hx. unfold finish_sending. wp_steps. destruct (sending x !! r) as [i|] eqn:Hr.
  2: { wp_step. split_and!; [done|by rewrite delete_id|done|done|by intros ? ? ?]. }
  destruct (reg_send _ _ (inv_reg _ _ _ Hx) r i Hr) as (m & Hm & Hmr & Hms).
  apply meta_lookup_inv in Hm as (s & Hi & ->). simpl in Hmr, Hms. wp_steps.
  wp_call deallocate_run; [exact Hi|apply (inv_mem _ _ _ Hx)|]. simpl.
  intros [] x' (m' & Hm' & ->). split_and!; [|done..|].
  - constructor; simpl; [apply (inv_cfg _ _ _ Hx)|exact Hm'| | | |].
    + erewrite meta_same by done.
      apply (reg_release_send _ (registry x (running x)) (inv_reg _ _ _ Hx) r).
    + apply SeqOk_insert; [apply (inv_seq _ _ _ Hx)|].
      destruct (inv_seq _ _ _ Hx i s Hi) as [_ ?]. split; [|done].
      unfold StatusOk; simpl. by rewrite Hms.
    + intros k sk [[<- <-]|[Hne Hk]]%lookup_insert_Some Hf; [by left|].
      destruct (inv_held _ _ _ Hx k sk Hk Hf) as [?|[?|Hsd]]; [by left|right; by left|right; right].
      rewrite lookup_delete_ne; [done|]. intros He. congruence.
    + eapply RowsOk_update; [apply (inv_rows _ _ _ Hx)|exact Hi|done|]. simpl. by rewrite Hms.
  - intros k sk Hk Hsk. simpl. rewrite lookup_insert_ne; [done|]. intros <-.
    assert (sk = s) by congruence. subst sk. destruct Hsk; congruence.
Qed.

Lemma finish_recving_spec x rows loaded r :
  Inv x (running x) rows -> is_Some (recving x !! r) ->
  wp (finish_recving loaded r) x (fun _ x' => Inv x' (running x') rows /\
    recving x' = delete r (recving x) /\
    (exists l, running x' = running x ++ l) /\ KeepsActive x x').
Proof.
  intros Hx [i Hr]. pose proof block_size_pos as Hbs.
  destruct (reg_recv _ _ (inv_reg _ _ _ Hx) r i Hr) as (m & Hm & Hmr & Hms).
  apply meta_lookup_inv in Hm as (s & Hi & ->). simpl in Hmr, Hms.
  destruct (mem_seq _ _ (inv_mem _ _ _ Hx) i s Hi) as (Hid & Hwf & Ht).
  pose proof (inv_status _ _ _ Hx i s Hi) as Hst.
  assert (Hkeep : forall s' m' x', heap x' = <[i := s']> (heap x) -> block_manager x' = m' -> KeepsActive x x').
  { intros s' m' x' Hh _ k sk Hk Hsk. rewrite Hh, lookup_insert_ne; [done|]. intros <-.
    assert (sk = s) by congruence. subst sk. destruct Hsk, Hms; congruence. }
  unfold finish_recving. wp_steps. eapply wp_or_raise; [exact Hr|]. wp_steps.
  eapply wp_get_seq; [exact Hi|]. unfold is_finished. case_bool_decide as Hf.
  { wp_call deallocate_run; [exact Hi|apply (inv_mem _ _ _ Hx)|]. simpl.
    intros [] x' (m' & Hm' & ->). split_and!; [|done|exists []; by rewrite app_nil_r|by eapply Hkeep].
    constructor; simpl; [apply (inv_cfg _ _ _ Hx)|exact Hm'| | | |].
    - erewrite meta_same by done. rewrite <-Hmr.
      apply (reg_release_recv _ (registry x (running x)) i (meta_of s));
        [apply (inv_reg _ _ _ Hx)|by apply meta_lookup|done|simpl; by rewrite Hmr].
    - apply SeqOk_insert; [apply (inv_seq _ _ _ Hx)|].
      destruct (inv_seq _ _ _ Hx i s Hi) as [_ ?]. split; [|done].
      unfold StatusOk; simpl. by rewrite Hf.
    - intros k sk [[<- <-]|[Hne Hk]]%lookup_insert_Some Hfk; [by left|].
      destruct (inv_held _ _ _ Hx k sk Hk Hfk) as [?|[Hrc|?]]; [by left|right; left|right; by right].
      rewrite lookup_delete_ne; [done|]. intros He. congruence.
    - eapply RowsOk_update; [apply (inv_rows _ _ _ Hx)|exact Hi|done|]. simpl. by rewrite Hf. }
  assert (Hload : status s = WAITING_FOR_REMOTE_KVS) by (destruct Hms; congruence). clear Hms.
  unfold StatusOk in Hst. rewrite Hload in Hst.
  destruct Hst as ([P1 P2 P3 P4 P5] & [Hpub1 Hpub2] & Hlim & Hpub3).
  (* the state once the load's outcome is recorded *)
  assert (Hend : forall x1 s1 m1, heap x1 = <[i := s1]> (heap x) -> block_manager x1 = m1 ->
    config x1 = config x -> connector x1 = connector x -> waiting x1 = waiting x ->
    running x1 = running x -> seqs x1 = seqs x -> recving x1 = delete r (recving x) ->
    sending x1 = sending x -> MemOk m1 (<[i := s1]> (heap x)) ->
    (exists n p, s1 = s <| num_cached_tokens := n |> <| num_published_blocks := p |>) ->
    (0 <= num_cached_tokens s1 < num_tokens s)%Z -> PublishedOk s1 ->
    wp (set_seq i (fun s => s <| status := RUNNING |>);;;
        modify (fun x => x <| running ::= fun r => r ++ [i] |>)) x1
      (fun _ x' => Inv x' (running x') rows /\ recving x' = delete r (recving x) /\
        (exists l, running x' = running x ++ l) /\ KeepsActive x x')).
  { intros x1 s1 m1 Hh Hb Hc Hcn Hw Hrn Hsq Hrc Hsd Hm1 (n & p & Hs1) Hca Hpb. wp_step.
    eapply wp_set_seq; [rewrite Hh; apply lookup_insert_eq|]. wp_steps. simpl. rewrite Hrn, Hrc.
    split_and!; [|done|by exists [i]|eapply (Hkeep (s1 <| status := RUNNING |>)); simpl; [by rewrite Hh, insert_insert_eq|done]].
    eapply (Inv_move x (running x) rows i s _ _ (s1 <| status := RUNNING |>)); simpl; try done.
    - by rewrite Hh, insert_insert_eq.
    - by rewrite Hcn.
    - by subst s1.
    - rewrite Hb, Hh, insert_insert_eq, <-(insert_insert_eq (heap x) i _ s1).
      eapply MemOk_same; [exact Hm1|apply lookup_insert_eq|]. repeat split. subst s1; simpl. lia.
    - pose proof (reg_loaded (meta (heap x)) (registry x (running x)) i (meta_of s)
        (inv_reg _ _ _ Hx) (meta_lookup _ _ _ Hi) (running x ++ [i]) Hload) as Hreg.
      unfold registry, update_field in *; simpl in *. rewrite Hw, Hsq, Hrc, Hsd, <-Hmr.
      apply Hreg. by rewrite Permutation_app_comm.
    - split.
      + unfold StatusOk; simpl. subst s1. simpl in *. rewrite P1.
        split_and!; [by constructor|exact Hpb|exact Hlim].
      + destruct (inv_remote _ _ _ Hx i s Hi) as [Hkv Hre]. split; [by subst s1|].
        intros Hsome Hwant. exfalso. destruct (Hre Hsome) as [[? _]|?]; [by subst s1|congruence..].
    - rewrite Hh, Hrc, Hsd, insert_insert_eq.
      eapply HeldOk_insert; [apply (inv_held _ _ _ Hx)| |done|done].
      intros r' k Hk Hr'. rewrite lookup_delete_ne; [done|]. intros He. congruence.
    - subst s1; simpl. lia.
    - intros _. subst s1; simpl. by rewrite (inv_pending _ _ _ Hx i s Hi) by congruence. }
  apply wp_bind. apply wp_when; intros Hin.
  - wp_steps. eapply wp_set_seq; [exact Hi|]. wp_steps. simpl.
    eapply wp_get_seq; [simpl; apply lookup_insert_eq|]. simpl.
    eapply wp_on_blocks; [simpl; apply lookup_insert_eq|]. simpl.
    set (s2 := s <| num_cached_tokens := (num_prompt_tokens s - 1)%Z |>).
    assert (Hwf2 : SeqWf s2) by (destruct Hwf; by constructor).
    pose proof (wf_prompt _ Hwf) as Hprompt.
    wp_call (hash_blocks_spec _ (others (heap x) i)).
    { exact (mem_inv_at _ _ i s (inv_mem _ _ _ Hx) Hi). }
    { apply (mem_cfg _ _ (inv_mem _ _ _ Hx)). }
    { eapply TableOk_same; [| | | |exact (mem_table_at _ _ i s (inv_mem _ _ _ Hx) Hi)]; done. }
    { exact Hwf2. }
    { simpl. transitivity ((Zlen (block_table s) * block_size) / block_size)%Z;
        [apply Z.div_le_mono; lia|]. rewrite Z.div_mul by lia. done. }
    intros [] [m3 s3] (Hs3 & Hi3 & Hf3 & Ht3). simpl in *.
    set (pub := num_published_blocks s3).
    assert (Hpubeq : s3 = s2 <| num_published_blocks := pub |>) by (unfold pub; by rewrite Hs3).
    assert (Hpub : (pub * block_size <= num_prompt_tokens s - 1)%Z).
    { unfold pub. rewrite Hs3. simpl.
      pose proof (Z.mul_div_le (Z.min (num_prompt_tokens s - 1) (num_tokens s)) block_size Hbs).
      destruct enable_prefix_caching; [|lia].
      match goal with |- context [Z.max ?a ?b] => destruct (Z.max_spec a b) as [[_ ->]|[_ ->]] end; lia. }
    eapply (Hend _ s3 m3); simpl; rewrite ?insert_insert_eq; try done.
    + eapply MemOk_update; [apply (inv_mem _ _ _ Hx)|exact Hi|by subst s3|destruct Hwf2; subst s3; by constructor| | |];
        rewrite Hpubeq; simpl; [exact Hi3|exact Hf3|]. rewrite <-Hpubeq. exact Ht3.
    + by eexists _, _.
    + rewrite Hpubeq. simpl. lia.
    + rewrite Hpubeq. unfold PublishedOk; simpl. lia.
  - eapply (Hend _ s (block_manager x)); simpl; try done.
    + by rewrite insert_id.
    + rewrite insert_id by done. apply (inv_mem _ _ _ Hx).
    + exists (num_cached_tokens s), (num_published_blocks s). by destruct s.
Qed.

Lemma update_spec x rows o :
  Inv x (running x) rows ->
  (forall r, r ∈ finished_recving o ∪ failed_recving o -> is_Some (recving x !! r)) ->
  wp (update_from_kv_connector_output o) x (fun _ x' => Inv x' (running x') rows /\
    (exists l, running x' = running x ++ l) /\ KeepsActive x x').
Proof.
  intros Hx Hin. unfold update_from_kv_connector_output. wp_step.
  pose (I1 := fun (_ : list string) (x' : Sch) => Inv x' (running x') rows /\
    recving x' = recving x /\ (exists l, running x' = running x ++ l) /\ KeepsActive x x').
  eapply wp_mono; [apply (wp_for_each _ _ _ I1)|].
  - unfold I1. split_and!; [done|done|exists []; by rewrite app_nil_r|by intros ? ? ?].
  - intros done_ r rest x1 _ (Hx1 & Hrc & [l Hl] & Hk). wp_call finish_sending_spec; [done|].
    intros [] x2 (Hx2 & _ & Hrc2 & Hrun2 & Hk2). unfold I1.
    split_and!; [done|congruence|exists l; congruence|].
    intros i s Hi Hs. apply Hk2; [by apply Hk|done].
  - intros [] x1 (Hx1 & Hrc & Hl & Hk).
    pose (I2 := fun (done_ : list string) (x' : Sch) => Inv x' (running x') rows /\
      (forall r, r ∉ done_ -> recving x' !! r = recving x !! r) /\
      (exists l, running x' = running x ++ l) /\ KeepsActive x x').
    pose proof (NoDup_elements (finished_recving o ∪ failed_recving o)) as Hnd.
    rewrite <-set_order_perm in Hnd.
    eapply wp_mono; [apply (wp_for_each _ _ _ I2)|].
    + unfold I2. split_and!; [done|by rewrite Hrc|done|done].
    + intros done_ r rest x2 Hlst (Hx2 & Hrc2 & [l Hl2] & Hk2).
      rewrite Hlst in Hnd. destruct (NoDup_mid _ _ _ Hnd) as (Hnin & _ & _).
      wp_call finish_recving_spec; [done| |].
      { rewrite Hrc2 by done. apply Hin, elem_of_elements. rewrite <-set_order_perm, Hlst. set_solver. }
      intros [] x3 (Hx3 & Hrc3 & [l3 Hl3] & Hk3). unfold I2. split_and!; [done| | |].
      * intros r' Hr'. rewrite Hrc3, lookup_delete_ne by set_solver. apply Hrc2. set_solver.
      * exists (l ++ l3). by rewrite Hl3, Hl2, app_assoc.
      * intros i s Hi Hs. apply Hk3; [by apply Hk2|done].
    + intros [] x2 (Hx2 & _ & Hl2 & Hk2). done.
Qed.

End Launch.
