(* ===== verification/ReconcileFacts.v ===== *)
(** * [reconcile] keeps the invariant

    Committing the sampled tokens, giving back the slots of rejected drafts,
    and ending the requests that stop. [commit_upto] is the reference for the
    loop over one row's tokens. *)

From S2P Require Import Prelude Output Sequence BlockManager BlockManagerFacts Policy KVBase Scheduler Lifecycle.
From S2P Require Import SchedulerInv SchedulerSteps ScheduleFacts AdmitFacts LaunchFacts.

Section Reconcile.
Context `{SeqSettings} `{!SettingsOk} `{SetOrder}.
Context {Q C : Type} `{SchedulingPolicyLaws Q} `{KVConnectorLaws C}.
Variable clock : nat -> Qc.
Local Abbreviation Sch := (Scheduler Q C).
Implicit Types x : Sch.

(** ** Committing a row's tokens *)

Definition commit1 (t : Z) (s : Sequence) : Sequence :=
  (committed t s) <| num_new_tokens ::= Z.add 1 |>.

(** The sequence after its tokens up to the first that stops it, and why it
    stopped. *)
Fixpoint commit_upto (e : Z) (s : Sequence) (toks : list Z) : Sequence * option string :=
  match toks with
  | [] => (s, None)
  | t :: toks' =>
      let s' := commit1 t s in
      match stop_reason e s' t with
      | Some r => (s', Some r)
      | None => commit_upto e s' toks'
      end
  end.

Lemma commit1_wf s t : SeqWf s -> (0 < num_pending_tokens s)%Z -> SeqWf (commit1 t s).
Proof. intros Hwf Hp. destruct (committed_wf s t Hwf Hp). by constructor. Qed.

Lemma commit_tokens_run i toks x s :
  heap x !! i = Some s -> SeqWf s -> (Zlen toks <= num_pending_tokens s)%Z ->
  wp (commit_tokens i toks) x (fun r x' =>
    r = (commit_upto (eos (config x)) s toks).2 /\
    x' = x <| heap ::= <[i := (commit_upto (eos (config x)) s toks).1]> |>).
Proof.
  revert x s. induction toks as [|t toks IH]; intros x s Hi Hwf Hlen; simpl.
  { wp_step. split; [done|]. destruct x; unfold update_field; simpl in *. by rewrite insert_id. }
  unfold Zlen in Hlen; simpl in Hlen.
  wp_step. eapply wp_on_seq; [exact Hi|]. eapply run_wp; [apply commit_token_spec; [done|lia]|].
  wp_step. eapply wp_set_seq; [simpl; apply lookup_insert_eq|]. rewrite put_put. fold (commit1 t s). wp_step.
  eapply wp_get_seq; [simpl; apply lookup_insert_eq|]. wp_steps. simpl.
  destruct (stop_reason (eos (config x)) (commit1 t s) t) as [r|]; [by wp_step|].
  wp_call (IH _ (commit1 t s)).
  - simpl. apply lookup_insert_eq.
  - apply commit1_wf; [done|lia].
  - unfold commit1; simpl. unfold Zlen; lia.
  - simpl. intros r x' [-> ->]. split; [done|]. by rewrite put_put.
Qed.

(** What the committed sequence keeps of the original. *)
Record CommitOk (e : Z) (s s' : Sequence) (toks : list Z) (r : option string) (k : nat) : Prop := {
  co_le : k <= length toks;
  co_pos : toks <> [] -> 0 < k;
  co_tokens : token_ids s' = token_ids s ++ take k toks;
  co_num : num_tokens s' = (num_tokens s + Z.of_nat k)%Z;
  co_pending : num_pending_tokens s' = (num_pending_tokens s - Z.of_nat k)%Z;
  co_new : num_new_tokens s' = (num_new_tokens s + Z.of_nat k)%Z;
  co_wf : SeqWf s';
  co_same : meta_of s' = meta_of s /\ num_prompt_tokens s' = num_prompt_tokens s /\
    num_cached_tokens s' = num_cached_tokens s /\ num_published_blocks s' = num_published_blocks s /\
    block_table s' = block_table s /\ is_prefill s' = is_prefill s /\ max_tokens s' = max_tokens s /\
    num_preemptions s' = num_preemptions s /\ kv_transfer_params s' = kv_transfer_params s /\
    spec_token_ids s' = spec_token_ids s /\ first_token_time s' = first_token_time s /\
    finish_reason s' = finish_reason s;
  co_all : r = None -> k = length toks;
  co_stop : forall t, toks !! pred k = Some t -> stop_reason e s' t = r
}.

Lemma commit_upto_ok e s toks :
  SeqWf s -> (Zlen toks <= num_pending_tokens s)%Z ->
  exists k, CommitOk e s (commit_upto e s toks).1 toks (commit_upto e s toks).2 k.
Proof.
  revert s. induction toks as [|t toks IH]; intros s Hwf Hlen.
  { exists 0. constructor; simpl; try done; try lia. by rewrite app_nil_r. }
  unfold Zlen in Hlen; simpl in Hlen. simpl.
  pose proof (commit1_wf s t Hwf ltac:(lia)) as Hwf1.
  destruct (stop_reason e (commit1 t s) t) as [r|] eqn:Hst; simpl.
  { exists 1. constructor; simpl; try done; try lia. intros t' [= <-]. done. }
  destruct (IH (commit1 t s) Hwf1) as (k & [A B D E F G I J K L]).
  { unfold commit1; simpl. unfold Zlen; lia. }
  exists (S k). constructor; simpl; try done; try lia.
  - rewrite D. simpl. by rewrite <-app_assoc.
  - rewrite E. simpl. lia.
  - rewrite F. simpl. lia.
  - rewrite G. simpl. lia.
  - intros Hn. by rewrite (K Hn).
  - intros t' Ht'. destruct k as [|k].
    + simpl in Ht'. injection Ht' as <-. destruct toks as [|t2 toks]; simpl in *; [done|].
      exfalso. assert (0 < 0) by (by apply B). lia.
    + simpl in *. by apply L.
Qed.

(** ** Tables of a longer sequence *)

Lemma expected_hashes_app (ts k : list Z) i :
  i < num_full_blocks ts -> expected_hashes (ts ++ k) !! i = expected_hashes ts !! i.
Proof.
  intros Hi. unfold expected_hashes. destruct enable_prefix_caching; [|done].
  pose proof (num_full_blocks_le ts) as Hle.
  assert (Hlt : i < num_full_blocks (ts ++ k)).
  { eapply Nat.lt_le_trans; [exact Hi|]. unfold num_full_blocks.
    apply Nat.Div0.div_le_mono. rewrite length_app. lia. }
  rewrite !chain_hashes_lookup by done. rewrite chain_hashes_app; [done|]. nia.
Qed.

Lemma TableOk_extend m refs s s' k :
  TableOk m refs s -> SeqWf s -> SeqWf s' -> token_ids s' = token_ids s ++ k ->
  block_table s' = block_table s -> num_published_blocks s' = num_published_blocks s ->
  (num_published_blocks s * block_size <= num_tokens s)%Z ->
  TableOk m refs s'.
Proof.
  intros [Hp Hb] Hwf Hwf' Ht Htab Hpub Hle. pose proof block_size_pos as Hbs.
  constructor; rewrite ?Htab, ?Hpub; [done|]. intros i j Hij.
  destruct (Hb i j Hij) as (b & Hbj & Hc). exists b. split; [done|].
  destruct (Z.ltb_spec (Z.of_nat i) (num_published_blocks s)) as [Hlt|]; [|done].
  assert (Hfull : S i * Z.to_nat block_size <= length (token_ids s)).
  { rewrite (wf_len _ Hwf) in Hle. unfold Zlen in Hle. nia. }
  assert (Hnf : i < num_full_blocks (token_ids s)).
  { apply Nat.div_le_lower_bound; [lia|]. lia. }
  destruct Hc as [Hh Hbt]. split.
  - rewrite (wf_hashes _ Hwf'), Ht, expected_hashes_app by done. by rewrite <-(wf_hashes _ Hwf).
  - rewrite Ht, block_at_app by done. done.
Qed.

(** ** Void rows *)

Lemma RowsOk_void h row rows s :
  RowsOk h (row :: rows) -> h !! row_seq row = Some s ->
  status s = FINISHED \/ num_preemptions s <> row_num_preemptions row -> RowsOk h rows.
Proof.
  intros [Hk Hp] Hs Hv. constructor.
  - intros r Hr. apply Hk. by constructor.
  - intros i si Hi Hf. rewrite (Hp i si Hi Hf), reserved_cons, decide_False; [lia|].
    intros [He Hn]. subst i. assert (si = s) by congruence. subst si. destruct Hv; congruence.
Qed.

Lemma Inv_void x run row rows s :
  Inv x run (row :: rows) -> heap x !! row_seq row = Some s ->
  status s = FINISHED \/ num_preemptions s <> row_num_preemptions row -> Inv x run rows.
Proof.
  intros [A B D E F G] Hs Hv. constructor; try done. by eapply RowsOk_void.
Qed.

(** ** One row *)

Definition giveback (n : Z) (s : Sequence) : Sequence :=
  s <| num_cached_tokens ::= fun k => (k - n)%Z |> <| num_pending_tokens ::= fun k => (k - n)%Z |>
    <| num_new_tokens := 0%Z |>.

(** A live sequence with a valid row decodes. *)
Lemma valid_row_decodes x run row rows s :
  Inv x run (row :: rows) -> heap x !! row_seq row = Some s -> status s <> FINISHED ->
  num_preemptions s = row_num_preemptions row ->
  status s = RUNNING /\ is_prefill s = false /\ (0 <= row_num_draft_tokens row)%Z /\
  (1 + row_num_draft_tokens row <= num_pending_tokens s)%Z.
Proof.
  intros Hx Hi Hst Hpr. pose proof (inv_pending _ _ _ Hx _ s Hi Hst) as Hp.
  destruct (rows_known _ _ (inv_rows _ _ _ Hx) row) as [Hd _]; [by constructor|].
  rewrite reserved_cons, decide_True in Hp by (split; congruence).
  assert (0 <= reserved rows (row_seq row) (num_preemptions s))%Z as Hn.
  { apply reserved_nonneg. intros r Hr. apply (rows_known _ _ (inv_rows _ _ _ Hx)). by constructor. }
  pose proof (inv_status _ _ _ Hx _ s Hi) as Hs. unfold StatusOk in Hs.
  destruct (status s) eqn:Est; try done.
  - lia.
  - destruct Hs as ([_ P2 _ _ _] & _). lia.
  - split; [done|]. destruct (is_prefill s); [destruct Hs as ([_ P2 _ _ _] & _); lia|].
    split_and!; [done|done|lia].
Qed.

Lemma RowsOk_commit h row rows s s' :
  RowsOk h (row :: rows) -> h !! row_seq row = Some s -> status s <> FINISHED ->
  num_preemptions s = row_num_preemptions row -> num_preemptions s' = num_preemptions s ->
  num_pending_tokens s' = (num_pending_tokens s - (1 + row_num_draft_tokens row))%Z ->
  RowsOk (<[row_seq row := s']> h) rows.
Proof.
  intros [Hk Hp] Hi Hst Hpr Hpr' Hpe. constructor.
  - intros r Hr. destruct (Hk r) as (? & sr & Hsr & ?); [by constructor|]. split; [done|].
    destruct (decide (row_seq r = row_seq row)) as [He|He].
    + exists s'. rewrite He, lookup_insert_eq. split; [done|].
      assert (sr = s) by congruence. subst sr. lia.
    + exists sr. by rewrite lookup_insert_ne.
  - intros k sk [[<- <-]|[Hne Hk']]%lookup_insert_Some Hf.
    + pose proof (Hp _ s Hi Hst) as Hps. rewrite reserved_cons, decide_True in Hps by (split; congruence).
      rewrite Hpr'. lia.
    + rewrite (Hp k sk Hk' Hf), reserved_cons, decide_False; [lia|]. by intros [? _].
Qed.

(** What a processed row makes of its sequence, for the tokens [new]. *)
Definition row_result (e : Z) (row : LaunchedRow) (new : list Z) (s : Sequence) : Sequence * option string :=
  commit_upto e (giveback (row_num_draft_tokens row - (Zlen new - 1)) s) new.

Record RowDone (e : Z) (row : LaunchedRow) (new : list Z) (s s' : Sequence) : Prop := {
  rd_tokens : token_ids s' = token_ids (row_result e row new s).1;
  rd_new : num_new_tokens s' = num_new_tokens (row_result e row new s).1;
  rd_status : status s' = if (row_result e row new s).2 is Some _ then FINISHED else RUNNING;
  rd_reason : finish_reason s' =
    match (row_result e row new s).2 with Some r => Some r | None => finish_reason s end;
  rd_count : exists k, 0 < k <= length new /\ token_ids s' = token_ids s ++ take k new /\
    num_new_tokens s' = Z.of_nat k;
  rd_id : request_id s' = request_id s
}.

(** The number of tokens a row may bring. *)
Definition RowTokens (row : LaunchedRow) (new : list Z) : Prop :=
  (1 <= Zlen new <= 1 + row_num_draft_tokens row)%Z.

Definition row_valid (row : LaunchedRow) (s : Sequence) : bool :=
  negb (is_finished s || negb (num_preemptions s =? row_num_preemptions row)%Z).

Lemma committed_mem x run rows i s s2 e new r k n :
  Inv x run rows -> heap x !! i = Some s -> status s = RUNNING ->
  CommitOk e (giveback n s) s2 new r k -> MemOk (block_manager x) (<[i := s2]> (heap x)).
Proof.
  intros Hx Hi Hst Hco. pose proof (inv_mem _ _ _ Hx) as Hm.
  destruct (mem_seq _ _ Hm i s Hi) as (Hid & Hwf & Ht).
  destruct (co_same _ _ _ _ _ _ Hco) as (Hmeta & _ & _ & Hpub & Htab & _).
  pose proof (inv_status _ _ _ Hx i s Hi) as Hs. unfold StatusOk in Hs. rewrite Hst in Hs.
  destruct Hs as (_ & [_ Hle] & _).
  eapply MemOk_update; [exact Hm|exact Hi| |apply (co_wf _ _ _ _ _ _ Hco)|..]; rewrite ?Htab.
  - injection Hmeta as Hq _ _ _ _. by rewrite Hq.
  - exact (mem_inv_at _ _ i s Hm Hi).
  - by apply Frame_refl.
  - eapply (TableOk_extend _ _ s); [exact (mem_table_at _ _ i s Hm Hi)|done|apply (co_wf _ _ _ _ _ _ Hco)|
      rewrite (co_tokens _ _ _ _ _ _ Hco); done|done|done|done].
Qed.

(** A request that goes on: its sequence still decodes. *)
Lemma committed_decodes x run row rows s s2 e new k :
  let n := (row_num_draft_tokens row - (Zlen new - 1))%Z in
  Inv x run (row :: rows) -> heap x !! row_seq row = Some s -> status s = RUNNING ->
  is_prefill s = false -> RowTokens row new ->
  (1 + row_num_draft_tokens row <= num_pending_tokens s)%Z ->
  CommitOk e (giveback n s) s2 new None k ->
  StatusOk s2 /\ num_pending_tokens s2 = (num_pending_tokens s - (1 + row_num_draft_tokens row))%Z.
Proof.
  intros n Hx Hi Hst Hpf [Ht1 Ht2] Hpe Hco.
  pose proof (inv_status _ _ _ Hx _ s Hi) as Hs. unfold StatusOk in Hs. rewrite Hst, Hpf in Hs.
  destruct Hs as ([_ D2 D3] & [Hp1 Hp2] & [Hl1 Hl2]).
  pose proof (co_all _ _ _ _ _ _ Hco eq_refl) as Hk.
  pose proof (co_pending _ _ _ _ _ _ Hco) as Hpe2. pose proof (co_num _ _ _ _ _ _ Hco) as Hn2.
  destruct (co_same _ _ _ _ _ _ Hco) as (S1 & S2 & S3 & S4 & S5 & S6 & S7 & _).
  assert (Hst2 : status s2 = RUNNING) by (injection S1; simpl; congruence).
  assert (Hlen : Zlen new = Z.of_nat k) by (unfold Zlen; lia).
  unfold giveback in *; simpl in *. unfold num_planned_tokens, num_completion_tokens in *.
  assert (Hmax : (num_tokens s2 - num_prompt_tokens s2 <> max_tokens s2)%Z).
  { destruct (lookup_lt_is_Some_2 new (pred k)) as [t Ht]; [lia|].
    pose proof (co_stop _ _ _ _ _ _ Hco t Ht) as Hstop. unfold stop_reason in Hstop.
    case_match; [done|]. unfold num_completion_tokens in Hstop.
    by destruct (Z.eqb_spec (num_tokens s2 - num_prompt_tokens s2) (max_tokens s2)). }
  split; [|lia]. unfold StatusOk. rewrite Hst2, S6, Hpf.
  unfold PublishedOk, LimitOk, num_completion_tokens, num_planned_tokens.
  rewrite S3, S4. split_and!; try lia.
  constructor; unfold num_planned_tokens; rewrite ?S3, ?S5; [congruence|lia|lia].
Qed.

(** [x2] is [x] with sequence [i] replaced by [s2], and a later clock. *)
Record Put (x x2 : Sch) (i : nat) (s2 : Sequence) : Prop := {
  put_heap : heap x2 = <[i := s2]> (heap x);
  put_bm : block_manager x2 = block_manager x;
  put_config : config x2 = config x;
  put_conn : connector x2 = connector x;
  put_waiting : waiting x2 = waiting x;
  put_running : running x2 = running x;
  put_seqs : seqs x2 = seqs x;
  put_recving : recving x2 = recving x;
  put_sending : sending x2 = sending x
}.

Lemma Put_set x x2 i s2 s3 : Put x x2 i s2 -> Put x (x2 <| heap ::= <[i := s3]> |>) i s3.
Proof. intros [A B D E F G I J K]. constructor; simpl; try done. by rewrite A, insert_insert_eq. Qed.

Section Row.
Context (x : Sch) (row : LaunchedRow) (rows : list LaunchedRow) (s s2 : Sequence)
  (new : list Z) (r : option string) (kk : nat).
Let i := row_seq row.
Let n := (row_num_draft_tokens row - (Zlen new - 1))%Z.
Hypothesis Hx : Inv x (running x) (row :: rows).
Hypothesis Hi : heap x !! i = Some s.
Hypothesis Hst : status s = RUNNING.
Hypothesis Hpf : is_prefill s = false.
Hypothesis Hn : num_preemptions s = row_num_preemptions row.
Hypothesis Htok : RowTokens row new.
Hypothesis Hpe : (1 + row_num_draft_tokens row <= num_pending_tokens s)%Z.
Hypothesis Hco : CommitOk (eos (config x)) (giveback n s) s2 new r kk.

Lemma row_mem s4 : SameMemory s2 s4 -> MemOk (block_manager x) (<[i := s4]> (heap x)).
Proof.
  intros Hs4. rewrite <-(insert_insert_eq (heap x) _ s4 s2).
  eapply MemOk_same; [|apply lookup_insert_eq|done].
  exact (committed_mem _ _ _ _ _ _ _ _ _ _ _ Hx Hi Hst Hco).
Qed.

(** No token stops the request: it keeps decoding. *)
Lemma row_goes_on x' s4 :
  r = None -> Put x x' i s4 ->
  (exists t d, s4 = s2 <| first_token_time := t |> <| spec_token_ids := d |>) ->
  Inv x' (running x') rows.
Proof.
  intros Hr [Hh Hb Hc Hcn Hw Hrun Hsq Hrc Hsd] (t & d & Hs4).
  pose proof Hco as Hco0. rewrite Hr in Hco0.
  destruct (committed_decodes _ _ _ _ _ _ _ _ _ Hx Hi Hst Hpf Htok Hpe Hco0) as [Hst2 Hpend2].
  pose proof (co_same _ _ _ _ _ _ Hco) as (S1 & _ & _ & _ & S5 & S6 & _ & S8 & S9 & _).
  assert (Hs2 : status s2 = RUNNING) by (injection S1; simpl; congruence).
  rewrite Hrun. eapply (Inv_keep x (running x) (row :: rows) rows i s x' s4); try done.
  - congruence.
  - by rewrite Hcn.
  - rewrite Hb, Hh. apply row_mem. subst s4. repeat split. simpl.
    apply (wf_pending _ (co_wf _ _ _ _ _ _ Hco)).
  - subst s4. exact S1.
  - split.
    + unfold StatusOk in *. subst s4. simpl. rewrite Hs2, S6 in *. simpl in *. rewrite Hpf in *.
      destruct Hst2 as ([Q1 Q2 Q3] & Hq & Hl). split_and!; [by constructor|exact Hq|exact Hl].
    + destruct (inv_remote _ _ _ Hx _ s Hi) as [Hkv Hre]. subst s4. split; [simpl; by rewrite S9|].
      intros Hsome Hwant. exfalso. unfold wants_remote_prefill in Hwant; simpl in Hwant.
      rewrite S9 in Hwant. destruct (Hre Hsome Hwant) as [[? _]|?]; congruence.
  - rewrite Hh. eapply RowsOk_commit; [apply (inv_rows _ _ _ Hx)|exact Hi|congruence|done| |].
    + subst s4. simpl. by rewrite S8.
    + subst s4. done.
Qed.

(** A token stops it: it leaves the running sequences. *)
Lemma row_finishes x2 t reason :
  Put x x2 i (s2 <| first_token_time := t |>) ->
  wp (on_seq i drop_pending;;; remove_running i;;; drop clock i reason;;; free i) x2
    (fun _ x' => Inv x' (running x') rows /\ config x' = config x /\
      exists s', heap x' = <[i := s']> (heap x) /\ token_ids s' = token_ids s2 /\
        num_new_tokens s' = num_new_tokens s2 /\ status s' = FINISHED /\
        finish_reason s' = Some reason /\ request_id s' = request_id s).
Proof.
  intros [Hh Hb Hc Hcn Hw Hrun Hsq Hrc Hsd].
  pose proof (co_same _ _ _ _ _ _ Hco) as (S1 & _ & _ & _ & _ & _ & _ & S8 & S9 & _).
  assert (Hmr : request_id s2 = request_id s) by (injection S1; done).
  wp_steps. eapply wp_on_seq; [by rewrite Hh, lookup_insert_eq|]. unfold drop_pending. wp_steps. simpl.
  wp_call remove_running_run.
  { simpl. rewrite Hrun. by apply (running_in _ (registry x (running x)) _ (meta_of s) (inv_reg _ _ _ Hx));
      [apply meta_lookup|]. }
  intros [] x3 (l' & Hp & ->). simpl in Hp. rewrite Hrun in Hp. wp_steps.
  wp_call drop_run; simpl; [apply lookup_insert_eq| |].
  { simpl. rewrite Hsq, Hmr. eapply inv_live_back; [exact Hx|exact Hi|congruence]. }
  intros [] x4 [tf ->]. wp_steps.
  match goal with |- context [dropped_seq ?r ?t ?s] => set (s5 := dropped_seq r t s) end.
  wp_call (free_spec i _ s5); simpl; rewrite ?Hh, ?insert_insert_eq, ?Hb;
    [apply lookup_insert_eq|apply row_mem; repeat split; done|].
  intros [] x5 (s6 & hold & Hfr).
  pose proof (fr_running _ _ _ _ _ _ Hfr) as Hrun5. simpl in Hrun5.
  pose proof (fr_heap _ _ _ _ _ _ Hfr) as Hh5. simpl in Hh5. rewrite Hh, !insert_insert_eq in Hh5.
  pose proof (fr_meta _ _ _ _ _ _ Hfr) as Hmm. injection Hmm as _ _ _ Hrid Hss.
  split_and!.
  - rewrite Hrun5.
    assert (Hx5 : Inv x5 l' (row :: rows)).
    { eapply finished_inv; [exact Hx|exact Hi| |..|exact Hfr]; simpl;
        rewrite ?Hh, ?Hc, ?Hcn, ?Hrc, ?Hsd, ?Hsq, ?insert_insert_eq, ?Hmr; try done; try by left.
      unfold meta_of, with_status, item_of in *; simpl in *. injection S1 as -> -> -> -> _. done. }
    eapply Inv_void; [exact Hx5|unfold i in Hh5; rewrite Hh5; apply lookup_insert_eq|]. left. by rewrite Hss.
  - pose proof (fr_config _ _ _ _ _ _ Hfr) as Hc5. simpl in Hc5. congruence.
  - exists s6. rewrite (fr_tokens _ _ _ _ _ _ Hfr), (fr_new _ _ _ _ _ _ Hfr), (fr_reason _ _ _ _ _ _ Hfr).
    simpl in Hrid. split_and!; try done; congruence.
Qed.

End Row.

(** The end of the row's turn, from the state with the tokens committed. *)
Lemma row_ends x row rows (drafts : option (list (list Z))) (k : nat) s s2 new r kk x2 t :
  let i := row_seq row in let n := (row_num_draft_tokens row - (Zlen new - 1))%Z in
  Inv x (running x) (row :: rows) -> heap x !! i = Some s -> status s = RUNNING ->
  is_prefill s = false -> num_preemptions s = row_num_preemptions row -> RowTokens row new ->
  (1 + row_num_draft_tokens row <= num_pending_tokens s)%Z ->
  CommitOk (eos (config x)) (giveback n s) s2 new r kk ->
  (forall d, drafts = Some d -> is_Some (d !! k)) ->
  Put x x2 i (s2 <| first_token_time := t |>) ->
  wp (match r with
      | None => match drafts with
          | Some d => when (num_pending_tokens s2 =? 0)%Z
              (let! dr := or_raise (d !! k) IndexError in
               set_seq i (fun s => s <| spec_token_ids := dr |>))
          | None => ret tt
          end
      | Some r => on_seq i drop_pending;;; remove_running i;;; drop clock i r;;; free i
      end) x2
    (fun _ x' => Inv x' (running x') rows /\ config x' = config x /\
      exists s', heap x' = <[i := s']> (heap x) /\ token_ids s' = token_ids s2 /\
        num_new_tokens s' = num_new_tokens s2 /\
        status s' = (if r is Some _ then FINISHED else RUNNING) /\
        finish_reason s' = match r with Some r => Some r | None => finish_reason s end /\
        request_id s' = request_id s).
Proof.
  intros i n Hx Hi Hst Hpf Hn Htok Hpe Hco Hdr Hput. destruct r as [reason|].
  { eapply row_finishes; done. }
  pose proof (co_same _ _ _ _ _ _ Hco) as (S1 & _ & _ & _ & _ & _ & _ & _ & _ & _ & _ & S12).
  assert (Hs2 : status s2 = RUNNING) by (injection S1; simpl; congruence).
  assert (Hgo : forall x' d, Put x x' i (s2 <| first_token_time := t |> <| spec_token_ids := d |>) ->
    Inv x' (running x') rows /\ config x' = config x /\
    exists s', heap x' = <[i := s']> (heap x) /\ token_ids s' = token_ids s2 /\
      num_new_tokens s' = num_new_tokens s2 /\ status s' = RUNNING /\
      finish_reason s' = finish_reason s /\ request_id s' = request_id s).
  { intros x' d Hput'. split_and!; [|apply (put_config _ _ _ _ Hput')|].
    - eapply row_goes_on; try done. by eexists _, _.
    - eexists. split; [apply (put_heap _ _ _ _ Hput')|].
      split_and!; try done. simpl. by injection S1. }
  assert (Hsame : s2 <| first_token_time := t |> =
    s2 <| first_token_time := t |> <| spec_token_ids := spec_token_ids s2 |>) by by destruct s2.
  destruct drafts as [d|]; [apply wp_when; intros Hpz|wp_step].
  - destruct (Hdr d eq_refl) as [dr Hdk]. wp_step. eapply wp_or_raise; [exact Hdk|].
    eapply wp_set_seq; [by rewrite (put_heap _ _ _ _ Hput), lookup_insert_eq|].
    eapply Hgo, Put_set. exact Hput.
  - rewrite Hsame in Hput. by eapply Hgo.
  - rewrite Hsame in Hput. by eapply Hgo.
Qed.

Lemma reconcile_row_spec x row rows drafts k sampled :
  Inv x (running x) (row :: rows) ->
  (forall s, heap x !! row_seq row = Some s -> row_valid row s = true ->
     RowTokens row (new_token_ids sampled)) ->
  (forall d, drafts = Some d -> is_Some (d !! k)) ->
  wp (reconcile_row clock drafts k row sampled) x (fun done_ x' => exists s,
    heap x !! row_seq row = Some s /\ done_ = row_valid row s /\
    Inv x' (running x') rows /\ config x' = config x /\
    (forall i, i <> row_seq row -> heap x' !! i = heap x !! i) /\
    if done_ : bool then exists s', heap x' !! row_seq row = Some s' /\
      RowDone (eos (config x)) row (new_token_ids sampled) s s'
    else x' = x).
Proof.
  intros Hx Htok Hdr.
  destruct (rows_known _ _ (inv_rows _ _ _ Hx) row) as (Hd & s & Hi & _); [by constructor|].
  specialize (Htok s Hi). unfold reconcile_row. wp_step. eapply wp_get_seq; [exact Hi|].
  unfold row_valid in *. destruct (is_finished s || _) eqn:Hv; simpl in *.
  { wp_step. exists s. rewrite Hv. split_and!; try done. eapply Inv_void; [exact Hx|exact Hi|].
    apply orb_true_iff in Hv as [Hf%bool_decide_eq_true|Hn%negb_true_iff%Z.eqb_neq]; auto. }
  pose proof Hv as Hv'.
  apply orb_false_iff in Hv as [Hf%bool_decide_eq_false Hn%negb_false_iff%Z.eqb_eq].
  specialize (Htok eq_refl). set (new := new_token_ids sampled) in *.
  destruct (valid_row_decodes _ _ _ _ s Hx Hi Hf Hn) as (Hst & Hpf & _ & Hpe).
  destruct (inv_wf _ _ _ Hx _ s Hi) as [Hid Hwf].
  set (n := (row_num_draft_tokens row - (Zlen new - 1))%Z).
  wp_steps. eapply wp_set_seq; [exact Hi|]. fold (giveback n s). wp_steps.
  assert (Hwf1 : SeqWf (giveback n s)).
  { destruct Hwf; constructor; simpl; try done. destruct Htok. unfold n. lia. }
  assert (Hlen1 : (Zlen new <= num_pending_tokens (giveback n s))%Z) by (simpl; unfold n; lia).
  wp_call commit_tokens_run; [simpl; apply lookup_insert_eq|exact Hwf1|exact Hlen1|].
  simpl. intros r x1 [Hr ->].
  destruct (commit_upto_ok (eos (config x)) _ _ Hwf1 Hlen1) as (kk & Hco).
  change (commit_upto (eos (config x)) (giveback n s) new) with (row_result (eos (config x)) row new s) in *.
  rewrite <-Hr in Hco. set (s2 := (row_result (eos (config x)) row new s).1) in *.
  wp_steps. eapply wp_get_seq; [simpl; apply lookup_insert_eq|]. wp_steps.
  assert (Hend : forall x2 t, Put x x2 (row_seq row) (s2 <| first_token_time := t |>) ->
    wp (match r with
        | None => match drafts with
            | Some d => when (num_pending_tokens s2 =? 0)%Z
                (let! dr := or_raise (d !! k) IndexError in
                 set_seq (row_seq row) (fun s => s <| spec_token_ids := dr |>))
            | None => ret tt
            end
        | Some r => on_seq (row_seq row) drop_pending;;; remove_running (row_seq row);;;
            drop clock (row_seq row) r;;; free (row_seq row)
        end;;; ret true) x2
      (fun done_ x' => exists s0, heap x !! row_seq row = Some s0 /\
        done_ = negb (is_finished s0 || negb (num_preemptions s0 =? row_num_preemptions row)%Z) /\
        Inv x' (running x') rows /\ config x' = config x /\
        (forall i, i <> row_seq row -> heap x' !! i = heap x !! i) /\
        if done_ : bool then exists s', heap x' !! row_seq row = Some s' /\
          RowDone (eos (config x)) row new s0 s' else x' = x)).
  { intros x2 t Hput. wp_step. wp_call row_ends; [exact Hx|exact Hi|done|done|done|done|done|exact Hco|done|exact Hput|].
    intros [] x' (Hx' & Hc' & s' & Hh' & R1 & R2 & R3 & R4 & R5). wp_step. exists s. rewrite Hv'.
    split_and!; [done|done|done|done|intros j Hj; by rewrite Hh', lookup_insert_ne|].
    exists s'. split; [by rewrite Hh', lookup_insert_eq|]. constructor; try done; try by rewrite <-Hr. clear R5. exists kk. rewrite R1, R2, (co_tokens _ _ _ _ _ _ Hco), (co_new _ _ _ _ _ _ Hco).
    pose proof (co_le _ _ _ _ _ _ Hco). split_and!; [|done|done|done].
    apply (co_pos _ _ _ _ _ _ Hco). destruct new; [destruct Htok; unfold Zlen in *; simpl in *; lia|done]. }
  apply wp_when; intros Hft.
  - wp_steps. apply wp_perf_counter. eapply wp_set_seq; [simpl; apply lookup_insert_eq|].
    eapply (Hend _ (Some (clock (ticks x)))). constructor; simpl; rewrite ?insert_insert_eq; done.
  - eapply (Hend _ (first_token_time s2)). constructor; simpl; rewrite ?insert_insert_eq; try done.
    f_equal. by destruct s2.
Qed.

(** ** All the rows of a step *)

(** The sampled tokens suit the rows they are for. *)
Definition TokensOk (rows : list LaunchedRow) (toks : list (Z + list Z)) : Prop :=
  forall k row sampled, rows !! k = Some row -> toks !! k = Some sampled ->
    RowTokens row (new_token_ids sampled).

Lemma reconcile_rows_spec rows toks drafts k later x :
  Inv x (running x) (rows ++ later) -> TokensOk rows toks ->
  (forall d, drafts = Some d -> k + length rows <= length d) ->
  wp (reconcile_rows clock drafts k rows toks) x (fun done_ x' =>
    Inv x' (running x') (list.drop (length toks) rows ++ later) /\ config x' = config x /\
    done_ `sublist_of` (row_seq <$> rows) /\
    (forall i, i ∉ row_seq <$> rows -> heap x' !! i = heap x !! i)).
Proof.
  revert toks k x. induction rows as [|row rows IH]; intros toks k x Hx Ht Hd.
  { simpl. wp_step. rewrite drop_nil. split_and!; done. }
  destruct toks as [|sampled toks]; simpl.
  { wp_step. split_and!; [done|done|apply sublist_nil_l|done]. }
  wp_step. wp_call reconcile_row_spec; [exact Hx| | |].
  { intros s _ _. by apply (Ht 0). }
  { intros d Hdr. apply lookup_lt_is_Some_2. specialize (Hd d Hdr). simpl in Hd. lia. }
  intros done_ x1 (s & Hi & _ & Hx1 & Hc1 & Hout & _). wp_step.
  wp_call IH; [exact Hx1| | |].
  { intros k' r' s' Hr' Hs'. by apply (Ht (S k')). }
  { intros d Hdr. specialize (Hd d Hdr). simpl in Hd. lia. }
  intros rest x2 (Hx2 & Hc2 & Hsub & Hout2). wp_step. split_and!; [done|congruence| |].
  - destruct done_; by constructor.
  - intros i Hin. simpl in Hin. apply not_elem_of_cons in Hin as [Hne Hin].
    rewrite Hout2 by done. by apply Hout.
Qed.

Lemma reconcile_spec rows toks drafts later x :
  Inv x (running x) (rows ++ later) -> TokensOk rows toks -> length rows <= length toks ->
  (forall d, drafts = Some d -> length rows <= length d) ->
  wp (reconcile clock rows toks drafts) x (fun done_ x' =>
    Inv x' (running x') later /\ config x' = config x /\ done_ `sublist_of` (row_seq <$> rows) /\
    (forall i, i ∉ row_seq <$> rows -> heap x' !! i = heap x !! i)).
Proof.
  intros Hx Ht Hlen Hd. unfold reconcile. wp_call reconcile_rows_spec; [exact Hx|exact Ht|exact Hd|].
  intros done_ x' (Hx' & Hrest). rewrite drop_ge in Hx' by done. done.
Qed.

(** Row by row: the valid rows are processed, each with its own tokens, and
    no other sequence changes. The rows of one step are of distinct sequences. *)
Definition row_valid_in (x : Sch) (row : LaunchedRow) : bool :=
  match heap x !! row_seq row with Some s => row_valid row s | None => false end.

Definition RowsDone (x x' : Sch) (rows : list LaunchedRow) (toks : list (Z + list Z)) : Prop :=
  (forall i, i ∉ row_seq <$> rows -> heap x' !! i = heap x !! i) /\
  forall k row sampled s, rows !! k = Some row -> toks !! k = Some sampled ->
    heap x !! row_seq row = Some s ->
    if row_valid row s
    then exists s', heap x' !! row_seq row = Some s' /\
      RowDone (eos (config x)) row (new_token_ids sampled) s s'
    else heap x' !! row_seq row = Some s.

Lemma RowsDone_cons x x1 x2 row rows sampled toks s :
  heap x !! row_seq row = Some s -> row_seq row ∉ row_seq <$> rows -> config x1 = config x ->
  (forall i, i <> row_seq row -> heap x1 !! i = heap x !! i) ->
  (if row_valid row s
   then exists s', heap x1 !! row_seq row = Some s' /\ RowDone (eos (config x)) row (new_token_ids sampled) s s'
   else x1 = x) ->
  RowsDone x1 x2 rows toks -> RowsDone x x2 (row :: rows) (sampled :: toks).
Proof.
  intros Hs Hnin Hc Hout Hrow [Hout2 Hrows]. split.
  - intros i Hi. simpl in Hi. apply not_elem_of_cons in Hi as [Hne Hi]. rewrite Hout2 by done. by apply Hout.
  - intros [|k] row' sampled' s' Hk Hk' Hs'; simpl in *.
    + injection Hk as <-. injection Hk' as <-. assert (s' = s) by congruence. subst s'.
      rewrite Hout2 by done. destruct (row_valid row s); [done|]. by subst.
    + assert (Hne : row_seq row' <> row_seq row).
      { intros He. apply Hnin. rewrite <-He. apply list_elem_of_fmap_2, list_elem_of_lookup. eauto. }
      rewrite <-Hc. by apply (Hrows k row' sampled'); [| |rewrite Hout].
Qed.

Lemma reconcile_rows_exact rows toks drafts k later x :
  Inv x (running x) (rows ++ later) -> TokensOk rows toks -> NoDup (row_seq <$> rows) ->
  length rows <= length toks ->
  (forall d, drafts = Some d -> k + length rows <= length d) ->
  wp (reconcile_rows clock drafts k rows toks) x (fun done_ x' =>
    done_ = row_seq <$> filter (fun row => row_valid_in x row) rows /\ RowsDone x x' rows toks).
Proof.
  revert toks k x. induction rows as [|row rows IH]; intros toks k x Hx Ht Hnd Hlen Hd.
  { simpl. wp_step. split; [done|]. split; [done|]. intros k' row s s' Hk. by rewrite lookup_nil in Hk. }
  destruct toks as [|sampled toks]; simpl in *; [lia|]. apply NoDup_cons in Hnd as [Hnin Hnd].
  wp_step. wp_call reconcile_row_spec; [exact Hx| | |].
  { intros s _ _. by apply (Ht 0). }
  { intros d Hdr. apply lookup_lt_is_Some_2. specialize (Hd d Hdr). lia. }
  intros done_ x1 (s & Hi & Hdone & Hx1 & Hc1 & Hout & Hrow). wp_step.
  wp_call IH; [exact Hx1| |done|lia| |].
  { intros k' r' s' Hr' Hs'. by apply (Ht (S k')). }
  { intros d Hdr. specialize (Hd d Hdr). lia. }
  intros rest x2 (Hrest & Hdone2). wp_step. split.
  - assert (Hv : row_valid_in x row = done_) by (unfold row_valid_in; by rewrite Hi).
    rewrite filter_cons, Hv.
    assert (Hext : filter (fun row => row_valid_in x1 row) rows = filter (fun row => row_valid_in x row) rows).
    { apply filter_ext_in. intros r Hr. unfold row_valid_in. rewrite Hout; [done|].
      intros He. apply Hnin. rewrite <-He. by apply list_elem_of_fmap_2. }
    rewrite Hrest, Hext. by destruct done_.
  - eapply RowsDone_cons; [exact Hi|done|done|done| |done]. rewrite <-Hdone. by destruct done_.
Qed.

End Reconcile.
