(* ===== verification/SchedulerReach.v ===== *)
(** * Runs of the scheduler

    The scheduler as a state machine: its state with the rows of the launched
    steps that await their tokens, and the events the engine drives it with.
    Every reachable state satisfies the invariant. *)


From S2P Require Import Prelude Output Sequence BlockManager BlockManagerFacts Policy KVBase Scheduler Lifecycle.
From S2P Require Import SchedulerInv SchedulerSteps ScheduleFacts AdmitFacts LaunchFacts ReconcileFacts.

(** ** The block manager at the start *)

Lemma new_BlockManager_inv n bs caching hit :
  BMInv (new_BlockManager n bs caching hit) (fun _ => 0).
Proof.
  assert (Hb : forall j b, blocks (new_BlockManager n bs caching hit) !! j = Some b ->
    b = new_Block j /\ j < Z.to_nat n).
  { intros j b Hj. simpl in Hj. apply list_lookup_fmap_Some in Hj as (i & -> & Hi).
    apply lookup_seq in Hi as [-> Hlt]. split; [done|lia]. }
  constructor.
  - intros j b Hj. destruct (Hb j b Hj) as [-> _]. done.
  - intros j Hj. lia.
  - intros j. simpl. split; [set_solver|lia].
  - simpl. apply NoDup_seq.
  - intros j. simpl. rewrite elem_of_seq, length_fmap, length_seq. lia.
  - intros h j Hh. simpl in Hh. by rewrite lookup_empty in Hh.
Qed.

(** Every block is free or used, never both. *)
Lemma blocks_conserved m refs :
  BMInv m refs ->
  length (free_block_queue m) + size (used_block_ids m) = length (blocks m) /\
  forall j, j ∈ free_block_queue m -> j ∉ used_block_ids m.
Proof.
  intros Hi. assert (Hdisj : forall j, j ∈ free_block_queue m -> j ∉ used_block_ids m).
  { intros j Hj Hu. apply (inv_free _ _ Hi) in Hj as [_ H0]. apply (inv_used _ _ Hi) in Hu. lia. }
  split; [|done].
  assert (Hp : free_block_queue m ++ elements (used_block_ids m) ≡ₚ seq 0 (length (blocks m))).
  { apply NoDup_Permutation; [|apply NoDup_seq|].
    - apply NoDup_app. split; [apply (inv_free_nodup _ _ Hi)|]. split; [|apply NoDup_elements].
      intros j Hj. rewrite elem_of_elements. auto.
    - intros j. rewrite elem_of_app, elem_of_elements, elem_of_seq, (inv_free _ _ Hi), (inv_used _ _ Hi).
      split; [|lia]. intros [[? _]|Hj]; [lia|]. apply (inv_dom _ _ Hi) in Hj. lia. }
  apply Permutation_length in Hp. rewrite length_app, length_seq in Hp. exact Hp.
Qed.

Section Reach.
Context `{SeqSettings} `{!SettingsOk} `{SetOrder}.
Context {Q C : Type} `{SchedulingPolicyLaws Q} `{KVConnectorLaws C}.
Variable clock : nat -> Qc.
Local Abbreviation Sch := (Scheduler Q C).
Implicit Types x : Sch.

Lemma new_Scheduler_inv (c : SchedulerConfig) (q : Q) (conn : option C) :
  CfgOk c -> cfg_enable_prefix_caching c = enable_prefix_caching -> pol_iter q = [] ->
  Inv (new_Scheduler c q conn) [] [].
Proof.
  intros Hc Hcache Hq. constructor; simpl.
  - done.
  - constructor; simpl.
    + split; [apply (cfg_bs _ Hc)|done].
    + apply new_BlockManager_inv.
    + intros i s Hi. by rewrite lookup_empty in Hi.
  - unfold registry, meta; simpl. rewrite Hq, fmap_empty. apply RegOk_empty.
  - intros i s Hi. by rewrite lookup_empty in Hi.
  - intros i s Hi. by rewrite lookup_empty in Hi.
  - constructor; [intros r Hr; by apply elem_of_nil in Hr|].
    intros i s Hi. by rewrite lookup_empty in Hi.
Qed.

(** ** Events *)

(** A sequence as its constructor leaves it, with a request the engine lets
    through: it may generate, and its transfer parameters were checked. *)
Definition Fresh (x : Sch) (s : Sequence) : Prop :=
  heap x !! seq_id s = None /\ SeqWf s /\ status s = WAITING /\ num_preemptions s = 0%Z /\
  SeqOk (connector x) s.

(** Steps of the machine: its state is the scheduler with the rows of each
    launched step, oldest first. *)
Inductive sched_step : Sch * list (list LaunchedRow) -> Sch * list (list LaunchedRow) -> Prop :=
| step_add x x' flight s :
    Fresh x s -> add s x = (inr tt, x') -> sched_step (x, flight) (x', flight)
| step_abort x x' flight r reason b :
    abort clock r reason x = (inr b, x') -> sched_step (x, flight) (x', flight)
| step_launch x x1 x2 x3 flight o report rows :
    schedule clock x = (inr o, x1) ->
    (forall r, r ∈ finished_recving report ∪ failed_recving report -> is_Some (recving x1 !! r)) ->
    update_from_kv_connector_output report x1 = (inr tt, x2) ->
    advance (scheduled o) x2 = (inr rows, x3) ->
    sched_step (x, flight) (x3, flight ++ [rows])
| step_reconcile x x' flight rows toks drafts done_ :
    TokensOk rows toks -> length rows <= length toks ->
    (forall d, drafts = Some d -> length rows <= length d) ->
    reconcile clock rows toks drafts x = (inr done_, x') ->
    sched_step (x, rows :: flight) (x', flight).

(** After a report, the sequences a step scheduled are as it left them. *)
Lemma scheduled_after_update x x' o x0 :
  ScheduleOk x0 x o -> KeepsActive x x' ->
  NoDup (scheduled o) /\
  Forall (fun i => exists s, heap x' !! i = Some s /\ ScheduledOk s) (scheduled o).
Proof.
  intros Ho Hk.
  assert (Hall : forall P, OutputOk P x o -> NoDup (scheduled o) /\
    Forall (fun i => exists s, heap x' !! i = Some s /\ ScheduledOk s) (scheduled o)).
  { intros P [A B _ _ _ _ _ _]. split; [done|]. rewrite Forall_forall in A |- *.
    intros i Hi. destruct (A i Hi) as (s & Hs & Hok & _). exists s. split; [|done].
    apply Hk; [done|]. left. apply Hok. }
  destruct Ho as [Ho|(_ & _ & Ho)]; by eapply Hall.
Qed.

Definition SysInv (p : Sch * list (list LaunchedRow)) : Prop :=
  Inv p.1 (running p.1) (concat p.2).

Lemma sched_step_inv p p' : sched_step p p' -> SysInv p -> SysInv p'.
Proof.
  unfold SysInv. destruct 1 as [x x' flight s (F1 & F2 & F3 & F4 & F5) Hrun
    |x x' flight r reason b Hrun|x x1 x2 x3 flight o report rows Hs Hin Hu Ha
    |x x' flight rows toks drafts done_ Ht Hl Hd Hrun]; simpl; intros Hx.
  - destruct (in_flight x (request_id s)) eqn:Hf.
    { rewrite add_refused in Hrun by done. done. }
    destruct (wp_elim _ _ _ _ _ (add_spec x _ _ s Hx F1 F2 F3 F4 F5 Hf) Hrun) as (Hx' & -> & _). done.
  - apply (wp_elim _ _ _ _ _ (abort_spec clock x _ r reason Hx) Hrun).
  - destruct (wp_elim _ _ _ _ _ (schedule_spec clock x _ Hx) Hs) as [Hx1 Ho].
    destruct (wp_elim _ _ _ _ _ (update_spec x1 _ report Hx1 Hin) Hu) as (Hx2 & _ & Hk).
    destruct (scheduled_after_update x1 x2 o x Ho Hk) as [Hnd Hall].
    destruct (wp_elim _ _ _ _ _ (advance_spec x2 _ _ _ Hx2 Hnd Hall) Ha) as (_ & Hx3 & Hr & _).
    rewrite concat_app. simpl. rewrite app_nil_r, Hr. done.
  - apply (wp_elim _ _ _ _ _ (reconcile_spec clock rows toks drafts (concat flight) x Hx Ht Hl Hd) Hrun).
Qed.

Lemma reachable_inv p p' : SysInv p -> rtc sched_step p p' -> SysInv p'.
Proof. intros Hp Hr. induction Hr as [|p1 p2 p3 Hs Hr IH]; [done|]. eauto using sched_step_inv. Qed.

End Reach.

(** ** What the store's invariant says of blocks

    Consequences of the scheduler's invariant for the blocks of its sequences:
    two tables that share a block share the prefix that leads to it, and a
    scheduler with nothing in hand holds no block. *)


Section Hashes.
Context `{SeqSettings} `{!SettingsOk}.

(** The hash of a full block is the end of the chain to it. *)
Lemma expected_hash_inv ts i h : expected_hashes ts !! i = Some h ->
  S i * Z.to_nat block_size <= length ts /\ last (chain_hashes ts (S i)) = Some h.
Proof.
  unfold expected_hashes. destruct enable_prefix_caching; [|done]. intros Hh.
  pose proof (lookup_lt_Some _ _ _ Hh) as Hi. rewrite chain_hashes_length in Hi.
  split; [|by rewrite <-Hh, <-(chain_hashes_lookup ts (num_full_blocks ts))].
  pose proof (num_full_blocks_le ts). nia.
Qed.
End Hashes.

Section Store.
Context `{SeqSettings} `{!SettingsOk} `{SetOrder}.
Context {Q C : Type} `{SchedulingPolicyLaws Q} `{KVConnectorLaws C}.
Local Abbreviation Sch := (Scheduler Q C).
Implicit Types x : Sch.

(** A block in two tables is published in both. *)
Lemma shared_published x run rows i k s t a b j :
  Inv x run rows -> heap x !! i = Some s -> heap x !! k = Some t -> i <> k ->
  block_table s !! a = Some j -> block_table t !! b = Some j -> (Z.of_nat a < num_published_blocks s)%Z.
Proof.
  intros Hx Hi Hk Hne Ha Hb. destruct (mem_seq _ _ (inv_mem _ _ _ Hx) i s Hi) as (_ & _ & Ht).
  destruct (tbl_blocks _ _ _ Ht a j Ha) as (blk & _ & Hcase).
  destruct (Z.ltb_spec (Z.of_nat a) (num_published_blocks s)); [done|].
  destruct Hcase as [_ Hr]. rewrite (total_refs_split _ i s) in Hr by done. unfold refs_with in Hr.
  assert (0 < others (heap x) i j) by (eapply others_pos; [exact Hk|done|]; apply list_elem_of_lookup; eauto).
  assert (0 < occ j (block_table s)) by (apply occ_pos, list_elem_of_lookup; eauto). lia.
Qed.

Definition CollisionFree : Prop := forall b1 p1 b2 p2, block_hash b1 p1 = block_hash b2 p2 -> b1 = b2 /\ p1 = p2.

Lemma shared_prefix x run rows i k s t a b j :
  CollisionFree -> Inv x run rows -> heap x !! i = Some s -> heap x !! k = Some t -> i <> k ->
  block_table s !! a = Some j -> block_table t !! b = Some j ->
  a = b /\ take (S a * Z.to_nat block_size) (token_ids s) = take (S a * Z.to_nat block_size) (token_ids t) /\
  S a * Z.to_nat block_size <= length (token_ids s) /\ S a * Z.to_nat block_size <= length (token_ids t).
Proof.
  intros Hinj Hx Hi Hk Hne Ha Hb.
  pose proof (shared_published x run rows i k s t a b j Hx Hi Hk Hne Ha Hb) as Hpa.
  pose proof (shared_published x run rows k i t s b a j Hx Hk Hi (not_eq_sym Hne) Hb Ha) as Hpb.
  destruct (mem_seq _ _ (inv_mem _ _ _ Hx) i s Hi) as (_ & Hws & Hts).
  destruct (mem_seq _ _ (inv_mem _ _ _ Hx) k t Hk) as (_ & Hwt & Htt).
  destruct (tbl_blocks _ _ _ Hts a j Ha) as (blk & Hblk & Hc1).
  destruct (tbl_blocks _ _ _ Htt b j Hb) as (blk' & Hblk' & Hc2).
  assert (blk' = blk) as -> by congruence.
  destruct (Z.ltb_spec (Z.of_nat a) (num_published_blocks s)); [|lia].
  destruct (Z.ltb_spec (Z.of_nat b) (num_published_blocks t)); [|lia].
  destruct Hc1 as [Hh1 _], Hc2 as [Hh2 _]. rewrite (wf_hashes _ Hws) in Hh1. rewrite (wf_hashes _ Hwt) in Hh2.
  apply expected_hash_inv in Hh1 as [Hl1 Hh1], Hh2 as [Hl2 Hh2].
  destruct (chain_hashes_inj (token_ids s) (token_ids t) a b Hinj Hl1 Hl2) as [<- Htake]; [congruence|].
  by split_and!.
Qed.

(** Nothing waiting, running, loading or sent: no table holds a block. *)
Lemma idle_no_blocks x rows : Inv x (running x) rows -> sch_is_finished x = true ->
  forall i s, heap x !! i = Some s -> status s = FINISHED /\ block_table s = [].
Proof.
  intros Hx Hf i s Hi. unfold sch_is_finished in Hf.
  apply andb_prop in Hf as [Hf Hsd]. apply andb_prop in Hf as [Hf Hrc]. apply andb_prop in Hf as [Hw Hr].
  apply Nat.eqb_eq in Hw. apply bool_decide_eq_true in Hr, Hrc, Hsd.
  rewrite pol_len_iter in Hw. apply nil_length_inv in Hw.
  pose proof (inv_reg _ _ _ Hx) as Hreg. pose proof (meta_lookup _ _ _ Hi) as Hm.
  assert (Hst : status s = FINISHED).
  { destruct (status s) eqn:Hs; [| | |done]; exfalso.
    - pose proof (proj2 (reg_wait _ _ Hreg (mt_item (meta_of s)))) as Hin. simpl in Hin. rewrite Hw in Hin.
      assert (qi_id (item_of s) = i) as Hq by exact (reg_ids _ _ Hreg _ _ Hm).
      simpl in Hq, Hin. rewrite Hq in Hin.
      eapply not_elem_of_nil. apply Hin. by exists (meta_of s).
    - pose proof (reg_load _ _ Hreg _ _ Hm Hs) as Hl. simpl in Hl. rewrite Hrc in Hl. simplify_map_eq.
    - pose proof (proj2 (reg_run _ _ Hreg i)) as Hin. simpl in Hin. rewrite Hr in Hin.
      eapply not_elem_of_nil. apply Hin. by exists (meta_of s). }
  split; [done|]. destruct (inv_held _ _ _ Hx i s Hi Hst) as [|[Hl|Hl]]; [done| |].
  - rewrite Hrc in Hl. simplify_map_eq.
  - rewrite Hsd in Hl. simplify_map_eq.
Qed.

Lemma no_refs (h : gmap nat Sequence) j : (forall i s, h !! i = Some s -> block_table s = []) -> total_refs h j = 0.
Proof.
  induction h as [|i s h Hi IH] using map_ind; intros Hh; [done|].
  rewrite total_refs_insert by done. rewrite (Hh i s) by apply lookup_insert_eq. simpl.
  apply IH. intros k t Hk. apply (Hh k). rewrite lookup_insert_ne; [done|]. intros ->. congruence.
Qed.

(** So every block is free. *)
Lemma idle_all_free x rows : Inv x (running x) rows -> sch_is_finished x = true ->
  free_block_queue (block_manager x) ≡ₚ seq 0 (length (blocks (block_manager x))) /\
  used_block_ids (block_manager x) = ∅ /\ seqs x = ∅.
Proof.
  intros Hx Hf. pose proof (idle_no_blocks x rows Hx Hf) as Hno.
  pose proof (mem_inv _ _ (inv_mem _ _ _ Hx)) as Hm.
  assert (Hz : forall j, total_refs (heap x) j = 0) by (intros j; apply no_refs; intros i s Hi; by apply (Hno i s)).
  split_and!.
  - apply NoDup_Permutation; [apply (inv_free_nodup _ _ Hm) | apply NoDup_seq|]. intros j.
    rewrite (inv_free _ _ Hm), elem_of_seq, Hz. lia.
  - apply set_eq. intros j. rewrite (inv_used _ _ Hm), Hz. set_solver by lia.
  - apply map_eq. intros r. rewrite lookup_empty. apply eq_None_not_Some. intros [i Hr].
    destruct (inv_live _ _ _ Hx r i Hr) as (s & Hi & _ & Hs). by destruct (Hno i s Hi).
Qed.
End Store.
