(* ===== verification/NixlConnector.v ===== *)
(** * The NIXL connector

    [kv_transfer/nixl_connector.py]. The scheduler half, with its laws; the
    arithmetic that splits key heads and addresses blocks between engines of
    different tensor-parallel sizes; and the worker's bookkeeping of sends and
    loads. The state of a transfer is the NIXL agent's, a parameter; the
    handshake and the posting of reads are in [NixlTransfer]. *)

From S2P Require Import Prelude Output Sequence KVBase.

(** [_cdiv]. *)
Definition cdiv (a b : Z) : Z := (- (- a / b))%Z.

Lemma cdiv_ceil a b : (0 < b)%Z -> cdiv a b = ((a + b - 1) / b)%Z.
Proof.
  intros Hb. unfold cdiv. pose proof (Z.div_mod a b ltac:(lia)) as Hm.
  pose proof (Z.mod_pos_bound a b Hb) as Hr.
  set (q := (a / b)%Z) in *. set (r := (a mod b)%Z) in *.
  destruct (decide (r = 0)%Z) as [H0|H0].
  - replace (- a)%Z with (- q * b)%Z by nia. rewrite Z.div_mul by lia.
    replace (a + b - 1)%Z with ((b - 1) + q * b)%Z by nia.
    rewrite Z.div_add, Z.div_small by lia. lia.
  - replace (- a)%Z with ((b - r) + (- q - 1) * b)%Z by nia. rewrite Z.div_add, Z.div_small by lia.
    replace (a + b - 1)%Z with ((r - 1) + (q + 1) * b)%Z by nia.
    rewrite Z.div_add, Z.div_small by lia. lia.
Qed.

(** ** [NixlConnectorScheduler] *)

Record NixlConnectorScheduler := {
  nx_kv_transfer : KVTransferConfig;
  nx_block_size : Z;
  nx_tp_size : Z;
  nx_reqs_to_recv : gmap string ReqToRecv;
  nx_reqs_to_send : gmap string (list nat)
}.

#[export] Instance eta_NixlConnectorScheduler : Eta NixlConnectorScheduler := fun c =>
  Build_NixlConnectorScheduler (nx_kv_transfer c) (nx_block_size c) (nx_tp_size c)
    (nx_reqs_to_recv c) (nx_reqs_to_send c).

Definition new_NixlConnectorScheduler (kv : KVTransferConfig) (bs tp : Z) : NixlConnectorScheduler :=
  {| nx_kv_transfer := kv; nx_block_size := bs; nx_tp_size := tp;
     nx_reqs_to_recv := ∅; nx_reqs_to_send := ∅ |}.

(** The values of the parameters, of the types the admission check
    ([_RemotePrefill], strict) established. *)
Definition pv_ints (v : pyval) : option (list Z) :=
  match v with
  | PList l => mapM (fun v => match v with PInt z => Some z | _ => None end) l
  | _ => None
  end.
Definition pv_str (v : pyval) : option string := match v with PStr s => Some s | _ => None end.
Definition pv_int (v : pyval) : option Z := match v with PInt z => Some z | _ => None end.

(** [params[k]], read at its type. *)
Definition item {S A} (conv : pyval -> option A) (d : gmap string pyval) (k : string) : M S A :=
  let! v := or_raise (d !! k) KeyError in or_raise (conv v) TypeError.

Local Abbreviation NM := (M (NixlConnectorScheduler * Sequence)).

Definition nixl_get_num_new_matched_tokens (num_computed : Z) : NM (Z * bool) :=
  let! c := gets fst in
  let! s := gets snd in
  match kv_transfer_params s with
  | Some params =>
      if negb (get_truthy params "do_remote_prefill") then ret (0%Z, false)
      else
        let num_blocks := cdiv (num_prompt_tokens s) (nx_block_size c) in
        let! ids := item pv_ints params "remote_block_ids" in
        if negb (Zlen ids =? num_blocks)%Z then
          on_snd (modify (fun s => s <| kv_transfer_params :=
            Some (<["do_remote_prefill" := PBool false]> params) |>));;;
          ret (0%Z, false)
        else ret ((num_prompt_tokens s - num_computed)%Z, true)
  | None => ret (0%Z, false)
  end.

Definition nixl_update_state_after_alloc (num_external : Z) : NM unit :=
  let! c := gets fst in
  let! s := gets snd in
  let! params := or_raise (kv_transfer_params s) TypeError in
  let params := <["do_remote_prefill" := PBool false]> params in
  on_snd (modify (fun s => s <| kv_transfer_params := Some params |>));;;
  let num_local := (num_cached_tokens s / nx_block_size c)%Z in
  let! ids := item pv_ints params "remote_block_ids" in
  let! rid := item pv_str params "remote_request_id" in
  let! eid := item pv_str params "remote_engine_id" in
  let! host := item pv_str params "remote_host" in
  let! port := item pv_int params "remote_port" in
  let! tp := match params !! "tp_size" with
    | None => ret 1%Z
    | Some v => or_raise (pv_int v) TypeError
    end in
  on_fst (modify (fun c => c <| nx_reqs_to_recv ::= <[request_id s :=
    {| local_block_ids := py_from (block_table s) num_local;
       remote_block_ids := py_from ids num_local;
       remote_request_id := rid; remote_engine_id := eid; remote_host := host;
       remote_port := port; remote_tp_size := tp |}]> |>)).

Definition nixl_build_connector_meta : M NixlConnectorScheduler KVConnectorMetadata :=
  let! c := gets id in
  modify (fun c => c <| nx_reqs_to_recv := ∅ |> <| nx_reqs_to_send := ∅ |>);;;
  ret {| reqs_to_recv := nx_reqs_to_recv c; reqs_to_send := nx_reqs_to_send c |}.

(** The parameters a decode instance needs to read the blocks. *)
Definition handover (c : NixlConnectorScheduler) (s : Sequence) (ids : list nat) : gmap string pyval :=
  {[ "do_remote_prefill" := PBool true;
     "do_remote_decode" := PBool false;
     "remote_request_id" := PStr (request_id s);
     "remote_engine_id" := PStr (engine_id (nx_kv_transfer c));
     "remote_block_ids" := PList ((fun j => PInt (Z.of_nat j)) <$> ids);
     "remote_host" := PStr (kv_ip (nx_kv_transfer c));
     "remote_port" := PInt (kv_port (nx_kv_transfer c));
     "tp_size" := PInt (nx_tp_size c) ]}.

(** [seq.finish_reason in ("length", "stop")]. *)
Definition hands_over (s : Sequence) : bool :=
  match finish_reason s with
  | Some r => bool_decide (r = "length") || bool_decide (r = "stop")
  | None => false
  end.

Definition nixl_request_finished : NM (bool * option (gmap string pyval)) :=
  let! c := gets fst in
  let! s := gets snd in
  match kv_transfer_params s with
  | Some params =>
      if negb (get_truthy params "do_remote_decode") || negb (hands_over s) then ret (false, None)
      else
        let ids := py_upto (block_table s) (cdiv (num_prompt_tokens s) (nx_block_size c)) in
        on_fst (modify (fun c => c <| nx_reqs_to_send ::= <[request_id s := ids]> |>));;;
        ret (true, Some (handover c s ids))
  | None => ret (false, None)
  end.

#[export] Instance Nixl_connector : KVConnectorScheduler NixlConnectorScheduler := {
  kv_get_num_new_matched_tokens := nixl_get_num_new_matched_tokens;
  kv_update_state_after_alloc := nixl_update_state_after_alloc;
  kv_build_connector_meta := nixl_build_connector_meta;
  kv_request_finished := nixl_request_finished
}.

(** What the admission check guarantees of a remote prefill. *)
Definition RemotePrefill (d : gmap string pyval) : Prop :=
  (exists v ids, d !! "remote_block_ids" = Some v /\ pv_ints v = Some ids) /\
  (exists v r, d !! "remote_request_id" = Some v /\ pv_str v = Some r) /\
  (exists v r, d !! "remote_engine_id" = Some v /\ pv_str v = Some r) /\
  (exists v r, d !! "remote_host" = Some v /\ pv_str v = Some r) /\
  (exists v p, d !! "remote_port" = Some v /\ pv_int v = Some p) /\
  (forall v, d !! "tp_size" = Some v -> exists n, pv_int v = Some n).

Definition nixl_ok (p : option (gmap string pyval)) : Prop :=
  forall d, p = Some d -> get_truthy d "do_remote_prefill" = true -> RemotePrefill d.

Lemma wp_item {S A} conv d k (v : pyval) (a : A) s (Q : A -> S -> Prop) :
  d !! k = Some v -> conv v = Some a -> Q a s -> wp (item conv d k) s Q.
Proof. intros Hd Hc HQ. unfold item. wp_step. eapply wp_or_raise; [done|]. by eapply wp_or_raise. Qed.

Lemma get_truthy_cleared d k : get_truthy (<[k := PBool false]> d) k = false.
Proof. unfold get_truthy. by rewrite lookup_insert_eq. Qed.

Lemma nixl_ok_cleared d : nixl_ok (Some (<["do_remote_prefill" := PBool false]> d)).
Proof. intros d' [= <-]. by rewrite get_truthy_cleared. Qed.

Lemma RemotePrefill_cleared d :
  RemotePrefill d -> RemotePrefill (<["do_remote_prefill" := PBool false]> d).
Proof. unfold RemotePrefill. by rewrite !lookup_insert_ne by done. Qed.

#[export] Instance Nixl_laws : KVConnectorLaws NixlConnectorScheduler.
Proof.
  refine {| kv_ok := nixl_ok |}.
  - intros c s n Hok Hn. simpl. unfold nixl_get_num_new_matched_tokens. wp_steps. simpl.
    unfold wants_remote_prefill in *. destruct (kv_transfer_params s) as [d|] eqn:Hd.
    2: { wp_step. exists None. simpl. split; [by destruct s; simpl in *; subst|]. by rewrite Hd. }
    destruct (get_truthy d "do_remote_prefill") eqn:Hw; simpl.
    2: { wp_step. exists (Some d). simpl. split; [by destruct s; simpl in *; subst|]. by rewrite Hd. }
    destruct (Hok d eq_refl Hw) as ((v & ids & Hv & Hids) & _).
    wp_step. eapply wp_item; [done|done|]. destruct (Zlen ids =? _)%Z; simpl.
    + wp_step. exists (Some d). simpl. split; [by destruct s; simpl in *; subst|]. split; [done|].
      specialize (Hn eq_refl). destruct (Z.eqb_spec (num_prompt_tokens s - n) 0); [lia|].
      by rewrite Hd.
    + wp_steps. eexists. split; [done|]. split; [apply nixl_ok_cleared|]. simpl. apply get_truthy_cleared.
  - intros c s n Hok Hw. simpl. unfold nixl_update_state_after_alloc, wants_remote_prefill in *.
    wp_steps. simpl. destruct (kv_transfer_params s) as [d|] eqn:Hd; [|done]. simpl.
    destruct (RemotePrefill_cleared d (Hok d eq_refl Hw))
      as ((v1 & ids & H1 & H1') & (v2 & rid & H2 & H2') & (v3 & eid & H3 & H3') &
          (v4 & host & H4 & H4') & (v5 & port & H5 & H5') & Htp).
    wp_steps. eapply wp_item; [done|done|]. wp_step. eapply wp_item; [done|done|].
    wp_step. eapply wp_item; [done|done|]. wp_step. eapply wp_item; [done|done|].
    wp_step. eapply wp_item; [done|done|]. wp_step.
    assert (Hend : forall tp : Z, wp (on_fst (modify (fun c0 => c0 <| nx_reqs_to_recv ::= <[request_id s :=
        {| local_block_ids := py_from (block_table s) (num_cached_tokens s / nx_block_size c);
           remote_block_ids := py_from ids (num_cached_tokens s / nx_block_size c);
           remote_request_id := rid; remote_engine_id := eid; remote_host := host;
           remote_port := port; remote_tp_size := tp |}]> |>)))
      (c, s <| kv_transfer_params := Some (<["do_remote_prefill" := PBool false]> d) |>)
      (fun _ p => exists params, p.2 = s <| kv_transfer_params := params |> /\ nixl_ok params /\
         wants_remote_prefill p.2 = false)).
    { intros tp. wp_steps. eexists. split; [done|]. split; [apply nixl_ok_cleared|].
      apply get_truthy_cleared. }
    destruct (<["do_remote_prefill" := PBool false]> d !! "tp_size") as [v|] eqn:Hv.
    + destruct (Htp v eq_refl) as [tp Hvt]. eapply wp_or_raise; [done|]. apply Hend.
    + wp_step. apply Hend.
  - intros c. by wp_steps.
  - intros c s. simpl. unfold nixl_request_finished. wp_steps. simpl.
    destruct (kv_transfer_params s) as [d|]; [|by wp_step].
    destruct (_ || _); wp_steps; done.
Defined.

(** ** [head_shares] *)

Record Share := {
  sh_remote_rank : Z;
  sh_remote_head : Z;
  sh_local_head : Z;
  sh_num_heads : Z
}.

Definition share_of (start end_ local remote r : Z) : Share :=
  let first := Z.max start (r * remote) in
  let last := Z.min end_ ((r + 1) * remote) in
  {| sh_remote_rank := r; sh_remote_head := first - r * remote;
     sh_local_head := first - start; sh_num_heads := last - first |}.

Definition head_shares (rank tp_size remote_tp_size num_heads : Z) : list Share :=
  let local := (num_heads / tp_size)%Z in
  let remote := (num_heads / remote_tp_size)%Z in
  let start := (rank * local)%Z in
  let end_ := ((rank + 1) * local)%Z in
  let lo := (start / remote)%Z in
  share_of start end_ local remote <$> seqZ lo (cdiv end_ remote - lo).

(** The global number of a head, from its rank and its place in it. *)
Definition global_head (per_rank rank h : Z) : Z := rank * per_rank + h.

Section Shares.
Context (rank tp rtp H : Z).
Hypothesis Htp : (0 < tp)%Z.
Hypothesis Hrtp : (0 < rtp)%Z.
Hypothesis Hlocal : (0 < H / tp)%Z.
Hypothesis Hremote : (0 < H / rtp)%Z.

Lemma head_shares_elem s :
  s ∈ head_shares rank tp rtp H <->
  exists r, s = share_of (rank * (H / tp)) ((rank + 1) * (H / tp)) (H / tp) (H / rtp) r /\
    (r * (H / rtp) < (rank + 1) * (H / tp))%Z /\ (rank * (H / tp) < (r + 1) * (H / rtp))%Z.
Proof.
  unfold head_shares. rewrite list_elem_of_fmap.
  set (l := (H / tp)%Z) in *. set (m := (H / rtp)%Z) in *.
  assert (Hrange : forall r, r ∈ seqZ (rank * l / m) (cdiv ((rank + 1) * l) m - rank * l / m) <->
    (r * m < (rank + 1) * l)%Z /\ (rank * l < (r + 1) * m)%Z).
  { intros r. rewrite elem_of_seqZ, cdiv_ceil by done.
    set (a := (rank * l)%Z). set (b := ((rank + 1) * l)%Z).
    pose proof (Z.mul_div_le a m Hremote) as H1. pose proof (Z.mul_succ_div_gt a m Hremote) as H2.
    pose proof (Z.mul_div_le (b + m - 1) m Hremote) as H3.
    pose proof (Z.mul_succ_div_gt (b + m - 1) m Hremote) as H4.
    split.
    - intros [Hlo Hhi]. split; nia.
    - intros [Hlo Hhi]. split; nia. }
  split.
  - intros (r & -> & Hr). exists r. by rewrite <-Hrange.
  - intros (r & -> & Hr). exists r. by rewrite Hrange.
Qed.

(** Every head of the rank is in exactly one share. *)
Lemma head_shares_cover h :
  (0 <= h < H / tp)%Z ->
  exists s, s ∈ head_shares rank tp rtp H /\
    (sh_local_head s <= h < sh_local_head s + sh_num_heads s)%Z /\
    forall s', s' ∈ head_shares rank tp rtp H ->
      (sh_local_head s' <= h < sh_local_head s' + sh_num_heads s')%Z -> s' = s.
Proof.
  intros Hh. set (l := (H / tp)%Z) in *. set (m := (H / rtp)%Z) in *.
  set (g := (rank * l + h)%Z). set (r := (g / m)%Z).
  pose proof (Z.mul_div_le g m Hremote) as H1. pose proof (Z.mul_succ_div_gt g m Hremote) as H2.
  fold r in H1, H2. exists (share_of (rank * l) ((rank + 1) * l) l m r).
  rewrite head_shares_elem. fold l m. split; [exists r; split; [done|nia]|]. split; [simpl; nia|].
  intros s' (r' & -> & Hr1 & Hr2)%head_shares_elem Hs'. fold l m in Hr1, Hr2, Hs' |- *. simpl in Hs'. f_equal.
  assert (r' * m <= g < (r' + 1) * m)%Z by (unfold g; nia). unfold r. nia.
Qed.

(** A share is the same heads on both sides, inside each side's rank. *)
Lemma head_shares_match s :
  s ∈ head_shares rank tp rtp H ->
  (0 < sh_num_heads s)%Z /\
  (0 <= sh_local_head s)%Z /\ (sh_local_head s + sh_num_heads s <= H / tp)%Z /\
  (0 <= sh_remote_head s)%Z /\ (sh_remote_head s + sh_num_heads s <= H / rtp)%Z /\
  global_head (H / rtp) (sh_remote_rank s) (sh_remote_head s) =
  global_head (H / tp) rank (sh_local_head s).
Proof.
  rewrite head_shares_elem. intros (r & -> & Hr1 & Hr2). unfold global_head. simpl.
  set (l := (H / tp)%Z) in *. set (m := (H / rtp)%Z) in *. lia.
Qed.

End Shares.

(** The share as its other side sees it. *)
Definition mirror (rank : Z) (s : Share) : Share :=
  {| sh_remote_rank := rank; sh_remote_head := sh_local_head s;
     sh_local_head := sh_remote_head s; sh_num_heads := sh_num_heads s |}.

(** The readers a producer rank waits for are the consumer ranks that read
    it: a share of either side is a share of the other. *)
Lemma head_shares_sym rank tp rtp H s :
  (0 < H / tp)%Z -> (0 < H / rtp)%Z ->
  s ∈ head_shares rank tp rtp H -> mirror rank s ∈ head_shares (sh_remote_rank s) rtp tp H.
Proof.
  intros Hl Hr. rewrite !head_shares_elem by done. intros (r & -> & H1 & H2). exists rank.
  split; [|split; [exact H2|exact H1]].
  unfold mirror, share_of; simpl. rewrite Z.max_comm, Z.min_comm. done.
Qed.

(** The consumer ranks that read a producer rank, in order, are the remote
    ranks of the producer rank's own shares: their number, which a
    notification carries, is the number of notifications to come. *)
Lemma readers_exact p tp rtp H :
  (0 < tp)%Z -> (tp | H)%Z -> (rtp | H)%Z -> (0 < H / tp)%Z -> (0 < H / rtp)%Z -> (0 <= p < rtp)%Z ->
  filter (fun rank => p ∈ sh_remote_rank <$> head_shares rank tp rtp H) (seqZ 0 tp) ≡ₚ
  sh_remote_rank <$> head_shares p rtp tp H.
Proof.
  intros Htp [l Hl] [m Hm] Hpl Hpm Hp.
  assert (H / tp = l)%Z as Hdl by (rewrite Hl; apply Z.div_mul; lia).
  assert (H / rtp = m)%Z as Hdm by (rewrite Hm; apply Z.div_mul; lia).
  apply NoDup_Permutation.
  - apply NoDup_filter, NoDup_seqZ.
  - unfold head_shares. rewrite <- list_fmap_compose, (list_fmap_ext _ id), list_fmap_id by done. apply NoDup_seqZ.
  - intros rank. rewrite list_elem_of_filter, elem_of_seqZ, !list_elem_of_fmap. split.
    + intros [(s & -> & Hs) _]. exists (mirror rank s). split; [done|]. by apply head_shares_sym.
    + intros (s & -> & Hs). split.
      * exists (mirror p s). split; [done | by apply head_shares_sym].
      * apply head_shares_elem in Hs as (r & -> & Hr1 & Hr2); [|done..]. simpl. rewrite Hdl, Hdm in *. nia.
Qed.

(** ** [block_descs] *)

Record Region := { rg_addr : Z; rg_block_bytes : Z; rg_head_bytes : Z }.

(** Arithmetic of [np.uint64]. *)
Definition wrap64 (z : Z) : Z := (z mod 2 ^ 64)%Z.

Definition region_descs (block_ids : list Z) (first_head num_heads : Z) (latents : bool) (device : Z)
    (r : Region) : list (Z * Z * Z) :=
  let rows start length :=
    (fun b => (wrap64 (start + b * rg_block_bytes r), wrap64 length, wrap64 device)) <$> block_ids in
  if negb (rg_head_bytes r =? 0)%Z
  then rows (rg_addr r + first_head * rg_head_bytes r)%Z (num_heads * rg_head_bytes r)%Z
  else if latents then rows (rg_addr r) (rg_block_bytes r) else [].

Definition block_descs (regions : list Region) (block_ids : list Z) (first_head num_heads : Z)
    (latents : bool) (device : Z) : list (Z * Z * Z) :=
  concat (region_descs block_ids first_head num_heads latents device <$> regions).

(** ** The worker's sends *)

Record Notified := { nt_count : Z; nt_readers : Z; nt_seen : Qc }.

Record SendState := {
  ss_reqs_to_send : gmap string Qc;
  ss_notified : gmap string Notified;
  ss_finished : KVConnectorOutput
}.

#[export] Instance eta_SendState : Eta SendState := fun w =>
  Build_SendState (ss_reqs_to_send w) (ss_notified w) (ss_finished w).

(** [_release]. *)
Definition release (r : string) (w : SendState) : SendState :=
  match ss_reqs_to_send w !! r with
  | Some _ => w <| ss_reqs_to_send ::= delete r |> <| ss_notified ::= delete r |>
                <| ss_finished ::= fun f => f <| finished_sending ::= union {[r]} |> |>
  | None => w
  end.

(** [_release_if_read]. *)
Definition release_if_read (r : string) (w : SendState) : SendState :=
  match ss_notified w !! r with
  | Some e => if (nt_readers e <=? nt_count e)%Z then release r w else w
  | None => w
  end.

(** The sends of [start_load_kv]: [now] is [monotonic()]. *)
Definition start_sends (now timeout : Qc) (ids : list string) (w : SendState) : SendState :=
  foldl (fun w r => release_if_read r (w <| ss_reqs_to_send ::= <[r := (now + timeout)%Qc]> |>)) w ids.

(** One notification, as [_take_notifications] counts it. *)
Definition take_notification (now : Qc) (r : string) (readers : Z) (w : SendState) : SendState :=
  let e := default {| nt_count := 0; nt_readers := readers; nt_seen := now |} (ss_notified w !! r) in
  release_if_read r (w <| ss_notified ::= <[r :=
    {| nt_count := nt_count e + 1; nt_readers := nt_readers e; nt_seen := nt_seen e |}]> |>).

(** [get_finished]: expire, forget, report and reset. *)
Definition expire_one (now : Qc) (w : SendState) (p : string * Qc) : SendState :=
  if Qc_ltb p.2 now
  then (release p.1 w) <| ss_finished ::= fun f => f <| expired_sending ::= union {[p.1]} |> |>
  else w.

Definition forget_one (now timeout : Qc) (w : SendState) (p : string * Notified) : SendState :=
  if negb (bool_decide (is_Some (ss_reqs_to_send w !! p.1))) && Qc_ltb (nt_seen p.2 + timeout) now
  then w <| ss_notified ::= delete p.1 |> else w.

Definition get_finished (now timeout : Qc) : M SendState KVConnectorOutput :=
  modify (fun w => foldl (expire_one now) w (map_to_list (ss_reqs_to_send w)));;;
  modify (fun w => foldl (forget_one now timeout) w (map_to_list (ss_notified w)));;;
  let! f := gets ss_finished in
  modify (fun w => w <| ss_finished := empty_KVConnectorOutput |>);;;
  ret f.

(** ** The worker's loads *)

Record Load := {
  ld_req : ReqToRecv;
  ld_handles : list nat;
  ld_unnotified : gset Z;
  ld_started : Qc;
  ld_num_bytes : Z;
  ld_failed : bool
}.

#[export] Instance eta_Load : Eta Load := fun l =>
  Build_Load (ld_req l) (ld_handles l) (ld_unnotified l) (ld_started l) (ld_num_bytes l) (ld_failed l).

Inductive XferState := PROC | DONE | ERR.

#[export] Instance XferState_eq_dec : EqDecision XferState.
Proof. solve_decision. Defined.

(** The handles of one load after a poll: those in progress stay, and any that
    ended but for [DONE] fails the load. [_fail] has nobody to notify here:
    posting a load leaves no rank unnotified. *)
Definition poll_load (state : nat -> XferState) (l : Load) : Load :=
  l <| ld_handles := filter (fun h => state h = PROC) (ld_handles l) |>
    <| ld_failed ::= orb (existsb (fun h => bool_decide (state h = ERR)) (ld_handles l)) |>.

Record LoadState := { lds_loads : gmap string Load; lds_finished : KVConnectorOutput }.

#[export] Instance eta_LoadState : Eta LoadState := fun w =>
  Build_LoadState (lds_loads w) (lds_finished w).

(** One load's turn in [_poll]. *)
Definition poll_one (state : nat -> XferState) (now : Qc) (w : LoadState) (p : string * Load) : LoadState :=
  let (r, l) := p in
  let l := poll_load state l in
  if bool_decide (ld_handles l <> []) then w <| lds_loads ::= <[r := l]> |>
  else
    let w := w <| lds_loads ::= delete r |> in
    if ld_failed l then w <| lds_finished ::= fun f => f <| failed_recving ::= union {[r]} |> |>
    else w <| lds_finished ::= fun f => f <| finished_recving ::= union {[r]} |>
             <| recv_stats ::= <[r := {| seconds := now - ld_started l; num_bytes := ld_num_bytes l |}]> |> |>.

Definition poll (state : nat -> XferState) (now : Qc) (w : LoadState) : LoadState :=
  foldl (poll_one state now) w (map_to_list (lds_loads w)).

(** ** What the bookkeeping guarantees *)

(** No request whose readers all read it is still held. *)
Definition SendInv (w : SendState) : Prop :=
  forall r e, is_Some (ss_reqs_to_send w !! r) -> ss_notified w !! r = Some e ->
    (nt_count e < nt_readers e)%Z.

Definition SendInvBut (r0 : string) (w : SendState) : Prop :=
  forall r e, r <> r0 -> is_Some (ss_reqs_to_send w !! r) -> ss_notified w !! r = Some e ->
    (nt_count e < nt_readers e)%Z.

Lemma release_inv r w : SendInvBut r w -> SendInv (release r w).
Proof.
  intros Hw r' e Hs Hn. unfold release in *.
  destruct (ss_reqs_to_send w !! r) as [d|] eqn:Hr; simpl in *.
  - destruct (decide (r' = r)) as [->|Hne]; [by rewrite lookup_delete_eq in Hn|].
    rewrite lookup_delete_ne in Hn by done.
    try (rewrite lookup_delete_ne in Hs by done). by eapply Hw.
  - destruct (decide (r' = r)) as [->|Hne]; [rewrite Hr in Hs; by destruct Hs|]. by eapply Hw.
Qed.

Lemma release_if_read_inv r w : SendInvBut r w -> SendInv (release_if_read r w).
Proof.
  intros Hw. unfold release_if_read. destruct (ss_notified w !! r) as [e|] eqn:He.
  - destruct (Z.leb_spec (nt_readers e) (nt_count e)); [by apply release_inv|].
    intros r' e' Hs Hn. destruct (decide (r' = r)) as [->|Hne]; [|by eapply Hw]. congruence.
  - intros r' e' Hs Hn. destruct (decide (r' = r)) as [->|Hne]; [congruence|by eapply Hw].
Qed.

Lemma start_sends_inv now timeout ids w : SendInv w -> SendInv (start_sends now timeout ids w).
Proof.
  unfold start_sends. revert w. induction ids as [|r ids IH]; intros w Hw; [done|]. simpl. apply IH.
  apply release_if_read_inv. intros r' e Hne Hs Hn. simpl in *.
  rewrite lookup_insert_ne in Hs by done. by eapply Hw.
Qed.

Lemma take_notification_inv now r n w : SendInv w -> SendInv (take_notification now r n w).
Proof.
  intros Hw. unfold take_notification. apply release_if_read_inv.
  intros r' e Hne Hs Hn. simpl in *. rewrite lookup_insert_ne in Hn by done. by eapply Hw.
Qed.

Lemma expire_inv now w p : SendInv w -> SendInv (expire_one now w p).
Proof.
  intros Hw. unfold expire_one. case_match; [|done].
  assert (Hr : SendInv (release p.1 w)) by (apply release_inv; intros ? ? _; apply Hw). exact Hr.
Qed.

Lemma forget_inv now timeout w p : SendInv w -> SendInv (forget_one now timeout w p).
Proof.
  intros Hw. unfold forget_one. case_match; [|done]. intros r e Hs Hn. simpl in *.
  apply lookup_delete_Some in Hn as [_ Hn]. by eapply Hw.
Qed.

Lemma foldl_inv {A B} (f : A -> B -> A) (I : A -> Prop) l a :
  (forall a b, I a -> I (f a b)) -> I a -> I (foldl f a l).
Proof. intros Hf. revert a. induction l; simpl; auto. Qed.

Lemma get_finished_inv now timeout w :
  SendInv w -> wp (get_finished now timeout) w (fun f w' => SendInv w' /\ ss_finished w' = empty_KVConnectorOutput).
Proof.
  intros Hw. unfold get_finished. wp_steps. split; [|done].
  apply (foldl_inv (forget_one now timeout) SendInv); [by apply forget_inv|].
  apply foldl_inv; [by apply expire_inv|done].
Qed.

(** A request that is handed over and read by all its readers, in either
    order, is reported. *)
Lemma released_when_read r w d e :
  ss_reqs_to_send w !! r = Some d -> ss_notified w !! r = Some e -> (nt_readers e <= nt_count e)%Z ->
  r ∈ finished_sending (ss_finished (release_if_read r w)) /\
  ss_reqs_to_send (release_if_read r w) !! r = None /\ ss_notified (release_if_read r w) !! r = None.
Proof.
  intros Hd He Hn. unfold release_if_read, release. rewrite He.
  destruct (Z.leb_spec (nt_readers e) (nt_count e)); [|lia]. rewrite Hd. simpl.
  rewrite !lookup_delete_eq. split; [set_solver|done].
Qed.

(** The outcome of a poll for one load. *)
Definition PollOutcome (state : nat -> XferState) (now : Qc) (r : string) (l : Load) (w' : LoadState) : Prop :=
  if existsb (fun h => bool_decide (state h = PROC)) (ld_handles l)
  then lds_loads w' !! r = Some (poll_load state l)
  else lds_loads w' !! r = None /\
    if ld_failed l || existsb (fun h => bool_decide (state h = ERR)) (ld_handles l)
    then r ∈ failed_recving (lds_finished w')
    else r ∈ finished_recving (lds_finished w') /\
         recv_stats (lds_finished w') !! r =
           Some {| seconds := now - ld_started l; num_bytes := ld_num_bytes l |}.

Lemma poll_load_pending state l :
  bool_decide (ld_handles (poll_load state l) <> []) =
  existsb (fun h => bool_decide (state h = PROC)) (ld_handles l).
Proof.
  unfold poll_load; simpl. induction (ld_handles l) as [|h hs IH]; [done|].
  rewrite filter_cons. simpl. destruct (decide (state h = PROC)) as [Hs|Hs].
  - rewrite (bool_decide_true (state h = PROC)) by done. by apply bool_decide_eq_true.
  - rewrite (bool_decide_false (state h = PROC)) by done. exact IH.
Qed.

Lemma poll_one_here state now w r l :
  PollOutcome state now r l (poll_one state now w (r, l)).
Proof.
  unfold PollOutcome, poll_one. rewrite poll_load_pending. case_match; simpl.
  { by rewrite lookup_insert_eq. }
  rewrite orb_comm. case_match; simpl; rewrite lookup_delete_eq; split_and!; try done; try set_solver.
  by rewrite lookup_insert_eq.
Qed.

Lemma poll_one_other state now w r l r' :
  r' <> r ->
  lds_loads (poll_one state now w (r, l)) !! r' = lds_loads w !! r' /\
  (r' ∈ failed_recving (lds_finished (poll_one state now w (r, l))) <-> r' ∈ failed_recving (lds_finished w)) /\
  (r' ∈ finished_recving (lds_finished (poll_one state now w (r, l))) <-> r' ∈ finished_recving (lds_finished w)) /\
  recv_stats (lds_finished (poll_one state now w (r, l))) !! r' = recv_stats (lds_finished w) !! r'.
Proof.
  intros Hne. unfold poll_one. case_match; [|case_match]; simpl;
    rewrite ?lookup_insert_ne, ?lookup_delete_ne by done; split_and!; try done; set_solver.
Qed.

Lemma poll_outcome_other state now w r l p :
  p.1 <> r -> PollOutcome state now r l w -> PollOutcome state now r l (poll_one state now w p).
Proof.
  destruct p as [r' l']. intros Hne. unfold PollOutcome.
  destruct (poll_one_other state now w r' l' r) as (-> & H1 & H2 & ->); [done|].
  case_match; [done|]. intros [? Hc]. split; [done|]. case_match; [by apply H1|].
  destruct Hc. split; [by apply H2|done].
Qed.

Lemma poll_fold state now ps w :
  NoDup ps.*1 -> forall r l, (r, l) ∈ ps -> PollOutcome state now r l (foldl (poll_one state now) w ps).
Proof.
  intros Hnd r l Hin.
  assert (Hkeep : forall qs w0, r ∉ qs.*1 -> PollOutcome state now r l w0 ->
    PollOutcome state now r l (foldl (poll_one state now) w0 qs)).
  { induction qs as [|q qs IH]; intros w0 Hr Hw0; [done|]. simpl.
    apply not_elem_of_cons in Hr as [Hne Hr]. apply IH; [done|]. by apply poll_outcome_other. }
  revert w. induction ps as [|q ps IH]; intros w; [by apply elem_of_nil in Hin|]. simpl in *.
  apply NoDup_cons in Hnd as [Hq Hnd]. apply elem_of_cons in Hin as [<-|Hin].
  - apply Hkeep; [done|]. apply poll_one_here.
  - by apply IH.
Qed.

(** A load is reported once none of its reads is in flight, and as failed
    when one of them failed. *)
Lemma poll_outcome state now w r l :
  lds_loads w !! r = Some l -> PollOutcome state now r l (poll state now w).
Proof.
  intros Hr. unfold poll. apply poll_fold; [apply NoDup_fst_map_to_list|].
  by apply elem_of_map_to_list.
Qed.
