(* ===== verification/NixlTransfer.v ===== *)
(** * The NIXL worker's transfer thread

    [kv_transfer/nixl_connector.py]: the registered caches, the handshake with
    a producer rank, posting a request's reads, giving up on them, and the
    notifications that end a send. NIXL and the network are the oracles of
    [Peer]: they answer each call from the history of calls. *)

From Stdlib Require Import Strings.Ascii.
From S2P Require Import Prelude Output Sequence KVBase NixlConnector.

(** ** The notifications' text *)

(** [f"{request_id}:{readers}"]. *)
Definition notification (rid : string) (readers : Z) : string := rid +:+ ":" +:+ pretty readers.

(** [s.rsplit(":", 1)], when there is a colon. *)
Fixpoint rsplit_colon (s : string) : option (string * string) :=
  match s with
  | EmptyString => None
  | String c s' =>
      match rsplit_colon s' with
      | Some (a, b) => Some (String c a, b)
      | None => if bool_decide (c = ":"%char) then Some ("", s') else None
      end
  end.

(** [int(s)] of an ASCII text: surrounding blanks, a sign, digits with single
    underscores between them. *)
Definition is_blank (c : ascii) : bool :=
  let n := N_of_ascii c in ((9 <=? n) && (n <=? 13) || (28 <=? n) && (n <=? 32))%N.

Fixpoint lstrip (s : string) : string :=
  match s with String c s' => if is_blank c then lstrip s' else s | EmptyString => s end.

Fixpoint rstrip (s : string) : string :=
  match s with
  | EmptyString => ""
  | String c s' => match rstrip s' with
      | EmptyString => if is_blank c then "" else String c ""
      | t => String c t
      end
  end.

Definition digit (c : ascii) : option Z :=
  let n := N_of_ascii c in if ((48 <=? n) && (n <=? 57))%N then Some (Z.of_N n - 48)%Z else None.

Fixpoint digits_from (acc : Z) (s : string) : option Z :=
  match s with
  | EmptyString => Some acc
  | String c s' =>
      match digit c with
      | Some d => digits_from (acc * 10 + d) s'
      | None =>
          if bool_decide (c = "_"%char) then
            match s' with
            | String c' s'' => match digit c' with Some d => digits_from (acc * 10 + d) s'' | None => None end
            | EmptyString => None
            end
          else None
      end
  end.

Definition unsigned_int (s : string) : option Z :=
  match s with
  | String c s' => match digit c with Some d => digits_from d s' | None => None end
  | EmptyString => None
  end.

Definition py_int (s : string) : option Z :=
  match rstrip (lstrip s) with
  | String c s' =>
      if bool_decide (c = "-"%char) then Z.opp <$> unsigned_int s'
      else if bool_decide (c = "+"%char) then unsigned_int s'
      else unsigned_int (String c s')
  | EmptyString => None
  end.

Definition parse_notification (m : string) : option (string * Z) :=
  match rsplit_colon m with
  | Some (rid, n) => match py_int n with Some k => Some (rid, k) | None => None end
  | None => None
  end.

(** [_take_notifications], each message with the time it is counted. *)
Definition take_message (w : SendState) (m : string * Qc) : SendState :=
  match parse_notification m.1 with
  | Some (rid, n) => take_notification m.2 rid n w
  | None => w
  end.

Definition take_notifications (messages : list (string * Qc)) (w : SendState) : SendState :=
  foldl take_message w messages.

(** ** The registered caches *)

(** A cache tensor: keys and values (2, block, head, token, dim), or latents
    (1, block, token, dim); strides in elements. *)
Record Cache := {
  ca_ptr : Z;
  ca_itemsize : Z;
  ca_dtype : string;
  ca_shape : list Z;
  ca_strides : list Z;
  ca_is_cuda : bool;
  ca_device : Z
}.

Inductive LayerLayout :=
| LayerKV (dtype : string) (heads tokens dim : Z)
| LayerLatent (dtype : string) (shape : list Z).

#[export] Instance LayerLayout_eq_dec : EqDecision LayerLayout.
Proof. solve_decision. Defined.

Record Layout := { ly_block_size : Z; ly_layers : list LayerLayout }.

#[export] Instance Layout_eq_dec : EqDecision Layout.
Proof. solve_decision. Defined.

(** [cache.dim() == 5]. *)
Definition is_kv (c : Cache) : bool := length (ca_shape c) =? 5.

Definition stride (c : Cache) (i : nat) : Z := nth i (ca_strides c) 0%Z.

(** [for part in cache]: the parts along the first dimension. *)
Definition cache_regions (c : Cache) : list Region :=
  (fun i => {| rg_addr := ca_ptr c + i * stride c 0 * ca_itemsize c;
               rg_block_bytes := stride c 1 * ca_itemsize c;
               rg_head_bytes := if is_kv c then stride c 2 * ca_itemsize c else 0 |}%Z)
  <$> seqZ 0 (nth 0 (ca_shape c) 0%Z).

Definition cache_layer (tp_size : Z) (c : Cache) : LayerLayout :=
  if is_kv c
  then LayerKV (ca_dtype c) (nth 2 (ca_shape c) 0 * tp_size)%Z (nth 3 (ca_shape c) 0%Z) (nth 4 (ca_shape c) 0%Z)
  else LayerLatent (ca_dtype c) (list.drop 2 (ca_shape c)).

(** The last KV cache's heads over all ranks. *)
Definition caches_heads (tp_size : Z) (caches : list Cache) : Z :=
  foldl (fun n c => if is_kv c then (nth 2 (ca_shape c) 0 * tp_size)%Z else n) 0%Z caches.

(** ** The worker *)

Record Remote := {
  rm_engine_id : string;
  rm_agent_name : string;
  rm_regions : list Region;
  rm_num_blocks : Z;
  rm_mem_type : string;
  rm_device_id : Z
}.

(** What a producer rank answers a handshake. *)
Record Description := {
  ds_engine_id : string;
  ds_tp_size : Z;
  ds_layout : Layout;
  ds_regions : list Region;
  ds_num_blocks : Z;
  ds_mem_type : string;
  ds_device_id : Z
}.

Inductive Reply := Refused (error : string) | Described (d : Description).

(** The calls the worker makes, in order. *)
Inductive AgentCall :=
| CallHandshake (host : string) (port : Z)
| CallAdd (metadata : string)
| CallRemove (agent : string)
| CallRead (local remote : list (Z * Z * Z)) (mem_type agent note : string)
| CallTransfer (handle : nat)
| CallNotify (agent note : string).

(** The answer to the last of the calls so far; [None]: no answer in time. *)
Class Peer := {
  handshake_answer : list AgentCall -> exn + option (Reply * string);
  add_answer : list AgentCall -> exn + string;
  remove_answer : list AgentCall -> exn + unit;
  read_answer : list AgentCall -> exn + nat;
  transfer_answer : list AgentCall -> exn + XferState;
  notify_answer : list AgentCall -> exn + unit
}.

Record NixlWorker := {
  nw_engine_id : string;
  nw_rank : Z;
  nw_tp_size : Z;
  nw_block_size : Z;
  nw_caches : list Cache;
  nw_remotes : gmap (string * Z) Remote;
  nw_loads : gmap string Load;
  nw_calls : list AgentCall
}.

#[export] Instance eta_NixlWorker : Eta NixlWorker := fun w =>
  Build_NixlWorker (nw_engine_id w) (nw_rank w) (nw_tp_size w) (nw_block_size w) (nw_caches w)
    (nw_remotes w) (nw_loads w) (nw_calls w).

(** [register_kv_caches]'s attributes. *)
Definition nw_regions (w : NixlWorker) : list Region := concat (cache_regions <$> nw_caches w).
Definition nw_layout (w : NixlWorker) : Layout :=
  {| ly_block_size := nw_block_size w; ly_layers := cache_layer (nw_tp_size w) <$> nw_caches w |}.
Definition nw_num_heads (w : NixlWorker) : Z := caches_heads (nw_tp_size w) (nw_caches w).
Definition nw_mem_type (w : NixlWorker) : string :=
  match nw_caches w with c :: _ => if ca_is_cuda c then "VRAM" else "DRAM" | [] => "DRAM" end.
Definition nw_device_id (w : NixlWorker) : Z :=
  match nw_caches w with c :: _ => Z.max (ca_device c) 0 | [] => 0%Z end.

(** [_serve]'s answer to a request: [None] is a text that is no JSON. *)
Definition request_op (raw : option pyval) : pyval :=
  match raw with Some (PDict d) => default PNone ((list_to_map d : gmap string pyval) !! "op") | _ => PNone end.

Definition serve (repr : pyval -> string) (w : NixlWorker) (raw : option pyval) : Reply :=
  match request_op raw with
  | PStr "handshake" =>
      Described {| ds_engine_id := nw_engine_id w; ds_tp_size := nw_tp_size w; ds_layout := nw_layout w;
                   ds_regions := nw_regions w;
                   ds_num_blocks := match nw_caches w with c :: _ => nth 1 (ca_shape c) 0%Z | [] => 0%Z end;
                   ds_mem_type := nw_mem_type w; ds_device_id := nw_device_id w |}
  | op => Refused ("unknown op " +:+ repr op)
  end.

(** ** Handshakes and reads *)

Section Transfers.
Context `{Peer}.

Definition call {A} (c : AgentCall) (answer : list AgentCall -> exn + A) : M NixlWorker A :=
  modify (fun w => w <| nw_calls ::= fun l => l ++ [c] |>);;;
  let! l := gets nw_calls in
  match answer l with inl e => raise e | inr a => ret a end.

(** [_heads]. *)
Definition heads_of (w : NixlWorker) (req : ReqToRecv) : Z :=
  if (nw_num_heads w =? 0)%Z then Z.lcm (nw_tp_size w) (remote_tp_size req) else nw_num_heads w.

(** [head_shares], whose divisions raise on zero. *)
Definition checked_shares {S} (rank tp_size remote_tp num_heads : Z) : M S (list Share) :=
  if (remote_tp =? 0)%Z || (num_heads / remote_tp =? 0)%Z then raise ZeroDivisionError
  else ret (head_shares rank tp_size remote_tp num_heads).

(** The address a producer rank serves handshakes on. *)
Definition remote_key (req : ReqToRecv) (rank : Z) : string * Z := (remote_host req, (remote_port req + rank)%Z).

(** [_handshake]. *)
Definition handshake (req : ReqToRecv) (rank : Z) : M NixlWorker Remote :=
  let key := remote_key req rank in
  let address := key.1 +:+ ":" +:+ pretty key.2 in
  let! known := gets (fun w => nw_remotes w !! key) in
  let ask :=
    let! answer := call (CallHandshake key.1 key.2) handshake_answer in
    let! (reply, metadata) := or_raise answer (ConnectionError (address +:+ " did not answer the handshake")) in
    match reply with
    | Refused error => raise (RuntimeError error)
    | Described d =>
        if negb (bool_decide (ds_engine_id d = remote_engine_id req))
        then raise (RuntimeError (address +:+ " is engine " +:+ ds_engine_id d +:+ ", not " +:+ remote_engine_id req))
        else if negb (ds_tp_size d =? remote_tp_size req)%Z
        then raise (RuntimeError (address +:+ " runs tp_size " +:+ pretty (ds_tp_size d) +:+ ", not " +:+
                                 pretty (remote_tp_size req)))
        else
          let! w := gets id in
          if negb (bool_decide (ds_layout d = nw_layout w))
          then raise (RuntimeError (address +:+ " lays its KV cache out differently"))
          else
            let! name := call (CallAdd metadata) add_answer in
            let remote := {| rm_engine_id := ds_engine_id d; rm_agent_name := name; rm_regions := ds_regions d;
                             rm_num_blocks := ds_num_blocks d; rm_mem_type := ds_mem_type d;
                             rm_device_id := ds_device_id d |} in
            modify (fun w => w <| nw_remotes ::= <[key := remote]> |>);;;
            ret remote
    end in
  match known with
  | Some remote =>
      if bool_decide (rm_engine_id remote = remote_engine_id req) then ret remote
      else
        modify (fun w => w <| nw_remotes ::= delete key |>);;;
        call (CallRemove (rm_agent_name remote)) remove_answer;;;
        ask
  | None => ask
  end.

Definition set_load (r : string) (f : Load -> Load) : M NixlWorker unit :=
  modify (fun w => w <| nw_loads ::= alter f r |>).

(** [len(head_shares(remote_rank, req.remote_tp_size, self.tp_size, heads))]. *)
Definition readers_of (w : NixlWorker) (req : ReqToRecv) (rank : Z) : M NixlWorker Z :=
  let! shares := checked_shares rank (remote_tp_size req) (nw_tp_size w) (heads_of w req) in
  ret (Zlen shares).

(** [block_descs], whose unsigned block ids refuse negative ones. *)
Definition checked_descs {S} (regions : list Region) (ids : list Z) (first num : Z) (latents : bool) (device : Z) :
    M S (list (Z * Z * Z)) :=
  if existsb (fun b => b <? 0)%Z ids then raise OverflowError
  else ret (block_descs regions ids first num latents device).

(** The bytes of a read. *)
Definition descs_bytes (rows : list (Z * Z * Z)) : Z := wrap64 (Zsum ((fun d => d.1.2) <$> rows)).

(** One share of [_start]'s loop; [first]: it is the first one. *)
Definition post_share (r : string) (req : ReqToRecv) (first : bool) (s : Share) : M NixlWorker unit :=
  let p := sh_remote_rank s in
  let! remote := handshake req p in
  if (rm_num_blocks remote <=? max_default (remote_block_ids req) (-1))%Z
  then raise (RuntimeError ("a block id past the producer's " +:+ pretty (rm_num_blocks remote) +:+ " blocks"))
  else
    let! w := gets id in
    let! readers := readers_of w req p in
    let note := notification (remote_request_id req) readers in
    let! local := checked_descs (nw_regions w) (Z.of_nat <$> local_block_ids req) (sh_local_head s)
      (sh_num_heads s) first (nw_device_id w) in
    (if bool_decide (local = []) then call (CallNotify (rm_agent_name remote) note) notify_answer
     else
       let! rows := checked_descs (rm_regions remote) (remote_block_ids req) (sh_remote_head s)
         (sh_num_heads s) first (rm_device_id remote) in
       let! handle := call (CallRead local rows (rm_mem_type remote) (rm_agent_name remote) note) read_answer in
       set_load r (fun l => l <| ld_handles ::= fun hs => hs ++ [handle] |>);;;
       let! state := call (CallTransfer handle) transfer_answer in
       if bool_decide (state = ERR)
       then raise (RuntimeError ("NIXL refused the read from producer rank " +:+ pretty p))
       else set_load r (fun l => l <| ld_num_bytes ::= Z.add (descs_bytes local) |>));;;
    set_load r (fun l => l <| ld_unnotified ::= fun u => u ∖ {[p]} |>).

Fixpoint post_shares (r : string) (req : ReqToRecv) (first : bool) (shares : list Share) : M NixlWorker unit :=
  match shares with
  | [] => ret tt
  | s :: rest => post_share r req first s;;; post_shares r req false rest
  end.

(** One unnotified rank of [_fail]. *)
Definition release_rank (r : string) (req : ReqToRecv) (p : Z) : M NixlWorker unit :=
  let! w := gets id in
  match nw_remotes w !! remote_key req p with
  | Some remote =>
      when (bool_decide (rm_engine_id remote = remote_engine_id req))
        (let! readers := readers_of w req p in
         try_except (call (CallNotify (rm_agent_name remote) (notification (remote_request_id req) readers)) notify_answer)
           (fun _ => ret tt))
  | None => ret tt
  end;;;
  set_load r (fun l => l <| ld_unnotified ::= fun u => u ∖ {[p]} |>).

(** [_fail]; the unnotified ranks in some order. *)
Definition fail_load (r : string) : M NixlWorker unit :=
  let! w := gets id in
  let! l := or_raise (nw_loads w !! r) KeyError in
  set_load r (fun l => l <| ld_failed := true |>);;;
  for_each (elements (ld_unnotified l)) (release_rank r (ld_req l)).

(** [_start], at time [now]; the wait for the step in flight is not modelled. *)
Definition start_load (r : string) (req : ReqToRecv) (now : Qc) : M NixlWorker unit :=
  modify (fun w => w <| nw_loads ::= <[r := {| ld_req := req; ld_handles := []; ld_unnotified := ∅;
    ld_started := now; ld_num_bytes := 0; ld_failed := false |}]> |>);;;
  try_except
    (let! w := gets id in
     let! shares := checked_shares (nw_rank w) (nw_tp_size w) (remote_tp_size req) (heads_of w req) in
     set_load r (fun l => l <| ld_unnotified := list_to_set (sh_remote_rank <$> shares) |>);;;
     post_shares r req true shares)
    (fun _ => fail_load r).

End Transfers.

(** ** Posting a load *)

(** What the transfer thread never changes. *)
Definition Static (w w' : NixlWorker) : Prop :=
  nw_engine_id w' = nw_engine_id w /\ nw_rank w' = nw_rank w /\ nw_tp_size w' = nw_tp_size w /\
  nw_block_size w' = nw_block_size w /\ nw_caches w' = nw_caches w.

Lemma Static_refl w : Static w w.
Proof. done. Qed.

Lemma Static_trans w1 w2 w3 : Static w1 w2 -> Static w2 w3 -> Static w1 w3.
Proof. unfold Static. intros (? & ? & ? & ? & ?) (? & ? & ? & ? & ?). by split_and!; etrans. Qed.

Lemma Static_heads w w' req : Static w w' -> heads_of w' req = heads_of w req.
Proof. intros (_ & _ & Ht & _ & Hc). unfold heads_of, nw_num_heads. by rewrite Ht, Hc. Qed.

(** The producer's divisions are sound: every rank holds a head. *)
Definition WorkerOk (w : NixlWorker) : Prop :=
  (0 < nw_tp_size w)%Z /\ (nw_num_heads w = 0 \/ 0 < nw_num_heads w / nw_tp_size w)%Z.

Lemma heads_local w req :
  WorkerOk w -> remote_tp_size req <> 0%Z -> (heads_of w req / nw_tp_size w <> 0)%Z.
Proof.
  intros [Ht Hh] Hr. unfold heads_of. destruct (Z.eqb_spec (nw_num_heads w) 0) as [H0|H0]; [|destruct Hh; lia].
  pose proof (Z.divide_lcm_l (nw_tp_size w) (remote_tp_size req)) as [k Hk].
  pose proof (Z.lcm_nonneg (nw_tp_size w) (remote_tp_size req)).
  assert (Z.lcm (nw_tp_size w) (remote_tp_size req) <> 0)%Z by (rewrite Z.lcm_eq_0; lia).
  rewrite Hk in *. rewrite Z.div_mul by lia. nia.
Qed.

Section Posting.
Context `{Peer}.
Variables (r : string) (req : ReqToRecv) (w0 : NixlWorker).
Hypothesis Hok : WorkerOk w0.

(** How many consumer ranks read producer rank [p], and the text that says so. *)
Definition readers_at (p : Z) : Z :=
  Zlen (head_shares p (remote_tp_size req) (nw_tp_size w0) (heads_of w0 req)).
Definition note_at (p : Z) : string := notification (remote_request_id req) (readers_at p).

(** Rank [p] is known in [w]: its agent is the one the request names. *)
Definition known_as (w : NixlWorker) (p : Z) (a : string) : Prop :=
  exists rm, nw_remotes w !! remote_key req p = Some rm /\ rm_engine_id rm = remote_engine_id req /\
    rm_agent_name rm = a.

(** In the calls [l], this load's read of rank [p] was started: NIXL answered the
    read, which carries the notification, with a handle, and the transfer of that
    handle with another state than ERR. *)
Definition read_started (l : list AgentCall) (p : Z) (a : string) (h : nat) : Prop :=
  exists calls local remote t st, let posted := nw_calls w0 ++ calls ++ [CallRead local remote t a (note_at p)] in
    read_answer posted = inr h /\ transfer_answer (posted ++ [CallTransfer h]) = inr st /\ st <> ERR /\
    posted ++ [CallTransfer h] `prefix_of` l.

(** The notification was sent alone, with this answer. *)
Definition notify_answered (l : list AgentCall) (p : Z) (a : string) (answer : exn + unit) : Prop :=
  exists calls, let sent := nw_calls w0 ++ calls ++ [CallNotify a (note_at p)] in
    notify_answer sent = answer /\ sent `prefix_of` l.

(** The load will be polled for this read. *)
Definition handle_kept (w : NixlWorker) (h : nat) : Prop := exists l, nw_loads w !! r = Some l /\ h ∈ ld_handles l.

(** Rank [p] learns that this rank is done with its blocks: from a read that was
    started, and is polled for, or from a notification that was sent. *)
Definition Told (w : NixlWorker) (p : Z) : Prop :=
  exists a, known_as w p a /\
    (notify_answered (nw_calls w) p a (inr tt) \/ exists h, read_started (nw_calls w) p a h /\ handle_kept w h).

(** A step for rank [p]: it may change what is known of that rank alone, and
    leaves the load's request and its unnotified ranks. *)
Definition Grows (p : Z) (w w' : NixlWorker) : Prop :=
  Static w w' /\ (exists more, nw_calls w' = nw_calls w ++ more) /\
  (forall k, k <> remote_key req p -> nw_remotes w' !! k = nw_remotes w !! k) /\
  (forall l, nw_loads w !! r = Some l -> exists l', nw_loads w' !! r = Some l' /\
     ld_req l' = ld_req l /\ ld_unnotified l' = ld_unnotified l /\ ld_failed l' = ld_failed l /\
     ld_handles l `prefix_of` ld_handles l').

Lemma Grows_refl p w : Grows p w w.
Proof. split_and!; [done | by exists []; rewrite app_nil_r | done | eauto 6]. Qed.

Lemma Grows_trans p w1 w2 w3 : Grows p w1 w2 -> Grows p w2 w3 -> Grows p w1 w3.
Proof.
  intros (S1 & [m1 C1] & R1 & L1) (S2 & [m2 C2] & R2 & L2). split_and!.
  - by eapply Static_trans.
  - exists (m1 ++ m2). by rewrite C2, C1, app_assoc.
  - intros k Hk. by rewrite R2, R1.
  - intros l Hl. destruct (L1 l Hl) as (l2 & H2 & ? & ? & ? & ?). destruct (L2 l2 H2) as (l3 & ? & ? & ? & ? & ?).
    exists l3. split_and!; [done | congruence.. | by etrans].
Qed.

Lemma remote_key_ne p q : p <> q -> remote_key req p <> remote_key req q.
Proof. unfold remote_key. intros Hpq [= Heq]. lia. Qed.

(** What was told stays told, as long as the rank's agent, the calls and the
    load's handles are kept. *)
Lemma Told_later p w w' :
  nw_remotes w' !! remote_key req p = nw_remotes w !! remote_key req p -> nw_calls w `prefix_of` nw_calls w' ->
  (forall h, handle_kept w h -> handle_kept w' h) -> Told w p -> Told w' p.
Proof.
  intros Hr Hc Hh (a & (rm & Hrm & He & Ha) & Ht). exists a. split; [exists rm; by rewrite Hr|].
  destruct Ht as [(calls & Hn & Hp)|(h & (calls & lo & re & t & st & H1 & H2 & H3 & Hp) & Hk)].
  - left. exists calls. split; [done|by etrans].
  - right. exists h. split; [|by apply Hh]. exists calls, lo, re, t, st. split_and!; [done..|by etrans].
Qed.

Lemma Grows_handles p w w' h : Grows p w w' -> handle_kept w h -> handle_kept w' h.
Proof.
  intros (_ & _ & _ & L) (l & Hl & Hh). destruct (L l Hl) as (l' & Hl' & _ & _ & _ & [k Hk]). exists l'.
  split; [done|]. rewrite Hk. apply elem_of_app. by left.
Qed.

Lemma Grows_calls p w w' : Grows p w w' -> nw_calls w `prefix_of` nw_calls w'.
Proof. intros (_ & [m ->] & _). by exists m. Qed.

Lemma Told_grows p q w w' : p <> q -> Grows q w w' -> Told w p -> Told w' p.
Proof.
  intros Hpq Hg. apply Told_later; [|by eapply Grows_calls|by intros h; eapply Grows_handles].
  destruct Hg as (_ & _ & Hr & _). apply Hr. by apply remote_key_ne.
Qed.

Lemma call_grows {A} p c (answer : list AgentCall -> exn + A) w :
  ends (call c answer) w (fun a w' => Grows p w w' /\ nw_calls w' = nw_calls w ++ [c] /\ nw_remotes w' = nw_remotes w /\
       answer (nw_calls w ++ [c]) = inr a)
    (fun w' => Grows p w w').
Proof.
  assert (Grows p w (w <| nw_calls ::= fun l => l ++ [c] |>)) as Hg
    by (split_and!; [done | by exists [c] | done | eauto 6]).
  unfold ends, call, bind, modify, gets. cbn [nw_calls]. change (nw_calls (_ <| nw_calls ::= _ |>)) with (nw_calls w ++ [c]).
  by destruct (answer _) eqn:Ha.
Qed.

Lemma ends_or_raise {S A} (o : option A) e (s : S) Q X :
  (forall a, o = Some a -> Q a s) -> X s -> ends (or_raise o e) s Q X.
Proof. unfold ends, or_raise. destruct o; intros Hq Hx; [by apply Hq | done]. Qed.

Lemma handshake_grows p w :
  ends (handshake req p) w
    (fun rm w' => Grows p w w' /\ nw_remotes w' !! remote_key req p = Some rm /\ rm_engine_id rm = remote_engine_id req)
    (fun w' => Grows p w w').
Proof.
  unfold handshake. cbv zeta. apply ends_bind. unfold ends at 1, gets.
  set (ask := bind (call _ _) _).
  assert (forall w1, Grows p w w1 -> ends ask w1
    (fun rm w' => Grows p w w' /\ nw_remotes w' !! remote_key req p = Some rm /\ rm_engine_id rm = remote_engine_id req)
    (fun w' => Grows p w w')) as Hask.
  { intros w1 H1. unfold ask. apply ends_bind.
    eapply ends_mono; [apply (call_grows p)| |intros w'; by apply Grows_trans].
    intros answer w2 (H2 & _). pose proof (Grows_trans _ _ _ _ H1 H2) as H12. apply ends_bind.
    apply ends_or_raise; [|done]. intros [[err|d] metadata] _; [done|].
    destruct (bool_decide (ds_engine_id d = _)) eqn:He; [|done]. apply bool_decide_eq_true in He. cbn [negb].
    destruct (_ =? _)%Z; [|done]. cbn [negb]. apply ends_bind. unfold ends at 1, gets.
    destruct (bool_decide (ds_layout d = _)); [|done]. cbn [negb]. apply ends_bind.
    eapply ends_mono; [apply (call_grows p)| |intros w'; by apply Grows_trans].
    intros name w3 (H3 & _). pose proof (Grows_trans _ _ _ _ H12 H3) as (S3 & C3 & R3 & L3).
    unfold ends, bind, modify, ret. split_and!; [|apply lookup_insert_eq | done].
    split_and!; [done | done | | done]. intros k Hk. simpl. by rewrite lookup_insert_ne, R3. }
  destruct (nw_remotes w !! remote_key req p) as [rm|] eqn:Hrm; [|apply Hask, Grows_refl].
  case_bool_decide as He; [by split; [apply Grows_refl|]|].
  apply ends_bind. unfold ends at 1, modify.
  assert (Grows p w (w <| nw_remotes ::= delete (remote_key req p) |>)) as Hd.
  { split_and!; [done | by exists []; rewrite app_nil_r | | eauto 6]. intros k Hk. simpl. by rewrite lookup_delete_ne. }
  apply ends_bind. eapply ends_mono; [apply (call_grows p)| |intros w'; by apply Grows_trans].
  intros _ w2 (H2 & _). apply Hask. by eapply Grows_trans.
Qed.

(** ** The loop over the shares *)

(** Those of [done_] are told, those of [rest] still unnotified. *)
Definition Posted (done_ rest : list Z) (w : NixlWorker) : Prop :=
  Static w0 w /\ (exists calls, nw_calls w = nw_calls w0 ++ calls) /\
  (exists l, nw_loads w !! r = Some l /\ ld_req l = req /\ ld_failed l = false /\
     forall p, p ∈ ld_unnotified l <-> p ∈ rest) /\
  forall p, p ∈ done_ -> Told w p.

Lemma Posted_grows p done_ rest w w' : p ∉ done_ -> Grows p w w' -> Posted done_ rest w -> Posted done_ rest w'.
Proof.
  intros Hp Hg (Hs & [calls Hc] & (l & Hl & Hr & Hf & Hu) & Ht).
  pose proof Hg as (S1 & [more M1] & _ & L1). split_and!.
  - by eapply Static_trans.
  - exists (calls ++ more). by rewrite M1, Hc, app_assoc.
  - destruct (L1 l Hl) as (l' & ? & ? & Hu' & ? & _). exists l'. rewrite Hu'. split_and!; [done | congruence | congruence | done].
  - intros q Hq. eapply Told_grows; [|exact Hg | by apply Ht]. set_solver.
Qed.

Lemma set_load_grows p f w :
  (forall l, ld_req (f l) = ld_req l /\ ld_unnotified (f l) = ld_unnotified l /\ ld_failed (f l) = ld_failed l /\
     ld_handles l `prefix_of` ld_handles (f l)) ->
  ends (set_load r f) w (fun _ w' => Grows p w w' /\ nw_remotes w' = nw_remotes w /\ nw_calls w' = nw_calls w /\
    nw_loads w' = alter f r (nw_loads w)) (fun _ => False).
Proof.
  intros Hf. unfold ends, set_load, modify. split_and!; [|done..]. split_and!; [done | by exists []; rewrite app_nil_r | done|].
  intros l Hl. exists (f l). simpl. rewrite lookup_alter_eq, Hl. by destruct (Hf l) as (? & ? & ? & ?).
Qed.

Lemma readers_of_at w p Q X :
  Static w0 w -> Q (readers_at p) w -> X w -> ends (readers_of w req p) w Q X.
Proof.
  intros Hs Hq Hx. unfold ends, readers_of, checked_shares, bind, ret, raise.
  destruct (_ || _); [done|]. rewrite (Static_heads _ _ _ Hs). destruct Hs as (_ & _ & -> & _). exact Hq.
Qed.

Lemma checked_descs_ends {S} regions ids a b c d (s : S) Q X :
  (forall rows, Q rows s) -> X s -> ends (checked_descs regions ids a b c d) s Q X.
Proof. intros Hq Hx. unfold ends, checked_descs. destruct (existsb _ _); [exact Hx | apply Hq]. Qed.

(** The share's last statement, once its rank is told. *)
Lemma discard_posted done_ p rest w :
  NoDup (done_ ++ p :: rest) -> Posted done_ (p :: rest) w -> Told w p ->
  ends (set_load r (fun l => l <| ld_unnotified ::= fun u => u ∖ {[p]} |>)) w
    (fun _ w' => Posted (done_ ++ [p]) rest w') (fun _ => False).
Proof.
  intros Hd (Hs & Hc & (l & Hl & Hr & Hf & Hu) & Ht) Hp. unfold ends, set_load, modify. split_and!; [done | done | |].
  - exists (l <| ld_unnotified ::= fun u => u ∖ {[p]} |>). simpl. rewrite lookup_alter_eq, Hl. split_and!; [done | done | done|].
    intros q. apply NoDup_app in Hd as (_ & _ & [Hd _]%NoDup_cons).
    rewrite elem_of_difference, Hu, elem_of_cons, elem_of_singleton. naive_solver.
  - intros q Hq. apply (Told_later q w); [done|done| |].
    + intros h (l' & Hl' & Hh). exists (l' <| ld_unnotified ::= fun u => u ∖ {[p]} |>). simpl.
      by rewrite lookup_alter_eq, Hl'.
    + apply elem_of_app in Hq as [Hq|Hq]; [by apply Ht|]. by apply list_elem_of_singleton in Hq as ->.
Qed.

(** The notification of a share of which nothing is read. *)
Lemma notify_tells done_ p rest rm w :
  p ∉ done_ -> Posted done_ (p :: rest) w ->
  nw_remotes w !! remote_key req p = Some rm -> rm_engine_id rm = remote_engine_id req ->
  ends (call (CallNotify (rm_agent_name rm) (note_at p)) notify_answer) w
    (fun _ w' => Posted done_ (p :: rest) w' /\ Told w' p) (fun w' => Posted done_ (p :: rest) w').
Proof.
  intros Hp Hw Hrm He. eapply ends_mono; [apply (call_grows p)| |intros w' Hg; by eapply Posted_grows].
  intros [] w' (Hg & Hcalls & Hr & Ha). split; [by eapply Posted_grows|].
  destruct Hw as (_ & [calls Hcs] & _). exists (rm_agent_name rm). split; [exists rm; by rewrite Hr|]. left.
  exists calls. cbv zeta. rewrite Hcs in Ha, Hcalls. rewrite <- app_assoc in Ha, Hcalls. by rewrite Hcalls.
Qed.

(** The read of a share: posted, started, and its bytes counted. *)
Lemma read_tells done_ p rest rm w local rows t :
  p ∉ done_ -> Posted done_ (p :: rest) w ->
  nw_remotes w !! remote_key req p = Some rm -> rm_engine_id rm = remote_engine_id req ->
  ends (let! handle := call (CallRead local rows t (rm_agent_name rm) (note_at p)) read_answer in
        set_load r (fun l => l <| ld_handles ::= fun hs => hs ++ [handle] |>);;;
        let! state := call (CallTransfer handle) transfer_answer in
        if bool_decide (state = ERR)
        then raise (RuntimeError ("NIXL refused the read from producer rank " +:+ pretty p))
        else set_load r (fun l => l <| ld_num_bytes ::= Z.add (descs_bytes local) |>)) w
    (fun _ w' => Posted done_ (p :: rest) w' /\ Told w' p) (fun w' => Posted done_ (p :: rest) w').
Proof.
  intros Hp Hw Hrm He. apply ends_bind. eapply ends_mono; [apply (call_grows p)| |intros w' Hg; by eapply Posted_grows].
  intros h w1 (G1 & C1 & R1 & A1). pose proof (Posted_grows p done_ (p :: rest) _ _ Hp G1 Hw) as Hw1.
  apply ends_bind. eapply ends_mono; [apply (set_load_grows p); intros l; split_and!; [done.. | by eexists]| |done].
  intros _ w2 (G2 & R2 & C2 & L2). pose proof (Posted_grows p done_ (p :: rest) _ _ Hp G2 Hw1) as Hw2.
  assert (handle_kept w2 h) as Hk.
  { destruct Hw1 as (_ & _ & (l & Hl & _) & _). eexists. rewrite L2, lookup_alter_eq, Hl. split; [done|]. simpl.
    apply elem_of_app. right. by apply list_elem_of_singleton. }
  apply ends_bind. eapply ends_mono; [apply (call_grows p)| |intros w' Hg; by eapply Posted_grows].
  intros st w3 (G3 & C3 & R3 & A3). pose proof (Posted_grows p done_ (p :: rest) _ _ Hp G3 Hw2) as Hw3.
  case_bool_decide as Hst; [done|].
  eapply ends_mono; [apply (set_load_grows p); by intros l; split_and!| |done]. intros _ w4 (G4 & R4 & C4 & _).
  split; [by eapply Posted_grows|]. exists (rm_agent_name rm). split; [exists rm; by rewrite R4, R3, R2, R1|].
  right. exists h. split; [|by eapply Grows_handles, Grows_handles].
  destruct Hw as (_ & [calls Hcs] & _). exists calls, local, rows, t, st. cbv zeta.
  rewrite (app_assoc (nw_calls w0)), <- Hcs. rewrite C2, C1 in A3. by rewrite C4, C3, C2, C1.
Qed.

Lemma post_share_posted first s done_ rest w :
  let p := sh_remote_rank s in
  NoDup (done_ ++ p :: rest) -> Posted done_ (p :: rest) w ->
  ends (post_share r req first s) w (fun _ w' => Posted (done_ ++ [p]) rest w')
    (fun w' => Posted done_ (p :: rest) w').
Proof.
  intros p Hd Hw. unfold post_share. fold p.
  assert (p ∉ done_) as Hp.
  { apply NoDup_app in Hd as (_ & Hd & _). intros Hp. apply (Hd p Hp). apply list_elem_of_here. }
  apply ends_bind. eapply ends_mono; [apply handshake_grows| |intros w' Hg; by eapply Posted_grows].
  intros rm w1 (G1 & Hrm & He). pose proof (Posted_grows p done_ (p :: rest) _ _ Hp G1 Hw) as Hw1.
  destruct (_ <=? _)%Z; [exact Hw1|]. apply ends_bind. unfold ends at 1, gets. apply ends_bind.
  apply readers_of_at; [apply Hw1 | | done]. cbv zeta. apply ends_bind. apply checked_descs_ends; [|done].
  intros local. apply ends_bind.
  apply (ends_mono _ _ (fun _ w' => Posted done_ (p :: rest) w' /\ Told w' p) _ (fun w' => Posted done_ (p :: rest) w') _);
    [|intros _ w' [Hw' Ht]; eapply ends_mono; [by apply (discard_posted done_ p rest)|done|done]|done].
  case_bool_decide as Hl.
  - by apply notify_tells.
  - apply ends_bind. apply checked_descs_ends; [|done]. intros rows. by apply read_tells.
Qed.

Lemma post_shares_posted first shares done_ w :
  NoDup (done_ ++ (sh_remote_rank <$> shares)) -> Posted done_ (sh_remote_rank <$> shares) w ->
  ends (post_shares r req first shares) w (fun _ w' => Posted (done_ ++ (sh_remote_rank <$> shares)) [] w')
    (fun w' => exists d rest, done_ ++ (sh_remote_rank <$> shares) = d ++ rest /\ Posted d rest w').
Proof.
  revert first done_ w. induction shares as [|s shares IH]; intros first done_ w Hd Hw; rewrite ?fmap_cons in *; cbn [post_shares].
  - by rewrite app_nil_r.
  - apply ends_bind. eapply ends_mono; [exact (post_share_posted first s done_ _ w Hd Hw)| |].
    + intros [] w1 Hw1.
      assert (done_ ++ sh_remote_rank s :: (sh_remote_rank <$> shares) =
        (done_ ++ [sh_remote_rank s]) ++ (sh_remote_rank <$> shares)) as Heq by by rewrite <- app_assoc.
      rewrite Heq. apply IH; [by rewrite <- Heq | done].
    + intros w1 Hw1. by exists done_, (sh_remote_rank s :: (sh_remote_rank <$> shares)).
Qed.

(** ** Giving up *)

(** Rank [p] is told; or its notification was refused, which leaves it to the
    producer's timeout; or nothing tells the worker how to reach it. *)
Definition Settled (w : NixlWorker) (p : Z) : Prop :=
  Told w p \/ (exists a e, known_as w p a /\ notify_answered (nw_calls w) p a (inl e)) \/ ~ exists a, known_as w p a.

Lemma Settled_same p w w' :
  nw_remotes w' = nw_remotes w -> nw_calls w `prefix_of` nw_calls w' ->
  (forall h, handle_kept w h -> handle_kept w' h) -> Settled w p -> Settled w' p.
Proof.
  intros Hr Hc Hh [Ht|[(a & e & (rm & Hrm & ?) & calls & Hn & Hp)|Hn]]; [left|right; left|right; right].
  - eapply Told_later; [by rewrite Hr|done|done|done].
  - exists a, e. split; [exists rm; by rewrite Hr|]. exists calls. split; [done|by etrans].
  - intros (a & rm & Hrm & He). apply Hn. exists a, rm. by rewrite <- Hr.
Qed.

(** The load's ranks in [u] are left. *)
Definition Leaving (u : gset Z) (w : NixlWorker) : Prop :=
  Static w0 w /\ (exists calls, nw_calls w = nw_calls w0 ++ calls) /\
  exists l, nw_loads w !! r = Some l /\ ld_req l = req /\ ld_failed l = true /\ ld_unnotified l = u.

Lemma release_rank_leaving p u w :
  remote_tp_size req <> 0%Z -> Leaving u w ->
  wp (release_rank r req p) w (fun _ w' => Leaving (u ∖ {[p]}) w' /\ Settled w' p /\
    forall q, Settled w q -> Settled w' q).
Proof.
  intros Hrtp (Hs & [calls Hc] & l & Hl & Hreq & Hf & Hu). unfold release_rank. wp_steps.
  apply (wp_mono _ _ (fun _ w1 => Static w0 w1 /\ nw_loads w1 = nw_loads w /\ nw_remotes w1 = nw_remotes w /\
    (exists more, nw_calls w1 = nw_calls w ++ more) /\ Settled w1 p)).
  - unfold id. destruct (nw_remotes w !! remote_key req p) as [rm|] eqn:Hrm; cycle 1.
    { wp_step. split_and!; [done | done | done | by exists []; rewrite app_nil_r|]. right; right.
      intros (a & rm & Hrm' & _). congruence. }
    apply wp_when; intros He; cycle 1.
    { split_and!; [done | done | done | by exists []; rewrite app_nil_r|]. right; right.
      apply bool_decide_eq_false in He. intros (a & rm' & Hrm' & He' & _). congruence. }
    apply bool_decide_eq_true in He. apply wp_bind. unfold wp at 1, readers_of, checked_shares, bind at 1.
    rewrite (Static_heads _ _ _ Hs). pose proof (heads_local _ _ Hok Hrtp) as Hh. destruct Hok as [Ht _].
    pose proof Hs as (_ & _ & Etp & _). rewrite Etp.
    destruct (Z.eqb_spec (nw_tp_size w0) 0); [lia|]. destruct (Z.eqb_spec (heads_of w0 req / nw_tp_size w0) 0); [lia|].
    cbn [orb ret bind]. unfold bind, ret. cbv beta.
    change (Zlen (head_shares p (remote_tp_size req) (nw_tp_size w0) (heads_of w0 req))) with (readers_at p).
    change (notification (remote_request_id req) (readers_at p)) with (note_at p).
    apply wp_try_ends. unfold ends, call, bind, modify, gets.
    set (w1 := w <| nw_calls ::= _ |>).
    assert (known_as w1 p (rm_agent_name rm)) as Hknown by by exists rm.
    assert (nw_calls w1 = nw_calls w0 ++ calls ++ [CallNotify (rm_agent_name rm) (note_at p)]) as Hc1
      by by (simpl; rewrite Hc, app_assoc).
    assert (forall answer, notify_answer (nw_calls w1) = answer -> notify_answered (nw_calls w1) p (rm_agent_name rm) answer) as Hn.
    { intros answer Ha. exists calls. cbv zeta. by rewrite <- Hc1. }
    destruct (notify_answer (nw_calls w1)) as [e|[]] eqn:Ha; [intros _; apply wp_ret|];
      (split_and!; [done | done | done | by eexists |]).
    + right; left. exists (rm_agent_name rm), e. auto.
    + left. exists (rm_agent_name rm). auto.
  - intros _ w1 (S1 & L1 & R1 & [more M1] & Hset). unfold set_load. wp_step.
    assert (forall h, handle_kept w1 h -> handle_kept (w1 <| nw_loads ::= alter (fun l => l <| ld_unnotified ::= fun u => u ∖ {[p]} |>) r |>) h) as Hk.
    { intros h (l' & Hl' & Hh). exists (l' <| ld_unnotified ::= fun u => u ∖ {[p]} |>). simpl. by rewrite lookup_alter_eq, Hl'. }
    assert (forall q, Settled w1 q -> Settled (w1 <| nw_loads ::= alter (fun l => l <| ld_unnotified ::= fun u => u ∖ {[p]} |>) r |>) q) as Hlast.
    { intros q. by apply Settled_same. }
    split_and!; [split_and!|..].
    + exact S1.
    + exists (calls ++ more). simpl. by rewrite M1, Hc, app_assoc.
    + exists (l <| ld_unnotified ::= fun u => u ∖ {[p]} |>). simpl. rewrite L1, lookup_alter_eq, Hl, Hu. done.
    + by apply Hlast.
    + intros q Hq. apply Hlast. eapply (Settled_same q w); [done|by exists more| |done].
      intros h (l' & Hl' & Hh). exists l'. by rewrite L1.
Qed.

Lemma fail_load_settles u w :
  remote_tp_size req <> 0%Z \/ u = ∅ ->
  Static w0 w -> (exists calls, nw_calls w = nw_calls w0 ++ calls) ->
  (exists l, nw_loads w !! r = Some l /\ ld_req l = req /\ ld_unnotified l = u) ->
  wp (fail_load r) w (fun _ w' => Leaving ∅ w' /\ (forall p, p ∈ u -> Settled w' p) /\
    forall p, Settled w p -> Settled w' p).
Proof.
  intros Hu Hs Hc (l & Hl & Hreq & Hlu). unfold fail_load. wp_steps. unfold id.
  eapply wp_or_raise; [exact Hl|]. rewrite Hreq, Hlu. apply wp_bind. unfold set_load at 1. apply wp_modify.
  set (w1 := w <| nw_loads ::= alter (fun l => l <| ld_failed := true |>) r |>).
  assert (Leaving u w1) as H1.
  { split_and!; [done | done|]. exists (l <| ld_failed := true |>). simpl. by rewrite lookup_alter_eq, Hl. }
  eapply wp_mono.
  - apply (wp_for_each (elements u) (release_rank r req) w1 (fun seen w' => Leaving (u ∖ list_to_set seen) w' /\
      (forall p, p ∈ seen -> Settled w' p) /\ forall p, Settled w p -> Settled w' p)).
    + split_and!; [by rewrite list_to_set_nil, difference_empty_L | by intros p ?%not_elem_of_nil|].
      intros p Hp. eapply (Settled_same p w w1); [done | done | | done].
      intros h (l' & Hl' & Hh). exists (l' <| ld_failed := true |>). simpl. by rewrite lookup_alter_eq, Hl'.
    + intros seen p rest w2 Heq (HL & Hseen & Hold).
      assert (remote_tp_size req <> 0%Z) as Hrtp.
      { destruct Hu as [Hu| ->]; [done|]. rewrite elements_empty in Heq. by destruct seen. }
      eapply wp_mono; [by apply release_rank_leaving|]. cbv beta. intros [] w3 (HL3 & Hp & Hkeep).
      rewrite list_to_set_app_L, list_to_set_singleton_L, <- difference_difference_l_L. split_and!; [done | | eauto].
      intros q [Hq|Hq]%elem_of_app; [eauto | by apply list_elem_of_singleton in Hq as ->].
  - cbv beta. intros [] w2 (HL & Hset & Hold). rewrite list_to_set_elements_L, difference_diag_L in HL.
    split_and!; [done | | done]. intros p Hp. apply Hset. by apply elem_of_elements.
Qed.

(** ** The whole of [_start] *)

(** Whether the shares can be computed, and their producer ranks. *)
Definition divisible : bool := negb ((remote_tp_size req =? 0)%Z || (heads_of w0 req / remote_tp_size req =? 0)%Z).
Definition share_ranks : list Z :=
  sh_remote_rank <$> head_shares (nw_rank w0) (nw_tp_size w0) (remote_tp_size req) (heads_of w0 req).

Lemma share_ranks_NoDup : NoDup share_ranks.
Proof.
  unfold share_ranks, head_shares. rewrite <- list_fmap_compose, (list_fmap_ext _ id), list_fmap_id by done. apply NoDup_seqZ.
Qed.

Definition Started (w : NixlWorker) : Prop :=
  Static w0 w /\ exists l, nw_loads w !! r = Some l /\ ld_req l = req /\ ld_unnotified l = ∅ /\
    if ld_failed l then divisible = true -> forall p, p ∈ share_ranks -> Settled w p
    else divisible = true /\ forall p, p ∈ share_ranks -> Told w p.

Lemma start_load_settles now : wp (start_load r req now) w0 (fun _ w => Started w).
Proof.
  unfold start_load. apply wp_bind, wp_modify. set (w1 := w0 <| nw_loads ::= _ |>).
  assert (nw_loads w1 !! r = Some {| ld_req := req; ld_handles := []; ld_unnotified := ∅;
    ld_started := now; ld_num_bytes := 0; ld_failed := false |}) as Hl1 by apply lookup_insert_eq.
  assert (exists calls, nw_calls w1 = nw_calls w0 ++ calls) as Hc1 by (exists []; by rewrite app_nil_r).
  apply wp_try_ends, ends_bind. unfold ends at 1, gets, id. apply ends_bind. unfold checked_shares.
  rewrite (Static_heads w0 w1 req (Static_refl w0)). fold (heads_of w0 req).
  destruct (_ || _) eqn:Hdiv.
  { unfold ends, raise. intros _. eapply wp_mono; [apply (fail_load_settles ∅ w1); [by right | done | done | by eexists]|].
    intros [] w2 ((Hs & _ & l & Hl & Hr & Hf & Hu) & _). split; [done|]. exists l. rewrite Hf. split_and!; [done..|].
    unfold divisible. by rewrite Hdiv. }
  assert (remote_tp_size req <> 0%Z) as Hrtp by (intros Hz; by rewrite Hz in Hdiv).
  change (nw_rank w1) with (nw_rank w0). change (nw_tp_size w1) with (nw_tp_size w0).
  unfold ends at 1, ret. apply ends_bind. unfold set_load at 1, ends at 1, modify.
  set (w2 := w1 <| nw_loads ::= alter (fun l => l <| ld_unnotified := list_to_set share_ranks |>) r |>).
  assert (Posted [] share_ranks w2) as H2.
  { split_and!; [done | done | | by intros p ?%not_elem_of_nil]. eexists. simpl. rewrite lookup_alter_eq, lookup_insert_eq.
    split_and!; [done | done | done|]. intros p. simpl. apply elem_of_list_to_set. }
  eapply ends_mono; [apply (post_shares_posted true _ []); [exact share_ranks_NoDup | exact H2]|..]; cbv beta.
  - intros [] w3 (Hs & _ & (l & Hl & Hr & Hf & Hu) & Ht). split; [done|]. exists l. rewrite Hf. split_and!; [done | done | | |].
    + apply set_eq. intros p. rewrite Hu. set_solver.
    + unfold divisible. by rewrite Hdiv.
    + intros p Hp. by apply Ht.
  - intros w3 (d & rest & Heq & Hs & Hc & (l & Hl & Hr & Hf & Hu) & Ht) _. simpl in Heq. fold share_ranks in Heq.
    eapply wp_mono; [apply (fail_load_settles (ld_unnotified l) w3); [by left | done | done | by exists l]|].
    intros [] w4 ((Hs4 & _ & l4 & Hl4 & Hr4 & Hf4 & Hu4) & Hset & Hold). split; [done|]. exists l4.
    rewrite Hf4. split_and!; [done..|]. intros _ p. rewrite Heq. intros [Hp|Hp]%elem_of_app.
    + apply Hold. left. by apply Ht.
    + apply Hset. by apply Hu.
Qed.

End Posting.

(** ** The notifications' round trip *)

Fixpoint all_digits (s : string) : bool :=
  match s with
  | EmptyString => true
  | String c s' => bool_decide (is_Some (digit c)) && all_digits s'
  end.

Lemma digit_char x : (x < 10)%N -> digit (pretty_N_char x) = Some (Z.of_N x).
Proof.
  intros Hx.
  assert (x ∈ [0; 1; 2; 3; 4; 5; 6; 7; 8; 9]%N) as Hin by (rewrite !elem_of_cons, elem_of_nil; lia).
  repeat (apply elem_of_cons in Hin as [->|Hin]; [reflexivity|]). by apply not_elem_of_nil in Hin.
Qed.

Lemma all_digits_go x s : all_digits s = true -> all_digits (pretty_N_go x s) = true.
Proof.
  revert s. induction (N.lt_wf_0 x) as [x _ IH]; intros s Hs. destruct (decide (x = 0)%N) as [->|Hx]; [done|].
  rewrite pretty_N_go_step by lia. apply IH; [apply N.div_lt; lia|]. cbn [all_digits].
  rewrite digit_char by (apply N.mod_lt; lia). by rewrite bool_decide_eq_true_2 by eauto.
Qed.

Lemma digits_from_go x s : digits_from 0 (pretty_N_go x s) = digits_from (Z.of_N x) s.
Proof.
  revert s. induction (N.lt_wf_0 x) as [x _ IH]; intros s. destruct (decide (x = 0)%N) as [->|Hx]; [done|].
  rewrite pretty_N_go_step by lia. rewrite IH by (apply N.div_lt; lia). cbn [digits_from].
  rewrite digit_char by (apply N.mod_lt; lia). f_equal.
  pose proof (N.div_mod x 10). lia.
Qed.

Lemma go_nonempty x s : (0 < x)%N \/ s <> "" -> pretty_N_go x s <> "".
Proof.
  revert s. induction (N.lt_wf_0 x) as [x _ IH]; intros s Hs. destruct (decide (x = 0)%N) as [->|Hx].
  - destruct Hs as [Hs|Hs]; [lia | exact Hs].
  - rewrite pretty_N_go_step by lia. apply IH; [apply N.div_lt; lia | by right].
Qed.

Lemma digit_range c d : digit c = Some d -> (48 <= N_of_ascii c <= 57)%N.
Proof.
  unfold digit. destruct (N.leb_spec 48 (N_of_ascii c)), (N.leb_spec (N_of_ascii c) 57); try done.
Qed.

Lemma digit_plain c : is_Some (digit c) -> is_blank c = false /\ c <> ":"%char /\ c <> "-"%char /\ c <> "+"%char.
Proof.
  intros [d Hd%digit_range]. split_and!; [unfold is_blank; cbv zeta; rewrite orb_false_iff, !andb_false_iff, !N.leb_gt; lia | intros ->..]; vm_compute in Hd; naive_solver.
Qed.

Lemma digits_strip s : all_digits s = true -> rstrip (lstrip s) = s.
Proof.
  assert (forall t, all_digits t = true -> rstrip t = t) as Hr.
  { induction t as [|c t IH]; [done|]. cbn [all_digits rstrip]. intros [Hc%bool_decide_eq_true Ht]%andb_prop.
    rewrite IH by done. destruct (digit_plain c Hc) as [-> _]. by destruct t. }
  destruct s as [|c s]; [done|]. intros Hs. pose proof Hs as Hs'. cbn [all_digits] in Hs'.
  apply andb_prop in Hs' as [Hc%bool_decide_eq_true _]. cbn [lstrip]. destruct (digit_plain c Hc) as [-> _].
  by apply Hr.
Qed.

(** An unsigned number's text is read back. *)
Lemma py_int_pretty n : (0 <= n)%Z -> py_int (pretty n) = Some n.
Proof.
  intros Hn. destruct n as [|n|n]; [reflexivity| |lia].
  assert (pretty (Z.pos n) = pretty_N_go (N.pos n) "") as -> by reflexivity.
  pose proof (all_digits_go (N.pos n) "" eq_refl) as Hd.
  pose proof (digits_from_go (N.pos n) "") as Hv.
  pose proof (go_nonempty (N.pos n) "" (or_introl eq_refl)) as Hne.
  revert Hd Hv Hne. generalize (pretty_N_go (N.pos n) "").
  intros [|c s] Hd Hv Hne; [done|]. unfold py_int. rewrite digits_strip by done.
  cbn [all_digits] in Hd. apply andb_prop in Hd as [Hc%bool_decide_eq_true _].
  destruct (digit_plain c Hc) as (_ & _ & Hm & Hp). rewrite !bool_decide_eq_false_2 by done.
  destruct Hc as [d Hc]. cbn [digits_from unsigned_int] in *. rewrite Hc in *. exact Hv.
Qed.

Lemma digits_no_colon s : all_digits s = true -> rsplit_colon s = None.
Proof.
  induction s as [|c s IH]; [done|]. cbn [all_digits rsplit_colon]. intros [Hc%bool_decide_eq_true Hs]%andb_prop.
  rewrite IH by done. destruct (digit_plain c Hc) as (_ & Hcol & _). by rewrite bool_decide_eq_false_2.
Qed.

Lemma rsplit_colon_last a b : rsplit_colon b = None -> rsplit_colon (a +:+ ":" +:+ b) = Some (a, b).
Proof.
  intros Hb. induction a as [|c a IH]; cbn [String.app rsplit_colon] in *.
  - change ("" +:+ ":" +:+ b) with (String ":" b). cbn [rsplit_colon]. by rewrite Hb.
  - change (String c a +:+ ":" +:+ b) with (String c (a +:+ ":" +:+ b)). cbn [rsplit_colon]. by rewrite IH.
Qed.

Lemma all_digits_pretty n : (0 <= n)%Z -> all_digits (pretty n) = true.
Proof. intros Hn. destruct n as [|n|n]; [done | by apply all_digits_go | lia]. Qed.

(** What a consumer sends, a producer reads, whatever the request's id. *)
Lemma notification_roundtrip rid n : (0 <= n)%Z -> parse_notification (notification rid n) = Some (rid, n).
Proof.
  intros Hn. unfold parse_notification, notification.
  rewrite rsplit_colon_last by by apply digits_no_colon, all_digits_pretty.
  by rewrite py_int_pretty.
Qed.

(** ** A negative size of the producer

    The strict model admits any integer as [tp_size]. A negative one leaves no
    shares, so posting the load reads nothing and does not fail. *)

Lemma negative_tp_no_shares rank tp rtp heads k :
  (0 <= rank)%Z -> (0 <= k)%Z -> (heads / rtp < 0)%Z -> (heads / tp = k * - (heads / rtp))%Z ->
  head_shares rank tp rtp heads = [].
Proof.
  intros Hr Hk Hn Hl. unfold head_shares. rewrite Hl.
  set (m := (heads / rtp)%Z) in *. unfold cdiv.
  replace (rank * (k * - m))%Z with (- (rank * k) * m)%Z by lia.
  replace (- ((rank + 1) * (k * - m)))%Z with ((rank + 1) * k * m)%Z by lia.
  rewrite !Z.div_mul by lia. by rewrite seqZ_nil by nia.
Qed.

Lemma negative_tp_start `{Peer} r req now w k :
  (0 <= nw_rank w)%Z -> (0 <= k)%Z -> (heads_of w req / remote_tp_size req < 0)%Z ->
  (heads_of w req / nw_tp_size w = k * - (heads_of w req / remote_tp_size req))%Z ->
  wp (start_load r req now) w (fun _ w' => nw_calls w' = nw_calls w /\
    exists l, nw_loads w' !! r = Some l /\ ld_handles l = [] /\ ld_failed l = false).
Proof.
  intros Hr Hk Hn Hl. unfold start_load. apply wp_bind, wp_modify. apply wp_try_ends, ends_bind.
  unfold ends at 1, gets, id. apply ends_bind. unfold checked_shares.
  change (heads_of (w <| nw_loads ::= _ |>) req) with (heads_of w req).
  destruct (Z.eqb_spec (remote_tp_size req) 0) as [Hz|Hz]; [by rewrite Hz, Z.div_0_r in Hn|].
  destruct (Z.eqb_spec (heads_of w req / remote_tp_size req) 0); [lia|]. cbn [orb].
  unfold ends at 1, ret. apply ends_bind. unfold set_load, ends at 1, modify. cbn [nw_rank nw_tp_size update_field].
  rewrite (negative_tp_no_shares _ _ _ _ k) by done. unfold ends. cbn [post_shares ret].
  split; [done|]. eexists. simpl. by rewrite lookup_alter_eq, lookup_insert_eq.
Qed.
