(* ===== verification/StopChecker.v ===== *)
(** * Stop strings

    [entrypoints/stop_checker.py]: the checker a stream passes its text
    through, holding back a tail a stop string could still start in. A [str]
    is the list of its characters. *)

From Stdlib Require Import Ascii.
From S2P Require Import Prelude.

Abbreviation text := (list ascii).

(** [str.find]: the first index where [s] occurs, or -1. *)
Fixpoint find_from (s t : text) (i : Z) : Z :=
  if decide (s `prefix_of` t) then i
  else match t with
       | [] => (-1)%Z
       | _ :: t' => find_from s t' (i + 1)
       end.

Definition py_find (t s : text) : Z := find_from s t 0.

Record StopChecker := {
  stop : list text;
  hold : Z;
  buffer : text;
  matched : bool
}.

#[export] Instance eta_StopChecker : Eta StopChecker := fun c =>
  Build_StopChecker (stop c) (hold c) (buffer c) (matched c).

Definition new_StopChecker (stops : list text) : StopChecker :=
  let stops := filter (fun s => s <> []) stops in
  {| stop := stops; hold := max_default (Zlen <$> stops) 1 - 1; buffer := []; matched := false |}.

(** The index to cut the buffer at, or -1. *)
Definition cut_at (c : StopChecker) : Z :=
  min_default (filter (fun i => (0 <= i)%Z) (py_find (buffer c) <$> stop c)) (-1).

Definition push (t : text) : M StopChecker text :=
  let! stops := gets stop in
  if bool_decide (stops = []) then ret t else
  modify (fun c => c <| buffer ::= fun b => b ++ t |>);;;
  let! c := gets id in
  let cut := cut_at c in
  if (0 <=? cut)%Z then
    modify (fun c => c <| matched := true |>);;;
    modify (fun c => c <| buffer := [] |>);;;
    ret (py_upto (buffer c) cut)
  else if (hold c =? 0)%Z then
    modify (fun c => c <| buffer := [] |>);;;
    ret (buffer c)
  else
    modify (fun c => c <| buffer := py_from (buffer c) (- hold c) |>);;;
    ret (py_upto (buffer c) (- hold c)).

Definition flush : M StopChecker text :=
  let! c := gets id in
  modify (fun c => c <| buffer := [] |>);;;
  ret (buffer c).

(** ** Occurrences *)

Definition occurs_at (s t : text) (i : nat) : Prop := i <= length t /\ s `prefix_of` drop i t.

(** Some stop string occurs at [i]. *)
Definition stops_at (stops : list text) (t : text) (i : nat) : Prop :=
  exists s, s ∈ stops /\ occurs_at s t i.

(** [k] is the first place a stop string occurs. *)
Definition first_stop (stops : list text) (t : text) (k : nat) : Prop :=
  stops_at stops t k /\ forall i, stops_at stops t i -> k <= i.

Definition no_stop (stops : list text) (t : text) : Prop := forall i, ~ stops_at stops t i.

Lemma find_from_spec s t i :
  (0 <= i)%Z ->
  (exists k, find_from s t i = (i + Z.of_nat k)%Z /\ occurs_at s t k /\ forall j, occurs_at s t j -> k <= j) \/
  (find_from s t i = (-1)%Z /\ forall j, ~ occurs_at s t j).
Proof.
  revert i. induction t as [|a t IH]; intros i Hi; cbn [find_from]; destruct (decide _) as [Hp|Hp].
  - left. exists 0. split_and!; [lia| |lia]. split; [lia|by rewrite drop_0].
  - right. split; [done|]. intros j [Hj Hd]. simpl in Hj. assert (j = 0) as -> by lia. by rewrite drop_0 in Hd.
  - left. exists 0. split_and!; [lia| |lia]. split; [lia|by rewrite drop_0].
  - destruct (IH (i + 1)%Z ltac:(lia)) as [(k & Hk & [Hl Ho] & Hmin)|[Hk Hno]].
    + left. exists (S k). split_and!; [lia| |].
      * split; [simpl; lia|done].
      * intros [|j] [Hj Hd]; [by rewrite drop_0 in Hd|]. simpl in *.
        enough (k <= j) by lia. apply Hmin. split; [lia|done].
    + right. split; [done|]. intros [|j] [Hj Hd]; [by rewrite drop_0 in Hd|].
      apply (Hno j). simpl in *. split; [lia|done].
Qed.

Lemma py_find_spec s t :
  (exists k, py_find t s = Z.of_nat k /\ occurs_at s t k /\ forall j, occurs_at s t j -> k <= j) \/
  (py_find t s = (-1)%Z /\ forall j, ~ occurs_at s t j).
Proof. unfold py_find. destruct (find_from_spec s t 0) as [(k & -> & ?)|?]; [done|eauto|by right]. Qed.

Lemma foldl_min_spec l x :
  let m := foldl Z.min x l in m ∈ x :: l /\ forall y, y ∈ x :: l -> (m <= y)%Z.
Proof.
  revert x. induction l as [|a l IH]; intros x; simpl.
  - split; [constructor|]. intros y [->|Hy]%elem_of_cons; [lia|by apply elem_of_nil in Hy].
  - destruct (IH (Z.min x a)) as [H1 H2]. set (m := foldl Z.min (Z.min x a) l) in *. split.
    + apply elem_of_cons in H1 as [->|H1]; [|by do 2 (apply elem_of_cons; right)].
      destruct (Z.min_spec x a) as [[_ ->]|[_ ->]]; [constructor|]. apply elem_of_cons; right; constructor.
    + assert (Hm : (m <= Z.min x a)%Z) by (apply H2; constructor).
      intros y [->|[->|Hy]%elem_of_cons]%elem_of_cons; [lia|lia|]. apply H2. by apply elem_of_cons; right.
Qed.

(** The cut is the first place any stop string occurs in the buffer. *)
Lemma cut_at_spec c :
  (exists k, cut_at c = Z.of_nat k /\ first_stop (stop c) (buffer c) k) \/
  (cut_at c = (-1)%Z /\ no_stop (stop c) (buffer c)).
Proof.
  unfold cut_at. set (l := filter _ _).
  assert (Hl : forall z, z ∈ l <-> exists s, s ∈ stop c /\ z = py_find (buffer c) s /\ (0 <= z)%Z).
  { intros z. unfold l. rewrite list_elem_of_filter, list_elem_of_fmap. naive_solver. }
  destruct l as [|x l'] eqn:Hlx.
  - right. split; [done|]. intros i (s & Hs & Ho).
    destruct (py_find_spec s (buffer c)) as [(k & Hk & _)|[_ Hno]]; [|by apply (Hno i)].
    assert (Hin : Z.of_nat k ∈ []) by (apply Hl; exists s; split_and!; [done|done|lia]).
    by apply elem_of_nil in Hin.
  - left. destruct (foldl_min_spec l' x) as [Hin Hmin]. cbn [min_default] in *.
    apply Hl in Hin as (s & Hs & Hm & Hpos).
    destruct (py_find_spec s (buffer c)) as [(k & Hk & Ho & _)|[Hk _]]; [|lia].
    exists k. rewrite Hm, Hk. split; [done|]. split; [by exists s|].
    intros i (s' & Hs' & Ho').
    destruct (py_find_spec s' (buffer c)) as [(k' & Hk' & _ & Hk'min)|[_ Hno]]; [|by destruct (Hno i)].
    specialize (Hk'min i Ho').
    assert (foldl Z.min x l' <= Z.of_nat k')%Z; [|lia].
    apply Hmin, Hl. exists s'. split_and!; [done|done|lia].
Qed.

(** ** Holding back *)

Lemma foldl_max_spec l x : forall y, y ∈ x :: l -> (y <= foldl Z.max x l)%Z.
Proof.
  revert x. induction l as [|a l IH]; intros x y; simpl.
  - intros [->|Hy]%elem_of_cons; [lia|by apply elem_of_nil in Hy].
  - intros [->|[->|Hy]%elem_of_cons]%elem_of_cons.
    + pose proof (IH (Z.max x a) (Z.max x a) ltac:(constructor)). lia.
    + pose proof (IH (Z.max x a) (Z.max x a) ltac:(constructor)). lia.
    + apply IH. by apply elem_of_cons; right.
Qed.

(** What the constructor promises of the stop strings and the hold. *)
Record StopWf (c : StopChecker) : Prop := {
  st_nonempty : forall s, s ∈ stop c -> s <> [];
  st_hold : forall s, s ∈ stop c -> (Zlen s - 1 <= hold c)%Z;
  st_hold0 : (0 <= hold c)%Z
}.

Lemma new_StopChecker_wf stops : StopWf (new_StopChecker stops).
Proof.
  assert (Hb : forall l : list text, (forall s, s ∈ l -> s <> []) ->
    (forall s, s ∈ l -> (Zlen s <= max_default (Zlen <$> l) 1)%Z) /\ (1 <= max_default (Zlen <$> l) 1)%Z).
  { intros [|s l] Hne; [split; [intros s Hs; by apply elem_of_nil in Hs|simpl; lia]|].
    assert (Hall : forall s', s' ∈ s :: l -> (Zlen s' <= max_default (Zlen <$> s :: l) 1)%Z).
    { intros s' Hs'. simpl. apply foldl_max_spec. rewrite <-(fmap_cons Zlen). by apply list_elem_of_fmap_2. }
    split; [done|]. assert (Hs : s ∈ s :: l) by constructor. specialize (Hall s Hs).
    specialize (Hne s Hs). destruct s; [done|]. unfold Zlen in Hall at 1. simpl length in Hall. lia. }
  assert (Hne : forall s, s ∈ filter (fun s : text => s <> []) stops -> s <> []).
  { intros s [? _]%list_elem_of_filter. done. }
  destruct (Hb _ Hne) as [H1 H2]. constructor; simpl; [done| |lia].
  intros s Hs. specialize (H1 s Hs). lia.
Qed.

(** After the text [seen] with [out] let through: nothing is lost, and what is
    out cannot be the start of a stop string. *)
Record Streaming (c : StopChecker) (seen out : text) : Prop := {
  sg_all : out ++ buffer c = seen;
  sg_none : no_stop (stop c) seen;
  sg_unmatched : matched c = false;
  sg_open : stop c = [] -> buffer c = [];
  sg_held : stop c <> [] -> (Z.min (hold c) (Zlen seen) <= Zlen (buffer c))%Z
}.

Lemma drop_prefix_app (s u v : text) i :
  s `prefix_of` drop i u -> s `prefix_of` drop i (u ++ v).
Proof.
  intros Hp. destruct (decide (i <= length u)) as [Hi|Hi].
  - rewrite drop_app_le by done. by apply prefix_app_r.
  - rewrite drop_ge in Hp by lia. apply prefix_nil_inv in Hp as ->. apply prefix_nil.
Qed.

Lemma prefix_app_short (s u v : text) :
  s `prefix_of` u ++ v -> length s <= length u -> s `prefix_of` u.
Proof.
  intros [k Hk] Hl. exists (drop (length s) u).
  rewrite <-(take_drop (length s) u) at 1. f_equal.
  rewrite <-(take_app_le u v) by done. by rewrite Hk, take_app_length.
Qed.

(** A stop string first occurs in the text exactly where it first occurs in
    the buffer. *)
Lemma stops_in_buffer stops h (out b t : text) i :
  (forall s, s ∈ stops -> s <> [] /\ (Zlen s - 1 <= h)%Z) ->
  no_stop stops (out ++ b) -> (Z.min h (Zlen (out ++ b)) <= Zlen b)%Z ->
  stops_at stops ((out ++ b) ++ t) i <-> exists k, i = length out + k /\ stops_at stops (b ++ t) k.
Proof.
  intros Hw Hno Hh. split.
  - intros (s & Hs & Hi & Hp). destruct (Hw s Hs) as [Hne Hlen].
    assert (Hge : length out <= i).
    { destruct (decide (length out <= i)) as [|Hlt]; [done|]. exfalso. apply (Hno i). exists s. split; [done|].
      split; [rewrite length_app; lia|]. rewrite drop_app_le in Hp by (rewrite length_app; lia).
      apply prefix_app_short in Hp; [done|].
      rewrite length_drop, length_app. unfold Zlen in *. rewrite length_app in Hh. lia. }
    exists (i - length out). split; [lia|]. exists s. split; [done|].
    rewrite <-app_assoc in Hi, Hp. rewrite drop_app_ge in Hp by lia. rewrite length_app in Hi.
    split; [lia|done].
  - intros (k & -> & s & Hs & Hk & Hp). exists s. split; [done|]. rewrite <-app_assoc. split.
    + rewrite length_app. lia.
    + rewrite drop_app_ge by lia. by replace (length out + k - length out) with k by lia.
Qed.

(** ** What [push] lets through *)

(** The text a stream has let through, once a stop string was seen: the text
    before the first of them. *)
Definition Stopped (c : StopChecker) (seen out : text) : Prop :=
  matched c = true /\ exists k, first_stop (stop c) seen k /\ out = take k seen.

Lemma first_stop_buffer c seen out t k :
  StopWf c -> Streaming c seen out -> stop c <> [] ->
  first_stop (stop c) (buffer c ++ t) k -> first_stop (stop c) (seen ++ t) (length out + k).
Proof.
  intros [W1 W2 _] [Hall Hno _ _ Hh] Hs [Hat Hmin]. rewrite <-Hall in *. split.
  - apply (stops_in_buffer _ (hold c)); [naive_solver|done|auto|]. eauto.
  - intros i Hi. apply (stops_in_buffer _ (hold c)) in Hi as (j & -> & Hj); [|naive_solver|done|auto].
    specialize (Hmin j Hj). lia.
Qed.

Lemma no_stop_buffer c seen out t :
  StopWf c -> Streaming c seen out -> stop c <> [] ->
  no_stop (stop c) (buffer c ++ t) -> no_stop (stop c) (seen ++ t).
Proof.
  intros [W1 W2 _] [Hall Hno _ _ Hh] Hs Hb i Hi. rewrite <-Hall in *.
  apply (stops_in_buffer _ (hold c)) in Hi as (j & -> & Hj); [|naive_solver|done|auto]. by apply (Hb j).
Qed.

Lemma no_stops_none c seen : stop c = [] -> no_stop (stop c) seen.
Proof. intros -> i (s & Hs & _). by apply elem_of_nil in Hs. Qed.

Lemma push_found c seen out t k :
  StopWf c -> Streaming c seen out -> stop c <> [] ->
  first_stop (stop c) (buffer c ++ t) k ->
  Stopped (c <| matched := true |> <| buffer := [] |>) (seen ++ t) (out ++ take k (buffer c ++ t)).
Proof.
  intros Hw Hg Hs Hk. split; [done|]. exists (length out + k). simpl.
  split; [by eapply first_stop_buffer|]. rewrite <-(sg_all _ _ _ Hg), <-app_assoc.
  by rewrite take_app_add.
Qed.

Lemma push_held c seen out t keep :
  StopWf c -> Streaming c seen out -> stop c <> [] ->
  no_stop (stop c) (buffer c ++ t) ->
  (Z.min (hold c) (Zlen (buffer c ++ t)) <= Zlen (drop keep (buffer c ++ t)))%Z ->
  Streaming (c <| buffer := drop keep (buffer c ++ t) |>) (seen ++ t) (out ++ take keep (buffer c ++ t)).
Proof.
  intros Hw Hg Hs Hno Hk. constructor; simpl.
  - by rewrite <-app_assoc, take_drop, app_assoc, (sg_all _ _ _ Hg).
  - by eapply no_stop_buffer.
  - apply (sg_unmatched _ _ _ Hg).
  - done.
  - intros _. pose proof (sg_held _ _ _ Hg Hs) as Hh. rewrite <-(sg_all _ _ _ Hg) in Hh |- *.
    rewrite Zlen_app in Hk. rewrite !Zlen_app in *.
    pose proof (Zlen_nonneg out). pose proof (Zlen_nonneg t). pose proof (Zlen_nonneg (buffer c)). lia.
Qed.

Lemma push_spec c seen out t :
  StopWf c -> Streaming c seen out ->
  wp (push t) c (fun r c' => StopWf c' /\ stop c' = stop c /\
    (Streaming c' (seen ++ t) (out ++ r) \/ Stopped c' (seen ++ t) (out ++ r))).
Proof.
  intros Hw Hg. pose proof Hw as [W1 W2 W3].
  unfold push. wp_steps. simpl. case_bool_decide as Hs; wp_steps.
  { split; [done|]. split; [done|]. left. destruct Hg as [Hall Hno Hm Hop Hh].
    constructor; [|by apply no_stops_none|done|done|done].
    rewrite Hop, app_nil_r in * by done. by subst. }
  destruct (cut_at_spec (c <| buffer ::= fun b => b ++ t |>)) as [(k & Hk & Hf)|[Hk Hno]];
    unfold id; rewrite Hk; simpl in *.
  - destruct (Z.leb_spec 0 (Z.of_nat k)); [|lia]. wp_steps.
    split; [done|]. split; [done|]. right.
    replace (py_upto (buffer c ++ t) (Z.of_nat k)) with (take k (buffer c ++ t)); [exact (push_found c seen out t k Hw Hg Hs Hf)|].
    unfold py_upto, py_pos. destruct (Z.ltb_spec (Z.of_nat k) 0); [lia|].
    destruct Hf as [(s & _ & Hle & _) _]. f_equal. lia.
  - destruct (Z.eqb_spec (hold c) 0) as [H0|H0]; wp_steps; (split; [done|]; split; [done|]; left).
    + pose proof (push_held c seen out t (length (buffer c ++ t)) Hw Hg Hs Hno) as Hp.
      rewrite drop_all, take_ge in Hp by done. apply Hp. rewrite H0. unfold Zlen; simpl; lia.
    + unfold py_from, py_upto. apply (push_held c); [done..|].
      unfold py_pos, Zlen. rewrite length_drop. destruct (Z.ltb_spec (- hold c) 0); lia.
Qed.

(** ** Streams *)

(** The texts of a stream's outputs, pushed in turn; the text let through. *)
Fixpoint stream_texts (ts : list text) : M StopChecker text :=
  match ts with
  | [] => ret []
  | t :: ts' =>
      let! r := push t in
      let! c := gets id in
      if matched c then ret r
      else let! rest := stream_texts ts' in ret (r ++ rest)
  end.

Lemma stream_texts_spec ts c seen out :
  StopWf c -> Streaming c seen out ->
  wp (stream_texts ts) c (fun r c' => exists n,
    (Streaming c' (seen ++ concat ts) (out ++ r) \/
     Stopped c' (seen ++ concat (take n ts)) (out ++ r)) /\ stop c' = stop c).
Proof.
  revert c seen out. induction ts as [|t ts IH]; intros c seen out Hw Hg; simpl.
  - wp_steps. exists 0. rewrite !app_nil_r. split; [by left|done].
  - wp_step. wp_call push_spec; [done|done|]. intros r c1 (Hw1 & Hst & Hcase). wp_steps. unfold id.
    destruct Hcase as [Hg1|Hs1].
    + rewrite (sg_unmatched _ _ _ Hg1). wp_step. wp_call IH; [done|done|]. intros r2 c2 (n & Hn & Hst2).
      wp_steps. exists (S n). simpl. rewrite !app_assoc. split; [done|congruence].
    + rewrite (proj1 Hs1). wp_steps. exists 1. simpl. rewrite app_nil_r. split; [by right|done].
Qed.

(** [flush] lets the held tail through. *)
Lemma flush_spec c seen out :
  Streaming c seen out -> wp flush c (fun r c' => out ++ r = seen /\ buffer c' = []).
Proof. intros Hg. unfold flush. wp_steps. by split; [apply (sg_all _ _ _ Hg)|]. Qed.

Lemma new_StopChecker_streaming stops : Streaming (new_StopChecker stops) [] [].
Proof.
  constructor; try done.
  - intros i (s & Hs & Hi & Hp). pose proof (st_nonempty _ (new_StopChecker_wf stops) s Hs) as Hne.
    rewrite drop_nil in Hp. by apply prefix_nil_inv in Hp.
  - intros _. pose proof (st_hold0 _ (new_StopChecker_wf stops)). simpl in *. unfold Zlen; simpl. lia.
Qed.
