(* ===== verification/OutputProcessor.v ===== *)
(** * Output processing

    [engine/output_processor.py] and [utils/detokenizer.py]: the client's state
    of each request, its detokenizer and its stream, and the routing of a
    step's outputs. Streams are shared with their readers, so they live in a
    store, by address. *)

From S2P Require Import Prelude Output.

(** ** [FastIncrementalDetokenizer] *)

(** [DecodeStream] of the tokenizers library. A step raises on an invalid
    token, or with the message that its prefix is invalid; a token that only
    broke the prefix decodes on a fresh stream. *)
Definition INVALID_PREFIX_ERR_MSG : string := "Invalid prefix encountered".

Class Tokenizer := {
  DecodeStream : Type;
  new_DecodeStream : list Z -> bool -> DecodeStream;
  ds_step : Z -> M DecodeStream (option string)
}.

Class TokenizerLaws `{Tokenizer} : Prop := {
  ds_step_errors : forall d t e d', ds_step t d = (inl e, d') ->
    e = OverflowError \/ e = TypeError \/ exists m, e = ExternalError (INVALID_PREFIX_ERR_MSG +:+ m);
  ds_step_fresh : forall d t m d' skip,
    ds_step t d = (inl (ExternalError m), d') -> exists r d2, ds_step t (new_DecodeStream [] skip) = (inr r, d2)
}.

Section OutputProcessor.
Context `{Tokenizer}.

Record FastIncrementalDetokenizer := {
  dt_skip_special_tokens : bool;
  dt_stream : DecodeStream
}.

#[export] Instance eta_Detokenizer : Eta FastIncrementalDetokenizer := fun d =>
  Build_FastIncrementalDetokenizer (dt_skip_special_tokens d) (dt_stream d).

Definition new_Detokenizer (prompt : list Z) (skip : bool) : FastIncrementalDetokenizer :=
  {| dt_skip_special_tokens := skip; dt_stream := new_DecodeStream prompt skip |}.

(** [self.stream.step(self.tokenizer, token_id) or ""]. *)
Definition step_stream (token_id : Z) : M FastIncrementalDetokenizer string :=
  let! r := zoom dt_stream (fun s d => d <| dt_stream := s |>) (ds_step token_id) in
  ret (default "" r).

(** [str(e)] of the library's own exceptions. *)
Definition exn_message (e : exn) : string :=
  match e with ExternalError m | ValueError m | RuntimeError m => m | _ => "" end.

Definition decode (token_id : Z) : M FastIncrementalDetokenizer string :=
  try_except (step_stream token_id) (fun e =>
    match e with
    | OverflowError | TypeError => ret ""
    | e =>
        if String.prefix INVALID_PREFIX_ERR_MSG (exn_message e) then
          modify (fun d => d <| dt_stream := new_DecodeStream [] (dt_skip_special_tokens d) |>);;;
          step_stream token_id
        else raise e
    end).

(** ** [AsyncStream] *)

(** What a stream's queue holds. *)
Abbreviation StreamItem := (RequestOutput + exn)%type.

(** How a reader that takes every queued item ends: it waits for more, or the
    request is finished, or it raised. *)
Inductive ReadEnd := Waiting | Finished | Raised (e : exn).

(** The items [__aiter__] yields of a queue, and how it ends. *)
Fixpoint read_stream (q : list StreamItem) : list RequestOutput * ReadEnd :=
  match q with
  | [] => ([], Waiting)
  | inr e :: _ => ([], Raised e)
  | inl o :: q' =>
      if ro_finished o then ([o], Finished)
      else let (l, e) := read_stream q' in (o :: l, e)
  end.

(** ** [OutputProcessor] *)

Record RequestState := {
  rs_detokenizer : option FastIncrementalDetokenizer;
  rs_stream : option nat
}.

#[export] Instance eta_RequestState : Eta RequestState := fun r =>
  Build_RequestState (rs_detokenizer r) (rs_stream r).

Record OutputProcessor := {
  op_has_tokenizer : bool;
  request_states : gmap string RequestState;
  streams : gmap nat (list StreamItem)
}.

#[export] Instance eta_OutputProcessor : Eta OutputProcessor := fun p =>
  Build_OutputProcessor (op_has_tokenizer p) (request_states p) (streams p).

Definition new_OutputProcessor (has_tokenizer : bool) : OutputProcessor :=
  {| op_has_tokenizer := has_tokenizer; request_states := ∅; streams := ∅ |}.

(** [put], into the stream at address [a]. *)
Definition stream_put (a : nat) (item : StreamItem) (p : OutputProcessor) : OutputProcessor :=
  p <| streams ::= alter (fun q => q ++ [item]) a |>.

Definition op_add_request (rid : string) (prompt : list Z) (skip : bool) (stream : option nat)
    (p : OutputProcessor) : OutputProcessor :=
  let detokenizer := if op_has_tokenizer p then Some (new_Detokenizer prompt skip) else None in
  p <| request_states ::= <[rid := {| rs_detokenizer := detokenizer; rs_stream := stream |}]> |>.

(** The final output of a request the client aborts. *)
Definition abort_output (rid : string) : RequestOutput :=
  {| ro_request_id := rid; ro_token_ids := []; ro_text := ""; ro_finished := true;
     ro_finish_reason := Some "abort"; ro_metrics := None; ro_kv_transfer_params := None |}.

Definition op_abort_request (rid : string) (p : OutputProcessor) : OutputProcessor :=
  match request_states p !! rid with
  | None => p
  | Some st =>
      let p := p <| request_states ::= delete rid |> in
      match rs_stream st with
      | Some a => stream_put a (inl (abort_output rid)) p
      | None => p
      end
  end.

(** The text of an output's tokens. *)
Definition decode_all (ids : list Z) : M FastIncrementalDetokenizer string :=
  let! l := collect ids decode in ret (foldr String.append "" l).

(** One output's turn in [process_outputs]: the output if it goes to no
    stream. *)
Definition process_output (o : RequestOutput) : M OutputProcessor (list RequestOutput) :=
  let rid := ro_request_id o in
  let! states := gets request_states in
  match states !! rid with
  | None => ret []
  | Some st =>
      let! o :=
        match rs_detokenizer st with
        | None => ret o
        | Some d =>
            let! text := zoom (fun _ => d) (fun d' p => p <| request_states ::=
                <[rid := st <| rs_detokenizer := Some d' |>]> |>) (decode_all (ro_token_ids o)) in
            ret (o <| ro_text := text |>)
        end in
      when (ro_finished o) (modify (fun p => p <| request_states ::= delete rid |>));;;
      match rs_stream st with
      | Some a => modify (stream_put a (inl o));;; ret []
      | None => ret [o]
      end
  end.

Definition process_outputs (outputs : list RequestOutput) : M OutputProcessor (list RequestOutput) :=
  let! l := collect outputs process_output in ret (concat l).

Definition fail_all (e : exn) (p : OutputProcessor) : OutputProcessor :=
  let states := (map_to_list (request_states p)).*2 in
  foldl (fun p st => match rs_stream st with Some a => stream_put a (inr e) p | None => p end)
    (p <| request_states := ∅ |>) states.

(** ** Detokenizing never fails *)

Lemma decode_total `{!TokenizerLaws} t d :
  wp (decode t) d (fun _ d' => dt_skip_special_tokens d' = dt_skip_special_tokens d).
Proof.
  unfold wp, decode, try_except, step_stream, bind, zoom.
  destruct (ds_step t (dt_stream d)) as [[e|r] d'] eqn:Hs; [|done].
  pose proof (ds_step_errors _ _ _ _ Hs) as [->|[->|[m ->]]]; [done|done|].
  assert (Hp : String.prefix INVALID_PREFIX_ERR_MSG (exn_message (ExternalError (INVALID_PREFIX_ERR_MSG +:+ m))) = true)
    by by destruct m.
  rewrite Hp. destruct (ds_step_fresh _ _ _ _ (dt_skip_special_tokens d) Hs) as (r & d2 & Hf).
  unfold modify. simpl. by rewrite Hf.
Qed.

Lemma decode_all_total `{!TokenizerLaws} l d : wp (decode_all l) d (fun _ _ => True).
Proof.
  unfold decode_all. wp_step. eapply wp_mono with (P := fun _ _ => True); [|intros; by wp_step].
  revert d. induction l as [|t l IH]; intros d; simpl; [by wp_step|].
  wp_step. wp_call decode_total. intros s d' _. wp_step. wp_call IH. intros. by wp_step.
Qed.

(** ** Routing *)

(** Live requests have streams of their own, and each stream exists. *)
Definition StreamsOk (p : OutputProcessor) : Prop :=
  (forall r st a, request_states p !! r = Some st -> rs_stream st = Some a -> is_Some (streams p !! a)) /\
  (forall r1 r2 s1 s2 a, request_states p !! r1 = Some s1 -> request_states p !! r2 = Some s2 ->
    rs_stream s1 = Some a -> rs_stream s2 = Some a -> r1 = r2).

(** The outputs of request [r], up to its final one. *)
Fixpoint upto_final (r : string) (outs : list RequestOutput) : list RequestOutput :=
  match outs with
  | [] => []
  | o :: outs' =>
      if decide (ro_request_id o = r)
      then o :: (if ro_finished o then [] else upto_final r outs')
      else upto_final r outs'
  end.

(** The same output, with its text filled in. *)
Definition SameOutput (o o' : RequestOutput) : Prop := o' = o <| ro_text := ro_text o' |>.

(** No live request's stream is at [a]. *)
Definition unowned (a : nat) (p : OutputProcessor) : Prop :=
  forall r st, request_states p !! r = Some st -> rs_stream st <> Some a.

(** Requests only leave, and a stream is fed only by the request it belongs
    to. *)
Definition Shrinks (p p' : OutputProcessor) : Prop :=
  (forall r st', request_states p' !! r = Some st' ->
     exists st, request_states p !! r = Some st /\ rs_stream st' = rs_stream st) /\
  (forall a, unowned a p -> streams p' !! a = streams p !! a) /\
  (forall a, is_Some (streams p !! a) -> is_Some (streams p' !! a)).

(** What request [r] gets of the outputs: its stream's new items, or what is
    returned; and whether it is still there. *)
Definition Delivered (r : string) (outs : list RequestOutput) (p p' : OutputProcessor)
    (returned : list RequestOutput) : Prop :=
  match request_states p !! r with
  | None => request_states p' !! r = None /\ filter (fun o => ro_request_id o = r) returned = []
  | Some st => exists new, Forall2 SameOutput (upto_final r outs) new /\
      match rs_stream st with
      | Some a => exists q, streams p !! a = Some q /\ streams p' !! a = Some (q ++ (inl <$> new)) /\
          filter (fun o => ro_request_id o = r) returned = []
      | None => filter (fun o => ro_request_id o = r) returned = new
      end /\
      if existsb ro_finished (upto_final r outs) then request_states p' !! r = None
      else exists st', request_states p' !! r = Some st' /\ rs_stream st' = rs_stream st
  end.

Lemma Shrinks_refl p : Shrinks p p.
Proof. split_and!; eauto. Qed.

Lemma Shrinks_trans p1 p2 p3 : Shrinks p1 p2 -> Shrinks p2 p3 -> Shrinks p1 p3.
Proof.
  intros (A1 & B1 & C1) (A2 & B2 & C2). split_and!.
  - intros r st3 Hr. destruct (A2 r st3 Hr) as (st2 & Hr2 & E2).
    destruct (A1 r st2 Hr2) as (st1 & Hr1 & E1). exists st1. split; congruence.
  - intros a Ha. rewrite B2, B1; [done|done|]. intros r st2 Hr2 He.
    destruct (A1 r st2 Hr2) as (st1 & Hr1 & E1). apply (Ha r st1 Hr1). congruence.
  - eauto.
Qed.

Lemma Shrinks_ok p p' : Shrinks p p' -> StreamsOk p -> StreamsOk p'.
Proof.
  intros (A & _ & C) [S1 S2]. split.
  - intros r st' a Hr Ha. destruct (A r st' Hr) as (st & Hst & He). apply C, (S1 r st); congruence.
  - intros r1 r2 s1 s2 a H1 H2 E1 E2. destruct (A r1 s1 H1) as (t1 & T1 & F1).
    destruct (A r2 s2 H2) as (t2 & T2 & F2). apply (S2 r1 r2 t1 t2 a); congruence.
Qed.

Lemma Delivered_skip r p : StreamsOk p -> Delivered r [] p p [].
Proof.
  intros [S1 _]. unfold Delivered. destruct (request_states p !! r) as [st|] eqn:Hr; [|done].
  exists []. split; [constructor|]. split; [|simpl; eauto].
  destruct (rs_stream st) as [a|] eqn:Ha; [|done].
  destruct (S1 r st a Hr Ha) as [q Hq]. exists q. rewrite app_nil_r. done.
Qed.

Lemma Delivered_cons r o outs p p1 p2 l1 l2 :
  StreamsOk p -> Shrinks p p1 -> Shrinks p1 p2 ->
  Delivered r [o] p p1 l1 -> Delivered r outs p1 p2 l2 -> Delivered r (o :: outs) p p2 (l1 ++ l2).
Proof.
  intros Hok Hs1 (_ & Hun & _) H1 H2. unfold Delivered in *.
  destruct (request_states p !! r) as [st|] eqn:Hr.
  2: { destruct H1 as [Hp1 Hl1]. rewrite Hp1 in H2. destruct H2 as [Hp2 Hl2].
       by rewrite filter_app, Hl1, Hl2. }
  destruct H1 as (new1 & Hf1 & Hd1 & He1). cbn [upto_final existsb] in *.
  destruct (decide (ro_request_id o = r)) as [Ho|Ho]; cbn [existsb] in *.
  - destruct (ro_finished o) eqn:Hfin; simpl in He1.
    + rewrite He1 in H2. destruct H2 as [Hp2 Hl2]. exists new1. split; [done|]. simpl.
      split; [|done]. rewrite filter_app, Hl2, app_nil_r.
      destruct (rs_stream st) as [a|] eqn:Ha; [|done]. destruct Hd1 as (q & Hq & Hq1 & Hl1).
      exists q. split; [done|]. split; [|done]. rewrite Hun; [done|].
      intros r' st' Hr' Ha'. destruct Hs1 as (A & _). destruct (A r' st' Hr') as (st0 & Hst0 & He0).
      assert (r' = r) as -> by (apply (proj2 Hok r' r st0 st a); congruence). congruence.
    + destruct He1 as (st1 & Hst1 & Hs). rewrite Hst1 in H2. destruct H2 as (new2 & Hf2 & Hd2 & He2).
      exists (new1 ++ new2). split; [change (o :: upto_final r outs) with ([o] ++ upto_final r outs); by apply Forall2_app|]. simpl.
      rewrite Hs in *. split; [|done]. rewrite filter_app.
      destruct (rs_stream st) as [a|]; [|by f_equal].
      destruct Hd1 as (q & Hq & Hq1 & Hl1), Hd2 as (q' & Hq' & Hq2 & Hl2). exists q.
      rewrite Hl1, Hl2, fmap_app, app_assoc. split_and!; [done|congruence|done].
  - apply Forall2_nil_inv_l in Hf1 as ->. simpl in *. destruct He1 as (st1 & Hst1 & Hs).
    rewrite Hst1 in H2. destruct H2 as (new2 & Hf2 & Hd2 & He2). exists new2. split; [done|].
    rewrite Hs in *. split; [|done]. rewrite filter_app.
    destruct (rs_stream st) as [a|]; [|by rewrite Hd1, Hd2].
    destruct Hd1 as (q & Hq & Hq1 & Hl1), Hd2 as (q' & Hq' & Hq2 & Hl2). exists q.
    rewrite app_nil_r in Hq1. rewrite Hl1, Hl2. split_and!; [done|congruence|done].
Qed.

Lemma stream_put_lookup a item p b :
  streams (stream_put a item p) !! b =
  if decide (b = a) then (fun q => q ++ [item]) <$> streams p !! b else streams p !! b.
Proof.
  unfold stream_put; simpl. destruct (decide (b = a)) as [->|Hne].
  - by rewrite lookup_alter_eq.
  - by rewrite lookup_alter_ne.
Qed.

(** The turn of one output for its live request. *)
Lemma process_live o o' p p0 st st' l p' :
  request_states p !! ro_request_id o = Some st -> StreamsOk p -> SameOutput o o' ->
  streams p0 = streams p -> rs_stream st' = rs_stream st ->
  request_states p0 = <[ro_request_id o := st']> (request_states p) ->
  p' = (let p1 := if ro_finished o then p0 <| request_states ::= delete (ro_request_id o) |> else p0 in
        match rs_stream st with Some a => stream_put a (inl o') p1 | None => p1 end) ->
  l = match rs_stream st with Some _ => [] | None => [o'] end ->
  Shrinks p p' /\ forall r, Delivered r [o] p p' l.
Proof.
  intros Hst Hok Ho Hs0 Hss Hr0 Hp' Hl. set (rid := ro_request_id o) in *.
  assert (Hrs : request_states p' =
    if ro_finished o then delete rid (request_states p0) else request_states p0).
  { rewrite Hp'. destruct (rs_stream st), (ro_finished o); done. }
  assert (Hsp : forall b, streams p' !! b = match rs_stream st with
    | Some a => if decide (b = a) then (fun q => q ++ [inl o']) <$> streams p !! b else streams p !! b
    | None => streams p !! b end).
  { intros b. rewrite Hp', <-Hs0. destruct (rs_stream st), (ro_finished o); try done; by rewrite stream_put_lookup. }
  assert (Hback : forall r s', request_states p' !! r = Some s' ->
    exists s, request_states p !! r = Some s /\ rs_stream s' = rs_stream s).
  { intros r s' Hr. rewrite Hrs, Hr0 in Hr.
    assert (<[rid := st']> (request_states p) !! r = Some s') as Hr'.
    { destruct (ro_finished o); [|done]. by apply lookup_delete_Some in Hr as [_ ?]. }
    apply lookup_insert_Some in Hr' as [[<- <-]|[_ Hr']]; eauto. }
  split.
  { split; [exact Hback|]. split.
    - intros a Ha. rewrite Hsp. destruct (rs_stream st) as [b|] eqn:Hb; [|done].
      rewrite decide_False; [done|]. intros ->. by apply (Ha rid st).
    - intros a Ha. rewrite Hsp. destruct (rs_stream st); [|done]. case_decide; [|done]. by apply fmap_is_Some. }
  intros r. unfold Delivered. destruct (decide (r = rid)) as [->|Hne].
  - rewrite Hst. cbn [upto_final]. rewrite decide_True by done. exists [o']. split.
    { constructor; [done|]. destruct (ro_finished o); constructor. }
    assert (Ho' : ro_request_id o' = rid) by by rewrite Ho.
    split.
    + rewrite Hl. destruct (rs_stream st) as [a|] eqn:Ha; [|by rewrite filter_cons_True].
      destruct (proj1 Hok _ _ _ Hst Ha) as [q Hq]. exists q. by rewrite Hsp, decide_True, Hq by done.
    + rewrite Hrs, Hr0. destruct (ro_finished o) eqn:Hf; cbn [existsb]; rewrite Hf; simpl.
      * by rewrite lookup_delete_eq.
      * exists st'. by rewrite lookup_insert_eq.
  - assert (Hrr : request_states p' !! r = request_states p !! r).
    { rewrite Hrs, Hr0. destruct (ro_finished o); by rewrite ?lookup_delete_ne, lookup_insert_ne by done. }
    assert (Hlr : filter (fun o1 => ro_request_id o1 = r) l = []).
    { rewrite Hl. destruct (rs_stream st); [done|]. rewrite filter_cons_False; [done|]. rewrite Ho. done. }
    rewrite Hrr. destruct (request_states p !! r) as [sr|] eqn:Hr; [|done].
    cbn [upto_final]. rewrite decide_False by done. exists []. split; [constructor|]. simpl. split; [|eauto].
    destruct (rs_stream sr) as [a|] eqn:Ha; [|done]. destruct (proj1 Hok _ _ _ Hr Ha) as [q Hq].
    exists q. rewrite app_nil_r, Hsp. split_and!; [done| |done].
    destruct (rs_stream st) as [b|] eqn:Hb; [|done]. rewrite decide_False; [done|]. intros <-.
    apply Hne. by eapply (proj2 Hok r rid).
Qed.

Lemma process_output_spec `{!TokenizerLaws} o p :
  StreamsOk p ->
  wp (process_output o) p (fun l p' => Shrinks p p' /\ forall r, Delivered r [o] p p' l).
Proof.
  intros Hok. unfold process_output. wp_steps.
  destruct (request_states p !! ro_request_id o) as [st|] eqn:Hst.
  2: { wp_step. split; [apply Shrinks_refl|]. intros r. pose proof (Delivered_skip r p Hok) as Hd.
       unfold Delivered in *. cbn [upto_final]. destruct (decide (ro_request_id o = r)) as [<-|]; [|done].
       by rewrite Hst in *. }
  wp_step.
  assert (Hend : forall o' p0 st', SameOutput o o' -> streams p0 = streams p -> rs_stream st' = rs_stream st ->
    request_states p0 = <[ro_request_id o := st']> (request_states p) ->
    wp (when (ro_finished o') (modify (fun p => p <| request_states ::= delete (ro_request_id o) |>));;;
        match rs_stream st with
        | Some a => modify (stream_put a (inl o'));;; ret []
        | None => ret [o'] end) p0 (fun l p' => Shrinks p p' /\ forall r, Delivered r [o] p p' l)).
  { intros o' p0 st' Ho H1 H2 H3. assert (Hf : ro_finished o' = ro_finished o) by by rewrite Ho.
    rewrite Hf. unfold when. pose proof (process_live o o' p p0 st st') as Hlive.
    destruct (ro_finished o); wp_steps; destruct (rs_stream st) as [a|]; wp_steps;
      (eapply Hlive; [done..|reflexivity|reflexivity]). }
  destruct (rs_detokenizer st) as [d|].
  - wp_steps. wp_call decode_all_total. intros text d' _. wp_steps.
    apply wp_bind_inv. by eapply (Hend (o <| ro_text := text |>) _ (st <| rs_detokenizer := Some d' |>)).
  - wp_step. apply (Hend o p st); [by destruct o|done|done|].
    symmetry. by apply insert_id.
Qed.

Lemma process_outputs_full `{!TokenizerLaws} outs p :
  StreamsOk p ->
  wp (process_outputs outs) p (fun l p' => Shrinks p p' /\ forall r, Delivered r outs p p' l).
Proof.
  intros Hok. unfold process_outputs. wp_step.
  enough (wp (collect outs process_output) p (fun ls p' =>
    Shrinks p p' /\ forall r, Delivered r outs p p' (concat ls))) as Hc.
  { eapply wp_mono; [exact Hc|]. intros ls p' [Hs Hd]. by wp_step. }
  revert p Hok. induction outs as [|o outs IH]; intros p Hok; simpl.
  - wp_step. split; [apply Shrinks_refl|]. intros r. by apply Delivered_skip.
  - wp_step. wp_call process_output_spec; [done|]. intros l1 p1 [Hs1 Hd1]. wp_step.
    wp_call IH; [by eapply Shrinks_ok|]. intros l2 p2 [Hs2 Hd2]. wp_step.
    split; [by eapply Shrinks_trans|]. intros r. by eapply Delivered_cons.
Qed.

Lemma process_outputs_spec `{!TokenizerLaws} outs p :
  StreamsOk p ->
  wp (process_outputs outs) p (fun l p' => StreamsOk p' /\ forall r, Delivered r outs p p' l).
Proof.
  intros Hok. wp_call process_outputs_full; [done|]. intros l p' [Hs Hd].
  split; [by eapply Shrinks_ok | done].
Qed.

(** ** The end of the streams *)

Lemma fail_all_streams e l p a :
  let p' := foldl (fun p st => match rs_stream st with Some a => stream_put a (inr e) p | None => p end) p l in
  request_states p' = request_states p /\
  streams p' !! a = (fun q => q ++ replicate (occ a (omap rs_stream l)) (inr e)) <$> streams p !! a.
Proof.
  revert p. induction l as [|st l IH]; intros p; simpl.
  - split; [done|]. destruct (streams p !! a); simpl; [by rewrite app_nil_r|done].
  - destruct (rs_stream st) as [b|]; [|by apply IH].
    destruct (IH (stream_put b (inr e) p)) as [-> ->]. split; [done|].
    rewrite stream_put_lookup. simpl. destruct (decide (a = b)) as [->|Hne].
    + rewrite decide_True by done. destruct (streams p !! b); simpl; [|done]. by rewrite <-app_assoc.
    + by rewrite decide_False by done.
Qed.

(** When the engine dies, every live stream ends in the error, once. *)
Lemma fail_all_spec e p :
  StreamsOk p ->
  request_states (fail_all e p) = ∅ /\
  (forall r st a q, request_states p !! r = Some st -> rs_stream st = Some a -> streams p !! a = Some q ->
     streams (fail_all e p) !! a = Some (q ++ [inr e])) /\
  (forall a, unowned a p -> streams (fail_all e p) !! a = streams p !! a).
Proof.
  intros [_ Hinj]. unfold fail_all. set (l := (map_to_list (request_states p)).*2).
  assert (Hl : forall st, st ∈ l <-> exists r, request_states p !! r = Some st).
  { intros st. unfold l. rewrite list_elem_of_fmap. split.
    - intros ([r st'] & -> & Hin). apply elem_of_map_to_list in Hin. eauto.
    - intros [r Hr]. exists (r, st). split; [done|]. by apply elem_of_map_to_list. }
  assert (Hone : forall a, occ a (omap rs_stream l) <= 1).
  { intros a. unfold l. clear Hl l. pose proof (NoDup_fst_map_to_list (request_states p)) as Hnd.
    assert (Hin : forall r st, (r, st) ∈ map_to_list (request_states p) -> request_states p !! r = Some st)
      by (intros; by apply elem_of_map_to_list).
    induction (map_to_list (request_states p)) as [|[r st] k IH]; simpl; [lia|].
    apply NoDup_cons in Hnd as [Hr Hnd].
    assert (Hk : occ a (omap rs_stream k.*2) <= 1) by (apply IH; [done|intros; apply Hin; by right]).
    destruct (rs_stream st) as [b|] eqn:Hb; [|done]. simpl. destruct (decide (b = a)) as [->|]; [|exact Hk].
    enough (a ∉ omap rs_stream k.*2) as Hno by (apply occ_zero in Hno; apply le_n_S, Nat.le_0_r, Hno). intros Hin'.
    apply list_elem_of_omap in Hin' as (st' & Hst' & Hb').
    apply list_elem_of_fmap in Hst' as ([r' st2] & -> & Hin2). apply Hr.
    apply list_elem_of_fmap. exists (r', st2). split; [|done]. simpl.
    apply (Hinj r r' st st2 a); [apply Hin; by left|apply Hin; by right|done|done]. }
  split_and!.
  - by destruct (fail_all_streams e l (p <| request_states := ∅ |>) 0) as [-> _].
  - intros r st a q Hr Ha Hq.
    destruct (fail_all_streams e l (p <| request_states := ∅ |>) a) as [_ ->]. simpl. rewrite Hq. simpl.
    assert (Hin : a ∈ omap rs_stream l).
    { apply list_elem_of_omap. exists st. split; [|done]. apply Hl. eauto. }
    apply occ_pos in Hin. specialize (Hone a). by replace (occ a (omap rs_stream l)) with 1 by lia.
  - intros a Ha. destruct (fail_all_streams e l (p <| request_states := ∅ |>) a) as [_ ->]. simpl.
    destruct (occ a (omap rs_stream l)) eqn:Ho.
    + destruct (streams p !! a); simpl; [by rewrite app_nil_r|done].
    + exfalso. assert (Hin : a ∈ omap rs_stream l) by (apply occ_pos; lia).
      apply list_elem_of_omap in Hin as (st & Hst & Hb). apply Hl in Hst as [r Hr]. by apply (Ha r st).
Qed.

(** A reader yields what was put up to the first final output or error. *)
Lemma read_stream_outputs outs rest :
  Forall (fun o => ro_finished o = false) outs ->
  read_stream ((inl <$> outs) ++ rest) = (outs ++ (read_stream rest).1, (read_stream rest).2).
Proof.
  induction 1 as [|o outs Ho Hf IH]; [simpl; by destruct (read_stream rest)|].
  rewrite fmap_cons. cbn [app read_stream]. by rewrite Ho, IH.
Qed.

Lemma read_stream_final outs o rest :
  Forall (fun o => ro_finished o = false) outs -> ro_finished o = true ->
  read_stream ((inl <$> outs) ++ inl o :: rest) = (outs ++ [o], Finished).
Proof. intros Hf Ho. rewrite read_stream_outputs by done. simpl. by rewrite Ho. Qed.

(** ** No reader waits forever

    A stream is fed by its live request, or it has ended: whoever reads it
    takes every item is either still served or told the end. *)

Definition ended (q : list StreamItem) : Prop := (read_stream q).2 <> Waiting.

Definition owned (a : nat) (p : OutputProcessor) : Prop :=
  exists r st, request_states p !! r = Some st /\ rs_stream st = Some a.

Definition Served (p : OutputProcessor) : Prop :=
  StreamsOk p /\ forall a q, streams p !! a = Some q -> ended q \/ owned a p.

Lemma ended_app q q' : ended q -> ended (q ++ q').
Proof.
  unfold ended. induction q as [|[o|e] q IH]; simpl; [done| |done].
  destruct (ro_finished o); [done|].
  destruct (read_stream q) as [l w], (read_stream (q ++ q')) as [l' w']. exact IH.
Qed.

Lemma ended_in q x : x ∈ q -> match x with inl o => ro_finished o = true | inr _ => True end -> ended q.
Proof.
  intros Hin Hx. apply list_elem_of_split in Hin as (q1 & q2 & ->).
  enough (ended (q1 ++ [x])) by (change (x :: q2) with ([x] ++ q2); rewrite app_assoc; by apply ended_app).
  unfold ended. induction q1 as [|[o|e] q1 IH]; simpl; [|  |done].
  - destruct x as [o|e]; [by rewrite Hx | done].
  - destruct (ro_finished o); [done|]. by destruct (read_stream (q1 ++ [x])).
Qed.

Lemma owned_or_not a p : owned a p \/ unowned a p.
Proof.
  destruct (decide (Exists (fun x => rs_stream x.2 = Some a) (map_to_list (request_states p)))) as [He|Hn].
  - left. apply Exists_exists in He as ([r st] & Hin & Ha). exists r, st.
    split; [by apply elem_of_map_to_list | done].
  - right. intros r st Hr Ha. apply Hn, Exists_exists. exists (r, st).
    split; [by apply elem_of_map_to_list | done].
Qed.

(** A stream nobody feeds has ended. *)
Lemma served_unowned a p q : Served p -> streams p !! a = Some q -> unowned a p -> ended q.
Proof. intros [_ Hs] Hq Hun. destruct (Hs a q Hq) as [?|(r & st & Hr & Ha)]; [done|]. by destruct (Hun r st). Qed.

Lemma same_output_finished outs new : Forall2 SameOutput outs new ->
  existsb ro_finished outs = true -> exists o, o ∈ new /\ ro_finished o = true.
Proof.
  induction 1 as [|o o' outs new Ho _ IH]; simpl; [done|]. rewrite orb_true_iff. intros [Hf|Hf].
  - exists o'. rewrite Ho. split; [by left | done].
  - destruct (IH Hf) as (x & ? & ?). exists x. split; [by right | done].
Qed.

Lemma process_outputs_served `{!TokenizerLaws} outs p : Served p ->
  wp (process_outputs outs) p (fun _ p' => Served p' /\ Shrinks p p').
Proof.
  intros Hp. pose proof Hp as [Hok Hs]. wp_call process_outputs_full; [done|].
  intros l p' [Hsh Hd]. split; [|done]. split; [by eapply Shrinks_ok|]. intros a q' Hq'.
  pose proof Hsh as (_ & Hun & _). destruct (owned_or_not a p) as [(r & st & Hr & Ha)|Hno].
  2: { left. rewrite Hun in Hq' by done. by eapply served_unowned. }
  specialize (Hd r). unfold Delivered in Hd. rewrite Hr in Hd.
  destruct Hd as (new & Hnew & Hfeed & Hend). rewrite Ha in Hfeed.
  destruct Hfeed as (q & Hq & Hq2 & _). rewrite Hq' in Hq2. injection Hq2 as ->.
  destruct (existsb ro_finished (upto_final r outs)) eqn:Hf.
  - left. destruct (same_output_finished _ _ Hnew Hf) as (o & Hin & Ho).
    apply (ended_in _ (inl o)); [|done]. apply elem_of_app. right. by apply list_elem_of_fmap_2.
  - right. destruct Hend as (st' & Hst' & Hs'). exists r, st'. by rewrite Hs'.
Qed.

Lemma abort_served rid p : Served p -> Served (op_abort_request rid p).
Proof.
  intros [Hok Hs]. unfold op_abort_request. destruct (request_states p !! rid) as [st|] eqn:Hr; [|done].
  set (p1 := p <| request_states ::= delete rid |>).
  assert (Hst : forall b, streams p1 !! b = streams p !! b) by done.
  assert (Hown : forall b, owned b p -> rs_stream st <> Some b -> owned b p1).
  { intros b (r & s & Hrs & Hb) Hne. exists r, s. split; [|done].
    unfold p1; simpl. rewrite lookup_delete_ne; [done|]. intros ->. congruence. }
  assert (Hsub : forall r s, request_states p1 !! r = Some s -> request_states p !! r = Some s).
  { unfold p1; simpl. intros r s Hrs. by apply lookup_delete_Some in Hrs as [_ ?]. }
  destruct Hok as [Hex Hinj]. destruct (rs_stream st) as [a|] eqn:Ha.
  - split; [split|].
    + intros r s b Hrs Hb. rewrite stream_put_lookup, Hst.
      destruct (Hex r s b (Hsub _ _ Hrs) Hb) as [q ->]. case_decide; eauto.
    + intros r1 r2 s1 s2 b ?? ??. eapply Hinj; eauto.
    + intros b q. rewrite stream_put_lookup, Hst. case_decide as Hd.
      * intros (q0 & Hq0 & ->)%fmap_Some. left. subst b. apply (ended_in _ (inl (abort_output rid))); [|done].
        apply elem_of_app. right. by apply list_elem_of_singleton.
      * intros Hq. destruct (Hs b q Hq) as [|Ho]; [by left|]. right. apply Hown; [done|congruence].
  - split; [split|]; [by eauto | by eauto|]. intros b q Hq. rewrite Hst in Hq.
    destruct (Hs b q Hq) as [|Ho]; [by left|]. right. by apply Hown.
Qed.

Lemma fail_all_served e p : Served p ->
  Served (fail_all e p) /\ request_states (fail_all e p) = ∅ /\
  (forall a, is_Some (streams (fail_all e p) !! a) -> is_Some (streams p !! a)).
Proof.
  intros Hp. pose proof Hp as [Hok Hs]. destruct (fail_all_spec e p Hok) as (H1 & H2 & H3).
  split; [|split; [done|]].
  - split; [split; rewrite H1; intros; simplify_map_eq|]. intros a q Hq. left.
    destruct (owned_or_not a p) as [(r & st & Hr & Ha)|Hno].
    + destruct (proj1 Hok r st a Hr Ha) as [q0 Hq0]. rewrite (H2 r st a q0) in Hq by done.
      injection Hq as <-. apply (ended_in _ (inr e)); [|done].
      apply elem_of_app. right. by apply list_elem_of_singleton.
    + rewrite H3 in Hq by done. by eapply served_unowned.
  - intros a [q Hq]. destruct (owned_or_not a p) as [(r & st & Hr & Ha)|Hno]; [by eapply (proj1 Hok)|].
    rewrite H3 in Hq by done. by exists q.
Qed.

(** A new request feeds a fresh stream. *)
Lemma add_served rid prompt skip a p : Served p -> request_states p !! rid = None ->
  streams p !! a = None ->
  Served (op_add_request rid prompt skip (Some a) (p <| streams ::= <[a := []]> |>)).
Proof.
  intros [[Hex Hinj] Hs] Hr Ha. unfold op_add_request. simpl.
  assert (Hne : forall r s b, request_states p !! r = Some s -> rs_stream s = Some b -> b <> a).
  { intros r s b Hrs Hb ->. destruct (Hex r s a Hrs Hb). congruence. }
  split; [split|]; simpl.
  - intros r s b. rewrite lookup_insert_Some. intros [[<- <-]|[_ Hrs]] Hb; simpl in Hb.
    + injection Hb as <-. rewrite lookup_insert_eq. eauto.
    + rewrite lookup_insert_ne by (symmetry; by eapply Hne). by eapply Hex.
  - intros r1 r2 s1 s2 b. rewrite !lookup_insert_Some.
    intros [[<- <-]|[_ H1]] [[<- <-]|[_ H2]] E1 E2; simpl in *; [done| | |by eapply Hinj].
    + injection E1 as <-. by destruct (Hne r2 s2 a).
    + injection E2 as <-. by destruct (Hne r1 s1 a).
  - intros b q. rewrite lookup_insert_Some. intros [[<- <-]|[Hb Hq]].
    + right. eexists rid, _. split; [apply lookup_insert_eq | done].
    + destruct (Hs b q Hq) as [|(r & s & Hrs & Hb')]; [by left|]. right. exists r, s. simpl.
      rewrite lookup_insert_ne; [done|]. intros ->. congruence.
Qed.

End OutputProcessor.
