(* ===== verification/Frames.v ===== *)
(** * What no scheduling step touches

    A frame logic: [keeps R m] says that every run of [m], whether it returns
    or raises and from any state, relates the state before to the state after
    by [R]. It needs no invariant. With it: no method of the scheduler but
    [commit_tokens] changes a sequence's tokens. *)

From S2P Require Import Prelude Output Sequence BlockManager Policy KVBase Scheduler NixlConnector.

Definition keeps {S A} (R : S -> S -> Prop) (m : M S A) : Prop := forall s, R s (m s).2.

Create HintDb keeps.

(** ** Rules *)

Section Rules.
Context {S : Type} (R : S -> S -> Prop) `{!PreOrder R}.

Lemma keeps_ret {A} (a : A) : keeps R (ret a).
Proof. intros s. reflexivity. Qed.
Lemma keeps_raise {A} e : keeps R (raise (A := A) e).
Proof. intros s. reflexivity. Qed.
Lemma keeps_gets {A} (f : S -> A) : keeps R (gets f).
Proof. intros s. reflexivity. Qed.
Lemma keeps_assert b msg : keeps R (assert_ b msg).
Proof. destruct b; intros s; reflexivity. Qed.
Lemma keeps_or_raise {A} (o : option A) e : keeps R (or_raise o e).
Proof. destruct o; intros s; reflexivity. Qed.
Lemma keeps_modify (f : S -> S) : (forall s, R s (f s)) -> keeps R (modify f).
Proof. intros Hf s. apply Hf. Qed.
Lemma keeps_bind {A B} (m : M S A) (k : A -> M S B) :
  keeps R m -> (forall a, keeps R (k a)) -> keeps R (bind m k).
Proof.
  intros Hm Hk s. unfold bind. specialize (Hm s). destruct (m s) as [[e|a] s']; [done|].
  etrans; [exact Hm|]. apply Hk.
Qed.
Lemma keeps_when b m : keeps R m -> keeps R (when b m).
Proof. intros Hm. destruct b; [done|]. apply keeps_ret. Qed.
Lemma keeps_for_each {A} (l : list A) (f : A -> M S unit) : (forall a, keeps R (f a)) -> keeps R (for_each l f).
Proof. intros Hf. induction l; simpl; [apply keeps_ret|]. by apply keeps_bind. Qed.
Lemma keeps_for_range a b (f : Z -> M S unit) : (forall i, keeps R (f i)) -> keeps R (for_range a b f).
Proof. apply keeps_for_each. Qed.
Lemma keeps_collect {A B} (l : list A) (f : A -> M S B) : (forall a, keeps R (f a)) -> keeps R (collect l f).
Proof.
  intros Hf. induction l; simpl; [apply keeps_ret|]. apply keeps_bind; [done|]. intros b.
  apply keeps_bind; [done|]. intros bs. apply keeps_ret.
Qed.
Lemma keeps_while n c (body : M S bool) : keeps R body -> keeps R (while_ n c body).
Proof.
  intros Hb. induction n; simpl; [apply keeps_raise|]. apply keeps_bind; [apply keeps_gets|].
  intros []; [|apply keeps_ret]. apply keeps_bind; [done|]. intros []; [done|apply keeps_ret].
Qed.
Lemma keeps_zoom {T A} (get : S -> T) (put : T -> S -> S) (m : M T A) :
  (forall s, R s (put (m (get s)).2 s)) -> keeps R (zoom get put m).
Proof. intros Hm s. unfold zoom. specialize (Hm s). by destruct (m (get s)). Qed.
Lemma keeps_mono {A} (R' : S -> S -> Prop) (m : M S A) :
  (forall s s', R' s s' -> R s s') -> keeps R' m -> keeps R m.
Proof. intros HR Hm s. apply HR, Hm. Qed.

End Rules.

(** Frames of the parts of a pair. *)
Lemma keeps_on_fst {S T A} (R : S -> S -> Prop) (m : M S A) :
  keeps R m -> keeps (fun p q : S * T => R p.1 q.1) (on_fst m).
Proof. intros Hm [s t]. unfold on_fst, zoom. specialize (Hm s). simpl. by destruct (m s). Qed.

Lemma keeps_on_snd_any {S T A} (R : S -> S -> Prop) `{!Reflexive R} (m : M T A) :
  keeps (fun p q : S * T => R p.1 q.1) (on_snd m).
Proof. intros [s t]. unfold on_snd, zoom. simpl. by destruct (m t). Qed.

Lemma keeps_on_snd {S T A} (R : T -> T -> Prop) (m : M T A) :
  keeps R m -> keeps (fun p q : S * T => R p.2 q.2) (on_snd m).
Proof. intros Hm [s t]. unfold on_snd, zoom. specialize (Hm t). simpl. by destruct (m t). Qed.

Lemma keeps_on_fst_any {S T A} (R : T -> T -> Prop) `{!Reflexive R} (m : M S A) :
  keeps (fun p q : S * T => R p.2 q.2) (on_fst m).
Proof. intros [s t]. unfold on_fst, zoom. simpl. by destruct (m s). Qed.

#[export] Instance on_1_preorder {S T} (R : S -> S -> Prop) `{!PreOrder R} :
  PreOrder (fun p q : S * T => R p.1 q.1).
Proof. split; [by intros p|]. intros p q r ??. by etrans. Qed.

#[export] Instance on_2_preorder {S T} (R : T -> T -> Prop) `{!PreOrder R} :
  PreOrder (fun p q : S * T => R p.2 q.2).
Proof. split; [by intros p|]. intros p q r ??. by etrans. Qed.

(** Take a method apart, down to its updates. *)
Ltac keeps_step :=
  lazymatch goal with
  | |- forall _, keeps _ _ => intros ?
  | |- keeps _ (bind _ _) => apply keeps_bind; [typeclasses eauto| |]
  | |- keeps _ (ret _) => apply keeps_ret; typeclasses eauto
  | |- keeps _ (raise _) => apply keeps_raise; typeclasses eauto
  | |- keeps _ (gets _) => apply keeps_gets; typeclasses eauto
  | |- keeps _ (assert_ _ _) => apply keeps_assert; typeclasses eauto
  | |- keeps _ (or_raise _ _) => apply keeps_or_raise; typeclasses eauto
  | |- keeps _ (when _ _) => apply keeps_when; [typeclasses eauto|]
  | |- keeps _ (for_each _ _) => apply keeps_for_each; [typeclasses eauto|]
  | |- keeps _ (for_range _ _ _) => apply keeps_for_range; [typeclasses eauto|]
  | |- keeps _ (collect _ _) => apply keeps_collect; [typeclasses eauto|]
  | |- keeps _ (while_ _ _ _) => apply keeps_while; [typeclasses eauto|]
  | |- keeps _ (modify _) => apply keeps_modify; intros ?; try done
  | |- keeps _ (match ?x with _ => _ end) => destruct x
  | |- keeps _ _ => solve [auto with keeps typeclass_instances]
  end.
Ltac keeps_steps := repeat keeps_step.

(** ** Sequences keep their tokens *)

Definition SameTokens (s s' : Sequence) : Prop :=
  token_ids s' = token_ids s /\ num_tokens s' = num_tokens s /\
  num_prompt_tokens s' = num_prompt_tokens s /\ num_new_tokens s' = num_new_tokens s /\
  request_id s' = request_id s /\ max_tokens s' = max_tokens s.

#[export] Instance SameTokens_preorder : PreOrder SameTokens.
Proof.
  split; [by intros s|]. intros s1 s2 s3 (?&?&?&?&?&?) (?&?&?&?&?&?).
  split_and!; by etrans.
Qed.

(** Nor does any of the methods below the scheduler move a sequence in its life
    cycle. *)
Definition Kept (s s' : Sequence) : Prop := SameTokens s s' /\ status s' = status s.

#[export] Instance Kept_preorder : PreOrder Kept.
Proof.
  split; [by intros s; split|]. intros s1 s2 s3 [A1 B1] [A2 B2]. split; etrans; eassumption.
Qed.

Section Keeps.
Context `{SeqSettings} `{SetOrder}.

Definition Kept2 (p q : BlockManager * Sequence) : Prop := Kept p.2 q.2.

#[local] Instance Kept2_preorder : PreOrder Kept2.
Proof. unfold Kept2. apply _. Qed.

Lemma keeps_fst_bm {A} (m : M BlockManager A) : keeps Kept2 (on_fst m).
Proof. apply keeps_on_fst_any. apply _. Qed.
Lemma keeps_snd_bm {A} (m : M Sequence A) : keeps Kept m -> keeps Kept2 (on_snd m).
Proof. apply keeps_on_snd. Qed.
Hint Resolve keeps_fst_bm keeps_snd_bm : keeps.

Lemma keeps_block i : keeps Kept (block i).
Proof. unfold block. keeps_steps. Qed.
Hint Resolve keeps_block : keeps.

Lemma keeps_drop_pending : keeps Kept drop_pending.
Proof. unfold drop_pending. keeps_steps. Qed.

Lemma keeps_reserve_token n : keeps Kept (reserve_token n).
Proof. unfold reserve_token. keeps_steps. Qed.

Lemma keeps_push_table id : keeps Kept2 (push_table id).
Proof. apply keeps_snd_bm. keeps_steps. Qed.
Hint Resolve keeps_push_table : keeps.

Lemma keeps_count_hits idxs nc nn held : keeps Kept2 (count_hits idxs nc nn held).
Proof. revert nc nn held. induction idxs as [|i idxs IH]; intros; simpl; keeps_steps. Qed.
Hint Resolve keeps_count_hits : keeps.

Lemma keeps_can_allocate la : keeps Kept2 (can_allocate la).
Proof. unfold can_allocate. keeps_steps. Qed.

Lemma keeps_allocate n la : keeps Kept2 (allocate n la).
Proof. unfold allocate. keeps_steps. apply keeps_snd_bm. keeps_steps. Qed.

Lemma keeps_deallocate : keeps Kept2 deallocate.
Proof. unfold deallocate. keeps_steps. apply keeps_snd_bm. keeps_steps. Qed.

Lemma keeps_may_append la : keeps Kept2 (may_append la).
Proof. unfold may_append. keeps_steps. Qed.

Lemma keeps_publish_block i : keeps Kept2 (publish_block i).
Proof. unfold publish_block. keeps_steps. Qed.
Hint Resolve keeps_publish_block : keeps.

Lemma keeps_hash_blocks n : keeps Kept2 (hash_blocks n).
Proof. unfold hash_blocks. keeps_steps. apply keeps_snd_bm. keeps_steps. Qed.

End Keeps.

(** What a connector leaves alone, whatever it is given. *)
Class KVConnectorFrame (C : Type) `{KVConnectorScheduler C} : Prop := {
  kv_match_frame : forall n, keeps (fun p q : C * Sequence => Kept p.2 q.2) (kv_get_num_new_matched_tokens n);
  kv_update_frame : forall n, keeps (fun p q : C * Sequence => Kept p.2 q.2) (kv_update_state_after_alloc n);
  kv_finished_frame : keeps (fun p q : C * Sequence => Kept p.2 q.2) kv_request_finished
}.

Lemma keeps_item {S A} (R : S -> S -> Prop) `{!PreOrder R} (conv : pyval -> option A) d k :
  keeps R (item (S := S) conv d k).
Proof. unfold item. keeps_steps. Qed.
#[export] Hint Resolve keeps_item : keeps.

#[export] Instance Nixl_frame : KVConnectorFrame NixlConnectorScheduler.
Proof.
  constructor; simpl.
  - intros n. unfold nixl_get_num_new_matched_tokens. keeps_steps. apply keeps_on_snd. keeps_steps.
  - intros n. unfold nixl_update_state_after_alloc.
    keeps_steps; try (apply keeps_on_snd; by keeps_steps); try (apply keeps_on_fst_any; typeclasses eauto);
      apply keeps_item; typeclasses eauto.
  - unfold nixl_request_finished. keeps_steps. apply keeps_on_fst_any. typeclasses eauto.
Qed.

(** ** The scheduler *)

Section SchedulerKeeps.
Context `{SeqSettings} `{SetOrder} {Q C : Type} `{SchedulingPolicy Q} `{KVConnectorFrame C}.
Variable clock : nat -> Qc.
Local Abbreviation Sch := (Scheduler Q C).

(** The same sequences, with the same tokens. *)
Record HeapTokens (x x' : Sch) : Prop := {
  ht_seqs : forall i s, heap x !! i = Some s -> exists s', heap x' !! i = Some s' /\ SameTokens s s';
  ht_none : forall i, heap x !! i = None -> heap x' !! i = None
}.

#[global] Instance HeapTokens_preorder : PreOrder HeapTokens.
Proof.
  split; [intros x; split; [intros i s Hs; by exists s|done]|]. intros x1 x2 x3 [A1 B1] [A2 B2]. split; [|auto].
  intros i s Hs. destruct (A1 i s Hs) as (s2 & Hs2 & ?). destruct (A2 i s2 Hs2) as (s3 & Hs3 & ?).
  exists s3. split; [done|]. by transitivity s2.
Qed.

Lemma HeapTokens_heap x x' : heap x' = heap x -> HeapTokens x x'.
Proof. intros Hh. split; rewrite Hh; [|done]. intros i s Hs. by exists s. Qed.

Lemma HeapTokens_put x x' i s s' :
  heap x !! i = Some s -> SameTokens s s' -> heap x' = <[i := s']> (heap x) -> HeapTokens x x'.
Proof.
  intros Hi Hs Hh. split; rewrite Hh.
  - intros k sk Hk. destruct (decide (k = i)) as [->|Hne].
    + exists s'. rewrite lookup_insert_eq. split; [done|]. assert (sk = s) by congruence. by subst.
    + exists sk. by rewrite lookup_insert_ne.
  - intros k Hk. rewrite lookup_insert_ne; [done|congruence].
Qed.

(** An update of anything but the store. *)
Lemma keeps_heap (f : Sch -> Sch) : (forall x, heap (f x) = heap x) -> keeps HeapTokens (modify f).
Proof. intros Hf. apply keeps_modify. intros x. by apply HeapTokens_heap. Qed.

Lemma keeps_get_seq i : keeps HeapTokens (get_seq (Q := Q) (C := C) i).
Proof. unfold get_seq. keeps_steps. Qed.

Lemma keeps_on_seq {A} i (m : M Sequence A) : keeps SameTokens m -> keeps HeapTokens (on_seq (Q := Q) (C := C) i m).
Proof.
  intros Hm x. unfold on_seq, get_seq, bind, gets. destruct (heap x !! i) as [s|] eqn:Hi; simpl; [|reflexivity].
  unfold zoom. specialize (Hm s). destruct (m s) as [r s']. simpl in *. by eapply HeapTokens_put.
Qed.

Lemma keeps_set_seq i f : (forall s, SameTokens s (f s)) -> keeps HeapTokens (set_seq (Q := Q) (C := C) i f).
Proof. intros Hf. apply keeps_on_seq. by apply keeps_modify. Qed.

Lemma keeps_on_blocks {A} i (m : M (BlockManager * Sequence) A) :
  keeps Kept2 m -> keeps HeapTokens (on_blocks (Q := Q) (C := C) i m).
Proof.
  intros Hm x. unfold on_blocks, get_seq, bind, gets. destruct (heap x !! i) as [s|] eqn:Hi; simpl; [|reflexivity].
  unfold zoom. specialize (Hm (block_manager x, s)). destruct (m _) as [r [b s']]. simpl in *.
  eapply HeapTokens_put; [done|apply Hm|done].
Qed.

Lemma keeps_on_connector {A} i c (m : M (C * Sequence) A) :
  keeps (fun p q => Kept p.2 q.2) m -> keeps HeapTokens (on_connector (Q := Q) i c m).
Proof.
  intros Hm x. unfold on_connector, get_seq, bind, gets. destruct (heap x !! i) as [s|] eqn:Hi; simpl; [|reflexivity].
  unfold zoom. specialize (Hm (c, s)). destruct (m _) as [r [b s']]. simpl in *.
  eapply HeapTokens_put; [done|apply Hm|done].
Qed.

Lemma keeps_kept {A} (m : M Sequence A) : keeps Kept m -> keeps SameTokens m.
Proof. apply keeps_mono. by intros s s' []. Qed.

Hint Extern 2 (keeps SameTokens drop_pending) => (apply keeps_kept, keeps_drop_pending) : keeps.
Hint Extern 2 (keeps SameTokens (reserve_token _)) => (apply keeps_kept, keeps_reserve_token) : keeps.

Hint Resolve keeps_heap keeps_get_seq keeps_on_seq keeps_set_seq keeps_on_blocks keeps_on_connector
  keeps_can_allocate keeps_allocate keeps_deallocate
  keeps_may_append keeps_hash_blocks kv_match_frame kv_update_frame kv_finished_frame : keeps.

(** The updates of a sequence's other attributes. *)
Hint Extern 1 (SameTokens _ _) => (split_and!; reflexivity) : keeps.
Hint Extern 1 (forall _, SameTokens _ _) => (intros ?; split_and!; reflexivity) : keeps.
Hint Extern 1 (forall _, heap _ = heap _) => (intros ?; reflexivity) : keeps.

Ltac sch_step :=
  lazymatch goal with
  | |- keeps HeapTokens (modify _) => apply keeps_heap; intros ?; reflexivity
  | |- _ => keeps_step
  end.
Ltac sch_steps := repeat sch_step.

Lemma keeps_perf_counter : keeps HeapTokens (perf_counter (Q := Q) (C := C) clock).
Proof. unfold perf_counter. sch_steps. Qed.

Lemma keeps_items l : keeps HeapTokens (items (Q := Q) (C := C) l).
Proof. unfold items. sch_steps. Qed.
Hint Resolve keeps_perf_counter keeps_items : keeps.

Lemma keeps_finish i r : keeps HeapTokens (finish (Q := Q) (C := C) clock i r).
Proof. unfold finish. sch_steps. Qed.
Hint Resolve keeps_finish : keeps.

Lemma keeps_drop i r : keeps HeapTokens (drop (Q := Q) (C := C) clock i r).
Proof. unfold drop. sch_steps. Qed.
Hint Resolve keeps_drop : keeps.

Lemma keeps_free i : keeps HeapTokens (free (Q := Q) (C := C) i).
Proof. unfold free. sch_steps. Qed.

Lemma keeps_remove_running i : keeps HeapTokens (remove_running (Q := Q) (C := C) i).
Proof. unfold remove_running. sch_steps. Qed.

Lemma keeps_remove_waiting i : keeps HeapTokens (remove_waiting (Q := Q) (C := C) i).
Proof. unfold remove_waiting. sch_steps. Qed.
Hint Resolve keeps_free keeps_remove_running keeps_remove_waiting : keeps.

Lemma keeps_abort rid r : keeps HeapTokens (abort (Q := Q) (C := C) clock rid r).
Proof. unfold abort. sch_steps. Qed.

(** The methods with local variables. *)
Definition HeapTokens1 (p q : Sch * Locals) : Prop := HeapTokens p.1 q.1.

#[local] Instance HeapTokens1_preorder : PreOrder HeapTokens1.
Proof. unfold HeapTokens1. apply _. Qed.

Lemma keeps_fst_sch {A} (m : M Sch A) : keeps HeapTokens m -> keeps HeapTokens1 (on_fst m).
Proof. apply keeps_on_fst. Qed.

Lemma keeps_snd_locals {A} (m : M Locals A) : keeps HeapTokens1 (on_snd m).
Proof. apply keeps_on_snd_any. apply _. Qed.
Hint Resolve keeps_fst_sch keeps_snd_locals : keeps.

Ltac loc_step :=
  lazymatch goal with
  | |- keeps HeapTokens1 (on_fst (modify _)) => apply keeps_fst_sch, keeps_heap; intros ?; reflexivity
  | |- keeps HeapTokens1 (on_fst (bind _ _)) => apply keeps_fst_sch; sch_steps
  | |- keeps HeapTokens1 (on_fst (match _ with _ => _ end)) => apply keeps_fst_sch; sch_steps
  | |- _ => keeps_step
  end.
Ltac loc_steps := repeat loc_step.

Lemma keeps_drop_noting i r : keeps HeapTokens1 (drop_noting (Q := Q) (C := C) clock i r).
Proof. unfold drop_noting. loc_steps. Qed.

Lemma keeps_schedule_seq i b : keeps HeapTokens1 (schedule_seq (Q := Q) (C := C) clock i b).
Proof. unfold schedule_seq. loc_steps. Qed.
Hint Resolve keeps_drop_noting keeps_schedule_seq : keeps.

Lemma keeps_preempt i : keeps HeapTokens1 (preempt (Q := Q) (C := C) i).
Proof. unfold preempt. loc_steps. Qed.

Lemma keeps_keep_running i : keeps HeapTokens1 (keep_running (Q := Q) (C := C) i).
Proof. unfold keep_running. loc_steps. Qed.
Hint Resolve keeps_preempt keeps_keep_running : keeps.

Lemma keeps_make_room n i la : keeps HeapTokens1 (make_room (Q := Q) (C := C) clock n i la).
Proof. induction n as [|n IH]; simpl; loc_steps. Qed.

Lemma keeps_schedule_within i : keeps HeapTokens1 (schedule_within (Q := Q) (C := C) clock i).
Proof. unfold schedule_within. loc_steps. Qed.
Hint Resolve keeps_make_room keeps_schedule_within : keeps.

Lemma keeps_schedule_running i : keeps HeapTokens1 (schedule_running (Q := Q) (C := C) clock i).
Proof. unfold schedule_running. loc_steps. Qed.

Lemma keeps_pop_running : keeps HeapTokens1 (pop_running (Q := Q) (C := C)).
Proof. unfold pop_running. loc_steps. Qed.
Hint Resolve keeps_schedule_running keeps_pop_running : keeps.

Lemma keeps_pop_waiting : keeps HeapTokens (pop_waiting (Q := Q) (C := C)).
Proof. unfold pop_waiting. sch_steps. Qed.

Lemma keeps_peek_waiting : keeps HeapTokens (peek_waiting (Q := Q) (C := C)).
Proof. unfold peek_waiting. sch_steps. Qed.
Hint Resolve keeps_pop_waiting keeps_peek_waiting : keeps.

Lemma keeps_admit i nc b : keeps HeapTokens1 (admit_request (Q := Q) (C := C) clock i nc b).
Proof. unfold admit_request. loc_steps. Qed.
Hint Resolve keeps_admit : keeps.

Lemma keeps_admit_within i nc : keeps HeapTokens1 (admit_within (Q := Q) (C := C) clock i nc).
Proof. unfold admit_within. loc_steps. Qed.
Hint Resolve keeps_admit_within : keeps.

Lemma keeps_admit_next : keeps HeapTokens1 (admit_next (Q := Q) (C := C) clock).
Proof. unfold admit_next. loc_steps. Qed.

Lemma keeps_admit_whole : keeps HeapTokens1 (admit_whole (Q := Q) (C := C) clock).
Proof. unfold admit_whole. loc_steps. Qed.
Hint Resolve keeps_admit_next keeps_admit_whole : keeps.

Lemma keeps_with_locals d (m : M (Sch * Locals) unit) : keeps HeapTokens1 m -> keeps HeapTokens (with_locals d m).
Proof.
  intros Hm x. unfold with_locals. specialize (Hm (x, new_locals x d)).
  destruct (m _) as [[e|[]] [x' l']]; exact Hm.
Qed.

Lemma keeps_schedule_whole_prompts : keeps HeapTokens (schedule_whole_prompts (Q := Q) (C := C) clock).
Proof. apply keeps_with_locals. loc_steps. Qed.

Lemma keeps_schedule_step d : keeps HeapTokens (schedule_step (Q := Q) (C := C) clock d).
Proof.
  apply keeps_with_locals. unfold sort_running, schedule_all_running, admit_all. loc_steps.
Qed.

Lemma keeps_with_connector_meta o : keeps HeapTokens (with_connector_meta (Q := Q) (C := C) o).
Proof.
  unfold with_connector_meta. sch_steps. apply keeps_zoom. intros x.
  destruct (kv_build_connector_meta _) as [? ?]. by apply HeapTokens_heap.
Qed.
Hint Resolve keeps_schedule_whole_prompts keeps_schedule_step keeps_with_connector_meta : keeps.

Lemma keeps_schedule : keeps HeapTokens (schedule (Q := Q) (C := C) clock).
Proof. unfold schedule. sch_steps. Qed.

Lemma keeps_advance l : keeps HeapTokens (advance (Q := Q) (C := C) l).
Proof. unfold advance, advance_seq. sch_steps. Qed.

Lemma keeps_update o : keeps HeapTokens (update_from_kv_connector_output (Q := Q) (C := C) o).
Proof. unfold update_from_kv_connector_output, finish_sending, finish_recving. sch_steps. Qed.

End SchedulerKeeps.

(** ** What a run that returns has done

    [yields R m]: every run of [m] that returns relates the state before to the
    state after by [R]. *)

Definition yields {S A} (R : S -> S -> Prop) (m : M S A) : Prop := forall s a s', m s = (inr a, s') -> R s s'.

Section Yields.
Context {S : Type}.
Implicit Types R : S -> S -> Prop.

Lemma yields_keeps {A} R (m : M S A) : keeps R m -> yields R m.
Proof. intros Hm s a s' He. specialize (Hm s). by rewrite He in Hm. Qed.

Lemma yields_bind {A B} R1 R2 R3 (m : M S A) (k : A -> M S B) :
  (forall s1 s2 s3, R1 s1 s2 -> R2 s2 s3 -> R3 s1 s3) ->
  yields R1 m -> (forall a, yields R2 (k a)) -> yields R3 (bind m k).
Proof.
  intros HR Hm Hk s b s2. unfold bind. destruct (m s) as [[e|a] s1] eqn:He; [done|]. intros Hb.
  eapply HR; [by eapply Hm|by eapply Hk].
Qed.

Lemma yields_mono {A} R R' (m : M S A) : (forall s s', R' s s' -> R s s') -> yields R' m -> yields R m.
Proof. intros HR Hm s a s' He. apply HR. by eapply Hm. Qed.

Lemma yields_and {A} R R' (m : M S A) : yields R m -> yields R' m -> yields (fun s s' => R s s' /\ R' s s') m.
Proof. intros Hm Hm' s a s' He. split; [by eapply Hm|by eapply Hm']. Qed.

Lemma yields_raise {A} R e : yields R (raise (A := A) e).
Proof. by intros s a s'. Qed.

Lemma yields_modify R f : (forall s, R s (f s)) -> yields R (modify f).
Proof. intros Hf s a s' [= _ <-]. apply Hf. Qed.

Context R `{!PreOrder R}.

Lemma yields_then {A B} (m : M S A) (k : A -> M S B) :
  yields R m -> (forall a, yields R (k a)) -> yields R (bind m k).
Proof. apply yields_bind. intros s1 s2 s3 ??. by etrans. Qed.

Lemma yields_ret {A} (a : A) : yields R (ret a).
Proof. apply yields_keeps, keeps_ret. apply _. Qed.
Lemma yields_gets {A} (f : S -> A) : yields R (gets f).
Proof. apply yields_keeps, keeps_gets. apply _. Qed.
Lemma yields_assert b msg : yields R (assert_ b msg).
Proof. apply yields_keeps, keeps_assert. apply _. Qed.
Lemma yields_or_raise {A} (o : option A) e : yields R (or_raise o e).
Proof. apply yields_keeps, keeps_or_raise. apply _. Qed.
Lemma yields_when b m : yields R m -> yields R (when b m).
Proof. intros Hm. destruct b; [done|]. apply yields_ret. Qed.
Lemma yields_for_each {A} (l : list A) (f : A -> M S unit) : (forall a, yields R (f a)) -> yields R (for_each l f).
Proof. intros Hf. induction l; simpl; [apply yields_ret|]. by apply yields_then. Qed.
Lemma yields_collect {A B} (l : list A) (f : A -> M S B) : (forall a, yields R (f a)) -> yields R (collect l f).
Proof.
  intros Hf. induction l; simpl; [apply yields_ret|]. apply yields_then; [done|]. intros b.
  apply yields_then; [done|]. intros bs. apply yields_ret.
Qed.
Lemma yields_while n c (body : M S bool) : yields R body -> yields R (while_ n c body).
Proof.
  intros Hb. induction n; simpl; [apply yields_raise|]. apply yields_then; [apply yields_gets|].
  intros []; [|apply yields_ret]. apply yields_then; [done|]. intros []; [done|apply yields_ret].
Qed.
Lemma yields_zoom {T A} (R' : T -> T -> Prop) (get : S -> T) (put : T -> S -> S) (m : M T A) :
  yields R' m -> (forall s t, R' (get s) t -> R s (put t s)) -> yields R (zoom get put m).
Proof.
  intros Hm HR s a s'. unfold zoom. destruct (m (get s)) as [r t] eqn:He. intros [= -> <-]. apply HR. by eapply Hm.
Qed.

End Yields.

Ltac yields_step :=
  lazymatch goal with
  | |- forall _, yields _ _ => intros ?
  | |- yields _ (bind _ _) => apply yields_then; [typeclasses eauto| |]
  | |- yields _ (ret _) => apply yields_ret; typeclasses eauto
  | |- yields _ (raise _) => apply yields_raise
  | |- yields _ (gets _) => apply yields_gets; typeclasses eauto
  | |- yields _ (assert_ _ _) => apply yields_assert; typeclasses eauto
  | |- yields _ (or_raise _ _) => apply yields_or_raise; typeclasses eauto
  | |- yields _ (when _ _) => apply yields_when; [typeclasses eauto|]
  | |- yields _ (for_each _ _) => apply yields_for_each; [typeclasses eauto|]
  | |- yields _ (collect _ _) => apply yields_collect; [typeclasses eauto|]
  | |- yields _ (while_ _ _ _) => apply yields_while; [typeclasses eauto|]
  | |- yields _ (match ?x with _ => _ end) => destruct x
  | |- yields _ _ => solve [auto with yields typeclass_instances]
  end.
Ltac yields_steps := repeat yields_step.

Create HintDb yields.

(** ** The sequences a step ends *)

Section SchedulerEnds.
Context `{SeqSettings} `{SetOrder} {Q C : Type} `{SchedulingPolicy Q} `{KVConnectorFrame C}.
Local Abbreviation Sch := (Scheduler Q C).

(** Only the sequences of [ended] may be finished that were not. *)
Record HeapEnds (ended : list nat) (x x' : Sch) : Prop := {
  he_seqs : forall i s, heap x !! i = Some s -> exists s', heap x' !! i = Some s' /\
    request_id s' = request_id s /\ (status s' = FINISHED -> status s = FINISHED \/ i ∈ ended);
  he_none : forall i, heap x !! i = None -> heap x' !! i = None
}.

#[global] Instance HeapEnds_preorder ended : PreOrder (HeapEnds ended).
Proof.
  split; [intros x; split; [intros i s Hs; exists s; by eauto|done]|]. intros x1 x2 x3 [A1 B1] [A2 B2].
  split; [|auto]. intros i s Hs.
  destruct (A1 i s Hs) as (s2 & Hs2 & Hr2 & F2). destruct (A2 i s2 Hs2) as (s3 & Hs3 & Hr3 & F3).
  exists s3. split_and!; [done|congruence|]. intros [|]%F3; auto.
Qed.

Lemma HeapEnds_more ended ended' x x' : (forall i, i ∈ ended -> i ∈ ended') -> HeapEnds ended x x' -> HeapEnds ended' x x'.
Proof.
  intros Hsub [A B]. split; [|done]. intros i s Hs. destruct (A i s Hs) as (s' & Hs' & Hr & F). exists s'. split_and!; [done|done|].
  intros [|]%F; auto.
Qed.

(** The requests' registry is untouched as well. *)
Record StillLive (ended : list nat) (x x' : Sch) : Prop := {
  sl_heap : HeapEnds ended x x';
  sl_seqs : seqs x' = seqs x
}.

#[global] Instance StillLive_preorder ended : PreOrder (StillLive ended).
Proof. split; [by intros x; split|]. intros x1 x2 x3 [A1 B1] [A2 B2]. split; [by etrans|congruence]. Qed.

(** [ended] is what finished: each of its requests was live, once, and no
    longer is. *)
Record Ends (ended : list nat) (x x' : Sch) : Prop := {
  en_heap : HeapEnds ended x x';
  en_live : forall r j, seqs x' !! r = Some j -> seqs x !! r = Some j;
  en_ids : exists rids, Forall2 (fun i r => exists s, heap x !! i = Some s /\ request_id s = r) ended rids /\
    NoDup rids /\ Forall (fun r => is_Some (seqs x !! r) /\ seqs x' !! r = None) rids
}.

Lemma Ends_none x x' : StillLive [] x x' -> Ends [] x x'.
Proof. intros [A B]. split; [done|by rewrite B|]. exists []. split_and!; constructor. Qed.

Lemma Ends_app a b x1 x2 x3 : Ends a x1 x2 -> Ends b x2 x3 -> Ends (a ++ b) x1 x3.
Proof.
  intros [A1 B1 (r1 & F1 & N1 & L1)] [A2 B2 (r2 & F2 & N2 & L2)]. split.
  - transitivity x2; (eapply HeapEnds_more; [|eassumption]); set_solver.
  - auto.
  - exists (r1 ++ r2). split_and!.
    + apply Forall2_app; [done|]. eapply Forall2_impl; [exact F2|]. intros i r (s2 & Hs2 & Hr). simpl.
      destruct (heap x1 !! i) as [s|] eqn:Hs; [|rewrite (he_none _ _ _ A1 i Hs) in Hs2; done].
      destruct (he_seqs _ _ _ A1 i s Hs) as (s2' & Hs2' & Hr2 & _). exists s. split; [done|congruence].
    + apply NoDup_app. split_and!; [done| |done]. intros r Hr1 Hr2. rewrite Forall_forall in L1, L2.
      destruct (L1 r Hr1) as [_ Hn]. destruct (L2 r Hr2) as [[j Hj] _]. congruence.
    + apply Forall_app. split.
      * eapply Forall_impl; [exact L1|]. intros r [Hs Hn]. split; [done|].
        destruct (seqs x3 !! r) as [j|] eqn:Hj; [|done]. apply B2 in Hj. congruence.
      * eapply Forall_impl; [exact L2|]. intros r [[j Hj] Hn]. split; [|done]. exists j. by apply B1.
Qed.

Lemma yields_heap ended (f : Sch -> Sch) :
  (forall x, heap (f x) = heap x) -> (forall x, seqs (f x) = seqs x) -> yields (StillLive ended) (modify f).
Proof.
  intros Hh Hs. apply yields_modify. intros x. split; [|by rewrite Hs]. split; rewrite Hh; [|done].
  intros i s Hi. exists s. by eauto.
Qed.

Lemma StillLive_put ended (x x' : Sch) i s s' :
  heap x !! i = Some s -> request_id s' = request_id s -> (status s' = FINISHED -> status s = FINISHED \/ i ∈ ended) ->
  heap x' = <[i := s']> (heap x) -> seqs x' = seqs x -> StillLive ended x x'.
Proof.
  intros Hi Hr Hf Hh Hs. split; [|done]. split; rewrite Hh.
  - intros k sk Hk. destruct (decide (k = i)) as [->|Hne].
    + exists s'. rewrite lookup_insert_eq. replace sk with s by congruence. done.
    + exists sk. rewrite lookup_insert_ne by done. by eauto.
  - intros k Hk. rewrite lookup_insert_ne; [done|congruence].
Qed.

Lemma yields_get_seq ended i : yields (StillLive ended) (get_seq (Q := Q) (C := C) i).
Proof. unfold get_seq. apply yields_keeps. keeps_steps. Qed.

Lemma yields_on_seq {A} ended i (R : Sequence -> Sequence -> Prop) (m : M Sequence A) :
  keeps R m -> (forall s s', R s s' -> request_id s' = request_id s /\ (status s' = FINISHED -> status s = FINISHED \/ i ∈ ended)) ->
  yields (StillLive ended) (on_seq (Q := Q) (C := C) i m).
Proof.
  intros Hm HR x a x'. unfold on_seq, get_seq, bind, gets. destruct (heap x !! i) as [s|] eqn:Hi; simpl; [|done].
  unfold zoom. specialize (Hm s). destruct (m s) as [r s']. simpl in *. intros [= -> <-].
  destruct (HR _ _ Hm). by eapply StillLive_put.
Qed.

Lemma yields_set_seq ended i f :
  (forall s, request_id (f s) = request_id s /\ (status (f s) = FINISHED -> status s = FINISHED \/ i ∈ ended)) ->
  yields (StillLive ended) (set_seq (Q := Q) (C := C) i f).
Proof.
  intros Hf. apply (yields_on_seq _ _ (fun s s' => request_id s' = request_id s /\
    (status s' = FINISHED -> status s = FINISHED \/ i ∈ ended))); [|done]. intros s. apply Hf.
Qed.

Lemma Kept_still (i : nat) (ended : list nat) s s' : Kept s s' -> request_id s' = request_id s /\ (status s' = FINISHED -> status s = FINISHED \/ i ∈ ended).
Proof. intros [(_ & _ & _ & _ & Hr & _) Hst]. rewrite Hst. by eauto. Qed.

Lemma yields_kept {A} ended i (m : M Sequence A) : keeps Kept m -> yields (StillLive ended) (on_seq (Q := Q) (C := C) i m).
Proof. intros Hm. eapply yields_on_seq; [exact Hm|]. intros s s'. apply Kept_still. Qed.

Lemma yields_on_blocks {A} ended i (m : M (BlockManager * Sequence) A) :
  keeps Kept2 m -> yields (StillLive ended) (on_blocks (Q := Q) (C := C) i m).
Proof.
  intros Hm x a x'. unfold on_blocks, get_seq, bind, gets. destruct (heap x !! i) as [s|] eqn:Hi; simpl; [|done].
  unfold zoom. specialize (Hm (block_manager x, s)). destruct (m _) as [r [b s']]. simpl in *. intros [= -> <-].
  destruct (Kept_still i ended _ _ Hm). by eapply StillLive_put.
Qed.

Lemma yields_on_connector {A} ended i c (m : M (C * Sequence) A) :
  keeps (fun p q => Kept p.2 q.2) m -> yields (StillLive ended) (on_connector (Q := Q) i c m).
Proof.
  intros Hm x a x'. unfold on_connector, get_seq, bind, gets. destruct (heap x !! i) as [s|] eqn:Hi; simpl; [|done].
  unfold zoom. specialize (Hm (c, s)). destruct (m _) as [r [b s']]. simpl in *. intros [= -> <-].
  destruct (Kept_still i ended _ _ Hm). by eapply StillLive_put.
Qed.

Hint Resolve keeps_can_allocate keeps_allocate keeps_deallocate keeps_may_append keeps_hash_blocks keeps_drop_pending
  keeps_reserve_token kv_match_frame kv_update_frame kv_finished_frame : keeps.
Hint Resolve yields_get_seq : yields.
Hint Extern 1 (yields (StillLive _) (on_seq _ _)) => (apply yields_kept; solve [auto with keeps]) : yields.
Hint Extern 1 (yields (StillLive _) (on_blocks _ _)) => (apply yields_on_blocks; solve [auto with keeps]) : yields.
Hint Extern 1 (yields (StillLive _) (on_connector _ _ _)) => (apply yields_on_connector; solve [auto with keeps]) : yields.
Hint Extern 1 (yields (StillLive _) (set_seq _ _)) =>
  (apply yields_set_seq; intros ?; split; [reflexivity|solve [simpl; intros ?; auto; discriminate]]) : yields.
Hint Extern 1 (yields (StillLive _) (modify _)) => (apply yields_heap; intros ?; reflexivity) : yields.

Variable clock : nat -> Qc.

Lemma yields_perf_counter ended : yields (StillLive ended) (perf_counter (Q := Q) (C := C) clock).
Proof. unfold perf_counter. yields_steps. Qed.

Lemma yields_items ended l : yields (StillLive ended) (items (Q := Q) (C := C) l).
Proof. unfold items. yields_steps. Qed.
Hint Resolve yields_perf_counter yields_items : yields.

Lemma yields_finish i r : yields (StillLive [i]) (finish (Q := Q) (C := C) clock i r).
Proof.
  unfold finish. yields_step; [|yields_steps]. apply yields_set_seq. intros s. split; [done|]. intros _. right. constructor.
Qed.
Hint Resolve yields_finish : yields.

Lemma yields_remove_running ended i : yields (StillLive ended) (remove_running (Q := Q) (C := C) i).
Proof. unfold remove_running. yields_steps. Qed.
Lemma yields_pop_waiting ended : yields (StillLive ended) (pop_waiting (Q := Q) (C := C)).
Proof. unfold pop_waiting. yields_steps. Qed.
Lemma yields_peek_waiting ended : yields (StillLive ended) (peek_waiting (Q := Q) (C := C)).
Proof. unfold peek_waiting. yields_steps. Qed.
Hint Resolve yields_remove_running yields_pop_waiting yields_peek_waiting : yields.

(** [_drop] ends exactly the sequence it is given, and its request was live. *)
Lemma yields_drop i r : yields (Ends [i]) (drop (Q := Q) (C := C) clock i r).
Proof.
  assert (yields (StillLive [i]) (finish clock i r;;; on_seq i drop_pending)) as Hm by yields_steps.
  intros x [] x3 He.
  assert (exists x2 s j, (finish clock i r;;; on_seq i drop_pending) x = (inr tt, x2) /\ heap x2 !! i = Some s /\
    seqs x2 !! request_id s = Some j /\ x3 = x2 <| seqs ::= delete (request_id s) |>) as (x2 & s & j & Hx2 & Hs & Hj & ->).
  { revert He. unfold drop, get_seq, bind, gets. destruct (finish clock i r x) as [[e|[]] x1]; [done|].
    destruct (on_seq i drop_pending x1) as [[e|[]] x2]; [done|].
    destruct (heap x2 !! i) as [s|] eqn:Hs; [|done]. simpl.
    destruct (seqs x2 !! request_id s) as [j|] eqn:Hj; [|done]. intros [= <-]. by exists x2, s, j. }
  destruct (Hm _ _ _ Hx2) as [A B]. split; simpl.
  - by destruct A.
  - intros rid k. rewrite lookup_delete_Some, B. by intros [].
  - destruct (heap x !! i) as [s1|] eqn:Hs1; [|rewrite (he_none _ _ _ A i Hs1) in Hs; done].
    destruct (he_seqs _ _ _ A i s1 Hs1) as (s' & Hs' & Hr & _). replace s' with s in Hr by congruence.
    exists [request_id s1]. rewrite <-B, <-Hr. split_and!.
    + repeat constructor. by exists s1.
    + apply NoDup_singleton.
    + repeat constructor; [by eexists|apply lookup_delete_eq].
Qed.

(** What a body on local variables ends, it notes. *)
Definition Noted (p q : Sch * Locals) : Prop :=
  exists ended, dropped (output q.2) = dropped (output p.2) ++ ended /\ Ends ended p.1 q.1.

#[local] Instance Noted_preorder : PreOrder Noted.
Proof.
  split.
  - intros p. exists []. split; [by rewrite app_nil_r|]. by apply Ends_none.
  - intros p q r (a & Ha & Ea) (b & Hb & Eb). exists (a ++ b). split; [by rewrite Hb, Ha, app_assoc|]. by eapply Ends_app.
Qed.

Lemma yields_fst {A} (m : M Sch A) : yields (StillLive []) m -> yields Noted (on_fst m).
Proof.
  intros Hm. eapply yields_zoom; [exact Hm|]. intros p x Hx. exists []. simpl. split; [by rewrite app_nil_r|].
  by apply Ends_none.
Qed.

Lemma yields_snd (f : Locals -> Locals) :
  (forall l, dropped (output (f l)) = dropped (output l)) -> yields Noted (on_snd (modify f)).
Proof.
  intros Hf. apply (yields_zoom _ (fun l l' => dropped (output l') = dropped (output l))).
  - by apply yields_modify.
  - intros p l Hl. exists []. simpl. split; [by rewrite app_nil_r|]. by apply Ends_none.
Qed.

Hint Extern 1 (yields Noted (on_snd (modify _))) => (apply yields_snd; intros ?; reflexivity) : yields.
Hint Extern 1 (yields Noted (on_fst _)) => (apply yields_fst; solve [yields_steps]) : yields.

Lemma yields_drop_noting i r : yields Noted (drop_noting (Q := Q) (C := C) clock i r).
Proof.
  unfold drop_noting. apply (yields_bind (fun p q => Ends [i] p.1 q.1 /\ q.2 = p.2)
    (fun p q => dropped (output q.2) = dropped (output p.2) ++ [i] /\ q.1 = p.1)).
  - intros p q s [Ha Hb] [Hc Hd]. exists [i]. rewrite Hd, Hc, Hb. done.
  - eapply yields_zoom; [apply yields_drop|]. done.
  - intros []. apply (yields_zoom _ (fun l l' => dropped (output l') = dropped (output l) ++ [i])); [by apply yields_modify|]. done.
Qed.
Hint Resolve yields_drop_noting : yields.

Lemma yields_schedule_seq i b : yields Noted (schedule_seq (Q := Q) (C := C) clock i b).
Proof.
  unfold schedule_seq. yields_steps; apply yields_snd; intros l; simpl; by destruct (is_prefill _).
Qed.
Hint Resolve yields_schedule_seq : yields.

Lemma yields_preempt i : yields Noted (preempt (Q := Q) (C := C) i).
Proof. unfold preempt. yields_steps. Qed.
Lemma yields_keep_running i : yields Noted (keep_running (Q := Q) (C := C) i).
Proof. unfold keep_running. yields_steps. Qed.
Hint Resolve yields_preempt yields_keep_running : yields.

Lemma yields_make_room n i la : yields Noted (make_room (Q := Q) (C := C) clock n i la).
Proof. induction n as [|n IH]; simpl; yields_steps. Qed.
Lemma yields_schedule_within i : yields Noted (schedule_within (Q := Q) (C := C) clock i).
Proof. unfold schedule_within. yields_steps. Qed.
Hint Resolve yields_make_room yields_schedule_within : yields.

Lemma yields_schedule_running i : yields Noted (schedule_running (Q := Q) (C := C) clock i).
Proof. unfold schedule_running. yields_steps. Qed.
Lemma yields_pop_running : yields Noted (pop_running (Q := Q) (C := C)).
Proof. unfold pop_running. yields_steps. Qed.
Hint Resolve yields_schedule_running yields_pop_running : yields.

Lemma yields_admit i nc b : yields Noted (admit_request (Q := Q) (C := C) clock i nc b).
Proof. unfold admit_request. yields_steps. Qed.
Hint Resolve yields_admit : yields.
Lemma yields_admit_within i nc : yields Noted (admit_within (Q := Q) (C := C) clock i nc).
Proof. unfold admit_within. yields_steps. Qed.
Hint Resolve yields_admit_within : yields.
Lemma yields_admit_next : yields Noted (admit_next (Q := Q) (C := C) clock).
Proof. unfold admit_next. yields_steps. Qed.
Lemma yields_admit_whole : yields Noted (admit_whole (Q := Q) (C := C) clock).
Proof. unfold admit_whole. yields_steps. Qed.
Hint Resolve yields_admit_next yields_admit_whole : yields.

Lemma with_locals_notes d (m : M (Sch * Locals) unit) x o x' :
  yields Noted m -> with_locals d m x = (inr o, x') -> exists ended, dropped o = d ++ ended /\ Ends ended x x'.
Proof.
  intros Hm. unfold with_locals. destruct (m _) as [[e|[]] [x1 l]] eqn:He; [done|]. intros [= <- <-].
  apply (Hm _ _ _ He).
Qed.

Lemma with_connector_meta_ends o x o' x' :
  with_connector_meta (Q := Q) (C := C) o x = (inr o', x') -> dropped o' = dropped o /\ StillLive [] x x'.
Proof.
  unfold with_connector_meta, bind, gets. destruct (connector x) as [c|].
  - unfold zoom. destruct (kv_build_connector_meta c) as [[e|m] c']; [done|]. intros [= <- <-].
    split; [done|]. split; [|done]. split; [|done]. intros i s Hs. exists s. by eauto.
  - intros [= <- <-]. done.
Qed.

Lemma whole_prompts_ends x o x' :
  schedule_whole_prompts (Q := Q) (C := C) clock x = (inr o, x') -> Ends (dropped o) x x'.
Proof.
  intros He. eapply with_locals_notes in He as (ended & -> & Hx); [done|]. yields_steps.
Qed.

Lemma schedule_step_ends d x o x' :
  schedule_step (Q := Q) (C := C) clock d x = (inr o, x') -> exists ended, dropped o = d ++ ended /\ Ends ended x x'.
Proof.
  apply with_locals_notes. unfold sort_running, schedule_all_running, admit_all. yields_steps.
Qed.

(** [schedule] reports the sequences it ended. *)
Lemma schedule_ends x o x' : schedule (Q := Q) (C := C) clock x = (inr o, x') -> Ends (dropped o) x x'.
Proof.
  assert (Hmeta : forall d x1 o1 o2 x2, dropped o1 = d -> Ends d x x1 -> with_connector_meta o1 x1 = (inr o2, x2) ->
    Ends (dropped o2) x x2).
  { intros d x1 o1 o2 x2 <- Hx Hm. apply with_connector_meta_ends in Hm as [-> Hq].
    rewrite <-(app_nil_r (dropped o1)). eapply Ends_app; [exact Hx|by apply Ends_none]. }
  unfold schedule, bind, gets. destruct (negb _).
  - destruct (schedule_whole_prompts clock x) as [[e|o1] x1] eqn:He1; [done|]. apply whole_prompts_ends in He1.
    destruct (output_truthy o1); [by eapply Hmeta|].
    destruct (schedule_step clock (dropped o1) x1) as [[e|o2] x2] eqn:He2; [done|].
    apply schedule_step_ends in He2 as (ended & Hd & He2). eapply Hmeta; [exact Hd|]. by eapply Ends_app.
  - destruct (schedule_step clock [] x) as [[e|o2] x2] eqn:He2; [done|].
    apply schedule_step_ends in He2 as (ended & Hd & He2). by eapply Hmeta.
Qed.

Lemma advance_ends l : yields (StillLive []) (advance (Q := Q) (C := C) l).
Proof. unfold advance, advance_seq. yields_steps. Qed.

Lemma update_ends o : yields (StillLive []) (update_from_kv_connector_output (Q := Q) (C := C) o).
Proof. unfold update_from_kv_connector_output, finish_sending, finish_recving. yields_steps. Qed.

End SchedulerEnds.
