(* ===== verification/Metrics.v ===== *)
(** * Metrics

    [engine/metrics.py]. The instruments belong to the Prometheus client, so
    the state is the log of the calls made to them, in order; a counter's value
    is the sum of its increments. The lock serialises the methods, so each is
    one step. *)

From S2P Require Import Prelude Output Sequence BlockManager Policy KVBase Scheduler.

(** ** The instruments of [Metrics.__init__] *)

Inductive Instrument :=
| m_running | m_waiting | m_kv_usage
| m_requests_received | m_requests_aborted | m_requests_finished | m_preemptions
| m_prompt_tokens | m_generation_tokens | m_prefill_tokens | m_decode_tokens
| m_prefix_cache_queries | m_prefix_cache_hits
| m_steps | m_graph_steps | m_eager_steps | m_step_seconds | m_model_busy
| m_ttft | m_tpot | m_queue_time | m_e2e | m_request_prompt_tokens | m_request_generation_tokens
| m_step_duration | m_iteration_tokens
| m_kv_transfers | m_kv_transfer_failures | m_kv_transfer_expired | m_kv_transfer_time | m_kv_transfer_bytes
| m_spec_drafts | m_spec_draft_tokens | m_spec_accepted_tokens | m_spec_accepted_per_pos.

#[export] Instance Instrument_eq_dec : EqDecision Instrument.
Proof. solve_decision. Defined.

(** The label each labelled counter takes. *)
Definition instrument_label (i : Instrument) : option string :=
  match i with
  | m_requests_finished => Some "finished_reason"
  | m_eager_steps => Some "reason"
  | m_step_seconds => Some "kind"
  | m_spec_accepted_per_pos => Some "position"
  | _ => None
  end.

Definition GRAPH_KINDS : list string := ["graph"; "piecewise"].

Inductive Call :=
| Inc (i : Instrument) (label : option string) (amount : Qc)
| Observe (i : Instrument) (v : Qc)
| SetTo (i : Instrument) (v : Qc).

Definition Metrics : Type := list Call.

Definition new_Metrics : Metrics := [].

Definition inc (i : Instrument) (amount : Qc) : M Metrics unit := modify (fun m => m ++ [Inc i None amount]).
Definition inc_label (i : Instrument) (label : string) (amount : Qc) : M Metrics unit :=
  modify (fun m => m ++ [Inc i (Some label) amount]).
Definition observe (i : Instrument) (v : Qc) : M Metrics unit := modify (fun m => m ++ [Observe i v]).
Definition set_to (i : Instrument) (v : Qc) : M Metrics unit := modify (fun m => m ++ [SetTo i v]).

(** [str(n)] of a count. *)
Definition py_str (n : nat) : string := pretty n.

Definition record_received : M Metrics unit := inc m_requests_received 1.

(** Observe a time that was reached. *)
Definition observe_reached (i : Instrument) (v : option Qc) : M Metrics unit :=
  match v with Some v => observe i v | None => ret tt end.

(** [str(None)] is the label of an output with no reason. *)
Definition record_finished (o : RequestOutput) : M Metrics unit :=
  inc_label m_requests_finished (default "None" (ro_finish_reason o)) 1;;;
  match ro_metrics o with
  | None => ret tt
  | Some rm =>
      inc m_prompt_tokens (Qc_of_Z (rm_num_prompt_tokens rm));;;
      inc m_generation_tokens (Qc_of_Z (rm_num_completion_tokens rm));;;
      observe m_request_prompt_tokens (Qc_of_Z (rm_num_prompt_tokens rm));;;
      observe m_request_generation_tokens (Qc_of_Z (rm_num_completion_tokens rm));;;
      observe_reached m_ttft (ttft rm);;;
      observe_reached m_tpot (tpot rm);;;
      observe_reached m_queue_time (queue_time rm);;;
      observe_reached m_e2e (e2e rm)
  end.

Definition record_aborted (o : RequestOutput) : M Metrics unit :=
  if bool_decide (ro_finish_reason o = Some "abort") then inc m_requests_aborted 1 else record_finished o.

Definition record_step {Q C} `{SchedulingPolicy Q} (x : Scheduler Q C) (o : SchedulerOutput)
    (outputs : list RequestOutput) (duration : Qc) (step_kind : string) : M Metrics unit :=
  when (output_truthy o)
    (inc m_steps 1;;;
     (if bool_decide (step_kind ∈ GRAPH_KINDS) then inc m_graph_steps 1 else inc_label m_eager_steps step_kind 1);;;
     inc_label m_step_seconds step_kind duration;;;
     inc m_model_busy duration;;;
     observe m_step_duration duration;;;
     observe m_iteration_tokens (Qc_of_Z (num_prefill_tokens o + num_decode_tokens o));;;
     inc m_prefill_tokens (Qc_of_Z (num_prefill_tokens o));;;
     inc m_decode_tokens (Qc_of_Z (num_decode_tokens o)));;;
  inc m_preemptions (Qc_of_Z (Zlen (preempted o)));;;
  inc m_prefix_cache_queries (Qc_of_Z (num_queried_blocks o));;;
  inc m_prefix_cache_hits (Qc_of_Z (num_cached_blocks o));;;
  set_to m_running (Qc_of_Z (Zlen (running x)));;;
  set_to m_waiting (Qc_of_Z (Z.of_nat (pol_len (waiting x)) + Z.of_nat (size (recving x))));;;
  set_to m_kv_usage (usage (block_manager x));;;
  for_each outputs (fun r => when (ro_finished r) (record_finished r)).

Definition record_kv_transfer (o : KVConnectorOutput) : M Metrics unit :=
  for_each (map_to_list (recv_stats o)) (fun p =>
    inc m_kv_transfers 1;;;
    observe m_kv_transfer_time (seconds p.2);;;
    observe m_kv_transfer_bytes (Qc_of_Z (num_bytes p.2)));;;
  inc m_kv_transfer_failures (Qc_of_Z (Z.of_nat (size (failed_recving o))));;;
  inc m_kv_transfer_expired (Qc_of_Z (Z.of_nat (size (expired_sending o)))).

(** One row's turn in [record_spec_decoding]. *)
Definition record_spec_row (row : LaunchedRow) (tokens : list Z) : M Metrics unit :=
  if (row_num_draft_tokens row =? 0)%Z then ret tt
  else
    let num_accepted := (Zlen tokens - 1)%Z in
    inc m_spec_drafts 1;;;
    inc m_spec_draft_tokens (Qc_of_Z (row_num_draft_tokens row));;;
    inc m_spec_accepted_tokens (Qc_of_Z num_accepted);;;
    for_range 0 num_accepted (fun position => inc_label m_spec_accepted_per_pos (py_str (Z.to_nat position)) 1).

Definition record_spec_decoding (rows : list LaunchedRow) (token_ids : list (list Z)) : M Metrics unit :=
  for_each (zip rows token_ids) (fun p => record_spec_row p.1 p.2).

(** ** What the log says *)

Definition amount_of (i : Instrument) (c : Call) : Qc :=
  match c with Inc j _ a => if decide (j = i) then a else 0%Qc | _ => 0%Qc end.

(** A counter's value, over all its labels. *)
Definition total (i : Instrument) (m : Metrics) : Qc := foldr (fun c acc => amount_of i c + acc)%Qc 0%Qc m.

(** A histogram's count. *)
Definition observations (i : Instrument) (m : Metrics) : nat :=
  length (List.filter (fun c => match c with Observe j _ => bool_decide (j = i) | _ => false end) m).

Lemma observations_app i m1 m2 : observations i (m1 ++ m2) = observations i m1 + observations i m2.
Proof. unfold observations. by rewrite List.filter_app, length_app. Qed.

Lemma total_app i m1 m2 : total i (m1 ++ m2) = (total i m1 + total i m2)%Qc.
Proof. unfold total. induction m1 as [|c m1 IH]; simpl; [ring|]. rewrite IH. ring. Qed.

(** Steps are counted once as a graph step or as an eager step; accepted
    drafts once each by position; loads by count and by histogram. *)
Record Balanced (m : Metrics) : Prop := {
  bal_steps : total m_steps m = (total m_graph_steps m + total m_eager_steps m)%Qc;
  bal_seconds : total m_step_seconds m = total m_model_busy m;
  bal_accepted : total m_spec_accepted_tokens m = total m_spec_accepted_per_pos m;
  bal_loads : total m_kv_transfers m = Qc_of_Z (Z.of_nat (observations m_kv_transfer_time m))
}.

(** A method that appends a balanced stretch of calls. *)
Definition appends (P : Metrics -> Prop) (m : M Metrics unit) : Prop :=
  forall l, exists k, m l = (inr tt, l ++ k) /\ P k.

Ltac balanced :=
  constructor; unfold observations; simpl;
  try change (Z.of_nat 0) with 0%Z; try change (Z.of_nat 1) with 1%Z;
  rewrite ?Z2Qc_inj_0, ?Z2Qc_inj_1; ring.

Lemma Balanced_nil : Balanced [].
Proof. balanced. Qed.

Lemma Balanced_app m1 m2 : Balanced m1 -> Balanced m2 -> Balanced (m1 ++ m2).
Proof.
  intros [A1 B1 C1 D1] [A2 B2 C2 D2].
  constructor; rewrite !total_app, ?A1, ?A2, ?B1, ?B2, ?C1, ?C2, ?D1, ?D2; try ring.
  rewrite observations_app, Nat2Z.inj_add. by rewrite Z2Qc_inj_add.
Qed.

Lemma appends_ret : appends Balanced (ret tt).
Proof. intros l. exists []. rewrite app_nil_r. split; [done|apply Balanced_nil]. Qed.

Lemma appends_bind (m1 m2 : M Metrics unit) :
  appends Balanced m1 -> appends Balanced m2 -> appends Balanced (m1;;; m2).
Proof.
  intros H1 H2 l. destruct (H1 l) as (k1 & E1 & P1). destruct (H2 (l ++ k1)) as (k2 & E2 & P2).
  exists (k1 ++ k2). unfold bind. rewrite E1, E2, app_assoc. split; [done|by apply Balanced_app].
Qed.

Lemma appends_for_each {A} (l : list A) f : (forall a, a ∈ l -> appends Balanced (f a)) -> appends Balanced (for_each l f).
Proof.
  induction l as [|a l IH]; intros Hf; simpl; [apply appends_ret|].
  apply appends_bind; [apply Hf; by left|]. apply IH. intros b Hb. apply Hf. by right.
Qed.

Lemma appends_call c : Balanced [c] -> appends Balanced (modify (fun m => m ++ [c])).
Proof. intros Hc l. by exists [c]. Qed.

Lemma appends_record_finished o : appends Balanced (record_finished o).
Proof.
  unfold record_finished. apply appends_bind; [apply appends_call; balanced|].
  destruct (ro_metrics o) as [rm|]; [|apply appends_ret].
  repeat (apply appends_bind; [first [apply appends_call; balanced
    | unfold observe_reached; case_match; [apply appends_call; balanced|apply appends_ret]]|]).
  unfold observe_reached; case_match; [apply appends_call; balanced|apply appends_ret].
Qed.

(** The calls of a forward pass: one step, of one kind. *)
Lemma appends_forward kind_call d kind n p t :
  kind_call = Inc m_graph_steps None 1 \/ (exists k, kind_call = Inc m_eager_steps (Some k) 1) ->
  appends Balanced (inc m_steps 1;;; modify (fun m => m ++ [kind_call]);;;
    inc_label m_step_seconds kind d;;; inc m_model_busy d;;; observe m_step_duration d;;;
    observe m_iteration_tokens n;;; inc m_prefill_tokens p;;; inc m_decode_tokens t).
Proof.
  intros Hk l. eexists. split.
  - unfold bind, inc, inc_label, observe, modify. rewrite <-!app_assoc. reflexivity.
  - destruct Hk as [->|[k ->]]; balanced.
Qed.

Lemma appends_record_step {Q C} `{SchedulingPolicy Q} (x : Scheduler Q C) o outs d kind :
  appends Balanced (record_step x o outs d kind).
Proof.
  unfold record_step. apply appends_bind.
  - unfold when. destruct (output_truthy o); [|apply appends_ret].
    case_bool_decide; apply appends_forward; eauto.
  - repeat (apply appends_bind; [apply appends_call; balanced|]).
    apply appends_for_each. intros r _. destruct (ro_finished r); [apply appends_record_finished|apply appends_ret].
Qed.

(** One increment of a counter per element. *)
Lemma total_each {A} i j (f : A -> option string) l :
  total i ((fun x => Inc j (f x) 1) <$> l) = if decide (j = i) then Qc_of_Z (Zlen l) else 0%Qc.
Proof.
  unfold Zlen. induction l as [|x l IH]; [case_decide; [symmetry; apply Z2Qc_inj_0|done]|].
  rewrite fmap_cons. change (total i (?c :: ?m)) with (amount_of i c + total i m)%Qc. rewrite IH. simpl length.
  rewrite Nat2Z.inj_succ, <-Z.add_1_l, Z2Qc_inj_add, Z2Qc_inj_1. simpl. case_decide; ring.
Qed.

Lemma observations_each {A} i j (f : A -> option string) l :
  observations i ((fun x => Inc j (f x) 1) <$> l) = 0.
Proof. unfold observations. by induction l. Qed.

Lemma for_each_calls {A} (f : A -> Call) l m :
  for_each l (fun x => modify (fun m => m ++ [f x])) m = (inr tt, m ++ (f <$> l)).
Proof.
  revert m. induction l as [|x l IH]; intros m; simpl; [by rewrite app_nil_r|].
  unfold bind, modify. rewrite IH. by rewrite <-app_assoc.
Qed.

(** A row's drafts: the accepted ones are counted once each, by place. *)
Lemma appends_record_spec_row row tokens : tokens <> [] -> appends Balanced (record_spec_row row tokens).
Proof.
  intros Hne. unfold record_spec_row. destruct (row_num_draft_tokens row =? 0)%Z; [apply appends_ret|].
  assert (Hlen : (1 <= Zlen tokens)%Z) by (destruct tokens; [done|]; unfold Zlen; simpl; lia).
  intros l. eexists. split.
  - unfold bind at 1 2 3, inc, modify at 1 2 3. unfold for_range, inc_label.
    rewrite (for_each_calls (fun p => Inc m_spec_accepted_per_pos (Some (py_str (Z.to_nat p))) 1)).
    rewrite <-!app_assoc. reflexivity.
  - set (n := (Zlen tokens - 1)%Z) in *.
    assert (Hz : Zlen (seqZ 0 (n - 0)) = n) by (unfold Zlen; rewrite length_seqZ; lia).
    constructor; rewrite ?observations_app, ?total_app, ?observations_each, ?total_each; simpl; try ring.
    + rewrite Hz. ring.
    + change (Z.of_nat 0) with 0%Z. rewrite Z2Qc_inj_0. ring.
Qed.

Lemma appends_record_spec_decoding rows toks :
  Forall (fun t => t <> []) toks -> appends Balanced (record_spec_decoding rows toks).
Proof.
  intros Hf. apply appends_for_each. intros [row t] Hin%list_elem_of_In%in_combine_r%list_elem_of_In. simpl.
  rewrite Forall_forall in Hf. by apply appends_record_spec_row, Hf.
Qed.

Lemma appends_record_kv_transfer o : appends Balanced (record_kv_transfer o).
Proof.
  unfold record_kv_transfer. apply appends_bind.
  - apply appends_for_each. intros [r st] _. intros l. eexists. split.
    + unfold bind, inc, observe, modify. rewrite <-!app_assoc. reflexivity.
    + balanced.
  - apply appends_bind; apply appends_call; balanced.
Qed.

Lemma appends_record_aborted o : appends Balanced (record_aborted o).
Proof.
  unfold record_aborted. case_bool_decide; [apply appends_call; balanced|apply appends_record_finished].
Qed.

Lemma appends_run P m l : appends P m -> exists k, wp m l (fun _ l' => l' = l ++ k /\ P k).
Proof. intros Hm. destruct (Hm l) as (k & Hk & HP). exists k. unfold wp. by rewrite Hk. Qed.
