(* ===== verification/SpecDecode.v ===== *)
(** * Speculative decoding

    [spec_decode/config.py] and [spec_decode/rejection_sampler.py]: the rows a
    speculative step returns, and the verification of drafts. The sampler's
    index arithmetic over flattened rows is modelled as written; the logits
    are library values, so their argmax, the accepting coins and the sampled
    replacements are arguments. *)

From S2P Require Import Prelude Scheduler.

(** ** [SpeculativeConfig] *)

Record SpeculativeConfig := { sc_method : string; sc_num_speculative_tokens : Z }.

(** What pydantic checks of the fields. *)
Definition SpeculativeConfig_ok (c : SpeculativeConfig) : bool :=
  bool_decide (sc_method c ∈ ["mtp"; "deepseek_mtp"]) && (1 <=? sc_num_speculative_tokens c)%Z.

Definition default_SpeculativeConfig : SpeculativeConfig :=
  {| sc_method := "mtp"; sc_num_speculative_tokens := 1 |}.

(** ** [split_sampled] *)

Definition split_sampled (rows : list (list Z)) (num_speculative_tokens : Z) : list (list Z) * list (list Z) :=
  let width := (num_speculative_tokens + 1)%Z in
  ((fun row => filter (fun t => 0 <= t)%Z (py_upto row width)) <$> rows,
   (fun row => py_from row width) <$> rows).

(** A row as the runner sends it. *)
Definition spec_row (k : Z) (tokens drafts : list Z) : list Z :=
  tokens ++ replicate (Z.to_nat (k + 1) - length tokens) PLACEHOLDER_TOKEN_ID ++ drafts.

Lemma filter_Forall {A} (P : A -> Prop) `{forall x, Decision (P x)} l : Forall P l -> filter P l = l.
Proof. induction 1; [done|]. rewrite filter_cons_True by done. by f_equal. Qed.

Lemma filter_Forall_not {A} (P : A -> Prop) `{forall x, Decision (P x)} l :
  Forall (fun x => ~ P x) l -> filter P l = [].
Proof. induction 1; [done|]. by rewrite filter_cons_False. Qed.

Lemma spec_row_pos k toks dr :
  (0 <= k)%Z -> (Zlen toks <= k + 1)%Z ->
  py_pos (spec_row k toks dr) (k + 1) =
  length (toks ++ replicate (Z.to_nat (k + 1) - length toks) PLACEHOLDER_TOKEN_ID).
Proof.
  intros Hk Hl. unfold py_pos, spec_row, Zlen in *. destruct (Z.ltb_spec (k + 1) 0); [lia|].
  rewrite !length_app, !length_replicate. lia.
Qed.

(** The split recovers what each row was made of. *)
Lemma split_sampled_rows k (rows : list (list Z * list Z)) :
  (0 <= k)%Z ->
  Forall (fun r => (Zlen r.1 <= k + 1)%Z /\ Forall (fun t => 0 <= t)%Z r.1) rows ->
  split_sampled ((fun r => spec_row k r.1 r.2) <$> rows) k = (rows.*1, rows.*2).
Proof.
  intros Hk Hrows. unfold split_sampled. rewrite <-!list_fmap_compose. f_equal; apply Forall_fmap_ext_1;
    (eapply Forall_impl; [exact Hrows|]); intros [toks dr] [Hl Hnn]; simpl in Hl, Hnn; unfold compose; simpl.
  - unfold py_upto. rewrite spec_row_pos by done. unfold spec_row.
    rewrite (app_assoc toks), take_app_length, filter_app, (filter_Forall _ toks) by done.
    rewrite filter_Forall_not; [by rewrite app_nil_r|].
    apply Forall_replicate. unfold PLACEHOLDER_TOKEN_ID. lia.
  - unfold py_from. rewrite spec_row_pos by done. unfold spec_row. by rewrite (app_assoc toks), drop_app_length.
Qed.

(** ** [RejectionSampler] *)

(** Tensor operations on rows. *)
Fixpoint cumsum_from (acc : nat) (l : list nat) : list nat :=
  match l with [] => [] | n :: l' => acc + n :: cumsum_from (acc + n) l' end.
Definition cumsum : list nat -> list nat := cumsum_from 0.

Definition repeat_interleave {A} (l : list A) (counts : list nat) : list A :=
  concat (zip_with (fun x n => replicate n x) l counts).

(** [t[idx]]. *)
Definition gather {A} (d : A) (t : list A) (idx : list nat) : list A := (fun i => default d (t !! i)) <$> idx.

(** [t[rows, cols] = vals], on a matrix given by its entries. *)
Definition scatter {A} (t : nat -> nat -> A) (rows cols : list nat) (vals : list A) : nat -> nat -> A :=
  fun r c => match list_find (fun p => p.1 = (r, c)) (zip (zip rows cols) vals) with
             | Some (_, (_, v)) => v
             | None => t r c
             end.

Fixpoint cumprod_from (acc : Z) (l : list Z) : list Z :=
  match l with [] => [] | x :: l' => (acc * x)%Z :: cumprod_from (acc * x) l' end.

(** What the draws decided, for the rows that sample: the drafts whose coin
    fell under their probability, and the token each logits row sampled. *)
Record Draws := { coins : list bool; draw : list Z }.

Section Forward.
Context (greedy : list Z) (draft_token_ids : list Z) (num_draft_tokens : list nat)
  (temperatures : option (list Qc)) (draws : Draws) (max_num_drafts : nat).

Definition num_rows : nat := length num_draft_tokens.
Definition num_logits : list nat := S <$> num_draft_tokens.
Definition first_rows : list nat := zip_with Nat.sub (cumsum num_logits) num_logits.
Definition draft_rows : list nat := repeat_interleave (seq 0 num_rows) num_draft_tokens.
Definition draft_cols : list nat :=
  zip_with Nat.sub (seq 0 (length draft_token_ids))
    (gather 0 (zip_with Nat.sub (cumsum num_draft_tokens) num_draft_tokens) draft_rows).
Definition draft_index : list nat := zip_with Nat.add (gather 0 first_rows draft_rows) draft_cols.

(** [greedy[draft_index] == draft_token_ids]. *)
Definition greedy_hits : list bool :=
  zip_with (fun g d => bool_decide (g = d)) (gather 0%Z greedy draft_index) draft_token_ids.

Definition accepted : list bool :=
  match temperatures with
  | None => greedy_hits
  | Some ts =>
      zip_with (fun t (hc : bool * bool) => if bool_decide (t = 0%Qc) then hc.1 else hc.2)
        (gather 1%Qc ts draft_rows) (zip greedy_hits (coins draws))
  end.

Definition candidates : list Z :=
  match temperatures with
  | None => greedy
  | Some ts =>
      zip_with (fun t (gs : Z * Z) => if bool_decide (t = 0%Qc) then gs.1 else gs.2)
        (repeat_interleave ts num_logits) (zip greedy (draw draws))
  end.

Definition keep : nat -> nat -> Z :=
  scatter (fun _ _ => 0%Z) draft_rows draft_cols ((fun b : bool => if b then 1 else 0)%Z <$> accepted).

(** [keep.cumprod(dim=1).sum(dim=1)]. *)
Definition num_accepted (r : nat) : nat :=
  Z.to_nat (Zsum (cumprod_from 1 (keep r <$> seq 0 (S max_num_drafts)))).

Definition forward_entry (r c : nat) : Z :=
  let k := num_accepted r in
  if decide (c = k) then default 0%Z (candidates !! (default 0 (first_rows !! r) + k))
  else if decide (k <= c) then PLACEHOLDER_TOKEN_ID
  else scatter (fun _ _ => PLACEHOLDER_TOKEN_ID) draft_rows draft_cols draft_token_ids r c.

Definition rejection_sample : list (list Z) :=
  (fun r => forward_entry r <$> seq 0 (S max_num_drafts)) <$> seq 0 num_rows.

End Forward.

(** ** The reference, row by row *)

(** The number of leading [true]s. *)
Fixpoint leading (bs : list bool) : nat :=
  match bs with true :: bs' => S (leading bs') | _ => 0 end.

(** A row keeps its drafts up to the first that is not accepted, and adds the
    token its next position gives. *)
Definition verified_row (bs : list bool) (drafts cands : list Z) (width : nat) : list Z :=
  let k := leading bs in
  take k drafts ++ [default 0%Z (cands !! k)] ++ replicate (width - k) PLACEHOLDER_TOKEN_ID.

Definition slice {A} (l : list A) (start n : nat) : list A := take n (list.drop start l).

(** Where row [r] starts, in rows of these lengths laid end to end. *)
Definition offset (ns : list nat) (r : nat) : nat := sum_list (take r ns).

Lemma slice_lookup {A} (l : list A) start n c : c < n -> slice l start n !! c = l !! (start + c).
Proof. intros Hc. unfold slice. by rewrite lookup_take_lt, lookup_drop by done. Qed.

Lemma slice_length {A} (l : list A) start n : start + n <= length l -> length (slice l start n) = n.
Proof. intros Hl. unfold slice. rewrite length_take, length_drop. lia. Qed.

Lemma offset_S ns r n : ns !! r = Some n -> offset ns (S r) = offset ns r + n.
Proof. intros Hr. unfold offset. rewrite (take_S_r _ _ _ Hr), sum_list_with_app. simpl. lia. Qed.

Lemma offset_le ns r : offset ns r <= sum_list ns.
Proof. unfold offset. rewrite <-(take_drop r ns) at 2. rewrite sum_list_with_app. lia. Qed.

Lemma offset_bound ns r n : ns !! r = Some n -> offset ns r + n <= sum_list ns.
Proof. intros Hr. rewrite <-(offset_S _ _ _ Hr). apply offset_le. Qed.

Lemma offset_cons n ns r : offset (n :: ns) (S r) = n + offset ns r.
Proof. done. Qed.

(** Every position is in one row, at one column. *)
Lemma offset_inv ns j : j < sum_list ns -> exists r n c, ns !! r = Some n /\ c < n /\ j = offset ns r + c.
Proof.
  revert j. induction ns as [|n ns IH]; intros j Hj; simpl in Hj; [lia|].
  destruct (decide (j < n)).
  - exists 0, n, j. done.
  - destruct (IH (j - n)) as (r & m & c & Hr & Hc & He); [lia|].
    exists (S r), m, c. rewrite offset_cons. split_and!; [done|done|lia].
Qed.

Lemma offset_inj ns r n c r' n' c' :
  ns !! r = Some n -> ns !! r' = Some n' -> c < n -> c' < n' ->
  offset ns r + c = offset ns r' + c' -> r = r' /\ c = c'.
Proof.
  revert r r'. induction ns as [|m ns IH]; intros r r' Hr Hr' Hc Hc' He; [done|].
  destruct r as [|r], r' as [|r']; simpl in Hr, Hr'; rewrite ?offset_cons in He; change (offset (m :: ns) 0) with 0 in He.
  - lia.
  - simplify_eq. lia.
  - simplify_eq. lia.
  - destruct (IH r r' Hr Hr' Hc Hc') as [-> ->]; [lia|done].
Qed.

Lemma exclusive_cumsum acc ns r :
  r < length ns -> zip_with Nat.sub (cumsum_from acc ns) ns !! r = Some (acc + offset ns r).
Proof.
  revert acc r. induction ns as [|n ns IH]; intros acc [|r] Hr; simpl in *; try lia.
  - f_equal. unfold offset; simpl. lia.
  - rewrite IH by lia. rewrite offset_cons. f_equal. lia.
Qed.

Lemma repeat_interleave_lookup {A} (l : list A) ns r n c :
  length l = length ns -> ns !! r = Some n -> c < n ->
  repeat_interleave l ns !! (offset ns r + c) = l !! r.
Proof.
  unfold repeat_interleave. revert l r. induction ns as [|m ns IH]; intros [|x l] [|r] Hl Hr Hc; simpl in *; try done.
  - simplify_eq. unfold offset; simpl. rewrite lookup_app_l by by rewrite length_replicate.
    by rewrite lookup_replicate_2.
  - rewrite offset_cons, lookup_app_r by (rewrite length_replicate; lia). rewrite length_replicate.
    replace (m + offset ns r + c - m) with (offset ns r + c) by lia. apply IH; [lia|done|done].
Qed.

Lemma repeat_interleave_length {A} (l : list A) ns :
  length l = length ns -> length (repeat_interleave l ns) = sum_list ns.
Proof.
  unfold repeat_interleave. revert l. induction ns as [|m ns IH]; intros [|x l] Hl; simpl in *; try done.
  rewrite length_app, length_replicate, IH by lia. done.
Qed.

Lemma offset_logits ns r : r <= length ns -> offset (S <$> ns) r = offset ns r + r.
Proof.
  revert r. induction ns as [|n ns IH]; intros [|r] Hr; try done; simpl in Hr; [lia|].
  rewrite fmap_cons, !offset_cons, IH by lia. lia.
Qed.

Lemma cumprod_zero l : Zsum (cumprod_from 0 l) = 0%Z.
Proof. induction l as [|x l IH]; [done|]. simpl. rewrite Z.mul_0_l. exact IH. Qed.

Lemma cumprod_leading bs m :
  Zsum (cumprod_from 1 (((fun b : bool => if b then 1 else 0)%Z <$> bs) ++ replicate (S m) 0%Z)) = Z.of_nat (leading bs).
Proof.
  induction bs as [|b bs IH].
  - simpl. apply cumprod_zero.
  - rewrite fmap_cons. cbn [app cumprod_from leading]. destruct b.
    + replace (1 * 1)%Z with 1%Z by done. unfold Zsum in *. simpl in *. rewrite IH. lia.
    + replace (1 * 0)%Z with 0%Z by done. pose proof (cumprod_zero
        (((fun b : bool => if b then 1 else 0)%Z <$> bs) ++ replicate (S m) 0%Z)) as Hz.
      unfold Zsum in *. simpl in *. rewrite Hz. lia.
Qed.

Lemma leading_le bs : leading bs <= length bs.
Proof. induction bs as [|[] bs IH]; simpl; lia. Qed.

(** An entry of a scatter by rows and columns. *)
Section Scatter.
Context {A : Type} (ns : list nat) (t : nat -> nat -> A) (cols : list nat) (vals : list A).
Hypothesis Hcols : forall r n c, ns !! r = Some n -> c < n -> cols !! (offset ns r + c) = Some c.
Hypothesis Hlen : length cols = sum_list ns.
Hypothesis Hvals : length vals = sum_list ns.

Let rows := repeat_interleave (seq 0 (length ns)) ns.

Lemma rows_lookup r n c : ns !! r = Some n -> c < n -> rows !! (offset ns r + c) = Some r.
Proof.
  intros Hr Hc. unfold rows. rewrite (repeat_interleave_lookup _ _ r n) by by rewrite ?length_seq.
  rewrite lookup_seq_lt; [done|]. by eapply lookup_lt_Some.
Qed.

Lemma scatter_lookup r n c :
  ns !! r = Some n ->
  scatter t rows cols vals r c = if decide (c < n) then default (t r c) (vals !! (offset ns r + c)) else t r c.
Proof.
  intros Hr. unfold scatter. set (z := zip (zip rows cols) vals).
  assert (Hz : forall j p v, z !! j = Some (p, v) -> exists r' n' c', ns !! r' = Some n' /\ c' < n' /\
    j = offset ns r' + c' /\ p = (r', c') /\ vals !! j = Some v).
  { intros j p v Hj. apply lookup_zip_with_Some in Hj as (p' & v' & [= -> ->] & Hp & Hv).
    apply lookup_zip_with_Some in Hp as (a & b & -> & Ha & Hb).
    destruct (offset_inv ns j) as (r' & n' & c' & Hr' & Hc' & ->).
    { rewrite <-Hvals. by eapply lookup_lt_Some. }
    rewrite (rows_lookup r' n' c') in Ha by done. rewrite (Hcols r' n' c') in Hb by done.
    injection Ha as <-. injection Hb as <-. by exists r', n', c'. }
  destruct (list_find _ z) as [[j [p v]]|] eqn:Hf.
  - apply list_find_Some in Hf as (Hj & Hp & _). simpl in Hp.
    destruct (Hz j p v Hj) as (r' & n' & c' & Hr' & Hc' & -> & -> & Hv). simplify_eq.
    rewrite decide_True by done. by rewrite Hv.
  - apply list_find_None in Hf. case_decide as Hc; [|done]. exfalso.
    assert (Hb : offset ns r + c < sum_list ns) by (pose proof (offset_bound ns r n Hr); lia).
    destruct (lookup_lt_is_Some_2 vals (offset ns r + c)) as [v Hv]; [lia|].
    rewrite Forall_lookup in Hf. apply (Hf (offset ns r + c) ((r, c), v)); [|done].
    unfold z. rewrite lookup_zip_with, lookup_zip_with, (rows_lookup r n c), (Hcols r n c), Hv by done. done.
Qed.

End Scatter.

(** ** The sampler computes the reference *)

Section Equivalence.
Context (greedy : list Z) (drafts : list Z) (ns : list nat) (temps : option (list Qc)) (draws : Draws) (width : nat).
Hypothesis Hdrafts : length drafts = sum_list ns.
Hypothesis Hwidth : forall r n, ns !! r = Some n -> n <= width.
Hypothesis Hgreedy : length greedy = sum_list (S <$> ns).
Hypothesis Htemps : forall ts, temps = Some ts ->
  length ts = length ns /\ length (coins draws) = sum_list ns /\ length (draw draws) = sum_list (S <$> ns).

Lemma draft_rows_lookup r n c : ns !! r = Some n -> c < n -> draft_rows ns !! (offset ns r + c) = Some r.
Proof. apply rows_lookup. Qed.

Lemma draft_rows_length : length (draft_rows ns) = sum_list ns.
Proof. unfold draft_rows, num_rows. by rewrite repeat_interleave_length by by rewrite length_seq. Qed.

Lemma gather_lookup {A} (d : A) t idx j i : idx !! j = Some i -> gather d t idx !! j = Some (default d (t !! i)).
Proof. intros Hi. unfold gather. by rewrite list_lookup_fmap, Hi. Qed.

Lemma draft_cols_lookup r n c : ns !! r = Some n -> c < n -> draft_cols drafts ns !! (offset ns r + c) = Some c.
Proof.
  intros Hr Hc. pose proof (offset_bound ns r n Hr). unfold draft_cols, cumsum.
  rewrite lookup_zip_with, (lookup_seq_lt 0) by lia. simpl.
  rewrite (gather_lookup _ _ _ _ r) by by eapply draft_rows_lookup.
  rewrite exclusive_cumsum by by eapply lookup_lt_Some. simpl. f_equal. lia.
Qed.

Lemma draft_cols_length : length (draft_cols drafts ns) = sum_list ns.
Proof.
  unfold draft_cols, gather. rewrite length_zip_with, length_seq, length_fmap, draft_rows_length. lia.
Qed.

Lemma first_rows_lookup r : r < length ns -> first_rows ns !! r = Some (offset ns r + r).
Proof.
  intros Hr. unfold first_rows, num_logits, cumsum. rewrite exclusive_cumsum by by rewrite length_fmap.
  by rewrite offset_logits by lia.
Qed.

Lemma draft_index_lookup r n c :
  ns !! r = Some n -> c < n -> draft_index drafts ns !! (offset ns r + c) = Some (offset ns r + r + c).
Proof.
  intros Hr Hc. unfold draft_index.
  rewrite lookup_zip_with, (gather_lookup _ _ _ _ r) by by eapply draft_rows_lookup. simpl.
  rewrite (draft_cols_lookup r n c) by done. simpl. rewrite first_rows_lookup by by eapply lookup_lt_Some. done.
Qed.

Lemma greedy_hits_lookup r n c :
  ns !! r = Some n -> c < n -> exists g d, greedy !! (offset ns r + r + c) = Some g /\
    drafts !! (offset ns r + c) = Some d /\ greedy_hits greedy drafts ns !! (offset ns r + c) = Some (bool_decide (g = d)).
Proof.
  intros Hr Hc. pose proof (offset_bound ns r n Hr) as Hb.
  destruct (lookup_lt_is_Some_2 drafts (offset ns r + c)) as [d Hd]; [lia|].
  destruct (lookup_lt_is_Some_2 greedy (offset ns r + r + c)) as [g Hg].
  { rewrite Hgreedy. pose proof (offset_bound (S <$> ns) r (S n)) as Hb2.
    rewrite offset_logits in Hb2 by (apply lookup_lt_Some in Hr; lia).
    rewrite list_lookup_fmap, Hr in Hb2. specialize (Hb2 eq_refl). lia. }
  exists g, d. split; [done|]. split; [done|]. unfold greedy_hits.
  rewrite lookup_zip_with, (gather_lookup _ _ _ _ (offset ns r + r + c)) by by eapply draft_index_lookup.
  simpl. by rewrite Hg, Hd.
Qed.

Lemma greedy_hits_length : length (greedy_hits greedy drafts ns) = sum_list ns.
Proof.
  unfold greedy_hits, draft_index, gather.
  rewrite length_zip_with, length_fmap, length_zip_with, length_fmap, draft_rows_length, draft_cols_length. lia.
Qed.

Let acc := accepted greedy drafts ns temps draws.
Let cands := candidates greedy ns temps draws.

Lemma accepted_length : length acc = sum_list ns.
Proof.
  unfold acc, accepted. destruct temps as [ts|] eqn:Ht; [|apply greedy_hits_length].
  destruct (Htemps ts eq_refl) as (_ & Hc & _).
  rewrite length_zip_with, length_zip_with, greedy_hits_length. unfold gather.
  rewrite length_fmap, draft_rows_length. lia.
Qed.

(** The bits a row keeps its drafts by. *)
Definition row_bits (r n : nat) : list bool := slice acc (offset ns r) n.

Lemma keep_row r n :
  ns !! r = Some n ->
  keep greedy drafts ns temps draws r <$> seq 0 (S width) =
  ((fun b : bool => if b then 1 else 0)%Z <$> row_bits r n) ++ replicate (S (width - n)) 0%Z.
Proof.
  intros Hr. pose proof (Hwidth r n Hr) as Hw. pose proof (offset_bound ns r n Hr) as Hb.
  pose proof accepted_length as Hal.
  assert (Hbl : length (row_bits r n) = n) by (apply slice_length; lia).
  assert (Hk : forall c, keep greedy drafts ns temps draws r c =
    if decide (c < n) then default 0%Z (((fun b : bool => if b then 1 else 0)%Z <$> acc) !! (offset ns r + c)) else 0%Z).
  { intros c. apply (scatter_lookup ns); [apply draft_cols_lookup|apply draft_cols_length| |done].
    rewrite length_fmap. exact Hal. }
  apply list_eq_same_length with (S width); [|by rewrite length_fmap, length_seq|].
  { rewrite length_app, length_fmap, length_replicate, Hbl. lia. }
  intros c x y Hc Hx Hy. apply list_lookup_fmap_Some in Hx as (c' & -> & Hc').
  apply lookup_seq in Hc' as [-> _]. simpl. rewrite Hk. case_decide as Hcn.
  - rewrite lookup_app_l in Hy by (rewrite length_fmap; lia).
    rewrite list_lookup_fmap in Hy |- *. unfold row_bits in Hy. rewrite slice_lookup in Hy by done.
    by rewrite Hy.
  - rewrite lookup_app_r in Hy by (rewrite length_fmap; lia). by apply lookup_replicate in Hy as [-> _].
Qed.

Lemma num_accepted_row r n :
  ns !! r = Some n -> num_accepted greedy drafts ns temps draws width r = leading (row_bits r n).
Proof.
  intros Hr. unfold num_accepted. rewrite (keep_row r n Hr), cumprod_leading. by rewrite Nat2Z.id.
Qed.

Lemma forward_row r n :
  ns !! r = Some n ->
  forward_entry greedy drafts ns temps draws width r <$> seq 0 (S width) =
  verified_row (row_bits r n) (slice drafts (offset ns r) n)
    (slice cands (offset ns r + r) (S n)) width.
Proof.
  intros Hr. pose proof (Hwidth r n Hr) as Hw. pose proof (offset_bound ns r n Hr) as Hb.
  pose proof accepted_length as Hal. pose proof (leading_le (row_bits r n)) as Hle.
  assert (Hbl : length (row_bits r n) = n) by (apply slice_length; lia).
  assert (Hdl : length (slice drafts (offset ns r) n) = n) by (apply slice_length; lia).
  unfold verified_row. set (k := leading (row_bits r n)) in *.
  apply list_eq_same_length with (S width); [|by rewrite length_fmap, length_seq|].
  { rewrite !length_app, length_take, length_replicate. simpl. lia. }
  intros c x y Hc Hx Hy. apply list_lookup_fmap_Some in Hx as (c' & -> & Hc').
  apply lookup_seq in Hc' as [-> _]. simpl. unfold forward_entry.
  rewrite (num_accepted_row r n Hr), first_rows_lookup by by eapply lookup_lt_Some. fold k. simpl.
  rewrite lookup_app in Hy. destruct (decide (c < k)) as [Hck|Hck].
  - rewrite decide_False, decide_False by lia. rewrite lookup_take_lt in Hy by done.
    destruct (slice drafts (offset ns r) n !! c) as [d|] eqn:Hd; [|apply lookup_ge_None in Hd; lia]. simplify_eq.
    rewrite (scatter_lookup ns _ _ _ draft_cols_lookup draft_cols_length Hdrafts r n c Hr), decide_True by lia.
    rewrite slice_lookup in Hd by lia. by rewrite Hd.
  - rewrite lookup_take_ge in Hy by lia. rewrite length_take, Hdl, Nat.min_l in Hy by lia.
    destruct (decide (c = k)) as [->|Hne].
    + rewrite Nat.sub_diag in Hy. simpl in Hy. rewrite slice_lookup in Hy by lia. by injection Hy as <-.
    + rewrite decide_True by lia. destruct (c - k) as [|j] eqn:Hj; [lia|]. simpl in Hy.
      by apply lookup_replicate in Hy as [-> _].
Qed.

(** The flattened computation is the per-row reference. *)
Lemma rejection_sample_rows :
  rejection_sample greedy drafts ns temps draws width =
  imap (fun r n => verified_row (row_bits r n) (slice drafts (offset ns r) n)
    (slice cands (offset ns r + r) (S n)) width) ns.
Proof.
  unfold rejection_sample, num_rows. apply list_eq. intros r. rewrite list_lookup_imap, list_lookup_fmap.
  destruct (ns !! r) as [n|] eqn:Hr; simpl.
  - rewrite lookup_seq_lt by by eapply lookup_lt_Some. simpl. f_equal. by apply forward_row.
  - rewrite lookup_seq_ge; [done|]. by apply lookup_ge_None.
Qed.

End Equivalence.

(** ** Greedy verification decodes greedily *)

(** With the drafts that hit the target's own choices, a row is those
    choices: as many as the drafts it keeps, and one more. *)
Lemma verified_row_greedy (g d : list Z) width :
  length g = S (length d) ->
  let bs := zip_with (fun x y : Z => bool_decide (x = y)) g d in
  verified_row bs d g width =
  take (S (leading bs)) g ++ replicate (width - leading bs) PLACEHOLDER_TOKEN_ID.
Proof.
  intros Hl bs. unfold verified_row.
  assert (Hk : take (leading bs) d = take (leading bs) g /\ leading bs < length g).
  { unfold bs. clear bs width. revert d Hl. induction g as [|x g IH]; intros [|y d] Hl; simpl in *; try lia.
    - split; [done|lia].
    - case_bool_decide as He; simpl; [|split; [done|lia]]. subst y.
      destruct (IH d) as [-> ?]; [lia|]. split; [done|lia]. }
  destruct Hk as [-> Hk]. destruct (lookup_lt_is_Some_2 g (leading bs) Hk) as [x Hx].
  rewrite Hx, (take_S_r _ _ _ Hx). simpl. by rewrite <-app_assoc.
Qed.

Section Greedy.
Context (greedy : list Z) (drafts : list Z) (ns : list nat) (draws : Draws) (width : nat).
Hypothesis Hdrafts : length drafts = sum_list ns.
Hypothesis Hwidth : forall r n, ns !! r = Some n -> n <= width.
Hypothesis Hgreedy : length greedy = sum_list (S <$> ns).

(** The target's choices at row [r]'s positions, and the row's drafts. *)
Definition row_choices (r n : nat) : list Z := slice greedy (offset ns r + r) (S n).
Definition row_drafts (r n : nat) : list Z := slice drafts (offset ns r) n.

(** How many drafts row [r] keeps. *)
Definition row_hits (r n : nat) : nat :=
  leading (zip_with (fun x y : Z => bool_decide (x = y)) (row_choices r n) (row_drafts r n)).

Lemma row_bits_greedy r n :
  ns !! r = Some n ->
  row_bits greedy drafts ns None draws r n =
  zip_with (fun x y : Z => bool_decide (x = y)) (row_choices r n) (row_drafts r n).
Proof.
  intros Hr. pose proof (offset_bound ns r n Hr) as Hb.
  assert (Hb2 : offset ns r + r + S n <= length greedy).
  { rewrite Hgreedy. rewrite <-(offset_logits ns r) by (apply lookup_lt_Some in Hr; lia).
    apply offset_bound. by rewrite list_lookup_fmap, Hr. }
  assert (Hlh : length (greedy_hits greedy drafts ns) = sum_list ns) by by apply greedy_hits_length.
  apply list_eq_same_length with n.
  - rewrite length_zip_with. unfold row_choices, row_drafts. rewrite !slice_length by lia. lia.
  - apply slice_length. simpl. lia.
  - intros c x y Hc Hx Hy. unfold row_bits in Hx. rewrite slice_lookup in Hx by done. simpl in Hx.
    destruct (greedy_hits_lookup greedy drafts ns Hdrafts Hgreedy r n c Hr Hc) as (g & d & Hg & Hd & Hh).
    rewrite Hh in Hx. injection Hx as <-.
    apply lookup_zip_with_Some in Hy as (g' & d' & -> & Hg' & Hd').
    unfold row_choices, row_drafts in *. rewrite slice_lookup in Hg', Hd' by lia.
    rewrite Hg in Hg'. rewrite Hd in Hd'. by injection Hg' as <-; injection Hd' as <-.
Qed.

Lemma rejection_sample_greedy :
  rejection_sample greedy drafts ns None draws width =
  imap (fun r n => take (S (row_hits r n)) (row_choices r n) ++
    replicate (width - row_hits r n) PLACEHOLDER_TOKEN_ID) ns.
Proof.
  rewrite rejection_sample_rows by done. apply list_eq. intros r. rewrite !list_lookup_imap.
  destruct (ns !! r) as [n|] eqn:Hr; [|done].
  simpl. rewrite row_bits_greedy by done. unfold row_hits, row_choices, row_drafts. simpl. rewrite verified_row_greedy; [done|].
  pose proof (offset_bound ns r n Hr) as Hb. rewrite !slice_length; [done|lia|].
  rewrite Hgreedy. rewrite <-(offset_logits ns r) by (apply lookup_lt_Some in Hr; lia).
  apply offset_bound. by rewrite list_lookup_fmap, Hr.
Qed.

End Greedy.
