(* ===== verification/Engine.v ===== *)
(** * The engine

    [engine/llm_engine.py]: admission checks, the step that launches a batch
    and reconciles the one before, the outputs of a step, and offline
    generation. The model runner and the tokenizer are interfaces: what runs on
    the device is library code. *)

From S2P Require Import Prelude Output Sequence BlockManager Policy KVBase Scheduler OutputProcessor Metrics.
From S2P Require Import SpecDecode.

(** ** [validate_request] *)

Definition validate_request
    (model_validate : gmap string pyval -> option (string * string))
    (prompt : list Z) (sp : SamplingParams) (vocab_size max_model_len : Z)
    (kv : option KVTransferConfig) : exn + unit :=
  if bool_decide (prompt = []) then inl (InvalidRequest "the prompt is empty") else
  match List.find (fun t => negb ((0 <=? t) && (t <? vocab_size))%Z) prompt with
  | Some bad => inl (InvalidRequest ("token id " +:+ pretty bad +:+ " is outside the " +:+
                                     pretty vocab_size +:+ "-token vocabulary"))
  | None =>
      if (max_model_len <=? Zlen prompt)%Z
      then inl (InvalidRequest ("prompt is " +:+ pretty (Zlen prompt) +:+
        " tokens, leaving no room in the " +:+ pretty max_model_len +:+ "-token context"))
      else if (max_model_len <? Zlen prompt + sp_max_tokens sp)%Z
      then inl (InvalidRequest ("prompt (" +:+ pretty (Zlen prompt) +:+ ") plus max_tokens (" +:+
        pretty (sp_max_tokens sp) +:+ ") is over the " +:+ pretty max_model_len +:+ "-token context"))
      else
        match sp_kv_transfer_params sp with
        | None => inr tt
        | Some d =>
            match check_kv_transfer_params model_validate (PDict (map_to_list d)) d kv with
            | Some problem => inl (InvalidRequest problem)
            | None => inr tt
            end
        end
  end.

(** ** The model runner, as the engine calls it *)

Class ModelRunner (R : Type) := {
  mr_run : list Sequence -> M R (list (Z + list Z));
  mr_kv_connector_step : KVConnectorMetadata -> M R KVConnectorOutput;
  mr_step_kind : R -> string
}.

(** ** State *)

Record InFlight := {
  if_output : SchedulerOutput;
  if_rows : list LaunchedRow;
  if_pending : list (Z + list Z)
}.

Record EngineConfig := {
  vocab_size : Z;
  max_model_len : Z;
  kv_transfer : option KVTransferConfig;
  async_scheduling : bool;
  speculative : option Z
}.

Section Engine.
Context `{SeqSettings} `{SetOrder} `{Tokenizer}.
Context {Q C R : Type} `{SchedulingPolicy Q} `{KVConnectorScheduler C} `{ModelRunner R}.
Variable clock : nat -> Qc.
Variable encode : string -> list Z.
Variable model_validate : gmap string pyval -> option (string * string).

Record LLMEngine := {
  e_config : EngineConfig;
  e_scheduler : Scheduler Q C;
  e_runner : R;
  e_metrics : Metrics;
  e_output_processor : option OutputProcessor;
  e_in_flight : option InFlight;
  e_counter : nat
}.

#[export] Instance eta_LLMEngine : Eta LLMEngine := fun e =>
  Build_LLMEngine (e_config e) (e_scheduler e) (e_runner e) (e_metrics e) (e_output_processor e)
    (e_in_flight e) (e_counter e).

Definition on_sched {A} (m : M (Scheduler Q C) A) : M LLMEngine A :=
  zoom e_scheduler (fun x e => e <| e_scheduler := x |>) m.
Definition on_runner {A} (m : M R A) : M LLMEngine A :=
  zoom e_runner (fun x e => e <| e_runner := x |>) m.
Definition on_metrics (m : M Metrics unit) : M LLMEngine unit :=
  zoom e_metrics (fun x e => e <| e_metrics := x |>) m.

(** Run a method of the output processor, when there is one. *)
Definition on_processor {A} (a : A) (m : M OutputProcessor A) : M LLMEngine A :=
  let! op := gets e_output_processor in
  match op with
  | None => ret a
  | Some p => zoom (fun _ => p) (fun p e => e <| e_output_processor := Some p |>) m
  end.

(** The value of a method that fails by returning. *)
Definition or_fail {S A} (r : exn + A) : M S A :=
  match r with inl e => raise e | inr a => ret a end.

(** ** Requests *)

Definition engine_add_request (prompt : string + list Z) (sp : SamplingParams) (rid : option string) : M LLMEngine string :=
  let ids := match prompt with inl text => encode text | inr ids => ids end in
  let! c := gets e_config in
  or_fail (validate_request model_validate ids sp (vocab_size c) (max_model_len c) (kv_transfer c));;;
  let! n := gets e_counter in
  modify (fun e => e <| e_counter := S n |>);;;
  let! now := on_sched (perf_counter clock) in
  let! s := or_fail (new_Sequence n now ids (Some sp) rid) in
  on_sched (add s);;;
  on_metrics record_received;;;
  on_processor tt (modify (op_add_request (request_id s) ids (skip_special_tokens s) None));;;
  ret (request_id s).

(** [_dropped] and [_output]. *)
Definition dropped_output (s : Sequence) : RequestOutput :=
  {| ro_request_id := request_id s; ro_token_ids := []; ro_text := ""; ro_finished := true;
     ro_finish_reason := finish_reason s; ro_metrics := Some (seq_metrics s); ro_kv_transfer_params := None |}.

Definition output_of (s : Sequence) : RequestOutput :=
  {| ro_request_id := request_id s; ro_token_ids := py_from (token_ids s) (- num_new_tokens s);
     ro_text := ""; ro_finished := is_finished s; ro_finish_reason := finish_reason s;
     ro_metrics := if is_finished s then Some (seq_metrics s) else None;
     ro_kv_transfer_params := kv_transfer_result s |}.

Definition engine_abort_request (rid reason : string) : M LLMEngine bool :=
  let! x := gets e_scheduler in
  let target := seqs x !! rid in
  let! aborted := on_sched (abort clock rid reason) in
  on_processor tt (modify (op_abort_request rid));;;
  if aborted : bool then
    let! i := or_raise target (AssertionError "") in
    let! s := on_sched (get_seq i) in
    on_metrics (record_aborted (dropped_output s));;;
    ret true
  else ret false.

(** ** The step *)

(** [_launch]. *)
Definition launch : M LLMEngine SchedulerOutput :=
  let! o := on_sched (schedule clock) in
  match kv_connector_metadata o with
  | None => ret tt
  | Some meta =>
      let! report := on_runner (mr_kv_connector_step meta) in
      on_sched (update_from_kv_connector_output report);;;
      on_metrics (record_kv_transfer report)
  end;;;
  when (output_truthy o)
    (let! ss := on_sched (collect (scheduled o) get_seq) in
     let! pending := on_runner (mr_run ss) in
     let! rows := on_sched (advance (scheduled o)) in
     modify (fun e => e <| e_in_flight := Some {| if_output := o; if_rows := rows; if_pending := pending |} |>));;;
  ret o.

(** A row of a speculative step, a list. *)
Definition row_list (r : Z + list Z) : option (list Z) := match r with inl _ => None | inr l => Some l end.

(** [_reconcile]. *)
Definition engine_reconcile (draining : option InFlight) : M LLMEngine (list nat) :=
  match draining with
  | None => ret []
  | Some f =>
      let! c := gets e_config in
      match speculative c with
      | None => on_sched (reconcile clock (if_rows f) (if_pending f) None)
      | Some k =>
          let! rows := or_raise (mapM row_list (if_pending f)) TypeError in
          let (toks, drafts) := split_sampled rows k in
          on_metrics (record_spec_decoding (if_rows f) toks);;;
          on_sched (reconcile clock (if_rows f) (inr <$> toks) (Some drafts))
      end
  end.

Definition step : M LLMEngine (list RequestOutput * Z * Z) :=
  let! started := on_sched (perf_counter clock) in
  let! draining := gets e_in_flight in
  modify (fun e => e <| e_in_flight := None |>);;;
  let! c := gets e_config in
  let! (o, stepped) :=
    if async_scheduling c then
      let! o := launch in let! stepped := engine_reconcile draining in ret (o, stepped)
    else
      let! stepped := engine_reconcile draining in let! o := launch in ret (o, stepped) in
  let! stepped_seqs := on_sched (collect stepped get_seq) in
  let! dropped_seqs := on_sched (collect (filter (fun i => i ∉ stepped) (dropped o)) get_seq) in
  let outputs := (output_of <$> stepped_seqs) ++ (dropped_output <$> dropped_seqs) in
  let! ended := on_sched (perf_counter clock) in
  let! x := gets e_scheduler in
  let! r := gets e_runner in
  on_metrics (record_step x o outputs (ended - started)%Qc (mr_step_kind r));;;
  let! outputs := on_processor outputs (process_outputs outputs) in
  ret (outputs, num_prefill_tokens o, num_decode_tokens o).

Definition engine_is_finished (e : LLMEngine) : bool :=
  match e_in_flight e with None => sch_is_finished (e_scheduler e) | Some _ => false end.

(** ** [generate] *)

(** Collect the outputs of a step: [collected[output.request_id]]. *)
Abbreviation Collected := (gmap string (string * list Z)).

Definition collect_output (o : RequestOutput) (d : Collected) : exn + Collected :=
  match d !! ro_request_id o with
  | None => inl KeyError
  | Some (text, ids) => inr (<[ro_request_id o := (text +:+ ro_text o, ids ++ ro_token_ids o)]> d)
  end.

Fixpoint collect_outputs (os : list RequestOutput) (d : Collected) : exn + Collected :=
  match os with
  | [] => inr d
  | o :: os' => match collect_output o d with inl e => inl e | inr d' => collect_outputs os' d' end
  end.

(** Add the prompts; when one is refused, abort those added and raise. *)
Fixpoint add_prompts (prompts : list ((string + list Z) * SamplingParams)) (ids : list string) : M LLMEngine (list string) :=
  match prompts with
  | [] => ret ids
  | (prompt, sp) :: rest =>
      let! rid := try_except (engine_add_request prompt sp None) (fun e =>
        for_each ids (fun rid => engine_abort_request rid "abort";;; ret tt);;; raise e) in
      add_prompts rest (ids ++ [rid])
  end.

(** The loop of [generate], for a number of steps. *)
Fixpoint run_steps (fuel : nat) (d : Collected) : M LLMEngine Collected :=
  match fuel with
  | O => raise OutOfFuel
  | S fuel' =>
      let! e := gets id in
      if engine_is_finished e then ret d
      else
        let! (outputs, _, _) := step in
        let! d := or_fail (collect_outputs outputs d) in
        run_steps fuel' d
  end.

(** The result for each request, in order. *)
Definition results (d : Collected) (ids : list string) : list (string * list Z) :=
  (fun rid => default ("", []) (d !! rid)) <$> ids.

(** One [SamplingParams] for every prompt, or one each. *)
Definition params_for (n : nat) (sp : SamplingParams + list SamplingParams) : exn + list SamplingParams :=
  match sp with
  | inl p => inr (replicate n p)
  | inr l => if bool_decide (length l = n) then inr l
             else inl (ValueError (pretty n +:+ " prompts but " +:+ pretty (length l) +:+ " sampling params"))
  end.

Definition generate (fuel : nat) (prompts : list (string + list Z)) (sp : SamplingParams + list SamplingParams) :
    M LLMEngine (list (string * list Z)) :=
  let! params := or_fail (params_for (length prompts) sp) in
  let! ids := add_prompts (zip prompts params) [] in
  let! d := run_steps fuel (list_to_map ((fun rid => (rid, ("", []))) <$> ids)) in
  ret (results d ids).

End Engine.
