(* ===== verification/EngineFacts.v ===== *)
(** * The engine's step

    The engine drives the scheduler through its invariant: the rows in flight
    are the ones the scheduler reserved slots for. A step returns, and the
    tokens its outputs carry are exactly the tokens it appended. *)

From S2P Require Import Prelude Output Sequence BlockManager BlockManagerFacts Policy KVBase Scheduler Lifecycle.
From S2P Require Import SchedulerInv SchedulerSteps ScheduleFacts AdmitFacts LaunchFacts ReconcileFacts.
From S2P Require Import SchedulerReach OutputProcessor Frames Metrics SpecDecode Engine.

(** ** What the engine relies on *)

(** The sampled tokens of a row that verified this many drafts. *)
Definition PendingFor (spec : option Z) (num_drafts : Z) (p : Z + list Z) : Prop :=
  match spec with
  | None => exists t, p = inl t
  | Some k => exists toks drafts, p = inr (spec_row k toks drafts) /\
      (1 <= Zlen toks <= 1 + num_drafts)%Z /\ (Zlen toks <= k + 1)%Z /\ Forall (fun t => 0 <= t)%Z toks
  end.

(** The runner gives each sampling sequence a row, in order. *)
Class ModelRunnerLaws (R : Type) `{SeqSettings} `{ModelRunner R} (spec : option Z) : Prop := {
  mr_spec_pos : forall k, spec = Some k -> (0 <= k)%Z;
  mr_run_law : forall ss r, wp (mr_run ss) r (fun toks _ =>
    Forall2 (fun s p => PendingFor spec (Zlen (spec_token_ids s)) p) (filter samples ss) toks);
  mr_kv_law : forall meta_ r, wp (mr_kv_connector_step meta_) r (fun _ _ => True)
}.

Section EngineFacts.
Context `{SeqSettings} `{!SettingsOk} `{SetOrder} `{TokenizerLaws}.
Context {Q C R : Type} `{SchedulingPolicyLaws Q} `{KVConnectorLaws C} `{!KVConnectorFrame C}.
Context (spec : option Z) `{!ModelRunner R} `{!ModelRunnerLaws R spec}.
Variable clock : nat -> Qc.
Local Abbreviation Sch := (Scheduler Q C).
Local Abbreviation Eng := (@LLMEngine _ Q C R).
Implicit Types e : Eng.

Definition flight_rows (f : option InFlight) : list LaunchedRow :=
  match f with Some f => if_rows f | None => [] end.

(** The step in flight: a row per sequence, with the tokens it will bring. *)
Definition FlightOk (f : option InFlight) : Prop :=
  match f with
  | None => True
  | Some f => NoDup (row_seq <$> if_rows f) /\
      Forall2 (fun row p => PendingFor spec (row_num_draft_tokens row) p) (if_rows f) (if_pending f)
  end.

Definition ProcessorOk (op : option OutputProcessor) : Prop :=
  match op with Some p => StreamsOk p | None => True end.

Record EngInv (e : Eng) : Prop := {
  ei_sched : Inv (e_scheduler e) (running (e_scheduler e)) (flight_rows (e_in_flight e));
  ei_flight : FlightOk (e_in_flight e);
  ei_spec : speculative (e_config e) = spec;
  ei_op : ProcessorOk (e_output_processor e);
  ei_ids : forall i, e_counter e <= i -> heap (e_scheduler e) !! i = None
}.

(** The worker reports only loads it was asked for. *)
Definition ReportsOk e : Prop :=
  forall o x1 meta_ report r', schedule clock (e_scheduler e) = (inr o, x1) ->
    kv_connector_metadata o = Some meta_ -> mr_kv_connector_step meta_ (e_runner e) = (inr report, r') ->
    forall r, r ∈ finished_recving report ∪ failed_recving report -> is_Some (recving x1 !! r).

Lemma wp_on_sched {A} (m : M Sch A) e P :
  wp m (e_scheduler e) (fun a x => P a (e <| e_scheduler := x |>)) -> wp (on_sched m) e P.
Proof. intros Hm. unfold on_sched. by apply wp_zoom. Qed.

(** Run a method and keep what it did. *)
Lemma wp_run_eq {S A} (m : M S A) s P :
  wp m s P -> wp m s (fun a s' => P a s' /\ m s = (inr a, s')).
Proof. unfold wp. by destruct (m s) as [[?|?] ?]. Qed.

Lemma keeps_run {S A} (R' : S -> S -> Prop) (m : M S A) s r s' : keeps R' m -> m s = (r, s') -> R' s s'.
Proof. intros Hk Hr. specialize (Hk s). by rewrite Hr in Hk. Qed.

Lemma wp_keeps {S A} (R' : S -> S -> Prop) (m : M S A) s P :
  keeps R' m -> wp m s P -> wp m s (fun a s' => P a s' /\ R' s s').
Proof. intros Hk Hm. specialize (Hk s). unfold wp in *. by destruct (m s) as [[?|?] ?]. Qed.

(** The sequences at these addresses. *)
Lemma collect_seqs (x : Sch) l (P : list Sequence -> Sch -> Prop) :
  Forall (fun i => is_Some (heap x !! i)) l ->
  (forall ss, Forall2 (fun i s => heap x !! i = Some s) l ss -> P ss x) ->
  wp (collect l get_seq) x P.
Proof.
  revert P. induction l as [|i l IH]; intros P Hall HP; simpl.
  { wp_step. apply HP. constructor. }
  apply Forall_cons in Hall as [[s Hs] Hall]. wp_step. eapply wp_get_seq; [exact Hs|]. wp_step.
  apply IH; [done|]. intros ss Hss. wp_step. apply HP. by constructor.
Qed.

(** The rows a launched step reserves match the sequences the runner samples. *)
Lemma rows_for_samples (x : Sch) l ss pending :
  Forall2 (fun i s => heap x !! i = Some s) l ss ->
  Forall2 (fun s p => PendingFor spec (Zlen (spec_token_ids s)) p) (filter samples ss) pending ->
  Forall2 (fun row p => PendingFor spec (row_num_draft_tokens row) p) (rows_for x l) pending.
Proof.
  intros Hss. revert pending. induction Hss as [|i s l ss Hi Hss IH]; intros pending Hp; unfold rows_for; simpl.
  { apply Forall2_nil_inv_l in Hp as ->. constructor. }
  rewrite Hi; simpl. rewrite filter_cons in Hp. destruct (decide (samples s)) as [Hs|Hs].
  - apply Is_true_eq_true in Hs. rewrite Hs. apply Forall2_cons_inv_l in Hp as (p & ps & Hp & Hps & ->).
    constructor; [exact Hp|]. by apply IH.
  - apply Is_true_false in Hs. rewrite Hs. by apply IH.
Qed.

Lemma rows_for_seqs (x : Sch) l : row_seq <$> rows_for x l `sublist_of` l.
Proof.
  unfold rows_for. induction l as [|i l IH]; simpl; [done|].
  destruct (heap x !! i) as [s|]; simpl; [|by constructor].
  destruct (samples s); simpl; by constructor.
Qed.

(** ** [_launch] *)

Lemma record_kv_total e o P :
  (forall m, P tt (e <| e_metrics := m |>)) -> wp (on_metrics (Q := Q) (C := C) (R := R) (record_kv_transfer o)) e P.
Proof.
  intros HP. unfold on_metrics. apply wp_zoom. destruct (appends_run _ _ (e_metrics e) (appends_record_kv_transfer o)) as [k Hk].
  eapply wp_mono; [exact Hk|]. intros [] m _. apply HP.
Qed.

(** What [_launch] leaves. *)
Record Launched (rows : list LaunchedRow) (e e' : Eng) : Prop := {
  la_inv : Inv (e_scheduler e') (running (e_scheduler e')) (rows ++ flight_rows (e_in_flight e'));
  la_flight : FlightOk (e_in_flight e');
  la_tokens : HeapTokens (e_scheduler e) (e_scheduler e');
  la_same : e_config e' = e_config e /\ e_output_processor e' = e_output_processor e /\ e_counter e' = e_counter e
}.

(** The sequences that finish between two states. *)
Definition EndedBetween e e' (i : nat) : Prop :=
  exists s s', heap (e_scheduler e) !! i = Some s /\ heap (e_scheduler e') !! i = Some s' /\
    status s <> FINISHED /\ status s' = FINISHED.

(** [ended] is exactly the sequences that finish. *)
Definition EndsExactly (ended : list nat) e e' : Prop :=
  NoDup ended /\ forall i, i ∈ ended <-> EndedBetween e e' i.

(** Between two good states, a run that ends [ended] ends exactly those. *)
Lemma Ends_exactly ended e e' run run' rows rows' :
  Inv (e_scheduler e) run rows -> Inv (e_scheduler e') run' rows' ->
  Ends ended (e_scheduler e) (e_scheduler e') -> EndsExactly ended e e'.
Proof.
  intros Hx Hx' [[A _] B (rids & F & Hnd & L)].
  assert (Hback : forall i, EndedBetween e e' i -> i ∈ ended).
  { intros i (s & s' & Hs & Hs' & Hn & Hf). destruct (A i s Hs) as (s2 & Hs2 & _ & Hfin).
    destruct Hfin as [|]; [congruence|done|done]. }
  split.
  - apply NoDup_alt. intros j k i Hj Hk. destruct (Forall2_lookup_l _ _ _ _ _ F Hj) as (r & Hr & s & Hs & <-).
    destruct (Forall2_lookup_l _ _ _ _ _ F Hk) as (r' & Hr' & s' & Hs' & <-). replace s' with s in Hr' by congruence.
    by eapply NoDup_lookup.
  - intros i. split; [|apply Hback]. intros [k Hk]%list_elem_of_lookup.
    destruct (Forall2_lookup_l _ _ _ _ _ F Hk) as (r & Hr & s & Hs & <-). rewrite Forall_forall in L.
    destruct (L (request_id s)) as [[j Hj] Hgone]; [by eapply list_elem_of_lookup_2|].
    destruct (inv_live _ _ _ Hx _ _ Hj) as (sj & Hsj & Hrj & Hlive).
    destruct (A j sj Hsj) as (sj' & Hsj' & Hrj' & _).
    assert (status sj' = FINISHED) as Hfin.
    { destruct (decide (status sj' = FINISHED)) as [|Hne]; [done|].
      pose proof (inv_live_back _ _ _ Hx' _ _ Hsj' Hne) as Hback'. congruence. }
    assert (EndedBetween e e' j) as Hend by (by exists sj, sj').
    pose proof (Hback _ Hend) as [k' Hk']%list_elem_of_lookup.
    destruct (Forall2_lookup_l _ _ _ _ _ F Hk') as (r' & Hr' & s' & Hs' & <-).
    assert (k' = k) as -> by (eapply NoDup_lookup; [exact Hnd|exact Hr'|]; rewrite Hr; f_equal; congruence).
    by replace i with j by congruence.
Qed.

Lemma launch_tail rows e0 e o x0 :
  Inv (e_scheduler e) (running (e_scheduler e)) rows -> e_in_flight e = None ->
  HeapTokens (e_scheduler e0) (e_scheduler e) -> e_config e = e_config e0 ->
  e_output_processor e = e_output_processor e0 -> e_counter e = e_counter e0 ->
  NoDup (scheduled o) ->
  Forall (fun i => exists s, heap (e_scheduler e) !! i = Some s /\ ScheduledOk s) (scheduled o) ->
  Forall (fun i => is_Some (heap x0 !! i)) (dropped o) -> HeapTokens x0 (e_scheduler e) ->
  Ends (dropped o) (e_scheduler e0) (e_scheduler e) ->
  wp (when (output_truthy o)
    (let! ss := on_sched (collect (scheduled o) get_seq) in
     let! pending := on_runner (mr_run ss) in
     let! rows := on_sched (advance (scheduled o)) in
     modify (fun e => e <| e_in_flight := Some {| if_output := o; if_rows := rows; if_pending := pending |} |>));;;
   ret o) e (fun o' e' => Launched rows e0 e' /\ Forall (fun i => is_Some (heap (e_scheduler e') !! i)) (dropped o') /\
     Ends (dropped o') (e_scheduler e0) (e_scheduler e')).
Proof.
  intros Hx Hnf Htok Hc Hop Hct Hnd Hsched Hdrop Htok0 Hends.
  assert (Hkeep : forall x', HeapTokens (e_scheduler e) x' -> Forall (fun i => is_Some (heap x' !! i)) (dropped o)).
  { intros x' Hx'. eapply Forall_impl; [exact Hdrop|]. intros i [s Hs].
    destruct (ht_seqs _ _ Htok0 i s Hs) as (s1 & Hs1 & _). destruct (ht_seqs _ _ Hx' i s1 Hs1) as (s2 & Hs2 & _). eauto. }
  wp_step. apply wp_when.
  - intros _. wp_step. apply wp_on_sched. apply collect_seqs.
    { eapply Forall_impl; [exact Hsched|]. intros i (s & Hs & _). eauto. }
    intros ss Hss. wp_step. unfold on_runner. apply wp_zoom. wp_call mr_run_law. intros pending r Hp. wp_step.
    apply wp_on_sched. simpl. eapply wp_mono.
    { apply wp_run_eq, wp_keeps; [apply keeps_advance|]. apply (advance_spec _ (running (e_scheduler e)) rows); [exact Hx|done|exact Hsched]. }
    intros rows' x' (((Hr & Hx' & Hrun & _) & Hk) & Heq). wp_steps. simpl. split_and!; [|by apply Hkeep|].
    2: { rewrite <-(app_nil_r (dropped o)). eapply Ends_app; [exact Hends|]. apply Ends_none.
         by eapply advance_ends. }
    constructor; simpl; [|split| |done].
    + by rewrite Hrun.
    + rewrite Hr. eapply sublist_NoDup; [exact Hnd|apply rows_for_seqs].
    + rewrite Hr. by eapply rows_for_samples.
    + by etrans.
  - intros _. wp_step. split_and!; [|by apply Hkeep|done]. constructor; [|by rewrite Hnf|done|done].
    by rewrite Hnf, app_nil_r.
Qed.

Lemma launch_spec rows e :
  Inv (e_scheduler e) (running (e_scheduler e)) rows -> e_in_flight e = None -> ReportsOk e ->
  wp (launch clock) e (fun o e' => Launched rows e e' /\
    Forall (fun i => is_Some (heap (e_scheduler e') !! i)) (dropped o) /\ Ends (dropped o) (e_scheduler e) (e_scheduler e')).
Proof.
  intros Hx Hnf Hrep. unfold launch. wp_step. apply wp_on_sched. eapply wp_mono.
  { apply wp_run_eq, wp_keeps; [apply keeps_schedule|]. apply (schedule_spec clock _ rows Hx). }
  intros o x1 (((Hx1 & Ho) & Hk1) & Hrun). simpl.
  assert (Hout : exists P, OutputOk P x1 o) by (destruct Ho as [?|(_ & _ & ?)]; eauto).
  destruct Hout as [P [A B _ _ _ _ _ D]].
  assert (Hdrop : Forall (fun i => is_Some (heap x1 !! i)) (dropped o)).
  { eapply Forall_impl; [exact D|]. intros i (s & Hs & _). eauto. }
  pose proof (schedule_ends _ _ _ _ Hrun) as Hends.
  destruct (kv_connector_metadata o) as [meta_|] eqn:Hm.
  - wp_steps. unfold on_runner. apply wp_zoom. eapply wp_mono; [apply wp_run_eq, mr_kv_law|].
    simpl. intros report r' [_ Hkv]. wp_step. apply wp_on_sched. eapply wp_mono.
    { apply wp_run_eq, wp_keeps; [apply keeps_update|]. apply (update_spec x1 rows report Hx1). intros r Hr.
      by eapply (Hrep o x1 meta_ report r'). }
    simpl. intros [] x2 (((Hx2 & _ & Hka) & Hk2) & Heq2). apply record_kv_total. intros m.
    destruct (scheduled_after_update x1 x2 o _ Ho Hka) as [Hnd Hsc].
    eapply (launch_tail rows e _ o x1); simpl; try done; [by etrans|].
    rewrite <-(app_nil_r (dropped o)). eapply Ends_app; [exact Hends|]. apply Ends_none. by eapply update_ends.
  - wp_steps. apply wp_bind_inv. eapply (launch_tail rows e _ o x1); simpl; try done.
    eapply Forall_impl; [exact A|]. intros i (s & Hs & Hok & _). eauto.
Qed.

(** ** [_reconcile] *)

(** The tokens the rows in flight will bring. *)
Definition pending_tokens (p : Z + list Z) : list Z :=
  match spec with None => new_token_ids p | Some k => filter (fun t => 0 <= t)%Z (py_upto (default [] (row_list p)) (k + 1)) end.

(** What reconciling leaves: each sequence's new tokens end its list, and its
    output carries them. *)
Record Reconciled (e e' : Eng) (stepped : list nat) : Prop := {
  rc_nodup : NoDup stepped;
  rc_seqs : forall i s, heap (e_scheduler e) !! i = Some s -> exists s',
    heap (e_scheduler e') !! i = Some s' /\ request_id s' = request_id s /\
    token_ids s' = token_ids s ++ (if decide (i ∈ stepped) then ro_token_ids (output_of s') else []) /\
    (i ∈ stepped -> ro_token_ids (output_of s') <> []);
  rc_live : Forall (fun i => is_Some (heap (e_scheduler e') !! i)) stepped;
  rc_none : forall i, heap (e_scheduler e) !! i = None -> heap (e_scheduler e') !! i = None
}.

Lemma output_of_suffix s (ts new : list Z) :
  token_ids s = ts ++ new -> num_new_tokens s = Zlen new -> new <> [] -> ro_token_ids (output_of s) = new.
Proof.
  intros Ht Hn Hne. unfold output_of; simpl. rewrite Ht, Hn. unfold py_from, py_pos.
  assert (0 < length new) by (destruct new; [done|simpl; lia]).
  destruct (Z.ltb_spec (- Zlen new) 0) as [_|]; unfold Zlen in *; [|lia].
  rewrite length_app. replace (Z.to_nat _) with (length ts) by lia. apply drop_app_length.
Qed.

Lemma output_of_same s s' : SameTokens s s' -> ro_token_ids (output_of s') = ro_token_ids (output_of s).
Proof. intros (Ht & _ & _ & Hn & _). unfold output_of; simpl. by rewrite Ht, Hn. Qed.

(** A step that changes no tokens may follow. *)
Lemma Reconciled_then e e1 e2 stepped :
  Reconciled e e1 stepped -> HeapTokens (e_scheduler e1) (e_scheduler e2) -> Reconciled e e2 stepped.
Proof.
  intros [A B D E] Hk. constructor; [done| | |].
  - intros i s Hs. destruct (B i s Hs) as (s1 & Hs1 & Hr1 & Ht1). destruct (ht_seqs _ _ Hk i s1 Hs1) as (s2 & Hs2 & Hsame).
    exists s2. rewrite (output_of_same _ _ Hsame). destruct Hsame as (Ht & _ & _ & _ & Hr & _).
    split_and!; [done|congruence|destruct Ht1; congruence|by destruct Ht1].
  - eapply Forall_impl; [exact D|]. intros i [s Hs]. destruct (ht_seqs _ _ Hk i s Hs) as (s2 & Hs2 & _). eauto.
  - intros i Hi. by apply (ht_none _ _ Hk), E.
Qed.

(** Or come before. *)
Lemma Reconciled_after e e1 e2 stepped :
  HeapTokens (e_scheduler e) (e_scheduler e1) -> Reconciled e1 e2 stepped -> Reconciled e e2 stepped.
Proof.
  intros Hk [A B D E]. constructor; [done| |done|intros i Hi; by apply E, (ht_none _ _ Hk)]. intros i s Hs.
  destruct (ht_seqs _ _ Hk i s Hs) as (s1 & Hs1 & Ht & _ & _ & _ & Hr & _). destruct (B i s1 Hs1) as (s2 & Hs2 & Hr2 & Ht2).
  exists s2. destruct Ht2. split_and!; [done|congruence|congruence|done].
Qed.

Lemma Reconciled_none e : Reconciled e e [].
Proof.
  constructor; [constructor| |constructor|done]. intros i s Hs. exists s. rewrite decide_False by set_solver.
  split_and!; [done|done|by rewrite app_nil_r|]. by intros ?%elem_of_nil.
Qed.

Lemma NoDup_fmap_filter {A B} (f : A -> B) (P : A -> Prop) `{forall x, Decision (P x)} l :
  NoDup (f <$> l) -> NoDup (f <$> filter P l).
Proof.
  induction l as [|x l IH]; intros Hnd; [done|]. rewrite fmap_cons in Hnd. apply NoDup_cons in Hnd as [Hx Hnd].
  rewrite filter_cons. case_decide; [|by apply IH]. rewrite fmap_cons. constructor; [|by apply IH].
  intros (y & He & [_ Hy]%list_elem_of_filter)%list_elem_of_fmap. apply Hx. rewrite He. by apply list_elem_of_fmap_2.
Qed.

Lemma rows_reconciled e e' rows toks stepped :
  (forall row, row ∈ rows -> is_Some (heap (e_scheduler e) !! row_seq row)) ->
  RowsDone (e_scheduler e) (e_scheduler e') rows toks -> length rows <= length toks ->
  NoDup (row_seq <$> rows) ->
  stepped = row_seq <$> filter (fun row => row_valid_in (e_scheduler e) row) rows ->
  Reconciled e e' stepped.
Proof.
  intros Hknown [Hout Hrows] Hlen Hnd Hst.
  assert (Hin : forall i, i ∈ stepped <-> exists k row s, rows !! k = Some row /\ row_seq row = i /\
    heap (e_scheduler e) !! i = Some s /\ row_valid row s = true).
  { intros i. rewrite Hst, list_elem_of_fmap. split.
    - intros (row & -> & [Hv Hr]%list_elem_of_filter). apply list_elem_of_lookup in Hr as [k Hk].
      unfold row_valid_in in Hv. destruct (heap _ !! _) as [s|] eqn:Hs; [|done].
      exists k, row, s. split_and!; try done. by apply Is_true_eq_true.
    - intros (k & row & s & Hk & <- & Hs & Hv). exists row. split; [done|]. apply list_elem_of_filter.
      split; [|apply list_elem_of_lookup; eauto]. unfold row_valid_in. rewrite Hs, Hv. done. }
  assert (Hseqs : forall i s, heap (e_scheduler e) !! i = Some s -> exists s',
    heap (e_scheduler e') !! i = Some s' /\ request_id s' = request_id s /\
    token_ids s' = token_ids s ++ (if decide (i ∈ stepped) then ro_token_ids (output_of s') else []) /\
    (i ∈ stepped -> ro_token_ids (output_of s') <> [])).
  { intros i s Hs. destruct (decide (i ∈ row_seq <$> rows)) as [Hr|Hr].
    - apply list_elem_of_fmap in Hr as (row & -> & Hr). apply list_elem_of_lookup in Hr as [k Hk].
      destruct (lookup_lt_is_Some_2 toks k) as [p Hp]; [apply lookup_lt_Some in Hk; lia|].
      specialize (Hrows k row p s Hk Hp Hs). destruct (row_valid row s) eqn:Hv.
      + destruct Hrows as (s' & Hs' & [_ _ _ _ (n & Hn & Ht & Hc) Hid]). exists s'.
        assert (Hl : length (take n (new_token_ids p)) = n) by (rewrite length_take; lia).
        assert (Hne : take n (new_token_ids p) <> []) by (intros He; rewrite He in Hl; simpl in Hl; lia).
        assert (Hout' : ro_token_ids (output_of s') = take n (new_token_ids p)).
        { eapply output_of_suffix; [exact Ht|unfold Zlen; by rewrite Hl|done]. }
        split_and!; [done|done| |by rewrite Hout']. rewrite decide_True by (apply Hin; by exists k, row, s).
        by rewrite Hout', Ht.
      + assert (Hno : row_seq row ∉ stepped).
        2: { exists s. split_and!; [done|done| |done]. rewrite decide_False by done. by rewrite app_nil_r. }
        intros (k' & row' & s' & Hk' & He & Hs' & Hv')%Hin.
        assert (k' = k) as ->; [|congruence].
        eapply (NoDup_lookup (row_seq <$> rows)); [done| |by rewrite list_lookup_fmap, Hk].
        rewrite list_lookup_fmap, Hk'. simpl. by rewrite He.
    - assert (Hno : i ∉ stepped).
      2: { exists s. rewrite Hout by done. split_and!; [done|done| |done]. rewrite decide_False by done. by rewrite app_nil_r. }
      intros (k & row & s' & Hk & <- & _)%Hin. apply Hr, list_elem_of_fmap_2, list_elem_of_lookup. eauto. }
  constructor; [|exact Hseqs| |].
  - rewrite Hst. by apply NoDup_fmap_filter.
  - apply Forall_forall. intros i (k & row & s & Hk & <- & Hs & _)%Hin.
    destruct (Hseqs _ s Hs) as (s' & Hs' & _). eauto.
  - intros i Hi. rewrite Hout; [done|]. intros (row & -> & Hr)%list_elem_of_fmap.
    destruct (Hknown row Hr) as [s Hs]. congruence.
Qed.

(** Nothing else of the store changes. *)
Definition OnlyStepped e e' (stepped : list nat) : Prop :=
  forall i, i ∉ stepped -> heap (e_scheduler e') !! i = heap (e_scheduler e) !! i.

Lemma rows_only_stepped e e' rows toks stepped :
  RowsDone (e_scheduler e) (e_scheduler e') rows toks -> length rows <= length toks ->
  stepped = row_seq <$> filter (fun row => row_valid_in (e_scheduler e) row) rows ->
  (forall row, row ∈ rows -> is_Some (heap (e_scheduler e) !! row_seq row)) -> OnlyStepped e e' stepped.
Proof.
  intros [Hout Hrows] Hlen -> Hknown i Hi. destruct (decide (i ∈ row_seq <$> rows)) as [Hr|Hr]; [|by apply Hout].
  apply list_elem_of_fmap in Hr as (row & -> & Hr). destruct (Hknown row Hr) as [s Hs].
  apply list_elem_of_lookup in Hr as [k Hk].
  destruct (lookup_lt_is_Some_2 toks k) as [p Hp]; [apply lookup_lt_Some in Hk; lia|].
  specialize (Hrows k row p s Hk Hp Hs). destruct (row_valid row s) eqn:Hv; [|congruence].
  destruct Hi. apply list_elem_of_fmap_2, list_elem_of_filter. split; [|by eapply list_elem_of_lookup_2].
  unfold row_valid_in. by rewrite Hs, Hv.
Qed.

Lemma record_spec_total rows toks e P :
  Forall (fun t => t <> []) toks -> (forall m, P tt (e <| e_metrics := m |>)) ->
  wp (on_metrics (Q := Q) (C := C) (R := R) (record_spec_decoding rows toks)) e P.
Proof.
  intros Ht HP. unfold on_metrics. apply wp_zoom.
  destruct (appends_run _ _ (e_metrics e) (appends_record_spec_decoding rows toks Ht)) as [k Hk].
  eapply wp_mono; [exact Hk|]. intros [] m _. apply HP.
Qed.

(** The rows in flight as the scheduler gets them. *)
Lemma pending_rows rows pending :
  Forall2 (fun row p => PendingFor spec (row_num_draft_tokens row) p) rows pending ->
  match spec with
  | None => (forall row, row ∈ rows -> (0 <= row_num_draft_tokens row)%Z) -> TokensOk rows pending
  | Some k => exists l, mapM row_list pending = Some l /\ TokensOk rows (inr <$> (split_sampled l k).1) /\
      length rows <= length (split_sampled l k).1 /\ length rows <= length (split_sampled l k).2 /\
      Forall (fun t => t <> []) (split_sampled l k).1
  end.
Proof.
  pose proof mr_spec_pos as Hpos. destruct spec as [k|]; intros Hp.
  - specialize (Hpos k eq_refl).
    assert (exists ps : list (list Z * list Z), pending = (fun r => inr (spec_row k r.1 r.2)) <$> ps /\
      Forall2 (fun row r => RowTokens row r.1) rows ps /\
      Forall (fun r => (Zlen r.1 <= k + 1)%Z /\ Forall (fun t => 0 <= t)%Z r.1) ps) as (ps & -> & Ht & Hf).
    { induction Hp as [|row p rows pending (toks & dr & -> & Hn & Hl & Hnn) Hp IH]; [by exists []|].
      destruct IH as (ps & -> & Ht & Hf). exists ((toks, dr) :: ps). split_and!; [done|by constructor|by constructor]. }
    exists ((fun r => spec_row k r.1 r.2) <$> ps). rewrite split_sampled_rows by done.
    pose proof (Forall2_length _ _ _ Ht) as Hlen. split_and!.
    + apply mapM_Some_2. rewrite Forall2_fmap. apply Forall_Forall2_diag. by apply Forall_forall.
    + intros j row p Hj Hpj. simpl in Hpj. apply list_lookup_fmap_Some in Hpj as (t & -> & Ht').
      apply list_lookup_fmap_Some in Ht' as (r & -> & Hr). simpl.
      exact (Forall2_lookup_lr _ _ _ _ _ _ Ht Hj Hr).
    + simpl. rewrite length_fmap. lia.
    + simpl. rewrite length_fmap. lia.
    + simpl. apply Forall_forall. intros t (r & -> & Hr)%list_elem_of_fmap.
      apply list_elem_of_lookup in Hr as [j Hr].
      destruct (Forall2_lookup_r _ _ _ _ _ Ht Hr) as (row & _ & Hrow). destruct Hrow as [Hrow _].
      intros He. rewrite He in Hrow. unfold Zlen in Hrow; simpl in Hrow. lia.
  - intros Hd j row p Hj Hpj. destruct (Forall2_lookup_lr _ _ _ _ _ _ Hp Hj Hpj) as [t ->].
    unfold RowTokens, Zlen; simpl. specialize (Hd row). assert (row ∈ rows) by (apply list_elem_of_lookup; eauto).
    specialize (Hd ltac:(done)). lia.
Qed.

(** What reconciling keeps of the engine. *)
Lemma engine_reconcile_spec draining later e :
  Inv (e_scheduler e) (running (e_scheduler e)) (flight_rows draining ++ later) -> FlightOk draining ->
  speculative (e_config e) = spec ->
  wp (engine_reconcile clock draining) e (fun stepped e' =>
    Inv (e_scheduler e') (running (e_scheduler e')) later /\ (Reconciled e e' stepped /\ OnlyStepped e e' stepped) /\
    e_config e' = e_config e /\ e_in_flight e' = e_in_flight e /\
    e_output_processor e' = e_output_processor e /\ e_runner e' = e_runner e /\ e_counter e' = e_counter e).
Proof.
  intros Hx Hf Hsp. unfold engine_reconcile. destruct draining as [f|]; cbn [flight_rows FlightOk] in *.
  2: { wp_step. split_and!; try done. apply Reconciled_none. }
  destruct Hf as [Hnd Hp]. pose proof (pending_rows _ _ Hp) as Hrows.
  assert (Hknown : forall row, row ∈ if_rows f -> (0 <= row_num_draft_tokens row)%Z /\
    is_Some (heap (e_scheduler e) !! row_seq row)).
  { intros row Hr. destruct (rows_known _ _ (inv_rows _ _ _ Hx) row) as (Hd & s & Hs & _); [set_solver|]. eauto. }
  assert (Hend : forall toks drafts e1, e_scheduler e1 = e_scheduler e -> e_config e1 = e_config e ->
    e_in_flight e1 = e_in_flight e -> e_output_processor e1 = e_output_processor e -> e_runner e1 = e_runner e -> e_counter e1 = e_counter e ->
    TokensOk (if_rows f) toks -> length (if_rows f) <= length toks ->
    (forall d, drafts = Some d -> length (if_rows f) <= length d) ->
    wp (on_sched (reconcile clock (if_rows f) toks drafts)) e1 (fun stepped e' =>
      Inv (e_scheduler e') (running (e_scheduler e')) later /\ (Reconciled e e' stepped /\ OnlyStepped e e' stepped) /\
      e_config e' = e_config e /\ e_in_flight e' = e_in_flight e /\
      e_output_processor e' = e_output_processor e /\ e_runner e' = e_runner e /\ e_counter e' = e_counter e)).
  { intros toks drafts e1 Hs Hc Hfl Ho Hr Hct Ht Hl Hd. apply wp_on_sched. rewrite Hs.
    pose proof (reconcile_spec clock _ _ drafts later _ Hx Ht Hl Hd) as H1'.
    pose proof (reconcile_rows_exact clock _ _ drafts 0 later _ Hx Ht Hnd Hl Hd) as H2'.
    unfold reconcile in *. apply wp_run_eq in H1'. eapply wp_mono; [exact H1'|].
    intros stepped x' ((Hx' & _) & Hrun). destruct (wp_elim _ _ _ _ _ H2' Hrun) as [Hst Hdone]. simpl.
    assert (forall row, row ∈ if_rows f -> is_Some (heap (e_scheduler e) !! row_seq row)) as Hin
      by (intros row Hrow; by apply Hknown).
    split_and!; try done; [by eapply (rows_reconciled e (e1 <| e_scheduler := x' |>))|].
    by eapply (rows_only_stepped e (e1 <| e_scheduler := x' |>)). }
  rewrite <-Hsp in Hrows. wp_step. apply wp_gets. destruct (speculative (e_config e)) as [k|].
  - destruct Hrows as (l & Hl & Ht & L1 & L2 & Hne). wp_step. eapply wp_or_raise; [exact Hl|].
    destruct (split_sampled l k) as [toks drafts]. cbn [fst snd] in *. wp_step. apply record_spec_total; [done|]. intros m.
    apply Hend; try done; [by rewrite length_fmap|]. by intros d [= <-].
  - apply Hend; try done.
    + apply Hrows. intros row Hr. by apply Hknown.
    + by rewrite (Forall2_length _ _ _ Hp).
Qed.

(** ** [step] *)

(** The state a step's launch starts from. *)
Definition drained e : Eng := e <| e_in_flight := None |>.

(** The worker's report, in this step, names only loads it was asked for. *)
Definition StepReportsOk e : Prop :=
  let e0 := drained (e <| e_scheduler ::= fun x => x <| ticks ::= S |> |>) in
  if async_scheduling (e_config e) then ReportsOk e0
  else forall stepped e1, engine_reconcile clock (e_in_flight e) e0 = (inr stepped, e1) -> ReportsOk e1.

(** What a step's outputs say, before the text is filled in: an output for
    each sequence that gained tokens ([stepped]), carrying exactly the tokens the
    step appended to it, then a final output for each other sequence that was not
    finished before the step and is after it. *)
Record StepOutputs (e e' : Eng) (raw : list RequestOutput) : Prop := {
  sto_lists : exists stepped dropped_ ss ds,
    NoDup stepped /\ NoDup dropped_ /\ (forall i, i ∈ dropped_ <-> EndedBetween e e' i /\ i ∉ stepped) /\
    Forall2 (fun i s => heap (e_scheduler e') !! i = Some s) stepped ss /\
    Forall2 (fun i s => heap (e_scheduler e') !! i = Some s) dropped_ ds /\
    raw = (output_of <$> ss) ++ (dropped_output <$> ds) /\
    (forall i s, heap (e_scheduler e) !! i = Some s -> exists s', heap (e_scheduler e') !! i = Some s' /\
       request_id s' = request_id s /\
       token_ids s' = token_ids s ++ (if decide (i ∈ stepped) then ro_token_ids (output_of s') else []) /\
       (i ∈ stepped -> ro_token_ids (output_of s') <> []))
}.

Lemma record_step_total e (x : Sch) o outs d k P :
  (forall m, P tt (e <| e_metrics := m |>)) ->
  wp (on_metrics (Q := Q) (C := C) (R := R) (record_step x o outs d k)) e P.
Proof.
  intros HP. unfold on_metrics. apply wp_zoom. destruct (appends_run _ _ (e_metrics e) (appends_record_step x o outs d k)) as [l Hl].
  eapply wp_mono; [exact Hl|]. intros [] m _. apply HP.
Qed.

(** The two orders of a step's halves end in the same kind of state. *)
Record HalvesDone (e : Eng) (o : SchedulerOutput) (stepped : list nat) (e' : Eng) : Prop := {
  hd_inv : Inv (e_scheduler e') (running (e_scheduler e')) (flight_rows (e_in_flight e'));
  hd_flight : FlightOk (e_in_flight e');
  hd_rec : Reconciled e e' stepped;
  hd_drop : Forall (fun i => is_Some (heap (e_scheduler e') !! i)) (dropped o);
  hd_nodup : NoDup (dropped o);
  hd_ended : forall i, i ∉ stepped -> i ∈ dropped o <-> EndedBetween e e' i;
  hd_same : e_config e' = e_config e /\ e_output_processor e' = e_output_processor e /\ e_counter e' = e_counter e
}.

Lemma step_halves draining e :
  Inv (e_scheduler e) (running (e_scheduler e)) (flight_rows draining) -> FlightOk draining ->
  e_in_flight e = None -> speculative (e_config e) = spec ->
  (if async_scheduling (e_config e) then ReportsOk e
   else forall stepped e1, engine_reconcile clock draining e = (inr stepped, e1) -> ReportsOk e1) ->
  wp (if async_scheduling (e_config e) then
        let! o := launch clock in let! stepped := engine_reconcile clock draining in ret (o, stepped)
      else
        let! stepped := engine_reconcile clock draining in let! o := launch clock in ret (o, stepped)) e
     (fun r e' => HalvesDone e r.1 r.2 e').
Proof.
  intros Hx Hf Hnf Hsp Hrep. destruct (async_scheduling (e_config e)).
  - wp_step. wp_call (launch_spec (flight_rows draining)); [exact Hx|done|done|].
    intros o e1 ([Hx1 Hf1 Hk1 (Hc1 & Ho1 & Hn1)] & Hd1 & He1). wp_step.
    destruct (Ends_exactly _ _ _ _ _ _ _ Hx Hx1 He1) as [Hnd Hends].
    wp_call (engine_reconcile_spec draining); [exact Hx1|done|by rewrite Hc1|].
    intros stepped e2 (Hx2 & (Hr2 & Hu2) & Hc2 & Hf2 & Ho2 & _ & Hn2). wp_step. simpl. constructor.
    + by rewrite Hf2.
    + by rewrite Hf2.
    + by eapply Reconciled_after.
    + eapply Forall_impl; [exact Hd1|]. intros i [s Hs].
      destruct (rc_seqs _ _ _ Hr2 i s Hs) as (s' & Hs' & _). eauto.
    + done.
    + intros i Hi. rewrite Hends. unfold EndedBetween. by rewrite Hu2.
    + split_and!; congruence.
  - wp_step. eapply wp_mono.
    { apply wp_run_eq, (engine_reconcile_spec draining []); [by rewrite app_nil_r|done|done]. }
    intros stepped e1 ((Hx1 & (Hr1 & Hu1) & Hc1 & Hf1 & Ho1 & _ & Hn1) & Hrun). wp_step.
    wp_call (launch_spec []); [exact Hx1|congruence|by eapply Hrep|].
    intros o e2 ([Hx2 Hf2 Hk2 (Hc2 & Ho2 & Hn2)] & Hd2 & He2). wp_step. simpl.
    destruct (Ends_exactly _ _ _ _ _ _ _ Hx1 Hx2 He2) as [Hnd Hends].
    constructor; [done|done| |done|done| |split_and!; congruence].
    + by eapply Reconciled_then.
    + intros i Hi. rewrite Hends. unfold EndedBetween. by rewrite Hu1.
Qed.

(** The final outputs and their text. *)
Definition texts_filled (e : Eng) (raw outs : list RequestOutput) (e' : Eng) : Prop :=
  match e_output_processor e, e_output_processor e' with
  | None, None => outs = raw
  | Some p, Some p' => forall r, Delivered r raw p p' outs
  | _, _ => False
  end.

Lemma processed e raw P :
  ProcessorOk (e_output_processor e) ->
  (forall outs op, ProcessorOk op -> texts_filled e raw outs (e <| e_output_processor := op |>) ->
     P outs (e <| e_output_processor := op |>)) ->
  wp (on_processor raw (process_outputs raw)) e P.
Proof.
  intros Hop HP. unfold on_processor. wp_steps. destruct (e_output_processor e) as [p|] eqn:Hp; simpl in *.
  - apply wp_zoom. wp_call process_outputs_spec; [done|]. intros outs p' [Hok' Hd]. apply HP; [done|].
    unfold texts_filled. by rewrite Hp.
  - wp_step. specialize (HP raw None I). destruct e; simpl in *; subst. apply HP. unfold texts_filled. done.
Qed.

Lemma step_spec e :
  EngInv e -> StepReportsOk e ->
  wp (step clock) e (fun r e' => EngInv e' /\
    exists raw, StepOutputs e e' raw /\ texts_filled e raw r.1.1 e').
Proof.
  intros [Hx Hf Hsp Hop Hids] Hrep. unfold step. wp_step. apply wp_on_sched. apply wp_perf_counter. wp_steps. simpl.
  set (e0 := drained (e <| e_scheduler ::= fun x => x <| ticks ::= S |> |>)).
  wp_call (step_halves (e_in_flight e) e0); [by apply Inv_ticks|done|done|done|exact Hrep|].
  intros [o stepped] e1 [Hx1 Hf1 Hr1 Hd1 Hnd1 He1 (Hc1 & Ho1 & Hn1)]. simpl in *. wp_step. apply wp_on_sched.
  apply collect_seqs; [apply (rc_live _ _ _ Hr1)|]. intros ss Hss. wp_step. apply wp_on_sched.
  apply collect_seqs.
  { apply Forall_forall. intros i [_ Hi]%list_elem_of_filter. rewrite Forall_forall in Hd1. by apply Hd1. }
  intros ds Hds. wp_step. apply wp_on_sched. apply wp_perf_counter. wp_steps. apply record_step_total. intros m.
  simpl. wp_step. apply processed; [simpl; by rewrite Ho1|].
  intros outs op Hop' Hfill. wp_step. simpl. split.
  - constructor; simpl; [by apply Inv_ticks|done|congruence|done|]. rewrite Hn1. intros i Hi.
    apply (rc_none _ _ _ Hr1). simpl. by apply Hids.
  - exists ((output_of <$> ss) ++ (dropped_output <$> ds)). split.
    + constructor. exists stepped, (filter (fun i => i ∉ stepped) (dropped o)), ss, ds. split_and!; try done.
      * apply (rc_nodup _ _ _ Hr1).
      * by apply NoDup_filter.
      * intros i. rewrite list_elem_of_filter. split.
        -- intros [Hi Hd]. split; [|done]. by apply (He1 i Hi).
        -- intros [He Hi]. split; [done|]. by apply (He1 i Hi).
      * apply (rc_seqs _ _ _ Hr1).
    + unfold texts_filled in *. simpl in *. by rewrite <-Ho1.
Qed.

(** ** Requests come and go *)

Variable encode : string -> list Z.
Variable model_validate : gmap string pyval -> option (string * string).

(** The strict model [_RemotePrefill] accepts only what the connector reads. *)
Hypothesis checked_params : forall d kv,
  check_kv_transfer_params model_validate (PDict (map_to_list d)) d kv = None -> kv_ok (Some d).
Hypothesis no_params : kv_ok None.

(** What [validate_request] lets through. *)
Definition RequestOk (prompt : list Z) (sp : SamplingParams) (vocab max_len : Z) (kv : option KVTransferConfig) : Prop :=
  prompt <> [] /\ Forall (fun t => 0 <= t < vocab)%Z prompt /\
  (Zlen prompt < max_len)%Z /\ (Zlen prompt + sp_max_tokens sp <= max_len)%Z /\
  forall d, sp_kv_transfer_params sp = Some d ->
    check_kv_transfer_params model_validate (PDict (map_to_list d)) d kv = None.

Lemma find_bad (prompt : list Z) (vocab : Z) :
  match List.find (fun t => negb ((0 <=? t) && (t <? vocab))%Z) prompt with
  | Some bad => bad ∈ prompt /\ ~ (0 <= bad < vocab)%Z
  | None => Forall (fun t => 0 <= t < vocab)%Z prompt
  end.
Proof.
  induction prompt as [|t prompt IH]; simpl; [constructor|].
  destruct (Z.leb_spec 0 t), (Z.ltb_spec t vocab); simpl;
    try (split; [by left|lia]). destruct (List.find _ _); [|by constructor].
  destruct IH. split; [by right|done].
Qed.

Lemma validate_request_iff prompt sp vocab max_len kv :
  validate_request model_validate prompt sp vocab max_len kv = inr tt <-> RequestOk prompt sp vocab max_len kv.
Proof.
  unfold validate_request, RequestOk. case_bool_decide as He; [split; [done|tauto]|].
  pose proof (find_bad prompt vocab) as Hf. destruct (List.find _ _) as [bad|].
  { split; [done|]. intros (_ & Hall & _). rewrite Forall_forall in Hall. destruct Hf as [Hin Hb].
    by specialize (Hall bad Hin). }
  destruct (Z.leb_spec max_len (Zlen prompt)); [split; [done|lia]|].
  destruct (Z.ltb_spec max_len (Zlen prompt + sp_max_tokens sp)); [split; [done|lia]|].
  destruct (sp_kv_transfer_params sp) as [d|]; [|split; [intros _; split_and!; [done|done|lia|lia|done]|done]].
  destruct (check_kv_transfer_params _ _ _ _) eqn:Hc; split; try done.
  - intros (_ & _ & _ & _ & Hd). specialize (Hd d eq_refl). congruence.
  - intros _. split_and!; [done|done|lia|lia|]. by intros d' [= <-].
Qed.

(** Every refusal of the check is an [InvalidRequest]. *)
Lemma validate_request_error prompt sp vocab max_len kv ex :
  validate_request model_validate prompt sp vocab max_len kv = inl ex -> exists m, ex = InvalidRequest m.
Proof.
  unfold validate_request. repeat case_match; intros; simplify_eq; eauto.
Qed.

Definition prompt_ids (prompt : string + list Z) : list Z :=
  match prompt with inl text => encode text | inr ids => ids end.

(** The sequence a request becomes. *)
Lemma new_request_fresh conn n now ids sp rid s vocab max_len kv :
  RequestOk ids sp vocab max_len kv -> SamplingParamsOk sp -> new_Sequence n now ids (Some sp) rid = inr s ->
  seq_id s = n /\ SeqWf s /\ status s = WAITING /\ num_preemptions s = 0%Z /\ token_ids s = ids /\
  request_id s = default ("req-" +:+ pretty n) rid /\ SeqOk (C := C) conn s.
Proof.
  intros (Hne & _ & _ & _ & Hkv) (_ & Hmax & _) Hs.
  destruct (new_Sequence_spec n now ids (Some sp) rid Hne)
    as (s' & Hs' & Hwf & E1 & E2 & E3 & E4 & E5 & E6 & E7 & E8 & E9 & E10 & E11 & E12 & E13 & E14 & E15).
  rewrite Hs in Hs'. injection Hs' as <-. simpl in *. split_and!; try done. split.
  - unfold StatusOk. rewrite E2. split_and!; try done. unfold LimitOk.
    unfold num_planned_tokens. rewrite E15, E12, E10, E6. lia.
  - split; [|intros _ _; left; done]. rewrite E13. destruct (sp_kv_transfer_params sp) as [d|] eqn:Hd; [|done].
    eapply checked_params. by apply Hkv.
Qed.

Lemma record_any_total (m : M Metrics unit) e P :
  appends Balanced m -> (forall l, P tt (e <| e_metrics := l |>)) ->
  wp (on_metrics (Q := Q) (C := C) (R := R) m) e P.
Proof.
  intros Hm HP. unfold on_metrics. apply wp_zoom. destruct (appends_run _ _ (e_metrics e) Hm) as [k Hk].
  eapply wp_mono; [exact Hk|]. intros [] l _. apply HP.
Qed.

Lemma op_add_ok rid prompt skip p : StreamsOk p -> StreamsOk (op_add_request rid prompt skip None p).
Proof.
  intros [S1 S2]. split; simpl.
  - intros r st a [[<- <-]|[_ Hr]]%lookup_insert_Some Ha; [done|]. by eapply S1.
  - intros r1 r2 s1 s2 a [[<- <-]|[_ H1']]%lookup_insert_Some [[<- <-]|[_ H2']]%lookup_insert_Some E1 E2;
      try done. by eapply S2.
Qed.

(** An admitted request joins the queue; a refused one leaves the engine as it
    was, but for the ids and clock readings it used. *)
Lemma add_request_spec prompt sp rid e :
  EngInv e -> SamplingParamsOk sp ->
  match engine_add_request clock encode model_validate prompt sp rid e with
  | (inr r, e') => EngInv e' /\ is_Some (seqs (e_scheduler e') !! r) /\
      RequestOk (prompt_ids prompt) sp (vocab_size (e_config e)) (max_model_len (e_config e)) (kv_transfer (e_config e))
  | (inl ex, e') => EngInv e' /\ e_output_processor e' = e_output_processor e /\ e_metrics e' = e_metrics e /\
      (exists k, e_scheduler e' = (e_scheduler e) <| ticks := k |>) /\
      ((exists m, ex = InvalidRequest m) \/ (exists m, ex = DuplicateRequestId m))
  end.
Proof.
  intros [Hx Hf Hsp Hop Hids] Hpar. unfold engine_add_request. fold (prompt_ids prompt).
  set (ids := prompt_ids prompt). unfold bind at 1, gets at 1.
  destruct (validate_request _ _ _ _ _ _) as [ex|[]] eqn:Hv; unfold bind at 1, or_fail at 1.
  { simpl. split; [by constructor|]. split_and!; try done.
    - exists (ticks (e_scheduler e)). by destruct (e_scheduler e).
    - left. by eapply validate_request_error. }
  pose proof Hv as Hok. apply validate_request_iff in Hok.
  destruct (new_Sequence_spec (e_counter e) (clock (ticks (e_scheduler e))) ids (Some sp) rid) as (s & Hs & _); [apply Hok|].
  destruct (new_request_fresh (connector (e_scheduler e)) _ _ _ _ _ _ _ _ _ Hok Hpar Hs) as (E1 & E2 & E3 & E4 & E5 & E6 & E7).
  unfold ret, bind, gets, modify, on_sched at 1, zoom at 1, perf_counter; simpl. unfold bind, gets, modify, ret; simpl.
  rewrite Hs. simpl. unfold on_sched, zoom. cbn [e_scheduler update_field].
  set (x1 := (e_scheduler e) <| ticks := S (ticks (e_scheduler e)) |>).
  assert (Hx1 : Inv x1 (running x1) (flight_rows (e_in_flight e))) by by apply Inv_ticks.
  assert (Hids1 : forall i, S (e_counter e) <= i -> heap x1 !! i = None) by (intros i Hi; apply Hids; lia).
  destruct (in_flight x1 (request_id s)) eqn:Hdup.
  { rewrite add_refused by done. split; [by constructor|]. split_and!; try done; [by eexists|right; eauto]. }
  pose proof (add_spec x1 _ _ s Hx1) as Hadd. rewrite E1 in Hadd.
  specialize (Hadd (Hids _ (le_n _)) E2 E3 E4 E7 Hdup). unfold wp in Hadd.
  destruct (add s x1) as [[?|[]] x2]; [done|]. destruct Hadd as (Hx2 & Hrun & Hheap & Hseqs).
  unfold on_processor, bind, gets. simpl. destruct (e_output_processor e) as [p|] eqn:Hp; simpl.
  all: split; [|split; [rewrite Hseqs, lookup_insert_eq; by eexists|done]]; constructor; simpl; try done;
    try (by rewrite Hrun); try (by rewrite Hp); try (by apply op_add_ok).
  all: intros i Hi; rewrite Hheap, lookup_insert_ne by lia; by apply Hids1.
Qed.

Lemma op_abort_ok rid p : StreamsOk p -> StreamsOk (op_abort_request rid p).
Proof.
  intros [S1 S2]. unfold op_abort_request. destruct (request_states p !! rid) as [st|] eqn:Hst; [|done].
  assert (Hdel : StreamsOk (p <| request_states ::= delete rid |>)).
  { split; simpl.
    - intros r s a [_ Hr]%lookup_delete_Some. by eapply S1.
    - intros r1 r2 s1 s2 a [_ H1']%lookup_delete_Some [_ H2']%lookup_delete_Some. by eapply S2. }
  destruct (rs_stream st) as [a|]; [|done]. destruct Hdel as [D1 D2]. split; [|done].
  intros r s b Hr Hb. rewrite stream_put_lookup. simpl in *. specialize (D1 r s b Hr Hb).
  case_decide; [|done]. by apply fmap_is_Some.
Qed.

(** An abort is never refused: the request is gone, and known to the caller. *)
Lemma abort_request_spec rid reason e :
  EngInv e ->
  wp (engine_abort_request clock rid reason) e (fun b e' => EngInv e' /\
    b = bool_decide (is_Some (seqs (e_scheduler e) !! rid)) /\
    seqs (e_scheduler e') = delete rid (seqs (e_scheduler e)) /\
    (forall op, e_output_processor e' = Some op -> request_states op !! rid = None)).
Proof.
  intros [Hx Hf Hsp Hop Hids]. unfold engine_abort_request. wp_steps.
  apply wp_on_sched. eapply wp_mono.
  { apply wp_keeps; [apply keeps_abort|]. by apply abort_spec. }
  intros b x' ((Hx' & Hb & Hseqs & _) & Hk). wp_step.
  assert (Hend : forall op e1, e_scheduler e1 = x' -> e_config e1 = e_config e -> e_in_flight e1 = e_in_flight e ->
    e_counter e1 = e_counter e -> e_output_processor e1 = op -> ProcessorOk op ->
    (forall p, op = Some p -> request_states p !! rid = None) ->
    wp (if b then
          let! i := or_raise (seqs (e_scheduler e) !! rid) (AssertionError "") in
          let! s := on_sched (get_seq i) in
          on_metrics (record_aborted (dropped_output s));;; ret true
        else ret false) e1 (fun b' e' => EngInv e' /\
      b' = bool_decide (is_Some (seqs (e_scheduler e) !! rid)) /\
      seqs (e_scheduler e') = delete rid (seqs (e_scheduler e)) /\
      (forall op, e_output_processor e' = Some op -> request_states op !! rid = None))).
  { intros op e1 Hs Hc Hfl Hct Ho Hok Hgone.
    assert (Hinv : forall e2, e_scheduler e2 = x' -> e_config e2 = e_config e1 -> e_in_flight e2 = e_in_flight e1 ->
      e_counter e2 = e_counter e1 -> e_output_processor e2 = e_output_processor e1 -> EngInv e2).
    { intros e2 F1 F2 F3 F4 F5. constructor; rewrite ?F1, ?F2, ?F3, ?F4, ?F5, ?Hc, ?Hfl, ?Ho, ?Hct; try done.
      intros i Hi. by apply (ht_none _ _ Hk), Hids. }
    destruct b.
    - symmetry in Hb. apply bool_decide_eq_true in Hb as [i Hi]. wp_step. eapply wp_or_raise; [exact Hi|].
      destruct (inv_live _ _ _ Hx rid i Hi) as (s & Hs0 & _). destruct (ht_seqs _ _ Hk i s Hs0) as (s' & Hs' & _).
      wp_step. apply wp_on_sched. eapply wp_get_seq; [by rewrite Hs|]. wp_step.
      apply record_any_total; [apply appends_record_aborted|]. intros l. wp_step. simpl.
      split; [by apply Hinv|]. split; [|split; [by rewrite Hs|by rewrite Ho]].
      symmetry. apply bool_decide_eq_true. eauto.
    - wp_step. split; [by apply Hinv|].
      split; [by rewrite Hb|]. rewrite Hs. split; [done|by rewrite Ho]. }
  unfold on_processor. wp_steps. simpl. destruct (e_output_processor e) as [p|] eqn:Hp.
  - apply wp_zoom. wp_step. eapply (Hend (Some (op_abort_request rid p))); try done; simpl.
    + by apply op_abort_ok.
    + intros p' [= <-]. unfold op_abort_request. destruct (request_states p !! rid) as [st|] eqn:Hr; [|done].
      destruct (rs_stream st); simpl; by rewrite lookup_delete_eq.
  - wp_step. by eapply (Hend None).
Qed.

End EngineFacts.
