(* ===== verification/Core.v ===== *)
(** * The engine core process

    [engine/core.py]: the loop that takes every queued request, steps the
    engine and sends its outputs. The engine is an interface, which
    [LLMEngine] implements; the two ZMQ sockets are message queues. *)

From S2P Require Import Prelude Output.

(** ** Messages *)

Inductive InMessage :=
| MsgAdd (request_id : string) (prompt : list Z) (sp : SamplingParams)
| MsgAbort (request_id reason : string)
| MsgMetrics (call_id : nat)
| MsgShutdown
| MsgUnknown (kind : string).

Inductive OutMessage :=
| OutAdded (request_id : string) (error : option exn)
| OutOutputs (outputs : list RequestOutput)
| OutMetrics (call_id : nat) (text : string)
| OutDead (error : exn).

(** [except Exception] does not catch these two. *)
Definition is_Exception (e : exn) : bool :=
  match e with SystemExit | CancelledError => false | _ => true end.

(** The engine, as the core uses it. *)
Class EngineOps (E : Type) := {
  eng_add_request : list Z -> SamplingParams -> string -> M E string;
  eng_abort_request : string -> string -> M E bool;
  eng_step : M E (list RequestOutput * Z * Z);
  eng_is_finished : E -> bool;
  eng_render_metrics : E -> string
}.

Class EngineOpsLaws (E : Type) `{EngineOps E} : Prop := {
  eng_add_raises : forall prompt sp rid e x e',
    eng_add_request prompt sp rid e = (inl x, e') -> is_Exception x = true
}.

Definition IDLE_POLL_MS : Z := 5.

Section Core.
Context {E : Type} `{EngineOps E}.
(** Whether an exception survives a pickle round trip, and its [repr]. *)
Variable survives_pickle : exn -> bool.
Variable repr_exn : exn -> string.
(** Whether the client process is found gone at its [n]-th check. *)
Variable parent_gone : nat -> bool.

Definition picklable (e : exn) : exn :=
  if survives_pickle e then e else RuntimeError (repr_exn e).

(** [core_arrivals]: the messages that reach the input socket before each of
    its next calls; nothing arrives after the last. *)
Record EngineCore := {
  core_engine : E;
  core_queued : list InMessage;
  core_arrivals : list (list InMessage);
  core_output : list OutMessage;
  core_running : bool;
  core_checks : nat
}.

#[export] Instance eta_EngineCore : Eta EngineCore := fun c =>
  Build_EngineCore (core_engine c) (core_queued c) (core_arrivals c) (core_output c)
    (core_running c) (core_checks c).

Definition new_EngineCore (e : E) (arrivals : list (list InMessage)) : EngineCore :=
  {| core_engine := e; core_queued := []; core_arrivals := arrivals; core_output := [];
     core_running := true; core_checks := 0 |}.

Definition on_engine {A} (m : M E A) : M EngineCore A :=
  zoom core_engine (fun e c => c <| core_engine := e |>) m.

(** [self.output.send_pyobj]: no high-water mark, so it never blocks. *)
Definition core_send (m : OutMessage) : M EngineCore unit :=
  modify (fun c => c <| core_output ::= fun l => l ++ [m] |>).

(** ** The input socket *)

Definition arrive (c : EngineCore) : EngineCore :=
  match core_arrivals c with
  | [] => c
  | ms :: rest => c <| core_queued ::= fun q => q ++ ms |> <| core_arrivals := rest |>
  end.

(** [self.input.poll(ms)]. *)
Definition input_poll : M EngineCore bool :=
  modify arrive;;; gets (fun c => negb (bool_decide (core_queued c = []))).

(** [self.input.recv_pyobj(zmq.NOBLOCK)]: [None] for [zmq.Again]. *)
Definition input_recv : M EngineCore (option InMessage) :=
  modify arrive;;;
  let! q := gets core_queued in
  match q with
  | [] => ret None
  | m :: q' => modify (fun c => c <| core_queued := q' |>);;; ret (Some m)
  end.

(** ** The loop *)

(** [_handle]. *)
Definition core_handle (m : InMessage) : M EngineCore unit :=
  match m with
  | MsgAdd rid prompt sp =>
      let! error := try_except (on_engine (eng_add_request prompt sp rid);;; ret None) (fun e =>
        match e with
        | InvalidRequest _ | DuplicateRequestId _ => ret (Some e)
        | e => if is_Exception e then ret (Some (picklable e)) else raise e
        end) in
      core_send (OutAdded rid error)
  | MsgAbort rid reason => on_engine (eng_abort_request rid reason);;; ret tt
  | MsgMetrics call =>
      let! e := gets core_engine in core_send (OutMetrics call (eng_render_metrics e))
  | MsgShutdown => modify (fun c => c <| core_running := false |>)
  | MsgUnknown kind => raise (ValueError ("unknown message " +:+ kind))
  end.

(** Wait for a message, or for the parent to be gone; [true] when there is a
    message. *)
Fixpoint wait_input (fuel : nat) : M EngineCore bool :=
  match fuel with
  | O => raise OutOfFuel
  | S fuel' =>
      let! there := input_poll in
      if there : bool then ret true else
        let! n := gets core_checks in
        modify (fun c => c <| core_checks := S n |>);;;
        if parent_gone n
        then modify (fun c => c <| core_running := false |>);;; ret false
        else wait_input fuel'
  end.

(** [while self.running: recv; handle], until the socket is empty. *)
Definition drain (fuel : nat) : M EngineCore unit :=
  while_ fuel core_running
    (let! m := input_recv in
     match m with
     | None => ret false
     | Some m => core_handle m;;; ret true
     end).

(** [_handle_inputs]. *)
Definition handle_inputs (fuel : nat) (wait_ms : option Z) : M EngineCore unit :=
  let! go :=
    match wait_ms with
    | None => wait_input fuel
    | Some ms => if (ms =? 0)%Z then ret true else input_poll
    end in
  if go : bool then drain fuel else ret tt.

(** One iteration of [run]'s loop. *)
Definition run_once (fuel : nat) : M EngineCore unit :=
  let! e := gets core_engine in
  handle_inputs fuel (if eng_is_finished e then None else Some 0%Z);;;
  let! c := gets id in
  if negb (core_running c) || eng_is_finished (core_engine c) then ret tt else
  let! (outputs, num_prefill, num_decode) := on_engine eng_step in
  when (negb (bool_decide (outputs = []))) (core_send (OutOutputs outputs));;;
  when (bool_decide (outputs = []) && (num_prefill =? 0)%Z && (num_decode =? 0)%Z)
    (handle_inputs fuel (Some IDLE_POLL_MS)).

Definition core_run (fuel : nat) : M EngineCore unit :=
  while_ fuel core_running (run_once fuel;;; ret true).

(** [run_engine_core]: what the process reports of its start, then the core it
    leaves; a [SystemExit] ends it quietly, another exception is its last
    message. *)
Inductive Startup := Ready | Failed (error : exn).

Definition run_engine_core (fuel : nat) (factory : exn + E) (arrivals : list (list InMessage)) :
    Startup * option EngineCore :=
  match factory with
  | inl e => (Failed (picklable e), None)
  | inr e =>
      match core_run fuel (new_EngineCore e arrivals) with
      | (inr _, c) | (inl SystemExit, c) => (Ready, Some c)
      | (inl x, c) => (Ready, Some (core_send (OutDead (picklable x)) c).2)
      end
  end.

(** ** Every request is answered once, in order *)

(** The messages the core has not taken yet. *)
Definition pending (c : EngineCore) : list InMessage := core_queued c ++ concat (core_arrivals c).

Definition adds (ms : list InMessage) : list string :=
  omap (fun m => match m with MsgAdd rid _ _ => Some rid | _ => None end) ms.
Definition acks (ms : list OutMessage) : list string :=
  omap (fun m => match m with OutAdded rid _ => Some rid | _ => None end) ms.
Definition metrics_calls (ms : list InMessage) : list nat :=
  omap (fun m => match m with MsgMetrics n => Some n | _ => None end) ms.
Definition metrics_replies (ms : list OutMessage) : list nat :=
  omap (fun m => match m with OutMetrics n _ => Some n | _ => None end) ms.

Definition is_dead (m : OutMessage) : bool := match m with OutDead _ => true | _ => false end.

(** [sent] acknowledges the adds of [taken], replies to its calls, and has no
    death notice. *)
Definition Answers (taken : list InMessage) (sent : list OutMessage) : Prop :=
  acks sent = adds taken /\ metrics_replies sent = metrics_calls taken /\
  Forall (fun m => is_dead m = false) sent.

(** However [m] ends, it has answered exactly the messages it took. *)
Definition proto {A} (m : M EngineCore A) : Prop := forall c r c', m c = (r, c') ->
  exists taken sent, pending c = taken ++ pending c' /\
    core_output c' = core_output c ++ sent /\ Answers taken sent.

Lemma answers_nil : Answers [] [].
Proof. by unfold Answers. Qed.

Lemma answers_app t1 t2 s1 s2 : Answers t1 s1 -> Answers t2 s2 -> Answers (t1 ++ t2) (s1 ++ s2).
Proof.
  intros (Ha & Hm & Hd) (Ha' & Hm' & Hd').
  unfold Answers, acks, adds, metrics_calls, metrics_replies in *.
  rewrite !omap_app, Ha, Ha', Hm, Hm'. by split_and!; [| | apply Forall_app_2].
Qed.

Lemma proto_quiet {A} (m : M EngineCore A) :
  (forall c r c', m c = (r, c') -> pending c' = pending c /\ core_output c' = core_output c) -> proto m.
Proof.
  intros Hq c r c' Hm. destruct (Hq _ _ _ Hm) as [Hp Ho]. exists [], [].
  by rewrite Hp, Ho, app_nil_r.
Qed.

Lemma proto_ret {A} (a : A) : proto (ret a).
Proof. apply proto_quiet. by intros c r c' [= <- <-]. Qed.

Lemma proto_raise {A} e : proto (raise (A := A) e).
Proof. apply proto_quiet. by intros c r c' [= <- <-]. Qed.

Lemma proto_gets {A} (f : EngineCore -> A) : proto (gets f).
Proof. apply proto_quiet. by intros c r c' [= <- <-]. Qed.

Lemma proto_engine {A} (m : M E A) : proto (on_engine m).
Proof.
  apply proto_quiet. unfold on_engine, zoom. intros c r c'.
  destruct (m (core_engine c)) as [x e]. by intros [= <- <-].
Qed.

Lemma proto_bind {A B} (m : M EngineCore A) (k : A -> M EngineCore B) :
  proto m -> (forall a, proto (k a)) -> proto (bind m k).
Proof.
  intros Hm Hk c r c'. unfold bind. destruct (m c) as [[e|a] c1] eqn:H1.
  - intros [= <- <-]. by eapply Hm.
  - intros H2. destruct (Hm _ _ _ H1) as (t1 & s1 & Hp1 & Ho1 & Ha1).
    destruct (Hk a _ _ _ H2) as (t2 & s2 & Hp2 & Ho2 & Ha2).
    exists (t1 ++ t2), (s1 ++ s2). rewrite Hp1, Hp2, Ho2, Ho1, !app_assoc.
    eauto using answers_app.
Qed.

Lemma proto_while fuel cond body : proto body -> proto (while_ fuel cond body).
Proof.
  intros Hb. induction fuel as [|fuel IH]; simpl; [apply proto_raise|].
  apply proto_bind; [apply proto_gets|]. intros []; [|apply proto_ret].
  apply proto_bind; [done|]. intros []; [done | apply proto_ret].
Qed.

Lemma pending_arrive c : pending (arrive c) = pending c.
Proof.
  unfold arrive, pending. destruct (core_arrivals c) eqn:Ha; [by rewrite Ha|].
  simpl. by rewrite <-app_assoc.
Qed.

Lemma arrive_output c : core_output (arrive c) = core_output c.
Proof. unfold arrive. by destruct (core_arrivals c). Qed.

Lemma arrive_running c : core_running (arrive c) = core_running c.
Proof. unfold arrive. by destruct (core_arrivals c). Qed.

Lemma proto_poll : proto input_poll.
Proof.
  apply proto_quiet. unfold input_poll, modify, gets, bind. intros c r c' [= <- <-].
  by rewrite pending_arrive, arrive_output.
Qed.

(** Taking a message off the socket. *)
Lemma input_recv_eq c :
  input_recv c =
  match core_queued (arrive c) with
  | [] => (inr None, arrive c)
  | m :: q => (inr (Some m), (arrive c) <| core_queued := q |>)
  end.
Proof. unfold input_recv, bind, modify, gets, ret. by destruct (core_queued (arrive c)). Qed.

Lemma core_handle_answers `{!EngineOpsLaws E} m c r c' : core_handle m c = (r, c') ->
  pending c' = pending c /\
  exists sent, core_output c' = core_output c ++ sent /\ Answers [m] sent.
Proof.
  destruct m as [rid prompt sp|rid reason|n| |kind]; simpl; unfold Answers; simpl.
  - unfold try_except, bind, on_engine, zoom, core_send, modify, ret, raise. simpl.
    destruct (eng_add_request prompt sp rid (core_engine c)) as [[x|b] e'] eqn:Ha.
    + pose proof (eng_add_raises _ _ _ _ _ _ Ha) as Hx.
      destruct x; simpl in *; try discriminate Hx; intros [= <- <-];
        (split; [done|]; eexists [_]; split; [done|]; split_and!; [done | done | by constructor]).
    + intros [= <- <-]. split; [done|]; eexists [_]; split; [done|]; split_and!; [done | done | by constructor].
  - unfold on_engine, bind, zoom, ret. destruct (eng_abort_request _ _ _) as [[x|b] e'];
      intros [= <- <-]; (split; [done|]); exists []; rewrite app_nil_r; by eauto.
  - unfold core_send, bind, gets, modify. intros [= <- <-].
    split; [done|]; eexists [_]; split; [done|]; split_and!; [done | done | by constructor].
  - unfold modify. intros [= <- <-]. split; [done|]. exists []. rewrite app_nil_r. by eauto.
  - unfold raise. intros [= <- <-]. split; [done|]. exists []. rewrite app_nil_r. by eauto.
Qed.

Lemma proto_drain `{!EngineOpsLaws E} fuel : proto (drain fuel).
Proof.
  apply proto_while. intros c r c'. unfold bind at 1. rewrite input_recv_eq.
  pose proof (pending_arrive c) as Hp. pose proof (arrive_output c) as Ho.
  unfold pending in Hp at 1. destruct (core_queued (arrive c)) as [|m q] eqn:Hq.
  - intros [= <- <-]. exists [], [].
    rewrite pending_arrive, arrive_output, app_nil_r. by eauto using answers_nil.
  - unfold bind. set (c1 := (arrive c) <| core_queued := q |>).
    assert (Hc1 : pending c = m :: pending c1) by (rewrite <-Hp; done).
    destruct (core_handle m c1) as [x c2] eqn:Hh. intros Hc'.
    assert (c' = c2) as -> by (by destruct x; injection Hc' as [=]).
    destruct (core_handle_answers _ _ _ _ Hh) as (Hp2 & sent & Ho2 & Ha).
    exists [m], sent. by rewrite Hc1, Hp2, Ho2, <-Ho.
Qed.

Lemma proto_wait fuel : proto (wait_input fuel).
Proof.
  induction fuel as [|fuel IH]; simpl; [apply proto_raise|].
  apply proto_bind; [apply proto_poll|]. intros []; [apply proto_ret|].
  apply proto_bind; [apply proto_gets|]. intros n.
  apply proto_bind; [apply proto_quiet; by intros ??? [= <- <-]|]. intros _.
  destruct (parent_gone n); [|done].
  apply proto_bind; [apply proto_quiet; by intros ??? [= <- <-]|]. intros _. apply proto_ret.
Qed.

Lemma proto_handle_inputs `{!EngineOpsLaws E} fuel w : proto (handle_inputs fuel w).
Proof.
  apply proto_bind.
  - destruct w as [ms|]; [|apply proto_wait]. destruct (ms =? 0)%Z; [apply proto_ret | apply proto_poll].
  - intros []; [apply proto_drain | apply proto_ret].
Qed.

Lemma proto_run_once `{!EngineOpsLaws E} fuel : proto (run_once fuel).
Proof.
  apply proto_bind; [apply proto_gets|]. intros e.
  apply proto_bind; [apply proto_handle_inputs|]. intros _.
  apply proto_bind; [apply proto_gets|]. intros c.
  destruct (_ || _); [apply proto_ret|].
  apply proto_bind; [apply proto_engine|]. intros [[outs np] nd].
  apply proto_bind.
  - destruct (negb _); [|apply proto_ret]. intros c1 r c1' [= <- <-].
    exists [], [OutOutputs outs]. unfold Answers. split_and!; try done. by constructor.
  - intros _. destruct (_ && _); [apply proto_handle_inputs | apply proto_ret].
Qed.

Lemma proto_run `{!EngineOpsLaws E} fuel : proto (core_run fuel).
Proof.
  apply proto_while, proto_bind; [apply proto_run_once | intros; apply proto_ret].
Qed.

(** ** A shutdown ends the loop *)

(** The engine's methods return from every state satisfying [EI], given
    sampling parameters that [SamplingParams.__post_init__] accepts. *)
Definition EngineSafe (EI : E -> Prop) (sp_ok : SamplingParams -> Prop) : Prop :=
  (forall prompt sp rid e, EI e -> sp_ok sp ->
     exists r e', eng_add_request prompt sp rid e = (r, e') /\ EI e') /\
  (forall rid reason e, EI e -> wp (eng_abort_request rid reason) e (fun _ e' => EI e')) /\
  (forall e, EI e -> eng_is_finished e = false -> wp eng_step e (fun _ e' => EI e')).

Section Shutdown.
Context `{!EngineOpsLaws E}.
Variable EI : E -> Prop.
Variable sp_ok : SamplingParams -> Prop.
Hypothesis safe : EngineSafe EI sp_ok.

Definition is_shutdown (m : InMessage) : bool := match m with MsgShutdown => true | _ => false end.

(** The client sends no other messages. *)
Definition known (m : InMessage) : Prop :=
  match m with MsgUnknown _ => False | MsgAdd _ _ sp => sp_ok sp | _ => True end.

(** The loop has stopped, or the shutdown is still to be taken. *)
Definition Stopping (c : EngineCore) : Prop :=
  EI (core_engine c) /\ Forall known (pending c) /\
  (core_running c = false \/ MsgShutdown ∈ pending c).

Lemma arrive_engine c : core_engine (arrive c) = core_engine c.
Proof. unfold arrive. by destruct (core_arrivals c). Qed.

Lemma stopping_arrive c : Stopping c -> Stopping (arrive c).
Proof. unfold Stopping. by rewrite pending_arrive, arrive_engine, arrive_running. Qed.

(** Handling a known message returns, and leaves the sockets alone. *)
Lemma core_handle_returns m c : EI (core_engine c) -> known m ->
  wp (core_handle m) c (fun _ c' => EI (core_engine c') /\ core_queued c' = core_queued c /\
    core_arrivals c' = core_arrivals c /\
    core_running c' = (if is_shutdown m then false else core_running c)).
Proof.
  destruct safe as (Hadd & Habort & _). intros Hc Hm.
  destruct m as [rid prompt sp|rid reason|n| |kind]; simpl; [| | done | done | done].
  - destruct (Hadd prompt sp rid _ Hc Hm) as (r & e' & Ha & He').
    unfold wp, try_except, bind, on_engine, zoom, core_send, modify, ret, raise. rewrite Ha.
    destruct r as [x|b]; [|done]. pose proof (eng_add_raises _ _ _ _ _ _ Ha).
    by destruct x.
  - wp_step. apply wp_zoom. eapply wp_mono; [by apply Habort|]. intros b e' He'. by wp_step.
Qed.

Lemma stopping_taken c m q : core_queued c = m :: q -> Stopping c ->
  wp (core_handle m) (c <| core_queued := q |>) (fun _ c' => Stopping c' /\
    core_arrivals c' = core_arrivals c /\ S (length (pending c')) = length (pending c)).
Proof.
  intros Hq (He & Hk & Hs). unfold pending in *. rewrite Hq in *. simpl in *.
  apply Forall_cons in Hk as [Hm Hk].
  eapply wp_mono; [by apply core_handle_returns|]. simpl. intros [] c' (He' & Hq' & Ha' & Hr').
  unfold Stopping, pending. rewrite Hq', Ha', Hr'. split_and!; [done | done | | done | done].
  destruct (is_shutdown m) eqn:Hd; [by left|]. destruct Hs as [Hs|Hs]; [by left|right].
  by apply elem_of_cons in Hs as [<-|Hs].
Qed.

(** Emptying the socket: the loop stops, or a batch of arrivals was taken. *)
Lemma drain_stops fuel c : Stopping c -> length (pending c) < fuel ->
  wp (drain fuel) c (fun _ c' => Stopping c' /\ length (pending c') <= length (pending c) /\
    length (core_arrivals c') <= length (core_arrivals c) /\
    (core_running c' = true -> length (core_arrivals c') < length (core_arrivals c))).
Proof.
  intros Hc Hfuel. unfold drain.
  eapply wp_while with (mu := fun c => length (pending c))
    (I := fun c' => Stopping c' /\ length (pending c') <= length (pending c) /\
                    length (core_arrivals c') <= length (core_arrivals c));
    [done | exact Hfuel | |].
  { intros c' (? & ? & ?) Hr. rewrite Hr. naive_solver. }
  intros c' (Hs & Hp & Ha) Hr. apply wp_bind. unfold wp at 1. rewrite input_recv_eq.
  apply stopping_arrive in Hs. pose proof (pending_arrive c') as Hpa.
  assert (length (core_arrivals (arrive c')) <= length (core_arrivals c')) as Hle
    by (unfold arrive; destruct (core_arrivals c') eqn:E'; [rewrite E'|]; simpl; lia).
  destruct (core_queued (arrive c')) as [|m q] eqn:Hq.
  - wp_step. rewrite Hpa. split; [done|]. split; [done|]. split; [lia|].
    destruct Hs as (_ & _ & [Hs|Hs]); [by rewrite Hs|]. intros _.
    unfold pending in Hs. rewrite Hq in Hs.
    unfold arrive in *. destruct (core_arrivals c') as [|b bs] eqn:Ea; simpl in *; [|lia].
    rewrite Ea in Hs. by apply not_elem_of_nil in Hs.
  - wp_step. eapply wp_mono; [by apply stopping_taken|]. intros [] c2 (Hs2 & Ha2 & Hl2).
    wp_step. rewrite Ha2. rewrite Hpa in Hl2. split_and!; [done | lia | lia | lia].
Qed.

Lemma wait_returns fuel c : Stopping c -> core_running c = true ->
  length (core_arrivals c) < fuel ->
  wp (wait_input fuel) c (fun _ c' => Stopping c' /\ pending c' = pending c /\
    length (core_arrivals c') <= length (core_arrivals c)).
Proof.
  revert c. induction fuel as [|fuel IH]; [lia|]. intros c Hc Hr Hf. simpl.
  unfold input_poll. wp_steps. pose proof (pending_arrive c) as Hp.
  pose proof (stopping_arrive _ Hc) as Hca.
  assert (length (core_arrivals (arrive c)) <= length (core_arrivals c)) as Hle
    by (unfold arrive; destruct (core_arrivals c) eqn:E'; [rewrite E'|]; simpl; lia).
  case_bool_decide as Hq; cbn [negb]; [|by wp_step].
  wp_steps. destruct (parent_gone _).
  - wp_steps. unfold Stopping, pending in *. simpl in *. rewrite arrive_engine in *. naive_solver.
  - unfold arrive in *. destruct (core_arrivals c) as [|b bs] eqn:Ea.
    { destruct Hc as (_ & _ & [Hc|Hc]); [congruence|]. unfold pending in Hc.
      rewrite Hq, Ea in Hc. by apply not_elem_of_nil in Hc. }
    eapply wp_mono; [apply IH|].
    + destruct Hca as (? & ? & ?). by split_and!.
    + done.
    + simpl in *. lia.
    + intros _ c' (? & Hp' & Hl). simpl in *. split_and!; [done | | lia].
      rewrite Hp'. unfold pending in *. simpl in *. by rewrite <-Hp.
Qed.

(** A wait that sees no message has stopped the loop. *)
Lemma wait_false fuel c c' : wait_input fuel c = (inr false, c') -> core_running c' = false.
Proof.
  revert c. induction fuel as [|fuel IH]; intros c; simpl; [done|].
  unfold bind, input_poll, bind, gets, modify, ret. destruct (negb _); [done|].
  destruct (parent_gone _); [by intros [= <-] | by apply IH].
Qed.

(** What is left to take and to arrive is not more than in [c]. *)
Definition Less (c c' : EngineCore) : Prop :=
  Stopping c' /\ length (pending c') <= length (pending c) /\
  length (core_arrivals c') <= length (core_arrivals c).

Lemma poll_returns c : Stopping c ->
  wp input_poll c (fun _ c' => Stopping c' /\ pending c' = pending c /\
    length (core_arrivals c') <= length (core_arrivals c)).
Proof.
  intros Hc. unfold input_poll. wp_steps. rewrite pending_arrive.
  split_and!; [by apply stopping_arrive | done |].
  unfold arrive. destruct (core_arrivals c) eqn:Ea; [by rewrite Ea | simpl; lia].
Qed.

Lemma handle_inputs_stops fuel c : Stopping c -> core_running c = true ->
  length (pending c) < fuel -> length (core_arrivals c) < fuel ->
  forall w : bool, wp (handle_inputs fuel (if w then None else Some 0%Z)) c (fun _ c' =>
    Less c c' /\ (core_running c' = true -> length (core_arrivals c') < length (core_arrivals c))).
Proof.
  intros Hc Hr Hp Ha w. unfold handle_inputs. wp_step.
  eapply wp_mono with (P := fun go c1 => Stopping c1 /\ pending c1 = pending c /\
    length (core_arrivals c1) <= length (core_arrivals c) /\ (go = false -> core_running c1 = false)).
  { destruct w; [|simpl; wp_step; naive_solver].
    pose proof (wait_returns fuel c Hc Hr Ha) as Hw. revert Hw. unfold wp.
    destruct (wait_input fuel c) as [[x|go] c1] eqn:Hgo; [done|]. intros (? & ? & ?).
    split_and!; [done | done | done | intros ->; by eapply wait_false]. }
  intros [] c1 (Hc1 & Hp1 & Ha1 & Hf).
  - wp_call drain_stops; [done | by rewrite Hp1|]. intros _ c2 (? & ? & ? & ?).
    rewrite Hp1 in *. unfold Less. naive_solver lia.
  - wp_step. rewrite Hf by done. unfold Less. rewrite Hp1. naive_solver.
Qed.

Lemma run_once_stops fuel c : Stopping c -> core_running c = true ->
  length (pending c) < fuel -> length (core_arrivals c) < fuel ->
  wp (run_once fuel) c (fun _ c' => Less c c' /\
    (core_running c' = true -> length (core_arrivals c') < length (core_arrivals c))).
Proof.
  intros Hc Hr Hp Ha. unfold run_once. wp_steps. wp_call handle_inputs_stops; [done..|].
  intros _ c1 (Hl1 & Hs1). wp_steps. unfold id.
  destruct (core_running c1) eqn:Hr1, (eng_is_finished (core_engine c1)) eqn:Hf;
    cbn [negb orb]; try by wp_step; rewrite ?Hr1.
  destruct Hl1 as (Hc1 & Hp1 & Ha1). wp_steps. pose proof Hc1 as (He1 & Hk1 & Hm1).
  destruct safe as (_ & _ & Hstep). unfold on_engine. wp_steps.
  eapply wp_mono; [by apply Hstep|]. intros [[outs np] nd] e' He'. wp_steps.
  eapply wp_mono with (P := fun _ c2 => Stopping c2 /\ pending c2 = pending c1 /\
    core_arrivals c2 = core_arrivals c1).
  { apply wp_when; intros _; unfold core_send; wp_steps; done. }
  intros _ c2 (Hc2 & Hp2 & Ha2). apply wp_when; intros _; [|unfold Less; rewrite Hp2, Ha2; naive_solver].
  unfold handle_inputs. cbn [Z.eqb]. wp_step. wp_call poll_returns; [done|].
  intros [] c3 (Hc3 & Hp3 & Ha3); [|wp_step; unfold Less; rewrite Hp3, Hp2; rewrite Ha2 in *; naive_solver lia].
  wp_call drain_stops; [done | rewrite Hp3, Hp2; lia|]. intros _ c4 (? & ? & ? & ?).
  rewrite Hp3, Hp2 in *. rewrite Ha2 in *. unfold Less. naive_solver lia.
Qed.

(** The loop returns once the shutdown is taken: the fuel is the iterations,
    one per batch of arrivals at most. *)
Lemma core_run_stops fuel c : Stopping c -> core_running c = true ->
  length (pending c) < fuel -> S (length (core_arrivals c)) < fuel ->
  wp (core_run fuel) c (fun _ c' => core_running c' = false).
Proof.
  intros Hc Hr Hp Ha. unfold core_run.
  eapply wp_while with (mu := fun c => if core_running c then S (length (core_arrivals c)) else 0)
    (I := fun c' => Less c c'); [by unfold Less | rewrite Hr; lia | done |].
  intros c' (Hc' & Hp' & Ha') Hr'. wp_step. wp_call run_once_stops; [done | done | lia | lia|].
  intros _ c2 ((? & ? & ?) & Hs). wp_step. rewrite Hr'. split; [unfold Less; split_and!; [done|lia|lia]|].
  destruct (core_running c2); [specialize (Hs eq_refl); lia | lia].
Qed.
End Shutdown.
End Core.
