(* ===== verification/CoreClient.v ===== *)
(** * The client of the engine core

    [engine/core_client.py]: the futures of the calls in flight, the queue of
    outputs, and what fails them when the core dies or the server stops. The
    futures live in a store, by address, as a caller and the client share them;
    a coroutine is split at its await, into what it runs before and after. *)

From S2P Require Import Prelude Output OutputProcessor Core.

(** ** Futures *)

Inductive FutureValue := AddedValue (error : option exn) | TextValue (text : string).

Inductive Future := FutPending | FutDone (v : FutureValue) | FutFailed (e : exn) | FutCancelled.

Definition fut_done (f : Future) : bool := match f with FutPending => false | _ => true end.

(** Give a future its outcome, unless it has one. *)
Definition settle (a : nat) (outcome : Future) (fs : list Future) : list Future :=
  alter (fun f => if fut_done f then f else outcome) a fs.

(** An [EngineDeadError] with its [__cause__]. *)
Record Dead := { dead_message : string; dead_cause : option exn }.

Definition SHUTTING_DOWN : exn := EngineDeadError "the server is shutting down".

(** What stopping the core process does, in order. *)
Inductive ProcAction := AskShutdown | Join (seconds : option Qc) | Terminate | Kill | DestroyContext.

(** ** State *)

Record AsyncMPClient := {
  cl_error : option exn;
  cl_outputs : list (list RequestOutput + Dead);
  cl_adding : gmap string nat;
  cl_calls : gmap nat nat;
  cl_next_call : nat;
  cl_stopped : bool;
  cl_started : bool;
  cl_reading : bool;
  cl_futures : list Future;
  cl_sent : list InMessage;
  cl_connected : bool;
  cl_open : bool
}.

#[export] Instance eta_AsyncMPClient : Eta AsyncMPClient := fun c =>
  Build_AsyncMPClient (cl_error c) (cl_outputs c) (cl_adding c) (cl_calls c) (cl_next_call c)
    (cl_stopped c) (cl_started c) (cl_reading c) (cl_futures c) (cl_sent c) (cl_connected c) (cl_open c).

(** [__init__], once the core is ready and connected. *)
Definition new_AsyncMPClient : AsyncMPClient :=
  {| cl_error := None; cl_outputs := []; cl_adding := ∅; cl_calls := ∅; cl_next_call := 0;
     cl_stopped := false; cl_started := false; cl_reading := false; cl_futures := [];
     cl_sent := []; cl_connected := true; cl_open := true |}.

(** How the start ends: the core's status, or none if it died first. *)
Definition connect_core (status : option Startup) (exitcode : string) (peer : bool) : exn + AsyncMPClient :=
  match status with
  | Some Ready =>
      if peer then inr new_AsyncMPClient
      else inl (RuntimeError "the engine core started but never connected")
  | _ => inl (RuntimeError ("the engine core failed to start (exit code " +:+ exitcode +:+ ")"))
  end.

Section Client.
Variable repr_exn : exn -> string.

Definition dead_error (prefix : string) (e : exn) : Dead :=
  {| dead_message := prefix +:+ ": " +:+ repr_exn e; dead_cause := Some e |}.

Definition died (e : exn) : Dead := dead_error "the engine core died" e.

Definition raise_dead {S A} (d : Dead) : M S A := raise (EngineDeadError (dead_message d)).

(** ** Failing what waits *)

(** [_fail_pending]. *)
Definition fail_pending (e : exn) (c : AsyncMPClient) : AsyncMPClient :=
  let waiting := (map_to_list (cl_adding c)).*2 ++ (map_to_list (cl_calls c)).*2 in
  c <| cl_futures ::= fun fs => foldr (fun a fs => settle a (FutFailed e) fs) fs waiting |>
    <| cl_adding := ∅ |> <| cl_calls := ∅ |>.

(** [_die]. *)
Definition client_die (e : exn) (c : AsyncMPClient) : AsyncMPClient :=
  match cl_error c with
  | Some _ => c
  | None =>
      let c := fail_pending (EngineDeadError (dead_message (died e))) (c <| cl_error := Some e |>) in
      c <| cl_outputs ::= fun l => l ++ [inr (died e)] |>
  end.

(** [_send]. *)
Definition client_send (m : InMessage) : M AsyncMPClient unit :=
  let! c := gets id in
  if negb (cl_open c) then raise (ExternalError "ZMQError")
  else if cl_connected c then modify (fun c => c <| cl_sent ::= fun l => l ++ [m] |>)
  else modify (client_die (RuntimeError "the engine core is not connected")).

(** ** Calls *)

(** [start]. *)
Definition client_start (c : AsyncMPClient) : AsyncMPClient :=
  c <| cl_started := true |> <| cl_reading := true |>.

Definition create_future : M AsyncMPClient nat :=
  let! a := gets (fun c => length (cl_futures c)) in
  modify (fun c => c <| cl_futures ::= fun l => l ++ [FutPending] |>);;;
  ret a.

(** [add_request_async], to its await: the future it waits for. *)
Definition add_begin (rid : string) (prompt : list Z) (sp : SamplingParams) : M AsyncMPClient nat :=
  let! c := gets id in
  if cl_stopped c then raise SHUTTING_DOWN else
  match cl_error c with
  | Some e => raise_dead (died e)
  | None =>
      assert_ (cl_started c) "";;;
      let! a := create_future in
      modify (fun c => c <| cl_adding ::= <[rid := a]> |>);;;
      client_send (MsgAdd rid prompt sp);;;
      ret a
  end.

(** ... and from it, with the outcome of the await. *)
Definition add_end (rid : string) (outcome : Future) : M AsyncMPClient unit :=
  match outcome with
  | FutDone (AddedValue None) => ret tt
  | FutDone (AddedValue (Some e)) => raise e
  | FutDone (TextValue _) | FutPending => raise TypeError
  | FutFailed e => modify (fun c => c <| cl_adding ::= delete rid |>);;; raise e
  | FutCancelled => modify (fun c => c <| cl_adding ::= delete rid |>);;; raise CancelledError
  end.

(** [abort_request]. *)
Definition client_abort_request (rid reason : string) : M AsyncMPClient unit :=
  let! c := gets id in
  if bool_decide (is_Some (cl_error c)) || cl_stopped c then ret tt
  else client_send (MsgAbort rid reason).

(** [get_output_async]: [None] while the queue is empty. *)
Definition get_output : M AsyncMPClient (option (list RequestOutput + Dead)) :=
  let! q := gets cl_outputs in
  match q with
  | [] => ret None
  | x :: q' => modify (fun c => c <| cl_outputs := q' |>);;; ret (Some x)
  end.

(** [render_metrics_async], to its await and from it. *)
Definition metrics_begin : M AsyncMPClient (nat * nat) :=
  let! c := gets id in
  match cl_error c with
  | Some e => raise_dead (died e)
  | None =>
      let n := cl_next_call c in
      modify (fun c => c <| cl_next_call := S n |>);;;
      assert_ (cl_started c) "";;;
      let! a := create_future in
      modify (fun c => c <| cl_calls ::= <[n := a]> |>);;;
      client_send (MsgMetrics n);;;
      ret (n, a)
  end.

Definition metrics_end (call : nat) (outcome : Future) : M AsyncMPClient string :=
  modify (fun c => c <| cl_calls ::= delete call |>);;;
  match outcome with
  | FutDone (TextValue text) => ret text
  | FutFailed e => raise e
  | FutCancelled => raise CancelledError
  | FutDone (AddedValue _) | FutPending => raise TypeError
  end.

(** ** The core's messages *)

(** [_handle]: [false] on a death notice. *)
Definition client_handle (m : OutMessage) (c : AsyncMPClient) : bool * AsyncMPClient :=
  match m with
  | OutOutputs outs => (true, c <| cl_outputs ::= fun l => l ++ [inl outs] |>)
  | OutAdded rid error =>
      match cl_adding c !! rid with
      | None => (true, c)
      | Some a => (true, c <| cl_adding ::= delete rid |> <| cl_futures ::= settle a (FutDone (AddedValue error)) |>)
      end
  | OutMetrics call text =>
      match cl_calls c !! call with
      | None => (true, c)
      | Some a => (true, c <| cl_futures ::= settle a (FutDone (TextValue text)) |>)
      end
  | OutDead e => (false, client_die e c)
  end.

(** [_read_outputs], on the messages at hand. *)
Fixpoint read_outputs (ms : list OutMessage) (c : AsyncMPClient) : AsyncMPClient :=
  match ms with
  | [] => c
  | m :: ms' =>
      let (go, c') := client_handle m c in
      if go then read_outputs ms' c' else c' <| cl_reading := false |>
  end.

(** ... when the socket or the unpickling raises [e]. *)
Definition read_failed (e : exn) (c : AsyncMPClient) : AsyncMPClient :=
  (if cl_stopped c then c else client_die e c) <| cl_reading := false |>.

(** [_on_process_exit]. *)
Definition on_process_exit (exitcode : string) (c : AsyncMPClient) : AsyncMPClient :=
  if cl_stopped c then c
  else client_die (RuntimeError ("the engine core process exited with code " +:+ exitcode)) c.

(** ** Shutdown *)

(** [_shutdown_process]: [alive n] is the answer of its [n]-th check. *)
Definition shutdown_actions (alive : nat -> bool) (shutdown_timeout : Qc) (timeout : option Qc) :
    list ProcAction :=
  (if alive 0 then [AskShutdown; Join (Some (default shutdown_timeout timeout))] else []) ++
  (if alive 1 then [Terminate; Join (Some (Qc_of_Z 5))] else []) ++
  (if alive 2 then [Kill; Join None] else []) ++ [DestroyContext].

Definition shutdown_process (alive : nat -> bool) (c : AsyncMPClient) : AsyncMPClient :=
  (if alive 0 && cl_open c && cl_connected c then c <| cl_sent ::= fun l => l ++ [MsgShutdown] |> else c)
    <| cl_open := false |>.

(** [shutdown]. *)
Definition client_shutdown (alive : nat -> bool) (c : AsyncMPClient) : AsyncMPClient :=
  if cl_stopped c then c else
  fail_pending SHUTTING_DOWN
    ((shutdown_process alive (c <| cl_stopped := true |>)) <| cl_reading := false |>).

(** ** Every pending future can still be settled *)

(** A future without an outcome is in one of the client's tables. *)
Definition Tracked (c : AsyncMPClient) : Prop :=
  forall a, cl_futures c !! a = Some FutPending ->
    (exists rid, cl_adding c !! rid = Some a) \/ (exists n, cl_calls c !! n = Some a).

(** No future loses its outcome or its place, and a new one has a new place. *)
Definition Settles (c c' : AsyncMPClient) : Prop :=
  length (cl_futures c) <= length (cl_futures c') /\
  forall a f, cl_futures c !! a = Some f -> fut_done f = true -> cl_futures c' !! a = Some f.

Lemma Settles_refl c : Settles c c.
Proof. by split. Qed.

Lemma Settles_trans c1 c2 c3 : Settles c1 c2 -> Settles c2 c3 -> Settles c1 c3.
Proof. intros [? H1] [? H2]. split; [lia|]. intros a f Hf Hd. eauto. Qed.

Lemma settle_lookup a b o fs f : settle a o fs !! b = Some f ->
  (fs !! b = Some f /\ (a = b -> fut_done f = true)) \/
  (a = b /\ f = o /\ exists g, fs !! b = Some g /\ fut_done g = false).
Proof.
  unfold settle. intros Hf. destruct (decide (a = b)) as [->|Hne].
  - rewrite list_lookup_alter, decide_True in Hf by done. apply fmap_Some in Hf as (g & Hg & ->).
    destruct (fut_done g) eqn:Hd; [left|right]; naive_solver.
  - rewrite list_lookup_alter_ne in Hf by done. by left.
Qed.

Lemma settle_keeps a o fs b f : fs !! b = Some f -> fut_done f = true -> settle a o fs !! b = Some f.
Proof.
  intros Hf Hd. unfold settle. destruct (decide (a = b)) as [->|Hne].
  - rewrite list_lookup_alter, decide_True, Hf by done. simpl. by rewrite Hd.
  - by rewrite list_lookup_alter_ne.
Qed.

Lemma settle_length a o fs : length (settle a o fs) = length fs.
Proof. apply length_alter. Qed.

Lemma settle_all_lookup l o fs b f : fut_done o = true ->
  foldr (fun a fs => settle a o fs) fs l !! b = Some f ->
  (fs !! b = Some f \/ f = o) /\ (b ∈ l -> fut_done f = true).
Proof.
  intros Ho. revert f. induction l as [|a l IH]; intros f Hf; simpl in *.
  - split; [by left|]. by intros Hn%not_elem_of_nil.
  - apply settle_lookup in Hf as [[Hf Hd]|(-> & -> & _)].
    + destruct (IH f Hf) as [H1 H2]. split; [done|].
      intros [->|Hin]%elem_of_cons; auto.
    + split; [by right | done].
Qed.

Lemma settle_all_keeps l o fs b f : fs !! b = Some f -> fut_done f = true ->
  foldr (fun a fs => settle a o fs) fs l !! b = Some f.
Proof. intros Hf Hd. induction l as [|a l IH]; simpl; [done | by apply settle_keeps]. Qed.

Lemma settle_all_length l o fs : length (foldr (fun a fs => settle a o fs) fs l) = length fs.
Proof. induction l as [|a l IH]; simpl; [done | by rewrite settle_length]. Qed.

(** Failing what waits leaves nothing waiting. *)
Lemma fail_pending_spec e c : Tracked c ->
  let c' := fail_pending e c in
  (forall a f, cl_futures c' !! a = Some f -> fut_done f = true) /\ Settles c c' /\
  cl_adding c' = ∅ /\ cl_calls c' = ∅.
Proof.
  intros Ht. simpl. split_and!; [|split; simpl|done|done].
  - intros a f Hf. apply settle_all_lookup in Hf as [[Hf| ->] Hd]; [|done|done].
    destruct (fut_done f) eqn:Hdf; [done|]. apply Hd.
    destruct f; try discriminate Hdf. apply elem_of_app.
    destruct (Ht a Hf) as [[rid Ha]|[n Hn]]; [left|right]; apply list_elem_of_fmap.
    + exists (rid, a). split; [done|]. by apply elem_of_map_to_list.
    + exists (n, a). split; [done|]. by apply elem_of_map_to_list.
  - by rewrite settle_all_length.
  - intros a f Hf Hd. by apply settle_all_keeps.
Qed.

Lemma Tracked_done c : (forall a f, cl_futures c !! a = Some f -> fut_done f = true) -> Tracked c.
Proof. intros Hd a Ha. by specialize (Hd _ _ Ha). Qed.

Lemma client_die_spec e c : Tracked c ->
  Tracked (client_die e c) /\ Settles c (client_die e c) /\ is_Some (cl_error (client_die e c)) /\
  (cl_error c = None -> forall a f, cl_futures (client_die e c) !! a = Some f -> fut_done f = true).
Proof.
  intros Ht. unfold client_die. destruct (cl_error c) eqn:He.
  - split_and!; [done | apply Settles_refl | by rewrite He | done].
  - set (c1 := c <| cl_error := Some e |>). assert (Tracked c1) as Ht1 by done.
    destruct (fail_pending_spec (EngineDeadError (dead_message (died e))) c1 Ht1) as (Hd & Hs & _).
    split_and!; [by apply Tracked_done | exact Hs | done | by intros _].
Qed.

(** ** What every operation keeps *)

Definition deads (l : list (list RequestOutput + Dead)) : nat :=
  length (omap (fun x => match x with inr d => Some d | inl _ => None end) l).

Definition has_error (c : AsyncMPClient) : nat := match cl_error c with Some _ => 1 | None => 0 end.

Definition pending_at (a : nat) (c : AsyncMPClient) : Prop := cl_futures c !! a = Some FutPending.

Definition all_done (c : AsyncMPClient) : Prop :=
  forall a f, cl_futures c !! a = Some f -> fut_done f = true.

(** One operation of the client: futures keep their outcomes, a future still
    pending keeps its place, and the death of the core is queued once. *)
Record ClientStep (c c' : AsyncMPClient) : Prop := {
  cs_settles : Settles c c';
  cs_length : length (cl_futures c') = length (cl_futures c);
  cs_error : forall e, cl_error c = Some e -> cl_error c' = Some e;
  cs_died : cl_error c = None -> is_Some (cl_error c') -> all_done c';
  cs_tracked : Tracked c -> Tracked c';
  cs_keeps : forall r a, cl_adding c !! r = Some a -> pending_at a c -> pending_at a c' ->
    cl_adding c' !! r = Some a;
  cs_calls : forall n a, cl_calls c !! n = Some a -> pending_at a c -> pending_at a c' ->
    cl_calls c' !! n = Some a;
  cs_adding : forall r a, cl_adding c' !! r = Some a -> cl_adding c !! r = Some a;
  cs_call : forall n a, cl_calls c' !! n = Some a -> cl_calls c !! n = Some a;
  cs_next : cl_next_call c' = cl_next_call c;
  cs_stopped : cl_stopped c' = cl_stopped c;
  cs_open : cl_open c' = cl_open c;
  cs_started : cl_started c' = cl_started c;
  cs_deads : exists l, cl_outputs c' = cl_outputs c ++ l /\
    has_error c + deads l = has_error c'
}.

Lemma deads_app l1 l2 : deads (l1 ++ l2) = deads l1 + deads l2.
Proof. unfold deads. by rewrite omap_app, length_app. Qed.

Lemma ClientStep_refl c : ClientStep c c.
Proof.
  split; try done.
  - intros ->. by intros [? [=]].
  - exists []. rewrite app_nil_r. split; [done|]. unfold deads; simpl; lia.
Qed.

Lemma settles_all_done c c' : Settles c c' -> length (cl_futures c') = length (cl_futures c) ->
  all_done c -> all_done c'.
Proof.
  intros [_ Hs] Hl Hd a f Hf. destruct (cl_futures c !! a) as [g|] eqn:Hg.
  - specialize (Hd _ _ Hg). rewrite (Hs _ _ Hg Hd) in Hf. by injection Hf as <-.
  - apply lookup_ge_None in Hg. apply lookup_lt_Some in Hf. lia.
Qed.

Lemma pending_between a c1 c2 c3 : Settles c1 c2 -> Settles c2 c3 ->
  pending_at a c1 -> pending_at a c3 -> pending_at a c2.
Proof.
  unfold pending_at. intros [Hl1 _] [_ H2] Ha Hc.
  destruct (cl_futures c2 !! a) as [f|] eqn:Hf.
  - destruct f; [done|..]; by rewrite (H2 _ _ Hf) in Hc.
  - apply lookup_lt_Some in Ha. apply lookup_ge_None in Hf. lia.
Qed.

Lemma ClientStep_trans c1 c2 c3 : ClientStep c1 c2 -> ClientStep c2 c3 -> ClientStep c1 c3.
Proof.
  intros A B. pose proof (cs_settles _ _ A) as SA. pose proof (cs_settles _ _ B) as SB. split.
  - by eapply Settles_trans.
  - rewrite (cs_length _ _ B). apply A.
  - intros e He. by apply B, A.
  - intros Hn Hs. destruct (cl_error c2) eqn:He; [|by apply B].
    eapply settles_all_done; [exact SB | apply B |]. apply A; [done|]. by rewrite He.
  - intros Ht. by apply B, A.
  - intros r a Ha H1 H3. pose proof (pending_between _ _ _ _ SA SB H1 H3). apply B; [|done..]. by apply A.
  - intros r a Ha H1 H3. pose proof (pending_between _ _ _ _ SA SB H1 H3). apply B; [|done..]. by apply A.
  - intros r a Ha. by apply A, B.
  - intros r a Ha. by apply A, B.
  - rewrite (cs_next _ _ B). apply A.
  - rewrite (cs_stopped _ _ B). apply A.
  - rewrite (cs_open _ _ B). apply A.
  - rewrite (cs_started _ _ B). apply A.
  - destruct (cs_deads _ _ A) as (l1 & H1 & D1), (cs_deads _ _ B) as (l2 & H2 & D2).
    exists (l1 ++ l2). rewrite H2, H1, app_assoc, deads_app. split; [done | lia].
Qed.

(** Failing what waits, and nothing else but the error and the outputs. *)
Lemma fail_pending_step e c c' l :
  cl_futures c' = cl_futures (fail_pending e c) -> cl_adding c' = ∅ -> cl_calls c' = ∅ ->
  cl_next_call c' = cl_next_call c -> cl_stopped c' = cl_stopped c -> cl_open c' = cl_open c ->
  cl_started c' = cl_started c -> cl_error c = None ->
  cl_outputs c' = cl_outputs c ++ l -> has_error c + deads l = has_error c' ->
  Tracked c -> ClientStep c c'.
Proof.
  intros Hf Ha Hc Hn Hs Ho Hst He Hl Hd Ht.
  destruct (fail_pending_spec e c Ht) as (Hdone & Hset & _).
  assert (Hno : forall a, ~ pending_at a c').
  { unfold pending_at. intros a Hp. rewrite Hf in Hp. by specialize (Hdone _ _ Hp). }
  split; try done.
  - unfold Settles in *. by rewrite Hf.
  - rewrite Hf. apply settle_all_length.
  - intros e' He'. congruence.
  - intros _ _ a f Hfa. rewrite Hf in Hfa. by eapply Hdone.
  - intros _ a Hp. by destruct (Hno a).
  - intros r a _ _ Hp. by destruct (Hno a).
  - intros r a _ _ Hp. by destruct (Hno a).
  - intros r a. by rewrite Ha.
  - intros r a. by rewrite Hc.
  - by exists l.
Qed.

Lemma client_die_step e c : Tracked c -> ClientStep c (client_die e c).
Proof.
  intros Ht. unfold client_die. destruct (cl_error c) eqn:He; [apply ClientStep_refl|].
  eapply (fail_pending_step _ _ _ [inr (died e)]); [reflexivity..|exact He|reflexivity| |exact Ht].
  unfold has_error. by rewrite He.
Qed.

(** The futures change no more than the outputs and the sockets do. *)
Lemma quiet_step c c' :
  cl_futures c' = cl_futures c -> cl_adding c' = cl_adding c -> cl_calls c' = cl_calls c ->
  cl_next_call c' = cl_next_call c -> cl_stopped c' = cl_stopped c -> cl_open c' = cl_open c ->
  cl_started c' = cl_started c -> cl_error c' = cl_error c ->
  (exists l, cl_outputs c' = cl_outputs c ++ l /\ deads l = 0) -> ClientStep c c'.
Proof.
  intros Hf Ha Hc Hn Hs Ho Hst He (l & Hl & Hd). unfold pending_at. split; unfold Settles, Tracked, pending_at;
    rewrite ?Hf, ?Ha, ?Hc; try done.
  - by rewrite He.
  - rewrite He. intros ->. by intros [? [=]].
  - exists l. unfold has_error. rewrite He, Hd. split; [done|lia].
Qed.

Lemma client_send_step m c : cl_open c = true -> Tracked c ->
  exists c', client_send m c = (inr tt, c') /\ ClientStep c c'.
Proof.
  intros Ho Ht. unfold client_send, bind, gets, modify, id. rewrite Ho. simpl.
  destruct (cl_connected c); eexists; (split; [done|]).
  - apply quiet_step; try done. exists []. by rewrite app_nil_r.
  - by apply client_die_step.
Qed.

Lemma client_abort_step rid reason c : (cl_stopped c = false -> cl_open c = true) -> Tracked c ->
  exists c', client_abort_request rid reason c = (inr tt, c') /\ ClientStep c c'.
Proof.
  intros Ho Ht. unfold client_abort_request, bind at 1, gets, id.
  case_bool_decide; simpl; [eexists; split; [done|apply ClientStep_refl]|].
  destruct (cl_stopped c); [eexists; split; [done|apply ClientStep_refl]|].
  apply client_send_step; auto.
Qed.

(** A future that leaves its table has its outcome. *)
Lemma settled_step c c' a v :
  cl_futures c' = settle a v (cl_futures c) -> fut_done v = true ->
  (forall r b, cl_adding c' !! r = Some b -> cl_adding c !! r = Some b) ->
  (forall r b, cl_adding c !! r = Some b -> cl_adding c' !! r = Some b \/ b = a) ->
  cl_calls c' = cl_calls c ->
  cl_next_call c' = cl_next_call c -> cl_stopped c' = cl_stopped c -> cl_open c' = cl_open c ->
  cl_started c' = cl_started c -> cl_error c' = cl_error c -> cl_outputs c' = cl_outputs c ->
  ClientStep c c'.
Proof.
  intros Hf Hv Hsub Hkeep Hc Hn Hs Ho Hst He Hl.
  assert (Hp : forall b, pending_at b c' -> pending_at b c /\ b <> a).
  { unfold pending_at. intros b. rewrite Hf. intros [[Hb Hd]|(_ & <- & _)]%settle_lookup; [|done].
    split; [done|]. intros ->. by specialize (Hd eq_refl). }
  split; try done.
  - split; rewrite Hf; [by rewrite settle_length|]. intros b f. apply settle_keeps.
  - rewrite Hf. apply settle_length.
  - by rewrite He.
  - rewrite He. intros ->. by intros [? [=]].
  - intros Ht b Hb. destruct (Hp b Hb) as [Hb' Hne]. rewrite Hc.
    destruct (Ht b Hb') as [[r Hr]|?]; [|by right]. left. exists r.
    destruct (Hkeep _ _ Hr); done.
  - intros r b Hr _ Hb. destruct (Hp b Hb) as [_ Hne]. by destruct (Hkeep _ _ Hr).
  - intros n b. by rewrite Hc.
  - intros n b. by rewrite Hc.
  - exists []. unfold has_error. rewrite He, Hl, app_nil_r. split; [done | unfold deads; simpl; lia].
Qed.

Lemma client_handle_step m c : Tracked c -> ClientStep c (client_handle m c).2.
Proof.
  intros Ht. destruct m as [rid error|outs|n text|e]; simpl.
  - destruct (cl_adding c !! rid) as [a|] eqn:Ha; [|apply ClientStep_refl].
    eapply settled_step; try done; simpl.
    + intros r b. by intros [_ ?]%lookup_delete_Some.
    + intros r b Hr. destruct (decide (r = rid)) as [->|Hne]; [right; congruence|left].
      by rewrite lookup_delete_ne.
  - apply quiet_step; try done. exists [inl outs]. split; [done | by unfold deads].
  - destruct (cl_calls c !! n) as [a|] eqn:Ha; [|apply ClientStep_refl].
    eapply settled_step; try done; simpl. by left.
  - by apply client_die_step.
Qed.

Lemma reading_step b c : ClientStep c (c <| cl_reading := b |>).
Proof. apply quiet_step; try done. exists []. by rewrite app_nil_r. Qed.

Lemma read_outputs_step ms c : Tracked c -> ClientStep c (read_outputs ms c).
Proof.
  revert c. induction ms as [|m ms IH]; intros c Ht; simpl; [apply ClientStep_refl|].
  pose proof (client_handle_step m c Ht) as Hs. destruct (client_handle m c) as [go c'].
  simpl in Hs. destruct go.
  - eapply ClientStep_trans; [exact Hs|]. apply IH, Hs, Ht.
  - eapply ClientStep_trans; [exact Hs|apply reading_step].
Qed.

Lemma read_failed_step e c : Tracked c -> ClientStep c (read_failed e c).
Proof.
  intros Ht. unfold read_failed. destruct (cl_stopped c); [apply reading_step|].
  eapply ClientStep_trans; [by apply client_die_step | apply reading_step].
Qed.

Lemma process_exit_step code c : Tracked c -> ClientStep c (on_process_exit code c).
Proof.
  intros Ht. unfold on_process_exit. destruct (cl_stopped c); [apply ClientStep_refl|].
  by apply client_die_step.
Qed.

(** ** Calls and shutdown *)

(** The client once the future of an add, or of a call, is in its table. *)
Definition with_add (rid : string) (c : AsyncMPClient) : AsyncMPClient :=
  c <| cl_futures ::= fun l => l ++ [FutPending] |>
    <| cl_adding ::= <[rid := length (cl_futures c)]> |>.

Definition with_call (c : AsyncMPClient) : AsyncMPClient :=
  c <| cl_next_call ::= S |> <| cl_futures ::= fun l => l ++ [FutPending] |>
    <| cl_calls ::= <[cl_next_call c := length (cl_futures c)]> |>.

Lemma pending_app a fs : (fs ++ [FutPending]) !! a = Some FutPending ->
  fs !! a = Some FutPending \/ a = length fs.
Proof.
  rewrite lookup_app_Some. intros [?|[? Hl]]; [by left|right].
  apply list_lookup_singleton_Some in Hl as [? _]. lia.
Qed.

Lemma with_add_tracked rid c : cl_adding c !! rid = None -> Tracked c -> Tracked (with_add rid c).
Proof.
  intros Hr Ht a Ha. simpl in *. apply pending_app in Ha as [Ha| ->].
  - destruct (Ht a Ha) as [[r Hr']|?]; [left|by right]. exists r.
    rewrite lookup_insert_ne; [done|]. intros ->. congruence.
  - left. exists rid. apply lookup_insert_eq.
Qed.

Lemma with_call_tracked c : (forall n a, cl_calls c !! n = Some a -> n < cl_next_call c) ->
  Tracked c -> Tracked (with_call c).
Proof.
  intros Hn Ht a Ha. simpl in *. apply pending_app in Ha as [Ha| ->].
  - destruct (Ht a Ha) as [?|[n Hc]]; [by left|right]. exists n. specialize (Hn _ _ Hc).
    rewrite lookup_insert_ne; [done|lia].
  - right. exists (cl_next_call c). apply lookup_insert_eq.
Qed.

(** The sockets are open until the shutdown. *)
Definition Usable (c : AsyncMPClient) : Prop := cl_open c = negb (cl_stopped c).

Lemma add_begin_spec rid prompt sp c : Usable c -> Tracked c -> cl_adding c !! rid = None ->
  match add_begin rid prompt sp c with
  | (inl e, c') => c' = c /\ is_Exception e = true
  | (inr a, c') => a = length (cl_futures c) /\ cl_stopped c = false /\ cl_error c = None /\
      ClientStep (with_add rid c) c'
  end.
Proof.
  intros Ho Ht Hr. unfold add_begin, bind at 1, gets, id.
  destruct (cl_stopped c) eqn:Hs; [done|]. destruct (cl_error c) eqn:He; [done|].
  unfold bind at 1, assert_. destruct (cl_started c); [|done].
  pose proof (client_send_step (MsgAdd rid prompt sp) (with_add rid c)) as (c' & Hc & Hstep);
    [simpl; by rewrite Ho, Hs | by apply with_add_tracked|].
  change (match (client_send (MsgAdd rid prompt sp);;; ret (length (cl_futures c))) (with_add rid c) with
          | (inl e, c') => c' = c /\ is_Exception e = true
          | (inr a, c') => a = length (cl_futures c) /\ false = false /\ (None : option exn) = None /\
              ClientStep (with_add rid c) c'
          end).
  unfold bind. rewrite Hc. by unfold ret.
Qed.

(** The end of an add whose future has its outcome. *)
Lemma add_end_step rid outcome c :
  (forall a, cl_adding c !! rid = Some a -> ~ pending_at a c) -> ClientStep c (add_end rid outcome c).2.
Proof.
  intros Hd.
  assert (Hdel : ClientStep c (c <| cl_adding ::= delete rid |>)).
  { split; try done; simpl.
    - intros ->. by intros [? [=]].
    - intros Ht a Ha. simpl in *. destruct (Ht a Ha) as [[r Hr]|?]; [|by right]. left. exists r.
      rewrite lookup_delete_ne; [done|]. intros ->. by destruct (Hd a Hr).
    - intros r a Hr Hp _. rewrite lookup_delete_ne; [done|]. intros ->. by destruct (Hd a Hr).
    - intros r a. by intros [_ ?]%lookup_delete_Some.
    - exists []. rewrite app_nil_r. split; [done|]. unfold deads; simpl. unfold has_error; simpl. lia. }
  destruct outcome as [|[[e|]|t]|e|]; simpl; try apply ClientStep_refl; exact Hdel.
Qed.

Lemma metrics_begin_spec c : Tracked c ->
  (forall n a, cl_calls c !! n = Some a -> n < cl_next_call c) ->
  match metrics_begin c with
  | (inl _, c') => c' = c \/ c' = c <| cl_next_call ::= S |> \/ c' = with_call c
  | (inr (n, a), c') => n = cl_next_call c /\ a = length (cl_futures c) /\ cl_error c = None /\
      cl_open c = true /\ ClientStep (with_call c) c'
  end.
Proof.
  intros Ht Hn. unfold metrics_begin, bind at 1, gets, id.
  destruct (cl_error c) eqn:He; [by left|]. unfold bind at 1, modify at 1.
  unfold bind at 1, assert_. simpl. destruct (cl_started c); [|by right; left].
  pose proof (with_call_tracked c Hn Ht) as Htc.
  change (match (client_send (MsgMetrics (cl_next_call c));;;
                 ret (cl_next_call c, length (cl_futures c))) (with_call c) with
          | (inl _, c') => c' = c \/ c' = c <| cl_next_call ::= S |> \/ c' = with_call c
          | (inr (n, a), c') => n = cl_next_call c /\ a = length (cl_futures c) /\ (None : option exn) = None /\
              cl_open c = true /\ ClientStep (with_call c) c'
          end).
  destruct (cl_open c) eqn:Ho.
  - pose proof (client_send_step (MsgMetrics (cl_next_call c)) (with_call c) Ho Htc) as (c' & Hc & Hstep).
    unfold bind. rewrite Hc. by unfold ret.
  - unfold client_send, bind, gets, id. simpl. rewrite Ho. simpl. by right; right.
Qed.

Lemma metrics_end_step n outcome c :
  (forall a, cl_calls c !! n = Some a -> ~ pending_at a c) -> ClientStep c (metrics_end n outcome c).2.
Proof.
  intros Hd.
  assert (Hdel : ClientStep c (c <| cl_calls ::= delete n |>)).
  { split; try done; simpl.
    - intros ->. by intros [? [=]].
    - intros Ht a Ha. simpl in *. destruct (Ht a Ha) as [?|[m Hm]]; [by left|]. right. exists m.
      rewrite lookup_delete_ne; [done|]. intros ->. by destruct (Hd a Hm).
    - intros r a Hr Hp _. rewrite lookup_delete_ne; [done|]. intros ->. by destruct (Hd a Hr).
    - intros r a. by intros [_ ?]%lookup_delete_Some.
    - exists []. rewrite app_nil_r. split; [done|]. unfold deads; simpl. unfold has_error; simpl. lia. }
  unfold metrics_end, bind, modify. destruct outcome as [|[[e|]|t]|e|]; exact Hdel.
Qed.

(** Shutting down leaves nothing waiting, and the calls that follow fail at
    once. *)
Lemma client_shutdown_spec alive c : Tracked c -> cl_stopped c = false ->
  let c' := client_shutdown alive c in
  Tracked c' /\ Settles c c' /\ cl_stopped c' = true /\ cl_open c' = false /\ cl_error c' = cl_error c /\
  cl_outputs c' = cl_outputs c /\ cl_adding c' = ∅ /\ cl_calls c' = ∅ /\
  cl_next_call c' = cl_next_call c /\
  (forall a f, cl_futures c' !! a = Some f -> fut_done f = true).
Proof.
  intros Ht Hs. simpl. unfold client_shutdown. rewrite Hs.
  set (c1 := (shutdown_process alive (c <| cl_stopped := true |>)) <| cl_reading := false |>).
  assert (H1 : cl_futures c1 = cl_futures c /\ cl_adding c1 = cl_adding c /\ cl_calls c1 = cl_calls c /\
    cl_stopped c1 = true /\ cl_error c1 = cl_error c /\ cl_outputs c1 = cl_outputs c /\
    cl_next_call c1 = cl_next_call c).
  { unfold c1, shutdown_process. simpl. by destruct (_ && _). }
  destruct H1 as (Hf & Ha & Hc & Hs1 & He & Ho & Hn).
  assert (Ht1 : Tracked c1) by (unfold Tracked; by rewrite Hf, Ha, Hc).
  destruct (fail_pending_spec SHUTTING_DOWN c1 Ht1) as (Hd & Hset & Hea & Hec).
  split_and!; try done.
  - by apply Tracked_done.
  - unfold Settles in *. by rewrite Hf in Hset.
Qed.

End Client.
