(* ===== verification/AsyncLLM.v ===== *)
(** * The server's engine

    [engine/async_llm.py]: the requests' streams over the client of the engine
    core. A coroutine is split at its await; the transition system at the end
    interleaves the handlers' coroutines, the core's messages, the output
    handler, deaths, cancellations and the stop. *)

From S2P Require Import Prelude Output OutputProcessor Core CoreClient.

Section AsyncLLM.
Context `{Tokenizer}.
Variable repr_exn : exn -> string.
Variable encode : string -> list Z.

(** ** State *)

Record AsyncLLM := {
  al_core : AsyncMPClient;
  al_processor : OutputProcessor;
  al_error : option exn;
  al_death : string;
  al_deaths : nat;
  al_stopped : bool;
  al_closing : bool;
  al_started : bool;
  al_handling : bool;
  al_next_stream : nat
}.

#[export] Instance eta_AsyncLLM : Eta AsyncLLM := fun x =>
  Build_AsyncLLM (al_core x) (al_processor x) (al_error x) (al_death x) (al_deaths x)
    (al_stopped x) (al_closing x) (al_started x) (al_handling x) (al_next_stream x).

Definition new_AsyncLLM (core : AsyncMPClient) (has_tokenizer : bool) : AsyncLLM :=
  {| al_core := core; al_processor := new_OutputProcessor has_tokenizer; al_error := None;
     al_death := ""; al_deaths := 0; al_stopped := false; al_closing := false; al_started := false;
     al_handling := false; al_next_stream := 0 |}.

Definition is_dead (x : AsyncLLM) : bool := match al_error x with Some _ => true | None => false end.

Definition on_core {A} (m : M AsyncMPClient A) : M AsyncLLM A :=
  zoom al_core (fun c x => x <| al_core := c |>) m.
Definition on_streams {A} (m : M OutputProcessor A) : M AsyncLLM A :=
  zoom al_processor (fun p x => x <| al_processor := p |>) m.

(** [start]. *)
Definition al_start (x : AsyncLLM) : AsyncLLM :=
  x <| al_core ::= client_start |> <| al_started := true |> <| al_handling := true |>.

(** [_dead_error]. *)
Definition al_dead_error (x : AsyncLLM) : exn := EngineDeadError (al_death x).

(** [_shut_down_streams]. *)
Definition shut_down_streams (x : AsyncLLM) : AsyncLLM :=
  x <| al_handling := false |> <| al_processor ::= fail_all SHUTTING_DOWN |>.

(** [_on_loop(self._shut_down_streams)]: at once where the engine's loop is running, and otherwise as a callback that the loop
    runs in a later turn. *)
Definition on_loop_shut_down (on_loop : bool) (x : AsyncLLM) : AsyncLLM :=
  if negb (al_started x) then x else if on_loop then shut_down_streams x else x <| al_closing := true |>.

(** The loop's turn for that callback. *)
Definition run_scheduled (x : AsyncLLM) : AsyncLLM :=
  if al_closing x then shut_down_streams (x <| al_closing := false |>) else x.

(** [stop], on the loop's thread or another. *)
Definition al_stop (on_loop : bool) (alive : nat -> bool) (x : AsyncLLM) : AsyncLLM :=
  if al_stopped x then x else
  on_loop_shut_down on_loop (x <| al_stopped := true |> <| al_core ::= client_shutdown alive |>).

(** [abort]. *)
Definition al_abort (rid reason : string) : M AsyncLLM unit :=
  on_streams (modify (op_abort_request rid));;;
  let! x := gets id in
  if is_dead x || al_stopped x then ret tt else on_core (client_abort_request repr_exn rid reason).

(** [add_request], to its await: the future of the add, and the stream. *)
Definition al_add_begin (prompt : string + list Z) (sp : SamplingParams) (rid : string) :
    M AsyncLLM (nat * nat) :=
  let! x := gets id in
  let! ids :=
    match prompt with
    | inr ids => ret ids
    | inl text => if op_has_tokenizer (al_processor x) then ret (encode text) else raise AttributeError
    end in
  if bool_decide (is_Some (request_states (al_processor x) !! rid))
  then raise (DuplicateRequestId (rid +:+ " is already in flight"))
  else if al_stopped x then raise SHUTTING_DOWN
  else if is_dead x then raise (al_dead_error x)
  else
    let stream := al_next_stream x in
    modify (fun x => x <| al_next_stream := S stream |>
                       <| al_processor ::= fun p => p <| streams ::= <[stream := []]> |> |>);;;
    on_streams (modify (op_add_request rid ids (sp_skip_special_tokens sp) (Some stream)));;;
    let! future := try_except (on_core (add_begin repr_exn rid ids sp)) (fun e =>
      on_streams (modify (op_abort_request rid));;; raise e) in
    ret (future, stream).

(** ... and from it. *)
Definition al_add_end (rid : string) (outcome : Future) : M AsyncLLM unit :=
  try_except (on_core (add_end rid outcome)) (fun e =>
    match e with
    | CancelledError => al_abort rid "abort";;; raise e
    | e => on_streams (modify (op_abort_request rid));;; raise e
    end).

(** The [finally] of [_generate]. *)
Definition al_close (rid : string) (stream : nat) : M AsyncLLM unit :=
  let! x := gets id in
  match request_states (al_processor x) !! rid with
  | Some st => if bool_decide (rs_stream st = Some stream) then al_abort rid "abort" else ret tt
  | None => ret tt
  end.

(** [render_metrics], to its await. *)
Definition al_metrics_begin : M AsyncLLM (nat * nat) :=
  let! x := gets id in
  if is_dead x then raise (al_dead_error x) else on_core (metrics_begin repr_exn).

(** [_die]. *)
Definition al_die (d : Dead) (x : AsyncLLM) : AsyncLLM :=
  if is_dead x || al_stopped x then x else
  let x := x <| al_error := Some (default (EngineDeadError (dead_message d)) (dead_cause d)) |>
             <| al_death := dead_message d |> in
  (x <| al_processor ::= fail_all (al_dead_error x) |>) <| al_deaths ::= S |>.

(** One turn of [_handle_outputs]: nothing while the queue is empty; a death
    ends the handler. *)
Definition handle_output : M AsyncLLM unit :=
  let! item := on_core get_output in
  match item with
  | None => ret tt
  | Some (inl outs) => on_streams (process_outputs outs);;; ret tt
  | Some (inr d) => modify (al_die d);;; modify (fun x => x <| al_handling := false |>)
  end.

(** ** The transition system *)

(** A handler's coroutine waiting for its admission. *)
Record AddTask := { at_request : string; at_future : nat; at_stream : nat; at_cancelled : bool }.

(** [sys_used]: the ids requests ever had; the server draws them from
    [uuid4], so a new request's is none of them. *)
Record System := {
  sys_llm : AsyncLLM;
  sys_adds : list AddTask;
  sys_calls : list (nat * nat);
  sys_used : gset string
}.

Definition outcome_of (x : AsyncLLM) (a : nat) : Future := default FutPending (cl_futures (al_core x) !! a).

(** What a resumed coroutine sees: its cancellation first. *)
Definition task_outcome (x : AsyncLLM) (t : AddTask) : Future :=
  if at_cancelled t then FutCancelled else outcome_of x (at_future t).

Definition initial (has_tokenizer : bool) : System :=
  {| sys_llm := al_start (new_AsyncLLM new_AsyncMPClient has_tokenizer);
     sys_adds := []; sys_calls := []; sys_used := ∅ |}.

Definition with_llm (x : AsyncLLM) (s : System) : System :=
  {| sys_llm := x; sys_adds := sys_adds s; sys_calls := sys_calls s; sys_used := sys_used s |}.

Inductive sys_step : System -> System -> Prop :=
| step_add prompt sp rid fut stream x' s :
    rid ∉ sys_used s -> al_add_begin prompt sp rid (sys_llm s) = (inr (fut, stream), x') ->
    sys_step s {| sys_llm := x';
      sys_adds := {| at_request := rid; at_future := fut; at_stream := stream; at_cancelled := false |} :: sys_adds s;
      sys_calls := sys_calls s; sys_used := {[ rid ]} ∪ sys_used s |}
| step_add_refused prompt sp rid e x' s :
    rid ∉ sys_used s -> al_add_begin prompt sp rid (sys_llm s) = (inl e, x') ->
    sys_step s {| sys_llm := x'; sys_adds := sys_adds s; sys_calls := sys_calls s;
      sys_used := {[ rid ]} ∪ sys_used s |}
| step_cancel t l1 l2 s :
    sys_adds s = l1 ++ t :: l2 ->
    sys_step s {| sys_llm := (sys_llm s) <| al_core ::= fun c => c <| cl_futures ::= settle (at_future t) FutCancelled |> |>;
      sys_adds := l1 ++ {| at_request := at_request t; at_future := at_future t;
                           at_stream := at_stream t; at_cancelled := true |} :: l2;
      sys_calls := sys_calls s; sys_used := sys_used s |}
| step_add_end t l1 l2 s :
    sys_adds s = l1 ++ t :: l2 -> fut_done (outcome_of (sys_llm s) (at_future t)) = true ->
    sys_step s {| sys_llm := (al_add_end (at_request t) (task_outcome (sys_llm s) t) (sys_llm s)).2;
      sys_adds := l1 ++ l2; sys_calls := sys_calls s; sys_used := sys_used s |}
| step_messages ms s :
    cl_reading (al_core (sys_llm s)) = true ->
    sys_step s (with_llm ((sys_llm s) <| al_core ::= read_outputs repr_exn ms |>) s)
| step_read_failed e s :
    cl_reading (al_core (sys_llm s)) = true ->
    sys_step s (with_llm ((sys_llm s) <| al_core ::= read_failed repr_exn e |>) s)
| step_exit code s :
    sys_step s (with_llm ((sys_llm s) <| al_core ::= on_process_exit repr_exn code |>) s)
| step_disconnect s :
    sys_step s (with_llm ((sys_llm s) <| al_core ::= fun c => c <| cl_connected := false |> |>) s)
| step_handle s :
    al_handling (sys_llm s) = true -> sys_step s (with_llm (handle_output (sys_llm s)).2 s)
| step_abort rid reason s : sys_step s (with_llm (al_abort rid reason (sys_llm s)).2 s)
| step_close rid stream s : sys_step s (with_llm (al_close rid stream (sys_llm s)).2 s)
| step_metrics n a x' s :
    al_metrics_begin (sys_llm s) = (inr (n, a), x') ->
    sys_step s {| sys_llm := x'; sys_adds := sys_adds s; sys_calls := (n, a) :: sys_calls s; sys_used := sys_used s |}
| step_metrics_refused e x' s :
    al_metrics_begin (sys_llm s) = (inl e, x') -> sys_step s (with_llm x' s)
| step_metrics_end n a l1 l2 s :
    sys_calls s = l1 ++ (n, a) :: l2 -> fut_done (outcome_of (sys_llm s) a) = true ->
    sys_step s {| sys_llm := (on_core (metrics_end n (outcome_of (sys_llm s) a)) (sys_llm s)).2;
      sys_adds := sys_adds s; sys_calls := l1 ++ l2; sys_used := sys_used s |}
| step_stop on_loop alive s : sys_step s (with_llm (al_stop on_loop alive (sys_llm s)) s)
| step_scheduled s : sys_step s (with_llm (run_scheduled (sys_llm s)) s).

(** ** The invariant *)

(** Every stream is fed or has ended. *)
Record StreamInv (x : AsyncLLM) : Prop := {
  sm_served : Served (al_processor x);
  sm_fresh : forall a, is_Some (streams (al_processor x) !! a) -> a < al_next_stream x
}.

Definition closed (c : AsyncMPClient) : Prop := is_Some (cl_error c) \/ cl_stopped c = true.

(** A waiting coroutine's future is where the core's answer, or its death,
    finds it; nothing waits on a closed core. *)
Record CoreInv (c : AsyncMPClient) (adds : list AddTask) (calls : list (nat * nat))
    (used : gset string) : Prop := {
  ci_tracked : Tracked c;
  ci_usable : Usable c;
  ci_adds : forall t, t ∈ adds -> at_request t ∈ used /\ at_future t < length (cl_futures c) /\
    (pending_at (at_future t) c -> cl_adding c !! at_request t = Some (at_future t)) /\
    forall a, cl_adding c !! at_request t = Some a -> a = at_future t;
  ci_cancelled : forall t, t ∈ adds -> at_cancelled t = true -> ~ pending_at (at_future t) c;
  ci_adding : forall r a, cl_adding c !! r = Some a -> r ∈ used;
  ci_calls : forall n a, (n, a) ∈ calls -> n < cl_next_call c /\ a < length (cl_futures c) /\
    forall b, cl_calls c !! n = Some b -> a = b;
  ci_table : forall n a, cl_calls c !! n = Some a -> n < cl_next_call c;
  ci_closed : closed c ->
    (forall t, t ∈ adds -> ~ pending_at (at_future t) c) /\
    (forall n a, (n, a) ∈ calls -> ~ pending_at a c)
}.

(** The flags agree, and a death still queued is one not handled yet. *)
Record FlagInv (x : AsyncLLM) : Prop := {
  fi_started : al_started x = true;
  fi_stopped : al_stopped x = cl_stopped (al_core x);
  fi_closing : al_closing x = true -> al_stopped x = true;
  fi_handling : al_closing x = false -> al_handling x = negb (is_dead x || al_stopped x);
  fi_closed : is_dead x || al_stopped x = true -> al_closing x = false -> request_states (al_processor x) = ∅;
  fi_dead : is_dead x = true -> is_Some (cl_error (al_core x));
  fi_queued : al_handling x = true -> has_error (al_core x) = deads (cl_outputs (al_core x));
  fi_deaths : al_deaths x = if is_dead x then 1 else 0
}.

Record SysInv (s : System) : Prop := {
  si_streams : StreamInv (sys_llm s);
  si_core : CoreInv (al_core (sys_llm s)) (sys_adds s) (sys_calls s) (sys_used s);
  si_flags : FlagInv (sys_llm s)
}.

(** *** The core's side *)

Lemma not_pending_step c c' a : Settles c c' -> a < length (cl_futures c) ->
  ~ pending_at a c -> ~ pending_at a c'.
Proof.
  unfold pending_at. intros [_ Hs] Hl Hn Hp. destruct (lookup_lt_is_Some_2 _ _ Hl) as [f Hf].
  destruct (fut_done f) eqn:Hd; [|by destruct f]. rewrite (Hs _ _ Hf Hd) in Hp. by injection Hp as ->.
Qed.

Lemma pending_or_not a c : pending_at a c \/ ~ pending_at a c.
Proof. unfold pending_at. destruct (cl_futures c !! a) as [[]|]; naive_solver. Qed.

Lemma core_inv_step c c' adds calls used :
  ClientStep c c' -> CoreInv c adds calls used -> CoreInv c' adds calls used.
Proof.
  intros S [Ht Hu Ha Hca Had Hc Hct Hcl]. pose proof (cs_settles _ _ S) as Hset.
  assert (Hback : forall a, a < length (cl_futures c) -> pending_at a c' -> pending_at a c).
  { intros a Hl Hp. destruct (pending_or_not a c) as [|Hn]; [done|].
    by destruct (not_pending_step _ _ _ Hset Hl Hn). }
  split.
  - by apply S.
  - unfold Usable. by rewrite (cs_stopped _ _ S), (cs_open _ _ S).
  - intros t Hin. destruct (Ha t Hin) as (H1 & H2 & H3 & H4). rewrite (cs_length _ _ S).
    split_and!; [done..| |].
    + intros Hp. eapply cs_keeps; eauto.
    + intros a Hta. by eapply H4, cs_adding.
  - intros t Hin Hcan. eapply not_pending_step; [done | by apply Ha | by apply Hca].
  - intros r a Hr. by eapply Had, cs_adding.
  - intros n a Hin. destruct (Hc n a Hin) as (H1 & H2 & H3).
    rewrite (cs_length _ _ S), (cs_next _ _ S). split_and!; [done..|].
    intros b Hb. by eapply H3, cs_call.
  - intros n a Hn. rewrite (cs_next _ _ S). by eapply Hct, cs_call.
  - intros Hc'. destruct (cl_error c) as [e|] eqn:He.
    + destruct Hcl as [Hc1 Hc2]; [left; by rewrite He|].
      split; intros; (eapply not_pending_step; [done| |by eauto]); [by apply Ha | by eapply Hc].
    + destruct Hc' as [Hs|Hs].
      * pose proof (cs_died _ _ S He Hs) as Hd. unfold pending_at. split; intros; intros Hp; by specialize (Hd _ _ Hp).
      * destruct Hcl as [Hc1 Hc2]; [right; by rewrite <-(cs_stopped _ _ S)|].
        split; intros; (eapply not_pending_step; [done| |by eauto]); [by apply Ha | by eapply Hc].
Qed.

Lemma flag_inv_core x c' : ClientStep (al_core x) c' -> FlagInv x -> FlagInv (x <| al_core := c' |>).
Proof.
  intros S [H1 H2 H0 H3 H4 H5 H6 H7]. split; simpl; try done.
  - by rewrite (cs_stopped _ _ S).
  - intros Hd. destruct (H5 Hd) as [e He]. exists e. by apply S.
  - intros Hh. specialize (H6 Hh). destruct (cs_deads _ _ S) as (l & -> & Hl).
    rewrite deads_app. lia.
Qed.

(** A step of the client alone. *)
Lemma sys_core_step s c' : SysInv s -> ClientStep (al_core (sys_llm s)) c' ->
  SysInv (with_llm ((sys_llm s) <| al_core := c' |>) s).
Proof.
  intros [Hs Hc Hf] S. split; simpl.
  - destruct Hs. by split.
  - by eapply core_inv_step.
  - by apply flag_inv_core.
Qed.

(** *** The streams' side *)

Lemma abort_states rid p r :
  request_states (op_abort_request rid p) !! r = if decide (r = rid) then None else request_states p !! r.
Proof.
  unfold op_abort_request. destruct (request_states p !! rid) as [st|] eqn:Hr.
  - destruct (rs_stream st); simpl; (case_decide; [subst; apply lookup_delete_eq | by rewrite lookup_delete_ne]).
  - case_decide; [by subst | done].
Qed.

Lemma abort_streams_dom rid p a : is_Some (streams (op_abort_request rid p) !! a) -> is_Some (streams p !! a).
Proof.
  unfold op_abort_request. destruct (request_states p !! rid) as [st|]; [|done].
  destruct (rs_stream st) as [b|]; [|done]. rewrite stream_put_lookup. simpl.
  case_decide; [by rewrite fmap_is_Some | done].
Qed.

Lemma abort_stream_inv rid x : StreamInv x -> FlagInv x ->
  let x' := x <| al_processor ::= op_abort_request rid |> in StreamInv x' /\ FlagInv x'.
Proof.
  intros [Hs Hf] F. split; split; simpl; try apply F.
  - by apply abort_served.
  - intros a Ha. by eapply Hf, abort_streams_dom.
  - intros Hd Hc. apply map_eq. intros r. rewrite abort_states, (fi_closed _ F Hd Hc). by case_decide.
Qed.

Lemma fail_all_stream_inv e x : StreamInv x -> StreamInv (x <| al_processor ::= fail_all e |>).
Proof.
  intros [Hs Hf]. destruct (fail_all_served e _ Hs) as (H1 & _ & H3). split; simpl; [done|].
  intros a Ha. by apply Hf, H3.
Qed.

(** *** Admission *)

(** The state once a request's stream is in place. *)
Definition registered (rid : string) (ids : list Z) (sp : SamplingParams) (x : AsyncLLM) : AsyncLLM :=
  x <| al_next_stream ::= S |>
    <| al_processor ::= fun p => op_add_request rid ids (sp_skip_special_tokens sp) (Some (al_next_stream x))
                                   (p <| streams ::= <[al_next_stream x := []]> |>) |>.

Lemma al_add_begin_cases prompt sp rid x r x' : al_add_begin prompt sp rid x = (r, x') ->
  (exists e, r = inl e /\ x' = x) \/
  exists ids, request_states (al_processor x) !! rid = None /\ al_stopped x = false /\ is_dead x = false /\
    let x1 := registered rid ids sp x in
    match add_begin repr_exn rid ids sp (al_core x) with
    | (inr fut, c') => r = inr (fut, al_next_stream x) /\ x' = x1 <| al_core := c' |>
    | (inl e, c') => r = inl e /\ x' = (x1 <| al_core := c' |>) <| al_processor ::= op_abort_request rid |>
    end.
Proof.
  unfold al_add_begin, bind at 1, gets, id. cbv beta iota. intros Hr.
  assert (Hids : (exists ids, (match prompt with
      | inr ids => ret ids
      | inl text => if op_has_tokenizer (al_processor x) then ret (encode text) else raise AttributeError
      end) x = (inr ids, x)) \/
    (match prompt with
      | inr ids => ret ids
      | inl text => if op_has_tokenizer (al_processor x) then ret (encode text) else raise AttributeError
      end) x = (inl AttributeError, x)).
  { destruct prompt; [destruct (op_has_tokenizer _)|]; unfold ret, raise; eauto. }
  unfold bind at 1 in Hr. destruct Hids as [[ids Hi]|Hi]; rewrite Hi in Hr.
  2: { injection Hr as <- <-. left. eauto. }
  case_bool_decide as Hd; [injection Hr as <- <-; left; eauto|].
  destruct (al_stopped x) eqn:Hst; [injection Hr as <- <-; left; eauto|].
  destruct (is_dead x) eqn:Hdd; [injection Hr as <- <-; left; eauto|].
  right. exists ids. split; [by apply eq_None_not_Some|]. split; [done|]. split; [done|].
  unfold bind, on_streams, zoom, modify, try_except, on_core, zoom, ret, raise in Hr. simpl in Hr.
  destruct (add_begin repr_exn rid ids sp (al_core x)) as [[e|fut] c']; by injection Hr as <- <-.
Qed.

Lemma registered_stream_inv rid ids sp x : request_states (al_processor x) !! rid = None ->
  StreamInv x -> StreamInv (registered rid ids sp x).
Proof.
  intros Hr [Hs Hf]. split; simpl.
  - apply add_served; [done..|]. apply eq_None_not_Some. intros Hi. specialize (Hf _ Hi). lia.
  - intros a. destruct (decide (a = al_next_stream x)) as [->|Hne]; [lia|].
    rewrite lookup_insert_ne by done. intros Ha. specialize (Hf _ Ha). lia.
Qed.

Lemma registered_flag_inv rid ids sp x : is_dead x || al_stopped x = false ->
  FlagInv x -> FlagInv (registered rid ids sp x).
Proof. intros Hd F. split; simpl; try apply F. unfold is_dead in *. simpl. by rewrite Hd. Qed.

Lemma used_mono c adds calls used rid :
  CoreInv c adds calls used -> CoreInv c adds calls ({[rid]} ∪ used).
Proof.
  intros C. split; try apply C.
  - intros t Hin. destruct (ci_adds _ _ _ _ C t Hin) as (?&?&?&?). split_and!; [set_solver|done..].
  - intros r a Hr. pose proof (ci_adding _ _ _ _ C _ _ Hr). set_solver.
Qed.

Lemma no_add rid c adds calls used : CoreInv c adds calls used -> rid ∉ used -> cl_adding c !! rid = None.
Proof.
  intros C Hr. apply eq_None_not_Some. intros [a Ha].
  by apply Hr, (ci_adding _ _ _ _ C _ a).
Qed.

(** The new coroutine waits for a future of its own. *)
Lemma with_add_inv rid stream c adds calls used :
  CoreInv c adds calls used -> rid ∉ used -> cl_error c = None -> cl_stopped c = false ->
  CoreInv (with_add rid c)
    ({| at_request := rid; at_future := length (cl_futures c); at_stream := stream; at_cancelled := false |} :: adds)
    calls ({[rid]} ∪ used).
Proof.
  intros C Hr He Hs. pose proof (no_add _ _ _ _ _ C Hr) as Hno. destruct C as [Ht Hu Ha Hca Had Hc Hct Hcl].
  assert (Hp : forall a, a < length (cl_futures c) -> pending_at a (with_add rid c) -> pending_at a c).
  { unfold pending_at. simpl. intros a Hl Hp. by rewrite lookup_app_l in Hp. }
  assert (Hlen : length (cl_futures (with_add rid c)) = S (length (cl_futures c))).
  { simpl. rewrite length_app. simpl. lia. }
  split.
  - by apply with_add_tracked.
  - done.
  - intros t [->|Hin]%elem_of_cons; simpl.
    + split_and!; [set_solver | rewrite length_app; simpl; lia | |]; rewrite lookup_insert_eq; [done|].
      by intros a [= ->].
    + destruct (Ha t Hin) as (H1 & H2 & H3 & H4). assert (rid <> at_request t) by (by intros ->).
      rewrite lookup_insert_ne by done. split_and!; [set_solver | rewrite length_app; lia| |done].
      intros Hpa. by apply H3, Hp.
  - intros t [->|Hin]%elem_of_cons; [done|]. intros Hcan Hpa.
    apply (Hca t Hin Hcan), Hp; [by apply Ha | done].
  - simpl. intros r a. rewrite lookup_insert_Some. intros [[<- <-]|[_ Hra]].
    + set_solver.
    + pose proof (Had _ _ Hra). set_solver.
  - intros n a Hin. destruct (Hc n a Hin) as (H1 & H2 & H3). rewrite Hlen. simpl. split_and!; [done|lia|done].
  - done.
  - intros [[e Hx]|Hx]; simpl in Hx; congruence.
Qed.

Lemma sys_add_step prompt sp rid r x' s : SysInv s -> rid ∉ sys_used s ->
  al_add_begin prompt sp rid (sys_llm s) = (r, x') ->
  SysInv {| sys_llm := x';
    sys_adds := match r with
      | inl _ => sys_adds s
      | inr (fut, stream) => {| at_request := rid; at_future := fut; at_stream := stream; at_cancelled := false |} :: sys_adds s
      end;
    sys_calls := sys_calls s; sys_used := {[ rid ]} ∪ sys_used s |}.
Proof.
  intros [Hs Hc Hf] Hu Hb. set (x := sys_llm s) in *.
  destruct (al_add_begin_cases _ _ _ _ _ _ Hb) as [(e & -> & ->)|(ids & Hr & Hst & Hd & Hx)].
  { split; simpl; [done | by apply used_mono | done]. }
  pose proof (registered_stream_inv rid ids sp x Hr Hs) as Hs1.
  assert (Hdn : is_dead x || al_stopped x = false) by by rewrite Hd, Hst.
  pose proof (registered_flag_inv rid ids sp x Hdn Hf) as Hf1.
  pose proof (add_begin_spec repr_exn rid ids sp (al_core x) (ci_usable _ _ _ _ Hc) (ci_tracked _ _ _ _ Hc)
    (no_add _ _ _ _ _ Hc Hu)) as Hspec. simpl in Hx.
  destruct (add_begin repr_exn rid ids sp (al_core x)) as [[e|fut] c'].
  - destruct Hspec as [-> _], Hx as [-> ->].
    destruct (abort_stream_inv rid ((registered rid ids sp x) <| al_core := al_core x |>)) as [Hs2 Hf2].
    + destruct Hs1. by split.
    + destruct Hf1. by split.
    + split; simpl; [done | by apply used_mono | done].
  - destruct Hspec as (-> & Hsc & He & Hstep), Hx as [-> ->]. split; simpl.
    + destruct Hs1. by split.
    + eapply core_inv_step; [exact Hstep|]. by apply with_add_inv.
    + assert (FlagInv ((registered rid ids sp x) <| al_core := with_add rid (al_core x) |>)) as Hf2.
      { destruct Hf1. by split. }
      exact (flag_inv_core ((registered rid ids sp x) <| al_core := with_add rid (al_core x) |>) c' Hstep Hf2).
Qed.

(** *** The other steps *)

(** An operation keeps the streams' and the flags' invariants, and takes the
    client one step. *)
Definition Keeps (x x' : AsyncLLM) : Prop :=
  StreamInv x' /\ FlagInv x' /\ ClientStep (al_core x) (al_core x').

Lemma keeps_sys s x' : SysInv s -> Keeps (sys_llm s) x' -> SysInv (with_llm x' s).
Proof. intros [Hs Hc Hf] (Hs' & Hf' & Hstep). split; simpl; [done | by eapply core_inv_step | done]. Qed.

Lemma keeps_core x c' : StreamInv x -> FlagInv x -> ClientStep (al_core x) c' -> Keeps x (x <| al_core := c' |>).
Proof. intros Hs Hf S. split_and!; [destruct Hs; by split | by apply flag_inv_core | done]. Qed.

Lemma keeps_trans x1 x2 x3 : Keeps x1 x2 -> Keeps x2 x3 -> Keeps x1 x3.
Proof. intros (_ & _ & S1) (? & ? & S2). split_and!; [done..|]. by eapply ClientStep_trans. Qed.

Lemma keeps_abort_state rid x : StreamInv x -> FlagInv x ->
  Keeps x (x <| al_processor ::= op_abort_request rid |>).
Proof.
  intros Hs Hf. destruct (abort_stream_inv rid x Hs Hf). split_and!; [done..|]. apply ClientStep_refl.
Qed.

Lemma al_abort_keeps rid reason x : StreamInv x -> FlagInv x -> Tracked (al_core x) -> Usable (al_core x) ->
  exists x', al_abort rid reason x = (inr tt, x') /\ Keeps x x'.
Proof.
  intros Hs Hf Ht Hu. pose proof (keeps_abort_state rid x Hs Hf) as K.
  set (x1 := x <| al_processor ::= op_abort_request rid |>) in *.
  change (al_abort rid reason x) with
    ((if is_dead x1 || al_stopped x1 then ret tt else on_core (client_abort_request repr_exn rid reason)) x1).
  destruct (_ || _); [by exists x1|].
  destruct (client_abort_step repr_exn rid reason (al_core x1)) as (c' & Hc & S);
    [change (al_core x1) with (al_core x); by intros Hst; rewrite Hu, Hst | done |].
  unfold on_core, zoom. rewrite Hc. eexists. split; [done|].
  eapply keeps_trans; [exact K|]. destruct K as (? & ? & _). by apply keeps_core.
Qed.

Lemma al_add_end_keeps rid outcome x : StreamInv x -> FlagInv x -> Tracked (al_core x) -> Usable (al_core x) ->
  (forall a, cl_adding (al_core x) !! rid = Some a -> ~ pending_at a (al_core x)) ->
  Keeps x (al_add_end rid outcome x).2.
Proof.
  intros Hs Hf Ht Hu Hd. pose proof (add_end_step rid outcome (al_core x) Hd) as S.
  unfold al_add_end, try_except, on_core, zoom.
  destruct (add_end rid outcome (al_core x)) as [[e|[]] c']; simpl in S.
  2: by apply keeps_core.
  pose proof (keeps_core x c' Hs Hf S) as K. destruct K as (Hs1 & Hf1 & _).
  assert (Ht1 : Tracked c') by by apply S.
  assert (Hu1 : Usable c') by (unfold Usable; by rewrite (cs_stopped _ _ S), (cs_open _ _ S)).
  eapply keeps_trans; [by apply keeps_core|]. set (x1 := x <| al_core := c' |>) in *.
  destruct (al_abort_keeps rid "abort" x1 Hs1 Hf1 Ht1 Hu1) as (x2 & Ha & K2).
  pose proof (keeps_abort_state rid x1 Hs1 Hf1) as K3.
  destruct e; try exact K3. unfold bind. rewrite Ha. exact K2.
Qed.

Lemma al_close_keeps rid stream x : StreamInv x -> FlagInv x -> Tracked (al_core x) -> Usable (al_core x) ->
  Keeps x (al_close rid stream x).2.
Proof.
  intros Hs Hf Ht Hu. assert (Keeps x x) as Hk by (split_and!; [done..|apply ClientStep_refl]).
  unfold al_close, bind, gets, id. destruct (request_states (al_processor x) !! rid); [|done].
  case_bool_decide; [|done].
  destruct (al_abort_keeps rid "abort" x Hs Hf Ht Hu) as (x' & -> & K). exact K.
Qed.

(** The death of the core reaches the streams: every one has ended. *)
Lemma al_die_inv d c' x : StreamInv x -> FlagInv x -> al_handling x = true -> al_closing x = false -> is_Some (cl_error (al_core x)) ->
  cl_error c' = cl_error (al_core x) -> cl_stopped c' = cl_stopped (al_core x) ->
  let x' := (al_die d (x <| al_core := c' |>)) <| al_handling := false |> in
  StreamInv x' /\ FlagInv x' /\ is_dead x' = true /\ al_core x' = c'.
Proof.
  intros Hs Hf Hh Hcl He Hce Hcs. pose proof Hf as [F1 F2 F0 F3 F4 F5 F6 F7]. specialize (F3 Hcl). rewrite Hh in F3.
  symmetry in F3. apply negb_true_iff, orb_false_iff in F3 as [Hd Hst].
  simpl. unfold al_die.
  change (is_dead (x <| al_core := c' |>)) with (is_dead x).
  change (al_stopped (x <| al_core := c' |>)) with (al_stopped x). rewrite Hd, Hst. cbv zeta.
  set (e := al_dead_error _). destruct (fail_all_served e _ (sm_served _ Hs)) as (H1 & H2 & H3).
  split_and!; [split|split| |]; simpl; try done.
  - intros a Ha. by apply (sm_fresh _ Hs), H3.
  - by rewrite Hcs.
  - by rewrite Hce.
  - rewrite F7, Hd. done.
Qed.

Lemma handle_output_sys `{!TokenizerLaws} s : SysInv s -> al_handling (sys_llm s) = true ->
  SysInv (with_llm (handle_output (sys_llm s)).2 s).
Proof.
  intros [Hs Hc Hf] Hh. set (x := sys_llm s) in *.
  unfold handle_output, bind at 1, on_core, zoom, get_output, bind, gets, modify, ret.
  destruct (cl_outputs (al_core x)) as [|[outs|d] q] eqn:Hq.
  - simpl. replace (x <| al_core := al_core x |>) with x by by destruct x. by split.
  - set (c' := (al_core x) <| cl_outputs := q |>).
    assert (Hcore : forall used, CoreInv (al_core x) (sys_adds s) (sys_calls s) used ->
      CoreInv c' (sys_adds s) (sys_calls s) used) by (intros ? []; by split).
    simpl. unfold on_streams, zoom.
    pose proof (process_outputs_served outs (al_processor x) (sm_served _ Hs)) as Hp. unfold wp in Hp. simpl.
    destruct (process_outputs outs (al_processor x)) as [[e|l] p']; [done|].
    destruct Hp as [Hsv (Hback & Hun & Hdom)]. split; simpl; [split; simpl| by apply Hcore |].
    + done.
    + intros a Ha. apply (sm_fresh _ Hs). destruct (streams (al_processor x) !! a) eqn:Hsa; [by eexists|].
      rewrite Hun in Ha; [by rewrite Hsa in Ha; destruct Ha|]. intros r st Hr Hst.
      destruct (proj1 (proj1 (sm_served _ Hs)) r st a Hr Hst). congruence.
    + destruct Hf as [F1 F2 F0 F3 F4 F5 F6 F7]. split; simpl; try done.
      * intros Hcl Hno. apply map_eq. intros r. rewrite lookup_empty. apply eq_None_not_Some. intros [st Hr].
        destruct (Hback _ _ Hr) as (st0 & Hr0 & _). rewrite F4 in Hr0 by done. done.
      * intros _. specialize (F6 Hh). rewrite Hq in F6. exact F6.
  - set (c' := (al_core x) <| cl_outputs := q |>).
    assert (He : is_Some (cl_error (al_core x))).
    { pose proof (fi_queued _ Hf Hh) as Hqd. rewrite Hq in Hqd. unfold has_error in Hqd.
      destruct (cl_error (al_core x)); [by eexists | by simpl in Hqd]. }
    destruct (al_closing x) eqn:Hcl.
    + pose proof (fi_closing _ Hf Hcl) as Hst. simpl. unfold al_die. change (al_stopped (x <| al_core := c' |>)) with (al_stopped x).
      rewrite Hst, orb_true_r. split; simpl; [by destruct Hs|by destruct Hc|]. destruct Hf. split; simpl; try done. intros; congruence.
    + destruct (al_die_inv d c' x Hs Hf Hh Hcl He eq_refl eq_refl) as (H1 & H2 & _ & H4).
      split; [exact H1 | | exact H2]. simpl in H4 |- *. rewrite H4. by destruct Hc.
Qed.

(** *** Tasks that change *)

(** Fewer coroutines wait. *)
Lemma core_inv_sub c adds adds' calls calls' used : (forall t, t ∈ adds' -> t ∈ adds) ->
  (forall n a, (n, a) ∈ calls' -> (n, a) ∈ calls) ->
  CoreInv c adds calls used -> CoreInv c adds' calls' used.
Proof.
  intros Ht Hn C. split; try apply C.
  - intros t Hin. by eapply ci_adds, Ht.
  - intros t Hin. by eapply ci_cancelled, Ht.
  - intros n a Hin. by eapply ci_calls, Hn.
  - intros Hcl. destruct (ci_closed _ _ _ _ C Hcl) as [H1 H2]. split; eauto.
Qed.

Lemma sys_cancel t l1 l2 s : SysInv s -> sys_adds s = l1 ++ t :: l2 ->
  SysInv {| sys_llm := (sys_llm s) <| al_core ::= fun c => c <| cl_futures ::= settle (at_future t) FutCancelled |> |>;
    sys_adds := l1 ++ {| at_request := at_request t; at_future := at_future t;
                         at_stream := at_stream t; at_cancelled := true |} :: l2;
    sys_calls := sys_calls s; sys_used := sys_used s |}.
Proof.
  intros [Hs Hc Hf] Hl. set (c := al_core (sys_llm s)) in *.
  set (c' := c <| cl_futures ::= settle (at_future t) FutCancelled |>).
  assert (S : ClientStep c c').
  { apply (settled_step c c' (at_future t) FutCancelled); try done. by left. }
  pose proof (core_inv_step _ _ _ _ _ S Hc) as Hc'. rewrite Hl in Hc'.
  assert (Hno : ~ pending_at (at_future t) c').
  { unfold pending_at, c'. simpl. intros [[_ Hd]|(_ & [=] & _)]%settle_lookup. by specialize (Hd eq_refl). }
  set (t' := {| at_request := at_request t; at_future := at_future t; at_stream := at_stream t; at_cancelled := true |}).
  assert (Hin : forall u, u ∈ l1 ++ t' :: l2 -> u = t' \/ u ∈ l1 ++ t :: l2) by set_solver.
  assert (Ht : t ∈ l1 ++ t :: l2) by set_solver.
  split; simpl; [destruct Hs; by split | | by apply (flag_inv_core (sys_llm s) c' S)].
  fold c'. split; try apply Hc'.
  - intros u [->|Hu]%Hin; [by apply (ci_adds _ _ _ _ Hc' t) | by apply (ci_adds _ _ _ _ Hc')].
  - intros u [->|Hu]%Hin Hcan; [exact Hno | by apply (ci_cancelled _ _ _ _ Hc')].
  - intros Hcl. destruct (ci_closed _ _ _ _ Hc' Hcl) as [H1 H2]. split; [|done].
    intros u [->|Hu]%Hin; [exact Hno | by apply H1].
Qed.

Lemma sys_add_end t l1 l2 s : SysInv s -> sys_adds s = l1 ++ t :: l2 ->
  fut_done (outcome_of (sys_llm s) (at_future t)) = true ->
  SysInv {| sys_llm := (al_add_end (at_request t) (task_outcome (sys_llm s) t) (sys_llm s)).2;
    sys_adds := l1 ++ l2; sys_calls := sys_calls s; sys_used := sys_used s |}.
Proof.
  intros Hi Hl Hd. pose proof Hi as [Hs Hc Hf].
  assert (Ht : t ∈ sys_adds s) by (rewrite Hl; set_solver).
  destruct (al_add_end_keeps (at_request t) (task_outcome (sys_llm s) t) (sys_llm s)) as (Hs' & Hf' & S);
    [done | done | apply Hc | apply Hc | |].
  - intros a Ha. rewrite (proj2 (proj2 (proj2 (ci_adds _ _ _ _ Hc t Ht))) a Ha).
    unfold pending_at. unfold outcome_of in Hd. intros Hp. by rewrite Hp in Hd.
  - split; simpl; [done | | done].
    eapply core_inv_sub; [| |by eapply core_inv_step]; [|done]. rewrite Hl. set_solver.
Qed.

(** A call's future, with nobody waiting for it yet. *)
Lemma with_call_leak c adds calls used : CoreInv c adds calls used -> CoreInv (with_call c) adds calls used.
Proof.
  intros [Ht Hu Ha Hca Had Hc Hct Hcl].
  assert (Hlen : length (cl_futures (with_call c)) = S (length (cl_futures c))).
  { simpl. rewrite length_app. simpl. lia. }
  assert (Hp : forall a, a < length (cl_futures c) -> pending_at a (with_call c) -> pending_at a c).
  { unfold pending_at. simpl. intros a Hl Hp. by rewrite lookup_app_l in Hp. }
  split.
  - by apply with_call_tracked.
  - done.
  - intros t Hin. destruct (Ha t Hin) as (H1 & H2 & H3 & H4). rewrite Hlen. simpl.
    split_and!; [done|lia| |done]. intros Hpa. by apply H3, Hp.
  - intros t Hin Hcan Hpa. apply (Hca t Hin Hcan), Hp; [by apply Ha | done].
  - done.
  - rewrite Hlen. intros n a Hin; simpl. destruct (Hc n a Hin) as (H1 & H2 & H3).
    split_and!; [lia|lia|]. intros b. rewrite lookup_insert_ne by lia. apply H3.
  - simpl. intros n a. rewrite lookup_insert_Some. intros [[<- <-]|[_ Hn]]; [lia|].
    specialize (Hct _ _ Hn). lia.
  - intros Hx. destruct (Hcl Hx) as [H1 H2]. split.
    + intros t Hin Hpa. apply (H1 t Hin), Hp; [by apply Ha | done].
    + intros n a Hin Hpa. apply (H2 n a Hin), Hp; [by eapply Hc | done].
Qed.

Lemma with_call_inv c adds calls used : cl_error c = None -> cl_stopped c = false ->
  CoreInv c adds calls used ->
  CoreInv (with_call c) adds ((cl_next_call c, length (cl_futures c)) :: calls) used.
Proof.
  intros He Hs C. pose proof (with_call_leak _ _ _ _ C) as C'. split; try apply C'.
  - intros n a [Heq|Hin]%elem_of_cons; [|by apply (ci_calls _ _ _ _ C')].
    injection Heq as -> ->. simpl. rewrite length_app. simpl. split_and!; [lia|lia|]. intros b. rewrite lookup_insert_eq. by intros [= ->].
  - intros [[e Hx]|Hx]; simpl in Hx; congruence.
Qed.

Lemma next_call_inv c adds calls used : CoreInv c adds calls used ->
  CoreInv (c <| cl_next_call ::= S |>) adds calls used.
Proof.
  intros [Ht Hu Ha Hca Had Hc Hct Hcl]. split; try done; simpl.
  - intros n a Hin. destruct (Hc n a Hin) as (H1 & H2 & H3). split_and!; [lia|done..].
  - intros n a Hn. specialize (Hct _ _ Hn). lia.
Qed.

Lemma sys_metrics_step r x' s : SysInv s -> al_metrics_begin (sys_llm s) = (r, x') ->
  SysInv {| sys_llm := x'; sys_adds := sys_adds s;
    sys_calls := match r with inl _ => sys_calls s | inr (n, a) => (n, a) :: sys_calls s end;
    sys_used := sys_used s |}.
Proof.
  intros [Hs Hc Hf] Hb. set (x := sys_llm s) in *.
  unfold al_metrics_begin, bind, gets, id in Hb.
  destruct (is_dead x); [injection Hb as <- <-; by split|].
  unfold on_core, zoom in Hb.
  pose proof (metrics_begin_spec repr_exn (al_core x) (ci_tracked _ _ _ _ Hc) (ci_table _ _ _ _ Hc)) as Hspec.
  assert (Hquiet : forall c', cl_outputs c' = cl_outputs (al_core x) -> cl_stopped c' = cl_stopped (al_core x) ->
    cl_error c' = cl_error (al_core x) -> StreamInv (x <| al_core := c' |>) /\ FlagInv (x <| al_core := c' |>)).
  { intros c' H1 H2 H3. split; [destruct Hs; by split|]. destruct Hf. split; simpl; try done; [congruence| |].
    - by rewrite H3.
    - unfold has_error. by rewrite H1, H3. }
  destruct (metrics_begin repr_exn (al_core x)) as [[e|[n a]] c']; injection Hb as <- <-.
  - destruct Hspec as [->|[-> | ->]]; (split; simpl; [by apply Hquiet| |by apply Hquiet]);
      [done | by apply next_call_inv | by apply with_call_leak].
  - destruct Hspec as (-> & -> & He & Ho & S).
    assert (Hst : cl_stopped (al_core x) = false).
    { pose proof (ci_usable _ _ _ _ Hc) as Hu. unfold Usable in Hu. rewrite Ho in Hu.
      by destruct (cl_stopped _). }
    destruct (Hquiet (with_call (al_core x))) as [Hs1 Hf1]; [done..|].
    split; simpl; [destruct Hs; by split| |exact (flag_inv_core (x <| al_core := with_call (al_core x) |>) c' S Hf1)].
    eapply core_inv_step; [exact S|]. by apply with_call_inv.
Qed.

Lemma sys_metrics_end n a l1 l2 s : SysInv s -> sys_calls s = l1 ++ (n, a) :: l2 ->
  fut_done (outcome_of (sys_llm s) a) = true ->
  SysInv {| sys_llm := (on_core (metrics_end n (outcome_of (sys_llm s) a)) (sys_llm s)).2;
    sys_adds := sys_adds s; sys_calls := l1 ++ l2; sys_used := sys_used s |}.
Proof.
  intros [Hs Hc Hf] Hl Hd. assert (Hin : (n, a) ∈ sys_calls s) by (rewrite Hl; set_solver).
  pose proof (metrics_end_step n (outcome_of (sys_llm s) a) (al_core (sys_llm s))) as S.
  assert (forall b, cl_calls (al_core (sys_llm s)) !! n = Some b -> ~ pending_at b (al_core (sys_llm s))) as Hno.
  { intros b Hb. rewrite <-(proj2 (proj2 (ci_calls _ _ _ _ Hc n a Hin)) b Hb).
    unfold pending_at. unfold outcome_of in Hd. intros Hp. by rewrite Hp in Hd. }
  specialize (S Hno). unfold on_core, zoom.
  destruct (metrics_end n (outcome_of (sys_llm s) a) (al_core (sys_llm s))) as [r c']. simpl in S.
  split; simpl; [destruct Hs; by split| |by apply flag_inv_core].
  eapply core_inv_sub; [| |by eapply core_inv_step]; [done|]. intros m b. rewrite Hl. set_solver.
Qed.

(** The streams end, and no output is handled any more. *)
Lemma sys_shut_down s x : SysInv (with_llm x s) -> al_closing x = true ->
  SysInv (with_llm (shut_down_streams (x <| al_closing := false |>)) s).
Proof.
  intros [Hs Hc [F1 F2 F0 F3 F4 F5 F6 F7]] Hcl. simpl in *. destruct (fail_all_served SHUTTING_DOWN _ (sm_served _ Hs)) as (Hsv & Hrs & Hdom).
  split; simpl; [split; simpl; [done|]|by destruct Hc|split; simpl; try done].
  - intros a Ha. by apply (sm_fresh _ Hs), Hdom.
  - intros _. by rewrite (F0 Hcl), orb_true_r.
Qed.

Lemma sys_scheduled s : SysInv s -> SysInv (with_llm (run_scheduled (sys_llm s)) s).
Proof. intros Hi. unfold run_scheduled. destruct (al_closing (sys_llm s)) eqn:Hcl; [by apply sys_shut_down; [destruct s|]|by destruct s]. Qed.

Lemma sys_stop on_loop alive s : SysInv s -> SysInv (with_llm (al_stop on_loop alive (sys_llm s)) s).
Proof.
  intros [Hs Hc Hf]. set (x := sys_llm s) in *. unfold al_stop.
  destruct (al_stopped x) eqn:Hst; [by split|].
  assert (Hst' : cl_stopped (al_core x) = false) by by rewrite <-(fi_stopped _ Hf).
  destruct (client_shutdown_spec alive (al_core x) (ci_tracked _ _ _ _ Hc) Hst')
    as (Ht & Hset & H1 & H2 & H3 & H4 & H5 & H6 & H7 & Hdone).
  set (c' := client_shutdown alive (al_core x)) in *.
  assert (Hno : forall a, ~ pending_at a c') by (intros a Hp; by specialize (Hdone _ _ Hp)).
  assert (Hcl : al_closing x = false) by (destruct (al_closing x) eqn:E; [by rewrite (fi_closing _ Hf E) in Hst|done]).
  set (x1 := x <| al_stopped := true |> <| al_core ::= client_shutdown alive |>).
  assert (Hx1 : SysInv (with_llm (x1 <| al_closing := true |>) s)).
  { split; simpl; [destruct Hs; by split|fold c'|].
    - destruct Hc as [Htr Hu Ha Hca Had Hcc Hct Hcl']. split; try done.
      + unfold Usable. by rewrite H1, H2.
      + intros t Hin. destruct (Ha t Hin) as (A1 & A2 & A3 & A4). rewrite H5. split_and!; [done| | |done].
        * destruct Hset. lia.
        * by intros Hp%Hno.
      + intros r a. by rewrite H5.
      + intros n a Hin. destruct (Hcc n a Hin) as (A1 & A2 & A3). rewrite H6, H7. split_and!; [done| |done].
        destruct Hset. lia.
      + intros n a. by rewrite H6.
    - destruct Hf as [F1 F2 F0 F3 F4 F5 F6 F7]. split; simpl; fold c'; try done.
      + by rewrite H3.
      + intros Hh. specialize (F6 Hh). unfold has_error in *. by rewrite H3, H4. }
  unfold on_loop_shut_down. change (al_started x1) with (al_started x). rewrite (fi_started _ Hf). destruct on_loop; [|exact Hx1]. simpl.
  assert (He : x1 = (x1 <| al_closing := true |>) <| al_closing := false |>) by (unfold x1; clear -Hcl; destruct x; simpl in *; by rewrite Hcl).
  rewrite He. by apply sys_shut_down.
Qed.

(** ** Reachable states *)

Lemma sys_inv_initial has_tokenizer : SysInv (initial has_tokenizer).
Proof.
  assert (Hno : forall a (c : AsyncMPClient), cl_futures c = [] -> ~ pending_at a c)
    by (intros a c Hc; unfold pending_at; by rewrite Hc).
  split; [split|split|split]; simpl; try done; try set_solver.
  intros a [q Hq]. simplify_map_eq.
Qed.

Lemma sys_inv_step `{!TokenizerLaws} s s' : SysInv s -> sys_step s s' -> SysInv s'.
Proof.
  intros Hi Hstep. pose proof (ci_tracked _ _ _ _ (si_core _ Hi)) as Ht.
  destruct Hstep.
  - by eapply (sys_add_step _ _ _ (inr (_, _))).
  - by eapply (sys_add_step _ _ _ (inl _)).
  - by eapply sys_cancel.
  - by eapply sys_add_end.
  - apply sys_core_step; [done|]. by apply read_outputs_step.
  - apply sys_core_step; [done|]. by apply read_failed_step.
  - apply sys_core_step; [done|]. by apply process_exit_step.
  - apply sys_core_step; [done|]. apply quiet_step; try done. exists []. by rewrite app_nil_r.
  - by apply handle_output_sys.
  - pose proof Hi as [Hs Hc Hf].
    destruct (al_abort_keeps rid reason (sys_llm s) Hs Hf) as (x' & -> & K); [apply Hc..|]. by apply keeps_sys.
  - apply keeps_sys; [done|]. destruct Hi as [Hs Hc Hf]. apply al_close_keeps; by try apply Hc.
  - by eapply (sys_metrics_step (inr (_, _))).
  - by eapply (sys_metrics_step (inl _)).
  - by eapply sys_metrics_end.
  - by apply sys_stop.
  - by apply sys_scheduled.
Qed.

Lemma sys_inv_reachable `{!TokenizerLaws} has_tokenizer s :
  rtc sys_step (initial has_tokenizer) s -> SysInv s.
Proof.
  intros Hr. remember (initial has_tokenizer) as s0 eqn:Hs0.
  assert (SysInv s0) as Hi by (subst; apply sys_inv_initial). clear Hs0.
  induction Hr; [done|]. by eapply IHHr, sys_inv_step.
Qed.

(** On a closed core no coroutine waits, and past a death or a stop no reader
    does, once a callback that the stop left has run. *)
Lemma sys_inv_no_hang s : SysInv s ->
  (closed (al_core (sys_llm s)) ->
     (forall t, t ∈ sys_adds s -> fut_done (outcome_of (sys_llm s) (at_future t)) = true) /\
     (forall n a, (n, a) ∈ sys_calls s -> fut_done (outcome_of (sys_llm s) a) = true)) /\
  (is_dead (sys_llm s) || al_stopped (sys_llm s) = true ->
     forall a q, streams (al_processor (run_scheduled (sys_llm s))) !! a = Some q -> ended q) /\
  al_deaths (sys_llm s) <= 1.
Proof.
  intros Hi. pose proof (sys_scheduled s Hi) as [Hs' _ Hf']. destruct Hi as [Hs Hc Hf]. split_and!.
  - intros Hcl. destruct (ci_closed _ _ _ _ Hc Hcl) as [H1 H2].
    assert (Hd : forall a, a < length (cl_futures (al_core (sys_llm s))) ->
      ~ pending_at a (al_core (sys_llm s)) -> fut_done (outcome_of (sys_llm s) a) = true).
    { intros a Hl Hn. unfold outcome_of, pending_at in *.
      destruct (lookup_lt_is_Some_2 _ _ Hl) as [f Hfa]. rewrite Hfa in *. simpl. by destruct f. }
    split.
    + intros t Hin. apply Hd; [by apply (ci_adds _ _ _ _ Hc) | by apply H1].
    + intros n a Hin. apply Hd; [by apply (ci_calls _ _ _ _ Hc n a Hin) | by eapply H2].
  - intros Hd a q Hq. eapply served_unowned; [apply Hs' | exact Hq|]. simpl in Hf'.
    intros r st Hr. assert (He : request_states (al_processor (run_scheduled (sys_llm s))) = ∅); [apply (fi_closed _ Hf')|change (request_states (al_processor (run_scheduled (sys_llm s))) !! r = Some st) in Hr; by rewrite He in Hr; simplify_map_eq].
    + unfold run_scheduled. destruct (al_closing _); [|done]. exact Hd.
    + unfold run_scheduled. by destruct (al_closing (sys_llm s)) eqn:Hc'.
  - rewrite (fi_deaths _ Hf). destruct (is_dead _); lia.
Qed.

(** One turn of the output handler. *)
Definition handle_turn (s s' : System) : Prop :=
  al_handling (sys_llm s) = true /\ s' = with_llm (handle_output (sys_llm s)).2 s.

Lemma handle_outputs_turn `{!TokenizerLaws} s outs q : SysInv s ->
  cl_outputs (al_core (sys_llm s)) = inl outs :: q ->
  let x' := (handle_output (sys_llm s)).2 in
  cl_outputs (al_core x') = q /\ cl_error (al_core x') = cl_error (al_core (sys_llm s)) /\
  al_handling x' = al_handling (sys_llm s) /\ al_closing x' = al_closing (sys_llm s).
Proof.
  intros Hi Hq. simpl. unfold handle_output, bind at 1, on_core, zoom, get_output, bind, gets, modify, ret.
  rewrite Hq. unfold on_streams, zoom. simpl.
  pose proof (process_outputs_served outs (al_processor (sys_llm s)) (sm_served _ (si_streams _ Hi))) as Hp.
  unfold wp in Hp. by destruct (process_outputs outs (al_processor (sys_llm s))) as [[e|l] p'].
Qed.

Lemma handle_dead_turn s d q : al_handling (sys_llm s) = true -> al_closing (sys_llm s) = false -> SysInv s ->
  cl_outputs (al_core (sys_llm s)) = inr d :: q ->
  is_dead (handle_output (sys_llm s)).2 = true /\ al_closing (handle_output (sys_llm s)).2 = false.
Proof.
  intros Hh Hcl [Hs Hc Hf] Hq. unfold handle_output, bind at 1, on_core, zoom, get_output, bind, gets, modify, ret.
  rewrite Hq. simpl. split; [|unfold al_die; by destruct (_ || _)].
  destruct (al_die_inv d ((al_core (sys_llm s)) <| cl_outputs := q |>) (sys_llm s)) as (_ & _ & Hd & _);
    try done.
  pose proof (fi_queued _ Hf Hh) as Hqd. rewrite Hq in Hqd. unfold has_error in Hqd.
  destruct (cl_error (al_core (sys_llm s))); [by eexists | by simpl in Hqd].
Qed.

(** The handler reaches a queued death in as many turns as there are items in
    the queue, at most. *)
Lemma death_delivered `{!TokenizerLaws} s : SysInv s -> al_handling (sys_llm s) = true -> al_closing (sys_llm s) = false ->
  is_Some (cl_error (al_core (sys_llm s))) ->
  exists n s', n <= length (cl_outputs (al_core (sys_llm s))) /\ nsteps handle_turn n s s' /\
    SysInv s' /\ is_dead (sys_llm s') = true /\ al_closing (sys_llm s') = false.
Proof.
  intros Hi Hh Hcl He. remember (cl_outputs (al_core (sys_llm s))) as q eqn:Hq. symmetry in Hq.
  revert s Hi Hh Hcl He Hq. induction q as [|[outs|d] q IH]; intros s Hi Hh Hcl He Hq.
  - pose proof (fi_queued _ (si_flags _ Hi) Hh) as Hqd. rewrite Hq in Hqd. unfold has_error in Hqd.
    by destruct He as [e He]; rewrite He in Hqd.
  - destruct (handle_outputs_turn s outs q Hi Hq) as (H1 & H2 & H3 & H4).
    pose proof (handle_output_sys s Hi Hh) as Hi'.
    destruct (IH _ Hi') as (n & s' & Hn & Hns & Hr); simpl; [by rewrite H3 | by rewrite H4 | by rewrite H2 | done|].
    exists (S n), s'. simpl. split; [lia|]. split; [|done]. by econstructor.
  - exists 1, (with_llm (handle_output (sys_llm s)).2 s). simpl. split; [lia|].
    split; [by apply nsteps_once|]. split; [by apply handle_output_sys|].
    by eapply handle_dead_turn.
Qed.

End AsyncLLM.
