(* ===== verification/Protocol.v ===== *)
(** * Request and response bodies

    [entrypoints/protocol.py]: the OpenAI-compatible bodies. What the server
    does not implement is refused by name; the coercion of the declared fields
    is pydantic's, a parameter. *)

From S2P Require Import Prelude Output.

(** ** JSON objects *)

Abbreviation dict := (list (string * pyval)).

(** [d[k]], [None] where [k not in d]. *)
Fixpoint dict_get (d : dict) (k : string) : option pyval :=
  match d with
  | [] => None
  | (k', v) :: d' => if String.eqb k k' then Some v else dict_get d' k
  end.

(** [del d[k]]. *)
Definition dict_del (k : string) (d : dict) : dict := filter (fun p => p.1 <> k) d.

(** [v == w] for a scalar [w]: numbers compare across their types. *)
Definition as_number (v : pyval) : option Qc :=
  match v with
  | PBool b => Some (if b then 1%Qc else 0%Qc)
  | PInt z => Some (Qc_of_Z z)
  | PFloat q => Some q
  | _ => None
  end.

Definition eq_scalar (v w : pyval) : bool :=
  match as_number v, as_number w with
  | Some a, Some b => Qc_eqb a b
  | _, _ => match v, w with PStr a, PStr b => String.eqb a b | _, _ => false end
  end.

(** ** Unsupported fields *)

(** Each name with its no-op values and the reason it is refused. *)
Definition UNSUPPORTED : list (string * (list pyval * string)) :=
  [("min_p", ([PFloat 0%Qc], "lean-vLLM samples with temperature, top-k and top-p only"));
   ("best_of", ([PInt 1], "n > 1 is out of scope"));
   ("logprobs", ([PBool false; PInt 0], "the sampler does not return logprobs"));
   ("top_logprobs", ([PInt 0], "the sampler does not return logprobs"));
   ("presence_penalty", ([PFloat 0%Qc], "penalties are not implemented"));
   ("frequency_penalty", ([PFloat 0%Qc], "penalties are not implemented"));
   ("repetition_penalty", ([PFloat 1%Qc], "penalties are not implemented"));
   ("seed", ([], "the sampler does not take a per-request seed"));
   ("logit_bias", ([], "logit processors are not implemented"));
   ("tools", ([], "tool calling is not implemented"));
   ("tool_choice", ([PStr "none"], "tool calling is not implemented"));
   ("functions", ([], "tool calling is not implemented"));
   ("echo", ([PBool false], "the prompt is never echoed back"));
   ("suffix", ([], "infilling is not implemented"))]%string.

Definition asks_for_it (v : pyval) (neutral : list pyval) : bool :=
  match v with
  | PNone | PList [] | PDict [] => false
  | _ => negb (existsb (eq_scalar v) neutral)
  end.

Definition unsupported_message (name reason : string) : string :=
  name +:+ " is not supported: " +:+ reason.

(** One turn of the loop of [_refuse_unsupported]. *)
Definition refuse_field (row : string * (list pyval * string)) : M dict unit :=
  let '(name, (neutral, reason)) := row in
  let! data := gets id in
  match dict_get data name with
  | None => ret tt
  | Some v =>
      if asks_for_it v neutral then raise (ValueError (unsupported_message name reason))
      else modify (dict_del name)
  end.

Definition refuse_unsupported : M dict unit := for_each UNSUPPORTED refuse_field.

(** ** Requests *)

Record StreamOptions := { so_include_usage : bool }.

Record BaseRequest := {
  rq_model : string;
  rq_max_tokens : Z;
  rq_temperature : Qc;
  rq_top_p : option Qc;
  rq_top_k : option Z;
  rq_stream : bool;
  rq_stream_options : option StreamOptions;
  rq_stop : option (string + list string);
  rq_n : Z;
  rq_ignore_eos : bool;
  rq_priority : Z;
  rq_kv_transfer_params : option (gmap string pyval)
}.

(** The defaults of the fields a body may leave out. *)
Definition default_BaseRequest (model : string) : BaseRequest :=
  {| rq_model := model; rq_max_tokens := 64; rq_temperature := 1; rq_top_p := None;
     rq_top_k := None; rq_stream := false; rq_stream_options := None; rq_stop := None;
     rq_n := 1; rq_ignore_eos := false; rq_priority := 0; rq_kv_transfer_params := None |}.

#[export] Instance eta_BaseRequest : Eta BaseRequest := fun r =>
  Build_BaseRequest (rq_model r) (rq_max_tokens r) (rq_temperature r) (rq_top_p r) (rq_top_k r)
    (rq_stream r) (rq_stream_options r) (rq_stop r) (rq_n r) (rq_ignore_eos r) (rq_priority r)
    (rq_kv_transfer_params r).

(** The bounds the fields declare. *)
Definition fields_ok (r : BaseRequest) : bool :=
  (1 <=? rq_max_tokens r)%Z && Qc_leb 0 (rq_temperature r) &&
  match rq_top_p r with Some p => Qc_ltb 0 p && Qc_leb p 1 | None => true end &&
  match rq_top_k r with Some k => (-1 <=? k)%Z | None => true end.

(** [_check_n]. *)
Definition check_n (r : BaseRequest) : exn + unit :=
  if (rq_n r =? 1)%Z then inr tt else inl (ValueError "n must be 1").

Definition stop_strings (r : BaseRequest) : list string :=
  match rq_stop r with
  | None => []
  | Some (inl s) => [s]
  | Some (inr l) => l
  end.

Definition include_usage (r : BaseRequest) : bool :=
  match rq_stream_options r with Some o => so_include_usage o | None => false end.

Inductive Role := System_ | User | Assistant.

Record ChatMessage := { cm_role : Role; cm_content : string }.

Record CompletionRequest := { cr_base : BaseRequest; cr_prompt : string + list Z }.

Record ChatCompletionRequest := { cc_base : BaseRequest; cc_messages : list ChatMessage }.

Definition messages_ok (r : ChatCompletionRequest) : bool := bool_decide (cc_messages r <> []).

(** ** Validation

    The validator before the fields, pydantic's coercion of them ([coerce],
    which also refuses names it does not know), their bounds, and the validator
    after. *)

Section Validate.
Context {B : Type}.
Variable base : B -> BaseRequest.
Variable bounds : B -> bool.
Variable coerce : pyval -> exn + B.
Variable out_of_bounds : B -> exn.

Definition validate_fields (data : pyval) : exn + B :=
  match coerce data with
  | inl e => inl e
  | inr b =>
      if fields_ok (base b) && bounds b then
        match check_n (base b) with inl e => inl e | inr _ => inr b end
      else inl (out_of_bounds b)
  end.

Definition validate_body (data : pyval) : exn + B :=
  match data with
  | PDict d =>
      match refuse_unsupported d with
      | (inl e, _) => inl e
      | (inr _, d') => validate_fields (PDict d')
      end
  | _ => validate_fields data
  end.

End Validate.

(** ** Responses *)

Record UsageInfo := { ui_prompt_tokens : Z; ui_completion_tokens : Z; ui_total_tokens : Z }.

Definition usage (num_prompt_tokens num_completion_tokens : Z) : UsageInfo :=
  {| ui_prompt_tokens := num_prompt_tokens; ui_completion_tokens := num_completion_tokens;
     ui_total_tokens := num_prompt_tokens + num_completion_tokens |}.

Record ModelCard := { mc_id : string; mc_object : string; mc_created : Z; mc_owned_by : string }.

Definition model_card (id : string) : ModelCard :=
  {| mc_id := id; mc_object := "model"; mc_created := 0; mc_owned_by := "lean-vllm" |}.

Record ModelList := { ml_object : string; ml_data : list ModelCard }.

(** [logprobs], whose one value is [None], is left out. *)
Record CompletionResponseChoice := {
  cp_index : Z; cp_text : string; cp_finish_reason : option string
}.

Record ChatCompletionResponseChoice := {
  ch_index : Z; ch_message : ChatMessage; ch_finish_reason : option string
}.

Record DeltaMessage := { dm_role : option Role; dm_content : option string }.

Record ChatCompletionResponseStreamChoice := {
  sc_index : Z; sc_delta : DeltaMessage; sc_finish_reason : option string
}.

(** The whole responses, by their choice. *)
Record Response (Choice : Type) := {
  rs_id : string;
  rs_object : string;
  rs_created : Z;
  rs_model : string;
  rs_choices : list Choice;
  rs_usage : UsageInfo;
  rs_kv_transfer_params : option (gmap string pyval)
}.

(** The streamed chunks, by their choice. *)
Record StreamResponse (Choice : Type) := {
  st_id : string;
  st_object : string;
  st_created : Z;
  st_model : string;
  st_choices : list Choice;
  st_usage : option UsageInfo
}.

Arguments Build_Response {Choice}.
Arguments Build_StreamResponse {Choice}.
Arguments rs_choices {Choice}.
Arguments rs_usage {Choice}.
Arguments rs_kv_transfer_params {Choice}.
Arguments st_choices {Choice}.
Arguments st_usage {Choice}.

Definition CompletionResponse : Type := Response CompletionResponseChoice.
Definition ChatCompletionResponse : Type := Response ChatCompletionResponseChoice.
Definition CompletionStreamResponse : Type := StreamResponse CompletionResponseChoice.
Definition ChatCompletionStreamResponse : Type := StreamResponse ChatCompletionResponseStreamChoice.

(** ** What is refused *)

(** The body asks for what a row of the table refuses. *)
Definition asked (d : dict) (row : string * (list pyval * string)) : Prop :=
  exists v, dict_get d row.1 = Some v /\ asks_for_it v row.2.1 = true.

Lemma dict_get_del k k' d : k <> k' -> dict_get (dict_del k d) k' = dict_get d k'.
Proof.
  intros Hk. induction d as [|[a v] d IH]; [done|]. unfold dict_del. rewrite filter_cons. simpl.
  case_decide as Ha; simpl; [by destruct (String.eqb k' a)|].
  subst a. destruct (String.eqb_spec k' k); [congruence|done].
Qed.

Lemma dict_get_None d k : dict_get d k = None <-> k ∉ d.*1.
Proof.
  induction d as [|[a v] d IH]; simpl; [split; [intros _; apply not_elem_of_nil|done]|].
  rewrite not_elem_of_cons. destruct (String.eqb_spec k a); naive_solver.
Qed.

(** [refuse_unsupported] over any table of distinct names. *)
Lemma refuse_fields_spec table d :
  NoDup table.*1 ->
  match for_each table refuse_field d with
  | (inl e, _) => exists before row after, table = before ++ row :: after /\
      asked d row /\ (forall r, r ∈ before -> ~ asked d r) /\
      e = ValueError (unsupported_message row.1 row.2.2)
  | (inr _, d') => d' = filter (fun p => p.1 ∉ table.*1) d /\ forall r, r ∈ table -> ~ asked d r
  end.
Proof.
  revert d. induction table as [|[name [neutral reason]] table IH]; intros d Hnd; simpl in *.
  - unfold ret. split; [|by intros r Hr%elem_of_nil].
    induction d as [|p d IH]; [done|]. rewrite filter_cons, decide_True by apply not_elem_of_nil. by rewrite <-IH.
  - apply NoDup_cons in Hnd as [Hn Hnd]. unfold bind at 1 2, gets at 1, id.
    destruct (dict_get d name) as [v|] eqn:Hg.
    + destruct (asks_for_it v neutral) eqn:Ha; simpl.
      * exists [], (name, (neutral, reason)), table. split_and!; [done|by exists v| |done].
        by intros r Hr%elem_of_nil.
      * assert (Hsame : forall r, r ∈ table -> asked (dict_del name d) r <-> asked d r).
        { intros r Hr. unfold asked. rewrite dict_get_del; [done|].
          intros ->. by apply Hn, list_elem_of_fmap_2. }
        assert (Hthis : ~ asked d (name, (neutral, reason))).
        { intros (w & Hw & Haw). simpl in *. congruence. }
        specialize (IH (dict_del name d) Hnd).
        destruct (for_each table refuse_field (dict_del name d)) as [[e|[]] d'].
        -- destruct IH as (before & row & after & -> & Hr & Hb & ->).
           exists ((name, (neutral, reason)) :: before), row, after. split_and!; [done| | |done].
           ++ apply Hsame; [|done]. apply elem_of_app; right; constructor.
           ++ intros r [->|Hin]%elem_of_cons; [done|]. rewrite <-Hsame; [by apply Hb|].
              apply elem_of_app; by left.
        -- destruct IH as [-> Hall]. split.
           ++ unfold dict_del. rewrite list_filter_filter. apply filter_ext_in. intros p _.
              rewrite not_elem_of_cons. tauto.
           ++ intros r [->|Hin]%elem_of_cons; [done|]. rewrite <-Hsame by done. by apply Hall.
    + assert (Hthis : ~ asked d (name, (neutral, reason))).
      { intros (w & Hw & _). simpl in *. congruence. }
      specialize (IH d Hnd). unfold ret at 1. destruct (for_each table refuse_field d) as [[e|[]] d'].
      * destruct IH as (before & row & after & -> & Hr & Hb & ->).
        exists ((name, (neutral, reason)) :: before), row, after. split_and!; [done..| |done].
        intros r [->|Hin]%elem_of_cons; [done|by apply Hb].
      * destruct IH as [-> Hall]. split.
        -- apply filter_ext_in. intros p Hp. rewrite not_elem_of_cons.
           apply dict_get_None in Hg. split; [|tauto]. intros Hq. split; [|done].
           intros Heq. apply Hg. rewrite <-Heq. by apply list_elem_of_fmap_2.
        -- intros r [->|Hin]%elem_of_cons; [done|by apply Hall].
Qed.

Lemma UNSUPPORTED_NoDup : NoDup UNSUPPORTED.*1.
Proof. apply (bool_decide_unpack _). by vm_compute. Qed.

(** What a validated body guarantees. *)
Lemma validate_body_ok {B} (base : B -> BaseRequest) bounds coerce oob data b :
  validate_body base bounds coerce oob data = inr b -> fields_ok (base b) = true /\ rq_n (base b) = 1%Z.
Proof.
  assert (Hf : forall data, validate_fields base bounds coerce oob data = inr b ->
    fields_ok (base b) = true /\ rq_n (base b) = 1%Z).
  { intros x. unfold validate_fields, check_n. destruct (coerce x) as [|b']; [done|].
    destruct (fields_ok (base b')) eqn:Hb; [|done]. destruct (bounds b'); [|done]. simpl.
    destruct (Z.eqb_spec (rq_n (base b')) 1); [|done]. by intros [= <-]. }
  unfold validate_body. destruct data; try apply Hf.
  destruct (refuse_unsupported d) as [[e|[]] d']; [done|]. apply Hf.
Qed.
