(* ===== verification/ApiServer.v ===== *)
(** * The HTTP server

    [entrypoints/api_server.py]: the handlers over the server's engine. A
    handler is a coroutine of the transition system of [AsyncLLM]: each time it
    waits, the others take their steps, which are a function on the system
    here; a list of them is the schedule of a call, and its end is where the
    client leaves. HTTP, JSON and the chat template are libraries. *)

From Stdlib Require Import Ascii.
From S2P Require Import Prelude Output StopChecker OutputProcessor Core CoreClient AsyncLLM Protocol.

Definition newlines : string := String "010" (String "010" EmptyString).

Definition DONE : string := "data: [DONE]" +:+ newlines.

Definition FINISH_REASONS (reason : option string) : option string :=
  match reason with
  | Some "stop" => Some "stop"
  | Some "length" => Some "length"
  | Some "abort" => Some "stop"
  | _ => None
  end%string.

Definition to_text (s : string) : text := String.list_ascii_of_string s.
Definition of_text (t : text) : string := String.string_of_list_ascii t.

(** ** Answers *)

Inductive Reply :=
| CompletionReply (r : CompletionResponse)
| ChatReply (r : ChatCompletionResponse).

(** What a stream sends, before its serialization. *)
Inductive Event :=
| EvText (r : CompletionStreamResponse)
| EvChat (r : ChatCompletionStreamResponse)
| EvError (kind message : string)
| EvDone.

(** [AStream]: the events sent, and the exception that broke the stream off, if
    any. [AWaiting]: the call is still waiting for its admission. *)
Inductive Answer :=
| AReply (r : Reply)
| AStream (events : list Event) (broken : option exn)
| AError (status : Z) (kind message : string)
| ADisconnected
| ARaised (e : exn)
| AWaiting.

(** The exception handlers of the application. *)
Definition exception_answer (e : exn) : Answer :=
  match e with
  | HTTPException status detail =>
      AError status (if (500 <=? status)%Z then "server_error" else "invalid_request_error") detail
  | InvalidRequest m | DuplicateRequestId m => AError 400 "invalid_request_error" m
  | EngineDeadError m => AError 503 "server_error" m
  | e => ARaised e
  end.

(** The first error of a [RequestValidationError]: its location, its message. *)
Record ValidationError := { ve_loc : list string; ve_msg : option string }.

Fixpoint remove_prefix (p s : string) : string :=
  match p, s with
  | EmptyString, _ => s
  | String a p', String b s' => if Ascii.eqb a b then remove_prefix p' s' else s
  | _, EmptyString => s
  end.

(** [s.removeprefix(p)]. *)
Definition removeprefix (p s : string) : string := if String.prefix p s then remove_prefix p s else s.

Definition first_message (error : ValidationError) : string :=
  let location := String.concat "." (filter (fun p => p <> "body"%string) (ve_loc error)) in
  let message := removeprefix "Value error, " (default "invalid request" (ve_msg error)) in
  match location with
  | EmptyString => message
  | _ => location +:+ ": " +:+ message
  end.

Definition bad_request (error : ValidationError) : Answer :=
  AError 400 "invalid_request_error" (first_message error).

Section Render.
(** [model_dump_json] with [exclude_unset], and [json.dumps]. *)
Variable dump_text : CompletionStreamResponse -> string.
Variable dump_chat : ChatCompletionStreamResponse -> string.
Variable dumps : list (string * pyval) -> string.

(** [_error]. *)
Definition error_body (kind message : string) : list (string * pyval) :=
  [("error", PDict [("message", PStr message); ("type", PStr kind)])]%string.

(** [_event]. *)
Definition event_text (e : Event) : string :=
  match e with
  | EvText r => "data: " +:+ dump_text r +:+ newlines
  | EvChat r => "data: " +:+ dump_chat r +:+ newlines
  | EvError kind message => "data: " +:+ dumps (error_body kind message) +:+ newlines
  | EvDone => DONE
  end.

End Render.

(** ** Replies *)

(** What [_deltas] yields. *)
Record Delta := {
  dl_text : text;
  dl_reason : option string;
  dl_tokens : Z;
  dl_kv : option (gmap string pyval)
}.

(** How [_deltas] ends: by itself, by an exception, or closed by its consumer
    because the client left. *)
Inductive Ended := Done | Failed (e : exn) | Left.

(** [reason or finish_reason]. *)
Definition or_reason (reason : option string) (finish_reason : string) : string :=
  match reason with
  | Some (String _ _ as r) => r
  | _ => finish_reason
  end.

(** The loop of [_collect]. *)
Definition collect_deltas (l : list Delta) : text * string * Z * option (gmap string pyval) :=
  foldl (fun '(t, finish_reason, _, _) d =>
    (t ++ dl_text d, or_reason (dl_reason d) finish_reason, dl_tokens d, dl_kv d))
    ([], "stop"%string, 0%Z, None) l.

Definition make_reply (rid model : string) (num_prompt created : Z) (chat : bool)
    (t : text) (finish_reason : string) (num_tokens : Z) (kv : option (gmap string pyval)) : Reply :=
  let u := usage num_prompt num_tokens in
  if chat then
    let message := {| cm_role := Assistant; cm_content := of_text t |} in
    ChatReply (Build_Response rid "chat.completion" created model
      [{| ch_index := 0; ch_message := message; ch_finish_reason := Some finish_reason |}] u kv)
  else
    CompletionReply (Build_Response rid "text_completion" created model
      [{| cp_index := 0; cp_text := of_text t; cp_finish_reason := Some finish_reason |}] u kv).

Definition collect_reply (rid model : string) (num_prompt created : Z) (chat : bool)
    (l : list Delta) : Reply :=
  let '(t, finish_reason, num_tokens, kv) := collect_deltas l in
  make_reply rid model num_prompt created chat t finish_reason num_tokens kv.

(** [choice] and [chunk] of [_stream]. *)
Definition text_choice (t : text) (reason : option string) : CompletionResponseChoice :=
  {| cp_index := 0; cp_text := of_text t; cp_finish_reason := reason |}.

Definition chat_choice (t : text) (reason : option string) (role : option Role) :
    ChatCompletionResponseStreamChoice :=
  {| sc_index := 0; sc_delta := {| dm_role := role; dm_content := Some (of_text t) |};
     sc_finish_reason := reason |}.

Definition text_chunk (rid model : string) (created : Z) choices u : Event :=
  EvText (Build_StreamResponse rid "text_completion" created model choices u).

Definition chat_chunk (rid model : string) (created : Z) choices u : Event :=
  EvChat (Build_StreamResponse rid "chat.completion.chunk" created model choices u).

Definition choice_chunk (rid model : string) (created : Z) (chat : bool)
    (t : text) (reason : option string) (role : option Role) : Event :=
  if chat then chat_chunk rid model created [chat_choice t reason role] None
  else text_chunk rid model created [text_choice t reason] None.

Definition usage_chunk (rid model : string) (created : Z) (chat : bool) (u : UsageInfo) : Event :=
  if chat then chat_chunk rid model created [] (Some u) else text_chunk rid model created [] (Some u).

(** [str(getattr(error, "detail", error))]. *)
Definition error_detail (e : exn) : string :=
  match e with HTTPException _ d => d | EngineDeadError m => m | _ => "" end.

(** The tokens of the last yield. *)
Definition last_tokens (l : list Delta) : Z := foldl (fun _ d => dl_tokens d) 0%Z l.

(** [_stream]: its events, and the exception it does not catch. *)
Definition stream_events (rid model : string) (created num_prompt : Z) (chat usage_wanted : bool)
    (l : list Delta) (e : Ended) : list Event * option exn :=
  let role := if chat then [choice_chunk rid model created chat [] None (Some Assistant)] else [] in
  let chunks := (fun d => choice_chunk rid model created chat (dl_text d) (dl_reason d) None) <$> l in
  match e with
  | Failed (EngineDeadError _ as e) | Failed (HTTPException _ _ as e) =>
      (role ++ chunks ++ [EvError "server_error" (error_detail e); EvDone], None)
  | Failed e => (role ++ chunks, Some e)
  | Left => (role ++ chunks, None)
  | Done =>
      (role ++ chunks ++
       (if usage_wanted then [usage_chunk rid model created chat (usage num_prompt (last_tokens l))] else []) ++
       [EvDone], None)
  end.

Section ApiServer.
Context `{Tokenizer}.
Variable repr_exn : exn -> string.
Variable repr_str : string -> string.
Variable encode : string -> list Z.
Variable apply_chat_template : list ChatMessage -> list Z.

(** ** Coroutines of the system *)

(** What the other coroutines do while a handler waits. *)
Abbreviation Others := (System -> System).

Definition on_llm {A} (m : M AsyncLLM A) : M System A := zoom sys_llm with_llm m.

(** A call's checker, its count of tokens and its place in the stream. *)
Record Deltas := {
  ds_checker : StopChecker;
  ds_num_tokens : Z;
  ds_read : nat
}.

#[export] Instance eta_Deltas : Eta Deltas := fun d =>
  Build_Deltas (ds_checker d) (ds_num_tokens d) (ds_read d).

Definition new_Deltas (body : BaseRequest) : Deltas :=
  {| ds_checker := new_StopChecker (to_text <$> stop_strings body); ds_num_tokens := 0; ds_read := 0 |}.

Definition on_checker {A} (m : M StopChecker A) : M (System * Deltas) A :=
  on_snd (zoom ds_checker (fun c d => d <| ds_checker := c |>) m).

(** [_deltas], one output: what it yields, and whether it returned. *)
Definition deltas_output (rid : string) (o : RequestOutput) : M (System * Deltas) (list Delta * bool) :=
  on_snd (modify (fun d => d <| ds_num_tokens ::= fun n => (n + Zlen (ro_token_ids o))%Z |>));;;
  let! t := on_checker (push (to_text (ro_text o))) in
  let! d := gets snd in
  let n := ds_num_tokens d in
  if matched (ds_checker d) then
    on_fst (on_llm (al_abort repr_exn rid "stop"));;;
    ret ([{| dl_text := t; dl_reason := Some "stop"; dl_tokens := n; dl_kv := None |}], true)
  else if ro_finished o then
    match FINISH_REASONS (ro_finish_reason o) with
    | None => raise (HTTPException 503 ("the engine dropped the request: " +:+
        match ro_finish_reason o with Some r => r | None => "None" end))
    | Some reason =>
        let! tail := on_checker flush in
        ret ([{| dl_text := t ++ tail; dl_reason := Some reason; dl_tokens := n;
                 dl_kv := ro_kv_transfer_params o |}], true)
    end
  else ret (if bool_decide (t = []) then []
            else [{| dl_text := t; dl_reason := None; dl_tokens := n; dl_kv := None |}], false).

(** The next item of the stream, if the reader is woken with one. *)
Definition next_item (stream : nat) : M (System * Deltas) (option (RequestOutput + exn)) :=
  let! p := gets id in
  match (streams (al_processor (sys_llm p.1)) !! stream) ≫= (.!! ds_read p.2) with
  | None => ret None
  | Some item => on_snd (modify (fun d => d <| ds_read ::= S |>));;; ret (Some item)
  end.

(** The loop of [_deltas] over a schedule, up to its [finally]. *)
Fixpoint deltas_loop (rid : string) (stream : nat) (schedule : list Others) :
    M (System * Deltas) (list Delta * Ended) :=
  match schedule with
  | [] => ret ([], Left)
  | others :: schedule' =>
      on_fst (modify others);;;
      let! item := next_item stream in
      match item with
      | None => deltas_loop rid stream schedule'
      | Some (inr e) => ret ([], Failed e)
      | Some (inl o) =>
          let! r := try_except (let! r := deltas_output rid o in ret (inr r)) (fun e => ret (inl e)) in
          match r with
          | inl e => ret ([], Failed e)
          | inr (l, true) => ret (l, Done)
          | inr (l, false) =>
              let! p := deltas_loop rid stream schedule' in ret (l ++ p.1, p.2)
          end
      end
  end.

(** [_deltas], its [finally] included: closing the engine's generator. *)
Definition deltas (rid : string) (stream : nat) (schedule : list Others) :
    M (System * Deltas) (list Delta * Ended) :=
  let! p := deltas_loop rid stream schedule in
  on_fst (on_llm (al_close repr_exn rid stream));;;
  ret p.

(** ** [_serve] *)

(** The refusals before admission. *)
Definition serve_checks (model : string) (body : BaseRequest) (x : AsyncLLM) : exn + unit :=
  if negb (String.eqb (rq_model body) model)
  then inl (HTTPException 404 ("the model " +:+ repr_str (rq_model body) +:+ " does not exist"))
  else match al_error x with
  | Some e => inl (HTTPException 503 ("the engine died: " +:+ repr_exn e))
  | None =>
      if rq_stream body &&
         match rq_kv_transfer_params body with
         | Some kv => bool_decide (kv <> ∅) && get_truthy kv "do_remote_decode"
         | None => false
         end
      then inl (HTTPException 400 "do_remote_decode needs a non-streaming request")
      else inr tt
  end.

(** The [SamplingParams] of a body, before their checks. *)
Definition body_sampling_params (body : BaseRequest) : SamplingParams :=
  {| sp_temperature := rq_temperature body;
     sp_top_p := match rq_top_p body with None => 1%Qc | Some p => p end;
     sp_top_k := match rq_top_k body with None => 0%Z | Some k => k end;
     sp_max_tokens := rq_max_tokens body;
     sp_ignore_eos := rq_ignore_eos body;
     sp_stop_token_ids := [];
     sp_skip_special_tokens := true;
     sp_priority := rq_priority body;
     sp_kv_transfer_params := rq_kv_transfer_params body |}.

(** The coroutine of [add_request], up to its await ... *)
Definition call_begin (rid : string) (ids : list Z) (sp : SamplingParams) : M System (nat * nat) :=
  let! p := on_llm (al_add_begin repr_exn encode (inr ids) sp rid) in
  modify (fun s => {| sys_llm := sys_llm s;
    sys_adds := {| at_request := rid; at_future := p.1; at_stream := p.2; at_cancelled := false |} :: sys_adds s;
    sys_calls := sys_calls s; sys_used := sys_used s |});;;
  ret p.

(** ... its place among the waiting ones ... *)
Fixpoint find_task (rid : string) (l : list AddTask) : option (list AddTask * AddTask * list AddTask) :=
  match l with
  | [] => None
  | t :: l' =>
      if String.eqb (at_request t) rid then Some ([], t, l')
      else match find_task rid l' with
           | Some (l1, u, l2) => Some (t :: l1, u, l2)
           | None => None
           end
  end.

(** ... and its resumption, once its future is done: the rest of the schedule,
    or [None] while it still waits. *)
Fixpoint call_end (rid : string) (schedule : list Others) : M System (option (list Others)) :=
  match schedule with
  | [] => ret None
  | others :: schedule' =>
      modify others;;;
      let! s := gets id in
      match find_task rid (sys_adds s) with
      | None => ret None
      | Some (l1, t, l2) =>
          if fut_done (outcome_of (sys_llm s) (at_future t)) then
            let (r, x') := al_add_end repr_exn rid (task_outcome (sys_llm s) t) (sys_llm s) in
            modify (fun s => {| sys_llm := x'; sys_adds := l1 ++ l2; sys_calls := sys_calls s;
                                sys_used := sys_used s |});;;
            match r with
            | inl e => raise e
            | inr _ => ret (Some schedule')
            end
          else call_end rid schedule'
      end
  end.

(** The new id of a call. *)
Definition take_id (rid : string) : M System unit :=
  modify (fun s => {| sys_llm := sys_llm s; sys_adds := sys_adds s; sys_calls := sys_calls s;
                      sys_used := {[rid]} ∪ sys_used s |}).

Definition request_id (chat : bool) (hex : string) : string :=
  (if chat then "chatcmpl" else "cmpl") +:+ "-" +:+ hex.

(** The client's leave: none, or where the schedule ends; before the generators
    start; or while a chunk is being sent. *)
Inductive Leave := WhileWaiting | BeforeStart | WhileSending.

(** The deltas of a call: an unstarted generator runs no [finally]. *)
Definition run_deltas (body : BaseRequest) (rid : string) (stream : nat) (leave : Leave)
    (schedule : list Others) : M System (list Delta * Ended) :=
  let run {A} (m : M (System * Deltas) A) : M System A := fun s =>
    let (r, s') := m (s, new_Deltas body) in (r, s'.1) in
  match leave with
  | WhileWaiting => run (deltas rid stream schedule)
  | BeforeStart => ret ([], Left)
  | WhileSending => run (let! p := deltas_loop rid stream schedule in ret (p.1, Left))
  end.

(** The [finally] of the streaming response; closing the body closes a
    generator suspended at its yield. *)
Definition stream_finally (rid : string) (stream : nat) (leave : Leave) : M System unit :=
  on_llm (al_abort repr_exn rid "abort");;;
  match leave with
  | WhileSending => on_llm (al_close repr_exn rid stream)
  | _ => ret tt
  end.

(** After admission: the stream, or the reply. *)
Definition respond (model : string) (body : BaseRequest) (num_prompt : Z) (chat : bool)
    (created : Z) (rid : string) (stream : nat) (leave : Leave) (schedule : list Others) :
    M System Answer :=
  if rq_stream body then
    let! p := run_deltas body rid stream leave schedule in
    stream_finally rid stream leave;;;
    let (events, broken) :=
      stream_events rid model created num_prompt chat (include_usage body) p.1 p.2 in
    ret (AStream events broken)
  else
    let leave := match leave with WhileSending => WhileWaiting | _ => leave end in
    let! p := run_deltas body rid stream leave schedule in
    match p.2 with
    | Left => on_llm (al_abort repr_exn rid "abort");;; ret ADisconnected
    | Failed e => raise e
    | Done => ret (AReply (collect_reply rid model num_prompt created chat p.1))
    end.

Definition serve (model : string) (body : BaseRequest) (ids : list Z) (chat : bool)
    (created : Z) (hex : string) (leave : Leave) (schedule : list Others) : M System Answer :=
  try_except
    (let! s := gets id in
     match serve_checks model body (sys_llm s) with
     | inl e => raise e
     | inr _ =>
         let rid := request_id chat hex in
         match SamplingParams_post_init (body_sampling_params body) with
         | (inl e, _) => raise e
         | (inr _, sp) =>
             take_id rid;;;
             let! p := call_begin rid ids sp in
             let! rest := call_end rid schedule in
             match rest with
             | None => ret AWaiting
             | Some schedule' => respond model body (Zlen ids) chat created rid p.2 leave schedule'
             end
         end
     end)
    (fun e => ret (exception_answer e)).

(** ** Routes *)

Definition completions (model : string) (body : CompletionRequest) :=
  let ids := match cr_prompt body with inr ids => ids | inl s => encode s end in
  serve model (cr_base body) ids false.

Definition chat_completions (model : string) (body : ChatCompletionRequest) :=
  serve model (cc_base body) (apply_chat_template (cc_messages body)) true.

(** [/health]: [None] is [{"status": "ok"}]. *)
Definition health (x : AsyncLLM) : option Answer :=
  match al_error x with
  | Some e => Some (exception_answer (HTTPException 503 ("the engine died: " +:+ repr_exn e)))
  | None => None
  end.

Definition models (model : string) : ModelList :=
  {| ml_object := "list"; ml_data := [model_card model] |}.

End ApiServer.
