(* ===== verification/ApiFacts.v ===== *)
(** * Facts of the HTTP server

    A call is a coroutine of the engine's transition system: its actions are
    steps, streams only grow while it waits, and what it yields is the text of
    its stream's outputs, cut at the first stop string. *)

From Stdlib Require Import Ascii.
From S2P Require Import Prelude Output StopChecker OutputProcessor Core CoreClient AsyncLLM Protocol ApiServer.

(** ** Streams grow *)

Section Growth.
Context `{Tokenizer}.
Variable repr_exn : exn -> string.
Variable encode : string -> list Z.

Abbreviation procs s := (al_processor (sys_llm s)).

(** Streams only gain items, and the requests left are earlier ones. *)
Definition Extends (p p' : OutputProcessor) : Prop :=
  (forall a q, streams p !! a = Some q -> exists q', streams p' !! a = Some (q ++ q')) /\
  (forall r st', request_states p' !! r = Some st' ->
     exists st, request_states p !! r = Some st /\ rs_stream st' = rs_stream st).

#[export] Instance Extends_preorder : PreOrder Extends.
Proof.
  split.
  - intros p. split; [|eauto]. intros a q Hq. exists []. by rewrite app_nil_r.
  - intros p1 p2 p3 [H1 R1] [H2 R2]. split.
    + intros a q [q1 Hq1]%H1. destruct (H2 _ _ Hq1) as [q2 Hq2]. exists (q1 ++ q2). by rewrite app_assoc.
    + intros r st3 (st2 & Hr2 & E2)%R2. destruct (R1 _ _ Hr2) as (st1 & Hr1 & E1). exists st1. by rewrite E2.
Qed.

Lemma abort_extends rid p : Extends p (op_abort_request rid p).
Proof.
  split; [intros a q Hq|intros r st'].
  - unfold op_abort_request. destruct (request_states p !! rid) as [st|]; [|exists []; by rewrite app_nil_r].
    destruct (rs_stream st) as [b|]; [|exists []; by rewrite app_nil_r].
    rewrite stream_put_lookup. simpl. rewrite Hq. case_decide; [by eexists|exists []; by rewrite app_nil_r].
  - rewrite abort_states. case_decide; [done|]. eauto.
Qed.

Lemma fail_all_extends e p : Extends p (fail_all e p).
Proof.
  unfold fail_all. set (l := (map_to_list _).*2). split.
  - intros a q Hq. destruct (fail_all_streams e l (p <| request_states := ∅ |>) a) as [_ ->].
    simpl. rewrite Hq. by eexists.
  - intros r st'. destruct (fail_all_streams e l (p <| request_states := ∅ |>) 0) as [-> _]. simpl.
    by rewrite lookup_empty.
Qed.

Lemma process_extends `{!TokenizerLaws} outs p : StreamsOk p -> Extends p (process_outputs outs p).2.
Proof.
  intros Hok. pose proof (process_outputs_full outs p Hok) as Hp. unfold wp in Hp.
  destruct (process_outputs outs p) as [[e|l] p']; [done|]. destruct Hp as [(Hback & Hun & Hdom) Hd].
  split; [|exact Hback]. intros a q Hq. simpl. destruct (owned_or_not a p) as [(r & st & Hr & Ha)|Hno].
  - specialize (Hd r). unfold Delivered in Hd. rewrite Hr in Hd.
    destruct Hd as (new & _ & Hfeed & _). rewrite Ha in Hfeed. destruct Hfeed as (q0 & Hq0 & Hq1 & _).
    rewrite Hq in Hq0. injection Hq0 as <-. eauto.
  - exists []. by rewrite Hun, app_nil_r.
Qed.

(** *** The engine's operations *)

Lemma al_abort_processor rid reason x :
  al_processor (al_abort repr_exn rid reason x).2 = op_abort_request rid (al_processor x).
Proof.
  unfold al_abort, bind, on_streams, zoom, modify, gets, id, on_core, ret. simpl.
  destruct (is_dead _ || al_stopped _); [done|]. unfold zoom. simpl.
  by destruct (client_abort_request repr_exn rid reason (al_core x)).
Qed.

Lemma al_close_processor rid stream x :
  al_processor (al_close repr_exn rid stream x).2 =
  match request_states (al_processor x) !! rid with
  | Some st => if bool_decide (rs_stream st = Some stream) then op_abort_request rid (al_processor x)
               else al_processor x
  | None => al_processor x
  end.
Proof.
  unfold al_close, bind, gets, id. destruct (request_states (al_processor x) !! rid); [|done].
  case_bool_decide; [|done]. apply al_abort_processor.
Qed.

Lemma al_add_end_processor rid outcome x :
  let r := al_add_end repr_exn rid outcome x in
  al_processor r.2 = match r.1 with inl _ => op_abort_request rid (al_processor x) | inr _ => al_processor x end.
Proof.
  unfold al_add_end, try_except, on_core, zoom.
  destruct (add_end rid outcome (al_core x)) as [[e|[]] c']; [|done].
  set (x1 := x <| al_core := c' |>).
  assert (Hc : let r := (al_abort repr_exn rid "abort";;; raise CancelledError : M AsyncLLM unit) x1 in
    al_processor r.2 = match r.1 with inl _ => op_abort_request rid (al_processor x) | inr _ => al_processor x end).
  { pose proof (al_abort_processor rid "abort" x1) as Ha. unfold bind.
    by destruct (al_abort repr_exn rid "abort" x1) as [[e'|[]] x2]. }
  by destruct e.
Qed.

Lemma al_abort_extends rid reason x : Extends (al_processor x) (al_processor (al_abort repr_exn rid reason x).2).
Proof. rewrite al_abort_processor. apply abort_extends. Qed.

Lemma al_close_extends rid stream x : Extends (al_processor x) (al_processor (al_close repr_exn rid stream x).2).
Proof.
  rewrite al_close_processor. destruct (request_states _ !! rid); [|done].
  case_bool_decide; [apply abort_extends | done].
Qed.

Lemma al_die_extends d x : Extends (al_processor x) (al_processor (al_die d x)).
Proof. unfold al_die. destruct (_ || _); [done|]. apply fail_all_extends. Qed.

Lemma handle_output_extends `{!TokenizerLaws} x :
  StreamsOk (al_processor x) -> Extends (al_processor x) (al_processor (handle_output x).2).
Proof.
  intros Hok. unfold handle_output, bind at 1, on_core, zoom, get_output, bind, gets, modify, ret.
  destruct (cl_outputs (al_core x)) as [|[outs|d] q]; [done| |].
  - unfold on_streams, zoom. pose proof (process_extends outs (al_processor x) Hok) as Hp. simpl.
    destruct (process_outputs outs (al_processor x)) as [[e|l] p']; exact Hp.
  - pose proof (al_die_extends d (x <| al_core := (al_core x) <| cl_outputs := q |> |>)) as Hd. exact Hd.
Qed.

Lemma al_stop_extends on_loop alive x : Extends (al_processor x) (al_processor (al_stop on_loop alive x)).
Proof.
  unfold al_stop, on_loop_shut_down. destruct (al_stopped x); [done|]. simpl.
  destruct (al_started x); [|done]. destruct on_loop; [apply fail_all_extends | done].
Qed.

Lemma run_scheduled_extends x : Extends (al_processor x) (al_processor (run_scheduled x)).
Proof. unfold run_scheduled. destruct (al_closing x); [apply fail_all_extends | done]. Qed.

(** *** The system *)

(** While others run: a request seen before is never registered anew. *)
Definition Grows (s s' : System) : Prop :=
  sys_used s ⊆ sys_used s' /\
  (forall a q, streams (procs s) !! a = Some q -> exists q', streams (procs s') !! a = Some (q ++ q')) /\
  (forall r st', request_states (procs s') !! r = Some st' ->
     (exists st, request_states (procs s) !! r = Some st /\ rs_stream st' = rs_stream st) \/
     (r ∉ sys_used s /\ r ∈ sys_used s')).

#[export] Instance Grows_preorder : PreOrder Grows.
Proof.
  split.
  - intros s. split_and!; [done| |eauto]. intros a q Hq. exists []. by rewrite app_nil_r.
  - intros s1 s2 s3 (U1 & H1 & R1) (U2 & H2 & R2). split_and!; [set_solver| |].
    + intros a q [q1 Hq1]%H1. destruct (H2 _ _ Hq1) as [q2 Hq2]. exists (q1 ++ q2). by rewrite app_assoc.
    + intros r st3 [(st2 & [(st1 & Hr1 & E1)|[Hn Hy]]%R1 & E2)|[Hn Hy]]%R2.
      * left. exists st1. by rewrite E2.
      * right. set_solver.
      * right. set_solver.
Qed.

Lemma extends_grows s s' : sys_used s ⊆ sys_used s' -> Extends (procs s) (procs s') -> Grows s s'.
Proof. intros Hu [H1 H2]. split_and!; [done|done|]. intros r st' Hst. left. by apply H2. Qed.

Lemma al_add_begin_extends prompt sp rid x r x' :
  StreamInv x -> al_add_begin repr_exn encode prompt sp rid x = (r, x') ->
  (forall a q, streams (al_processor x) !! a = Some q -> exists q', streams (al_processor x') !! a = Some (q ++ q')) /\
  (forall r st', r <> rid -> request_states (al_processor x') !! r = Some st' ->
     request_states (al_processor x) !! r = Some st').
Proof.
  intros Hs Hb.
  destruct (al_add_begin_cases _ _ _ _ _ _ _ _ Hb) as [(e & -> & ->)|(ids & Hr & _ & _ & Hx)].
  { split; [|done]. intros a q Hq. exists []. by rewrite app_nil_r. }
  assert (Hreg : forall c, let x1 := (registered rid ids sp x) <| al_core := c |> in
    (forall a q, streams (al_processor x) !! a = Some q -> streams (al_processor x1) !! a = Some q) /\
    (forall r st', r <> rid -> request_states (al_processor x1) !! r = Some st' ->
       request_states (al_processor x) !! r = Some st')).
  { intros c. split; simpl.
    - intros a q Hq. rewrite lookup_insert_ne; [done|]. intros <-.
      enough (al_next_stream x < al_next_stream x) by lia. apply (sm_fresh _ Hs). eauto.
    - intros r' st' Hne. by rewrite lookup_insert_ne. }
  simpl in Hx. destruct (add_begin repr_exn rid ids sp (al_core x)) as [[e|fut] c']; destruct Hx as [-> ->];
    destruct (Hreg c') as [H1 H2].
  - destruct (abort_extends rid (al_processor ((registered rid ids sp x) <| al_core := c' |>))) as [E1 E2].
    split; [intros a q Hq%H1; by apply E1|].
    intros r' st' Hne. simpl in E2 |- *. rewrite abort_states, decide_False by done. apply (H2 r' st' Hne).
  - split; [|exact H2]. intros a q Hq%H1. exists []. by rewrite app_nil_r.
Qed.

Lemma add_grows prompt sp rid r x' adds s : SysInv s -> rid ∉ sys_used s ->
  al_add_begin repr_exn encode prompt sp rid (sys_llm s) = (r, x') ->
  Grows s {| sys_llm := x'; sys_adds := adds; sys_calls := sys_calls s; sys_used := {[rid]} ∪ sys_used s |}.
Proof.
  intros Hi Hu Hb. destruct (al_add_begin_extends _ _ _ _ _ _ (si_streams _ Hi) Hb) as [E1 E2].
  split_and!; [set_solver|exact E1|]. intros r' st' Hst'.
  destruct (decide (r' = rid)) as [->|Hne]; [right; set_solver|]. left. exists st'. split; [|done]. by apply E2.
Qed.

Lemma metrics_grows r x' calls s :
  al_metrics_begin repr_exn (sys_llm s) = (r, x') ->
  Grows s {| sys_llm := x'; sys_adds := sys_adds s; sys_calls := calls; sys_used := sys_used s |}.
Proof.
  intros Hb. apply extends_grows; [done|simpl]. unfold al_metrics_begin, bind, gets, id in Hb.
  destruct (is_dead (sys_llm s)); [by injection Hb as _ <-|]. unfold on_core, zoom in Hb.
  destruct (metrics_begin repr_exn (al_core (sys_llm s))). by injection Hb as _ <-.
Qed.

Lemma add_end_grows t l1 l2 s :
  Grows s {| sys_llm := (al_add_end repr_exn (at_request t) (task_outcome (sys_llm s) t) (sys_llm s)).2;
             sys_adds := l1 ++ l2; sys_calls := sys_calls s; sys_used := sys_used s |}.
Proof.
  apply extends_grows; [done|simpl].
  pose proof (al_add_end_processor (at_request t) (task_outcome (sys_llm s) t) (sys_llm s)) as Hp.
  simpl in Hp. rewrite Hp. destruct (al_add_end _ _ _ _) as [[e|[]] x']; [apply abort_extends|done].
Qed.

Lemma sys_step_grows `{!TokenizerLaws} s s' :
  SysInv s -> sys_step repr_exn encode s s' -> Grows s s'.
Proof.
  intros Hi Hstep. destruct Hstep; try by eapply add_grows.
  all: try (eapply metrics_grows; eassumption).
  all: try apply add_end_grows.
  all: apply extends_grows; [done|simpl].
  all: try first [ done | apply al_abort_extends | apply al_close_extends | apply al_stop_extends | apply run_scheduled_extends
                 | apply handle_output_extends, Hi ].
  unfold on_core, zoom. by destruct (metrics_end n _ (al_core (sys_llm s))).
Qed.

(** Runs of the system, which keep its invariant and grow it. *)
Definition Runs (s s' : System) : Prop := rtc (sys_step repr_exn encode) s s'.

Lemma runs_ok `{!TokenizerLaws} s s' : SysInv s -> Runs s s' -> SysInv s' /\ Grows s s'.
Proof.
  intros Hi Hr. induction Hr as [s|s1 s2 s3 Hstep Hr IH]; [done|].
  destruct IH as [H3 G3]; [by eapply sys_inv_step|]. split; [done|].
  etransitivity; [by eapply sys_step_grows | exact G3].
Qed.

(** Registered requests have had their id. *)
Definition Registered (s : System) : Prop :=
  forall r st, request_states (procs s) !! r = Some st -> r ∈ sys_used s.

Lemma registered_reachable `{!TokenizerLaws} has_tokenizer s :
  Runs (initial has_tokenizer) s -> SysInv s /\ Registered s.
Proof.
  intros Hr. destruct (runs_ok _ _ (sys_inv_initial has_tokenizer) Hr) as [Hi (_ & _ & Hg)].
  split; [done|]. intros r st Hst. destruct (Hg _ _ Hst) as [(st0 & Hst0 & _)|[_ Hu]]; [|done].
  simpl in Hst0. by rewrite lookup_empty in Hst0.
Qed.

End Growth.

(** ** What a call yields *)

(** The text of outputs, and the number of their tokens. *)
Definition texts (outs : list RequestOutput) : text := concat ((fun o => to_text (ro_text o)) <$> outs).
Definition num_tokens (outs : list RequestOutput) : Z := Zsum ((fun o => Zlen (ro_token_ids o)) <$> outs).

Lemma texts_app outs outs' : texts (outs ++ outs') = texts outs ++ texts outs'.
Proof. unfold texts. by rewrite fmap_app, concat_app. Qed.

Lemma texts_snoc outs o : texts (outs ++ [o]) = texts outs ++ to_text (ro_text o).
Proof. rewrite texts_app. unfold texts at 2. simpl. by rewrite app_nil_r. Qed.

Lemma num_tokens_snoc outs o : num_tokens (outs ++ [o]) = (num_tokens outs + Zlen (ro_token_ids o))%Z.
Proof. unfold num_tokens. rewrite fmap_app, Zsum_app. simpl. lia. Qed.

(** A completion of a stream that yields [all]: its text ends before the first
    stop string, seen within some of the outputs, or is the whole text, with
    the engine's reason. *)
Definition Completed (stops : list text) (all : list RequestOutput)
    (t : text) (reason : string) (n : Z) (kv : option (gmap string pyval)) : Prop :=
  (exists outs k, outs `prefix_of` all /\ first_stop stops (texts outs) k /\
     t = take k (texts outs) /\ reason = "stop"%string /\ n = num_tokens outs /\ kv = None) \/
  (no_stop stops (texts all) /\ t = texts all /\ n = num_tokens all /\
   exists o, last all = Some o /\ ro_finished o = true /\
     FINISH_REASONS (ro_finish_reason o) = Some reason /\ kv = ro_kv_transfer_params o).

(** Only the last delta has a reason. *)
Definition CompletedBy (stops : list text) (all : list RequestOutput) (l : list Delta) : Prop :=
  exists l0 d reason, l = l0 ++ [d] /\ Forall (fun x => dl_reason x = None) l0 /\
    dl_reason d = Some reason /\
    Completed stops all (concat (dl_text <$> l)) reason (dl_tokens d) (dl_kv d).

(** Between two outputs. *)
Record Reading (stops : list text) (seen : list RequestOutput) (prev : list Delta) (d : Deltas) : Prop := {
  rd_wf : StopWf (ds_checker d);
  rd_stops : stop (ds_checker d) = stops;
  rd_stream : Streaming (ds_checker d) (texts seen) (concat (dl_text <$> prev));
  rd_tokens : ds_num_tokens d = num_tokens seen;
  rd_open : Forall (fun o => ro_finished o = false) seen;
  rd_prev : Forall (fun x => dl_reason x = None) prev
}.

Definition dropped_error (o : RequestOutput) : exn :=
  HTTPException 503 ("the engine dropped the request: " +:+
    match ro_finish_reason o with Some r => r | None => "None" end).

Section Calls.
Context `{TokenizerLaws}.
Variable repr_exn : exn -> string.
Variable repr_str : string -> string.
Variable encode : string -> list Z.

Local Abbreviation procs s := (al_processor (sys_llm s)).
Local Abbreviation Runs := (Runs repr_exn encode).

Lemma runs_abort rid reason s : SysInv s ->
  wp (on_llm (al_abort repr_exn rid reason)) s (fun _ s' =>
    Runs s s' /\ procs s' = op_abort_request rid (procs s)).
Proof.
  intros [Hs Hc Hf]. unfold wp, on_llm, zoom.
  pose proof (step_abort repr_exn encode rid reason s) as Hstep.
  pose proof (al_abort_processor repr_exn rid reason (sys_llm s)) as Hp.
  destruct (al_abort_keeps repr_exn rid reason (sys_llm s) Hs Hf) as (x' & Hx & _); [apply Hc..|].
  rewrite Hx in *. split; [by apply rtc_once | exact Hp].
Qed.

Lemma runs_close rid stream s : SysInv s ->
  wp (on_llm (al_close repr_exn rid stream)) s (fun _ s' =>
    Runs s s' /\ procs s' = match request_states (procs s) !! rid with
      | Some st => if bool_decide (rs_stream st = Some stream) then op_abort_request rid (procs s) else procs s
      | None => procs s
      end).
Proof.
  intros [Hs Hc Hf]. unfold wp, on_llm, zoom.
  pose proof (step_close repr_exn encode rid stream s) as Hstep.
  pose proof (al_close_processor repr_exn rid stream (sys_llm s)) as Hp.
  assert (exists x', al_close repr_exn rid stream (sys_llm s) = (inr tt, x')) as [x' Hx].
  { unfold al_close, bind, gets, id. destruct (request_states _ !! rid); [|by eexists].
    case_bool_decide; [|by eexists].
    destruct (al_abort_keeps repr_exn rid "abort" (sys_llm s) Hs Hf) as (x' & Hx & _); [apply Hc..|]. eauto. }
  rewrite Hx in *. split; [by apply rtc_once | exact Hp].
Qed.

(** One output. *)
Ltac step_through := cbn -[push flush on_llm al_abort texts num_tokens FINISH_REASONS].

Definition OutputOk (stops : list text) (seen : list RequestOutput) (prev : list Delta)
    (o : RequestOutput) (s : System) (d : Deltas)
    (r : exn + list Delta * bool) (p : System * Deltas) : Prop :=
  match r with
  | inl e => p.1 = s /\ ro_finished o = true /\ FINISH_REASONS (ro_finish_reason o) = None /\
      e = dropped_error o
  | inr (l, true) => Runs s p.1 /\
      exists d' reason, l = [d'] /\ dl_reason d' = Some reason /\
        let t := concat (dl_text <$> prev ++ l) in
        let outs := seen ++ [o] in
        ((exists k, first_stop stops (texts outs) k /\ t = take k (texts outs) /\ reason = "stop"%string /\
            dl_kv d' = None) \/
         (no_stop stops (texts outs) /\ t = texts outs /\ ro_finished o = true /\
            FINISH_REASONS (ro_finish_reason o) = Some reason /\ dl_kv d' = ro_kv_transfer_params o)) /\
        dl_tokens d' = num_tokens outs
  | inr (l, false) => p.1 = s /\ ds_read p.2 = ds_read d /\
      Reading stops (seen ++ [o]) (prev ++ l) p.2
  end.

Lemma deltas_output_spec stops seen prev rid o s d :
  SysInv s -> Reading stops seen prev d ->
  wp (try_except (let! r := deltas_output repr_exn rid o in ret (inr r)) (fun e => ret (inl e))) (s, d)
    (OutputOk stops seen prev o s d).
Proof.
  intros Hi [Hw <- Hg Hn Ho Hpv]. unfold wp, try_except, deltas_output, OutputOk.
  pose proof (push_spec (ds_checker d) _ _ (to_text (ro_text o)) Hw Hg) as Hpush.
  rewrite <-texts_snoc in Hpush. apply wp_run in Hpush as (t & c & Hpush & Hw' & Hst & Hcase).
  unfold on_checker, on_snd, on_fst, bind, zoom, modify, gets. step_through. rewrite Hpush. step_through.
  assert (Hnum : forall d' : Delta, dl_tokens d' = (ds_num_tokens d + Zlen (ro_token_ids o))%Z ->
    dl_tokens d' = num_tokens (seen ++ [o])) by (intros d' ->; by rewrite num_tokens_snoc, Hn).
  destruct Hcase as [Hg'|Hs].
  - rewrite (sg_unmatched _ _ _ Hg'). destruct (ro_finished o) eqn:Hf.
    + destruct (FINISH_REASONS (ro_finish_reason o)) as [reason|] eqn:Hr; [|done].
      pose proof (flush_spec c _ _ Hg') as Hfl. apply wp_run in Hfl as (tail & c' & Hfl & Ht & _).
      step_through. rewrite Hfl. step_through. split; [apply rtc_refl|]. eexists _, reason. split_and!; [done|done| |by apply Hnum].
      right. rewrite <-Hst. split_and!; try done; [apply (sg_none _ _ _ Hg')|].
      rewrite fmap_app, concat_app. simpl. rewrite app_nil_r, app_assoc. exact Ht.
    + split; [done|]. split; [done|]. constructor; cbn; [done|done| | | |].
      * case_bool_decide as Ht; [subst t; by rewrite !app_nil_r in *|].
        rewrite fmap_app, concat_app. simpl. by rewrite app_nil_r.
      * by rewrite num_tokens_snoc, Hn.
      * apply Forall_app. split; [done|]. by constructor.
      * apply Forall_app. split; [done|]. case_bool_decide; repeat constructor.
  - destruct Hs as (Hm & k & Hk & Ht). rewrite Hm.
    pose proof (runs_abort rid "stop" s Hi) as Ha. apply wp_run in Ha as ([] & s' & Ha & Hrun & _).
    step_through. rewrite Ha. step_through. split; [done|]. eexists _, _. split_and!; [done|done| |by apply Hnum].
    left. exists k. rewrite <-Hst. split_and!; [done| |done|done].
    rewrite fmap_app, concat_app. simpl. by rewrite app_nil_r.
Qed.

(** What the other coroutines do is a run of the system. *)
Definition Rely (f : System -> System) : Prop := forall s, SysInv s -> Runs s (f s).

Lemma runs_trans s1 s2 s3 : Runs s1 s2 -> Runs s2 s3 -> Runs s1 s3.
Proof. apply rtc_trans. Qed.

(** The reader's items are a prefix of the queue. *)
Lemma last_read (seen : list RequestOutput) o (q q' : list (RequestOutput + exn)) :
  (inl <$> seen) `prefix_of` q -> q !! length seen = Some (inl o) ->
  (inl <$> seen ++ [o]) `prefix_of` q ++ q'.
Proof.
  intros [k ->] Hl. rewrite lookup_app_r in Hl by by rewrite length_fmap.
  rewrite length_fmap, Nat.sub_diag in Hl. destruct k as [|x k]; [done|]. injection Hl as ->.
  exists (k ++ q'). by rewrite fmap_app, <-!app_assoc.
Qed.

(** Where the loop ends: by a completion of its stream, by the stream's error,
    or by a drop. *)
Definition LoopEnd (stops : list text) (q : list (RequestOutput + exn)) (l : list Delta) (e : Ended) : Prop :=
  match e with
  | Done => CompletedBy stops (read_stream q).1 l
  | Failed e => Forall (fun x => dl_reason x = None) l /\
      ((read_stream q).2 = Raised e \/
       exists o, last (read_stream q).1 = Some o /\ ro_finished o = true /\
         FINISH_REASONS (ro_finish_reason o) = None /\ e = dropped_error o)
  | Left => True
  end.

Lemma read_first (seen : list RequestOutput) x (q : list (RequestOutput + exn)) :
  Forall (fun o => ro_finished o = false) seen -> (inl <$> seen) `prefix_of` q ->
  q !! length seen = Some x ->
  exists rest, read_stream q =
    match x with
    | inl o => if ro_finished o then (seen ++ [o], Finished)
               else (seen ++ o :: (read_stream rest).1, (read_stream rest).2)
    | inr e => (seen, Raised e)
    end.
Proof.
  intros Hs [k ->] Hl. rewrite lookup_app_r in Hl by by rewrite length_fmap.
  rewrite length_fmap, Nat.sub_diag in Hl. destruct k as [|y k]; [done|]. injection Hl as ->.
  exists k. rewrite read_stream_outputs by done. destruct x as [o|e]; simpl.
  - destruct (ro_finished o); [done|]. by destruct (read_stream k).
  - by rewrite app_nil_r.
Qed.

Lemma completed_by_stop stops seen o q prev l d k :
  (inl <$> seen) `prefix_of` q -> q !! length seen = Some (inl o) ->
  Forall (fun o => ro_finished o = false) seen -> Forall (fun x => dl_reason x = None) prev ->
  l = [d] -> dl_reason d = Some "stop"%string -> first_stop stops (texts (seen ++ [o])) k ->
  concat (dl_text <$> prev ++ l) = take k (texts (seen ++ [o])) -> dl_kv d = None ->
  dl_tokens d = num_tokens (seen ++ [o]) ->
  CompletedBy stops (read_stream q).1 (prev ++ l).
Proof.
  intros Hq Hl Hs Hp -> Hr Hk Ht Hkv Hn. exists prev, d, "stop"%string. split_and!; [done..|].
  left. exists (seen ++ [o]), k. split_and!; [|done..].
  destruct (read_first _ _ _ Hs Hq Hl) as [rest ->]. destruct (ro_finished o); [done|].
  exists (read_stream rest).1. simpl. by rewrite <-app_assoc.
Qed.

(** A stream that has ended yields nothing more; one that has not may. *)
Lemma read_stream_app (q q' : list (RequestOutput + exn)) :
  read_stream (q ++ q') =
  match (read_stream q).2 with
  | Waiting => ((read_stream q).1 ++ (read_stream q').1, (read_stream q').2)
  | _ => read_stream q
  end.
Proof.
  induction q as [|[o|e] q IH]; simpl; [by destruct (read_stream q')| |done].
  destruct (ro_finished o); [done|]. rewrite IH.
  destruct (read_stream q) as [l [| |e]]; done.
Qed.

Lemma read_stream_last (q : list (RequestOutput + exn)) o :
  last (read_stream q).1 = Some o -> ro_finished o = true -> (read_stream q).2 = Finished.
Proof.
  induction q as [|[o'|e] q IH]; simpl; [done| |done]. destruct (ro_finished o') eqn:Hf; [done|].
  destruct (read_stream q) as [l e]; simpl in *. destruct l as [|x l]; simpl; [congruence|]. apply IH.
Qed.

Lemma completed_app stops (q q' : list (RequestOutput + exn)) t reason n kv :
  Completed stops (read_stream q).1 t reason n kv -> Completed stops (read_stream (q ++ q')).1 t reason n kv.
Proof.
  rewrite read_stream_app.
  intros [(outs & k & Hp & H1)|(H1 & H2 & H3 & o & Hl & Hf & H4)].
  - left. exists outs, k. split; [|done]. destruct (read_stream q).2; [|done..]. by apply prefix_app_r.
  - right. rewrite (read_stream_last q o Hl Hf). split_and!; [done..|]. by exists o.
Qed.

Lemma loop_end_app stops q q' l e : LoopEnd stops q l e -> LoopEnd stops (q ++ q') l e.
Proof.
  destruct e as [|e|]; simpl; [| |done].
  - intros (l0 & d & reason & -> & Hp & Hd & Hc). exists l0, d, reason. split_and!; [done..|].
    by apply completed_app.
  - intros [Hp Hc]. split; [done|]. rewrite read_stream_app.
    destruct Hc as [Hc|(o & Hl & Hf & Hc)]; [left; by rewrite Hc|right].
    rewrite (read_stream_last q o Hl Hf). by exists o.
Qed.

Lemma deltas_loop_spec stops rid stream schedule seen prev s d q :
  Forall Rely schedule -> SysInv s -> Reading stops seen prev d -> ds_read d = length seen ->
  streams (procs s) !! stream = Some q -> (inl <$> seen) `prefix_of` q ->
  wp (deltas_loop repr_exn rid stream schedule) (s, d) (fun p sd => Runs s sd.1 /\
    exists q', streams (procs sd.1) !! stream = Some q' /\ LoopEnd stops q' (prev ++ p.1) p.2).
Proof.
  intros Hrely. revert seen prev s d q.
  induction Hrely as [|f schedule Hf Hrely IH]; intros seen prev s d q Hi Hr Hrd Hq Hpre; simpl.
  { wp_steps. split; [apply rtc_refl|]. by exists q. }
  wp_steps. cbn [fst snd]. pose proof (Hf s Hi) as Hrun. set (s1 := f s) in *.
  destruct (runs_ok _ _ _ _ Hi Hrun) as [Hi1 (_ & Hgrow & _)]. destruct (Hgrow _ _ Hq) as [q1 Hq1].
  assert (Hpre1 : (inl <$> seen) `prefix_of` q ++ q1) by by apply prefix_app_r.
  unfold next_item. wp_steps. unfold id. cbn [fst snd]. rewrite Hq1. simpl. rewrite Hrd.
  destruct ((q ++ q1) !! length seen) as [item|] eqn:Hitem; wp_steps.
  2: { wp_call (IH seen prev s1 d); [done..|]. intros p sd (Hr2 & H2). split; [by eapply runs_trans|done]. }
  pose proof (rd_open _ _ _ _ Hr) as Hopen. pose proof (rd_prev _ _ _ _ Hr) as Hprev.
  destruct (read_first _ _ _ Hopen Hpre1 Hitem) as [rest Hread].
  set (d1 := d <| ds_read ::= S |>).
  assert (Hr1 : Reading stops seen prev d1) by (by destruct Hr).
  destruct item as [o|e].
  2: { wp_steps. split; [done|]. exists (q ++ q1). split; [done|]. simpl. rewrite app_nil_r.
       split; [done|]. left. by rewrite Hread. }
  wp_step. wp_call (deltas_output_spec stops seen prev rid o s1 d1 Hi1 Hr1).
  intros [e|[l [|]]] [s2 d2] Ho; simpl in Ho; wp_steps; cbn [fst snd].
  - destruct Ho as (-> & Hfin & Hno & ->). split; [done|]. exists (q ++ q1). split; [done|].
    rewrite app_nil_r. split; [done|]. right. exists o. rewrite Hread, Hfin. split_and!; try done. apply last_snoc.
  - destruct Ho as (Hr2 & d' & reason & Hl & Hreason & Hcase & Hn).
    split; [by eapply runs_trans|]. destruct (runs_ok _ _ _ _ Hi1 Hr2) as [_ (_ & Hgrow2 & _)].
    destruct (Hgrow2 _ _ Hq1) as [q2 Hq2]. exists ((q ++ q1) ++ q2). split; [done|].
    assert (Hpre2 : (inl <$> seen) `prefix_of` (q ++ q1) ++ q2) by by apply prefix_app_r.
    assert (Hitem2 : ((q ++ q1) ++ q2) !! length seen = Some (inl o)) by by apply lookup_app_l_Some.
    destruct Hcase as [(k & Hk & Ht & -> & Hkv)|(Hno & Ht & Hfin & Hreas & Hkv)].
    + by eapply (completed_by_stop stops seen o _ prev l d' k).
    + destruct (read_first _ _ _ Hopen Hpre2 Hitem2) as [rest2 Hread2]. rewrite Hfin in Hread2.
      exists prev, d', reason. subst l. split_and!; [done..|]. right. rewrite Hread2. split_and!; [done..|].
      exists o. split_and!; [apply last_snoc|done..].
  - destruct Ho as (-> & Hrd2 & Hr2).
    wp_call (IH (seen ++ [o]) (prev ++ l) s1 d2 (q ++ q1)); [done|done| |done| |].
    + rewrite Hrd2, length_app. simpl. unfold d1. simpl. lia.
    + rewrite <-(app_nil_r (q ++ q1)). by apply last_read.
    + intros p sd (Hr3 & q3 & Hq3 & Hl3). wp_steps. simpl. split; [by eapply runs_trans|].
      exists q3. split; [done|]. by rewrite app_assoc.
Qed.

(** ** Calls *)

(** The call's request is registered for its own stream only. *)
Definition Mine (rid : string) (stream : nat) (s : System) : Prop :=
  rid ∈ sys_used s /\
  forall st, request_states (procs s) !! rid = Some st -> rs_stream st = Some stream.

Definition Forgotten (rid : string) (s : System) : Prop := request_states (procs s) !! rid = None.

Lemma mine_grows rid stream s s' : Grows s s' -> Mine rid stream s -> Mine rid stream s'.
Proof.
  intros (Hu & _ & Hr) [Hin Hm]. split; [set_solver|]. intros st' Hst'.
  destruct (Hr _ _ Hst') as [(st & Hst & ->)|[Hn _]]; [by apply Hm|done].
Qed.

Lemma abort_forgets rid reason s : SysInv s ->
  wp (on_llm (al_abort repr_exn rid reason)) s (fun _ s' => Runs s s' /\ Forgotten rid s').
Proof.
  intros Hi. wp_call runs_abort; [done|]. intros [] s' [Hr Hp]. split; [done|].
  unfold Forgotten. by rewrite Hp, abort_states, decide_True.
Qed.

Lemma close_forgets rid stream s : SysInv s -> Mine rid stream s ->
  wp (on_llm (al_close repr_exn rid stream)) s (fun _ s' => Runs s s' /\ Forgotten rid s').
Proof.
  intros Hi [_ Hm]. wp_call runs_close; [done|]. intros [] s' [Hr Hp]. split; [done|].
  unfold Forgotten. rewrite Hp. destruct (request_states (procs s) !! rid) as [st|] eqn:Hst; [|done].
  rewrite bool_decide_eq_true_2 by by apply Hm. by rewrite abort_states, decide_True.
Qed.

Lemma forgotten_close rid stream s : SysInv s -> Forgotten rid s ->
  wp (on_llm (al_close repr_exn rid stream)) s (fun _ s' => Runs s s' /\ Forgotten rid s').
Proof.
  intros Hi Hf. wp_call runs_close; [done|]. intros [] s' [Hr Hp]. split; [done|].
  unfold Forgotten in *. rewrite Hp. by rewrite Hf.
Qed.

Definition stops_of (body : BaseRequest) : list text := stop (new_StopChecker (to_text <$> stop_strings body)).

Lemma new_reading body : Reading (stops_of body) [] [] (new_Deltas body).
Proof.
  constructor; try done; [apply new_StopChecker_wf | apply new_StopChecker_streaming].
Qed.

Lemma run_deltas_spec body rid stream leave schedule s q :
  Forall Rely schedule -> SysInv s -> Mine rid stream s -> streams (procs s) !! stream = Some q ->
  wp (run_deltas repr_exn body rid stream leave schedule) s (fun p s' => Runs s s' /\
    (exists q', streams (procs s') !! stream = Some q' /\ LoopEnd (stops_of body) q' p.1 p.2) /\
    (leave = WhileWaiting -> Forgotten rid s') /\ (leave <> WhileWaiting -> p.2 = Left)).
Proof.
  intros Hrely Hi Hm Hq.
  pose proof (deltas_loop_spec (stops_of body) rid stream schedule [] [] s (new_Deltas body) q
    Hrely Hi (new_reading body) eq_refl Hq (prefix_nil _)) as Hloop. simpl in Hloop.
  apply wp_run in Hloop as ([l e] & [s1 d1] & Hloop & Hr & q1 & Hq1 & Hend).
  destruct (runs_ok _ _ _ _ Hi Hr) as [Hi1 Hg]. pose proof (mine_grows _ _ _ _ Hg Hm) as Hm1.
  unfold wp, run_deltas. destruct leave.
  - unfold deltas, bind. rewrite Hloop. unfold on_fst, zoom. cbn [fst snd].
    pose proof (close_forgets rid stream s1 Hi1 Hm1) as Hc. apply wp_run in Hc as ([] & s2 & Hc & Hr2 & Hf).
    rewrite Hc. simpl. split; [by eapply runs_trans|]. split; [|done].
    destruct (runs_ok _ _ _ _ Hi1 Hr2) as [_ (_ & Hgr & _)].
    destruct (Hgr _ _ Hq1) as [q2 Hq2]. eexists. split; [exact Hq2|]. by apply loop_end_app.
  - simpl. split; [apply rtc_refl|]. split; [by exists q|done].
  - unfold bind. rewrite Hloop. simpl. split; [done|]. split; [|done]. by exists q1.
Qed.

(** What a call answers, given its stream. *)
Definition Answered (body : BaseRequest) (model : string) (num_prompt : Z) (chat : bool) (created : Z)
    (rid : string) (q : list (RequestOutput + exn)) (r : exn + Answer) : Prop :=
  match r with
  | inr (AReply reply) => rq_stream body = false /\ exists l, LoopEnd (stops_of body) q l Done /\
      reply = collect_reply rid model num_prompt created chat l
  | inr (AStream events broken) => rq_stream body = true /\ exists l e, LoopEnd (stops_of body) q l e /\
      (events, broken) = stream_events rid model created num_prompt chat (include_usage body) l e
  | inr ADisconnected => True
  | inl e => exists l, LoopEnd (stops_of body) q l (Failed e)
  | _ => False
  end.

Lemma answered_app body model num_prompt chat created rid q q' r :
  Answered body model num_prompt chat created rid q r ->
  Answered body model num_prompt chat created rid (q ++ q') r.
Proof.
  destruct r as [e|[]]; simpl; try done.
  - intros [l Hl]. exists l. by apply (loop_end_app (stops_of body) q q' l (Failed e)).
  - intros (Hs & l & Hl & ->). split; [done|]. exists l. split; [|done]. by apply (loop_end_app (stops_of body) q q' l Done).
  - intros (Hs & l & e & Hl & ->). split; [done|]. exists l, e. split; [|done]. by apply loop_end_app.
Qed.

Lemma respond_spec model body num_prompt chat created rid stream leave schedule s q :
  Forall Rely schedule -> SysInv s -> Mine rid stream s -> streams (procs s) !! stream = Some q ->
  let (r, s') := respond repr_exn model body num_prompt chat created rid stream leave schedule s in
  Runs s s' /\ Forgotten rid s' /\
  exists q', streams (procs s') !! stream = Some q' /\
    Answered body model num_prompt chat created rid q' r.
Proof.
  intros Hrely Hi Hm Hq. unfold respond. destruct (rq_stream body) eqn:Hstream.
  - pose proof (run_deltas_spec body rid stream leave schedule s q Hrely Hi Hm Hq) as Hd.
    apply wp_run in Hd as ([l e] & s1 & Hd & Hr1 & (q1 & Hq1 & Hend) & _).
    destruct (runs_ok _ _ _ _ Hi Hr1) as [Hi1 _].
    unfold bind at 1. rewrite Hd. unfold stream_finally.
    pose proof (abort_forgets rid "abort" s1 Hi1) as Ha. apply wp_run in Ha as ([] & s2 & Ha & Hr2 & Hf2).
    destruct (runs_ok _ _ _ _ Hi1 Hr2) as [Hi2 (_ & Hg2 & _)]. destruct (Hg2 _ _ Hq1) as [q2 Hq2].
    assert (exists s3, match leave with WhileSending => on_llm (al_close repr_exn rid stream) | _ => ret tt end s2
      = (inr tt, s3) /\ Runs s2 s3 /\ Forgotten rid s3) as (s3 & Hl & Hr3 & Hf3).
    { destruct leave; [by exists s2; split_and!; [|apply rtc_refl|]..|].
      pose proof (forgotten_close rid stream s2 Hi2 Hf2) as Hc.
      apply wp_run in Hc as ([] & s3 & -> & Hc). by exists s3. }
    unfold bind. rewrite Ha, Hl. cbn [fst snd].
    destruct (stream_events _ _ _ _ _ _ l e) as [events broken] eqn:Hev. simpl.
    destruct (runs_ok _ _ _ _ Hi2 Hr3) as [_ (_ & Hg3 & _)]. destruct (Hg3 _ _ Hq2) as [q3 Hq3].
    split; [eapply runs_trans; [done|by eapply runs_trans]|]. split; [done|].
    eexists. split; [exact Hq3|]. split; [done|]. exists l, e. split; [|done]. by do 2 apply loop_end_app.
  - set (leave' := match leave with WhileSending => WhileWaiting | _ => leave end).
    pose proof (run_deltas_spec body rid stream leave' schedule s q Hrely Hi Hm Hq) as Hd.
    apply wp_run in Hd as ([l e] & s1 & Hd & Hr1 & (q1 & Hq1 & Hend) & Hw & Hl).
    destruct (runs_ok _ _ _ _ Hi Hr1) as [Hi1 _].
    unfold bind at 1. rewrite Hd. cbn [fst snd] in *.
    assert (Hf : e <> Left -> Forgotten rid s1).
    { intros He. apply Hw. destruct leave; try done. by destruct He; apply Hl. }
    destruct e as [|e|].
    + simpl. split; [done|]. split; [by apply Hf|]. exists q1. split; [done|]. split; [done|]. by exists l.
    + simpl. split; [done|]. split; [by apply Hf|]. exists q1. split; [done|]. by exists l.
    + pose proof (abort_forgets rid "abort" s1 Hi1) as Ha. apply wp_run in Ha as ([] & s2 & Ha & Hr2 & Hf2).
      unfold bind. rewrite Ha. simpl. destruct (runs_ok _ _ _ _ Hi1 Hr2) as [_ (_ & Hg2 & _)].
      destruct (Hg2 _ _ Hq1) as [q2 Hq2].
      split; [by eapply runs_trans|]. split; [done|]. by eexists.
Qed.

(** ** What the client reads *)

(** The text and reason of a chunk with a choice. *)
Definition chunk_of (e : Event) : option (string * option string) :=
  match e with
  | EvText r => match st_choices r with [c] => Some (cp_text c, cp_finish_reason c) | _ => None end
  | EvChat r =>
      match st_choices r with
      | [c] => Some (default ""%string (dm_content (sc_delta c)), sc_finish_reason c)
      | _ => None
      end
  | _ => None
  end.

Definition usage_of (e : Event) : option UsageInfo :=
  match e with EvText r => st_usage r | EvChat r => st_usage r | _ => None end.

Definition is_error (e : Event) : bool := match e with EvError _ _ => true | _ => false end.

(** A reply, or a stream that was sent to its end. *)
Definition finished_answer (a : Answer) : bool :=
  match a with
  | AReply _ => true
  | AStream events None =>
      match last events with Some EvDone => negb (existsb is_error events) | _ => false end
  | _ => false
  end.

Definition answer_text (a : Answer) : string :=
  match a with
  | AReply (CompletionReply r) => foldr String.append "" (cp_text <$> rs_choices r)
  | AReply (ChatReply r) => foldr String.append "" ((fun c => cm_content (ch_message c)) <$> rs_choices r)
  | AStream events _ => foldr String.append "" (fst <$> omap chunk_of events)
  | _ => ""
  end.

Definition answer_reason (a : Answer) : option string :=
  match a with
  | AReply (CompletionReply r) => last (omap cp_finish_reason (rs_choices r))
  | AReply (ChatReply r) => last (omap ch_finish_reason (rs_choices r))
  | AStream events _ => last (omap snd (omap chunk_of events))
  | _ => None
  end.

Definition answer_usage (a : Answer) : option UsageInfo :=
  match a with
  | AReply (CompletionReply r) => Some (rs_usage r)
  | AReply (ChatReply r) => Some (rs_usage r)
  | AStream events _ => last (omap usage_of events)
  | _ => None
  end.

Definition answer_kv (a : Answer) : option (gmap string pyval) :=
  match a with
  | AReply (CompletionReply r) => rs_kv_transfer_params r
  | AReply (ChatReply r) => rs_kv_transfer_params r
  | _ => None
  end.

Lemma of_text_app t t' : of_text (t ++ t') = of_text t +:+ of_text t'.
Proof. induction t as [|a t IH]; [done|]. unfold of_text in *. simpl. by rewrite IH. Qed.

Lemma append_nil_r (s : string) : s +:+ "" = s.
Proof. induction s as [|a s IH]; [done|]. exact (f_equal (String a) IH). Qed.

Lemma append_assoc_str (a b c : string) : (a +:+ b) +:+ c = a +:+ (b +:+ c).
Proof. induction a as [|x a IH]; [done|]. exact (f_equal (String x) IH). Qed.

Lemma foldr_append_app (l l' : list string) :
  foldr String.append "" (l ++ l') = foldr String.append "" l +:+ foldr String.append "" l'.
Proof. induction l as [|s l IH]; [done|]. simpl. by rewrite IH, append_assoc_str. Qed.

Section Events.
Variables rid model : string.
Variables created num_prompt : Z.
Variable chat : bool.

Local Abbreviation chunks l := ((fun d => choice_chunk rid model created chat (dl_text d) (dl_reason d) None) <$> l).
Local Abbreviation opening := (if chat then [choice_chunk rid model created chat [] None (Some Assistant)] else []).

Lemma chunk_of_choice t reason role :
  chunk_of (choice_chunk rid model created chat t reason role) = Some (of_text t, reason).
Proof. unfold choice_chunk. by destruct chat. Qed.

Lemma omap_chunks (l : list Delta) : omap chunk_of (chunks l) = (fun d => (of_text (dl_text d), dl_reason d)) <$> l.
Proof. induction l as [|d l IH]; [done|]. rewrite !fmap_cons, <-IH. cbn [omap list_omap]. by rewrite chunk_of_choice. Qed.

Lemma chunks_quiet (l : list Delta) : omap usage_of (chunks l) = [] /\ existsb is_error (chunks l) = false.
Proof. induction l as [|d l [H1 H2]]; [done|]. rewrite fmap_cons. unfold choice_chunk at 1 3. by destruct chat. Qed.

Lemma opening_quiet : omap usage_of opening = [] /\ existsb is_error opening = false /\
  foldr String.append "" (fst <$> omap chunk_of opening) = ""%string /\ omap snd (omap chunk_of opening) = [].
Proof. by unfold choice_chunk; destruct chat. Qed.

Lemma texts_of_chunks (l : list Delta) :
  foldr String.append "" (fst <$> omap chunk_of (chunks l)) = of_text (concat (dl_text <$> l)).
Proof.
  rewrite omap_chunks. induction l as [|d l IH]; [done|]. rewrite !fmap_cons. cbn [fst foldr concat].
  by rewrite of_text_app, IH.
Qed.

Lemma reasons_of_chunks (l : list Delta) d reason : Forall (fun x => dl_reason x = None) l -> dl_reason d = Some reason ->
  omap snd (omap chunk_of (chunks (l ++ [d]))) = [reason].
Proof.
  intros Hl Hd. rewrite omap_chunks. induction Hl as [|x l Hx _ IH]; simpl; [by rewrite Hd|]. by rewrite Hx.
Qed.

Lemma last_tokens_snoc l d : last_tokens (l ++ [d]) = dl_tokens d.
Proof. unfold last_tokens. by rewrite foldl_app. Qed.

Lemma stream_finished wanted l e events broken :
  (events, broken) = stream_events rid model created num_prompt chat wanted l e ->
  finished_answer (AStream events broken) = true -> e = Done.
Proof using.
  intros Hev Hfin. destruct e as [|e|]; [done| |].
  - exfalso. assert (Herr : broken = None -> EvError "server_error" (error_detail e) ∈ events).
    { destruct e; injection Hev as -> ->; try done; intros _;
        apply elem_of_app; right; apply elem_of_app; right; apply list_elem_of_here. }
    destruct broken as [|]; [done|]. specialize (Herr eq_refl).
    enough (existsb is_error events = true) as Hx.
    { simpl in Hfin. rewrite Hx in Hfin. by destruct (last events) as [[]|]. }
    apply existsb_exists. eexists. split; [by apply list_elem_of_In|done].
  - exfalso. injection Hev as -> ->. simpl in Hfin.
    enough (last (opening ++ chunks l) <> Some EvDone) as Hn by by destruct (last _) as [[]|].
    intros [Hin|Hin]%last_Some_elem_of%elem_of_app.
    + unfold choice_chunk in Hin. by destruct chat; [apply list_elem_of_singleton in Hin | apply elem_of_nil in Hin].
    + apply list_elem_of_fmap in Hin as (d & Hd & _). unfold choice_chunk in Hd. by destruct chat.
Qed.

End Events.

Lemma completed_reason stops all t reason n kv :
  Completed stops all t reason n kv -> exists a r, reason = String a r.
Proof.
  intros [(outs & k & _ & _ & _ & -> & _)|(_ & _ & _ & o & _ & _ & Hr & _)]; [by eexists _, _|].
  unfold FINISH_REASONS in Hr. repeat case_match; try done; injection Hr as <-; by eexists _, _.
Qed.

Lemma collect_spec l d reason : Forall (fun x => dl_reason x = None) l ->
  dl_reason d = Some reason -> (exists a r, reason = String a r) ->
  collect_deltas (l ++ [d]) = (concat (dl_text <$> l ++ [d]), reason, dl_tokens d, dl_kv d).
Proof.
  intros Hl Hd (a & r & ->). unfold collect_deltas.
  assert (Hgen : forall t n kv, exists n' kv',
    foldl (fun '(t, fr, _, _) d => (t ++ dl_text d, or_reason (dl_reason d) fr, dl_tokens d, dl_kv d))
      (t, "stop"%string, n, kv) l = (t ++ concat (dl_text <$> l), "stop"%string, n', kv')).
  { induction Hl as [|x l Hx _ IH]; intros t n kv; simpl; [rewrite app_nil_r; eauto|].
    rewrite Hx. simpl. destruct (IH (t ++ dl_text x) (dl_tokens x) (dl_kv x)) as (n' & kv' & ->).
    rewrite <-app_assoc. eauto. }
  rewrite foldl_app. destruct (Hgen [] 0%Z None) as (n' & kv' & ->). simpl. rewrite Hd. simpl.
  by rewrite fmap_app, concat_app; simpl; rewrite app_nil_r.
Qed.

(** A finished answer is a completion of the call's stream. *)
Lemma answered_completed body model np chat created rid q a :
  Answered body model np chat created rid q (inr a) -> finished_answer a = true ->
  exists t reason n kv, Completed (stops_of body) (read_stream q).1 t reason n kv /\
    answer_text a = of_text t /\ answer_reason a = Some reason /\
    answer_usage a =
      (if rq_stream body && negb (include_usage body) then None else Some (usage np n)) /\
    (rq_stream body = false -> answer_kv a = kv).
Proof using.
  intros Ha Hfin. destruct a as [reply|events broken| | | |]; try done; simpl in Ha.
  - destruct Ha as (Hs & l & (l0 & d & reason & -> & Hl0 & Hd & Hc) & ->).
    eexists _, reason, _, _. split; [exact Hc|].
    pose proof (collect_spec l0 d reason Hl0 Hd (completed_reason _ _ _ _ _ _ Hc)) as Hcol.
    unfold collect_reply. rewrite Hcol, Hs. unfold make_reply.
    destruct chat; simpl; rewrite append_nil_r; by split_and!.
  - destruct Ha as (Hs & l & e & Hend & Hev). pose proof (stream_finished _ _ _ _ _ _ _ _ _ _ Hev Hfin) as ->.
    destruct Hend as (l0 & d & reason & -> & Hl0 & Hd & Hc).
    eexists _, reason, _, _. split; [exact Hc|]. rewrite Hs. injection Hev as -> ->.
    destruct (opening_quiet rid model created chat) as (O1 & _ & O3 & O4).
    destruct (chunks_quiet rid model created chat (l0 ++ [d])) as (C1 & _).
    pose proof (texts_of_chunks rid model created chat (l0 ++ [d])) as T.
    pose proof (reasons_of_chunks rid model created chat l0 d reason Hl0 Hd) as R.
    cbn [answer_text answer_reason answer_usage andb]. rewrite last_tokens_snoc.
    revert O1 O3 O4 C1 T R. generalize (if chat then [choice_chunk rid model created chat [] None (Some Assistant)] else []).
    generalize ((fun d => choice_chunk rid model created chat (dl_text d) (dl_reason d) None) <$> l0 ++ [d]).
    intros cs op O1 O3 O4 C1 T R.
    rewrite !omap_app, !fmap_app, !foldr_append_app, O1, O3, O4, C1, T, R.
    unfold usage_chunk. destruct (include_usage body), chat; simpl; rewrite ?append_nil_r, fmap_app; by split_and!.
Qed.

(** *** Admission *)

Lemma find_task_spec rid l l1 t l2 :
  find_task rid l = Some (l1, t, l2) -> l = l1 ++ t :: l2 /\ at_request t = rid.
Proof.
  revert l1. induction l as [|u l IH]; intros l1; simpl; [done|].
  destruct (String.eqb_spec (at_request u) rid) as [He|]; [by intros [= <- <- <-]|].
  destruct (find_task rid l) as [[[k1 v] k2]|]; [|done]. intros [= <- <- <-].
  by destruct (IH k1 eq_refl) as [-> ?].
Qed.

Lemma call_begin_spec rid ids sp s :
  SysInv s -> rid ∉ sys_used s -> Forgotten rid s ->
  let (r, s') := (take_id rid;;; call_begin repr_exn encode rid ids sp) s in
  Runs s s' /\
  match r with
  | inl _ => Forgotten rid s'
  | inr (fut, stream) => stream = al_next_stream (sys_llm s) /\ Mine rid stream s' /\
      streams (procs s') !! stream = Some []
  end.
Proof.
  intros Hi Hu Hf. unfold take_id, call_begin, bind, modify, on_llm, zoom. cbn -[al_add_begin].
  destruct (al_add_begin repr_exn encode (inr ids) sp rid (sys_llm s)) as [[e|[fut stream]] x'] eqn:Hb.
  - split; [exact (rtc_once _ _ (step_add_refused repr_exn encode (inr ids) sp rid e x' s Hu Hb))|].
    unfold Forgotten. simpl.
    destruct (al_add_begin_cases _ _ _ _ _ _ _ _ Hb) as [(e' & _ & ->)|(ids' & _ & _ & _ & Hx)]; [done|].
    simpl in Hx. destruct (add_begin _ _ _ _ _) as [[e'|fut] c']; [|by destruct Hx].
    destruct Hx as [_ ->]. simpl. by rewrite abort_states, decide_True.
  - split; [exact (rtc_once _ _ (step_add repr_exn encode (inr ids) sp rid fut stream x' s Hu Hb))|].
    destruct (al_add_begin_cases _ _ _ _ _ _ _ _ Hb) as [(e' & ? & _)|(ids' & _ & _ & _ & Hx)]; [done|].
    simpl in Hx. destruct (add_begin _ _ _ _ _) as [[e'|fut'] c']; [by destruct Hx|].
    destruct Hx as [[= -> ->] ->]. split_and!; [done| |].
    + split; [simpl; set_solver|]. simpl. rewrite lookup_insert_eq. by intros st [= <-].
    + simpl. apply lookup_insert_eq.
Qed.

Lemma call_end_spec rid stream schedule s q :
  Forall Rely schedule -> SysInv s -> Mine rid stream s -> streams (procs s) !! stream = Some q ->
  let (r, s') := call_end repr_exn rid schedule s in
  Runs s s' /\
  match r with
  | inl _ => Forgotten rid s'
  | inr None => True
  | inr (Some schedule') => Forall Rely schedule' /\ Mine rid stream s' /\
      exists q', streams (procs s') !! stream = Some q'
  end.
Proof.
  intros Hrely. revert s q. induction Hrely as [|f schedule Hf Hrely IH]; intros s q Hi Hm Hq; simpl.
  { split; [apply rtc_refl|done]. }
  unfold bind, modify, gets, id. cbn. pose proof (Hf s Hi) as Hr. set (s1 := f s) in *.
  destruct (runs_ok _ _ _ _ Hi Hr) as [Hi1 Hg]. pose proof (mine_grows _ _ _ _ Hg Hm) as Hm1.
  destruct Hg as (_ & Hgr & _). destruct (Hgr _ _ Hq) as [q1 Hq1].
  destruct (find_task rid (sys_adds s1)) as [[[l1 t] l2]|] eqn:Hfind; [|by split].
  apply find_task_spec in Hfind as [Hl Ht].
  destruct (fut_done (outcome_of (sys_llm s1) (at_future t))) eqn:Hdone.
  - pose proof (step_add_end repr_exn encode t l1 l2 s1 Hl Hdone) as Hstep.
    pose proof (add_end_grows repr_exn t l1 l2 s1) as Hg2.
    pose proof (al_add_end_processor repr_exn (at_request t) (task_outcome (sys_llm s1) t) (sys_llm s1)) as Hp.
    rewrite Ht in Hstep, Hg2, Hp. simpl in Hp.
    destruct (al_add_end repr_exn rid (task_outcome (sys_llm s1) t) (sys_llm s1)) as [[e|[]] x']; simpl in *.
    + split; [eapply runs_trans; [done|by apply rtc_once]|]. unfold Forgotten. simpl.
      by rewrite Hp, abort_states, decide_True.
    + split; [eapply runs_trans; [done|by apply rtc_once]|]. split; [done|].
      split; [by eapply mine_grows|]. destruct Hg2 as (_ & Hgr2 & _). destruct (Hgr2 _ _ Hq1) as [q2 Hq2]. eauto.
  - specialize (IH s1 _ Hi1 Hm1 Hq1). destruct (call_end repr_exn rid schedule s1) as [r s2].
    destruct IH as [Hr2 Hc]. split; [by eapply runs_trans|done].
Qed.

(** *** The whole call *)

Definition ServeOk (body : BaseRequest) (model : string) (ids : list Z) (chat : bool) (created : Z)
    (rid : string) (s : System) (r : exn + Answer) (s' : System) : Prop :=
  Runs s s' /\
  (r = inr AWaiting \/ Forgotten rid s') /\
  match r with
  | inl _ | inr AWaiting => True
  | r => exists q, streams (procs s') !! al_next_stream (sys_llm s) = Some q /\
      Answered body model (Zlen ids) chat created rid q r
  end.

Lemma serve_spec model body ids chat created hex leave schedule s :
  let rid := request_id chat hex in
  Forall Rely schedule -> SysInv s -> rid ∉ sys_used s -> Forgotten rid s ->
  exists r s', serve repr_exn repr_str encode model body ids chat created hex leave schedule s =
    (inr match r with inl e => exception_answer e | inr a => a end, s') /\
    ServeOk body model ids chat created rid s r s'.
Proof.
  intros rid Hrely Hi Hu Hf. unfold serve, try_except, bind at 1, gets, id. fold rid.
  destruct (serve_checks repr_exn repr_str model body (sys_llm s)) as [e|[]].
  { exists (inl e), s. split; [done|]. split; [apply rtc_refl|]. split; [by right|done]. }
  destruct (SamplingParams_post_init (body_sampling_params body)) as [[e|[]] sp].
  { exists (inl e), s. split; [done|]. split; [apply rtc_refl|]. split; [by right|done]. }
  pose proof (call_begin_spec rid ids sp s Hi Hu Hf) as Hb.
  assert (Hassoc : forall (k : nat * nat -> M System Answer) s,
    (take_id rid;;; let! p := call_begin repr_exn encode rid ids sp in k p) s =
    (let! p := (take_id rid;;; call_begin repr_exn encode rid ids sp) in k p) s) by done.
  rewrite Hassoc. unfold bind at 1. clear Hassoc.
  destruct ((take_id rid;;; call_begin repr_exn encode rid ids sp) s) as [[e|[fut stream]] s1].
  { exists (inl e), s1. split; [done|]. destruct Hb as [Hr Hf1]. split; [done|]. split; [by right|done]. }
  destruct Hb as (Hr1 & Hstream & Hm1 & Hq1). destruct (runs_ok _ _ _ _ Hi Hr1) as [Hi1 _].
  pose proof (call_end_spec rid stream schedule s1 [] Hrely Hi1 Hm1 Hq1) as He.
  unfold bind at 1. destruct (call_end repr_exn rid schedule s1) as [[e|[schedule'|]] s2].
  - exists (inl e), s2. split; [done|]. destruct He as [Hr2 Hf2]. split; [by eapply runs_trans|]. split; [by right|done].
  - destruct He as (Hr2 & Hrely' & Hm2 & q2 & Hq2). destruct (runs_ok _ _ _ _ Hi1 Hr2) as [Hi2 _].
    pose proof (respond_spec model body (Zlen ids) chat created rid stream leave schedule' s2 q2
      Hrely' Hi2 Hm2 Hq2) as Hresp. cbn [snd].
    destruct (respond _ _ _ _ _ _ _ _ _ _ s2) as [r s3].
    destruct Hresp as (Hr3 & Hf3 & q3 & Hq3 & Ha). exists r, s3. split; [by destruct r|].
    split; [by do 2 (eapply runs_trans; [done|])|]. split; [by right|].
    destruct r as [e|a]; [done|]. destruct a; try done; exists q3; by rewrite <-Hstream.
  - exists (inr AWaiting), s2. split; [done|]. destruct He as [Hr2 _]. split; [by eapply runs_trans|]. split; [by left|done].
Qed.

End Calls.
