(* ===== verification/Arrays.v ===== *)
(** * Arrays

    The one-dimensional NumPy and PyTorch operations the model runner's batch
    preparation uses, over lists of integers, with the errors they raise. *)

From S2P Require Import Prelude.

(** [np.arange(n)]. *)
Definition arange (n : Z) : list Z := seqZ 0 n.

(** [np.cumsum]. *)
Fixpoint cumsum_from (acc : Z) (l : list Z) : list Z :=
  match l with
  | [] => []
  | x :: l' => (acc + x)%Z :: cumsum_from (acc + x) l'
  end.

(** [cu = np.zeros(len(l) + 1); np.cumsum(l, out=cu[1:])]. *)
Definition cumulative (l : list Z) : list Z := 0%Z :: cumsum_from 0 l.

(** [np.repeat(l, counts)]. *)
Definition np_repeat {A} (l : list A) (counts : list Z) : list A :=
  concat (zip_with (fun x n => replicate (Z.to_nat n) x) l counts).

(** [l[mask]] for a boolean mask. *)
Definition masked {A} (l : list A) (mask : list bool) : list A :=
  (filter (fun p => p.2 = true) (zip l mask)).*1.

(** [np.flatnonzero(mask)]. *)
Definition flatnonzero (mask : list bool) : list Z := masked (arange (Zlen mask)) mask.

(** [np.argsort(mask, kind="stable")]. *)
Definition argsort_bool (mask : list bool) : list Z :=
  flatnonzero (negb <$> mask) ++ flatnonzero mask.

(** [l[idx]] for an array of indices. *)
Definition gather {S A} (l : list A) (idx : list Z) : M S (list A) :=
  or_raise (mapM (py_get l) idx) IndexError.

(** [l[i] = v]. *)
Definition py_set {A} (l : list A) (i : Z) (v : A) : option (list A) :=
  let n := Zlen l in
  let j := if (i <? 0)%Z then (n + i)%Z else i in
  if ((0 <=? j) && (j <? n))%Z then Some (<[Z.to_nat j := v]> l) else None.

(** [l[idx] = vals], one after the other. *)
Fixpoint set_all {A} (l : list A) (idx : list Z) (vals : list A) : option (list A) :=
  match idx, vals with
  | i :: idx', v :: vals' => l' ← py_set l i v; set_all l' idx' vals'
  | _, _ => Some l
  end.

Definition scatter {S A} (l : list A) (idx : list Z) (vals : list A) : M S (list A) :=
  or_raise (set_all l idx vals) IndexError.

(** [np.max]. *)
Definition np_max {S} (l : list Z) : M S Z :=
  match l with
  | [] => raise (ValueError "zero-size array to reduction operation maximum which has no identity")
  | x :: l' => ret (foldl Z.max x l')
  end.

Definition count_occ_Z (i : Z) (l : list Z) : Z := Zlen (filter (fun x => x = i) l).

(** [np.bincount] of nonnegative integers. *)
Definition bincount (l : list Z) : list Z :=
  (fun i => count_occ_Z i l) <$> arange (max_default l (-1) + 1).

(** [np.argmax]: the first of the greatest. *)
Fixpoint argmax_from (i best_i best : Z) (l : list Z) : Z :=
  match l with
  | [] => best_i
  | x :: l' => if (best <? x)%Z then argmax_from (i + 1) i x l' else argmax_from (i + 1) best_i best l'
  end.

Definition argmax (l : list Z) : Z :=
  match l with [] => 0 | x :: l' => argmax_from 1 0 x l' end.

(** [torch.searchsorted(sorted, x, right=True)]. *)
Definition searchsorted_right (sorted : list Z) (x : Z) : Z := Zlen (filter (fun y => (y <= x)%Z) sorted).

(** ** Gathering and scattering *)

Lemma gather_ok {S A} (l : list A) idx vals (s : S) Q :
  Forall2 (fun i v => py_get l i = Some v) idx vals -> Q vals s -> wp (gather l idx) s Q.
Proof. intros Hf HQ. unfold gather. apply wp_or_raise with vals; [by apply mapM_Some_2 | done]. Qed.

Lemma py_get_nth {A} (l : list A) (i : nat) : py_get l (Z.of_nat i) = l !! i.
Proof. rewrite py_get_lookup by lia. by rewrite Nat2Z.id. Qed.

Lemma py_set_nth {A} (l : list A) (i : nat) v :
  i < length l -> py_set l (Z.of_nat i) v = Some (<[i := v]> l).
Proof.
  intros Hi. unfold py_set, Zlen. destruct (Z.ltb_spec (Z.of_nat i) 0); [lia|].
  destruct (Z.leb_spec 0 (Z.of_nat i)); [|lia]. destruct (Z.ltb_spec (Z.of_nat i) (Z.of_nat (length l))); [|lia].
  simpl. by rewrite Nat2Z.id.
Qed.

(** Scattering at natural indices. *)
Fixpoint inserts {A} (l : list A) (idx : list nat) (vals : list A) : list A :=
  match idx, vals with
  | i :: idx', v :: vals' => inserts (<[i := v]> l) idx' vals'
  | _, _ => l
  end.

Lemma inserts_length {A} (l : list A) idx vals : length (inserts l idx vals) = length l.
Proof.
  revert l vals. induction idx as [|i idx IH]; intros l [|v vals]; simpl; try done.
  by rewrite IH, length_insert.
Qed.

Lemma scatter_ok {S A} (l : list A) (idx : list nat) vals (s : S) Q :
  Forall (fun i => i < length l) idx -> Q (inserts l idx vals) s ->
  wp (scatter l (Z.of_nat <$> idx) vals) s Q.
Proof.
  intros Hf HQ. unfold scatter. apply wp_or_raise with (inserts l idx vals); [|done]. clear HQ.
  revert l vals Hf. induction idx as [|i idx IH]; intros l vals Hf; [by destruct vals|].
  destruct vals as [|v vals]; [done|]. apply Forall_cons in Hf as [Hi Hf].
  rewrite fmap_cons. cbn [set_all]. rewrite py_set_nth by done. simpl. apply IH.
  eapply Forall_impl; [exact Hf|]. intros j Hj. by rewrite length_insert.
Qed.

Lemma inserts_lookup {A} (l : list A) idx vals n :
  NoDup idx -> length idx = length vals ->
  inserts l idx vals !! n =
    match list_find (fun i => i = n) idx with
    | Some (j, _) => if decide (n < length l) then vals !! j else None
    | None => l !! n
    end.
Proof.
  revert l vals. induction idx as [|i idx IH]; intros l [|v vals] Hnd Hlen; try done; simpl.
  apply NoDup_cons in Hnd as [Hni Hnd]. injection Hlen as Hlen. rewrite IH by done.
  destruct (decide (i = n)) as [->|Hin].
  - rewrite (proj2 (list_find_None (fun i => i = n) idx)).
    + case_decide; [by apply list_lookup_insert_eq|]. apply lookup_ge_None. rewrite length_insert. lia.
    + apply Forall_forall. by intros x Hx ->.
  - destruct (list_find (fun i => i = n) idx) as [[j x]|] eqn:Hf; simpl.
    + by rewrite length_insert.
    + by rewrite list_lookup_insert_ne.
Qed.

(** ** Cumulative sums *)

Lemma cumsum_from_length acc l : length (cumsum_from acc l) = length l.
Proof. revert acc. induction l; intros acc; simpl; [done|]. by f_equal. Qed.

Lemma cumulative_length l : length (cumulative l) = S (length l).
Proof. unfold cumulative. simpl. by rewrite cumsum_from_length. Qed.

Lemma cumsum_from_lookup acc l i :
  i < length l -> cumsum_from acc l !! i = Some (acc + Zsum (take (S i) l))%Z.
Proof.
  revert acc i. induction l as [|x l IH]; intros acc i Hi; simpl in *; [lia|].
  destruct i as [|i]; simpl.
  - unfold Zsum. simpl. f_equal. lia.
  - rewrite IH by lia. f_equal. unfold Zsum. simpl. lia.
Qed.

(** The [i]-th entry is the sum of the first [i] numbers. *)
Lemma cumulative_lookup l i : i <= length l -> cumulative l !! i = Some (Zsum (take i l)).
Proof.
  intros Hi. unfold cumulative. destruct i as [|i]; [done|]. simpl.
  rewrite cumsum_from_lookup by lia. done.
Qed.

Lemma Zsum_nonneg l : Forall (fun x => (0 <= x)%Z) l -> (0 <= Zsum l)%Z.
Proof. unfold Zsum. induction 1; simpl; lia. Qed.

Lemma Zsum_take_le l i : Forall (fun x => (0 <= x)%Z) l -> (Zsum (take i l) <= Zsum l)%Z.
Proof.
  intros Hf. rewrite <-(take_drop i l) at 2. rewrite Zsum_app.
  enough (0 <= Zsum (drop i l))%Z by lia. by apply Zsum_nonneg, Forall_drop.
Qed.

(** ** Masks *)

Lemma masked_cons {A} (x : A) l b mask :
  masked (x :: l) (b :: mask) = if b then x :: masked l mask else masked l mask.
Proof. unfold masked. cbn [zip zip_with]. rewrite filter_cons. by destruct b. Qed.

Lemma masked_map {A} (l : list A) (f : A -> bool) : masked l (f <$> l) = filter (fun x => f x = true) l.
Proof.
  induction l as [|x l IH]; [done|]. rewrite fmap_cons, masked_cons, filter_cons, IH. by destruct (f x).
Qed.

Lemma masked_fmap {A B} (g : A -> B) (l : list A) mask : masked (g <$> l) mask = g <$> masked l mask.
Proof.
  revert mask. induction l as [|x l IH]; intros [|b mask]; try done.
  rewrite fmap_cons, !masked_cons, IH. by destruct b.
Qed.

(** Gathering at the places of a mask. *)
Lemma gather_masked {A} (l : list A) (mask : list bool) :
  length mask = length l ->
  Forall2 (fun i v => py_get l i = Some v) (flatnonzero mask) (masked l mask).
Proof.
  intros Hlen. unfold flatnonzero, arange, Zlen. rewrite Hlen.
  assert (Hgen : forall k pre : list A, length mask = length k ->
    Forall2 (fun i (v : A) => py_get (pre ++ k) i = Some v)
      (masked (seqZ (Z.of_nat (length pre)) (Z.of_nat (length k))) mask) (masked k mask)).
  { clear l Hlen. induction mask as [|b mask IH]; intros k pre Hlen; destruct k as [|x k]; try done.
    injection Hlen as Hlen. rewrite seqZ_cons by (simpl; lia). rewrite !masked_cons.
    replace (Z.pred (Z.of_nat (length (x :: k)))) with (Z.of_nat (length k)) by (simpl; lia).
    replace (Z.succ (Z.of_nat (length pre))) with (Z.of_nat (length (pre ++ [x])))
      by (rewrite length_app; simpl; lia).
    specialize (IH k (pre ++ [x]) Hlen). rewrite <-app_assoc in IH. simpl in IH.
    destruct b; [|done]. constructor; [|done]. rewrite py_get_nth. by apply list_lookup_middle. }
  exact (Hgen l [] Hlen).
Qed.

(** ** Orders *)

Lemma seqZ_seq n k : seqZ (Z.of_nat n) (Z.of_nat k) = Z.of_nat <$> seq n k.
Proof.
  revert n. induction k as [|k IH]; intros n; [by rewrite seqZ_nil by lia|].
  rewrite seqZ_cons by lia. simpl. f_equal.
  replace (Z.succ (Z.of_nat n)) with (Z.of_nat (S n)) by lia.
  replace (Z.pred (Z.of_nat (S k))) with (Z.of_nat k) by lia. apply IH.
Qed.

Lemma arange_seq n : arange (Z.of_nat n) = Z.of_nat <$> seq 0 n.
Proof. apply (seqZ_seq 0). Qed.

(** The places of a mask, and a stable order by it. *)
Definition places (mask : list bool) : list nat := masked (seq 0 (length mask)) mask.
Definition order_of (mask : list bool) : list nat := places (negb <$> mask) ++ places mask.

Lemma flatnonzero_places mask : flatnonzero mask = Z.of_nat <$> places mask.
Proof. unfold flatnonzero, places, Zlen. by rewrite arange_seq, masked_fmap. Qed.

Lemma argsort_order mask : argsort_bool mask = Z.of_nat <$> order_of mask.
Proof. unfold argsort_bool, order_of. by rewrite !flatnonzero_places, fmap_app. Qed.

Lemma masked_split {A} (l : list A) mask :
  length mask = length l -> masked l (negb <$> mask) ++ masked l mask ≡ₚ l.
Proof.
  revert mask. induction l as [|x l IH]; intros [|b mask] Hl; try done.
  injection Hl as Hl. rewrite fmap_cons, !masked_cons. specialize (IH mask Hl).
  destruct b; simpl; [by rewrite <-Permutation_middle, IH | by rewrite IH].
Qed.

Lemma order_perm mask : order_of mask ≡ₚ seq 0 (length mask).
Proof.
  unfold order_of, places. rewrite length_fmap. apply masked_split. by rewrite length_seq.
Qed.

Lemma order_NoDup mask : NoDup (order_of mask).
Proof. rewrite order_perm. apply NoDup_seq. Qed.

(** A list in the order of a mask. *)
Definition by_mask {A} (f : A -> bool) (l : list A) : list A :=
  filter (fun x => f x = false) l ++ filter (fun x => f x = true) l.

Lemma masked_negb {A} (l : list A) (f : A -> bool) : masked l (negb <$> (f <$> l)) = filter (fun x => f x = false) l.
Proof.
  rewrite <-list_fmap_compose, (masked_map l (negb ∘ f)). apply filter_ext_in. intros x _. simpl.
  by destruct (f x).
Qed.

Lemma gather_order {A} (l : list A) (f : A -> bool) :
  Forall2 (fun i v => py_get l i = Some v) (argsort_bool (f <$> l)) (by_mask f l).
Proof.
  unfold argsort_bool, by_mask. rewrite <-masked_negb, <-(masked_map l f).
  apply Forall2_app; apply gather_masked; by rewrite ?length_fmap.
Qed.

Lemma py_get_fmap {A B} (g : A -> B) (l : list A) i : py_get (g <$> l) i = g <$> py_get l i.
Proof.
  unfold py_get. rewrite length_fmap. repeat case_match; try done; by rewrite list_lookup_fmap.
Qed.

Lemma Forall2_gather_fmap {A B} (g : A -> B) (l : list A) idx vals :
  Forall2 (fun i v => py_get l i = Some v) idx vals ->
  Forall2 (fun i v => py_get (g <$> l) i = Some v) idx (g <$> vals).
Proof.
  intros Hf. apply Forall2_fmap_r. eapply Forall2_impl; [exact Hf|]. intros i v Hv. simpl.
  by rewrite py_get_fmap, Hv.
Qed.

Lemma by_mask_perm {A} (f : A -> bool) (l : list A) : by_mask f l ≡ₚ l.
Proof.
  unfold by_mask. rewrite <-masked_negb, <-(masked_map l f). apply masked_split. by rewrite length_fmap.
Qed.

Lemma filter_all {A} (f : A -> bool) b (l : list A) :
  (forall x, x ∈ l -> f x = b) -> filter (fun x => f x = b) l = l.
Proof.
  induction l as [|x l IH]; intros Hl; [done|]. rewrite filter_cons_True by (apply Hl; constructor).
  f_equal. apply IH. intros y Hy. apply Hl. by constructor.
Qed.

Lemma filter_none {A} (f : A -> bool) b (l : list A) :
  (forall x, x ∈ l -> f x <> b) -> filter (fun x => f x = b) l = [].
Proof.
  induction l as [|x l IH]; intros Hl; [done|]. rewrite filter_cons_False by (apply Hl; constructor).
  apply IH. intros y Hy. apply Hl. by constructor.
Qed.

(** An order that moves nothing. *)
Lemma by_mask_false {A} (f : A -> bool) (l : list A) : (forall x, x ∈ l -> f x = false) -> by_mask f l = l.
Proof.
  intros Hl. unfold by_mask. rewrite filter_all, filter_none, app_nil_r; [done| |done].
  intros x Hx. by rewrite Hl.
Qed.

(** The inverse order: [row_of[order] = np.arange(n)]. *)
Definition inverse (mask : list bool) : list Z :=
  inserts (replicate (length mask) 0%Z) (order_of mask) (arange (Zlen mask)).

Lemma scatter_inverse {S} mask (s : S) Q : Q (inverse mask) s ->
  wp (scatter (replicate (length mask) 0%Z) (argsort_bool mask) (arange (Zlen mask))) s Q.
Proof.
  intros HQ. rewrite argsort_order. apply scatter_ok; [|done]. rewrite length_replicate, order_perm.
  apply Forall_forall. intros i Hi%elem_of_seq. lia.
Qed.

Lemma inverse_lookup mask i j : order_of mask !! j = Some i -> inverse mask !! i = Some (Z.of_nat j).
Proof.
  intros Hj. pose proof (order_perm mask) as Hp. pose proof (order_NoDup mask) as Hnd.
  assert (Hlen : length (order_of mask) = length mask) by by rewrite Hp, length_seq.
  assert (Hi : i < length mask).
  { apply list_elem_of_lookup_2 in Hj. rewrite Hp in Hj. apply elem_of_seq in Hj. lia. }
  unfold inverse. rewrite inserts_lookup; [|done|unfold Zlen, arange; rewrite length_seqZ; lia].
  destruct (list_find (fun k => k = i) (order_of mask)) as [[j' i']|] eqn:Hf.
  - apply list_find_Some in Hf as (Hj' & -> & _). rewrite length_replicate, decide_True by done.
    assert (j' = j) as -> by (eapply NoDup_lookup; eauto).
    apply lookup_lt_Some in Hj. unfold arange. rewrite lookup_seqZ_lt; [done|]. unfold Zlen. lia.
  - apply list_find_None in Hf. rewrite Forall_lookup in Hf. by destruct (Hf _ _ Hj).
Qed.

Lemma inverse_length mask : length (inverse mask) = length mask.
Proof. unfold inverse. by rewrite inserts_length, length_replicate. Qed.

(** The batch's [inverse]-th row is the original row. *)
Lemma gather_inverse {A} (l : list A) (f : A -> bool) :
  Forall2 (fun i v => py_get (by_mask f l) i = Some v) (inverse (f <$> l)) l.
Proof.
  set (mask := f <$> l). assert (Hm : length mask = length l) by apply length_fmap.
  apply Forall2_lookup. intros i. destruct (l !! i) as [x|] eqn:Hx.
  - assert (Hi : i < length l) by by apply lookup_lt_Some in Hx.
    assert (Hin : i ∈ order_of mask).
    { rewrite order_perm. apply elem_of_seq. lia. }
    apply list_elem_of_lookup in Hin as [j Hj]. rewrite (inverse_lookup _ _ _ Hj). constructor.
    pose proof (gather_order l f) as Hg. fold mask in Hg. rewrite argsort_order in Hg.
    rewrite Forall2_lookup in Hg. specialize (Hg j). rewrite list_lookup_fmap, Hj in Hg. simpl in Hg.
    inversion Hg as [a b Hab|]. subst. rewrite py_get_nth in *. congruence.
  - rewrite lookup_ge_None_2; [constructor|]. rewrite inverse_length, Hm. by apply lookup_ge_None.
Qed.

Lemma inverse_places {A} (l : list A) (f : A -> bool) :
  Forall2 (fun i v => exists j, i = Z.of_nat j /\ by_mask f l !! j = Some v) (inverse (f <$> l)) l.
Proof.
  pose proof (gather_inverse l f) as Hg. rewrite Forall2_lookup in Hg. apply Forall2_lookup. intros i.
  specialize (Hg i). inversion Hg as [b v Hb Hi Hv|Hi Hv]; [|constructor]. constructor.
  assert (Hin : i ∈ order_of (f <$> l)).
  { rewrite order_perm, length_fmap. apply elem_of_seq. symmetry in Hv. apply lookup_lt_Some in Hv. lia. }
  apply list_elem_of_lookup in Hin as [j Hj]. rewrite (inverse_lookup _ _ _ Hj) in Hi. injection Hi as ->.
  exists j. by rewrite <-py_get_nth.
Qed.

(** Marking the places of some rows. *)
Lemma inserts_in {A} (l : list A) idx vals k i v : NoDup idx -> length idx = length vals -> idx !! k = Some i -> vals !! k = Some v ->
  i < length l -> inserts l idx vals !! i = Some v.
Proof.
  intros Hnd Hlen Hk Hv Hi. rewrite inserts_lookup by done.
  assert (Hf : list_find (fun j => j = i) idx = Some (k, i)).
  { apply list_find_Some. split_and!; [done|done|]. intros j y Hj Hlt ->. pose proof (NoDup_lookup _ _ _ _ Hnd Hj Hk). lia. }
  by rewrite Hf, decide_True.
Qed.

Lemma inserts_const {A} (l : list A) idx v n :
  inserts l idx (replicate (length idx) v) !! n =
  if decide (n ∈ idx) then (if decide (n < length l) then Some v else None) else l !! n.
Proof.
  revert l. induction idx as [|i idx IH]; intros l; [by rewrite decide_False by apply not_elem_of_nil|].
  cbn [length replicate inserts]. rewrite IH, length_insert.
  destruct (decide (n ∈ idx)) as [Hn|Hn], (decide (n ∈ i :: idx)) as [Hc|Hc]; rewrite elem_of_cons in Hc; try tauto.
  - assert (n = i) as -> by tauto. case_decide; [by apply list_lookup_insert_eq|].
    apply lookup_ge_None. rewrite length_insert. lia.
  - apply list_lookup_insert_ne. naive_solver.
Qed.

(** ** Updating at a mask *)

Lemma inserts_app_r {A} (pre l : list A) idx vals :
  inserts (pre ++ l) (Nat.add (length pre) <$> idx) vals = pre ++ inserts l idx vals.
Proof.
  revert l vals. induction idx as [|i idx IH]; intros l [|v vals]; try done.
  rewrite fmap_cons. simpl. by rewrite insert_app_r, IH.
Qed.

Lemma inserts_cat {A} (l : list A) idx idx' vals vals' :
  length idx = length vals ->
  inserts l (idx ++ idx') (vals ++ vals') = inserts (inserts l idx vals) idx' vals'.
Proof.
  revert l vals. induction idx as [|i idx IH]; intros l [|v vals] Hl; try done. simpl. apply IH. by injection Hl.
Qed.

Lemma places_cons b mask : places (b :: mask) = (if b then [0] else []) ++ (S <$> places mask).
Proof.
  unfold places. simpl. rewrite masked_cons, <-fmap_S_seq, masked_fmap. by destruct b.
Qed.

Lemma inserts_places {A B} (f v : A -> B) (g : A -> bool) (l : list A) :
  inserts (f <$> l) (places (g <$> l)) (v <$> filter (fun x => g x = true) l) =
  (fun x => if g x then v x else f x) <$> l.
Proof.
  induction l as [|x l IH]; [done|]. rewrite !fmap_cons, places_cons, filter_cons.
  pose proof (inserts_app_r [if g x then v x else f x] (f <$> l) (places (g <$> l))
    (v <$> filter (fun x => g x = true) l)) as Happ. rewrite IH in Happ. simpl in Happ.
  destruct (g x); simpl; [|exact Happ]. exact Happ.
Qed.

(** ** Repeating *)

Lemma np_repeat_cons {A} (x : A) l n counts :
  np_repeat (x :: l) (n :: counts) = replicate (Z.to_nat n) x ++ np_repeat l counts.
Proof. done. Qed.

Lemma gather_repeat {A} (l : list A) counts pre :
  length counts <= length l ->
  Forall2 (fun i v => py_get (pre ++ l) i = Some v)
    (np_repeat (seqZ (Z.of_nat (length pre)) (Z.of_nat (length counts))) counts) (np_repeat l counts).
Proof.
  revert l pre. induction counts as [|n counts IH]; intros l pre Hl.
  - unfold np_repeat. destruct l; simpl; rewrite ?seqZ_nil by lia; constructor.
  - destruct l as [|x l]; [simpl in Hl; lia|]. simpl in Hl. rewrite seqZ_cons by (simpl; lia).
    rewrite !np_repeat_cons. apply Forall2_app.
    + apply Forall2_replicate. rewrite py_get_nth. by apply list_lookup_middle.
    + specialize (IH l (pre ++ [x]) ltac:(lia)). rewrite <-app_assoc in IH. simpl in IH.
      replace (Z.succ (Z.of_nat (length pre))) with (Z.of_nat (length (pre ++ [x])))
        by (rewrite length_app; simpl; lia).
      replace (Z.pred (Z.of_nat (length (n :: counts)))) with (Z.of_nat (length counts)) by (simpl; lia).
      exact IH.
Qed.

(** The positions of consecutive rows, computed all at once. *)
Lemma repeat_positions c0 starts lens :
  length starts = length lens -> Forall (fun n => (0 <= n)%Z) lens ->
  zip_with Z.sub
    (zip_with Z.add (np_repeat starts lens) (seqZ c0 (Zsum lens)))
    (np_repeat (c0 :: cumsum_from c0 lens) lens) =
  concat (zip_with seqZ starts lens).
Proof.
  revert c0 starts. induction lens as [|n lens IH]; intros c0 [|s starts] Hl Hn; try done.
  injection Hl as Hl. apply Forall_cons in Hn as [Hn Hns].
  rewrite np_repeat_cons. cbn [cumsum_from]. rewrite np_repeat_cons.
  change (Zsum (n :: lens)) with (n + Zsum lens)%Z. pose proof (Zsum_nonneg lens Hns).
  rewrite seqZ_app by lia. cbn [zip_with concat].
  rewrite (zip_with_app Z.add) by by rewrite length_replicate, length_seqZ.
  rewrite (zip_with_app Z.sub) by (rewrite length_zip_with, length_seqZ, !length_replicate; lia).
  f_equal; [|by apply IH].
  apply list_eq. intros i. destruct (decide (i < Z.to_nat n)) as [Hi|Hi].
  - rewrite lookup_seqZ_lt by lia.
    assert (H1 : zip_with Z.add (replicate (Z.to_nat n) s) (seqZ c0 n) !! i = Some (s + (c0 + Z.of_nat i))%Z).
    { rewrite lookup_zip_with, lookup_replicate_2 by done. simpl. by rewrite lookup_seqZ_lt by lia. }
    rewrite lookup_zip_with, H1. simpl. rewrite lookup_replicate_2 by done. simpl. f_equal. lia.
  - rewrite (lookup_ge_None_2 (seqZ s n)) by (rewrite length_seqZ; lia).
    apply lookup_ge_None_2. rewrite !length_zip_with, !length_replicate, length_seqZ. lia.
Qed.

(** ** Rows laid end to end *)

Lemma Zsum_lengths {A} (rows : list (list A)) : Zlen (concat rows) = Zsum (Zlen <$> rows).
Proof.
  induction rows as [|r rows IH]; [done|]. cbn [concat]. rewrite Zlen_app, IH. done.
Qed.

(** A token of a row, in the whole. *)
Lemma concat_lookup {A} (rows : list (list A)) b row t x :
  rows !! b = Some row -> row !! t = Some x ->
  concat rows !! (Z.to_nat (Zsum (Zlen <$> take b rows)) + t) = Some x.
Proof.
  revert b. induction rows as [|r rows IH]; intros b Hb Ht; [done|]. destruct b as [|b]; cbn [lookup list_lookup concat] in *.
  - injection Hb as ->. change (Z.to_nat _) with 0. simpl. rewrite lookup_app_l; [done|]. by apply lookup_lt_Some in Ht.
  - rewrite firstn_cons, fmap_cons. set (m := Zsum (Zlen <$> take b rows)).
    assert (0 <= m)%Z.
    { apply Zsum_nonneg, Forall_fmap, Forall_forall. intros y _. apply Zlen_nonneg. }
    assert (Zsum (Zlen r :: (Zlen <$> take b rows)) = Z.of_nat (length r) + m)%Z as -> by done.
    rewrite lookup_app_r by lia. rewrite <-(IH b Hb Ht). fold m. f_equal. lia.
Qed.

Lemma concat_lookup_inv {X} (l : list (list X)) t e : concat l !! t = Some e ->
  exists i y j, l !! i = Some y /\ y !! j = Some e /\ Z.of_nat t = (Zsum (Zlen <$> take i l) + Z.of_nat j)%Z.
Proof.
  revert t. induction l as [|y l IH]; intros t Ht; [done|]. simpl in Ht. apply lookup_app_Some in Ht as [Ht|[Hge Ht]].
  - exists 0, y, t. split_and!; [done|done|]. unfold Zsum. simpl. lia.
  - destruct (IH _ Ht) as (i & y' & j & Hi & Hj & He). exists (S i), y', j. split_and!; [done|done|].
    rewrite firstn_cons, fmap_cons. change (Zsum (Zlen y :: ?l)) with (Zlen y + Zsum l)%Z. unfold Zlen at 1. lia.
Qed.

Lemma NoDup_concat {A} (rows : list (list A)) :
  (forall i j a b p q x, rows !! i = Some a -> rows !! j = Some b -> a !! p = Some x -> b !! q = Some x -> i = j /\ p = q) ->
  NoDup (concat rows).
Proof.
  intros Hu. apply NoDup_alt. intros t t' x Ht Ht'. destruct (concat_lookup_inv _ _ _ Ht) as (i & a & p & Hi & Hp & He).
  destruct (concat_lookup_inv _ _ _ Ht') as (j & b & q & Hj & Hq & He'). destruct (Hu i j a b p q x) as [-> ->]; try done. lia.
Qed.

(** Where each row's updates go, the rows laid out from [base]. *)
Fixpoint row_places {X} (size : X -> nat) (ix : nat -> X -> list nat) (base : nat) (rows : list X) : list nat :=
  match rows with
  | [] => []
  | x :: rows' => ix base x ++ row_places size ix (base + size x) rows'
  end.

(** Updating rows in the whole is updating each. *)
Lemma inserts_rows {X A} (h h' : X -> list A) (ix : nat -> X -> list nat) (v : X -> list A) rows pre :
  (forall x, x ∈ rows -> length (h' x) = length (h x) /\ length (ix 0 x) = length (v x) /\
     (forall base, ix base x = Nat.add base <$> ix 0 x) /\
     forall q, inserts (h x ++ q) (ix 0 x) (v x) = h' x ++ q) ->
  inserts (pre ++ concat (h <$> rows)) (row_places (fun x => length (h x)) ix (length pre) rows)
    (concat (v <$> rows)) = pre ++ concat (h' <$> rows).
Proof.
  revert pre. induction rows as [|x rows IH]; intros pre Hx; [done|].
  destruct (Hx x) as (Hl & Hv & Hb & Hi); [constructor|]. rewrite !fmap_cons. cbn [row_places concat].
  rewrite inserts_cat by by rewrite Hb, length_fmap.
  rewrite Hb, inserts_app_r, Hi, app_assoc.
  replace (length pre + length (h x)) with (length (pre ++ h' x)) by (rewrite length_app; lia).
  rewrite IH; [by rewrite app_assoc|]. intros y Hy. apply Hx. by constructor.
Qed.

(** The first places of the list and of the values. *)
Lemma inserts_prefix {A} (l vals : list A) n :
  n <= length l -> n <= length vals ->
  inserts l (seq 0 n) (take n vals) = take n vals ++ drop n l.
Proof.
  revert l vals. induction n as [|n IH]; intros l vals Hl Hv; [by rewrite drop_0|].
  destruct l as [|x l], vals as [|v vals]; simpl in *; try lia.
  rewrite <-fmap_S_seq. pose proof (inserts_app_r [v] l (seq 0 n) (take n vals)) as Ha. simpl in Ha.
  rewrite IH in Ha by lia. exact Ha.
Qed.

Lemma row_places_app {X} (size : X -> nat) ix base (l l' : list X) :
  row_places size ix base (l ++ l') =
  row_places size ix base l ++ row_places size ix (base + sum_list_with size l) l'.
Proof.
  revert base. induction l as [|x l IH]; intros base; simpl; [by rewrite Nat.add_0_r|].
  rewrite IH, <-app_assoc. do 3 f_equal. lia.
Qed.

Lemma length_concat_fmap {X A} (h : X -> list A) l :
  length (concat (h <$> l)) = sum_list_with (fun x => length (h x)) l.
Proof. induction l as [|x l IH]; [done|]. rewrite fmap_cons. simpl. by rewrite length_app, IH. Qed.

(** Updating a row past its first entry. *)
Lemma inserts_tail {A} (a : A) (l vals q : list A) :
  length vals = length l ->
  inserts ((a :: l) ++ q) (seq 1 (length l)) vals = (a :: vals) ++ q.
Proof.
  intros Hl. rewrite <-fmap_S_seq. pose proof (inserts_app_r [a] (l ++ q) (seq 0 (length l)) vals) as Ha.
  simpl in Ha. etransitivity; [exact Ha|]. f_equal.
  replace vals with (take (length l) vals) at 1 by (apply take_ge; lia).
  rewrite inserts_prefix by (rewrite ?length_app; lia). by rewrite take_ge, drop_app_length by lia.
Qed.

(** Rows of one length, flattened. *)
Lemma gather_flat {A} (rows : list (list A)) k i row n :
  Forall (fun row => Zlen row = k) rows -> py_get rows i = Some row -> (0 <= i)%Z -> (Z.of_nat n <= k)%Z ->
  Forall2 (fun j v => py_get (concat rows) j = Some v) (seqZ (i * k) (Z.of_nat n)) (take n row).
Proof.
  intros Hk Hrow Hi Hn. rewrite py_get_lookup in Hrow by done. apply Forall2_lookup. intros t.
  assert (Hlen : Zlen row = k).
  { rewrite Forall_lookup in Hk. by eapply Hk. }
  destruct (decide (t < n)) as [Ht|Ht].
  - rewrite lookup_seqZ_lt by lia. rewrite lookup_take_lt by done.
    destruct (lookup_lt_is_Some_2 row t) as [x Hx]; [unfold Zlen in Hlen; lia|]. rewrite Hx. constructor.
    pose proof (concat_lookup rows _ row t x Hrow Hx) as Hc. rewrite <-Hc.
    assert (Hs : Zsum (Zlen <$> take (Z.to_nat i) rows) = (i * k)%Z).
    { apply lookup_lt_Some in Hrow. clear -Hk Hrow Hi.
      assert (Hg : forall m, m <= length rows -> Zsum (Zlen <$> take m rows) = (Z.of_nat m * k)%Z).
      { clear Hrow Hi i. induction rows as [|x rows IH]; intros [|m] Hm; try done; simpl in Hm; try lia.
        apply Forall_cons in Hk as [Hx Hk]. rewrite firstn_cons, fmap_cons, Nat2Z.inj_succ, Z.mul_succ_l.
        rewrite <-(IH Hk m) by lia. unfold Zsum. simpl. lia. }
      rewrite Hg by lia. by rewrite Z2Nat.id. }
    assert (0 <= i * k)%Z by (apply Z.mul_nonneg_nonneg; lia).
    rewrite Hs, py_get_lookup by lia. f_equal. lia.
  - rewrite lookup_seqZ_ge by lia. rewrite lookup_take_ge by lia. constructor.
Qed.

(** ** The most frequent *)

Lemma argmax_from_spec i bi b l :
  let r := argmax_from i bi b l in
  (r = bi /\ Forall (fun x => (x <= b)%Z) l) \/
  exists j x, l !! j = Some x /\ r = (i + Z.of_nat j)%Z /\ (b < x)%Z /\
    Forall (fun y => (y <= x)%Z) l /\ Forall (fun y => (y < x)%Z) (take j l).
Proof.
  revert i bi b. induction l as [|y l IH]; intros i bi b; simpl; [by left|].
  destruct (Z.ltb_spec b y) as [Hb|Hb].
  - right. destruct (IH (i + 1)%Z i y) as [[-> Hf]|(j & x & Hj & -> & Hx & Hf & Ht)].
    + exists 0, y. split_and!; [done|lia|done|by constructor|constructor].
    + exists (S j), x. split_and!; [done|lia|lia|constructor; [lia|done]|simpl; constructor; [lia|done]].
  - destruct (IH (i + 1)%Z bi b) as [[-> Hf]|(j & x & Hj & -> & Hx & Hf & Ht)].
    + left. split; [done|by constructor].
    + right. exists (S j), x. split_and!; [done|lia|lia|constructor; [lia|done]|simpl; constructor; [lia|done]].
Qed.

(** The first place of the greatest entry. *)
Lemma argmax_spec l : l <> [] -> exists j x, l !! j = Some x /\ argmax l = Z.of_nat j /\
  Forall (fun y => (y <= x)%Z) l /\ Forall (fun y => (y < x)%Z) (take j l).
Proof.
  destruct l as [|y l]; [done|]. intros _. unfold argmax.
  destruct (argmax_from_spec 1 0 y l) as [[-> Hf]|(j & x & Hj & -> & Hx & Hf & Ht)].
  - exists 0, y. split_and!; [done|lia|by constructor|constructor].
  - exists (S j), x. split_and!; [done|lia|constructor; [lia|done]|simpl; constructor; [lia|done]].
Qed.

Lemma count_occ_pos i l : (0 < count_occ_Z i l)%Z <-> i ∈ l.
Proof.
  unfold count_occ_Z, Zlen. split.
  - intros Hp. destruct (filter (fun x => x = i) l) as [|x f] eqn:Hf; [simpl in Hp; lia|].
    assert (x ∈ filter (fun x => x = i) l) as Hx by (rewrite Hf; constructor).
    by apply list_elem_of_filter in Hx as [-> ?].
  - intros Hi. assert (i ∈ filter (fun x => x = i) l) as Hx by by apply list_elem_of_filter.
    destruct (filter _ l); [by apply elem_of_nil in Hx|simpl; lia].
Qed.

Lemma max_default_spec l d : l <> [] -> max_default l d ∈ l /\ Forall (fun x => (x <= max_default l d)%Z) l.
Proof.
  destruct l as [|x l]; [done|]. intros _. simpl. revert x. induction l as [|y l IH]; intros x; simpl.
  - split; [constructor|]. by repeat constructor.
  - destruct (IH (Z.max x y)) as [Hin Hall]. apply Forall_cons in Hall as [Hm Hall]. split.
    + apply elem_of_cons in Hin as [Hin|Hin]; [|by do 2 apply list_elem_of_further].
      destruct (Z.max_spec x y) as [[_ Hxy]|[_ Hxy]]; rewrite Hxy in Hin; rewrite Hxy.
      * apply list_elem_of_further. rewrite Hin. apply list_elem_of_here.
      * rewrite Hin. apply list_elem_of_here.
    + repeat constructor; [lia|lia|done].
Qed.

(** The most frequent number, the least of them. *)
Lemma mode_spec l : l <> [] -> Forall (fun x => (0 <= x)%Z) l ->
  argmax (bincount l) ∈ l /\
  (forall i, i ∈ l -> (count_occ_Z i l <= count_occ_Z (argmax (bincount l)) l)%Z) /\
  (forall i, i ∈ l -> count_occ_Z i l = count_occ_Z (argmax (bincount l)) l -> (argmax (bincount l) <= i)%Z).
Proof.
  intros Hne Hpos. destruct (max_default_spec l (-1) Hne) as [Hmax Hall].
  assert (Hm0 : (0 <= max_default l (-1))%Z) by (rewrite Forall_forall in Hpos; by apply Hpos).
  assert (Hlk : forall i, i ∈ l -> (0 <= i)%Z /\ bincount l !! Z.to_nat i = Some (count_occ_Z i l)).
  { intros i Hi. rewrite Forall_forall in Hpos. rewrite Forall_forall in Hall.
    specialize (Hpos i Hi). specialize (Hall i Hi). split; [done|]. unfold bincount, arange.
    rewrite list_lookup_fmap, lookup_seqZ_lt by lia. simpl. do 2 f_equal. lia. }
  destruct (argmax_spec (bincount l)) as (j & x & Hj & -> & Hge & Hlt).
  { intros Hb. destruct (Hlk _ Hmax) as [_ Hl]. by rewrite Hb in Hl. }
  assert (Hx : x = count_occ_Z (Z.of_nat j) l).
  { unfold bincount, arange in Hj. apply list_lookup_fmap_Some in Hj as (k & -> & Hk).
    apply lookup_seqZ in Hk as [-> _]. f_equal; lia. }
  rewrite Forall_lookup in Hge. rewrite Forall_lookup in Hlt. split_and!.
  - apply count_occ_pos. rewrite <-Hx. destruct (Hlk _ Hmax) as [_ Hl]. specialize (Hge _ _ Hl).
    apply count_occ_pos in Hmax. lia.
  - intros i Hi. destruct (Hlk i Hi) as [_ Hl]. specialize (Hge _ _ Hl). lia.
  - intros i Hi Hc. destruct (Hlk i Hi) as [H0 Hl]. destruct (decide (Z.of_nat j <= i)%Z) as [|Hn]; [done|].
    assert (Ht : take j (bincount l) !! Z.to_nat i = Some (count_occ_Z i l)) by (rewrite lookup_take_lt by lia; done).
    specialize (Hlt _ _ Ht). lia.
Qed.

(** ** Rows, element by element *)

Lemma masked_true {A} (l : list A) mask :
  length mask = length l -> Forall (fun b => b = true) mask -> masked l mask = l.
Proof.
  revert mask. induction l as [|x l IH]; intros [|b mask] Hl Hf; try done.
  apply Forall_cons in Hf as [-> Hf]. injection Hl as Hl. by rewrite masked_cons, IH.
Qed.

Lemma Forall2_masked {A B} (R : A -> B -> Prop) l k mask :
  Forall2 R l k -> Forall2 R (masked l mask) (masked k mask).
Proof.
  intros Hf. revert mask. induction Hf as [|x y l k Hxy _ IH]; intros [|b mask]; try constructor.
  rewrite !masked_cons. destruct b; [constructor; [done|]|]; apply IH.
Qed.

Lemma zip_with_concat {X A B C} (g : A -> B -> C) (f : X -> list A) (h : X -> list B) l :
  (forall x, x ∈ l -> length (f x) = length (h x)) ->
  zip_with g (concat (f <$> l)) (concat (h <$> l)) = concat ((fun x => zip_with g (f x) (h x)) <$> l).
Proof.
  induction l as [|x l IH]; intros Hl; [done|]. rewrite !fmap_cons. cbn [concat].
  rewrite zip_with_app by (apply Hl; constructor). rewrite IH; [done|]. intros y Hy. apply Hl. by constructor.
Qed.

Lemma zip_with_same {A B C D} (g : B -> C -> D) (a : A -> B) (b : A -> C) l :
  zip_with g (a <$> l) (b <$> l) = (fun x => g (a x) (b x)) <$> l.
Proof. induction l as [|x l IH]; [done|]. by rewrite !fmap_cons, <-IH. Qed.

Lemma fmap_concat_rows {X A B} (g : A -> B) (f : X -> list A) l :
  g <$> concat (f <$> l) = concat ((fun x => g <$> f x) <$> l).
Proof. induction l as [|x l IH]; [done|]. rewrite !fmap_cons. cbn [concat]. by rewrite fmap_app, IH. Qed.

Lemma np_repeat_rows {X A} (f : X -> A) (n : X -> Z) l :
  np_repeat (f <$> l) (n <$> l) = concat ((fun x => replicate (Z.to_nat (n x)) (f x)) <$> l).
Proof. unfold np_repeat. by rewrite zip_with_same. Qed.

Lemma zip_with_seqZ_shift a b n :
  zip_with Z.sub (seqZ a n) (replicate (Z.to_nat n) b) = seqZ (a - b) n.
Proof.
  apply list_eq. intros i. rewrite lookup_zip_with. destruct (decide (Z.of_nat i < n)%Z) as [Hi|Hi].
  - rewrite !lookup_seqZ_lt by lia. simpl. rewrite lookup_replicate_2 by lia. simpl. f_equal. lia.
  - by rewrite !lookup_seqZ_ge by lia.
Qed.

(** Cells of a table, a row's columns at a time. *)
Lemma gather2_rows {X} (rows : list X) (tab cols : X -> list Z) (val : X -> Z -> Z) (len : X -> Z) pre :
  (forall x, x ∈ rows -> length (cols x) = Z.to_nat (len x) /\
     Forall (fun c => py_get (tab x) c = Some (val x c)) (cols x)) ->
  mapM (fun p => row ← py_get (pre ++ (tab <$> rows)) p.1; py_get row p.2)
    (zip (np_repeat (seqZ (Z.of_nat (length pre)) (Z.of_nat (length rows))) (len <$> rows))
         (concat (cols <$> rows))) =
  Some (concat ((fun x => val x <$> cols x) <$> rows)).
Proof.
  intros Hx. apply mapM_Some_2. revert pre. induction rows as [|x rows IH]; intros pre.
  { rewrite seqZ_nil by done. constructor. }
  destruct (Hx x) as [Hl Hc]; [constructor|].
  rewrite seqZ_cons by (simpl; lia). rewrite !fmap_cons, np_repeat_cons. cbn [concat].
  rewrite zip_with_app by by rewrite length_replicate. apply Forall2_app.
  - rewrite <-Hl. clear -Hc. induction Hc as [|c cs Hc _ IH]; [constructor|]. simpl. constructor; [|apply IH].
    cbn [fst snd]. rewrite py_get_nth, list_lookup_middle by done. exact Hc.
  - specialize (IH ltac:(intros y Hy; apply Hx; by constructor) (pre ++ [tab x])). rewrite <-app_assoc in IH. simpl in IH.
    replace (Z.succ (Z.of_nat (length pre))) with (Z.of_nat (length (pre ++ [tab x])))
      by (rewrite length_app; simpl; lia).
    replace (Z.pred (Z.of_nat (length (x :: rows)))) with (Z.of_nat (length rows)) by (simpl; lia).
    exact IH.
Qed.

Lemma masked_app {A} (l l' : list A) m m' :
  length l = length m -> masked (l ++ l') (m ++ m') = masked l m ++ masked l' m'.
Proof. intros Hl. unfold masked. rewrite zip_with_app by done. by rewrite filter_app, fmap_app. Qed.

(** The first [d] of [d + 1] consecutive numbers. *)
Lemma masked_below a d : (0 <= d)%Z ->
  masked (seqZ a (d + 1)) (zip_with Z.ltb (seqZ 0 (d + 1)) (replicate (Z.to_nat (d + 1)) d)) = seqZ a d.
Proof.
  intros Hd. rewrite !seqZ_app by lia. rewrite Z2Nat.inj_add, replicate_add by lia.
  rewrite zip_with_app by by rewrite length_seqZ, length_replicate.
  rewrite masked_app by (rewrite length_zip_with, !length_seqZ, length_replicate; lia).
  rewrite masked_true.
  - rewrite Z.add_0_l, (seqZ_cons d 1), (seqZ_cons (a + d) 1) by lia. simpl. rewrite Z.ltb_irrefl.
    by rewrite masked_cons, app_nil_r.
  - rewrite length_zip_with, !length_seqZ, length_replicate. lia.
  - apply Forall_lookup. intros i b Hb. apply lookup_zip_with_Some in Hb as (x & y & -> & Hx & Hy).
    apply lookup_seqZ in Hx as [-> Hx]. apply lookup_replicate in Hy as [-> _]. apply Z.ltb_lt. lia.
Qed.

Lemma drop_seqZ_last a n : (0 < n)%Z -> drop (Z.to_nat (n - 1)) (seqZ a n) = [a + n - 1]%Z.
Proof.
  intros Hn. replace n with (n - 1 + 1)%Z at 2 by lia. rewrite seqZ_app, drop_app_length' by (rewrite ?length_seqZ; lia).
  rewrite seqZ_cons by lia. simpl. f_equal. lia.
Qed.

(** Places counted from the ends of the counts before. *)
Lemma exclusive_sums c l : zip_with Z.sub (cumsum_from c l) l = take (length l) (c :: cumsum_from c l).
Proof.
  revert c. induction l as [|x l IH]; intros c; [done|]. simpl. f_equal; [lia|]. by rewrite IH.
Qed.

Lemma np_repeat_take {A} (l : list A) counts : np_repeat (take (length counts) l) counts = np_repeat l counts.
Proof.
  unfold np_repeat. f_equal. revert l. induction counts as [|n counts IH]; intros [|x l]; simpl; try done.
  by rewrite IH.
Qed.

Lemma zip_with_add_sub (a b c : list Z) :
  zip_with Z.add a (zip_with Z.sub b c) = zip_with Z.sub (zip_with Z.add a b) c.
Proof.
  revert b c. induction a as [|x a IH]; intros [|y b] [|z c]; try done. simpl. f_equal; [lia|apply IH].
Qed.
