(* ===== verification/AttnContext.v ===== *)
(** * The attention context of a step

    [utils/context.py]: the record a forward pass reads, its stack, and the
    split of a batch into the rows that decode attention takes and the rest. A
    tensor is its list of values; one the host shares with the device has two. *)

From S2P Require Import Prelude Arrays.

(** [Context] without its caches. *)
Record Fields := {
  cx_is_prefill : bool;
  cx_cu_seqlens_q : option (list Z);
  cx_cu_seqlens_k : option (list Z);
  cx_max_seqlen_q : Z;
  cx_max_seqlen_k : Z;
  cx_slot_mapping : option (list Z);
  cx_context_lens : option (list Z);
  cx_block_tables : option (list (list Z));
  cx_logits_indices : option (list Z);
  cx_cu_seqlens_q_host : option (list Z);
  cx_cu_seqlens_k_host : option (list Z);
  cx_decode_query_len : Z;
  cx_piecewise_size : option Z;
  cx_full_graph_size : option Z;
  cx_num_actual_tokens : option Z
}.

#[export] Instance eta_Fields : Eta Fields := fun c =>
  Build_Fields (cx_is_prefill c) (cx_cu_seqlens_q c) (cx_cu_seqlens_k c) (cx_max_seqlen_q c)
    (cx_max_seqlen_k c) (cx_slot_mapping c) (cx_context_lens c) (cx_block_tables c)
    (cx_logits_indices c) (cx_cu_seqlens_q_host c) (cx_cu_seqlens_k_host c)
    (cx_decode_query_len c) (cx_piecewise_size c) (cx_full_graph_size c) (cx_num_actual_tokens c).

Definition default_Fields : Fields :=
  {| cx_is_prefill := false; cx_cu_seqlens_q := None; cx_cu_seqlens_k := None;
     cx_max_seqlen_q := 0; cx_max_seqlen_k := 0; cx_slot_mapping := None; cx_context_lens := None;
     cx_block_tables := None; cx_logits_indices := None; cx_cu_seqlens_q_host := None;
     cx_cu_seqlens_k_host := None; cx_decode_query_len := 1; cx_piecewise_size := None;
     cx_full_graph_size := None; cx_num_actual_tokens := None |}.

(** The prefill half of a split: none, the context itself, or a new one. *)
Inductive Prefills := PNone_ | PSelf | PNew (c : Fields).

Record Split := { sp_rows : Z; sp_decodes : option Fields; sp_prefills : Prefills }.

(** [Context], with its cache of splits by query length. *)
Record AttentionContext := { cx_fields : Fields; cx_decode_splits : option (gmap Z Split) }.

#[export] Instance eta_AttentionContext : Eta AttentionContext := fun c =>
  Build_AttentionContext (cx_fields c) (cx_decode_splits c).

(** The lengths between consecutive entries. *)
Definition diffs (cu : list Z) : list Z := zip_with Z.sub (tail cu) cu.

(** [next((i for i in range(num_rows) if cu_q[i + 1] - cu_q[i] != query_len), num_rows)]. *)
Fixpoint leading_rows (query_len : Z) (lens : list Z) : nat :=
  match lens with
  | [] => 0
  | n :: lens' => if (n =? query_len)%Z then S (leading_rows query_len lens') else 0
  end.

(** The leading [n] rows, as decode rows. *)
Definition decode_half (n : nat) (query_len : Z) (c : Fields) (cu_q cu_k dev_q dev_k lens : list Z)
    (tables : list (list Z)) (longest : Z) : Fields :=
  default_Fields
    <| cx_cu_seqlens_q := Some (take (S n) dev_q) |> <| cx_cu_seqlens_k := Some (take (S n) dev_k) |>
    <| cx_cu_seqlens_q_host := Some (take (S n) cu_q) |> <| cx_cu_seqlens_k_host := Some (take (S n) cu_k) |>
    <| cx_max_seqlen_q := query_len |> <| cx_max_seqlen_k := longest |>
    <| cx_context_lens := Some (take n lens) |> <| cx_block_tables := Some (take n tables) |>.

(** The rest. *)
Definition prefill_half (n : nat) (sub_q sub_k dev_q dev_k lens : list Z) (tables : list (list Z))
    (off_q off_k longest_q longest_k : Z) : Fields :=
  default_Fields
    <| cx_is_prefill := true |>
    <| cx_cu_seqlens_q := Some ((fun x => x - off_q)%Z <$> drop n dev_q) |>
    <| cx_cu_seqlens_k := Some ((fun x => x - off_k)%Z <$> drop n dev_k) |>
    <| cx_cu_seqlens_q_host := Some sub_q |> <| cx_cu_seqlens_k_host := Some sub_k |>
    <| cx_max_seqlen_q := longest_q |> <| cx_max_seqlen_k := longest_k |>
    <| cx_context_lens := Some (drop n lens) |> <| cx_block_tables := Some (drop n tables) |>.

(** The split of a batch with its row starts on the host. *)
Definition make_split (query_len : Z) (cu_q : list Z) (tables : list (list Z)) : M AttentionContext Split :=
  let! x := gets id in
  let c := cx_fields x in
  let! cu_k := or_raise (cx_cu_seqlens_k_host c) (AssertionError "") in
  let! dev_q := or_raise (cx_cu_seqlens_q c) (AssertionError "") in
  let! dev_k := or_raise (cx_cu_seqlens_k c) (AssertionError "") in
  let! lens := or_raise (cx_context_lens c) (AssertionError "") in
  let num_rows := length cu_q - 1 in
  let n := leading_rows query_len (diffs cu_q) in
  let! decodes :=
    (if (0 <? n) then
       let! longest := np_max (take n (diffs cu_k)) in
       ret (Some (decode_half n query_len c cu_q cu_k dev_q dev_k lens tables longest))
     else ret None) in
  let! prefills :=
    (if n =? 0 then ret PSelf
     else if n <? num_rows then
       let! q0 := or_raise (cu_q !! n) IndexError in
       let! k0 := or_raise (cu_k !! n) IndexError in
       let! d0 := or_raise (dev_k !! n) IndexError in
       let sub_q := (fun x => x - q0)%Z <$> drop n cu_q in
       let sub_k := (fun x => x - k0)%Z <$> drop n cu_k in
       let! longest_q := np_max (diffs sub_q) in
       let! longest_k := np_max (diffs sub_k) in
       ret (PNew (prefill_half n sub_q sub_k dev_q dev_k lens tables q0 d0 longest_q longest_k))
     else ret PNone_) in
  ret {| sp_rows := Z.of_nat n; sp_decodes := decodes; sp_prefills := prefills |}.

Definition split_decodes_and_prefills (query_len : Z) : M AttentionContext Split :=
  let! x := gets id in
  match cx_block_tables (cx_fields x), cx_cu_seqlens_q_host (cx_fields x) with
  | Some tables, Some cu_q =>
      modify (fun x => x <| cx_decode_splits ::= fun o => Some (default ∅ o) |>);;;
      let! x := gets id in
      match default ∅ (cx_decode_splits x) !! query_len with
      | Some s => ret s
      | None =>
          let! s := make_split query_len cu_q tables in
          modify (fun x => x <| cx_decode_splits ::= fun o => Some (<[query_len := s]> (default ∅ o)) |>);;;
          ret s
      end
  | _, _ => ret {| sp_rows := 0; sp_decodes := None; sp_prefills := PSelf |}
  end.

(** ** The context's stack

    The module's one context, set for a pass and restored however it ends. *)

Definition use_context {A} (c : AttentionContext) (body : M AttentionContext A) : M AttentionContext A := fun previous =>
  match body c with (r, _) => (r, previous) end.

Definition set_context {A} (f : Fields) (body : M AttentionContext A) : M AttentionContext A :=
  use_context {| cx_fields := f; cx_decode_splits := None |} body.

Definition reset_context : M AttentionContext unit :=
  modify (fun _ => {| cx_fields := default_Fields; cx_decode_splits := None |}).

(** ** The split *)

(** A batch's rows, as the host and the device see them. *)
Record BatchContext (c : Fields) (q_lens k_lens dev_lens : list Z) (tables : list (list Z)) : Prop := {
  bc_q : cx_cu_seqlens_q_host c = Some (cumulative q_lens);
  bc_k : cx_cu_seqlens_k_host c = Some (cumulative k_lens);
  bc_dev_q : cx_cu_seqlens_q c = Some (cumulative q_lens);
  bc_dev_k : cx_cu_seqlens_k c = Some (cumulative dev_lens);
  bc_lens : cx_context_lens c = Some dev_lens;
  bc_tables : cx_block_tables c = Some tables;
  bc_max_q : q_lens <> [] -> cx_max_seqlen_q c = max_default q_lens 0;
  bc_max_k : k_lens <> [] -> cx_max_seqlen_k c = max_default k_lens 0;
  bc_rows : length k_lens = length q_lens /\ length dev_lens = length q_lens /\ length tables = length q_lens
}.

Lemma diffs_cumulative_from acc l : diffs (acc :: cumsum_from acc l) = l.
Proof.
  unfold diffs. revert acc. induction l as [|x l IH]; intros acc; simpl; [done|].
  f_equal; [lia|]. apply (IH (acc + x)%Z).
Qed.

Lemma diffs_cumulative l : diffs (cumulative l) = l.
Proof. apply diffs_cumulative_from. Qed.

Lemma leading_rows_spec q lens :
  let n := leading_rows q lens in
  n <= length lens /\ Forall (fun x => x = q) (take n lens) /\ (forall x, lens !! n = Some x -> x <> q).
Proof.
  induction lens as [|x lens IH]; simpl; [split_and!; [lia|constructor|done]|].
  destruct (Z.eqb_spec x q) as [->|Hne]; simpl.
  - destruct IH as (H1 & H2 & H3). split_and!; [lia|by constructor|done].
  - split_and!; [lia|constructor|]. by intros y [= <-].
Qed.

Lemma cumsum_from_shift a b l : (fun x => x - b)%Z <$> cumsum_from a l = cumsum_from (a - b) l.
Proof.
  revert a. induction l as [|x l IH]; intros a; [done|]. simpl. f_equal; [lia|].
  rewrite IH. f_equal. lia.
Qed.

Lemma cumulative_drop l n :
  n <= length l -> (fun x => x - Zsum (take n l))%Z <$> drop n (cumulative l) = cumulative (drop n l).
Proof.
  intros Hn. unfold cumulative.
  assert (Hgen : forall a, drop n (a :: cumsum_from a l) = (a + Zsum (take n l))%Z :: cumsum_from (a + Zsum (take n l)) (drop n l)).
  { revert n Hn. induction l as [|x l IH]; intros [|n] Hn a; simpl in *; try lia.
    - unfold Zsum. simpl. by rewrite Z.add_0_r.
    - unfold Zsum. simpl. by rewrite Z.add_0_r.
    - rewrite (IH n) by lia. unfold Zsum. simpl. by rewrite Z.add_assoc. }
  rewrite Hgen, fmap_cons, cumsum_from_shift. f_equal; [lia|]. f_equal. lia.
Qed.

Lemma cumulative_take l n : n <= length l -> take (S n) (cumulative l) = cumulative (take n l).
Proof.
  unfold cumulative. intros Hn. simpl. f_equal. revert n Hn.
  generalize 0%Z. induction l as [|x l IH]; intros a [|n] Hn; simpl in *; try done; try lia.
  f_equal. apply IH. lia.
Qed.

(** The split's halves: each batch of its own, together the whole. *)
Definition SplitOf (q : Z) (q_lens k_lens dev_lens : list Z) (tables : list (list Z)) (s : Split) : Prop :=
  let n := Z.to_nat (sp_rows s) in
  (0 <= sp_rows s)%Z /\ n <= length q_lens /\ Forall (fun x => x = q) (take n q_lens) /\
  (forall x, q_lens !! n = Some x -> x <> q) /\
  match sp_decodes s with
  | None => n = 0
  | Some c => 0 < n /\ cx_max_seqlen_q c = q /\
      BatchContext c (take n q_lens) (take n k_lens) (take n dev_lens) (take n tables)
  end /\
  match sp_prefills s with
  | PNone_ => n = length q_lens
  | PSelf => n = 0
  | PNew c => 0 < n < length q_lens /\ cx_is_prefill c = true /\
      BatchContext c (drop n q_lens) (drop n k_lens) (drop n dev_lens) (drop n tables)
  end.

Lemma np_max_ok {S} (l : list Z) (s : S) Q : l <> [] -> Q (max_default l 0) s -> wp (np_max l) s Q.
Proof. intros Hl HQ. unfold np_max. destruct l; [done|]. by apply wp_ret. Qed.

Lemma max_default_const l q : l <> [] -> Forall (fun x => x = q) l -> max_default l 0 = q.
Proof. intros Hl Hq. rewrite Forall_forall in Hq. apply Hq, max_default_spec, Hl. Qed.

Lemma make_split_spec q q_lens k_lens dev_lens tables x :
  BatchContext (cx_fields x) q_lens k_lens dev_lens tables ->
  wp (make_split q (cumulative q_lens) tables) x (fun s x' =>
    x' = x /\ SplitOf q q_lens k_lens dev_lens tables s).
Proof.
  intros [Hq Hk Hdq Hdk Hl Ht _ _ (Lk & Ld & Lt)]. unfold make_split. wp_steps. unfold id.
  rewrite Hk, Hdq, Hdk, Hl. cbn [or_raise]. wp_steps.
  rewrite diffs_cumulative, cumulative_length, diffs_cumulative. set (n := leading_rows q q_lens).
  destruct (leading_rows_spec q q_lens) as (Hn & Hall & Hnext). fold n in Hn, Hall, Hnext.
  assert (Hdec : forall m, 0 < n -> m = max_default (take n k_lens) 0 -> BatchContext (decode_half n q (cx_fields x) (cumulative q_lens)
      (cumulative k_lens) (cumulative q_lens) (cumulative dev_lens) dev_lens tables m)
    (take n q_lens) (take n k_lens) (take n dev_lens) (take n tables)).
  { intros m H0 Hm. constructor; simpl; rewrite <-?cumulative_take by lia; try done.
    - intros Hne. by rewrite (max_default_const _ q).
    - rewrite !length_take. lia. }
  eapply wp_mono with (P := fun d x' => x' = x /\
    match d with None => n = 0 | Some c => 0 < n /\ cx_max_seqlen_q c = q /\
      BatchContext c (take n q_lens) (take n k_lens) (take n dev_lens) (take n tables) end).
  { apply wp_if; intros Hn0; [apply Nat.ltb_lt in Hn0|apply Nat.ltb_ge in Hn0; apply wp_ret; split; [done|lia]].
    apply wp_bind, np_max_ok.
    - intros He. apply (f_equal length) in He. rewrite length_take in He. simpl in He. lia.
    - apply wp_ret. split; [done|]. split; [done|]. split; [done|by apply Hdec]. }
  intros decodes x' [-> Hd]. apply wp_bind. eapply wp_mono with (P := fun p x' => x' = x /\
    match p with PNone_ => n = length q_lens | PSelf => n = 0
    | PNew c => 0 < n < length q_lens /\ cx_is_prefill c = true /\
      BatchContext c (drop n q_lens) (drop n k_lens) (drop n dev_lens) (drop n tables) end).
  { apply wp_if; intros Hn0; [apply Nat.eqb_eq in Hn0; by apply wp_ret|apply Nat.eqb_neq in Hn0].
    apply wp_if; intros Hlt; [apply Nat.ltb_lt in Hlt|apply Nat.ltb_ge in Hlt; apply wp_ret; split; [done|lia]].
    rewrite !cumulative_lookup by lia. cbn [or_raise]. wp_steps.
    rewrite !cumulative_drop by lia. rewrite !diffs_cumulative.
    apply np_max_ok; [|apply wp_bind, np_max_ok; [|apply wp_ret]].
    1,2: intros He; apply (f_equal length) in He; rewrite length_drop in He; simpl in He; lia.
    split; [done|]. split; [lia|]. split; [done|].
    constructor; simpl; rewrite ?cumulative_drop by lia; try done. rewrite !length_drop. lia. }
  intros prefills x' [-> Hp]. apply wp_ret. split; [done|]. unfold SplitOf. simpl. rewrite Nat2Z.id.
  split; [lia|]. by split_and!.
Qed.

(** A context's cached splits are splits of its batch. *)
Definition Cached (q_lens k_lens dev_lens : list Z) (tables : list (list Z)) (x : AttentionContext) : Prop :=
  forall q s, default ∅ (cx_decode_splits x) !! q = Some s -> SplitOf q q_lens k_lens dev_lens tables s.

Lemma split_spec q q_lens k_lens dev_lens tables x :
  BatchContext (cx_fields x) q_lens k_lens dev_lens tables -> Cached q_lens k_lens dev_lens tables x ->
  wp (split_decodes_and_prefills q) x (fun s x' =>
    SplitOf q q_lens k_lens dev_lens tables s /\ cx_fields x' = cx_fields x /\
    Cached q_lens k_lens dev_lens tables x' /\ default ∅ (cx_decode_splits x') !! q = Some s).
Proof.
  intros Hb Hc. unfold split_decodes_and_prefills. wp_steps. change (id x) with x.
  rewrite (bc_tables _ _ _ _ _ Hb), (bc_q _ _ _ _ _ Hb). wp_steps.
  match goal with |- context [id ?y] => change (id y) with y end. simpl.
  destruct (default ∅ (cx_decode_splits x) !! q) as [s|] eqn:Hs.
  - wp_steps. split_and!; [by apply Hc|done|exact Hc|done].
  - wp_step. wp_call (make_split_spec q q_lens k_lens dev_lens tables); [done|].
    intros s x' [-> Hsp]. wp_steps. simpl. split_and!; [done|done| |by rewrite lookup_insert_eq].
    intros q' s'. simpl. rewrite lookup_insert_Some. intros [[<- <-]|[_ Hs']]; [done|]. by apply Hc.
Qed.
