(* ===== verification/ModelRunner.v ===== *)
(** * The model runner's host side

    [engine/model_runner.py]: the sizes graphs are captured at, the choice of a
    step's path, and the preparation of a batch's inputs. The model's passes
    are the device's; tensors here are the lists of their values, and one that
    stays on the device between steps is a value of the runner's state. *)

From S2P Require Import Prelude Output Sequence Arrays AttnContext.

(** ** Graph sizes *)

Definition FULL_MODES : list string := ["full"; "full_and_piecewise"]%string.
Definition PIECEWISE_MODES : list string := ["piecewise"; "full_and_piecewise"]%string.

Definition in_modes (mode : string) (modes : list string) : bool := bool_decide (mode ∈ modes).

(** [range(a, b, step)] for a positive step. *)
Definition range_step (a b step : Z) : list Z :=
  (fun i => a + i * step)%Z <$> arange ((b - a + step - 1) / step).

(** [sorted(set(l))]. *)
Definition sorted_set (l : list Z) : list Z := merge_sort Z.le (remove_dups l).

Definition cudagraph_capture_sizes (max_num_seqs max_num_batched_tokens : Z) : list Z :=
  let top := Z.min (Z.min (max_num_seqs * 2) 512) max_num_batched_tokens in
  let sizes := filter (fun size => (size <= top)%Z) [1; 2; 4]%Z in
  let sizes := sizes ++ range_step 8 (Z.min (top + 1) 256) 8 in
  let sizes := sizes ++ range_step 256 (top + 1) 16 in
  let sizes := if (max_num_batched_tokens <=? top)%Z then sizes ++ [max_num_batched_tokens] else sizes in
  sorted_set sizes.

Definition decode_query_len (lens : list Z) (num_speculative_tokens : Z) : Z :=
  let short := filter (fun n => (n <= 1 + num_speculative_tokens)%Z) lens in
  if bool_decide (short = []) then 1%Z else argmax (bincount short).

(** [_cudagraph_mode]: [full_layers] is whether each layer supports full graphs. *)
Definition cudagraph_mode_of (mode : string) (full_layers : list bool) : string :=
  if in_modes mode FULL_MODES && negb (forallb id full_layers)
  then if in_modes mode PIECEWISE_MODES then "piecewise" else "none"
  else mode.

(** ** State *)

Record InFlightDrafts := {
  fd_next_token_ids : list Z;
  fd_draft_token_ids : list (list Z);
  fd_num_rejected : list Z
}.

(** [DraftInputs] of the proposer. *)
Record DraftInputs := {
  di_input_ids : list Z;
  di_positions : list Z;
  di_max_position : Z;
  di_last_index : list Z;
  di_next_token_ids : list Z;
  di_sampling_rows : list Z;
  di_num_draft_tokens : list Z;
  di_block_table : option (list (list Z))
}.

#[export] Instance eta_DraftInputs : Eta DraftInputs := fun d =>
  Build_DraftInputs (di_input_ids d) (di_positions d) (di_max_position d) (di_last_index d)
    (di_next_token_ids d) (di_sampling_rows d) (di_num_draft_tokens d) (di_block_table d).

Record Runner := {
  mr_block_size : Z;
  mr_max_num_seqs : Z;
  mr_max_num_batched_tokens : Z;
  mr_max_model_len : Z;
  mr_num_speculative_tokens : Z;
  mr_has_proposer : bool;
  mr_decodes_latents : bool;
  mr_cudagraph_mode : string;
  mr_graph_bs : list Z;
  mr_graph_query_len : Z;
  mr_piecewise_bs : list Z;
  mr_step_kind : string;
  mr_in_flight_drafts : option InFlightDrafts;
  mr_prev_tokens : option (list Z + list (list Z));
  mr_prev_rows : option (gmap nat Z);
  mr_top_k_top_p : option (list Z * list Qc);
  mr_spec_inputs : list Z * list Z;
  mr_draft_inputs : option DraftInputs;
  mr_sampling_rows : list Sequence
}.

#[export] Instance eta_Runner : Eta Runner := fun r =>
  Build_Runner (mr_block_size r) (mr_max_num_seqs r) (mr_max_num_batched_tokens r)
    (mr_max_model_len r) (mr_num_speculative_tokens r) (mr_has_proposer r) (mr_decodes_latents r)
    (mr_cudagraph_mode r) (mr_graph_bs r) (mr_graph_query_len r) (mr_piecewise_bs r)
    (mr_step_kind r) (mr_in_flight_drafts r) (mr_prev_tokens r) (mr_prev_rows r)
    (mr_top_k_top_p r) (mr_spec_inputs r) (mr_draft_inputs r) (mr_sampling_rows r).

(** An attention layer of the model or its drafter, as far as [__init__] asks. *)
Record LayerInfo := { li_latent : bool; li_supports_mla_decode : bool }.

(** [decodes_latents]: whether every latent layer's backend decodes over cached latents, so true where no layer is latent. *)
Definition decodes_latents (layers : list LayerInfo) : bool :=
  forallb li_supports_mla_decode (filter (fun l => li_latent l = true) layers).

(** *** Paths *)

Definition decode_graph_sizes (r : Runner) : list Z :=
  filter (fun size => (size <= mr_max_num_seqs r)%Z)
    (cudagraph_capture_sizes (mr_max_num_seqs r) (mr_max_num_batched_tokens r)).

Definition max_num_blocks (r : Runner) : Z :=
  (mr_max_model_len r + mr_num_speculative_tokens r + mr_block_size r - 1) / mr_block_size r.

(** The sizes [capture_cudagraph] and [capture_piecewise] capture. *)
Definition capture_cudagraph_sizes (r : Runner) : Runner :=
  let q := (1 + mr_num_speculative_tokens r)%Z in
  r <| mr_graph_query_len := q |>
    <| mr_graph_bs := filter (fun bs => (bs * q <= mr_max_num_batched_tokens r)%Z) (decode_graph_sizes r) |>.

Definition capture_piecewise_sizes (r : Runner) : Runner :=
  r <| mr_piecewise_bs := cudagraph_capture_sizes (mr_max_num_seqs r) (mr_max_num_batched_tokens r) |>.

(** [next((x for x in l if x >= n), None)]. *)
Definition first_at_least (n : Z) (l : list Z) : option Z :=
  head (filter (fun x => (n <= x)%Z) l).

Definition piecewise_bucket (num_tokens : Z) (r : Runner) : option Z :=
  match first_at_least num_tokens (mr_piecewise_bs r), mr_piecewise_bs r with
  | Some bucket, smallest :: _ => if (num_tokens <? smallest)%Z then None else Some bucket
  | _, _ => None
  end.

Definition step_kind_of (is_prefill : bool) (num_tokens query_len : Z) (r : Runner) : string :=
  if String.eqb (mr_cudagraph_mode r) "none" then "enforced"
  else if negb is_prefill && in_modes (mr_cudagraph_mode r) FULL_MODES &&
    match last (mr_graph_bs r) with
    | Some largest => (query_len =? mr_graph_query_len r)%Z && (num_tokens <=? largest * query_len)%Z
    | None => false
    end then "graph"
  else if in_modes (mr_cudagraph_mode r) PIECEWISE_MODES &&
    match piecewise_bucket num_tokens r with Some bucket => negb (bucket =? 0)%Z | None => false end
  then "piecewise"
  else if is_prefill then "prefill" else "decode".

(** The captured size a full replay picks: [StopIteration] where none fits. *)
Definition replay_size (num_tokens : Z) (r : Runner) : option Z :=
  first_at_least (num_tokens / mr_graph_query_len r) (mr_graph_bs r).

(** ** Preparing a batch *)

(** [_prev_row]. *)
Definition prev_row (r : Runner) (s : Sequence) : option Z :=
  rows ← mr_prev_rows r; rows !! seq_id s.

Definition get_prev_row {S} (r : Runner) (s : Sequence) : M S Z :=
  or_raise (prev_row r s) (AssertionError "a pending token but no row in the launched step").

Definition pending (s : Sequence) : bool := negb (num_pending_tokens s =? 0)%Z.

(** The rows in batch order: [rw_row_of] maps a scheduler row to its batch row,
    [rw_sampling] lists the scheduler rows that sample. *)
Record Rows := {
  rw_batch : list Sequence;
  rw_row_of : list Z;
  rw_lens : list Z;
  rw_starts : list Z;
  rw_num_drafts : list Z;
  rw_query_len : Z;
  rw_sampling : list Z
}.

Definition num_drafts_of (s : Sequence) : Z := if is_prefill s then 0 else num_scheduled_tokens s - 1.

Definition order_rows (r : Runner) (seqs : list Sequence) : M Runner Rows :=
  let lens := num_scheduled_tokens <$> seqs in
  let starts := num_cached_tokens <$> seqs in
  let planned := num_planned_tokens <$> seqs in
  let query_len := decode_query_len lens (mr_num_speculative_tokens r) in
  let order := argsort_bool ((fun n => negb (n =? query_len)%Z) <$> lens) in
  let! batch := gather seqs order in
  let! row_of := scatter (replicate (length seqs) 0%Z) order (arange (Zlen seqs)) in
  let! lens := gather lens order in
  let! starts := gather starts order in
  let! s := gather starts row_of in
  let! l := gather lens row_of in
  ret {| rw_batch := batch; rw_row_of := row_of; rw_lens := lens; rw_starts := starts;
         rw_num_drafts := num_drafts_of <$> seqs; rw_query_len := query_len;
         rw_sampling := flatnonzero (zip_with (fun e p => (p <=? e)%Z) (zip_with Z.add s l) planned) |}.

(** Where pending rows start: [moved] are the rows the device moves back, with
    the previous step's rows they came from. *)
Record Placed := {
  pl_starts : list Z;
  pl_moved : list Z;
  pl_moved_src : list Z;
  pl_is_prefill : bool
}.

Definition place_rows (r : Runner) (seqs : list Sequence) (w : Rows) : M Runner Placed :=
  let moved :=
    match mr_in_flight_drafts r with Some _ => flatnonzero (pending <$> rw_batch w) | None => [] end in
  let! moved_seqs := gather (rw_batch w) moved in
  let! moved_src := collect moved_seqs (get_prev_row r) in
  let has_prompt := existsb is_prefill seqs in
  let uniform := negb has_prompt && mr_decodes_latents r &&
    forallb (fun n => (n =? rw_query_len w)%Z) (rw_lens w) in
  let is_prefill := has_prompt || (existsb (fun n => negb (n =? 0)%Z) (rw_num_drafts w) && negb uniform) in
  let! moved_lens := gather (rw_lens w) moved in
  if bool_decide (moved <> []) &&
     (negb (mr_decodes_latents r) ||
      (is_prefill && existsb (fun n => negb (n =? rw_query_len w)%Z) moved_lens)) then
    let! in_flight := or_raise (mr_in_flight_drafts r) (AssertionError "") in
    let! rejected := gather (fd_num_rejected in_flight) moved_src in
    let! old := gather (rw_starts w) moved in
    let! starts := scatter (rw_starts w) moved (zip_with Z.sub old rejected) in
    ret {| pl_starts := starts; pl_moved := []; pl_moved_src := moved_src; pl_is_prefill := is_prefill |}
  else
    ret {| pl_starts := rw_starts w; pl_moved := moved; pl_moved_src := moved_src;
           pl_is_prefill := is_prefill |}.

(** The input tokens, as far as the host knows them, and where pending tokens
    and drafts go, from which rows of the last step. *)
Record Tokens := {
  tk_ids : list Z;
  tk_pending_dst : list Z;
  tk_pending_src : list Z;
  tk_draft_dst : list Z;
  tk_draft_src : list Z
}.

#[export] Instance eta_Tokens : Eta Tokens := fun t =>
  Build_Tokens (tk_ids t) (tk_pending_dst t) (tk_pending_src t) (tk_draft_dst t) (tk_draft_src t).

Definition range_from (a n : Z) : list Z := seqZ a n.

(** One turn of the loop over the batch. *)
Definition row_tokens (r : Runner) (row : Sequence * Z * Z) : M Tokens unit :=
  let '(s, start, end_) := row in
  if is_prefill s then
    assert_ (negb (pending s)) "a prefill row carries a pending token";;;
    modify (fun t => t <| tk_ids ::= fun l => l ++ py_slice (token_ids s) start end_ |>)
  else
    when (pending s)
      (let! src := get_prev_row r s in
       modify (fun t => t <| tk_pending_dst ::= fun l => l ++ [Zlen (tk_ids t)] |>
                          <| tk_pending_src ::= fun l => l ++ [src] |>);;;
       match mr_in_flight_drafts r with
       | Some _ =>
           let n := Zlen (spec_token_ids s) in
           let k := mr_num_speculative_tokens r in
           modify (fun t => t <| tk_draft_dst ::= fun l => l ++ range_from (Zlen (tk_ids t) + 1) n |>
                              <| tk_draft_src ::= fun l => l ++ range_from (src * k) n |>)
       | None => ret tt
       end);;;
    modify (fun t => t <| tk_ids ::= fun l => (l ++ [last_token s]) ++ spec_token_ids s |>).

Definition collect_tokens (r : Runner) (rows : list (Sequence * Z * Z)) : M Runner Tokens := fun st =>
  match for_each rows (row_tokens r)
    {| tk_ids := []; tk_pending_dst := []; tk_pending_src := []; tk_draft_dst := []; tk_draft_src := [] |} with
  | (inl e, _) => (inl e, st)
  | (inr _, t) => (inr t, st)
  end.

(** The block tables, padded with -1 to one width. *)
Definition pad_table (width : Z) (row : list nat) : list Z :=
  (Z.of_nat <$> row) ++ replicate (Z.to_nat (width - Zlen row)) (-1)%Z.

Definition padded_tables (tables : list (list nat)) : list (list Z) :=
  pad_table (max_default (Zlen <$> tables) 0) <$> tables.

(** [table[rows, columns]]. *)
Definition gather2 {S} (table : list (list Z)) (rows columns : list Z) : M S (list Z) :=
  or_raise (mapM (fun p => row ← py_get table p.1; py_get row p.2) (zip rows columns)) IndexError.

(** The cache slots of the tokens of rows with blocks. *)
Definition slots (bs : Z) (table : list (list Z)) (token_rows positions : list Z) : M Runner (list Z) :=
  let! blocks := gather2 table token_rows ((fun p => p / bs)%Z <$> positions) in
  ret (zip_with (fun b p => b * bs + p mod bs)%Z blocks positions).

(** The device's copy of the token ids: pending tokens and drafts are the last
    step's. *)
Definition fill_pending (r : Runner) (t : Tokens) : M Runner (list Z) :=
  let! ids :=
    (if bool_decide (tk_pending_dst t = []) then ret (tk_ids t) else
     let! prev :=
       match mr_in_flight_drafts r with
       | Some in_flight => ret (fd_next_token_ids in_flight)
       | None =>
           match mr_prev_tokens r with
           | Some (inl tokens) => ret tokens
           | Some (inr _) => raise (RuntimeError "shape mismatch")
           | None => raise (AssertionError "")
           end
       end in
     let num_pending := Zlen (tk_pending_dst t) in
     if bool_decide (tk_pending_dst t = arange num_pending) && bool_decide (arange num_pending = tk_pending_src t) then
       (if (num_pending <=? Zlen prev)%Z
        then ret (py_upto prev num_pending ++ py_from (tk_ids t) num_pending)
        else match prev with
        | [x] => ret (replicate (Z.to_nat num_pending) x ++ py_from (tk_ids t) num_pending)
        | _ => raise (RuntimeError "shape mismatch")
        end)
     else
       let! vals := gather prev (tk_pending_src t) in
       scatter (tk_ids t) (tk_pending_dst t) vals) in
  if bool_decide (tk_draft_dst t = []) then ret ids else
    let! in_flight := or_raise (mr_in_flight_drafts r) (AssertionError "") in
    let! vals := gather (concat (fd_draft_token_ids in_flight)) (tk_draft_src t) in
    scatter ids (tk_draft_dst t) vals.

(** The token rows that get logits, and each one's place in its sampling row. *)
Record Logits := { lg_indices : list Z; lg_offsets : list Z; lg_num : list Z }.

Definition logits_rows (w : Rows) (cu_q : list Z) : M Runner Logits :=
  let! sampling_drafts := gather (rw_num_drafts w) (rw_sampling w) in
  let last_index := (fun c => c - 1)%Z <$> tail cu_q in
  let num_logits := (fun d => d + 1)%Z <$> sampling_drafts in
  let offsets := zip_with Z.sub (arange (Zsum num_logits))
    (np_repeat (zip_with Z.sub (cumsum_from 0 num_logits) num_logits) num_logits) in
  let! rows := gather (rw_row_of w) (rw_sampling w) in
  let! lasts := gather last_index rows in
  ret {| lg_indices := zip_with Z.add (np_repeat (zip_with Z.sub lasts sampling_drafts) num_logits) offsets;
         lg_offsets := offsets; lg_num := num_logits |}.

(** [_move_back]. *)
Definition move_back (c : Fields) (positions : list Z) (in_flight : InFlightDrafts)
    (token_rows moved moved_src : list Z) (bs : Z) : M Runner (Fields * list Z) :=
  let! lens := or_raise (cx_context_lens c) TypeError in
  let! tables := or_raise (cx_block_tables c) TypeError in
  let! rejected := gather (fd_num_rejected in_flight) moved_src in
  let! back := scatter (replicate (length lens) 0%Z) moved rejected in
  let! token_back := gather back token_rows in
  let positions := zip_with Z.sub positions token_back in
  let lens := zip_with Z.sub lens back in
  let! slot_mapping := slots bs tables token_rows positions in
  if bool_decide (length slot_mapping = length (default [] (cx_slot_mapping c))) then
    ret (c <| cx_context_lens := Some lens |> <| cx_cu_seqlens_k := Some (cumulative lens) |>
           <| cx_slot_mapping := Some slot_mapping |>, positions)
  else raise (RuntimeError "shape mismatch").

Record Batch := {
  ba_input_ids : list Z;
  ba_positions : list Z;
  ba_temperatures : option (list Qc);
  ba_context : Fields
}.

(** Sampling's temperatures and truncations. *)
Definition temperatures_of (rows : list Sequence) : option (list Qc) :=
  if forallb (fun s => Qc_eqb (temperature s) 0) rows then None else Some (temperature <$> rows).

Definition top_k_top_p_of (rows : list Sequence) : option (list Z * list Qc) :=
  if existsb (fun s => (0 <? top_k s)%Z || Qc_ltb (top_p s) 1) rows
  then Some (top_k <$> rows, top_p <$> rows) else None.

(** What the drafter and the verification take of the batch. *)
Definition draft_inputs (w : Rows) (lg : Logits) (input_ids positions last_index ends : list Z)
    (table : option (list (list Z))) : M Runner (DraftInputs * (list Z * list Z)) :=
  let! sampling_drafts := gather (rw_num_drafts w) (rw_sampling w) in
  let is_draft := zip_with Z.ltb (lg_offsets lg) (np_repeat sampling_drafts (lg_num lg)) in
  let! draft_token_ids := gather input_ids ((fun i => i + 1)%Z <$> masked (lg_indices lg) is_draft) in
  let! rows := gather (rw_row_of w) (rw_sampling w) in
  let! samples := scatter (replicate (length (rw_batch w)) false) rows (replicate (length rows) true) in
  let! next_token_ids := collect (zip (zip (rw_batch w) ends) samples) (fun '(s, end_, row_samples) =>
    if row_samples : bool then ret (-1)%Z else or_raise (py_get (token_ids s) end_) IndexError) in
  let! lasts := gather last_index rows in
  let! last_positions := gather positions lasts in
  ret ({| di_input_ids := input_ids; di_positions := positions;
          di_max_position := max_default (0%Z :: last_positions) 0; di_last_index := last_index;
          di_next_token_ids := next_token_ids; di_sampling_rows := rows;
          di_num_draft_tokens := sampling_drafts; di_block_table := table |},
       (draft_token_ids, sampling_drafts)).

(** Moving back is in place: the drafter's inputs share the positions. *)
Definition prepare_batch (seqs : list Sequence) : M Runner Batch :=
  let! r := gets id in
  let bs := mr_block_size r in
  let! w := order_rows r seqs in
  let! p := place_rows r seqs w in
  let starts := pl_starts p in
  let ends := zip_with Z.add starts (rw_lens w) in
  let cu_q := cumulative (rw_lens w) in
  let cu_k := cumulative ends in
  let token_rows := np_repeat (arange (Zlen seqs)) (rw_lens w) in
  let! row_starts := gather starts token_rows in
  let! row_cu := gather cu_q token_rows in
  let positions := zip_with Z.sub (zip_with Z.add row_starts (arange (Zsum (rw_lens w)))) row_cu in
  let! t := collect_tokens r (zip (zip (rw_batch w) starts) ends) in
  let! lg := logits_rows w cu_q in
  let! sampling_rows := gather seqs (rw_sampling w) in
  let tables := block_table <$> rw_batch w in
  let! cached :=
    (if existsb (fun l => bool_decide (l <> [])) tables then
       let table := padded_tables tables in
       let! keep := gather ((fun l => bool_decide (l <> [])) <$> tables) token_rows in
       let! slot_mapping := slots bs table (masked token_rows keep) (masked positions keep) in
       ret (Some (table, slot_mapping))
     else ret None) in
  let! max_q := np_max (rw_lens w) in
  let! max_k := np_max ends in
  let c := {|
    cx_is_prefill := pl_is_prefill p;
    cx_cu_seqlens_q := Some cu_q; cx_cu_seqlens_k := Some cu_k;
    cx_max_seqlen_q := max_q; cx_max_seqlen_k := max_k;
    cx_slot_mapping := Some (match cached with Some (_, s) => s | None => [] end);
    cx_context_lens := Some ends; cx_block_tables := fst <$> cached;
    cx_logits_indices := if pl_is_prefill p then Some (lg_indices lg) else None;
    cx_cu_seqlens_q_host := Some cu_q; cx_cu_seqlens_k_host := Some cu_k;
    cx_decode_query_len := rw_query_len w;
    cx_piecewise_size := None; cx_full_graph_size := None; cx_num_actual_tokens := None |} in
  modify (fun r => r <| mr_top_k_top_p := top_k_top_p_of sampling_rows |>);;;
  let! input_ids := fill_pending r t in
  when (mr_has_proposer r)
    (let! d := draft_inputs w lg input_ids positions ((fun c => c - 1)%Z <$> tail cu_q) ends (fst <$> cached) in
     modify (fun r => r <| mr_draft_inputs := Some d.1 |> <| mr_spec_inputs := d.2 |>));;;
  let! moved :=
    (if bool_decide (pl_moved p <> []) then
       match mr_in_flight_drafts r, cached with
       | Some in_flight, Some _ =>
           move_back c positions in_flight token_rows (pl_moved p) (pl_moved_src p) bs
       | _, _ => raise (AssertionError "")
       end
     else ret (c, positions)) in
  modify (fun r => r <| mr_draft_inputs ::= fmap (fun d : DraftInputs => d <| di_positions := moved.2 |>) |>
                     <| mr_sampling_rows := sampling_rows |>);;;
  ret {| ba_input_ids := input_ids; ba_positions := moved.2;
         ba_temperatures := temperatures_of sampling_rows; ba_context := moved.1 |}.

(** ** After the pass *)

(** The rows of the last step, by sequence. *)
Definition rows_by_id (rows : list Sequence) : gmap nat Z :=
  foldl (fun m p => <[seq_id p.2 := p.1]> m) ∅ (zip (arange (Zlen rows)) rows).

(** [run] without drafts, from the tokens sampled: a number a row. *)
Definition record_tokens (tokens : list Z) : M Runner (list Z) :=
  modify (fun r => r <| mr_prev_tokens := Some (inl tokens) |>
                     <| mr_prev_rows := Some (rows_by_id (mr_sampling_rows r)) |>);;;
  ret tokens.

(** Each verified row's token after its accepted drafts. *)
Definition num_accepted_of (row : list Z) : Z := Zlen (filter (fun t => (0 <= t)%Z) row) - 1.

Definition next_tokens {S} (verified : list (list Z)) : M S (list Z * list Z) :=
  let num_accepted := num_accepted_of <$> verified in
  let! next_token_ids := collect (zip verified num_accepted) (fun p =>
    or_raise (if (p.2 <? 0)%Z then None else py_get p.1 p.2) (RuntimeError "index out of bounds")) in
  ret (num_accepted, next_token_ids).

(** [run] with drafts: a row of tokens a row, the verified and the drafts. *)
Definition record_drafts (verified drafts : list (list Z)) (num_accepted next_token_ids : list Z) : M Runner (list (list Z)) :=
  modify (fun r => r <| mr_in_flight_drafts := Some {| fd_next_token_ids := next_token_ids; fd_draft_token_ids := drafts;
                          fd_num_rejected := zip_with Z.sub (mr_spec_inputs r).2 num_accepted |} |>
                     <| mr_prev_tokens := Some (inr (zip_with app verified drafts)) |>
                     <| mr_prev_rows := Some (rows_by_id (mr_sampling_rows r)) |>);;;
  ret (zip_with app verified drafts).
