(* ===== verification/ModelRunnerFacts.v ===== *)
(** * Facts of the model runner

    A batch is its rows laid end to end: what each row's tokens, positions and
    cache slots are, and that the arrays the runner computes at once, from the
    host's knowledge and from what stays on the device, are exactly those. *)

From S2P Require Import Prelude Output Sequence Arrays AttnContext ModelRunner.

(** The last step's tokens, a number a row. *)
Definition prev_tokens (r : Runner) : list Z :=
  match mr_prev_tokens r with Some (inl tokens) => tokens | _ => [] end.

(** ** A row *)

Section Rows.
Variable r : Runner.

Abbreviation len_of s := (num_scheduled_tokens s).

(** The drafts of the last step that the device rejected for the row. *)
Definition rejected_of (s : Sequence) : Z :=
  match mr_in_flight_drafts r with
  | Some f => if pending s then default 0%Z (prev_row r s ≫= py_get (fd_num_rejected f)) else 0
  | None => 0
  end.

Definition start_of (s : Sequence) : Z := num_cached_tokens s - rejected_of s.
Definition end_of (s : Sequence) : Z := start_of s + len_of s.
Definition positions_of (s : Sequence) : list Z := seqZ (start_of s) (len_of s).

(** The row's tokens as the host knows them ... *)
Definition host_ids (s : Sequence) : list Z :=
  if is_prefill s then py_slice (token_ids s) (num_cached_tokens s) (num_cached_tokens s + len_of s)
  else last_token s :: spec_token_ids s.

(** ... and as the pass sees them: a pending row's come from the last step. *)
Definition head_ids (s : Sequence) : list Z :=
  if is_prefill s || negb (pending s) then host_ids s else
  let src := default 0%Z (prev_row r s) in
  default 0%Z (py_get (match mr_in_flight_drafts r with
    | Some f => fd_next_token_ids f | None => prev_tokens r end) src) :: spec_token_ids s.

Definition ids_of (s : Sequence) : list Z :=
  match mr_in_flight_drafts r with
  | Some f =>
      if is_prefill s || negb (pending s) then head_ids s else
      take 1 (head_ids s) ++
      take (length (spec_token_ids s)) (default [] (py_get (fd_draft_token_ids f) (default 0%Z (prev_row r s))))
  | None => head_ids s
  end.

(** The cache slot of a position. *)
Definition slot_of (s : Sequence) (p : Z) : Z :=
  Z.of_nat (nth (Z.to_nat (p / mr_block_size r)) (block_table s) 0) * mr_block_size r + p mod mr_block_size r.

(** The row samples: its chunk ends its planned tokens. *)
Definition samples (s : Sequence) : bool := (num_planned_tokens s <=? num_cached_tokens s + len_of s)%Z.

(** What the scheduler and the last step guarantee of a row. *)
Record RowOk (s : Sequence) : Prop := {
  ro_len : (0 < len_of s)%Z;
  ro_start : (0 <= start_of s <= num_cached_tokens s)%Z;
  ro_prefill : is_prefill s = true -> pending s = false /\
    (num_cached_tokens s + len_of s <= Zlen (token_ids s))%Z;
  ro_decode : is_prefill s = false -> len_of s = (1 + Zlen (spec_token_ids s))%Z;
  ro_samples : is_prefill s = false -> samples s = true;
  ro_src : pending s = true -> exists src, prev_row r s = Some src /\ (0 <= src)%Z /\
    match mr_in_flight_drafts r with
    | Some f => (src < Zlen (fd_next_token_ids f))%Z /\ (src < Zlen (fd_num_rejected f))%Z /\
        (src < Zlen (fd_draft_token_ids f))%Z /\ (Zlen (spec_token_ids s) <= mr_num_speculative_tokens r)%Z
    | None => exists prev, mr_prev_tokens r = Some (inl prev) /\ (src < Zlen prev)%Z
    end;
  ro_blocks : block_table s <> [] ->
    (num_cached_tokens s + len_of s <= mr_block_size r * Zlen (block_table s))%Z
}.

Record RunnerOk : Prop := {
  rk_bs : (0 < mr_block_size r)%Z;
  rk_k : (0 <= mr_num_speculative_tokens r)%Z;
  rk_drafts : forall f, mr_in_flight_drafts r = Some f ->
    Forall (fun row => Zlen row = mr_num_speculative_tokens r) (fd_draft_token_ids f)
}.

End Rows.

(** ** The order *)

Definition off_length (q : Z) (s : Sequence) : bool := negb (num_scheduled_tokens s =? q)%Z.

Definition query_len_of (r : Runner) (seqs : list Sequence) : Z :=
  decode_query_len (num_scheduled_tokens <$> seqs) (mr_num_speculative_tokens r).

(** The batch: the rows of the chosen length first. *)
Definition batch_of (r : Runner) (seqs : list Sequence) : list Sequence :=
  by_mask (off_length (query_len_of r seqs)) seqs.

Definition rows_of (r : Runner) (seqs : list Sequence) : Rows :=
  {| rw_batch := batch_of r seqs;
     rw_row_of := inverse (off_length (query_len_of r seqs) <$> seqs);
     rw_lens := num_scheduled_tokens <$> batch_of r seqs;
     rw_starts := num_cached_tokens <$> batch_of r seqs;
     rw_num_drafts := num_drafts_of <$> seqs;
     rw_query_len := query_len_of r seqs;
     rw_sampling := flatnonzero (samples <$> seqs) |}.

Lemma order_rows_spec r seqs st :
  wp (order_rows r seqs) st (fun w st' => st' = st /\ w = rows_of r seqs).
Proof.
  unfold order_rows. fold (query_len_of r seqs). set (q := query_len_of r seqs).
  set (f := off_length q).
  assert (Hmask : (fun n : Z => negb (n =? q)%Z) <$> (num_scheduled_tokens <$> seqs) = f <$> seqs)
    by by rewrite <-list_fmap_compose.
  rewrite Hmask. pose proof (gather_order seqs f) as Ho.
  apply wp_bind, gather_ok with (by_mask f seqs); [done|].
  assert (Hlen : length seqs = length (f <$> seqs)) by by rewrite length_fmap.
  apply wp_bind. replace (arange (Zlen seqs)) with (arange (Zlen (f <$> seqs)))
    by by unfold Zlen; rewrite <-Hlen. rewrite Hlen at 1. apply scatter_inverse.
  apply wp_bind, gather_ok with (num_scheduled_tokens <$> by_mask f seqs); [by apply Forall2_gather_fmap|].
  apply wp_bind, gather_ok with (num_cached_tokens <$> by_mask f seqs); [by apply Forall2_gather_fmap|].
  pose proof (gather_inverse seqs f) as Hi.
  apply wp_bind, gather_ok with (num_cached_tokens <$> seqs); [by apply Forall2_gather_fmap|].
  apply wp_bind, gather_ok with (num_scheduled_tokens <$> seqs); [by apply Forall2_gather_fmap|].
  apply wp_ret. split; [done|]. unfold rows_of. fold q. fold f. unfold batch_of. fold q. fold f.
  do 2 rewrite zip_with_same. done.
Qed.

(** ** Where rows start *)

Section Batch.
Variable r : Runner.
Variable seqs : list Sequence.
Hypothesis Hr : RunnerOk r.
Hypothesis Hrows : Forall (RowOk r) seqs.

Local Abbreviation batch := (batch_of r seqs).

Lemma batch_rows : Forall (RowOk r) batch.
Proof. unfold batch_of. by rewrite by_mask_perm. Qed.

Lemma batch_row s : s ∈ batch -> RowOk r s.
Proof. intros Hs. pose proof batch_rows as Hf. rewrite Forall_forall in Hf. by apply Hf. Qed.

(** The rows that the last step's rejections move. *)
Definition moving (s : Sequence) : bool :=
  match mr_in_flight_drafts r with Some _ => pending s | None => false end.

Lemma not_moving_start s : moving s = false -> start_of r s = num_cached_tokens s.
Proof.
  unfold moving, start_of, rejected_of. destruct (mr_in_flight_drafts r); [intros ->|intros _]; lia.
Qed.

(** Where a batch's rows start on the host, and which the device moves. *)
Definition PlacedOk (p : Placed) : Prop :=
  (pl_starts p = start_of r <$> batch /\ pl_moved p = []) \/
  (pl_starts p = num_cached_tokens <$> batch /\ pl_moved p = flatnonzero (moving <$> batch) /\
   Forall2 (fun s src => prev_row r s = Some src) (filter (fun s => moving s = true) batch) (pl_moved_src p) /\
   forall s, s ∈ batch -> moving s = true -> mr_decodes_latents r = true /\
     (pl_is_prefill p = true -> num_scheduled_tokens s = query_len_of r seqs)).

Lemma moving_src s : s ∈ batch -> moving s = true -> exists src f, prev_row r s = Some src /\
  mr_in_flight_drafts r = Some f /\ py_get (fd_num_rejected f) src = Some (rejected_of r s).
Proof.
  intros Hs Hm. unfold moving in Hm. destruct (mr_in_flight_drafts r) as [f|] eqn:Hf; [|done].
  destruct (ro_src _ _ (batch_row s Hs) Hm) as (src & Hsrc & H0 & Hb). rewrite Hf in Hb.
  destruct Hb as (_ & Hb & _). exists src, f. split_and!; [done|done|].
  unfold rejected_of. rewrite Hf, Hm, Hsrc. simpl. rewrite py_get_lookup by done.
  destruct (lookup_lt_is_Some_2 (fd_num_rejected f) (Z.to_nat src)) as [x ->]; [unfold Zlen in Hb; lia|done].
Qed.

Lemma place_rows_spec st :
  wp (place_rows r seqs (rows_of r seqs)) st (fun p st' => st' = st /\ PlacedOk p /\
    pl_is_prefill p =
      existsb is_prefill seqs ||
      (existsb (fun n => negb (n =? 0)%Z) (num_drafts_of <$> seqs) &&
       negb (negb (existsb is_prefill seqs) && mr_decodes_latents r &&
             forallb (fun n => (n =? query_len_of r seqs)%Z) (num_scheduled_tokens <$> batch)))).
Proof.
  unfold place_rows. cbn [rows_of rw_batch rw_lens rw_starts rw_num_drafts rw_query_len].
  set (pre := existsb is_prefill seqs || _).
  assert (Hmv : match mr_in_flight_drafts r with Some _ => flatnonzero (pending <$> batch) | None => [] end =
    match mr_in_flight_drafts r with Some _ => flatnonzero (moving <$> batch) | None => [] end).
  { unfold moving. destruct (mr_in_flight_drafts r); done. }
  rewrite Hmv. clear Hmv.
  assert (Hno : mr_in_flight_drafts r = None -> filter (fun s => moving s = true) batch = []).
  { intros Hn. unfold moving. rewrite Hn. by induction batch. }
  set (moved := match mr_in_flight_drafts r with Some _ => _ | None => _ end).
  assert (Hg : Forall2 (fun i v => py_get batch i = Some v) moved (filter (fun s => moving s = true) batch)).
  { unfold moved. destruct (mr_in_flight_drafts r) eqn:Hf; [|by rewrite Hno].
    rewrite <-masked_map. apply gather_masked. by rewrite length_fmap. }
  apply wp_bind, gather_ok with (filter (fun s => moving s = true) batch); [done|].
  apply wp_bind. eapply wp_mono.
  { apply (wp_collect _ _ st (fun done_ ys s' => s' = st /\
      Forall2 (fun s src => prev_row r s = Some src) done_ ys)); [by split|].
    intros done_ s rest ys s' Hl [-> Hd].
    assert (Hs : s ∈ filter (fun s => moving s = true) batch) by (rewrite Hl; set_solver).
    apply list_elem_of_filter in Hs as [Hm Hs]. destruct (moving_src s Hs Hm) as (src & f & Hsrc & _).
    unfold get_prev_row. apply wp_or_raise with src; [done|]. split; [done|].
    apply Forall2_app; [done|by constructor]. }
  intros moved_src s' [-> Hsrc].
  apply wp_bind, gather_ok with (num_scheduled_tokens <$> filter (fun s => moving s = true) batch).
  { by apply Forall2_gather_fmap. }
  apply wp_if; intros Hc.
  2: { apply wp_ret. split; [done|]. split; [|done]. right. simpl. split; [done|]. split; [|split; [done|]].
       2: { intros s Hs Hm. apply andb_false_iff in Hc as [Hc|Hc].
            - exfalso. apply bool_decide_eq_false, dec_stable in Hc. rewrite Hc in Hg. apply Forall2_nil_inv_l in Hg.
              assert (s ∈ filter (fun s => moving s = true) batch) as Hin by by apply list_elem_of_filter.
              rewrite Hg in Hin. by apply elem_of_nil in Hin.
            - apply orb_false_iff in Hc as [Hl%negb_false_iff Hc]. split; [done|]. intros Hpre.
              rewrite Hpre in Hc. simpl in Hc. destruct (Z.eq_dec (num_scheduled_tokens s) (query_len_of r seqs)) as [|Hne]; [done|].
              exfalso. apply not_true_iff_false in Hc. apply Hc, existsb_exists. exists (num_scheduled_tokens s).
              split; [|by apply negb_true_iff, Z.eqb_neq]. apply list_elem_of_In, list_elem_of_fmap_2.
              by apply list_elem_of_filter. }
       unfold moved. destruct (mr_in_flight_drafts r) eqn:Hf; [done|].
       rewrite flatnonzero_places. unfold moving. rewrite Hf.
       assert (Hp : forall l : list Sequence, places ((fun _ => false) <$> l) = []).
       { intros l. induction l as [|x l IH]; [done|]. by rewrite fmap_cons, places_cons, IH. }
       by rewrite Hp. }
  apply andb_true_iff in Hc as [Hc _]. apply bool_decide_eq_true in Hc.
  assert (exists f, mr_in_flight_drafts r = Some f) as [f Hf].
  { unfold moved in Hc. destruct (mr_in_flight_drafts r); [by eexists|done]. }
  apply wp_bind, wp_or_raise with f; [done|].
  apply wp_bind, gather_ok with (rejected_of r <$> filter (fun s => moving s = true) batch).
  { assert (Hall : Forall (fun s => s ∈ batch /\ moving s = true) (filter (fun s => moving s = true) batch)).
    { apply Forall_forall. intros s [? ?]%list_elem_of_filter. done. }
    clear -Hsrc Hall Hf Hrows. induction Hsrc as [|s src l srcs Hsrc _ IH]; [constructor|].
    apply Forall_cons in Hall as [[Hs Hm] Hall]. rewrite fmap_cons. constructor; [|by apply IH].
    destruct (moving_src s Hs Hm) as (src' & f' & Hs' & Hf' & Hg). congruence. }
  apply wp_bind, gather_ok with (num_cached_tokens <$> filter (fun s => moving s = true) batch).
  { by apply Forall2_gather_fmap. }
  rewrite zip_with_same. fold (start_of r).
  apply wp_bind. unfold moved. rewrite Hf, flatnonzero_places. apply scatter_ok.
  { apply Forall_forall. intros i Hi. unfold places, masked in Hi. rewrite length_fmap.
    apply list_elem_of_fmap in Hi as ([j b] & -> & Hi). apply list_elem_of_filter in Hi as [_ Hi].
    apply elem_of_zip_l, elem_of_seq in Hi. rewrite length_fmap in Hi. simpl. lia. }
  apply wp_ret. split; [done|]. split; [|done]. left. simpl. split; [|done].
  rewrite (inserts_places num_cached_tokens (start_of r) moving batch).
  apply list_fmap_ext. intros _ s _. destruct (moving s) eqn:Hm; [done|]. by rewrite not_moving_start.
Qed.

(** ** The tokens *)

(** A decode row whose token is still on the device. *)
Definition from_device (s : Sequence) : bool := negb (is_prefill s) && pending s.

Definition row_src (s : Sequence) : Z := default 0%Z (prev_row r s).

Definition head_place (base : nat) (s : Sequence) : list nat := if from_device s then [base] else [].
Definition drafted (s : Sequence) : bool :=
  from_device s && match mr_in_flight_drafts r with Some _ => true | None => false end.
Definition draft_places (base : nat) (s : Sequence) : list nat :=
  if drafted s then seq (S base) (length (spec_token_ids s)) else [].

Local Abbreviation host_size := (fun s => length (host_ids s)).

(** What the loop has after the rows [l]. *)
Definition tokens_of (l : list Sequence) : Tokens :=
  {| tk_ids := concat (host_ids <$> l);
     tk_pending_dst := Z.of_nat <$> row_places host_size head_place 0 l;
     tk_pending_src := concat ((fun s => if from_device s then [row_src s] else []) <$> l);
     tk_draft_dst := Z.of_nat <$> row_places host_size draft_places 0 l;
     tk_draft_src := concat ((fun s => if drafted s then
       seqZ (row_src s * mr_num_speculative_tokens r) (Zlen (spec_token_ids s)) else []) <$> l) |}.

Lemma tokens_of_snoc l s : tokens_of (l ++ [s]) =
  let base := length (concat (host_ids <$> l)) in
  {| tk_ids := tk_ids (tokens_of l) ++ host_ids s;
     tk_pending_dst := tk_pending_dst (tokens_of l) ++ (Z.of_nat <$> head_place base s);
     tk_pending_src := tk_pending_src (tokens_of l) ++ (if from_device s then [row_src s] else []);
     tk_draft_dst := tk_draft_dst (tokens_of l) ++ (Z.of_nat <$> draft_places base s);
     tk_draft_src := tk_draft_src (tokens_of l) ++ (if drafted s then
       seqZ (row_src s * mr_num_speculative_tokens r) (Zlen (spec_token_ids s)) else []) |}.
Proof.
  unfold tokens_of. cbn [tk_ids tk_pending_dst tk_pending_src tk_draft_dst tk_draft_src]. cbv zeta.
  rewrite !row_places_app, length_concat_fmap. cbn [row_places].
  rewrite !fmap_app, !concat_app. cbn [fmap list_fmap concat]. by rewrite !app_nil_r.
Qed.

Lemma row_tokens_spec l s st :
  RowOk r s -> (is_prefill s = true -> st = num_cached_tokens s) ->
  wp (row_tokens r (s, st, (st + num_scheduled_tokens s)%Z)) (tokens_of l)
    (fun _ t => t = tokens_of (l ++ [s])).
Proof.
  intros Hs Hst. rewrite tokens_of_snoc. unfold row_tokens. cbv zeta.
  change (length (concat (host_ids <$> l))) with (length (tk_ids (tokens_of l))).
  generalize (tokens_of l). intros t.
  destruct (is_prefill s) eqn:Hp.
  - destruct (ro_prefill _ _ Hs Hp) as [Hpen _]. rewrite Hpen. wp_steps; [done|].
    unfold head_place, draft_places, drafted, from_device, host_ids. rewrite (Hst eq_refl), Hp.
    destruct t. unfold update_field. cbn. by rewrite !app_nil_r.
  - assert (Hh : host_ids s = last_token s :: spec_token_ids s) by (unfold host_ids; by rewrite Hp). rewrite Hh.
    unfold head_place, draft_places, drafted, from_device. rewrite Hp. cbn [negb andb].
    wp_step. apply wp_when; intros Hpen; rewrite Hpen.
    + destruct (ro_src _ _ Hs Hpen) as (src & Hsrc & _ & _). unfold row_src. rewrite Hsrc.
      wp_step. unfold get_prev_row. apply wp_or_raise with src; [done|]. wp_steps.
      destruct (mr_in_flight_drafts r); wp_steps; destruct t; unfold update_field; cbn; rewrite ?app_nil_r, <-app_assoc; [|done].
      unfold Zlen, range_from. rewrite <-seqZ_seq. do 4 f_equal. lia.
    + wp_steps. destruct t. unfold update_field. cbn. by rewrite !app_nil_r, <-app_assoc.
Qed.

Lemma collect_tokens_spec (start : Sequence -> Z) st :
  (forall s, s ∈ batch -> is_prefill s = true -> start s = num_cached_tokens s) ->
  wp (collect_tokens r ((fun s => (s, start s, (start s + num_scheduled_tokens s)%Z)) <$> batch)) st
    (fun t st' => st' = st /\ t = tokens_of batch).
Proof.
  intros Hst. unfold wp, collect_tokens.
  set (rows := (fun s => (s, start s, _)) <$> batch).
  assert (Hloop : wp (for_each rows (row_tokens r)) (tokens_of []) (fun _ t =>
    exists ss, rows = (fun s => (s, start s, (start s + num_scheduled_tokens s)%Z)) <$> ss /\ t = tokens_of ss)).
  { apply (wp_for_each rows (row_tokens r) (tokens_of []) (fun done_ t => exists ss,
      done_ = (fun s => (s, start s, (start s + num_scheduled_tokens s)%Z)) <$> ss /\ t = tokens_of ss)); [by exists []|].
    intros done_ x rest t Hl (ss & Hd & ->).
    assert (Hx : x ∈ rows) by (rewrite Hl; set_solver).
    apply list_elem_of_fmap in Hx as (s & -> & Hs).
    wp_call row_tokens_spec; [by apply batch_row | by apply Hst|].
    intros [] t ->. exists (ss ++ [s]). split; [|done]. by rewrite fmap_app, Hd. }
  apply wp_run in Hloop as ([] & t & Hrun & ss & Hss & ->). cbn in Hrun. unfold tokens_of in Hrun at 1. simpl in Hrun.
  rewrite Hrun. split; [done|]. f_equal. apply (f_equal (fmap (fun x => x.1.1))) in Hss. unfold rows in Hss.
  rewrite <-!list_fmap_compose in Hss. clear -Hss.
  assert (Hid : forall l : list Sequence, ((fun x : Sequence * Z * Z => x.1.1) ∘
    (fun s => (s, start s, (start s + num_scheduled_tokens s)%Z))) <$> l = l) by (intros l; apply list_fmap_id).
  by rewrite !Hid in Hss.
Qed.

(** *** The device's tokens *)

Definition head_values (s : Sequence) : list Z := if from_device s then take 1 (head_ids r s) else [].
Definition draft_values (s : Sequence) : list Z := if drafted s then drop 1 (ids_of r s) else [].

Lemma host_ids_length s : RowOk r s -> Zlen (host_ids s) = num_scheduled_tokens s.
Proof.
  intros Hs. pose proof (ro_len _ _ Hs). unfold host_ids. destruct (is_prefill s) eqn:Hp.
  - destruct (ro_prefill _ _ Hs Hp) as [_ Hl]. pose proof (ro_start _ _ Hs).
    rewrite py_slice_nonneg by lia. unfold Zlen in *. rewrite length_take, length_drop. lia.
  - rewrite (ro_decode _ _ Hs Hp). unfold Zlen. simpl. lia.
Qed.

Lemma heads_inserted :
  inserts (concat (host_ids <$> batch)) (row_places host_size head_place 0 batch) (concat (head_values <$> batch)) =
  concat (head_ids r <$> batch).
Proof.
  pose proof (inserts_rows host_ids (head_ids r) head_place head_values batch []) as Hi. apply Hi.
  intros s Hs. unfold head_place, head_values, head_ids, from_device, host_ids.
  destruct (is_prefill s); [done|]. simpl. destruct (pending s); [|done]. simpl.
  split_and!; try done. intros base. by rewrite Nat.add_0_r.
Qed.

Lemma draft_row s : s ∈ batch -> drafted s = true -> exists f row,
  mr_in_flight_drafts r = Some f /\ py_get (fd_draft_token_ids f) (row_src s) = Some row /\
  (0 <= row_src s)%Z /\ (Zlen (spec_token_ids s) <= mr_num_speculative_tokens r)%Z /\
  ids_of r s = take 1 (head_ids r s) ++ take (length (spec_token_ids s)) row /\
  length (spec_token_ids s) <= length row.
Proof.
  intros Hs Hd. unfold drafted, from_device in Hd.
  apply andb_true_iff in Hd as [[Hp Hpen]%andb_true_iff Hf].
  destruct (mr_in_flight_drafts r) as [f|] eqn:Hfl; [|done].
  destruct (ro_src _ _ (batch_row s Hs) Hpen) as (src & Hsrc & H0 & Hb). rewrite Hfl in Hb.
  destruct Hb as (_ & _ & Hdr & Hk). unfold row_src. rewrite Hsrc. simpl.
  destruct (lookup_lt_is_Some_2 (fd_draft_token_ids f) (Z.to_nat src)) as [row Hrow]; [unfold Zlen in Hdr; lia|].
  exists f, row. rewrite py_get_lookup by done. split_and!; try done.
  - unfold ids_of. apply negb_true_iff in Hp. rewrite Hfl, Hp, Hpen, Hsrc. simpl.
    by rewrite py_get_lookup, Hrow by done.
  - pose proof (rk_drafts _ Hr f Hfl) as Hall. rewrite Forall_lookup in Hall. specialize (Hall _ _ Hrow).
    unfold Zlen in *. lia.
Qed.

Lemma ids_undrafted s : drafted s = false -> ids_of r s = head_ids r s.
Proof.
  unfold drafted, from_device, ids_of. destruct (mr_in_flight_drafts r); [|done].
  rewrite andb_true_r. destruct (is_prefill s); [done|]. simpl. by intros ->.
Qed.

Lemma head_ids_device s : from_device s = true -> exists x, head_ids r s = x :: spec_token_ids s.
Proof.
  unfold from_device, head_ids. destruct (is_prefill s); [done|]. simpl. intros ->. by eexists.
Qed.

Lemma drafts_inserted :
  inserts (concat (head_ids r <$> batch)) (row_places host_size draft_places 0 batch) (concat (draft_values <$> batch)) =
  concat (ids_of r <$> batch).
Proof.
  assert (Hsize : forall s, length (host_ids s) = length (head_ids r s)).
  { intros s. unfold head_ids. destruct (is_prefill s || negb (pending s)) eqn:Hc; [done|].
    unfold host_ids. by destruct (is_prefill s). }
  assert (Hrow : forall base l, row_places host_size draft_places base l =
    row_places (fun s => length (head_ids r s)) draft_places base l).
  { intros base l. revert base. induction l as [|x l IH]; intros base; [done|]. cbn. by rewrite Hsize, IH. }
  rewrite Hrow. pose proof (inserts_rows (head_ids r) (ids_of r) draft_places draft_values batch []) as Hi. apply Hi.
  intros s Hs. unfold draft_places, draft_values. destruct (drafted s) eqn:Hd.
  2: { by rewrite ids_undrafted. }
  destruct (draft_row s Hs Hd) as (f & row & _ & _ & _ & _ & -> & Hlen).
  apply andb_true_iff in Hd as [Hd _]. destruct (head_ids_device s Hd) as [x ->].
  assert (take 1 (x :: spec_token_ids s) = [x]) as -> by done. cbn [app drop].
  split_and!.
  - simpl. rewrite length_take. lia.
  - rewrite length_seq, drop_0, length_take. lia.
  - intros base. rewrite fmap_add_seq. f_equal. lia.
  - intros q. rewrite drop_0. apply (inserts_tail x). rewrite length_take. lia.
Qed.

Lemma Forall2_concat_fmap {X A B} (R : A -> B -> Prop) (f : X -> list A) (g : X -> list B) l :
  (forall x, x ∈ l -> Forall2 R (f x) (g x)) -> Forall2 R (concat (f <$> l)) (concat (g <$> l)).
Proof.
  induction l as [|x l IH]; intros Hl; [constructor|]. rewrite !fmap_cons. cbn [concat].
  apply Forall2_app; [apply Hl; constructor|]. apply IH. intros y Hy. apply Hl. by constructor.
Qed.

Lemma places_below {X} (size : X -> nat) (ix : nat -> X -> list nat) l base :
  (forall x b i, x ∈ l -> i ∈ ix b x -> i < b + size x) ->
  Forall (fun i => i < base + sum_list_with size l) (row_places size ix base l).
Proof.
  revert base. induction l as [|x l IH]; intros base Hx; simpl; [constructor|].
  apply Forall_app. split.
  - apply Forall_forall. intros i Hi. pose proof (Hx x base i ltac:(constructor) Hi). lia.
  - eapply Forall_impl; [apply IH; intros y b i Hy; apply Hx; by constructor|]. simpl. intros i Hi. lia.
Qed.

(** The tokens the last step left on the device. *)
Lemma heads_gathered prev :
  prev = match mr_in_flight_drafts r with Some f => fd_next_token_ids f | None => prev_tokens r end ->
  Forall2 (fun i v => py_get prev i = Some v) (tk_pending_src (tokens_of batch)) (concat (head_values <$> batch)).
Proof.
  intros Hprev. apply Forall2_concat_fmap. intros s Hs. unfold head_values. destruct (from_device s) eqn:Hd; [|constructor].
  unfold from_device in Hd. apply andb_true_iff in Hd as [Hp Hpen]. apply negb_true_iff in Hp.
  unfold head_ids. rewrite Hp, Hpen. cbn [negb orb]. rewrite <-Hprev.
  destruct (ro_src _ _ (batch_row s Hs) Hpen) as (src & Hsrc & H0 & Hb). unfold row_src. rewrite Hsrc. simpl.
  assert (Hlt : (src < Zlen prev)%Z).
  { rewrite Hprev. destruct (mr_in_flight_drafts r); [apply Hb|]. destruct Hb as (p & Hp' & Hb). unfold prev_tokens. by rewrite Hp'. }
  constructor; [|constructor]. rewrite py_get_lookup by done.
  destruct (lookup_lt_is_Some_2 prev (Z.to_nat src)) as [x Hx]; [unfold Zlen in Hlt; lia|]. by rewrite Hx.
Qed.

Lemma host_ids_size s : s ∈ batch -> length (host_ids s) = Z.to_nat (num_scheduled_tokens s).
Proof. intros Hs. pose proof (host_ids_length s (batch_row s Hs)) as Hl. unfold Zlen in Hl. lia. Qed.

Lemma heads_below : Forall (fun i => i < length (concat (host_ids <$> batch)))
  (row_places host_size head_place 0 batch).
Proof.
  rewrite length_concat_fmap. apply (places_below host_size _ batch 0). intros s b i Hs. unfold head_place.
  destruct (from_device s); [|by intros Hi%elem_of_nil]. intros ->%list_elem_of_singleton.
  rewrite host_ids_size by done. pose proof (ro_len _ _ (batch_row s Hs)). lia.
Qed.

Lemma drafts_below : Forall (fun i => i < length (concat (host_ids <$> batch)))
  (row_places host_size draft_places 0 batch).
Proof.
  rewrite length_concat_fmap. apply (places_below host_size _ batch 0). intros s b i Hs. unfold draft_places.
  destruct (drafted s) eqn:Hd; [|by intros Hi%elem_of_nil]. intros Hi%elem_of_seq.
  unfold drafted, from_device in Hd. apply andb_true_iff in Hd as [[Hp _]%andb_true_iff _].
  apply negb_true_iff in Hp. unfold host_ids. rewrite Hp. simpl. lia.
Qed.

Lemma no_pending_heads : tk_pending_dst (tokens_of batch) = [] ->
  concat (host_ids <$> batch) = concat (head_ids r <$> batch).
Proof.
  intros Hn. cbn in Hn. apply fmap_nil_inv in Hn. rewrite <-heads_inserted, Hn. by destruct (concat (head_values <$> batch)).
Qed.

(** Some row waits for the device when there is a place to fill. *)
Lemma some_place (ix : nat -> Sequence -> list nat) (P : Sequence -> bool) l b :
  (forall x b, P x = false -> ix b x = []) -> row_places host_size ix b l <> [] ->
  exists s, s ∈ l /\ P s = true.
Proof.
  intros Hix. revert b. induction l as [|x l IH]; intros b Hne; [done|]. cbn in Hne.
  destruct (P x) eqn:Hx; [exists x; split; [constructor|done]|]. rewrite Hix in Hne by done.
  destruct (IH _ Hne) as (s & Hs & Hp). exists s. split; [by constructor|done].
Qed.

(** The values of the first places are the first values. *)
Lemma gather_prefix (prev vals : list Z) n :
  Forall2 (fun i v => py_get prev i = Some v) (arange n) vals -> (0 <= n)%Z ->
  (n <= Zlen prev)%Z /\ vals = take (Z.to_nat n) prev.
Proof.
  intros Hg Hn. pose proof (Forall2_length _ _ _ Hg) as Hl. unfold arange in *. rewrite length_seqZ in Hl.
  assert (Hlk : forall i, i < Z.to_nat n -> exists v, vals !! i = Some v /\ prev !! i = Some v).
  { intros i Hi. rewrite Forall2_lookup in Hg. specialize (Hg i).
    rewrite lookup_seqZ_lt in Hg by lia. inversion Hg as [a b Hab Ha Hb|]. subst. exists b. split; [done|].
    rewrite py_get_lookup in Hab by lia. by replace (Z.to_nat (0 + Z.of_nat i)) with i in Hab by lia. }
  split.
  - destruct (decide (Z.to_nat n = 0)); [unfold Zlen; lia|].
    destruct (Hlk (Z.to_nat n - 1) ltac:(lia)) as (v & _ & Hv). apply lookup_lt_Some in Hv. unfold Zlen. lia.
  - apply list_eq. intros i. destruct (decide (i < Z.to_nat n)) as [Hi|Hi].
    + rewrite lookup_take_lt by done. destruct (Hlk i Hi) as (v & -> & ->). done.
    + rewrite lookup_take_ge by lia. apply lookup_ge_None. lia.
Qed.

(** The fast path copies a prefix: the same update. *)
Lemma prefix_update (ids prev vals : list Z) (places : list nat) n :
  n = Zlen (Z.of_nat <$> places) ->
  (Z.of_nat <$> places) = arange n -> Forall (fun i => i < length ids) places ->
  Forall2 (fun i v => py_get prev i = Some v) (arange n) vals ->
  (n <= Zlen prev)%Z /\ py_upto prev n ++ py_from ids n = inserts ids places vals.
Proof.
  intros Hlen Heq Hb Hg. assert (Hn : (0 <= n)%Z) by (rewrite Hlen; apply Zlen_nonneg).
  destruct (gather_prefix prev vals n Hg Hn) as [Hle ->]. split; [done|].
  assert (Hpl : places = seq 0 (Z.to_nat n)).
  { unfold arange in Heq. rewrite <-(Z2Nat.id n) in Heq by done. rewrite (seqZ_seq 0) in Heq.
    by apply list_fmap_eq_inj in Heq; [|intros ? ? ?; lia]. }
  assert (Hnl : Z.to_nat n <= length ids).
  { destruct (decide (Z.to_nat n = 0)) as [|Hnz]; [lia|]. rewrite Hpl, Forall_forall in Hb.
    specialize (Hb (Z.to_nat n - 1) ltac:(apply elem_of_seq; lia)). lia. }
  unfold Zlen in Hle. rewrite Hpl, inserts_prefix by lia. unfold py_upto, py_from, py_pos.
  destruct (Z.ltb_spec n 0); [lia|]. f_equal; f_equal; lia.
Qed.

(** [fill_pending]'s first half, the pending tokens. *)
Lemma fill_heads_spec (prev : list Z) (st : Runner) Q :
  prev = match mr_in_flight_drafts r with Some f => fd_next_token_ids f | None => prev_tokens r end ->
  Q (concat (head_ids r <$> batch)) st ->
  let t := tokens_of batch in
  let num_pending := Zlen (tk_pending_dst t) in
  wp (if bool_decide (tk_pending_dst t = arange num_pending) && bool_decide (arange num_pending = tk_pending_src t) then
       (if (num_pending <=? Zlen prev)%Z
        then ret (py_upto prev num_pending ++ py_from (tk_ids t) num_pending)
        else match prev with
        | [x] => ret (replicate (Z.to_nat num_pending) x ++ py_from (tk_ids t) num_pending)
        | _ => raise (RuntimeError "shape mismatch")
        end)
     else
       let! vals := gather prev (tk_pending_src t) in
       scatter (tk_ids t) (tk_pending_dst t) vals) st Q.
Proof.
  intros Hprev HQ t n. pose proof (heads_gathered prev Hprev) as Hg. rewrite <-heads_inserted in HQ.
  apply wp_if; intros Hfast.
  - apply andb_true_iff in Hfast as [H1%bool_decide_eq_true H2%bool_decide_eq_true]. fold t in Hg. rewrite <-H2 in Hg.
    destruct (prefix_update (tk_ids t) prev _ (row_places host_size head_place 0 batch) n eq_refl H1 heads_below Hg)
      as [Hle ->].
    apply Z.leb_le in Hle. rewrite Hle. by apply wp_ret.
  - apply wp_bind, gather_ok with (concat (head_values <$> batch)); [done|].
    by apply scatter_ok; [apply heads_below|].
Qed.

Lemma draft_values_gathered f : mr_in_flight_drafts r = Some f ->
  Forall2 (fun i v => py_get (concat (fd_draft_token_ids f)) i = Some v)
    (tk_draft_src (tokens_of batch)) (concat (draft_values <$> batch)).
Proof.
  intros Hf. apply Forall2_concat_fmap. intros x Hx. unfold draft_values.
  destruct (drafted x) eqn:Hdx; [|constructor].
  destruct (draft_row x Hx Hdx) as (f' & row & Hf' & Hrow & H0 & Hk & -> & Hlen).
  assert (f' = f) as -> by congruence.
  apply andb_true_iff in Hdx as [Hdx _]. destruct (head_ids_device x Hdx) as [y ->].
  assert (take 1 (y :: spec_token_ids x) = [y]) as -> by done. cbn [app drop]. rewrite drop_0.
  unfold Zlen at 1. apply (gather_flat _ (mr_num_speculative_tokens r)); [|done|done|exact Hk].
  by apply (rk_drafts _ Hr).
Qed.

(** [fill_pending] gives every row the tokens the pass sees. *)
Lemma fill_pending_spec st :
  wp (fill_pending r (tokens_of batch)) st (fun ids st' => st' = st /\ ids = concat (ids_of r <$> batch)).
Proof.
  unfold fill_pending. apply wp_bind.
  eapply wp_mono with (P := fun ids st' => st' = st /\ ids = concat (head_ids r <$> batch)).
  { apply wp_if; intros Hd; [apply bool_decide_eq_true in Hd|apply bool_decide_eq_false in Hd].
    { apply wp_ret. split; [done|]. by apply no_pending_heads. }
    assert (Hne : row_places host_size head_place 0 batch <> []) by (intros He; apply Hd; cbn; by rewrite He).
    destruct (some_place head_place from_device batch 0) as (s & Hs & Hp); [|done|].
    { intros x b Hx. unfold head_place. by rewrite Hx. }
    apply andb_true_iff in Hp as [_ Hp]. destruct (ro_src _ _ (batch_row s Hs) Hp) as (src & _ & _ & Hb).
    apply wp_bind. destruct (mr_in_flight_drafts r) as [f|] eqn:Hf.
    - apply wp_ret, fill_heads_spec; [by rewrite Hf|done].
    - destruct Hb as (p & Hpt & _). rewrite Hpt.
      apply wp_ret, fill_heads_spec; [unfold prev_tokens; by rewrite Hf, Hpt|done]. }
  intros ids st' [-> ->]. apply wp_if; intros Hd; [apply bool_decide_eq_true in Hd|apply bool_decide_eq_false in Hd].
  { apply wp_ret. split; [done|]. cbn in Hd. apply fmap_nil_inv in Hd.
    rewrite <-drafts_inserted, Hd. by destruct (concat (draft_values <$> batch)). }
  assert (Hne : row_places host_size draft_places 0 batch <> []) by (intros He; apply Hd; cbn; by rewrite He).
  destruct (some_place draft_places drafted batch 0) as (s & Hs & Hds); [|done|].
  { intros x b Hx. unfold draft_places. by rewrite Hx. }
  destruct (draft_row s Hs Hds) as (f & _ & Hf & _).
  apply wp_bind, wp_or_raise with f; [done|].
  apply wp_bind, gather_ok with (concat (draft_values <$> batch)); [by apply draft_values_gathered|].
  cbn [tk_draft_dst tokens_of]. apply scatter_ok.
  - rewrite <-heads_inserted, inserts_length. apply drafts_below.
  - split; [done|]. apply drafts_inserted.
Qed.

(** ** Positions and slots *)

Local Abbreviation lens := (num_scheduled_tokens <$> batch).
Local Abbreviation token_rows := (np_repeat (arange (Zlen seqs)) lens).

Lemma batch_length : length batch = length seqs.
Proof. unfold batch_of. by rewrite by_mask_perm. Qed.

Lemma lens_nonneg : Forall (fun n => (0 <= n)%Z) lens.
Proof.
  apply Forall_fmap, Forall_forall. intros s Hs. simpl. pose proof (ro_len _ _ (batch_row s Hs)). lia.
Qed.

Lemma gather_token_rows {A} (l : list A) (st : Runner) Q :
  length batch <= length l -> Q (np_repeat l lens) st -> wp (gather l token_rows) st Q.
Proof.
  intros Hl HQ. apply gather_ok with (np_repeat l lens); [|done].
  pose proof (gather_repeat l lens []) as Hg. rewrite length_fmap in Hg. specialize (Hg Hl). simpl in Hg.
  unfold Zlen, arange. rewrite <-batch_length. exact Hg.
Qed.

Lemma positions_at (st : Sequence -> Z) :
  zip_with Z.sub (zip_with Z.add (np_repeat (st <$> batch) lens) (arange (Zsum lens))) (np_repeat (cumulative lens) lens) =
  concat ((fun s => seqZ (st s) (num_scheduled_tokens s)) <$> batch).
Proof.
  unfold cumulative, arange. rewrite repeat_positions; [|by rewrite !length_fmap|apply lens_nonneg].
  by rewrite zip_with_same.
Qed.

Lemma block_column s p : s ∈ batch -> block_table s <> [] ->
  (0 <= p < num_cached_tokens s + num_scheduled_tokens s)%Z ->
  forall w, py_get (pad_table w (block_table s)) (p / mr_block_size r) =
    Some (Z.of_nat (nth (Z.to_nat (p / mr_block_size r)) (block_table s) 0)).
Proof.
  intros Hs Hne Hp w. pose proof (ro_blocks _ _ (batch_row s Hs) Hne) as Hb. pose proof (rk_bs _ Hr) as Hbs.
  assert (0 <= p / mr_block_size r)%Z by (apply Z.div_pos; lia).
  assert (p / mr_block_size r < Zlen (block_table s))%Z by (apply Z.div_lt_upper_bound; lia).
  rewrite py_get_lookup by done. unfold pad_table. unfold Zlen in *.
  rewrite lookup_app_l by (rewrite length_fmap; lia). rewrite list_lookup_fmap.
  destruct (lookup_lt_is_Some_2 (block_table s) (Z.to_nat (p / mr_block_size r))) as [x Hx]; [lia|].
  rewrite Hx. simpl. by rewrite (nth_lookup_Some _ _ _ _ Hx).
Qed.

Lemma slots_spec (st : Sequence -> Z) (st0 : Runner) :
  (forall s, s ∈ batch -> block_table s <> [] /\ (0 <= st s <= num_cached_tokens s)%Z) ->
  wp (slots (mr_block_size r) (padded_tables (block_table <$> batch)) token_rows
        (concat ((fun s => seqZ (st s) (num_scheduled_tokens s)) <$> batch))) st0
    (fun sl st' => st' = st0 /\
      sl = concat ((fun s => slot_of r s <$> seqZ (st s) (num_scheduled_tokens s)) <$> batch)).
Proof.
  intros Hst. unfold slots, gather2, padded_tables. set (w := max_default _ 0).
  rewrite fmap_concat_rows, <-(list_fmap_compose block_table (pad_table w)).
  pose proof (gather2_rows batch (pad_table w ∘ block_table)
    (fun s => (fun p => p / mr_block_size r)%Z <$> seqZ (st s) (num_scheduled_tokens s))
    (fun s c => Z.of_nat (nth (Z.to_nat c) (block_table s) 0)) num_scheduled_tokens []) as Hg.
  apply wp_bind. eapply wp_or_raise.
  - unfold Zlen. rewrite <-batch_length. apply Hg. intros s Hs. split; [by rewrite length_fmap, length_seqZ|].
    apply Forall_fmap, Forall_forall. intros p Hp%elem_of_seqZ. destruct (Hst s Hs) as [Hne Hb].
    apply block_column; [done|done|lia].
  - apply wp_ret. split; [done|]. rewrite zip_with_concat by by intros; rewrite !length_fmap.
    f_equal. apply list_fmap_ext. intros _ s _. rewrite <-list_fmap_compose, zip_with_fmap_l, zip_with_diag.
    apply list_fmap_ext. done.
Qed.

(** ** Moving back on the device *)

Lemma rejected_unmoving s : moving s = false -> rejected_of r s = 0%Z.
Proof. unfold moving, rejected_of. destruct (mr_in_flight_drafts r); [intros ->|]; done. Qed.

(** The device's rejections, a number per row. *)
Lemma back_spec in_flight moved_src (st : Runner) Q :
  mr_in_flight_drafts r = Some in_flight ->
  Forall2 (fun s src => prev_row r s = Some src) (filter (fun s => moving s = true) batch) moved_src ->
  Q (rejected_of r <$> batch) st ->
  wp (let! rejected := gather (fd_num_rejected in_flight) moved_src in
      scatter (replicate (length batch) 0%Z) (flatnonzero (moving <$> batch)) rejected) st Q.
Proof.
  intros Hf Hsrc HQ.
  apply wp_bind, gather_ok with (rejected_of r <$> filter (fun s => moving s = true) batch).
  { assert (Hall : Forall (fun s => s ∈ batch /\ moving s = true) (filter (fun s => moving s = true) batch)).
    { apply Forall_forall. intros s [? ?]%list_elem_of_filter. done. }
    clear -Hsrc Hall Hf Hrows. induction Hsrc as [|s src l srcs Hsrc _ IH]; [constructor|].
    apply Forall_cons in Hall as [[Hs Hm] Hall]. rewrite fmap_cons. constructor; [|by apply IH].
    destruct (moving_src s Hs Hm) as (src' & f' & Hs' & Hf' & Hg). congruence. }
  assert (Hz : replicate (length batch) 0%Z = (fun _ : Sequence => 0%Z) <$> batch).
  { clear. induction batch as [|x l IH]; [done|]. simpl. by rewrite IH. }
  rewrite Hz, flatnonzero_places. apply scatter_ok.
  { rewrite length_fmap. apply Forall_forall. intros i Hi. unfold places, masked in Hi. rewrite length_fmap in Hi.
    apply list_elem_of_fmap in Hi as ([j b] & -> & Hi). apply list_elem_of_filter in Hi as [_ Hi].
    apply elem_of_zip_l, elem_of_seq in Hi. simpl. lia. }
  rewrite (inserts_places (fun _ => 0%Z) (rejected_of r) moving batch).
  erewrite list_fmap_ext; [exact HQ|]. intros _ s _. simpl.
  destruct (moving s) eqn:Hm; [done|]. by rewrite rejected_unmoving.
Qed.

(** [move_back] gives the exact positions, lengths and slots. *)
Lemma move_back_spec c in_flight moved_src st :
  mr_in_flight_drafts r = Some in_flight ->
  Forall2 (fun s src => prev_row r s = Some src) (filter (fun s => moving s = true) batch) moved_src ->
  (forall s, s ∈ batch -> block_table s <> []) ->
  cx_context_lens c = Some ((fun s => num_cached_tokens s + num_scheduled_tokens s)%Z <$> batch) ->
  cx_block_tables c = Some (padded_tables (block_table <$> batch)) ->
  (exists old, cx_slot_mapping c = Some (concat ((fun s => old s <$>
     seqZ (num_cached_tokens s) (num_scheduled_tokens s)) <$> batch))) ->
  wp (move_back c (concat ((fun s => seqZ (num_cached_tokens s) (num_scheduled_tokens s)) <$> batch))
        in_flight token_rows (flatnonzero (moving <$> batch)) moved_src (mr_block_size r)) st
    (fun p st' => st' = st /\ p.2 = concat (positions_of r <$> batch) /\
      p.1 = c <| cx_context_lens := Some (end_of r <$> batch) |>
              <| cx_cu_seqlens_k := Some (cumulative (end_of r <$> batch)) |>
              <| cx_slot_mapping := Some (concat ((fun s => slot_of r s <$> positions_of r s) <$> batch)) |>).
Proof.
  intros Hf Hsrc Hbt Hlens Htab [old Hold]. unfold move_back. rewrite Hlens, Htab. cbn [or_raise]. do 2 (apply wp_bind, wp_ret).
  rewrite length_fmap.
  pose proof (back_spec in_flight moved_src st (fun back st' => back = rejected_of r <$> batch /\ st' = st) Hf Hsrc (conj eq_refl eq_refl)) as Hb.
  apply wp_bind_inv in Hb. apply wp_bind. eapply wp_mono; [exact Hb|]. intros rej s1 Hb1. cbn beta in Hb1.
  apply wp_bind. eapply wp_mono; [exact Hb1|]. intros back s2 [-> ->].
  apply wp_bind, gather_token_rows; [by rewrite length_fmap|].
  rewrite np_repeat_rows, zip_with_concat by (intros; by rewrite length_seqZ, length_replicate).
  assert (Hpos : concat ((fun s => zip_with Z.sub (seqZ (num_cached_tokens s) (num_scheduled_tokens s))
      (replicate (Z.to_nat (num_scheduled_tokens s)) (rejected_of r s))) <$> batch) =
    concat ((fun s => seqZ (start_of r s) (num_scheduled_tokens s)) <$> batch)).
  { f_equal. apply list_fmap_ext. intros _ s _. apply zip_with_seqZ_shift. }
  rewrite Hpos, zip_with_same. apply wp_bind. eapply wp_mono; [apply slots_spec|].
  { intros s Hs. split; [by apply Hbt | apply (ro_start _ _ (batch_row s Hs))]. }
  intros sl st' [-> ->]. rewrite Hold. cbn [default from_option id].
  rewrite !length_concat_fmap.
  assert (Hsz : sum_list_with (fun x => length (slot_of r x <$> seqZ (start_of r x) (num_scheduled_tokens x))) batch =
    sum_list_with (fun x => length (old x <$> seqZ (num_cached_tokens x) (num_scheduled_tokens x))) batch).
  { clear. induction batch as [|x l IH]; [done|]. simpl. by rewrite IH, !length_fmap, !length_seqZ. }
  rewrite bool_decide_eq_true_2 by exact Hsz. apply wp_ret. split; [done|]. split; [done|].
  assert (Hends : (fun s => (num_cached_tokens s + num_scheduled_tokens s - rejected_of r s)%Z) <$> batch = end_of r <$> batch).
  { apply list_fmap_ext. intros _ s _. unfold end_of, start_of. lia. }
  by rewrite Hends.
Qed.

(** ** The rows that sample *)

Local Abbreviation sampled := (filter (fun s => samples s = true) seqs).
Local Abbreviation sampling := (flatnonzero (samples <$> seqs)).
Local Abbreviation mask := (off_length (query_len_of r seqs) <$> seqs).

(** Their rows in the batch. *)
Definition sampling_batch_rows : list Z := masked (inverse mask) (samples <$> seqs).

Lemma sampling_gather {A} (f : Sequence -> A) :
  Forall2 (fun i v => py_get (f <$> seqs) i = Some v) sampling (f <$> sampled).
Proof using. rewrite <-masked_map, <-masked_fmap. apply gather_masked. by rewrite !length_fmap. Qed.

Lemma sampling_rows_gather :
  Forall2 (fun i v => py_get (inverse mask) i = Some v) sampling sampling_batch_rows.
Proof using. apply gather_masked. by rewrite inverse_length, !length_fmap. Qed.

Definition row_at (b : Z) (s : Sequence) : Prop := exists j, b = Z.of_nat j /\ batch !! j = Some s.

Lemma sampling_rows_spec : Forall2 row_at sampling_batch_rows sampled.
Proof using.
  unfold sampling_batch_rows. rewrite <-masked_map. apply Forall2_masked.
  apply (inverse_places seqs (off_length (query_len_of r seqs))).
Qed.

Lemma num_drafts_bounds s : s ∈ batch -> (0 <= num_drafts_of s < num_scheduled_tokens s)%Z.
Proof. intros Hs. pose proof (ro_len _ _ (batch_row s Hs)). unfold num_drafts_of. destruct (is_prefill s); lia. Qed.

Lemma row_at_in b s : row_at b s -> s ∈ batch.
Proof using. intros (j & _ & Hj). by apply list_elem_of_lookup_2 in Hj. Qed.

(** The last token of a batch row. *)
Definition last_of (b : Z) : Z := Zsum (take (S (Z.to_nat b)) lens) - 1.

Lemma last_index_at b s : row_at b s ->
  py_get ((fun c => c - 1)%Z <$> tail (cumulative lens)) b = Some (last_of b).
Proof using.
  intros (j & -> & Hj). apply lookup_lt_Some in Hj. unfold last_of. rewrite py_get_nth, Nat2Z.id, list_lookup_fmap.
  unfold cumulative. cbn [tail]. rewrite cumsum_from_lookup by by rewrite length_fmap. done.
Qed.

Lemma sampling_lasts :
  Forall2 (fun i v => py_get ((fun c => c - 1)%Z <$> tail (cumulative lens)) i = Some v)
    sampling_batch_rows (last_of <$> sampling_batch_rows).
Proof using.
  apply Forall2_fmap_r. pose proof sampling_rows_spec as Hs.
  induction Hs as [|b s bs ss Hb _ IH]; constructor; [|exact IH]. by apply last_index_at with s.
Qed.

(** A row's last tokens, in the whole batch. *)
Lemma row_tail {A} (tag : Sequence -> list A) b s d :
  (forall s, s ∈ batch -> Zlen (tag s) = num_scheduled_tokens s) ->
  row_at b s -> (0 <= d <= num_scheduled_tokens s)%Z ->
  Forall2 (fun i v => py_get (concat (tag <$> batch)) i = Some v)
    (seqZ (last_of b + 1 - d) d) (drop (Z.to_nat (num_scheduled_tokens s - d)) (tag s)).
Proof.
  intros Htag (j & -> & Hj) Hd. unfold last_of. rewrite Nat2Z.id.
  assert (Hs : s ∈ batch) by by apply list_elem_of_lookup_2 in Hj.
  assert (Hlens : forall m, Zlen <$> take m (tag <$> batch) = take m lens).
  { intros m. rewrite <-!fmap_take, <-list_fmap_compose. apply list_fmap_ext. intros k0 x Hx.
    apply Htag. apply list_elem_of_lookup_2 in Hx. apply elem_of_take in Hx as (k & Hk & _).
    by apply list_elem_of_lookup_2 in Hk. }
  assert (Hsum : Zsum (take (S j) lens) = (Zsum (take j lens) + num_scheduled_tokens s)%Z).
  { rewrite (take_S_r _ _ (num_scheduled_tokens s)) by by rewrite list_lookup_fmap, Hj.
    rewrite Zsum_app. unfold Zsum at 2. simpl. lia. }
  assert (0 <= Zsum (take j lens))%Z by apply Zsum_nonneg, Forall_take, lens_nonneg.
  pose proof (Htag s Hs) as Hlen. unfold Zlen in Hlen.
  apply Forall2_lookup. intros t. rewrite lookup_drop. destruct (decide (Z.of_nat t < d)%Z) as [Ht|Ht].
  - rewrite lookup_seqZ_lt by lia.
    destruct (lookup_lt_is_Some_2 (tag s) (Z.to_nat (num_scheduled_tokens s - d) + t)) as [x Hx]; [lia|].
    rewrite Hx. constructor. rewrite py_get_lookup by lia.
    pose proof (concat_lookup (tag <$> batch) j (tag s)
      (Z.to_nat (num_scheduled_tokens s - d) + t) x) as Hc. rewrite list_lookup_fmap, Hj, Hlens in Hc.
    rewrite <-(Hc eq_refl Hx). f_equal. lia.
  - rewrite lookup_seqZ_ge by lia. rewrite lookup_ge_None_2 by lia. constructor.
Qed.

(** ** Logits *)

(** Each sampling row needs logits for its drafts and one next token: its last
    [num_drafts + 1] tokens. *)
Definition num_logits_of (s : Sequence) : Z := num_drafts_of s + 1.

Definition logit_places (b : Z) (s : Sequence) : list Z :=
  seqZ (last_of b + 1 - num_logits_of s) (num_logits_of s).

Definition logits_of : Logits :=
  {| lg_indices := concat (zip_with logit_places sampling_batch_rows sampled);
     lg_offsets := concat ((fun s => seqZ 0 (num_logits_of s)) <$> sampled);
     lg_num := num_logits_of <$> sampled |}.

Lemma sampled_in s : s ∈ sampled -> s ∈ batch.
Proof using. intros [_ Hs]%list_elem_of_filter. unfold batch_of. by rewrite by_mask_perm. Qed.

Lemma num_logits_nonneg : Forall (fun n => (0 <= n)%Z) (num_logits_of <$> sampled).
Proof.
  apply Forall_fmap, Forall_forall. intros s Hs%sampled_in. simpl. unfold num_logits_of.
  pose proof (num_drafts_bounds s Hs). lia.
Qed.

Lemma offsets_at (starts : list Z) : length starts = length sampled ->
  zip_with Z.add (np_repeat starts (num_logits_of <$> sampled))
    (zip_with Z.sub (arange (Zsum (num_logits_of <$> sampled)))
      (np_repeat (zip_with Z.sub (cumsum_from 0 (num_logits_of <$> sampled)) (num_logits_of <$> sampled))
        (num_logits_of <$> sampled))) =
  concat (zip_with seqZ starts (num_logits_of <$> sampled)).
Proof.
  intros Hl. rewrite exclusive_sums, np_repeat_take, zip_with_add_sub. unfold arange.
  apply repeat_positions; [by rewrite length_fmap|apply num_logits_nonneg].
Qed.

Lemma offsets_zero :
  zip_with Z.sub (arange (Zsum (num_logits_of <$> sampled)))
    (np_repeat (zip_with Z.sub (cumsum_from 0 (num_logits_of <$> sampled)) (num_logits_of <$> sampled))
      (num_logits_of <$> sampled)) = concat ((fun s => seqZ 0 (num_logits_of s)) <$> sampled).
Proof.
  pose proof (offsets_at ((fun _ => 0%Z) <$> sampled) ltac:(by rewrite length_fmap)) as Ho.
  rewrite zip_with_same in Ho. rewrite <-Ho. rewrite np_repeat_rows.
  set (o := zip_with Z.sub _ _).
  assert (Hz : forall n (l : list Z), length l <= n -> zip_with Z.add (replicate n 0%Z) l = l).
  { intros n l. revert n. induction l as [|x l IH]; intros [|n] Hn; simpl in *; try done; [lia|].
    f_equal. apply IH. lia. }
  assert (Hr0 : forall l : list Sequence, Forall (fun n => (0 <= n)%Z) (num_logits_of <$> l) ->
    concat ((fun s => replicate (Z.to_nat (num_logits_of s)) 0%Z) <$> l) =
    replicate (Z.to_nat (Zsum (num_logits_of <$> l))) 0%Z).
  { intros l. induction l as [|x l IH]; intros Hf; [done|]. rewrite !fmap_cons in *. cbn [concat].
    apply Forall_cons in Hf as [Hx Hf]. pose proof (Zsum_nonneg _ Hf).
    change (Zsum (num_logits_of x :: (num_logits_of <$> l))) with (num_logits_of x + Zsum (num_logits_of <$> l))%Z.
    rewrite Z2Nat.inj_add, replicate_add, <-IH by done. done. }
  rewrite Hr0 by apply num_logits_nonneg. symmetry. apply Hz. unfold o.
  rewrite length_zip_with. unfold arange. rewrite length_seqZ. lia.
Qed.

Lemma logits_rows_spec st :
  wp (logits_rows (rows_of r seqs) (cumulative lens)) st (fun lg st' => st' = st /\ lg = logits_of).
Proof.
  unfold logits_rows. cbn [rows_of rw_num_drafts rw_sampling rw_row_of].
  apply wp_bind, gather_ok with (num_drafts_of <$> sampled); [apply sampling_gather|].
  apply wp_bind, gather_ok with sampling_batch_rows; [apply sampling_rows_gather|].
  apply wp_bind, gather_ok with (last_of <$> sampling_batch_rows); [apply sampling_lasts|].
  apply wp_ret. split; [done|]. unfold logits_of.
  assert (Hn : (fun d => d + 1)%Z <$> (num_drafts_of <$> sampled) = num_logits_of <$> sampled)
    by by rewrite <-list_fmap_compose.
  rewrite Hn, offsets_zero. f_equal. rewrite <-offsets_zero, offsets_at.
  - f_equal. pose proof sampling_rows_spec as Hs. clear -Hs.
    induction Hs as [|b s bs ss Hb _ IH]; [done|]. rewrite !fmap_cons. simpl. f_equal; [|exact IH].
    unfold logit_places, num_logits_of. f_equal. lia.
  - rewrite length_zip_with, !length_fmap. pose proof (Forall2_length _ _ _ sampling_rows_spec). lia.
Qed.

(** The tokens that get logits, of each sampling row in the scheduler's order. *)
Definition tail_of {A} (tag : Sequence -> list A) (s : Sequence) : list A :=
  drop (Z.to_nat (num_scheduled_tokens s - num_logits_of s)) (tag s).

Lemma logits_gather {A} (tag : Sequence -> list A) :
  (forall s, s ∈ batch -> Zlen (tag s) = num_scheduled_tokens s) ->
  Forall2 (fun i v => py_get (concat (tag <$> batch)) i = Some v)
    (lg_indices logits_of) (concat (tail_of tag <$> sampled)).
Proof.
  intros Htag. cbn [logits_of lg_indices]. pose proof sampling_rows_spec as Hs.
  induction Hs as [|b s bs ss Hb _ IH]; [constructor|]. rewrite fmap_cons. cbn [zip_with concat].
  apply Forall2_app; [|exact IH]. apply row_tail; [done|done|].
  pose proof (num_drafts_bounds s (row_at_in b s Hb)). unfold num_logits_of. lia.
Qed.

(** ** The drafter's inputs *)

Lemma is_draft_rows :
  zip_with Z.ltb (lg_offsets logits_of) (np_repeat (num_drafts_of <$> sampled) (lg_num logits_of)) =
  concat ((fun s => zip_with Z.ltb (seqZ 0 (num_logits_of s))
    (replicate (Z.to_nat (num_logits_of s)) (num_drafts_of s))) <$> sampled).
Proof using.
  cbn [logits_of lg_offsets lg_num]. rewrite np_repeat_rows. apply zip_with_concat.
  intros s _. by rewrite length_seqZ, length_replicate.
Qed.

(** Each draft follows the position whose logits verify it. *)
Lemma draft_places_at :
  (fun i => i + 1)%Z <$> masked (lg_indices logits_of)
    (zip_with Z.ltb (lg_offsets logits_of) (np_repeat (num_drafts_of <$> sampled) (lg_num logits_of))) =
  concat (zip_with (fun b s => seqZ (last_of b + 1 - num_drafts_of s) (num_drafts_of s)) sampling_batch_rows sampled).
Proof.
  rewrite is_draft_rows. cbn [logits_of lg_indices]. pose proof sampling_rows_spec as Hs.
  induction Hs as [|b s bs ss Hb _ IH]; [done|]. rewrite !fmap_cons. cbn [zip_with concat].
  pose proof (num_drafts_bounds s (row_at_in b s Hb)) as Hd.
  rewrite masked_app, fmap_app, IH.
  - f_equal. unfold logit_places, num_logits_of. rewrite masked_below by lia.
    rewrite (list_fmap_ext _ (Z.add 1)) by (intros; lia). rewrite fmap_add_seqZ. f_equal. lia.
  - unfold logit_places. rewrite length_zip_with, !length_seqZ, length_replicate. lia.
Qed.

(** The batch rows that sample. *)
Lemma samples_marked :
  inserts (replicate (length batch) false) (Z.to_nat <$> sampling_batch_rows)
    (replicate (length sampling_batch_rows) true) = samples <$> batch.
Proof using.
  apply list_eq. intros j. rewrite <-(length_fmap Z.to_nat). rewrite inserts_const, length_replicate, list_lookup_fmap.
  assert (Hin : j ∈ Z.to_nat <$> sampling_batch_rows <-> exists s, batch !! j = Some s /\ samples s = true).
  { pose proof (inverse_places seqs (off_length (query_len_of r seqs))) as Hp. split.
    - intros (b & -> & Hb)%list_elem_of_fmap. apply list_elem_of_lookup in Hb as [k Hk].
      pose proof sampling_rows_spec as Hs. rewrite Forall2_lookup in Hs. specialize (Hs k). rewrite Hk in Hs.
      inversion Hs as [x s (j & -> & Hj) Hx Hl|]. subst. rewrite Nat2Z.id. exists s. split; [done|].
      symmetry in Hl. apply list_elem_of_lookup_2, list_elem_of_filter in Hl. by destruct Hl.
    - intros (s & Hj & Hsm). pose proof (gather_order seqs (off_length (query_len_of r seqs))) as Hg.
      rewrite argsort_order in Hg. rewrite Forall2_lookup in Hg. specialize (Hg j). unfold batch_of in Hj.
      rewrite Hj in Hg. inversion Hg as [x y Hx Hxl Hy|]. subst. symmetry in Hxl.
      apply list_lookup_fmap_Some in Hxl as (i & -> & Hi). rewrite py_get_nth in Hx.
      apply list_elem_of_fmap. exists (Z.of_nat j). split; [by rewrite Nat2Z.id|].
      unfold sampling_batch_rows, masked. apply list_elem_of_fmap. exists (Z.of_nat j, true). split; [done|].
      apply list_elem_of_filter. split; [done|]. apply list_elem_of_lookup. exists i.
      rewrite lookup_zip_with. rewrite (inverse_lookup _ _ _ Hi). simpl. by rewrite list_lookup_fmap, Hx, <-Hsm. }
  destruct (batch !! j) as [s|] eqn:Hj; simpl.
  - assert (j < length batch) by by apply lookup_lt_Some in Hj. rewrite (decide_True _ _ (P := j < length batch)) by done.
    rewrite lookup_replicate_2 by done. case_decide as Hc; rewrite Hin in Hc.
    + by destruct Hc as (s' & [= <-] & ->).
    + f_equal. destruct (samples s) eqn:Hsm; [|done]. exfalso. apply Hc. by exists s.
  - assert (~ j < length batch) by (apply lookup_ge_None in Hj; lia).
    case_decide as Hc; [|apply lookup_replicate_None; lia].
    rewrite Hin in Hc. by destruct Hc as (s & Hs & _).
Qed.

Lemma ids_length s : s ∈ batch -> Zlen (ids_of r s) = num_scheduled_tokens s.
Proof.
  intros Hs. pose proof (host_ids_length s (batch_row s Hs)) as Hl.
  assert (Hh : length (head_ids r s) = length (host_ids s)).
  { unfold head_ids. destruct (is_prefill s) eqn:Hp, (pending s) eqn:Hn; simpl; try done.
    unfold host_ids. by rewrite Hp. }
  destruct (drafted s) eqn:Hd; [|rewrite ids_undrafted by done; unfold Zlen in *; lia].
  destruct (draft_row s Hs Hd) as (f & row & _ & _ & _ & _ & -> & Hr').
  unfold drafted in Hd. apply andb_true_iff in Hd as [Hd _]. destruct (head_ids_device s Hd) as [x Hx].
  rewrite Hx in *. unfold Zlen in *. rewrite length_app, !length_take. simpl in *. lia.
Qed.

(** The next prompt token of a row that does not sample. *)
Definition next_token_of (ends : Sequence -> Z) (s : Sequence) : Z :=
  if samples s then -1 else default 0%Z (py_get (token_ids s) (ends s)).

(** The drafts that a sampling row verifies. *)
Definition drafts_of (s : Sequence) : list Z :=
  drop (Z.to_nat (num_scheduled_tokens s - num_drafts_of s)) (ids_of r s).

Definition draft_inputs_of (start : Sequence -> Z) (table : option (list (list Z))) : DraftInputs :=
  let ends := (fun s => start s + num_scheduled_tokens s)%Z in
  {| di_input_ids := concat (ids_of r <$> batch);
     di_positions := concat ((fun s => seqZ (start s) (num_scheduled_tokens s)) <$> batch);
     di_max_position := max_default (0%Z :: ((fun s => ends s - 1)%Z <$> sampled)) 0;
     di_last_index := (fun c => c - 1)%Z <$> tail (cumulative lens);
     di_next_token_ids := next_token_of ends <$> batch;
     di_sampling_rows := sampling_batch_rows;
     di_num_draft_tokens := num_drafts_of <$> sampled;
     di_block_table := table |}.

Lemma last_positions (start : Sequence -> Z) :
  Forall2 (fun i v => py_get (concat ((fun s => seqZ (start s) (num_scheduled_tokens s)) <$> batch)) i = Some v)
    (last_of <$> sampling_batch_rows) ((fun s => start s + num_scheduled_tokens s - 1)%Z <$> sampled).
Proof.
  pose proof sampling_rows_spec as Hs. induction Hs as [|b s bs ss Hb _ IH]; [constructor|].
  rewrite !fmap_cons. constructor; [|exact IH]. pose proof (ro_len _ _ (batch_row s (row_at_in b s Hb))) as Hn.
  pose proof (row_tail (fun s => seqZ (start s) (num_scheduled_tokens s)) b s 1) as Ht.
  specialize (Ht ltac:(intros x Hx; pose proof (ro_len _ _ (batch_row x Hx)); unfold Zlen; rewrite length_seqZ; lia) Hb ltac:(lia)).
  cbn beta in Ht. rewrite drop_seqZ_last in Ht by lia. rewrite (seqZ_cons (last_of b + 1 - 1)) in Ht by lia.
  apply Forall2_cons in Ht as [Ht _]. replace (last_of b) with (last_of b + 1 - 1)%Z by lia.
  exact Ht.
Qed.

Lemma draft_inputs_spec (start : Sequence -> Z) table st :
  (forall s, s ∈ batch -> samples s = false -> (0 <= start s + num_scheduled_tokens s < Zlen (token_ids s))%Z) ->
  wp (draft_inputs (rows_of r seqs) logits_of (concat (ids_of r <$> batch))
        (concat ((fun s => seqZ (start s) (num_scheduled_tokens s)) <$> batch))
        ((fun c => c - 1)%Z <$> tail (cumulative lens))
        ((fun s => start s + num_scheduled_tokens s)%Z <$> batch) table) st
    (fun d st' => st' = st /\
       d = (draft_inputs_of start table, (concat (drafts_of <$> sampled), num_drafts_of <$> sampled))).
Proof.
  intros Hrest. unfold draft_inputs. cbn [rows_of rw_num_drafts rw_sampling rw_row_of rw_batch].
  apply wp_bind, gather_ok with (num_drafts_of <$> sampled); [apply sampling_gather|].
  rewrite draft_places_at. apply wp_bind, gather_ok with (concat (drafts_of <$> sampled)).
  { pose proof sampling_rows_spec as Hs. induction Hs as [|b s bs ss Hb _ IH]; [constructor|].
    rewrite fmap_cons. cbn [zip_with concat]. apply Forall2_app; [|exact IH].
    apply row_tail; [apply ids_length|done|]. pose proof (num_drafts_bounds s (row_at_in b s Hb)). lia. }
  apply wp_bind, gather_ok with sampling_batch_rows; [apply sampling_rows_gather|].
  assert (Hpl : sampling_batch_rows = Z.of_nat <$> (Z.to_nat <$> sampling_batch_rows)).
  { pose proof sampling_rows_spec as Hs. induction Hs as [|b s bs ss (j & -> & _) _ IH]; [done|].
    by rewrite !fmap_cons, Nat2Z.id, <-IH. }
  rewrite Hpl at 1. apply wp_bind, scatter_ok.
  { clear Hpl. rewrite length_replicate. pose proof sampling_rows_spec as Hs.
    induction Hs as [|b s bs ss (j & -> & Hj) _ IH]; [constructor|]. rewrite fmap_cons. constructor; [|exact IH].
    rewrite Nat2Z.id. by apply lookup_lt_Some in Hj. }
  rewrite samples_marked. set (g := fun x : Sequence * Z * bool =>
    if x.2 then (-1)%Z else default 0%Z (py_get (token_ids x.1.1) x.1.2)).
  assert (Hz : zip (zip batch ((fun s => start s + num_scheduled_tokens s)%Z <$> batch)) (samples <$> batch) =
    (fun s => (s, (start s + num_scheduled_tokens s)%Z, samples s)) <$> batch).
  { clear. induction batch as [|x l IH]; [done|]. rewrite !fmap_cons. simpl. by f_equal. }
  rewrite Hz. apply wp_bind. eapply wp_mono.
  { apply (wp_collect _ _ st (fun done_ ys s' => s' = st /\ ys = g <$> done_)); [done|].
    intros done_ x rest ys s' Hl [-> ->].
    assert (Hx : x ∈ (fun s => (s, (start s + num_scheduled_tokens s)%Z, samples s)) <$> batch).
    { rewrite Hl. apply elem_of_app. right. constructor. }
    apply list_elem_of_fmap in Hx as (s & -> & Hs). rewrite fmap_app. cbn [fmap list_fmap].
    destruct (samples s) eqn:Hsm; [by apply wp_ret|]. destruct (Hrest s Hs Hsm) as [H0 H1].
    destruct (lookup_lt_is_Some_2 (token_ids s) (Z.to_nat (start s + num_scheduled_tokens s))) as [v Hv];
      [unfold Zlen in H1; lia|].
    rewrite py_get_lookup by done. apply wp_or_raise with v; [done|]. split; [done|].
    unfold g at 3. cbn [fst snd]. by rewrite py_get_lookup, Hv. }
  intros ys st' [-> ->]. apply wp_bind, gather_ok with (last_of <$> sampling_batch_rows); [apply sampling_lasts|].
  apply wp_bind, gather_ok with ((fun s => start s + num_scheduled_tokens s - 1)%Z <$> sampled); [apply last_positions|].
  apply wp_ret. split; [done|]. f_equal. unfold draft_inputs_of. cbv zeta. f_equal.
  by rewrite <-list_fmap_compose.
Qed.

(** ** The whole batch *)

(** A step that decodes in graphs or reads cached latents is no prefill. *)
Definition is_prefill_of : bool :=
  existsb is_prefill seqs ||
  (existsb (fun n => negb (n =? 0)%Z) (num_drafts_of <$> seqs) &&
   negb (negb (existsb is_prefill seqs) && mr_decodes_latents r &&
         forallb (fun n => (n =? query_len_of r seqs)%Z) lens)).

Lemma one_length q : (forall s, s ∈ seqs -> num_scheduled_tokens s = q) -> query_len_of r seqs = q -> batch = seqs.
Proof using.
  intros Hq Hl. apply by_mask_false. intros s Hs. unfold off_length. by rewrite Hl, (Hq s Hs), Z.eqb_refl.
Qed.

(** A batch of decodes with nothing to verify, or that verifies in one length,
    keeps the scheduler's order, and every row samples. *)
Lemma decode_rows_decode s : is_prefill_of = false -> s ∈ seqs -> is_prefill s = false.
Proof.
  intros [Hpre _]%orb_false_iff Hs. apply not_true_iff_false. intros Ht. apply not_true_iff_false in Hpre. apply Hpre, existsb_exists.
  exists s. split; [by apply list_elem_of_In|done].
Qed.

(** Its rows all have the query length. *)
Lemma decode_lens s : is_prefill_of = false -> s ∈ seqs -> num_scheduled_tokens s = query_len_of r seqs.
Proof.
  intros Hpf Hs. pose proof (fun x => decode_rows_decode x Hpf) as Hdec. apply orb_false_iff in Hpf as [Hpre Hp].
  apply andb_false_iff in Hp as [Hp|Hp].
  - assert (Hone : forall s, s ∈ seqs -> num_scheduled_tokens s = 1%Z).
    { intros x Hx. apply not_true_iff_false in Hp. destruct (Z.eq_dec (num_drafts_of x) 0%Z) as [Hd|Hd].
      - unfold num_drafts_of in Hd. rewrite Hdec in Hd by done. lia.
      - destruct Hp. apply existsb_exists. exists (num_drafts_of x). split; [|by apply negb_true_iff, Z.eqb_neq].
        by apply list_elem_of_In, list_elem_of_fmap_2. }
    rewrite Hone by done. unfold query_len_of, decode_query_len. case_bool_decide as Hn; [done|].
    assert (Hin : argmax (bincount (filter (fun n => (n <= 1 + mr_num_speculative_tokens r)%Z) (num_scheduled_tokens <$> seqs))) ∈
      filter (fun n => (n <= 1 + mr_num_speculative_tokens r)%Z) (num_scheduled_tokens <$> seqs)).
    { apply mode_spec; [done|]. apply Forall_forall. intros n [_ (x & -> & Hin)%list_elem_of_fmap]%list_elem_of_filter.
      rewrite Hone by done. lia. }
    apply list_elem_of_filter in Hin as [_ (x & Hx & Hin)%list_elem_of_fmap]. rewrite Hx. symmetry. by apply Hone.
  - apply negb_false_iff in Hp. apply andb_true_iff in Hp as [_ Hp]. rewrite forallb_forall in Hp.
    apply Z.eqb_eq, Hp, list_elem_of_In, list_elem_of_fmap_2. unfold batch_of. by rewrite by_mask_perm.
Qed.

Lemma decode_batch : seqs <> [] -> is_prefill_of = false ->
  batch = seqs /\ sampled = seqs /\ forall s, s ∈ seqs -> is_prefill s = false.
Proof.
  intros Hne Hp. pose proof (fun x => decode_rows_decode x Hp) as Hdec. split_and!; [| |done].
  - apply (one_length (query_len_of r seqs)); [|done]. intros s Hs. by apply decode_lens.
  - apply filter_all. intros s Hs. rewrite Forall_forall in Hrows. by apply (ro_samples _ _ (Hrows s Hs)), Hdec.
Qed.

(** Then every token gets logits. *)
Lemma decode_logits {A} (tag : Sequence -> list A) : seqs <> [] -> is_prefill_of = false ->
  concat (tail_of tag <$> sampled) = concat (tag <$> batch).
Proof.
  intros Hne Hp. destruct (decode_batch Hne Hp) as (-> & -> & Hdec). f_equal. apply list_fmap_ext.
  intros i s Hs%list_elem_of_lookup_2. unfold tail_of, num_logits_of, num_drafts_of. rewrite Hdec by done.
  replace (num_scheduled_tokens s - _)%Z with 0%Z by lia. apply drop_0.
Qed.

(** Where the host has the rows start: an upper bound, exact where key lengths
    are planned with. *)
Record HostStart (start : Sequence -> Z) : Prop := {
  hs_between s : s ∈ batch -> (start_of r s <= start s <= num_cached_tokens s)%Z;
  hs_exact s : s ∈ batch ->
    mr_decodes_latents r = false \/ (is_prefill_of = true /\ num_scheduled_tokens s <> query_len_of r seqs) ->
    start s = start_of r s
}.

Lemma moving_prefill s : s ∈ batch -> is_prefill s = true -> moving s = false.
Proof.
  intros Hs Hp. destruct (ro_prefill _ _ (batch_row s Hs) Hp) as [Hn _]. unfold moving.
  by destruct (mr_in_flight_drafts r).
Qed.

Lemma start_of_le s : s ∈ batch -> (0 <= start_of r s <= num_cached_tokens s)%Z.
Proof. intros Hs. apply (ro_start _ _ (batch_row s Hs)). Qed.

Lemma exact_HostStart : HostStart (start_of r).
Proof. constructor; [|done]. intros s Hs. pose proof (start_of_le s Hs). lia. Qed.

Lemma cached_HostStart p : pl_is_prefill p = is_prefill_of ->
  (forall s, s ∈ batch -> moving s = true -> mr_decodes_latents r = true /\
     (pl_is_prefill p = true -> num_scheduled_tokens s = query_len_of r seqs)) ->
  HostStart num_cached_tokens.
Proof.
  intros Hpre Hm. constructor; intros s Hs.
  - pose proof (start_of_le s Hs). lia.
  - intros Hc. rewrite not_moving_start; [done|]. destruct (moving s) eqn:Hmv; [|done].
    destruct (Hm s Hs Hmv) as [Hl Hq]. rewrite Hpre in Hq. destruct Hc as [Hc|[Hc Hne]]; [congruence|]. by destruct Hne; apply Hq.
Qed.

Definition host_ends (start : Sequence -> Z) : list Z := (fun s => start s + num_scheduled_tokens s)%Z <$> batch.
Definition tokens_at {A} (start : Sequence -> Z) (f : Sequence -> Z -> A) : list A :=
  concat ((fun s => f s <$> seqZ (start s) (num_scheduled_tokens s)) <$> batch).

(** The context, of the host's key lengths and the device's. *)
Definition context_of (host dev slots : list Z) : Fields :=
  {| cx_is_prefill := is_prefill_of;
     cx_cu_seqlens_q := Some (cumulative lens); cx_cu_seqlens_k := Some (cumulative dev);
     cx_max_seqlen_q := max_default lens 0; cx_max_seqlen_k := max_default host 0;
     cx_slot_mapping := Some slots; cx_context_lens := Some dev;
     cx_block_tables := Some (padded_tables (block_table <$> batch));
     cx_logits_indices := if is_prefill_of then Some (lg_indices logits_of) else None;
     cx_cu_seqlens_q_host := Some (cumulative lens); cx_cu_seqlens_k_host := Some (cumulative host);
     cx_decode_query_len := query_len_of r seqs;
     cx_piecewise_size := None; cx_full_graph_size := None; cx_num_actual_tokens := None |}.

(** As the host makes it ... *)
Definition host_context (start : Sequence -> Z) : Fields :=
  context_of (host_ends start) (host_ends start) (tokens_at start (slot_of r)).

(** ... and as the pass reads it. *)
Definition device_context (start : Sequence -> Z) : Fields :=
  context_of (host_ends start) (end_of r <$> batch) (tokens_at (start_of r) (slot_of r)).

Lemma np_max_default (l : list Z) (st : Runner) Q : l <> [] -> Q (max_default l 0) st -> wp (np_max l) st Q.
Proof using. destruct l as [|x l]; [done|]. intros _ HQ. by apply wp_ret. Qed.

(** The drafter's inputs share the positions that the device moves. *)
Definition drafter_inputs (start : Sequence -> Z) : DraftInputs :=
  (draft_inputs_of start (Some (padded_tables (block_table <$> batch))))
    <| di_positions := tokens_at (start_of r) (fun _ p => p) |>.

(** What a step leaves of its batch in the runner. *)
Definition runner_after (start : Sequence -> Z) : Runner :=
  let r1 := r <| mr_top_k_top_p := top_k_top_p_of sampled |> in
  (if mr_has_proposer r then
     r1 <| mr_draft_inputs := Some (drafter_inputs start) |>
        <| mr_spec_inputs := (concat (drafts_of <$> sampled), num_drafts_of <$> sampled) |>
   else r1 <| mr_draft_inputs ::= fmap (fun d : DraftInputs => d <| di_positions := tokens_at (start_of r) (fun _ p => p) |>) |>)
  <| mr_sampling_rows := sampled |>.

Lemma tokens_at_id start : tokens_at start (fun _ p => p) = concat ((fun s => seqZ (start s) (num_scheduled_tokens s)) <$> batch).
Proof using. unfold tokens_at. f_equal. apply list_fmap_ext. intros _ s _. apply list_fmap_id. Qed.

(** The move on the device, where one is left. *)
Lemma moved_spec p start st :
  (forall s, s ∈ batch -> block_table s <> []) ->
  (start = start_of r /\ pl_moved p = []) \/
  (start = num_cached_tokens /\ pl_moved p = flatnonzero (moving <$> batch) /\
   Forall2 (fun s src => prev_row r s = Some src) (filter (fun s => moving s = true) batch) (pl_moved_src p)) ->
  forall cached : option (list (list Z) * list Z), cached <> None ->
  wp (if bool_decide (pl_moved p <> []) then
        match mr_in_flight_drafts r, cached with
        | Some in_flight, Some _ =>
            move_back (host_context start) (tokens_at start (fun _ p => p)) in_flight token_rows
              (pl_moved p) (pl_moved_src p) (mr_block_size r)
        | _, _ => raise (AssertionError "")
        end
      else ret (host_context start, tokens_at start (fun _ p => p))) st
    (fun m st' => st' = st /\ m = (device_context start, tokens_at (start_of r) (fun _ p => p))).
Proof.
  intros Hbt Hp cached Hc. destruct Hp as [[-> Hm]|(-> & Hm & Hsrc)].
  { rewrite Hm, bool_decide_eq_false_2 by (intros Hn; by apply Hn). by apply wp_ret. }
  apply wp_if; intros Hd; [apply bool_decide_eq_true in Hd|apply bool_decide_eq_false, dec_stable in Hd].
  - assert (exists f, mr_in_flight_drafts r = Some f) as [f Hf].
    { destruct (mr_in_flight_drafts r) eqn:Hf; [by eexists|]. exfalso. apply Hd. rewrite Hm, flatnonzero_places.
      unfold moving. rewrite Hf. clear. induction batch as [|x l IH]; [done|].
      rewrite fmap_cons, places_cons. simpl. apply fmap_nil_inv in IH. by rewrite IH. }
    rewrite Hf. destruct cached as [x|]; [|done]. rewrite tokens_at_id, Hm.
    eapply wp_mono; [apply (move_back_spec (host_context num_cached_tokens) f _ st Hf Hsrc Hbt eq_refl eq_refl); by eexists|].
    intros [c ps] st' (-> & H2 & H1). cbn [fst snd] in H1, H2. split; [done|]. rewrite H1, H2, tokens_at_id. done.
  - apply wp_ret. split; [done|]. rewrite Hd in Hm. rewrite flatnonzero_places in Hm. symmetry in Hm. apply fmap_nil_inv in Hm.
    assert (Hst : forall s, s ∈ batch -> num_cached_tokens s = start_of r s).
    { intros s Hs. rewrite not_moving_start; [done|]. clear -Hm Hs. induction batch as [|x l IH]; [by apply elem_of_nil in Hs|].
      rewrite fmap_cons, places_cons in Hm. apply app_eq_nil in Hm as [H1 H2]. apply fmap_nil_inv in H2.
      apply elem_of_cons in Hs as [->|Hs]; [by destruct (moving x)|]. by apply IH. }
    assert (Hends : host_ends num_cached_tokens = end_of r <$> batch).
    { apply list_fmap_ext. intros i s Hs. unfold end_of. rewrite Hst; [done|]. by apply list_elem_of_lookup_2 in Hs. }
    assert (Hat : forall A (f : Sequence -> Z -> A), tokens_at num_cached_tokens f = tokens_at (start_of r) f).
    { intros A f. unfold tokens_at. f_equal. apply list_fmap_ext. intros i s Hs. rewrite Hst; [done|].
      by apply list_elem_of_lookup_2 in Hs. }
    unfold device_context, host_context. by rewrite Hends, !Hat.
Qed.

(** Where the rows are placed. *)
Lemma placed_start p : pl_is_prefill p = is_prefill_of -> PlacedOk p -> exists start,
  pl_starts p = start <$> batch /\ HostStart start /\
  (forall s, s ∈ batch -> is_prefill s = true -> start s = num_cached_tokens s) /\
  (forall s, s ∈ batch -> pending s = false -> start s = num_cached_tokens s) /\
  ((start = start_of r /\ pl_moved p = []) \/
   (start = num_cached_tokens /\ pl_moved p = flatnonzero (moving <$> batch) /\
    Forall2 (fun s src => prev_row r s = Some src) (filter (fun s => moving s = true) batch) (pl_moved_src p))).
Proof.
  intros Hpre [[Hst Hm]|(Hst & Hm & Hsrc & Hex)].
  - exists (start_of r). split_and!; [done|apply exact_HostStart| | |by left]; intros s Hs Hp; apply not_moving_start.
    + by apply moving_prefill.
    + unfold moving. by destruct (mr_in_flight_drafts r).
  - exists num_cached_tokens. split_and!; [done|by apply cached_HostStart with p|done|done|by right].
Qed.

(** The slots of a batch whose rows have blocks. *)
Lemma cached_spec start st :
  seqs <> [] -> (forall s, s ∈ batch -> block_table s <> []) ->
  (forall s, s ∈ batch -> (0 <= start s <= num_cached_tokens s)%Z) ->
  let tables := block_table <$> batch in
  let positions := tokens_at start (fun _ p => p) in
  wp (if existsb (fun l => bool_decide (l <> [])) tables then
       let table := padded_tables tables in
       let! keep := gather ((fun l => bool_decide (l <> [])) <$> tables) token_rows in
       let! slot_mapping := slots (mr_block_size r) table (masked token_rows keep) (masked positions keep) in
       ret (Some (table, slot_mapping))
     else ret None) st
    (fun c st' => st' = st /\ c = Some (padded_tables (block_table <$> batch), tokens_at start (slot_of r))).
Proof.
  intros Hne Hbt Hst tables positions.
  assert (He : existsb (fun l => bool_decide (l <> [])) tables = true).
  { apply existsb_exists. destruct batch as [|s l] eqn:Hb.
    - exfalso. apply Hne. apply length_zero_iff_nil. by rewrite <-batch_length, Hb.
    - exists (block_table s). split; [by left|]. apply bool_decide_eq_true, Hbt. constructor. }
  rewrite He. apply wp_bind, gather_token_rows; [by unfold tables; rewrite !length_fmap|].
  assert (Hk : (fun l => bool_decide (l <> [])) <$> tables = (fun _ : Sequence => true) <$> batch).
  { unfold tables. rewrite <-list_fmap_compose. apply list_fmap_ext. intros i s Hs. simpl.
    apply bool_decide_eq_true, Hbt. by apply list_elem_of_lookup_2 in Hs. }
  rewrite Hk, np_repeat_rows. set (keep := concat _).
  assert (Hall : Forall (fun b => b = true) keep).
  { unfold keep. apply Forall_concat, Forall_fmap, Forall_forall. intros s _. simpl. by apply Forall_replicate. }
  assert (Hlen : length keep = length positions).
  { unfold keep, positions. rewrite tokens_at_id, !length_concat_fmap. clear.
    induction batch as [|x l IH]; [done|]. simpl. by rewrite IH, length_replicate, length_seqZ. }
  rewrite !masked_true; [|done|done| |done].
  - unfold positions. rewrite tokens_at_id. apply wp_bind. eapply wp_mono; [apply slots_spec|].
    { intros s Hs. split; [by apply Hbt|by apply Hst]. }
    intros sl st' [-> ->]. by apply wp_ret.
  - unfold keep. clear Hall Hlen Hk keep. rewrite length_concat_fmap.
    unfold np_repeat, Zlen, arange. rewrite <-batch_length. clear.
    generalize 0%Z. induction batch as [|x l IH]; intros z; [done|]. rewrite seqZ_cons by (simpl; lia).
    rewrite fmap_cons. cbn [zip_with concat sum_list_with]. rewrite length_app, !length_replicate.
    specialize (IH (Z.succ z)). replace (Z.pred (Z.of_nat (length (x :: l)))) with (Z.of_nat (length l)) by (simpl; lia).
    by rewrite <-IH.
Qed.

(** A prepared batch. *)
Lemma prepare_batch_spec :
  seqs <> [] -> (forall s, s ∈ batch -> block_table s <> []) ->
  (mr_has_proposer r = true -> forall s, s ∈ batch -> samples s = false ->
     pending s = false /\ (0 <= num_cached_tokens s /\ num_cached_tokens s + num_scheduled_tokens s < Zlen (token_ids s))%Z) ->
  wp (prepare_batch seqs) r (fun b r' => exists start, HostStart start /\ r' = runner_after start /\
    b = {| ba_input_ids := concat (ids_of r <$> batch); ba_positions := tokens_at (start_of r) (fun _ p => p);
           ba_temperatures := temperatures_of sampled; ba_context := device_context start |}).
Proof.
  intros Hne Hbt Hrest. unfold prepare_batch. wp_steps. change (id r) with r.
  wp_call order_rows_spec. intros w r1 [-> ->].
  apply wp_bind. wp_call place_rows_spec. intros p r1 (-> & Hp & Hpre).
  destruct (placed_start p Hpre Hp) as (start & Hst & Hhost & Hprompt & Hpend & Hmoved).
  assert (H0 : forall s, s ∈ batch -> (0 <= start s <= num_cached_tokens s)%Z).
  { intros s Hs. pose proof (hs_between _ Hhost s Hs). pose proof (start_of_le s Hs). lia. }
  rewrite Hst, Hpre. cbn [rows_of rw_batch rw_lens rw_sampling rw_query_len].
  apply wp_bind, gather_token_rows; [by rewrite length_fmap|].
  apply wp_bind, gather_token_rows; [rewrite cumulative_length, length_fmap; lia|].
  rewrite positions_at, <-tokens_at_id, zip_with_same.
  assert (Hz : zip (zip batch (start <$> batch)) ((fun x => start x + num_scheduled_tokens x)%Z <$> batch) =
    (fun s => (s, start s, (start s + num_scheduled_tokens s)%Z)) <$> batch).
  { clear. induction batch as [|x l IH]; [done|]. rewrite !fmap_cons. simpl. by f_equal. }
  rewrite Hz. apply wp_bind. wp_call (collect_tokens_spec start); [exact Hprompt|]. intros t st [-> ->].
  apply wp_bind. wp_call logits_rows_spec. intros lg st [-> ->].
  apply wp_bind, gather_ok with sampled.
  { rewrite <-masked_map. apply gather_masked. by rewrite length_fmap. }
  apply wp_bind. wp_call (cached_spec start r Hne Hbt H0). intros cached st [-> ->].
  apply wp_bind, np_max_default.
  { intros Hn. apply fmap_nil_inv in Hn. apply Hne, length_zero_iff_nil. by rewrite <-batch_length, Hn. }
  apply wp_bind, np_max_default.
  { intros Hn. apply fmap_nil_inv in Hn. apply Hne, length_zero_iff_nil. by rewrite <-batch_length, Hn. }
  wp_steps. wp_call fill_pending_spec. intros ids st [-> ->].
  apply wp_bind. eapply wp_mono with (P := fun _ st => st =
    let r1 := r <| mr_top_k_top_p := top_k_top_p_of sampled |> in
    if mr_has_proposer r then
      r1 <| mr_draft_inputs := Some (draft_inputs_of start (Some (padded_tables (block_table <$> batch)))) |>
         <| mr_spec_inputs := (concat (drafts_of <$> sampled), num_drafts_of <$> sampled) |>
    else r1).
  { apply wp_when; intros Hprop; rewrite Hprop; [|done]. rewrite tokens_at_id. apply wp_bind.
    wp_call (draft_inputs_spec start).
    - intros s Hs Hsm. destruct (Hrest Hprop s Hs Hsm) as (Hn & Hb). rewrite Hpend by done.
      pose proof (ro_len _ _ (batch_row s Hs)). lia.
    - intros d st [-> ->]. by apply wp_modify. }
  intros [] st ->. apply wp_bind.
  wp_call (moved_spec p start _ Hbt Hmoved (Some (padded_tables (block_table <$> batch), tokens_at start (slot_of r)))); [done|].
  intros m st [-> ->]. wp_steps. exists start. split; [done|]. split; [|done].
  unfold runner_after. by destruct (mr_has_proposer r).
Qed.

End Batch.

(** A step's rows, as the scheduler hands them over. *)
Record Ready (r : Runner) (seqs : list Sequence) : Prop := {
  rd_runner : RunnerOk r;
  rd_rows : Forall (RowOk r) seqs;
  rd_some : seqs <> [];
  rd_blocks : Forall (fun s => block_table s <> []) seqs;
  rd_prompts : mr_has_proposer r = true -> Forall (fun s => samples s = false -> pending s = false /\
    (0 <= num_cached_tokens s /\ num_cached_tokens s + num_scheduled_tokens s < Zlen (token_ids s))%Z) seqs
}.

Lemma batch_in r seqs s : s ∈ batch_of r seqs -> s ∈ seqs.
Proof. unfold batch_of. by rewrite by_mask_perm. Qed.

Lemma prepare_ready r seqs : Ready r seqs ->
  wp (prepare_batch seqs) r (fun b r' => exists start, HostStart r seqs start /\ r' = runner_after r seqs start /\
    b = {| ba_input_ids := concat (ids_of r <$> batch_of r seqs);
           ba_positions := concat (positions_of r <$> batch_of r seqs);
           ba_temperatures := temperatures_of (filter (fun s => samples s = true) seqs);
           ba_context := device_context r seqs start |}).
Proof.
  intros [Hr Hrows Hne Hb Hp]. rewrite Forall_forall in Hb. eapply wp_mono.
  - apply prepare_batch_spec; [done|done|done| |].
    + intros s Hs. by apply Hb, (batch_in r).
    + intros Hprop s Hs. specialize (Hp Hprop). rewrite Forall_forall in Hp. by apply Hp, (batch_in r).
  - intros b r' (start & Hh & Hr' & ->). exists start. split_and!; [done|done|]. by rewrite tokens_at_id.
Qed.

(** ** Rows of a context *)

(** A context of the rows, the host's starts given. *)
Definition RowsContext (r : Runner) (c : Fields) (start : Sequence -> Z) (rows : list Sequence) : Prop :=
  exists width, BatchContext c (num_scheduled_tokens <$> rows)
    ((fun s => start s + num_scheduled_tokens s)%Z <$> rows) (end_of r <$> rows)
    ((fun s => pad_table width (block_table s)) <$> rows).

Lemma device_rows r seqs start : RowsContext r (device_context r seqs start) start (batch_of r seqs).
Proof.
  exists (max_default (Zlen <$> (block_table <$> batch_of r seqs)) 0).
  constructor; try done; [|by rewrite !length_fmap].
  cbn [device_context context_of cx_block_tables]. unfold padded_tables. by rewrite <-list_fmap_compose.
Qed.

(** The rows of the chosen length, and the others. *)
Definition decode_rows (r : Runner) (seqs : list Sequence) : list Sequence :=
  filter (fun s => off_length (query_len_of r seqs) s = false) seqs.
Definition other_rows (r : Runner) (seqs : list Sequence) : list Sequence :=
  filter (fun s => off_length (query_len_of r seqs) s = true) seqs.

Lemma leading_unique q (l l' : list Sequence) n :
  Forall (fun s => num_scheduled_tokens s = q) l -> Forall (fun s => num_scheduled_tokens s <> q) l' ->
  n <= length (num_scheduled_tokens <$> l ++ l') ->
  Forall (fun x => x = q) (take n (num_scheduled_tokens <$> l ++ l')) ->
  (forall x, (num_scheduled_tokens <$> l ++ l') !! n = Some x -> x <> q) -> n = length l.
Proof.
  intros Hl Hl' Hn Hall Hnext. rewrite Forall_lookup in Hl. rewrite Forall_lookup in Hl'. rewrite Forall_lookup in Hall.
  destruct (Nat.lt_trichotomy n (length l)) as [Hlt|[->|Hgt]]; [|done|].
  - exfalso. destruct (lookup_lt_is_Some_2 l n Hlt) as [s Hs].
    apply (Hnext (num_scheduled_tokens s)); [|by apply (Hl n)]. by rewrite list_lookup_fmap, lookup_app_l, Hs.
  - exfalso. rewrite length_fmap, length_app in Hn.
    destruct (lookup_lt_is_Some_2 l' 0) as [s Hs]; [lia|]. apply (Hl' _ _ Hs), (Hall (length l)).
    rewrite lookup_take_lt, list_lookup_fmap, lookup_app_r, Nat.sub_diag by lia. by rewrite Hs.
Qed.

Lemma decode_rows_len r seqs : Forall (fun s => num_scheduled_tokens s = query_len_of r seqs) (decode_rows r seqs).
Proof.
  apply Forall_forall. intros s [Hs _]%list_elem_of_filter. unfold off_length in Hs.
  by apply negb_false_iff, Z.eqb_eq in Hs.
Qed.

Lemma other_rows_len r seqs : Forall (fun s => num_scheduled_tokens s <> query_len_of r seqs) (other_rows r seqs).
Proof.
  apply Forall_forall. intros s [Hs _]%list_elem_of_filter. unfold off_length in Hs.
  by apply negb_true_iff, Z.eqb_neq in Hs.
Qed.

(** The prefill half as the backend takes it: the whole context where no row
    decodes. *)
Definition prefill_part (whole : Fields) (p : Prefills) : option Fields :=
  match p with PNone_ => None | PSelf => Some whole | PNew c => Some c end.

(** Splitting a batch at its query length separates its rows. *)
Lemma split_rows r seqs start w c s :
  let batch := batch_of r seqs in
  let k_of rows := (fun s => start s + num_scheduled_tokens s)%Z <$> rows in
  let t_of rows := (fun s => pad_table w (block_table s)) <$> rows in
  BatchContext c (num_scheduled_tokens <$> batch) (k_of batch) (end_of r <$> batch) (t_of batch) ->
  SplitOf (query_len_of r seqs) (num_scheduled_tokens <$> batch) (k_of batch) (end_of r <$> batch) (t_of batch) s ->
  sp_rows s = Zlen (decode_rows r seqs) /\
  match sp_decodes s with
  | None => decode_rows r seqs = []
  | Some d => RowsContext r d start (decode_rows r seqs) /\ cx_max_seqlen_q d = query_len_of r seqs
  end /\
  match prefill_part c (sp_prefills s) with
  | None => other_rows r seqs = []
  | Some p => RowsContext r p start (other_rows r seqs)
  end.
Proof.
  intros batch k_of t_of Hb (H0 & Hn & Hall & Hnext & Hd & Hp). subst batch.
  change (batch_of r seqs) with (decode_rows r seqs ++ other_rows r seqs) in *.
  set (ds := decode_rows r seqs) in *. set (ps := other_rows r seqs) in *.
  pose proof (leading_unique _ _ _ _ (decode_rows_len r seqs) (other_rows_len r seqs) Hn Hall Hnext) as Hrows.
  fold ds in Hrows. rewrite Hrows in *.
  assert (Htake : forall A (f : Sequence -> A), take (length ds) (f <$> ds ++ ps) = f <$> ds)
    by (intros A f; by rewrite <-fmap_take, take_app_length).
  assert (Hdrop : forall A (f : Sequence -> A), drop (length ds) (f <$> ds ++ ps) = f <$> ps)
    by (intros A f; by rewrite <-fmap_drop, drop_app_length).
  unfold k_of, t_of in *. rewrite !Htake in Hd. rewrite !Hdrop in Hp. rewrite length_fmap, length_app in Hp. split_and!.
  - unfold Zlen. lia.
  - destruct (sp_decodes s) as [d|]; [|by apply length_zero_iff_nil].
    destruct Hd as (_ & Hq & Hd). split; [by exists w|done].
  - destruct (sp_prefills s); simpl.
    + apply length_zero_iff_nil. lia.
    + apply length_zero_iff_nil in Hp. rewrite Hp in Hb. by exists w.
    + destruct Hp as (_ & _ & Hp). by exists w.
Qed.

(** ** Graph sizes *)

Lemma range_step_elem x a b step :
  (0 < step)%Z -> x ∈ range_step a b step -> (a <= x < b)%Z.
Proof.
  intros Hs (i & -> & Hi)%list_elem_of_fmap. apply elem_of_seqZ in Hi.
  assert (i * step <= b - a - 1)%Z; [|lia].
  pose proof (Z.mul_div_le (b - a + step - 1) step Hs).
  assert ((i + 1) * step <= b - a + step - 1)%Z; [|lia].
  assert (i + 1 <= (b - a + step - 1) / step)%Z by lia. nia.
Qed.

Lemma sorted_set_elem x l : x ∈ sorted_set l <-> x ∈ l.
Proof. unfold sorted_set. rewrite merge_sort_Permutation. apply elem_of_remove_dups. Qed.

(** Captured sizes are positive, in the token budget, and in order. *)
Lemma capture_sizes_bounds seqs tokens x :
  (0 < tokens)%Z -> x ∈ cudagraph_capture_sizes seqs tokens -> (0 < x <= tokens)%Z.
Proof.
  intros Ht. unfold cudagraph_capture_sizes. set (top := Z.min _ tokens). rewrite sorted_set_elem.
  assert (Hbase : x ∈ (filter (fun size => (size <= top)%Z) [1; 2; 4]%Z ++ range_step 8 (Z.min (top + 1) 256) 8) ++
    range_step 256 (top + 1) 16 -> (0 < x <= tokens)%Z).
  { rewrite !elem_of_app. intros [[Hx|Hx]|Hx].
    - apply list_elem_of_filter in Hx as [Hx Hin]. rewrite !elem_of_cons, elem_of_nil in Hin. lia.
    - apply range_step_elem in Hx; lia.
    - apply range_step_elem in Hx; lia. }
  destruct (tokens <=? top)%Z; [|exact Hbase]. rewrite elem_of_app, list_elem_of_singleton.
  intros [Hx| ->]; [by apply Hbase|lia].
Qed.

Lemma capture_sizes_sorted seqs tokens : StronglySorted Z.le (cudagraph_capture_sizes seqs tokens).
Proof. unfold cudagraph_capture_sizes. apply StronglySorted_merge_sort; apply _. Qed.

Lemma filter_sorted (P : Z -> Prop) `{!forall x, Decision (P x)} l :
  StronglySorted Z.le l -> StronglySorted Z.le (filter P l).
Proof.
  induction 1 as [|x l Hs IH Hx]; [constructor|]. rewrite filter_cons. case_decide; [|done].
  constructor; [done|]. rewrite Forall_forall in *. intros y [_ Hy]%list_elem_of_filter. by apply Hx.
Qed.

(** The first size that is enough, when the last is. *)
Lemma first_at_least_ok n l m : last l = Some m -> (n <= m)%Z -> exists x, first_at_least n l = Some x /\ x ∈ l /\ (n <= x)%Z.
Proof.
  intros Hm Hn. unfold first_at_least. destruct (filter (fun x => (n <= x)%Z) l) as [|x f] eqn:Hf.
  - exfalso. assert (m ∈ filter (fun x => (n <= x)%Z) l) as Hin.
    { apply list_elem_of_filter. split; [done|]. by apply last_Some_elem_of in Hm. }
    rewrite Hf in Hin. by apply elem_of_nil in Hin.
  - exists x. split; [done|]. assert (x ∈ filter (fun x => (n <= x)%Z) l) as Hin by (rewrite Hf; constructor).
    apply list_elem_of_filter in Hin. tauto.
Qed.

Lemma first_at_least_least n l x y :
  StronglySorted Z.le l -> first_at_least n l = Some x -> y ∈ l -> (n <= y)%Z -> (x <= y)%Z.
Proof.
  intros Hs Hx Hy Hn. apply (filter_sorted (fun x => (n <= x)%Z)) in Hs.
  unfold first_at_least in Hx. destruct (filter _ l) as [|z f] eqn:Hf; [done|]. injection Hx as ->.
  assert (y ∈ x :: f) as Hin by (rewrite <-Hf; by apply list_elem_of_filter).
  apply StronglySorted_inv in Hs as [_ Hall]. rewrite Forall_forall in Hall.
  apply elem_of_cons in Hin as [->|Hin]; [lia|by apply Hall].
Qed.

Lemma first_at_least_in n l x : first_at_least n l = Some x -> x ∈ l /\ (n <= x)%Z.
Proof.
  unfold first_at_least. intros Hx. destruct (filter _ l) as [|z f] eqn:Hf; [done|]. injection Hx as ->.
  assert (x ∈ filter (fun x => (n <= x)%Z) l) as Hin by (rewrite Hf; constructor).
  apply list_elem_of_filter in Hin. tauto.
Qed.

(** What a runner has captured. *)
Definition captured (r : Runner) : Runner := capture_piecewise_sizes (capture_cudagraph_sizes r).

Lemma graph_step_spec is_prefill n q r :
  step_kind_of is_prefill n q r = "graph"%string ->
  is_prefill = false /\ q = mr_graph_query_len r /\
  exists largest, last (mr_graph_bs r) = Some largest /\ (n <= largest * q)%Z.
Proof.
  unfold step_kind_of. destruct (String.eqb _ "none"); [done|].
  destruct (negb is_prefill && _ && _) eqn:Hg.
  - intros _. rewrite !andb_true_iff in Hg. destruct Hg as [[Hp%negb_true_iff _] Hl].
    destruct (last (mr_graph_bs r)) as [largest|]; [|done]. apply andb_true_iff in Hl as [Hq%Z.eqb_eq Hn%Z.leb_le].
    split_and!; [done|done|by exists largest].
  - destruct (in_modes _ PIECEWISE_MODES && _); [done|]. by destruct is_prefill.
Qed.

Lemma piecewise_step_spec is_prefill n q r :
  step_kind_of is_prefill n q r = "piecewise"%string ->
  exists size, piecewise_bucket n r = Some size /\ first_at_least n (mr_piecewise_bs r) = Some size.
Proof.
  unfold step_kind_of. destruct (String.eqb _ "none"); [done|].
  destruct (negb is_prefill && _ && _); [done|].
  destruct (in_modes _ PIECEWISE_MODES && _) eqn:Hp; [|by destruct is_prefill].
  intros _. apply andb_true_iff in Hp as [_ Hp]. destruct (piecewise_bucket n r) as [size|] eqn:Hb; [|done].
  exists size. split; [done|]. unfold piecewise_bucket in Hb.
  destruct (first_at_least n (mr_piecewise_bs r)) as [b|]; [|done].
  destruct (mr_piecewise_bs r) as [|x l]; [done|]. by destruct (n <? x)%Z.
Qed.
