(* ===== verification/Instances.v ===== *)
(** * A concrete engine

    Instances of the interfaces, and the states of a short run, on which the
    properties are evaluated: 16-token blocks, first-come first-served, the
    NIXL connector's scheduler half, and a runner that samples token 7. *)

From Stdlib Require Import Strings.Byte.
From S2P Require Import Prelude Output Sequence BlockManager BlockManagerFacts Policy KVBase Scheduler Lifecycle.
From S2P Require Import SchedulerInv SchedulerSteps ScheduleFacts AdmitFacts LaunchFacts ReconcileFacts.
From S2P Require Import SchedulerReach NixlConnector OutputProcessor Frames Metrics SpecDecode Engine EngineFacts.

Module Demo.

(** ** Settings *)

(** A number's binary digits, a byte each: a pickler that forgets nothing. *)
Fixpoint digits (p : positive) : list byte :=
  match p with
  | xH => [x01]
  | xO p => digits p ++ [x00]
  | xI p => digits p ++ [x01]
  end.

#[export] Instance settings : SeqSettings := {|
  block_size := 16;
  enable_prefix_caching := true;
  hash_algo := "sha256";
  pickle_dumps := fun x => digits (encode x);
  sha256_digest := fun bs => bs;
  xxh128_digest := fun bs => bs |}.

#[export] Instance settings_ok : SettingsOk.
Proof. split; [done | by eexists]. Defined.

Lemma bytes_snoc bs b :
  int_from_bytes_big (bs ++ [b]) = (int_from_bytes_big bs * 256 + Z.of_N (Byte.to_N b))%Z.
Proof. unfold int_from_bytes_big. by rewrite foldl_app. Qed.

Lemma digits_pos p : (1 <= int_from_bytes_big (digits p))%Z.
Proof. induction p; simpl; rewrite ?bytes_snoc; simpl; try lia. done. Qed.

Lemma digits_inj p q : int_from_bytes_big (digits p) = int_from_bytes_big (digits q) -> p = q.
Proof.
  revert q. induction p as [p IH|p IH|]; intros [q|q|]; simpl; rewrite ?bytes_snoc; simpl; intros Hd;
    try (exfalso; pose proof (digits_pos p); lia); try (exfalso; pose proof (digits_pos q); lia);
    try (exfalso; cbn in Hd; pose proof (digits_pos p); lia);
    try (exfalso; cbn in Hd; pose proof (digits_pos q); lia); try done.
  - f_equal. apply IH. lia.
  - f_equal. apply IH. lia.
Qed.

(** This hash has no collisions. *)
Lemma collision_free b1 p1 b2 p2 : block_hash b1 p1 = block_hash b2 p2 -> b1 = b2 /\ p1 = p2.
Proof.
  unfold block_hash. simpl. unfold sha256_hash, serialize. simpl.
  intros Hd%digits_inj%(inj encode). by injection Hd as -> ->.
Qed.

#[export] Instance order : SetOrder :=
  {| set_order := elements; set_order_perm := fun X => Permutation_refl (elements X) |}.

Definition clock (n : nat) : Qc := Qc_of_Z (Z.of_nat n).

(** ** A scheduler *)

Definition cfg : SchedulerConfig :=
  {| max_num_seqs := 4; max_num_batched_tokens := 24; eos := 2; kvcache_block_size := 16;
     num_kvcache_blocks := 6; cfg_enable_prefix_caching := true; enable_chunked_prefill := true;
     long_prefill_token_threshold := 0; speculative_tokens := None |}.

Lemma cfg_ok : CfgOk cfg.
Proof. by split. Qed.

(** ** A runner, a tokenizer and an engine *)

(** Every sampling sequence samples token 7. *)
#[export] Instance runner : ModelRunner unit := {|
  mr_run := fun ss => ret ((fun _ => inl 7%Z) <$> filter samples ss);
  mr_kv_connector_step := fun _ => ret empty_KVConnectorOutput;
  mr_step_kind := fun _ => "graph" |}.

#[export] Instance runner_laws : ModelRunnerLaws unit None.
Proof.
  split; [done| |done]. intros ss r. unfold wp. simpl.
  induction (filter samples ss); constructor; [by eexists | done].
Defined.

(** A token's text is its number. *)
#[export] Instance tokenizer : Tokenizer := {|
  DecodeStream := unit;
  new_DecodeStream := fun _ _ => tt;
  ds_step := fun t => ret (Some (pretty t)) |}.

#[export] Instance tokenizer_laws : TokenizerLaws.
Proof. split; intros; simplify_eq/=. Defined.

Definition params : SamplingParams := default_SamplingParams <| sp_max_tokens := 4%Z |>.

Lemma params_ok : SamplingParamsOk params.
Proof. unfold SamplingParamsOk. split_and!; done. Qed.

Abbreviation Sch := (Scheduler Fcfs.Queue NixlConnectorScheduler).
Abbreviation Eng := (@LLMEngine tokenizer Fcfs.Queue NixlConnectorScheduler unit).

Definition scheduler0 : Sch := new_Scheduler cfg Fcfs.init None.

Definition engine0 : Eng :=
  {| e_config := {| vocab_size := 100; max_model_len := 64; kv_transfer := None;
                    async_scheduling := true; speculative := None |};
     e_scheduler := scheduler0; e_runner := tt; e_metrics := new_Metrics;
     e_output_processor := Some (new_OutputProcessor true); e_in_flight := None; e_counter := 0 |}.

Definition encode_text (text : string) : list Z := [].

(** The strict model's fields, checked in turn. *)
Definition field_ok {A} (conv : pyval -> option A) (d : gmap string pyval) (k : string) : bool :=
  match d !! k with Some v => bool_decide (is_Some (conv v)) | None => false end.

Definition model_validate (d : gmap string pyval) : option (string * string) :=
  if field_ok pv_ints d "remote_block_ids" && field_ok pv_str d "remote_request_id" &&
     field_ok pv_str d "remote_engine_id" && field_ok pv_str d "remote_host" &&
     field_ok pv_int d "remote_port" &&
     match d !! "tp_size" with Some v => bool_decide (is_Some (pv_int v)) | None => true end
  then None else Some ("kv_transfer_params", "invalid").

Definition add_with (sp : SamplingParams) (toks : list Z) (e : Eng) : Eng :=
  (engine_add_request clock encode_text model_validate (inr toks) sp None e).2.

Definition add_prompt : list Z -> Eng -> Eng := add_with params.

Definition step_engine (e : Eng) : Eng := (step clock e).2.

(** Two requests whose prompts share their first block; then two steps: the
    first admits and prefills the first prompt and a part of the second. *)
Definition prompt0 : list Z := replicate 20 10%Z.
Definition prompt1 : list Z := replicate 18 10%Z ++ [11%Z].

Definition engine1 : Eng := add_prompt prompt0 engine0.
Definition engine2 : Eng := add_prompt prompt1 engine1.
Definition engine3 : Eng := step_engine engine2.
Definition engine4 : Eng := step_engine engine3.
Definition scheduler2 : Sch := e_scheduler engine2.

(** A third request with the first prompt again: its step takes the published
    first block from the prefix cache. *)
Definition engine5 : Eng := add_prompt prompt0 engine4.
Definition engine6 : Eng := step_engine engine5.
Definition scheduler6 : Sch := e_scheduler engine6.
Definition rows6 : list LaunchedRow := flight_rows (e_in_flight engine6).

(** ** The run's invariants *)

Lemma engine0_inv : EngInv None engine0.
Proof.
  split; simpl; try done.
  by apply new_Scheduler_inv.
Defined.

Lemma no_kv_ok : kv_ok (C := NixlConnectorScheduler) None.
Proof. by intros d [=]. Qed.

Lemma field_ok_spec {A} (conv : pyval -> option A) d k : field_ok conv d k = true ->
  exists v a, d !! k = Some v /\ conv v = Some a.
Proof.
  unfold field_ok. destruct (d !! k) as [v|]; [|done]. intros [a Ha]%bool_decide_eq_true. eauto.
Qed.

(** The admission check establishes what the connector reads. *)
Lemma checked d kv : check_kv_transfer_params model_validate (PDict (map_to_list d)) d kv = None ->
  kv_ok (C := NixlConnectorScheduler) (Some d).
Proof.
  unfold check_kv_transfer_params. simpl. intros Hc d' [= <-] Hp.
  destruct kv as [c|]; [|done]. destruct (_ && _); [done|]. rewrite Hp in Hc.
  destruct (negb _); [done|]. unfold model_validate in Hc.
  destruct (_ && _) eqn:Hb in Hc; [|done]. apply andb_prop in Hb as [Hb Ht].
  repeat (apply andb_prop in Hb as [Hb ?]). unfold RemotePrefill.
  split_and!; try by apply field_ok_spec.
  intros v Hv. rewrite Hv in Ht. by apply bool_decide_eq_true in Ht as [n Hn]; eauto.
Qed.

Lemma add_with_inv sp toks e : SamplingParamsOk sp -> EngInv None e -> EngInv None (add_with sp toks e).
Proof.
  intros Hsp Hi. unfold add_with.
  pose proof (add_request_spec None clock encode_text model_validate checked no_kv_ok (inr toks) sp None e Hi Hsp) as Ha.
  destruct (engine_add_request _ _ _ _ _ _ _) as [[ex|r] e']; apply Ha.
Defined.

Lemma add_prompt_inv toks e : EngInv None e -> EngInv None (add_prompt toks e).
Proof. apply add_with_inv, params_ok. Defined.

(** Without a connector no step asks the worker for a report. *)
Lemma step_engine_inv e : EngInv None e -> StepReportsOk clock e -> EngInv None (step_engine e).
Proof.
  intros Hi Hr. unfold step_engine. pose proof (step_spec None clock e Hi Hr) as Hs. unfold wp in Hs.
  destruct (step clock e) as [[x|r] e']; [done | apply Hs].
Defined.

Lemma engine2_inv : EngInv None engine2.
Proof. do 2 apply add_prompt_inv. apply engine0_inv. Defined.

(** Without a connector a step has no metadata. *)
Lemma no_metadata (x : Sch) :
  match (schedule clock x).1 with inr o => kv_connector_metadata o | inl _ => None end = None ->
  forall o x1 m, schedule clock x = (inr o, x1) -> kv_connector_metadata o = Some m -> False.
Proof. intros Hn o x1 m Hs Hm. rewrite Hs in Hn. simpl in Hn. congruence. Qed.

Lemma no_reports (e : Eng) : async_scheduling (e_config e) = true ->
  (let x := (e_scheduler e) <| ticks ::= S |> in
   match (schedule clock x).1 with inr o => kv_connector_metadata o | inl _ => None end = None) ->
  StepReportsOk clock e.
Proof.
  intros Ha Hn. unfold StepReportsOk, ReportsOk. cbv zeta. rewrite Ha.
  intros o x1 m report r' Hs Hm. exfalso. exact (no_metadata _ Hn o x1 m Hs Hm).
Qed.

Lemma engine2_reports : StepReportsOk clock engine2.
Proof. apply no_reports; [done | vm_compute; reflexivity]. Defined.

Lemma engine3_inv : EngInv None engine3.
Proof. apply step_engine_inv; [apply engine2_inv | apply engine2_reports]. Defined.

Lemma engine3_reports : StepReportsOk clock engine3.
Proof. apply no_reports; [done | vm_compute; reflexivity]. Defined.

Lemma engine5_reports : StepReportsOk clock engine5.
Proof. apply no_reports; [done | vm_compute; reflexivity]. Defined.

Lemma engine5_inv : EngInv None engine5.
Proof. apply add_prompt_inv, step_engine_inv; [apply engine3_inv | apply engine3_reports]. Defined.

Lemma engine6_inv : EngInv None engine6.
Proof. apply step_engine_inv; [apply engine5_inv | apply engine5_reports]. Defined.

Lemma scheduler6_inv : Inv scheduler6 (running scheduler6) rows6.
Proof. exact (ei_sched _ _ engine6_inv). Defined.

(** ** A request that loads its prompt's KV

    The same engine as a consumer: the request names a remote prefill of the
    two blocks its prompt takes, and scheduling it starts the load. *)

Definition kv_config : KVTransferConfig :=
  {| kv_connector := "NixlConnector"; kv_role := kv_both; kv_ip := "127.0.0.1"; kv_port := 14579;
     engine_id := "decode" |}.

Definition remote_params : gmap string pyval :=
  {[ "do_remote_prefill" := PBool true; "remote_block_ids" := PList [PInt 4; PInt 5];
     "remote_request_id" := PStr "req-9"; "remote_engine_id" := PStr "prefill";
     "remote_host" := PStr "10.0.0.1"; "remote_port" := PInt 14579; "tp_size" := PInt 1 ]}.

Definition params_remote : SamplingParams := params <| sp_kv_transfer_params := Some remote_params |>.

Lemma params_remote_ok : SamplingParamsOk params_remote.
Proof. unfold SamplingParamsOk. split_and!; done. Qed.

Definition kv_engine0 : Eng :=
  engine0 <| e_config := {| vocab_size := 100; max_model_len := 64; kv_transfer := Some kv_config;
                            async_scheduling := true; speculative := None |} |>
          <| e_scheduler := new_Scheduler cfg Fcfs.init (Some (new_NixlConnectorScheduler kv_config 16 1)) |>.

Definition kv_engine1 : Eng := add_with params_remote prompt0 kv_engine0.
Definition kv_scheduler1 : Sch := e_scheduler kv_engine1.
Definition kv_scheduler2 : Sch := (schedule clock kv_scheduler1).2.

Lemma kv_engine1_inv : EngInv None kv_engine1.
Proof.
  apply add_with_inv; [apply params_remote_ok|]. split; simpl; try done. by apply new_Scheduler_inv.
Defined.

Lemma kv_scheduler1_inv : Inv kv_scheduler1 (running kv_scheduler1) [].
Proof. exact (ei_sched _ _ kv_engine1_inv). Defined.

Lemma kv_scheduler2_inv : Inv kv_scheduler2 (running kv_scheduler2) [].
Proof.
  pose proof (schedule_spec clock kv_scheduler1 [] kv_scheduler1_inv) as Hs. unfold wp in Hs. unfold kv_scheduler2.
  destruct (schedule clock kv_scheduler1) as [[e|o] x']; [done | apply Hs].
Defined.

Lemma scheduler2_inv : Inv scheduler2 (running scheduler2) [].
Proof. exact (ei_sched _ _ engine2_inv). Defined.

End Demo.
