(* ===== verification/Config.v ===== *)
(** * Configuration

    [config.py] with what its checks ask: [envs.py], the device, the registry
    of [models/__init__.py], and the choice of an attention backend
    ([attention/selector.py], and the backends' own conditions). *)

From Stdlib Require Import Ascii.
From S2P Require Import Prelude Sequence KVBase SpecDecode Arrays AttnContext ModelRunner.

(** ** The environment

    Its values are ASCII. *)

Definition Environ : Type := gmap string string.

Definition is_space (c : ascii) : bool :=
  let n := Ascii.nat_of_ascii c in (n =? 32) || (9 <=? n) && (n <=? 13) || (28 <=? n) && (n <=? 31).

Definition lower_ascii (c : ascii) : ascii :=
  let n := Ascii.nat_of_ascii c in if (65 <=? n) && (n <=? 90) then Ascii.ascii_of_nat (n + 32) else c.
Definition upper_ascii (c : ascii) : ascii :=
  let n := Ascii.nat_of_ascii c in if (97 <=? n) && (n <=? 122) then Ascii.ascii_of_nat (n - 32) else c.

Fixpoint map_string (f : ascii -> ascii) (s : string) : string :=
  match s with EmptyString => EmptyString | String c s' => String (f c) (map_string f s') end.
Fixpoint lstrip (s : string) : string :=
  match s with String c s' => if is_space c then lstrip s' else s | EmptyString => s end.
Definition strip (s : string) : string := String.rev (lstrip (String.rev (lstrip s))).

(** [os.getenv(name) or None]. *)
Definition env_or_none (env : Environ) (name : string) : option string :=
  match env !! name with Some s => if bool_decide (s = EmptyString) then None else Some s | None => None end.

Definition env_bool (env : Environ) (name : string) (default : bool) : bool :=
  match env !! name with
  | None => default
  | Some value => negb (bool_decide (map_string lower_ascii (strip value) ∈ [""; "0"; "false"]%string))
  end.

Definition LEAN_VLLM_DEVICE (env : Environ) : option string := env_or_none env "LEAN_VLLM_DEVICE".
Definition LEAN_VLLM_ATTENTION_BACKEND (env : Environ) : option string := env_or_none env "LEAN_VLLM_ATTENTION_BACKEND".
Definition LEAN_VLLM_KV_CACHE_LAYOUT (env : Environ) : string :=
  map_string upper_ascii (default "NHD"%string (env !! "LEAN_VLLM_KV_CACHE_LAYOUT")).
Definition LEAN_PROFILE_CUDA (env : Environ) : bool := env_bool env "LEAN_PROFILE_CUDA" false.

(** ** Attention backends *)

(** PyTorch's dtypes that the engine names, and the rest. *)
Inductive Dtype := float32 | float16 | bfloat16 | other_dtype (name : string).

#[export] Instance Dtype_eq_dec : EqDecision Dtype.
Proof. solve_decision. Defined.

Record LayerSpec := { ls_head_size : Z; ls_num_heads : Z; ls_num_kv_heads : Z; ls_dtype : Dtype; ls_latent_dim : Z }.

Definition kind (s : LayerSpec) : string := if (ls_latent_dim s =? 0)%Z then "decoder" else "mla".

(** The machine: which libraries import, PyTorch's parser of a device's name, which gives its type, and the device
    with its compute capability. *)
Record Machine := {
  imports : string -> bool;
  torch_device : string -> exn + string;
  cuda_available : bool;
  capability : Z
}.

(** [get_device().type]. *)
Definition get_device {S} (env : Environ) (m : Machine) : M S string :=
  match LEAN_VLLM_DEVICE env with
  | Some override =>
      match torch_device m override with
      | inl e => raise e
      | inr d => if bool_decide (d ∈ ["cpu"; "cuda"]%string) then ret d
                 else raise (ValueError ("unsupported device '" +:+ override +:+ "'; use cpu or cuda"))
      end
  | None => ret (if cuda_available m then "cuda" else "cpu")%string
  end.

Inductive Backend := FlashMLABackend | FlashAttention3Backend | FlashInferBackend | TorchAttention.

#[export] Instance Backend_eq_dec : EqDecision Backend.
Proof. solve_decision. Defined.

Definition BACKENDS : list Backend := [FlashMLABackend; FlashAttention3Backend; FlashInferBackend; TorchAttention].

Definition get_name (b : Backend) : string :=
  match b with
  | FlashMLABackend => "flashmla"
  | FlashAttention3Backend => "flash_attn_3"
  | FlashInferBackend => "flashinfer"
  | TorchAttention => "torch"
  end.

Definition supported_dtypes (b : Backend) : list Dtype :=
  match b with TorchAttention => [float32; float16; bfloat16] | _ => [float16; bfloat16] end.

Definition supported_kinds (b : Backend) : list string :=
  match b with
  | FlashMLABackend => ["mla"]
  | FlashInferBackend => ["decoder"]
  | _ => ["decoder"; "mla"]
  end.

Definition supports_head_size (b : Backend) (n : Z) : bool :=
  match b with
  | FlashMLABackend | FlashAttention3Backend => (n mod 8 =? 0)%Z && (n <=? 256)%Z
  | FlashInferBackend => bool_decide (n ∈ [64; 128; 256])%Z
  | TorchAttention => true
  end.

Definition mla_block_size (b : Backend) : option Z := match b with FlashMLABackend => Some 64%Z | _ => None end.

(** The device is asked for only where the libraries before it import. *)
Definition fa3_available {S} (env : Environ) (m : Machine) : M S bool :=
  if negb (imports m "flash_attn_interface" && imports m "triton") then ret false else
  let! d := get_device env m in
  ret (bool_decide (d = "cuda"%string) && (capability m =? 9)%Z).

Definition is_available {S} (env : Environ) (m : Machine) (b : Backend) : M S bool :=
  match b with
  | TorchAttention => ret true
  | FlashAttention3Backend => fa3_available env m
  | FlashMLABackend => if imports m "flash_mla" then fa3_available env m else ret false
  | FlashInferBackend =>
      if negb (imports m "flashinfer" && imports m "triton") then ret false else
      let! d := get_device env m in
      ret (bool_decide (d = "cuda"%string) && (8 <=? capability m)%Z)
  end.

(** Why a backend cannot serve a layer. *)
Inductive Reason := UnsupportedDtype | UnsupportedHeadSize | HeadsDoNotGroup | UnsupportedKind | LatentWidth | NotAvailable.

Definition reason_if (b : bool) (r : Reason) : list Reason := if b then [r] else [].

Definition validate {S} (b : Backend) (s : LayerSpec) : M S (list Reason) :=
  let dtype := reason_if (negb (bool_decide (ls_dtype s ∈ supported_dtypes b))) UnsupportedDtype in
  let head := reason_if (negb (supports_head_size b (ls_head_size s))) UnsupportedHeadSize in
  if (ls_num_kv_heads s =? 0)%Z then raise ZeroDivisionError else
  let groups := reason_if (negb (ls_num_heads s mod ls_num_kv_heads s =? 0)%Z) HeadsDoNotGroup in
  let kinds := reason_if (negb (bool_decide (kind s ∈ supported_kinds b))) UnsupportedKind in
  let latent := match b with
    | FlashMLABackend => reason_if (negb (ls_latent_dim s =? 0)%Z && negb (ls_latent_dim s =? 576)%Z) LatentWidth
    | _ => [] end in
  ret (dtype ++ head ++ groups ++ kinds ++ latent).

Definition unsupported {S} (env : Environ) (m : Machine) (b : Backend) (s : LayerSpec) : M S (list Reason) :=
  let! a := is_available env m b in
  if a then validate b s else ret [NotAvailable].

(** [next(b for b in BACKENDS if not _unsupported(b, spec))]. *)
Fixpoint first_supported {S} (env : Environ) (m : Machine) (bs : list Backend) (s : LayerSpec) : M S Backend :=
  match bs with
  | [] => raise (ExternalError "StopIteration")
  | b :: bs' =>
      let! reasons := unsupported env m b s in
      match reasons with [] => ret b | _ => first_supported env m bs' s end
  end.

Definition by_name (name : string) : option Backend :=
  match filter (fun b => get_name b = name) BACKENDS with b :: _ => Some b | [] => None end.

(** A backend asked for by name. *)
Definition requested {S} (env : Environ) (m : Machine) (s : LayerSpec) (name : string) : M S Backend :=
  match by_name name with
  | None => raise (ValueError ("unknown attention backend '" +:+ name +:+ "'"))
  | Some b =>
      let! reasons := unsupported env m b s in
      match reasons with
      | [] => ret b
      | _ => raise (RuntimeError ("attention backend '" +:+ name +:+ "' was requested but cannot serve"))
      end
  end.

Definition get_attention_backend {S} (env : Environ) (m : Machine) (s : LayerSpec) (name : option string) : M S Backend :=
  let given := match name with Some n => if bool_decide (n = EmptyString) then None else Some n | None => None end in
  match given with
  | Some n => requested env m s n
  | None =>
      match LEAN_VLLM_ATTENTION_BACKEND env with
      | Some n => requested env m s n
      | None => first_supported env m BACKENDS s
      end
  end.

(** ** Models *)

(** The fields of the checkpoint's config that are read. *)
Record HFConfig := {
  architectures : option (list string);
  num_nextn_predict_layers : option Z;
  max_position_embeddings : Z;
  kv_lora_rank : option Z;
  qk_nope_head_dim : Z;
  qk_rope_head_dim : Z;
  hf_num_attention_heads : Z;
  hf_dtype : Dtype
}.

Inductive ModelClass := DeepseekV2ForCausalLM | DeepseekV3ForCausalLM | Qwen3ForCausalLM.

Definition MODELS : list (string * ModelClass) :=
  [("DeepseekV2ForCausalLM", DeepseekV2ForCausalLM); ("DeepseekV3ForCausalLM", DeepseekV3ForCausalLM);
   ("Qwen3ForCausalLM", Qwen3ForCausalLM)]%string.

Definition DRAFTERS : list (string * unit) := [("DeepseekV3ForCausalLM"%string, tt)].

Definition supports_expert_parallel (m : ModelClass) : bool :=
  match m with Qwen3ForCausalLM => false | _ => true end.

Fixpoint assoc {A} (l : list (string * A)) (k : string) : option A :=
  match l with [] => None | (k', v) :: l' => if bool_decide (k' = k) then Some v else assoc l' k end.

(** The first architecture that a registry has. *)
Fixpoint first_known {A} (registry : list (string * A)) (names : list string) : option A :=
  match names with
  | [] => None
  | a :: names' => match assoc registry a with Some v => Some v | None => first_known registry names' end
  end.

Definition get_model_class {S} (c : HFConfig) : M S ModelClass :=
  or_raise (first_known MODELS (default [] (architectures c))) (ValueError "unsupported architectures").

Definition get_drafter_class {S} (c : HFConfig) : M S unit :=
  match first_known DRAFTERS (default [] (architectures c)), num_nextn_predict_layers c with
  | Some d, Some n => if (n =? 0)%Z then raise (ValueError "MTP needs multi-token prediction layers") else ret d
  | _, _ => raise (ValueError "MTP needs multi-token prediction layers")
  end.

(** ** The configuration *)

Definition CUDAGRAPH_MODES : list string := ["none"%string] ++ FULL_MODES ++ ["piecewise"%string].

(** The names [HASH_ALGOS] has. *)
Definition HASH_ALGO_NAMES : list string := ["sha256"; "xxhash"].

Record Config := {
  cg_model : string;
  cg_max_num_batched_tokens : Z;
  cg_max_num_seqs : Z;
  cg_max_model_len : Z;
  cg_gpu_memory_utilization : Qc;
  cg_kvcache_memory_gb : Qc;
  cg_tensor_parallel_size : Z;
  cg_enable_expert_parallel : bool;
  cg_enforce_eager : bool;
  cg_cudagraph_mode : string;
  cg_hf_config : option HFConfig;
  cg_eos : Z;
  cg_kvcache_block_size : Z;
  cg_num_kvcache_blocks : Z;
  cg_enable_chunked_prefill : bool;
  cg_enable_prefix_caching : bool;
  cg_async_scheduling : bool;
  cg_seed : Z;
  cg_prefix_caching_hash_algo : string;
  cg_scheduling_policy : string;
  cg_long_prefill_token_threshold : Z;
  cg_dist_port : Z;
  cg_kv_transfer_config : string;
  cg_kv_transfer : option KVTransferConfig;
  cg_speculative_config : string;
  cg_speculative : option SpeculativeConfig
}.

#[export] Instance eta_Config : Eta Config := fun c =>
  Build_Config (cg_model c) (cg_max_num_batched_tokens c) (cg_max_num_seqs c) (cg_max_model_len c)
    (cg_gpu_memory_utilization c) (cg_kvcache_memory_gb c) (cg_tensor_parallel_size c)
    (cg_enable_expert_parallel c) (cg_enforce_eager c) (cg_cudagraph_mode c) (cg_hf_config c)
    (cg_eos c) (cg_kvcache_block_size c) (cg_num_kvcache_blocks c) (cg_enable_chunked_prefill c)
    (cg_enable_prefix_caching c) (cg_async_scheduling c) (cg_seed c) (cg_prefix_caching_hash_algo c)
    (cg_scheduling_policy c) (cg_long_prefill_token_threshold c) (cg_dist_port c)
    (cg_kv_transfer_config c) (cg_kv_transfer c) (cg_speculative_config c) (cg_speculative c).

(** The settings that are not given. *)
Definition new_Config (model : string) : Config := {|
  cg_model := model;
  cg_max_num_batched_tokens := 8192;
  cg_max_num_seqs := 1024;
  cg_max_model_len := 4096;
  cg_gpu_memory_utilization := Q2Qc (QArith_base.Qmake 9 10);
  cg_kvcache_memory_gb := Q2Qc (QArith_base.Qmake 2 1);
  cg_tensor_parallel_size := 1;
  cg_enable_expert_parallel := false;
  cg_enforce_eager := false;
  cg_cudagraph_mode := "full_and_piecewise";
  cg_hf_config := None;
  cg_eos := -1;
  cg_kvcache_block_size := 16;
  cg_num_kvcache_blocks := -1;
  cg_enable_chunked_prefill := true;
  cg_enable_prefix_caching := true;
  cg_async_scheduling := true;
  cg_seed := 0;
  cg_prefix_caching_hash_algo := "sha256";
  cg_scheduling_policy := "fcfs";
  cg_long_prefill_token_threshold := 0;
  cg_dist_port := 0;
  cg_kv_transfer_config := "";
  cg_kv_transfer := None;
  cg_speculative_config := "";
  cg_speculative := None
|}.

(** What the checks read of the machine: directories, a free port, checkpoints, and the parsers of the two JSON
    settings, pydantic's. *)
Record Outside := {
  os_environ : Environ;
  os_machine : Machine;
  os_isdir : string -> bool;
  os_free_port : Z;
  os_pretrained : string -> exn + HFConfig;
  os_kv_json : string -> exn + KVTransferConfig;
  os_spec_json : string -> exn + SpeculativeConfig
}.

Definition absent {A} (o : option A) : bool := match o with None => true | Some _ => false end.

Definition from_sum {S A} (r : exn + A) : M S A := match r with inr a => ret a | inl e => raise e end.

Definition kv_cache_layout (o : Outside) (c : Config) : string :=
  match cg_kv_transfer c with Some _ => "HND"%string | None => LEAN_VLLM_KV_CACHE_LAYOUT (os_environ o) end.

Definition mla_layer_spec {S} (c : Config) (h : HFConfig) (rank : Z) : M S LayerSpec :=
  if (cg_tensor_parallel_size c =? 0)%Z then raise ZeroDivisionError else
  let num_heads := (hf_num_attention_heads h / cg_tensor_parallel_size c)%Z in
  ret {| ls_head_size := qk_nope_head_dim h + qk_rope_head_dim h; ls_num_heads := num_heads;
         ls_num_kv_heads := num_heads; ls_dtype := hf_dtype h; ls_latent_dim := rank + qk_rope_head_dim h |}.

(** An MLA model's page size follows its backend's. *)
Definition fit_block_size (o : Outside) (h : HFConfig) : M Config unit :=
  match kv_lora_rank h with
  | None => ret tt
  | Some rank =>
      let! c := gets id in
      let! spec := mla_layer_spec c h rank in
      let! b := get_attention_backend (os_environ o) (os_machine o) spec None in
      match mla_block_size b with
      | Some n => when (negb (n =? 0)%Z && negb (n =? cg_kvcache_block_size c)%Z)
                    (modify (fun c => c <| cg_kvcache_block_size := n |>))
      | None => ret tt
      end
  end.

Definition post_init (o : Outside) : M Config unit :=
  let! c := gets id in
  assert_ (os_isdir o (cg_model c)) "";;;
  assert_ (cg_kvcache_block_size c mod 16 =? 0)%Z "";;;
  assert_ (bool_decide (cg_cudagraph_mode c ∈ CUDAGRAPH_MODES)) "unknown cudagraph_mode";;;
  assert_ (bool_decide (cg_prefix_caching_hash_algo c ∈ HASH_ALGO_NAMES)) "unknown prefix_caching_hash_algo";;;
  assert_ ((1 <=? cg_tensor_parallel_size c)%Z && (cg_tensor_parallel_size c <=? 8)%Z) "";;;
  when (negb (bool_decide (cg_kv_transfer_config c = EmptyString)) && absent (cg_kv_transfer c))
    (let! kv := from_sum (os_kv_json o (cg_kv_transfer_config c)) in
     let! kv := from_sum (parse_kv_transfer_config kv) in
     modify (fun c => c <| cg_kv_transfer := Some kv |>));;;
  let! c := gets id in
  assert_ (bool_decide (kv_cache_layout o c ∈ ["NHD"; "HND"]%string)) "unknown kv cache layout";;;
  when (cg_dist_port c =? 0)%Z (modify (fun c => c <| cg_dist_port := os_free_port o |>));;;
  let! h := from_sum (os_pretrained o (cg_model c)) in
  modify (fun c => c <| cg_hf_config := Some h |>);;;
  (if cg_enable_expert_parallel c then
     let! m := get_model_class h in
     if supports_expert_parallel m then ret tt else raise (ValueError "enable_expert_parallel needs a MoE model")
   else ret tt);;;
  when (negb (bool_decide (cg_speculative_config c = EmptyString)) && absent (cg_speculative c))
    (let! s := from_sum (os_spec_json o (cg_speculative_config c)) in
     modify (fun c => c <| cg_speculative := Some s |>));;;
  let! c := gets id in
  (match cg_speculative c with
   | None => ret tt
   | Some _ =>
       get_drafter_class h;;;
       match cg_kv_transfer c with
       | Some _ => raise (ValueError "speculative decoding runs without kv_transfer_config, for now")
       | None => ret tt
       end
   end);;;
  modify (fun c => c <| cg_max_model_len ::= Z.min (max_position_embeddings h) |>);;;
  fit_block_size o h.

(** ** What is accepted *)

(** PyTorch's backend serves the rest: a layer of a dtype it has, whose heads group. *)
Definition TorchServes (s : LayerSpec) : Prop :=
  ls_dtype s ∈ [float32; float16; bfloat16] /\ ls_num_kv_heads s <> 0%Z /\ (ls_num_heads s mod ls_num_kv_heads s = 0)%Z.

(** The device is one the engine knows. *)
Definition DeviceOk (env : Environ) (m : Machine) : Prop :=
  match LEAN_VLLM_DEVICE env with
  | Some name => exists d, torch_device m name = inr d /\ d ∈ ["cpu"; "cuda"]%string
  | None => True
  end.

(** A computation that only returns. *)
Definition returns {S A} (m : M S A) (a : A) : Prop := forall s, m s = (inr a, s).

Lemma returns_ret {S A} (a : A) : returns (S := S) (ret a) a.
Proof. done. Qed.

Lemma returns_bind {S A B} (m : M S A) (k : A -> M S B) a b : returns m a -> returns (k a) b -> returns (bind m k) b.
Proof. intros Hm Hk s. unfold bind. by rewrite Hm. Qed.

Lemma get_device_ok {S} env m : DeviceOk env m -> exists d, returns (S := S) (get_device env m) d.
Proof.
  unfold DeviceOk, get_device. destruct (LEAN_VLLM_DEVICE env) as [name|]; [|by eexists].
  intros (d & -> & Hd). rewrite bool_decide_true by done. by eexists.
Qed.

Lemma fa3_available_ok {S} env m : DeviceOk env m -> exists b, returns (S := S) (fa3_available env m) b.
Proof.
  intros Hd. unfold fa3_available. destruct (negb _); [by eexists|]. destruct (get_device_ok (S := S) env m Hd) as [d Hg].
  eexists. by eapply returns_bind.
Qed.

Lemma is_available_ok {S} env m b : DeviceOk env m -> exists a, returns (S := S) (is_available env m b) a.
Proof.
  intros Hd. destruct b; simpl; try by eexists.
  - destruct (imports m "flash_mla"); [by apply fa3_available_ok|by eexists].
  - by apply fa3_available_ok.
  - destruct (negb _); [by eexists|]. destruct (get_device_ok (S := S) env m Hd) as [d Hg]. eexists. by eapply returns_bind.
Qed.

Lemma unsupported_ok {S} env m b spec : DeviceOk env m -> ls_num_kv_heads spec <> 0%Z ->
  exists r, returns (S := S) (unsupported env m b spec) r.
Proof.
  intros Hd Hk. destruct (is_available_ok (S := S) env m b Hd) as [a Ha].
  assert (exists r, returns (S := S) (if a then validate b spec else ret [NotAvailable]) r) as [r Hr].
  { destruct a; [|by eexists]. unfold validate. destruct (Z.eqb_spec (ls_num_kv_heads spec) 0); [done|]. by eexists. }
  exists r. by eapply returns_bind.
Qed.

Lemma torch_serves {S} env m spec : TorchServes spec -> returns (S := S) (unsupported env m TorchAttention spec) [].
Proof.
  intros (Hd & Hk & Hg) s. unfold unsupported, bind. simpl. unfold validate. destruct (Z.eqb_spec (ls_num_kv_heads spec) 0); [done|].
  unfold ret. do 2 f_equal. cbn [supported_dtypes supports_head_size supported_kinds]. rewrite (bool_decide_true _ Hd), Hg. simpl.
  rewrite bool_decide_true; [done|]. unfold kind. destruct (_ =? _)%Z; repeat constructor.
Qed.

(** The first backend in the order that can serve the layer. *)
Lemma first_supported_spec {S} (s0 : S) env m spec bs : DeviceOk env m -> ls_num_kv_heads spec <> 0%Z -> TorchAttention ∈ bs ->
  TorchServes spec -> exists b, returns (S := S) (first_supported env m bs spec) b /\
    exists l k, bs = l ++ b :: k /\ returns (S := S) (unsupported env m b spec) [] /\
      Forall (fun x => exists e r, returns (S := S) (unsupported env m x spec) (e :: r)) l.
Proof.
  intros Hd Hk Hin Ht. induction bs as [|b bs IH]; [by apply elem_of_nil in Hin|].
  destruct (unsupported_ok (S := S) env m b spec Hd Hk) as [[|e r] Hr].
  - exists b. split; [by eapply returns_bind; [exact Hr|]|]. by exists [], bs.
  - apply elem_of_cons in Hin as [<-|Hin].
    { pose proof (torch_serves (S := S) env m spec Ht s0) as Hs. by rewrite (Hr s0) in Hs. }
    destruct (IH Hin) as (b' & Hb & l & k & -> & Hs & Hl). exists b'. split; [by eapply returns_bind; [exact Hr|]|].
    exists (b :: l), k. split_and!; [done|done|]. constructor; [by exists e, r|done].
Qed.

(** The backend serves the layer: it runs on the machine, and has the layer's dtype, its head size, its grouping of
    heads, its kind and its latents' width. *)
Record Serves (env : Environ) (m : Machine) (b : Backend) (s : LayerSpec) : Prop := {
  sv_available : is_available env m b tt = (inr true, tt);
  sv_dtype : ls_dtype s ∈ supported_dtypes b;
  sv_head : supports_head_size b (ls_head_size s) = true;
  sv_heads : ls_num_kv_heads s <> 0%Z /\ (ls_num_heads s mod ls_num_kv_heads s = 0)%Z;
  sv_kind : kind s ∈ supported_kinds b;
  sv_latent : b = FlashMLABackend -> ls_latent_dim s ∈ [0; 576]%Z
}.

(** A pure check answers alike in every state. *)
Definition pure {A} (m : forall S, M S A) : Prop := forall S (s : S) T (t : T), (m S s).1 = (m T t).1 /\ (m S s).2 = s.

Lemma pure_bind {A B} (m : forall S, M S A) (k : forall S, A -> M S B) : pure m -> (forall a, pure (fun S => k S a)) ->
  pure (fun S => bind (m S) (k S)).
Proof.
  intros Hm Hk S s T t. destruct (Hm S s T t) as [He Hs]. destruct (Hm T t S s) as [_ Ht]. unfold bind.
  destruct (m S s) as [[e|a] s1], (m T t) as [[e'|a'] t1]; simpl in *; subst; try done; [by injection He as ->|]. injection He as ->. apply Hk.
Qed.

Lemma pure_device env m : pure (fun S => get_device (S := S) env m).
Proof.
  intros S s T t. unfold get_device. destruct (LEAN_VLLM_DEVICE env); [|done]. destruct (torch_device m s0); [done|]. by destruct (bool_decide _).
Qed.

Lemma pure_fa3 env m : pure (fun S => fa3_available (S := S) env m).
Proof. unfold fa3_available. destruct (negb _); [done|]. by apply pure_bind; [apply pure_device|]. Qed.

Lemma pure_available env m b : pure (fun S => is_available (S := S) env m b).
Proof.
  destruct b; simpl; [destruct (imports m "flash_mla"); [apply pure_fa3|done]|apply pure_fa3| |done].
  destruct (negb _); [done|]. by apply pure_bind; [apply pure_device|].
Qed.

Lemma serves_unsupported {S} env m b spec : Serves env m b spec -> returns (S := S) (unsupported env m b spec) [].
Proof.
  intros [Ha Hd Hh [Hk Hg] Hkd Hl] s. unfold unsupported, bind. destruct (pure_available env m b S s unit tt) as [He Hs].
  rewrite Ha in He. destruct (is_available env m b s) as [o s1]. simpl in *. subst. unfold validate.
  destruct (Z.eqb_spec (ls_num_kv_heads spec) 0); [done|]. unfold ret. do 2 f_equal.
  rewrite (bool_decide_true _ Hd), Hh, Hg, (bool_decide_true _ Hkd). simpl. destruct b; try done.
  specialize (Hl eq_refl). rewrite !elem_of_cons, elem_of_nil in Hl. destruct Hl as [->|[->|[]]]; done.
Qed.

(** A latent layer gets a backend: the one that the environment names, if that one serves it, and without a name
    the last of them serves every layer of its dtypes. *)
Definition BackendServes (o : Outside) (c : Config) (h : HFConfig) (rank : Z) : Prop :=
  match LEAN_VLLM_ATTENTION_BACKEND (os_environ o) with
  | Some name => exists b spec, by_name name = Some b /\ mla_layer_spec c h rank tt = (inr spec, tt) /\
      Serves (os_environ o) (os_machine o) b spec
  | None => DeviceOk (os_environ o) (os_machine o) /\ hf_dtype h ∈ [float32; float16; bfloat16]
  end.

(** The settings that are accepted. *)
Record Accepted (o : Outside) (c : Config) (h : HFConfig) : Prop := {
  ac_dir : os_isdir o (cg_model c) = true;
  ac_block : (cg_kvcache_block_size c mod 16 = 0)%Z;
  ac_mode : cg_cudagraph_mode c ∈ CUDAGRAPH_MODES;
  ac_hash : cg_prefix_caching_hash_algo c ∈ HASH_ALGO_NAMES;
  ac_tp : (1 <= cg_tensor_parallel_size c <= 8)%Z;
  ac_pretrained : os_pretrained o (cg_model c) = inr h;
  ac_kv : cg_kv_transfer_config c <> EmptyString -> cg_kv_transfer c = None ->
    exists kv, os_kv_json o (cg_kv_transfer_config c) = inr kv /\ kv_connector kv ∈ CONNECTORS;
  ac_layout : cg_kv_transfer_config c = EmptyString -> cg_kv_transfer c = None ->
    LEAN_VLLM_KV_CACHE_LAYOUT (os_environ o) ∈ ["NHD"; "HND"]%string;
  ac_experts : cg_enable_expert_parallel c = true ->
    exists m, first_known MODELS (default [] (architectures h)) = Some m /\ supports_expert_parallel m = true;
  ac_spec : cg_speculative_config c <> EmptyString -> cg_speculative c = None ->
    exists s, os_spec_json o (cg_speculative_config c) = inr s;
  ac_drafter : cg_speculative_config c <> EmptyString \/ cg_speculative c <> None ->
    first_known DRAFTERS (default [] (architectures h)) = Some tt /\
    (exists n, num_nextn_predict_layers h = Some n /\ n <> 0%Z) /\
    cg_kv_transfer_config c = EmptyString /\ cg_kv_transfer c = None;
  ac_backend rank : kv_lora_rank h = Some rank ->
    (cg_tensor_parallel_size c <= hf_num_attention_heads h)%Z /\ BackendServes o c h rank
}.

(** What the engine is then built on. *)
Record Checked (o : Outside) (c : Config) (h : HFConfig) (c' : Config) : Prop := {
  ck_hf : cg_hf_config c' = Some h;
  ck_len : cg_max_model_len c' = Z.min (max_position_embeddings h) (cg_max_model_len c);
  ck_block : (cg_kvcache_block_size c' mod 16 = 0)%Z;
  ck_layout : kv_cache_layout o c' = "NHD"%string \/ kv_cache_layout o c' = "HND"%string;
  ck_kv : cg_kv_transfer c' <> None -> kv_cache_layout o c' = "HND"%string /\ cg_speculative c' = None;
  ck_spec : cg_speculative_config c <> EmptyString -> cg_speculative c' <> None;
  ck_mla rank : kv_lora_rank h = Some rank -> exists spec b,
    mla_layer_spec c' h rank c' = (inr spec, c') /\
    get_attention_backend (os_environ o) (os_machine o) spec None c' = (inr b, c') /\
    forall n, mla_block_size b = Some n -> cg_kvcache_block_size c' = n;
  ck_rest : cg_tensor_parallel_size c' = cg_tensor_parallel_size c /\ cg_max_num_seqs c' = cg_max_num_seqs c /\
    cg_max_num_batched_tokens c' = cg_max_num_batched_tokens c
}.


Lemma from_sum_ok {S A} (r : exn + A) a (s : S) Q : r = inr a -> Q a s -> wp (from_sum r) s Q.
Proof. intros -> HQ. by apply wp_ret. Qed.

Lemma wp_det {S A} (m : M S A) s a s' (Q : A -> S -> Prop) : m s = (inr a, s') -> Q a s' -> wp m s Q.
Proof. unfold wp. by intros ->. Qed.

Lemma mla_spec_serves c h rank : (1 <= cg_tensor_parallel_size c)%Z ->
  (cg_tensor_parallel_size c <= hf_num_attention_heads h)%Z -> hf_dtype h ∈ [float32; float16; bfloat16] ->
  exists spec, (forall S (s : S), mla_layer_spec c h rank s = (inr spec, s)) /\ TorchServes spec.
Proof.
  intros H1 Hle Hd. unfold mla_layer_spec. destruct (Z.eqb_spec (cg_tensor_parallel_size c) 0); [lia|].
  eexists. split; [reflexivity|]. split_and!; simpl; [done| |apply Z.mod_same].
  all: enough (1 <= hf_num_attention_heads h / cg_tensor_parallel_size c)%Z by lia; apply Z.div_le_lower_bound; lia.
Qed.

Lemma backend_for {S} (s0 : S) o c h rank : (1 <= cg_tensor_parallel_size c)%Z ->
  (cg_tensor_parallel_size c <= hf_num_attention_heads h)%Z -> BackendServes o c h rank ->
  exists spec b, (forall T (t : T), mla_layer_spec c h rank t = (inr spec, t)) /\
    returns (S := S) (get_attention_backend (os_environ o) (os_machine o) spec None) b.
Proof.
  intros H1 Hle Hb. unfold BackendServes in Hb. unfold get_attention_backend. destruct (LEAN_VLLM_ATTENTION_BACKEND (os_environ o)) as [name|].
  - destruct Hb as (b & spec & Hn & Hs & Hv). exists spec, b. split.
    + intros T t. unfold mla_layer_spec in *. destruct (_ =? 0)%Z; [done|]. by injection Hs as <-.
    + intros s. unfold requested. rewrite Hn. unfold bind. by rewrite (serves_unsupported _ _ _ _ Hv).
  - destruct Hb as [Hd Ht]. destruct (mla_spec_serves c h rank H1 Hle Ht) as (spec & Hs & Hts). pose proof Hts as (_ & Hk & _).
    destruct (first_supported_spec s0 (os_environ o) (os_machine o) spec BACKENDS Hd Hk ltac:(repeat constructor) Hts)
      as (b & Hb & _). by exists spec, b.
Qed.

Lemma kv_step o c : (cg_kv_transfer_config c <> EmptyString -> cg_kv_transfer c = None ->
    exists kv, os_kv_json o (cg_kv_transfer_config c) = inr kv /\ kv_connector kv ∈ CONNECTORS) ->
  wp (when (negb (bool_decide (cg_kv_transfer_config c = EmptyString)) && absent (cg_kv_transfer c))
    (let! kv := from_sum (os_kv_json o (cg_kv_transfer_config c)) in
     let! kv := from_sum (parse_kv_transfer_config kv) in
     modify (fun c => c <| cg_kv_transfer := Some kv |>))) c (fun _ c1 => exists k, c1 = c <| cg_kv_transfer := k |> /\
       (k = None <-> cg_kv_transfer_config c = EmptyString /\ cg_kv_transfer c = None)).
Proof.
  intros Hkv. apply wp_when.
  - intros Hb. apply andb_true_iff in Hb as [Hne%negb_true_iff%bool_decide_eq_false Ha].
    destruct (cg_kv_transfer c) eqn:Hk; [done|]. destruct (Hkv Hne eq_refl) as (kv & Hj & Hc).
    apply wp_bind, from_sum_ok with kv; [done|]. apply wp_bind, from_sum_ok with kv.
    { unfold parse_kv_transfer_config. by rewrite bool_decide_true. }
    apply wp_modify. exists (Some kv). split; [done|]. split; [done|]. by intros [? _].
  - intros Hb. exists (cg_kv_transfer c). split; [by destruct c|]. destruct (cg_kv_transfer c); [by split; intros; naive_solver|].
    simpl in Hb. rewrite andb_true_r in Hb. apply negb_false_iff, bool_decide_eq_true in Hb. naive_solver.
Qed.

Lemma spec_step o c st : cg_speculative st = cg_speculative c ->
  (cg_speculative_config c <> EmptyString -> cg_speculative c = None ->
    exists s, os_spec_json o (cg_speculative_config c) = inr s) ->
  wp (when (negb (bool_decide (cg_speculative_config c = EmptyString)) && absent (cg_speculative c))
    (let! s := from_sum (os_spec_json o (cg_speculative_config c)) in
     modify (fun c => c <| cg_speculative := Some s |>))) st (fun _ c1 => exists k, c1 = st <| cg_speculative := k |> /\
       (k = None <-> cg_speculative_config c = EmptyString /\ cg_speculative c = None)).
Proof.
  intros Hst Hs. apply wp_when.
  - intros Hb. apply andb_true_iff in Hb as [Hne%negb_true_iff%bool_decide_eq_false Ha].
    destruct (cg_speculative c) eqn:Hk; [done|]. destruct (Hs Hne eq_refl) as (s & Hj).
    apply wp_bind, from_sum_ok with s; [done|].
    apply wp_modify. exists (Some s). split; [done|]. split; [done|]. by intros [? _].
  - intros Hb. exists (cg_speculative st). split; [by destruct st|]. rewrite Hst.
    destruct (cg_speculative c); [by split; intros; naive_solver|].
    simpl in Hb. rewrite andb_true_r in Hb. apply negb_false_iff, bool_decide_eq_true in Hb. naive_solver.
Qed.

(** The page size is the backend's. *)
Lemma fit_step o c h : (1 <= cg_tensor_parallel_size c)%Z ->
  (forall rank, kv_lora_rank h = Some rank -> (cg_tensor_parallel_size c <= hf_num_attention_heads h)%Z /\ BackendServes o c h rank) ->
  wp (fit_block_size o h) c (fun _ c' => exists n, c' = c <| cg_kvcache_block_size := n |> /\
    (n = cg_kvcache_block_size c \/ n = 64%Z) /\
    forall rank, kv_lora_rank h = Some rank -> exists spec b,
      (forall T (t : T), mla_layer_spec c h rank t = (inr spec, t)) /\
      returns (S := Config) (get_attention_backend (os_environ o) (os_machine o) spec None) b /\
      forall m, mla_block_size b = Some m -> n = m).
Proof.
  intros H1 Hb. unfold fit_block_size. destruct (kv_lora_rank h) as [rank|].
  2: { apply wp_ret. exists (cg_kvcache_block_size c). split; [by destruct c|]. split; [by left|done]. }
  destruct (Hb rank eq_refl) as (Hle & Hsv). destruct (backend_for c o c h rank H1 Hle Hsv) as (spec & b & Hs & Hg).
  wp_steps. unfold id. eapply wp_det; [apply Hs|]. apply wp_bind. eapply wp_det; [apply Hg|].
  assert (Hsame : mla_block_size b = None \/ mla_block_size b = Some 64%Z) by (destruct b; simpl; auto).
  assert (Hdone : forall n, (n = cg_kvcache_block_size c \/ n = 64%Z) -> (forall m, mla_block_size b = Some m -> n = m) ->
    exists n0, c <| cg_kvcache_block_size := n |> = c <| cg_kvcache_block_size := n0 |> /\
    (n0 = cg_kvcache_block_size c \/ n0 = 64%Z) /\ forall rank', Some rank = Some rank' -> exists spec b,
      (forall T (t : T), mla_layer_spec c h rank' t = (inr spec, t)) /\
      returns (S := Config) (get_attention_backend (os_environ o) (os_machine o) spec None) b /\
      forall m, mla_block_size b = Some m -> n0 = m).
  { intros n Hor Hm. exists n. split_and!; [done|done|]. intros rank' [= <-]. by exists spec, b. }
  assert (Hid : c <| cg_kvcache_block_size := cg_kvcache_block_size c |> = c) by by destruct c.
  destruct Hsame as [Hm|Hm]; rewrite Hm.
  - apply wp_ret. pose proof (Hdone (cg_kvcache_block_size c)) as Hd'. rewrite Hid in Hd'. apply Hd'; [by left|]. by rewrite Hm.
  - apply wp_when; intros Hb'.
    + apply wp_modify, Hdone; [by right|]. rewrite Hm. by intros m [= <-].
    + change (negb (64 =? 0)%Z) with true in Hb'. cbn [andb] in Hb'. apply negb_false_iff, Z.eqb_eq in Hb'. pose proof (Hdone (cg_kvcache_block_size c)) as Hd'.
      rewrite Hid in Hd'. apply Hd'; [by left|]. rewrite Hm. by intros m [= <-].
Qed.

(** An accepted configuration is checked. *)
Lemma post_init_ok o c h : Accepted o c h -> wp (post_init o) c (fun _ c' => Checked o c h c').
Proof.
  intros [Hdir Hblk Hmode Hhash Htp Hpre Hkv Hlay Hep Hsp Hdr Hbk]. unfold post_init. wp_steps; unfold id.
  all: try by apply bool_decide_eq_true. all: try done.
  { by apply Z.eqb_eq. }
  { apply andb_true_iff. split; apply Z.leb_le; lia. }
  eapply wp_mono; [by apply kv_step|]. intros _ c1 (kv & -> & Hkn). wp_steps; unfold id.
  { apply bool_decide_eq_true. unfold kv_cache_layout. simpl. destruct kv; [by repeat constructor|]. naive_solver. }
  eapply wp_mono with (P := fun _ c1 => exists p, c1 = c <| cg_kv_transfer := kv |> <| cg_dist_port := p |>).
  { apply wp_when; intros _; [apply wp_modify; by eexists|]. exists (cg_dist_port c). by destruct c. }
  intros _ c1 (port & ->). wp_step. apply from_sum_ok with h; [done|]. wp_steps.
  eapply wp_mono with (P := fun _ c1 => c1 = c <| cg_kv_transfer := kv |> <| cg_dist_port := port |> <| cg_hf_config := Some h |>).
  { destruct (cg_enable_expert_parallel _) eqn:He; [|by apply wp_ret]. destruct (Hep eq_refl) as (m & Hm & Hs).
    apply wp_bind, wp_or_raise with m; [done|]. rewrite Hs. by apply wp_ret. }
  intros _ c1 ->. wp_step. eapply wp_mono; [by apply (spec_step o (c <| cg_kv_transfer := kv |>))|].
  intros _ c1 (sp & -> & Hspn). wp_steps; unfold id. cbn [cg_speculative cg_kv_transfer].
  eapply wp_mono with (P := fun _ c1 => c1 = c <| cg_kv_transfer := kv |> <| cg_dist_port := port |>
    <| cg_hf_config := Some h |> <| cg_speculative := sp |> /\ (kv <> None -> sp = None)).
  { simpl. destruct sp as [sp|]; [|by apply wp_ret].
    destruct (Hdr) as (Ha & (n & Hn & Hn0) & Hk1 & Hk2).
    { destruct (decide (cg_speculative_config c = EmptyString)); [|by left]. right. intros Hc. discriminate (proj2 Hspn (conj e Hc)). }
    apply wp_bind. unfold get_drafter_class. rewrite Ha, Hn. destruct (Z.eqb_spec n 0); [done|]. apply wp_ret.
    rewrite (proj2 Hkn (conj Hk1 Hk2)). by apply wp_ret. }
  intros _ c1 [-> Hexcl]. wp_steps.
  eapply wp_mono; [apply fit_step; simpl; [lia|exact Hbk]|]. intros _ c1 (n & -> & Hn & Hmla). cbn [cg_kvcache_block_size] in Hn. simpl in Hn.
  split; simpl; try done.
  - destruct Hn as [->| ->]; [done|by compute].
  - unfold kv_cache_layout. simpl. destruct kv; [by right|]. specialize (Hlay (proj1 (proj1 Hkn eq_refl)) (proj2 (proj1 Hkn eq_refl))).
    rewrite !elem_of_cons in Hlay. destruct Hlay as [->|[->|Hl]]; [by left|by right|by apply elem_of_nil in Hl].
  - intros Hne. split; [|by apply Hexcl]. unfold kv_cache_layout. simpl. by destruct kv.
  - intros Hne Hs. by destruct (proj1 Hspn Hs).
  - intros rank Hr. destruct (Hmla rank Hr) as (spec & b & Hs & Hg & Hm). exists spec, b. split_and!; [apply Hs|apply Hg|exact Hm].
Qed.

Lemma HASH_ALGO_NAMES_ok `{SeqSettings} (algo : string) : is_Some (HASH_ALGOS !! algo) <-> algo ∈ HASH_ALGO_NAMES.
Proof.
  unfold HASH_ALGOS, HASH_ALGO_NAMES. rewrite lookup_insert_is_Some, lookup_singleton_is_Some, !elem_of_cons, elem_of_nil.
  destruct (decide ("sha256" = algo)%string); naive_solver.
Qed.

(** ** What is never let through *)

(** An engine's configuration, however it was asked for. *)
Record Sound (o : Outside) (c' : Config) : Prop := {
  sn_dir : os_isdir o (cg_model c') = true;
  sn_block : (cg_kvcache_block_size c' mod 16 = 0)%Z;
  sn_mode : cg_cudagraph_mode c' ∈ CUDAGRAPH_MODES;
  sn_hash : cg_prefix_caching_hash_algo c' ∈ HASH_ALGO_NAMES;
  sn_tp : (1 <= cg_tensor_parallel_size c' <= 8)%Z;
  sn_layout : kv_cache_layout o c' ∈ ["NHD"; "HND"]%string;
  sn_spec : cg_speculative c' <> None -> cg_kv_transfer c' = None;
  sn_model : exists h, os_pretrained o (cg_model c') = inr h /\ cg_hf_config c' = Some h /\
    (cg_max_model_len c' <= max_position_embeddings h)%Z /\
    (cg_enable_expert_parallel c' = true -> exists m, first_known MODELS (default [] (architectures h)) = Some m /\
      supports_expert_parallel m = true) /\
    (cg_speculative c' <> None -> first_known DRAFTERS (default [] (architectures h)) = Some tt /\
      exists n, num_nextn_predict_layers h = Some n /\ n <> 0%Z)
}.

Section Ends.
Context {S : Type}.
Implicit Types (s : S).
Local Notation "'any'" := (fun _ => True).

Lemma ends_ret {A} (a : A) s Q : Q a s -> ends (ret a) s Q any.
Proof. done. Qed.

Lemma ends_raise {A} e s (Q : A -> S -> Prop) : ends (raise e) s Q any.
Proof. done. Qed.

Lemma ends_modify (f : S -> S) s Q : Q tt (f s) -> ends (modify f) s Q any.
Proof. done. Qed.

Lemma ends_gets {A} (f : S -> A) s Q : Q (f s) s -> ends (gets f) s Q any.
Proof. done. Qed.

Lemma ends_assert b msg s Q : (b = true -> Q tt s) -> ends (assert_ b msg) s Q any.
Proof. destruct b; [|done]. intros H. by apply H. Qed.

Lemma ends_from_sum {A} (r : exn + A) s Q : (forall a, r = inr a -> Q a s) -> ends (from_sum r) s Q any.
Proof. destruct r; [done|]. intros H. by apply H. Qed.

Lemma ends_when b (m : M S unit) s Q : (b = true -> ends m s Q any) -> (b = false -> Q tt s) -> ends (when b m) s Q any.
Proof. destruct b; [intros H _; by apply H|intros _ H; by apply H]. Qed.

(** A computation that leaves the state alone, whatever it does. *)
Definition reads {A} (m : M S A) : Prop := forall s, (m s).2 = s.

Lemma reads_bind {A B} (m : M S A) (k : A -> M S B) : reads m -> (forall a, reads (k a)) -> reads (bind m k).
Proof. intros Hm Hk s. unfold bind. pose proof (Hm s) as Hs. destruct (m s) as [[e|a] s']; simpl in *; [done|]. by rewrite Hk, Hs. Qed.

Lemma ends_reads {A} (m : M S A) s (Q : A -> S -> Prop) : reads m -> (forall a, m s = (inr a, s) -> Q a s) -> ends m s Q any.
Proof. intros Hm HQ. pose proof (Hm s) as Hs. unfold ends. destruct (m s) as [[e|a] s']; simpl in *; subst; auto. Qed.

Lemma reads_get_device env m : reads (get_device env m).
Proof. intros s. unfold get_device. destruct (LEAN_VLLM_DEVICE env); [|done]. destruct (torch_device m _); [done|]. by destruct (bool_decide _). Qed.

Lemma reads_unsupported env m b spec : reads (unsupported env m b spec).
Proof.
  assert (Hfa : reads (fa3_available env m)).
  { unfold fa3_available. destruct (negb _); [done|]. by apply reads_bind; [apply reads_get_device|]. }
  apply reads_bind.
  - destruct b; simpl; try done; [by destruct (imports m "flash_mla")|]. destruct (negb _); [done|].
    by apply reads_bind; [apply reads_get_device|].
  - intros []; [|done]. unfold validate. by destruct (_ =? 0)%Z.
Qed.

Lemma reads_backend env m spec name : reads (get_attention_backend env m spec name).
Proof.
  assert (Hreq : forall n, reads (requested env m spec n)).
  { intros n. unfold requested. destruct (by_name n); [|done]. apply reads_bind; [apply reads_unsupported|]. by intros [|]. }
  unfold get_attention_backend. destruct (match name with Some n => _ | None => None end); [done|].
  destruct (LEAN_VLLM_ATTENTION_BACKEND env); [done|]. generalize BACKENDS. intros bs. induction bs as [|b bs IH]; [done|].
  simpl. apply reads_bind; [apply reads_unsupported|]. by intros [|].
Qed.

End Ends.

Ltac ends_step :=
  lazymatch goal with
  | |- ends (bind _ _) _ _ _ => apply ends_bind
  | |- ends (gets _) _ _ _ => apply ends_gets
  | |- ends (modify _) _ _ _ => apply ends_modify
  | |- ends (assert_ _ _) _ _ _ => apply ends_assert; let H := fresh "Hassert" in intros H
  | |- ends (raise _) _ _ _ => apply ends_raise
  | |- ends (ret _) _ _ _ => apply ends_ret
  end.

(** The page size is the one asked for or the one page size that a kernel reads. *)
Lemma fit_sound o c h : ends (fit_block_size o h) c (fun _ c' => exists n, c' = c <| cg_kvcache_block_size := n |> /\
  (n = cg_kvcache_block_size c \/ n = 64%Z)) (fun _ => True).
Proof.
  assert (Hid : exists n, c = c <| cg_kvcache_block_size := n |> /\ (n = cg_kvcache_block_size c \/ n = 64%Z)).
  { exists (cg_kvcache_block_size c). split; [by destruct c|by left]. }
  unfold fit_block_size. destruct (kv_lora_rank h) as [rank|]; [|by ends_step].
  repeat ends_step. apply ends_reads; [unfold mla_layer_spec; intros s; by destruct (_ =? 0)%Z|]. intros spec _.
  repeat ends_step. apply ends_reads; [apply reads_backend|]. intros b _.
  destruct b; simpl; try by ends_step. apply ends_when; [|done]. intros _. ends_step. exists 64%Z. by split; [|right].
Qed.

(** The transfer settings that are kept name the layout. *)
Lemma kv_sound o c : ends (when (negb (bool_decide (cg_kv_transfer_config c = EmptyString)) && absent (cg_kv_transfer c))
    (let! kv := from_sum (os_kv_json o (cg_kv_transfer_config c)) in
     let! kv := from_sum (parse_kv_transfer_config kv) in
     modify (fun c => c <| cg_kv_transfer := Some kv |>))) c
  (fun _ c' => exists kv, c' = c <| cg_kv_transfer := kv |>) (fun _ => True).
Proof.
  apply ends_when; intros _.
  - apply ends_bind, ends_from_sum. intros kv _. apply ends_bind, ends_from_sum. intros kv' _. ends_step. by eexists.
  - exists (cg_kv_transfer c). by destruct c.
Qed.

Lemma spec_sound o c st : ends (when (negb (bool_decide (cg_speculative_config c = EmptyString)) && absent (cg_speculative c))
    (let! s := from_sum (os_spec_json o (cg_speculative_config c)) in
     modify (fun c => c <| cg_speculative := Some s |>))) st
  (fun _ c' => exists sp, c' = st <| cg_speculative := sp |>) (fun _ => True).
Proof.
  apply ends_when; intros _.
  - apply ends_bind, ends_from_sum. intros s _. ends_step. by eexists.
  - exists (cg_speculative st). by destruct st.
Qed.

Lemma expert_sound {S} (b : bool) h (s : S) : ends
  (if b then let! m := get_model_class h in
     if supports_expert_parallel m then ret tt else raise (ValueError "enable_expert_parallel needs a MoE model")
   else ret tt) s
  (fun _ s' => s' = s /\ (b = true -> exists m, first_known MODELS (default [] (architectures h)) = Some m /\
      supports_expert_parallel m = true)) (fun _ => True).
Proof.
  destruct b; [|by ends_step]. ends_step. unfold get_model_class, or_raise. destruct (first_known _ _) as [m|] eqn:Hm; [|done].
  ends_step. destruct (supports_expert_parallel m) eqn:Hs; [|done]. ends_step. split; [done|]. intros _. by exists m.
Qed.

Lemma drafter_sound {S} (sp : option SpeculativeConfig) (kv : option KVTransferConfig) h (s : S) : ends
  (match sp with
   | None => ret tt
   | Some _ =>
       get_drafter_class h;;;
       match kv with
       | Some _ => raise (ValueError "speculative decoding runs without kv_transfer_config, for now")
       | None => ret tt
       end
   end) s
  (fun _ s' => s' = s /\ (sp <> None -> kv = None /\ first_known DRAFTERS (default [] (architectures h)) = Some tt /\ exists n, num_nextn_predict_layers h = Some n /\ n <> 0%Z)) (fun _ => True).
Proof.
  destruct sp; [|by ends_step]. ends_step. unfold get_drafter_class.
  destruct (first_known _ _) as [[]|]; [|done]. destruct (num_nextn_predict_layers h) as [n|] eqn:Hn; [|done].
  destruct (Z.eqb_spec n 0); [done|]. ends_step. destruct kv; [done|]. ends_step. split; [done|]. intros _. split_and!; [done|done|]. by exists n.
Qed.

Lemma post_init_sound o c : ends (post_init o) c (fun _ c' => Sound o c') (fun _ => True).
Proof.
  unfold post_init. do 12 ends_step; cbn beta in *; unfold id in *.
  ends_step. eapply ends_mono; [apply kv_sound| |done]. intros _ ? (kv & ->). do 4 ends_step. cbn beta in *.
  ends_step. eapply ends_mono with (P := fun _ c' => exists p, c' = c <| cg_kv_transfer := kv |> <| cg_dist_port := p |>) (X := fun _ => True).
  { apply ends_when; intros _; [ends_step; by eexists|]. exists (cg_dist_port c). by destruct c. }
  2: done. intros _ ? (p & ->). ends_step. apply ends_from_sum. intros h Hh. ends_step. ends_step.
  ends_step. eapply ends_mono; [apply expert_sound| |done]. intros _ ? (-> & Hep).
  ends_step. eapply ends_mono; [apply (spec_sound o (c <| cg_kv_transfer := kv |>))| |done]. intros _ ? (sp & ->).
  ends_step. ends_step. ends_step. eapply ends_mono; [apply drafter_sound| |done]. intros _ ? (-> & Hdr).
  ends_step. ends_step. eapply ends_mono; [apply fit_sound| |done]. intros _ ? (n & -> & Hn).
  unfold id in *. simpl in *. apply andb_true_iff in Hassert3 as [Ht1%Z.leb_le Ht2%Z.leb_le]. apply Z.eqb_eq in Hassert0.
  apply bool_decide_eq_true_1 in Hassert1, Hassert2, Hassert4.
  split; simpl; [done| |done|done|done|exact Hassert4| |].
  - destruct Hn as [->| ->]; [done|by compute].
  - intros Hsp. by apply Hdr.
  - exists h. split_and!; [done|done|apply Z.le_min_l|done|]. intros Hsp. by apply Hdr.
Qed.

(** ** No backend serves more than PyTorch's *)

Lemma reason_if_nil b r : reason_if b r = [] -> b = false.
Proof. by destruct b. Qed.

Lemma served_is_torch {S} (s : S) env m b spec : DeviceOk env m -> ls_num_kv_heads spec <> 0%Z ->
  unsupported env m b spec s = (inr [], s) -> TorchServes spec.
Proof.
  intros Hd Hk. destruct (is_available_ok (S := S) env m b Hd) as [a Ha]. unfold unsupported, bind. rewrite (Ha s).
  destruct a; [|done]. unfold validate. destruct (Z.eqb_spec (ls_num_kv_heads spec) 0); [done|]. intros Hr.
  injection Hr as Hr. apply app_eq_nil in Hr as [Hdt%reason_if_nil Hr]. apply app_eq_nil in Hr as [_ Hr].
  apply app_eq_nil in Hr as [Hg%reason_if_nil _]. apply negb_false_iff, bool_decide_eq_true in Hdt.
  apply negb_false_iff, Z.eqb_eq in Hg. split_and!; [|done|done].
  destruct b; simpl in Hdt; [set_solver..|exact Hdt].
Qed.

Lemma first_supported_none {S} (s : S) env m bs spec : DeviceOk env m -> ls_num_kv_heads spec <> 0%Z -> ~ TorchServes spec ->
  first_supported env m bs spec s = (inl (ExternalError "StopIteration"), s).
Proof.
  intros Hd Hk Hn. induction bs as [|b bs IH]; [done|]. simpl. unfold bind.
  destruct (unsupported_ok (S := S) env m b spec Hd Hk) as [[|e r] Hr]; rewrite (Hr s); [|done].
  destruct Hn. by apply (served_is_torch s env m b).
Qed.

#[export] Instance TorchServes_dec spec : Decision (TorchServes spec).
Proof. unfold TorchServes. apply _. Defined.
