(* ===== verification/Tensors.v ===== *)
(** * Tensors

    The PyTorch operations the layers use, over exact scalars: a commutative
    ring, so rounding is not modelled. A vector is its list of entries and a
    matrix its list of rows. What PyTorch computes by kernels of its own is in
    the class [Torch], with its documented formulas as laws. *)

From Stdlib Require Export Ring.
From S2P Require Import Prelude.

Class Scalar (F : Type) := {
  fzero : F; fone : F; fadd : F -> F -> F; fmul : F -> F -> F; fsub : F -> F -> F; fopp : F -> F;
  scalar_ring : ring_theory fzero fone fadd fmul fsub fopp eq
}.

Section Tensors.
Context {F : Type} `{Scalar F}.

Definition fsum (l : list F) : F := foldr fadd fzero l.
Definition vadd (x y : list F) : list F := zip_with fadd x y.
Definition vmul (x y : list F) : list F := zip_with fmul x y.
Definition madd (x y : list (list F)) : list (list F) := zip_with vadd x y.
Definition dot (x y : list F) : F := fsum (vmul x y).

(** A matrix whose rows have [n] entries. *)
Definition wide {A} (n : nat) (m : list (list A)) : Prop := Forall (fun r => length r = n) m.

Definition add_bias (b : option (list F)) (y : list F) : list F :=
  match b with Some v => vadd y v | None => y end.

(** A parameter's data: one or two dimensions, the second with its size. *)
Inductive Param := Vec (v : list F) | Mat (cols : nat) (m : list (list F)).

Definition ndim (p : Param) : nat := match p with Vec _ => 1 | Mat _ _ => 2 end.

(** [p.size(d)]. *)
Definition tsize {S} (p : Param) (d : nat) : M S nat :=
  match p, d with
  | Vec v, 0 => ret (length v)
  | Mat _ m, 0 => ret (length m)
  | Mat c _, 1 => ret c
  | _, _ => raise IndexError
  end.

Definition cut {A} (start len : nat) (l : list A) : list A := take len (drop start l).

(** The view of [len] entries of dimension [d]. *)
Definition view_of (d start len : nat) (p : Param) : Param :=
  match p, d with
  | Vec v, _ => Vec (cut start len v)
  | Mat c m, 0 => Mat c (cut start len m)
  | Mat _ m, _ => Mat len (cut start len <$> m)
  end.

(** [p.narrow(d, start, len)]. *)
Definition narrow {S} (d start len : nat) (p : Param) : M S Param :=
  let! n := tsize p d in
  if start + len <=? n then ret (view_of d start len p)
  else raise (RuntimeError "start + length exceeds dimension size").

(** [p.chunk(n, d)]: views of a rounded-up share each, the last ones shorter or missing. *)
Definition chunk {S} (n d : nat) (p : Param) : M S (list Param) :=
  let! size := tsize p d in
  let step := (size + n - 1) / n in
  ret (if size =? 0 then (fun _ => view_of d 0 0 p) <$> seq 0 n
       else (fun i => view_of d (i * step) (min step (size - i * step)) p) <$> seq 0 ((size + step - 1) / step)).

(** Broadcasting a list to [n] entries. *)
Definition expand {A} (n : nat) (l : list A) : option (list A) :=
  if length l =? n then Some l else match l with [x] => Some (replicate n x) | _ => None end.

(** [dst.copy_(src)]: the destination's new data. *)
Definition copied (dst src : Param) : option Param :=
  match dst, src with
  | Vec v, Vec v' => Vec <$> expand (length v) v'
  | Mat c m, Vec v => (fun r => Mat c (replicate (length m) r)) <$> expand c v
  | Mat c m, Mat _ m' => rows ← mapM (expand c) m'; Mat c <$> expand (length m) rows
  | Vec _, Mat _ _ => None
  end.

Definition copy_ {S} (dst src : Param) : M S Param :=
  or_raise (copied dst src) (RuntimeError "the expanded size must match the existing size").

(** Writing a view's data back. *)
Definition splice {A} (start : nat) (new l : list A) : list A :=
  take start l ++ new ++ drop (start + length new) l.

Definition write_view (d start : nat) (new p : Param) : Param :=
  match new, p, d with
  | Vec v, Vec l, _ => Vec (splice start v l)
  | Mat _ m, Mat c l, 0 => Mat c (splice start m l)
  | Mat _ m, Mat c l, _ => Mat c (zip_with (splice start) m l)
  | _, _, _ => p
  end.

(** [param.narrow(d, start, len).copy_(src)], on the parameter. *)
Definition copy_narrow (d start len : nat) (src : Param) : M Param unit :=
  let! p := gets id in
  let! view := narrow d start len p in
  let! new := copy_ view src in
  modify (write_view d start new).

Definition copy_whole (src : Param) : M Param unit :=
  let! p := gets id in
  let! new := copy_ p src in
  modify (fun _ => new).

Definition as_mat (p : Param) : list (list F) := match p with Mat _ m => m | Vec v => [v] end.
Definition as_vec (p : Param) : list F := match p with Vec v => v | Mat _ m => concat m end.

End Tensors.

Arguments Param : clear implicits.

(** What PyTorch computes with code of its own. [linear] is [F.linear],
    [embedding] is [F.embedding], [garbage] the contents of [torch.empty]. *)
Class Torch (F : Type) `{!Scalar F} := {
  linear : list (list F) -> list (list F) -> option (list F) -> list (list F);
  linear_eq x w b n : wide n x -> wide n w -> (forall v, b = Some v -> length v = length w) ->
    linear x w b = (fun r => add_bias b (dot r <$> w)) <$> x;
  embedding : list Z -> list (list F) -> list (list F);
  embedding_eq ids w : Forall (fun i => (0 <= i < Zlen w)%Z) ids ->
    Forall2 (fun i r => w !! Z.to_nat i = Some r) ids (embedding ids w);
  silu : F -> F;
  rsqrt : F -> F;
  mean : list F -> F;
  garbage : nat -> F
}.

Section Shards.
Context {A B C : Type}.

(** The [i]-th of [n] equal shares of a list. *)
Definition shard {A} (n i : nat) (l : list A) : list A := cut (i * (length l / n)) (length l / n) l.

Lemma cut_length {D} start len (l : list D) : length (cut start len l) = min len (length l - start).
Proof. unfold cut. by rewrite length_take, length_drop. Qed.

Lemma cut_fmap {D E} (f : D -> E) start len l : cut start len (f <$> l) = f <$> cut start len l.
Proof. unfold cut. by rewrite <-fmap_drop, <-fmap_take. Qed.

Lemma cut_zip_with {D E G} (f : D -> E -> G) start len l k :
  cut start len (zip_with f l k) = zip_with f (cut start len l) (cut start len k).
Proof. unfold cut. by rewrite zip_with_drop, zip_with_take. Qed.

Lemma cut_lookup {D} start len (l : list D) j : j < len -> cut start len l !! j = l !! (start + j).
Proof. intros Hj. unfold cut. by rewrite lookup_take_lt, lookup_drop by done. Qed.

Lemma cut_cut {D} a n b m (l : list D) : b + m <= n -> cut b m (cut a n l) = cut (a + b) m l.
Proof.
  intros Hb. unfold cut. rewrite take_drop_commute, take_take, Nat.min_l by done.
  by rewrite <-take_drop_commute, drop_drop.
Qed.

Lemma cut_seq a k n : a + k <= n -> cut a k (seq 0 n) = seq a k.
Proof.
  intros Hk. apply list_eq. intros i. destruct (decide (i < k)) as [Hi|Hi].
  - rewrite cut_lookup by done. rewrite !lookup_seq_lt by lia. done.
  - rewrite !lookup_ge_None_2; [done|rewrite length_seq; lia|rewrite cut_length, length_seq; lia].
Qed.

Lemma shard_one {D} (l : list D) : shard 1 0 l = l.
Proof. unfold shard, cut. rewrite Nat.div_1_r. simpl. by rewrite take_ge. Qed.

Lemma shard_length {D} n i k (l : list D) : length l = n * k -> i < n -> length (shard n i l) = k.
Proof.
  intros Hl Hi. unfold shard. rewrite cut_length, Hl, (Nat.mul_comm n k), Nat.div_mul by lia.
  assert (i * k + k <= k * n) by nia. lia.
Qed.

Lemma shard_cut {D} n i k (l : list D) : length l = n * k -> i < n -> shard n i l = cut (i * k) k l.
Proof. intros Hl Hi. unfold shard. by rewrite Hl, (Nat.mul_comm n k), Nat.div_mul by lia. Qed.

Lemma shard_fmap {D E} (f : D -> E) n i l : shard n i (f <$> l) = f <$> shard n i l.
Proof. unfold shard. by rewrite length_fmap, cut_fmap. Qed.

Lemma shard_zip_with {D E G} (f : D -> E -> G) n i l k :
  length l = length k -> shard n i (zip_with f l k) = zip_with f (shard n i l) (shard n i k).
Proof. intros Hl. unfold shard. rewrite length_zip_with, Hl, Nat.min_id. by rewrite cut_zip_with. Qed.

(** The shares make up the list. *)
Lemma cuts_concat {D} n k (l : list D) :
  length l = n * k -> concat ((fun i => cut (i * k) k l) <$> seq 0 n) = l.
Proof.
  revert l. induction n as [|n IH]; intros l Hl; [by destruct l|].
  rewrite seq_S, fmap_app, concat_app. cbn [fmap list_fmap concat]. rewrite app_nil_r.
  rewrite (list_fmap_ext _ (fun i => cut (i * k) k (take (n * k) l)) (seq 0 n)).
  - rewrite IH by (rewrite length_take; lia). unfold cut. rewrite (take_ge (drop _ _)).
    + apply take_drop.
    + rewrite length_drop. lia.
  - intros _ i Hi%list_elem_of_lookup_2%elem_of_seq. unfold cut. rewrite <-(take_drop (n * k) l) at 1.
    assert (i * k + k <= n * k) by nia.
    rewrite drop_app_le, take_app_le; [done|rewrite length_drop, length_take; lia|rewrite length_take; lia].
Qed.

Lemma shards_concat {D} n (l : list D) k :
  length l = n * k -> concat ((fun i => shard n i l) <$> seq 0 n) = l.
Proof.
  intros Hl. etransitivity; [|exact (cuts_concat n k l Hl)]. f_equal. apply list_fmap_ext.
  intros _ i Hi%list_elem_of_lookup_2%elem_of_seq. apply shard_cut; [done|lia].
Qed.

(** A list in pieces of [d] entries: [x.view(-1, d)]. *)
Fixpoint pieces {D} (d : nat) (n : nat) (l : list D) : list (list D) :=
  match n with
  | 0 => []
  | S n' => take d l :: pieces d n' (drop d l)
  end.

Lemma pieces_cuts {D} d n (l : list D) : pieces d n l = (fun i => cut (i * d) d l) <$> seq 0 n.
Proof.
  revert l. induction n as [|n IH]; intros l; [done|]. cbn [pieces seq fmap list_fmap]. f_equal.
  rewrite IH, <-fmap_S_seq, <-list_fmap_compose. apply list_fmap_ext. intros _ i _. simpl.
  unfold cut. by rewrite drop_drop.
Qed.

Lemma pieces_length {D} d n (l : list D) : length (pieces d n l) = n.
Proof. by rewrite pieces_cuts, length_fmap, length_seq. Qed.

Lemma pieces_wide {D} d n (l : list D) : length l = n * d -> wide d (pieces d n l).
Proof.
  intros Hl. rewrite pieces_cuts. apply Forall_fmap, Forall_forall. intros i Hi%elem_of_seq. simpl.
  rewrite cut_length. assert (i * d + d <= n * d) by nia. lia.
Qed.

Lemma concat_pieces {D} d n (l : list D) : length l = n * d -> concat (pieces d n l) = l.
Proof. intros Hl. rewrite pieces_cuts. by apply cuts_concat. Qed.

Lemma pieces_concat {D} d (ll : list (list D)) : wide d ll -> pieces d (length ll) (concat ll) = ll.
Proof.
  induction 1 as [|r ll Hr _ IH]; [done|]. cbn [length pieces concat].
  by rewrite take_app_length', drop_app_length', IH.
Qed.

Lemma wide_concat_length {D} d (ll : list (list D)) : wide d ll -> length (concat ll) = length ll * d.
Proof. induction 1 as [|r ll Hr _ IH]; [done|]. simpl. rewrite length_app, Hr, IH. done. Qed.

(** The share of whole pieces is the pieces of the share. *)
Lemma pieces_shard {D} d n k i (l : list D) :
  length l = n * k * d -> i < n -> pieces d k (shard n i l) = shard n i (pieces d (n * k) l).
Proof.
  intros Hl Hi. rewrite (shard_cut n i (k * d)) by lia.
  rewrite (shard_cut n i k) by (rewrite ?pieces_length; lia). rewrite !pieces_cuts, cut_fmap.
  rewrite cut_seq by (assert (i * k + k <= n * k) by nia; lia).
   replace (seq (i * k) k) with (Nat.add (i * k) <$> seq 0 k) by by rewrite fmap_add_seq, Nat.add_0_r.
  rewrite <-list_fmap_compose.
  apply list_fmap_ext. intros _ j Hj%list_elem_of_lookup_2%elem_of_seq. simpl.
  rewrite cut_cut; [f_equal; lia|]. assert (j * d + d <= k * d) by nia. lia.
Qed.

Lemma concat_shard {D} d n k i (ll : list (list D)) :
  wide d ll -> length ll = n * k -> i < n -> concat (shard n i ll) = shard n i (concat ll).
Proof.
  intros Hw Hl Hi. pose proof (wide_concat_length d ll Hw) as Hc. rewrite Hl in Hc.
  rewrite <-(pieces_concat d ll Hw) at 1. rewrite Hl, <-pieces_shard by done.
  apply concat_pieces. apply shard_length; lia.
Qed.

Lemma wide_shard {D} d n i (ll : list (list D)) : wide d ll -> wide d (shard n i ll).
Proof. intros Hw. unfold shard, cut. by apply Forall_take, Forall_drop. Qed.

End Shards.

(** ** Sums *)

Section Sums.
Context {F : Type} `{!Scalar F}.

Add Ring scalar : scalar_ring.

Lemma fsum_app l k : fsum (l ++ k) = fadd (fsum l) (fsum k).
Proof. unfold fsum. induction l as [|x l IH]; simpl; [ring|]. rewrite IH. ring. Qed.

Lemma fsum_concat (ll : list (list F)) : fsum (concat ll) = fsum (fsum <$> ll).
Proof. induction ll as [|l ll IH]; [done|]. simpl. rewrite fsum_app, IH. done. Qed.

(** A product over the shares of a row. *)
Lemma dot_shards n k (x w : list F) : length x = n * k -> length w = n * k ->
  dot x w = fsum ((fun i => dot (shard n i x) (shard n i w)) <$> seq 0 n).
Proof.
  intros Hx Hw. unfold dot at 1. unfold vmul. rewrite <-(shards_concat n (zip_with fmul x w) k).
  - rewrite fsum_concat, <-list_fmap_compose. f_equal. apply list_fmap_ext. intros _ i _. simpl.
    by rewrite shard_zip_with by lia.
  - rewrite length_zip_with. lia.
Qed.

Lemma vadd_comm (x y : list F) : vadd x y = vadd y x.
Proof. unfold vadd. revert y. induction x as [|a x IH]; intros [|b y]; simpl; try done. f_equal; [ring|apply IH]. Qed.

End Sums.
