(* ===== verification/Ranks.v ===== *)
(** * Ranks

    Tensor-parallel ranks run the same code on their own weights and meet in
    collectives. A rank's code is a program that stops at each collective; a
    group of them runs in lockstep, and has no result where a rank raises or the
    ranks are not all at the same collective, which hangs. *)

From S2P Require Import Prelude Tensors.

(** [dist.all_reduce], which sums, and [dist.all_gather_into_tensor]. *)
Inductive Collective := Reduce | Gather.

#[export] Instance Collective_eq_dec : EqDecision Collective.
Proof. solve_decision. Defined.

Inductive Prog (F A : Type) : Type :=
| Done (a : A)
| Raised (e : exn)
| Meet (op : Collective) (y : list (list F)) (k : list (list F) -> Prog F A).

Arguments Done {F A}.
Arguments Raised {F A}.
Arguments Meet {F A}.

Section Ranks.
Context {F : Type} `{!Scalar F}.
Local Abbreviation mat := (list (list F)).

Fixpoint pbind {A B} (p : Prog F A) (f : A -> Prog F B) : Prog F B :=
  match p with
  | Done a => f a
  | Raised e => Raised e
  | Meet op y k => Meet op y (fun r => pbind (k r) f)
  end.

(** What a rank computes on its own may raise. *)
Definition lift {A} (r : exn + A) : Prog F A := match r with inl e => Raised e | inr a => Done a end.

Definition all_reduce (y : mat) : Prog F mat := Meet Reduce y Done.
Definition all_gather (y : mat) : Prog F mat := Meet Gather y Done.

(** What the ranks get from what each brings. *)
Definition combine (op : Collective) (y : mat) (ys : list mat) : mat :=
  match op with Reduce => foldl madd y ys | Gather => y ++ concat ys end.

Definition at_ {A} (op : Collective) (p : Prog F A) : option (mat * (mat -> Prog F A)) :=
  match p with
  | Meet op' y k => if decide (op' = op) then Some (y, k) else None
  | _ => None
  end.

Definition finished {A} (p : Prog F A) : option A := match p with Done a => Some a | _ => None end.

(** A rank's program with the others'. *)
Fixpoint lockstep {A} (p : Prog F A) (ps : list (Prog F A)) : option (list A) :=
  match p with
  | Done a => rest ← mapM finished ps; Some (a :: rest)
  | Raised _ => None
  | Meet op y k =>
      yks ← mapM (at_ op) ps;
      let r := combine op y yks.*1 in
      lockstep (k r) ((fun yk => yk.2 r) <$> yks)
  end.

(** A group of [n] ranks, the program of each by its rank. *)
Definition run_ranks {A} (n : nat) (p : nat -> Prog F A) : option (list A) :=
  match n with
  | 0 => Some []
  | S n' => lockstep (p 0) (p <$> seq 1 n')
  end.

(** Every rank finishes, and the ranks' results satisfy [Q]. *)
Definition spmd {A} (n : nat) (p : nat -> Prog F A) (Q : (nat -> A) -> Prop) : Prop :=
  exists a, run_ranks n p = Some (a <$> seq 0 n) /\ Q a.

Lemma mapM_fmap_Some {X Y Z} (f : X -> Y) (g : Y -> option Z) (h : X -> Z) (l : list X) :
  (forall x, x ∈ l -> g (f x) = Some (h x)) -> mapM g (f <$> l) = Some (h <$> l).
Proof.
  intros Hf. induction l as [|x l IH]; [done|]. cbn. rewrite Hf by constructor.
  simpl. rewrite IH; [done|]. intros y Hy. apply Hf. by constructor.
Qed.

Lemma spmd_ret {A} n (a : nat -> A) (Q : (nat -> A) -> Prop) : 0 < n -> Q a -> spmd n (fun i => Done (a i)) Q.
Proof.
  intros Hn HQ. exists a. split; [|done]. destruct n as [|n]; [lia|]. cbn [run_ranks lockstep].
  by rewrite (mapM_fmap_Some (fun i => Done (a i)) finished a).
Qed.

Lemma spmd_mono {A} n (p : nat -> Prog F A) (P Q : (nat -> A) -> Prop) :
  spmd n p P -> (forall a, P a -> Q a) -> spmd n p Q.
Proof. intros (a & Hr & HP) Hpq. exists a. split; [done|by apply Hpq]. Qed.

Lemma run_ranks_ext {A} n (p p' : nat -> Prog F A) :
  (forall i, i < n -> p i = p' i) -> run_ranks n p = run_ranks n p'.
Proof.
  intros He. destruct n as [|n]; [done|]. simpl. rewrite He by lia. f_equal. apply list_fmap_ext.
  intros _ i Hi%list_elem_of_lookup_2%elem_of_seq. apply He. lia.
Qed.

Lemma spmd_ext {A} n (p p' : nat -> Prog F A) Q : (forall i, i < n -> p i = p' i) -> spmd n p' Q -> spmd n p Q.
Proof. intros He (a & Hr & HQ). exists a. by rewrite (run_ranks_ext n p p' He). Qed.

(** What rank [i] brings to a collective, and what it does then. *)
Definition then_ {A B} (yk : mat * (mat -> Prog F A)) (f : A -> Prog F B) : mat * (mat -> Prog F B) :=
  (yk.1, fun r => pbind (yk.2 r) f).

Lemma at_bind {A B} op (ps : list (Prog F A)) yks (fs : list (A -> Prog F B)) :
  mapM (at_ op) ps = Some yks -> mapM (at_ op) (zip_with pbind ps fs) = Some (zip_with then_ yks fs).
Proof.
  intros Hm%mapM_Some_1. revert fs. induction Hm as [|p yk ps yks Hp _ IH]; intros [|f fs]; try done.
  cbn. destruct p as [| |op' y k]; [done|done|]. cbn [at_ pbind] in *. case_decide; [|done].
  injection Hp as <-. simpl. by rewrite IH.
Qed.

Lemma then_fst {A B} yks (fs : list (A -> Prog F B)) :
  length fs = length yks -> (zip_with then_ yks fs).*1 = yks.*1.
Proof. revert fs. induction yks as [|yk yks IH]; intros [|f fs] Hl; try done. simpl. f_equal. apply IH. by injection Hl. Qed.

Lemma then_snd {A B} yks (fs : list (A -> Prog F B)) r : length fs = length yks ->
  (fun yk => yk.2 r) <$> zip_with then_ yks fs = zip_with pbind ((fun yk => yk.2 r) <$> yks) fs.
Proof. revert fs. induction yks as [|yk yks IH]; intros [|f fs] Hl; try done. simpl. f_equal. apply IH. by injection Hl. Qed.

Lemma lockstep_bind {A B} (p : Prog F A) ps a l (f : A -> Prog F B) fs :
  lockstep p ps = Some (a :: l) -> length fs = length ps ->
  lockstep (pbind p f) (zip_with pbind ps fs) = lockstep (f a) (zip_with (fun a f => f a) l fs).
Proof.
  revert ps. induction p as [a'|e|op y k IH]; intros ps Hl Hlen; cbn [lockstep pbind] in *.
  - destruct (mapM finished ps) as [rest|] eqn:Hm; [|done]. simpl in Hl. injection Hl as -> ->. f_equal.
    apply mapM_Some_1 in Hm. revert fs Hlen. induction Hm as [|q b ps l Hq _ IHm]; intros [|g fs] Hlen; try done.
    simpl. destruct q; [|done|done]. injection Hq as ->. simpl. f_equal. apply IHm. by injection Hlen.
  - done.
  - destruct (mapM (at_ op) ps) as [yks|] eqn:Hm; [|done]. cbn [mbind option_bind] in Hl.
    rewrite (at_bind op ps yks fs Hm). cbn [mbind option_bind].
    assert (length fs = length yks) by (apply mapM_Some_1, Forall2_length in Hm; lia).
    rewrite then_fst, then_snd by done. apply IH; [done|]. rewrite length_fmap. done.
Qed.

Lemma spmd_bind {A B} n (p : nat -> Prog F A) (k : nat -> A -> Prog F B) Q :
  spmd n p (fun a => spmd n (fun i => k i (a i)) Q) -> spmd n (fun i => pbind (p i) (k i)) Q.
Proof.
  intros (a & Hr & b & Hb & HQ). exists b. split; [|done]. rewrite <-Hb. destruct n as [|n]; [done|].
  cbn [run_ranks seq fmap list_fmap] in *.
  assert (Hz : forall X Y (f : X -> Y -> Prog F B) (g : nat -> X) (h : nat -> Y) l,
    (fun i => f (g i) (h i)) <$> l = zip_with f (g <$> l) (h <$> l)).
  { intros X Y f g h l. induction l as [|x l IH]; [done|]. cbn. by rewrite IH. }
  rewrite (Hz _ _ pbind p k), (Hz _ _ (fun a f => f a) a k).
  apply lockstep_bind; [exact Hr|by rewrite !length_fmap].
Qed.

(** Every rank gets the ranks' parts combined. *)
Lemma spmd_meet op n (y : nat -> mat) Q : 0 < n ->
  Q (fun _ => combine op (y 0) (y <$> seq 1 (n - 1))) -> spmd n (fun i => Meet op (y i) Done) Q.
Proof.
  intros Hn HQ. eexists. split; [|exact HQ]. destruct n as [|n]; [lia|]. cbn [run_ranks lockstep].
  rewrite (mapM_fmap_Some (fun i => Meet op (y i) Done) (at_ op) (fun i => (y i, Done))).
  - cbn [mbind option_bind]. rewrite <-!list_fmap_compose. simpl.
    rewrite (mapM_fmap_Some _ finished (fun _ => combine op (y 0) (y <$> seq 1 n))) by done.
    simpl. by rewrite Nat.sub_0_r.
  - intros i _. simpl. by rewrite decide_True.
Qed.

(** The sum of the ranks' parts. *)
Definition msum (n : nat) (y : nat -> mat) : mat := foldl madd (y 0) (y <$> seq 1 (n - 1)).
Definition vsums (n : nat) (f : nat -> list F) : list F := foldl vadd (f 0) (f <$> seq 1 (n - 1)).

Lemma spmd_reduce n (y : nat -> mat) Q : 0 < n -> Q (fun _ => msum n y) -> spmd n (fun i => all_reduce (y i)) Q.
Proof. apply (spmd_meet Reduce). Qed.

Lemma spmd_gather n (y : nat -> mat) Q :
  0 < n -> Q (fun _ => concat (y <$> seq 0 n)) -> spmd n (fun i => all_gather (y i)) Q.
Proof.
  intros Hn HQ. apply (spmd_meet Gather); [done|]. destruct n as [|n]; [lia|]. simpl. by rewrite Nat.sub_0_r.
Qed.

(** ** Sums over the ranks *)

Add Ring scalar : scalar_ring.

Lemma sums_S {X} (op : X -> X -> X) (f : nat -> X) n : 0 < n ->
  foldl op (f 0) (f <$> seq 1 n) = op (foldl op (f 0) (f <$> seq 1 (n - 1))) (f n).
Proof.
  intros Hn. replace n with (n - 1 + 1) at 1 by lia. rewrite seq_app, fmap_app, foldl_app. simpl.
  do 2 f_equal. lia.
Qed.

Lemma msum_S n y : 0 < n -> msum (S n) y = madd (msum n y) (y n).
Proof. intros Hn. unfold msum. simpl. rewrite Nat.sub_0_r. by apply sums_S. Qed.

Lemma vsums_S n f : 0 < n -> vsums (S n) f = vadd (vsums n f) (f n).
Proof. intros Hn. unfold vsums. simpl. rewrite Nat.sub_0_r. by apply sums_S. Qed.

(** Induction over a group that is not empty. *)
Lemma ranks_ind (P : nat -> Prop) : P 1 -> (forall n, 0 < n -> P n -> P (S n)) -> forall n, 0 < n -> P n.
Proof. intros H1 HS n Hn. induction n as [|[|n] IH]; [lia|done|]. apply HS; [lia|]. apply IH. lia. Qed.

(** Row by row. *)
Lemma msum_rows {X} n (f : nat -> X -> list F) (l : list X) : 0 < n ->
  msum n (fun i => f i <$> l) = (fun x => vsums n (fun i => f i x)) <$> l.
Proof.
  revert n. apply ranks_ind; [done|]. intros n Hn IH. rewrite msum_S, IH by done.
  unfold madd. clear IH. induction l as [|x l IH]; [done|]. cbn [fmap list_fmap zip_with]. by rewrite IH, vsums_S.
Qed.

(** Entry by entry. *)
Lemma vsums_entries {X} n (g : nat -> X -> F) (l : list X) : 0 < n ->
  vsums n (fun i => g i <$> l) = (fun x => fsum ((fun i => g i x) <$> seq 0 n)) <$> l.
Proof.
  revert n. apply ranks_ind.
  - unfold vsums. simpl. apply list_fmap_ext. intros _ x _. unfold fsum. simpl. ring.
  - intros n Hn IH. rewrite vsums_S, IH by done. unfold vadd. clear IH.
    induction l as [|x l IH]; [done|]. cbn [fmap list_fmap zip_with]. rewrite IH. f_equal.
    rewrite seq_S, fmap_app, fsum_app. unfold fsum at 3. simpl. ring.
Qed.

Lemma vadd_assoc (x y z : list F) : vadd x (vadd y z) = vadd (vadd x y) z.
Proof.
  unfold vadd. revert y z. induction x as [|a x IH]; intros [|b y] [|c z]; simpl; try done.
  f_equal; [ring|apply IH].
Qed.

(** A part only the first rank adds. *)
Lemma vsums_bias n (b : option (list F)) (f : nat -> list F) : 0 < n ->
  vsums n (fun i => add_bias (if i =? 0 then b else None) (f i)) = add_bias b (vsums n f).
Proof.
  revert n. apply ranks_ind; [done|]. intros n Hn IH. rewrite !vsums_S, IH by done.
  destruct (Nat.eqb_spec n 0); [lia|]. destruct b as [v|]; [|done]. cbn [add_bias]. by rewrite <-!vadd_assoc, (vadd_comm v).
Qed.

Lemma vadd_zeros n (x : list F) : length x = n -> vadd x (replicate n fzero) = x /\ vadd (replicate n fzero) x = x.
Proof.
  intros <-. unfold vadd. induction x as [|a x [IH1 IH2]]; [done|]. simpl. rewrite IH1, IH2. split; f_equal; ring.
Qed.

(** A part one rank has. *)
Lemma vsums_one n o d (f : nat -> list F) (w : list F) : length w = d -> o < n -> f o = w ->
  (forall i, i < n -> i <> o -> f i = replicate d fzero) -> vsums n f = w.
Proof.
  intros Hd Ho Hw Hz.
  assert (Hg : forall m, 0 < m -> m <= n -> vsums m f = if o <? m then w else replicate d fzero).
  { apply (ranks_ind (fun m => m <= n -> vsums m f = if o <? m then w else replicate d fzero)).
    - intros _. unfold vsums. simpl. destruct (Nat.ltb_spec o 1); [by replace o with 0 in Hw by lia|]. apply Hz; lia.
    - intros m Hm IH Hmn. rewrite vsums_S, IH by lia. destruct (Nat.ltb_spec o m), (Nat.ltb_spec o (S m)); try lia.
      + rewrite Hz by lia. by apply vadd_zeros.
      + replace m with o by lia. rewrite Hw. by apply vadd_zeros.
      + rewrite Hz by lia. apply vadd_zeros. by rewrite length_replicate. }
  rewrite Hg by lia. destruct (Nat.ltb_spec o n); [done|lia].
Qed.

End Ranks.
