(* ===== verification/Linear.v ===== *)
(** * Tensor-parallel linear layers

    [layers/linear.py]: each rank holds rows (column parallel) or columns (row
    parallel) of a weight, cut out of the checkpoint's tensors by the layer's
    weight loader. A loader is a method of the parameter's data. *)

From S2P Require Import Prelude Tensors Ranks.

(** [dist.get_rank()] and [dist.get_world_size()]. *)
Record Group := { rank : nat; world_size : nat }.

Definition divide {S} (numerator denominator : nat) : M S nat :=
  if denominator =? 0 then raise ZeroDivisionError
  else assert_ (numerator mod denominator =? 0) "";;; ret (numerator / denominator).

(** Run a method of a part that is not in the state. *)
Definition run_on {S T A} (t : T) (m : M T A) : M S T := fun s =>
  match m t with
  | (inr _, t') => (inr t', s)
  | (inl e, _) => (inl e, s)
  end.

Section Linear.
Context {F : Type} `{!Scalar F} `{!Torch F}.
Local Abbreviation mat := (list (list F)).

(** [torch.empty]. *)
Definition empty2 (rows cols : nat) : Param F :=
  Mat cols ((fun i => (fun j => garbage (i * cols + j)) <$> seq 0 cols) <$> seq 0 rows).
Definition empty1 (n : nat) : Param F := Vec (garbage <$> seq 0 n).

Record Linear := {
  tp_dim : option nat;
  tp_rank : nat;
  tp_size : nat;
  weight : Param F;
  bias : option (Param F)
}.

Definition LinearBase (g : Group) (input_size output_size : nat) (has_bias : bool) (dim : option nat) : Linear :=
  {| tp_dim := dim; tp_rank := rank g; tp_size := world_size g;
     weight := empty2 output_size input_size;
     bias := if has_bias then Some (empty1 output_size) else None |}.

(** ** Replicated *)

Definition ReplicatedLinear (g : Group) (input_size output_size : nat) (has_bias : bool) : Linear :=
  LinearBase g input_size output_size has_bias None.

Definition Replicated_weight_loader (loaded : Param F) : M (Param F) unit := copy_whole loaded.

Definition MergedReplicatedLinear (g : Group) (input_size : nat) (output_sizes : list nat) (has_bias : bool) : Linear :=
  ReplicatedLinear g input_size (sum_list output_sizes) has_bias.

Definition MergedReplicated_weight_loader (output_sizes : list nat) (loaded : Param F) (shard_id : nat)
    : M (Param F) unit :=
  let shard_offset := sum_list (take shard_id output_sizes) in
  let! size := or_raise (output_sizes !! shard_id) IndexError in
  copy_narrow 0 shard_offset size loaded.

(** ** Column parallel *)

Definition ColumnParallelLinear {S} (g : Group) (input_size output_size : nat) (has_bias : bool) : M S Linear :=
  let! out := divide output_size (world_size g) in
  ret (LinearBase g input_size out has_bias (Some 0)).

Definition ColumnParallel_weight_loader (self : Linear) (loaded : Param F) : M (Param F) unit :=
  let! param := gets id in
  let! dim := or_raise (tp_dim self) TypeError in
  let! shard_size := tsize param dim in
  let start_idx := tp_rank self * shard_size in
  let! loaded := narrow dim start_idx shard_size loaded in
  copy_whole loaded.

Definition bias_vec (b : option (Param F)) : option (list F) := as_vec <$> b.

(** [forward] of a replicated or column-parallel layer. *)
Definition Linear_forward (self : Linear) (x : mat) : mat :=
  linear x (as_mat (weight self)) (bias_vec (bias self)).

(** The rank's share of a checkpoint tensor: [loaded.chunk(tp_size, tp_dim)[tp_rank]]. *)
Definition own_chunk (self : Linear) (dim : nat) (loaded : Param F) : M (Param F) (Param F) :=
  let! chunks := chunk (tp_size self) dim loaded in
  or_raise (chunks !! tp_rank self) IndexError.

Record Merged := { mg_linear : Linear; output_sizes : list nat }.

Definition MergedColumnParallelLinear {S} (g : Group) (input_size : nat) (sizes : list nat) (has_bias : bool)
    : M S Merged :=
  let! l := ColumnParallelLinear g input_size (sum_list sizes) has_bias in
  ret {| mg_linear := l; output_sizes := sizes |}.

Definition MergedColumn_weight_loader (self : Merged) (loaded : Param F) (shard_id : nat) : M (Param F) unit :=
  let n := tp_size (mg_linear self) in
  let shard_offset := sum_list (take shard_id (output_sizes self)) / n in
  let! size := or_raise (output_sizes self !! shard_id) IndexError in
  let! dim := or_raise (tp_dim (mg_linear self)) TypeError in
  let! own := own_chunk (mg_linear self) dim loaded in
  copy_narrow dim shard_offset (size / n) own.

Record QKV := { qkv_linear : Linear; head_size : nat; num_heads : nat; num_kv_heads : nat }.

Definition QKVParallelLinear {S} (g : Group) (hidden_size head_size total_num_heads : nat)
    (total_num_kv_heads : option nat) (has_bias : bool) : M S QKV :=
  let total_kv := match total_num_kv_heads with Some (S _ as k) => k | _ => total_num_heads end in
  let! heads := divide total_num_heads (world_size g) in
  let! kv_heads := divide total_kv (world_size g) in
  let! l := ColumnParallelLinear g hidden_size ((total_num_heads + 2 * total_kv) * head_size) has_bias in
  ret {| qkv_linear := l; head_size := head_size; num_heads := heads; num_kv_heads := kv_heads |}.

Definition QKV_weight_loader (self : QKV) (loaded : Param F) (shard_id : string) : M (Param F) unit :=
  assert_ (bool_decide (shard_id ∈ ["q"; "k"; "v"]%string)) "";;;
  let q := num_heads self * head_size self in
  let kv := num_kv_heads self * head_size self in
  let '(size, offset) :=
    (if bool_decide (shard_id = "q"%string) then (q, 0)
     else if bool_decide (shard_id = "k"%string) then (kv, q) else (kv, q + kv)) in
  let! dim := or_raise (tp_dim (qkv_linear self)) TypeError in
  let! own := own_chunk (qkv_linear self) dim loaded in
  copy_narrow dim offset size own.

(** ** Row parallel *)

Definition RowParallelLinear {S} (g : Group) (input_size output_size : nat) (has_bias : bool) : M S Linear :=
  let! inp := divide input_size (world_size g) in
  ret (LinearBase g inp output_size has_bias (Some 1)).

Definition RowParallel_weight_loader (self : Linear) (loaded : Param F) : M (Param F) unit :=
  let! param := gets id in
  if ndim param =? 1 then copy_whole loaded
  else
    let! dim := or_raise (tp_dim self) TypeError in
    let! shard_size := tsize param dim in
    let start_idx := tp_rank self * shard_size in
    let! loaded := narrow dim start_idx shard_size loaded in
    copy_whole loaded.

Definition RowParallel_forward (self : Linear) (x : mat) : Prog F mat :=
  let y := linear x (as_mat (weight self)) (if tp_rank self =? 0 then bias_vec (bias self) else None) in
  if 1 <? tp_size self then all_reduce y else Done y.

End Linear.

Arguments Linear : clear implicits.
Arguments Merged : clear implicits.
Arguments QKV : clear implicits.

(** ** Parameters along their first dimension

    A vector's entries and a matrix's rows. *)

Class Outer {F A : Type} `{!Scalar F} (mk : list A -> Param F) (ok : A -> Prop) := {
  mk_size {S} l (s : S) Q : Q (length l) s -> wp (tsize (mk l) 0) s Q;
  mk_view a k l : view_of 0 a k (mk l) = mk (cut a k l);
  mk_copied old new : Forall ok new -> length new = length old -> copied (mk old) (mk new) = Some (mk new);
  mk_write a new l : write_view 0 a (mk new) (mk l) = mk (splice a new l)
}.

#[export] Instance Vec_Outer `{!Scalar F} : Outer (F := F) Vec (fun _ => True).
Proof.
  split; try done. intros old new _ Hl. simpl. unfold expand. by rewrite Hl, Nat.eqb_refl.
Qed.

Lemma expand_rows `{!Scalar F} c (m : list (list F)) : wide c m -> mapM (expand c) m = Some m.
Proof.
  intros Hw. apply mapM_Some_2. induction Hw as [|r m Hr _ IH]; constructor; [|done].
  unfold expand. by rewrite Hr, Nat.eqb_refl.
Qed.

#[export] Instance Mat_Outer `{!Scalar F} c : Outer (F := F) (Mat c) (fun r => length r = c).
Proof.
  split; try done. intros old new Hn Hl. cbn [copied]. rewrite expand_rows by done. simpl.
  unfold expand. by rewrite Hl, Nat.eqb_refl.
Qed.

Section Blocks.
Context {A : Type}.

(** A list as blocks of given lengths. *)
Lemma blocks_of (ks : list nat) (l : list A) : length l = sum_list ks ->
  exists bl, concat bl = l /\ length <$> bl = ks.
Proof.
  revert l. induction ks as [|k ks IH]; intros l Hl; simpl in Hl; [by exists []; destruct l|].
  destruct (IH (drop k l)) as (bl & Hc & Hk); [rewrite length_drop; lia|].
  exists (take k l :: bl). split; [cbn [concat]; by rewrite Hc, take_drop|].
  rewrite fmap_cons, Hk, length_take. f_equal. lia.
Qed.

Lemma splice_block (bl : list (list A)) j new old : bl !! j = Some old -> length new = length old ->
  splice (length (concat (take j bl))) new (concat bl) = concat (<[j := new]> bl).
Proof.
  intros Hj Hl. unfold splice. rewrite <-(take_drop_middle bl j old Hj) at 2 4.
  rewrite concat_app. cbn [concat]. rewrite take_app_length. rewrite <-drop_drop, drop_app_length, Hl, drop_app_length.
  assert (j < length bl) by by apply lookup_lt_Some in Hj.
  rewrite insert_take_drop by done. rewrite concat_app. done.
Qed.

Lemma concat_take_length (bl : list (list A)) j : length (concat (take j bl)) = sum_list (take j (length <$> bl)).
Proof.
  rewrite <-fmap_take. generalize (take j bl). clear. intros bl. induction bl as [|b bl IH]; [done|].
  cbn [concat]. by rewrite length_app, IH.
Qed.

End Blocks.

(** ** What a loader leaves *)

Section Load.
Context {F A : Type} `{!Scalar F} (mk : list A -> Param F) (ok : A -> Prop) `{!Outer mk ok}.

Lemma wp_narrow {S} a k l (s : S) Q : a + k <= length l -> Q (mk (cut a k l)) s -> wp (narrow 0 a k (mk l)) s Q.
Proof.
  intros Hk HQ. unfold narrow. apply wp_bind, mk_size. destruct (Nat.leb_spec (a + k) (length l)); [|lia].
  apply wp_ret. by rewrite mk_view.
Qed.

Lemma wp_copy {S} old new (s : S) Q : Forall ok new -> length new = length old -> Q (mk new) s ->
  wp (copy_ (mk old) (mk new)) s Q.
Proof. intros Hok Hl HQ. unfold copy_. rewrite mk_copied by done. by apply wp_ret. Qed.

Lemma wp_copy_whole old new Q : Forall ok new -> length new = length old -> Q tt (mk new) ->
  wp (copy_whole (mk new)) (mk old) Q.
Proof. intros Hok Hl HQ. unfold copy_whole. wp_steps. unfold id. apply wp_copy; [done|done|]. by apply wp_modify. Qed.

Lemma wp_copy_narrow a k l new Q : a + k <= length l -> Forall ok new -> length new = k ->
  Q tt (mk (splice a new l)) -> wp (copy_narrow 0 a k (mk new)) (mk l) Q.
Proof.
  intros Hk Hok Hl HQ. unfold copy_narrow. wp_steps. unfold id. apply wp_narrow; [done|]. apply wp_bind, wp_copy; [done| |].
  - rewrite cut_length. lia.
  - apply wp_modify. by rewrite mk_write.
Qed.

Lemma Forall_cut {X} (P : X -> Prop) a k (l : list X) : Forall P l -> Forall P (cut a k l).
Proof. intros Hl. unfold cut. by apply Forall_take, Forall_drop. Qed.

(** The rank's chunk of a tensor whose size the ranks divide. *)
Lemma wp_own_chunk (self : Linear F) d p k n Q (s : Param F) :
  (forall R, R (n * k) s -> wp (tsize p d) s R) -> tp_size self = n -> tp_rank self < n ->
  Q (view_of d (tp_rank self * k) k p) s -> wp (own_chunk self d p) s Q.
Proof.
  intros Hs Hn Hi HQ. unfold own_chunk, chunk. wp_steps. apply Hs. wp_steps. rewrite Hn.
  apply wp_or_raise with (view_of d (tp_rank self * k) k p); [|done]. destruct (Nat.eqb_spec (n * k) 0) as [Hz|Hz].
  - assert (k = 0) as -> by nia. rewrite Nat.mul_0_r, list_lookup_fmap, lookup_seq_lt by done. done.
  - assert (k <> 0) by nia. replace ((n * k + n - 1) / n) with k.
    2: { apply (Nat.div_unique _ n k (n - 1)); lia. }
    replace ((n * k + k - 1) / k) with n by (apply (Nat.div_unique _ k n (k - 1)); lia).
    rewrite list_lookup_fmap, lookup_seq_lt by done. simpl. do 2 f_equal.
    assert (tp_rank self * k + k <= n * k) by nia. lia.
Qed.

Lemma mk_own_chunk (self : Linear F) l k n Q (s : Param F) :
  length l = n * k -> tp_size self = n -> tp_rank self < n ->
  Q (mk (shard n (tp_rank self) l)) s -> wp (own_chunk self 0 (mk l)) s Q.
Proof.
  intros Hl Hn Hi HQ. apply (wp_own_chunk self 0 (mk l) k n); [|done|done|].
  - intros R HR. apply mk_size. by rewrite Hl.
  - by rewrite mk_view, <-(shard_cut n) by done.
Qed.

(** Column parallel: the rank's share of the tensor. *)
Lemma Column_load (self : Linear F) old full k n :
  tp_dim self = Some 0 -> tp_size self = n -> tp_rank self < n -> length full = n * k -> length old = k ->
  Forall ok full ->
  wp (ColumnParallel_weight_loader self (mk full)) (mk old) (fun _ p => p = mk (shard n (tp_rank self) full)).
Proof.
  intros Hd Hn Hi Hf Ho Hok. unfold ColumnParallel_weight_loader. wp_steps. rewrite Hd. cbn [or_raise]. wp_steps.
  unfold id. apply mk_size. wp_steps. rewrite Ho. assert (tp_rank self * k + k <= n * k) by nia.
  apply wp_narrow; [lia|]. rewrite <-(shard_cut n) by done. apply wp_copy_whole; [by apply Forall_cut| |done].
  rewrite (shard_length n _ k); [done|done|lia].
Qed.

(** Loads that each fill a block: in any order, all the blocks. *)
Section BlockLoads.
Variable ks : list nat.
Variable load : nat -> M (Param F) unit.
Variable block : nat -> list A.
Hypothesis Hload : forall j k l, ks !! j = Some k -> length l = sum_list ks ->
  wp (load j) (mk l) (fun _ p => p = mk (splice (sum_list (take j ks)) (block j) l)).
Hypothesis Hblock : forall j k, ks !! j = Some k -> length (block j) = k.

Lemma load_blocks order old : length old = sum_list ks -> order ≡ₚ seq 0 (length ks) ->
  wp (for_each order load) (mk old) (fun _ p => p = mk (concat (block <$> seq 0 (length ks)))).
Proof.
  intros Ho Hp. destruct (blocks_of ks old Ho) as (bl & <- & Hk).
  eapply wp_mono.
  - apply (wp_for_each _ _ _ (fun done_ p => exists bl', p = mk (concat bl') /\ length <$> bl' = ks /\
      forall j, j ∈ done_ -> bl' !! j = Some (block j))).
    + exists bl. split_and!; [done|done|]. by intros j Hj%elem_of_nil.
    + intros done_ j rest p -> (bl' & -> & Hk' & Hd).
      assert (Hj : j < length ks).
      { assert (j ∈ seq 0 (length ks)) as Hin%elem_of_seq; [|lia]. rewrite <-Hp. apply elem_of_app. right. constructor. }
      destruct (lookup_lt_is_Some_2 ks j Hj) as [k Hkj].
      assert (exists b, bl' !! j = Some b /\ length b = k) as (b & Hb & Hbk).
      { rewrite <-Hk', list_lookup_fmap in Hkj. destruct (bl' !! j) as [b|]; [|done]. exists b. by injection Hkj. }
      eapply wp_mono; [apply (Hload j k); [done|]|].
      { rewrite <-Hk'. clear. induction bl' as [|b bl' IH]; [done|]. cbn [concat]. rewrite length_app, IH. done. }
      intros _ p ->. exists (<[j := block j]> bl'). split_and!.
      * rewrite <-Hk', <-concat_take_length, (splice_block _ _ _ b); [done|done|].
        by rewrite (Hblock j k).
      * rewrite list_fmap_insert, (Hblock j k), Hk' by done. by apply list_insert_id.
      * intros i Hi. apply elem_of_app in Hi as [Hi|Hi%list_elem_of_singleton].
        -- destruct (decide (i = j)) as [->|Hne]; [by rewrite list_lookup_insert_eq by by apply lookup_lt_Some in Hb|].
           rewrite list_lookup_insert_ne by done. by apply Hd.
        -- subst i. by rewrite list_lookup_insert_eq by by apply lookup_lt_Some in Hb.
  - intros _ p (bl' & -> & Hk' & Hd). do 2 f_equal. apply list_eq. intros i.
    assert (Hl : length bl' = length ks) by by rewrite <-Hk', length_fmap.
    destruct (decide (i < length ks)) as [Hi|Hi].
    + rewrite Hd by (rewrite Hp; apply elem_of_seq; lia). by rewrite list_lookup_fmap, lookup_seq_lt.
    + rewrite !lookup_ge_None_2; [done|rewrite length_fmap, length_seq; lia|lia].
Qed.

End BlockLoads.

Lemma sum_take_le ks j k : ks !! j = Some k -> sum_list (take j ks) + k <= sum_list ks.
Proof.
  intros Hj. rewrite <-(take_drop_middle ks j k Hj) at 2. rewrite sum_list_with_app. simpl. unfold id. lia.
Qed.

(** Merged: the rank's share of each output. *)
Lemma sum_list_div n ks : n <> 0 -> sum_list ((fun k => n * k) <$> ks) = n * sum_list ks.
Proof. intros Hn. induction ks as [|k ks IH]; [simpl; lia|]. rewrite fmap_cons. simpl. rewrite IH. lia. Qed.

Lemma Merged_load (self : Merged F) n ks (full : nat -> list A) order old :
  let l := mg_linear self in
  tp_dim l = Some 0 -> tp_size l = n -> tp_rank l < n ->
  output_sizes self = (fun k => n * k) <$> ks ->
  (forall j k, ks !! j = Some k -> length (full j) = n * k /\ Forall ok (full j)) ->
  length old = sum_list ks -> order ≡ₚ seq 0 (length ks) ->
  wp (for_each order (fun j => MergedColumn_weight_loader self (mk (full j)) j)) (mk old)
    (fun _ p => p = mk (concat ((fun j => shard n (tp_rank l) (full j)) <$> seq 0 (length ks)))).
Proof.
  intros l Hd Hn Hi Hs Hfull Ho Hp. apply (load_blocks ks _ (fun j => shard n (tp_rank l) (full j))); [| |done|done].
  - intros j k old' Hj Ho'. destruct (Hfull j k Hj) as [Hlen Hok]. unfold MergedColumn_weight_loader. fold l.
    rewrite Hs, list_lookup_fmap, Hj, Hn, Hd. cbn [fmap option_fmap option_map or_raise]. wp_steps.
    apply (mk_own_chunk l _ k n); [done|done|done|].
    rewrite <-fmap_take, sum_list_div, !(Nat.mul_comm n), !Nat.div_mul by lia.
    apply wp_copy_narrow; [|by apply Forall_cut|by apply shard_length|done].
    rewrite Ho'. by apply sum_take_le.
  - intros j k Hj. destruct (Hfull j k Hj). by apply shard_length.
Qed.

(** Queries, keys and values. *)
Definition shard_names : list string := ["q"; "k"; "v"]%string.

Lemma QKV_load (self : QKV F) n (full : nat -> list A) order old :
  let l := qkv_linear self in
  let q := num_heads self * head_size self in
  let kv := num_kv_heads self * head_size self in
  tp_dim l = Some 0 -> tp_size l = n -> tp_rank l < n ->
  (forall j k, [q; kv; kv] !! j = Some k -> length (full j) = n * k /\ Forall ok (full j)) ->
  length old = q + kv + kv -> order ≡ₚ seq 0 3 ->
  wp (for_each order (fun j => QKV_weight_loader self (mk (full j)) (nth j shard_names EmptyString))) (mk old)
    (fun _ p => p = mk (concat ((fun j => shard n (tp_rank l) (full j)) <$> seq 0 3))).
Proof.
  intros l q kv Hd Hn Hi Hfull Ho Hp.
  apply (load_blocks [q; kv; kv] _ (fun j => shard n (tp_rank l) (full j))); [| |simpl; lia|done].
  - intros j k old' Hj Ho'. destruct (Hfull j k Hj) as [Hlen Hok]. unfold QKV_weight_loader. fold l q kv.
    assert (Hgo : forall size offset, size = k -> offset = sum_list (take j [q; kv; kv]) ->
      wp (let! dim := or_raise (tp_dim l) TypeError in let! own := own_chunk l dim (mk (full j)) in
          copy_narrow dim offset size own) (mk old')
         (fun _ p => p = mk (splice (sum_list (take j [q; kv; kv])) (shard n (tp_rank l) (full j)) old'))).
    { intros size offset -> ->. rewrite Hd. cbn [or_raise]. wp_steps. apply (mk_own_chunk l _ k n); [done|done|done|].
      apply wp_copy_narrow; [|by apply Forall_cut|by apply shard_length|done].
      rewrite Ho'. by apply sum_take_le. }
    destruct j as [|[|[|j]]]; try done; injection Hj as <-; apply wp_bind, wp_assert; try done; simpl; apply Hgo; simpl; unfold id; lia.
  - intros j k Hj. destruct (Hfull j k Hj). by apply shard_length.
Qed.

End Load.

(** Row parallel: the rank's share of each row. *)
Lemma wide_cut {A} d a k (m : list (list A)) : wide d m -> a + k <= d -> wide k (cut a k <$> m).
Proof.
  intros Hw Hk. apply Forall_fmap. eapply Forall_impl; [exact Hw|]. intros r Hr. simpl in *. rewrite cut_length. lia.
Qed.

Lemma Row_load {F} `{!Scalar F} (self : Linear F) k n (full old : list (list F)) :
  tp_dim self = Some 1 -> tp_size self = n -> tp_rank self < n -> wide (n * k) full -> length old = length full ->
  wp (RowParallel_weight_loader self (Mat (n * k) full)) (Mat k old)
    (fun _ p => p = Mat k (shard n (tp_rank self) <$> full)).
Proof.
  intros Hd Hn Hi Hw Hl. unfold RowParallel_weight_loader. wp_steps. unfold id. cbn [ndim Nat.eqb]. rewrite Hd.
  cbn [or_raise]. wp_steps. unfold tsize at 1. wp_steps. unfold narrow. wp_steps. unfold tsize. wp_steps.
  assert (tp_rank self * k + k <= n * k) by nia.
  destruct (Nat.leb_spec (tp_rank self * k + k) (n * k)); [|lia]. wp_steps. cbn [view_of].
  replace (cut (tp_rank self * k) k <$> full) with (shard n (tp_rank self) <$> full).
  2: { apply list_fmap_ext. intros i r Hr. apply shard_cut; [|done]. by apply (Forall_lookup_1 _ _ i r Hw). }
  apply (wp_copy_whole (Mat k) (fun r => length r = k)); [|by rewrite length_fmap|done].
  apply Forall_fmap. eapply Forall_impl; [exact Hw|]. intros r Hr. simpl. by apply shard_length.
Qed.
