(* ===== verification/EmbedHead.v ===== *)
(** * Vocabulary-parallel embedding and logits

    [layers/embed_head.py]: each rank embeds the token ids of its own part of
    the vocabulary, and computes the logits of its own part. *)

From S2P Require Import Prelude Tensors Ranks Linear.

Section EmbedHead.
Context {F : Type} `{!Scalar F} `{!Torch F}.
Local Abbreviation mat := (list (list F)).

Record VocabParallelEmbedding := {
  ve_rank : nat;
  ve_size : nat;
  num_embeddings : nat;
  num_embeddings_per_partition : nat;
  vocab_start_idx : Z;
  vocab_end_idx : Z;
  ve_weight : Param F
}.

Definition VocabParallelEmbedding_init {S} (g : Group) (num_embeddings embedding_dim : nat)
    : M S VocabParallelEmbedding :=
  if world_size g =? 0 then raise ZeroDivisionError
  else
    assert_ (num_embeddings mod world_size g =? 0) "";;;
    let part := num_embeddings / world_size g in
    ret {| ve_rank := rank g; ve_size := world_size g; num_embeddings := num_embeddings;
           num_embeddings_per_partition := part;
           vocab_start_idx := Z.of_nat (part * rank g);
           vocab_end_idx := Z.of_nat (part * rank g) + Z.of_nat part;
           ve_weight := empty2 part embedding_dim |}.

Definition Embedding_weight_loader (self : VocabParallelEmbedding) (loaded : Param F) : M (Param F) unit :=
  let! param := gets id in
  let! shard_size := tsize param 0 in
  let start_idx := ve_rank self * shard_size in
  let! loaded := narrow 0 start_idx shard_size loaded in
  copy_whole loaded.

Definition in_part (self : VocabParallelEmbedding) (i : Z) : bool :=
  (vocab_start_idx self <=? i)%Z && (i <? vocab_end_idx self)%Z.

(** A truth value as a number: [mask * x] and [mask.unsqueeze(-1) * y]. *)
Definition mask_id (b : bool) (i : Z) : Z := (Z.b2z b * i)%Z.
Definition mask_row (b : bool) (r : list F) : list F := fmul (if b then fone else fzero) <$> r.

Definition Embedding_forward (self : VocabParallelEmbedding) (x : list Z) : Prog F mat :=
  let w := as_mat (ve_weight self) in
  if 1 <? ve_size self then
    let mask := in_part self <$> x in
    let x := zip_with mask_id mask ((fun i => i - vocab_start_idx self)%Z <$> x) in
    all_reduce (zip_with mask_row mask (embedding x w))
  else Done (embedding x w).

(** [gathered.view(tp, rows, part).transpose(0, 1).reshape(rows, -1)]. *)
Definition side_by_side (tp rows : nat) (gathered : mat) : mat :=
  let parts := pieces rows tp gathered in
  (fun t => concat ((fun m => default [] (m !! t)) <$> parts)) <$> seq 0 rows.

Definition LMHead_init {S} (g : Group) (num_embeddings embedding_dim : nat) (has_bias : bool)
    : M S VocabParallelEmbedding :=
  assert_ (negb has_bias) "";;; VocabParallelEmbedding_init g num_embeddings embedding_dim.

Definition LMHead_forward (self : VocabParallelEmbedding) (logits_indices : option (list Z)) (x : mat) : Prog F mat :=
  pbind (match logits_indices with
         | Some idx => lift (match mapM (py_get x) idx with Some x => inr x | None => inl IndexError end)
         | None => Done x
         end)
    (fun x =>
       let logits := linear x (as_mat (ve_weight self)) None in
       if 1 <? ve_size self then
         pbind (all_gather logits) (fun gathered => Done (side_by_side (ve_size self) (length logits) gathered))
       else Done logits).

End EmbedHead.

Arguments VocabParallelEmbedding : clear implicits.

(** ** Each rank's part *)

Section Parts.
Context {F : Type} `{!Scalar F} `{!Torch F}.
Local Abbreviation mat := (list (list F)).

Add Ring scalar : scalar_ring.

(** A layer whose weight is the rank's rows of [w]. *)
Lemma column_rows n i (x w : mat) d : wide d x -> wide d w ->
  linear x (shard n i w) None = (fun r => shard n i (dot r <$> w)) <$> x.
Proof.
  intros Hx Hw. rewrite (linear_eq _ _ _ d) by (done || by apply wide_shard). simpl.
  apply list_fmap_ext. intros _ r _. by rewrite shard_fmap.
Qed.

Lemma wide_lookup {A} d (m : list (list A)) i r : wide d m -> m !! i = Some r -> length r = d.
Proof. intros Hw Hi. exact (Forall_lookup_1 _ _ i r Hw Hi). Qed.

(** The sum of the ranks' partial products, each on its share of the row and of the weight's columns. *)
Lemma row_parallel_sum n k (x w : mat) (b : option (list F)) :
  0 < n -> wide (n * k) x -> wide (n * k) w -> (forall v, b = Some v -> length v = length w) ->
  msum n (fun i => linear (shard n i <$> x) (shard n i <$> w) (if i =? 0 then b else None)) =
  linear x w b.
Proof.
  intros Hn Hx Hw Hb. rewrite (linear_eq x w b (n * k)) by done.
  assert (He : forall i, i < n -> linear (shard n i <$> x) (shard n i <$> w) (if i =? 0 then b else None) =
    (fun r => add_bias (if i =? 0 then b else None) ((fun v => dot (shard n i r) (shard n i v)) <$> w)) <$> x).
  { intros i Hi. rewrite (linear_eq _ _ _ k).
    - rewrite <-list_fmap_compose. apply list_fmap_ext. intros _ r _. simpl. by rewrite <-list_fmap_compose.
    - apply Forall_fmap. eapply Forall_impl; [exact Hx|]. intros r Hr. by apply shard_length.
    - apply Forall_fmap. eapply Forall_impl; [exact Hw|]. intros r Hr. by apply shard_length.
    - intros v Hv. rewrite length_fmap. destruct (i =? 0); [by apply Hb|done]. }
  transitivity (msum n (fun i => (fun r => add_bias (if i =? 0 then b else None)
    ((fun v => dot (shard n i r) (shard n i v)) <$> w)) <$> x)).
  { unfold msum. rewrite He by lia. f_equal. apply list_fmap_ext.
    intros _ i Hi%list_elem_of_lookup_2%elem_of_seq. apply He. lia. }
  rewrite (msum_rows n (fun i r => add_bias (if i =? 0 then b else None)
    ((fun v => dot (shard n i r) (shard n i v)) <$> w)) x) by done.
  apply list_fmap_ext. intros j r Hr. rewrite vsums_bias by done. f_equal.
  rewrite (vsums_entries n (fun i v => dot (shard n i r) (shard n i v)) w) by done.
  apply list_fmap_ext. intros j' v Hv. symmetry. apply (dot_shards n k);
    [by apply (wide_lookup _ x j)|by apply (wide_lookup _ w j')].
Qed.

(** The sum of the ranks' embeddings. *)
Lemma mask_row_true (r : list F) : mask_row true r = r.
Proof.
  unfold mask_row. induction r as [|x r IH]; [done|]. rewrite fmap_cons, IH. f_equal. ring.
Qed.

Lemma mask_row_false (r : list F) : mask_row false r = replicate (length r) fzero.
Proof.
  unfold mask_row. induction r as [|x r IH]; [done|]. rewrite fmap_cons, IH. simpl. f_equal. ring.
Qed.

Lemma embedding_rows ids (w : mat) (row : Z -> list F) :
  (forall i, i ∈ ids -> (0 <= i < Zlen w)%Z /\ w !! Z.to_nat i = Some (row i)) -> embedding ids w = row <$> ids.
Proof.
  intros Hi. pose proof (embedding_eq ids w) as He. specialize (He ltac:(apply Forall_forall; intros i Hin; by apply Hi)).
  revert Hi. induction He as [|i r ids rs Hr _ IH]; intros Hi; [done|]. rewrite fmap_cons. f_equal.
  - destruct (Hi i) as [_ Hrow]; [constructor|]. congruence.
  - apply IH. intros j Hj. apply Hi. by constructor.
Qed.

Lemma zip_with_fmap_both {A B C D} (f : A -> B -> C) (g : D -> A) (h : D -> B) l :
  zip_with f (g <$> l) (h <$> l) = (fun x => f (g x) (h x)) <$> l.
Proof. induction l as [|x l IH]; [done|]. cbn. by rewrite IH. Qed.

(** Rank [i]'s embedding module. *)
Definition embedding_part (n i k : nat) (d : nat) (w : mat) : VocabParallelEmbedding F :=
  {| ve_rank := i; ve_size := n; num_embeddings := n * k; num_embeddings_per_partition := k;
     vocab_start_idx := Z.of_nat (k * i); vocab_end_idx := Z.of_nat (k * i) + Z.of_nat k;
     ve_weight := Mat d (shard n i w) |}.

Lemma Embedding_init_spec {S} n i k d (s : S) Q : i < n ->
  (forall p, p = empty2 k d -> Q {| ve_rank := i; ve_size := n; num_embeddings := n * k;
     num_embeddings_per_partition := k;
     vocab_start_idx := Z.of_nat (k * i); vocab_end_idx := Z.of_nat (k * i) + Z.of_nat k; ve_weight := p |} s) ->
  wp (VocabParallelEmbedding_init {| rank := i; world_size := n |} (n * k) d) s Q.
Proof.
  intros Hi HQ. unfold VocabParallelEmbedding_init. cbn [world_size rank]. destruct (Nat.eqb_spec n 0); [lia|].
  apply wp_bind, wp_assert; [apply Nat.eqb_eq; rewrite Nat.mul_comm; by apply Nat.Div0.mod_mul|].
  apply wp_ret. rewrite (Nat.mul_comm n k), Nat.div_mul by done. rewrite (Nat.mul_comm k n). by apply HQ.
Qed.

(** The id is in exactly one rank's part. *)
Lemma in_part_iff n i k d w id : in_part (embedding_part n i k d w) id = true <->
  (Z.of_nat (k * i) <= id < Z.of_nat (k * i) + Z.of_nat k)%Z.
Proof. unfold in_part, embedding_part. cbn [vocab_start_idx vocab_end_idx]. rewrite andb_true_iff, Z.leb_le, Z.ltb_lt. done. Qed.

Lemma embedding_spmd n k d (w : mat) ids (row : Z -> list F) Q :
  0 < n -> length w = n * k -> wide d w ->
  (forall i, i ∈ ids -> (0 <= i < Zlen w)%Z /\ w !! Z.to_nat i = Some (row i)) ->
  Q (fun _ => row <$> ids) -> spmd n (fun i => Embedding_forward (embedding_part n i k d w) ids) Q.
Proof.
  intros Hn Hl Hw Hids HQ. unfold Embedding_forward. cbn [ve_size ve_weight as_mat embedding_part].
  destruct (Nat.ltb_spec 1 n) as [Hn1|Hn1].
  2: { assert (n = 1) as -> by lia. eapply spmd_ext; [|apply (spmd_ret 1 (fun _ => row <$> ids)); [done|exact HQ]].
       intros i Hi. assert (i = 0) as -> by lia. f_equal. rewrite shard_one. by apply embedding_rows. }
  set (part i := embedding_part n i k d w).
  set (local i id := mask_id (in_part (part i) id) (id - Z.of_nat (k * i))).
  set (own i id := default [] (shard n i w !! Z.to_nat (local i id))).
  apply spmd_ext with (fun i => all_reduce ((fun id => mask_row (in_part (part i) id) (own i id)) <$> ids)).
  { intros i Hi. fold (part i). change (vocab_start_idx (part i)) with (Z.of_nat (k * i)).
    rewrite zip_with_fmap_both. change (fun x => mask_id _ _) with (local i).
    assert (Hlen : length (shard n i w) = k) by by apply shard_length.
    rewrite (embedding_rows (local i <$> ids) (shard n i w) (fun x => default [] (shard n i w !! Z.to_nat x))).
    - by rewrite <-list_fmap_compose, zip_with_fmap_both.
    - intros x Hx. apply list_elem_of_fmap in Hx as (id & -> & Hid). destruct (Hids id Hid) as [Hr _].
      assert (Hx : (0 <= local i id < Zlen (shard n i w))%Z).
      { unfold local, mask_id, Zlen. rewrite Hlen. assert (0 < k) by (unfold Zlen in Hr; nia).
        destruct (in_part (part i) id) eqn:Hp; [apply in_part_iff in Hp|]; simpl; lia. }
      split; [done|]. destruct (lookup_lt_is_Some_2 (shard n i w) (Z.to_nat (local i id))) as [r Hr'];
        [unfold Zlen in Hx; lia|]. by rewrite Hr'. }
  apply spmd_reduce; [done|].
  rewrite (msum_rows n (fun i id => mask_row (in_part (part i) id) (own i id)) ids) by done.
  assert (He : (fun id => vsums n (fun i => mask_row (in_part (part i) id) (own i id))) <$> ids = row <$> ids);
    [|by rewrite He].
  apply list_fmap_ext. intros _ id Hid%list_elem_of_lookup_2. destruct (Hids id Hid) as [Hr Hrow].
  unfold Zlen in Hr. set (o := Z.to_nat id / k). assert (Hk : 0 < k) by nia.
  pose proof (Nat.div_mod_eq (Z.to_nat id) k) as Hdm. pose proof (Nat.mod_upper_bound (Z.to_nat id) k) as Hmod.
  assert (Ho : o < n) by (apply Nat.Div0.div_lt_upper_bound; lia).
  assert (Hin : in_part (part o) id = true) by (apply in_part_iff; fold o in Hdm; lia).
  apply (vsums_one n o d); [by eapply wide_lookup|done| |].
  - rewrite Hin, mask_row_true. unfold own, local. rewrite Hin. unfold mask_id. simpl Z.b2z.
    replace (Z.to_nat (1 * (id - Z.of_nat (k * o)))) with (Z.to_nat id mod k) by (fold o in Hdm; lia).
    rewrite (shard_cut n o k), cut_lookup by lia. replace (o * k + Z.to_nat id mod k) with (Z.to_nat id); [by rewrite Hrow|].
    fold o in Hdm. lia.
  - intros i Hi Hne. destruct (in_part (part i) id) eqn:Hp.
    + apply in_part_iff in Hp. apply in_part_iff in Hin. destruct Hne. fold o in Hdm. nia.
    + rewrite mask_row_false. f_equal. unfold own, local. rewrite Hp.
      destruct (lookup_lt_is_Some_2 (shard n i w) 0) as [r Hr'].
      { rewrite (shard_length n i k); lia. }
      change (Z.to_nat (mask_id false _)) with 0. rewrite Hr'. simpl.
      apply (wide_lookup d (shard n i w) 0); [by apply wide_shard|done].
Qed.

(** The ranks' logits side by side. *)
Lemma side_by_side_spec n (x : mat) (f : nat -> list F -> list F) :
  side_by_side n (length x) (concat ((fun i => f i <$> x) <$> seq 0 n)) =
  (fun r => concat ((fun i => f i r) <$> seq 0 n)) <$> x.
Proof.
  unfold side_by_side.
  assert (Hp : pieces (length x) n (concat ((fun i => f i <$> x) <$> seq 0 n)) = (fun i => f i <$> x) <$> seq 0 n).
  { pose proof (pieces_concat (length x) ((fun i => f i <$> x) <$> seq 0 n)) as Hc.
    rewrite length_fmap, length_seq in Hc. apply Hc. apply Forall_fmap, Forall_forall. intros i _. simpl. by rewrite length_fmap. }
  rewrite Hp. apply list_eq. intros t. rewrite !list_lookup_fmap.
  destruct (x !! t) as [r|] eqn:Hr.
  - assert (t < length x) by by apply lookup_lt_Some in Hr. rewrite lookup_seq_lt by done. simpl. do 2 f_equal.
    rewrite <-list_fmap_compose. apply list_fmap_ext. intros _ i _. simpl. by rewrite list_lookup_fmap, Hr.
  - rewrite lookup_ge_None_2; [done|]. rewrite length_seq. by apply lookup_ge_None.
Qed.

Lemma head_spmd n k d (w x : mat) idx rows Q :
  0 < n -> length w = n * k -> wide d w -> wide d x ->
  match idx with Some l => mapM (py_get x) l = Some rows | None => rows = x end ->
  Q (fun _ => linear rows w None) ->
  spmd n (fun i => LMHead_forward (embedding_part n i k d w) idx x) Q.
Proof.
  intros Hn Hl Hw Hx Hrows HQ.
  assert (Hwr : wide d rows).
  { destruct idx as [l|]; [|by subst]. apply Forall_forall. intros r Hr. apply list_elem_of_lookup in Hr as [j Hj].
    apply mapM_Some_1 in Hrows. rewrite Forall2_lookup in Hrows. specialize (Hrows j). rewrite Hj in Hrows.
    inversion Hrows as [i r' Hir|]. subst. clear Hrows. unfold py_get in Hir. repeat case_match; try done.
    all: by eapply wide_lookup. }
  unfold LMHead_forward. apply spmd_bind. apply spmd_ext with (fun _ => Done rows).
  { intros i _. destruct idx as [l|]; [by rewrite Hrows|by subst]. }
  apply spmd_ret; [done|]. cbn [ve_size ve_weight as_mat embedding_part].
  destruct (Nat.ltb_spec 1 n) as [Hn1|Hn1].
  - apply spmd_bind. apply spmd_gather; [done|].
    assert (He : linear rows w None = (fun r => concat ((fun i => shard n i (dot r <$> w)) <$> seq 0 n)) <$> rows).
    { rewrite (linear_eq _ _ _ d) by done. apply list_fmap_ext. intros _ r _. simpl. symmetry.
      apply (shards_concat n _ k). by rewrite length_fmap. }
    rewrite He in HQ.
    assert (Hg : concat ((fun i => linear rows (shard n i w) None) <$> seq 0 n) =
      concat ((fun i => (fun r => shard n i (dot r <$> w)) <$> rows) <$> seq 0 n)).
    { f_equal. apply list_fmap_ext. intros _ i _. by apply (column_rows n i rows w d). }
    rewrite Hg. eapply spmd_ext; [|apply (spmd_ret n (fun _ => (fun r =>
      concat ((fun i => shard n i (dot r <$> w)) <$> seq 0 n)) <$> rows)); [done|exact HQ]].
    intros i _. rewrite (column_rows n i rows w d), length_fmap by done. f_equal. apply side_by_side_spec.
  - assert (n = 1) as -> by lia. eapply spmd_ext; [|apply (spmd_ret 1 (fun _ => linear rows w None)); [done|exact HQ]].
    intros i Hi. assert (i = 0) as -> by lia. by rewrite shard_one.
Qed.

End Parts.
