(* ===== verification/Qwen3.v ===== *)
(** * Qwen3 and Qwen2

    [models/qwen3.py] with the layers it is made of: [layers/activation.py],
    [layers/layernorm.py], [layers/rotary_embedding.py]. Each rank builds the
    modules for its own part, loads them from the checkpoint's tensors and runs
    them; the ranks meet where a row-parallel layer or the embedding does. *)

From S2P Require Import Prelude Tensors Ranks Linear EmbedHead.

(** ** Elementwise layers *)

Section Pointwise.
Context {F : Type} `{!Scalar F} `{!Torch F}.
Local Abbreviation mat := (list (list F)).

(** [x.chunk(2, -1)] of a row, unpacked to two. *)
Definition chunk2 {S} (r : list F) : M S (list F * list F) :=
  if length r =? 1 then raise (ValueError "not enough values to unpack")
  else let h := (length r + 1) / 2 in ret (take h r, drop h r).

(** The elementwise product of two rows, one of them broadcast. *)
Definition bmul {S} (x y : list F) : M S (list F) :=
  match expand (length x) y with
  | Some y => ret (vmul x y)
  | None => let! x := or_raise (expand (length y) x) (RuntimeError "The size of tensor a must match") in ret (vmul x y)
  end.

Definition SiluAndMul_forward {S} (x : mat) : M S mat :=
  collect x (fun r => let! (x, y) := chunk2 r in bmul (silu <$> x) y).

Record RMSNorm := { rn_eps : F; rn_weight : Param F }.

Definition RMSNorm_init (hidden_size : nat) (eps : F) : RMSNorm :=
  {| rn_eps := eps; rn_weight := Vec (replicate hidden_size fone) |}.

Definition rms_row (self : RMSNorm) (x : list F) : list F :=
  let var := mean (vmul x x) in
  vmul (fmul (rsqrt (fadd var (rn_eps self))) <$> x) (as_vec (rn_weight self)).

Definition rms_forward (self : RMSNorm) (x : mat) : mat := rms_row self <$> x.

Definition add_rms_forward (self : RMSNorm) (x residual : mat) : mat * mat :=
  let x := madd x residual in (rms_row self <$> x, x).

(** ** Rotary embedding *)

Record RotaryEmbedding := { is_neox_style : bool; cos_sin_cache : mat }.

Fixpoint fnat (n : nat) : F := match n with 0 => fzero | S n' => fadd fone (fnat n') end.

(** The cache's row for position [t], from the frequencies and the scale of the two schemes. *)
Definition cache_row (fcos fsin : F -> F) (inv_freq : list F) (mscale : F) (t : nat) : list F :=
  let freqs := fmul (fnat t) <$> inv_freq in
  ((fun x => fmul (fcos x) mscale) <$> freqs) ++ ((fun x => fmul (fsin x) mscale) <$> freqs).

Definition RotaryEmbedding_init {S} (fcos fsin : F -> F) (head_size rotary_dim max_position : nat)
    (inv_freq : list F) (mscale : F) (neox : bool) : M S RotaryEmbedding :=
  assert_ (rotary_dim =? head_size) "";;;
  ret {| is_neox_style := neox;
         cos_sin_cache := cache_row fcos fsin inv_freq mscale <$> seq 0 max_position |}.

(** [x[..., ::2]], [x[..., 1::2]], and [torch.stack((a, b), dim=-1).flatten(-2)]. *)
Fixpoint evens {A} (l : list A) : list A := match l with x :: _ :: l' => x :: evens l' | _ => l end.
Definition odds {A} (l : list A) : list A := evens (tail l).
Definition interleave {A} (x y : list A) : list A := concat (zip_with (fun a b => [a; b]) x y).

Definition rotate (x1 x2 cos sin : list F) : list F * list F :=
  (zip_with fsub (vmul x1 cos) (vmul x2 sin), vadd (vmul x2 cos) (vmul x1 sin)).

Definition apply_rotary_emb (x cos sin : list F) (neox : bool) : list F :=
  if neox then
    let h := (length x + 1) / 2 in
    let '(y1, y2) := rotate (take h x) (drop h x) cos sin in y1 ++ y2
  else
    let '(y1, y2) := rotate (evens x) (odds x) cos sin in interleave y1 y2.

(** Rotating every head of a token by its position's angles. *)
Definition rotate_heads (self : RotaryEmbedding) (cos_sin : list F) (heads : mat) : mat :=
  let h := (length cos_sin + 1) / 2 in
  (fun x => apply_rotary_emb x (take h cos_sin) (drop h cos_sin) (is_neox_style self)) <$> heads.

Definition Rotary_forward {S} (self : RotaryEmbedding) (positions : list Z) (query key : list mat)
    : M S (list mat * list mat) :=
  let! cos_sin := or_raise (mapM (py_get (cos_sin_cache self)) positions) IndexError in
  ret (zip_with (rotate_heads self) cos_sin query, zip_with (rotate_heads self) cos_sin key).

End Pointwise.

Arguments RMSNorm : clear implicits.
Arguments RotaryEmbedding : clear implicits.

(** ** Attention, as the model sees it

    What [layers/attention.py] promises the model: the keys and values a rank
    caches are those of its own heads, and each key-value head's queries are
    attended apart. Tensors are by token, then by head. *)

Section Heads.
Context {F : Type}.
Local Abbreviation mat := (list (list F)).

Definition column (h : nat) (x : list mat) : list (list F) := (fun heads => default [] (heads !! h)) <$> x.
Definition query_group (g h : nat) (q : list mat) : list mat := cut (h * g) g <$> q.

Definition headwise (attend : nat -> list mat -> mat -> mat -> list mat) (first nkv g : nat) (q k v : list mat)
    : list mat :=
  imap (fun t _ => concat ((fun h =>
    default [] (attend (first + h) (query_group g h q) (column h k) (column h v) !! t)) <$> seq 0 nkv)) q.

End Heads.

Class HeadAttention (F : Type) := {
  (** layer, rank, [num_heads], [num_kv_heads], then queries, keys and values. *)
  attention : nat -> nat -> nat -> nat -> list (list (list F)) -> list (list (list F)) -> list (list (list F)) ->
    list (list (list F));
  (** one key-value head of the whole model, with the queries of its group. *)
  attend_head : nat -> nat -> list (list (list F)) -> list (list F) -> list (list F) -> list (list (list F));
  attention_eq l r nkv g q k v : wide (nkv * g) q -> wide nkv k -> wide nkv v ->
    length k = length q -> length v = length q ->
    attention l r (nkv * g) nkv q k v = headwise (attend_head l) (r * nkv) nkv g q k v;
  attend_head_shape l h g d q k v : wide g q -> Forall (wide d) q -> length k = length q -> length v = length q ->
    length (attend_head l h q k v) = length q /\ wide g (attend_head l h q k v) /\ Forall (wide d) (attend_head l h q k v)
}.

Section Qwen3.
Context {F : Type} `{!Scalar F} `{!Torch F} `{!HeadAttention F}.
Local Abbreviation mat := (list (list F)).

Record Qwen3Config := {
  vocab_size : nat;
  hidden_size : nat;
  num_hidden_layers : nat;
  num_attention_heads : nat;
  num_key_value_heads : nat;
  intermediate_size : nat;
  rms_norm_eps : F;
  attention_bias : option bool;
  cf_head_dim : option nat;
  hidden_act : string;
  tie_word_embeddings : bool
}.

(** ** Attention *)

Record Qwen3Attention := {
  qa_layer : nat;
  qa_rank : nat;
  qa_num_heads : nat;
  qa_num_kv_heads : nat;
  head_dim : nat;
  q_size : nat;
  kv_size : nat;
  qkv_bias : bool;
  qkv_proj : QKV F;
  o_proj : Linear F;
  rotary_emb : RotaryEmbedding F;
  q_norm : option (RMSNorm F);
  k_norm : option (RMSNorm F)
}.

Definition Qwen3Attention_init {S} (g : Group) (layer hidden_size num_heads num_kv_heads : nat)
    (head_dim : option nat) (eps : F) (qkv_bias : bool) (rope : RotaryEmbedding F) : M S Qwen3Attention :=
  let! heads := divide num_heads (world_size g) in
  let! kv_heads := divide num_kv_heads (world_size g) in
  let! dim :=
    match head_dim with
    | Some (S _ as d) => ret d
    | _ => if num_heads =? 0 then raise ZeroDivisionError else ret (hidden_size / num_heads)
    end in
  let! qkv := QKVParallelLinear g hidden_size dim num_heads (Some num_kv_heads) qkv_bias in
  let! o := RowParallelLinear g (num_heads * dim) hidden_size false in
  let norm := if qkv_bias then None else Some (RMSNorm_init dim eps) in
  ret {| qa_layer := layer; qa_rank := rank g; qa_num_heads := heads; qa_num_kv_heads := kv_heads; head_dim := dim;
         q_size := heads * dim; kv_size := kv_heads * dim; qkv_bias := qkv_bias; qkv_proj := qkv; o_proj := o;
         rotary_emb := rope; q_norm := norm; k_norm := norm |}.

(** [qkv.split([q_size, kv_size, kv_size], dim=-1)] of a row. *)
Definition split3 {S} (a b : nat) (r : list F) : M S (list F * list F * list F) :=
  if a + b + b =? length r then ret (take a r, cut a b r, drop (a + b) r)
  else raise (RuntimeError "split_with_sizes expects split_sizes to sum exactly").

(** The per-head norms. *)
Definition head_norm {S} (n : option (RMSNorm F)) (x : list mat) : M S (list mat) :=
  let! n := or_raise n AttributeError in ret (rms_forward n <$> x).

Definition project {S} (self : Qwen3Attention) (positions : list Z) (hidden_states : mat)
    : M S (list mat * list mat * list mat) :=
  let qkv := Linear_forward (qkv_linear (qkv_proj self)) hidden_states in
  let! rows := collect qkv (split3 (q_size self) (kv_size self)) in
  let q := (fun r => pieces (head_dim self) (qa_num_heads self) r.1.1) <$> rows in
  let k := (fun r => pieces (head_dim self) (qa_num_kv_heads self) r.1.2) <$> rows in
  let v := (fun r => pieces (head_dim self) (qa_num_kv_heads self) r.2) <$> rows in
  let! q := (if qkv_bias self then ret q else head_norm (q_norm self) q) in
  let! k := (if qkv_bias self then ret k else head_norm (k_norm self) k) in
  let! (q, k) := Rotary_forward (rotary_emb self) positions q k in
  ret (q, k, v).

Definition combine (self : Qwen3Attention) (attn_output : list mat) : Prog F mat :=
  RowParallel_forward (o_proj self) ((fun heads => concat heads) <$> attn_output).

(** ** MLP *)

Record Qwen3MLP := { gate_up_proj : Merged F; down_proj : Linear F }.

Definition Qwen3MLP_init {S} (g : Group) (hidden_size intermediate_size : nat) (hidden_act : string) : M S Qwen3MLP :=
  let! gate_up := MergedColumnParallelLinear g hidden_size [intermediate_size; intermediate_size] false in
  let! down := RowParallelLinear g intermediate_size hidden_size false in
  assert_ (bool_decide (hidden_act = "silu"%string)) "";;;
  ret {| gate_up_proj := gate_up; down_proj := down |}.

(** What a rank computes between collectives. *)
Definition run_local {A} (m : M unit A) : Prog F A := lift (m tt).1.

Definition Qwen3MLP_forward (self : Qwen3MLP) (x : mat) : Prog F mat :=
  let gate_up := Linear_forward (mg_linear (gate_up_proj self)) x in
  pbind (run_local (SiluAndMul_forward gate_up)) (fun x => RowParallel_forward (down_proj self) x).

(** ** Layers *)

Record Qwen3DecoderLayer := {
  self_attn : Qwen3Attention;
  mlp : Qwen3MLP;
  input_layernorm : RMSNorm F;
  post_attention_layernorm : RMSNorm F
}.

Definition Qwen3DecoderLayer_init {S} (g : Group) (layer : nat) (c : Qwen3Config) (rope : RotaryEmbedding F)
    : M S Qwen3DecoderLayer :=
  let! attn := Qwen3Attention_init g layer (hidden_size c) (num_attention_heads c) (num_key_value_heads c)
    (cf_head_dim c) (rms_norm_eps c) (default true (attention_bias c)) rope in
  let! mlp := Qwen3MLP_init g (hidden_size c) (intermediate_size c) (hidden_act c) in
  let norm := RMSNorm_init (hidden_size c) (rms_norm_eps c) in
  ret {| self_attn := attn; mlp := mlp; input_layernorm := norm; post_attention_layernorm := norm |}.

Definition pre_attention {S} (self : Qwen3DecoderLayer) (positions : list Z) (hidden_states : mat)
    (residual : option mat) : M S (list mat * list mat * list mat * mat) :=
  let '(hidden_states, residual) :=
    match residual with
    | None => (rms_forward (input_layernorm self) hidden_states, hidden_states)
    | Some r => add_rms_forward (input_layernorm self) hidden_states r
    end in
  let! qkv := project (self_attn self) positions hidden_states in
  ret (qkv, residual).

Definition post_attention (self : Qwen3DecoderLayer) (attn_out : list mat) (residual : mat) : Prog F (mat * mat) :=
  pbind (combine (self_attn self) attn_out) (fun hidden_states =>
    let '(hidden_states, residual) := add_rms_forward (post_attention_layernorm self) hidden_states residual in
    pbind (Qwen3MLP_forward (mlp self) hidden_states) (fun hidden_states => Done (hidden_states, residual))).

Definition Qwen3DecoderLayer_forward (self : Qwen3DecoderLayer) (positions : list Z) (hidden_states : mat)
    (residual : option mat) : Prog F (mat * mat) :=
  pbind (run_local (pre_attention self positions hidden_states residual)) (fun '(q, k, v, residual) =>
    let a := self_attn self in
    post_attention self (attention (qa_layer a) (qa_rank a) (qa_num_heads a) (qa_num_kv_heads a) q k v) residual).

(** ** The model *)

Record Qwen3Model := {
  embed_tokens : VocabParallelEmbedding F;
  layers : list Qwen3DecoderLayer;
  norm : RMSNorm F
}.

Definition Qwen3Model_init {S} (g : Group) (c : Qwen3Config) (rope : RotaryEmbedding F) : M S Qwen3Model :=
  let! e := VocabParallelEmbedding_init g (vocab_size c) (hidden_size c) in
  let! ls := collect (seq 0 (num_hidden_layers c)) (fun l => Qwen3DecoderLayer_init g l c rope) in
  ret {| embed_tokens := e; layers := ls; norm := RMSNorm_init (hidden_size c) (rms_norm_eps c) |}.

Fixpoint run_layers (ls : list Qwen3DecoderLayer) (positions : list Z) (hidden_states : mat) (residual : option mat)
    : Prog F (mat * option mat) :=
  match ls with
  | [] => Done (hidden_states, residual)
  | l :: ls' =>
      pbind (Qwen3DecoderLayer_forward l positions hidden_states residual)
        (fun '(hidden_states, residual) => run_layers ls' positions hidden_states (Some residual))
  end.

Definition Qwen3Model_forward (self : Qwen3Model) (input_ids positions : list Z) : Prog F mat :=
  pbind (Embedding_forward (embed_tokens self) input_ids) (fun hidden_states =>
    pbind (run_layers (layers self) positions hidden_states None) (fun '(hidden_states, residual) =>
      match residual with
      | Some r => Done (add_rms_forward (norm self) hidden_states r).1
      | None => Raised TypeError  (* no layers: the norm returns one tensor, which does not unpack to two *)
      end)).

Record Qwen3ForCausalLM := { model : Qwen3Model; lm_head : VocabParallelEmbedding F; tied : bool }.

(** Tied embeddings share their storage: [head_of] reads the embedding's. *)
Definition Qwen3ForCausalLM_init {S} (g : Group) (c : Qwen3Config) (rope : RotaryEmbedding F) : M S Qwen3ForCausalLM :=
  let! m := Qwen3Model_init g c rope in
  let! head := LMHead_init g (vocab_size c) (hidden_size c) false in
  ret {| model := m; lm_head := head; tied := tie_word_embeddings c |}.

Definition Qwen3_forward (self : Qwen3ForCausalLM) (input_ids positions : list Z) : Prog F mat :=
  Qwen3Model_forward (model self) input_ids positions.

Definition head_of (self : Qwen3ForCausalLM) : VocabParallelEmbedding F :=
  if tied self then
    {| ve_rank := ve_rank (lm_head self); ve_size := ve_size (lm_head self);
       num_embeddings := num_embeddings (lm_head self);
       num_embeddings_per_partition := num_embeddings_per_partition (lm_head self);
       vocab_start_idx := vocab_start_idx (lm_head self); vocab_end_idx := vocab_end_idx (lm_head self);
       ve_weight := ve_weight (embed_tokens (model self)) |}
  else lm_head self.

Definition compute_logits (self : Qwen3ForCausalLM) (logits_indices : option (list Z)) (hidden_states : mat)
    : Prog F mat :=
  LMHead_forward (head_of self) logits_indices hidden_states.

End Qwen3.
