(* ===== verification/Qwen3Load.v ===== *)
(** * Loading a Qwen3 checkpoint

    The checkpoint's tensors, as [utils/loader.py] hands them to each
    parameter's weight loader, on one rank: the shards of a merged parameter in
    any order. The result is the rank's part of the model. *)

From S2P Require Import Prelude Tensors Ranks Linear EmbedHead Qwen3.

Section Load.
Context {F : Type} `{!Scalar F} `{!Torch F}.
Local Abbreviation mat := (list (list F)).

(** A layer's tensors. *)
Record LayerWeights := {
  w_qkv : nat -> mat;  (* q_proj, k_proj, v_proj *)
  b_qkv : nat -> list F;
  w_o : mat;
  w_q_norm : list F;
  w_k_norm : list F;
  w_gate_up : nat -> mat;  (* gate_proj, up_proj *)
  w_down : mat;
  w_input_norm : list F;
  w_post_norm : list F
}.

Record Checkpoint := {
  w_embed : mat;
  w_layers : list LayerWeights;
  w_norm : list F;
  w_head : mat
}.

(** The orders the shards of a layer's merged parameters come in. *)
Record Orders := { qkv_order : list nat; bias_order : list nat; gate_up_order : list nat }.

(** ** One rank loads *)

Definition load_weight {S} (load : M (Param F) unit) (l : Linear F) : M S (Linear F) :=
  let! w := run_on (weight l) load in
  ret {| tp_dim := tp_dim l; tp_rank := tp_rank l; tp_size := tp_size l; weight := w; bias := bias l |}.

Definition load_bias {S} (load : M (Param F) unit) (l : Linear F) : M S (Linear F) :=
  match bias l with
  | None => ret l
  | Some b =>
      let! b := run_on b load in
      ret {| tp_dim := tp_dim l; tp_rank := tp_rank l; tp_size := tp_size l; weight := weight l; bias := Some b |}
  end.

Definition load_norm {S} (w : list F) (n : RMSNorm F) : M S (RMSNorm F) :=
  let! p := run_on (rn_weight n) (copy_whole (Vec w)) in
  ret {| rn_eps := rn_eps n; rn_weight := p |}.

Definition load_head_norm {S} (w : list F) (n : option (RMSNorm F)) : M S (option (RMSNorm F)) :=
  match n with None => ret None | Some n => let! n := load_norm w n in ret (Some n) end.

Definition load_attention {S} (hidden : nat) (o : Orders) (ck : LayerWeights) (a : Qwen3Attention (F := F))
    : M S (Qwen3Attention (F := F)) :=
  let p := qkv_proj a in
  let! l := load_weight (for_each (qkv_order o) (fun j =>
    QKV_weight_loader p (Mat hidden (w_qkv ck j)) (nth j shard_names EmptyString))) (qkv_linear p) in
  let! l := load_bias (for_each (bias_order o) (fun j =>
    QKV_weight_loader p (Vec (b_qkv ck j)) (nth j shard_names EmptyString))) l in
  let! o_lin := load_weight (RowParallel_weight_loader (o_proj a)
    (Mat (tp_size (o_proj a) * q_size a) (w_o ck))) (o_proj a) in
  let! qn := load_head_norm (w_q_norm ck) (q_norm a) in
  let! kn := load_head_norm (w_k_norm ck) (k_norm a) in
  ret {| qa_layer := qa_layer a; qa_rank := qa_rank a; qa_num_heads := qa_num_heads a;
         qa_num_kv_heads := qa_num_kv_heads a; head_dim := head_dim a; q_size := q_size a; kv_size := kv_size a;
         qkv_bias := qkv_bias a;
         qkv_proj := {| qkv_linear := l; head_size := head_size p; num_heads := num_heads p;
                        num_kv_heads := num_kv_heads p |};
         o_proj := o_lin; rotary_emb := rotary_emb a; q_norm := qn; k_norm := kn |}.

(** A gated MLP's shards of its merged parameter, in the order they come, and its down projection. *)
Definition load_gated {S} (hidden intermediate : nat) (order : list nat) (gate_up : nat -> mat) (down : mat)
    (m : Qwen3MLP (F := F)) : M S (Qwen3MLP (F := F)) :=
  let! l := load_weight (for_each order (fun j =>
    MergedColumn_weight_loader (gate_up_proj m) (Mat hidden (gate_up j)) j)) (mg_linear (gate_up_proj m)) in
  let! d := load_weight (RowParallel_weight_loader (down_proj m) (Mat intermediate down)) (down_proj m) in
  ret {| gate_up_proj := {| mg_linear := l; output_sizes := output_sizes (gate_up_proj m) |}; down_proj := d |}.

Definition load_mlp {S} (hidden intermediate : nat) (o : Orders) (ck : LayerWeights) : Qwen3MLP (F := F) -> M S (Qwen3MLP (F := F)) :=
  load_gated hidden intermediate (gate_up_order o) (w_gate_up ck) (w_down ck).

Definition load_layer {S} (c : Qwen3Config (F := F)) (o : Orders) (ck : LayerWeights) (l : Qwen3DecoderLayer (F := F))
    : M S (Qwen3DecoderLayer (F := F)) :=
  let! a := load_attention (hidden_size c) o ck (self_attn l) in
  let! m := load_mlp (hidden_size c) (intermediate_size c) o ck (mlp l) in
  let! n1 := load_norm (w_input_norm ck) (input_layernorm l) in
  let! n2 := load_norm (w_post_norm ck) (post_attention_layernorm l) in
  ret {| self_attn := a; mlp := m; input_layernorm := n1; post_attention_layernorm := n2 |}.

Definition load_embedding {S} (hidden : nat) (w : mat) (e : VocabParallelEmbedding F)
    : M S (VocabParallelEmbedding F) :=
  let! p := run_on (ve_weight e) (Embedding_weight_loader e (Mat hidden w)) in
  ret {| ve_rank := ve_rank e; ve_size := ve_size e; num_embeddings := num_embeddings e;
         num_embeddings_per_partition := num_embeddings_per_partition e; vocab_start_idx := vocab_start_idx e;
         vocab_end_idx := vocab_end_idx e; ve_weight := p |}.

(** A rank builds the model and loads it; a tied head is not in the checkpoint. *)
Definition build {S} (g : Group) (c : Qwen3Config (F := F)) (rope : RotaryEmbedding F) (os : nat -> Orders)
    (ck : Checkpoint) : M S (Qwen3ForCausalLM (F := F)) :=
  let! m := Qwen3ForCausalLM_init g c rope in
  let! e := load_embedding (hidden_size c) (w_embed ck) (embed_tokens (model m)) in
  let! ls := collect (zip (zip (seq 0 (length (w_layers ck))) (w_layers ck)) (layers (model m)))
    (fun '(j, w, l) => load_layer c (os j) w l) in
  let! n := load_norm (w_norm ck) (norm (model m)) in
  let! h := (if tied m then ret (lm_head m) else load_embedding (hidden_size c) (w_head ck) (lm_head m)) in
  ret {| model := {| embed_tokens := e; layers := ls; norm := n |}; lm_head := h; tied := tied m |}.

End Load.

Arguments LayerWeights : clear implicits.
Arguments Checkpoint : clear implicits.

Lemma wp_run_on {S T A} (t : T) (m : M T A) (s : S) Q : wp m t (fun _ t' => Q t' s) -> wp (run_on t m) s Q.
Proof. unfold wp, run_on. by destruct (m t) as [[e|a] t']. Qed.

(** ** The part of a rank *)

Section Parts.
Context {F : Type} `{!Scalar F} `{!Torch F}.
Local Abbreviation mat := (list (list F)).

(** The sizes: [n] ranks, each with [hk] key-value heads of [gq] queries each,
    [m] of the MLP's intermediate entries and [vk] of the vocabulary. *)
Record Sizes := { hk : nat; gq : nat; dim : nat; hid : nat; im : nat; vk : nat }.

Definition total_kv (z : Sizes) (n : nat) : nat := n * hk z.
Definition total_q (z : Sizes) (n : nat) : nat := n * (hk z * gq z).

Variable n : nat.
Variable z : Sizes.
Variable c : Qwen3Config (F := F).
Hypothesis Hn : 0 < n.

Record ConfigOk : Prop := {
  co_q : num_attention_heads c = n * (hk z * gq z);
  co_kv : num_key_value_heads c = n * hk z;
  co_dim : cf_head_dim c = Some (dim z) /\ 0 < dim z;
  co_hidden : hidden_size c = hid z;
  co_inter : intermediate_size c = n * im z;
  co_vocab : vocab_size c = n * vk z;
  co_act : hidden_act c = "silu"%string;
  co_kv_pos : 0 < hk z
}.

Hypothesis Hc : ConfigOk.

Definition has_bias : bool := default true (attention_bias c).

(** The rows of the three projections. *)
Definition qkv_rows : list nat := [hk z * gq z * dim z; hk z * dim z; hk z * dim z].

Record LayerOk (ck : LayerWeights F) : Prop := {
  lo_qkv j k : qkv_rows !! j = Some k -> length (w_qkv ck j) = n * k /\ wide (hid z) (w_qkv ck j);
  lo_bias j k : has_bias = true -> qkv_rows !! j = Some k -> length (b_qkv ck j) = n * k;
  lo_o : length (w_o ck) = hid z /\ wide (n * (hk z * gq z * dim z)) (w_o ck);
  lo_head_norms : length (w_q_norm ck) = dim z /\ length (w_k_norm ck) = dim z;
  lo_gate_up j : j < 2 -> length (w_gate_up ck j) = n * im z /\ wide (hid z) (w_gate_up ck j);
  lo_down : length (w_down ck) = hid z /\ wide (n * im z) (w_down ck);
  lo_norms : length (w_input_norm ck) = hid z /\ length (w_post_norm ck) = hid z
}.

Record CheckpointOk (ck : Checkpoint F) : Prop := {
  ck_embed : length (w_embed ck) = n * vk z /\ wide (hid z) (w_embed ck);
  ck_layers : length (w_layers ck) = num_hidden_layers c /\ Forall LayerOk (w_layers ck);
  ck_norm : length (w_norm ck) = hid z;
  ck_head : tie_word_embeddings c = false -> length (w_head ck) = n * vk z /\ wide (hid z) (w_head ck)
}.

Definition OrdersOk (o : Orders) : Prop :=
  qkv_order o ≡ₚ seq 0 3 /\ bias_order o ≡ₚ seq 0 3 /\ gate_up_order o ≡ₚ seq 0 2.

(** The first parts of three projections, then of the next: rank [i]'s rows. *)
Definition merged_rows {A} (i k : nat) (w : nat -> list A) : list A := concat ((fun j => shard n i (w j)) <$> seq 0 k).

Definition norm_of (w : list F) : RMSNorm F := {| rn_eps := rms_norm_eps c; rn_weight := Vec w |}.

Definition attention_part (i layer : nat) (rope : RotaryEmbedding F) (ck : LayerWeights F) : Qwen3Attention (F := F) :=
  {| qa_layer := layer; qa_rank := i; qa_num_heads := hk z * gq z; qa_num_kv_heads := hk z; head_dim := dim z;
     q_size := hk z * gq z * dim z; kv_size := hk z * dim z; qkv_bias := has_bias;
     qkv_proj :=
       {| qkv_linear := {| tp_dim := Some 0; tp_rank := i; tp_size := n;
            weight := Mat (hid z) (merged_rows i 3 (w_qkv ck));
            bias := if has_bias then Some (Vec (merged_rows i 3 (b_qkv ck))) else None |};
          head_size := dim z; num_heads := hk z * gq z; num_kv_heads := hk z |};
     o_proj := {| tp_dim := Some 1; tp_rank := i; tp_size := n;
       weight := Mat (hk z * gq z * dim z) (shard n i <$> w_o ck); bias := None |};
     rotary_emb := rope;
     q_norm := if has_bias then None else Some (norm_of (w_q_norm ck));
     k_norm := if has_bias then None else Some (norm_of (w_k_norm ck)) |}.

(** A rank's part of a gated MLP of [n * m] intermediate entries. *)
Definition gated_part (i hidden m : nat) (gate_up : nat -> mat) (down : mat) : Qwen3MLP (F := F) :=
  {| gate_up_proj :=
       {| mg_linear := {| tp_dim := Some 0; tp_rank := i; tp_size := n;
            weight := Mat hidden (merged_rows i 2 gate_up); bias := None |};
          output_sizes := [n * m; n * m] |};
     down_proj := {| tp_dim := Some 1; tp_rank := i; tp_size := n; weight := Mat m (shard n i <$> down);
       bias := None |} |}.

Definition mlp_part (i : nat) (ck : LayerWeights F) : Qwen3MLP (F := F) :=
  gated_part i (hid z) (im z) (w_gate_up ck) (w_down ck).

Definition layer_part (i layer : nat) (rope : RotaryEmbedding F) (ck : LayerWeights F) : Qwen3DecoderLayer (F := F) :=
  {| self_attn := attention_part i layer rope ck; mlp := mlp_part i ck;
     input_layernorm := norm_of (w_input_norm ck); post_attention_layernorm := norm_of (w_post_norm ck) |}.

Definition model_part (i : nat) (rope : RotaryEmbedding F) (ck : Checkpoint F) (h : VocabParallelEmbedding F)
    : Qwen3ForCausalLM (F := F) :=
  {| model :=
       {| embed_tokens := embedding_part n i (vk z) (hid z) (w_embed ck);
          layers := imap (fun l w => layer_part i l rope w) (w_layers ck);
          norm := norm_of (w_norm ck) |};
     lm_head := h; tied := tie_word_embeddings c |}.

(** ** Loading yields the part *)

Lemma mod_mul_l a b : a <> 0 -> (a * b) mod a = 0.
Proof using. intros Ha. rewrite Nat.mul_comm. by apply Nat.Div0.mod_mul. Qed.

Lemma wp_divide {S} k (s : S) Q : Q k s -> wp (divide (n * k) n) s Q.
Proof using Hn.
  intros HQ. unfold divide. destruct (Nat.eqb_spec n 0); [lia|].
  apply wp_bind, wp_assert; [by rewrite mod_mul_l|]. apply wp_ret. by rewrite Nat.mul_comm, Nat.div_mul.
Qed.

Lemma empty2_rows r k : exists m, empty2 (F := F) r k = Mat k m /\ length m = r.
Proof using. eexists. split; [done|]. by rewrite length_fmap, length_seq. Qed.

Lemma empty1_rows r : exists v, empty1 (F := F) r = Vec v /\ length v = r.
Proof using. eexists. split; [done|]. by rewrite length_fmap, length_seq. Qed.

Lemma load_norm_spec {S} w k (s : S) Q : length w = k -> Q (norm_of w) s ->
  wp (load_norm w (RMSNorm_init k (rms_norm_eps c))) s Q.
Proof using.
  intros Hl HQ. unfold load_norm. apply wp_bind, wp_run_on.
  apply (wp_copy_whole Vec (fun _ => True)); [by apply Forall_true|by rewrite length_replicate|]. by apply wp_ret.
Qed.

Lemma shards_length {A} i k w : i < n -> length w = n * k -> length (shard (A := A) n i w) = k.
Proof using. intros Hi Hl. by apply shard_length. Qed.

(** A fresh module that loads to a given part. *)
Definition loads_to {S A} (s : S) (load : A -> M S A) (part a : A) : Prop :=
  forall Q : A -> S -> Prop, Q part s -> wp (load a) s Q.

Lemma attention_spec {S} i layer rope (s : S) : i < n ->
  wp (Qwen3Attention_init {| rank := i; world_size := n |} layer (hidden_size c) (num_attention_heads c)
        (num_key_value_heads c) (cf_head_dim c) (rms_norm_eps c) has_bias rope) s (fun a s' => s' = s /\
    forall ck o, LayerOk ck -> OrdersOk o ->
      loads_to s (load_attention (hidden_size c) o ck) (attention_part i layer rope ck) a).
Proof using Hn Hc.
  intros Hi. destruct Hc as [Cq Ckv [Cd Cd0] Ch _ _ _ Ckv0].
  unfold Qwen3Attention_init. rewrite Cq, Ckv, Cd, Ch. cbn [world_size rank].
  apply wp_bind, wp_divide. apply wp_bind, wp_divide. destruct (dim z) as [|d'] eqn:Hd; [lia|].
  rewrite <-Hd. apply wp_bind, wp_ret, wp_bind. unfold QKVParallelLinear. cbn [world_size rank].
  destruct (n * hk z) as [|tk] eqn:Htk; [nia|]. rewrite <-Htk.
  apply wp_bind, wp_divide. apply wp_bind, wp_divide. apply wp_bind. unfold ColumnParallelLinear. cbn [world_size].
  replace ((n * (hk z * gq z) + 2 * (n * hk z)) * dim z)
    with (n * (hk z * gq z * dim z + hk z * dim z + hk z * dim z)) by lia.
  apply wp_bind, wp_divide, wp_ret, wp_ret. apply wp_bind. unfold RowParallelLinear. cbn [world_size].
  replace (n * (hk z * gq z) * dim z) with (n * (hk z * gq z * dim z)) by lia.
  apply wp_bind, wp_divide, wp_ret, wp_ret. split; [done|]. intros ck o Hck (Ho & Hob & _) Q HQ.
  unfold load_attention, load_weight, LinearBase. cbn [qkv_proj qkv_linear o_proj weight bias tp_dim tp_rank tp_size q_norm k_norm q_size].
  destruct (empty2_rows (hk z * gq z * dim z + hk z * dim z + hk z * dim z) (hid z)) as (m0 & He0 & Hm0).
  destruct (empty2_rows (hid z) (hk z * gq z * dim z)) as (m1 & He1 & Hm1). rewrite He0, He1.
  apply wp_bind, wp_bind, wp_run_on. eapply wp_mono.
  { match goal with |- context [QKV_weight_loader ?p] =>
      apply (QKV_load (Mat (hid z)) (fun r => length r = hid z) p n (w_qkv ck)) end; try done.
    intros j k Hj. by apply (lo_qkv ck Hck j k). }
  intros _ p ->. apply wp_ret. unfold load_bias. cbn [bias tp_dim tp_rank tp_size weight].
  assert (Hrest : forall b (Hb : b = if has_bias then Some (Vec (merged_rows i 3 (b_qkv ck))) else None), 
    wp (let! o_lin := load_weight (RowParallel_weight_loader
          {| tp_dim := Some 1; tp_rank := i; tp_size := n; weight := Mat (hk z * gq z * dim z) m1; bias := None |}
          (Mat (n * (hk z * gq z * dim z)) (w_o ck)))
          {| tp_dim := Some 1; tp_rank := i; tp_size := n; weight := Mat (hk z * gq z * dim z) m1; bias := None |} in
        let! qn := load_head_norm (w_q_norm ck) (if has_bias then None else Some (RMSNorm_init (dim z) (rms_norm_eps c))) in
        let! kn := load_head_norm (w_k_norm ck) (if has_bias then None else Some (RMSNorm_init (dim z) (rms_norm_eps c))) in
        ret {| qa_layer := layer; qa_rank := i; qa_num_heads := hk z * gq z; qa_num_kv_heads := hk z;
               head_dim := dim z; q_size := hk z * gq z * dim z; kv_size := hk z * dim z; qkv_bias := has_bias;
               qkv_proj := {| qkv_linear := {| tp_dim := Some 0; tp_rank := i; tp_size := n;
                   weight := Mat (hid z) (merged_rows i 3 (w_qkv ck)); bias := b |};
                 head_size := dim z; num_heads := hk z * gq z; num_kv_heads := hk z |};
               o_proj := o_lin; rotary_emb := rope; q_norm := qn; k_norm := kn |}) s Q).
  { intros b ->. unfold load_weight. cbn [weight tp_dim tp_rank tp_size bias].
    apply wp_bind, wp_bind, wp_run_on. destruct (lo_o ck Hck) as [Hol How]. eapply wp_mono.
    { apply (Row_load _ (hk z * gq z * dim z) n (w_o ck) m1); try done. by rewrite Hm1, Hol. }
    intros _ p ->. cbn [tp_rank]. apply wp_ret. destruct (lo_head_norms ck Hck) as [Hqn Hkn].
    unfold attention_part in HQ. destruct has_bias; simpl in *; unfold load_head_norm.
    - apply wp_bind, wp_ret, wp_bind, wp_ret, wp_ret. done.
    - apply wp_bind, wp_bind, load_norm_spec; [done|]. apply wp_ret, wp_bind, wp_bind, load_norm_spec; [done|].
      apply wp_ret, wp_ret. done. }
  apply wp_bind. destruct has_bias eqn:Hb.
  - destruct (empty1_rows (hk z * gq z * dim z + hk z * dim z + hk z * dim z)) as (v0 & Hv0 & Hvl). rewrite Hv0.
    apply wp_bind, wp_run_on. eapply wp_mono.
    { match goal with |- context [QKV_weight_loader ?p] =>
        apply (QKV_load Vec (fun _ => True) p n (b_qkv ck)) end; try done.
      intros j k Hj. split; [by apply (lo_bias ck Hck j k)|by apply Forall_true]. }
    intros _ p ->. apply wp_ret. by apply Hrest.
  - apply wp_ret. by apply Hrest.
Qed.

Lemma gated_spec {S} i hidden m (s : S) : i < n ->
  wp (Qwen3MLP_init {| rank := i; world_size := n |} hidden (n * m) "silu") s (fun p s' => s' = s /\
    forall gate_up down order, (forall j, j < 2 -> length (gate_up j) = n * m /\ wide hidden (gate_up j)) ->
      length down = hidden /\ wide (n * m) down -> order ≡ₚ seq 0 2 ->
      loads_to s (load_gated hidden (n * m) order gate_up down) (gated_part i hidden m gate_up down) p).
Proof using Hn.
  clear Hc. intros Hi. unfold Qwen3MLP_init, MergedColumnParallelLinear, ColumnParallelLinear, RowParallelLinear. cbn [world_size rank].
  replace (sum_list [n * m; n * m]) with (n * (m + m)) by (simpl; unfold id; lia).
  apply wp_bind, wp_bind, wp_bind, wp_divide, wp_ret, wp_ret, wp_bind, wp_bind, wp_divide, wp_ret, wp_bind.
  apply wp_assert; [done|]. apply wp_ret. split; [done|]. intros gate_up down order Hgu [Hdl Hdw] Ho Q HQ. unfold load_gated, load_weight, LinearBase.
  cbn [gate_up_proj down_proj mg_linear output_sizes weight bias tp_dim tp_rank tp_size].
  destruct (empty2_rows (m + m) hidden) as (m0 & -> & Hm0). destruct (empty2_rows hidden m) as (m1 & -> & Hm1).
  apply wp_bind, wp_bind, wp_run_on. eapply wp_mono.
  { match goal with |- context [MergedColumn_weight_loader ?p] =>
      apply (Merged_load (Mat hidden) (fun r => length r = hidden) p n [m; m] gate_up) end; try done.
    - intros j k Hj. assert (j < 2) by (apply lookup_lt_Some in Hj; done).
      assert (k = m) as -> by (destruct j as [|[|]]; simpl in Hj; congruence || lia). by apply Hgu.
    - simpl. unfold id. lia. }
  intros _ p ->. apply wp_ret, wp_bind, wp_bind, wp_run_on. eapply wp_mono.
  { apply (Row_load _ m n down m1); try done. by rewrite Hm1, Hdl. }
  intros _ p ->. by apply wp_ret, wp_ret.
Qed.

Lemma mlp_spec {S} i (s : S) : i < n ->
  wp (Qwen3MLP_init {| rank := i; world_size := n |} (hidden_size c) (intermediate_size c) (hidden_act c)) s
    (fun m s' => s' = s /\ forall ck o, LayerOk ck -> OrdersOk o ->
      loads_to s (load_mlp (hidden_size c) (intermediate_size c) o ck) (mlp_part i ck) m).
Proof using Hn Hc.
  intros Hi. destruct Hc as [_ _ _ Ch Ci _ Ca _]. rewrite Ch, Ci, Ca.
  eapply wp_mono; [by apply (gated_spec i (hid z) (im z))|]. intros p s' [-> Hp]. split; [done|]. intros ck o Hck (_ & _ & Ho).
  apply Hp; [apply Hck|apply Hck|done].
Qed.

Lemma layer_spec {S} i l rope (s : S) : i < n ->
  wp (Qwen3DecoderLayer_init {| rank := i; world_size := n |} l c rope) s (fun l' s' => s' = s /\
    forall ck o, LayerOk ck -> OrdersOk o -> loads_to s (load_layer c o ck) (layer_part i l rope ck) l').
Proof using Hn Hc.
  intros Hi. unfold Qwen3DecoderLayer_init.
  apply wp_bind. eapply wp_mono; [by apply (attention_spec i l rope)|]. intros a s' [-> Ha].
  apply wp_bind. eapply wp_mono; [by apply (mlp_spec i)|]. intros m s' [-> Hm].
  apply wp_ret. split; [done|]. intros ck o Hck Ho Q HQ. unfold load_layer.
  cbn [self_attn mlp input_layernorm post_attention_layernorm].
  apply wp_bind, Ha; [done|done|]. apply wp_bind, Hm; [done|done|]. destruct Hc as [_ _ _ Ch _ _ _ _]. rewrite Ch. destruct (lo_norms ck Hck) as [H1 H2].
  apply wp_bind, load_norm_spec; [done|]. apply wp_bind, load_norm_spec; [done|]. by apply wp_ret.
Qed.

Lemma embedding_spec {S} i (s : S) : i < n ->
  wp (VocabParallelEmbedding_init {| rank := i; world_size := n |} (vocab_size c) (hidden_size c)) s (fun e s' => s' = s /\
    (forall w, length w = n * vk z -> wide (hid z) w ->
      loads_to s (load_embedding (hidden_size c) w) (embedding_part n i (vk z) (hid z) w) e) /\
    exists p, e = {| ve_rank := i; ve_size := n; num_embeddings := n * vk z; num_embeddings_per_partition := vk z;
      vocab_start_idx := Z.of_nat (vk z * i); vocab_end_idx := Z.of_nat (vk z * i) + Z.of_nat (vk z); ve_weight := p |}).
Proof using Hn Hc.
  intros Hi. destruct Hc as [_ _ _ Ch _ Cv _ _]. rewrite Ch, Cv. apply Embedding_init_spec; [done|].
  intros p Hp. split; [done|]. split; [|by exists p]. intros w Hl Hw Q HQ. unfold load_embedding. cbn [ve_weight].
  apply wp_bind, wp_run_on. unfold Embedding_weight_loader. cbn [ve_rank]. wp_steps. unfold id.
  destruct (empty2_rows (vk z) (hid z)) as (m & Hm & Hml). rewrite Hp, Hm. apply (mk_size (mk := Mat (hid z))).
  rewrite Hml. apply wp_bind. assert (i * vk z + vk z <= n * vk z) by nia.
  apply (wp_narrow (Mat (hid z)) (fun r => length r = hid z)); [lia|]. rewrite <-(shard_cut n) by done.
  apply (wp_copy_whole (Mat (hid z)) (fun r => length r = hid z)); [by apply wide_shard| |by apply wp_ret].
  rewrite (shard_length n i (vk z)); [done|done|done].
Qed.

Lemma collect_elements {S A B} (l : list A) (f : A -> M S B) (P : A -> B -> Prop) (s : S) Q :
  (forall x, x ∈ l -> wp (f x) s (fun y s' => s' = s /\ P x y)) ->
  (forall ys, Forall2 P l ys -> Q ys s) -> wp (collect l f) s Q.
Proof using.
  revert Q. induction l as [|x l IH]; intros Q Hf HQ; simpl; [apply wp_ret, HQ; constructor|].
  apply wp_bind. eapply wp_mono; [apply Hf; constructor|]. intros y s' [-> Hy]. apply wp_bind, IH.
  - intros x' Hx'. apply Hf. by constructor.
  - intros ys Hys. apply wp_ret, HQ. by constructor.
Qed.

(** A rank's model, built and loaded, is its part; a head of its own is loaded like the embedding. *)
Definition is_part (i : nat) (rope : RotaryEmbedding F) (ck : Checkpoint F) (m : Qwen3ForCausalLM (F := F)) : Prop :=
  exists h, m = model_part i rope ck h /\
    head_of m = embedding_part n i (vk z) (hid z) (if tie_word_embeddings c then w_embed ck else w_head ck).

Lemma build_spec {S} i rope ck os (s : S) : i < n -> CheckpointOk ck -> (forall l, OrdersOk (os l)) ->
  wp (build {| rank := i; world_size := n |} c rope os ck) s (fun m s' => s' = s /\ is_part i rope ck m).
Proof using Hn Hc.
  intros Hi [[Hel Hew] [Hll Hlo] Hnl Hhead] Hos. unfold build, Qwen3ForCausalLM_init, Qwen3Model_init, LMHead_init.
  apply wp_bind, wp_bind, wp_bind. eapply wp_mono; [by apply (embedding_spec i)|]. intros e s' (-> & He & _).
  apply wp_bind. apply (collect_elements _ _ (fun l l' => forall ck o, LayerOk ck -> OrdersOk o ->
    loads_to s (load_layer c o ck) (layer_part i l rope ck) l')); [by intros l _; apply layer_spec|].
  intros ls Hls. apply wp_ret, wp_bind, wp_bind, wp_assert; [done|].
  eapply wp_mono; [by apply (embedding_spec i)|]. intros h s' (-> & Hh & p & Hp). apply wp_ret.
  cbn [model embed_tokens layers norm lm_head tied].
  apply wp_bind, He; [done|done|]. apply wp_bind.
  apply (collect_elements _ _ (fun jwl l => l = layer_part i jwl.1.1 rope jwl.1.2)).
  { intros [[j w] l] Hin. cbn [fst snd]. apply list_elem_of_lookup in Hin as [t Ht].
    apply lookup_zip_Some in Ht as [Hjw Hl]. apply lookup_zip_Some in Hjw as [Hj Hw]. cbn [fst snd] in *.
    rewrite Forall2_lookup in Hls. specialize (Hls t). rewrite <-Hll, Hj, Hl in Hls. inversion Hls as [x y Hxy|]. subst.
    apply Hxy; [by apply (Forall_lookup_1 _ _ t w Hlo)|done|done]. }
  intros ls' Hls'. apply wp_bind. apply Forall2_length in Hls as Hlen. rewrite length_seq in Hlen.
  destruct Hc as [_ _ _ Ch _ _ _ _]. rewrite Ch at 1. apply load_norm_spec; [done|].
  assert (Hl' : ls' = imap (fun l w => layer_part i l rope w) (w_layers ck)).
  { apply list_eq. intros t. rewrite list_lookup_imap. rewrite Forall2_lookup in Hls'. specialize (Hls' t).
    destruct (w_layers ck !! t) as [w|] eqn:Hw.
    - assert (Ht : t < length (w_layers ck)) by by apply lookup_lt_Some in Hw.
      destruct (lookup_lt_is_Some_2 ls t) as [l Hl]; [lia|].
      assert (Hz : zip (zip (seq 0 (length (w_layers ck))) (w_layers ck)) ls !! t = Some (t, w, l)).
      { apply lookup_zip_Some. split; [|done]. apply lookup_zip_Some. split; [|done]. by rewrite lookup_seq_lt. }
      rewrite Hz in Hls'. inversion Hls' as [x y Hxy|]. subst. by simpl.
    - rewrite lookup_ge_None_2 in Hls'; [by inversion Hls'|].
      apply lookup_ge_None in Hw. rewrite !length_zip_with. lia. }
  subst ls'. unfold is_part, model_part. apply wp_bind. destruct (tie_word_embeddings c) eqn:Ht.
  - apply wp_ret, wp_ret. split; [done|]. exists h. split; [done|]. subst h. done.
  - destruct (Hhead eq_refl) as [Hhl Hhw]. apply Hh; [done|done|]. apply wp_ret. split; [done|]. by eexists.
Qed.

End Parts.
