(* ===== verification/Qwen3Facts.v ===== *)
(** * What the ranks of a Qwen3 model compute

    The model as functions of the checkpoint's whole tensors, and that the
    ranks' programs, in lockstep, compute them. *)


From Stdlib Require Import Reals.
From S2P Require Import Prelude Tensors Ranks Linear EmbedHead Qwen3 Qwen3Load.

Section Whole.
Context {F : Type} `{!Scalar F} `{!Torch F} `{!HeadAttention F}.
Local Abbreviation mat := (list (list F)).
Variable c : Qwen3Config (F := F).
Variable kv_heads group d : nat.
Variable rope : RotaryEmbedding F.

(** ** The whole model *)

Definition gated (g u : list F) : list F := vmul (silu <$> g) u.

Definition mlp_whole (ck : LayerWeights F) (x : mat) : mat :=
  linear ((fun r => gated (dot r <$> w_gate_up ck 0) (dot r <$> w_gate_up ck 1)) <$> x) (w_down ck) None.

Definition projected (ck : LayerWeights F) (j : nat) (r : list F) : list F :=
  add_bias (if has_bias c then Some (b_qkv ck j) else None) (dot r <$> w_qkv ck j).

Definition normed (w : list F) (heads : mat) : mat := if has_bias c then heads else rms_forward (norm_of c w) heads.

Definition queries (ck : LayerWeights F) (cs x : mat) : list mat :=
  zip_with (rotate_heads rope) cs
    ((fun r => normed (w_q_norm ck) (pieces d (kv_heads * group) (projected ck 0 r))) <$> x).
Definition keys (ck : LayerWeights F) (cs x : mat) : list mat :=
  zip_with (rotate_heads rope) cs ((fun r => normed (w_k_norm ck) (pieces d kv_heads (projected ck 1 r))) <$> x).
Definition values (ck : LayerWeights F) (x : mat) : list mat := (fun r => pieces d kv_heads (projected ck 2 r)) <$> x.

Definition attention_whole (l : nat) (ck : LayerWeights F) (cs x : mat) : mat :=
  linear ((fun heads => concat heads) <$>
    headwise (attend_head l) 0 kv_heads group (queries ck cs x) (keys ck cs x) (values ck x)) (w_o ck) None.

Definition entering (ck : LayerWeights F) (x : mat) (residual : option mat) : mat * mat :=
  match residual with
  | None => (rms_forward (norm_of c (w_input_norm ck)) x, x)
  | Some r => add_rms_forward (norm_of c (w_input_norm ck)) x r
  end.

Definition layer_whole (l : nat) (ck : LayerWeights F) (cs x : mat) (residual : option mat) : mat * mat :=
  let '(x, residual) := entering ck x residual in
  let '(x, residual) := add_rms_forward (norm_of c (w_post_norm ck)) (attention_whole l ck cs x) residual in
  (mlp_whole ck x, residual).

Fixpoint layers_whole (l : nat) (cks : list (LayerWeights F)) (cs x : mat) (residual : option mat) : mat * option mat :=
  match cks with
  | [] => (x, residual)
  | ck :: cks' => let '(x, residual) := layer_whole l ck cs x residual in layers_whole (S l) cks' cs x (Some residual)
  end.

End Whole.

(** ** A rank's part of it *)

Lemma collect_pure {S A B} (l : list A) (f : A -> M S B) (g : A -> B) (s : S) :
  (forall x, x ∈ l -> f x s = (inr (g x), s)) -> collect l f s = (inr (g <$> l), s).
Proof.
  induction l as [|x l IH]; intros Hf; [done|]. simpl. unfold bind. rewrite Hf by constructor.
  rewrite IH; [done|]. intros y Hy. apply Hf. by constructor.
Qed.

Lemma expand_same {A} (l : list A) k : length l = k -> expand k l = Some l.
Proof. intros <-. unfold expand. by rewrite Nat.eqb_refl. Qed.

Lemma vadd_app {F} `{!Scalar F} (a b a' b' : list F) : length a = length a' ->
  vadd (a ++ b) (a' ++ b') = vadd a a' ++ vadd b b'.
Proof. intros Hl. unfold vadd. by rewrite zip_with_app. Qed.

Lemma gated_shard {F} `{!Scalar F} `{!Torch F} n i (a b : list F) : length a = length b ->
  shard n i (gated a b) = gated (shard n i a) (shard n i b).
Proof. intros Hl. unfold gated, vmul. rewrite shard_zip_with by by rewrite length_fmap. by rewrite shard_fmap. Qed.

Lemma split3_shares {F S} a b (x y w : list F) (s : S) : length x = a -> length y = b -> length w = b ->
  split3 a b (x ++ y ++ w) s = (inr (x, y, w), s).
Proof.
  intros Hx Hy Hw. unfold split3. rewrite !length_app, Hx, Hy, Hw.
  destruct (Nat.eqb_spec (a + b + b) (a + (b + b))); [|lia]. unfold ret, cut.
  rewrite take_app_length', drop_app_length', take_app_length' by done. rewrite app_assoc, drop_app_length'; [done|].
  rewrite length_app. lia.
Qed.

Lemma collect_fmap_pure {S X A B} (l : list X) (h : X -> A) (f : A -> M S B) (g : X -> B) (s : S) :
  (forall x, x ∈ l -> f (h x) s = (inr (g x), s)) -> collect (h <$> l) f s = (inr (g <$> l), s).
Proof.
  intros Hf. induction l as [|x l IH]; [done|]. rewrite !fmap_cons. simpl. unfold bind. rewrite Hf by constructor.
  rewrite IH; [done|]. intros y Hy. apply Hf. by constructor.
Qed.

(** ** Heads *)

Section Headwise.
Context {F : Type}.
Local Abbreviation mat := (list (list F)).
Variable attend : nat -> list mat -> mat -> mat -> list mat.

(** What one head's attention returns: for each token, the outputs of the head's queries. *)
Definition HeadOk (g d h : nat) (q : list mat) (k v : list mat) : Prop :=
  let o := attend h (query_group g h q) (column h k) (column h v) in
  length o = length q /\ wide g o /\ Forall (wide d) o.

Lemma head_at g d h q k v t : HeadOk g d h q k v -> t < length q ->
  length (default [] (attend h (query_group g h q) (column h k) (column h v) !! t)) = g /\
  wide d (default [] (attend h (query_group g h q) (column h k) (column h v) !! t)).
Proof using.
  intros (Hl & Hg & Hd) Ht.
  destruct (lookup_lt_is_Some_2 (attend h (query_group g h q) (column h k) (column h v)) t) as [o Ho]; [lia|].
  rewrite Ho. simpl. split; [exact (wide_lookup g _ t o Hg Ho)|exact (Forall_lookup_1 _ _ t o Hd Ho)].
Qed.

Lemma query_group_shard n i hk g h (q : list mat) : i < n -> h < hk -> wide (n * hk * g) q ->
  query_group g h ((fun heads => shard n i heads) <$> q) = query_group g (i * hk + h) q.
Proof using.
  intros Hi Hh Hq. unfold query_group. rewrite <-list_fmap_compose. apply list_fmap_ext. intros t heads Ht. simpl.
  pose proof (wide_lookup _ q t heads Hq Ht) as Hl. rewrite (shard_cut n i (hk * g)) by lia.
  rewrite cut_cut by (assert (h * g + g <= hk * g) by nia; lia). f_equal. lia.
Qed.

Lemma column_shard n i hk h (k : list mat) : i < n -> h < hk -> wide (n * hk) k ->
  column h ((fun heads => shard n i heads) <$> k) = column (i * hk + h) k.
Proof using.
  intros Hi Hh Hk. unfold column. rewrite <-list_fmap_compose. apply list_fmap_ext. intros t heads Ht. simpl.
  pose proof (wide_lookup _ k t heads Hk Ht) as Hl. by rewrite (shard_cut n i hk), cut_lookup by lia.
Qed.

(** A rank's attention: its share of every token's heads. *)
Lemma headwise_shard n i hk g d (q k v : list mat) :
  i < n -> wide (n * hk * g) q -> wide (n * hk) k -> wide (n * hk) v ->
  (forall h, h < n * hk -> HeadOk g d h q k v) ->
  headwise attend (i * hk) hk g ((fun heads => shard n i heads) <$> q) ((fun heads => shard n i heads) <$> k)
    ((fun heads => shard n i heads) <$> v) =
  (fun heads => shard n i heads) <$> headwise attend 0 (n * hk) g q k v.
Proof using.
  intros Hi Hq Hk Hv Hok. unfold headwise. rewrite imap_fmap, fmap_imap. apply imap_ext.
  intros t heads Ht%lookup_lt_Some. unfold compose. simpl.
  set (A := fun h => default [] (attend h (query_group g h q) (column h k) (column h v) !! t)).
  transitivity (concat ((fun h => A (i * hk + h)) <$> seq 0 hk)).
  { f_equal. apply list_fmap_ext. intros _ h Hh%list_elem_of_lookup_2%elem_of_seq. unfold A.
    by rewrite (query_group_shard n i hk g), !(column_shard n i hk) by (done || lia). }
  rewrite <-(concat_shard g n hk); [|apply Forall_fmap, Forall_forall|by rewrite length_fmap, length_seq|done].
  - f_equal. rewrite shard_fmap, (shard_cut n i hk) by (rewrite ?length_seq; done).
    rewrite cut_seq by nia. replace (seq (i * hk) hk) with (Nat.add (i * hk) <$> seq 0 hk)
      by by rewrite fmap_add_seq, Nat.add_0_r.
    by rewrite <-list_fmap_compose.
  - intros h Hh%elem_of_seq. simpl. destruct (head_at g d h q k v t) as [Hl _]; [apply Hok; lia|done|done].
Qed.

Lemma headwise_ok nkv g d (q k v : list mat) : (forall h, h < nkv -> HeadOk g d h q k v) ->
  length (headwise attend 0 nkv g q k v) = length q /\ wide (nkv * g) (headwise attend 0 nkv g q k v) /\
  Forall (wide d) (headwise attend 0 nkv g q k v).
Proof using.
  intros Hok. unfold headwise. rewrite length_imap. split; [done|].
  assert (Hrow : forall t x, imap (fun t _ => concat ((fun h => default []
      (attend (0 + h) (query_group g h q) (column h k) (column h v) !! t)) <$> seq 0 nkv)) q !! t = Some x ->
    length x = nkv * g /\ wide d x).
  { intros t x Hx. rewrite list_lookup_imap in Hx. destruct (q !! t) as [heads|] eqn:Ht; [|done]. injection Hx as <-.
    apply lookup_lt_Some in Ht. simpl. split.
    - rewrite (wide_concat_length g), length_fmap, length_seq; [done|]. apply Forall_fmap, Forall_forall.
      intros h Hh%elem_of_seq. simpl. apply (head_at g d); [apply Hok; lia|done].
    - apply Forall_concat, Forall_fmap, Forall_forall. intros h Hh%elem_of_seq. simpl.
      apply (head_at g d); [apply Hok; lia|done]. }
  split; apply Forall_lookup; intros t x Hx; by apply (Hrow t).
Qed.

End Headwise.

Lemma evens_length {A} e (l : list A) : length l = 2 * e -> length (evens l) = e.
Proof.
  revert l. induction e as [|e IH]; intros [|x [|y l]] Hl; simpl in *; try lia. f_equal. apply IH. lia.
Qed.

Lemma odds_length {A} e (l : list A) : length l = 2 * e -> length (odds l) = e.
Proof.
  revert l. induction e as [|e IH]; intros [|x [|y l]] Hl; simpl in *; try lia. unfold odds in *. simpl.
  destruct l as [|u l]; simpl in *; [destruct e; lia|]. f_equal. rewrite <-(IH (u :: l)) by (simpl; lia). done.
Qed.

Lemma rotary_length {F} `{!Scalar F} e (x cos sin : list F) neox :
  length x = 2 * e -> length cos = e -> length sin = e -> length (apply_rotary_emb x cos sin neox) = 2 * e.
Proof.
  intros Hx Hc Hs. unfold apply_rotary_emb, rotate, vadd, vmul. destruct neox.
  - replace ((length x + 1) / 2) with e by (apply (Nat.div_unique _ 2 e 1); lia).
    rewrite length_app, !length_zip_with, length_take, length_drop. lia.
  - unfold interleave. rewrite (wide_concat_length 2).
    + rewrite !length_zip_with, (evens_length e), (odds_length e) by done. lia.
    + apply Forall_lookup. intros i y Hy. apply lookup_zip_with_Some in Hy as (a & b & -> & _). done.
Qed.

Section Part.
Context {F : Type} `{!Scalar F} `{!Torch F} `{!HeadAttention F}.
Local Abbreviation mat := (list (list F)).
Variable n : nat.
Variable z : Sizes.
Variable c : Qwen3Config (F := F).
Variable rope : RotaryEmbedding F.
Variable ck : LayerWeights F.
Hypothesis Hn : 0 < n.
Hypothesis Hck : LayerOk n z c ck.

Lemma row_spmd k (w x : mat) (l : nat -> Linear F) Q :
  (forall i, i < n -> l i = {| tp_dim := Some 1; tp_rank := i; tp_size := n; weight := Mat k (shard n i <$> w); bias := None |}) ->
  wide (n * k) w -> wide (n * k) x -> Q (fun _ => linear x w None) ->
  spmd n (fun i => RowParallel_forward (l i) (shard n i <$> x)) Q.
Proof using Hn.
  clear Hck. intros Hl Hw Hx HQ.
  apply spmd_ext with (fun i => if 1 <? n then all_reduce (linear (shard n i <$> x) (shard n i <$> w) (if i =? 0 then None else None))
    else Done (linear (shard n i <$> x) (shard n i <$> w) (if i =? 0 then None else None))).
  { intros i Hi. unfold RowParallel_forward. rewrite Hl by done. done. }
  destruct (Nat.ltb_spec 1 n) as [H1|H1].
  - apply spmd_reduce; [done|]. by rewrite (row_parallel_sum n k x w None).
  - assert (n = 1) as -> by lia. eapply spmd_ext; [|apply (spmd_ret 1 (fun _ => linear x w None)); [done|exact HQ]].
    intros i Hi. assert (i = 0) as -> by lia. rewrite <-(row_parallel_sum 1 k x w None) by done. done.
Qed.

Lemma merged_two {A} i (w : nat -> list A) : merged_rows n i 2 w = shard n i (w 0) ++ shard n i (w 1).
Proof using. unfold merged_rows. simpl. by rewrite app_nil_r. Qed.

Lemma gate_up_part i (x : mat) : i < n -> wide (hid z) x ->
  SiluAndMul_forward (Linear_forward (mg_linear (gate_up_proj (mlp_part n z i ck))) x) tt =
  (inr (shard n i <$> ((fun r => gated (dot r <$> w_gate_up ck 0) (dot r <$> w_gate_up ck 1)) <$> x)), tt).
Proof using Hn Hck.
  intros Hi Hx. destruct (lo_gate_up n z c ck Hck 0) as [Hgl Hgw]; [lia|].
  destruct (lo_gate_up n z c ck Hck 1) as [Hul Huw]; [lia|].
  unfold Linear_forward. cbn [mlp_part gated_part gate_up_proj mg_linear weight bias as_mat]. unfold bias_vec. simpl fmap.
  rewrite merged_two, (linear_eq _ _ _ (hid z)); [|done|apply Forall_app; split; by apply wide_shard|done].
  unfold SiluAndMul_forward.
  rewrite (collect_pure _ _ (fun y => gated (take (im z) y) (drop (im z) y))).
  - do 2 f_equal. rewrite <-!list_fmap_compose. apply list_fmap_ext. intros _ r _. simpl.
    rewrite fmap_app. assert (Hlen : length (dot r <$> shard n i (w_gate_up ck 0)) = im z)
      by (rewrite length_fmap; by apply shard_length).
    rewrite take_app_length', drop_app_length' by done.
    rewrite gated_shard by (rewrite !length_fmap; lia). by rewrite !shard_fmap.
  - intros y Hy. apply list_elem_of_fmap in Hy as (r & -> & _). cbn [add_bias].
    assert (Hlen : length (dot r <$> shard n i (w_gate_up ck 0) ++ shard n i (w_gate_up ck 1)) = im z + im z).
    { rewrite length_fmap, length_app, !(shard_length n i (im z)) by done. done. }
    unfold bind, chunk2. rewrite Hlen. destruct (Nat.eqb_spec (im z + im z) 1); [lia|].
    replace ((im z + im z + 1) / 2) with (im z) by (apply (Nat.div_unique _ 2 (im z) 1); lia).
    unfold ret, bmul. rewrite expand_same; [done|]. rewrite length_fmap, length_take, length_drop, Hlen. lia.
Qed.

Lemma mlp_spmd (x : mat) Q : wide (hid z) x -> Q (fun _ => mlp_whole ck x) ->
  spmd n (fun i => Qwen3MLP_forward (mlp_part n z i ck) x) Q.
Proof using Hn Hck.
  intros Hx HQ. unfold Qwen3MLP_forward. apply spmd_bind.
  apply spmd_ext with (fun i => Done (shard n i <$> ((fun r => gated (dot r <$> w_gate_up ck 0) (dot r <$> w_gate_up ck 1)) <$> x))).
  { intros i Hi. unfold run_local. by rewrite gate_up_part. }
  apply spmd_ret; [done|]. destruct (lo_down n z c ck Hck) as [Hdl Hdw]. cbn [mlp_part gated_part down_proj].
  apply (row_spmd (im z) (w_down ck)); [done|done| |exact HQ].
  apply Forall_fmap, Forall_forall. intros r _. simpl. unfold gated, vmul. rewrite length_zip_with, !length_fmap.
  destruct (lo_gate_up n z c ck Hck 0); [lia|]. destruct (lo_gate_up n z c ck Hck 1); lia.
Qed.

(** ** Attention *)

Hypothesis Heven : exists e, dim z = 2 * e.

Lemma merged_three {A} i (w : nat -> list A) :
  merged_rows n i 3 w = shard n i (w 0) ++ shard n i (w 1) ++ shard n i (w 2).
Proof using. unfold merged_rows. simpl. by rewrite app_nil_r. Qed.

Lemma projected_length j k r : (qkv_rows z) !! j = Some k -> length (projected c ck j r) = n * k.
Proof using Hn Hck.
  intros Hj. unfold projected. destruct (lo_qkv n z c ck Hck j k Hj) as [Hl _].
  destruct (has_bias c) eqn:Hb; simpl; unfold vadd; rewrite ?length_zip_with, length_fmap, Hl; [|done].
  rewrite (lo_bias n z c ck Hck j k Hb Hj). lia.
Qed.

Lemma projected_shard i j k r : i < n -> qkv_rows z !! j = Some k -> shard n i (projected c ck j r) =
  add_bias (if has_bias c then Some (shard n i (b_qkv ck j)) else None) (dot r <$> shard n i (w_qkv ck j)).
Proof using Hn Hck.
  intros Hi Hj. destruct (lo_qkv n z c ck Hck j k Hj) as [Hl _]. unfold projected.
  destruct (has_bias c) eqn:Hb; cbn [add_bias]; [|by rewrite shard_fmap]. unfold vadd.
  rewrite shard_zip_with; [by rewrite shard_fmap|]. by rewrite length_fmap, Hl, (lo_bias n z c ck Hck j k Hb Hj).
Qed.

(** A rank's query, key and value rows: its shares of the three projections. *)
Lemma qkv_part i (x : mat) : i < n -> wide (hid z) x ->
  Linear_forward (qkv_linear (qkv_proj (attention_part n z c i 0 rope ck))) x =
  (fun r => shard n i (projected c ck 0 r) ++ shard n i (projected c ck 1 r) ++ shard n i (projected c ck 2 r)) <$> x.
Proof using Hn Hck.
  intros Hi Hx. unfold Linear_forward. cbn [attention_part qkv_proj qkv_linear weight bias as_mat].
  assert (Hq : forall j k, qkv_rows z !! j = Some k -> length (w_qkv ck j) = n * k /\ wide (hid z) (w_qkv ck j))
    by apply (lo_qkv n z c ck Hck).
  destruct (Hq 0 _ eq_refl) as [L0 W0]. destruct (Hq 1 _ eq_refl) as [L1 W1]. destruct (Hq 2 _ eq_refl) as [L2 W2].
  rewrite !merged_three.
  rewrite (linear_eq _ _ _ (hid z)); [|done|repeat (apply Forall_app; split); by apply wide_shard|].
  - apply list_fmap_ext. intros _ r _. rewrite (projected_shard i 0 _ r Hi eq_refl), (projected_shard i 1 _ r Hi eq_refl),
      (projected_shard i 2 _ r Hi eq_refl), !fmap_app.
    destruct (has_bias c) eqn:Hb; [|done]. unfold bias_vec. cbn [fmap option_fmap option_map as_vec add_bias].
    rewrite !vadd_app; [done| |]; rewrite length_fmap.
    + rewrite (shard_length n i _ (w_qkv ck 1) L1 Hi), (shard_length n i (hk z * dim z) (b_qkv ck 1)); [done|by apply (lo_bias n z c ck Hck)|done].
    + rewrite (shard_length n i _ (w_qkv ck 0) L0 Hi), (shard_length n i (hk z * gq z * dim z) (b_qkv ck 0)); [done|by apply (lo_bias n z c ck Hck)|done].
  - intros v Hv. destruct (has_bias c) eqn:Hb; [|done]. unfold bias_vec in Hv. injection Hv as <-.
    rewrite !length_app, (shard_length n i _ (w_qkv ck 0) L0 Hi), (shard_length n i _ (w_qkv ck 1) L1 Hi),
      (shard_length n i _ (w_qkv ck 2) L2 Hi).
    rewrite (shard_length n i (hk z * gq z * dim z) (b_qkv ck 0)), (shard_length n i (hk z * dim z) (b_qkv ck 1)),
      (shard_length n i (hk z * dim z) (b_qkv ck 2)); try done; by apply (lo_bias n z c ck Hck).
Qed.

Lemma normed_shard i w (heads : mat) : shard n i (normed c w heads) = normed c w (shard n i heads).
Proof using. unfold normed. destruct (has_bias c); [done|]. unfold rms_forward. by rewrite shard_fmap. Qed.

Lemma head_norm_part {S} (w : list F) (x : list mat) (s : S) :
  (if has_bias c then ret x else head_norm (if has_bias c then None else Some (norm_of c w)) x) s =
  (inr ((fun heads => normed c w heads) <$> x), s).
Proof using.
  unfold normed. destruct (has_bias c); [|done]. unfold ret. do 2 f_equal. symmetry. apply list_fmap_id.
Qed.

Lemma rotate_shard i (cs : list (list F)) (x : list mat) :
  zip_with (rotate_heads rope) cs ((fun heads => shard n i heads) <$> x) =
  (fun heads => shard n i heads) <$> zip_with (rotate_heads rope) cs x.
Proof using.
  revert cs. induction x as [|heads x IH]; intros [|cs css]; try done. cbn. rewrite IH. f_equal.
  unfold rotate_heads. by rewrite shard_fmap.
Qed.

(** A rank's heads are its share of each token's heads. *)
Lemma project_part i l pos cs (x : mat) : i < n -> wide (hid z) x ->
  mapM (py_get (cos_sin_cache rope)) pos = Some cs ->
  project (attention_part n z c i l rope ck) pos x tt =
  (inr ((fun heads => shard n i heads) <$> queries c (n * hk z) (gq z) (dim z) rope ck cs x,
        (fun heads => shard n i heads) <$> keys c (n * hk z) (dim z) rope ck cs x,
        (fun heads => shard n i heads) <$> values c (n * hk z) (dim z) ck x), tt).
Proof using Hn Hck.
  intros Hi Hx Hcs. unfold project.
  replace (Linear_forward _ x) with (Linear_forward (qkv_linear (qkv_proj (attention_part n z c i 0 rope ck))) x) by done.
  rewrite qkv_part by done. unfold bind at 1.
  assert (Hp : forall j k r, qkv_rows z !! j = Some k -> length (shard n i (projected c ck j r)) = k).
  { intros j k r Hj. apply shard_length; [by apply projected_length|done]. }
  rewrite (collect_fmap_pure _ _ _ (fun r => (shard n i (projected c ck 0 r), shard n i (projected c ck 1 r),
    shard n i (projected c ck 2 r)))).
  2: { intros r _. apply split3_shares; by apply Hp. }
  cbn [attention_part head_dim qa_num_heads qa_num_kv_heads qkv_bias q_norm k_norm rotary_emb].
  assert (Hpieces : forall j k, qkv_rows z !! j = Some (k * dim z) ->
    (fun r => pieces (dim z) k (shard n i (projected c ck j r))) <$> x =
    (fun heads => shard n i heads) <$> ((fun r => pieces (dim z) (n * k) (projected c ck j r)) <$> x)).
  { intros j k Hj. rewrite <-list_fmap_compose. apply list_fmap_ext. intros _ r _. simpl. apply pieces_shard; [|done].
    rewrite (projected_length j _ r Hj). lia. }
  rewrite <-!list_fmap_compose. unfold compose. cbn [fst snd].
  rewrite (Hpieces 0 (hk z * gq z) eq_refl), (Hpieces 1 (hk z) eq_refl), (Hpieces 2 (hk z) eq_refl).
  unfold bind. rewrite !head_norm_part. unfold Rotary_forward, bind. rewrite Hcs. unfold or_raise, ret.
  assert (Hnorm : forall w (y : list mat), (fun heads => normed c w heads) <$> ((fun heads => shard n i heads) <$> y) =
    (fun heads => shard n i heads) <$> ((fun heads => normed c w heads) <$> y)).
  { intros w y. rewrite <-!list_fmap_compose. apply list_fmap_ext. intros _ heads _. simpl. by rewrite normed_shard. }
  rewrite !Hnorm, !rotate_shard. unfold queries, keys, values. rewrite <-!list_fmap_compose. unfold compose.
  by rewrite Nat.mul_assoc.
Qed.

(** The rope cache has a row of [dim z] entries for every position. *)
Definition RopeOk : Prop := wide (dim z) (cos_sin_cache rope).

Lemma rotate_heads_ok cs heads : RopeOk -> length cs = dim z -> wide (dim z) heads ->
  length (rotate_heads rope cs heads) = length heads /\ wide (dim z) (rotate_heads rope cs heads).
Proof using Heven.
  clear Hn Hck. intros _ Hcs Hw. destruct Heven as [e He]. unfold rotate_heads. rewrite length_fmap. split; [done|].
  replace ((length cs + 1) / 2) with e by (apply (Nat.div_unique _ 2 e 1); lia).
  apply Forall_fmap. eapply Forall_impl; [exact Hw|]. intros x Hx. simpl. rewrite He in *.
  apply rotary_length; [done|rewrite length_take; lia|rewrite length_drop; lia].
Qed.

Lemma normed_ok w heads : length w = dim z -> wide (dim z) heads ->
  length (normed c w heads) = length heads /\ wide (dim z) (normed c w heads).
Proof using.
  clear Hn Hck. intros Hw Hh. unfold normed. destruct (has_bias c); [done|]. unfold rms_forward. rewrite length_fmap.
  split; [done|]. apply Forall_fmap. eapply Forall_impl; [exact Hh|]. intros x Hx. simpl. unfold rms_row, vmul.
  rewrite length_zip_with, length_fmap. simpl in *. lia.
Qed.

Lemma pieces_of_ok j k r : qkv_rows z !! j = Some (k * dim z) ->
  length (pieces (dim z) (n * k) (projected c ck j r)) = n * k /\ wide (dim z) (pieces (dim z) (n * k) (projected c ck j r)).
Proof using Hn Hck.
  intros Hj. split; [apply pieces_length|]. apply pieces_wide. rewrite (projected_length j _ r Hj). lia.
Qed.

Lemma cs_ok pos cs : RopeOk -> mapM (py_get (cos_sin_cache rope)) pos = Some cs ->
  length cs = length pos /\ wide (dim z) cs.
Proof using.
  clear Hn Hck. intros Hr Hm%mapM_Some_1. split; [symmetry; by apply Forall2_length in Hm|].
  apply Forall_lookup. intros t r Ht. rewrite Forall2_lookup in Hm. specialize (Hm t). rewrite Ht in Hm.
  inversion Hm as [p r' Hp|]. subst. unfold py_get in Hp. repeat case_match; try done; by eapply (wide_lookup (dim z)).
Qed.

Lemma rotated_ok (cs : list (list F)) (x : list mat) k : RopeOk -> wide (dim z) cs -> length cs = length x ->
  Forall (fun heads => length heads = k /\ wide (dim z) heads) x ->
  length (zip_with (rotate_heads rope) cs x) = length x /\ wide k (zip_with (rotate_heads rope) cs x) /\
  Forall (wide (dim z)) (zip_with (rotate_heads rope) cs x).
Proof using Heven.
  clear Hn Hck. intros Hr Hcs Hl Hx. split; [rewrite length_zip_with; lia|].
  assert (Hrow : forall t h, zip_with (rotate_heads rope) cs x !! t = Some h -> length h = k /\ wide (dim z) h).
  { intros t h Ht. apply lookup_zip_with_Some in Ht as (cr & heads & -> & Hc' & Hh).
    destruct (Forall_lookup_1 _ _ t heads Hx Hh) as [Hk Hw].
    destruct (rotate_heads_ok cr heads Hr) as [H1 H2]; [by apply (wide_lookup _ cs t)|done|]. split; [lia|done]. }
  split; apply Forall_lookup; intros t h Ht; by apply (Hrow t).
Qed.

Lemma heads_ok pos cs (x : mat) :
  RopeOk -> mapM (py_get (cos_sin_cache rope)) pos = Some cs -> length pos = length x ->
  let q := queries c (n * hk z) (gq z) (dim z) rope ck cs x in
  let k := keys c (n * hk z) (dim z) rope ck cs x in
  let v := values c (n * hk z) (dim z) ck x in
  (length q = length x /\ wide (n * hk z * gq z) q /\ Forall (wide (dim z)) q) /\
  (length k = length x /\ wide (n * hk z) k) /\ (length v = length x /\ wide (n * hk z) v).
Proof using Hn Hck Heven.
  intros Hr Hcs Hl. destruct (cs_ok pos cs Hr Hcs) as [Hcl Hcw]. destruct (lo_head_norms n z c ck Hck) as [Hqn Hkn].
  split_and!.
  1-3: destruct (rotated_ok cs ((fun r => normed c (w_q_norm ck) (pieces (dim z) (n * hk z * gq z) (projected c ck 0 r))) <$> x)
    (n * hk z * gq z)) as (H1 & H2 & H3); [done|done|rewrite length_fmap; lia| |by rewrite length_fmap in H1 || done..].
  1-3: apply Forall_fmap, Forall_forall; intros r _; simpl; rewrite <-Nat.mul_assoc;
    destruct (pieces_of_ok 0 (hk z * gq z) r eq_refl) as [Hpl Hpw];
    destruct (normed_ok (w_q_norm ck) _ Hqn Hpw) as [H1 H2]; split; [lia|done].
  1-2: destruct (rotated_ok cs ((fun r => normed c (w_k_norm ck) (pieces (dim z) (n * hk z) (projected c ck 1 r))) <$> x)
    (n * hk z)) as (H1 & H2 & H3); [done|done|rewrite length_fmap; lia| |by rewrite length_fmap in H1 || done..].
  1-2: apply Forall_fmap, Forall_forall; intros r _; simpl;
    destruct (pieces_of_ok 1 (hk z) r eq_refl) as [Hpl Hpw];
    destruct (normed_ok (w_k_norm ck) _ Hkn Hpw) as [H1 H2]; split; [lia|done].
  - unfold values. by rewrite length_fmap.
  - unfold values. apply Forall_fmap, Forall_forall. intros r _. simpl. apply pieces_length.
Qed.

(** Every head's attention over its own queries, keys and values. *)
Lemma attend_ok l q k v : wide (n * hk z * gq z) q -> Forall (wide (dim z)) q -> length k = length q ->
  length v = length q -> forall h, h < n * hk z -> HeadOk (attend_head l) (gq z) (dim z) h q k v.
Proof using.
  clear Hn Hck. intros Hq Hd Hk Hv h Hh. unfold HeadOk. cbv zeta.
  replace (length q) with (length (query_group (gq z) h q)) by apply length_fmap.
  apply attend_head_shape.
  - apply Forall_fmap. eapply Forall_impl; [exact Hq|]. intros heads Hl. simpl in *. rewrite cut_length.
    assert (h * gq z + gq z <= n * hk z * gq z) by nia. lia.
  - apply Forall_fmap. eapply Forall_impl; [exact Hd|]. intros heads Hl. simpl. by apply Forall_cut.
  - unfold column, query_group. rewrite !length_fmap. done.
  - unfold column, query_group. rewrite !length_fmap. done.
Qed.

Lemma attention_spmd l pos cs (x : mat) Q :
  RopeOk -> mapM (py_get (cos_sin_cache rope)) pos = Some cs -> length pos = length x ->
  Q (fun _ => attention_whole c (n * hk z) (gq z) (dim z) rope l ck cs x) ->
  let share h := (fun heads => shard n h heads) in
  spmd n (fun i => combine (attention_part n z c i l rope ck)
    (attention l i (hk z * gq z) (hk z) (share i <$> queries c (n * hk z) (gq z) (dim z) rope ck cs x)
      (share i <$> keys c (n * hk z) (dim z) rope ck cs x) (share i <$> values c (n * hk z) (dim z) ck x))) Q.
Proof using Hn Hck Heven.
  intros Hr Hcs Hl HQ share.
  destruct (heads_ok pos cs x Hr Hcs Hl) as ((Hql & Hqw & Hqd) & (Hkl & Hkw) & (Hvl & Hvw)).
  set (q := queries c (n * hk z) (gq z) (dim z) rope ck cs x) in *.
  set (k := keys c (n * hk z) (dim z) rope ck cs x) in *.
  set (v := values c (n * hk z) (dim z) ck x) in *.
  assert (Hok : forall h, h < n * hk z -> HeadOk (attend_head l) (gq z) (dim z) h q k v) by (apply attend_ok; done || lia).
  destruct (headwise_ok (attend_head l) (n * hk z) (gq z) (dim z) q k v Hok) as (Ho1 & Ho2 & Ho3).
  set (o := headwise (attend_head l) 0 (n * hk z) (gq z) q k v) in *.
  assert (Hshare : forall m i (y : list mat), i < n -> wide (n * m) y -> wide m (share i <$> y)).
  { intros m i y Hi Hy. apply Forall_fmap. eapply Forall_impl; [exact Hy|]. intros heads Hh. by apply shard_length. }
  apply spmd_ext with (fun i => RowParallel_forward (o_proj (attention_part n z c i l rope ck))
    (shard n i <$> ((fun heads => concat heads) <$> o))).
  { intros i Hi. unfold combine. f_equal. rewrite attention_eq.
    - rewrite (headwise_shard (attend_head l) n i (hk z) (gq z) (dim z) q k v) by done. fold o.
      unfold share. rewrite <-!list_fmap_compose. apply list_fmap_ext. intros t heads Ht. simpl.
      apply (concat_shard (dim z) n (hk z * gq z)); [by apply (Forall_lookup_1 _ _ t heads Ho3)| |done].
      rewrite (wide_lookup _ o t heads Ho2 Ht). lia.
    - apply Hshare; [done|]. by rewrite Nat.mul_assoc.
    - by apply Hshare.
    - by apply Hshare.
    - unfold share. rewrite !length_fmap. lia.
    - unfold share. rewrite !length_fmap. lia. }
  destruct (lo_o n z c ck Hck) as [_ How].
  apply (row_spmd (hk z * gq z * dim z) (w_o ck)); [done|done| |exact HQ].
  apply Forall_fmap, Forall_lookup. intros t heads Ht. simpl.
  rewrite (wide_concat_length (dim z)) by by apply (Forall_lookup_1 _ _ t heads Ho3).
  rewrite (wide_lookup _ o t heads Ho2 Ht). lia.
Qed.

(** ** A layer *)

Definition Hidden (k : nat) (x : mat) : Prop := length x = k /\ wide (hid z) x.

Lemma linear_hidden m (x w : mat) : wide m x -> wide m w -> length w = hid z -> Hidden (length x) (linear x w None).
Proof using.
  clear Hn Hck. intros Hx Hw Hl. rewrite (linear_eq _ _ _ m) by done. split; [by rewrite length_fmap|].
  apply Forall_fmap, Forall_forall. intros r _. simpl. by rewrite length_fmap.
Qed.

Lemma rms_hidden k w (x : mat) : length w = hid z -> Hidden k x -> Hidden k (rms_forward (norm_of c w) x).
Proof using.
  clear Hn Hck. intros Hw [Hl Hx]. split; [by rewrite <-Hl; apply length_fmap|]. apply Forall_fmap.
  eapply Forall_impl; [exact Hx|]. intros r Hr. unfold rms_row, vmul. simpl in *. rewrite length_zip_with, length_fmap. lia.
Qed.

Lemma madd_hidden k (x y : mat) : Hidden k x -> Hidden k y -> Hidden k (madd x y).
Proof using.
  clear Hn Hck. intros [Hlx Hx] [Hly Hy]. split; [unfold madd; rewrite length_zip_with; lia|].
  apply Forall_lookup. intros t r Ht. apply lookup_zip_with_Some in Ht as (a & b & -> & Ha & Hb).
  unfold vadd. rewrite length_zip_with, (wide_lookup _ x t a Hx Ha), (wide_lookup _ y t b Hy Hb). lia.
Qed.

Lemma entering_hidden k (x : mat) residual : Hidden k x -> (forall r, residual = Some r -> Hidden k r) ->
  Hidden k (entering c ck x residual).1 /\ Hidden k (entering c ck x residual).2.
Proof using Hn Hck.
  intros Hx Hr. destruct (lo_norms n z c ck Hck) as [H1 _]. unfold entering.
  destruct residual as [r|]; simpl; [|split; [by apply rms_hidden|done]].
  specialize (Hr r eq_refl). split; [|by apply madd_hidden]. apply (rms_hidden k _ (madd x r)); [done|by apply madd_hidden].
Qed.

Lemma attention_hidden l pos cs (x : mat) : RopeOk -> mapM (py_get (cos_sin_cache rope)) pos = Some cs ->
  length pos = length x -> Hidden (length x) (attention_whole c (n * hk z) (gq z) (dim z) rope l ck cs x).
Proof using Hn Hck Heven.
  intros Hr Hcs Hl. destruct (heads_ok pos cs x Hr Hcs Hl) as ((Hql & Hqw & Hqd) & (Hkl & Hkw) & (Hvl & Hvw)).
  set (q := queries c (n * hk z) (gq z) (dim z) rope ck cs x) in *.
  set (k := keys c (n * hk z) (dim z) rope ck cs x) in *.
  set (v := values c (n * hk z) (dim z) ck x) in *.
  assert (Hok : forall h, h < n * hk z -> HeadOk (attend_head l) (gq z) (dim z) h q k v) by (apply attend_ok; done || lia).
  destruct (headwise_ok (attend_head l) (n * hk z) (gq z) (dim z) q k v Hok) as (Ho1 & Ho2 & Ho3).
  unfold attention_whole. fold q k v. set (o := headwise (attend_head l) 0 (n * hk z) (gq z) q k v) in *. destruct (lo_o n z c ck Hck) as [Hol How].
  rewrite <-Hql, <-Ho1, <-(length_fmap (fun heads => concat heads) o).
  apply (linear_hidden (n * (hk z * gq z * dim z))); [|done|done]. apply Forall_fmap, Forall_lookup.
  intros t heads Ht. simpl. rewrite (wide_concat_length (dim z)) by by apply (Forall_lookup_1 _ _ t heads Ho3).
  rewrite (wide_lookup _ o t heads Ho2 Ht). lia.
Qed.

Lemma mlp_hidden (x : mat) : Hidden (length x) (mlp_whole ck x).
Proof using Hn Hck.
  unfold mlp_whole. destruct (lo_down n z c ck Hck) as [Hdl Hdw].
  rewrite <-(length_fmap (fun r => gated (dot r <$> w_gate_up ck 0) (dot r <$> w_gate_up ck 1)) x).
  apply (linear_hidden (n * im z)); [|done|done]. apply Forall_fmap, Forall_forall. intros r _. simpl.
  unfold gated, vmul. rewrite length_zip_with, !length_fmap.
  destruct (lo_gate_up n z c ck Hck 0); [lia|]. destruct (lo_gate_up n z c ck Hck 1); lia.
Qed.

Lemma layer_hidden l pos cs k (x : mat) residual : RopeOk -> mapM (py_get (cos_sin_cache rope)) pos = Some cs ->
  length pos = k -> Hidden k x -> (forall r, residual = Some r -> Hidden k r) ->
  let y := layer_whole c (n * hk z) (gq z) (dim z) rope l ck cs x residual in Hidden k y.1 /\ Hidden k y.2.
Proof using Hn Hck Heven.
  intros Hr Hcs Hl Hx Hres. unfold layer_whole. destruct (entering_hidden k x residual Hx Hres) as [H1 H2].
  destruct (entering c ck x residual) as [x1 r1]. cbn [fst snd] in *. destruct H1 as [L1 W1].
  pose proof (attention_hidden l pos cs x1 Hr Hcs ltac:(lia)) as Ha. rewrite L1 in Ha.
  destruct (lo_norms n z c ck Hck) as [_ Hp]. unfold add_rms_forward. cbn [fst snd].
  assert (Hm : Hidden k (madd (attention_whole c (n * hk z) (gq z) (dim z) rope l ck cs x1) r1)) by by apply madd_hidden.
  split; [|done]. pose proof (rms_hidden k _ _ Hp Hm) as [L3 W3].
  destruct (mlp_hidden (rms_forward (norm_of c (w_post_norm ck)) (madd (attention_whole c (n * hk z) (gq z) (dim z) rope l ck cs x1) r1))) as [L4 W4].
  split; [|done]. rewrite <-L3. exact L4.
Qed.

Lemma layer_spmd l pos cs (x : mat) residual Q :
  RopeOk -> mapM (py_get (cos_sin_cache rope)) pos = Some cs -> Hidden (length pos) x ->
  (forall r, residual = Some r -> Hidden (length pos) r) ->
  Q (fun _ => layer_whole c (n * hk z) (gq z) (dim z) rope l ck cs x residual) ->
  spmd n (fun i => Qwen3DecoderLayer_forward (layer_part n z c i l rope ck) pos x residual) Q.
Proof using Hn Hck Heven.
  intros Hr Hcs Hx Hres HQ. unfold Qwen3DecoderLayer_forward. apply spmd_bind.
  destruct (entering_hidden _ x residual Hx Hres) as [H1 H2].
  unfold layer_whole in HQ. destruct (entering c ck x residual) as [x1 r1] eqn:He. cbn [fst snd] in *.
  set (share i := (fun heads : mat => shard n i heads)).
  apply spmd_ext with (fun i => Done (share i <$> queries c (n * hk z) (gq z) (dim z) rope ck cs x1,
    share i <$> keys c (n * hk z) (dim z) rope ck cs x1, share i <$> values c (n * hk z) (dim z) ck x1, r1)).
  { intros i Hi. unfold run_local, pre_attention.
    assert (He' : match residual with
      | Some r => add_rms_forward (input_layernorm (layer_part n z c i l rope ck)) x r
      | None => (rms_forward (input_layernorm (layer_part n z c i l rope ck)) x, x) end = (x1, r1)).
    { rewrite <-He. by destruct residual. }
    rewrite He'. unfold bind. cbn [layer_part self_attn]. destruct H1 as [L1 W1].
    rewrite (project_part i l pos cs x1) by done. done. }
  apply spmd_ret; [done|]. unfold post_attention. cbn [layer_part self_attn qa_layer qa_rank qa_num_heads qa_num_kv_heads attention_part mlp post_attention_layernorm].
  apply spmd_bind. destruct H1 as [L1 W1].
  apply (attention_spmd l pos cs x1); [done|done|lia|].
  destruct (add_rms_forward _ _ r1) as [x2 r2] eqn:H3.
  apply spmd_bind. apply mlp_spmd; [|by apply spmd_ret].
  pose proof (attention_hidden l pos cs x1 Hr Hcs ltac:(lia)) as Ha. rewrite L1 in Ha.
  destruct (lo_norms n z c ck Hck) as [_ Hp]. unfold add_rms_forward in H3. injection H3 as <- <-.
  apply (rms_hidden (length pos)); [done|]. by apply madd_hidden.
Qed.

End Part.

(** ** The model *)

Section Model.
Context {F : Type} `{!Scalar F} `{!Torch F} `{!HeadAttention F}.
Local Abbreviation mat := (list (list F)).
Variable n : nat.
Variable z : Sizes.
Variable c : Qwen3Config (F := F).
Variable rope : RotaryEmbedding F.
Hypothesis Hn : 0 < n.
Hypothesis Heven : exists e, dim z = 2 * e.
Hypothesis Hrope : RopeOk z rope.

Lemma layers_spmd cks l pos cs (x : mat) residual Q :
  Forall (LayerOk n z c) cks -> mapM (py_get (cos_sin_cache rope)) pos = Some cs ->
  Hidden z (length pos) x -> (forall r, residual = Some r -> Hidden z (length pos) r) ->
  (forall y : mat * option mat, y = layers_whole c (n * hk z) (gq z) (dim z) rope l cks cs x residual ->
    Hidden z (length pos) y.1 -> (forall r, y.2 = Some r -> Hidden z (length pos) r) -> Q (fun _ => y)) ->
  spmd n (fun i => run_layers (imap (fun j w => layer_part n z c i (l + j) rope w) cks) pos x residual) Q.
Proof using Hn Heven Hrope.
  intros Hcks. revert l x residual Q. induction Hcks as [|ck cks Hck _ IH]; intros l x residual Q Hcs Hx Hres HQ.
  - simpl. apply spmd_ret; [done|]. by apply HQ.
  - simpl. apply spmd_bind. rewrite Nat.add_0_r.
    apply (layer_spmd n z c rope ck Hn Hck Heven l pos cs); [done|done|done|done|].
    destruct (layer_hidden n z c rope ck Hn Hck Heven l pos cs (length pos) x residual Hrope Hcs eq_refl Hx Hres) as [H1 H2].
    cbn [layers_whole] in HQ. destruct (layer_whole c (n * hk z) (gq z) (dim z) rope l ck cs x residual) as [x1 r1].
    eapply spmd_ext; [|apply (IH (S l) x1 (Some r1)); [done|done|by intros r [= <-]|exact HQ]].
    intros i _. cbn beta. f_equal. apply imap_ext. intros j w _. unfold compose. f_equal. lia.
Qed.

(** The whole model: the last hidden state of every token. *)
Definition model_whole (ck : Checkpoint F) (row : Z -> list F) (cs : mat) (ids : list Z) : option mat :=
  let '(x, residual) := layers_whole c (n * hk z) (gq z) (dim z) rope 0 (w_layers ck) cs (row <$> ids) None in
  r ← residual; Some (add_rms_forward (norm_of c (w_norm ck)) x r).1.

Lemma layers_residual cks l cs (x : mat) residual : cks <> [] \/ is_Some residual ->
  is_Some (layers_whole c (n * hk z) (gq z) (dim z) rope l cks cs x residual).2.
Proof using.
  clear Hn. revert l x residual. induction cks as [|ck cks IH]; intros l x residual Hor; [by destruct Hor|].
  cbn [layers_whole]. destruct (layer_whole c (n * hk z) (gq z) (dim z) rope l ck cs x residual) as [x1 r1].
  apply IH. by right.
Qed.

Lemma model_spmd ck (h : nat -> VocabParallelEmbedding F) row pos cs ids Q :
  CheckpointOk n z c ck -> w_layers ck <> [] -> mapM (py_get (cos_sin_cache rope)) pos = Some cs ->
  length ids = length pos ->
  (forall id, id ∈ ids -> (0 <= id < Zlen (w_embed ck))%Z /\ w_embed ck !! Z.to_nat id = Some (row id)) ->
  (forall y, model_whole ck row cs ids = Some y -> Hidden z (length pos) y -> Q (fun _ => y)) ->
  spmd n (fun i => Qwen3_forward (model_part n z c i rope ck (h i)) ids pos) Q.
Proof using Hn Heven Hrope.
  intros [[Hel Hew] [Hll Hlo] Hnl _] Hne Hcs Hids Hrow HQ.
  unfold Qwen3_forward, Qwen3Model_forward, model_part. cbn [model embed_tokens layers norm].
  apply spmd_bind. apply (embedding_spmd n (vk z) (hid z) (w_embed ck) ids row); [done|done|done|done|].
  apply spmd_bind.
  assert (Hx : Hidden z (length pos) (row <$> ids)).
  { split; [by rewrite length_fmap|]. apply Forall_fmap, Forall_forall. intros id Hid. simpl.
    destruct (Hrow id Hid) as [_ Hr]. by apply (wide_lookup _ (w_embed ck) (Z.to_nat id)). }
  apply (layers_spmd (w_layers ck) 0 pos cs (row <$> ids) None); [done|done|done|done|].
  intros [x r] Hy H1 H2. cbn [fst snd] in *. unfold model_whole in HQ. rewrite <-Hy in HQ.
  destruct r as [r|].
  - apply spmd_ret; [done|]. apply HQ; [done|]. unfold add_rms_forward. cbn [fst].
    apply rms_hidden; [done|].
    apply madd_hidden; [done|by apply H2].
  - exfalso. pose proof (layers_residual (w_layers ck) 0 cs (row <$> ids) None (or_introl Hne)) as [y Hy'].
    by rewrite <-Hy in Hy'.
Qed.

End Model.

(** ** Rotary embedding turns positions into distances

    [layers/rotary_embedding.py]: rotating a query and a key by their
    positions' angles leaves scores that depend on the distance between them. *)


(** The laws of the cosine and the sine. *)
Class Angles (F : Type) `{!Scalar F} := {
  fcos : F -> F;
  fsin : F -> F;
  cos_add a b : fcos (fadd a b) = fsub (fmul (fcos a) (fcos b)) (fmul (fsin a) (fsin b));
  sin_add a b : fsin (fadd a b) = fadd (fmul (fsin a) (fcos b)) (fmul (fcos a) (fsin b));
  cos_sin_one a : fadd (fmul (fcos a) (fcos a)) (fmul (fsin a) (fsin a)) = fone
}.

(** The reals. *)
#[export] Instance R_scalar : Scalar R := {|
  fzero := 0%R; fone := 1%R; fadd := Rplus; fmul := Rmult; fsub := Rminus; fopp := Ropp;
  scalar_ring := RTheory |}.

#[export, program] Instance R_angles : Angles R := {| fcos := cos; fsin := sin |}.
Next Obligation. apply cos_plus. Qed.
Next Obligation. apply sin_plus. Qed.
Next Obligation. intros a. simpl. rewrite Rplus_comm. apply (sin2_cos2 a). Qed.

Section Rotary.
Context {F : Type} `{!Scalar F} `{!Angles F}.
Local Abbreviation mat := (list (list F)).

Add Ring scalar : scalar_ring.

Lemma fnat_add a b : fnat (F := F) (a + b) = fadd (fnat a) (fnat b).
Proof. induction a as [|a IH]; simpl; [ring|]. rewrite IH. ring. Qed.

Lemma dot_app (a b a' b' : list F) : length a = length a' -> dot (a ++ b) (a' ++ b') = fadd (dot a a') (dot b b').
Proof. intros Hl. unfold dot, vmul. by rewrite zip_with_app, fsum_app. Qed.

Lemma dot_interleave (a b a' b' : list F) : length a = length b -> length a' = length b' -> length a = length a' ->
  dot (interleave a b) (interleave a' b') = fadd (dot a a') (dot b b').
Proof.
  revert b a' b'. unfold dot, vmul, interleave, fsum.
  induction a as [|x a IH]; intros [|y b] [|x' a'] [|y' b'] H1 H2 H3; try done; simpl; [ring|].
  injection H1 as H1. injection H2 as H2. injection H3 as H3. cbn in IH. rewrite (IH b a' b') by done. ring.
Qed.

(** Both halves' products, at angles [t * f]. *)
Definition cos_at (m : F) (freqs : list F) (t : nat) : list F := (fun x => fmul (fcos x) m) <$> (fmul (fnat t) <$> freqs).
Definition sin_at (m : F) (freqs : list F) (t : nat) : list F := (fun x => fmul (fsin x) m) <$> (fmul (fnat t) <$> freqs).

Definition score (m : F) (freqs x1 x2 y1 y2 : list F) (p p' : nat) : F :=
  let '(a1, a2) := rotate x1 x2 (cos_at m freqs p) (sin_at m freqs p) in
  let '(b1, b2) := rotate y1 y2 (cos_at m freqs p') (sin_at m freqs p') in
  fadd (dot a1 b1) (dot a2 b2).

(** One pair: moving both positions turns both by the same angle. *)
Lemma pair_shift m a b g (x1 x2 y1 y2 : F) :
  let at_ u v := fadd (fmul (fsub (fmul x1 (fmul (fcos u) m)) (fmul x2 (fmul (fsin u) m)))
      (fsub (fmul y1 (fmul (fcos v) m)) (fmul y2 (fmul (fsin v) m))))
    (fmul (fadd (fmul x2 (fmul (fcos u) m)) (fmul x1 (fmul (fsin u) m)))
      (fadd (fmul y2 (fmul (fcos v) m)) (fmul y1 (fmul (fsin v) m)))) in
  at_ (fadd a g) (fadd b g) = at_ a b.
Proof.
  cbv beta zeta. rewrite !cos_add, !sin_add. pose proof (cos_sin_one g) as Hg.
  set (cg := fcos g) in *. set (sg := fsin g) in *.
  set (ca := fcos a). set (sa := fsin a). set (cb := fcos b). set (sb := fsin b).
  transitivity (fmul (fadd (fmul cg cg) (fmul sg sg))
    (fadd (fmul (fsub (fmul x1 (fmul ca m)) (fmul x2 (fmul sa m))) (fsub (fmul y1 (fmul cb m)) (fmul y2 (fmul sb m))))
      (fmul (fadd (fmul x2 (fmul ca m)) (fmul x1 (fmul sa m))) (fadd (fmul y2 (fmul cb m)) (fmul y1 (fmul sb m)))))).
  - ring.
  - rewrite Hg. ring.
Qed.

Lemma score_shift m freqs x1 x2 y1 y2 p p' d :
  length x1 = length freqs -> length x2 = length freqs -> length y1 = length freqs -> length y2 = length freqs ->
  score m freqs x1 x2 y1 y2 (p + d) (p' + d) = score m freqs x1 x2 y1 y2 p p'.
Proof.
  unfold score, rotate, cos_at, sin_at, dot, vadd, vmul, fsum.
  revert x1 x2 y1 y2. induction freqs as [|f freqs IH]; intros [|a x1] [|b x2] [|u y1] [|v y2] H1 H2 H3 H4; try done.
  injection H1 as H1. injection H2 as H2. injection H3 as H3. injection H4 as H4.
  specialize (IH x1 x2 y1 y2 H1 H2 H3 H4). cbn [fmap list_fmap zip_with foldr] in *.
  rewrite !fnat_add. pose proof (pair_shift m (fmul (fnat p) f) (fmul (fnat p') f) (fmul (fnat d) f) a b u v) as Hp.
  cbv beta zeta in Hp.
  replace (fmul (fadd (fnat p) (fnat d)) f) with (fadd (fmul (fnat p) f) (fmul (fnat d) f)) by ring.
  replace (fmul (fadd (fnat p') (fnat d)) f) with (fadd (fmul (fnat p') f) (fmul (fnat d) f)) by ring.
  rewrite !fnat_add in IH.
  match goal with |- fadd (fadd ?a1 ?s1) (fadd ?a2 ?s2) = fadd (fadd ?b1 ?t1) (fadd ?b2 ?t2) =>
    transitivity (fadd (fadd a1 a2) (fadd s1 s2)); [ring|];
    transitivity (fadd (fadd b1 b2) (fadd t1 t2)); [|ring]; f_equal end.
  - exact Hp.
  - exact IH.
Qed.

(** A head at position [t]. *)
Definition rotated_at (rope : RotaryEmbedding F) (t : nat) (x : list F) : list F :=
  concat (rotate_heads rope (default [] (cos_sin_cache rope !! t)) [x]).

(** The two halves of a head, as each style pairs them. *)
Definition first_half (neox : bool) (x : list F) : list F := if neox then take (length x / 2) x else evens x.
Definition second_half (neox : bool) (x : list F) : list F := if neox then drop (length x / 2) x else odds x.

Lemma halves_length neox e (x : list F) : length x = 2 * e ->
  length (first_half neox x) = e /\ length (second_half neox x) = e.
Proof using.
  intros Hx. assert (Hd : length x / 2 = e) by (rewrite Hx, Nat.mul_comm; by apply Nat.div_mul).
  unfold first_half, second_half. destruct neox; [rewrite length_take, length_drop, Hd; lia|].
  split; [by apply evens_length|by apply odds_length].
Qed.

Lemma rotated_score neox freqs (m : F) max p p' (x y : list F) :
  p < max -> p' < max -> length x = 2 * length freqs -> length y = 2 * length freqs ->
  let rope := {| is_neox_style := neox; cos_sin_cache := cache_row fcos fsin freqs m <$> seq 0 max |} in
  dot (rotated_at rope p x) (rotated_at rope p' y) =
  score m freqs (first_half neox x) (second_half neox x) (first_half neox y) (second_half neox y) p p'.
Proof using.
  intros Hp Hp' Hx Hy rope.
  destruct (halves_length neox _ x Hx) as [Lx1 Lx2]. destruct (halves_length neox _ y Hy) as [Ly1 Ly2].
  assert (Hat : forall t z, t < max -> length z = 2 * length freqs -> rotated_at rope t z =
    let '(y1, y2) := rotate (first_half neox z) (second_half neox z) (cos_at m freqs t) (sin_at m freqs t) in
    if neox then y1 ++ y2 else interleave y1 y2).
  { intros t z Ht Hz. unfold rotated_at, rope. cbn [cos_sin_cache]. rewrite list_lookup_fmap, lookup_seq_lt by done.
    cbn [fmap option_fmap option_map default from_option plus]; unfold Datatypes.id. unfold rotate_heads. cbn [is_neox_style fmap list_fmap concat].
    rewrite app_nil_r. unfold cache_row. fold (cos_at m freqs t) (sin_at m freqs t).
    assert (Hc : length (cos_at m freqs t) = length freqs) by (unfold cos_at; by rewrite !length_fmap).
    assert (Hs : length (sin_at m freqs t) = length freqs) by (unfold sin_at; by rewrite !length_fmap).
    rewrite length_app, Hc, Hs.
    replace ((length freqs + length freqs + 1) / 2) with (length freqs) by (apply (Nat.div_unique _ 2 _ 1); lia).
    rewrite take_app_length', drop_app_length' by done. unfold apply_rotary_emb, first_half, second_half.
    destruct neox; [|done]. rewrite Hz. replace ((2 * length freqs + 1) / 2) with (length freqs)
      by (apply (Nat.div_unique _ 2 _ 1); lia). by rewrite (Nat.mul_comm 2), Nat.div_mul. }
  rewrite !Hat by done. unfold score.
  assert (Hl : forall x1 x2 t, length x1 = length freqs -> length x2 = length freqs ->
    let '(a, b) := rotate x1 x2 (cos_at m freqs t) (sin_at m freqs t) in
    length a = length freqs /\ length b = length freqs).
  { intros x1 x2 t H1 H2. unfold rotate, vadd, vmul, cos_at, sin_at. rewrite !length_zip_with, !length_fmap. lia. }
  pose proof (Hl _ _ p Lx1 Lx2) as H1. pose proof (Hl _ _ p' Ly1 Ly2) as H2.
  destruct (rotate (first_half neox x) _ _ _) as [a1 a2]. destruct (rotate (first_half neox y) _ _ _) as [b1 b2].
  destruct H1, H2. destruct neox; [apply dot_app; lia|apply dot_interleave; lia].
Qed.

End Rotary.
