(* ===== verification/Attention.v ===== *)
(** * Paged attention: layers and backends

    [attention/abstract.py] and the plain layer of [layers/attention.py]. A
    tensor of tokens is its list of tokens, each by head; a cache is its blocks
    of tokens. What a backend promises is the class of laws [BackendOk]: for
    each row of a step, causal attention over the row's own keys. *)

From S2P Require Import Prelude Arrays AttnContext Tensors.

(** ** Softmax attention of one query *)

(** Exponentials and inverses, for softmax in exact arithmetic. *)
Class Softmax (F : Type) := { fexp : F -> F; finv : F -> F }.

Section Spec.
Context {F : Type} `{!Scalar F} `{!Softmax F}.
Local Abbreviation mat := (list (list F)).

Definition vsum (l : mat) : list F := match l with [] => [] | r :: l' => foldl vadd r l' end.

(** The softmax-weighted sum of the values, by the scaled scores of a query with the keys. *)
Definition attend_over (scale : F) (q : list F) (kvs : list (list F * list F)) : list F :=
  let es := (fun kv : list F * list F => fexp (fmul (dot q kv.1) scale)) <$> kvs in
  (fun x => fmul x (finv (fsum es))) <$> vsum (zip_with (fun e v => fmul e <$> v) es kvs.*2).

(** A token's heads, [g] of which share a key head. *)
Definition head_at (h : nat) (t : mat) : list F := default [] (t !! h).

Definition token_attention (scale : F) (g : nat) (q : mat) (kvs : list (mat * mat)) : mat :=
  imap (fun h qh => attend_over scale qh ((fun kv : mat * mat => (head_at (h / g) kv.1, head_at (h / g) kv.2)) <$> kvs)) q.

(** A row of a step: its new tokens' queries, all of its keys and values, and its block table. *)
Record AttnRow := { ar_q : list mat; ar_keys : list mat; ar_values : list mat; ar_table : list Z }.

(** The row's query [j] of [n] sees the keys up to its own position, the last query's being the last. *)
Definition row_output (scale : F) (g : nat) (r : AttnRow) : list mat :=
  imap (fun j q => token_attention scale g q
    (take (length (ar_keys r) - length (ar_q r) + j + 1) (zip (ar_keys r) (ar_values r)))) (ar_q r).

(** Tokens of [h] heads of [d] entries. *)
Definition Shaped (h d : nat) (x : list mat) : Prop := Forall (fun t => length t = h /\ wide d t) x.

Record AttnRowOk (nh nkv d : nat) (r : AttnRow) : Prop := {
  aro_q : Shaped nh d (ar_q r);
  aro_keys : Shaped nkv d (ar_keys r);
  aro_values : Shaped nkv d (ar_values r);
  aro_kv : length (ar_values r) = length (ar_keys r);
  aro_len : 0 < length (ar_q r) <= length (ar_keys r)
}.

End Spec.

Arguments AttnRow : clear implicits.

(** ** Caches *)

(** A tensor [num_blocks, block_size, ...]. *)
Record Pages (E : Type) := { pg_size : nat; pg_blocks : list (list E) }.
Arguments pg_size {E} _.
Arguments pg_blocks {E} _.
Arguments Build_Pages {E} _ _.

Section Pages.
Context {E : Type}.

Definition numel (c : Pages E) : nat := pg_size c * length (pg_blocks c).

(** Every block has its tokens, of which [P] holds. *)
Definition PagesOk (P : E -> Prop) (c : Pages E) : Prop :=
  0 < pg_size c /\ Forall (fun b => length b = pg_size c /\ Forall P b) (pg_blocks c).

(** The entry of a slot. *)
Definition slot_entry (c : Pages E) (slot : Z) : option E :=
  b ← pg_blocks c !! Z.to_nat (slot / Z.of_nat (pg_size c));
  b !! Z.to_nat (slot mod Z.of_nat (pg_size c)).

(** The slot of a row's position, by its block table. *)
Definition table_slot (c : Pages E) (table : list Z) (p : nat) : option Z :=
  b ← table !! (p / pg_size c);
  if (0 <=? b)%Z then Some (b * Z.of_nat (pg_size c) + Z.of_nat (p mod pg_size c))%Z else None.

(** The cache holds a row's first entries in the blocks of its table. *)
Definition Holds (c : Pages E) (table : list Z) (entries : list E) : Prop :=
  forall p e, entries !! p = Some e -> exists s, table_slot c table p = Some s /\ slot_entry c s = Some e.

(** [tables.size(1)]. *)
Definition table_width (tables : list (list Z)) : Z := match tables with [] => 0 | t :: _ => Zlen t end.

End Pages.

(** ** Backends *)

Section Backends.
Context {F : Type} `{!Scalar F} `{!Softmax F}.
Local Abbreviation mat := (list (list F)).

(** A layer's two caches. *)
Record Caches := { k_cache : Pages mat; v_cache : Pages mat }.

(** What a backend computes: the methods that the layer calls. The context's caches of splits are the state. *)
Class AttentionBackend := {
  split_decodes : bool;
  store_kvcache : list mat -> list mat -> list Z -> M Caches unit;
  prefill : list mat -> list mat -> list mat -> Caches -> Fields -> M AttentionContext (list mat);
  decode : list mat -> Caches -> Fields -> M AttentionContext (list mat)
}.

(** One step of a layer, after its keys are stored. *)
Definition backend_forward `{!AttentionBackend} (q k v : list mat) (c : Caches) (context : Fields) : M AttentionContext (list mat) :=
  if negb (cx_is_prefill context) then decode q c context
  else if negb split_decodes then prefill q k v c context
  else
    let! s := split_decodes_and_prefills 1 in
    match sp_decodes s, sp_prefills s with
    | None, PSelf => prefill q k v c context
    | None, PNew p => prefill q k v c p
    | None, PNone_ => raise (AssertionError "")
    | Some d, PNone_ => decode q c d
    | Some d, p =>
        let n := sp_rows s in
        let! first := decode (py_upto q n) c d in
        let! rest := prefill (py_from q n) (py_from k n) (py_from v n) c
          (match p with PNew p => p | _ => context end) in
        ret (first ++ rest)
    end.

(** [Attention.attend]: the op's body. *)
Definition attend `{!AttentionBackend} (q k v : list mat) : M (Caches * AttentionContext) (list mat) :=
  let! context := on_snd (gets id) in
  let! c := on_fst (gets id) in
  (if (negb (numel (k_cache c) =? 0)) && (negb (numel (v_cache c) =? 0)) then
     let! slots := or_raise (cx_slot_mapping (cx_fields context)) TypeError in
     on_fst (store_kvcache k v slots)
   else ret tt);;;
  let! c := on_fst (gets id) in
  on_snd (backend_forward q k v c (cx_fields context)).

(** [_actual_rows]: the step's own rows. *)
Definition actual_rows {A} (x : list A) (context : AttentionContext) : list A :=
  match cx_num_actual_tokens (cx_fields context) with None => x | Some n => py_upto x n end.

(** [Attention.forward], through the op that writes into [out]; [garbage] is what it held. *)
Definition attention_forward `{!AttentionBackend} (garbage : nat -> mat) (q k v : list mat)
    : M (Caches * AttentionContext) (list mat) :=
  let! context := on_snd (gets id) in
  let out := garbage <$> seq 0 (length q) in
  let q := actual_rows q context in
  let! o := attend q (actual_rows k context) (actual_rows v context) in
  ret (o ++ drop (length q) out).

(** Caches of one block size, of tokens of [nkv] heads of [d] entries. *)
Definition TokenOk (nkv d : nat) (t : mat) : Prop := length t = nkv /\ wide d t.

Record CachesOk (nkv d : nat) (c : Caches) : Prop := {
  co_k : PagesOk (TokenOk nkv d) (k_cache c);
  co_v : PagesOk (TokenOk nkv d) (v_cache c);
  co_size : pg_size (v_cache c) = pg_size (k_cache c);
  co_blocks : length (pg_blocks (v_cache c)) = length (pg_blocks (k_cache c))
}.

(** A context of the rows: the host has bounds of the key lengths, the tables of one width reach the longest, and they have blocks of the cache. *)
Record ContextOk {E} (c : Pages E) (context : Fields) (rows : list (AttnRow F)) (k_lens : list Z) : Prop := {
  cr_batch : BatchContext context (Zlen <$> (ar_q <$> rows)) k_lens (Zlen <$> (ar_keys <$> rows)) (ar_table <$> rows);
  cr_bound : Forall2 (fun r n => (Zlen (ar_keys r) <= n)%Z) rows k_lens;
  cr_ids : Forall (fun r => Forall (fun b => (b < Z.of_nat (length (pg_blocks c)))%Z) (ar_table r)) rows;
  cr_width : exists w, Forall (fun r => Zlen (ar_table r) = w) rows /\ Forall (fun n => (n <= w * Z.of_nat (pg_size c))%Z) k_lens
}.

Definition RowsHeld (c : Caches) (rows : list (AttnRow F)) : Prop :=
  Forall (fun r => Holds (k_cache c) (ar_table r) (ar_keys r) /\ Holds (v_cache c) (ar_table r) (ar_values r)) rows.

(** Slots written, the others as they were. *)
Record Stored {E} (c : Pages E) (slots : list Z) (entries : list E) (c' : Pages E) : Prop := {
  sd_size : pg_size c' = pg_size c;
  sd_blocks : length (pg_blocks c') = length (pg_blocks c);
  sd_new i s e : slots !! i = Some s -> entries !! i = Some e -> slot_entry c' s = Some e;
  sd_old s : (0 <= s)%Z -> s ∉ slots -> slot_entry c' s = slot_entry c s
}.

(** What a backend promises a layer of [nh] heads over [nkv] key heads. *)
Class BackendOk `{!AttentionBackend} (scale : F) (nh nkv d : nat) := {
  store_ok k v slots c : CachesOk nkv d c -> Shaped nkv d k -> Shaped nkv d v ->
    length k = length slots -> length v = length slots -> NoDup slots ->
    Forall (fun s => 0 <= s < Z.of_nat (numel (k_cache c)))%Z slots ->
    wp (store_kvcache k v slots) c (fun _ c' => CachesOk nkv d c' /\
      Stored (k_cache c) slots k (k_cache c') /\ Stored (v_cache c) slots v (v_cache c'));
  prefill_ok rows k v c context k_lens x :
    Forall (AttnRowOk nh nkv d) rows -> rows <> [] -> CachesOk nkv d c ->
    ContextOk (k_cache c) context rows k_lens -> RowsHeld c rows ->
    wp (prefill (concat (ar_q <$> rows)) k v c context) x (fun o x' => x' = x /\
      o = concat (row_output scale (nh / nkv) <$> rows));
  decode_ok rows c context k_lens x :
    Forall (AttnRowOk nh nkv d) rows -> rows <> [] -> CachesOk nkv d c ->
    ContextOk (k_cache c) context rows k_lens -> RowsHeld c rows ->
    Forall (fun r => length (ar_q r) = 1) rows ->
    wp (decode (concat (ar_q <$> rows)) c context) x (fun o x' => x' = x /\
      o = concat (row_output scale (nh / nkv) <$> rows))
}.

End Backends.

Arguments Caches : clear implicits.
Arguments AttentionBackend : clear implicits.
