(* ===== verification/Moe.v ===== *)
(** * Mixture of experts

    [layers/moe.py]: routed experts on the portable path. Each token-expert
    pair is a row; the rows are sorted by expert, multiplied group by group and
    added back to their tokens. Under tensor parallelism a rank has a slice of
    every expert, under expert parallelism whole experts of its own. *)


From S2P Require Import Prelude Arrays Tensors Ranks Linear Qwen3 Attention.

(** PyTorch's sort, which is not stable, and grouped matrix multiply, which
    leaves the rows past the last offset undefined. The weights are by expert,
    each with its outputs as rows, as the layer stores them. *)
Class TorchGroups (F : Type) `{!Scalar F} := {
  sort : list Z -> list Z * list nat;
  sort_eq l : (sort l).2 ≡ₚ seq 0 (length l) /\ StronglySorted Z.le (sort l).1 /\
    Forall2 (fun j e => l !! j = Some e) (sort l).2 (sort l).1;
  grouped_mm : list (list F) -> list (list (list F)) -> list Z -> list (list F);
  grouped_mm_eq x ws offs d m : wide d x -> ws <> [] -> Forall (fun w => wide d w /\ length w = m) ws -> length offs = length ws ->
    StronglySorted Z.le offs -> Forall (fun o => (0 <= o <= Zlen x)%Z) offs ->
    length (grouped_mm x ws offs) = length x /\ wide m (grouped_mm x ws offs) /\
    forall j r e w lo hi, x !! j = Some r -> ws !! e = Some w -> (0%Z :: offs) !! e = Some lo -> offs !! e = Some hi ->
      (lo <= Z.of_nat j < hi)%Z -> grouped_mm x ws offs !! j = Some (dot r <$> w)
}.

(** Linear placement of experts. *)
Definition determine_expert_map {S} (ep_size ep_rank num_experts : nat) : M S (nat * option (list Z)) :=
  if ep_size =? 1 then ret (num_experts, None)
  else if ep_size =? 0 then raise ZeroDivisionError
  else
    let base := num_experts / ep_size in
    let remainder := num_experts mod ep_size in
    let local_num_experts := if ep_rank <? remainder then base + 1 else base in
    let start := ep_rank * base + min ep_rank remainder in
    ret (local_num_experts,
         Some (splice start (Z.of_nat <$> seq 0 local_num_experts) (replicate num_experts (-1)%Z))).

Section Experts.
Context {F : Type} `{!Scalar F} `{!Torch F} `{!TorchGroups F}.
Local Abbreviation mat := (list (list F)).

Definition shared_mlp {S} (x gate_up down : mat) : M S mat :=
  let! h := SiluAndMul_forward (linear x gate_up None) in ret (linear h down None).

(** [torch.zeros_like]. *)
Definition zeros_like (r : list F) : list F := (fun _ => fzero) <$> r.

(** [out.index_add_(0, ids, rows)]. *)
Fixpoint index_add (out : mat) (ids : list nat) (rows : mat) : option mat :=
  match ids, rows with
  | i :: ids', r :: rows' => o ← out !! i; index_add (<[i := vadd o r]> out) ids' rows'
  | _, _ => Some out
  end.

Definition local_ids {S} (num_experts : nat) (expert_map : option (list Z)) (topk_ids : list (list Z))
    : M S (list (list Z)) :=
  match expert_map with
  | None => ret topk_ids
  | Some map =>
      let! ids := or_raise (mapM (fun row : list Z => mapM (py_get map) row) topk_ids : option (list (list Z)))
        IndexError in
      ret ((fun row : list Z => (fun i => if (i <? 0)%Z then Z.of_nat num_experts else i) <$> row) <$> ids)
  end.

Definition torch_experts {S} (x : mat) (gate_up_proj down_proj : list mat) (top_k : nat)
    (topk_weights : mat) (topk_ids : list (list Z)) (expert_map : option (list Z)) : M S mat :=
  let num_experts := length gate_up_proj in
  let! topk_ids := local_ids num_experts expert_map topk_ids in
  let '(expert_ids, order) := sort (concat topk_ids) in
  let token_ids := (fun p => p / top_k) <$> order in
  let offsets := (fun e => searchsorted_right expert_ids (Z.of_nat e)) <$> seq 0 num_experts in
  let! rows := or_raise (mapM (fun t => x !! t) token_ids) IndexError in
  let h := grouped_mm rows gate_up_proj offsets in
  let! h := SiluAndMul_forward h in
  let h := grouped_mm h down_proj offsets in
  let! w := or_raise (mapM (fun p => concat topk_weights !! p) order) IndexError in
  let h := zip_with (fun (r : list F) a => (fun y => fmul y a) <$> r) h w in
  let h :=
    match expert_map with
    | None => h
    | Some _ => zip_with (fun (e : Z) r => if (e <? Z.of_nat num_experts)%Z then r else zeros_like r) expert_ids h
    end in
  or_raise (index_add (zeros_like <$> x) token_ids h) IndexError.

Definition moe_experts {S} (x : mat) (gate_up_proj down_proj : list mat) (top_k : nat) (topk_weights : mat)
    (topk_ids : list (list Z)) (expert_map : option (list Z)) (shared : option (mat * mat)) : M S mat :=
  let! out := torch_experts x gate_up_proj down_proj top_k topk_weights topk_ids expert_map in
  match shared with
  | None => ret out
  | Some (gate_up, down) => let! s := shared_mlp x gate_up down in ret (madd out s)
  end.

(** ** The layer *)

Record FusedMoE := {
  moe_tp_rank : nat;
  moe_tp_size : nat;
  ep_rank : nat;
  ep_size : nat;
  num_experts : nat;
  top_k : nat;
  intermediate : nat;
  local_num_experts : nat;
  local_expert_ids : option (list Z);
  moe_gate_up : list (Param F);
  moe_down : list (Param F);
  expert_map : option (list Z)
}.

Definition FusedMoE_init {S} (g : Group) (num_experts top_k hidden_size intermediate_size : nat)
    (enable_expert_parallel : bool) : M S FusedMoE :=
  let use_ep := enable_expert_parallel && (1 <? world_size g) in
  let '(tp_rank, tp_size) := if use_ep then (0, 1) else (rank g, world_size g) in
  let '(ep_rank, ep_size) := if use_ep then (rank g, world_size g) else (0, 1) in
  let! inter := divide intermediate_size tp_size in
  let! (local, map) := determine_expert_map ep_size ep_rank num_experts in
  ret {| moe_tp_rank := tp_rank; moe_tp_size := tp_size; ep_rank := ep_rank; ep_size := ep_size;
         num_experts := num_experts; top_k := top_k; intermediate := inter; local_num_experts := local;
         local_expert_ids := map; moe_gate_up := replicate local (empty2 (2 * inter) hidden_size);
         moe_down := replicate local (empty2 hidden_size inter); expert_map := map |}.

(** [param.data[i]], changed in place. *)
Definition at_expert (i : nat) (m : M (Param F) unit) : M (list (Param F)) unit := fun l =>
  match l !! i with
  | None => (inl IndexError, l)
  | Some p => let '(r, p') := m p in (r, <[i := p']> l)
  end.

(** The local id of an expert, [None] for another rank's. *)
Definition local_id {S} (self : FusedMoE) (expert_id : nat) : M S (option nat) :=
  match local_expert_ids self with
  | None => ret (Some expert_id)
  | Some ids =>
      let! i := or_raise (ids !! expert_id) IndexError in
      ret (if (i =? -1)%Z then None else Some (Z.to_nat i))
  end.

Definition moe_chunk {S} (self : FusedMoE) (dim : nat) (loaded : Param F) : M S (Param F) :=
  let! chunks := chunk (moe_tp_size self) dim loaded in
  or_raise (chunks !! moe_tp_rank self) IndexError.

Definition moe_weight_loader (self : FusedMoE) (loaded : Param F) (expert_id : nat) (proj : string)
    : M (list (Param F)) unit :=
  let! id := local_id self expert_id in
  match id with
  | None => ret tt
  | Some i =>
      if bool_decide (proj = "down_proj"%string) then
        let! own := moe_chunk self 1 loaded in
        at_expert i (copy_whole own)
      else
        let offset := if bool_decide (proj = "gate_proj"%string) then 0 else intermediate self in
        let! own := moe_chunk self 0 loaded in
        at_expert i (copy_narrow 0 offset (intermediate self) own)
  end.

Definition FusedMoE_forward (self : FusedMoE) (x topk_weights : mat) (topk_ids : list (list Z))
    (shared : option (mat * mat)) : Prog F mat :=
  pbind (run_local (moe_experts x (as_mat <$> moe_gate_up self) (as_mat <$> moe_down self) (top_k self)
    topk_weights topk_ids (expert_map self) shared))
    (fun out => if (1 <? moe_tp_size self) || (1 <? ep_size self) then all_reduce out else Done out).

End Experts.

Arguments FusedMoE : clear implicits.

(** ** Linear placement *)

Definition expert_start (n e r : nat) : nat := r * (e / n) + min r (e mod n).
Definition expert_count (n e r : nat) : nat := e / n + (if r <? e mod n then 1 else 0).

Lemma expert_start_S n e r : expert_start n e (S r) = expert_start n e r + expert_count n e r.
Proof. unfold expert_start, expert_count. destruct (Nat.ltb_spec r (e mod n)); lia. Qed.

Lemma expert_start_end n e : 0 < n -> expert_start n e n = e.
Proof.
  intros Hn. unfold expert_start. pose proof (Nat.div_mod_eq e n). pose proof (Nat.mod_upper_bound e n). lia.
Qed.

Lemma expert_start_mono n e r k : r <= k -> expert_start n e r <= expert_start n e k.
Proof. induction 1 as [|k _ IH]; [done|]. rewrite expert_start_S. lia. Qed.

(** Every expert has one rank. *)
Lemma expert_rank n e x : 0 < n -> x < e ->
  exists r, r < n /\ expert_start n e r <= x < expert_start n e r + expert_count n e r /\
    forall k, k < n -> expert_start n e k <= x < expert_start n e k + expert_count n e k -> k = r.
Proof.
  intros Hn Hx.
  assert (Hex : forall m, m <= n -> x < expert_start n e m -> exists r, r < m /\
    expert_start n e r <= x < expert_start n e (S r)).
  { induction m as [|m IH]; intros Hm Hlt; [unfold expert_start in Hlt; lia|].
    destruct (decide (x < expert_start n e m)) as [H|H].
    - destruct (IH ltac:(lia) H) as (r & Hr & Hb). exists r. split; [lia|done].
    - exists m. split; [lia|]. lia. }
  destruct (Hex n ltac:(lia) ltac:(rewrite expert_start_end; lia)) as (r & Hr & Hb).
  exists r. rewrite <-expert_start_S. split_and!; [done|lia|lia|].
  intros k Hk Hkb. rewrite <-expert_start_S in Hkb.
  destruct (decide (k < r)) as [H|H]; [pose proof (expert_start_mono n e (S k) r ltac:(lia)); lia|].
  destruct (decide (r < k)) as [H'|H']; [pose proof (expert_start_mono n e (S r) k ltac:(lia)); lia|]. lia.
Qed.

(** ** Routing tokens to experts

    [torch_select_experts] of [layers/moe.py]: scores, the best groups where
    the experts are grouped, and the best experts, with their weights. *)


(** Choices are compared by a total order; [None] is -inf. [torch.topk] gives the indices of the largest, in no
    order, and any of equal ones. *)
Class Ordered (F : Type) := {
  fle : F -> F -> Prop;
  fle_dec x y :: Decision (fle x y);
  fle_refl x : fle x x;
  fle_trans x y z : fle x y -> fle y z -> fle x z;
  fle_total x y : fle x y \/ fle y x
}.

Section Choices.
Context {F : Type} `{!Ordered F}.

Definition choice_le (x y : option F) : Prop :=
  match x, y with None, _ => True | Some _, None => False | Some x, Some y => fle x y end.

#[export] Instance choice_le_dec x y : Decision (choice_le x y).
Proof. destruct x, y; apply _. Defined.

Lemma choice_le_refl x : choice_le x x.
Proof. destruct x; simpl; [apply fle_refl|done]. Qed.

Lemma choice_le_trans x y z : choice_le x y -> choice_le y z -> choice_le x z.
Proof. destruct x, y, z; simpl; try done. apply fle_trans. Qed.

Lemma choice_le_total x y : choice_le x y \/ choice_le y x.
Proof. destruct x, y; simpl; auto. apply fle_total. Qed.

End Choices.

Class TopK (F : Type) `{!Ordered F} := {
  topk : nat -> list (option F) -> list nat;
  topk_eq k l : k <= length l -> length (topk k l) = k /\ NoDup (topk k l) /\
    Forall (fun i => i < length l) (topk k l) /\
    forall i j x y, i ∈ topk k l -> j ∉ topk k l -> l !! i = Some x -> l !! j = Some y -> choice_le y x
}.

Section Routing.
Context {F : Type} `{!Scalar F} `{!Softmax F} `{!Ordered F} `{!TopK F}.
Local Abbreviation mat := (list (list F)).

(** [scores.softmax(dim=-1)] and [scores.sigmoid()] of one row. *)
Definition softmax (x : list F) : list F :=
  let es := fexp <$> x in (fun e => fmul e (finv (fsum es))) <$> es.
Definition sigmoids (x : list F) : list F := (fun a => finv (fadd fone (fexp (fopp a)))) <$> x.

(** [grouped.max(dim=-1)] and [grouped.topk(2, dim=-1).values.sum(dim=-1)] of one group. *)
Definition fmax (x y : F) : F := if decide (fle x y) then y else x.
Definition max_of {S} (l : list F) : M S F :=
  match l with [] => raise IndexError | x :: l' => ret (foldl fmax x l') end.

Definition topk_checked {S} (k : nat) (l : list (option F)) : M S (list nat) :=
  if k <=? length l then ret (topk k l) else raise (RuntimeError "selected index k out of range").

Definition best_two {S} (l : list F) : M S F :=
  let! ids := topk_checked 2 (Some <$> l) in
  ret (fsum ((fun i => default fzero (l !! i)) <$> ids)).

(** A row of equal groups: [view(num_token, num_groups, -1)]. *)
Definition groups_of {S} (num_groups : nat) (row : list F) : M S mat :=
  if length row mod num_groups =? 0 then ret (pieces (length row / num_groups) num_groups row)
  else raise (RuntimeError "shape is invalid for input").

(** Only experts in the [topk_group] best groups stay eligible. *)
Definition mask_groups {S} (num_groups topk_group : nat) (biased : bool) (choice : list F) : M S (list (option F)) :=
  let! groups := groups_of num_groups choice in
  let! group_scores := collect groups (fun g => if biased then best_two g else max_of g) in
  let! best := topk_checked topk_group (Some <$> group_scores) in
  ret (concat (imap (fun g row => if decide (g ∈ best) then Some <$> row else replicate (length row) None) groups)).

(** One token's experts and their weights. *)
Definition select_row {S} (top_k : nat) (renormalize : bool) (scaling : F) (num_groups topk_group : nat)
    (scoring_func : string) (bias : option (list F)) (logits : list F) : M S (list F * list nat) :=
  let scores := if String.eqb scoring_func "softmax" then softmax logits else sigmoids logits in
  let choice := match bias with None => scores | Some b => vadd scores b end in
  let! choice :=
    (if 1 <? num_groups then
       mask_groups num_groups topk_group (match bias with Some _ => true | None => false end) choice
     else ret (Some <$> choice)) in
  let! ids := topk_checked top_k choice in
  let weights := (fun i => default fzero (scores !! i)) <$> ids in
  let weights := if renormalize then (fun w => fmul w (finv (fsum weights))) <$> weights else weights in
  ret ((fun w => fmul w scaling) <$> weights, ids).

Definition torch_select_experts {S} (router_logits : mat) (top_k : nat) (renormalize : bool) (scaling : F)
    (num_groups topk_group : nat) (scoring_func : string) (e_score_correction_bias : option (list F))
    : M S (mat * list (list Z)) :=
  let! rows := collect router_logits
    (select_row top_k renormalize scaling num_groups topk_group scoring_func e_score_correction_bias) in
  ret (rows.*1, (fun r : list F * list nat => Z.of_nat <$> r.2) <$> rows).

End Routing.
