(* ===== verification/MLA.v ===== *)
(** * Multi-head latent attention

    [MLAAttention] of [layers/attention.py], with [attention/merge.py]: the
    cache holds one latent for each token. A prompt's rows expand the latents
    they need, a chunk at a time, and merge the parts by log-sum-exp; a decode
    moves its queries into the latents' space. *)


From S2P Require Import Prelude Arrays AttnContext Tensors Attention.
(** ** Chunks of cached context

    [layers/attention.py]: how a step's cached keys are packed into chunks of a
    bounded number of keys, and that every row's cached keys are in them, in
    order, exactly once. *)


(** ** Packing

    A chunk is the first of its consecutive rows, and where each row's keys
    start in it and how many there are. *)

Definition Plan : Type := Z * list Z * list Z.

Record Packing := {
  pk_row : nat;
  pk_start : Z;
  pk_starts : list Z;
  pk_lens : list Z;
  pk_used : Z;
  pk_chunks : list Plan
}.

#[export] Instance eta_Packing : Eta Packing := fun p =>
  Build_Packing (pk_row p) (pk_start p) (pk_starts p) (pk_lens p) (pk_used p) (pk_chunks p).

Definition len_at (lens : list Z) (p : Packing) : Z := default 0%Z (lens !! pk_row p).

(** One turn of the inner loop: as many keys of the row as still fit. *)
Definition pack_row (lens : list Z) (budget : Z) (p : Packing) : Packing :=
  let n := len_at lens p in
  let take := Z.min (n - pk_start p) (budget - pk_used p) in
  let start := (pk_start p + take)%Z in
  {| pk_row := if (start =? n)%Z then S (pk_row p) else pk_row p;
     pk_start := if (start =? n)%Z then 0%Z else start;
     pk_starts := pk_starts p ++ [pk_start p];
     pk_lens := pk_lens p ++ [take];
     pk_used := (pk_used p + take)%Z;
     pk_chunks := pk_chunks p |}.

Definition pack_chunk (lens : list Z) (budget : Z) : M Packing unit :=
  let! first := gets pk_row in
  modify (fun p => p <| pk_starts := [] |> <| pk_lens := [] |> <| pk_used := 0%Z |>);;;
  while_ (S (S (length lens)))
    (fun p => (pk_row p <? length lens) && negb (len_at lens p =? 0)%Z && (pk_used p <? budget)%Z)
    (modify (pack_row lens budget);;; ret true);;;
  modify (fun p => p <| pk_chunks ::= fun l => l ++ [(Z.of_nat first, pk_starts p, pk_lens p)] |>).

Definition plan_loop (lens : list Z) (budget : Z) : M Packing unit :=
  assert_ (0 <? budget)%Z "";;;
  while_ (S (length lens + Z.to_nat (Zsum lens)))
    (fun p => pk_row p <? length lens)
    (let! n := gets (len_at lens) in
     (if (n =? 0)%Z then modify (fun p => p <| pk_row ::= S |>) else pack_chunk lens budget);;;
     ret true).

Definition plan_context_chunks {S} (context_lens : list Z) (budget : Z) : M S (list Plan) := fun s =>
  match plan_loop context_lens budget
    {| pk_row := 0; pk_start := 0; pk_starts := []; pk_lens := []; pk_used := 0; pk_chunks := [] |} with
  | (inl e, _) => (inl e, s)
  | (inr _, p) => (inr (pk_chunks p), s)
  end.

(** ** Cells

    The cached keys of rows, as pairs of a row and a position. *)

Definition cells (first : nat) (starts lens : list Z) : list (nat * Z) :=
  concat (imap (fun k p => (fun i => (first + k, i)) <$> seqZ p.1 p.2) (zip starts lens)).

Definition row_cells (lens : list Z) : list (nat * Z) :=
  concat (imap (fun k n => (fun i => (k, i)) <$> seqZ 0 n) lens).

(** The cells before a place. *)
Definition cells_before (lens : list Z) (row : nat) (start : Z) : list (nat * Z) :=
  row_cells (take row lens) ++ ((fun i => (row, i)) <$> seqZ 0 start).

Definition plan_cells (c : Plan) : list (nat * Z) := cells (Z.to_nat c.1.1) c.1.2 c.2.

(** A chunk of at most [budget] keys, some of each of its rows. *)
Record PlanOk (rows : nat) (budget : Z) (c : Plan) : Prop := {
  pl_first : (0 <= c.1.1)%Z;
  pl_same : length c.1.2 = length c.2;
  pl_rows : c.2 <> [] /\ Z.to_nat c.1.1 + length c.2 <= rows;
  pl_pos : Forall (fun n => (0 < n)%Z) c.2;
  pl_start : Forall (fun n => (0 <= n)%Z) c.1.2;
  pl_budget : (Zsum c.2 <= budget)%Z
}.

Lemma row_cells_snoc lens n :
  row_cells (lens ++ [n]) = row_cells lens ++ ((fun i => (length lens, i)) <$> seqZ 0 n).
Proof. unfold row_cells. rewrite imap_app, concat_app. simpl. by rewrite Nat.add_0_r, app_nil_r. Qed.

Lemma cells_snoc first starts lens st n :
  length starts = length lens ->
  cells first (starts ++ [st]) (lens ++ [n]) =
  cells first starts lens ++ ((fun i => (first + length lens, i)) <$> seqZ st n).
Proof.
  intros Hl. unfold cells. rewrite zip_with_app by done. rewrite imap_app, concat_app. simpl.
  rewrite length_zip_with, Hl, Nat.min_id, Nat.add_0_r. by rewrite app_nil_r.
Qed.

Lemma cells_before_more lens row start n :
  (0 <= start)%Z -> (0 <= n)%Z ->
  cells_before lens row (start + n) = cells_before lens row start ++ ((fun i => (row, i)) <$> seqZ start n).
Proof.
  intros Hs Hn. unfold cells_before. rewrite seqZ_app by done. by rewrite fmap_app, <-app_assoc, Z.add_0_l.
Qed.

Lemma cells_before_next lens row n :
  lens !! row = Some n -> cells_before lens row n = cells_before lens (S row) 0.
Proof.
  intros Hn. unfold cells_before. rewrite (take_S_r _ _ _ Hn), row_cells_snoc, app_nil_r.
  assert (row < length lens) by by apply lookup_lt_Some in Hn. by rewrite length_take, Nat.min_l by lia.
Qed.

Lemma cells_before_all lens row : length lens <= row -> cells_before lens row 0 = row_cells lens.
Proof. intros Hr. unfold cells_before. by rewrite take_ge, app_nil_r. Qed.

(** ** The loops *)

Section Packing.
Variable lens : list Z.
Variable budget : Z.
Hypothesis Hlens : Forall (fun n => (0 <= n)%Z) lens.
Hypothesis Hbudget : (0 < budget)%Z.

(** A place between keys: in a row, or at the start of one. *)
Definition Place (p : Packing) : Prop :=
  pk_row p <= length lens /\ (0 <= pk_start p)%Z /\ (pk_start p = 0%Z \/ pk_start p < len_at lens p)%Z.

Lemma Zsum_snoc (l : list Z) n : Zsum (l ++ [n]) = (Zsum l + n)%Z.
Proof using. rewrite Zsum_app. unfold Zsum at 2. simpl. lia. Qed.

(** Inside a chunk that starts at row [first]. *)
Record Inside (first : nat) (start0 : Z) (chunks : list Plan) (p : Packing) : Prop := {
  in_place : Place p;
  in_chunks : pk_chunks p = chunks;
  in_same : length (pk_starts p) = length (pk_lens p);
  in_row : pk_start p = 0%Z -> pk_row p = first + length (pk_lens p) ;
  in_mid : pk_start p <> 0%Z -> pk_lens p = [] /\ pk_row p = first \/
             pk_used p = budget /\ S (pk_row p) = first + length (pk_lens p);
  in_used : pk_used p = Zsum (pk_lens p) /\ (pk_used p <= budget)%Z;
  in_pos : Forall (fun n => (0 < n)%Z) (pk_lens p) /\ Forall (fun n => (0 <= n)%Z) (pk_starts p);
  in_cells : cells_before lens first start0 ++ cells first (pk_starts p) (pk_lens p) =
             cells_before lens (pk_row p) (pk_start p)
}.

Definition inner_cond (p : Packing) : bool :=
  (pk_row p <? length lens) && negb (len_at lens p =? 0)%Z && (pk_used p <? budget)%Z.

Lemma pack_row_inside first start0 chunks p :
  Inside first start0 chunks p -> inner_cond p = true ->
  Inside first start0 chunks (pack_row lens budget p) /\
  (length lens - pk_row (pack_row lens budget p) + (if (pk_used (pack_row lens budget p) <? budget)%Z then 1 else 0) <
   length lens - pk_row p + (if (pk_used p <? budget)%Z then 1 else 0)) /\
  pk_lens (pack_row lens budget p) <> [].
Proof using Hlens.
  intros [(Hrow & H0 & Hst) Hch Hsame Hr Hm [Hu Hub] [Hpos Hsp] Hc] Hcond. unfold inner_cond in Hcond.
  apply andb_true_iff in Hcond as [[Hlt%Nat.ltb_lt Hn%negb_true_iff]%andb_true_iff Hused].
  pose proof Hused as Hused'. apply Z.ltb_lt in Hused'. apply Z.eqb_neq in Hn.
  destruct (lookup_lt_is_Some_2 lens (pk_row p) Hlt) as [n Hlk].
  assert (Hln : len_at lens p = n) by (unfold len_at; by rewrite Hlk). rewrite Hln in *.
  assert (0 <= n)%Z by (rewrite Forall_lookup in Hlens; by apply (Hlens (pk_row p))).
  rewrite Hused. unfold pack_row. rewrite Hln. set (t := Z.min (n - pk_start p) (budget - pk_used p)).
  assert (Ht : (0 < t)%Z) by lia. cbn [pk_row pk_used pk_lens pk_starts pk_start pk_chunks].
  assert (Hfirst : pk_row p = first + length (pk_lens p)).
  { destruct (decide (pk_start p = 0%Z)) as [Hz|Hz]; [by apply Hr|]. destruct (Hm Hz) as [[-> ->]|[Hb _]]; [simpl; lia|lia]. }
  assert (Hcells : cells_before lens first start0 ++ cells first (pk_starts p ++ [pk_start p]) (pk_lens p ++ [t]) =
    cells_before lens (pk_row p) (pk_start p + t)).
  { rewrite cells_snoc, app_assoc, Hc, cells_before_more by (done || lia). by rewrite Hfirst. }
  split_and!; [|destruct (Z.eqb_spec (pk_start p + t) n); destruct (Z.ltb_spec (pk_used p + t) budget); lia|by destruct (pk_lens p)].
  assert (Hlen : length (pk_lens p ++ [t]) = S (length (pk_lens p))) by (rewrite length_app; simpl; lia).
  constructor; cbn [pk_row pk_used pk_lens pk_starts pk_start pk_chunks]; rewrite ?Hlen; try done.
  - destruct (Z.eqb_spec (pk_start p + t) n) as [He|He]; unfold Place; cbn [pk_row pk_start].
    + split_and!; [lia|lia|by left].
    + split_and!; [lia|lia|]. right. unfold len_at. cbn [pk_row]. rewrite Hlk. simpl. lia.
  - rewrite length_app. simpl. lia.
  - destruct (Z.eqb_spec (pk_start p + t) n); lia.
  - destruct (Z.eqb_spec (pk_start p + t) n) as [He|He]; [done|]. intros _. right. split; [|lia]. lia.
  - rewrite Zsum_snoc. lia.
  - split; apply Forall_app; (split; [done|]); by constructor.
  - rewrite Hcells. destruct (Z.eqb_spec (pk_start p + t) n) as [He|He]; [|done]. rewrite He. by apply cells_before_next.
Qed.

Lemma pack_chunk_spec p : Place p -> pk_row p < length lens -> len_at lens p <> 0%Z ->
  Forall (PlanOk (length lens) budget) (pk_chunks p) ->
  wp (pack_chunk lens budget) p (fun _ p' => Place p' /\
    Forall (PlanOk (length lens) budget) (pk_chunks p') /\
    exists c, pk_chunks p' = pk_chunks p ++ [c] /\
      cells_before lens (pk_row p) (pk_start p) ++ plan_cells c = cells_before lens (pk_row p') (pk_start p')).
Proof using Hlens Hbudget.
  intros Hp Hrow Hn Hall. unfold pack_chunk. wp_step. wp_steps.
  set (p0 := p <| pk_starts := [] |> <| pk_lens := [] |> <| pk_used := 0%Z |>).
  assert (H0 : Inside (pk_row p) (pk_start p) (pk_chunks p) p0).
  { unfold p0. constructor; try done; cbn; [by left|split; [done|lia]|by rewrite app_nil_r]. }
  eapply wp_mono.
  { apply (wp_while _ _ _ p0 (fun q => length lens - pk_row q + (if (pk_used q <? budget)%Z then 1 else 0))
      (fun q => Inside (pk_row p) (pk_start p) (pk_chunks p) q /\ (pk_lens q = [] -> q = p0))
      (fun q => Inside (pk_row p) (pk_start p) (pk_chunks p) q /\ pk_lens q <> [])).
    - by split.
    - destruct (pk_used p0 <? budget)%Z; lia.
    - intros q [Hq Hz] Hc. split; [done|]. intros He. rewrite (Hz He) in Hc.
      assert (Ht : inner_cond p0 = true); [|unfold inner_cond in Ht; congruence].
      unfold inner_cond, p0. apply Nat.ltb_lt in Hrow. apply Z.eqb_neq in Hn. apply Z.ltb_lt in Hbudget.
      change ((pk_row p <? length lens) && negb (len_at lens p =? 0)%Z && (0 <? budget)%Z = true).
      by rewrite Hrow, Hn, Hbudget.
    - intros q [Hq _] Hc. wp_steps. destruct (pack_row_inside _ _ _ q Hq Hc) as (Hq' & Hmu & Hne). by split_and!. }
  intros [] q [Hq Hne]. apply wp_modify. destruct Hq as [Hpl Hch Hsame Hr Hm [Hu Hub] [Hpos Hsp] Hc].
  unfold update_field. cbn. rewrite Hch. split; [exact Hpl|].
  assert (Hok : PlanOk (length lens) budget (Z.of_nat (pk_row p), pk_starts q, pk_lens q)).
  { constructor; cbn [fst snd]; [lia|done| |done|done|lia]. split; [done|]. rewrite Nat2Z.id.
    destruct Hpl as (Hrow' & Hs0 & Hst). destruct (decide (pk_start q = 0%Z)) as [Hz|Hz].
    - specialize (Hr Hz). lia.
    - destruct (Hm Hz) as [[Hl _]|[_ Hl]]; [done|].
      assert (pk_row q < length lens); [|lia]. destruct Hst as [|Hst]; [done|].
      apply lookup_lt_is_Some. unfold len_at in Hst. destruct (lens !! pk_row q); [by eexists|simpl in Hst; lia]. }
  split; [apply Forall_app; split; [done|by constructor]|].
  eexists. split; [done|]. unfold plan_cells. cbn [fst snd]. by rewrite Nat2Z.id.
Qed.

Lemma cells_before_length row start : row <= length lens -> (0 <= start)%Z ->
  length (cells_before lens row start) = Z.to_nat (Zsum (take row lens) + start).
Proof using Hlens.
  intros Hr Hs. unfold cells_before, row_cells. rewrite length_app, length_fmap, length_seqZ.
  assert (Hg : forall (l : list Z) k, Forall (fun n => (0 <= n)%Z) l ->
    length (concat (imap (fun j n => (fun i => (k + j, i)) <$> seqZ 0 n) l)) = Z.to_nat (Zsum l)).
  { clear. intros l. induction l as [|n l IH]; intros k Hl; [done|]. apply Forall_cons in Hl as [Hn Hl].
    rewrite imap_cons. cbn [concat]. rewrite length_app, length_fmap, length_seqZ.
    rewrite (imap_ext _ (fun j n => (fun i => (S k + j, i)) <$> seqZ 0 n)).
    2: { intros j m _. apply list_fmap_ext. intros _ i _. simpl. f_equal. lia. }
    rewrite IH by done. pose proof (Zsum_nonneg l Hl). change (Zsum (n :: l)) with (n + Zsum l)%Z. lia. }
  rewrite (Hg _ 0) by by apply Forall_take. pose proof (Zsum_nonneg _ (Forall_take _ row _ Hlens)). lia.
Qed.

Lemma plan_spec {T} (s : T) :
  wp (plan_context_chunks lens budget) s (fun cs s' => s' = s /\
    Forall (PlanOk (length lens) budget) cs /\ concat (plan_cells <$> cs) = row_cells lens).
Proof using Hlens Hbudget.
  set (p0 := {| pk_row := 0; pk_start := 0; pk_starts := []; pk_lens := []; pk_used := 0; pk_chunks := [] |}).
  assert (Hw : wp (plan_loop lens budget) p0 (fun _ p => Forall (PlanOk (length lens) budget) (pk_chunks p) /\
    concat (plan_cells <$> pk_chunks p) = row_cells lens)).
  { unfold plan_loop. apply wp_bind, wp_assert; [by apply Z.ltb_lt|].
    apply (wp_while _ _ _ p0
      (fun p => length lens - pk_row p + Z.to_nat (Zsum lens - Zsum (take (pk_row p) lens) - pk_start p))
      (fun p => Place p /\ Forall (PlanOk (length lens) budget) (pk_chunks p) /\
         concat (plan_cells <$> pk_chunks p) = cells_before lens (pk_row p) (pk_start p))).
    - split_and!; [split_and!; [simpl; lia|done|by left]|constructor|done].
    - change (length lens - 0 + Z.to_nat (Zsum lens - 0 - 0) < S (length lens + Z.to_nat (Zsum lens))). lia.
    - intros p ((Hr & H0 & Hst) & Hall & Hc) Hcond. apply Nat.ltb_ge in Hcond. split; [done|]. rewrite Hc.
      assert (pk_start p = 0%Z) as ->; [|by apply cells_before_all]. destruct Hst as [|Hst]; [done|].
      unfold len_at in Hst. rewrite lookup_ge_None_2 in Hst by done. simpl in Hst. lia.
    - intros p (Hpl & Hall & Hc) Hcond. apply Nat.ltb_lt in Hcond. wp_steps.
      destruct Hpl as (Hr & H0 & Hst).
      assert (Htot : forall row st, row <= length lens -> (0 <= st)%Z ->
        (st = 0 \/ st < default 0 (lens !! row))%Z -> (0 <= Zsum lens - Zsum (take row lens) - st)%Z).
      { intros row st Hrow Hst0 Hs. rewrite <-(take_drop row lens) at 1. rewrite Zsum_app.
        pose proof (Zsum_nonneg _ (Forall_drop _ row _ Hlens)). destruct Hs as [->|Hs]; [lia|].
        destruct (lens !! row) as [n|] eqn:Hlk; [|simpl in Hs; lia]. simpl in Hs.
        rewrite (drop_S _ _ _ Hlk). change (Zsum (n :: ?l)) with (n + Zsum l)%Z.
        pose proof (Zsum_nonneg _ (Forall_drop _ (S row) _ Hlens)). lia. }
      apply wp_if; intros Hz; [apply Z.eqb_eq in Hz|apply Z.eqb_neq in Hz].
      + wp_steps. unfold update_field. cbn [pk_row pk_start pk_chunks].
        destruct Hst as [Hst|Hst]; [|lia]. unfold len_at in Hz.
        destruct (lens !! pk_row p) as [n|] eqn:Hlk; [|by apply lookup_ge_None in Hlk; lia]. simpl in Hz. subst n.
        split_and!; [split_and!; [simpl; lia|simpl; lia|by left]|done| |].
        * rewrite Hc, Hst. by apply cells_before_next.
        * rewrite (take_S_r _ _ _ Hlk), Zsum_snoc. lia.
      + wp_call pack_chunk_spec; [done|done|done|done|]. intros [] p' (Hpl' & Hall' & c & Hch & Hcells).
        wp_steps. split_and!; [done|done| |].
        * by rewrite Hch, fmap_app, concat_app, Hc, <-Hcells; simpl; rewrite app_nil_r.
        * destruct Hpl' as (Hr' & H0' & Hst').
          assert (Hlen : length (cells_before lens (pk_row p) (pk_start p)) + length (plan_cells c) =
            length (cells_before lens (pk_row p') (pk_start p'))) by by rewrite <-length_app, Hcells.
          rewrite !cells_before_length in Hlen by lia.
          assert (Hpos : 0 < length (plan_cells c)).
          { rewrite Hch in Hall'. apply Forall_app in Hall' as [_ Hok]. apply Forall_cons in Hok as [Hok _].
            destruct (pl_rows _ _ _ Hok) as [Hne _]. pose proof (pl_same _ _ _ Hok) as Hsame. unfold plan_cells, cells.
            pose proof (pl_pos _ _ _ Hok) as Hp. destruct c as [[f [|st sts]] [|n ns]]; simpl in *; try done.
            apply Forall_cons in Hp as [Hn _]. rewrite length_app, length_fmap, length_seqZ. lia. }
          pose proof (Htot _ _ Hr' H0' Hst'). pose proof (Htot _ _ Hr H0 Hst).
          pose proof (Zsum_nonneg _ (Forall_take _ (pk_row p) _ Hlens)).
          pose proof (Zsum_nonneg _ (Forall_take _ (pk_row p') _ Hlens)).
          assert (pk_row p <= pk_row p' \/ pk_row p' < pk_row p) as [|Hback] by lia; [lia|].
          assert (Zsum (take (pk_row p') lens) + pk_start p' <= Zsum (take (pk_row p) lens))%Z; [|lia].
          destruct (lens !! pk_row p') as [n|] eqn:Hlk; [|by apply lookup_ge_None in Hlk; lia].
          replace (pk_row p) with (S (pk_row p') + (pk_row p - S (pk_row p'))) by lia.
          rewrite <-take_take_drop, Zsum_app, (take_S_r _ _ _ Hlk), Zsum_snoc.
          pose proof (Zsum_nonneg _ (Forall_take _ (pk_row p - S (pk_row p')) _ (Forall_drop _ (S (pk_row p')) _ Hlens))).
          unfold len_at in Hst'. rewrite Hlk in Hst'. simpl in Hst'.
          rewrite Forall_lookup in Hlens. specialize (Hlens _ _ Hlk). simpl in Hlens. lia. }
  unfold wp in *. unfold plan_context_chunks. fold p0. destruct (plan_loop lens budget p0) as [[e|[]] p]; [done|].
  by destruct Hw.
Qed.

End Packing.

(** Logarithms, in exact arithmetic: exponentials are positive, and a positive number has an inverse and a logarithm. *)
Class LogSumExp (F : Type) `{!Scalar F} `{!Softmax F} := {
  flog : F -> F;
  nan : F;
  positive : F -> Prop;
  exp_positive x : positive (fexp x);
  add_positive x y : positive x -> positive y -> positive (fadd x y);
  inv_positive x : positive x -> fmul x (finv x) = fone;
  exp_log x : positive x -> fexp (flog x) = x;
  exp_sub x y : fexp (fsub x y) = fmul (fexp x) (finv (fexp y))
}.

Section Merge.
Context {F : Type} `{!Scalar F} `{!Softmax F} `{!LogSumExp F}.
Local Abbreviation mat := (list (list F)).

(** A log-sum-exp, [None] the one of no keys, -inf. *)
Definition Lse : Type := option F.

Definition sigmoid (x : F) : F := finv (fadd fone (fexp (fopp x))).

(** [torch.sigmoid(b - a)]; -inf minus itself is NaN. *)
Definition sigmoid_diff (b a : Lse) : F :=
  match b, a with
  | Some b, Some a => sigmoid (fsub b a)
  | Some _, None => fone
  | None, Some _ => fzero
  | None, None => nan
  end.

Definition logaddexp (a b : Lse) : Lse :=
  match a, b with
  | Some a, Some b => Some (flog (fadd (fexp a) (fexp b)))
  | Some a, None => Some a
  | None, b => b
  end.

Definition lerp (a b w : F) : F := fadd a (fmul w (fsub b a)).

(** [merge_attention] of one head of one token. *)
Definition merge_head (o_a : list F) (lse_a : Lse) (o_b : list F) (lse_b : Lse) : list F :=
  let weight_b := sigmoid_diff lse_b lse_a in
  zip_with (fun a b => lerp a b weight_b) o_a o_b.

Definition merge_token (o_a : mat) (lse_a : list Lse) (o_b : mat) (lse_b : list Lse) : mat :=
  zip_with (fun a b : list F * Lse => merge_head a.1 a.2 b.1 b.2) (zip o_a lse_a) (zip o_b lse_b).

Definition merge_attention (o_a : list mat) (lse_a : list (list Lse)) (o_b : list mat) (lse_b : list (list Lse))
    : list mat * list (list Lse) :=
  (zip_with (fun a b : mat * list Lse => merge_token a.1 a.2 b.1 b.2) (zip o_a lse_a) (zip o_b lse_b),
   zip_with (zip_with logaddexp) lse_a lse_b).

End Merge.

Arguments Lse : clear implicits.

(** ** Chunks of cached keys *)

Record ContextChunk := {
  cc_queries : Z * Z;
  cc_cu_seqlens_q : list Z;
  cc_cu_seqlens_k : list Z;
  cc_max_seqlen_q : Z;
  cc_max_seqlen_k : Z;
  cc_slots : list Z;
  cc_host_cu_seqlens : list Z * list Z
}.

(** One chunk's tensors. *)
Definition make_chunk {S} (cu_q : list Z) (tables : list (list Z)) (block_size : Z) (plan : Plan) : M S ContextChunk :=
  let first := plan.1.1 in
  let starts := plan.1.2 in
  let lens := plan.2 in
  let last := (first + Zlen lens)%Z in
  let cu_seqlens_k := cumulative lens in
  let num_keys := Zsum lens in
  let key_rows := np_repeat (arange (Zlen lens)) lens in
  let offsets := zip_with Z.sub starts cu_seqlens_k in
  let! shifts := gather offsets key_rows in
  let positions := zip_with Z.add (arange num_keys) shifts in
  let! rows := gather tables ((fun r => first + r)%Z <$> key_rows) in
  let! blocks := or_raise (mapM (fun rc => py_get rc.1 rc.2) (zip rows ((fun p => p / block_size)%Z <$> positions))) IndexError in
  let! q0 := or_raise (py_get cu_q first) IndexError in
  let! q1 := or_raise (py_get cu_q last) IndexError in
  let! max_q := np_max (py_slice (diffs cu_q) first last) in
  let! max_k := np_max lens in
  let cu_seqlens_q := (fun n => n - q0)%Z <$> py_slice cu_q first (last + 1) in
  ret {| cc_queries := (q0, q1); cc_cu_seqlens_q := cu_seqlens_q; cc_cu_seqlens_k := cu_seqlens_k;
         cc_max_seqlen_q := max_q; cc_max_seqlen_k := max_k;
         cc_slots := zip_with (fun b p => b * block_size + p mod block_size)%Z blocks positions;
         cc_host_cu_seqlens := (cu_seqlens_q, cu_seqlens_k) |}.

(** The state is the context's [context_chunks]. *)
Definition context_chunks (context : Fields) (block_size budget : Z) : M (option (list ContextChunk)) (list ContextChunk) :=
  let! planned := gets id in
  match planned with
  | Some chunks => ret chunks
  | None =>
      let! cu_k :=
        match cx_cu_seqlens_k_host context with
        | Some cu_k => ret cu_k
        | None => or_raise (cx_cu_seqlens_k context) (AssertionError "")
        end in
      let! cu_q := or_raise (cx_cu_seqlens_q_host context) (AssertionError "") in
      let! tables := or_raise (cx_block_tables context) (AssertionError "") in
      let context_lens := zip_with Z.sub (diffs cu_k) (diffs cu_q) in
      modify (fun _ => Some []);;;
      let! plans := plan_context_chunks context_lens budget in
      for_each plans (fun plan =>
        let! chunk := make_chunk cu_q tables block_size plan in
        modify (fun planned => Some (default [] planned ++ [chunk])));;;
      let! chunks := gets id in
      ret (default [] chunks)
  end.

(** ** The layer *)

Section MLA.
Context {F : Type} `{!Scalar F} `{!Softmax F} `{!LogSumExp F}.
Local Abbreviation mat := (list (list F)).

(** A row vector times a matrix of [n] columns. *)
Definition row_times (n : nat) (x : list F) (m : mat) : list F :=
  foldr vadd (replicate n fzero) (zip_with (fun a r => fmul a <$> r) x m).

(** [latent_projections]: per head, [P] rows of [L] entries, and [L] rows of [V]. *)
Record Projections := { pj_W_UK_T : list mat; pj_W_UV : list mat }.

Record MLAAttention := {
  ma_num_heads : nat;
  ma_head_dim : nat;
  ma_v_head_dim : nat;
  ma_scale : F;
  ma_nope_dim : nat;
  ma_kv_lora_rank : nat;
  ma_expand : mat -> list mat * list mat;
  ma_latent_projections : Projections;
  ma_max_context_chunk : Z
}.

(** What a backend has for latents, beside what it has for keys and values. *)
Class MLABackend := {
  supports_mla_decode : bool;
  store_latents : mat -> list Z -> M (Pages (list F)) unit;
  varlen_with_lse : list mat -> list mat -> list mat -> list Z -> list Z -> Z -> Z -> bool ->
    M AttentionContext (list mat * list (list (Lse F)));
  mla_decode : list mat -> Pages (list F) -> nat -> Fields -> M AttentionContext (list mat)
}.

(** A layer's latent cache, the context, and the chunks planned for it and for the prefill half of its split. *)
Record MLAState := {
  ms_latents : Pages (list F);
  ms_context : AttentionContext;
  ms_chunks : option (list ContextChunk);
  ms_split_chunks : option (list ContextChunk)
}.

#[export] Instance eta_MLAState : Eta MLAState := fun s =>
  Build_MLAState (ms_latents s) (ms_context s) (ms_chunks s) (ms_split_chunks s).

Definition on_latents {A} (m : M (Pages (list F)) A) : M MLAState A := zoom ms_latents (fun c s => s <| ms_latents := c |>) m.
Definition on_context {A} (m : M AttentionContext A) : M MLAState A := zoom ms_context (fun x s => s <| ms_context := x |>) m.

(** The chunks of the context, or of the prefill half of its split. *)
Definition on_chunks {A} (split : bool) (m : M (option (list ContextChunk)) A) : M MLAState A :=
  if split then zoom ms_split_chunks (fun x s => s <| ms_split_chunks := x |>) m
  else zoom ms_chunks (fun x s => s <| ms_chunks := x |>) m.

Definition no_caches : Caches F := {| k_cache := Build_Pages 0 []; v_cache := Build_Pages 0 [] |}.

Section Layer.
Context `{!AttentionBackend F} `{!MLABackend}.
Variable self : MLAAttention.

(** One chunk of cached keys, merged into the outputs so far. *)
Definition attend_chunk (q : list mat) (latents : mat) (acc : list mat * list (list (Lse F))) (chunk : ContextChunk)
    : M AttentionContext (list mat * list (list (Lse F))) :=
  let! cached := gather latents (cc_slots chunk) in
  let kv := ma_expand self cached in
  let (i, j) := cc_queries chunk in
  let! r := varlen_with_lse (py_slice q i j) kv.1 kv.2 (cc_cu_seqlens_q chunk) (cc_cu_seqlens_k chunk)
    (cc_max_seqlen_q chunk) (cc_max_seqlen_k chunk) false in
  let m := merge_attention (py_slice acc.1 i j) (py_slice acc.2 i j) r.1 r.2 in
  ret (splice (py_pos acc.1 i) m.1 acc.1, splice (py_pos acc.2 i) m.2 acc.2).

Fixpoint attend_chunks (q : list mat) (latents : mat) (acc : list mat * list (list (Lse F))) (chunks : list ContextChunk)
    : M AttentionContext (list mat * list (list (Lse F))) :=
  match chunks with
  | [] => ret acc
  | chunk :: chunks' => let! acc := attend_chunk q latents acc chunk in attend_chunks q latents acc chunks'
  end.

(** [_prefill]; [split] says whose chunks the context has. *)
Definition mla_prefill (split : bool) (q : list mat) (latent : mat) (context : Fields) : M MLAState (list mat) :=
  let! cache := gets ms_latents in
  let kv := ma_expand self latent in
  let! chunks :=
    match cx_block_tables context with
    | None => ret []
    | Some _ => on_chunks split (context_chunks context (Z.of_nat (pg_size cache)) (ma_max_context_chunk self))
    end in
  match chunks with
  | [] => on_context (prefill q kv.1 kv.2 no_caches (context <| cx_block_tables := None |>))
  | _ =>
      let! cu_q := or_raise (cx_cu_seqlens_q context) (AssertionError "") in
      let max_q := cx_max_seqlen_q context in
      let! new := on_context (varlen_with_lse q kv.1 kv.2 cu_q cu_q max_q max_q true) in
      let context_o := replicate (length new.1) (replicate (ma_num_heads self) (replicate (ma_v_head_dim self) fzero)) in
      let context_lse := (fun l => replicate (length l) None) <$> new.2 in
      let! acc := on_context (attend_chunks q (concat (pg_blocks cache)) (context_o, context_lse) chunks) in
      ret (merge_attention acc.1 acc.2 new.1 new.2).1
  end.

(** A head's query in the latents' space, and a head's output out of it. *)
Definition absorb_head (n : nat) (h : list F) : list F :=
  row_times (ma_kv_lora_rank self) (take (ma_nope_dim self) h) (default [] (pj_W_UK_T (ma_latent_projections self) !! n))
    ++ drop (ma_nope_dim self) h.

Definition project_head (n : nat) (o : list F) : list F :=
  row_times (ma_v_head_dim self) o (default [] (pj_W_UV (ma_latent_projections self) !! n)).

(** [_decode_latents]. *)
Definition decode_latents (q : list mat) (context : Fields) : M MLAState (list mat) :=
  let! cache := gets ms_latents in
  let! o := on_context (mla_decode (imap absorb_head <$> q) cache (ma_kv_lora_rank self) context) in
  ret (imap project_head <$> o).

Definition mla_attend (q : list mat) (latent : mat) : M MLAState (list mat) :=
  let! s := gets id in
  let context := cx_fields (ms_context s) in
  if numel (ms_latents s) =? 0 then mla_prefill false q latent context else
  let! slots := or_raise (cx_slot_mapping context) TypeError in
  on_latents (store_latents latent slots);;;
  if negb supports_mla_decode then mla_prefill false q latent context
  else if negb (cx_is_prefill context) then decode_latents q context
  else
    let! s := on_context (split_decodes_and_prefills (cx_decode_query_len context)) in
    match sp_decodes s, sp_prefills s with
    | None, PSelf => mla_prefill false q latent context
    | None, PNew p => mla_prefill true q latent p
    | None, PNone_ => raise (AssertionError "")
    | Some d, PNone_ => decode_latents q d
    | Some d, p =>
        let n := (sp_rows s * cx_max_seqlen_q d)%Z in
        let! first := decode_latents (py_upto q n) d in
        let! rest :=
          match p with
          | PNew p => mla_prefill true (py_from q n) (py_from latent n) p
          | _ => mla_prefill false (py_from q n) (py_from latent n) context
          end in
        ret (first ++ rest)
    end.

(** [MLAAttention.forward], through the op that writes into [out]. *)
Definition mla_forward (garbage : nat -> mat) (q : list mat) (latent : mat) : M MLAState (list mat) :=
  let! x := gets ms_context in
  let out := garbage <$> seq 0 (length q) in
  let q := actual_rows q x in
  let! o := mla_attend q (actual_rows latent x) in
  ret (o ++ drop (length q) out).

End Layer.
End MLA.

Arguments Projections : clear implicits.
Arguments MLAAttention : clear implicits.
Arguments MLABackend : clear implicits.
Arguments MLAState : clear implicits.
