(* ===== verification/TorchAttention.v ===== *)
(** * The portable attention backend

    [attention/torch_backend.py]: rows padded to a rectangle, keys gathered
    from their pages, a mask, and PyTorch's attention over each head. *)


From S2P Require Import Prelude Arrays AttnContext Tensors Attention MLA.

(** [F.scaled_dot_product_attention] of one head with a boolean mask: softmax attention over the unmasked keys,
    for queries that have one. *)
Class Sdpa (F : Type) `{!Scalar F} `{!Softmax F} := {
  sdpa : list (list F) -> list (list F) -> list (list F) -> list (list bool) -> F -> list (list F);
  sdpa_eq q k v mask scale d e i qi mi :
    wide d q -> wide d k -> wide e v -> length v = length k -> length mask = length q -> wide (length k) mask ->
    q !! i = Some qi -> mask !! i = Some mi -> true ∈ mi ->
    sdpa q k v mask scale !! i = Some (attend_over scale qi (masked (zip k v) mi))
}.

Section Torch.
Context {F : Type} `{!Scalar F} `{!Softmax F} `{!Sdpa F}.
Local Abbreviation mat := (list (list F)).

Record TorchAttention := { ta_num_heads : nat; ta_head_dim : nat; ta_scale : F; ta_num_kv_heads : nat }.

(** ** Storing *)

(** [cache[blocks, offsets] = entries], one after the other. *)
Fixpoint put_entries {E} (size : Z) (blocks : list (list E)) (slots : list Z) (entries : list E)
    : option (list (list E)) :=
  match slots, entries with
  | s :: slots', e :: entries' =>
      b ← py_get blocks (s / size); b' ← py_set b (s mod size) e;
      blocks' ← py_set blocks (s / size) b'; put_entries size blocks' slots' entries'
  | _, _ => Some blocks
  end.

Definition put_pages {S E} (c : Pages E) (slots : list Z) (entries : list E) : M S (Pages E) :=
  if pg_size c =? 0 then raise (RuntimeError "ZeroDivisionError") else
  let! blocks := or_raise (put_entries (Z.of_nat (pg_size c)) (pg_blocks c) slots entries) IndexError in
  ret {| pg_size := pg_size c; pg_blocks := blocks |}.

Definition torch_store_kvcache (key value : list mat) (slot_mapping : list Z) : M (Caches F) unit :=
  let num_tokens := length key in
  assert_ (length slot_mapping =? num_tokens) "";;;
  let keep := (fun s => (0 <=? s)%Z) <$> slot_mapping in
  let slots := masked slot_mapping keep in
  let key := masked key keep in
  let value := masked value keep in
  let! c := gets id in
  let! k := put_pages (k_cache c) slots key in
  let! v := put_pages (v_cache c) slots value in
  modify (fun _ => {| k_cache := k; v_cache := v |}).

(** ** Padding and gathering *)

(** [cu[:-1]]. *)
Definition starts_of (cu : list Z) : list Z := py_upto cu (-1).

Definition pad_rows {S X} (x : list X) (cu_seqlens : list Z) (max_seqlen : Z) : M S (list (list X)) :=
  or_raise (mapM (fun start => mapM (fun j => py_get x (Z.min (start + j) (Zlen x - 1))) (arange max_seqlen))
    (starts_of cu_seqlens)) IndexError.

Definition unpad_rows {S X} (x : list (list X)) (cu_seqlens : list Z) (num_tokens : Z) : M S (list X) :=
  or_raise (mapM (fun t =>
    let row := (searchsorted_right cu_seqlens t - 1)%Z in
    y ← py_get x row; start ← py_get cu_seqlens row; py_get y (t - start)) (arange num_tokens)) IndexError.

Definition gather_pages {S X} (zero : X -> X) (cache : Pages X) (tables : list (list Z)) (seqlen : Z)
    (seqlens : list Z) : M S (list (list X)) :=
  let block_size := Z.of_nat (pg_size cache) in
  if pg_size cache =? 0 then raise ZeroDivisionError else
  let num_blocks := ((seqlen + block_size - 1) / block_size)%Z in
  let blocks := (fun t => Z.max 0 <$> py_upto t num_blocks) <$> tables in
  let! pages := or_raise (mapM (fun row : list Z => mapM (py_get (pg_blocks cache)) row) blocks) IndexError in
  let gathered := (fun p => py_upto (concat p) seqlen) <$> pages in
  ret (zip_with (fun row n => imap (fun j e => if (n <=? Z.of_nat j)%Z then zero e else e) row) gathered seqlens).

(** A tensor's entry with its heads zeroed. *)
Definition zero_token (t : mat) : mat := (fun r : list F => (fun _ => fzero) <$> r) <$> t.

(** ** Masks *)

(** A row's own keys. *)
Definition key_mask (max_seqlen_k n : Z) : list bool := (fun p => (p <? n)%Z) <$> arange max_seqlen_k.

(** Bottom-right aligned: query [j] sits at [lk - lq + j]. *)
Definition causal_mask (max_seqlen_q max_seqlen_k lq lk : Z) (causal : bool) : list (list bool) :=
  (fun j => if causal then zip_with andb (key_mask max_seqlen_k lk)
              ((fun p => (p <=? lk - lq + j)%Z) <$> arange max_seqlen_k)
            else key_mask max_seqlen_k lk) <$> arange max_seqlen_q.

Definition masks_of (cu_q cu_k : list Z) (max_q max_k : Z) (causal : bool) : list (list (list bool)) :=
  zip_with (fun lq lk => causal_mask max_q max_k lq lk causal) (diffs cu_q) (diffs cu_k).

(** ** Attention *)

(** Head [h] of every token. *)
Definition head_column (h : nat) (x : list mat) : mat := head_at h <$> x.

(** One row: the query heads that share a key head, packed into one longer sequence. *)
Definition sdpa_row (self : TorchAttention) (q k v : list mat) (mask : list (list bool)) : list mat :=
  let lq := length q in
  let group := ta_num_heads self / ta_num_kv_heads self in
  let o := (fun h => sdpa (concat ((fun g => head_column (h * group + g) q) <$> seq 0 group))
      (head_column h k) (head_column h v) (concat (replicate group mask)) (ta_scale self))
    <$> seq 0 (ta_num_kv_heads self) in
  (fun l => (fun h => default [] (default [] (o !! (h / group)) !! ((h mod group) * lq + l)))
    <$> seq 0 (ta_num_kv_heads self * group)) <$> seq 0 lq.

(** The rows of a batch. *)
Fixpoint sdpa_rows (self : TorchAttention) (q k v : list (list mat)) (mask : list (list (list bool)))
    : list (list mat) :=
  match q, k, v, mask with
  | q :: qs, k :: ks, v :: vs, m :: ms => sdpa_row self q k v m :: sdpa_rows self qs ks vs ms
  | _, _, _, _ => []
  end.

Definition torch_prefill (self : TorchAttention) (q k v : list mat) (c : Caches F) (context : Fields)
    : M AttentionContext (list mat) :=
  let! cu_q := or_raise (cx_cu_seqlens_q context) (AssertionError "") in
  let! cu_k := or_raise (cx_cu_seqlens_k context) (AssertionError "") in
  let max_q := cx_max_seqlen_q context in
  let max_k := cx_max_seqlen_k context in
  let! q_pad := pad_rows q cu_q max_q in
  let! (k_pad, v_pad) :=
    match cx_block_tables context with
    | Some tables =>
        let seqlens_k := diffs cu_k in
        let! k_pad := gather_pages zero_token (k_cache c) tables max_k seqlens_k in
        let! v_pad := gather_pages zero_token (v_cache c) tables max_k seqlens_k in
        ret (k_pad, v_pad)
    | None =>
        let! k_pad := pad_rows k cu_k max_k in
        let! v_pad := pad_rows v cu_k max_k in
        ret (k_pad, v_pad)
    end in
  unpad_rows (sdpa_rows self q_pad k_pad v_pad (masks_of cu_q cu_k max_q max_k true)) cu_q (Zlen q).

Definition torch_decode (self : TorchAttention) (q : list mat) (c : Caches F) (context : Fields)
    : M AttentionContext (list mat) :=
  let! tables := or_raise (cx_block_tables context) (AssertionError "") in
  let! context_lens := or_raise (cx_context_lens context) (AssertionError "") in
  let max_seqlen_k := (table_width tables * Z.of_nat (pg_size (k_cache c)))%Z in
  let! k := gather_pages zero_token (k_cache c) tables max_seqlen_k context_lens in
  let! v := gather_pages zero_token (v_cache c) tables max_seqlen_k context_lens in
  let mask := (fun n => [key_mask max_seqlen_k n]) <$> context_lens in
  ret (concat (sdpa_rows self ((fun t => [t]) <$> q) k v mask)).

Definition torch_backend (self : TorchAttention) : AttentionBackend F := {|
  split_decodes := true;
  store_kvcache := torch_store_kvcache;
  prefill := torch_prefill self;
  decode := torch_decode self
|}.

End Torch.

Arguments TorchAttention : clear implicits.

(** ** Latents in the portable attention backend

    [attention/torch_backend.py]: storing latents, attention with its
    log-sum-exp written out, and attention over the latents as they are. *)


Section Torch.
Context {F : Type} `{!Scalar F} `{!Softmax F} `{!LogSumExp F} `{!Sdpa F}.
Local Abbreviation mat := (list (list F)).

(** Slot [s] of the flat view of the cache is entry [s mod size] of block [s / size]. *)
Definition torch_store_latents (latent : mat) (slot_mapping : list Z) : M (Pages (list F)) unit :=
  assert_ (length slot_mapping =? length latent) "";;;
  let keep := (fun s => (0 <=? s)%Z) <$> slot_mapping in
  let! cache := gets id in
  let! cache := put_pages cache (masked slot_mapping keep) (masked latent keep) in
  modify (fun _ => cache).

(** ** Attention with its log-sum-exp *)

(** A score, [None] where it is masked, -inf. *)
Definition weight_of (score : Lse F) : F := match score with Some x => fexp x | None => fzero end.
Definition unmasked (scores : list (Lse F)) : bool := existsb (fun s => match s with Some _ => true | None => false end) scores.

(** [scores.softmax(dim=-1)] and [scores.logsumexp(dim=-1)] of one row. *)
Definition softmax_row (scores : list (Lse F)) : list F :=
  let total := fsum (weight_of <$> scores) in
  if unmasked scores then (fun s => fmul (weight_of s) (finv total)) <$> scores else (fun _ => nan) <$> scores.

Definition logsumexp_row (scores : list (Lse F)) : Lse F :=
  if unmasked scores then Some (flog (fsum (weight_of <$> scores))) else None.

Definition masked_scores (scale : F) (q : list F) (keys : mat) (mask : list bool) : list (Lse F) :=
  zip_with (fun (k : list F) (b : bool) => if b then Some (fmul (dot q k) scale) else None) keys mask.

(** Query [q] of head [h] over its row's padded keys. *)
Definition varlen_head (self : TorchAttention F) (k v : list mat) (mask : list bool) (h : nat) (q : list F) : list F * Lse F :=
  let repeats := ta_num_heads self / ta_num_kv_heads self in
  let scores := masked_scores (ta_scale self) q (head_column (h / repeats) k) mask in
  (vsum (zip_with (fun w (r : list F) => fmul w <$> r) (softmax_row scores) (head_column (h / repeats) v)), logsumexp_row scores).

Definition varlen_row (self : TorchAttention F) (q k v : list mat) (mask : list (list bool)) : list (list (list F * Lse F)) :=
  zip_with (fun (t : mat) m => imap (varlen_head self k v m) t) q mask.

Fixpoint varlen_rows (self : TorchAttention F) (q k v : list (list mat)) (mask : list (list (list bool)))
    : list (list (list (list F * Lse F))) :=
  match q, k, v, mask with
  | q :: qs, k :: ks, v :: vs, m :: ms => varlen_row self q k v m :: varlen_rows self qs ks vs ms
  | _, _, _, _ => []
  end.

Definition torch_varlen_with_lse (self : TorchAttention F) (q k v : list mat) (cu_q cu_k : list Z) (max_q max_k : Z)
    (causal : bool) : M AttentionContext (list mat * list (list (Lse F))) :=
  let! q_pad := pad_rows q cu_q max_q in
  let! k_pad := pad_rows k cu_k max_k in
  let! v_pad := pad_rows v cu_k max_k in
  let r := varlen_rows self q_pad k_pad v_pad (masks_of cu_q cu_k max_q max_k causal) in
  let! o := unpad_rows ((fun row : list (list (list F * Lse F)) => (fun t : list (list F * Lse F) => t.*1) <$> row) <$> r) cu_q (Zlen q) in
  let! lse := unpad_rows ((fun row : list (list (list F * Lse F)) => (fun t : list (list F * Lse F) => t.*2) <$> row) <$> r) cu_q (Zlen q) in
  ret (o, lse).

(** ** Attention over latents *)

Definition zero_latent (c : list F) : list F := (fun _ => fzero) <$> c.

(** A row's queries: its tokens of a batch of rows of [lq]. *)
Definition row_queries {X} (lq : Z) (b : nat) (q : list X) : list X := py_slice q (Z.of_nat b * lq) (Z.of_nat (S b) * lq).

Definition mla_row (self : TorchAttention F) (v_dim : nat) (q : list mat) (latent : mat) (mask : list (list bool)) : list mat :=
  let o := (fun h => sdpa (head_column h q) latent (take v_dim <$> latent) mask (ta_scale self)) <$> seq 0 (ta_num_heads self) in
  (fun l => (fun h => default [] (default [] (o !! h) !! l)) <$> seq 0 (ta_num_heads self)) <$> seq 0 (length q).

Definition torch_mla_decode (self : TorchAttention F) (q : list mat) (latent_cache : Pages (list F)) (v_dim : nat)
    (context : Fields) : M AttentionContext (list mat) :=
  let! tables := or_raise (cx_block_tables context) (AssertionError "") in
  let! context_lens := or_raise (cx_context_lens context) (AssertionError "") in
  if (Zlen context_lens =? 0)%Z then raise ZeroDivisionError else
  let lq := (Zlen q / Zlen context_lens)%Z in
  let max_seqlen_k := (table_width tables * Z.of_nat (pg_size latent_cache))%Z in
  let! latent := gather_pages zero_latent latent_cache tables max_seqlen_k context_lens in
  ret (concat (imap (fun b cn => mla_row self v_dim (row_queries lq b q) cn.1 (causal_mask lq max_seqlen_k lq cn.2 true))
    (zip latent context_lens))).

Definition torch_mla (self : TorchAttention F) : MLABackend F := {|
  supports_mla_decode := true;
  store_latents := torch_store_latents;
  varlen_with_lse := torch_varlen_with_lse self;
  mla_decode := torch_mla_decode self
|}.

End Torch.
