(* ===== verification/TorchFacts.v ===== *)
(** * The portable backend is causal attention

    Padding, gathering, masking and packing change nothing: each row of a step
    gets softmax attention over its own keys up to each query's position. *)

From S2P Require Import Prelude Arrays AttnContext Tensors Attention TorchAttention.

(** ** Lists that start with given ones *)

Definition Extends {X} (n : nat) (y x : list X) : Prop := length x = n /\ exists t, x = y ++ t.

Lemma extends_intro {X} n (y x : list X) : length x = n -> length y <= n ->
  (forall j e, y !! j = Some e -> x !! j = Some e) -> Extends n y x.
Proof.
  intros Hx Hy Hl. split; [done|]. exists (drop (length y) x). rewrite <-(take_drop (length y) x) at 1. f_equal.
  apply list_eq. intros j. destruct (decide (j < length y)) as [H|H].
  - rewrite lookup_take_lt by done. destruct (lookup_lt_is_Some_2 y j H) as [e He]. rewrite He. by apply Hl.
  - rewrite (lookup_ge_None_2 y) by lia. apply lookup_ge_None_2. rewrite length_take. lia.
Qed.

Lemma extends_lookup {X} n (y x : list X) j e : Extends n y x -> y !! j = Some e -> x !! j = Some e.
Proof. intros [_ [t ->]] Hj. by apply lookup_app_l_Some. Qed.

Lemma extends_le {X} n (y x : list X) : Extends n y x -> length y <= n.
Proof. intros [<- [t ->]]. rewrite length_app. lia. Qed.

Lemma extends_fmap {X Y} (f : X -> Y) n y x : Extends n y x -> Extends n (f <$> y) (f <$> x).
Proof. intros [Hn [t ->]]. split; [by rewrite length_fmap|]. exists (f <$> t). apply fmap_app. Qed.

Lemma concat_uniform_lookup {X} n (l : list (list X)) p : 0 < n -> Forall (fun r => length r = n) l ->
  concat l !! p = (r ← l !! (p / n); r !! (p mod n)).
Proof.
  intros Hn Hl. revert p. induction Hl as [|r l Hr _ IH]; intros p; [done|]. simpl.
  destruct (decide (p < n)) as [H|H].
  - rewrite lookup_app_l by lia. by rewrite Nat.div_small, Nat.mod_small.
  - rewrite lookup_app_r by lia. rewrite Hr, IH.
    assert (p / n = S ((p - n) / n) /\ p mod n = (p - n) mod n) as [-> ->]; [|done].
    replace p with (p - n + 1 * n) at 1 3 by lia. rewrite Nat.div_add, Nat.Div0.mod_add by lia. lia.
Qed.

(** ** Padded rows *)

Lemma starts_lookup (lens : list Z) i : i < length lens -> starts_of (cumulative lens) !! i = Some (Zsum (take i lens)).
Proof.
  intros Hi. unfold starts_of, py_upto, py_pos. rewrite cumulative_length. cbn [Z.ltb Z.compare].
  rewrite lookup_take_lt by lia. apply cumulative_lookup. lia.
Qed.

Lemma starts_length (lens : list Z) : length (starts_of (cumulative lens)) = length lens.
Proof. unfold starts_of, py_upto, py_pos. rewrite length_take, cumulative_length. cbn [Z.ltb Z.compare]. lia. Qed.

Lemma arange_lookup n (j : nat) : (Z.of_nat j < n)%Z -> arange n !! j = Some (Z.of_nat j).
Proof. intros Hj. unfold arange. rewrite lookup_seqZ. lia. Qed.

Lemma arange_lookup_Some n (j : nat) z : arange n !! j = Some z -> z = Z.of_nat j /\ (Z.of_nat j < n)%Z.
Proof. intros Hj%lookup_seqZ. lia. Qed.

Lemma pad_rows_spec {S X} (xs : list (list X)) max (s : S) : concat xs <> [] ->
  Forall (fun x => (Zlen x <= max)%Z) xs ->
  wp (pad_rows (concat xs) (cumulative (Zlen <$> xs)) max) s (fun p s' => s' = s /\
    Forall2 (Extends (Z.to_nat max)) xs p /\ Forall (Forall (fun e => e ∈ concat xs)) p).
Proof.
  intros Hne Hmax. unfold pad_rows. set (N := Zlen (concat xs)).
  assert (HN : (0 < N)%Z) by (unfold N, Zlen; destruct (concat xs); [done|simpl; lia]).
  set (f := fun start : Z => mapM (fun j => py_get (concat xs) (Z.min (start + j) (N - 1))) (arange max)).
  assert (Hf : forall i, i < length xs -> exists r, f (Zsum (Zlen <$> take i xs)) = Some r).
  { intros i Hi. apply mapM_is_Some_2, Forall_forall. intros j Hj%elem_of_seqZ_iff.
    assert (0 <= Zsum (Zlen <$> take i xs))%Z by (rewrite <-Zsum_lengths; apply Zlen_nonneg).
    simpl. rewrite py_get_lookup by lia. apply lookup_lt_is_Some. unfold N, Zlen in *. lia. }
  destruct (mapM f (starts_of (cumulative (Zlen <$> xs)))) as [p|] eqn:Hp.
  2: { exfalso. apply eq_None_not_Some in Hp. apply Hp, mapM_is_Some_2, Forall_lookup. intros i start Hi.
    pose proof (lookup_lt_Some _ _ _ Hi) as Hlt. rewrite starts_length, length_fmap in Hlt.
    rewrite starts_lookup, <-fmap_take in Hi by by rewrite length_fmap. injection Hi as <-. by apply Hf. }
  apply wp_or_raise with p; [done|]. split; [done|]. apply mapM_Some_1 in Hp.
  assert (Hrow : forall i x r, xs !! i = Some x -> p !! i = Some r -> f (Zsum (Zlen <$> take i xs)) = Some r).
  { intros i x r Hx Hr. destruct (Forall2_lookup_r _ _ _ _ _ Hp Hr) as (st & Hst & Hfr).
    rewrite starts_lookup, <-fmap_take in Hst by (rewrite length_fmap; by eapply lookup_lt_Some). by injection Hst as <-. }
  assert (Hlen : length xs = length p).
  { apply Forall2_length in Hp. by rewrite starts_length, length_fmap in Hp. }
  split.
  - apply Forall2_same_length_lookup_2; [done|]. intros i x r Hx Hr. pose proof (Hrow i x r Hx Hr) as Hm.
    apply mapM_Some_1 in Hm. rewrite Forall_lookup in Hmax. specialize (Hmax i x Hx).
    assert (Hlr : length r = Z.to_nat max).
    { apply Forall2_length in Hm. unfold arange in Hm. rewrite length_seqZ in Hm. lia. }
    apply extends_intro; [done|unfold Zlen in Hmax; lia|]. intros j e Hj. pose proof (lookup_lt_Some _ _ _ Hj) as Hlt.
    assert (Hj' : (Z.of_nat j < max)%Z) by (unfold Zlen in Hmax; lia).
    destruct (lookup_lt_is_Some_2 r j) as [e' He']; [lia|]. rewrite He'.
    pose proof (Forall2_lookup_lr _ _ _ _ _ _ Hm (arange_lookup max j Hj') He') as Hg.
    pose proof (concat_lookup xs i x j e Hx Hj) as Hc. pose proof (lookup_lt_Some _ _ _ Hc) as Hcl.
    assert (0 <= Zsum (Zlen <$> take i xs))%Z by (rewrite <-Zsum_lengths; apply Zlen_nonneg).
    simpl in Hg. set (start := Zsum (Zlen <$> take i xs)) in *. rewrite Z.min_l in Hg by (unfold N, Zlen; lia).
    rewrite py_get_lookup in Hg by lia. replace (Z.to_nat (start + Z.of_nat j)) with (Z.to_nat start + j) in Hg by lia.
    congruence.
  - apply Forall_lookup. intros i r Hr. destruct (lookup_lt_is_Some_2 xs i) as [x Hx]; [apply lookup_lt_Some in Hr; lia|].
    pose proof (Hrow i x r Hx Hr) as Hm. apply mapM_Some_1 in Hm. apply Forall_lookup. intros j e He.
    destruct (Forall2_lookup_r _ _ _ _ _ Hm He) as (z & Hz & Hg). apply arange_lookup_Some in Hz as [-> Hj].
    assert (0 <= Zsum (Zlen <$> take i xs))%Z by (rewrite <-Zsum_lengths; apply Zlen_nonneg).
    simpl in Hg. rewrite py_get_lookup in Hg by lia. by apply list_elem_of_lookup_2 in Hg.
Qed.

Lemma filter_prefix {X} (P : X -> Prop) `{!forall x, Decision (P x)} (l : list X) n :
  (forall i x, l !! i = Some x -> P x <-> i < n) -> filter P l = take n l.
Proof.
  revert n. induction l as [|x l IH]; intros n Hl; [by destruct n|]. rewrite filter_cons. destruct n as [|n].
  - rewrite decide_False by (intros Hx; apply (Hl 0 x eq_refl) in Hx; lia). rewrite (IH 0); [by destruct l|].
    intros i y Hy. rewrite (Hl (S i) y Hy). lia.
  - rewrite decide_True by (apply (Hl 0 x eq_refl); lia). cbn [take]. f_equal. apply IH.
    intros i y Hy. rewrite (Hl (S i) y Hy). lia.
Qed.

Lemma searchsorted_cumulative (lens : list Z) i t : Forall (fun n => (0 <= n)%Z) lens -> i < length lens ->
  (Zsum (take i lens) <= t < Zsum (take (S i) lens))%Z -> searchsorted_right (cumulative lens) t = Z.of_nat (S i).
Proof.
  intros Hpos Hi Ht. unfold searchsorted_right. rewrite (filter_prefix _ _ (S i)).
  { unfold Zlen. rewrite length_take, cumulative_length. lia. }
  intros k y Hk. pose proof (lookup_lt_Some _ _ _ Hk) as Hlt. rewrite cumulative_length in Hlt.
  rewrite cumulative_lookup in Hk by lia. injection Hk as <-.
  assert (Hmono : forall a b, a <= b -> (Zsum (take a lens) <= Zsum (take b lens))%Z).
  { intros a b Hab. pose proof (Zsum_take_le (take b lens) a (Forall_take _ _ _ Hpos)) as Hle.
    by rewrite take_take, Nat.min_l in Hle. }
  split; intros Hy.
  - apply Nat.nle_gt. intros Hc. pose proof (Hmono (S i) k Hc). lia.
  - pose proof (Hmono k i ltac:(lia)). lia.
Qed.

Lemma unpad_rows_spec {S X} (ys xs : list (list X)) n (s : S) : Forall2 (Extends n) ys xs ->
  wp (unpad_rows xs (cumulative (Zlen <$> ys)) (Zlen (concat ys))) s (fun o s' => s' = s /\ o = concat ys).
Proof.
  intros Hx. unfold unpad_rows. apply wp_or_raise with (concat ys); [|done]. apply mapM_Some_2.
  apply Forall2_same_length_lookup_2; [unfold arange; rewrite length_seqZ; unfold Zlen; lia|].
  intros t z e Hz He. apply arange_lookup_Some in Hz as [-> _].
  destruct (concat_lookup_inv _ _ _ He) as (i & y & j & Hi & Hj & Ht).
  destruct (Forall2_lookup_l _ _ _ _ _ Hx Hi) as (r & Hr & Hext).
  pose proof (lookup_lt_Some _ _ _ Hi) as Hil. pose proof (lookup_lt_Some _ _ _ Hj) as Hjl.
  assert (Hpos : Forall (fun n => (0 <= n)%Z) (Zlen <$> ys)) by (apply Forall_fmap, Forall_forall; intros; apply Zlen_nonneg).
  rewrite fmap_take in Ht.
  assert (H0 : (0 <= Zsum (take i (Zlen <$> ys)))%Z) by by apply Zsum_nonneg, Forall_take.
  assert (HS : Zsum (take (Datatypes.S i) (Zlen <$> ys)) = (Zsum (take i (Zlen <$> ys)) + Zlen y)%Z).
  { rewrite (take_S_r _ _ (Zlen y)) by by rewrite list_lookup_fmap, Hi. rewrite Zsum_app. unfold Zsum. simpl. lia. }
  assert (0 < Zlen y)%Z by (unfold Zlen; lia). assert (Z.of_nat j < Zlen y)%Z by (unfold Zlen; lia).
    rewrite (searchsorted_cumulative _ i) by (try done; rewrite ?length_fmap, ?HS; lia).
  replace (Z.of_nat (Datatypes.S i) - 1)%Z with (Z.of_nat i) by lia. rewrite (py_get_nth xs), Hr. simpl.
  rewrite (py_get_nth (cumulative _)), cumulative_lookup by (rewrite length_fmap; lia). simpl.
  replace (Z.of_nat t - _)%Z with (Z.of_nat j) by lia. rewrite py_get_nth. by apply (extends_lookup n y).
Qed.

(** ** Gathered pages *)

Section Gather.
Context {E : Type} (P : E -> Prop) (zero : E -> E) (c : Pages E).
Hypothesis Hc : PagesOk P c.
Hypothesis Hzero : forall e, P e -> P (zero e).
Hypothesis Hblocks : 0 < length (pg_blocks c).
Local Abbreviation bs := (Z.of_nat (pg_size c)).

Definition TableOk (w : Z) (t : list Z) : Prop :=
  Zlen t = w /\ Forall (fun b => (b < Z.of_nat (length (pg_blocks c)))%Z) t.

Lemma gather_row t ks w seqlen : TableOk w t -> Holds c t ks -> (Zlen ks <= seqlen <= w * bs)%Z ->
  exists pages, mapM (py_get (pg_blocks c)) (Z.max 0 <$> py_upto t ((seqlen + bs - 1) / bs)) = Some pages /\
    Extends (Z.to_nat seqlen) ks (py_upto (concat pages) seqlen) /\ Forall P (py_upto (concat pages) seqlen).
Proof using Hc Hblocks.
  clear Hzero. intros [Hw Hids] Hheld Hlen. destruct Hc as [Hbs Hall]. pose proof (Zlen_nonneg ks) as H0.
  set (nb := ((seqlen + bs - 1) / bs)%Z).
  assert (Hnb : (0 <= nb <= w)%Z) by (split; [apply Z.div_pos; lia|apply ceil_div_ge; lia]).
  assert (Hcover : (seqlen <= nb * bs)%Z) by (apply ceil_div_le; lia).
  assert (Hup : py_upto t nb = take (Z.to_nat nb) t) by (unfold py_upto, py_pos; destruct (Z.ltb_spec nb 0); [lia|];
    unfold Zlen in Hw; f_equal; lia).
  rewrite Hup. set (ids := take (Z.to_nat nb) t).
  assert (Lids : length ids = Z.to_nat nb) by (unfold ids; rewrite length_take; unfold Zlen in Hw; lia).
  assert (Hget : forall b, b ∈ ids -> py_get (pg_blocks c) (Z.max 0 b) = pg_blocks c !! Z.to_nat b /\
    is_Some (pg_blocks c !! Z.to_nat b)).
  { intros b Hb. rewrite Forall_forall in Hids. assert (b < Z.of_nat (length (pg_blocks c)))%Z.
    { apply Hids. apply list_elem_of_lookup in Hb as [k Hk]. apply lookup_take_Some in Hk as [Hk _]. by apply list_elem_of_lookup_2 in Hk. }
    rewrite py_get_lookup by lia. split; [f_equal; lia|]. apply lookup_lt_is_Some. lia. }
  destruct (mapM (py_get (pg_blocks c)) (Z.max 0 <$> ids)) as [pages|] eqn:Hp.
  2: { exfalso. apply eq_None_not_Some in Hp. apply Hp, mapM_is_Some_2, Forall_fmap, Forall_forall. intros b Hb. simpl.
    by destruct (Hget b Hb) as [-> ?]. }
  exists pages. split; [done|]. apply mapM_Some_1 in Hp. apply Forall2_fmap_l in Hp.
  assert (Hpl : length pages = Z.to_nat nb) by (by rewrite <-(Forall2_length _ _ _ Hp)).
  assert (Hpages : Forall (fun b => length b = pg_size c /\ Forall P b) pages).
  { apply Forall_lookup. intros i b Hb. destruct (Forall2_lookup_r _ _ _ _ _ Hp Hb) as (z & Hz & Hg). simpl in Hg.
    destruct (Hget z) as [He _]; [by apply list_elem_of_lookup_2 in Hz|]. rewrite He in Hg.
    rewrite Forall_forall in Hall. by apply Hall, (list_elem_of_lookup_2 _ _ _ Hg). }
  assert (Hlens : Forall (fun b => length b = pg_size c) pages) by (eapply Forall_impl; [exact Hpages|]; by intros b [? _]).
  assert (Lc : length (concat pages) = Z.to_nat nb * pg_size c).
  { rewrite <-Hpl. clear -Hlens. induction Hlens as [|b pages Hb _ IH]; [done|]. simpl. rewrite length_app, IH. lia. }
  assert (Hcut : py_upto (concat pages) seqlen = take (Z.to_nat seqlen) (concat pages)).
  { unfold py_upto, py_pos. destruct (Z.ltb_spec seqlen 0); [lia|]. rewrite Lc. f_equal. nia. }
  rewrite Hcut. split.
  - apply extends_intro; [rewrite length_take, Lc; nia|unfold Zlen in *; lia|]. intros p e He.
    pose proof (lookup_lt_Some _ _ _ He) as Hpl'. rewrite lookup_take_lt by (unfold Zlen in *; lia).
    rewrite (concat_uniform_lookup (pg_size c)) by done.
    destruct (Hheld p e He) as (s & Hs & Hse). unfold table_slot in Hs.
    destruct (t !! (p / pg_size c)) as [b|] eqn:Hb; [|done]. simpl in Hs. destruct (Z.leb_spec 0 b); [|done].
    injection Hs as <-. unfold slot_entry in Hse.
    assert (Hm : p mod pg_size c < pg_size c) by (apply Nat.mod_upper_bound; lia).
    rewrite Z.add_comm, Z.div_add, Z.mod_add, Z.div_small, Z.mod_small in Hse by lia. rewrite Z.add_0_l, Nat2Z.id in Hse.
    assert (Hk : p / pg_size c < Z.to_nat nb) by (apply Nat.Div0.div_lt_upper_bound; unfold Zlen in *; nia).
    assert (Hbi : ids !! (p / pg_size c) = Some b) by (unfold ids; by rewrite lookup_take_lt).
    destruct (Forall2_lookup_l _ _ _ _ _ Hp Hbi) as (blk & Hblk & Hg). simpl in Hg.
    destruct (Hget b) as [Heq _]; [by apply list_elem_of_lookup_2 in Hbi|]. rewrite Heq in Hg. rewrite Hblk. simpl.
    rewrite Hg in Hse. exact Hse.
  - apply Forall_take. clear -Hpages. induction Hpages as [|b pages [_ Hb] _ IH]; [constructor|]. by apply Forall_app.
Qed.

Lemma zero_past (ks row : list E) n : Extends n ks row -> Forall P row ->
  Extends n ks (imap (fun j e => if (Zlen ks <=? Z.of_nat j)%Z then zero e else e) row) /\
  Forall P (imap (fun j e => if (Zlen ks <=? Z.of_nat j)%Z then zero e else e) row).
Proof using Hzero.
  clear Hc Hblocks. intros He HP. split.
  - apply extends_intro; [rewrite length_imap; by destruct He|by apply (extends_le n _ row)|]. intros j e Hj.
    rewrite list_lookup_imap, (extends_lookup _ _ _ _ _ He Hj). simpl. apply lookup_lt_Some in Hj.
    destruct (Z.leb_spec (Zlen ks) (Z.of_nat j)); [unfold Zlen in *; lia|done].
  - apply Forall_lookup. intros j e Hj. rewrite list_lookup_imap in Hj. destruct (row !! j) as [e'|] eqn:Hr; [|done].
    injection Hj as <-. assert (P e') by by apply (Forall_lookup_1 _ _ _ _ HP Hr). destruct (_ <=? _)%Z; [by apply Hzero|done].
Qed.

Lemma gather_pages_spec {S} tables keys w seqlen (s : S) :
  Forall2 (fun t ks => TableOk w t /\ Holds c t ks /\ (Zlen ks <= seqlen)%Z) tables keys -> (seqlen <= w * bs)%Z ->
  wp (gather_pages zero c tables seqlen (Zlen <$> keys)) s (fun g s' => s' = s /\
    Forall2 (Extends (Z.to_nat seqlen)) keys g /\ Forall (Forall P) g).
Proof using Hc Hzero Hblocks.
  intros Hrows Hw. unfold gather_pages. destruct (Nat.eqb_spec (pg_size c) 0); [destruct Hc; lia|].
  set (nb := ((seqlen + bs - 1) / bs)%Z).
  assert (exists pages, mapM (fun row : list Z => mapM (py_get (pg_blocks c)) row) ((fun t => Z.max 0 <$> py_upto t nb) <$> tables) =
      Some pages /\ Forall2 (fun ks p => Extends (Z.to_nat seqlen) ks (py_upto (concat p) seqlen) /\
        Forall P (py_upto (concat p) seqlen)) keys pages) as (pages & Hm & Hp).
  { induction Hrows as [|t ks tables keys (Ht & Hh & Hl) _ (pages & Hm & Hp)]; [by exists []|].
    destruct (gather_row t ks w seqlen Ht Hh ltac:(lia)) as (pg & Hg & He & HP).
    exists (pg :: pages). split; [|by constructor]. rewrite fmap_cons. cbn [mapM]. unfold nb. rewrite Hg. simpl.
    fold nb. by rewrite Hm. }
  apply wp_bind. apply wp_or_raise with pages; [done|]. apply wp_ret. split; [done|]. clear Hm Hrows.
  induction Hp as [|ks p keys pages [He HP] _ [IH1 IH2]]; [by split|]. rewrite !fmap_cons. cbn [zip_with].
  destruct (zero_past ks _ _ He HP). split; by constructor.
Qed.

End Gather.

(** ** Attention of one row *)

Lemma masked_prefix {X} (l : list X) mask n : length mask = length l ->
  (forall p b, mask !! p = Some b -> b = (p <? n)) -> masked l mask = take n l.
Proof.
  revert l n. induction mask as [|b mask IH]; intros [|x l] n Hl Hm; try done; [by destruct n|].
  injection Hl as Hl. rewrite masked_cons, (Hm 0 b eq_refl). destruct n as [|n].
  - cbn [Nat.ltb]. rewrite (IH l 0 Hl); [by destruct l|]. intros p c Hp. by rewrite (Hm (S p) c Hp).
  - change (0 <? S n) with true. cbn [take]. f_equal. apply IH; [done|]. intros p c Hp. by rewrite (Hm (S p) c Hp).
Qed.

Lemma packed_lookup {X} (f : nat -> list X) g n j l : j < g -> l < n -> (forall i, i < g -> length (f i) = n) ->
  concat (f <$> seq 0 g) !! (j * n + l) = f j !! l.
Proof.
  intros Hj Hl Hf. rewrite (concat_uniform_lookup n) by
    (lia || (apply Forall_fmap, Forall_forall; intros i Hi%elem_of_seq; simpl; apply Hf; lia)).
  rewrite Nat.div_add_l, Nat.div_small, Nat.add_0_r by lia. rewrite Nat.add_comm, Nat.Div0.mod_add, Nat.mod_small by lia.
  rewrite list_lookup_fmap, lookup_seq_lt by lia. done.
Qed.

Lemma replicate_seq {X} (x : X) n : replicate n x = (fun _ => x) <$> seq 0 n.
Proof. rewrite <-(length_seq n 0) at 1. symmetry. by apply const_fmap. Qed.

Lemma zip_fmap2 {X Y X' Y'} (f : X -> X') (h : Y -> Y') (l : list X) (k : list Y) :
  (fun p : X * Y => (f p.1, h p.2)) <$> zip l k = zip (f <$> l) (h <$> k).
Proof. revert k. induction l as [|x l IH]; intros [|y k]; try done. cbn [zip zip_with]. rewrite !fmap_cons. cbn [zip_with]. by rewrite <-IH. Qed.

Section Row.
Context {F : Type} `{!Scalar F} `{!Softmax F} `{!Sdpa F}.
Local Abbreviation mat := (list (list F)).
Variable self : TorchAttention F.
Variable g d e : nat.
Hypothesis Hkv : 0 < ta_num_kv_heads self.
Hypothesis Hg : 0 < g.
Hypothesis Hnh : ta_num_heads self = ta_num_kv_heads self * g.
Local Abbreviation nh := (ta_num_heads self).
Local Abbreviation nkv := (ta_num_kv_heads self).

Lemma wide_column h n k (x : list mat) : h < n -> Shaped n k x -> wide k (head_column h x).
Proof using.
  clear. intros Hh Hx. apply Forall_fmap. eapply Forall_impl; [exact Hx|]. intros t [Ht Hw]. simpl. unfold head_at.
  destruct (lookup_lt_is_Some_2 t h) as [r Hr]; [lia|]. rewrite Hr. by apply (Forall_lookup_1 _ _ _ _ Hw Hr).
Qed.

(** A query's mask lets through the first [n] keys. *)
Definition LetsThrough (nk : nat) (n : nat) (m : list bool) : Prop :=
  length m = nk /\ forall p b, m !! p = Some b -> b = (p <? n).

Lemma lets_one nk n m : LetsThrough nk n m -> 0 < n <= nk -> true ∈ m.
Proof using.
  clear. intros [Hl Hm] Hn. destruct (lookup_lt_is_Some_2 m 0) as [b Hb]; [lia|].
  pose proof (Hm 0 b Hb) as Hb'. destruct (Nat.ltb_spec 0 n); [|lia]. subst b. by apply list_elem_of_lookup_2 in Hb.
Qed.

Lemma sdpa_row_spec qs ks vs (q k v : list mat) nq nk mask (n : nat -> nat) :
  Extends nq qs q -> Extends nk ks k -> Extends nk vs v -> length vs = length ks ->
  Shaped nh d q -> Shaped nkv d k -> Shaped nkv e v -> length mask = nq -> wide nk mask ->
  (forall l, l < length qs -> 0 < n l <= length ks /\ exists m, mask !! l = Some m /\ LetsThrough nk (n l) m) ->
  Extends nq (imap (fun l t => token_attention (ta_scale self) g t (take (n l) (zip ks vs))) qs) (sdpa_row self q k v mask).
Proof using Hkv Hg Hnh.
  intros Hq Hk Hv Hkvl Sq Sk Sv Lm Wm Hn.
  assert (Hgr : nh / nkv = g) by (rewrite Hnh, Nat.mul_comm; apply Nat.div_mul; lia).
  pose proof (extends_le _ _ _ Hq) as Hqle. pose proof (extends_le _ _ _ Hk) as Hkle.
  assert (Lq : length q = nq) by apply Hq. assert (Lk : length k = nk) by apply Hk. assert (Lv : length v = nk) by apply Hv.
  unfold sdpa_row. rewrite Hgr, Lq. apply extends_intro; [by rewrite length_fmap, length_seq|by rewrite length_imap|].
  intros l x He. rewrite list_lookup_imap in He. destruct (qs !! l) as [t|] eqn:Ht; [|done]. injection He as <-.
  pose proof (lookup_lt_Some _ _ _ Ht) as Hl. destruct (Hn l Hl) as (Hnl & m & Hm & Hlet).
  pose proof (extends_lookup _ _ _ _ _ Hq Ht) as Hqt. destruct (Forall_lookup_1 _ _ _ _ Sq Hqt) as [Lt Wt].
  rewrite list_lookup_fmap, lookup_seq_lt by lia. cbn [fmap option_fmap option_map]. f_equal. rewrite Nat.add_0_l.
  unfold token_attention. apply list_eq. intros h. rewrite list_lookup_imap, list_lookup_fmap.
  destruct (decide (h < nkv * g)) as [Hh|Hh].
  2: { rewrite lookup_seq_ge, (lookup_ge_None_2 t) by lia. done. }
  rewrite lookup_seq_lt by lia. destruct (lookup_lt_is_Some_2 t h) as [qh Hqh]; [lia|]. rewrite Hqh.
  cbn [fmap option_fmap option_map]. f_equal. rewrite Nat.add_0_l.
  assert (Hd : h / g < nkv) by (apply Nat.Div0.div_lt_upper_bound; lia).
  assert (Hmod : h mod g < g) by (apply Nat.mod_upper_bound; lia).
  assert (Hsplit : h / g * g + h mod g = h) by (pose proof (Nat.div_mod_eq h g); lia).
  rewrite list_lookup_fmap, lookup_seq_lt by lia. cbn [fmap option_fmap option_map default]. unfold Datatypes.id. rewrite Nat.add_0_l.
  set (packed := concat ((fun j => head_column (h / g * g + j) q) <$> seq 0 g)).
  assert (Wq : wide d packed).
  { unfold packed. apply Forall_concat, Forall_fmap, Forall_forall. intros j Hj%elem_of_seq. simpl.
    apply (wide_column _ nh); [nia|done]. }
  assert (Lp : length packed = g * nq).
  { unfold packed. rewrite (wide_concat_length nq), length_fmap, length_seq; [done|].
    apply Forall_fmap, Forall_forall. intros j _. simpl. unfold head_column. by rewrite length_fmap. }
  assert (Hsd : sdpa packed (head_column (h / g) k) (head_column (h / g) v) (concat (replicate g mask)) (ta_scale self)
      !! (h mod g * nq + l) = Some (attend_over (ta_scale self) qh (masked (zip (head_column (h / g) k) (head_column (h / g) v)) m))).
  { assert (Lr : length (concat (replicate g mask)) = g * nq).
    { rewrite (wide_concat_length nq), length_replicate; [done|]. by apply Forall_replicate. }
    apply (sdpa_eq _ _ _ _ _ d e _ _ m); [done|by apply (wide_column _ nkv)|by apply (wide_column _ nkv)| | | | | |].
    - unfold head_column. rewrite !length_fmap. lia.
    - lia.
    - unfold head_column. rewrite length_fmap, Lk. by apply Forall_concat, Forall_replicate.
    - unfold packed. rewrite (packed_lookup (fun j => head_column (h / g * g + j) q)) by
        (lia || (intros; unfold head_column; by rewrite length_fmap)).
      rewrite Hsplit. unfold head_column. rewrite list_lookup_fmap, Hqt. simpl. unfold head_at. by rewrite Hqh.
    - rewrite replicate_seq, (packed_lookup (fun _ => mask)) by (lia || done). done.
    - apply (lets_one nk (n l)); [done|lia]. }
  rewrite Hsd. simpl. f_equal. destruct Hlet as [Hlm Hlp].
  rewrite (masked_prefix _ _ (n l)); [|rewrite length_zip_with; unfold head_column; rewrite !length_fmap; lia|done].
  destruct Hk as [_ [tk ->]], Hv as [_ [tv ->]]. unfold head_column. rewrite !fmap_app, zip_with_app by by rewrite !length_fmap.
  rewrite take_app_le by (rewrite length_zip_with, !length_fmap; lia).
  rewrite <-(zip_fmap2 (head_at (h / g)) (head_at (h / g)) ks vs). by rewrite fmap_take.
Qed.

End Row.

(** ** Storing *)

Section Store.
Context {E : Type} (P : E -> Prop).

Lemma put_one (c : Pages E) s e : PagesOk P c -> P e -> (0 <= s < Z.of_nat (numel c))%Z ->
  let size := Z.of_nat (pg_size c) in
  exists b b' blocks, py_get (pg_blocks c) (s / size) = Some b /\ py_set b (s mod size) e = Some b' /\
    py_set (pg_blocks c) (s / size) b' = Some blocks /\
    PagesOk P {| pg_size := pg_size c; pg_blocks := blocks |} /\
    Stored c [s] [e] {| pg_size := pg_size c; pg_blocks := blocks |}.
Proof using.
  intros [Hb Hall] He Hs size. unfold numel in Hs. assert (Hsz : (0 < size)%Z) by (unfold size; lia).
  assert (Hq : (0 <= s / size < Z.of_nat (length (pg_blocks c)))%Z).
  { split; [apply Z.div_pos; lia|]. apply Z.div_lt_upper_bound; unfold size; lia. }
  pose proof (Z.mod_pos_bound s size Hsz) as Hm.
  destruct (lookup_lt_is_Some_2 (pg_blocks c) (Z.to_nat (s / size))) as [b Hblk]; [lia|].
  destruct (Forall_lookup_1 _ _ _ _ Hall Hblk) as [Lb Pb].
  exists b, (<[Z.to_nat (s mod size) := e]> b), (<[Z.to_nat (s / size) := <[Z.to_nat (s mod size) := e]> b]> (pg_blocks c)).
  split_and!.
  - by rewrite py_get_lookup by lia.
  - rewrite <-(Z2Nat.id (s mod size)) at 1 by lia. apply py_set_nth. lia.
  - rewrite <-(Z2Nat.id (s / size)) at 1 by lia. apply py_set_nth. lia.
  - split; [done|]. apply Forall_insert; [done|]. split; [by rewrite length_insert|by apply Forall_insert].
  - split; simpl; [done|by rewrite length_insert| |].
    + intros i s' e' Hi Hi'. destruct i as [|i]; [|done]. injection Hi as <-. injection Hi' as <-.
      unfold slot_entry. simpl. fold size. rewrite list_lookup_insert_eq by lia. simpl. apply list_lookup_insert_eq. lia.
    + intros s' H0 Hne. assert (Hss : s' <> s) by (intros ->; apply Hne; constructor).
      unfold slot_entry. simpl. fold size. pose proof (Z.mod_pos_bound s' size Hsz).
      assert (0 <= s' / size)%Z by (apply Z.div_pos; lia).
      destruct (decide (s' / size = s / size)%Z) as [Hd|Hd].
      * rewrite Hd, list_lookup_insert_eq by lia. rewrite Hblk. simpl. apply list_lookup_insert_ne.
        intros Hmm. apply Hss. rewrite (Z.div_mod s size), (Z.div_mod s' size), Hd by lia. f_equal. lia.
      * rewrite list_lookup_insert_ne by lia. done.
Qed.

Lemma put_entries_spec slots : forall (c : Pages E) entries, PagesOk P c -> length entries = length slots -> Forall P entries ->
  NoDup slots -> Forall (fun s => 0 <= s < Z.of_nat (numel c))%Z slots ->
  exists blocks, put_entries (Z.of_nat (pg_size c)) (pg_blocks c) slots entries = Some blocks /\
    PagesOk P {| pg_size := pg_size c; pg_blocks := blocks |} /\
    Stored c slots entries {| pg_size := pg_size c; pg_blocks := blocks |}.
Proof using.
  induction slots as [|s slots IH]; intros c entries Hc Hl He Hnd Hs; destruct entries as [|e entries]; try done.
  - exists (pg_blocks c). destruct c. split_and!; [done|done|by split].
  - injection Hl as Hl. apply NoDup_cons in Hnd as [Hni Hnd]. apply Forall_cons in He as [He1 He].
    apply Forall_cons in Hs as [Hs1 Hs]. destruct (put_one c s e Hc He1 Hs1) as (b & b' & bl & H1 & H2 & H3 & Hc1 & [_ Hbl Hnew Hold]).
    simpl in Hbl.
    destruct (IH {| pg_size := pg_size c; pg_blocks := bl |} entries Hc1 Hl He Hnd) as (blocks & Hp & Hok & [_ Hbl' Hnew' Hold']).
    { eapply Forall_impl; [exact Hs|]. intros x Hx. unfold numel in *. simpl in *. by rewrite Hbl. }
    simpl in Hp, Hbl', Hok, Hnew', Hold'.
    exists blocks. split_and!; [|done|].
    + cbn [put_entries]. rewrite H1. simpl. rewrite H2. simpl. rewrite H3. simpl. exact Hp.
    + split; simpl; [done|lia| |].
      * intros i s' e' Hi Hi'. destruct i as [|i]; simpl in Hi, Hi'.
        -- injection Hi as <-. injection Hi' as <-. rewrite Hold' by (lia || done). by apply (Hnew 0).
        -- by apply (Hnew' i).
      * intros s' H0 Hne. apply not_elem_of_cons in Hne as [Hne1 Hne]. rewrite Hold' by done. apply Hold; [done|].
        by rewrite list_elem_of_singleton.
Qed.

Lemma put_pages_spec {S} (c : Pages E) slots entries (s : S) : PagesOk P c -> length entries = length slots ->
  Forall P entries -> NoDup slots -> Forall (fun s => 0 <= s < Z.of_nat (numel c))%Z slots ->
  wp (put_pages c slots entries) s (fun c' s' => s' = s /\ PagesOk P c' /\ Stored c slots entries c').
Proof using.
  intros Hc Hl He Hnd Hs. unfold put_pages. destruct (Nat.eqb_spec (pg_size c) 0); [destruct Hc; lia|].
  destruct (put_entries_spec slots c entries Hc Hl He Hnd Hs) as (blocks & Hp & Hok & Hst).
  apply wp_bind. apply wp_or_raise with blocks; [done|]. by apply wp_ret.
Qed.

End Store.

(** ** The backend *)

Section Backend.
Context {F : Type} `{!Scalar F} `{!Softmax F} `{!Sdpa F}.
Local Abbreviation mat := (list (list F)).
Variable self : TorchAttention F.
Variable g d : nat.
Hypothesis Hkv : 0 < ta_num_kv_heads self.
Hypothesis Hg : 0 < g.
Hypothesis Hnh : ta_num_heads self = ta_num_kv_heads self * g.
Local Abbreviation nh := (ta_num_heads self).
Local Abbreviation nkv := (ta_num_kv_heads self).
Local Abbreviation output := (row_output (ta_scale self) g).

(** Rows whose values are as many as the keys, which are no fewer than the queries. *)
Definition RowLens (r : AttnRow F) : Prop :=
  length (ar_values r) = length (ar_keys r) /\ 0 < length (ar_q r) <= length (ar_keys r).

Lemma row_lens_ok (rows : list (AttnRow F)) : Forall (AttnRowOk nh nkv d) rows -> Forall RowLens rows.
Proof using. clear. intros Hr. eapply Forall_impl; [exact Hr|]. by intros r [_ _ _ ? ?]. Qed.

Lemma sdpa_rows_spec e rows qs ks vs ms nq nk :
  Forall RowLens rows ->
  Forall2 (fun r q => Extends nq (ar_q r) q /\ Shaped nh d q) rows qs ->
  Forall2 (fun r k => Extends nk (ar_keys r) k /\ Shaped nkv d k) rows ks ->
  Forall2 (fun r v => Extends nk (ar_values r) v /\ Shaped nkv e v) rows vs ->
  Forall2 (fun r m => length m = nq /\ wide nk m /\ forall l, l < length (ar_q r) ->
    exists mi, m !! l = Some mi /\ LetsThrough nk (length (ar_keys r) - length (ar_q r) + l + 1) mi) rows ms ->
  Forall2 (Extends nq) (output <$> rows) (sdpa_rows self qs ks vs ms).
Proof using Hkv Hg Hnh.
  intros Hrows Hq. revert ks vs ms. induction Hq as [|r q rows qs [Eq Sq] _ IH]; intros ks vs ms Hk Hv Hm; [constructor|].
  apply Forall_cons in Hrows as [[Hvl Hlen] Hrows].
  inversion Hk as [|? k ? ks' [Ek Sk] Hks]; subst. inversion Hv as [|? v ? vs' [Ev Sv] Hvs]; subst.
  inversion Hm as [|? m ? ms' (Lm & Wm & Hlet) Hms]; subst.
  rewrite fmap_cons. cbn [sdpa_rows]. constructor; [|by apply IH].
  apply (sdpa_row_spec self g d e Hkv Hg Hnh _ (ar_keys r) (ar_values r) _ _ _ _ nk _
    (fun l => length (ar_keys r) - length (ar_q r) + l + 1)); try done.
  intros l Hl. split; [lia|by apply Hlet].
Qed.

Lemma zero_token_ok (t : mat) : TokenOk nkv d t -> TokenOk nkv d (zero_token t).
Proof using.
  clear. intros [Hl Hw]. split; [unfold zero_token; by rewrite length_fmap|].
  apply Forall_fmap. eapply Forall_impl; [exact Hw|]. intros r Hr. simpl. by rewrite length_fmap.
Qed.

Lemma key_mask_length max n : length (key_mask max n) = Z.to_nat max.
Proof using. clear. unfold key_mask, arange. by rewrite length_fmap, length_seqZ. Qed.

Lemma key_mask_lookup max n p b : key_mask max n !! p = Some b -> b = (Z.of_nat p <? n)%Z.
Proof using.
  clear. unfold key_mask. rewrite list_lookup_fmap. destruct (arange max !! p) as [z|] eqn:Hz; [|done].
  apply arange_lookup_Some in Hz as [-> _]. by intros [= <-].
Qed.

Lemma causal_mask_spec maxq maxk lq lk : (lq <= lk)%Z ->
  length (causal_mask maxq maxk lq lk true) = Z.to_nat maxq /\ wide (Z.to_nat maxk) (causal_mask maxq maxk lq lk true) /\
  forall l, (Z.of_nat l < lq <= maxq)%Z -> exists mi, causal_mask maxq maxk lq lk true !! l = Some mi /\
    LetsThrough (Z.to_nat maxk) (Z.to_nat (lk - lq + Z.of_nat l + 1)) mi.
Proof using.
  clear. intros Hle. assert (Hlen : forall j, length (zip_with andb (key_mask maxk lk)
    ((fun p => (p <=? lk - lq + j)%Z) <$> arange maxk)) = Z.to_nat maxk).
  { intros j. rewrite length_zip_with, key_mask_length, length_fmap. unfold arange. rewrite length_seqZ. lia. }
  unfold causal_mask. split_and!.
  - rewrite length_fmap. unfold arange. by rewrite length_seqZ.
  - apply Forall_fmap, Forall_forall. intros j _. apply Hlen.
  - intros l Hl. rewrite list_lookup_fmap, arange_lookup by lia. cbn [fmap option_fmap option_map]. eexists. split; [done|].
    split; [apply Hlen|]. intros p b Hb. rewrite lookup_zip_with in Hb.
    destruct (key_mask maxk lk !! p) as [b1|] eqn:H1; [|done]. apply key_mask_lookup in H1 as ->. simpl in Hb.
    rewrite list_lookup_fmap in Hb. destruct (arange maxk !! p) as [z|] eqn:Hz; [|done].
    apply arange_lookup_Some in Hz as [-> _]. simpl in Hb. injection Hb as <-.
    destruct (Z.ltb_spec (Z.of_nat p) lk), (Z.leb_spec (Z.of_nat p) (lk - lq + Z.of_nat l)),
      (Nat.ltb_spec p (Z.to_nat (lk - lq + Z.of_nat l + 1))); simpl; done || lia.
Qed.

Lemma tables_ok {E E0} (c : Pages E) (cr : Pages E0) context (rows : list (AttnRow F)) k_lens ents :
  pg_size c = pg_size cr -> length (pg_blocks c) = length (pg_blocks cr) -> ContextOk cr context rows k_lens ->
  Forall (fun r => Holds c (ar_table r) (ents r) /\ length (ents r) = length (ar_keys r)) rows ->
  exists w, (forall n, Forall (fun x => (x <= n)%Z) k_lens ->
    Forall2 (fun t ks => TableOk c w t /\ Holds c t ks /\ (Zlen ks <= n)%Z) (ar_table <$> rows) (ents <$> rows)) /\
    Forall (fun n => (n <= w * Z.of_nat (pg_size c))%Z) k_lens /\ Forall (fun r => Zlen (ar_table r) = w) rows.
Proof using.
  clear. intros Hs Hb [_ Hbound Hids (w & Hw & Hmax)] Hh. exists w. split_and!; [|by rewrite Hs|done].
  intros n Hn. apply Forall2_fmap. apply Forall_Forall2_diag. apply Forall_lookup. intros i r Hr.
  destruct (Forall_lookup_1 _ _ _ _ Hh Hr) as [Hr1 Hr2]. split_and!; [split|done|].
  - by apply (Forall_lookup_1 _ _ _ _ Hw Hr).
  - rewrite Hb. by apply (Forall_lookup_1 _ _ _ _ Hids Hr).
  - destruct (Forall2_lookup_l _ _ _ _ _ Hbound Hr) as (x & Hx & Hrx). pose proof (Forall_lookup_1 _ _ _ _ Hn Hx).
    unfold Zlen in *. simpl in *. lia.
Qed.

Lemma held_blocks (c : Pages mat) (r : AttnRow F) : AttnRowOk nh nkv d r -> Holds c (ar_table r) (ar_keys r) -> 0 < length (pg_blocks c).
Proof using.
  clear. intros Hr Hh. destruct (aro_len _ _ _ _ Hr) as [H1 H2].
  destruct (lookup_lt_is_Some_2 (ar_keys r) 0) as [e He]; [lia|]. destruct (Hh 0 e He) as (s & _ & Hs).
  unfold slot_entry in Hs. destruct (pg_blocks c) as [|b l]; [by rewrite lookup_nil in Hs|simpl; lia].
Qed.

Lemma concat_q_nonempty (rows : list (AttnRow F)) : Forall (AttnRowOk nh nkv d) rows -> rows <> [] -> concat (ar_q <$> rows) <> [].
Proof using.
  clear. intros Hr Hne. destruct Hr as [|r rows Hr _]; [done|]. rewrite fmap_cons. cbn [concat].
  destruct (aro_len _ _ _ _ Hr) as [Hl _]. destruct (ar_q r); [simpl in Hl; lia|done].
Qed.

Lemma Forall2_with {X Y} (R : X -> Y -> Prop) (Q : Y -> Prop) (l : list X) (k : list Y) :
  Forall2 R l k -> Forall Q k -> Forall2 (fun x y => R x y /\ Q y) l k.
Proof using. clear. induction 1 as [|x y l k Hr _ IH]; intros Hk; [constructor|]. apply Forall_cons in Hk as [? ?]. constructor; auto. Qed.

Lemma row_output_length (r : AttnRow F) : length (output r) = length (ar_q r).
Proof using. clear. unfold row_output. by rewrite length_imap. Qed.

Lemma outputs_lens (rows : list (AttnRow F)) : Zlen <$> (output <$> rows) = Zlen <$> (ar_q <$> rows).
Proof using.
  clear. rewrite <-!list_fmap_compose. apply list_fmap_ext. intros _ r _. unfold compose, Zlen. by rewrite row_output_length.
Qed.

Lemma pads_shaped {X} n w (f : X -> list mat) (rows : list X) pads : Forall (fun r => Shaped n w (f r)) rows ->
  Forall (Forall (fun t => t ∈ concat (f <$> rows))) pads -> Forall (Shaped n w) pads.
Proof using.
  clear. intros Hrows Hp. eapply Forall_impl; [exact Hp|]. intros y Hy. eapply Forall_impl; [exact Hy|]. intros t Ht.
  simpl in Ht. apply list_elem_of_In, in_concat in Ht as (z & Hz%list_elem_of_In & Hin%list_elem_of_In).
  apply list_elem_of_fmap in Hz as (r & -> & Hr). rewrite Forall_forall in Hrows.
  pose proof (Hrows r Hr) as Hs. unfold Shaped in Hs. rewrite Forall_forall in Hs. by apply Hs.
Qed.

Lemma queries_shaped (rows : list (AttnRow F)) pads : Forall (AttnRowOk nh nkv d) rows ->
  Forall (Forall (fun t => t ∈ concat (ar_q <$> rows))) pads -> Forall (Shaped nh d) pads.
Proof using. clear. intros Hrows. apply pads_shaped. eapply Forall_impl; [exact Hrows|]. by intros r [? _ _ _ _]. Qed.

Lemma masks_ok (rows : list (AttnRow F)) maxq maxk : Forall RowLens rows ->
  Forall (fun r => (Zlen (ar_q r) <= maxq)%Z) rows ->
  Forall2 (fun r m => length m = Z.to_nat maxq /\ wide (Z.to_nat maxk) m /\ forall l, l < length (ar_q r) ->
    exists mi, m !! l = Some mi /\ LetsThrough (Z.to_nat maxk) (length (ar_keys r) - length (ar_q r) + l + 1) mi)
    rows (masks_of (cumulative (Zlen <$> (ar_q <$> rows))) (cumulative (Zlen <$> (ar_keys <$> rows))) maxq maxk true).
Proof using.
  clear. intros Hrows Hmax. unfold masks_of. rewrite !diffs_cumulative. apply Forall2_lookup. intros i.
  rewrite lookup_zip_with, !list_lookup_fmap. destruct (rows !! i) as [r|] eqn:Hr; [|constructor]. simpl. constructor.
  destruct (Forall_lookup_1 _ _ _ _ Hrows Hr) as (_ & H1 & H2).
  pose proof (Forall_lookup_1 _ _ _ _ Hmax Hr) as Hmr. simpl in Hmr.
  destruct (causal_mask_spec maxq maxk (Zlen (ar_q r)) (Zlen (ar_keys r))) as (L1 & L2 & L3); [unfold Zlen; lia|].
  split_and!; [done|done|]. intros l Hl. destruct (L3 l) as (mi & Hmi & Hlet); [unfold Zlen in *; lia|].
  exists mi. split; [done|]. replace (length (ar_keys r) - length (ar_q r) + l + 1)
    with (Z.to_nat (Zlen (ar_keys r) - Zlen (ar_q r) + Z.of_nat l + 1)); [done|]. unfold Zlen. lia.
Qed.

(** The caches of the rows, with the width of their tables. *)
Lemma rows_tables (rows : list (AttnRow F)) (c : Caches F) context k_lens : Forall (AttnRowOk nh nkv d) rows -> rows <> [] -> CachesOk nkv d c ->
  ContextOk (k_cache c) context rows k_lens -> RowsHeld c rows ->
  0 < length (pg_blocks (k_cache c)) /\ Zlen <$> (ar_keys <$> rows) = Zlen <$> (ar_values <$> rows) /\
  exists w, table_width (ar_table <$> rows) = w /\ Forall (fun n => (n <= w * Z.of_nat (pg_size (k_cache c)))%Z) k_lens /\
    forall n, Forall (fun x => (x <= n)%Z) k_lens ->
      Forall2 (fun t ks => TableOk (k_cache c) w t /\ Holds (k_cache c) t ks /\ (Zlen ks <= n)%Z) (ar_table <$> rows) (ar_keys <$> rows) /\
      Forall2 (fun t ks => TableOk (v_cache c) w t /\ Holds (v_cache c) t ks /\ (Zlen ks <= n)%Z) (ar_table <$> rows) (ar_values <$> rows).
Proof using.
  clear. intros Hrows Hne Hc Hctx Hheld. destruct rows as [|r0 rows0] eqn:Hr0; [done|]. rewrite <-Hr0 in *.
  split_and!.
  - apply (held_blocks (k_cache c) r0); rewrite Hr0 in *; [by apply Forall_cons in Hrows as [? _]|].
    by apply Forall_cons in Hheld as [[? _] _].
  - rewrite <-!list_fmap_compose. apply list_fmap_ext. intros i r Hr. unfold compose, Zlen. f_equal. symmetry.
    apply (Forall_lookup_1 _ _ _ _ Hrows Hr).
  - destruct (tables_ok (k_cache c) (k_cache c) context rows k_lens ar_keys eq_refl eq_refl Hctx) as (w & Htk & Hwk & Ht).
    { eapply Forall_impl; [exact Hheld|]. by intros r [? _]. }
    destruct (tables_ok (v_cache c) (k_cache c) context rows k_lens ar_values (co_size _ _ _ Hc) (co_blocks _ _ _ Hc) Hctx)
      as (w' & Htv & _ & Ht').
    { apply Forall_lookup. intros i r Hr. split; [by apply (Forall_lookup_1 _ _ _ _ Hheld Hr)|].
      apply (Forall_lookup_1 _ _ _ _ Hrows Hr). }
    exists w. rewrite Hr0 in Ht, Ht'. apply Forall_cons in Ht as [Hw _]. apply Forall_cons in Ht' as [Hw' _].
    split_and!; [by rewrite Hr0|done|]. intros n Hn. split; [by apply Htk|]. replace w with w' by congruence. by apply Htv.
Qed.

Lemma torch_prefill_spec rows k v c context k_lens x :
  Forall (AttnRowOk nh nkv d) rows -> rows <> [] -> CachesOk nkv d c ->
  ContextOk (k_cache c) context rows k_lens -> RowsHeld c rows ->
  wp (torch_prefill self (concat (ar_q <$> rows)) k v c context) x (fun o x' => x' = x /\ o = concat (output <$> rows)).
Proof using Hkv Hg Hnh.
  intros Hrows Hne Hc Hctx Hheld. pose proof Hctx as [Hb Hbound Hids _]. unfold torch_prefill.
  rewrite (bc_dev_q _ _ _ _ _ Hb), (bc_dev_k _ _ _ _ _ Hb), (bc_tables _ _ _ _ _ Hb). cbn [or_raise]. wp_steps.
  assert (Hkne : k_lens <> []) by (intros ->; apply Forall2_length in Hbound; by destruct rows).
  assert (Hqne : Zlen <$> (ar_q <$> rows) <> []) by by destruct rows.
  rewrite (bc_max_q _ _ _ _ _ Hb Hqne), (bc_max_k _ _ _ _ _ Hb Hkne).
  destruct (max_default_spec (Zlen <$> (ar_q <$> rows)) 0 Hqne) as [_ Hmq].
  destruct (max_default_spec k_lens 0 Hkne) as [Hmk_in Hmk].
  set (maxq := max_default _ 0) in *. set (maxk := max_default k_lens 0) in *.
  destruct (rows_tables rows c context k_lens Hrows Hne Hc Hctx Hheld) as (Hblk & Hvl & w & _ & Hwk & Ht).
  destruct (Ht maxk Hmk) as [Htk Htv]. rewrite Forall_forall in Hwk.
  wp_call (pad_rows_spec (ar_q <$> rows) maxq).
  { by apply concat_q_nonempty. }
  { by rewrite Forall_fmap in Hmq. }
  intros q_pad x' (-> & Hq & Sq). wp_steps. rewrite diffs_cumulative.
  wp_call (gather_pages_spec (TokenOk nkv d) zero_token (k_cache c) (co_k _ _ _ Hc) zero_token_ok Hblk _ _ w maxk x Htk);
    [by apply Hwk|]. intros k_pad x' (-> & Hk & Sk). wp_steps. rewrite Hvl.
  wp_call (gather_pages_spec (TokenOk nkv d) zero_token (v_cache c) (co_v _ _ _ Hc) zero_token_ok
    ltac:(by rewrite (co_blocks _ _ _ Hc)) _ _ w maxk x Htv); [rewrite (co_size _ _ _ Hc); by apply Hwk|].
  intros v_pad x' (-> & Hv & Sv). wp_steps.
  assert (Hout : Forall2 (Extends (Z.to_nat maxq)) (output <$> rows) (sdpa_rows self q_pad k_pad v_pad
    (masks_of (cumulative (Zlen <$> (ar_q <$> rows))) (cumulative (Zlen <$> (ar_values <$> rows))) maxq maxk true))).
  { apply (sdpa_rows_spec d rows _ _ _ _ _ (Z.to_nat maxk)); [by apply row_lens_ok| | | |].
    - apply Forall2_with; [by rewrite Forall2_fmap_l in Hq|by apply (queries_shaped rows)].
    - apply Forall2_with; [by rewrite Forall2_fmap_l in Hk|exact Sk].
    - apply Forall2_with; [by rewrite Forall2_fmap_l in Hv|exact Sv].
    - rewrite <-Hvl. apply masks_ok; [by apply row_lens_ok|]. by rewrite !Forall_fmap in Hmq. }
  revert Hout. generalize (sdpa_rows self q_pad k_pad v_pad (masks_of (cumulative (Zlen <$> (ar_q <$> rows)))
    (cumulative (Zlen <$> (ar_values <$> rows))) maxq maxk true)). intros out Hout.
  rewrite (Zsum_lengths (ar_q <$> rows)), <-outputs_lens, <-Zsum_lengths. by apply (unpad_rows_spec _ _ (Z.to_nat maxq)).
Qed.

Lemma torch_decode_spec rows c context k_lens x :
  Forall (AttnRowOk nh nkv d) rows -> rows <> [] -> CachesOk nkv d c ->
  ContextOk (k_cache c) context rows k_lens -> RowsHeld c rows -> Forall (fun r => length (ar_q r) = 1) rows ->
  wp (torch_decode self (concat (ar_q <$> rows)) c context) x (fun o x' => x' = x /\ o = concat (output <$> rows)).
Proof using Hkv Hg Hnh.
  intros Hrows Hne Hc Hctx Hheld Hone. pose proof Hctx as [Hb Hbound Hids _]. unfold torch_decode.
  rewrite (bc_tables _ _ _ _ _ Hb), (bc_lens _ _ _ _ _ Hb). cbn [or_raise]. wp_steps.
  destruct (rows_tables rows c context k_lens Hrows Hne Hc Hctx Hheld) as (Hblk & Hvl & w & -> & Hwk & Ht).
  set (maxk := (w * Z.of_nat (pg_size (k_cache c)))%Z). destruct (Ht maxk Hwk) as [Htk Htv].
  wp_call (gather_pages_spec (TokenOk nkv d) zero_token (k_cache c) (co_k _ _ _ Hc) zero_token_ok Hblk _ _ w maxk x Htk);
    [done|]. intros k_pad x' (-> & Hk & Sk). wp_steps. rewrite Hvl.
  wp_call (gather_pages_spec (TokenOk nkv d) zero_token (v_cache c) (co_v _ _ _ Hc) zero_token_ok
    ltac:(by rewrite (co_blocks _ _ _ Hc)) _ _ w maxk x Htv); [by rewrite (co_size _ _ _ Hc)|].
  intros v_pad x' (-> & Hv & Sv). wp_steps. split; [done|].
  assert (Hq : (fun t => [t]) <$> concat (ar_q <$> rows) = ar_q <$> rows).
  { clear -Hone. induction Hone as [|r rows Hr _ IH]; [done|]. rewrite !fmap_cons. cbn [concat].
    destruct (ar_q r) as [|t [|]]; try done. rewrite fmap_app, IH. done. }
  rewrite Hq, <-Hvl. assert (Hout : Forall2 (Extends 1) (output <$> rows) (sdpa_rows self (ar_q <$> rows) k_pad v_pad
    ((fun n => [key_mask maxk n]) <$> (Zlen <$> (ar_keys <$> rows))))).
  { apply (sdpa_rows_spec d rows _ _ _ _ _ (Z.to_nat maxk)); [by apply row_lens_ok| | | |].
    - apply Forall2_fmap_r, Forall_Forall2_diag, Forall_lookup. intros i r Hr.
      pose proof (Forall_lookup_1 _ _ _ _ Hone Hr) as H1. simpl in H1.
      split; [by apply extends_intro; [|lia|]|]. apply (Forall_lookup_1 _ _ _ _ Hrows Hr).
    - apply Forall2_with; [by rewrite Forall2_fmap_l in Hk|exact Sk].
    - apply Forall2_with; [by rewrite Forall2_fmap_l in Hv|exact Sv].
    - rewrite <-!list_fmap_compose. apply Forall2_fmap_r, Forall_Forall2_diag, Forall_lookup. intros i r Hr.
      pose proof (Forall_lookup_1 _ _ _ _ Hone Hr) as H1. simpl in H1. unfold compose. split_and!; [done| |].
      + by constructor; [apply key_mask_length|].
      + intros l Hl. assert (l = 0) as -> by lia. eexists. split; [done|]. split; [apply key_mask_length|].
        intros p b Hp. rewrite (key_mask_lookup _ _ _ _ Hp). destruct (aro_len _ _ _ _ (Forall_lookup_1 _ _ _ _ Hrows Hr)).
        unfold Zlen. destruct (Z.ltb_spec (Z.of_nat p) (Z.of_nat (length (ar_keys r)))), (Nat.ltb_spec p (length (ar_keys r) - length (ar_q r) + 0 + 1)); done || lia. }
  f_equal. revert Hout. generalize (sdpa_rows self (ar_q <$> rows) k_pad v_pad
    ((fun n => [key_mask maxk n]) <$> (Zlen <$> (ar_keys <$> rows)))). intros out Hout.
  clear -Hout Hone. revert out Hout. induction Hone as [|r rows Hr _ IH]; intros out Hout; [by inversion Hout|].
  rewrite fmap_cons in Hout |- *. inversion Hout as [|? o ? outs [Hl [t Ht]] Hrest]; subst. f_equal; [|by apply IH].
  rewrite length_app, row_output_length, Hr in Hl. destruct t; [by rewrite app_nil_r|simpl in Hl; lia].
Qed.

#[export] Instance torch_ok : BackendOk (H := torch_backend self) (ta_scale self) nh nkv d.
Proof using Hkv Hg Hnh.
  assert (Hgr : nh / nkv = g) by (rewrite Hnh, Nat.mul_comm; apply Nat.div_mul; lia). split.
  - intros k v slots c [Ck Cv Cs Cb] Sk Sv Lk Lv Hnd Hs. cbn [store_kvcache torch_backend]. unfold torch_store_kvcache.
    wp_steps; [by apply Nat.eqb_eq|].
    assert (Hkeep : Forall (fun b => b = true) ((fun s => (0 <=? s)%Z) <$> slots)).
    { apply Forall_fmap. eapply Forall_impl; [exact Hs|]. intros s [H _]. simpl. by apply Z.leb_le. }
    rewrite (masked_true slots), (masked_true k), (masked_true v) by (done || (rewrite length_fmap; lia)). change (id c) with c.
    wp_call (put_pages_spec (TokenOk nkv d) (k_cache c) slots k); [done|done|done|done|done|].
    intros k' c' (-> & Ck' & Hk'). wp_steps.
    wp_call (put_pages_spec (TokenOk nkv d) (v_cache c) slots v); [done|done|done|done| |].
    { unfold numel. by rewrite Cs, Cb. }
    intros v' c' (-> & Cv' & Hv'). wp_steps. split_and!; [|done|done]. split; simpl; [done|done| |].
    + rewrite (sd_size _ _ _ _ Hk'), (sd_size _ _ _ _ Hv'). done.
    + rewrite (sd_blocks _ _ _ _ Hk'), (sd_blocks _ _ _ _ Hv'). done.
  - intros rows k v c context k_lens x. rewrite Hgr. cbn [prefill torch_backend]. by apply torch_prefill_spec.
  - intros rows c context k_lens x. rewrite Hgr. cbn [decode torch_backend]. by apply torch_decode_spec.
Qed.

End Backend.
