(* ===== verification/MoeFacts.v ===== *)
(** * What the expert layer computes

    The portable path's sort, grouped products and scatter give every token
    the weighted sum of its experts' outputs, and the ranks' partial sums add
    up to it. *)


From S2P Require Import Prelude Arrays Tensors Ranks Linear EmbedHead Qwen3 Qwen3Load Qwen3Facts Attention Moe.
From S2P Require Import TorchFacts.

(** ** Sums of vectors *)

Section Totals.
Context {F : Type} `{!Scalar F}.
Local Abbreviation mat := (list (list F)).

Definition zeros (d : nat) : list F := replicate d fzero.
Definition vtotal (d : nat) (l : mat) : list F := foldl vadd (zeros d) l.

Lemma zeros_like_eq (r : list F) : zeros_like r = zeros (length r).
Proof. unfold zeros_like. induction r as [|a r IH]; [done|]. rewrite fmap_cons, IH. done. Qed.

Lemma foldl_vadd_start (a : list F) (l : mat) b : foldl vadd (vadd a b) l = vadd a (foldl vadd b l).
Proof. revert b. induction l as [|x l IH]; intros b; [done|]. simpl. by rewrite <-vadd_assoc, IH. Qed.

Lemma vadd_swap (a x y : list F) : vadd (vadd a x) y = vadd (vadd a y) x.
Proof. by rewrite <-!vadd_assoc, (vadd_comm x). Qed.

#[export] Instance vtotal_perm d : Proper ((≡ₚ) ==> (=)) (vtotal d).
Proof.
  unfold vtotal. intros l k Hp. generalize (zeros d). induction Hp; intros a; simpl; try done.
  - by rewrite vadd_swap.
  - by rewrite IHHp1.
Qed.

Lemma vtotal_length d (l : mat) : wide d l -> length (vtotal d l) = d.
Proof.
  unfold vtotal. intros Hw. assert (Ha : length (zeros d) = d) by apply length_replicate.
  revert Ha. generalize (zeros d). induction Hw as [|r l Hr _ IH]; intros a Ha; [done|]. simpl. apply IH.
  unfold vadd. rewrite length_zip_with. lia.
Qed.

Lemma vtotal_cons d x (l : mat) : length x = d -> wide d l -> vtotal d (x :: l) = vadd x (vtotal d l).
Proof.
  intros Hx Hw. unfold vtotal. simpl. destruct (vadd_zeros d x Hx) as [H1 H2]. fold (zeros d) in H1, H2.
  rewrite H2. rewrite <-H1 at 1. apply foldl_vadd_start.
Qed.

(** The ranks' totals add up to the total of the ranks' sums. *)
Lemma vsums_total {X} n d (f : nat -> X -> list F) (l : list X) : 0 < n ->
  (forall i x, i < n -> x ∈ l -> length (f i x) = d) ->
  vsums n (fun i => vtotal d (f i <$> l)) = vtotal d ((fun x => vsums n (fun i => f i x)) <$> l).
Proof.
  revert n. apply (ranks_ind (fun n => (forall i x, i < n -> x ∈ l -> length (f i x) = d) ->
    vsums n (fun i => vtotal d (f i <$> l)) = vtotal d ((fun x => vsums n (fun i => f i x)) <$> l))); [done|].
  intros n Hn IH Hd. rewrite vsums_S by done. rewrite IH by (intros i x Hi Hx; apply Hd; [lia|done]).
  assert (Hlen : forall x, x ∈ l -> length (vsums n (fun i => f i x)) = d).
  { intros x Hx. clear IH. assert (Hd' : forall i, i < n -> length (f i x) = d) by (intros i Hi; apply Hd; [lia|done]).
    clear Hd. revert n Hn Hd'. apply (ranks_ind (fun n => (forall i, i < n -> length (f i x) = d) -> length (vsums n (fun i => f i x)) = d)).
    - intros H. unfold vsums. simpl. apply H. lia.
    - intros n Hn IH H. rewrite vsums_S by done. unfold vadd.
      rewrite length_zip_with, IH by (intros i Hi; apply H; lia). rewrite H by lia. lia. }
  clear IH. induction l as [|x l IHl]; [apply (vadd_zeros d (zeros d)), length_replicate|].
  rewrite !fmap_cons. assert (Hin : forall y, y ∈ l -> y ∈ x :: l) by (intros; by constructor).
  rewrite !vtotal_cons.
  - rewrite <-IHl; [|by intros i y Hi Hy; apply Hd; [|by constructor]|by intros y Hy; apply Hlen; constructor]. rewrite vsums_S by done.
    rewrite !vadd_assoc. f_equal. by rewrite (vadd_swap _ _ (f n x)).
  - rewrite vsums_S by done. unfold vadd. rewrite length_zip_with, Hlen by constructor. rewrite Hd by (lia || constructor). lia.
  - apply Forall_fmap, Forall_forall. intros y Hy. simpl. rewrite vsums_S by done. unfold vadd.
    rewrite length_zip_with, Hlen by auto. rewrite Hd by (lia || auto). lia.
  - apply Hd; [lia|constructor].
  - apply Forall_fmap, Forall_forall. intros y Hy. apply Hd; [lia|auto].
  - apply Hlen. constructor.
  - apply Forall_fmap, Forall_forall. intros y Hy. apply Hlen. auto.
Qed.

(** Adding rows to tokens. *)
Lemma index_add_spec (out : mat) ids rows : length ids = length rows -> Forall (fun i => i < length out) ids ->
  index_add out ids rows =
  Some (imap (fun t o => foldl vadd o (snd <$> filter (fun p => p.1 = t) (zip ids rows))) out).
Proof.
  revert out rows. induction ids as [|i ids IH]; intros out [|r rows] Hl Hi; try done.
  - cbn [index_add zip zip_with]. f_equal. rewrite <-(list_fmap_id out) at 1. rewrite <-imap_const. by apply imap_ext.
  - apply Forall_cons in Hi as [Hi His]. cbn [index_add].
    destruct (lookup_lt_is_Some_2 out i Hi) as [o Ho]. rewrite Ho. cbn [mbind option_bind].
    rewrite IH; [|by injection Hl|by rewrite length_insert]. f_equal. apply list_eq. intros t.
    rewrite !list_lookup_imap. cbn [zip zip_with].
    destruct (decide (i = t)) as [->|Hne].
    + rewrite list_lookup_insert_eq, Ho by done. simpl. rewrite filter_cons_True by done. done.
    + rewrite list_lookup_insert_ne by done. destruct (out !! t); [|done]. simpl. by rewrite filter_cons_False.
Qed.

End Totals.

(** ** Sorted ids *)

Lemma sorted_count l j v x : StronglySorted Z.le l -> l !! j = Some v ->
  (v <= x)%Z <-> (Z.of_nat j < searchsorted_right l x)%Z.
Proof.
  intros Hs. revert j. unfold searchsorted_right, Zlen. induction Hs as [|y l Hs IH Hy]; intros j Hj; [done|].
  rewrite Forall_forall in Hy.
  assert (Hnone : (x < y)%Z -> filter (fun z => (z <= x)%Z) l = []).
  { intros Hlt. clear -Hy Hlt. induction l as [|z l IH]; [done|]. rewrite filter_cons_False.
    - apply IH. intros w Hw. apply Hy. by constructor.
    - assert (y <= z)%Z by (apply Hy; constructor). lia. }
  rewrite filter_cons. destruct j as [|j]; simpl in Hj.
  - injection Hj as ->. case_decide; simpl; [lia|]. rewrite Hnone by lia. simpl. lia.
  - specialize (IH j Hj). assert (y <= v)%Z by (apply Hy; by apply list_elem_of_lookup_2 in Hj).
    case_decide as Hc; simpl in *; [lia|]. rewrite Hnone in * by lia. simpl in *. lia.
Qed.

Lemma searchsorted_bounds l x : (0 <= searchsorted_right l x <= Zlen l)%Z.
Proof.
  unfold searchsorted_right, Zlen. split; [lia|]. pose proof (length_filter (fun y => (y <= x)%Z) l). lia.
Qed.

Lemma searchsorted_mono l x y : (x <= y)%Z -> (searchsorted_right l x <= searchsorted_right l y)%Z.
Proof.
  intros Hxy. unfold searchsorted_right, Zlen. apply Nat2Z.inj_le. induction l as [|z l IH]; [done|].
  rewrite !filter_cons. do 2 case_decide; simpl; lia.
Qed.

(** ** One rank's experts *)

Section Experts.
Context {F : Type} `{!Scalar F} `{!Torch F} `{!TorchGroups F}.
Local Abbreviation mat := (list (list F)).

(** One expert's MLP on a token. *)
Definition ffn (m : nat) (gu dn : mat) (r : list F) : list F :=
  (fun v => dot (gated (take m (dot r <$> gu)) (drop m (dot r <$> gu))) v) <$> dn.

Variable x : mat.
Variable d m K : nat.
Variable gu dn : list mat.
Variable ids : list (list Z).
Variable wts : mat.
Variable emap : option (list Z).
Variable loc : nat -> option nat.
Hypothesis Hx : wide d x.
Hypothesis HK : 0 < K.
Hypothesis Hgu : Forall (fun w => wide d w /\ length w = m + m) gu.
Hypothesis Hdn : Forall (fun w => wide m w /\ length w = d) dn.
Hypothesis Hsome : 0 < length gu.
Hypothesis Hsame : length gu = length dn.
Hypothesis Hwts : length wts = length x /\ wide K wts.

(** The local ids of the token-expert pairs. *)
Definition local_code (p : nat) : Z := match loc p with Some e => Z.of_nat e | None => Z.of_nat (length gu) end.
Hypothesis Hids : forall {S} (s : S), exists ids', local_ids (S := S) (length gu) emap ids s = (inr ids', s) /\
  concat ids' = local_code <$> seq 0 (length x * K).
Hypothesis Hloc : forall p e, loc p = Some e -> e < length gu.
Hypothesis Hall : forall p, p < length x * K -> emap = None -> loc p <> None.

Definition pair_weight (p : nat) : F := default fzero (concat wts !! p).

Definition pair_out (p : nat) : list F :=
  match loc p with
  | Some e => (fun y => fmul y (pair_weight p)) <$> ffn m (default [] (gu !! e)) (default [] (dn !! e)) (default [] (x !! (p / K)))
  | None => zeros d
  end.

Lemma concat_wts_length : length (concat wts) = length x * K.
Proof using Hwts. clear -Hwts. destruct Hwts as [Hl Hw]. by rewrite (wide_concat_length K), Hl. Qed.

Lemma pair_out_length p : p < length x * K -> length (pair_out p) = d.
Proof using Hdn Hsame Hloc.
  clear -Hdn Hsame Hloc. intros _. unfold pair_out. destruct (loc p) as [e|] eqn:He; [|apply length_replicate].
  unfold ffn. rewrite !length_fmap. specialize (Hloc p e He).
  destruct (lookup_lt_is_Some_2 dn e) as [w Hw]; [lia|]. rewrite Hw. simpl.
  by destruct (Forall_lookup_1 _ _ e w Hdn Hw).
Qed.

(** Offsets of the experts' runs of sorted rows. *)
Definition run_ends (codes : list Z) : list Z := (fun e => searchsorted_right codes (Z.of_nat e)) <$> seq 0 (length gu).

Lemma run_ends_ok codes {A} (rows : list A) : length rows = length codes ->
  length (run_ends codes) = length gu /\ StronglySorted Z.le (run_ends codes) /\
  Forall (fun o => (0 <= o <= Zlen rows)%Z) (run_ends codes).
Proof using.
  clear. intros Hl. unfold run_ends. rewrite length_fmap, length_seq. split; [done|]. split.
  - generalize 0. induction (length gu) as [|k IH]; intros a; [constructor|]. simpl. constructor; [apply IH|].
    apply Forall_fmap, Forall_forall. intros e He%elem_of_seq. simpl. apply searchsorted_mono. lia.
  - apply Forall_fmap, Forall_forall. intros e _. simpl. pose proof (searchsorted_bounds codes (Z.of_nat e)) as Hb.
    unfold Zlen in *. lia.
Qed.

Lemma run_of codes j e : StronglySorted Z.le codes -> codes !! j = Some (Z.of_nat e) -> e < length gu ->
  exists lo hi, (0%Z :: run_ends codes) !! e = Some lo /\ run_ends codes !! e = Some hi /\ (lo <= Z.of_nat j < hi)%Z.
Proof using.
  clear. intros Hs Hj He. unfold run_ends.
  exists (match e with 0 => 0%Z | S e' => searchsorted_right codes (Z.of_nat e') end), (searchsorted_right codes (Z.of_nat e)).
  split_and!.
  - destruct e as [|e']; [done|]. simpl. by rewrite list_lookup_fmap, lookup_seq_lt by lia.
  - by rewrite list_lookup_fmap, lookup_seq_lt.
  - destruct e as [|e']; [lia|]. pose proof (sorted_count codes j _ (Z.of_nat e') Hs Hj). lia.
  - apply (sorted_count codes j _ (Z.of_nat e) Hs Hj). lia.
Qed.

(** A grouped product over sorted rows. *)
Lemma grouped_rows codes (rows : mat) (ws : list mat) k k' :
  StronglySorted Z.le codes -> length rows = length codes -> wide k rows -> length ws = length gu -> 0 < length gu ->
  Forall (fun w => wide k w /\ length w = k') ws ->
  length (grouped_mm rows ws (run_ends codes)) = length rows /\ wide k' (grouped_mm rows ws (run_ends codes)) /\
  forall j r e, rows !! j = Some r -> codes !! j = Some (Z.of_nat e) -> e < length gu ->
    grouped_mm rows ws (run_ends codes) !! j = Some (dot r <$> default [] (ws !! e)).
Proof using.
  clear. intros Hs Hl Hw Hlw Hpos Hws. destruct (run_ends_ok codes rows Hl) as (H1 & H2 & H3).
  destruct (grouped_mm_eq rows ws (run_ends codes) k k') as (G1 & G2 & G3); [done|by destruct ws; simpl in *; [lia|]|done|lia|done|done|].
  split_and!; [done|done|]. intros j r e Hr Hc He.
  destruct (run_of codes j e Hs Hc He) as (lo & hi & Hlo & Hhi & Hb).
  destruct (lookup_lt_is_Some_2 ws e) as [w Hw']; [lia|]. rewrite Hw'. by apply (G3 j r e w lo hi).
Qed.

Lemma silu_rows {S} (h : mat) (s : S) : wide (m + m) h ->
  SiluAndMul_forward h s = (inr ((fun y => gated (take m y) (drop m y)) <$> h), s).
Proof using.
  clear. intros Hw. apply collect_pure. intros y Hy.
  assert (Hly : length y = m + m) by (unfold wide in Hw; rewrite Forall_forall in Hw; by apply Hw).
  unfold bind, chunk2. rewrite Hly. destruct (Nat.eqb_spec (m + m) 1); [lia|].
  replace ((m + m + 1) / 2) with m by (apply (Nat.div_unique _ 2 m 1); lia).
  unfold ret, bmul. rewrite expand_same; [done|]. rewrite length_fmap, length_take, length_drop. lia.
Qed.

(** The pairs of a token, in any order of all pairs. *)
Lemma token_pairs t : t < length x ->
  filter (fun p => p / K = t) (seq 0 (length x * K)) = (fun k => t * K + k) <$> seq 0 K.
Proof using HK.
  clear -HK. intros Ht. replace (length x * K) with (t * K + (K + (length x - S t) * K)) by nia.
  rewrite !seq_app, !filter_app. simpl.
  assert (Hout : forall a n, (forall p, a <= p < a + n -> p / K <> t) -> filter (fun p => p / K = t) (seq a n) = []).
  { intros a n. revert a. induction n as [|n IH]; intros a Hp; [done|]. simpl. rewrite filter_cons_False by (apply Hp; lia).
    apply IH. intros p Hp'. apply Hp. lia. }
  rewrite (Hout 0), (Hout (t * K + K)), app_nil_r.
  - rewrite app_nil_l. assert (Hin : forall a n, (forall p, a <= p < a + n -> p / K = t) ->
      filter (fun p => p / K = t) (seq a n) = seq a n).
    { intros a n. revert a. induction n as [|n IH]; intros a Hp; [done|]. simpl. rewrite filter_cons_True by (apply Hp; lia).
      f_equal. apply IH. intros p Hp'. apply Hp. lia. }
    rewrite Hin; [by rewrite fmap_add_seq, Nat.add_0_r|]. intros p Hp.
    symmetry. apply (Nat.div_unique p K t (p - t * K)); lia.
  - intros p Hp He. pose proof (Nat.div_mod_eq p K). pose proof (Nat.mod_upper_bound p K). nia.
  - intros p Hp He. pose proof (Nat.div_mod_eq p K). pose proof (Nat.mod_upper_bound p K). nia.
Qed.

Lemma zip_filter_fmap (order : list nat) (f : nat -> list F) t :
  snd <$> filter (fun p => p.1 = t) (zip ((fun p => p / K) <$> order) (f <$> order)) = f <$> filter (fun p => p / K = t) order.
Proof using.
  clear. induction order as [|p order IH]; [done|]. rewrite !fmap_cons. cbn [zip zip_with].
  destruct (decide (p / K = t)) as [He|He].
  - rewrite !filter_cons_True by done. rewrite !fmap_cons. f_equal. exact IH.
  - rewrite !filter_cons_False by done. exact IH.
Qed.

Lemma torch_experts_spec {S} (s : S) :
  torch_experts x gu dn K wts ids emap s =
  (inr ((fun t => vtotal d ((fun k => pair_out (t * K + k)) <$> seq 0 K)) <$> seq 0 (length x)), s).
Proof using All.
  unfold torch_experts. unfold bind at 1. destruct (Hids s) as (ids' & -> & Hflat). rewrite Hflat.
  destruct (sort_eq (local_code <$> seq 0 (length x * K))) as (Hperm & Hsorted & Hcodes).
  destruct (sort (local_code <$> seq 0 (length x * K))) as [codes order]. cbn [fst snd] in *.
  rewrite length_fmap, length_seq in Hperm.
  assert (Hp : forall j p, order !! j = Some p -> p < length x * K).
  { intros j p Hj. apply list_elem_of_lookup_2 in Hj. rewrite Hperm in Hj. apply elem_of_seq in Hj. lia. }
  assert (Hc : codes = local_code <$> order).
  { apply list_eq. intros j. rewrite Forall2_lookup in Hcodes. specialize (Hcodes j). rewrite list_lookup_fmap.
    destruct (order !! j) as [p|] eqn:Hj; [|by inversion Hcodes]. simpl. inversion Hcodes as [a b Hab|]. subst.
    rewrite list_lookup_fmap, lookup_seq_lt in Hab by by apply (Hp j). simpl in Hab. congruence. }
  assert (Htok : forall p, p < length x * K -> p / K < length x) by (intros p Hp'; apply Nat.Div0.div_lt_upper_bound; lia).
  set (row p := default [] (x !! (p / K))).
  assert (Hrows : mapM (fun t => x !! t) ((fun p => p / K) <$> order) = Some (row <$> order)).
  { apply mapM_fmap_Some. intros p Hin. apply list_elem_of_lookup in Hin as [j Hj]. unfold row.
    destruct (lookup_lt_is_Some_2 x (p / K)) as [r Hr]; [by apply Htok, (Hp j)|]. by rewrite Hr. }
  rewrite Hrows. cbn [or_raise]. unfold bind at 1, ret at 1.
  fold (run_ends codes).
  assert (Hrw : wide d (row <$> order)).
  { apply Forall_fmap, Forall_forall. intros p Hin. apply list_elem_of_lookup in Hin as [j Hj]. unfold row. simpl.
    destruct (lookup_lt_is_Some_2 x (p / K)) as [r Hr]; [by apply Htok, (Hp j)|]. rewrite Hr. by apply (wide_lookup d x (p / K)). }
  assert (Hlc : length codes = length order) by by rewrite Hc, length_fmap.
  destruct (grouped_rows codes (row <$> order) gu d (m + m)) as (A1 & A2 & A3); [done|by rewrite length_fmap|done|done|done|done|].
  set (h1 := grouped_mm (row <$> order) gu (run_ends codes)) in *. unfold bind at 1. rewrite (silu_rows h1 s A2).
  set (h2 := (fun y => gated (take m y) (drop m y)) <$> h1).
  assert (Hh2 : wide m h2).
  { apply Forall_fmap. eapply Forall_impl; [exact A2|]. intros y Hy. simpl in *. unfold gated, vmul.
    rewrite length_zip_with, length_fmap, length_take, length_drop. lia. }
  destruct (grouped_rows codes h2 dn m d) as (B1 & B2 & B3);
    [done|unfold h2; rewrite length_fmap, A1, length_fmap; lia|done|lia|done|done|].
  set (h3 := grouped_mm h2 dn (run_ends codes)) in *.
  assert (Hw : mapM (fun p => concat wts !! p) order = Some (pair_weight <$> order)).
  { rewrite <-(list_fmap_id order) at 1. apply mapM_fmap_Some. intros p Hin. apply list_elem_of_lookup in Hin as [j Hj].
    unfold pair_weight, Datatypes.id. destruct (lookup_lt_is_Some_2 (concat wts) p) as [a Ha];
      [rewrite concat_wts_length; by apply (Hp j)|]. by rewrite Ha. }
  rewrite Hw. cbn [or_raise]. unfold bind at 1, ret at 1.
  set (h4 := zip_with (fun (r : list F) a => (fun y => fmul y a) <$> r) h3 (pair_weight <$> order)).
  assert (L3 : length h3 = length order) by (rewrite B1; unfold h2; rewrite length_fmap, A1, length_fmap; done).
  assert (H4 : forall j p, order !! j = Some p -> exists r, h4 !! j = Some r /\ length r = d /\ (loc p <> None -> r = pair_out p)).
  { intros j p Hj. destruct (lookup_lt_is_Some_2 h3 j) as [r Hr]; [apply lookup_lt_Some in Hj; lia|].
    exists ((fun y => fmul y (pair_weight p)) <$> r). split_and!.
    - unfold h4. apply lookup_zip_with_Some. exists r, (pair_weight p). by rewrite list_lookup_fmap, Hj.
    - rewrite length_fmap. by apply (wide_lookup d h3 j).
    - intros Hne. unfold pair_out. destruct (loc p) as [e|] eqn:He; [|done]. f_equal.
      assert (Hcj : codes !! j = Some (Z.of_nat e)) by (rewrite Hc, list_lookup_fmap, Hj; simpl; unfold local_code; by rewrite He).
      pose proof (A3 j (row p) e ltac:(by rewrite list_lookup_fmap, Hj) Hcj ltac:(by apply (Hloc p))) as HA.
      assert (H2j : h2 !! j = Some (gated (take m (dot (row p) <$> default [] (gu !! e))) (drop m (dot (row p) <$> default [] (gu !! e)))))
        by (unfold h2; by rewrite list_lookup_fmap, HA).
      pose proof (B3 j _ e H2j Hcj ltac:(by apply (Hloc p))) as HB. rewrite Hr in HB. by injection HB as ->. }
  set (final := match emap with None => h4 | Some _ => zip_with _ codes h4 end).
  assert (Hfinal : final = pair_out <$> order).
  { apply list_eq. intros j. rewrite list_lookup_fmap. destruct (order !! j) as [p|] eqn:Hj.
    - destruct (H4 j p Hj) as (r & Hr & Hrl & Hrp). simpl. unfold final. destruct emap as [em|] eqn:Hem.
      + assert (Hcj : codes !! j = Some (local_code p)) by by rewrite Hc, list_lookup_fmap, Hj.
        erewrite (proj2 (lookup_zip_with_Some _ _ _ _ _)); [|exists (local_code p), r; split; [reflexivity|done]].
        f_equal. unfold local_code. destruct (loc p) as [e|] eqn:He.
        * destruct (Z.ltb_spec (Z.of_nat e) (Z.of_nat (length gu))); [by apply Hrp|]. specialize (Hloc p e He). lia.
        * destruct (Z.ltb_spec (Z.of_nat (length gu)) (Z.of_nat (length gu))); [lia|]. unfold pair_out. rewrite He.
          rewrite <-Hrl. apply zeros_like_eq.
      + rewrite Hr. f_equal. apply Hrp. apply Hall; [by apply (Hp j)|done].
    - simpl. apply lookup_ge_None. apply lookup_ge_None in Hj. unfold final.
      assert (length h4 <= j) by (unfold h4; rewrite length_zip_with; lia).
      destruct emap; [rewrite length_zip_with|]; lia. }
  rewrite Hfinal, index_add_spec.
  - cbn [or_raise]. unfold ret. do 2 f_equal. apply list_eq. intros t. rewrite list_lookup_imap, !list_lookup_fmap.
    destruct (x !! t) as [r|] eqn:Hr.
    + assert (Ht : t < length x) by by apply lookup_lt_Some in Hr. rewrite lookup_seq_lt by done. simpl. f_equal.
      rewrite zip_filter_fmap. assert (Hz : zeros_like r = zeros d).
      { rewrite <-(wide_lookup d x t r Hx Hr). apply zeros_like_eq. }
      rewrite Hz. change (vtotal d (pair_out <$> filter (fun p => p / K = t) order) =
        vtotal d ((fun k => pair_out (t * K + k)) <$> seq 0 K)).
      rewrite Hperm, token_pairs by done. by rewrite <-list_fmap_compose.
    + apply lookup_ge_None in Hr. rewrite lookup_ge_None_2 by (rewrite length_seq; lia). done.
  - by rewrite !length_fmap.
  - apply Forall_fmap, Forall_forall. intros p Hin. apply list_elem_of_lookup in Hin as [j Hj]. simpl.
    rewrite length_fmap. by apply Htok, (Hp j).
Qed.

End Experts.

(** ** Each token's experts are its best

    The chosen experts are distinct, as many as asked, all of the best groups,
    and no eligible expert left out has a larger score. *)


Section Facts.
Context {F : Type} `{!Scalar F} `{!Softmax F} `{!Ordered F} `{!TopK F}.
Local Abbreviation mat := (list (list F)).

Lemma topk_ok {S} k (l : list (option F)) (s : S) Q : k <= length l -> Q (topk k l) s -> wp (topk_checked k l) s Q.
Proof. intros Hk HQ. unfold topk_checked. rewrite (proj2 (Nat.leb_le _ _) Hk). by apply wp_ret. Qed.

(** ** Groups *)

(** A group's score: the sum of its best two, or its best. *)
Definition group_score (biased : bool) (g : list F) : F :=
  if biased then fsum ((fun i => default fzero (g !! i)) <$> topk 2 (Some <$> g))
  else match g with [] => fzero | x :: g' => foldl fmax x g' end.

Lemma fmax_ge x y : fle x (fmax x y) /\ fle y (fmax x y).
Proof.
  unfold fmax. case_decide as Hd; [split; [done|apply fle_refl]|]. split; [apply fle_refl|]. by destruct (fle_total x y).
Qed.

(** The best is an upper bound, and one of the group. *)
Lemma group_max (g : list F) : g <> [] -> group_score false g ∈ g /\ Forall (fun x => fle x (group_score false g)) g.
Proof.
  intros Hne. destruct g as [|x g]; [done|]. clear Hne. cbn [group_score].
  assert (Hacc : forall (g : list F) a, (foldl fmax a g = a \/ foldl fmax a g ∈ g) /\ fle a (foldl fmax a g) /\ Forall (fun x => fle x (foldl fmax a g)) g).
  { clear. intros g. induction g as [|y g IH]; intros a; [split_and!; [by left|apply fle_refl|constructor]|].
    cbn [foldl]. destruct (IH (fmax a y)) as (H1 & H2 & H3). destruct (fmax_ge a y) as [Ha Hy]. split_and!.
    - destruct H1 as [-> |H1]; [|right; by constructor]. unfold fmax. case_decide; [right; by constructor|by left].
    - by eapply fle_trans.
    - constructor; [by eapply fle_trans|done]. }
  destruct (Hacc g x) as (H1 & H2 & H3). split; [|by constructor]. destruct H1 as [-> |H1]; by constructor.
Qed.

(** The groups that stay eligible. *)
Record BestGroups (groups : mat) (topk_group : nat) (biased : bool) (best : list nat) : Prop := {
  bg_ids : length best = topk_group /\ NoDup best /\ Forall (fun g => g < length groups) best;
  bg_best g h x y : g ∈ best -> h ∉ best -> groups !! g = Some x -> groups !! h = Some y ->
    fle (group_score biased y) (group_score biased x)
}.

(** An expert of a group that is not eligible is masked. *)
Definition eligible (size : nat) (best : list nat) (choice : list F) : list (option F) :=
  imap (fun i x => if decide (i / size ∈ best) then Some x else None) choice.

Lemma collect_total {S X Y} (f : X -> M S Y) (h : X -> Y) (l : list X) (s : S) : (forall x, x ∈ l -> f x s = (inr (h x), s)) ->
  collect l f s = (inr (h <$> l), s).
Proof.
  intros Hf. induction l as [|x l IH]; [done|]. cbn [collect]. unfold bind. rewrite Hf by constructor. cbn [fst snd].
  rewrite IH; [done|]. intros y Hy. apply Hf. by constructor.
Qed.

Lemma eligible_groups (size : nat) best (groups : mat) : 0 < size -> wide size groups ->
  concat (imap (fun g row => if decide (g ∈ best) then Some <$> row else replicate (length row) None) groups) = eligible size best (concat groups).
Proof.
  intros Hs Hw. apply list_eq. intros p. unfold eligible. rewrite list_lookup_imap, !(concat_uniform_lookup size) by
    (done || (apply Forall_lookup; intros i r Hr; rewrite list_lookup_imap in Hr; destruct (groups !! i) as [row|] eqn:Hrow; [|done];
      injection Hr as <-; pose proof (Forall_lookup_1 _ _ _ _ Hw Hrow) as Hlr; simpl in Hlr; destruct (decide _); rewrite ?length_fmap, ?length_replicate; done)).
  rewrite list_lookup_imap. destruct (groups !! (p / size)) as [row|] eqn:Hrow; [|done]. cbn [fmap option_fmap option_map mbind option_bind].
  pose proof (Forall_lookup_1 _ _ _ _ Hw Hrow) as Hlr. simpl in Hlr.
  destruct (decide (p / size ∈ best)); [by rewrite list_lookup_fmap|].
  pose proof (Nat.mod_upper_bound p size ltac:(lia)). rewrite lookup_replicate_2 by lia.
  destruct (lookup_lt_is_Some_2 row (p mod size)) as [x ->]; [lia|done].
Qed.

Lemma mask_groups_spec {S} ng tg (biased : bool) (choice : list F) size (s : S) : 0 < ng -> tg <= ng -> 0 < size -> (biased = true -> 2 <= size) ->
  length choice = ng * size ->
  wp (mask_groups ng tg biased choice) s (fun c s' => s' = s /\ exists best,
    BestGroups (pieces size ng choice) tg biased best /\ c = eligible size best choice).
Proof.
  intros Hng Htg Hsz Hb Hl. unfold mask_groups, groups_of.
  assert (Hdiv : length choice / ng = size) by (rewrite Hl, Nat.mul_comm; by apply Nat.div_mul; lia).
  rewrite Hl at 1. rewrite (Nat.mul_comm ng), Nat.Div0.mod_mul. cbn [Nat.eqb]. rewrite Hdiv. wp_steps.
  pose proof (pieces_wide size ng choice Hl) as Hw. set (groups := pieces size ng choice) in *.
  assert (Hlen : length groups = ng) by apply pieces_length.
  assert (Hscore : forall g, g ∈ groups -> (if biased then best_two g else max_of g) s = (inr (group_score biased g), s)).
  { intros g Hg. unfold wide in Hw. rewrite Forall_forall in Hw. specialize (Hw g Hg). simpl in Hw. destruct biased.
    - unfold best_two, topk_checked, bind. rewrite length_fmap, Hw, (proj2 (Nat.leb_le _ _) (Hb eq_refl)). done.
    - destruct g; [simpl in Hw; lia|done]. }
  eapply run_wp; [by apply (collect_total _ (group_score biased))|].
  wp_step. apply topk_ok; [rewrite !length_fmap; lia|]. wp_steps. split; [done|].
  destruct (topk_eq tg (Some <$> (group_score biased <$> groups))) as (H1 & H2 & H3 & H4); [rewrite !length_fmap; lia|].
  eexists. split.
  - split; [split_and!; [done|done|by rewrite !length_fmap in H3]|]. intros g h x y Hg Hh Hx Hy.
    apply (H4 g h (Some (group_score biased x)) (Some (group_score biased y))); [done|done| |]; by rewrite !list_lookup_fmap, ?Hx, ?Hy.
  - rewrite (eligible_groups size) by done. f_equal. by apply concat_pieces.
Qed.


(** ** A token's experts *)

Definition scores_of (scoring_func : string) (logits : list F) : list F :=
  if String.eqb scoring_func "softmax" then softmax logits else sigmoids logits.
Definition choice_of (bias : option (list F)) (scores : list F) : list F :=
  match bias with None => scores | Some b => vadd scores b end.

Lemma scores_length f l : length (scores_of f l) = length l.
Proof. unfold scores_of, softmax, sigmoids. destruct (String.eqb f "softmax"); by rewrite !length_fmap. Qed.

(** What is chosen for one token: [scores] are its experts' scores, [choice] what they are picked by. *)
Record RoutedRow (top_k ng tg : nat) (biased renormalize : bool) (scaling : F) (scores choice : list F) (o : list F * list nat) : Prop := {
  rt_ids : length o.2 = top_k /\ NoDup o.2 /\ Forall (fun i => i < length scores) o.2;
  rt_best : exists best, (1 < ng -> BestGroups (pieces (length scores / ng) ng choice) tg biased best) /\
    let open i := ng <= 1 \/ i / (length scores / ng) ∈ best in
    Forall open o.2 /\
    forall i j x y, i ∈ o.2 -> j ∉ o.2 -> open j -> choice !! i = Some x -> choice !! j = Some y -> fle y x;
  rt_weights : let picked := (fun i => default fzero (scores !! i)) <$> o.2 in
    o.1 = (fun w => fmul (if renormalize then fmul w (finv (fsum picked)) else w) scaling) <$> picked
}.

(** Enough eligible experts: none that is masked is chosen. *)
Lemma chosen_eligible (size k tg : nat) best (choice : list F) ids : 0 < size -> k <= tg * size -> length best = tg -> NoDup best ->
  Forall (fun g => (g + 1) * size <= length choice) best -> length ids = k ->
  (forall i j x y, i ∈ ids -> j ∉ ids -> eligible size best choice !! i = Some x -> eligible size best choice !! j = Some y -> choice_le y x) ->
  Forall (fun i => i < length choice) ids -> NoDup ids ->
  Forall (fun i => i / size ∈ best) ids.
Proof.
  intros Hs Hk Hb Hnd Hfit Hids Htop Hrange Hndi. apply Forall_forall. intros i Hi. destruct (decide (i / size ∈ best)) as [|Hn]; [done|exfalso].
  set (good := concat ((fun g => seq (g * size) size) <$> best)).
  assert (Hgood : forall j, j ∈ good <-> j / size ∈ best).
  { intros j. unfold good. rewrite list_elem_of_In, in_concat. split.
    - intros (l & Hl%list_elem_of_In & Hj%list_elem_of_In). apply list_elem_of_fmap in Hl as (g & -> & Hg). apply elem_of_seq in Hj.
      assert (j / size = g) as ->; [|done]. symmetry. apply (Nat.div_unique _ _ _ (j - g * size)); lia.
    - intros Hj. exists (seq (j / size * size) size). split; [apply list_elem_of_In, list_elem_of_fmap; by exists (j / size)|].
      apply list_elem_of_In, elem_of_seq. pose proof (Nat.div_mod_eq j size). pose proof (Nat.mod_upper_bound j size). nia. }
  assert (Hgl : length good = tg * size).
  { unfold good. rewrite <-Hb. clear. induction best as [|g best IH]; [done|]. rewrite fmap_cons. cbn [concat]. rewrite length_app, length_seq, IH. simpl. lia. }
  assert (Hgnd : NoDup good).
  { unfold good. clear -Hnd Hs. induction Hnd as [|g best Hg Hnd IH]; [constructor|]. rewrite fmap_cons. cbn [concat]. apply NoDup_app. split_and!; [apply NoDup_seq| |done].
    intros j Hj Hin. apply elem_of_seq in Hj. apply list_elem_of_In, in_concat in Hin as (l & Hl%list_elem_of_In & Hin%list_elem_of_In).
    apply list_elem_of_fmap in Hl as (h & -> & Hh). apply elem_of_seq in Hin. assert (g = h) by nia. by subst. }
  (* all eligible experts are chosen, besides the masked one *)
  assert (Hall : forall j, j ∈ good -> j ∈ ids).
  { intros j Hj. destruct (decide (j ∈ ids)) as [|Hji]; [done|exfalso]. pose proof Hj as Hjb. apply Hgood in Hjb.
    rewrite Forall_forall in Hrange. pose proof (Hrange i Hi) as Hil.
    assert (Hjl : j < length choice).
    { rewrite Forall_forall in Hfit. pose proof (Hfit _ Hjb). pose proof (Nat.div_mod_eq j size). pose proof (Nat.mod_upper_bound j size). nia. }
    destruct (lookup_lt_is_Some_2 choice j Hjl) as [y Hy]. destruct (lookup_lt_is_Some_2 choice i Hil) as [x Hx].
    apply (Htop i j None (Some y) Hi Hji).
    - unfold eligible. rewrite list_lookup_imap, Hx. simpl. by rewrite decide_False.
    - unfold eligible. rewrite list_lookup_imap, Hy. simpl. by rewrite decide_True. }
  assert (Hsub : i :: good ⊆+ ids).
  { apply NoDup_submseteq; [constructor; [|done]|]; [intros Hin%Hgood; done|]. intros j [-> |Hj]%elem_of_cons; auto. }
  apply submseteq_length in Hsub. simpl in Hsub. lia.
Qed.

Lemma select_row_spec {S} top_k (renormalize : bool) scaling ng tg f bias (logits : list F) (s : S) :
  let biased := match bias with Some _ => true | None => false end in
  let size := length logits / ng in
  (forall b, bias = Some b -> length b = length logits) -> top_k <= length logits ->
  (1 < ng -> length logits = ng * size /\ 0 < size /\ tg <= ng /\ top_k <= tg * size /\ (biased = true -> 2 <= size)) ->
  wp (select_row top_k renormalize scaling ng tg f bias logits) s (fun o s' => s' = s /\
    RoutedRow top_k ng tg biased renormalize scaling (scores_of f logits) (choice_of bias (scores_of f logits)) o).
Proof.
  intros biased size Hbias Hk Hgroups. unfold select_row. fold (scores_of f logits). set (scores := scores_of f logits).
  fold (choice_of bias scores). set (choice := choice_of bias scores). pose proof (scores_length f logits) as Hsl. fold scores in Hsl.
  assert (Hcl : length choice = length logits).
  { unfold choice, choice_of. destruct bias as [b|]; [|done]. unfold vadd. rewrite length_zip_with, (Hbias b eq_refl). lia. }
  assert (Hdone : forall (c : list (option F)) best, length c = length logits ->
    (1 < ng -> BestGroups (pieces size ng choice) tg biased best /\ c = eligible size best choice) -> (ng <= 1 -> c = Some <$> choice) ->
    wp (let! ids := topk_checked top_k c in
        let weights := (fun i => default fzero (scores !! i)) <$> ids in
        let weights := if renormalize then (fun w => fmul w (finv (fsum weights))) <$> weights else weights in
        ret ((fun w => fmul w scaling) <$> weights, ids)) s (fun o s' => s' = s /\ RoutedRow top_k ng tg biased renormalize scaling scores choice o)).
  { intros c best Hc Hmany Hone. wp_step. apply topk_ok; [lia|]. apply wp_ret. split; [done|].
    destruct (topk_eq top_k c) as (H1 & H2 & H3 & H4); [lia|]. rewrite Hc, <-Hsl in H3. split; cbn [fst snd].
    - by split_and!.
    - exists best. rewrite Hsl. fold size. destruct (decide (1 < ng)) as [Hng|Hng].
      + destruct (Hmany Hng) as [Hbest ->]. destruct (Hgroups Hng) as (Hl & Hs0 & Htg & Hkt & _). split; [done|].
        pose proof Hbest as [(B1 & B2 & B3) _]. rewrite pieces_length in B3.
        assert (Hopen : Forall (fun i => i / size ∈ best) (topk top_k (eligible size best choice))).
        { apply (chosen_eligible size top_k tg best choice); try done.
          - eapply Forall_impl; [exact B3|]. intros g Hg. simpl in Hg. rewrite Hcl, Hl. nia.
          - by rewrite Hcl, <-Hsl. }
        split; [eapply Forall_impl; [exact Hopen|]; intros i Hi; by right|].
        intros i j x y Hi Hj [Hle|Hoj] Hx Hy; [lia|]. rewrite Forall_forall in Hopen. specialize (Hopen i Hi). simpl in Hopen.
        apply (H4 i j (Some x) (Some y) Hi Hj); unfold eligible; rewrite list_lookup_imap, ?Hx, ?Hy; simpl; by rewrite decide_True.
      + rewrite (Hone ltac:(lia)). split; [lia|]. split; [apply Forall_forall; intros i _; left; lia|].
        intros i j x y Hi Hj _ Hx Hy. rewrite (Hone ltac:(lia)) in H4. apply (H4 i j (Some x) (Some y) Hi Hj); by rewrite list_lookup_fmap, ?Hx, ?Hy.
    - destruct renormalize; [|done]. by rewrite <-!list_fmap_compose. }
  destruct (Nat.ltb_spec 1 ng) as [Hng|Hng].
  - destruct (Hgroups Hng) as (Hl & Hs0 & Htg & Hkt & Hb2). wp_step.
    eapply wp_mono; [apply (mask_groups_spec ng tg _ choice size s); (done || lia)|].
    intros c s' (-> & best & Hbest & ->). apply (Hdone _ best); [|done|lia]. unfold eligible. by rewrite length_imap.
  - apply wp_bind, wp_ret. apply (Hdone _ []); [by rewrite length_fmap|lia|done].
Qed.

(** All tokens. *)
Lemma select_experts_spec {S} (router_logits : mat) top_k (renormalize : bool) scaling ng tg f bias E (s : S) :
  let biased := match bias with Some _ => true | None => false end in
  let size := E / ng in
  wide E router_logits -> (forall b, bias = Some b -> length b = E) -> top_k <= E ->
  (1 < ng -> E = ng * size /\ 0 < size /\ tg <= ng /\ top_k <= tg * size /\ (biased = true -> 2 <= size)) ->
  wp (torch_select_experts router_logits top_k renormalize scaling ng tg f bias) s (fun o s' => s' = s /\
    exists rows, o = (rows.*1, (fun r : list F * list nat => Z.of_nat <$> r.2) <$> rows) /\
    Forall2 (fun l r => RoutedRow top_k ng tg biased renormalize scaling (scores_of f l) (choice_of bias (scores_of f l)) r) router_logits rows).
Proof.
  intros biased size Hw Hbias Hk Hgroups. unfold torch_select_experts. wp_step.
  eapply wp_mono; [apply (wp_collect router_logits _ s (fun ls rs s' => s' = s /\
    Forall2 (fun l r => RoutedRow top_k ng tg biased renormalize scaling (scores_of f l) (choice_of bias (scores_of f l)) r) ls rs))|].
  - by split.
  - intros ls l rest rs s' Hl [-> Hrs].
    assert (Hll : length l = E) by (unfold wide in Hw; rewrite Hl, Forall_app, Forall_cons in Hw; apply Hw).
    eapply wp_mono; [apply select_row_spec|].
    + intros b Hb. rewrite Hll. by apply Hbias.
    + by rewrite Hll.
    + by rewrite Hll.
    + intros r s' [-> Hr]. split; [done|]. apply Forall2_app; [done|]. by constructor.
  - intros rs s' [-> Hrs]. apply wp_ret. split; [done|]. by exists rs.
Qed.

End Facts.
