(* ===== verification/MoeRanks.v ===== *)
(** * Experts on ranks

    Each rank of [layers/moe.py]'s FusedMoE builds and loads its slices of
    every expert, or its own experts, and the ranks' partial sums, the shared
    experts' among them, add up to the whole layer. *)

From S2P Require Import Prelude Arrays Tensors Ranks Linear EmbedHead Qwen3 Qwen3Load Qwen3Facts Moe MoeFacts.

Section Build.
Context {F : Type} `{!Scalar F} `{!Torch F}.
Local Abbreviation mat := (list (list F)).

(** A layer's routed experts in the checkpoint. *)
Record ExpertWeights := { e_gate : nat -> mat; e_up : nat -> mat; e_down : nat -> mat }.

Definition gate_up_loads (experts : nat) : list (nat * string) :=
  ((fun e => (e, "gate_proj"%string)) <$> seq 0 experts) ++ ((fun e => (e, "up_proj"%string)) <$> seq 0 experts).

Definition expert_tensor (ck : ExpertWeights) (e : nat) (proj : string) : mat :=
  if bool_decide (proj = "gate_proj"%string) then e_gate ck e else e_up ck e.

(** The experts' tensors, in any order. *)
Definition load_experts {S} (hidden inter : nat) (gu_order : list (nat * string)) (down_order : list nat) (ck : ExpertWeights)
    (m : FusedMoE F) : M S (FusedMoE F) :=
  let! gu := run_on (moe_gate_up m) (for_each gu_order (fun ep =>
    moe_weight_loader m (Mat hidden (expert_tensor ck ep.1 ep.2)) ep.1 ep.2)) in
  let! dn := run_on (moe_down m) (for_each down_order (fun e =>
    moe_weight_loader m (Mat inter (e_down ck e)) e "down_proj"%string)) in
  ret {| moe_tp_rank := moe_tp_rank m; moe_tp_size := moe_tp_size m; ep_rank := ep_rank m; ep_size := ep_size m;
         num_experts := num_experts m; top_k := Moe.top_k m; intermediate := intermediate m;
         local_num_experts := local_num_experts m; local_expert_ids := local_expert_ids m; moe_gate_up := gu;
         moe_down := dn; expert_map := expert_map m |}.

(** A rank builds the layer and loads it. *)
Definition moe_build {S} (g : Group) (experts top_k hidden inter : nat) (ep : bool)
    (gu_order : list (nat * string)) (down_order : list nat) (ck : ExpertWeights) : M S (FusedMoE F) :=
  let! m := FusedMoE_init g experts top_k hidden inter ep in load_experts hidden inter gu_order down_order ck m.

End Build.

Arguments ExpertWeights : clear implicits.

Lemma fmap_const_replicate {A B} (l : list A) (y : B) : (fun _ => y) <$> l = replicate (length l) y.
Proof. by apply const_fmap. Qed.

Lemma cut_nil {A} a k : cut a k [] = @nil A.
Proof. unfold cut. by rewrite drop_nil, take_nil. Qed.

Section Part.
Context {F : Type} `{!Scalar F} `{!Torch F}.
Local Abbreviation mat := (list (list F)).
Variable experts K d inter : nat.
Variable ck : ExpertWeights F.

Record ExpertsOk : Prop := {
  eo_gate e : e < experts -> length (e_gate ck e) = inter /\ wide d (e_gate ck e);
  eo_up e : e < experts -> length (e_up ck e) = inter /\ wide d (e_up ck e);
  eo_down e : e < experts -> length (e_down ck e) = d /\ wide inter (e_down ck e)
}.

Hypothesis Hck : ExpertsOk.

(** A rank's slice: [s] slices of each expert, of which it has the [r]-th, of the experts from [a]. *)
Definition moe_slice (s r eps epr a cnt m : nat) (map : option (list Z)) : FusedMoE F :=
  {| moe_tp_rank := r; moe_tp_size := s; ep_rank := epr; ep_size := eps; num_experts := experts; top_k := K;
     intermediate := m; local_num_experts := cnt; local_expert_ids := map;
     moe_gate_up := (fun e => Mat d (shard s r (e_gate ck e) ++ shard s r (e_up ck e))) <$> seq a cnt;
     moe_down := (fun e => Mat m (shard s r <$> e_down ck e)) <$> seq a cnt; expert_map := map |}.

(** The map from a global id to the rank's. *)
Definition rank_map (n i : nat) : list Z :=
  (fun e => if (expert_start n experts i <=? e) && (e <? expert_start n experts i + expert_count n experts i)
            then Z.of_nat (e - expert_start n experts i) else (-1)%Z) <$> seq 0 experts.

Definition moe_part (ep : bool) (n i : nat) : FusedMoE F :=
  if ep && (1 <? n) then
    moe_slice 1 0 n i (expert_start n experts i) (expert_count n experts i) inter (Some (rank_map n i))
  else moe_slice n i 1 0 0 experts (inter / n) None.

(** ** The expert map *)

Lemma expert_start_bound n i : i < n -> expert_start n experts i + expert_count n experts i <= experts.
Proof using.
  clear. intros Hi. rewrite <-expert_start_S. rewrite <-(expert_start_end n experts) at 2 by lia. apply expert_start_mono. lia.
Qed.

Lemma splice_map a k n : a + k <= n ->
  splice a (Z.of_nat <$> seq 0 k) (replicate n (-1)%Z) =
  (fun e => if (a <=? e) && (e <? a + k) then Z.of_nat (e - a) else (-1)%Z) <$> seq 0 n.
Proof using.
  clear. intros Hk. unfold splice. rewrite length_fmap, length_seq, take_replicate, drop_replicate, Nat.min_l by lia.
  replace n with (a + (k + (n - (a + k)))) at 2 by lia. rewrite !seq_app, !fmap_app. simpl. f_equal; [|f_equal].
  - rewrite <-(length_seq a 0) at 1. rewrite <-(fmap_const_replicate (seq 0 a)). apply list_fmap_ext.
    intros _ e He%list_elem_of_lookup_2%elem_of_seq. destruct (Nat.leb_spec a e); [lia|done].
  - replace (seq a k) with (Nat.add a <$> seq 0 k) by by rewrite fmap_add_seq, Nat.add_0_r.
    rewrite <-list_fmap_compose. apply list_fmap_ext. intros _ e He%list_elem_of_lookup_2%elem_of_seq. simpl.
    destruct (Nat.leb_spec a (a + e)), (Nat.ltb_spec (a + e) (a + k)); try lia. simpl. f_equal. lia.
  - rewrite <-(length_seq (n - (a + k)) (a + k)) at 1. rewrite <-(fmap_const_replicate (seq (a + k) (n - (a + k)))).
    apply list_fmap_ext. intros _ e He%list_elem_of_lookup_2%elem_of_seq.
    destruct (Nat.ltb_spec e (a + k)); [lia|]. by rewrite andb_false_r.
Qed.

Lemma determine_map {S} n i (s : S) : i < n -> 1 < n ->
  determine_expert_map n i experts s = (inr (expert_count n experts i, Some (rank_map n i)), s).
Proof using.
  clear Hck. intros Hi Hn. unfold determine_expert_map. destruct (Nat.eqb_spec n 1); [lia|]. destruct (Nat.eqb_spec n 0); [lia|].
  unfold ret. pose proof (expert_start_bound n i Hi) as Hb. unfold rank_map.
  assert (Hc : expert_count n experts i = if i <? experts mod n then experts / n + 1 else experts / n).
  { unfold expert_count. destruct (i <? experts mod n); lia. }
  rewrite <-Hc. do 4 f_equal. by apply splice_map.
Qed.

(** ** Loading *)

Section Slice.
Variable s r eps epr a cnt m : nat.
Variable map : option (list Z).
Hypothesis Hr : r < s.
Hypothesis Hm : inter = s * m.
Hypothesis Hcnt : a + cnt <= experts.
Hypothesis Hmap : match map with
  | None => a = 0 /\ cnt = experts
  | Some l => l = (fun e => if (a <=? e) && (e <? a + cnt) then Z.of_nat (e - a) else (-1)%Z) <$> seq 0 experts
  end.

(** A layer under construction. *)
Definition with_params (gu dn : list (Param F)) : FusedMoE F :=
  {| moe_tp_rank := r; moe_tp_size := s; ep_rank := epr; ep_size := eps; num_experts := experts; top_k := K;
     intermediate := m; local_num_experts := cnt; local_expert_ids := map; moe_gate_up := gu; moe_down := dn;
     expert_map := map |}.

Lemma local_id_spec {S} gu dn e (st : S) : e < experts ->
  local_id (with_params gu dn) e st = (inr (if (a <=? e) && (e <? a + cnt) then Some (e - a) else None), st).
Proof using Hmap Hcnt.
  clear Hr Hm Hck. intros He. unfold local_id. cbn [with_params local_expert_ids]. destruct map as [l|].
  - rewrite Hmap, list_lookup_fmap, lookup_seq_lt by done. simpl. unfold bind, ret.
    destruct ((a <=? e) && (e <? a + cnt)); [|done]. destruct (Z.eqb_spec (Z.of_nat (e - a)) (-1)); [lia|].
    by rewrite Nat2Z.id.
  - destruct Hmap as [-> ->]. destruct (Nat.leb_spec 0 e), (Nat.ltb_spec e (0 + experts)); try lia. simpl.
    by rewrite Nat.sub_0_r.
Qed.

Lemma moe_chunk_rows {S} gu dn c (w : mat) (st : S) Q : length w = s * m ->
  Q (Mat c (shard s r w)) st -> wp (moe_chunk (with_params gu dn) 0 (Mat c w)) st Q.
Proof using Hr.
  clear Hm Hmap Hcnt Hck. intros Hl HQ. unfold moe_chunk, chunk. wp_steps. unfold tsize. wp_steps. cbn [with_params moe_tp_size moe_tp_rank].
  apply wp_or_raise with (Mat c (shard s r w)); [|done]. rewrite Hl. destruct (Nat.eqb_spec (s * m) 0) as [Hz|Hz].
  - assert (m = 0) as -> by nia. rewrite list_lookup_fmap, lookup_seq_lt by done. simpl. do 2 f_equal.
    rewrite Nat.mul_0_r in Hl. apply nil_length_inv in Hl as ->. unfold shard. by rewrite !cut_nil.
  - assert (m <> 0) by nia. replace ((s * m + s - 1) / s) with m by (apply (Nat.div_unique _ s m (s - 1)); lia).
    replace ((s * m + m - 1) / m) with s by (apply (Nat.div_unique _ m s (m - 1)); lia).
    rewrite list_lookup_fmap, lookup_seq_lt by done. simpl. do 2 f_equal. rewrite (shard_cut s r m) by done.
    f_equal. assert (r * m + m <= s * m) by nia. lia.
Qed.

Lemma moe_chunk_cols {S} gu dn (w : mat) (st : S) Q : wide (s * m) w ->
  Q (Mat m (shard s r <$> w)) st -> wp (moe_chunk (with_params gu dn) 1 (Mat (s * m) w)) st Q.
Proof using Hr.
  clear Hm Hmap Hcnt Hck. intros Hw HQ. unfold moe_chunk, chunk. wp_steps. unfold tsize. wp_steps. cbn [with_params moe_tp_size moe_tp_rank].
  apply wp_or_raise with (Mat m (shard s r <$> w)); [|done]. destruct (Nat.eqb_spec (s * m) 0) as [Hz|Hz].
  - assert (m = 0) as -> by nia. rewrite list_lookup_fmap, lookup_seq_lt by done. simpl. do 2 f_equal.
    apply list_fmap_ext. intros j row Hrow. pose proof (wide_lookup _ w j row Hw Hrow) as Hl. rewrite Nat.mul_0_r in Hl.
    apply nil_length_inv in Hl as ->. unfold shard. by rewrite !cut_nil.
  - assert (m <> 0) by nia. replace ((s * m + s - 1) / s) with m by (apply (Nat.div_unique _ s m (s - 1)); lia).
    replace ((s * m + m - 1) / m) with s by (apply (Nat.div_unique _ m s (m - 1)); lia).
    rewrite list_lookup_fmap, lookup_seq_lt by done. simpl. do 2 f_equal.
    + assert (r * m + m <= s * m) by nia. lia.
    + apply list_fmap_ext. intros j row Hrow. rewrite (shard_cut s r m) by (done || by apply (wide_lookup _ w j)).
      f_equal. assert (r * m + m <= s * m) by nia. lia.
Qed.

Lemma at_expert_seq (f : nat -> Param F) i (mth : M (Param F) unit) Q : i < cnt ->
  wp mth (f (a + i)) (fun _ p => Q tt ((fun e => if e =? a + i then p else f e) <$> seq a cnt)) ->
  wp (at_expert i mth) (f <$> seq a cnt) Q.
Proof using.
  clear. intros Hi. unfold wp, at_expert. rewrite list_lookup_fmap, lookup_seq_lt by done. simpl.
  destruct (mth (f (a + i))) as [[e|[]] p]; [done|]. intros HQ.
  replace (<[i := p]> (f <$> seq a cnt)) with ((fun e => if e =? a + i then p else f e) <$> seq a cnt); [done|].
  apply list_eq. intros j. rewrite list_lookup_fmap. destruct (decide (j < cnt)) as [Hj|Hj].
  - rewrite lookup_seq_lt by done. simpl. destruct (Nat.eqb_spec (a + j) (a + i)) as [He|He].
    + assert (j = i) as -> by lia. by rewrite list_lookup_insert_eq by by rewrite length_fmap, length_seq.
    + rewrite list_lookup_insert_ne by lia. by rewrite list_lookup_fmap, lookup_seq_lt.
  - rewrite lookup_ge_None_2 by (rewrite length_seq; lia). simpl. symmetry. apply lookup_ge_None.
    rewrite length_insert, length_fmap, length_seq. lia.
Qed.

(** The gate and up projections of the rank's experts, loaded in any order. *)
Lemma gate_up_loaded gu0 dn0 order : order ≡ₚ gate_up_loads experts ->
  wp (for_each order (fun ep => moe_weight_loader (with_params gu0 dn0) (Mat d (expert_tensor ck ep.1 ep.2)) ep.1 ep.2))
    (replicate cnt (empty2 (2 * m) d))
    (fun _ l => l = (fun e => Mat d (shard s r (e_gate ck e) ++ shard s r (e_up ck e))) <$> seq a cnt).
Proof using Hck Hr Hm Hcnt Hmap.
  intros Hp. eapply wp_mono.
  - apply (wp_for_each _ _ _ (fun done_ l => exists A B : nat -> mat,
      l = (fun e => Mat d (A e ++ B e)) <$> seq a cnt /\
      (forall e, e < experts -> length (A e) = m /\ length (B e) = m) /\
      (forall e, (e, "gate_proj"%string) ∈ done_ -> A e = shard s r (e_gate ck e)) /\
      (forall e, (e, "up_proj"%string) ∈ done_ -> B e = shard s r (e_up ck e)))).
    + destruct (empty2_rows (2 * m) d) as (w & He & Hl). rewrite He.
      exists (fun _ => take m w), (fun _ => drop m w). split_and!.
      * rewrite take_drop. rewrite <-(length_seq cnt a) at 1. by rewrite <-(fmap_const_replicate (seq a cnt)).
      * intros e _. rewrite length_take, length_drop. lia.
      * by intros e H%elem_of_nil.
      * by intros e H%elem_of_nil.
    + intros done_ [e proj] rest l Hl (A & B & -> & Hlen & HA & HB). cbn [fst snd].
      assert (Hin : (e, proj) ∈ gate_up_loads experts) by (rewrite <-Hp, Hl; apply elem_of_app; right; constructor).
      assert (He : e < experts /\ (proj = "gate_proj"%string \/ proj = "up_proj"%string)).
      { apply elem_of_app in Hin as [Hin|Hin]; apply list_elem_of_fmap in Hin as (e' & Heq & Hin);
          injection Heq as -> ->; apply elem_of_seq in Hin; (split; [lia|]); [by left|by right]. }
      destruct He as [He Hproj]. destruct (Hlen e He) as [LA LB].
      unfold moe_weight_loader. apply wp_bind. unfold wp at 1. rewrite local_id_spec by done.
      assert (Hskip : (forall k v, (k, v) ∈ done_ ++ [(e, proj)] -> (k, v) ∈ done_ \/ (k, v) = (e, proj))).
      { intros k v Hk. apply elem_of_app in Hk as [Hk|Hk%list_elem_of_singleton]; [by left|by right]. }
      destruct ((a <=? e) && (e <? a + cnt)) eqn:Hb.
      * apply andb_true_iff in Hb as [Ha%Nat.leb_le Hb%Nat.ltb_lt].
        destruct (eo_gate Hck e He) as [LG WG]. destruct (eo_up Hck e He) as [LU WU].
        rewrite bool_decide_false by (by destruct Hproj; subst).
        assert (Hw : length (expert_tensor ck e proj) = s * m /\ wide d (expert_tensor ck e proj)).
        { unfold expert_tensor. destruct Hproj as [->| ->]; simpl; [by rewrite LG, Hm|by rewrite LU, Hm]. }
        destruct Hw as [Lw Ww]. apply wp_bind, moe_chunk_rows; [done|].
        apply (at_expert_seq (fun e => Mat d (A e ++ B e)) (e - a)); [lia|].
        replace (a + (e - a)) with e by lia. cbn [with_params intermediate].
        apply (wp_copy_narrow (Mat d) (fun row => length row = d)).
        { rewrite length_app. destruct (bool_decide _); lia. }
        { by apply wide_shard. }
        { by apply shard_length. }
        assert (Hsh : length (shard s r (expert_tensor ck e proj)) = m) by by apply shard_length.
        destruct Hproj as [->| ->].
        -- rewrite bool_decide_true by done. unfold splice. rewrite Hsh. simpl Nat.add.
           exists (fun e' => if e' =? e then shard s r (e_gate ck e) else A e'), B. split_and!.
           ++ apply list_fmap_ext. intros _ e' _. destruct (Nat.eqb_spec e' e) as [->|]; [|done].
              rewrite take_0, app_nil_l. by rewrite drop_app_length' by done.
           ++ intros e' He'. destruct (Nat.eqb_spec e' e) as [->|]; [|by apply Hlen]. split; [exact Hsh|done].
           ++ intros e' He'. destruct (Nat.eqb_spec e' e) as [->|Hne]; [done|]. apply HA.
              destruct (Hskip _ _ He') as [|Heq]; [done|]. by injection Heq.
           ++ intros e' He'. apply HB. by destruct (Hskip _ _ He').
        -- rewrite bool_decide_false by done. unfold splice. rewrite Hsh.
           exists A, (fun e' => if e' =? e then shard s r (e_up ck e) else B e'). split_and!.
           ++ apply list_fmap_ext. intros _ e' _. destruct (Nat.eqb_spec e' e) as [->|]; [|done].
              rewrite take_app_length' by done. rewrite (drop_ge (A e ++ B e)) by (rewrite length_app; lia).
              by rewrite app_nil_r.
           ++ intros e' He'. destruct (Nat.eqb_spec e' e) as [->|]; [|by apply Hlen]. split; [done|exact Hsh].
           ++ intros e' He'. apply HA. by destruct (Hskip _ _ He').
           ++ intros e' He'. destruct (Nat.eqb_spec e' e) as [->|Hne]; [done|]. apply HB.
              destruct (Hskip _ _ He') as [|Heq]; [done|]. by injection Heq.
      * apply wp_ret. exists (fun e' => if e' =? e then shard s r (e_gate ck e) else A e'),
          (fun e' => if e' =? e then shard s r (e_up ck e) else B e').
        destruct (eo_gate Hck e He) as [LG _]. destruct (eo_up Hck e He) as [LU _]. rewrite Hm in LG, LU.
        split_and!.
        -- apply list_fmap_ext. intros _ e' He'%list_elem_of_lookup_2%elem_of_seq.
           destruct (Nat.eqb_spec e' e) as [->|]; [|done]. exfalso. apply andb_false_iff in Hb.
           destruct Hb as [Hb%Nat.leb_gt|Hb%Nat.ltb_ge]; lia.
        -- intros e' He'. destruct (Nat.eqb_spec e' e) as [->|]; [|by apply Hlen]. split; by apply shard_length.
        -- intros e' He'. destruct (Nat.eqb_spec e' e) as [->|Hne]; [done|]. apply HA.
           destruct (Hskip _ _ He') as [|Heq]; [done|]. by injection Heq.
        -- intros e' He'. destruct (Nat.eqb_spec e' e) as [->|Hne]; [done|]. apply HB.
           destruct (Hskip _ _ He') as [|Heq]; [done|]. by injection Heq.
  - intros _ l (A & B & -> & _ & HA & HB). apply list_fmap_ext. intros _ e He%list_elem_of_lookup_2%elem_of_seq.
    assert (Hg : forall p, p = "gate_proj"%string \/ p = "up_proj"%string -> (e, p) ∈ order).
    { intros p Hpr. rewrite Hp. apply elem_of_app. destruct Hpr as [->| ->]; [left|right];
        apply list_elem_of_fmap; exists e; (split; [done|]); apply elem_of_seq; lia. }
    by rewrite HA, HB by (apply Hg; auto).
Qed.

Lemma down_loaded gu0 dn0 order : order ≡ₚ seq 0 experts ->
  wp (for_each order (fun e => moe_weight_loader (with_params gu0 dn0) (Mat inter (e_down ck e)) e "down_proj"%string))
    (replicate cnt (empty2 d m))
    (fun _ l => l = (fun e => Mat m (shard s r <$> e_down ck e)) <$> seq a cnt).
Proof using Hck Hr Hm Hcnt Hmap.
  intros Hp. eapply wp_mono.
  - apply (wp_for_each _ _ _ (fun done_ l => exists D : nat -> mat, l = (fun e => Mat m (D e)) <$> seq a cnt /\
      (forall e, e < experts -> length (D e) = d) /\ (forall e, e ∈ done_ -> D e = shard s r <$> e_down ck e))).
    + destruct (empty2_rows d m) as (w & He & Hl). rewrite He. exists (fun _ => w). split_and!; [|done|by intros e H%elem_of_nil].
      rewrite <-(length_seq cnt a) at 1. by rewrite <-(fmap_const_replicate (seq a cnt)).
    + intros done_ e rest l Hl (D & -> & Hlen & HD).
      assert (He : e < experts).
      { assert (Hin : e ∈ seq 0 experts) by (rewrite <-Hp, Hl; apply elem_of_app; right; constructor).
        apply elem_of_seq in Hin. lia. }
      destruct (eo_down Hck e He) as [LD WD]. rewrite Hm in WD. rewrite Hm.
      unfold moe_weight_loader. apply wp_bind. unfold wp at 1. rewrite local_id_spec by done.
      assert (Hstep : forall k, k ∈ done_ ++ [e] -> k ∈ done_ \/ k = e).
      { intros k Hk. apply elem_of_app in Hk as [Hk|Hk%list_elem_of_singleton]; [by left|by right]. }
      assert (HD' : forall e', e' ∈ done_ ++ [e] ->
        (if e' =? e then shard s r <$> e_down ck e else D e') = shard s r <$> e_down ck e').
      { intros e' He'. destruct (Nat.eqb_spec e' e) as [->|Hne]; [done|]. apply HD. by destruct (Hstep e' He'). }
      assert (Hlen' : forall e', e' < experts -> length (if e' =? e then shard s r <$> e_down ck e else D e') = d).
      { intros e' He'. destruct (e' =? e); [by rewrite length_fmap|by apply Hlen]. }
      destruct ((a <=? e) && (e <? a + cnt)) eqn:Hb.
      * apply andb_true_iff in Hb as [Ha%Nat.leb_le Hb%Nat.ltb_lt]. rewrite bool_decide_true by done.
        apply wp_bind, moe_chunk_cols; [done|]. apply (at_expert_seq (fun e => Mat m (D e)) (e - a)); [lia|].
        replace (a + (e - a)) with e by lia. apply (wp_copy_whole (Mat m) (fun row => length row = m)).
        { apply Forall_fmap. eapply Forall_impl; [exact WD|]. intros row Hrow. simpl. by apply shard_length. }
        { rewrite length_fmap, LD. symmetry. by apply Hlen. }
        exists (fun e' => if e' =? e then shard s r <$> e_down ck e else D e'). split; [|by split].
        apply list_fmap_ext. intros _ e' _. simpl. by destruct (Nat.eqb_spec e' e).
      * apply wp_ret. exists (fun e' => if e' =? e then shard s r <$> e_down ck e else D e'). split; [|by split].
        apply list_fmap_ext. intros _ e' He'%list_elem_of_lookup_2%elem_of_seq.
        simpl. destruct (Nat.eqb_spec e' e) as [->|]; [|done]. exfalso. apply andb_false_iff in Hb.
        destruct Hb as [Hb%Nat.leb_gt|Hb%Nat.ltb_ge]; lia.
  - intros _ l (D & -> & _ & HD). apply list_fmap_ext. intros _ e He%list_elem_of_lookup_2%elem_of_seq.
    rewrite HD; [done|]. rewrite Hp. apply elem_of_seq. lia.
Qed.

End Slice.

Lemma moe_build_spec {S} ep n i gu_order down_order (st : S) :
  i < n -> inter mod n = 0 -> gu_order ≡ₚ gate_up_loads experts -> down_order ≡ₚ seq 0 experts ->
  wp (moe_build {| rank := i; world_size := n |} experts K d inter ep gu_order down_order ck) st
    (fun m st' => st' = st /\ m = moe_part ep n i).
Proof using Hck.
  intros Hi Hdiv Hgu Hdn. unfold moe_build, load_experts, FusedMoE_init. cbn [world_size rank].
  assert (Hm : inter = n * (inter / n)) by (apply Nat.Div0.div_exact; done).
  unfold moe_part. destruct (ep && (1 <? n)) eqn:Hep.
  - apply andb_true_iff in Hep as [_ Hn%Nat.ltb_lt].
    apply wp_bind, wp_bind. unfold divide at 1. simpl Nat.eqb. rewrite Nat.div_1_r. apply wp_bind, wp_assert; [done|].
    apply wp_ret, wp_bind. unfold wp at 1. rewrite determine_map by done. apply wp_ret.
    cbn [moe_gate_up moe_down].
    apply wp_bind, wp_run_on. eapply wp_mono; [apply (gate_up_loaded 1 0 n i (expert_start n experts i)
      (expert_count n experts i) inter (Some (rank_map n i)))|]; try done; try lia; [by apply expert_start_bound|].
    intros _ gu ->. apply wp_bind, wp_run_on. eapply wp_mono; [apply (down_loaded 1 0 n i (expert_start n experts i)
      (expert_count n experts i) inter (Some (rank_map n i)))|]; try done; try lia; [by apply expert_start_bound|].
    intros _ dn ->. by apply wp_ret.
  - apply wp_bind, wp_bind. unfold divide at 1. destruct (Nat.eqb_spec n 0); [lia|]. rewrite Hdiv.
    apply wp_bind, wp_assert; [done|]. apply wp_ret, wp_bind, wp_ret, wp_ret. cbn [moe_gate_up moe_down].
    apply wp_bind, wp_run_on. eapply wp_mono; [apply (gate_up_loaded n i 1 0 0 experts (inter / n) None)|]; try done.
    intros _ gu ->. apply wp_bind, wp_run_on. eapply wp_mono; [apply (down_loaded n i 1 0 0 experts (inter / n) None)|]; try done.
    intros _ dn ->. by apply wp_ret.
Qed.

End Part.

(** ** The ranks' sums *)

Section Sum.
Context {F : Type} `{!Scalar F} `{!Torch F} `{!TorchGroups F}.
Local Abbreviation mat := (list (list F)).

Add Ring scalar : scalar_ring.

Variable experts K d inter : nat.
Variable ck : ExpertWeights F.
Hypothesis Hck : ExpertsOk experts d inter ck.
Hypothesis HK : 0 < K.
Hypothesis Hexperts : 0 < experts.

Variable x wts : mat.
Variable ids : list (list Z).
Hypothesis Hx : wide d x.
Hypothesis Hwts : length wts = length x /\ wide K wts.
Hypothesis Hids : length ids = length x /\ wide K ids /\
  Forall (Forall (fun i => (0 <= i < Z.of_nat experts)%Z)) ids.

(** The expert of a token-expert pair. *)
Definition expert_of (p : nat) : nat := Z.to_nat (default 0%Z (concat ids !! p)).

(** A pair's part of its token's output. *)
Definition whole_pair (p : nat) : list F :=
  let e := expert_of p in
  (fun y => fmul y (pair_weight wts p)) <$>
    ffn inter (e_gate ck e ++ e_up ck e) (e_down ck e) (default [] (x !! (p / K))).

(** The whole layer: each token's experts, weighted. *)
Definition routed_whole : mat :=
  (fun t => vtotal d ((fun k => whole_pair (t * K + k)) <$> seq 0 K)) <$> seq 0 (length x).

Lemma concat_ids_length : length (concat ids) = length x * K.
Proof using Hids. clear -Hids. destruct Hids as (Hl & Hw & _). by rewrite (wide_concat_length K), Hl. Qed.

Lemma concat_ids_range : Forall (fun i => (0 <= i < Z.of_nat experts)%Z) (concat ids).
Proof using Hids. clear -Hids. destruct Hids as (_ & _ & Hr). by apply Forall_concat. Qed.

Lemma id_at p : p < length x * K -> concat ids !! p = Some (Z.of_nat (expert_of p)) /\ expert_of p < experts.
Proof using Hids.
  clear -Hids. intros Hp. rewrite <-concat_ids_length in Hp. destruct (lookup_lt_is_Some_2 (concat ids) p Hp) as [i Hi].
  pose proof (Forall_lookup_1 _ _ p i concat_ids_range Hi) as Hr. simpl in Hr. unfold expert_of. rewrite Hi. simpl.
  rewrite Z2Nat.id by lia. split; [done|lia].
Qed.

Lemma concat_ids_codes (code : nat -> Z) : (forall p, p < length x * K -> concat ids !! p = Some (code p)) ->
  concat ids = code <$> seq 0 (length x * K).
Proof using Hids.
  clear -Hids. intros Hc. apply list_eq. intros p. rewrite list_lookup_fmap. destruct (decide (p < length x * K)) as [Hp|Hp].
  - rewrite Hc, lookup_seq_lt by done. done.
  - rewrite !lookup_ge_None_2; [done|rewrite length_seq; lia|rewrite concat_ids_length; lia].
Qed.

Lemma whole_pair_length p : p < length x * K -> length (whole_pair p) = d.
Proof using Hck Hids.
  clear -Hck Hids. intros Hp. unfold whole_pair, ffn. rewrite !length_fmap. by apply (eo_down _ _ _ _ Hck), id_at.
Qed.

(** The weights a rank holds for its experts. *)
Lemma slice_weights s r a cnt m : r < s -> inter = s * m -> a + cnt <= experts ->
  let gu := (fun e => shard s r (e_gate ck e) ++ shard s r (e_up ck e)) <$> seq a cnt in
  let dn := (fun e => (fun v => shard s r v) <$> e_down ck e) <$> seq a cnt in
  Forall (fun w => wide d w /\ length w = m + m) gu /\ Forall (fun w => wide m w /\ length w = d) dn /\ length gu = length dn.
Proof using Hck.
  clear -Hck. intros Hr Hm Ha. cbv zeta. split_and!; [| |by rewrite !length_fmap].
  - apply Forall_fmap, Forall_forall. intros e He%elem_of_seq. simpl.
    destruct (eo_gate _ _ _ _ Hck e) as [LG WG]; [lia|]. destruct (eo_up _ _ _ _ Hck e) as [LU WU]; [lia|].
    split; [apply Forall_app; split; by apply wide_shard|]. rewrite length_app, !(shard_length s r m) by lia. done.
  - apply Forall_fmap, Forall_forall. intros e He%elem_of_seq. simpl.
    destruct (eo_down _ _ _ _ Hck e) as [LD WD]; [lia|]. rewrite length_fmap. split; [|done].
    apply Forall_fmap. eapply Forall_impl; [exact WD|]. intros v Hv. simpl in *. apply shard_length; lia.
Qed.

(** A rank's routed output is the sum of its pairs' parts. *)
Definition rank_out (out : nat -> list F) : mat :=
  (fun t => vtotal d ((fun k => out (t * K + k)) <$> seq 0 K)) <$> seq 0 (length x).

(** Slices of every expert. *)
Definition slice_pair (n i m : nat) (p : nat) : list F :=
  let e := expert_of p in
  (fun y => fmul y (pair_weight wts p)) <$>
    ffn m (shard n i (e_gate ck e) ++ shard n i (e_up ck e)) ((fun v => shard n i v) <$> e_down ck e)
      (default [] (x !! (p / K))).

Lemma lookup_seq_fmap {A} (f : nat -> A) a cnt j : j < cnt -> (f <$> seq a cnt) !! j = Some (f (a + j)).
Proof using. clear. intros Hj. by rewrite list_lookup_fmap, lookup_seq_lt. Qed.

Lemma rank_out_ext f g : (forall p, p < length x * K -> f p = g p) -> rank_out f = rank_out g.
Proof using.
  clear. intros He. unfold rank_out. apply list_fmap_ext. intros _ t Ht%list_elem_of_lookup_2%elem_of_seq.
  f_equal. apply list_fmap_ext. intros _ k Hk%list_elem_of_lookup_2%elem_of_seq. apply He. nia.
Qed.

Lemma slices_out {S} n i m (st : S) : i < n -> inter = n * m ->
  torch_experts x (as_mat <$> moe_gate_up (moe_slice experts K d ck n i 1 0 0 experts m None))
    (as_mat <$> moe_down (moe_slice experts K d ck n i 1 0 0 experts m None)) K wts ids None st =
  (inr (rank_out (slice_pair n i m)), st).
Proof using All.
  intros Hi Hm. cbn [moe_slice moe_gate_up moe_down]. rewrite <-!list_fmap_compose. unfold compose. cbn [as_mat].
  destruct (slice_weights n i 0 experts m Hi Hm ltac:(lia)) as (W1 & W2 & W3).
  set (gu := (fun e => shard n i (e_gate ck e) ++ shard n i (e_up ck e)) <$> seq 0 experts) in *.
  set (dn := (fun e => (fun v => shard n i v) <$> e_down ck e) <$> seq 0 experts) in *.
  assert (Lgu : length gu = experts) by (unfold gu; by rewrite length_fmap, length_seq).
  rewrite (torch_experts_spec x d m K gu dn ids wts None (fun p => if decide (p < length x * K) then Some (expert_of p) else None)); try done; try lia.
  - do 2 f_equal. apply rank_out_ext. intros p Hp. unfold pair_out, slice_pair. rewrite decide_True by done.
    destruct (id_at p Hp) as [_ He]. unfold gu, dn. rewrite !lookup_seq_fmap by done. done.
  - intros S' s'. exists ids. split; [done|]. apply concat_ids_codes. intros p Hp. destruct (id_at p Hp) as [He _].
    rewrite He. unfold local_code. by rewrite decide_True.
  - intros p e. case_decide as Hp; [|done]. intros [= <-]. rewrite Lgu. by apply id_at.
  - intros p Hp _. by rewrite decide_True.
Qed.

(** The slices' parts of a pair add up. *)
Lemma fsum_scale a (l : list F) : fsum ((fun y => fmul y a) <$> l) = fmul (fsum l) a.
Proof using.
  clear. unfold fsum. induction l as [|y l IH]; [simpl; ring|].
  rewrite fmap_cons. cbn [foldr]. rewrite IH. ring.
Qed.

Lemma slice_pair_sum n m p : 0 < n -> inter = n * m -> p < length x * K ->
  vsums n (fun i => slice_pair n i m p) = whole_pair p /\ (forall i, i < n -> length (slice_pair n i m p) = d).
Proof using Hck Hids.
  clear -Hck Hids. intros Hn Hm Hp. destruct (id_at p Hp) as [_ He]. set (e := expert_of p) in *.
  destruct (eo_gate _ _ _ _ Hck e He) as [LG WG]. destruct (eo_up _ _ _ _ Hck e He) as [LU WU].
  destruct (eo_down _ _ _ _ Hck e He) as [LD WD].
  set (r := default [] (x !! (p / K))). set (H := gated (dot r <$> e_gate ck e) (dot r <$> e_up ck e)).
  assert (LH : length H = n * m) by (unfold H, gated, vmul; rewrite length_zip_with, !length_fmap; lia).
  assert (Hpart : forall i, i < n -> slice_pair n i m p =
    (fun v => fmul (dot (shard n i H) (shard n i v)) (pair_weight wts p)) <$> e_down ck e).
  { intros i Hi. unfold slice_pair, ffn. fold e r. rewrite <-!list_fmap_compose. apply list_fmap_ext. intros _ v _.
    unfold compose. do 2 f_equal. rewrite !fmap_app.
    rewrite take_app_length', drop_app_length' by (rewrite length_fmap, (shard_length n i m) by lia; done).
    unfold H. rewrite gated_shard by (rewrite !length_fmap; lia). by rewrite !shard_fmap. }
  split.
  - transitivity (vsums n (fun i => (fun v => fmul (dot (shard n i H) (shard n i v)) (pair_weight wts p)) <$> e_down ck e)).
    { unfold vsums. rewrite Hpart by lia. f_equal. apply list_fmap_ext.
      intros _ i Hi%list_elem_of_lookup_2%elem_of_seq. apply Hpart. lia. }
    rewrite (vsums_entries n (fun i v => fmul (dot (shard n i H) (shard n i v)) (pair_weight wts p))) by done.
    unfold whole_pair, ffn. fold e r. rewrite <-list_fmap_compose. apply list_fmap_ext. intros j v Hv. unfold compose.
    rewrite fmap_app, take_app_length', drop_app_length' by (rewrite length_fmap; lia). fold H.
    rewrite (dot_shards n m) by (try lia; rewrite (wide_lookup _ _ j v WD Hv); lia).
    rewrite <-fsum_scale, <-list_fmap_compose. done.
  - intros i Hi. by rewrite Hpart, length_fmap.
Qed.

(** Whole experts of its own. *)
Definition own_pair (n i : nat) (p : nat) : list F :=
  if (expert_start n experts i <=? expert_of p) && (expert_of p <? expert_start n experts i + expert_count n experts i)
  then whole_pair p else zeros d.

Lemma mapped_ids {S} n i (st : S) : i < n ->
  let cnt := expert_count n experts i in
  exists ids', local_ids (S := S) cnt (Some (rank_map experts n i)) ids st = (inr ids', st) /\
    concat ids' = (fun p => let e := expert_of p in
      if (expert_start n experts i <=? e) && (e <? expert_start n experts i + cnt)
      then Z.of_nat (e - expert_start n experts i) else Z.of_nat cnt) <$> seq 0 (length x * K).
Proof using Hids.
  clear -Hids. intros Hi cnt. set (code := fun j : Z => let e := Z.to_nat j in
    if (expert_start n experts i <=? e) && (e <? expert_start n experts i + cnt)
    then Z.of_nat (e - expert_start n experts i) else (-1)%Z).
  destruct Hids as (Hl & Hw & Hr).
  assert (Hm : mapM (fun row : list Z => mapM (py_get (rank_map experts n i)) row) ids =
    Some ((fun row : list Z => code <$> row) <$> ids)).
  { rewrite <-(list_fmap_id ids) at 1. apply mapM_fmap_Some. intros row Hrow. unfold Datatypes.id.
    rewrite <-(list_fmap_id row) at 1. apply mapM_fmap_Some. intros j Hj. unfold Datatypes.id.
    rewrite Forall_forall in Hr. specialize (Hr row Hrow). rewrite Forall_forall in Hr. specialize (Hr j Hj). simpl in Hr.
    rewrite py_get_lookup by lia. unfold rank_map. rewrite lookup_seq_fmap by lia. done. }
  unfold local_ids, bind. rewrite Hm. cbn [or_raise]. unfold ret. eexists. split; [done|].
  rewrite <-list_fmap_compose.
  transitivity ((fun j => if (code j <? 0)%Z then Z.of_nat cnt else code j) <$> concat ids).
  { clear. generalize ids. intros l. induction l as [|row l IH]; [done|]. rewrite fmap_cons. cbn [concat]. rewrite IH, fmap_app. f_equal.
    unfold compose. by rewrite <-list_fmap_compose. }
  rewrite (concat_ids_codes (fun p => Z.of_nat (expert_of p))) by (intros p Hp; by apply id_at).
  rewrite <-list_fmap_compose. apply list_fmap_ext. intros _ p _. unfold compose, code. cbv zeta. rewrite Nat2Z.id.
  destruct (_ && _); [|done]. destruct (Z.ltb_spec (Z.of_nat (expert_of p - expert_start n experts i)) 0); [lia|done].
Qed.

Lemma own_out {S} n i (st : S) : i < n -> n <= experts ->
  let m := moe_slice experts K d ck 1 0 n i (expert_start n experts i) (expert_count n experts i) inter
    (Some (rank_map experts n i)) in
  torch_experts x (as_mat <$> moe_gate_up m) (as_mat <$> moe_down m) K wts ids (Some (rank_map experts n i)) st =
  (inr (rank_out (own_pair n i)), st).
Proof using All.
  intros Hi Hne. cbn [moe_slice moe_gate_up moe_down]. rewrite <-!list_fmap_compose. unfold compose. cbn [as_mat].
  pose proof (expert_start_bound experts n i Hi) as Hb.
  assert (Hpos : 0 < expert_count n experts i).
  { unfold expert_count. assert (1 <= experts / n) by (apply Nat.div_le_lower_bound; lia). lia. }
  set (a := expert_start n experts i) in *. set (cnt := expert_count n experts i) in *.
  destruct (slice_weights 1 0 a cnt inter ltac:(lia) ltac:(lia) Hb) as (W1 & W2 & W3).
  set (gu := (fun e => shard 1 0 (e_gate ck e) ++ shard 1 0 (e_up ck e)) <$> seq a cnt) in *.
  set (dn := (fun e => (fun v => shard 1 0 v) <$> e_down ck e) <$> seq a cnt) in *.
  assert (Lgu : length gu = cnt) by (unfold gu; by rewrite length_fmap, length_seq).
  rewrite (torch_experts_spec x d inter K gu dn ids wts (Some (rank_map experts n i))
    (fun p => if (a <=? expert_of p) && (expert_of p <? a + cnt) then Some (expert_of p - a) else None)); try done; try lia.
  - do 2 f_equal. apply rank_out_ext. intros p Hp. unfold pair_out, own_pair. fold a cnt.
    destruct ((a <=? expert_of p) && (expert_of p <? a + cnt)) eqn:He; [|done].
    apply andb_true_iff in He as [Ha%Nat.leb_le Hc%Nat.ltb_lt]. unfold gu, dn. rewrite !lookup_seq_fmap by lia.
    cbn [default from_option]. unfold Datatypes.id, whole_pair. replace (a + (expert_of p - a)) with (expert_of p) by lia.
    rewrite !shard_one. do 2 f_equal. rewrite <-(list_fmap_id (e_down ck (expert_of p))) at 2.
    apply list_fmap_ext. intros _ v _. apply shard_one.
  - intros S' s'. rewrite Lgu. destruct (mapped_ids n i s' Hi) as (ids' & H1 & H2). exists ids'. split; [exact H1|].
    rewrite H2. apply list_fmap_ext. intros _ p _. cbv zeta. fold a cnt. unfold local_code. rewrite Lgu.
    by destruct (_ && _).
  - intros p e He. rewrite Lgu. destruct ((a <=? expert_of p) && (expert_of p <? a + cnt)) eqn:Hc; [|done].
    injection He as <-. apply andb_true_iff in Hc as [Ha%Nat.leb_le Hc%Nat.ltb_lt]. lia.
Qed.

Lemma own_pair_sum n p : 0 < n -> p < length x * K ->
  vsums n (fun i => own_pair n i p) = whole_pair p /\ (forall i, i < n -> length (own_pair n i p) = d).
Proof using Hck Hids.
  clear -Hck Hids. intros Hn Hp. destruct (id_at p Hp) as [_ He]. pose proof (whole_pair_length p Hp) as Hl.
  destruct (expert_rank n experts (expert_of p) Hn He) as (o & Ho & Hin & Huniq).
  assert (Htest : forall i, i < n -> (expert_start n experts i <=? expert_of p) &&
    (expert_of p <? expert_start n experts i + expert_count n experts i) = bool_decide (i = o)).
  { intros i Hi. case_bool_decide as Hio.
    - subst i. apply andb_true_iff. split; [apply Nat.leb_le; lia|apply Nat.ltb_lt; lia].
    - apply andb_false_iff. destruct (Nat.leb_spec (expert_start n experts i) (expert_of p)) as [H1|H1]; [|by left].
      right. apply Nat.ltb_ge. apply Nat.nlt_ge. intros H2. apply Hio, Huniq; [done|lia]. }
  split.
  - apply (vsums_one n o d); [done|done| |].
    + unfold own_pair. rewrite Htest by done. by rewrite bool_decide_true.
    + intros i Hi Hne. unfold own_pair. rewrite Htest by done. by rewrite bool_decide_false.
  - intros i Hi. unfold own_pair. destruct (_ && _); [done|apply length_replicate].
Qed.

Lemma rank_outs_sum n (out : nat -> nat -> list F) : 0 < n ->
  (forall p, p < length x * K -> vsums n (fun i => out i p) = whole_pair p /\ (forall i, i < n -> length (out i p) = d)) ->
  msum n (fun i => rank_out (out i)) = routed_whole.
Proof using.
  clear. intros Hn Hout. unfold rank_out, routed_whole.
  rewrite (msum_rows n (fun i t => vtotal d ((fun k => out i (t * K + k)) <$> seq 0 K))) by done.
  apply list_fmap_ext. intros _ t Ht%list_elem_of_lookup_2%elem_of_seq.
  rewrite (vsums_total n d (fun i k => out i (t * K + k))); [|done|].
  - f_equal. apply list_fmap_ext. intros _ k Hk%list_elem_of_lookup_2%elem_of_seq. apply Hout. nia.
  - intros i k Hi Hk%elem_of_seq. apply Hout; [nia|done].
Qed.

(** ** Shared experts *)

Record SharedWeights := { sh_gate : mat; sh_up : mat; sh_down : mat }.

Record SharedOk (n m : nat) (sw : SharedWeights) : Prop := {
  so_gate : length (sh_gate sw) = n * m /\ wide d (sh_gate sw);
  so_up : length (sh_up sw) = n * m /\ wide d (sh_up sw);
  so_down : length (sh_down sw) = d /\ wide (n * m) (sh_down sw)
}.

(** A rank's shares: those of a merged column-parallel and a row-parallel layer. *)
Definition shared_part (n i : nat) (sw : SharedWeights) : mat * mat :=
  (shard n i (sh_gate sw) ++ shard n i (sh_up sw), (fun v => shard n i v) <$> sh_down sw).

Definition shared_whole (sw : SharedWeights) : mat :=
  linear ((fun r => gated (dot r <$> sh_gate sw) (dot r <$> sh_up sw)) <$> x) (sh_down sw) None.

Lemma shared_out {S} n m i sw (st : S) : i < n -> SharedOk n m sw ->
  shared_mlp x (shared_part n i sw).1 (shared_part n i sw).2 st =
  (inr (linear (shard n i <$> ((fun r => gated (dot r <$> sh_gate sw) (dot r <$> sh_up sw)) <$> x))
     ((fun v => shard n i v) <$> sh_down sw) None), st).
Proof using Hx.
  clear -Hx. intros Hi [[LG WG] [LU WU] [LD WD]]. unfold shared_mlp, shared_part. cbn [fst snd]. unfold bind.
  assert (Lg : length (shard n i (sh_gate sw)) = m) by by apply shard_length.
  assert (Lu : length (shard n i (sh_up sw)) = m) by by apply shard_length.
  rewrite (linear_eq _ _ _ d); [|done|apply Forall_app; split; by apply wide_shard|done].
  rewrite (silu_rows m); [|apply Forall_fmap, Forall_forall; intros r _; simpl; rewrite length_fmap, length_app; lia].
  unfold ret. do 3 f_equal. rewrite <-!list_fmap_compose. apply list_fmap_ext. intros _ r _. unfold compose. simpl.
  rewrite fmap_app, take_app_length', drop_app_length' by by rewrite length_fmap.
  rewrite gated_shard by (rewrite !length_fmap; lia). by rewrite !shard_fmap.
Qed.

Lemma madd_swap (a b a' b' : mat) : madd (madd a b) (madd a' b') = madd (madd a a') (madd b b').
Proof using.
  clear. unfold madd. revert b a' b'. induction a as [|r a IH]; intros [|s b] [|r' a'] [|s' b']; try done.
  cbn [zip_with]. rewrite IH. f_equal. rewrite !vadd_assoc. f_equal. rewrite <-!vadd_assoc. f_equal. apply vadd_comm.
Qed.

Lemma msum_madd n (a b : nat -> mat) : 0 < n -> msum n (fun i => madd (a i) (b i)) = madd (msum n a) (msum n b).
Proof using.
  clear. revert n. apply ranks_ind; [done|]. intros n Hn IH. rewrite !msum_S, IH by done. apply madd_swap.
Qed.

Lemma msum_ext n (a b : nat -> mat) : 0 < n -> (forall i, i < n -> a i = b i) -> msum n a = msum n b.
Proof using.
  clear. intros Hn He. unfold msum. rewrite He by lia. f_equal. apply list_fmap_ext.
  intros _ i Hi%list_elem_of_lookup_2%elem_of_seq. apply He. lia.
Qed.

(** The whole layer, the shared experts included. *)
Definition moe_whole (sw : option SharedWeights) : mat :=
  match sw with None => routed_whole | Some sw => madd routed_whole (shared_whole sw) end.

Lemma part_out {S} ep n i (st : S) : i < n -> inter mod n = 0 -> (ep = true -> n <= experts) -> exists out,
  (forall S' (st' : S'), torch_experts x (as_mat <$> moe_gate_up (moe_part experts K d inter ck ep n i))
    (as_mat <$> moe_down (moe_part experts K d inter ck ep n i)) K wts ids
    (expert_map (moe_part experts K d inter ck ep n i)) st' = (inr (rank_out out), st')) /\
  out = if ep && (1 <? n) then own_pair n i else slice_pair n i (inter / n).
Proof using All.
  intros Hi Hd Hep. assert (Hm : inter = n * (inter / n)) by (apply Nat.Div0.div_exact; done).
  eexists. split; [|reflexivity]. intros S' st'. unfold moe_part. destruct (ep && (1 <? n)) eqn:Hb.
  - apply own_out; [done|]. apply Hep. by apply andb_true_iff in Hb as [-> _].
  - by apply slices_out.
Qed.

Lemma moe_spmd ep n sw ms Q : 0 < n -> inter mod n = 0 -> (ep = true -> n <= experts) -> (forall w, sw = Some w -> SharedOk n ms w) ->
  Q (fun _ => moe_whole sw) ->
  spmd n (fun i => FusedMoE_forward (moe_part experts K d inter ck ep n i) x wts ids (shared_part n i <$> sw)) Q.
Proof using All.
  intros Hn Hd Hep Hsw HQ. assert (Hm : inter = n * (inter / n)) by (apply Nat.Div0.div_exact; done).
  set (out i := if ep && (1 <? n) then own_pair n i else slice_pair n i (inter / n)).
  set (sh i w := linear (shard n i <$> ((fun r => gated (dot r <$> sh_gate w) (dot r <$> sh_up w)) <$> x))
     ((fun v => shard n i v) <$> sh_down w) None).
  set (res i := match sw with None => rank_out (out i) | Some w => madd (rank_out (out i)) (sh i w) end).
  assert (Hsum : msum n res = moe_whole sw).
  { assert (Ho : msum n (fun i => rank_out (out i)) = routed_whole).
    { apply rank_outs_sum; [done|]. intros p Hp. unfold out. destruct (ep && (1 <? n)); [by apply own_pair_sum|by apply slice_pair_sum]. }
    unfold res, moe_whole. destruct sw as [w|]; [|done]. rewrite msum_madd, Ho by done. f_equal.
    destruct (Hsw w eq_refl) as [[LG WG] [LU WU] [LD WD]].
    transitivity (msum n (fun i => linear (shard n i <$> ((fun r => gated (dot r <$> sh_gate w) (dot r <$> sh_up w)) <$> x))
      (shard n i <$> sh_down w) (if i =? 0 then None else None))).
    { apply msum_ext; [done|]. intros i _. unfold sh. by destruct (i =? 0). }
    apply (row_parallel_sum n ms); [done| |done|done].
    apply Forall_fmap, Forall_forall. intros r _. simpl. unfold gated, vmul. rewrite length_zip_with, !length_fmap. lia. }
  unfold FusedMoE_forward. apply spmd_bind.
  apply spmd_ext with (fun i => Done (res i)).
  { intros i Hi. unfold run_local, moe_experts, bind.
    destruct (part_out ep n i tt Hi Hd Hep) as (o & Ho & Heq).
    replace (Moe.top_k (moe_part experts K d inter ck ep n i)) with K by (unfold moe_part; by destruct (ep && (1 <? n))).
    rewrite Ho. unfold res, out. rewrite Heq. destruct sw as [w|]; [|done]. cbn [fmap option_fmap option_map].
    pose proof (shared_out n ms i w tt Hi (Hsw w eq_refl)) as Hs. destruct (shared_part n i w) as [gu dn].
    cbn [fst snd] in Hs. rewrite Hs. done. }
  apply spmd_ret; [done|].
  assert (Hmeet : forall i, i < n ->
    ((1 <? moe_tp_size (moe_part experts K d inter ck ep n i)) || (1 <? Moe.ep_size (moe_part experts K d inter ck ep n i))) = (1 <? n)).
  { intros i Hi. unfold moe_part. destruct ep; cbn [andb]; destruct (1 <? n) eqn:H1;
      cbn [moe_slice moe_tp_size Moe.ep_size]; rewrite ?H1; done. }
  destruct (1 <? n) eqn:H1.
  - apply spmd_ext with (fun i => all_reduce (res i)); [intros i Hi; by rewrite Hmeet|]. apply spmd_reduce; [done|]. by rewrite Hsum.
  - apply Nat.ltb_ge in H1. assert (n = 1) as -> by lia.
    eapply spmd_ext; [|apply (spmd_ret 1 (fun _ => moe_whole sw)); [done|exact HQ]].
    intros i Hi. rewrite Hmeet by done. assert (i = 0) as -> by lia. f_equal. exact Hsum.
Qed.

End Sum.

Arguments SharedWeights : clear implicits.
