(* ===== verification/AttentionFacts.v ===== *)
(** * A step of a paged attention layer

    Over any backend that keeps its promises, a layer stores the step's keys
    where the slots say and gives every row causal attention over all of its
    own keys, the earlier steps' among them; the caches then hold the row's
    keys for the next step. *)

From S2P Require Import Prelude Arrays AttnContext Tensors Attention.

Lemma table_slot_size {E E'} (c : Pages E) (c' : Pages E') t p : pg_size c = pg_size c' -> table_slot c t p = table_slot c' t p.
Proof. unfold table_slot. by intros ->. Qed.

Lemma table_slot_nonneg {E} (c : Pages E) t p s : table_slot c t p = Some s -> (0 <= s)%Z.
Proof. unfold table_slot. destruct (t !! _) as [b|]; [|done]. simpl. destruct (Z.leb_spec 0 b); [|done]. intros [= <-]. lia. Qed.

Lemma table_slot_bound {E} (c : Pages E) t p s : 0 < pg_size c -> Forall (fun b => (b < Z.of_nat (length (pg_blocks c)))%Z) t ->
  table_slot c t p = Some s -> (s < Z.of_nat (numel c))%Z.
Proof.
  intros Hb Ht. unfold table_slot, numel. destruct (t !! (p / pg_size c)) as [b|] eqn:Hp; [|done]. simpl.
  destruct (Z.leb_spec 0 b); [|done]. intros [= <-]. pose proof (Forall_lookup_1 _ _ _ _ Ht Hp) as Hlt. simpl in Hlt.
  pose proof (Nat.mod_upper_bound p (pg_size c)). nia.
Qed.

(** ** New entries in slots of their own

    Rows of any kind, each with a block table, some old entries and some new ones. *)

Section Placed.
Context {X E : Type}.
Variable table : X -> list Z.
Variable old new : X -> nat.
Variable c : Pages E.
Variable rows : list X.

(** The slots of a row's new entries. *)
Definition slots_of (r : X) : list Z := (fun p => default 0%Z (table_slot c (table r) p)) <$> seq (old r) (new r).

(** Every entry has a slot, the new ones no other's. *)
Record Placed : Prop := {
  pc_mapped r p : r ∈ rows -> p < old r + new r -> is_Some (table_slot c (table r) p);
  pc_private : NoDup (concat (slots_of <$> rows));
  pc_apart r p s : r ∈ rows -> p < old r -> table_slot c (table r) p = Some s -> s ∉ concat (slots_of <$> rows)
}.
Hypothesis Hpl : Placed.

(** Where a row's new entries are in the step's tensors. *)
Lemma new_place {A} (f : X -> list A) r j e : r ∈ rows -> (forall r, r ∈ rows -> length (f r) = new r) ->
  f r !! j = Some e -> exists i s, concat (slots_of <$> rows) !! i = Some s /\ concat (f <$> rows) !! i = Some e /\
    table_slot c (table r) (old r + j) = Some s.
Proof using Hpl.
  intros [k Hk]%list_elem_of_lookup Hf Hj. pose proof (list_elem_of_lookup_2 _ _ _ Hk) as Hr.
  assert (Hjl : j < new r) by (rewrite <-Hf by done; by eapply lookup_lt_Some).
  destruct (pc_mapped Hpl r (old r + j) Hr) as [s Hs]; [lia|].
  exists (Z.to_nat (Zsum (Zlen <$> take k (f <$> rows))) + j), s.
  assert (Hlens : Zlen <$> take k (f <$> rows) = Zlen <$> take k (slots_of <$> rows)).
  { rewrite <-!fmap_take, <-!list_fmap_compose. apply list_fmap_ext. intros i r' Hr'. unfold compose, Zlen, slots_of.
    rewrite length_fmap, length_seq, Hf; [done|]. apply lookup_take_Some in Hr' as [Hr' _]. by apply list_elem_of_lookup_2 in Hr'. }
  split_and!; [|by apply concat_lookup with (f r); [rewrite list_lookup_fmap, Hk|]|done].
  rewrite Hlens. apply concat_lookup with (slots_of r); [by rewrite list_lookup_fmap, Hk|].
  unfold slots_of. rewrite list_lookup_fmap, lookup_seq_lt by done. simpl. by rewrite Hs.
Qed.

(** After the new entries are stored, the cache holds the rows'. *)
Lemma stored_held {A} (cache cache' : Pages A) (f : X -> list A) : pg_size cache = pg_size c ->
  (forall r, r ∈ rows -> length (f r) = old r + new r) ->
  (forall r, r ∈ rows -> Holds cache (table r) (take (old r) (f r))) ->
  Stored cache (concat (slots_of <$> rows)) (concat ((fun r => drop (old r) (f r)) <$> rows)) cache' ->
  forall r, r ∈ rows -> Holds cache' (table r) (f r).
Proof using Hpl.
  intros Hsz Hf Hold [Hsize Hbl Hnew Hkeep] r Hr p e He.
  pose proof (lookup_lt_Some _ _ _ He) as Hlt. rewrite Hf in Hlt by done.
  assert (Hslot : forall q, table_slot cache (table r) q = table_slot c (table r) q) by (intros q; unfold table_slot; by rewrite Hsz).
  assert (Hslot' : forall q, table_slot cache' (table r) q = table_slot c (table r) q) by (intros q; unfold table_slot; by rewrite Hsize, Hsz).
  destruct (decide (p < old r)) as [Hp|Hp].
  - destruct (Hold r Hr p e) as (s & Hs & Hse); [by rewrite lookup_take_lt|]. exists s.
    rewrite Hslot'. rewrite Hslot in Hs. split; [done|]. rewrite Hkeep; [done| |by apply (pc_apart Hpl r p)].
    by eapply table_slot_nonneg.
  - destruct (new_place (fun r => drop (old r) (f r)) r (p - old r) e Hr) as (i & s & Hi & Hie & Hs).
    + intros r' Hr'. rewrite length_drop, Hf by done. lia.
    + rewrite lookup_drop. by replace (old r + (p - old r)) with p by lia.
    + replace (old r + (p - old r)) with p in Hs by lia. exists s. split; [by rewrite Hslot'|by apply (Hnew i)].
Qed.

Lemma slots_in_range : 0 < pg_size c -> (forall r, r ∈ rows -> Forall (fun b => (b < Z.of_nat (length (pg_blocks c)))%Z) (table r)) ->
  Forall (fun s => 0 <= s < Z.of_nat (numel c))%Z (concat (slots_of <$> rows)).
Proof using Hpl.
  intros Hb Hids. apply Forall_forall. intros s Hs. apply list_elem_of_In, in_concat in Hs as (l & Hl%list_elem_of_In & Hs%list_elem_of_In).
  apply list_elem_of_fmap in Hl as (r & -> & Hr). apply list_elem_of_fmap in Hs as (p & -> & Hp%elem_of_seq).
  destruct (pc_mapped Hpl r p Hr) as [s Hs]; [lia|]. rewrite Hs. simpl.
  split; [by eapply table_slot_nonneg|]. by eapply table_slot_bound; [|apply Hids|exact Hs].
Qed.

Lemma slots_length {A} (f : X -> list A) : (forall r, r ∈ rows -> length (f r) = new r) ->
  length (concat (f <$> rows)) = length (concat (slots_of <$> rows)).
Proof using.
  clear Hpl. intros Hf. induction rows as [|r l IH]; [done|]. rewrite !fmap_cons. cbn [concat]. rewrite !length_app, IH.
  - unfold slots_of. rewrite length_fmap, length_seq, Hf; [done|constructor].
  - intros r' Hr'. apply Hf. by constructor.
Qed.

End Placed.

(** Rows made of others, with their tables and counts. *)
Lemma slots_map {X Y E} (f : X -> Y) table old new table' old' new' (c : Pages E) (l : list X) :
  (forall x, x ∈ l -> table' (f x) = table x /\ old' (f x) = old x /\ new' (f x) = new x) ->
  slots_of table' old' new' c <$> (f <$> l) = slots_of table old new c <$> l.
Proof.
  intros Hf. rewrite <-list_fmap_compose. apply list_fmap_ext. intros i x Hx%list_elem_of_lookup_2.
  destruct (Hf x Hx) as (H1 & H2 & H3). unfold compose, slots_of. by rewrite H1, H2, H3.
Qed.

Lemma placed_map {X Y E} (f : X -> Y) table old new table' old' new' (c : Pages E) (l : list X) :
  (forall x, x ∈ l -> table' (f x) = table x /\ old' (f x) = old x /\ new' (f x) = new x) ->
  Placed table old new c l -> Placed table' old' new' c (f <$> l).
Proof.
  intros Hf [Hm Hp Ha]. pose proof (slots_map f table old new table' old' new' c l Hf) as Hs.
  split; rewrite ?Hs; [|done|]; intros y p.
  - intros (x & -> & Hx)%list_elem_of_fmap Hlt. destruct (Hf x Hx) as (-> & H2 & H3). apply Hm; [done|lia].
  - intros s (x & -> & Hx)%list_elem_of_fmap Hlt Hsl. destruct (Hf x Hx) as (H1 & H2 & _). rewrite H1 in Hsl.
    apply (Ha x p); [done|lia|done].
Qed.

Section Step.
Context {F : Type} `{!Scalar F} `{!Softmax F} `{B : !AttentionBackend F}.
Local Abbreviation mat := (list (list F)).
Variable scale : F.
Variable nh nkv d : nat.
Context `{!BackendOk scale nh nkv d}.
Local Abbreviation output := (row_output scale (nh / nkv)).

(** The part of a row's entries that the step adds. *)
Definition num_old (r : AttnRow F) : nat := length (ar_keys r) - length (ar_q r).
Definition new_keys (r : AttnRow F) : list mat := drop (num_old r) (ar_keys r).
Definition new_values (r : AttnRow F) : list mat := drop (num_old r) (ar_values r).
Definition new_slots {E} (c : Pages E) (r : AttnRow F) : list Z :=
  (fun p => default 0%Z (table_slot c (ar_table r) p)) <$> seq (num_old r) (length (ar_q r)).

(** A step: rows whose earlier keys the caches hold, with slots of their own for the new ones. *)
Record StepOk (c : Caches F) (context : Fields) (rows : list (AttnRow F)) (k_lens : list Z) : Prop := {
  st_rows : Forall (AttnRowOk nh nkv d) rows;
  st_some : rows <> [];
  st_caches : CachesOk nkv d c;
  st_context : ContextOk (k_cache c) context rows k_lens;
  st_one : cx_is_prefill context = false -> Forall (fun r => length (ar_q r) = 1) rows;
  st_slots : cx_slot_mapping context = Some (concat (new_slots (k_cache c) <$> rows));
  st_mapped r p : r ∈ rows -> p < length (ar_keys r) -> is_Some (table_slot (k_cache c) (ar_table r) p);
  st_private : NoDup (concat (new_slots (k_cache c) <$> rows));
  st_apart r p s : r ∈ rows -> p < num_old r -> table_slot (k_cache c) (ar_table r) p = Some s ->
    s ∉ concat (new_slots (k_cache c) <$> rows);
  st_held : Forall (fun r => Holds (k_cache c) (ar_table r) (take (num_old r) (ar_keys r)) /\
                             Holds (v_cache c) (ar_table r) (take (num_old r) (ar_values r))) rows
}.

Lemma new_slots_length {E} (c : Pages E) r : length (new_slots c r) = length (ar_q r).
Proof using. clear. unfold new_slots. by rewrite length_fmap, length_seq. Qed.

Section Given.
Variable c : Caches F.
Variable rows : list (AttnRow F).
Variable k_lens : list Z.
Variable context : Fields.
Hypothesis Hst : StepOk c context rows k_lens.

Lemma row_old r : r ∈ rows -> num_old r + length (ar_q r) = length (ar_keys r).
Proof using Hst.
  intros Hr. pose proof (st_rows _ _ _ _ Hst) as Hrs. rewrite Forall_forall in Hrs. unfold num_old.
  destruct (aro_len _ _ _ _ (Hrs r Hr)). lia.
Qed.

Lemma step_placed : Placed ar_table num_old (fun r => length (ar_q r)) (k_cache c) rows.
Proof using Hst.
  split; [|exact (st_private _ _ _ _ Hst)|exact (st_apart _ _ _ _ Hst)].
  intros r p Hr Hp. apply (st_mapped _ _ _ _ Hst); [done|]. by rewrite <-row_old.
Qed.

(** The rows' caches have blocks. *)
Lemma caches_filled : numel (k_cache c) <> 0 /\ numel (v_cache c) <> 0.
Proof using Hst.
  destruct (st_caches _ _ _ _ Hst) as [[Hk _] _ Hs Hb]. unfold numel. rewrite Hs, Hb.
  destruct rows as [|r rows'] eqn:Hr; [by destruct (st_some _ _ _ _ Hst)|]. rewrite <-Hr in *.
  assert (Hin : r ∈ rows) by (rewrite Hr; constructor).
  pose proof (st_rows _ _ _ _ Hst) as Hrs. rewrite Forall_forall in Hrs. destruct (aro_len _ _ _ _ (Hrs r Hin)) as [H1 H2].
  destruct (st_mapped _ _ _ _ Hst r 0 Hin) as [s Hs0]; [lia|].
  pose proof (table_slot_nonneg _ _ _ _ Hs0) as H0.
  pose proof (cr_ids _ _ _ _ (st_context _ _ _ _ Hst)) as Hids. rewrite Forall_forall in Hids.
  pose proof (table_slot_bound (k_cache c) _ _ _ Hk (Hids r Hin) Hs0) as H3. unfold numel in H3. lia.
Qed.

Lemma store_spec :
  wp (store_kvcache (concat (new_keys <$> rows)) (concat (new_values <$> rows)) (concat (new_slots (k_cache c) <$> rows))) c
    (fun _ c' => CachesOk nkv d c' /\ RowsHeld c' rows /\
      Stored (k_cache c) (concat (new_slots (k_cache c) <$> rows)) (concat (new_keys <$> rows)) (k_cache c') /\
      Stored (v_cache c) (concat (new_slots (k_cache c) <$> rows)) (concat (new_values <$> rows)) (v_cache c')).
Proof using Hst BackendOk0.
  pose proof (st_rows _ _ _ _ Hst) as Hrs. rewrite Forall_forall in Hrs.
  pose proof (st_held _ _ _ _ Hst) as Hh. rewrite Forall_forall in Hh.
  assert (Hnk : forall r, r ∈ rows -> length (new_keys r) = length (ar_q r)).
  { intros r Hr. unfold new_keys. rewrite length_drop. pose proof (row_old r Hr). lia. }
  assert (Hnv : forall r, r ∈ rows -> length (new_values r) = length (ar_q r)).
  { intros r Hr. unfold new_values. rewrite length_drop, (aro_kv _ _ _ _ (Hrs r Hr)). pose proof (row_old r Hr). lia. }
  assert (Hshape : forall (f : AttnRow F -> list mat), (forall r, r ∈ rows -> Shaped nkv d (f r)) -> Shaped nkv d (concat (f <$> rows))).
  { intros f Hf. apply Forall_concat, Forall_fmap, Forall_forall. exact Hf. }
  wp_call (store_ok (scale := scale) (nh := nh) (nkv := nkv) (d := d)).
  - apply (st_caches _ _ _ _ Hst).
  - apply Hshape. intros r Hr. apply Forall_drop, (aro_keys _ _ _ _ (Hrs r Hr)).
  - apply Hshape. intros r Hr. apply Forall_drop, (aro_values _ _ _ _ (Hrs r Hr)).
  - by apply (slots_length ar_table num_old (fun r => length (ar_q r)) (k_cache c)).
  - by apply (slots_length ar_table num_old (fun r => length (ar_q r)) (k_cache c)).
  - apply (st_private _ _ _ _ Hst).
  - apply (slots_in_range _ _ _ _ _ step_placed); [apply (st_caches _ _ _ _ Hst)|].
    pose proof (cr_ids _ _ _ _ (st_context _ _ _ _ Hst)) as Hids. by rewrite Forall_forall in Hids.
  - intros _ c' (Hc' & Hk & Hv). split_and!; [done| |done|done]. apply Forall_forall. intros r Hr. split.
    + apply (stored_held _ _ _ _ _ step_placed (k_cache c) (k_cache c') ar_keys); [done| | |done|done]; intros r' Hr'.
      * symmetry. by apply row_old.
      * by apply Hh.
    + apply (stored_held _ _ _ _ _ step_placed (v_cache c) (v_cache c') ar_values); [by destruct (st_caches _ _ _ _ Hst)| | |done|done]; intros r' Hr'.
      * rewrite (aro_kv _ _ _ _ (Hrs r' Hr')). symmetry. by apply row_old.
      * by apply Hh.
Qed.

End Given.

(** ** The split *)

Lemma ContextOk_part {E} (c : Pages E) context part (rows rows' : list (AttnRow F)) k_lens k_lens' : ContextOk c context rows k_lens ->
  BatchContext part (Zlen <$> (ar_q <$> rows')) k_lens' (Zlen <$> (ar_keys <$> rows')) (ar_table <$> rows') ->
  (forall r, r ∈ rows' -> r ∈ rows) -> Forall2 (fun r n => (Zlen (ar_keys r) <= n)%Z) rows' k_lens' ->
  (forall n, n ∈ k_lens' -> n ∈ k_lens) -> ContextOk c part rows' k_lens'.
Proof using.
  clear. intros [_ _ Hids (w & Hw & Hm)] Hb Hr Hbound Hk. rewrite Forall_forall in Hids. rewrite Forall_forall in Hw.
  rewrite Forall_forall in Hm. split; [done|done| |].
  - apply Forall_forall. intros r Hin. by apply Hids, Hr.
  - exists w. split; apply Forall_forall; intros y Hy; [by apply Hw, Hr|by apply Hm, Hk].
Qed.

Lemma concat_singles (rows : list (AttnRow F)) : Forall (fun r => length (ar_q r) = 1) rows -> length (concat (ar_q <$> rows)) = length rows.
Proof using. clear. induction 1 as [|r rows Hr _ IH]; [done|]. rewrite fmap_cons. cbn [concat]. rewrite length_app, IH, Hr. done. Qed.

Lemma forward_spec (rows : list (AttnRow F)) k v (c : Caches F) x k_lens :
  let lens := Zlen <$> (ar_q <$> rows) in let dev := Zlen <$> (ar_keys <$> rows) in
  Forall (AttnRowOk nh nkv d) rows -> rows <> [] -> CachesOk nkv d c -> ContextOk (k_cache c) (cx_fields x) rows k_lens ->
  RowsHeld c rows -> (cx_is_prefill (cx_fields x) = false -> Forall (fun r => length (ar_q r) = 1) rows) ->
  Cached lens k_lens dev (ar_table <$> rows) x ->
  wp (backend_forward (concat (ar_q <$> rows)) k v c (cx_fields x)) x (fun o x' => o = concat (output <$> rows) /\
    cx_fields x' = cx_fields x /\ Cached lens k_lens dev (ar_table <$> rows) x').
Proof using BackendOk0.
  intros lens dev Hrows Hne Hc Hctx Hheld Hone Hcached. unfold backend_forward.
  assert (Hwhole : forall x' (k v : list mat), cx_fields x' = cx_fields x -> Cached lens k_lens dev (ar_table <$> rows) x' ->
    wp (prefill (concat (ar_q <$> rows)) k v c (cx_fields x)) x' (fun o x' => o = concat (output <$> rows) /\
      cx_fields x' = cx_fields x /\ Cached lens k_lens dev (ar_table <$> rows) x')).
  { intros x' k' v' Hx' Hc'. wp_call (prefill_ok (scale := scale) (nh := nh) (nkv := nkv) (d := d) rows k' v' c (cx_fields x) k_lens); try done.
    by intros o x'' [-> ->]. }
  destruct (cx_is_prefill (cx_fields x)) eqn:Hp; cbn [negb].
  2: { wp_call (decode_ok (scale := scale) (nh := nh) (nkv := nkv) (d := d) rows c (cx_fields x) k_lens); try done; [by apply Hone|].
    by intros o x' [-> ->]. }
  destruct split_decodes; cbn [negb]; [|by apply Hwhole].
  wp_step. wp_call (split_spec 1 lens k_lens dev (ar_table <$> rows)); [apply Hctx|done|].
  intros s x' (Hs & Hf & Hc' & _). destruct Hs as (Hn0 & Hn & Hall & Hnext & Hdec & Hpre).
  set (n := Z.to_nat (sp_rows s)) in *. unfold lens in Hn. rewrite !length_fmap in Hn.
  destruct (sp_decodes s) as [dc|].
  2: { rewrite Hdec in Hpre. destruct (sp_prefills s) as [| |pc]; [|by apply Hwhole|lia].
    unfold lens in Hpre. rewrite !length_fmap in Hpre. by destruct rows. }
  destruct Hdec as (Hpos & _ & Hd). set (ds := take n rows). set (ps := drop n rows).
  assert (Hsplit : rows = ds ++ ps) by (unfold ds, ps; by rewrite take_drop).
  assert (Hone_ds : Forall (fun r => length (ar_q r) = 1) ds).
  { unfold lens in Hall. rewrite <-!fmap_take in Hall. rewrite !Forall_fmap in Hall. eapply Forall_impl; [exact Hall|].
    intros r Hr. unfold compose, Zlen in Hr. lia. }
  assert (Hq : py_upto (concat (ar_q <$> rows)) (sp_rows s) = concat (ar_q <$> ds) /\
    py_from (concat (ar_q <$> rows)) (sp_rows s) = concat (ar_q <$> ps)).
  { assert (Hl : length (concat (ar_q <$> ds)) = n) by (rewrite concat_singles by done; unfold ds; rewrite length_take; lia).
    assert (Hpos' : py_pos (concat (ar_q <$> rows)) (sp_rows s) = n).
    { unfold py_pos. destruct (Z.ltb_spec (sp_rows s) 0); [lia|]. rewrite Hsplit, fmap_app, concat_app, length_app. lia. }
    unfold py_upto, py_from. rewrite Hpos'. rewrite Hsplit, fmap_app, concat_app. split.
    - by rewrite take_app_length'.
    - by rewrite drop_app_length'. }
  destruct Hq as [Hq1 Hq2]. rewrite Hq1, Hq2.
  assert (Hin : forall r, r ∈ ds \/ r ∈ ps -> r ∈ rows) by (intros r Hr; rewrite Hsplit; by apply elem_of_app).
  assert (Hbound := cr_bound _ _ _ _ Hctx).
  assert (Hrun : forall x', wp (decode (concat (ar_q <$> ds)) c dc) x' (fun o x'' => x'' = x' /\ o = concat (output <$> ds))).
  { intros x0. unfold lens, dev in Hd. rewrite <-!fmap_take in Hd.
    apply (decode_ok (scale := scale) (nh := nh) (nkv := nkv) (d := d) ds c dc (take n k_lens)).
    - rewrite Hsplit in Hrows. by apply Forall_app in Hrows as [? _].
    - intros He. apply (f_equal length) in He. unfold ds in He. rewrite length_take in He. simpl in He. lia.
    - done.
    - apply (ContextOk_part _ (cx_fields x) _ rows _ k_lens); [done|done|auto|by apply Forall2_take|].
      intros m [j Hj]%list_elem_of_lookup. apply lookup_take_Some in Hj as [Hj _]. by apply list_elem_of_lookup_2 in Hj.
    - unfold RowsHeld in Hheld. rewrite Hsplit in Hheld. by apply Forall_app in Hheld as [? _].
    - done. }
  destruct (sp_prefills s) as [| |pc].
  - assert (ds = rows) as Hds.
    { unfold ds. apply take_ge. unfold lens in Hpre. rewrite !length_fmap in Hpre. lia. }
    rewrite <-Hds. eapply wp_mono; [apply Hrun|]. intros o x'' [-> ->]. by rewrite Hds.
  - lia.
  - destruct Hpre as ([_ Hlt] & _ & Hpb). unfold lens in Hlt. rewrite !length_fmap in Hlt.
    wp_step. eapply wp_mono; [apply Hrun|]. intros o x'' [-> ->]. wp_step.
    wp_call (prefill_ok (scale := scale) (nh := nh) (nkv := nkv) (d := d) ps _ _ c pc (drop n k_lens)).
    + rewrite Hsplit in Hrows. by apply Forall_app in Hrows as [_ ?].
    + intros He. apply (f_equal length) in He. unfold ps in He. rewrite length_drop in He. simpl in He. lia.
    + done.
    + unfold lens, dev in Hpb. rewrite <-!fmap_drop in Hpb.
      apply (ContextOk_part _ (cx_fields x) _ rows _ k_lens); [done|done|auto|by apply Forall2_drop|].
      intros m [j Hj]%list_elem_of_lookup. rewrite lookup_drop in Hj. by apply list_elem_of_lookup_2 in Hj.
    + unfold RowsHeld in Hheld. rewrite Hsplit in Hheld. by apply Forall_app in Hheld as [_ ?].
    + intros o x'' [-> ->]. apply wp_ret. split; [|done]. by rewrite Hsplit, fmap_app, concat_app.
Qed.

(** ** The layer *)

(** A step of the layer: every row's attention, and its keys in the caches. *)
Lemma attend_spec (rows : list (AttnRow F)) (c : Caches F) x k_lens :
  let lens := Zlen <$> (ar_q <$> rows) in let dev := Zlen <$> (ar_keys <$> rows) in
  StepOk c (cx_fields x) rows k_lens -> Cached lens k_lens dev (ar_table <$> rows) x ->
  wp (attend (concat (ar_q <$> rows)) (concat (new_keys <$> rows)) (concat (new_values <$> rows))) (c, x) (fun o s =>
    o = concat (output <$> rows) /\ cx_fields s.2 = cx_fields x /\ Cached lens k_lens dev (ar_table <$> rows) s.2 /\
    CachesOk nkv d s.1 /\ RowsHeld s.1 rows /\
    Stored (k_cache c) (concat (new_slots (k_cache c) <$> rows)) (concat (new_keys <$> rows)) (k_cache s.1) /\
    Stored (v_cache c) (concat (new_slots (k_cache c) <$> rows)) (concat (new_values <$> rows)) (v_cache s.1)).
Proof using BackendOk0.
  intros lens dev Hst Hcached. unfold attend. wp_steps. unfold id. cbn [fst snd].
  destruct (caches_filled c rows k_lens _ Hst) as [Hk Hv].
  rewrite (proj2 (Nat.eqb_neq _ _) Hk), (proj2 (Nat.eqb_neq _ _) Hv). cbn [negb andb].
  rewrite (st_slots _ _ _ _ Hst). cbn [or_raise].
  wp_steps.
  eapply wp_mono; [by apply (store_spec c rows k_lens (cx_fields x))|]. intros _ c' (Hc' & Hheld & Hk' & Hv'). wp_steps.
  unfold id. cbn [fst snd]. eapply wp_mono.
  - apply (forward_spec rows _ _ c' x k_lens); [apply (st_rows _ _ _ _ Hst)|apply (st_some _ _ _ _ Hst)|done| |done|
      apply (st_one _ _ _ _ Hst)|done].
    destruct (st_context _ _ _ _ Hst) as [H1 H2 H3 H4]. split; [done|done| |].
    + by rewrite (sd_blocks _ _ _ _ Hk').
    + by rewrite (sd_size _ _ _ _ Hk').
  - intros o x' (-> & Hf & Hcc). cbn [fst snd]. by split_and!.
Qed.

End Step.
