(* ===== verification/MLAFacts.v ===== *)
(** * The algebra of latent attention

    Attention over two key sets merges from each one's output and log-sum-exp;
    and a query moved into the latents' space attends there as it does over
    the expanded keys. *)


From S2P Require Import Prelude Arrays AttnContext Tensors Ranks Attention MLA.

Lemma imap_imap {A B C} (f : nat -> B -> C) (g : nat -> A -> B) (l : list A) : imap f (imap g l) = imap (fun i x => f i (g i x)) l.
Proof. apply list_eq. intros i. rewrite !list_lookup_imap. by destruct (l !! i). Qed.

Section Sums.
Context {F : Type} `{!Scalar F}.
Local Abbreviation mat := (list (list F)).

Add Ring scalar : scalar_ring.

Definition scale_by (a : F) (r : list F) : list F := fmul a <$> r.

(** The sum of vectors of [e] entries. *)
Definition vsum0 (e : nat) (l : mat) : list F := foldr vadd (replicate e fzero) l.

Lemma vadd_length (x y : list F) e : length x = e -> length y = e -> length (vadd x y) = e.
Proof. intros Hx Hy. unfold vadd. rewrite length_zip_with. lia. Qed.

Lemma vsum0_length e (l : mat) : wide e l -> length (vsum0 e l) = e.
Proof. induction 1 as [|r l Hr _ IH]; [apply length_replicate|]. by apply vadd_length. Qed.

Lemma vsum0_app e (l k : mat) : wide e l -> wide e k -> vsum0 e (l ++ k) = vadd (vsum0 e l) (vsum0 e k).
Proof.
  intros Hl Hk. induction Hl as [|r l Hr Hl IH].
  - simpl. symmetry. by apply vadd_zeros, vsum0_length.
  - simpl. unfold vsum0 in IH |- *. rewrite IH. apply vadd_assoc.
Qed.

Lemma vsum_vsum0 e (l : mat) : wide e l -> l <> [] -> vsum l = vsum0 e l.
Proof.
  intros Hl Hne. destruct Hl as [|r l Hr Hl]; [done|]. simpl. clear Hne. revert r Hr.
  induction Hl as [|x l Hx Hl IH]; intros r Hr; simpl; [symmetry; by apply vadd_zeros|].
  rewrite IH by by apply vadd_length. symmetry. apply vadd_assoc.
Qed.

Lemma scale_by_vadd a (x y : list F) : scale_by a (vadd x y) = vadd (scale_by a x) (scale_by a y).
Proof.
  unfold scale_by, vadd. revert y. induction x as [|b x IH]; intros [|c y]; try done.
  cbn [zip_with]. rewrite !fmap_cons. cbn [zip_with]. rewrite IH. f_equal. ring.
Qed.

Lemma scale_by_length a (x : list F) : length (scale_by a x) = length x.
Proof. apply length_fmap. Qed.

Lemma scale_by_zeros a n : scale_by a (replicate n fzero) = replicate n fzero.
Proof. unfold scale_by. rewrite fmap_replicate. f_equal. ring. Qed.

Lemma scale_by_scale a b (x : list F) : scale_by a (scale_by b x) = scale_by (fmul a b) x.
Proof. unfold scale_by. rewrite <-list_fmap_compose. apply list_fmap_ext. intros _ y _. unfold compose. ring. Qed.

Lemma scale_by_add a b (x : list F) : scale_by (fadd a b) x = vadd (scale_by a x) (scale_by b x).
Proof. unfold scale_by, vadd. induction x as [|y x IH]; [done|]. rewrite !fmap_cons. cbn [zip_with]. rewrite IH. f_equal. ring. Qed.

Lemma scale_by_one (x : list F) : scale_by fone x = x.
Proof. unfold scale_by. rewrite <-(list_fmap_id x) at 2. apply list_fmap_ext. intros _ y _. simpl. ring. Qed.

Lemma scale_by_vsum0 a e (l : mat) : scale_by a (vsum0 e l) = vsum0 e (scale_by a <$> l).
Proof. induction l as [|r l IH]; [apply scale_by_zeros|].
  change (vsum0 e (r :: l)) with (vadd r (vsum0 e l)). by rewrite scale_by_vadd, IH. Qed.

Lemma fsum_map_scale {X} a (f : X -> F) (l : list X) : fsum ((fun x => fmul a (f x)) <$> l) = fmul a (fsum (f <$> l)).
Proof. unfold fsum. induction l as [|x l IH]; [simpl; ring|]. rewrite !fmap_cons. cbn [foldr]. rewrite IH. ring. Qed.

(** ** A vector times a matrix *)

Lemma row_times_length n x (m : mat) : wide n m -> length (row_times n x m) = n.
Proof.
  intros Hm. unfold row_times. revert x. induction Hm as [|r m Hr _ IH]; intros [|a x]; try apply length_replicate.
  cbn [zip_with foldr]. apply vadd_length; [|apply IH]. by rewrite length_fmap.
Qed.

Lemma dot_zeros n (y : list F) : dot (replicate n fzero) y = fzero.
Proof. unfold dot, vmul, fsum. revert y. induction n as [|n IH]; intros [|b y]; try done. simpl. rewrite IH. ring. Qed.

Lemma dot_vadd (x y z : list F) : length x = length y -> dot (vadd x y) z = fadd (dot x z) (dot y z).
Proof.
  unfold dot, vmul, vadd, fsum. revert y z. induction x as [|a x IH]; intros [|b y] z Hl; try done; [simpl; ring|].
  destruct z as [|c z]; [simpl; ring|]. simpl. rewrite IH by (simpl in Hl; lia). ring.
Qed.

Lemma dot_scale a (x y : list F) : dot (scale_by a x) y = fmul a (dot x y).
Proof. unfold dot, vmul, scale_by, fsum. revert y. induction x as [|b x IH]; intros [|c y]; simpl; try ring. rewrite IH. ring. Qed.

Lemma dot_app2 (a b a' b' : list F) : length a = length a' -> dot (a ++ b) (a' ++ b') = fadd (dot a a') (dot b b').
Proof. intros Hl. unfold dot, vmul. by rewrite zip_with_app, fsum_app. Qed.

(** A transpose moves across a product. *)
Lemma dot_row_times n (x y : list F) (m : mat) : wide n m ->
  dot (row_times n x m) y = dot x ((fun r => dot r y) <$> m).
Proof.
  unfold row_times. intros Hm. revert x. induction Hm as [|r m Hr Hm IH]; intros [|a x]; try apply dot_zeros.
  cbn [zip_with foldr]. rewrite dot_vadd, IH.
  - change (fmul a <$> r) with (scale_by a r). rewrite dot_scale. rewrite fmap_cons. unfold dot at 3, vmul, fsum. simpl. done.
  - rewrite length_fmap, Hr. symmetry. by apply row_times_length.
Qed.

Lemma row_times_zeros n (m : mat) k : wide n m -> row_times n (replicate k fzero) m = replicate n fzero.
Proof.
  intros Hm. revert k. unfold row_times. induction Hm as [|r m Hr _ IH]; intros [|k]; try done.
  cbn [replicate zip_with foldr]. rewrite IH. change (fmul fzero <$> r) with (scale_by fzero r).
  assert (scale_by fzero r = replicate n fzero) as ->.
  { rewrite <-Hr. unfold scale_by. clear. induction r as [|b r IH]; [done|]. rewrite fmap_cons, IH. simpl. f_equal. ring. }
  apply vadd_zeros, length_replicate.
Qed.

Lemma row_times_scale n a x (m : mat) : row_times n (scale_by a x) m = scale_by a (row_times n x m).
Proof.
  unfold row_times. revert x. induction m as [|r m IH]; intros [|b x]; try (symmetry; apply scale_by_zeros).
  unfold scale_by at 1. rewrite fmap_cons. cbn [zip_with foldr]. fold (scale_by a x). rewrite IH, scale_by_vadd. f_equal.
  unfold scale_by. rewrite <-list_fmap_compose. apply list_fmap_ext. intros _ y _. unfold compose. ring.
Qed.

Lemma vadd_four (a b c d : list F) : vadd (vadd a b) (vadd c d) = vadd (vadd a c) (vadd b d).
Proof. rewrite <-!vadd_assoc. f_equal. rewrite !vadd_assoc. f_equal. apply vadd_comm. Qed.

Lemma row_times_vadd n (x y : list F) (m : mat) : length x = length y ->
  row_times n (vadd x y) m = vadd (row_times n x m) (row_times n y m).
Proof.
  unfold row_times. revert x y. induction m as [|r m IH]; intros x y Hl.
  - destruct x, y; symmetry; apply vadd_zeros, length_replicate.
  - destruct x as [|a x], y as [|b y]; try done; [symmetry; apply vadd_zeros, length_replicate|].
    unfold vadd at 2. cbn [zip_with foldr]. fold (vadd x y). rewrite IH by (simpl in Hl; lia).
    change (fmul (fadd a b) <$> r) with (scale_by (fadd a b) r). rewrite scale_by_add. apply vadd_four.
Qed.

Lemma row_times_vsum0 n k (l : mat) (m : mat) : wide k l -> wide n m ->
  row_times n (vsum0 k l) m = vsum0 n ((fun x => row_times n x m) <$> l).
Proof.
  intros Hl Hm. induction Hl as [|x l Hx Hl IH]; [by apply row_times_zeros|].
  change (vsum0 k (x :: l)) with (vadd x (vsum0 k l)). rewrite row_times_vadd, IH; [done|]. rewrite Hx. symmetry. by apply vsum0_length.
Qed.

End Sums.

(** ** Merging *)

Section Merging.
Context {F : Type} `{!Scalar F} `{!Softmax F} `{!LogSumExp F}.
Local Abbreviation mat := (list (list F)).
Variable scale : F.

Add Ring scalar_merging : scalar_ring.

Definition exp_weight (q : list F) (kv : list F * list F) : F := fexp (fmul (dot q kv.1) scale).
Definition total (q : list F) (kvs : list (list F * list F)) : F := fsum (exp_weight q <$> kvs).
Definition wsum (e : nat) (q : list F) (kvs : list (list F * list F)) : list F :=
  vsum0 e ((fun kv => scale_by (exp_weight q kv) kv.2) <$> kvs).

(** Attention over some keys, which may be none, and its log-sum-exp. *)
Definition part_o (e : nat) (q : list F) (kvs : list (list F * list F)) : list F :=
  match kvs with [] => replicate e fzero | _ => attend_over scale q kvs end.
Definition part_lse (q : list F) (kvs : list (list F * list F)) : Lse F :=
  match kvs with [] => None | _ => Some (flog (total q kvs)) end.

Lemma wide_scaled e q (kvs : list (list F * list F)) : wide e kvs.*2 -> wide e ((fun kv => scale_by (exp_weight q kv) kv.2) <$> kvs).
Proof.
  intros Hw. apply Forall_fmap. apply Forall_fmap in Hw. eapply Forall_impl; [exact Hw|]. intros [k v] Hv. simpl in *.
  by rewrite scale_by_length.
Qed.

Lemma attend_over_eq e q kvs : wide e kvs.*2 -> kvs <> [] -> attend_over scale q kvs = scale_by (finv (total q kvs)) (wsum e q kvs).
Proof.
  intros Hw Hne. unfold attend_over. change (fsum ((fun kv => fexp (fmul (dot q kv.1) scale)) <$> kvs)) with (total q kvs).
  assert (zip_with (fun e v => fmul e <$> v) ((fun kv : list F * list F => fexp (fmul (dot q kv.1) scale)) <$> kvs) kvs.*2 =
    (fun kv => scale_by (exp_weight q kv) kv.2) <$> kvs) as ->.
  { clear. induction kvs as [|kv kvs IH]; [done|]. rewrite !fmap_cons. cbn [zip_with]. by rewrite IH. }
  rewrite (vsum_vsum0 e); [|by apply wide_scaled|by destruct kvs]. unfold scale_by. apply list_fmap_ext. intros _ x _. ring.
Qed.

Lemma weights_total_app q a b : total q (a ++ b) = fadd (total q a) (total q b).
Proof. unfold total. by rewrite fmap_app, fsum_app. Qed.

Lemma wsum_app e q a b : wide e a.*2 -> wide e b.*2 -> wsum e q (a ++ b) = vadd (wsum e q a) (wsum e q b).
Proof. intros Ha Hb. unfold wsum. by rewrite fmap_app, vsum0_app by by apply wide_scaled. Qed.

Lemma wsum_length e q a : wide e a.*2 -> length (wsum e q a) = e.
Proof. intros Ha. by apply vsum0_length, wide_scaled. Qed.

Lemma total_positive q kvs : kvs <> [] -> positive (total q kvs).
Proof.
  intros Hne. destruct kvs as [|kv kvs]; [done|]. clear Hne. unfold total. revert kv.
  induction kvs as [|kv' kvs IH]; intros kv.
  - unfold fsum. simpl. replace (fadd (exp_weight q kv) fzero) with (exp_weight q kv) by ring. apply exp_positive.
  - rewrite fmap_cons. unfold fsum. cbn [foldr]. apply add_positive; [apply exp_positive|apply IH].
Qed.

Lemma part_o_length e q kvs : wide e kvs.*2 -> length (part_o e q kvs) = e.
Proof.
  intros Hw. unfold part_o. destruct kvs as [|kv kvs0] eqn:Hk; [apply length_replicate|]. rewrite <-Hk in *.
  rewrite (attend_over_eq e) by (done || by rewrite Hk). by rewrite scale_by_length, wsum_length.
Qed.

(** ** Exponentials *)

Lemma fexp_zero : fexp fzero = fone.
Proof. replace fzero with (fsub fzero fzero) at 1 by ring. rewrite exp_sub. apply inv_positive, exp_positive. Qed.

Lemma one_positive : positive fone.
Proof. rewrite <-fexp_zero. apply exp_positive. Qed.

(** The sigmoid of a difference of logarithms is the second's share. *)
Lemma sigmoid_share a b : positive a -> positive b ->
  fmul (sigmoid (fsub (flog b) (flog a))) (fadd a b) = b.
Proof.
  intros Ha Hb. unfold sigmoid. replace (fopp (fsub (flog b) (flog a))) with (fsub (flog a) (flog b)) by ring.
  set (r := fexp (fsub (flog a) (flog b))). assert (Hr : r = fmul a (finv b)) by (unfold r; by rewrite exp_sub, !exp_log).
  set (x := fadd fone r). assert (Hx : positive x) by (apply add_positive; [apply one_positive|apply exp_positive]).
  assert (Hab : fadd a b = fmul b x).
  { unfold x. rewrite Hr. pose proof (inv_positive b Hb) as H1.
    transitivity (fadd b (fmul a (fmul b (finv b)))); [rewrite H1; ring|ring]. }
  rewrite Hab. pose proof (inv_positive x Hx) as H2. transitivity (fmul b (fmul x (finv x))); [ring|rewrite H2; ring].
Qed.

Lemma inverse_unique a x : positive a -> fmul x a = fone -> x = finv a.
Proof. intros Ha Hx. pose proof (inv_positive a Ha) as H. transitivity (fmul (fmul x a) (finv a)); [transitivity (fmul x (fmul a (finv a))); [rewrite H; ring|ring]|rewrite Hx; ring]. Qed.

(** Attention over two disjoint key sets: the second's weight is its share of the total. *)
Lemma merge_two e q a b : wide e a.*2 -> wide e b.*2 -> a <> [] -> b <> [] ->
  merge_head (attend_over scale q a) (Some (flog (total q a))) (attend_over scale q b) (Some (flog (total q b))) =
  attend_over scale q (a ++ b).
Proof.
  intros Ha Hb Na Nb. pose proof (total_positive q a Na) as Pa. pose proof (total_positive q b Nb) as Pb.
  assert (Nab : a ++ b <> []) by (destruct a; done).
  rewrite !(attend_over_eq e) by (done || rewrite fmap_app; by apply Forall_app). rewrite wsum_app, weights_total_app by done.
  unfold merge_head, sigmoid_diff. set (w := sigmoid (fsub (flog (total q b)) (flog (total q a)))).
  assert (Hw : fmul w (fadd (total q a) (total q b)) = total q b) by by apply sigmoid_share.
  revert Hw. generalize w. intros w' Hw. clear w. set (i := finv (fadd (total q a) (total q b))).
  assert (Pi : fmul (fadd (total q a) (total q b)) i = fone) by by apply inv_positive, add_positive.
  assert (Hwi : w' = fmul (total q b) i).
  { rewrite <-Hw. transitivity (fmul w' (fmul (fadd (total q a) (total q b)) i)); [rewrite Pi; ring|ring]. }
  pose proof (inv_positive _ Pa) as Ia. pose proof (inv_positive _ Pb) as Ib.
  assert (Hone : fsub fone w' = fmul (total q a) i) by (rewrite Hwi, <-Pi; ring).
  pose proof (wsum_length e q a Ha) as La. pose proof (wsum_length e q b Hb) as Lb.
  revert La Lb. generalize (wsum e q a) as x, (wsum e q b) as y. intros x y Lx Ly. rewrite <-Lx in Ly. clear Lx.
  revert y Ly. induction x as [|x xs IH]; intros [|y ys] Ly; try done. unfold scale_by, vadd.
  rewrite !fmap_cons. cbn [zip_with]. rewrite fmap_cons. f_equal; [|apply IH; simpl in Ly; lia].
  unfold lerp. transitivity (fadd (fmul (fsub fone w') (fmul (finv (total q a)) x)) (fmul w' (fmul (finv (total q b)) y))); [ring|].
  rewrite Hone, Hwi.
  transitivity (fadd (fmul i (fmul (fmul (total q a) (finv (total q a))) x)) (fmul i (fmul (fmul (total q b) (finv (total q b))) y))); [ring|].
  rewrite Ia, Ib. ring.
Qed.

Lemma merge_parts e q a b : wide e a.*2 -> wide e b.*2 -> b <> [] ->
  merge_head (part_o e q a) (part_lse q a) (part_o e q b) (part_lse q b) = part_o e q (a ++ b) /\
  logaddexp (part_lse q a) (part_lse q b) = part_lse q (a ++ b).
Proof.
  intros Ha Hb Nb. destruct b as [|kv b0] eqn:Eb; [done|]. rewrite <-Eb in *.
  assert (Hpo : part_o e q b = attend_over scale q b /\ part_lse q b = Some (flog (total q b))) by by rewrite Eb.
  destruct Hpo as [-> ->]. destruct a as [|kv1 a0] eqn:Ea.
  - simpl. assert (part_o e q b = attend_over scale q b) as -> by by rewrite Eb. split; [|by rewrite Eb].
    pose proof (part_o_length e q b Hb) as Hl. rewrite Eb in Hl. rewrite Eb. simpl in Hl. rewrite <-Hl at 1. unfold merge_head, sigmoid_diff. clear.
    generalize (attend_over scale q (kv :: b0)). intros l. induction l as [|x l IH]; [done|]. simpl. rewrite IH. f_equal. unfold lerp. ring.
  - rewrite <-Ea in *. assert (Na : a <> []) by by rewrite Ea.
    assert (part_o e q a = attend_over scale q a /\ part_lse q a = Some (flog (total q a))) as [-> ->] by by rewrite Ea.
    assert (part_o e q (a ++ b) = attend_over scale q (a ++ b) /\ part_lse q (a ++ b) = Some (flog (total q (a ++ b)))) as [-> ->] by by rewrite Ea.
    split; [by apply (merge_two e)|]. simpl. do 2 f_equal. by rewrite !exp_log, weights_total_app by by apply total_positive.
Qed.

End Merging.

(** ** Queries in the latents' space *)

(** A row of a step: its new tokens' queries, all of its latents, and its block table. *)
Record MLARow (F : Type) := { ml_q : list (list (list F)); ml_latents : list (list F); ml_table : list Z }.
Arguments ml_q {F} _.
Arguments ml_latents {F} _.
Arguments ml_table {F} _.
Arguments Build_MLARow {F} _ _ _.

Section Absorb.
Context {F : Type} `{!Scalar F} `{!Softmax F} `{!LogSumExp F}.
Local Abbreviation mat := (list (list F)).
Variable self : MLAAttention F.
Variable rope : nat.
Local Abbreviation nh := (ma_num_heads self).
Local Abbreviation P := (ma_nope_dim self).
Local Abbreviation L := (ma_kv_lora_rank self).
Local Abbreviation V := (ma_v_head_dim self).
Local Abbreviation scale := (ma_scale self).
Local Abbreviation projections := (ma_latent_projections self).

(** The keys and values that a latent stands for. *)
Definition key_of (c : list F) : mat :=
  (fun w : mat => ((fun r => dot r (take L c)) <$> w) ++ drop L c) <$> pj_W_UK_T projections.
Definition value_of (c : list F) : mat := (fun w => row_times V (take L c) w) <$> pj_W_UV projections.

(** The layer's two methods agree: expanding is the projections' product. *)
Record ProjectionsOk : Prop := {
  po_dim : ma_head_dim self = P + rope;
  po_heads : 0 < nh /\ length (pj_W_UK_T projections) = nh /\ length (pj_W_UV projections) = nh;
  po_uk : Forall (fun w => length w = P /\ wide L w) (pj_W_UK_T projections);
  po_uv : Forall (fun w => length w = L /\ wide V w) (pj_W_UV projections);
  po_expand l : wide (L + rope) l -> ma_expand self l = (key_of <$> l, value_of <$> l)
}.

Record MLARowOk (r : MLARow F) : Prop := {
  mo_q : Shaped nh (P + rope) (ml_q r);
  mo_latents : wide (L + rope) (ml_latents r);
  mo_len : 0 < length (ml_q r) <= length (ml_latents r)
}.

(** The row with its latents expanded, and with its queries moved to them. *)
Definition expanded (r : MLARow F) : AttnRow F :=
  {| ar_q := ml_q r; ar_keys := key_of <$> ml_latents r; ar_values := value_of <$> ml_latents r; ar_table := ml_table r |}.
Definition absorbed (r : MLARow F) : AttnRow F :=
  {| ar_q := imap (absorb_head self) <$> ml_q r; ar_keys := (fun c => [c]) <$> ml_latents r;
     ar_values := (fun c => [take L c]) <$> ml_latents r; ar_table := ml_table r |}.

Hypothesis Hp : ProjectionsOk.

Lemma key_of_head h w c : pj_W_UK_T projections !! h = Some w -> head_at h (key_of c) = ((fun r => dot r (take L c)) <$> w) ++ drop L c.
Proof using. clear. intros Hw. unfold head_at, key_of. by rewrite list_lookup_fmap, Hw. Qed.

Lemma value_of_head h w c : pj_W_UV projections !! h = Some w -> head_at h (value_of c) = row_times V (take L c) w.
Proof using. clear. intros Hw. unfold head_at, value_of. by rewrite list_lookup_fmap, Hw. Qed.

Lemma absorb_dot h w q c : pj_W_UK_T projections !! h = Some w -> length w = P -> wide L w -> length q = P + rope -> length c = L + rope ->
  dot (absorb_head self h q) c = dot q (((fun r => dot r (take L c)) <$> w) ++ drop L c).
Proof using.
  clear. intros Hw Lw Ww Lq Lc. unfold absorb_head. rewrite Hw. simpl.
  rewrite <-(take_drop L c) at 1. rewrite dot_app2 by (rewrite row_times_length by done; rewrite length_take; lia).
  rewrite dot_row_times by done. rewrite <-(take_drop P q) at 3.
  rewrite dot_app2 by (rewrite length_take, length_fmap; lia). done.
Qed.

(** One head of one query. *)
Lemma absorb_head_attention h w u q cs : pj_W_UK_T projections !! h = Some w -> pj_W_UV projections !! h = Some u ->
  length w = P -> wide L w -> length u = L -> wide V u -> length q = P + rope -> wide (L + rope) cs -> cs <> [] ->
  project_head self h (attend_over scale (absorb_head self h q) ((fun c => (c, take L c)) <$> cs)) =
  attend_over scale q ((fun c => (head_at h (key_of c), head_at h (value_of c))) <$> cs).
Proof using.
  clear Hp. intros Hw Hu Lw Ww Lu Wu Lq Wc Hne. unfold project_head. rewrite Hu. simpl.
  assert (Wl : wide L (take L <$> cs)).
  { apply Forall_fmap. eapply Forall_impl; [exact Wc|]. intros c Hc. simpl in *. rewrite length_take. lia. }
  assert (Hv : (fun c => head_at h (value_of c)) <$> cs = (fun c => row_times V (take L c) u) <$> cs).
  { apply list_fmap_ext. intros _ c _. by apply value_of_head. }
  rewrite (attend_over_eq scale L), (attend_over_eq scale V).
  2: { rewrite <-list_fmap_compose. unfold compose. cbn [snd]. rewrite Hv. apply Forall_fmap, Forall_forall. intros c _. by apply row_times_length. }
  2: by destruct cs.
  2: { rewrite <-list_fmap_compose. exact Wl. }
  2: by destruct cs.
  assert (Hwt : forall c, c ∈ cs -> exp_weight scale (absorb_head self h q) (c, take L c) =
    exp_weight scale q (head_at h (key_of c), head_at h (value_of c))).
  { intros c Hc. unfold exp_weight. cbn [fst]. rewrite (key_of_head h w) by done. do 2 f_equal.
    apply absorb_dot; try done. unfold wide in Wc. rewrite Forall_forall in Wc. by apply Wc. }
  assert (Hext : forall {X} (f : F -> list F -> X), (fun c => f (exp_weight scale (absorb_head self h q) (c, take L c)) c) <$> cs =
    (fun c => f (exp_weight scale q (head_at h (key_of c), head_at h (value_of c))) c) <$> cs).
  { intros X f. apply list_fmap_ext. intros i c Hc. rewrite Hwt; [done|]. by apply list_elem_of_lookup_2 in Hc. }
  rewrite row_times_scale. f_equal.
  - f_equal. unfold total. rewrite <-!list_fmap_compose. unfold compose. f_equal. apply (Hext F (fun x _ => x)).
  - unfold wsum. rewrite <-!list_fmap_compose. unfold compose. cbn [snd]. rewrite (row_times_vsum0 V L).
    + f_equal. rewrite <-list_fmap_compose. unfold compose.
      etransitivity; [|etransitivity; [apply (Hext _ (fun x c => scale_by x (row_times V (take L c) u)))|]].
      * apply list_fmap_ext. intros _ c _. apply row_times_scale.
      * apply list_fmap_ext. intros _ c _. by rewrite (value_of_head h u).
    + apply Forall_fmap. eapply Forall_impl; [exact Wc|]. intros c Hc. simpl in *. rewrite scale_by_length, length_take. lia.
    + done.
Qed.

(** A row's absorbed attention, out of the latents' space, is the expanded row's. *)
Lemma absorb_row r : MLARowOk r ->
  imap (project_head self) <$> row_output scale nh (absorbed r) = row_output scale 1 (expanded r).
Proof using Hp.
  intros [Sq Wl Hlen]. destruct Hp as [Hd (H0 & Hk & Hv) Huk Huv _]. unfold row_output. cbn [ar_q ar_keys ar_values absorbed expanded].
  rewrite imap_fmap, fmap_imap, !length_fmap. apply imap_ext. intros j t Ht. unfold compose.
  destruct (Forall_lookup_1 _ _ _ _ Sq Ht) as [Lt Wt]. pose proof (lookup_lt_Some _ _ _ Ht) as Hj.
  unfold token_attention. rewrite !imap_imap. apply imap_ext. intros h qh Hqh. unfold compose.
  pose proof (lookup_lt_Some _ _ _ Hqh) as Hh. rewrite Lt in Hh.
  destruct (lookup_lt_is_Some_2 (pj_W_UK_T projections) h) as [w Hw]; [lia|].
  destruct (lookup_lt_is_Some_2 (pj_W_UV projections) h) as [u Hu]; [lia|].
  destruct (Forall_lookup_1 _ _ _ _ Huk Hw) as [Lw Ww]. destruct (Forall_lookup_1 _ _ _ _ Huv Hu) as [Lu Wu].
  rewrite (Nat.div_small h nh), Nat.div_1_r by done. set (n := length (ml_latents r) - length (ml_q r) + j + 1).
  assert (Hz : forall {X Y} (f : list F -> X) (g : list F -> Y), take n (zip (f <$> ml_latents r) (g <$> ml_latents r)) =
    (fun c => (f c, g c)) <$> take n (ml_latents r)).
  { intros X Y f g. rewrite fmap_take. f_equal. generalize (ml_latents r). intros l. induction l as [|c l IH]; [done|].
    rewrite !fmap_cons. cbn [zip_with]. by rewrite IH. }
  rewrite !Hz, <-!list_fmap_compose. unfold compose. cbn [fst snd]. unfold head_at at 1 2. cbn [lookup list_lookup default].
  apply (absorb_head_attention h w u); try done.
  - by apply (Forall_lookup_1 _ _ _ _ Wt Hqh).
  - by apply Forall_take.
  - intros He. apply (f_equal length) in He. rewrite length_take in He. simpl in He. lia.
Qed.

End Absorb.

Arguments MLARow : clear implicits.

(** ** Chunks of cached latents

    The chunks planned for a step read every row's cached latents, in order,
    each from the slot that the row's block table gives. *)


(** ** Cells, all at once *)

Lemma cells_cons f s n starts lens :
  cells f (s :: starts) (n :: lens) = ((fun i => (f, i)) <$> seqZ s n) ++ cells (S f) starts lens.
Proof.
  unfold cells. cbn [zip_with]. rewrite imap_cons. cbn [concat fst snd]. rewrite Nat.add_0_r. f_equal. f_equal.
  apply imap_ext. intros k [s' n'] _. unfold compose. cbn [fst snd]. apply list_fmap_ext. intros _ i _. f_equal. lia.
Qed.

Lemma cells_rows f starts lens k : length starts = length lens ->
  np_repeat (seqZ k (Zlen lens)) lens = (fun c : nat * Z => k + (Z.of_nat c.1 - Z.of_nat f))%Z <$> cells f starts lens.
Proof.
  revert f starts k. induction lens as [|n lens IH]; intros f [|s starts] k Hl; try done.
  unfold Zlen. cbn [length]. rewrite seqZ_cons by lia. rewrite np_repeat_cons, cells_cons, fmap_app. f_equal.
  - rewrite <-list_fmap_compose. unfold compose. cbn [fst]. replace (k + (Z.of_nat f - Z.of_nat f))%Z with k by lia.
    apply list_eq. intros i. rewrite list_lookup_fmap. destruct (decide (i < Z.to_nat n)) as [Hi|Hi].
    + by rewrite lookup_replicate_2, lookup_seqZ_lt by lia.
    + rewrite lookup_seqZ_ge by lia. apply lookup_ge_None_2. rewrite length_replicate. lia.
  - replace (Z.pred (Z.of_nat (S (length lens)))) with (Zlen lens) by (unfold Zlen; lia).
    rewrite (IH (S f) starts) by (simpl in Hl; lia). apply list_fmap_ext. intros _ c _. lia.
Qed.

Lemma cells_positions f starts lens c0 : length starts = length lens -> Forall (fun n => (0 <= n)%Z) lens ->
  zip_with Z.add (seqZ c0 (Zsum lens)) (np_repeat (zip_with Z.sub starts (c0 :: cumsum_from c0 lens)) lens) =
  snd <$> cells f starts lens.
Proof.
  revert f starts c0. induction lens as [|n lens IH]; intros f [|s starts] c0 Hl Hn; try done.
  apply Forall_cons in Hn as [Hn Hns]. pose proof (Zsum_nonneg lens Hns). cbn [cumsum_from zip_with].
  rewrite np_repeat_cons, cells_cons, fmap_app. change (Zsum (n :: lens)) with (n + Zsum lens)%Z.
  rewrite seqZ_app by lia. rewrite zip_with_app by by rewrite length_seqZ, length_replicate. f_equal.
  - rewrite <-list_fmap_compose. unfold compose. cbn [snd]. rewrite list_fmap_id. apply list_eq. intros i.
    destruct (decide (i < Z.to_nat n)) as [Hi|Hi].
    + rewrite lookup_zip_with, !lookup_seqZ_lt by lia. simpl. rewrite lookup_replicate_2 by done. simpl. f_equal. lia.
    + rewrite (lookup_ge_None_2 (seqZ s n)) by (rewrite length_seqZ; lia).
      apply lookup_ge_None_2. rewrite length_zip_with, length_seqZ. lia.
  - apply IH; [simpl in Hl; lia|done].
Qed.

Lemma cells_length f starts lens : length starts = length lens -> Forall (fun n => (0 <= n)%Z) lens ->
  Zlen (cells f starts lens) = Zsum lens.
Proof.
  revert f starts. induction lens as [|n lens IH]; intros f [|s starts] Hl Hn; try done.
  apply Forall_cons in Hn as [Hn Hns]. rewrite cells_cons, Zlen_app. change (Zsum (n :: lens)) with (n + Zsum lens)%Z.
  rewrite (IH (S f)) by (done || (simpl in Hl; lia)). f_equal. unfold Zlen. rewrite length_fmap, length_seqZ. lia.
Qed.

(** ** One chunk *)

Section Chunks.
Context {E : Type}.
Variable c : Pages E.
Variable q_lens old_lens : list Z.
Variable tables : list (list Z).
Hypothesis Hsize : 0 < pg_size c.
Hypothesis Hq : Forall (fun n => (0 < n)%Z) q_lens.

(** A cached position has a slot. *)
Definition cell_slot (cell : nat * Z) : option Z := t ← tables !! cell.1; table_slot c t (Z.to_nat cell.2).
Hypothesis Hslots : forall cell, cell ∈ row_cells old_lens -> (0 <= cell.2)%Z /\ is_Some (cell_slot cell).

Local Abbreviation bs := (Z.of_nat (pg_size c)).

(** A plan's chunk. *)
Record ChunkOf (plan : Plan) (chunk : ContextChunk) : Prop := {
  ch_queries : cc_queries chunk = (Zsum (take (Z.to_nat plan.1.1) q_lens), Zsum (take (Z.to_nat plan.1.1 + length plan.2) q_lens));
  ch_cu_q : cc_cu_seqlens_q chunk = cumulative (take (length plan.2) (drop (Z.to_nat plan.1.1) q_lens));
  ch_cu_k : cc_cu_seqlens_k chunk = cumulative plan.2;
  ch_max_q : cc_max_seqlen_q chunk = max_default (take (length plan.2) (drop (Z.to_nat plan.1.1) q_lens)) 0;
  ch_max_k : cc_max_seqlen_k chunk = max_default plan.2 0;
  ch_slots : cc_slots chunk = (fun cell => default 0%Z (cell_slot cell)) <$> plan_cells plan
}.

Lemma gather_cells {S X Y} (l : list Y) (cs : list X) (idx : X -> Z) (val : X -> Y) (s : S) (Q : list Y -> S -> Prop) :
  (forall x, x ∈ cs -> py_get l (idx x) = Some (val x)) -> Q (val <$> cs) s -> wp (gather l (idx <$> cs)) s Q.
Proof using.
  clear. intros Hx HQ. apply gather_ok with (val <$> cs); [|exact HQ]. clear HQ. induction cs as [|x cs IH]; [constructor|].
  rewrite !fmap_cons. constructor; [apply Hx; constructor|]. apply IH. intros y Hy. apply Hx. by constructor.
Qed.

Lemma py_slice_mid {X} (l : list X) (i j : nat) : i <= j <= length l -> py_slice l (Z.of_nat i) (Z.of_nat j) = take (j - i) (drop i l).
Proof using.
  clear. intros Hij. unfold py_slice, py_pos. destruct (Z.ltb_spec (Z.of_nat i) 0), (Z.ltb_spec (Z.of_nat j) 0); try lia.
  do 2 f_equal; lia.
Qed.

Lemma make_chunk_spec {T} plan (s : T) : length tables = length q_lens -> PlanOk (length q_lens) (Zsum plan.2) plan ->
  (forall cell, cell ∈ plan_cells plan -> cell ∈ row_cells old_lens) ->
  wp (make_chunk (cumulative q_lens) tables bs plan) s (fun chunk s' => s' = s /\ ChunkOf plan chunk).
Proof using Hsize Hslots.
  clear Hq. intros Ht Hplan Hin. destruct plan as [[first starts] lens]. destruct Hplan as [Hf Hsame [Hne Hrows] Hpos Hst _].
  cbn [fst snd] in *. unfold make_chunk. cbn [fst snd]. set (f := Z.to_nat first) in *. set (m := length lens) in *.
  assert (Hm : 0 < m) by (unfold m; destruct lens; [done|simpl; lia]).
  set (cs := cells f starts lens). assert (Hcs : plan_cells (first, starts, lens) = cs) by done. rewrite Hcs in Hin.
  assert (Hnn : Forall (fun n => (0 <= n)%Z) lens) by (eapply Forall_impl; [exact Hpos|]; simpl; lia).
  pose proof (cells_rows f starts lens 0 Hsame) as Hkr. fold cs in Hkr. unfold arange. rewrite Hkr.
  assert (Hcell : forall cell, cell ∈ cs -> (0 <= cell.2)%Z /\ exists t b, tables !! cell.1 = Some t /\
    py_get t (cell.2 / bs) = Some b /\ (0 <= b)%Z /\ cell_slot cell = Some (b * bs + cell.2 mod bs)%Z).
  { intros cell Hc. destruct (Hslots cell (Hin cell Hc)) as [H0 [v Hv]]. split; [done|]. pose proof Hv as Hv'. unfold cell_slot in Hv.
    destruct (tables !! cell.1) as [t|] eqn:Htb; [|done]. simpl in Hv. unfold table_slot in Hv.
    destruct (t !! (Z.to_nat cell.2 / pg_size c)) as [b|] eqn:Hb; [|done]. simpl in Hv. destruct (Z.leb_spec 0 b); [|done].
    injection Hv as <-. exists t, b. split_and!; [done| |done|].
    - rewrite py_get_lookup by (apply Z.div_pos; lia). rewrite <-Hb. f_equal.
      rewrite <-(Z2Nat.id cell.2) at 1 by done. rewrite <-Nat2Z.inj_div. lia.
    - rewrite Hv'. do 2 f_equal. rewrite Nat2Z.inj_mod, Z2Nat.id by done. done. }
  wp_step. apply gather_ok with (np_repeat (zip_with Z.sub starts (cumulative lens)) lens).
  { rewrite <-Hkr.
    apply (gather_repeat (zip_with Z.sub starts (cumulative lens)) lens []). rewrite length_zip_with, cumulative_length. fold m. lia. }
  pose proof (cells_positions f starts lens 0 Hsame Hnn) as Hps. fold cs (cumulative lens) in Hps. rewrite !Hps.
  wp_step. rewrite <-list_fmap_compose.
  apply (gather_cells tables cs _ (fun cell => default [] (tables !! cell.1))).
  { intros cell Hc. unfold compose. replace (first + (0 + (Z.of_nat cell.1 - Z.of_nat f)))%Z with (Z.of_nat cell.1) by (unfold f; lia).
    rewrite py_get_nth. destruct (Hcell cell Hc) as (_ & t & _ & Htb & _). by rewrite Htb. }
  set (row := fun cell : nat * Z => default [] (tables !! cell.1)).
  assert (Hblocks : mapM (fun rc : list Z * Z => py_get rc.1 rc.2) (zip (row <$> cs) ((fun p => p / bs)%Z <$> (snd <$> cs))) =
    Some ((fun cell => default 0%Z (py_get (row cell) (cell.2 / bs))) <$> cs)).
  { apply mapM_Some_2. clear -Hcell. assert (Hc : forall cell, cell ∈ cs -> is_Some (py_get (row cell) (cell.2 / bs))).
    { intros cell Hc. destruct (Hcell cell Hc) as (_ & t & b & Ht & Hb & _). unfold row. rewrite Ht. simpl. rewrite Hb. done. }
    clear Hcell. induction cs as [|cell cs IH]; [constructor|]. rewrite !fmap_cons. cbn [zip_with]. constructor.
    - simpl. destruct (Hc cell) as [b ->]; [constructor|done].
    - apply IH. intros x Hx. apply Hc. by constructor. }
  wp_step. eapply wp_or_raise; [exact Hblocks|]. wp_steps.
  assert (Ef : first = Z.of_nat f) by (unfold f; lia). assert (El : (first + Zlen lens)%Z = Z.of_nat (f + m)) by (unfold f, m, Zlen; lia).
  assert (Hsl : take (f + m - f) (drop f q_lens) = take m (drop f q_lens)) by (f_equal; lia).
  eapply wp_or_raise; [rewrite Ef, py_get_nth; apply cumulative_lookup; lia|]. wp_steps.
  eapply wp_or_raise; [rewrite El, py_get_nth; apply cumulative_lookup; lia|]. wp_steps.
  rewrite El, diffs_cumulative, Ef, py_slice_mid, Hsl by lia.
  apply np_max_ok.
  { intros He. apply (f_equal length) in He. rewrite length_take, length_drop in He. simpl in He. lia. }
  wp_steps. apply np_max_ok; [done|]. wp_steps. split; [done|]. constructor; cbn [fst snd cc_queries cc_cu_seqlens_q
    cc_cu_seqlens_k cc_max_seqlen_q cc_max_seqlen_k cc_slots]; rewrite ?Nat2Z.id; fold m; try done.
  - replace (Z.of_nat (f + m) + 1)%Z with (Z.of_nat (S (f + m))) by lia.
    rewrite py_slice_mid by (rewrite cumulative_length; lia). replace (S (f + m) - f) with (S m) by lia.
    rewrite fmap_take, cumulative_drop by lia. apply cumulative_take. rewrite length_drop. lia.
  - rewrite <-Ef, Hcs. clear -Hcell. induction cs as [|cell cs IH]; [done|]. rewrite !fmap_cons. cbn [zip_with].
    rewrite IH by (intros x Hx; apply Hcell; by constructor). f_equal.
    destruct (Hcell cell) as (_ & t & b & Htb & Hg & _ & ->); [constructor|]. unfold row. rewrite Htb. simpl. by rewrite Hg.
Qed.

(** The chunks of a step. *)
Definition Planned (budget : Z) (chunks : list ContextChunk) : Prop :=
  exists plans, Forall (PlanOk (length q_lens) budget) plans /\ concat (plan_cells <$> plans) = row_cells old_lens /\
    Forall2 ChunkOf plans chunks.

Lemma plan_sum_ok rows budget plan : PlanOk rows budget plan -> PlanOk rows (Zsum plan.2) plan.
Proof using. clear. intros []. by split. Qed.

Lemma context_chunks_spec context budget planned k_lens : length tables = length q_lens -> length old_lens = length q_lens ->
  (0 < budget)%Z -> Forall (fun n => (0 <= n)%Z) old_lens -> k_lens = zip_with Z.add old_lens q_lens ->
  cx_cu_seqlens_q_host context = Some (cumulative q_lens) -> cx_cu_seqlens_k_host context = Some (cumulative k_lens) ->
  cx_block_tables context = Some tables -> (forall chunks, planned = Some chunks -> Planned budget chunks) ->
  wp (context_chunks context bs budget) planned (fun chunks planned' => planned' = Some chunks /\ Planned budget chunks).
Proof using Hsize Hslots.
  clear Hq. intros Ht Ho Hb Hnn -> Hcq Hck Hct Hpl. unfold context_chunks. wp_step. wp_step. change (id planned) with planned.
  destruct planned as [chunks|]; [wp_steps; split; [done|by apply Hpl]|].
  rewrite Hcq, Hck, Hct. cbn [or_raise]. wp_steps. rewrite !diffs_cumulative.
  assert (Hold : zip_with Z.sub (zip_with Z.add old_lens q_lens) q_lens = old_lens).
  { clear -Ho. revert q_lens Ho. induction old_lens as [|o l IH]; intros [|q ql] Ho; try done. cbn [zip_with].
    f_equal; [lia|]. apply IH. simpl in Ho. lia. }
  rewrite Hold. wp_call (plan_spec old_lens budget Hnn Hb). intros plans p' (-> & Hplans & Hcells). wp_step.
  eapply wp_mono.
  - apply (wp_for_each plans _ (Some []) (fun done_ p => exists chunks, p = Some chunks /\ Forall2 ChunkOf done_ chunks)).
    + by exists [].
    + intros done_ plan rest p Hl (chunks & -> & Hch). wp_step.
      assert (Hin : plan ∈ plans) by (rewrite Hl; set_solver). rewrite Ho in Hplans.
      wp_call (make_chunk_spec plan (Some chunks)); [done| | |].
      * apply (plan_sum_ok _ budget). rewrite Forall_forall in Hplans. by apply Hplans.
      * intros cell Hc. rewrite <-Hcells. apply list_elem_of_In, in_concat. exists (plan_cells plan).
        split; apply list_elem_of_In; [|done]. apply list_elem_of_fmap. by exists plan.
      * intros chunk s' (-> & Hchunk). wp_steps. exists (chunks ++ [chunk]). split; [done|]. apply Forall2_app; [done|]. by constructor.
  - intros [] p' (chunks & -> & Hch). wp_steps. split; [done|]. exists plans. rewrite Ho in Hplans. done.
Qed.

End Chunks.
