(* ===== verification/MLAStep.v ===== *)
(** * A step of a latent attention layer

    Over any backend that keeps its promises: chunk by chunk or in the
    latents' space, every row gets causal attention over the keys and values
    that its own latents stand for. *)

From S2P Require Import Prelude Arrays AttnContext Tensors Ranks Attention MLA TorchAttention TorchFacts.
From S2P Require Import AttentionFacts MLAFacts.

(** ** Rows laid end to end *)

Lemma py_slice_app {A} (a b c : list A) : py_slice (a ++ b ++ c) (Zlen a) (Zlen a + Zlen b) = b.
Proof.
  unfold py_slice, py_pos, Zlen. destruct (Z.ltb_spec (Z.of_nat (length a)) 0), (Z.ltb_spec (Z.of_nat (length a) + Z.of_nat (length b)) 0); try lia.
  rewrite !length_app. rewrite drop_app_length' by lia. rewrite take_app_length'; [done|]. lia.
Qed.

Lemma splice_app {A} (a b b' c : list A) : length b' = length b -> splice (length a) b' (a ++ b ++ c) = a ++ b' ++ c.
Proof.
  intros Hl. unfold splice. rewrite take_app_length. do 2 f_equal.
  rewrite drop_app_ge by lia. replace (length a + length b' - length a) with (length b) by lia. by rewrite drop_app_length.
Qed.

Lemma zip_with_rows {X A B C} (g : A -> B -> C) (f : X -> list A) (h : X -> list B) l : (forall x, x ∈ l -> length (f x) = length (h x)) ->
  zip_with g (concat (f <$> l)) (concat (h <$> l)) = concat ((fun x => zip_with g (f x) (h x)) <$> l).
Proof.
  induction l as [|x l IH]; intros Hl; [done|]. rewrite !fmap_cons. cbn [concat]. rewrite zip_with_app by (apply Hl; constructor).
  rewrite IH; [done|]. intros y Hy. apply Hl. by constructor.
Qed.

Lemma replicate_rows {X A B} (f : X -> list A) (b : B) l : replicate (length (concat (f <$> l))) b = concat ((fun x => replicate (length (f x)) b) <$> l).
Proof. induction l as [|x l IH]; [done|]. rewrite !fmap_cons. cbn [concat]. by rewrite length_app, replicate_add, IH. Qed.

Definition tagged {X} (l : list X) : list (nat * X) := imap pair l.

Lemma tagged_lookup {X} (l : list X) i : tagged l !! i = pair i <$> l !! i.
Proof. unfold tagged. by rewrite list_lookup_imap. Qed.

Lemma tagged_fmap {X Y} (f : X -> Y) (l : list X) : (fun x => f x.2) <$> tagged l = f <$> l.
Proof. apply list_eq. intros i. rewrite !list_lookup_fmap, tagged_lookup. by destruct (l !! i). Qed.

Lemma tagged_length {X} (l : list X) : length (tagged l) = length l.
Proof. apply length_imap. Qed.

(** ** The cells of a row *)

Definition seen (i : nat) (cs : list (nat * Z)) : list Z := (filter (fun c => c.1 = i) cs).*2.

Lemma seen_app i cs cs' : seen i (cs ++ cs') = seen i cs ++ seen i cs'.
Proof. unfold seen. by rewrite filter_app, fmap_app. Qed.

Lemma seen_own i (l : list Z) : seen i ((fun p => (i, p)) <$> l) = l.
Proof. unfold seen. induction l as [|p l IH]; [done|]. rewrite fmap_cons, filter_cons_True by done. rewrite fmap_cons, IH. done. Qed.

Lemma seen_other i k (l : list Z) : i <> k -> seen i ((fun p => (k, p)) <$> l) = [].
Proof. intros Hn. unfold seen. induction l as [|p l IH]; [done|]. rewrite fmap_cons, filter_cons_False by (simpl; congruence). done. Qed.

Lemma seen_cells f starts lens i : length starts = length lens ->
  seen i (cells f starts lens) = if decide (f <= i) then default [] (zip_with seqZ starts lens !! (i - f)) else [].
Proof.
  revert f starts. induction lens as [|n lens IH]; intros f [|s starts] Hl; try done; [by destruct (decide _)|].
  rewrite cells_cons, seen_app, (IH (S f)) by (simpl in Hl; lia). destruct (decide (f = i)) as [->|Hne].
  - rewrite seen_own, (decide_False (P := S i <= i)), (decide_True (P := i <= i)) by lia. rewrite Nat.sub_diag. simpl. by rewrite app_nil_r.
  - rewrite seen_other by done. simpl. destruct (decide (S f <= i)), (decide (f <= i)); try lia; [|done].
    replace (i - f) with (S (i - S f)) by lia. done.
Qed.

Lemma row_cells_as lens : row_cells lens = cells 0 (replicate (length lens) 0%Z) lens.
Proof.
  unfold row_cells, cells. f_equal. apply list_eq. intros i. rewrite !list_lookup_imap.
  rewrite lookup_zip_with. destruct (lens !! i) as [n|] eqn:Hi.
  - rewrite lookup_replicate_2 by (by eapply lookup_lt_Some). done.
  - destruct (replicate _ _ !! i); done.
Qed.

Lemma seen_row_cells lens i n : lens !! i = Some n -> seen i (row_cells lens) = seqZ 0 n.
Proof.
  intros Hi. rewrite row_cells_as, seen_cells by apply length_replicate. rewrite decide_True by lia.
  rewrite Nat.sub_0_r, lookup_zip_with, lookup_replicate_2, Hi by (by eapply lookup_lt_Some). done.
Qed.

(** ** What a backend promises a latent layer *)

Section Laws.
Context {F : Type} `{!Scalar F} `{!Softmax F} `{!LogSumExp F}.
Local Abbreviation mat := (list (list F)).

(** Head [h] of some keys and values, and a token's part of the attention over some of them. *)
Definition heads_of (h : nat) (kvs : list (mat * mat)) : list (list F * list F) :=
  (fun kv : mat * mat => (head_at h kv.1, head_at h kv.2)) <$> kvs.
Definition token_part (scale : F) (e : nat) (kvs : list (mat * mat)) (t : mat) : mat :=
  imap (fun h qh => part_o scale e qh (heads_of h kvs)) t.
Definition token_lse (scale : F) (kvs : list (mat * mat)) (t : mat) : list (Lse F) :=
  imap (fun h qh => part_lse scale qh (heads_of h kvs)) t.

(** Rows with queries, keys and values of their own sizes. *)
Record VRowOk (nh d e : nat) (r : AttnRow F) : Prop := {
  vr_q : Shaped nh d (ar_q r);
  vr_keys : Shaped nh d (ar_keys r);
  vr_values : Shaped nh e (ar_values r);
  vr_kv : length (ar_values r) = length (ar_keys r);
  vr_some : 0 < length (ar_q r) /\ 0 < length (ar_keys r)
}.

(** The keys that query [j] of a row sees. *)
Definition visible (causal : bool) (r : AttnRow F) (j : nat) : list (mat * mat) :=
  let kvs := zip (ar_keys r) (ar_values r) in
  if causal then take (length (ar_keys r) - length (ar_q r) + j + 1) kvs else kvs.

Definition row_part (scale : F) (e : nat) (causal : bool) (r : AttnRow F) : list mat :=
  imap (fun j t => token_part scale e (visible causal r j) t) (ar_q r).
Definition row_lse (scale : F) (causal : bool) (r : AttnRow F) : list (list (Lse F)) :=
  imap (fun j t => token_lse scale (visible causal r j) t) (ar_q r).

(** A step with no pages: its new tokens are all of its keys. *)
Record Unpaged (context : Fields) (lens : list Z) : Prop := {
  up_tables : cx_block_tables context = None;
  up_q : cx_cu_seqlens_q context = Some (cumulative lens);
  up_k : cx_cu_seqlens_k context = Some (cumulative lens);
  up_max_q : cx_max_seqlen_q context = max_default lens 0;
  up_max_k : cx_max_seqlen_k context = max_default lens 0
}.

(** A row over latents, as one key head that all query heads share. *)
Definition latent_row (L : nat) (r : MLARow F) : AttnRow F :=
  {| ar_q := ml_q r; ar_keys := (fun c => [c]) <$> ml_latents r; ar_values := (fun c => [take L c]) <$> ml_latents r;
     ar_table := ml_table r |}.

Record LatentRowOk (nh lat : nat) (r : MLARow F) : Prop := {
  lr_q : Shaped nh lat (ml_q r);
  lr_latents : wide lat (ml_latents r);
  lr_len : 0 < length (ml_q r) <= length (ml_latents r)
}.

Definition LatentsOk (lat : nat) (c : Pages (list F)) : Prop := PagesOk (fun x => length x = lat) c.

Class MLABackendOk `{!AttentionBackend F} `{!MLABackend F} (scale : F) (nh d e lat L : nat) := {
  store_latents_ok l slots c : LatentsOk lat c -> wide lat l -> length l = length slots -> NoDup slots ->
    Forall (fun s => 0 <= s < Z.of_nat (numel c))%Z slots ->
    wp (store_latents l slots) c (fun _ c' => LatentsOk lat c' /\ Stored c slots l c');
  unpaged_ok rows context x : Forall (VRowOk nh d e) rows -> rows <> [] ->
    Forall (fun r => length (ar_q r) = length (ar_keys r)) rows -> Unpaged context (Zlen <$> (ar_q <$> rows)) ->
    wp (prefill (concat (ar_q <$> rows)) (concat (ar_keys <$> rows)) (concat (ar_values <$> rows)) no_caches context) x
      (fun o x' => x' = x /\ o = concat (row_output scale 1 <$> rows));
  varlen_ok rows (causal : bool) x : Forall (VRowOk nh d e) rows -> rows <> [] ->
    (causal = true -> Forall (fun r => length (ar_q r) <= length (ar_keys r)) rows) ->
    wp (varlen_with_lse (concat (ar_q <$> rows)) (concat (ar_keys <$> rows)) (concat (ar_values <$> rows))
          (cumulative (Zlen <$> (ar_q <$> rows))) (cumulative (Zlen <$> (ar_keys <$> rows)))
          (max_default (Zlen <$> (ar_q <$> rows)) 0) (max_default (Zlen <$> (ar_keys <$> rows)) 0) causal) x
      (fun r x' => x' = x /\ r.1 = concat (row_part scale e causal <$> rows) /\ r.2 = concat (row_lse scale causal <$> rows));
  mla_decode_ok rows c context k_lens n x : supports_mla_decode = true -> Forall (LatentRowOk nh lat) rows -> rows <> [] ->
    LatentsOk lat c -> ContextOk c context (latent_row L <$> rows) k_lens ->
    Forall (fun r => Holds c (ml_table r) (ml_latents r)) rows -> Forall (fun r => length (ml_q r) = n) rows ->
    wp (mla_decode (concat (ml_q <$> rows)) c L context) x
      (fun o x' => x' = x /\ o = concat (row_output scale nh <$> (latent_row L <$> rows)))
}.

End Laws.

(** ** Parts of a token *)

Section Parts.
Context {F : Type} `{!Scalar F} `{!Softmax F} `{!LogSumExp F}.
Local Abbreviation mat := (list (list F)).
Variable scale : F.

Definition ValuesOk (nh e : nat) (kvs : list (mat * mat)) : Prop := Forall (fun kv => length kv.2 = nh /\ wide e kv.2) kvs.

Lemma heads_wide nh e h kvs : ValuesOk nh e kvs -> h < nh -> wide e (heads_of h kvs).*2.
Proof.
  intros Hv Hh. unfold heads_of. rewrite <-list_fmap_compose. apply Forall_fmap. eapply Forall_impl; [exact Hv|].
  intros [k v] [Hl Hw]. unfold compose. simpl in *. unfold head_at. destruct (lookup_lt_is_Some_2 v h) as [r Hr]; [lia|].
  rewrite Hr. by apply (Forall_lookup_1 _ _ _ _ Hw Hr).
Qed.

Lemma heads_app h (a b : list (mat * mat)) : heads_of h (a ++ b) = heads_of h a ++ heads_of h b.
Proof. apply fmap_app. Qed.

Lemma merge_token_parts nh e t a b : ValuesOk nh e a -> ValuesOk nh e b -> b <> [] -> length t = nh ->
  merge_token (token_part scale e a t) (token_lse scale a t) (token_part scale e b t) (token_lse scale b t) = token_part scale e (a ++ b) t /\
  zip_with logaddexp (token_lse scale a t) (token_lse scale b t) = token_lse scale (a ++ b) t.
Proof.
  intros Ha Hb Nb Ht. assert (Hm : forall h qh, t !! h = Some qh ->
    merge_head (part_o scale e qh (heads_of h a)) (part_lse scale qh (heads_of h a)) (part_o scale e qh (heads_of h b)) (part_lse scale qh (heads_of h b)) =
      part_o scale e qh (heads_of h (a ++ b)) /\
    logaddexp (part_lse scale qh (heads_of h a)) (part_lse scale qh (heads_of h b)) = part_lse scale qh (heads_of h (a ++ b))).
  { intros h qh Hh. pose proof (lookup_lt_Some _ _ _ Hh). rewrite heads_app. apply merge_parts.
    - apply (heads_wide nh); [done|lia].
    - apply (heads_wide nh); [done|lia].
    - by destruct b. }
  unfold merge_token, token_part, token_lse. split; apply list_eq; intros h.
  - rewrite lookup_zip_with, !lookup_zip_with, !list_lookup_imap. destruct (t !! h) as [qh|] eqn:Hh; [|done]. simpl. f_equal. by apply Hm.
  - rewrite lookup_zip_with, !list_lookup_imap. destruct (t !! h) as [qh|] eqn:Hh; [|done]. simpl. f_equal. by apply Hm.
Qed.

(** All keys of a query at once. *)
Lemma token_part_attention e kvs t : kvs <> [] -> token_part scale e kvs t = token_attention scale 1 t kvs.
Proof.
  intros Hne. unfold token_part, token_attention. apply imap_ext. intros h qh _. rewrite Nat.div_1_r. unfold part_o, heads_of.
  by destruct kvs.
Qed.

(** Rows merge token by token. *)
Lemma merge_rows {X} (rows : list X) (oa ob : X -> list mat) (la lb : X -> list (list (Lse F))) :
  (forall x, x ∈ rows -> length (oa x) = length (ob x) /\ length (la x) = length (oa x) /\ length (lb x) = length (oa x)) ->
  merge_attention (concat (oa <$> rows)) (concat (la <$> rows)) (concat (ob <$> rows)) (concat (lb <$> rows)) =
  (concat ((fun x => (merge_attention (oa x) (la x) (ob x) (lb x)).1) <$> rows),
   concat ((fun x => (merge_attention (oa x) (la x) (ob x) (lb x)).2) <$> rows)).
Proof.
  intros Hl. unfold merge_attention. cbn [fst snd]. f_equal.
  - rewrite !zip_with_rows; [done|..]; intros x Hx; destruct (Hl x Hx) as (H1 & H2 & H3); rewrite ?length_zip_with; lia.
  - apply zip_with_rows. intros x Hx. destruct (Hl x Hx) as (H1 & H2 & H3). lia.
Qed.

(** A row's tokens, each with more keys. *)
Lemma merge_row nh e (q : list mat) (a b : nat -> list (mat * mat)) : (forall j, j < length q -> ValuesOk nh e (a j) /\ ValuesOk nh e (b j) /\ b j <> []) ->
  Forall (fun t => length t = nh) q ->
  merge_attention (imap (fun j t => token_part scale e (a j) t) q) (imap (fun j t => token_lse scale (a j) t) q)
    (imap (fun j t => token_part scale e (b j) t) q) (imap (fun j t => token_lse scale (b j) t) q) =
  (imap (fun j t => token_part scale e (a j ++ b j) t) q, imap (fun j t => token_lse scale (a j ++ b j) t) q).
Proof.
  intros Hab Hq. unfold merge_attention. f_equal; apply list_eq; intros j.
  - rewrite lookup_zip_with, !lookup_zip_with, !list_lookup_imap. destruct (q !! j) as [t|] eqn:Ht; [|done]. simpl. f_equal.
    pose proof (lookup_lt_Some _ _ _ Ht) as Hj. destruct (Hab j Hj) as (Ha & Hb & Nb). pose proof (Forall_lookup_1 _ _ _ _ Hq Ht).
    by apply (merge_token_parts nh).
  - rewrite lookup_zip_with, !list_lookup_imap. destruct (q !! j) as [t|] eqn:Ht; [|done]. simpl. f_equal.
    pose proof (lookup_lt_Some _ _ _ Ht) as Hj. destruct (Hab j Hj) as (Ha & Hb & Nb). pose proof (Forall_lookup_1 _ _ _ _ Hq Ht).
    by apply (merge_token_parts nh e).
Qed.

End Parts.

(** ** Prefill *)

Section Prefill.
Context {F : Type} `{!Scalar F} `{!Softmax F} `{!LogSumExp F} `{!AttentionBackend F} `{!MLABackend F}.
Local Abbreviation mat := (list (list F)).
Variable self : MLAAttention F.
Variable rope : nat.
Local Abbreviation nh := (ma_num_heads self).
Local Abbreviation P := (ma_nope_dim self).
Local Abbreviation L := (ma_kv_lora_rank self).
Local Abbreviation V := (ma_v_head_dim self).
Local Abbreviation scale := (ma_scale self).
Context `{!MLABackendOk scale nh (P + rope) V (L + rope) L}.
Hypothesis Hp : ProjectionsOk self rope.

Definition kv_of (x : list F) : mat * mat := (key_of self x, value_of self x).
Definition old_count (r : MLARow F) : nat := length (ml_latents r) - length (ml_q r).
Definition latent_at (r : MLARow F) (p : Z) : list F := default [] (ml_latents r !! Z.to_nat p).

(** The keys and values at some cells of a row, and the row's attention over them. *)
Definition seen_kvs (cs : list (nat * Z)) (x : nat * MLARow F) : list (mat * mat) := (fun p => kv_of (latent_at x.2 p)) <$> seen x.1 cs.
Definition seen_o (cs : list (nat * Z)) (x : nat * MLARow F) : list mat :=
  imap (fun _ t => token_part scale V (seen_kvs cs x) t) (ml_q x.2).
Definition seen_lse (cs : list (nat * Z)) (x : nat * MLARow F) : list (list (Lse F)) :=
  imap (fun _ t => token_lse scale (seen_kvs cs x) t) (ml_q x.2).

Lemma key_of_ok x : length x = L + rope -> length (key_of self x) = nh /\ wide (P + rope) (key_of self x).
Proof using Hp.
  clear -Hp. intros Hx. destruct Hp as [_ (_ & Hk & _) Huk _ _]. unfold key_of. split; [by rewrite length_fmap|].
  apply Forall_fmap. eapply Forall_impl; [exact Huk|]. intros w [Hw _]. simpl. rewrite length_app, length_fmap, length_drop. lia.
Qed.

Lemma value_of_ok x : length x = L + rope -> length (value_of self x) = nh /\ wide V (value_of self x).
Proof using Hp.
  clear -Hp. intros Hx. destruct Hp as [_ (_ & _ & Hv) _ Huv _]. unfold value_of. split; [by rewrite length_fmap|].
  apply Forall_fmap. eapply Forall_impl; [exact Huv|]. intros w [_ Hw]. simpl. by apply row_times_length.
Qed.

(** Rows of keys and values that latents stand for. *)
Lemma expanded_ok q ls table : Shaped nh (P + rope) q -> wide (L + rope) ls -> 0 < length q -> 0 < length ls ->
  VRowOk nh (P + rope) V {| ar_q := q; ar_keys := key_of self <$> ls; ar_values := value_of self <$> ls; ar_table := table |}.
Proof using Hp.
  clear -Hp. intros Hq Hl H1 H2. split; simpl; rewrite ?length_fmap; try done.
  - apply Forall_fmap. eapply Forall_impl; [exact Hl|]. intros x Hx. by apply key_of_ok.
  - apply Forall_fmap. eapply Forall_impl; [exact Hl|]. intros x Hx. by apply value_of_ok.
Qed.

Lemma kvs_values ls : wide (L + rope) ls -> ValuesOk nh V (kv_of <$> ls).
Proof using Hp.
  clear -Hp. intros Hl. apply Forall_fmap. eapply Forall_impl; [exact Hl|]. intros x Hx. by apply value_of_ok.
Qed.

Lemma zip_kv ls : zip (key_of self <$> ls) (value_of self <$> ls) = kv_of <$> ls.
Proof using. clear. induction ls as [|x ls IH]; [done|]. rewrite !fmap_cons. cbn [zip_with]. by rewrite IH. Qed.

Section Given.
Variable c : Pages (list F).
Variable rows : list (MLARow F).
Hypothesis Hrows : Forall (MLARowOk self rope) rows.
Hypothesis Hc : LatentsOk (L + rope) c.
Hypothesis Hheld : Forall (fun r => Holds c (ml_table r) (ml_latents r)) rows.

Local Abbreviation q_lens := (Zlen <$> (ml_q <$> rows)).
Local Abbreviation old_lens := ((fun r => Z.of_nat (old_count r)) <$> rows).
Local Abbreviation tables := (ml_table <$> rows).
Local Abbreviation acc_of cs := (concat (seen_o cs <$> tagged rows), concat (seen_lse cs <$> tagged rows)).

Lemma row_at i r : rows !! i = Some r -> MLARowOk self rope r /\ Holds c (ml_table r) (ml_latents r).
Proof using Hrows Hheld. intros Hi. split; [by apply (Forall_lookup_1 _ _ _ _ Hrows Hi)|]. apply (Forall_lookup_1 _ _ _ _ Hheld Hi). Qed.

(** The slot of a cached position holds its latent. *)
Lemma cell_held i r p : rows !! i = Some r -> (0 <= p < Zlen (ml_latents r))%Z -> exists s, cell_slot c tables (i, p) = Some s /\
  py_get (concat (pg_blocks c)) s = Some (latent_at r p) /\ length (latent_at r p) = L + rope.
Proof using Hrows Hheld Hc.
  intros Hi Hpp. destruct (row_at i r Hi) as [[_ Hl _] Hh]. unfold latent_at.
  destruct (lookup_lt_is_Some_2 (ml_latents r) (Z.to_nat p)) as [x Hx]; [unfold Zlen in Hpp; lia|]. rewrite Hx. simpl.
  destruct (Hh _ x Hx) as (s & Hs & He). exists s. split_and!.
  - unfold cell_slot. cbn [fst snd]. rewrite list_lookup_fmap, Hi. simpl. exact Hs.
  - destruct Hc as [Hb Hall]. rewrite py_get_lookup by by eapply table_slot_nonneg.
    rewrite (concat_uniform_lookup (pg_size c)); [|done|eapply Forall_impl; [exact Hall|by intros b [? _]]].
    unfold slot_entry in He. pose proof (table_slot_nonneg _ _ _ _ Hs). rewrite <-He.
    rewrite Z2Nat.inj_div, Z2Nat.inj_mod, Nat2Z.id by lia. done.
  - by apply (Forall_lookup_1 _ _ _ _ Hl Hx).
Qed.

Lemma old_cell cell : cell ∈ row_cells old_lens -> exists r, rows !! cell.1 = Some r /\ (0 <= cell.2 < Z.of_nat (old_count r))%Z.
Proof using.
  clear. intros Hin. unfold row_cells in Hin. apply list_elem_of_In, in_concat in Hin as (l & Hl%list_elem_of_In & Hin%list_elem_of_In).
  apply list_elem_of_lookup in Hl as [k Hk]. rewrite list_lookup_imap, list_lookup_fmap in Hk. destruct (rows !! k) as [r|] eqn:Hr; [|done].
  injection Hk as <-. apply list_elem_of_fmap in Hin as (i & -> & Hi%elem_of_seqZ_iff). exists r. simpl. split; [done|lia].
Qed.

Lemma seen_lengths cs x : length (seen_o cs x) = length (ml_q x.2) /\ length (seen_lse cs x) = length (ml_q x.2).
Proof using. clear. unfold seen_o, seen_lse. by rewrite !length_imap. Qed.

Lemma tags_in x : x ∈ tagged rows -> rows !! x.1 = Some x.2.
Proof using.
  clear. intros [i Hi]%list_elem_of_lookup. rewrite tagged_lookup in Hi. destruct (rows !! i) as [r|] eqn:Hr; [|done].
  by injection Hi as <-.
Qed.

(** A chunk's rows: which they are, and their cells. *)
Section Chunk.
Variable f : nat.
Variable starts lens : list Z.
Hypothesis Hsame : length starts = length lens.
Hypothesis Hle : f + length lens <= length rows.
Hypothesis Hpos : Forall (fun n => (0 < n)%Z) lens.
Hypothesis Hlat : forall cell, cell ∈ cells f starts lens -> exists r, rows !! cell.1 = Some r /\ (0 <= cell.2 < Z.of_nat (old_count r))%Z.
Local Abbreviation chunk_rows := (take (length lens) (drop f (tagged rows))).
Local Abbreviation own x := (latent_at x.2 <$> seen x.1 (cells f starts lens)).

Definition chunk_row (x : nat * MLARow F) : AttnRow F :=
  {| ar_q := ml_q x.2; ar_keys := key_of self <$> own x; ar_values := value_of self <$> own x; ar_table := [] |}.

Lemma chunk_rows_lookup k : k < length lens -> exists r, rows !! (f + k) = Some r /\ chunk_rows !! k = Some (f + k, r).
Proof using Hle.
  clear -Hle. intros Hk. destruct (lookup_lt_is_Some_2 rows (f + k)) as [r Hr]; [lia|]. exists r. split; [done|].
  rewrite lookup_take_lt by done. by rewrite lookup_drop, tagged_lookup, Hr.
Qed.

Lemma chunk_rows_length : length chunk_rows = length lens.
Proof using Hle. clear -Hle. rewrite length_take, length_drop, tagged_length. lia. Qed.

Lemma chunk_rows_in x : x ∈ chunk_rows -> exists k s n, x.1 = f + k /\ k < length lens /\ rows !! x.1 = Some x.2 /\
  starts !! k = Some s /\ lens !! k = Some n /\ seen x.1 (cells f starts lens) = seqZ s n.
Proof using Hle Hsame.
  clear -Hle Hsame. intros [k Hk]%list_elem_of_lookup. pose proof (lookup_lt_Some _ _ _ Hk) as Hlt. rewrite chunk_rows_length in Hlt.
  destruct (chunk_rows_lookup k Hlt) as (r & Hr & Hk'). rewrite Hk in Hk'. injection Hk' as ->.
  destruct (lookup_lt_is_Some_2 starts k) as [s Hs]; [lia|]. destruct (lookup_lt_is_Some_2 lens k) as [n Hn]; [lia|].
  exists k, s, n. split_and!; try done. cbn [fst]. rewrite seen_cells, decide_True by (done || lia).
  replace (f + k - f) with k by lia. by rewrite lookup_zip_with, Hs, Hn.
Qed.

Lemma chunk_cells : cells f starts lens = concat ((fun x => (fun p => (x.1, p)) <$> seen x.1 (cells f starts lens)) <$> chunk_rows).
Proof using Hle Hsame.
  clear -Hle Hsame. unfold cells at 1. f_equal. apply list_eq. intros k. rewrite list_lookup_imap, list_lookup_fmap.
  destruct (decide (k < length lens)) as [Hk|Hk].
  - destruct (chunk_rows_lookup k Hk) as (r & Hr & ->). cbn [fmap option_fmap option_map fst]. rewrite lookup_zip_with.
    rewrite seen_cells, decide_True by (done || lia). replace (f + k - f) with k by lia. rewrite lookup_zip_with.
    destruct (lookup_lt_is_Some_2 starts k) as [s Hs]; [lia|]. destruct (lookup_lt_is_Some_2 lens k) as [n Hn]; [lia|].
    by rewrite Hs, Hn.
  - rewrite (lookup_ge_None_2 chunk_rows) by (rewrite chunk_rows_length; lia). rewrite lookup_zip_with.
    rewrite (lookup_ge_None_2 lens) by lia. by destruct (starts !! k).
Qed.

Lemma chunk_latents : (fun cell : nat * Z => latent_at (default (Build_MLARow [] [] []) (rows !! cell.1)) cell.2) <$> cells f starts lens =
  concat ((fun x => own x) <$> chunk_rows).
Proof using Hle Hsame.
  clear -Hle Hsame. rewrite chunk_cells at 1. rewrite fmap_concat_rows. f_equal. apply list_fmap_ext. intros _ x Hx%list_elem_of_lookup_2.
  destruct (chunk_rows_in x Hx) as (k & s & n & _ & _ & Hr & _ & _ & _). rewrite <-list_fmap_compose. apply list_fmap_ext.
  intros _ p _. unfold compose. cbn [fst snd]. by rewrite Hr.
Qed.

Lemma own_wide x : x ∈ chunk_rows -> wide (L + rope) (own x) /\ 0 < length (own x).
Proof using Hle Hsame Hpos Hlat Hrows Hc Hheld.
  intros Hx. destruct (chunk_rows_in x Hx) as (k & s & n & Hxk & Hk & Hr & Hs & Hn & Hseen). rewrite Hseen. split.
  - apply Forall_fmap, Forall_forall. intros p Hpp. simpl.
    assert (Hcell : (x.1, p) ∈ cells f starts lens).
    { rewrite chunk_cells. apply list_elem_of_In, in_concat. exists ((fun p => (x.1, p)) <$> seen x.1 (cells f starts lens)).
      split; apply list_elem_of_In; [apply list_elem_of_fmap; by exists x|]. apply list_elem_of_fmap. exists p. by rewrite Hseen. }
    destruct (Hlat _ Hcell) as (r & Hr' & Hb). cbn [fst snd] in *. rewrite Hr in Hr'. injection Hr' as <-.
    destruct (cell_held x.1 x.2 p Hr) as (sl & _ & _ & Hl); [unfold old_count in Hb; unfold Zlen; lia|exact Hl].
  - rewrite length_fmap, length_seqZ. pose proof (Forall_lookup_1 _ _ _ _ Hpos Hn). simpl in *. lia.
Qed.

Lemma chunk_row_lens : Zlen <$> (ar_keys <$> (chunk_row <$> chunk_rows)) = lens /\
  Zlen <$> (ar_q <$> (chunk_row <$> chunk_rows)) = take (length lens) (drop f q_lens).
Proof using Hle Hsame Hpos.
  clear -Hle Hsame Hpos. split.
  - rewrite <-!list_fmap_compose. apply list_eq. intros k. rewrite list_lookup_fmap. destruct (decide (k < length lens)) as [Hk|Hk].
    + destruct (chunk_rows_lookup k Hk) as (r & Hr & Hx). rewrite Hx. unfold compose. cbn [fmap option_fmap option_map chunk_row ar_keys].
      destruct (chunk_rows_in (f + k, r)) as (k' & s & n & Hxk & _ & _ & _ & Hn & Hseen); [by apply list_elem_of_lookup_2 in Hx|].
      cbn [fst snd] in *. assert (k' = k) as -> by lia. rewrite Hseen, Hn. f_equal. unfold Zlen. rewrite !length_fmap, length_seqZ.
      pose proof (Forall_lookup_1 _ _ _ _ Hpos Hn). simpl in *. lia.
    + rewrite (lookup_ge_None_2 chunk_rows) by (rewrite chunk_rows_length; lia). symmetry. apply lookup_ge_None_2. lia.
  - rewrite <-!list_fmap_compose. unfold compose. cbn [chunk_row ar_q].
    rewrite fmap_take, fmap_drop. do 2 f_equal. exact (tagged_fmap (fun r => Zlen (ml_q r)) rows).
Qed.

End Chunk.

(** Rows before, in and after a chunk. *)
Lemma rows_split f m : f + m <= length rows ->
  tagged rows = take f (tagged rows) ++ take m (drop f (tagged rows)) ++ drop (f + m) (tagged rows).
Proof using. clear. intros _. by rewrite <-drop_drop, take_drop, take_drop. Qed.

Lemma slice_rows {A} (g : nat * MLARow F -> list A) f m : f + m <= length rows ->
  (forall x, x ∈ tagged rows -> length (g x) = length (ml_q x.2)) ->
  py_slice (concat (g <$> tagged rows)) (Zsum (take f q_lens)) (Zsum (take (f + m) q_lens)) =
    concat (g <$> take m (drop f (tagged rows))) /\
  forall g' : nat * MLARow F -> list A, (forall x, x ∈ tagged rows -> length (g' x) = length (ml_q x.2)) ->
    (forall x, x ∈ tagged rows -> x ∉ take m (drop f (tagged rows)) -> g' x = g x) ->
    splice (py_pos (concat (g <$> tagged rows)) (Zsum (take f q_lens))) (concat (g' <$> take m (drop f (tagged rows))))
      (concat (g <$> tagged rows)) = concat (g' <$> tagged rows).
Proof using.
  clear. intros Hle Hg. set (A1 := take f (tagged rows)). set (B := take m (drop f (tagged rows))). set (C := drop (f + m) (tagged rows)).
  pose proof (rows_split f m Hle) as Hsp. fold A1 B C in Hsp.
  assert (Hsub : forall x, x ∈ A1 \/ x ∈ B \/ x ∈ C -> x ∈ tagged rows) by (intros x Hx; rewrite Hsp; set_solver).
  assert (Hq : q_lens = (fun x => Zlen (ml_q x.2)) <$> tagged rows).
  { rewrite (tagged_fmap (fun r => Zlen (ml_q r)) rows), <-list_fmap_compose. done. }
  assert (Hlen : forall (h : nat * MLARow F -> list A) l, (forall x, x ∈ l -> length (h x) = length (ml_q x.2)) ->
    Zlen (concat (h <$> l)) = Zsum ((fun x => Zlen (ml_q x.2)) <$> l)).
  { intros h l Hl. rewrite Zsum_lengths, <-list_fmap_compose. f_equal. apply list_fmap_ext. intros _ x Hx%list_elem_of_lookup_2.
    unfold compose, Zlen. by rewrite Hl. }
  assert (LA : Zlen (concat (g <$> A1)) = Zsum (take f q_lens)).
  { rewrite Hlen by (intros; apply Hg, Hsub; auto). rewrite Hq, <-fmap_take. done. }
  assert (LAB : (Zlen (concat (g <$> A1)) + Zlen (concat (g <$> B)))%Z = Zsum (take (f + m) q_lens)).
  { rewrite !Hlen by (intros; apply Hg, Hsub; auto). rewrite <-Zsum_app, <-fmap_app, Hq, <-fmap_take. do 2 f_equal.
    unfold A1, B. by rewrite take_take_drop. }
  rewrite <-LAB, <-LA. rewrite Hsp, !fmap_app, !concat_app. split; [apply py_slice_app|].
  intros g' Hg' Hsame. assert (Hpos : py_pos (concat (g <$> A1) ++ concat (g <$> B) ++ concat (g <$> C)) (Zlen (concat (g <$> A1))) = length (concat (g <$> A1))).
  { unfold py_pos, Zlen. destruct (Z.ltb_spec (Z.of_nat (length (concat (g <$> A1)))) 0); [lia|]. rewrite length_app. lia. }
  rewrite Hpos, splice_app.
  - assert (Hout : NoDup (tagged rows)).
    { apply NoDup_alt. intros i j x Hi Hj. rewrite tagged_lookup in Hi, Hj. destruct (rows !! i), (rows !! j); simplify_eq/=. done. }
    rewrite Hsp in Hout. apply NoDup_app in Hout as (_ & HA & (_ & HB & _)%NoDup_app).
    assert (g <$> A1 = g' <$> A1) as ->.
    { apply list_fmap_ext. intros _ x Hx%list_elem_of_lookup_2. symmetry. apply Hsame; [set_solver +Hx|].
      intros Hxb. apply (HA x Hx). set_solver. }
    assert (g <$> C = g' <$> C) as ->.
    { apply list_fmap_ext. intros _ x Hx%list_elem_of_lookup_2. symmetry. apply Hsame; [set_solver +Hx|].
      intros Hxb. by apply (HB x Hxb). }
    by rewrite !fmap_app, !concat_app.
  - apply Nat2Z.inj. change (Zlen (concat (g' <$> B)) = Zlen (concat (g <$> B))).
    rewrite !Hlen; [done|intros; apply Hg, Hsub; auto|intros y Hy; apply Hg'; set_solver +Hy].
Qed.

Lemma seen_kvs_app cs cs' x : seen_kvs (cs ++ cs') x = seen_kvs cs x ++ seen_kvs cs' x.
Proof using. clear. unfold seen_kvs. by rewrite seen_app, fmap_app. Qed.

Lemma seen_kvs_ok cs x : (forall cell, cell ∈ cs -> cell ∈ row_cells old_lens) -> x ∈ tagged rows -> ValuesOk nh V (seen_kvs cs x).
Proof using Hp Hrows Hheld Hc.
  intros Hin Hx. pose proof (tags_in x Hx) as Hr. unfold seen_kvs. rewrite (list_fmap_compose (latent_at x.2) kv_of).
  apply kvs_values. apply Forall_fmap, Forall_forall. intros p Hpp. simpl. unfold seen in Hpp.
  apply list_elem_of_fmap in Hpp as ([i q] & -> & Hq%list_elem_of_filter). destruct Hq as [Hi Hq]. cbn [fst snd] in *. subst i.
  destruct (old_cell _ (Hin _ Hq)) as (r & Hr' & Hb). cbn [fst snd] in *. rewrite Hr in Hr'. injection Hr' as <-.
  destruct (cell_held x.1 x.2 q Hr) as (sl & _ & _ & Hl); [unfold old_count in Hb; unfold Zlen; lia|exact Hl].
Qed.

(** The row's part of a chunk joins what it has. *)
Lemma merge_seen cs f starts lens x : (forall cell, cell ∈ cs -> cell ∈ row_cells old_lens) -> x ∈ tagged rows ->
  ValuesOk nh V (seen_kvs (cells f starts lens) x) -> seen_kvs (cells f starts lens) x <> [] ->
  merge_attention (seen_o cs x) (seen_lse cs x) (row_part scale V false (chunk_row f starts lens x)) (row_lse scale false (chunk_row f starts lens x)) =
  (seen_o (cs ++ cells f starts lens) x, seen_lse (cs ++ cells f starts lens) x).
Proof using Hp Hrows Hheld Hc.
  intros Hin Hx Hv Hne. assert (Hvis : forall j, visible false (chunk_row f starts lens x) j = seen_kvs (cells f starts lens) x).
  { intros j. unfold visible, chunk_row. cbn [ar_keys ar_values]. rewrite zip_kv. unfold seen_kvs. by rewrite <-list_fmap_compose. }
  unfold seen_o, seen_lse. rewrite seen_kvs_app. unfold row_part, row_lse. cbn [chunk_row ar_q].
  destruct (Forall_lookup_1 _ _ _ _ Hrows (tags_in x Hx)) as [Sq _ _].
  etransitivity; [|apply (merge_row scale nh V (ml_q x.2) (fun _ => seen_kvs cs x) (fun _ => seen_kvs (cells f starts lens) x))].
  - f_equal; apply imap_ext; intros j t _; by rewrite Hvis.
  - intros j _. split_and!; [by apply seen_kvs_ok|done|done].
  - eapply Forall_impl; [exact Sq|]. by intros t [? _].
Qed.

(** One chunk. *)
Lemma attend_chunk_ok budget plan chunk cs x : PlanOk (length rows) budget plan -> ChunkOf c q_lens tables plan chunk ->
  (forall cell, cell ∈ cs ++ plan_cells plan -> cell ∈ row_cells old_lens) ->
  wp (attend_chunk self (concat (ml_q <$> rows)) (concat (pg_blocks c)) (acc_of cs) chunk) x
    (fun acc x' => x' = x /\ acc = acc_of (cs ++ plan_cells plan)).
Proof using Hp Hrows Hc Hheld MLABackendOk0.
  intros Hplan Hch Hin. destruct plan as [[first starts] lens]. destruct Hplan as [Hf Hsame [Hne Hle] Hpos Hst _].
  destruct Hch as [Cq Ccq Cck Cmq Cmk Cs]. cbn [fst snd] in *. set (f := Z.to_nat first) in *. set (m := length lens) in *.
  assert (Hm : 0 < m) by (unfold m; destruct lens; [done|simpl; lia]).
  change (plan_cells (first, starts, lens)) with (cells f starts lens) in *.
  assert (Hlat : forall cell, cell ∈ cells f starts lens -> exists r, rows !! cell.1 = Some r /\ (0 <= cell.2 < Z.of_nat (old_count r))%Z).
  { intros cell Hcell. apply old_cell, Hin. apply elem_of_app. by right. }
  unfold attend_chunk. rewrite Cs. wp_step.
  apply (gather_cells _ (cells f starts lens) _ (fun cell => latent_at (default (Build_MLARow [] [] []) (rows !! cell.1)) cell.2)).
  { intros [i p] Hcell. destruct (Hlat _ Hcell) as (r & Hr & Hpp). cbn [fst snd] in *. rewrite Hr. simpl.
    destruct (cell_held i r p Hr) as (s & Hs & Hg & _); [unfold old_count in Hpp; unfold Zlen; lia|]. rewrite Hs. exact Hg. }
  rewrite (chunk_latents f starts lens Hsame Hle). set (B := take m (drop f (tagged rows))). fold m B.
  assert (HB : forall x, x ∈ B -> x ∈ tagged rows).
  { intros y Hy. rewrite (rows_split f m Hle). set_solver. }
  assert (Hw : forall y, y ∈ B -> wide (L + rope) (latent_at y.2 <$> seen y.1 (cells f starts lens)) /\
    0 < length (latent_at y.2 <$> seen y.1 (cells f starts lens))) by (intros y Hy; by apply (own_wide f starts lens)).
  rewrite Cq, (po_expand _ _ Hp).
  2: { apply Forall_concat, Forall_fmap, Forall_forall. intros y Hy. by apply Hw. }
  cbn [fst snd]. rewrite !fmap_concat_rows.
  assert (Hqs : forall l, concat ((fun y : nat * MLARow F => ml_q y.2) <$> l) = concat (ar_q <$> (chunk_row f starts lens <$> l))).
  { intros l. by rewrite <-list_fmap_compose. }
  assert (Hml : concat (ml_q <$> rows) = concat ((fun y : nat * MLARow F => ml_q y.2) <$> tagged rows)) by by rewrite tagged_fmap.
  rewrite Hml. destruct (slice_rows (fun y => ml_q y.2) f m Hle) as [-> _]; [done|]. fold B. rewrite Hqs.
  destruct (chunk_row_lens f starts lens Hsame Hle Hpos) as [Hkl Hql]. fold m B in Hkl, Hql.
  assert (Hkeys : concat ((fun y => key_of self <$> (latent_at y.2 <$> seen y.1 (cells f starts lens))) <$> B) =
    concat (ar_keys <$> (chunk_row f starts lens <$> B))) by by rewrite <-list_fmap_compose.
  assert (Hvals : concat ((fun y => value_of self <$> (latent_at y.2 <$> seen y.1 (cells f starts lens))) <$> B) =
    concat (ar_values <$> (chunk_row f starts lens <$> B))) by by rewrite <-list_fmap_compose.
  set (vrows := chunk_row f starts lens <$> B) in *.
  rewrite Hkeys, Hvals, Ccq, Cck, Cmq, Cmk, <-Hql, <-Hkl. wp_step.
  wp_call (varlen_ok (scale := scale) (nh := nh) (d := P + rope) (e := V) (lat := L + rope) (L := L) vrows false).
  { apply Forall_fmap, Forall_forall. intros y Hy. destruct (Hw y Hy) as [Hwy Hly]. pose proof (tags_in y (HB y Hy)) as Hry.
    destruct (Forall_lookup_1 _ _ _ _ Hrows Hry) as [Sq _ [Hlq _]]. by apply expanded_ok. }
  { intros He. apply (f_equal length) in He. unfold vrows in He. rewrite length_fmap in He.
    pose proof (chunk_rows_length f lens Hle) as HBl. fold m B in HBl. simpl in He. lia. }
  { done. }
  intros r x' (-> & Ho & Hl). rewrite Ho, Hl, Hkl. apply wp_ret. split; [done|].
  assert (Hcs : forall cell, cell ∈ cs -> cell ∈ row_cells old_lens) by (intros cell Hcell; apply Hin, elem_of_app; by left).
  assert (Hnew : forall y, y ∈ B -> ValuesOk nh V (seen_kvs (cells f starts lens) y) /\ seen_kvs (cells f starts lens) y <> []).
  { intros y Hy. destruct (Hw y Hy) as [Hwy Hly]. unfold seen_kvs. rewrite (list_fmap_compose (latent_at y.2) kv_of). split; [by apply kvs_values|].
    intros He. apply (f_equal length) in He. rewrite length_fmap in He. simpl in He. lia. }
  destruct (slice_rows (seen_o cs) f m Hle) as [Hs1 Hsp1]; [intros; apply seen_lengths|].
  destruct (slice_rows (seen_lse cs) f m Hle) as [Hs2 Hsp2]; [intros; apply seen_lengths|]. fold B in Hs1, Hs2, Hsp1, Hsp2.
  rewrite Hs1, Hs2. unfold vrows. rewrite <-(list_fmap_compose (chunk_row f starts lens) (row_part scale V false)),
    <-(list_fmap_compose (chunk_row f starts lens) (row_lse scale false)). unfold compose. rewrite (merge_rows B).
  2: { intros y _. destruct (seen_lengths cs y) as [-> ->]. unfold row_part, row_lse, chunk_row. cbn [ar_q]. by rewrite !length_imap. }
  cbn [fst snd].
  assert (Hmerge : forall y, y ∈ B -> merge_attention (seen_o cs y) (seen_lse cs y) (row_part scale V false (chunk_row f starts lens y))
      (row_lse scale false (chunk_row f starts lens y)) = (seen_o (cs ++ cells f starts lens) y, seen_lse (cs ++ cells f starts lens) y)).
  { intros y Hy. destruct (Hnew y Hy). apply merge_seen; auto. }
  assert (Hout : forall y, y ∈ tagged rows -> y ∉ B -> seen_kvs (cs ++ cells f starts lens) y = seen_kvs cs y).
  { intros y Hy Hnb. rewrite seen_kvs_app. assert (Hse : seen y.1 (cells f starts lens) = []); [|unfold seen_kvs at 2; rewrite Hse; apply app_nil_r].
    rewrite seen_cells by done. destruct (decide (f <= y.1)) as [Hfy|]; [|done].
    rewrite lookup_ge_None_2; [done|]. rewrite length_zip_with. fold m. destruct (decide (y.1 - f < m)) as [Hlt|]; [|lia].
    destruct Hnb. destruct (chunk_rows_lookup f lens Hle (y.1 - f) Hlt) as (r' & Hr' & Hk).
    replace (f + (y.1 - f)) with y.1 in * by lia. rewrite (tags_in y Hy) in Hr'. injection Hr' as <-.
    apply list_elem_of_lookup_2 in Hk. by destruct y. }
  f_equal.
  - rewrite <-(Hsp1 (seen_o (cs ++ cells f starts lens))).
    + f_equal. f_equal. apply list_fmap_ext. intros _ y Hy%list_elem_of_lookup_2. by rewrite Hmerge.
    + intros; apply seen_lengths.
    + intros y Hy Hnb. unfold seen_o. by rewrite Hout.
  - rewrite <-(Hsp2 (seen_lse (cs ++ cells f starts lens))).
    + f_equal. f_equal. apply list_fmap_ext. intros _ y Hy%list_elem_of_lookup_2. by rewrite Hmerge.
    + intros; apply seen_lengths.
    + intros y Hy Hnb. unfold seen_lse. by rewrite Hout.
Qed.

(** All chunks, in order. *)
Lemma attend_chunks_ok budget plans chunks cs x : Forall (PlanOk (length rows) budget) plans -> Forall2 (ChunkOf c q_lens tables) plans chunks ->
  (forall cell, cell ∈ cs ++ concat (plan_cells <$> plans) -> cell ∈ row_cells old_lens) ->
  wp (attend_chunks self (concat (ml_q <$> rows)) (concat (pg_blocks c)) (acc_of cs) chunks) x
    (fun acc x' => x' = x /\ acc = acc_of (cs ++ concat (plan_cells <$> plans))).
Proof using Hp Hrows Hc Hheld MLABackendOk0.
  intros Hplans Hch. revert cs. induction Hch as [|plan chunk plans chunks Hc1 _ IH]; intros cs Hin.
  - cbn [attend_chunks]. apply wp_ret. split; [done|]. simpl. by rewrite app_nil_r.
  - apply Forall_cons in Hplans as [Hp1 Hplans]. cbn [attend_chunks]. rewrite fmap_cons in Hin |- *. cbn [concat] in Hin |- *.
    wp_step. wp_call (attend_chunk_ok budget plan chunk cs x Hp1 Hc1); [intros cell Hcell; apply Hin; set_solver +Hcell|].
    intros acc x' (-> & ->). rewrite app_assoc in Hin |- *. by apply IH.
Qed.

(** The part of a row that the step adds. *)
Definition new_latents (r : MLARow F) : mat := drop (old_count r) (ml_latents r).

Definition new_row (r : MLARow F) : AttnRow F :=
  {| ar_q := ml_q r; ar_keys := key_of self <$> new_latents r; ar_values := value_of self <$> new_latents r; ar_table := ml_table r |}.

Lemma new_latents_length r : MLARowOk self rope r -> length (new_latents r) = length (ml_q r) /\
  old_count r + length (ml_q r) = length (ml_latents r).
Proof using. clear. intros [_ _ [H1 H2]]. unfold new_latents, old_count. rewrite length_drop. lia. Qed.

Lemma new_row_ok r : MLARowOk self rope r -> VRowOk nh (P + rope) V (new_row r).
Proof using Hp.
  clear -Hp. intros Hr. destruct (new_latents_length r Hr) as [Hl _]. destruct Hr as [Sq Wl [H1 _]].
  apply expanded_ok; [done|by apply Forall_drop|done|lia].
Qed.

Lemma new_row_lens : Zlen <$> (ar_q <$> (new_row <$> rows)) = q_lens /\ Zlen <$> (ar_keys <$> (new_row <$> rows)) = q_lens.
Proof using Hrows.
  clear -Hrows. split; rewrite <-!list_fmap_compose; apply list_fmap_ext; intros i r Hr; [done|].
  unfold compose, Zlen. cbn [new_row ar_keys]. rewrite length_fmap. f_equal. apply new_latents_length. apply (Forall_lookup_1 _ _ _ _ Hrows Hr).
Qed.

Lemma latents_wide : wide (L + rope) (concat (new_latents <$> rows)).
Proof using Hrows.
  clear -Hrows. apply Forall_concat, Forall_fmap. eapply Forall_impl; [exact Hrows|]. intros r [_ Hl _]. by apply Forall_drop.
Qed.

(** The old keys' part and the new keys' make the row's attention. *)
Lemma merge_old_new x : x ∈ tagged rows ->
  (merge_attention (seen_o (row_cells old_lens) x) (seen_lse (row_cells old_lens) x) (row_part scale V true (new_row x.2)) (row_lse scale true (new_row x.2))).1 =
  row_output scale 1 (expanded self x.2).
Proof using Hp Hrows Hheld Hc.
  intros Hx. pose proof (tags_in x Hx) as Hr. pose proof (Forall_lookup_1 _ _ _ _ Hrows Hr) as Hok.
  destruct (new_latents_length x.2 Hok) as [Hl Ho]. destruct Hok as [Sq Wl [H1 H2]].
  assert (Hseen : seen_kvs (row_cells old_lens) x = kv_of <$> take (old_count x.2) (ml_latents x.2)).
  { unfold seen_kvs. rewrite (seen_row_cells _ _ (Z.of_nat (old_count x.2))) by (by rewrite list_lookup_fmap, Hr).
    apply list_eq. intros k. rewrite !list_lookup_fmap. destruct (decide (k < old_count x.2)) as [Hk|Hk].
    - rewrite lookup_seqZ_lt, lookup_take_lt by lia. simpl. unfold latent_at. rewrite Z.add_0_l, Nat2Z.id.
      destruct (lookup_lt_is_Some_2 (ml_latents x.2) k) as [l ->]; [lia|done].
    - rewrite lookup_seqZ_ge, lookup_take_ge by lia. done. }
  assert (Hvis : forall j, visible true (new_row x.2) j = kv_of <$> take (j + 1) (new_latents x.2)).
  { intros j. unfold visible, new_row. cbn [ar_keys ar_values ar_q]. rewrite zip_kv, length_fmap, fmap_take. f_equal. lia. }
  transitivity (imap (fun j t => token_part scale V (seen_kvs (row_cells old_lens) x ++ visible true (new_row x.2) j) t) (ml_q x.2)).
  - unfold seen_o, seen_lse, row_part, row_lse. cbn [new_row ar_q].
    rewrite (merge_row scale nh V (ml_q x.2) (fun _ => seen_kvs (row_cells old_lens) x) (visible true (new_row x.2))); [done| |].
    + intros j Hj. rewrite Hseen, Hvis. split_and!; [apply kvs_values; by apply Forall_take|apply kvs_values; by apply Forall_take, Forall_drop|].
      intros He. apply (f_equal length) in He. rewrite length_fmap, length_take in He. simpl in He. lia.
    + eapply Forall_impl; [exact Sq|]. by intros t [? _].
  - unfold row_output. cbn [expanded ar_q ar_keys ar_values]. apply imap_ext. intros j t Ht.
    pose proof (lookup_lt_Some _ _ _ Ht) as Hj. rewrite zip_kv, length_fmap, Hseen, Hvis, <-fmap_app, <-fmap_take.
    assert (Hcat : take (old_count x.2) (ml_latents x.2) ++ take (j + 1) (new_latents x.2) =
      take (length (ml_latents x.2) - length (ml_q x.2) + j + 1) (ml_latents x.2)).
    { unfold new_latents. rewrite take_take_drop. f_equal. unfold old_count. lia. }
    rewrite Hcat. apply token_part_attention. intros He. apply (f_equal length) in He. rewrite length_fmap, length_take in He. simpl in He. lia.
Qed.

Local Abbreviation planned_ok chunks := (Planned c q_lens old_lens tables (ma_max_context_chunk self) chunks).

(** The chunks that a context keeps. *)
Definition kept_chunks (split : bool) (s : MLAState F) : option (list ContextChunk) := if split then ms_split_chunks s else ms_chunks s.

Lemma row_lens i r : rows !! i = Some r -> old_lens !! i = Some (Z.of_nat (old_count r)) /\ q_lens !! i = Some (Zlen (ml_q r)) /\
  (0 < Zlen (ml_q r))%Z /\ Zlen (ml_latents r) = (Z.of_nat (old_count r) + Zlen (ml_q r))%Z.
Proof using Hrows.
  clear -Hrows. intros Hr. pose proof (Forall_lookup_1 _ _ _ _ Hrows Hr) as Hok. destruct (new_latents_length r Hok) as [_ Ho].
  destruct (mo_len _ _ _ Hok). rewrite !list_lookup_fmap, Hr. simpl. unfold Zlen. split_and!; (done || lia).
Qed.

Lemma no_chunks_no_old : row_cells old_lens = [] -> Forall (fun r => old_count r = 0) rows.
Proof using.
  clear. intros He. apply Forall_lookup. intros i r Hr. destruct (decide (old_count r = 0)) as [|Hn]; [done|].
  assert (Hin : 0%Z ∈ seen i (row_cells old_lens)).
  { rewrite (seen_row_cells _ _ (Z.of_nat (old_count r))) by by rewrite list_lookup_fmap, Hr. apply elem_of_seqZ_iff. lia. }
  rewrite He in Hin. by apply elem_of_nil in Hin.
Qed.

Lemma planned_nil : planned_ok [] -> row_cells old_lens = [].
Proof using. clear. intros (plans & _ & <- & Hch). by inversion Hch. Qed.

(** Rows without old latents: a prefill of the new tokens alone. *)
Lemma whole_prefill context x : rows <> [] -> Forall (fun r => old_count r = 0) rows ->
  BatchContext context q_lens (Zlen <$> (ml_latents <$> rows)) (Zlen <$> (ml_latents <$> rows)) tables ->
  wp (prefill (concat (ml_q <$> rows)) (key_of self <$> concat (new_latents <$> rows)) (value_of self <$> concat (new_latents <$> rows))
        no_caches (context <| cx_block_tables := None |>)) x
    (fun o x' => x' = x /\ o = concat (row_output scale 1 <$> (expanded self <$> rows))).
Proof using Hp Hrows MLABackendOk0.
  clear Hheld Hc. intros Hne Hold Hb. rewrite !fmap_concat_rows.
  assert (Hexp : forall r, r ∈ rows -> new_row r = expanded self r).
  { intros r Hr. unfold new_row, expanded, new_latents. rewrite Forall_forall in Hold. by rewrite (Hold r Hr), drop_0. }
  assert (Hexpl : new_row <$> rows = expanded self <$> rows).
  { apply list_fmap_ext. intros _ r Hr%list_elem_of_lookup_2. by apply Hexp. }
  assert (Hks : Zlen <$> (ml_latents <$> rows) = q_lens).
  { rewrite <-!list_fmap_compose. apply list_fmap_ext. intros i r Hr. unfold compose. destruct (row_lens i r Hr) as (_ & _ & _ & ->).
    rewrite (Forall_lookup_1 _ _ _ _ Hold Hr). lia. }
  rewrite Hks in Hb. pose proof Hne as Hne'.
  assert (Hqne : q_lens <> []) by by destruct rows.
  eapply wp_mono.
  - assert (Hrw : forall {A} (f : AttnRow F -> list A), concat (f <$> (new_row <$> rows)) = concat ((fun r => f (new_row r)) <$> rows)).
    { intros A f. by rewrite <-list_fmap_compose. }
    pose proof (unpaged_ok (scale := scale) (nh := nh) (d := P + rope) (e := V) (lat := L + rope) (L := L) (new_row <$> rows)
      (context <| cx_block_tables := None |>) x) as Hu. rewrite (Hrw _ ar_q), (Hrw _ ar_keys), (Hrw _ ar_values) in Hu. apply Hu.
    + apply Forall_fmap. eapply Forall_impl; [exact Hrows|]. intros r Hr. by apply new_row_ok.
    + by destruct rows.
    + apply Forall_fmap. eapply Forall_impl; [exact Hrows|]. intros r Hr. simpl. rewrite length_fmap. symmetry. by apply new_latents_length.
    + rewrite (proj1 new_row_lens). destruct Hb as [_ _ H1 H2 _ _ H3 H4 _]. split; simpl; try done; [by apply H3|by apply H4].
  - intros o x' [-> ->]. by rewrite Hexpl.
Qed.

Lemma mla_prefill_ok split context s : rows <> [] -> (0 < ma_max_context_chunk self)%Z -> ms_latents s = c ->
  BatchContext context q_lens (Zlen <$> (ml_latents <$> rows)) (Zlen <$> (ml_latents <$> rows)) tables ->
  (forall chunks, kept_chunks split s = Some chunks -> planned_ok chunks) ->
  wp (mla_prefill self split (concat (ml_q <$> rows)) (concat (new_latents <$> rows)) context) s (fun o s' =>
    o = concat (row_output scale 1 <$> (expanded self <$> rows)) /\ ms_latents s' = c /\ ms_context s' = ms_context s /\
    kept_chunks (negb split) s' = kept_chunks (negb split) s /\
    (forall chunks, kept_chunks split s' = Some chunks -> planned_ok chunks)).
Proof using Hp Hrows Hc Hheld MLABackendOk0.
  intros Hne Hbudget Hlat Hb Hpl. unfold mla_prefill. wp_step. wp_step. rewrite Hlat, (po_expand _ _ Hp) by apply latents_wide. cbn [fst snd].
  rewrite (bc_tables _ _ _ _ _ Hb). wp_step.
  eapply wp_mono with (P := fun chunks s' => planned_ok chunks /\ kept_chunks split s' = Some chunks /\ ms_latents s' = c /\
    ms_context s' = ms_context s /\ kept_chunks (negb split) s' = kept_chunks (negb split) s).
  { assert (Hck : wp (context_chunks context (Z.of_nat (pg_size c)) (ma_max_context_chunk self)) (kept_chunks split s)
      (fun chunks p => p = Some chunks /\ planned_ok chunks)).
    { apply (context_chunks_spec c q_lens old_lens tables) with (k_lens := Zlen <$> (ml_latents <$> rows)).
      - apply Hc.
      - intros [i p] Hcell. destruct (old_cell _ Hcell) as (r & Hr & Hpp). cbn [fst snd] in *.
        destruct (row_lens i r Hr) as (_ & _ & Hq0 & Hl). destruct (cell_held i r p Hr) as (sl & Hs & _); [lia|]. split; [lia|by eexists].
      - by rewrite !length_fmap.
      - by rewrite !length_fmap.
      - done.
      - apply Forall_fmap, Forall_forall. intros r _. simpl. lia.
      - apply list_eq. intros i. rewrite lookup_zip_with, !list_lookup_fmap. destruct (rows !! i) as [r|] eqn:Hr; [|done]. simpl.
        f_equal. by apply (row_lens i r Hr).
      - apply (bc_q _ _ _ _ _ Hb).
      - apply (bc_k _ _ _ _ _ Hb).
      - apply (bc_tables _ _ _ _ _ Hb).
      - exact Hpl. }
    unfold on_chunks, kept_chunks in *. destruct split; apply wp_zoom; (eapply wp_mono; [exact Hck|]); intros chunks p [-> Hok]; by split_and!. }
  intros chunks s1 (Hok & Hk1 & Hl1 & Hx1 & Ho1).
  assert (Hdone : forall o s', o = concat (row_output scale 1 <$> (expanded self <$> rows)) -> s' = s1 ->
    o = concat (row_output scale 1 <$> (expanded self <$> rows)) /\ ms_latents s' = c /\ ms_context s' = ms_context s /\
    kept_chunks (negb split) s' = kept_chunks (negb split) s /\ (forall chunks, kept_chunks split s' = Some chunks -> planned_ok chunks)).
  { intros o s' -> ->. split_and!; try done. intros chunks' Hk'. rewrite Hk1 in Hk'. by injection Hk' as <-. }
  assert (Hput : forall x', x' = ms_context s1 -> s1 <| ms_context := x' |> = s1) by (intros x' ->; by destruct s1).
  destruct chunks as [|chunk chunks].
  { pose proof (no_chunks_no_old (planned_nil Hok)) as Hold. apply wp_zoom.
    wp_call (whole_prefill context (ms_context s1) Hne Hold Hb). intros o x' [-> ->]. apply Hdone; [done|by apply Hput]. }
  rewrite (bc_dev_q _ _ _ _ _ Hb). cbn [or_raise]. wp_step. wp_step.
  assert (Hqne : q_lens <> []) by by destruct rows.
  rewrite (bc_max_q _ _ _ _ _ Hb Hqne), !fmap_concat_rows. wp_step. apply wp_zoom.
  assert (Hnew : wp (varlen_with_lse (concat (ml_q <$> rows)) (concat ((fun r => key_of self <$> new_latents r) <$> rows))
      (concat ((fun r => value_of self <$> new_latents r) <$> rows)) (cumulative q_lens) (cumulative q_lens) (max_default q_lens 0)
      (max_default q_lens 0) true) (ms_context s1) (fun r x' => x' = ms_context s1 /\
        r.1 = concat (row_part scale V true <$> (new_row <$> rows)) /\ r.2 = concat (row_lse scale true <$> (new_row <$> rows)))).
  { pose proof (varlen_ok (scale := scale) (nh := nh) (d := P + rope) (e := V) (lat := L + rope) (L := L) (new_row <$> rows) true (ms_context s1)) as Hv.
    destruct new_row_lens as [Hl2 Hl3]. rewrite Hl2, Hl3 in Hv.
    assert (Hrw : forall {A} (f : AttnRow F -> list A), concat (f <$> (new_row <$> rows)) = concat ((fun r => f (new_row r)) <$> rows)).
    { intros A f. by rewrite <-list_fmap_compose. }
    rewrite (Hrw _ ar_q), (Hrw _ ar_keys), (Hrw _ ar_values) in Hv. apply Hv.
    - apply Forall_fmap. eapply Forall_impl; [exact Hrows|]. intros r Hr. by apply new_row_ok.
    - by destruct rows.
    - intros _. apply Forall_fmap. eapply Forall_impl; [exact Hrows|]. intros r Hr. simpl. rewrite length_fmap.
      destruct (new_latents_length r Hr) as [-> _]. done. }
  eapply wp_mono; [exact Hnew|]. intros [o lse] x' (-> & Ho & Hlse). cbn [fst snd] in Ho, Hlse. rewrite (Hput _ eq_refl). cbn [fst snd]. wp_step.
  assert (Htag : forall {A} (f : AttnRow F -> list A), concat (f <$> (new_row <$> rows)) = concat ((fun x => f (new_row x.2)) <$> tagged rows)).
  { intros A f. rewrite (tagged_fmap (fun r => f (new_row r))). by rewrite <-list_fmap_compose. }
  rewrite Ho, Hlse, !Htag.
  assert (Hinit : (replicate (length (concat ((fun x => row_part scale V true (new_row x.2)) <$> tagged rows))) (replicate nh (replicate V fzero)),
    (fun l : list (Lse F) => replicate (length l) None) <$> concat ((fun x => row_lse scale true (new_row x.2)) <$> tagged rows)) = acc_of []).
  { rewrite replicate_rows, fmap_concat_rows. f_equal; f_equal; apply list_fmap_ext; intros _ x Hx%list_elem_of_lookup_2; apply list_eq; intros j;
      destruct (Forall_lookup_1 _ _ _ _ Hrows (tags_in x Hx)) as [Sq _ _]; unfold row_part, row_lse, seen_o, seen_lse; cbn [new_row ar_q].
    - rewrite length_imap, list_lookup_imap. destruct (ml_q x.2 !! j) as [t|] eqn:Ht.
      + rewrite lookup_replicate_2 by by eapply lookup_lt_Some. simpl. f_equal. destruct (Forall_lookup_1 _ _ _ _ Sq Ht) as [Lt _].
        unfold token_part, seen_kvs. simpl. rewrite <-Lt. clear. induction t as [|h t IH]; [done|]. simpl. by rewrite IH.
      + apply lookup_ge_None_2. rewrite length_replicate. by apply lookup_ge_None_1.
    - rewrite list_lookup_fmap, !list_lookup_imap. destruct (ml_q x.2 !! j) as [t|] eqn:Ht; [|done]. simpl. f_equal.
      unfold token_lse, seen_kvs. rewrite length_imap. clear. simpl. induction t as [|h t IH]; [done|]. simpl. by rewrite IH. }
  rewrite Hinit. destruct Hok as (plans & Hplans & Hcells & Hch). rewrite !length_fmap in Hplans.
  apply wp_zoom. wp_call (attend_chunks_ok (ma_max_context_chunk self) plans (chunk :: chunks) [] (ms_context s1) Hplans Hch).
  { simpl. by rewrite Hcells. }
  intros acc x' (-> & ->). rewrite (Hput _ eq_refl). simpl app. rewrite Hcells. wp_step. apply Hdone; [|done]. cbn [fst snd].
  rewrite merge_rows.
  2: { intros x _. destruct (seen_lengths (row_cells old_lens) x) as [-> ->]. unfold row_part, row_lse. cbn [new_row ar_q]. by rewrite !length_imap. }
  cbn [fst]. f_equal. rewrite <-list_fmap_compose, <-(tagged_fmap (row_output scale 1 ∘ expanded self) rows).
  apply list_fmap_ext. intros _ x Hx%list_elem_of_lookup_2. by apply merge_old_new.
Qed.

End Given.
End Prefill.

(** ** The layer *)

Section Layer.
Context {F : Type} `{!Scalar F} `{!Softmax F} `{!LogSumExp F} `{!AttentionBackend F} `{!MLABackend F}.
Local Abbreviation mat := (list (list F)).
Variable self : MLAAttention F.
Variable rope : nat.
Local Abbreviation nh := (ma_num_heads self).
Local Abbreviation P := (ma_nope_dim self).
Local Abbreviation L := (ma_kv_lora_rank self).
Local Abbreviation V := (ma_v_head_dim self).
Local Abbreviation scale := (ma_scale self).
Context `{!MLABackendOk scale nh (P + rope) V (L + rope) L}.
Hypothesis Hp : ProjectionsOk self rope.
Hypothesis Hbudget : (0 < ma_max_context_chunk self)%Z.

Local Abbreviation q_lens rows := (Zlen <$> (ml_q <$> rows)).
Local Abbreviation dev_lens rows := (Zlen <$> (ml_latents <$> rows)).
Local Abbreviation old_lens rows := ((fun r => Z.of_nat (old_count r)) <$> rows).
Local Abbreviation tables rows := (ml_table <$> rows).
Local Abbreviation slots c := (slots_of ml_table old_count (fun r => length (ml_q r)) c).
Local Abbreviation outputs rows := (concat (row_output scale 1 <$> (expanded self <$> rows))).

(** Rows that a split leaves to prefill. *)
Definition rest_rows (query_len : Z) (rows : list (MLARow F)) : list (MLARow F) := drop (leading_rows query_len (q_lens rows)) rows.

(** A step: rows whose earlier latents the cache holds, with slots of their own for the new ones. The host knows the
    lengths of the rows whose latents expand. *)
Record MLAStepOk (c : Pages (list F)) (context : Fields) (rows : list (MLARow F)) (k_lens : list Z) : Prop := {
  me_rows : Forall (MLARowOk self rope) rows;
  me_some : rows <> [];
  me_latents : LatentsOk (L + rope) c;
  me_context : ContextOk c context (expanded self <$> rows) k_lens;
  me_exact : supports_mla_decode = false \/ cx_is_prefill context = true ->
    let n := if supports_mla_decode then leading_rows (cx_decode_query_len context) (q_lens rows) else 0 in
    drop n k_lens = drop n (dev_lens rows);
  me_uniform : supports_mla_decode = true -> cx_is_prefill context = false -> exists n, Forall (fun r => length (ml_q r) = n) rows;
  me_slots : cx_slot_mapping context = Some (concat (slots c <$> rows));
  me_placed : Placed ml_table old_count (fun r => length (ml_q r)) c rows;
  me_held : Forall (fun r => Holds c (ml_table r) (take (old_count r) (ml_latents r))) rows
}.

(** What the context keeps for the layers to come: its splits, and its chunks and its split's. *)
Record Kept (rows : list (MLARow F)) (k_lens : list Z) (s : MLAState F) : Prop := {
  kp_splits : Cached (q_lens rows) k_lens (dev_lens rows) (tables rows) (ms_context s);
  kp_chunks chunks : ms_chunks s = Some chunks ->
    Planned (ms_latents s) (q_lens rows) (old_lens rows) (tables rows) (ma_max_context_chunk self) chunks;
  kp_split_chunks chunks : ms_split_chunks s = Some chunks ->
    let rest := rest_rows (cx_decode_query_len (cx_fields (ms_context s))) rows in
    Planned (ms_latents s) (q_lens rest) (old_lens rest) (tables rest) (ma_max_context_chunk self) chunks
}.

(** Chunks depend on the pages' size alone. *)
Lemma Planned_size (c c' : Pages (list F)) ql ol tb budget chunks : pg_size c = pg_size c' ->
  Planned c ql ol tb budget chunks -> Planned c' ql ol tb budget chunks.
Proof using.
  clear. intros Hs (plans & H1 & H2 & H3). exists plans. split_and!; [done|done|]. eapply Forall2_impl; [exact H3|].
  intros plan chunk [A B C D E1 G]. split; try done. rewrite G. apply list_fmap_ext. intros _ cell _. f_equal.
  unfold cell_slot. destruct (tb !! cell.1); [|done]. simpl. by apply table_slot_size.
Qed.

Lemma expanded_lens (rows : list (MLARow F)) : Zlen <$> (ar_q <$> (expanded self <$> rows)) = q_lens rows /\
  Zlen <$> (ar_keys <$> (expanded self <$> rows)) = dev_lens rows /\ ar_table <$> (expanded self <$> rows) = tables rows.
Proof using.
  clear. rewrite <-!list_fmap_compose. split_and!; apply list_fmap_ext; intros _ r _; try done. unfold compose, Zlen. simpl. by rewrite length_fmap.
Qed.

Lemma leading_rows_unique q lens n : n <= length lens -> Forall (fun x => x = q) (take n lens) -> (forall x, lens !! n = Some x -> x <> q) ->
  n = leading_rows q lens.
Proof using.
  clear. intros Hn Hall Hnext. destruct (leading_rows_spec q lens) as (Hm & Hall' & Hnext').
  destruct (Nat.lt_trichotomy n (leading_rows q lens)) as [Hlt|[|Hlt]]; [|done|].
  - destruct (lookup_lt_is_Some_2 lens n) as [x Hx]; [lia|]. destruct (Hnext x Hx).
    apply (Forall_lookup_1 _ _ n x Hall'). by rewrite lookup_take_lt.
  - destruct (lookup_lt_is_Some_2 lens (leading_rows q lens)) as [x Hx]; [lia|]. destruct (Hnext' x Hx).
    apply (Forall_lookup_1 _ _ (leading_rows q lens) x Hall). by rewrite lookup_take_lt.
Qed.

(** Contexts see rows' lengths and tables alone. *)
Lemma ContextOk_same {E X} (c : Pages E) context (f g : X -> AttnRow F) (l : list X) k_lens :
  (forall x, length (ar_q (f x)) = length (ar_q (g x)) /\ length (ar_keys (f x)) = length (ar_keys (g x)) /\ ar_table (f x) = ar_table (g x)) ->
  ContextOk c context (f <$> l) k_lens -> ContextOk c context (g <$> l) k_lens.
Proof using.
  clear. intros Hfg [Hb Hbound Hids (w & Hw & Hm)].
  assert (H1 : Zlen <$> (ar_q <$> (f <$> l)) = Zlen <$> (ar_q <$> (g <$> l)) /\
    Zlen <$> (ar_keys <$> (f <$> l)) = Zlen <$> (ar_keys <$> (g <$> l)) /\ ar_table <$> (f <$> l) = ar_table <$> (g <$> l)).
  { rewrite <-!list_fmap_compose. split_and!; apply list_fmap_ext; intros _ x _; unfold compose, Zlen; destruct (Hfg x) as (G1 & G2 & G3); by rewrite ?G1, ?G2, ?G3. }
  destruct H1 as (E1 & E2 & E3). rewrite E1, E2, E3 in Hb. rewrite Forall2_fmap_l in Hbound. rewrite Forall_fmap in Hids, Hw. split.
  - done.
  - apply Forall2_fmap_l. eapply Forall2_impl; [exact Hbound|]. intros x n. unfold compose, Zlen. by destruct (Hfg x) as (_ & -> & _).
  - apply Forall_fmap. eapply Forall_impl; [exact Hids|]. intros x. unfold compose. by destruct (Hfg x) as (_ & _ & ->).
  - exists w. split; [|done]. apply Forall_fmap. eapply Forall_impl; [exact Hw|]. intros x. unfold compose. by destruct (Hfg x) as (_ & _ & ->).
Qed.

(** A decode in the latents' space. *)
Lemma decode_latents_ok rows context k_lens n s : supports_mla_decode = true -> Forall (MLARowOk self rope) rows -> rows <> [] ->
  LatentsOk (L + rope) (ms_latents s) -> ContextOk (ms_latents s) context (expanded self <$> rows) k_lens ->
  Forall (fun r => Holds (ms_latents s) (ml_table r) (ml_latents r)) rows -> Forall (fun r => length (ml_q r) = n) rows ->
  wp (decode_latents self (concat (ml_q <$> rows)) context) s (fun o s' => s' = s /\ o = outputs rows).
Proof using Hp MLABackendOk0.
  intros Hs Hrows Hne Hc Hctx Hheld Hn. unfold decode_latents. wp_step. wp_step. wp_step. apply wp_zoom.
  set (moved := fun r : MLARow F => {| ml_q := imap (absorb_head self) <$> ml_q r; ml_latents := ml_latents r; ml_table := ml_table r |}).
  assert (Hq : imap (absorb_head self) <$> concat (ml_q <$> rows) = concat (ml_q <$> (moved <$> rows))).
  { rewrite fmap_concat_rows, <-list_fmap_compose. done. }
  assert (Hlr : latent_row L <$> (moved <$> rows) = absorbed self <$> rows) by by rewrite <-list_fmap_compose.
  rewrite Hq.
  pose proof (mla_decode_ok (scale := scale) (nh := nh) (d := P + rope) (e := V) (lat := L + rope) (L := L) (moved <$> rows) (ms_latents s) context
    k_lens n (ms_context s) Hs) as Hd.
  eapply wp_mono; [apply Hd|].
  - apply Forall_fmap. eapply Forall_impl; [exact Hrows|]. intros r [Sq Wl Hlen]. split; simpl; [|done|by rewrite length_fmap].
    apply Forall_fmap. eapply Forall_impl; [exact Sq|]. intros t [Lt Wt]. simpl. split; [by rewrite length_imap|].
    apply Forall_lookup. intros h qh Hh. rewrite list_lookup_imap in Hh. destruct (t !! h) as [q|] eqn:Hq'; [|done]. injection Hh as <-.
    pose proof (Forall_lookup_1 _ _ _ _ Wt Hq') as Lq. simpl in Lq. unfold absorb_head. rewrite length_app, length_drop, row_times_length; [lia|].
    destruct Hp as [_ (_ & Hk & _) Huk _ _]. destruct (lookup_lt_is_Some_2 (pj_W_UK_T (ma_latent_projections self)) h) as [w Hw].
    { rewrite Hk. rewrite <-Lt. by eapply lookup_lt_Some. }
    rewrite Hw. simpl. apply (Forall_lookup_1 _ _ _ _ Huk Hw).
  - by destruct rows.
  - done.
  - rewrite Hlr. apply (ContextOk_same _ _ (expanded self)); [|done]. intros r. simpl. by rewrite !length_fmap.
  - by apply Forall_fmap.
  - apply Forall_fmap. eapply Forall_impl; [exact Hn|]. intros r Hr. simpl in *. by rewrite length_fmap.
  - intros o x' [-> ->]. apply wp_ret. split; [by destruct s|]. rewrite Hlr, fmap_concat_rows. f_equal.
    rewrite <-!list_fmap_compose. apply list_fmap_ext. intros i r Hr. unfold compose. apply (absorb_row self rope Hp).
    apply (Forall_lookup_1 _ _ _ _ Hrows Hr).
Qed.

(** ** Splitting *)

Section Attend.
Variable rows : list (MLARow F).
Variable k_lens : list Z.
Variable context : Fields.
Hypothesis Hrows : Forall (MLARowOk self rope) rows.
Hypothesis Hne : rows <> [].

(** A cache that holds all latents of the rows. *)
Record Filled (c : Pages (list F)) : Prop := {
  fi_latents : LatentsOk (L + rope) c;
  fi_context : ContextOk c context (expanded self <$> rows) k_lens;
  fi_held : Forall (fun r => Holds c (ml_table r) (ml_latents r)) rows
}.

(** The rest of a step. *)
Definition AttendedTo (s : MLAState F) (o : list mat) (s' : MLAState F) : Prop :=
  o = outputs rows /\ ms_latents s' = ms_latents s /\ cx_fields (ms_context s') = cx_fields (ms_context s) /\ Kept rows k_lens s'.

Lemma whole_batch c : Filled c -> k_lens = dev_lens rows -> BatchContext context (q_lens rows) (dev_lens rows) (dev_lens rows) (tables rows).
Proof using.
  clear. intros [_ [Hb _ _ _] _] Hk. destruct (expanded_lens rows) as (E1 & E2 & E3). by rewrite E1, E2, E3, Hk in Hb.
Qed.

(** All rows expand. *)
Lemma prefill_whole s : Filled (ms_latents s) -> k_lens = dev_lens rows -> cx_fields (ms_context s) = context -> Kept rows k_lens s ->
  wp (mla_prefill self false (concat (ml_q <$> rows)) (concat (new_latents <$> rows)) context) s (AttendedTo s).
Proof using Hp Hbudget Hrows Hne MLABackendOk0.
  intros Hf Hk Hx [K1 K2 K3]. pose proof (whole_batch _ Hf Hk) as Hb. destruct Hf as [Hc _ Hh].
  eapply wp_mono; [by apply (mla_prefill_ok self rope Hp (ms_latents s) rows Hrows Hc Hh false context s)|].
  intros o s' (-> & Hl & Hx' & Hs & Hpl). simpl in Hs, Hpl. unfold AttendedTo. rewrite Hx', Hl. split_and!; try done.
  split; [by rewrite Hx'|by rewrite Hl|]. rewrite Hs, Hx', Hl. exact K3.
Qed.

(** All rows decode. *)
Lemma decode_whole d s n : supports_mla_decode = true -> Filled (ms_latents s) -> ContextOk (ms_latents s) d (expanded self <$> rows) k_lens ->
  Forall (fun r => length (ml_q r) = n) rows -> Kept rows k_lens s ->
  wp (decode_latents self (concat (ml_q <$> rows)) d) s (AttendedTo s).
Proof using Hp Hrows Hne MLABackendOk0.
  intros Hs [Hc _ Hh] Hd Hn HK. eapply wp_mono; [by apply (decode_latents_ok rows d k_lens n s)|].
  by intros o s' [-> ->].
Qed.

(** The step's part after the latents are stored. *)
Lemma attend_split s : supports_mla_decode = true -> Filled (ms_latents s) -> cx_fields (ms_context s) = context -> Kept rows k_lens s ->
  let n := leading_rows (cx_decode_query_len context) (q_lens rows) in drop n k_lens = drop n (dev_lens rows) ->
  wp (let! sp := on_context (split_decodes_and_prefills (cx_decode_query_len context)) in
    match sp_decodes sp, sp_prefills sp with
    | None, PSelf => mla_prefill self false (concat (ml_q <$> rows)) (concat (new_latents <$> rows)) context
    | None, PNew p => mla_prefill self true (concat (ml_q <$> rows)) (concat (new_latents <$> rows)) p
    | None, PNone_ => raise (AssertionError "")
    | Some d, PNone_ => decode_latents self (concat (ml_q <$> rows)) d
    | Some d, p =>
        let n := (sp_rows sp * cx_max_seqlen_q d)%Z in
        let! first := decode_latents self (py_upto (concat (ml_q <$> rows)) n) d in
        let! rest :=
          match p with
          | PNew p => mla_prefill self true (py_from (concat (ml_q <$> rows)) n) (py_from (concat (new_latents <$> rows)) n) p
          | _ => mla_prefill self false (py_from (concat (ml_q <$> rows)) n) (py_from (concat (new_latents <$> rows)) n) context
          end in
        ret (first ++ rest)
    end) s (AttendedTo s).
Proof using Hp Hbudget Hrows Hne MLABackendOk0.
  intros Hs Hf Hx HK n Hex. set (ql := cx_decode_query_len context). destruct (expanded_lens rows) as (E1 & E2 & E3).
  wp_step. apply wp_zoom. wp_call (split_spec ql (q_lens rows) k_lens (dev_lens rows) (tables rows)).
  { rewrite Hx. pose proof (cr_batch _ _ _ _ (fi_context _ Hf)) as Hb. by rewrite E1, E2, E3 in Hb. }
  { apply HK. }
  intros sp x' (Hsp & Hxf & Hcx & _). set (s1 := s <| ms_context := x' |>).
  assert (HK1 : Kept rows k_lens s1).
  { destruct HK as [K1 K2 K3]. split; unfold s1; simpl; [done|done|]. by rewrite Hxf. }
  assert (Hdone : forall o s', AttendedTo s1 o s' -> AttendedTo s o s').
  { intros o s' (Ho & Hl & Hx' & HK'). split_and!; [done|done| |done]. rewrite Hx'. unfold s1. simpl. exact Hxf. }
  destruct Hsp as (Hn0 & Hn & Hall & Hnext & Hdec & Hpre). rewrite !length_fmap in Hn, Hpre.
  assert (Hlead : Z.to_nat (sp_rows sp) = n) by (apply leading_rows_unique; [by rewrite !length_fmap|done|done]).
  rewrite Hlead in *. set (ds := take n rows). set (ps := drop n rows).
  destruct (sp_decodes sp) as [d|].
  2: { subst n. rewrite Hdec in *. destruct (sp_prefills sp) as [| |pc]; [by destruct rows| |lia].
    eapply wp_mono; [apply (prefill_whole s1); try done; unfold s1; simpl; by rewrite ?Hxf|]. exact Hdone. }
  destruct Hdec as (Hpos & Hmaxq & Hd).
  assert (Hqd : Forall (fun r => length (ml_q r) = Z.to_nat ql) ds).
  { rewrite <-!fmap_take, <-list_fmap_compose, Forall_fmap in Hall. eapply Forall_impl; [exact Hall|]. intros r Hr. unfold compose, Zlen in Hr. lia. }
  assert (Hdc : ContextOk (ms_latents s) d (expanded self <$> ds) (take n k_lens)).
  { apply (ContextOk_part _ context _ (expanded self <$> rows) _ k_lens); [apply Hf| | | |].
    - destruct (expanded_lens ds) as (-> & -> & ->). rewrite <-!fmap_take in Hd. exact Hd.
    - intros r. unfold ds. rewrite fmap_take. intros [j Hj]%list_elem_of_lookup. apply lookup_take_Some in Hj as [Hj _]. by apply list_elem_of_lookup_2 in Hj.
    - unfold ds. rewrite fmap_take. apply Forall2_take, (cr_bound _ _ _ _ (fi_context _ Hf)).
    - intros m [j Hj]%list_elem_of_lookup. apply lookup_take_Some in Hj as [Hj _]. by apply list_elem_of_lookup_2 in Hj. }
  assert (Hrd : Forall (MLARowOk self rope) ds) by by apply Forall_take.
  assert (Hhd : Forall (fun r => Holds (ms_latents s1) (ml_table r) (ml_latents r)) ds) by by apply Forall_take, Hf.
  assert (Hdne : ds <> []).
  { intros He. apply (f_equal length) in He. unfold ds in He. rewrite length_take in He. simpl in He. lia. }
  assert (Hrun : wp (decode_latents self (concat (ml_q <$> ds)) d) s1 (fun o s' => s' = s1 /\ o = outputs ds)).
  { apply (decode_latents_ok ds d (take n k_lens) (Z.to_nat ql) s1); try done. apply Hf. }
  destruct (sp_prefills sp) as [| |pc]; [|lia|].
  { assert (ds = rows) as Hds by (unfold ds; apply take_ge; lia). rewrite Hds in Hrun.
    eapply wp_mono; [exact Hrun|]. intros o s' [-> ->]. by apply Hdone. }
  destruct Hpre as ([_ Hlt] & _ & Hpb).
  assert (Hcut : forall {A} (h : MLARow F -> list A), (forall r, r ∈ rows -> length (h r) = length (ml_q r)) ->
    py_upto (concat (h <$> rows)) (sp_rows sp * cx_max_seqlen_q d) = concat (h <$> ds) /\
    py_from (concat (h <$> rows)) (sp_rows sp * cx_max_seqlen_q d) = concat (h <$> ps)).
  { intros A h Hh. rewrite Hmaxq.
    assert (Hl : Z.of_nat (length (concat (h <$> ds))) = (sp_rows sp * ql)%Z).
    { change (Zlen (concat (h <$> ds)) = (sp_rows sp * ql)%Z). rewrite Zsum_lengths.
      assert (Hsum : forall l : list (MLARow F), Forall (fun r => length (ml_q r) = Z.to_nat ql) l -> (forall r, r ∈ l -> r ∈ rows) -> (l <> [] -> 0 <= ql)%Z ->
        Zsum (Zlen <$> (h <$> l)) = (Z.of_nat (length l) * ql)%Z).
      { clear -Hh. intros l. induction l as [|r l IH]; intros Hq Hin H0; [done|]. apply Forall_cons in Hq as [Hr Hq].
        rewrite !fmap_cons. change (Zsum (Zlen (h r) :: (Zlen <$> (h <$> l)))) with (Zlen (h r) + Zsum (Zlen <$> (h <$> l)))%Z.
        rewrite IH; [|done|intros y Hy; apply Hin; by constructor|intros _; by apply H0].
        unfold Zlen. rewrite Hh by (apply Hin; constructor). specialize (H0 ltac:(done)). simpl length. lia. }
      rewrite Hsum; [|done| |].
      - unfold ds. rewrite length_take, Nat.min_l by lia. lia.
      - intros r [j Hj]%list_elem_of_lookup. apply lookup_take_Some in Hj as [Hj _]. by apply list_elem_of_lookup_2 in Hj.
      - intros _. destruct ds as [|r l]; [done|]. apply Forall_cons in Hqd as [Hr _]. apply Forall_cons in Hrd as [[_ _ Hlen] _]. lia. }
    assert (Hsp : concat (h <$> rows) = concat (h <$> ds) ++ concat (h <$> ps)) by (rewrite <-concat_app, <-fmap_app; unfold ds, ps; by rewrite take_drop).
    assert (Hpos' : py_pos (concat (h <$> rows)) (sp_rows sp * ql) = length (concat (h <$> ds))).
    { unfold py_pos. rewrite <-Hl. destruct (Z.ltb_spec (Z.of_nat (length (concat (h <$> ds)))) 0); [lia|]. rewrite Hsp, length_app. lia. }
    unfold py_upto, py_from. rewrite Hpos', Hsp. by rewrite take_app_length, drop_app_length. }
  cbn zeta. destruct (Hcut _ ml_q) as [-> ->]; [done|]. destruct (Hcut _ new_latents) as [_ ->].
  { intros r Hr. rewrite Forall_forall in Hrows. by apply (new_latents_length self rope r), Hrows. }
  wp_step. eapply wp_mono; [exact Hrun|]. intros first s2 [-> ->]. wp_step.
  assert (Hpb' : BatchContext pc (q_lens ps) (dev_lens ps) (dev_lens ps) (tables ps)).
  { rewrite Hex in Hpb. unfold ps. by rewrite !fmap_drop. }
  eapply wp_mono.
  - apply (mla_prefill_ok self rope Hp (ms_latents s1) ps) with (split := true) (context := pc); try done.
    + by apply Forall_drop.
    + apply Hf.
    + by apply Forall_drop, Hf.
    + intros He. apply (f_equal length) in He. unfold ps in He. rewrite length_drop in He. simpl in He. lia.
    + intros chunks Hch. apply (kp_split_chunks _ _ _ HK1) in Hch. unfold s1 in Hch. simpl in Hch. rewrite Hxf, Hx in Hch. exact Hch.
  - intros o s2 (-> & Hl2 & Hx2 & Hk2 & Hpl2). apply wp_ret. apply Hdone. split_and!; [|done|by rewrite Hx2|].
    + rewrite <-concat_app, <-!fmap_app. unfold ds, ps. by rewrite take_drop.
    + destruct HK1 as [K1 K2 K3]. simpl in Hk2, Hpl2. split; rewrite ?Hx2, ?Hl2; [done| |].
      * rewrite Hk2. exact K2.
      * intros chunks Hch. unfold s1. simpl. rewrite Hxf, Hx. by apply Hpl2.
Qed.

End Attend.

(** The rows' cache has blocks. *)
Lemma latents_filled c context rows k_lens : MLAStepOk c context rows k_lens -> numel c <> 0.
Proof using.
  clear. intros Hst. destruct rows as [|r rows'] eqn:Hr; [by destruct (me_some _ _ _ _ Hst)|].
  assert (Hin : r ∈ r :: rows') by constructor.
  pose proof (me_rows _ _ _ _ Hst) as Hrs. rewrite Forall_forall in Hrs. destruct (mo_len _ _ _ (Hrs r Hin)) as [H1 H2].
  destruct (pc_mapped _ _ _ _ _ (me_placed _ _ _ _ Hst) r 0 Hin) as [s Hs]; [lia|].
  pose proof (table_slot_nonneg _ _ _ _ Hs) as H0.
  pose proof (cr_ids _ _ _ _ (me_context _ _ _ _ Hst)) as Hids. rewrite Forall_fmap, Forall_forall in Hids.
  pose proof (table_slot_bound c _ _ _ (proj1 (me_latents _ _ _ _ Hst)) (Hids r Hin) Hs). lia.
Qed.

(** A step's new latents go to their slots; the cache then holds all of the rows'. *)
Lemma store_latents_spec c context rows k_lens : MLAStepOk c context rows k_lens ->
  wp (store_latents (concat (new_latents <$> rows)) (concat (slots c <$> rows))) c (fun _ c' =>
    Filled rows k_lens context c' /\ Stored c (concat (slots c <$> rows)) (concat (new_latents <$> rows)) c').
Proof using MLABackendOk0.
  intros Hst. destruct Hst as [Hrows Hne Hc Hctx _ _ _ Hpl Hheld].
  pose proof Hrows as Hrows'. rewrite Forall_forall in Hrows'. rewrite Forall_forall in Hheld.
  assert (Hnew : forall r, r ∈ rows -> length (new_latents r) = length (ml_q r)).
  { intros r Hr. by apply (new_latents_length self rope), Hrows'. }
  wp_call (store_latents_ok (scale := scale) (nh := nh) (d := P + rope) (e := V) (lat := L + rope) (L := L)).
  - done.
  - apply Forall_concat, Forall_fmap, Forall_forall. intros r Hr. apply Forall_drop, (mo_latents _ _ _ (Hrows' r Hr)).
  - by apply (slots_length ml_table old_count (fun r => length (ml_q r)) c).
  - apply (pc_private _ _ _ _ _ Hpl).
  - apply (slots_in_range _ _ _ _ _ Hpl); [apply Hc|]. pose proof (cr_ids _ _ _ _ Hctx) as Hids.
    rewrite Forall_fmap, Forall_forall in Hids. exact Hids.
  - intros _ c' (Hc' & Hs). split; [|done]. split; [done| |].
    + destruct Hctx as [H1 H2 H3 H4]. split; [done|done| |].
      * by rewrite (sd_blocks _ _ _ _ Hs).
      * by rewrite (sd_size _ _ _ _ Hs).
    + apply Forall_forall. apply (stored_held _ _ _ _ _ Hpl c c' ml_latents); [done| |done|done]. intros r Hr.
      destruct (mo_len _ _ _ (Hrows' r Hr)). unfold old_count. lia.
Qed.

(** A step of the layer. *)
Lemma mla_attend_ok rows k_lens s : MLAStepOk (ms_latents s) (cx_fields (ms_context s)) rows k_lens -> Kept rows k_lens s ->
  wp (mla_attend self (concat (ml_q <$> rows)) (concat (new_latents <$> rows))) s (fun o s' =>
    o = outputs rows /\ cx_fields (ms_context s') = cx_fields (ms_context s) /\ Kept rows k_lens s' /\
    LatentsOk (L + rope) (ms_latents s') /\ Forall (fun r => Holds (ms_latents s') (ml_table r) (ml_latents r)) rows /\
    Stored (ms_latents s) (concat (slots (ms_latents s) <$> rows)) (concat (new_latents <$> rows)) (ms_latents s')).
Proof using Hp Hbudget MLABackendOk0.
  intros Hst HK. unfold mla_attend. wp_steps. unfold id.
  rewrite (proj2 (Nat.eqb_neq _ _) (latents_filled (ms_latents s) (cx_fields (ms_context s)) rows k_lens Hst)), (me_slots _ _ _ _ Hst). cbn [or_raise]. wp_steps. apply wp_zoom.
  eapply wp_mono; [by apply (store_latents_spec (ms_latents s) (cx_fields (ms_context s)) rows k_lens)|]. intros _ c' (Hf & Hs). set (s1 := s <| ms_latents := c' |>).
  assert (HK1 : Kept rows k_lens s1).
  { destruct HK as [K1 K2 K3]. split; unfold s1; simpl; [done|..]; intros chunks Hch;
      (eapply Planned_size; [by symmetry; apply (sd_size _ _ _ _ Hs)|]); [by apply K2|by apply K3]. }
  assert (Hdone : forall o s', AttendedTo rows k_lens s1 o s' -> o = outputs rows /\ cx_fields (ms_context s') = cx_fields (ms_context s) /\
    Kept rows k_lens s' /\ LatentsOk (L + rope) (ms_latents s') /\ Forall (fun r => Holds (ms_latents s') (ml_table r) (ml_latents r)) rows /\
    Stored (ms_latents s) (concat (slots (ms_latents s) <$> rows)) (concat (new_latents <$> rows)) (ms_latents s')).
  { intros o s' (Ho & Hl & Hx & HK'). rewrite Hl. unfold s1. simpl. split_and!; try done; apply Hf. }
  pose proof (me_rows _ _ _ _ Hst) as Hrows. pose proof (me_some _ _ _ _ Hst) as Hne. pose proof (me_exact _ _ _ _ Hst) as Hex.
  destruct supports_mla_decode eqn:Hsup; cbn [negb].
  2: { eapply wp_mono; [|exact Hdone]. apply (prefill_whole rows k_lens _ Hrows Hne s1); try done. apply Hex. by left. }
  destruct (cx_is_prefill (cx_fields (ms_context s))) eqn:Hpre; cbn [negb].
  2: { destruct (me_uniform _ _ _ _ Hst Hsup Hpre) as [n Hn]. eapply wp_mono; [|exact Hdone].
    apply (decode_whole rows k_lens (cx_fields (ms_context s)) Hrows Hne _ s1 n); try done. apply Hf. }
  eapply wp_mono; [|exact Hdone].
  apply (attend_split rows k_lens (cx_fields (ms_context s)) Hrows Hne s1); try done. apply Hex. by right.
Qed.

End Layer.
