(* ===== verification/StepAttention.v ===== *)
(** * A step's attention, from its prepared batch

    The arrays that the runner prepares make a step of every plain attention
    layer: the rows are the batch's sequences, whose earlier keys the caches
    hold at the slots of their block tables. *)


From S2P Require Import Prelude Sequence Arrays AttnContext ModelRunner ModelRunnerFacts Tensors Ranks Attention MLA.
From S2P Require Import TorchAttention TorchFacts AttentionFacts MLAFacts MLAStep.

Section Batch.
Variable r : Runner.
Variable seqs : list Sequence.
Local Abbreviation batch := (batch_of r seqs).

(** A slot that a row writes is no other position's. *)
Definition OwnWithin (upto : Sequence -> Z) : Prop :=
  forall i j s s' p p', batch !! i = Some s -> batch !! j = Some s' ->
    (start_of r s <= p < upto s)%Z -> (0 <= p' < upto s')%Z -> slot_of r s p = slot_of r s' p' -> i = j /\ p = p'.

Definition OwnSlots : Prop := OwnWithin (end_of r).

(** As a check. *)
Definition own_within (upto : Sequence -> Z) : bool :=
  forallb (fun x => forallb (fun y => forallb (fun p => forallb (fun p' =>
      negb (slot_of r x.2 p =? slot_of r y.2 p')%Z || (x.1 =? y.1) && (p =? p')%Z)
    (seqZ 0 (upto y.2))) (seqZ (start_of r x.2) (upto x.2 - start_of r x.2))) (tagged batch)) (tagged batch).

Lemma own_within_ok upto : own_within upto = true -> OwnWithin upto.
Proof.
  unfold own_within. intros Hc i j s s' p p' Hi Hj Hp Hp' He.
  assert (Hin : forall i s, batch !! i = Some s -> In (i, s) (tagged batch)).
  { intros k x Hk. apply list_elem_of_In, list_elem_of_lookup. exists k. by rewrite tagged_lookup, Hk. }
  rewrite forallb_forall in Hc. specialize (Hc _ (Hin i s Hi)). rewrite forallb_forall in Hc. specialize (Hc _ (Hin j s' Hj)). cbn [fst snd] in Hc.
  rewrite forallb_forall in Hc. specialize (Hc p ltac:(apply list_elem_of_In, elem_of_seqZ; lia)).
  rewrite forallb_forall in Hc. specialize (Hc p' ltac:(apply list_elem_of_In, elem_of_seqZ; lia)).
  rewrite He, Z.eqb_refl in Hc. cbn [negb orb] in Hc. by apply andb_true_iff in Hc as [H1%Nat.eqb_eq H2%Z.eqb_eq].
Qed.

Definition width : Z := max_default (Zlen <$> (block_table <$> batch)) 0.

(** A sequence's row of the batch's block tables, and how many tokens are old and new. *)
Definition batch_table (s : Sequence) : list Z := pad_table width (block_table s).
Definition batch_old (s : Sequence) : nat := Z.to_nat (start_of r s).
Definition batch_new (s : Sequence) : nat := Z.to_nat (num_scheduled_tokens s).

Hypothesis Hready : Ready r seqs.

Lemma batch_ok s : s ∈ batch -> RowOk r s /\ block_table s <> [].
Proof using Hready.
  intros Hs%batch_in. destruct Hready as [_ Hr _ Hb _]. rewrite Forall_forall in Hr. rewrite Forall_forall in Hb. auto.
Qed.

Lemma table_width_le s : s ∈ batch -> (Zlen (block_table s) <= width)%Z.
Proof using.
  clear. intros Hs. unfold width. assert (Hin : Zlen (block_table s) ∈ (Zlen <$> (block_table <$> batch))).
  { by apply list_elem_of_fmap_2, list_elem_of_fmap_2. }
  assert (Hne : Zlen <$> (block_table <$> batch) <> []) by (intros He; rewrite He in Hin; by apply elem_of_nil in Hin).
  destruct (max_default_spec _ 0 Hne) as [_ Hall]. rewrite Forall_forall in Hall. by apply Hall.
Qed.

Lemma pad_table_length s : s ∈ batch -> Zlen (batch_table s) = width.
Proof using.
  clear Hready. intros Hs. pose proof (table_width_le s Hs). unfold batch_table, pad_table, Zlen in *.
  rewrite length_app, length_fmap, length_replicate. lia.
Qed.

(** The slot of a position, by the padded table or the sequence's. *)
Lemma pad_slot_at {E} (c : Pages E) s p : s ∈ batch -> Z.of_nat (pg_size c) = mr_block_size r ->
  (Z.of_nat p < mr_block_size r * Zlen (block_table s))%Z -> table_slot c (batch_table s) p = Some (slot_of r s (Z.of_nat p)).
Proof using Hready.
  intros Hs Hbs Hp. pose proof (rk_bs _ (rd_runner _ _ Hready)) as Hpos.
  assert (Hk : p / pg_size c < length (block_table s)).
  { apply Nat.Div0.div_lt_upper_bound. unfold Zlen in *. rewrite <-Hbs in Hp. nia. }
  unfold table_slot, slot_of, batch_table, pad_table. rewrite lookup_app_l by by rewrite length_fmap.
  rewrite list_lookup_fmap. destruct (lookup_lt_is_Some_2 _ _ Hk) as [b Hb']. rewrite Hb'. cbn [fmap option_fmap option_map mbind option_bind].
  destruct (Z.leb_spec 0 (Z.of_nat b)); [|lia]. rewrite <-Hbs, <-Nat2Z.inj_div, <-Nat2Z.inj_mod, Nat2Z.id.
  do 2 f_equal. f_equal. symmetry. f_equal. by apply nth_lookup_Some.
Qed.

Lemma pad_slot {E} (c : Pages E) s p : s ∈ batch -> Z.of_nat (pg_size c) = mr_block_size r -> (Z.of_nat p < end_of r s)%Z ->
  table_slot c (batch_table s) p = Some (slot_of r s (Z.of_nat p)).
Proof using Hready.
  intros Hs Hbs Hp. destruct (batch_ok s Hs) as [Hr Hb]. pose proof (ro_blocks _ _ Hr Hb). pose proof (ro_start _ _ Hr).
  apply pad_slot_at; [done|done|]. unfold end_of in Hp. lia.
Qed.

Lemma batch_counts s : s ∈ batch -> batch_old s + batch_new s = Z.to_nat (end_of r s).
Proof using Hready.
  intros Hs. destruct (batch_ok s Hs) as [Hr _]. pose proof (ro_start _ _ Hr). pose proof (ro_len _ _ Hr).
  unfold batch_old, batch_new, end_of. lia.
Qed.

Section Pages.
Context {E : Type}.
Variable c : Pages E.
Hypothesis Hsize : Z.of_nat (pg_size c) = mr_block_size r.

Lemma batch_slots s : s ∈ batch -> slots_of batch_table batch_old batch_new c s = slot_of r s <$> positions_of r s.
Proof using Hready Hsize.
  intros Hs. destruct (batch_ok s Hs) as [Hr _]. pose proof (ro_start _ _ Hr) as Hst. unfold slots_of, positions_of, batch_old, batch_new.
  apply list_eq. intros j. rewrite !list_lookup_fmap. destruct (decide (j < Z.to_nat (num_scheduled_tokens s))) as [Hj|Hj].
  - rewrite lookup_seq_lt by done. rewrite lookup_seqZ_lt by lia. cbn [fmap option_fmap option_map].
    rewrite pad_slot; [|done|done|unfold end_of; lia]. simpl. do 2 f_equal. lia.
  - rewrite lookup_seq_ge by lia. by rewrite lookup_seqZ_ge by lia.
Qed.

Lemma all_batch_slots : concat (slots_of batch_table batch_old batch_new c <$> batch) =
  concat ((fun s => slot_of r s <$> positions_of r s) <$> batch).
Proof using Hready Hsize. f_equal. apply list_fmap_ext. intros i s Hs%list_elem_of_lookup_2. by apply batch_slots. Qed.

(** The slots of the batch are its own. *)
Lemma batch_placed : OwnSlots -> Placed batch_table batch_old batch_new c batch.
Proof using Hready Hsize.
  intros Hown. split.
  - intros s p Hs Hp. rewrite batch_counts in Hp by done. exists (slot_of r s (Z.of_nat p)). apply pad_slot; [done|done|lia].
  - rewrite all_batch_slots. apply NoDup_concat. intros i j a b p q x Hi Hj Hp Hq.
    rewrite list_lookup_fmap in Hi. destruct (batch !! i) as [s|] eqn:Hs; [|done]. injection Hi as <-.
    rewrite list_lookup_fmap in Hj. destruct (batch !! j) as [s'|] eqn:Hs'; [|done]. injection Hj as <-.
    rewrite list_lookup_fmap in Hp. destruct (positions_of r s !! p) as [y|] eqn:Hy; [|done]. injection Hp as <-.
    rewrite list_lookup_fmap in Hq. destruct (positions_of r s' !! q) as [y'|] eqn:Hy'; [|done]. injection Hq as Hq.
    apply lookup_seqZ in Hy as [-> Hp']. apply lookup_seqZ in Hy' as [-> Hq'].
    destruct (batch_ok s) as [Hr _]; [by apply list_elem_of_lookup_2 in Hs|]. pose proof (ro_start _ _ Hr).
    destruct (batch_ok s') as [Hr' _]; [by apply list_elem_of_lookup_2 in Hs'|]. pose proof (ro_start _ _ Hr').
    destruct (Hown i j s s' (start_of r s + Z.of_nat p)%Z (start_of r s' + Z.of_nat q)%Z) as [-> He]; try done; unfold end_of; try lia.
    rewrite Hs in Hs'. injection Hs' as <-. split; [done|lia].
  - intros s p sl Hs Hp Hsl Hin. rewrite all_batch_slots in Hin. unfold batch_old in Hp. destruct (batch_ok s Hs) as [Hr _].
    pose proof (ro_start _ _ Hr). pose proof (ro_len _ _ Hr).
    rewrite pad_slot in Hsl; [|done|done|unfold end_of; lia]. injection Hsl as <-.
    apply list_elem_of_In, in_concat in Hin as (l & Hl%list_elem_of_In & Hin%list_elem_of_In).
    apply list_elem_of_fmap in Hl as (s' & -> & Hs'). apply list_elem_of_fmap in Hin as (q & Heq & Hq%elem_of_seqZ_iff).
    destruct (proj1 (list_elem_of_lookup _ _) Hs) as [i Hi]. destruct (proj1 (list_elem_of_lookup _ _) Hs') as [j Hj].
    destruct (Hown j i s' s q (Z.of_nat p)) as [-> ->]; try done; unfold end_of; try lia.
    rewrite Hj in Hi. injection Hi as ->. lia.
Qed.

(** The cache holds a sequence's first [n] entries. *)
Definition SlotsHold (s : Sequence) (entries : list E) (n : Z) : Prop :=
  forall p e, (Z.of_nat p < n)%Z -> entries !! p = Some e -> slot_entry c (slot_of r s (Z.of_nat p)) = Some e.

Lemma old_held entries s : s ∈ batch -> SlotsHold s entries (start_of r s) -> Holds c (batch_table s) (take (batch_old s) entries).
Proof using Hready Hsize.
  intros Hs Hh p e [Hp Hlt]%lookup_take_Some. unfold batch_old in Hlt. destruct (batch_ok s Hs) as [Hr _]. pose proof (ro_start _ _ Hr).
  pose proof (ro_len _ _ Hr). exists (slot_of r s (Z.of_nat p)). split; [apply pad_slot; [done|done|unfold end_of; lia]|].
  apply Hh; [lia|done].
Qed.

(** Back to slots. *)
Lemma held_slots entries s : s ∈ batch -> Holds c (batch_table s) entries -> SlotsHold s entries (end_of r s).
Proof using Hready Hsize.
  intros Hs Hh p e Hp He. destruct (Hh p e He) as (sl & Hsl & Hse). rewrite pad_slot in Hsl by done.
  by injection Hsl as <-.
Qed.

Context {F : Type}.

(** The prepared context is one of the batch's rows. *)
Lemma batch_context (row : Sequence -> AttnRow F) start : HostStart r seqs start ->
  (forall s, s ∈ batch -> Zlen (ar_q (row s)) = num_scheduled_tokens s /\ Zlen (ar_keys (row s)) = end_of r s /\ ar_table (row s) = batch_table s) ->
  (forall s, s ∈ batch -> Forall (fun b => b < length (pg_blocks c)) (block_table s)) ->
  ContextOk c (device_context r seqs start) (row <$> batch) (host_ends r seqs start).
Proof using Hready Hsize.
  intros Hh Hrow Hblocks.
  assert (Hmap : forall X (f : AttnRow F -> X) g, (forall s, s ∈ batch -> f (row s) = g s) -> f <$> (row <$> batch) = g <$> batch).
  { intros X f g Hf. rewrite <-list_fmap_compose. apply list_fmap_ext. intros i s Hs%list_elem_of_lookup_2. by apply Hf. }
  split.
  - assert (Hq : Zlen <$> (ar_q <$> (row <$> batch)) = num_scheduled_tokens <$> batch).
    { rewrite <-list_fmap_compose. apply Hmap. intros s Hs. by apply Hrow. }
    assert (Hk : Zlen <$> (ar_keys <$> (row <$> batch)) = end_of r <$> batch).
    { rewrite <-list_fmap_compose. apply Hmap. intros s Hs. by apply Hrow. }
    rewrite Hq, Hk, (Hmap _ ar_table batch_table) by (intros s Hs; by apply Hrow).
    constructor; try done; [|by unfold host_ends; rewrite !length_fmap].
    cbn [device_context context_of cx_block_tables]. unfold padded_tables. by rewrite <-list_fmap_compose.
  - apply Forall2_fmap, Forall_Forall2_diag, Forall_forall. intros s Hs. simpl.
    destruct (Hrow s Hs) as (_ & -> & _). pose proof (hs_between _ _ _ Hh s Hs). unfold end_of. lia.
  - apply Forall_fmap, Forall_forall. intros s Hs. simpl. destruct (Hrow s Hs) as (_ & _ & ->). unfold batch_table, pad_table. apply Forall_app. split.
    + apply Forall_fmap. eapply Forall_impl; [by apply Hblocks|]. intros b Hb. simpl in *. lia.
    + apply Forall_replicate. lia.
  - exists width. split; [apply Forall_fmap, Forall_forall; intros s Hs; simpl; destruct (Hrow s Hs) as (_ & _ & ->); by apply pad_table_length|].
    unfold host_ends. apply Forall_fmap, Forall_forall. intros s Hs. simpl. destruct (batch_ok s Hs) as [Hr Hb].
    pose proof (ro_blocks _ _ Hr Hb). pose proof (hs_between _ _ _ Hh s Hs). pose proof (table_width_le s Hs).
    pose proof (rk_bs _ (rd_runner _ _ Hready)). rewrite Hsize. nia.
Qed.

End Pages.

Lemma batch_some : batch <> [].
Proof using Hready.
  intros He. destruct Hready as [_ _ Hsome _ _]. apply Hsome. unfold batch_of in He.
  apply Permutation_nil. by rewrite <-He, by_mask_perm.
Qed.

(** A step without prompts and drafts has one token a row. *)
Lemma no_drafts_one s : existsb is_prefill seqs = false -> existsb (fun n => negb (n =? 0)%Z) (num_drafts_of <$> seqs) = false ->
  s ∈ seqs -> num_scheduled_tokens s = 1%Z.
Proof using Hready.
  intros Hpre Hp Hs. destruct Hready as [_ Hrows _ _ _]. rewrite Forall_forall in Hrows. pose proof (Hrows s Hs) as Hr.
  assert (His : is_prefill s = false).
  { apply not_true_iff_false. intros Ht. apply not_true_iff_false in Hpre. apply Hpre, existsb_exists. exists s.
    split; [by apply list_elem_of_In|done]. }
  assert (Hd : num_drafts_of s = 0%Z).
  { apply not_true_iff_false in Hp. destruct (Z.eq_dec (num_drafts_of s) 0%Z) as [|Hne]; [done|]. destruct Hp. apply existsb_exists.
    exists (num_drafts_of s). split; [by apply list_elem_of_In, list_elem_of_fmap_2|by apply negb_true_iff, Z.eqb_neq]. }
  unfold num_drafts_of in Hd. rewrite His in Hd. lia.
Qed.

(** A step of a model without drafts that is not prefill has one token a row. *)
Lemma plain_rows_one : is_prefill_of r seqs = false -> (forall s, s ∈ seqs -> num_drafts_of s = 0%Z) -> forall s, s ∈ batch -> num_scheduled_tokens s = 1%Z.
Proof using Hready.
  intros Hp Hd s Hs%batch_in. unfold is_prefill_of in Hp. apply orb_false_iff in Hp as [Hpre _]. apply no_drafts_one; [done| |done].
  apply not_true_iff_false. intros (n & Hn%list_elem_of_In & Hz)%existsb_exists. apply list_elem_of_fmap in Hn as (x & -> & Hx).
  rewrite (Hd x Hx) in Hz. done.
Qed.

(** A step without prefill has rows of one length. *)
Lemma decode_rows_uniform : is_prefill_of r seqs = false ->
  exists n, Forall (fun s => num_scheduled_tokens s = n) batch.
Proof using Hready.
  intros Hp. unfold is_prefill_of in Hp. apply orb_false_iff in Hp as [Hpre Hp]. rewrite Hpre in Hp. cbn [negb andb] in Hp.
  apply andb_false_iff in Hp as [Hp|Hp].
  - exists 1%Z. apply Forall_forall. intros s Hs. apply no_drafts_one; [done|done|by apply batch_in in Hs].
  - apply negb_false_iff, andb_true_iff in Hp as [Hd Hp]. exists (query_len_of r seqs).
    apply Forall_forall. intros s Hs. apply Z.eqb_eq. rewrite forallb_forall in Hp. apply Hp. apply list_elem_of_In. by apply list_elem_of_fmap_2.
Qed.

End Batch.

(** ** Exact lengths

    Where cached entries expand, the host has their rows' exact lengths. *)

Section Exact.
Variable r : Runner.
Variable seqs : list Sequence.
Local Abbreviation batch := (batch_of r seqs).

(** Past the rows that decode, no row has their length. *)
Lemma rest_off_length i s : leading_rows (query_len_of r seqs) (num_scheduled_tokens <$> batch) <= i -> batch !! i = Some s ->
  num_scheduled_tokens s <> query_len_of r seqs.
Proof using.
  clear. set (q := query_len_of r seqs). unfold batch_of. fold q. unfold by_mask. set (a := filter _ seqs). intros Hi Hs Hq.
  destruct (decide (i < length a)) as [Hlt|Hge].
  - destruct (leading_rows_spec q (num_scheduled_tokens <$> (a ++ filter (fun x => off_length q x = true) seqs))) as (Hn & _ & Hnext).
    set (n := leading_rows _ _) in *. destruct (lookup_lt_is_Some_2 a n) as [x Hx]; [lia|].
    apply (Hnext (num_scheduled_tokens x)).
    + by rewrite list_lookup_fmap, lookup_app_l, Hx by (by eapply lookup_lt_Some).
    + apply list_elem_of_lookup_2, list_elem_of_filter in Hx as [Hx _]. unfold off_length in Hx.
      by apply negb_false_iff, Z.eqb_eq in Hx.
  - rewrite lookup_app_r in Hs by lia. apply list_elem_of_lookup_2, list_elem_of_filter in Hs as [Hs _].
    unfold off_length in Hs. apply negb_true_iff, Z.eqb_neq in Hs. done.
Qed.

Lemma host_lens_exact latents start : (mr_decodes_latents r = true -> latents = true) -> HostStart r seqs start ->
  latents = false \/ is_prefill_of r seqs = true ->
  let n := if latents then leading_rows (query_len_of r seqs) (num_scheduled_tokens <$> batch) else 0 in
  drop n (host_ends r seqs start) = drop n (end_of r <$> batch).
Proof using.
  intros Hsup Hh Hcase. assert (Hex : forall i s, (if latents then leading_rows (query_len_of r seqs) (num_scheduled_tokens <$> batch) else 0) <= i ->
    batch !! i = Some s -> start s = start_of r s).
  { intros i s Hi Hs. apply (hs_exact _ _ _ Hh); [by apply list_elem_of_lookup_2 in Hs|].
    destruct (mr_decodes_latents r) eqn:Hd; [|by left]. rewrite (Hsup eq_refl) in Hi. right. destruct Hcase as [Hcase|Hcase].
    - rewrite Hsup in Hcase by done. done.
    - split; [done|]. by apply (rest_off_length i). }
  apply list_eq. intros i. rewrite !lookup_drop. unfold host_ends. rewrite !list_lookup_fmap.
  destruct (batch !! _) as [s|] eqn:Hs; [|done]. simpl. f_equal. unfold end_of. pose proof (fun Hle => Hex _ s Hle Hs) as Hst. rewrite Hst by lia. done.
Qed.

End Exact.

Section Step.
Context {F : Type} `{!Scalar F} `{!Softmax F}.
Local Abbreviation mat := (list (list F)).
Variable r : Runner.
Variable seqs : list Sequence.
Variable nh nkv d : nat.
Local Abbreviation batch := (batch_of r seqs).

(** A layer's tensors by sequence: the queries of its scheduled tokens, the keys and values of all its tokens. *)
Record Tokens := { tk_q : Sequence -> list mat; tk_keys : Sequence -> list mat; tk_values : Sequence -> list mat }.

Record TokensOk (t : Tokens) : Prop := {
  to_q s : s ∈ batch -> Shaped nh d (tk_q t s) /\ Zlen (tk_q t s) = num_scheduled_tokens s;
  to_keys s : s ∈ batch -> Shaped nkv d (tk_keys t s) /\ Zlen (tk_keys t s) = end_of r s;
  to_values s : s ∈ batch -> Shaped nkv d (tk_values t s) /\ Zlen (tk_values t s) = end_of r s
}.

(** The caches before the step: of the runner's block size, with the sequences' blocks and earlier entries. *)
Record CachesReady (t : Tokens) (c : Caches F) : Prop := {
  cy_caches : CachesOk nkv d c;
  cy_size : Z.of_nat (pg_size (k_cache c)) = mr_block_size r;
  cy_blocks s : s ∈ batch -> Forall (fun b => b < length (pg_blocks (k_cache c))) (block_table s);
  cy_held s : s ∈ batch -> SlotsHold r (k_cache c) s (tk_keys t s) (start_of r s) /\
                           SlotsHold r (v_cache c) s (tk_values t s) (start_of r s)
}.

Definition attn_row (t : Tokens) (s : Sequence) : AttnRow F :=
  {| ar_q := tk_q t s; ar_keys := tk_keys t s; ar_values := tk_values t s; ar_table := batch_table r seqs s |}.

Hypothesis Hready : Ready r seqs.
Variable t : Tokens.
Hypothesis Ht : TokensOk t.

Lemma attn_row_ok s : s ∈ batch -> AttnRowOk nh nkv d (attn_row t s) /\ num_old (attn_row t s) = batch_old r s /\
  length (ar_q (attn_row t s)) = batch_new s.
Proof using Hready Ht.
  intros Hs. destruct (batch_ok r seqs Hready s Hs) as [Hr _]. destruct (to_q _ Ht s Hs) as [Sq Lq].
  destruct (to_keys _ Ht s Hs) as [Sk Lk]. destruct (to_values _ Ht s Hs) as [Sv Lv].
  pose proof (ro_len _ _ Hr) as Hl. pose proof (ro_start _ _ Hr) as Hst. unfold end_of, Zlen in *. split_and!.
  - split; simpl; try done; lia.
  - unfold num_old, batch_old. simpl. lia.
  - unfold batch_new. simpl. lia.
Qed.

(** What the layer computes for a sequence: each new token attends every key of its own up to its position. *)
Definition own_attention (scale : F) (s : Sequence) : list mat :=
  imap (fun j q => token_attention scale (nh / nkv) q
    (take (Z.to_nat (start_of r s) + j + 1) (zip (tk_keys t s) (tk_values t s)))) (tk_q t s).

Lemma own_attention_eq scale s : s ∈ batch -> row_output scale (nh / nkv) (attn_row t s) = own_attention scale s.
Proof using Hready Ht.
  intros Hs. destruct (attn_row_ok s Hs) as (_ & Ho & _). unfold row_output, own_attention. fold (num_old (attn_row t s)).
  by rewrite Ho.
Qed.

Variable c : Caches F.
Hypothesis Hc : CachesReady t c.
Hypothesis Hown : OwnSlots r seqs.

Lemma slots_eq : concat (new_slots (k_cache c) <$> (attn_row t <$> batch)) =
  concat ((fun s => slot_of r s <$> positions_of r s) <$> batch).
Proof using Hready Ht Hc.
  rewrite <-(all_batch_slots r seqs Hready (k_cache c)) by apply Hc. f_equal. rewrite <-list_fmap_compose.
  apply list_fmap_ext. intros i s Hs%list_elem_of_lookup_2. destruct (attn_row_ok s Hs) as (_ & Ho & Hn).
  unfold compose, new_slots, slots_of. by rewrite Ho, Hn.
Qed.

(** The batch is a step of the layer. *)
Lemma batch_step start : (forall s, s ∈ seqs -> num_drafts_of s = 0%Z) -> HostStart r seqs start ->
  exists k_lens, StepOk nh nkv d c (device_context r seqs start) (attn_row t <$> batch) k_lens /\
    Cached (Zlen <$> (ar_q <$> (attn_row t <$> batch))) k_lens (Zlen <$> (ar_keys <$> (attn_row t <$> batch)))
      (ar_table <$> (attn_row t <$> batch)) {| cx_fields := device_context r seqs start; cx_decode_splits := None |}.
Proof using Hready Ht Hc Hown.
  intros Hlat Hh. exists (host_ends r seqs start). split; [|by intros q sp; simpl; rewrite lookup_empty].
  pose proof Hc as [Hcaches Hsz Hblk Hheld]. pose proof (batch_placed r seqs Hready (k_cache c) Hsz Hown) as [Hmap Hpriv Hapart].
  rewrite (all_batch_slots r seqs Hready) in Hpriv by done. split.
  - apply Forall_fmap, Forall_forall. intros s Hs. by apply attn_row_ok.
  - pose proof (batch_some r seqs Hready). by destruct batch.
  - done.
  - apply batch_context; try done. intros s Hs. split_and!; [by apply (to_q _ Ht)|by apply (to_keys _ Ht)|done].
  - intros Hp. apply Forall_fmap, Forall_forall. intros s Hs. simpl. destruct (to_q _ Ht s Hs) as [_ Lq].
    rewrite (plain_rows_one r seqs Hready Hp Hlat s Hs) in Lq. unfold Zlen in Lq. lia.
  - cbn [device_context context_of cx_slot_mapping]. rewrite slots_eq. done.
  - intros a p Ha Hp. apply list_elem_of_fmap in Ha as (s & -> & Hs). apply Hmap; [done|].
    rewrite (batch_counts r seqs Hready) by done. destruct (to_keys _ Ht s Hs) as [_ Lk]. simpl in Hp. unfold Zlen in Lk. lia.
  - by rewrite slots_eq.
  - intros a p sl Ha Hp Hsl. apply list_elem_of_fmap in Ha as (s & -> & Hs).
    destruct (attn_row_ok s Hs) as (_ & Ho & _). rewrite Ho in Hp.
    rewrite slots_eq, <-(all_batch_slots r seqs Hready (k_cache c)) by done. by apply (Hapart s p).
  - apply Forall_fmap, Forall_forall. intros s Hs. simpl. destruct (attn_row_ok s Hs) as (_ & -> & _).
    destruct (Hheld s Hs). split; apply (old_held r seqs Hready); try done. by destruct Hcaches as [_ _ -> _].
Qed.

End Step.

(** ** A step of a latent layer, from its prepared batch

    The arrays that the runner prepares make a step of every latent attention
    layer; where the rows' latents expand, the host has their exact lengths. *)


Section Batch.
Context {F : Type} `{!Scalar F} `{!Softmax F} `{!LogSumExp F} `{!AttentionBackend F} `{!MLABackend F}.
Local Abbreviation mat := (list (list F)).
Variable r : Runner.
Variable seqs : list Sequence.
Variable self : MLAAttention F.
Variable rope : nat.
Local Abbreviation batch := (batch_of r seqs).
Local Abbreviation nh := (ma_num_heads self).
Local Abbreviation P := (ma_nope_dim self).
Local Abbreviation L := (ma_kv_lora_rank self).

(** A layer's tensors by sequence: the queries of its scheduled tokens, and all its tokens' latents. *)
Record LatentTokens := { lk_q : Sequence -> list mat; lk_latents : Sequence -> mat }.

Record LatentTokensOk (t : LatentTokens) : Prop := {
  lo_q s : s ∈ batch -> Shaped nh (P + rope) (lk_q t s) /\ Zlen (lk_q t s) = num_scheduled_tokens s;
  lo_latents s : s ∈ batch -> wide (L + rope) (lk_latents t s) /\ Zlen (lk_latents t s) = end_of r s
}.

(** The cache before the step: of the runner's block size, with the sequences' blocks and earlier latents. *)
Record LatentsReady (t : LatentTokens) (c : Pages (list F)) : Prop := {
  ly_latents : LatentsOk (L + rope) c;
  ly_size : Z.of_nat (pg_size c) = mr_block_size r;
  ly_blocks s : s ∈ batch -> Forall (fun b => b < length (pg_blocks c)) (block_table s);
  ly_held s : s ∈ batch -> SlotsHold r c s (lk_latents t s) (start_of r s)
}.

Definition latent_of (t : LatentTokens) (s : Sequence) : MLARow F :=
  {| ml_q := lk_q t s; ml_latents := lk_latents t s; ml_table := batch_table r seqs s |}.

(** What the layer computes for a sequence: each new token attends the keys and values that the sequence's own latents
    stand for, up to its position. *)
Definition own_latent_attention (t : LatentTokens) (s : Sequence) : list mat :=
  imap (fun j q => token_attention (ma_scale self) 1 q
    (take (Z.to_nat (start_of r s) + j + 1) (zip (key_of self <$> lk_latents t s) (value_of self <$> lk_latents t s)))) (lk_q t s).

Hypothesis Hready : Ready r seqs.
Variable t : LatentTokens.
Hypothesis Ht : LatentTokensOk t.

Lemma latent_of_ok s : s ∈ batch -> MLARowOk self rope (latent_of t s) /\ old_count (latent_of t s) = batch_old r s /\
  length (ml_q (latent_of t s)) = batch_new s.
Proof using Hready Ht.
  intros Hs. destruct (batch_ok r seqs Hready s Hs) as [Hr _]. destruct (lo_q _ Ht s Hs) as [Sq Lq].
  destruct (lo_latents _ Ht s Hs) as [Sl Ll].
  pose proof (ro_len _ _ Hr) as Hl. pose proof (ro_start _ _ Hr) as Hst. unfold end_of, Zlen in *. split_and!.
  - split; simpl; try done; lia.
  - unfold old_count, batch_old. simpl. lia.
  - unfold batch_new. simpl. lia.
Qed.

Lemma own_latent_attention_eq s : s ∈ batch -> row_output (ma_scale self) 1 (expanded self (latent_of t s)) = own_latent_attention t s.
Proof using Hready Ht.
  intros Hs. destruct (latent_of_ok s Hs) as (_ & Ho & _). unfold row_output, own_latent_attention. cbn [expanded latent_of ar_q ar_keys ar_values ml_q ml_latents].
  rewrite length_fmap. unfold old_count in Ho. cbn [latent_of ml_q ml_latents] in Ho. by rewrite Ho.
Qed.

Variable c : Pages (list F).
Hypothesis Hc : LatentsReady t c.
Hypothesis Hown : OwnSlots r seqs.

Lemma latent_slots : concat (slots_of ml_table old_count (fun r => length (ml_q r)) c <$> (latent_of t <$> batch)) =
  concat ((fun s => slot_of r s <$> positions_of r s) <$> batch).
Proof using Hready Ht Hc.
  rewrite <-(all_batch_slots r seqs Hready c) by apply Hc. f_equal. apply slots_map. intros s Hs.
  destruct (latent_of_ok s Hs) as (_ & H1 & H2). by split_and!.
Qed.

(** The batch is a step of the layer. *)
Lemma batch_latent_step start : (mr_decodes_latents r = true -> supports_mla_decode = true) -> HostStart r seqs start ->
  MLAStepOk self rope c (device_context r seqs start) (latent_of t <$> batch) (host_ends r seqs start) /\
  forall s, ms_latents s = c -> ms_context s = {| cx_fields := device_context r seqs start; cx_decode_splits := None |} ->
    ms_chunks s = None -> ms_split_chunks s = None -> Kept self (latent_of t <$> batch) (host_ends r seqs start) s.
Proof using Hready Ht Hc Hown.
  intros Hsup Hh. pose proof Hc as [Hlat Hsz Hblk Hheld]. split.
  2: { intros s Hl Hx Hch Hsc. split; [rewrite Hx; by intros q sp; simpl; rewrite lookup_empty|by rewrite Hch|by rewrite Hsc]. }
  assert (Hq : Zlen <$> (ml_q <$> (latent_of t <$> batch)) = num_scheduled_tokens <$> batch).
  { rewrite <-!list_fmap_compose. apply list_fmap_ext. intros i s Hs%list_elem_of_lookup_2. by apply (lo_q _ Ht). }
  assert (Hk : Zlen <$> (ml_latents <$> (latent_of t <$> batch)) = end_of r <$> batch).
  { rewrite <-!list_fmap_compose. apply list_fmap_ext. intros i s Hs%list_elem_of_lookup_2. by apply (lo_latents _ Ht). }
  split.
  - apply Forall_fmap, Forall_forall. intros s Hs. by apply latent_of_ok.
  - pose proof (batch_some r seqs Hready). by destruct batch.
  - done.
  - rewrite <-list_fmap_compose. apply batch_context; try done. intros s Hs. unfold compose. simpl. unfold Zlen at 2. rewrite length_fmap.
    split_and!; [by apply (lo_q _ Ht)|by apply (lo_latents _ Ht)|done].
  - cbn [device_context context_of cx_decode_query_len cx_is_prefill]. rewrite Hq, Hk. intros Hcase.
    by apply host_lens_exact.
  - intros _ Hp. destruct (decode_rows_uniform r seqs Hready Hp) as (n & Hn). exists (Z.to_nat n). apply Forall_fmap, Forall_forall. intros s Hs. simpl.
    rewrite Forall_forall in Hn. destruct (lo_q _ Ht s Hs) as [_ Lq]. rewrite (Hn s Hs) in Lq. unfold Zlen in Lq. lia.
  - cbn [device_context context_of cx_slot_mapping]. rewrite latent_slots. done.
  - apply (placed_map (latent_of t) (batch_table r seqs) (batch_old r) batch_new); [|by apply batch_placed].
    intros s Hs. destruct (latent_of_ok s Hs) as (_ & H1 & H2). by split_and!.
  - apply Forall_fmap, Forall_forall. intros s Hs. simpl. destruct (latent_of_ok s Hs) as (_ & H1 & _). rewrite H1.
    apply (old_held r seqs Hready); [done|done|]. by apply Hheld.
Qed.

End Batch.
