(* ===== verification/TorchMLAFacts.v ===== *)
(** * The portable backend keeps its promises to a latent layer

    Its stored latents, its attention with the log-sum-exp written out, masked
    or not, and its attention over the latents are those of each row's own
    keys. *)

From S2P Require Import Prelude Arrays AttnContext Tensors Ranks Attention MLA TorchAttention TorchFacts.
From S2P Require Import AttentionFacts MLAFacts MLAStep.

(** ** Softmax of a masked row *)

Section Masked.
Context {F : Type} `{!Scalar F} `{!Softmax F} `{!LogSumExp F}.
Local Abbreviation mat := (list (list F)).
Variable scale : F.

Add Ring scalar_masked : scalar_ring.

(** The scores of a query, of which the mask lets the first [n] through. *)
Lemma masked_scores_prefix nk n q (keys : mat) mask : length keys = nk -> LetsThrough nk n mask -> n <= nk ->
  masked_scores scale q keys mask = ((fun k => Some (fmul (dot q k) scale)) <$> take n keys) ++ replicate (nk - n) None.
Proof using.
  intros Hk [Hl Hm] Hn. unfold masked_scores. apply list_eq. intros p. rewrite lookup_zip_with.
  destruct (decide (p < n)) as [Hp|Hp].
  - rewrite lookup_app_l by (rewrite length_fmap, length_take; lia). rewrite list_lookup_fmap, lookup_take_lt by done.
    destruct (lookup_lt_is_Some_2 keys p) as [k Hkp]; [lia|]. destruct (lookup_lt_is_Some_2 mask p) as [b Hb]; [lia|].
    rewrite Hkp, Hb. simpl. rewrite (Hm p b Hb). by rewrite (proj2 (Nat.ltb_lt _ _) Hp).
  - rewrite lookup_app_r by (rewrite length_fmap, length_take; lia). rewrite length_fmap, length_take.
    destruct (keys !! p) as [k|] eqn:Hkp.
    + pose proof (lookup_lt_Some _ _ _ Hkp). destruct (lookup_lt_is_Some_2 mask p) as [b Hb]; [lia|]. rewrite Hb. simpl.
      rewrite (Hm p b Hb), (proj2 (Nat.ltb_ge _ _)) by lia. rewrite lookup_replicate_2; [done|lia].
    + apply lookup_ge_None in Hkp. symmetry. apply lookup_ge_None_2. rewrite length_replicate. lia.
Qed.

Lemma weights_prefix (q : list F) (keys : mat) n (kvs : list (list F * list F)) : kvs.*1 = keys ->
  weight_of <$> (((fun k => Some (fmul (dot q k) scale)) <$> keys) ++ replicate n (@None F)) =
  (exp_weight scale q <$> kvs) ++ replicate n fzero.
Proof using.
  intros <-. rewrite fmap_app, fmap_replicate. f_equal. rewrite <-!list_fmap_compose. done.
Qed.

Lemma fsum_zeros (l : list F) n : fsum (l ++ replicate n fzero) = fsum l.
Proof using.
  rewrite fsum_app. assert (fsum (replicate n fzero) = fzero) as ->; [|ring].
  unfold fsum. induction n as [|n IH]; [done|]. simpl. rewrite IH. ring.
Qed.

(** Its weights on the values: attention over the first [n]. *)
Lemma masked_attention e nk n q (keys values : mat) mask : length keys = nk -> length values = nk -> wide e values -> LetsThrough nk n mask ->
  0 < n <= nk ->
  vsum (zip_with (fun w (r : list F) => fmul w <$> r) (softmax_row (masked_scores scale q keys mask)) values) =
    attend_over scale q (take n (zip keys values)) /\
  logsumexp_row (masked_scores scale q keys mask) = Some (flog (total scale q (take n (zip keys values)))).
Proof using.
  intros Hk Hv Wv Hm Hn. rewrite (masked_scores_prefix nk n) by (done || lia). set (kvs := take n (zip keys values)).
  assert (H1 : kvs.*1 = take n keys) by (unfold kvs; rewrite fmap_take, fst_zip by lia; done).
  assert (H2 : kvs.*2 = take n values) by (unfold kvs; rewrite fmap_take, snd_zip by lia; done).
  assert (Hne : kvs <> []).
  { intros He. apply (f_equal length) in He. unfold kvs in He. rewrite length_take, length_zip_with in He. simpl in He. lia. }
  assert (Hun : unmasked (((fun k => Some (fmul (dot q k) scale)) <$> take n keys) ++ replicate (nk - n) None) = true).
  { rewrite <-H1. by destruct kvs. }
  unfold softmax_row, logsumexp_row. rewrite Hun, (weights_prefix q _ _ kvs H1), fsum_zeros. split; [|done].
  change (fun s => fmul (weight_of s) (finv (fsum (exp_weight scale q <$> kvs)))) with ((fun w => fmul w (finv (total scale q kvs))) ∘ weight_of).
  rewrite list_fmap_compose, (weights_prefix q _ _ kvs H1).
  rewrite (attend_over_eq scale e) by (rewrite ?H2; by apply Forall_take || done).
  rewrite fmap_app, fmap_replicate. set (i := finv (total scale q kvs)).
  assert (Hzero : fmul fzero i = fzero) by ring. rewrite Hzero.
  rewrite <-(take_drop n values) at 1. rewrite <-H2.
  rewrite zip_with_app by by rewrite !length_fmap.
  assert (Hw : (zip_with (fun w (r : list F) => fmul w <$> r) ((fun w => fmul w i) <$> (exp_weight scale q <$> kvs)) kvs.*2) =
    (fun kv => scale_by i (scale_by (exp_weight scale q kv) kv.2)) <$> kvs).
  { generalize i. clear. intros i. induction kvs as [|kv l IH]; [done|]. rewrite !fmap_cons. cbn [zip_with]. rewrite IH. f_equal. unfold scale_by.
    rewrite <-list_fmap_compose. apply list_fmap_ext. intros _ x _. unfold compose. ring. }
  assert (Hz : zip_with (fun w (r : list F) => fmul w <$> r) (replicate (nk - n) fzero) (drop n values) = replicate (nk - n) (replicate e fzero)).
  { assert (Hl : length (drop n values) = nk - n) by (rewrite length_drop; lia).
    assert (Wd : wide e (drop n values)) by by apply Forall_drop.
    rewrite <-Hl. clear -Wd. induction Wd as [|r l Hr _ IH]; [done|]. cbn [length replicate zip_with]. rewrite IH. f_equal.
    rewrite <-Hr. clear. induction r as [|x r IH]; [done|]. rewrite fmap_cons, IH. simpl. f_equal. ring. }
  rewrite Hw, Hz. assert (We : wide e kvs.*2) by (rewrite H2; by apply Forall_take).
  assert (W1 : wide e ((fun kv => scale_by i (scale_by (exp_weight scale q kv) kv.2)) <$> kvs)).
  { apply Forall_fmap. apply Forall_fmap in We. eapply Forall_impl; [exact We|]. intros kv Hkv. simpl in *. by rewrite !scale_by_length. }
  rewrite (vsum_vsum0 e).
  2: { apply Forall_app. split; [done|]. apply Forall_replicate. by rewrite length_replicate. }
  2: by destruct kvs.
  rewrite vsum0_app; [|done|apply Forall_replicate; by rewrite length_replicate].
  assert (Hzs : vsum0 e (replicate (nk - n) (replicate e fzero)) = replicate e fzero).
  { clear. induction (nk - n) as [|m IH]; [done|]. simpl. rewrite IH. apply vadd_zeros, length_replicate. }
  rewrite Hzs, (proj1 (vadd_zeros e _ (vsum0_length e _ W1))). unfold wsum. rewrite scale_by_vsum0. by rewrite <-list_fmap_compose.
Qed.

End Masked.

(** ** Rows of a batch *)

Section Rows.
Context {F : Type} `{!Scalar F} `{!Softmax F} `{!LogSumExp F} `{!Sdpa F}.
Local Abbreviation mat := (list (list F)).
Variable self : TorchAttention F.
Variable nh d e : nat.
Hypothesis Hnh : 0 < nh /\ ta_num_heads self = nh /\ ta_num_kv_heads self = nh.
Local Abbreviation scale := (ta_scale self).

(** A token's heads with their log-sum-exps. *)
Definition token_pair (kvs : list (mat * mat)) (t : mat) : list (list F * Lse F) := zip (token_part scale e kvs t) (token_lse scale kvs t).

Lemma varlen_token (ks vs k v : list mat) nk n mask t : Extends nk ks k -> Extends nk vs v -> length vs = length ks ->
  Shaped nh d k -> Shaped nh e v -> LetsThrough nk n mask -> 0 < n <= length ks -> length t = nh ->
  imap (varlen_head self k v mask) t = token_pair (take n (zip ks vs)) t.
Proof using Hnh.
  intros Hk Hv Hl Sk Sv Hm Hn Ht. destruct Hnh as (H0 & H1 & H2). pose proof (extends_le _ _ _ Hk).
  unfold token_pair, token_part, token_lse. apply list_eq. intros h. rewrite lookup_zip_with, !list_lookup_imap.
  destruct (t !! h) as [qh|] eqn:Hq; [|done]. simpl. f_equal. pose proof (lookup_lt_Some _ _ _ Hq).
  unfold varlen_head. rewrite H1, H2, Nat.div_same, Nat.div_1_r by lia.
  assert (Lk : length (head_column h k) = nk) by (unfold head_column; rewrite length_fmap; by destruct Hk).
  assert (Lv : length (head_column h v) = nk) by (unfold head_column; rewrite length_fmap; by destruct Hv).
  destruct (masked_attention scale e nk n qh (head_column h k) (head_column h v) mask) as [E1 E2];
    [done|done|apply (wide_column h nh); [lia|done]|done|lia|].
  rewrite E1, E2.
  assert (Hz : take n (zip (head_column h k) (head_column h v)) = heads_of h (take n (zip ks vs))).
  { destruct Hk as [_ [tk ->]], Hv as [_ [tv ->]]. unfold head_column, heads_of. rewrite !fmap_app, zip_with_app by by rewrite !length_fmap.
    rewrite take_app_le by (rewrite length_zip_with, !length_fmap; lia). rewrite <-(zip_fmap2 (head_at h) (head_at h) ks vs).
    by rewrite fmap_take. }
  rewrite Hz. unfold part_o, part_lse. destruct (heads_of h (take n (zip ks vs))) as [|kv l] eqn:He; [|done].
  exfalso. apply (f_equal length) in He. unfold heads_of in He. rewrite length_fmap, length_take, length_zip_with in He. simpl in He. lia.
Qed.

(** How many keys query [l] of a row sees. *)
Definition seen_by (causal : bool) (r : AttnRow F) (l : nat) : nat :=
  if causal then length (ar_keys r) - length (ar_q r) + l + 1 else length (ar_keys r).

Lemma visible_seen causal r j : length (ar_values r) = length (ar_keys r) ->
  visible causal r j = take (seen_by causal r j) (zip (ar_keys r) (ar_values r)).
Proof using. clear. intros Hl. unfold visible, seen_by. destruct causal; [done|]. rewrite take_ge; [done|]. rewrite length_zip_with. lia. Qed.

Lemma key_mask_lets max n : (0 <= n <= max)%Z -> LetsThrough (Z.to_nat max) (Z.to_nat n) (key_mask max n).
Proof using.
  clear. intros Hn. split; [apply key_mask_length|]. intros p b Hb. rewrite (key_mask_lookup _ _ _ _ Hb).
  destruct (Z.ltb_spec (Z.of_nat p) n), (Nat.ltb_spec p (Z.to_nat n)); done || lia.
Qed.

(** The masks of a batch, causal or of the keys alone. *)
Lemma batch_masks (causal : bool) (rows : list (AttnRow F)) maxq maxk : Forall (VRowOk nh d e) rows ->
  (causal = true -> Forall (fun r => length (ar_q r) <= length (ar_keys r)) rows) ->
  Forall (fun r => (Zlen (ar_q r) <= maxq)%Z) rows -> Forall (fun r => (Zlen (ar_keys r) <= maxk)%Z) rows ->
  Forall2 (fun r m => length m = Z.to_nat maxq /\ wide (Z.to_nat maxk) m /\ forall l, l < length (ar_q r) ->
    exists mi, m !! l = Some mi /\ LetsThrough (Z.to_nat maxk) (seen_by causal r l) mi)
    rows (masks_of (cumulative (Zlen <$> (ar_q <$> rows))) (cumulative (Zlen <$> (ar_keys <$> rows))) maxq maxk causal).
Proof using.
  clear. intros Hrows Hcausal Hq Hk. destruct causal.
  { apply masks_ok; [|done]. specialize (Hcausal eq_refl). apply Forall_lookup. intros i r Hr.
    destruct (Forall_lookup_1 _ _ _ _ Hrows Hr) as [_ _ _ ? ?]. pose proof (Forall_lookup_1 _ _ _ _ Hcausal Hr) as Hle. simpl in Hle.
    split; [done|lia]. }
  unfold masks_of. rewrite !diffs_cumulative. apply Forall2_lookup. intros i.
  rewrite lookup_zip_with, !list_lookup_fmap. destruct (rows !! i) as [r|] eqn:Hr; [|constructor]. simpl. constructor.
  pose proof (Forall_lookup_1 _ _ _ _ Hq Hr) as Hqr. pose proof (Forall_lookup_1 _ _ _ _ Hk Hr) as Hkr. simpl in Hqr, Hkr.
  unfold causal_mask. split_and!.
  - rewrite length_fmap. unfold arange. by rewrite length_seqZ.
  - apply Forall_fmap, Forall_forall. intros j _. apply key_mask_length.
  - intros l Hl. eexists. rewrite list_lookup_fmap, arange_lookup by (unfold Zlen in Hqr; lia). split; [done|].
    unfold seen_by. replace (length (ar_keys r)) with (Z.to_nat (Zlen (ar_keys r))) by (unfold Zlen; lia).
    apply key_mask_lets. unfold Zlen in *. lia.
Qed.

Lemma varlen_row_spec causal (r : AttnRow F) (q k v : list mat) nq nk mask : VRowOk nh d e r ->
  (causal = true -> length (ar_q r) <= length (ar_keys r)) -> Extends nq (ar_q r) q -> Extends nk (ar_keys r) k ->
  Extends nk (ar_values r) v -> Shaped nh d k -> Shaped nh e v -> length mask = nq ->
  (forall l, l < length (ar_q r) -> exists mi, mask !! l = Some mi /\ LetsThrough nk (seen_by causal r l) mi) ->
  Extends nq (imap (fun j t => token_pair (visible causal r j) t) (ar_q r)) (varlen_row self q k v mask).
Proof using Hnh.
  intros [Sq _ _ Hvl [H1 H2]] Hc Hq Hk Hv Sk Sv Lm Hm. pose proof (extends_le _ _ _ Hq) as Hle.
  unfold varlen_row. apply extends_intro.
  - rewrite length_zip_with. destruct Hq as [-> _]. lia.
  - by rewrite length_imap.
  - intros l x Hx. rewrite list_lookup_imap in Hx. destruct (ar_q r !! l) as [t|] eqn:Ht; [|done]. injection Hx as <-.
    pose proof (lookup_lt_Some _ _ _ Ht) as Hl. destruct (Hm l Hl) as (mi & Hmi & Hlet).
    rewrite lookup_zip_with, (extends_lookup _ _ _ _ _ Hq Ht), Hmi. simpl. f_equal. rewrite visible_seen by done.
    apply (varlen_token _ _ _ _ nk); try done.
    + unfold seen_by. destruct causal; [specialize (Hc eq_refl)|]; lia.
    + by destruct (Forall_lookup_1 _ _ _ _ Sq Ht).
Qed.

Lemma varlen_rows_spec causal rows qs ks vs ms nq nk : Forall (VRowOk nh d e) rows ->
  (causal = true -> Forall (fun r => length (ar_q r) <= length (ar_keys r)) rows) ->
  Forall2 (fun r q => Extends nq (ar_q r) q) rows qs ->
  Forall2 (fun r k => Extends nk (ar_keys r) k /\ Shaped nh d k) rows ks ->
  Forall2 (fun r v => Extends nk (ar_values r) v /\ Shaped nh e v) rows vs ->
  Forall2 (fun r m => length m = nq /\ wide nk m /\ forall l, l < length (ar_q r) ->
    exists mi, m !! l = Some mi /\ LetsThrough nk (seen_by causal r l) mi) rows ms ->
  Forall2 (Extends nq) ((fun r => imap (fun j t => token_pair (visible causal r j) t) (ar_q r)) <$> rows) (varlen_rows self qs ks vs ms).
Proof using Hnh.
  intros Hrows Hc Hq. revert ks vs ms. induction Hq as [|r q rows qs Eq _ IH]; intros ks vs ms Hk Hv Hm; [constructor|].
  apply Forall_cons in Hrows as [Hr Hrows].
  inversion Hk as [|? k ? ks' [Ek Sk] Hks]; subst. inversion Hv as [|? v ? vs' [Ev Sv] Hvs]; subst.
  inversion Hm as [|? m ? ms' (Lm & Wm & Hlet) Hms]; subst.
  rewrite fmap_cons. cbn [varlen_rows]. constructor.
  - apply (varlen_row_spec _ _ _ _ _ _ nk); try done. intros Hct. by apply Hc, Forall_cons in Hct as [? _].
  - apply IH; try done. intros Hct. by apply Hc, Forall_cons in Hct as [_ ?].
Qed.

Lemma token_pair_fst kvs t : (token_pair kvs t).*1 = token_part scale e kvs t.
Proof using. clear. unfold token_pair. apply fst_zip. unfold token_part, token_lse. rewrite !length_imap. lia. Qed.

Lemma token_pair_snd kvs t : (token_pair kvs t).*2 = token_lse scale kvs t.
Proof using. clear. unfold token_pair. apply snd_zip. unfold token_part, token_lse. rewrite !length_imap. lia. Qed.

End Rows.

(** ** The backend *)

Section Backend.
Context {F : Type} `{!Scalar F} `{!Softmax F} `{!LogSumExp F} `{!Sdpa F}.
Local Abbreviation mat := (list (list F)).
Variable self : TorchAttention F.
Variable nh d e lat L : nat.
Hypothesis Hnh : 0 < nh /\ ta_num_heads self = nh /\ ta_num_kv_heads self = nh.
Local Abbreviation scale := (ta_scale self).

Lemma concat_nonempty {X Y} (f : X -> list Y) (rows : list X) : Forall (fun r => 0 < length (f r)) rows -> rows <> [] -> concat (f <$> rows) <> [].
Proof using.
  clear. intros Hr Hne. destruct Hr as [|r rows Hr _]; [done|]. rewrite fmap_cons. cbn [concat]. destruct (f r); [simpl in Hr; lia|done].
Qed.

(** A step's tensors, padded to the longest row. *)
Lemma padded {X} (rows : list X) (f : X -> list mat) n w (s : AttentionContext) : rows <> [] ->
  Forall (fun r => 0 < length (f r) /\ Shaped n w (f r)) rows ->
  let max := max_default (Zlen <$> (f <$> rows)) 0 in
  wp (pad_rows (concat (f <$> rows)) (cumulative (Zlen <$> (f <$> rows))) max) s (fun p s' => s' = s /\
    Forall2 (fun r x => Extends (Z.to_nat max) (f r) x /\ Shaped n w x) rows p) /\ Forall (fun r => (Zlen (f r) <= max)%Z) rows.
Proof using.
  clear. intros Hne Hrows max. assert (Hls : Zlen <$> (f <$> rows) <> []) by by destruct rows.
  destruct (max_default_spec (Zlen <$> (f <$> rows)) 0 Hls) as [_ Hmax]. split; [|by rewrite !Forall_fmap in Hmax].
  eapply wp_mono; [apply (pad_rows_spec (f <$> rows) max)|].
  - apply concat_nonempty; [|done]. eapply Forall_impl; [exact Hrows|]. by intros r [? _].
  - by rewrite Forall_fmap in Hmax.
  - intros p s' (-> & Hp & Sp). split; [done|]. apply Forall2_with; [by rewrite Forall2_fmap_l in Hp|].
    apply (pads_shaped n w f rows p); [|done]. eapply Forall_impl; [exact Hrows|]. by intros r [_ ?].
Qed.

Lemma unpadded {X Y} (rows : list X) (f : X -> list mat) (g : X -> list Y) max (xs : list (list Y)) (s : AttentionContext) :
  (forall r, r ∈ rows -> length (g r) = length (f r)) -> Forall2 (Extends max) (g <$> rows) xs ->
  wp (unpad_rows xs (cumulative (Zlen <$> (f <$> rows))) (Zlen (concat (f <$> rows)))) s (fun o s' => s' = s /\ o = concat (g <$> rows)).
Proof using.
  clear. intros Hl Hx. assert (He : Zlen <$> (f <$> rows) = Zlen <$> (g <$> rows)).
  { rewrite <-!list_fmap_compose. apply list_fmap_ext. intros _ r Hr%list_elem_of_lookup_2. unfold compose, Zlen. by rewrite Hl. }
  rewrite Zsum_lengths, He, <-Zsum_lengths. by apply (unpad_rows_spec _ _ max).
Qed.

Lemma torch_unpaged rows context x : Forall (VRowOk nh d e) rows -> rows <> [] ->
  Forall (fun r => length (ar_q r) = length (ar_keys r)) rows -> Unpaged context (Zlen <$> (ar_q <$> rows)) ->
  wp (torch_prefill self (concat (ar_q <$> rows)) (concat (ar_keys <$> rows)) (concat (ar_values <$> rows)) no_caches context) x
    (fun o x' => x' = x /\ o = concat (row_output scale 1 <$> rows)).
Proof using Hnh.
  intros Hrows Hne Hnew [Hub Huq Huk Hmq Hmk]. destruct Hnh as (H0 & H1 & H2). unfold torch_prefill. rewrite Hub, Huq, Huk, Hmq, Hmk. cbn [or_raise]. wp_steps.
  assert (Hlk : Zlen <$> (ar_q <$> rows) = Zlen <$> (ar_keys <$> rows)).
  { rewrite <-!list_fmap_compose. apply list_fmap_ext. intros i r Hr. unfold compose, Zlen. f_equal. apply (Forall_lookup_1 _ _ _ _ Hnew Hr). }
  assert (Hlv : Zlen <$> (ar_q <$> rows) = Zlen <$> (ar_values <$> rows)).
  { rewrite Hlk. rewrite <-!list_fmap_compose. apply list_fmap_ext. intros i r Hr. unfold compose, Zlen. f_equal. symmetry. apply (Forall_lookup_1 _ _ _ _ Hrows Hr). }
  destruct (padded rows ar_q nh d x Hne) as [Hpq Hmaxq].
  { eapply Forall_impl; [exact Hrows|]. by intros r [? _ _ _ [? ?]]. }
  eapply wp_mono; [exact Hpq|]. intros q_pad x' [-> Hq]. wp_steps.
  destruct (padded rows ar_keys nh d x Hne) as [Hpk Hmaxk].
  { eapply Forall_impl; [exact Hrows|]. by intros r [_ ? _ _ [? ?]]. }
  rewrite <-Hlk in Hpk. eapply wp_mono; [exact Hpk|]. intros k_pad x' [-> Hk]. wp_steps.
  destruct (padded rows ar_values nh e x Hne) as [Hpv _].
  { eapply Forall_impl; [exact Hrows|]. intros r [_ _ ? Hl [? ?]]. split; [lia|done]. }
  rewrite <-Hlv in Hpv. eapply wp_mono; [exact Hpv|]. intros v_pad x' [-> Hv]. wp_steps.
  apply (unpadded rows ar_q (row_output scale 1) (Z.to_nat (max_default (Zlen <$> (ar_q <$> rows)) 0))).
  { intros r _. unfold row_output. apply length_imap. }
  assert (Hok : Forall RowLens rows).
  { apply Forall_lookup. intros i r Hr. destruct (Forall_lookup_1 _ _ _ _ Hrows Hr) as [_ _ _ ? ?].
    pose proof (Forall_lookup_1 _ _ _ _ Hnew Hr) as He. simpl in He. split; [done|lia]. }
  apply (sdpa_rows_spec self 1 d ltac:(lia) ltac:(lia) ltac:(lia) e _ _ _ _ _ _ (Z.to_nat (max_default (Zlen <$> (ar_q <$> rows)) 0))).
  - done.
  - by rewrite H1.
  - by rewrite H2.
  - by rewrite H2.
  - rewrite Hlk at 2. by apply masks_ok.
Qed.

Lemma torch_varlen_spec rows (causal : bool) x : Forall (VRowOk nh d e) rows -> rows <> [] ->
  (causal = true -> Forall (fun r => length (ar_q r) <= length (ar_keys r)) rows) ->
  wp (torch_varlen_with_lse self (concat (ar_q <$> rows)) (concat (ar_keys <$> rows)) (concat (ar_values <$> rows))
        (cumulative (Zlen <$> (ar_q <$> rows))) (cumulative (Zlen <$> (ar_keys <$> rows)))
        (max_default (Zlen <$> (ar_q <$> rows)) 0) (max_default (Zlen <$> (ar_keys <$> rows)) 0) causal) x
    (fun r x' => x' = x /\ r.1 = concat (row_part scale e causal <$> rows) /\ r.2 = concat (row_lse scale causal <$> rows)).
Proof using Hnh.
  intros Hrows Hne Hcausal. unfold torch_varlen_with_lse. wp_steps.
  assert (Hlv : Zlen <$> (ar_keys <$> rows) = Zlen <$> (ar_values <$> rows)).
  { rewrite <-!list_fmap_compose. apply list_fmap_ext. intros i r Hr. unfold compose, Zlen. f_equal. symmetry. apply (Forall_lookup_1 _ _ _ _ Hrows Hr). }
  destruct (padded rows ar_q nh d x Hne) as [Hpq Hmaxq].
  { eapply Forall_impl; [exact Hrows|]. by intros r [? _ _ _ [? ?]]. }
  eapply wp_mono; [exact Hpq|]. intros q_pad x' [-> Hq]. wp_steps.
  destruct (padded rows ar_keys nh d x Hne) as [Hpk Hmaxk].
  { eapply Forall_impl; [exact Hrows|]. by intros r [_ ? _ _ [? ?]]. }
  eapply wp_mono; [exact Hpk|]. intros k_pad x' [-> Hk]. wp_steps.
  destruct (padded rows ar_values nh e x Hne) as [Hpv _].
  { eapply Forall_impl; [exact Hrows|]. intros r [_ _ ? Hl [? ?]]. split; [lia|done]. }
  rewrite <-Hlv in Hpv. eapply wp_mono; [exact Hpv|]. intros v_pad x' [-> Hv]. wp_steps.
  assert (Hq' : Forall2 (fun r q => Extends (Z.to_nat (max_default (Zlen <$> (ar_q <$> rows)) 0)) (ar_q r) q) rows q_pad).
  { eapply Forall2_impl; [exact Hq|]. by intros r q [? _]. }
  pose proof (varlen_rows_spec self nh d e Hnh causal rows q_pad k_pad v_pad _ _ _ Hrows Hcausal Hq' Hk Hv
    (batch_masks nh d e causal rows _ _ Hrows Hcausal Hmaxq Hmaxk)) as Hout.
  set (out := varlen_rows _ _ _ _ _) in *. clearbody out.
  assert (Hparts : forall {Y} (g : list (list F * Lse F) -> Y) (h : AttnRow F -> list Y),
    (forall r, h r = g <$> imap (fun j t => token_pair self e (visible causal r j) t) (ar_q r)) ->
    wp (unpad_rows ((fun row : list (list (list F * Lse F)) => g <$> row) <$> out) (cumulative (Zlen <$> (ar_q <$> rows))) (Zlen (concat (ar_q <$> rows)))) x
      (fun o x' => x' = x /\ o = concat (h <$> rows))).
  { intros Y g h Hg. apply (unpadded rows ar_q h (Z.to_nat (max_default (Zlen <$> (ar_q <$> rows)) 0))).
    - intros r _. by rewrite Hg, length_fmap, length_imap.
    - apply Forall2_fmap_r. rewrite Forall2_fmap_l. rewrite Forall2_fmap_l in Hout. eapply Forall2_impl; [exact Hout|].
      intros r y Hy. simpl. rewrite Hg. by apply (extends_fmap g). }
  eapply wp_mono; [apply (Hparts _ (fun t => t.*1) (row_part scale e causal))|].
  { intros r. unfold row_part. rewrite fmap_imap. apply imap_ext. intros j t _. unfold compose. symmetry. apply token_pair_fst. }
  intros o x' [-> ->]. wp_steps.
  eapply wp_mono; [apply (Hparts _ (fun t => t.*2) (row_lse scale causal))|].
  { intros r. unfold row_lse. rewrite fmap_imap. apply imap_ext. intros j t _. unfold compose. symmetry. apply token_pair_snd. }
  intros o' x' [-> ->]. by wp_steps.
Qed.

(** ** Over latents *)

Lemma uniform_slice {X} (l : list (list X)) n b r : 0 < n -> Forall (fun r => length r = n) l -> l !! b = Some r ->
  py_slice (concat l) (Z.of_nat b * Z.of_nat n) (Z.of_nat (S b) * Z.of_nat n) = r.
Proof using.
  clear. intros Hn Hl Hr. pose proof (Forall_lookup_1 _ _ _ _ Hl Hr) as Hlr. simpl in Hlr.
  rewrite <-(take_drop_middle _ _ _ Hr), concat_app. cbn [concat].
  assert (Hz : Zlen (concat (take b l)) = (Z.of_nat b * Z.of_nat n)%Z).
  { unfold Zlen. rewrite (wide_concat_length n) by by apply Forall_take. rewrite length_take. apply lookup_lt_Some in Hr. lia. }
  replace (Z.of_nat (S b) * Z.of_nat n)%Z with (Zlen (concat (take b l)) + Zlen r)%Z by (unfold Zlen in *; lia).
  rewrite <-Hz. apply py_slice_app.
Qed.

Lemma zero_latent_ok (c : list F) : length c = lat -> length (zero_latent c) = lat.
Proof using. clear. intros <-. apply length_fmap. Qed.

(** One row's queries over its latents, of which keep the first entries as values. *)
Lemma mla_row_spec (r : MLARow F) latent nk mask : LatentRowOk nh lat r -> Extends nk (ml_latents r) latent -> wide lat latent ->
  length mask = length (ml_q r) -> wide nk mask ->
  (forall l, l < length (ml_q r) -> exists m, mask !! l = Some m /\ LetsThrough nk (length (ml_latents r) - length (ml_q r) + l + 1) m) ->
  mla_row self L (ml_q r) latent mask = row_output scale nh (latent_row L r).
Proof using Hnh.
  intros [Sq Wl Hlen] Hext Wx Lm Wm Hm. destruct Hnh as (H0 & H1 & H2). pose proof (extends_le _ _ _ Hext) as Hle.
  unfold mla_row, row_output. cbn [latent_row ar_q ar_keys ar_values]. rewrite H1. rewrite !length_fmap.
  apply list_eq. intros l. rewrite list_lookup_imap, list_lookup_fmap.
  destruct (decide (l < length (ml_q r))) as [Hl|Hl].
  2: { rewrite lookup_seq_ge, lookup_ge_None_2 by lia. done. }
  rewrite lookup_seq_lt by lia. destruct (lookup_lt_is_Some_2 (ml_q r) l Hl) as [t Ht]. rewrite Ht.
  cbn [fmap option_fmap option_map]. f_equal. rewrite Nat.add_0_l. destruct (Forall_lookup_1 _ _ _ _ Sq Ht) as [Lt Wt].
  unfold token_attention. apply list_eq. intros h. rewrite list_lookup_imap, list_lookup_fmap.
  destruct (decide (h < nh)) as [Hh|Hh].
  2: { rewrite lookup_seq_ge, (lookup_ge_None_2 t) by lia. done. }
  rewrite lookup_seq_lt by lia. destruct (lookup_lt_is_Some_2 t h) as [qh Hqh]; [lia|]. rewrite Hqh.
  cbn [fmap option_fmap option_map]. f_equal. rewrite Nat.add_0_l.
  rewrite list_lookup_fmap, lookup_seq_lt by lia. cbn [fmap option_fmap option_map default]. unfold Datatypes.id. rewrite Nat.add_0_l.
  destruct (Hm l Hl) as (m & Hml & Hlet). set (n := length (ml_latents r) - length (ml_q r) + l + 1) in *.
  assert (Lx : length latent = nk) by apply Hext.
  rewrite (sdpa_eq _ _ _ _ _ lat (min L lat) _ qh m).
  - simpl. f_equal. rewrite Nat.div_small by done. destruct Hlet as [Hlm Hlp].
    rewrite (masked_prefix _ _ n); [|rewrite length_zip_with, length_fmap; lia|done].
    destruct Hext as [_ [tl ->]]. rewrite fmap_app, zip_with_app by by rewrite length_fmap.
    rewrite take_app_le by (rewrite length_zip_with, length_fmap; lia). rewrite !fmap_take. f_equal.
    clear. induction (ml_latents r) as [|c l IH]; [done|]. rewrite !fmap_cons. cbn [zip_with]. rewrite fmap_cons, IH. done.
  - by apply (wide_column h nh).
  - done.
  - apply Forall_fmap. eapply Forall_impl; [exact Wx|]. intros c Hc. simpl in *. rewrite length_take. lia.
  - by rewrite length_fmap.
  - unfold head_column. by rewrite length_fmap.
  - by rewrite Lx.
  - unfold head_column. rewrite list_lookup_fmap, Ht. simpl. unfold head_at. by rewrite Hqh.
  - done.
  - apply (lets_one nk n); [done|]. unfold n. lia.
Qed.

Lemma torch_mla_decode_spec rows c context k_lens n x : Forall (LatentRowOk nh lat) rows -> rows <> [] ->
  LatentsOk lat c -> ContextOk c context (latent_row L <$> rows) k_lens ->
  Forall (fun r => Holds c (ml_table r) (ml_latents r)) rows -> Forall (fun r => length (ml_q r) = n) rows ->
  wp (torch_mla_decode self (concat (ml_q <$> rows)) c L context) x
    (fun o x' => x' = x /\ o = concat (row_output scale nh <$> (latent_row L <$> rows))).
Proof using Hnh.
  intros Hrows Hne Hc Hctx Hheld Hn. pose proof Hctx as [Hb _ _ _]. unfold torch_mla_decode.
  rewrite (bc_tables _ _ _ _ _ Hb), (bc_lens _ _ _ _ _ Hb). cbn [or_raise]. wp_steps.
  assert (Hks : Zlen <$> (ar_keys <$> (latent_row L <$> rows)) = Zlen <$> (ml_latents <$> rows)).
  { rewrite <-!list_fmap_compose. apply list_fmap_ext. intros _ r _. unfold compose, Zlen. simpl. by rewrite length_fmap. }
  assert (Htb : ar_table <$> (latent_row L <$> rows) = ml_table <$> rows) by by rewrite <-list_fmap_compose.
  rewrite Hks, Htb. assert (Hrl : Zlen (Zlen <$> (ml_latents <$> rows)) = Zlen rows) by (unfold Zlen; by rewrite !length_fmap).
  assert (Hr0 : (0 < Zlen rows)%Z) by (unfold Zlen; destruct rows; [done|simpl; lia]). rewrite Hrl.
  destruct (Z.eqb_spec (Zlen rows) 0); [lia|].
  assert (Hn0 : 0 < n).
  { destruct Hrows as [|r l [_ _ Hlen] _]; [done|]. apply Forall_cons in Hn as [<- _]. lia. }
  assert (Hlq : (Zlen (concat (ml_q <$> rows)) / Zlen rows)%Z = Z.of_nat n).
  { unfold Zlen. rewrite (wide_concat_length n) by by apply Forall_fmap. rewrite length_fmap, Nat2Z.inj_mul.
    rewrite Z.mul_comm. apply Z.div_mul. unfold Zlen in Hr0. lia. }
  rewrite Hlq.
  destruct (tables_ok c c context (latent_row L <$> rows) k_lens (fun r => concat (ar_keys r)) eq_refl eq_refl Hctx) as (w & Ht & Hwk & Hw).
  { apply Forall_fmap, Forall_lookup. intros i r Hr. simpl. rewrite length_fmap.
    assert (concat ((fun c => [c]) <$> ml_latents r) = ml_latents r) as ->; [|by split; [apply (Forall_lookup_1 _ _ _ _ Hheld Hr)|]].
    clear. induction (ml_latents r) as [|c0 l IH]; [done|]. rewrite fmap_cons. simpl. by rewrite IH. }
  assert (Hents : (fun r => concat (ar_keys r)) <$> (latent_row L <$> rows) = ml_latents <$> rows).
  { rewrite <-list_fmap_compose. apply list_fmap_ext. intros _ r _. unfold compose. simpl.
    induction (ml_latents r) as [|c0 l IH]; [done|]. rewrite fmap_cons. simpl. by rewrite IH. }
  assert (Htw : table_width (ml_table <$> rows) = w).
  { destruct rows as [|r l]; [done|]. rewrite !fmap_cons in Hw. by apply Forall_cons in Hw as [? _]. }
  rewrite Htw. set (maxk := (w * Z.of_nat (pg_size c))%Z) in *. specialize (Ht maxk Hwk). rewrite Hents, Htb in Ht.
  assert (Hblk : 0 < length (pg_blocks c)).
  { destruct Hrows as [|r l [_ _ Hlen] _]; [done|]. apply Forall_cons in Hheld as [Hh _].
    destruct (lookup_lt_is_Some_2 (ml_latents r) 0) as [c0 Hc0]; [lia|]. destruct (Hh 0 c0 Hc0) as (sl & _ & Hs).
    unfold slot_entry in Hs. destruct (pg_blocks c); [by rewrite lookup_nil in Hs|simpl; lia]. }
  wp_step. wp_call (gather_pages_spec (fun c => length c = lat) zero_latent c Hc zero_latent_ok Hblk _ _ w maxk x Ht); [done|].
  intros latent x' (-> & Hl & Wl). wp_steps. split; [done|]. f_equal.
  apply list_eq. intros b. rewrite list_lookup_imap, lookup_zip_with, !list_lookup_fmap.
  destruct (rows !! b) as [r|] eqn:Hr.
  2: { assert (latent !! b = None) as ->; [|done]. apply lookup_ge_None_2. apply lookup_ge_None in Hr. apply Forall2_length in Hl.
    rewrite length_fmap in Hl. lia. }
  destruct (Forall2_lookup_l _ _ _ _ _ Hl ltac:(by rewrite list_lookup_fmap, Hr)) as (lt & Hlt & Hext). rewrite Hlt. simpl. f_equal.
  pose proof (Forall_lookup_1 _ _ _ _ Hrows Hr) as Hok. pose proof (Forall_lookup_1 _ _ _ _ Hn Hr) as Hnr. simpl in Hnr.
  unfold row_queries. rewrite (uniform_slice (ml_q <$> rows) n b (ml_q r)); [|done|by apply Forall_fmap|by rewrite list_lookup_fmap, Hr].
  destruct (causal_mask_spec (Z.of_nat n) maxk (Zlen (ml_q r)) (Zlen (ml_latents r))) as (L1 & L2 & L3).
  { destruct Hok as [_ _ ?]. unfold Zlen. lia. }
  assert (Hqn : Zlen (ml_q r) = Z.of_nat n) by (unfold Zlen; lia). rewrite Hqn in L1, L2, L3.
  apply (mla_row_spec r lt (Z.to_nat maxk)); try done.
  - by apply (Forall_lookup_1 _ _ _ _ Wl Hlt).
  - rewrite L1. lia.
  - intros j Hj. destruct (L3 j) as (m & Hm & Hlet); [lia|]. exists m. split; [done|].
    replace (length (ml_latents r) - length (ml_q r) + j + 1) with (Z.to_nat (Zlen (ml_latents r) - Z.of_nat n + Z.of_nat j + 1)); [done|].
    unfold Zlen. destruct Hok as [_ _ ?]. lia.
Qed.

#[export] Instance torch_mla_ok : MLABackendOk (AttentionBackend0 := torch_backend self) (MLABackend0 := torch_mla self) scale nh d e lat L.
Proof using Hnh.
  split.
  - intros l slots c Hc Wl Hl Hnd Hs. cbn [store_latents torch_mla]. unfold torch_store_latents. wp_steps; [by apply Nat.eqb_eq|].
    assert (Hkeep : Forall (fun b => b = true) ((fun s => (0 <=? s)%Z) <$> slots)).
    { apply Forall_fmap. eapply Forall_impl; [exact Hs|]. intros s [H _]. simpl. by apply Z.leb_le. }
    rewrite (masked_true slots), (masked_true l) by (done || (rewrite length_fmap; lia)). change (id c) with c.
    wp_call (put_pages_spec (fun x => length x = lat) c slots l); [done|done|done|done|done|].
    intros c' c0 (-> & Hc' & Hst). by wp_steps.
  - intros. cbn [prefill torch_backend]. by apply torch_unpaged.
  - intros. cbn [varlen_with_lse torch_mla]. by apply torch_varlen_spec.
  - intros rows c context k_lens n x _. intros. cbn [mla_decode torch_mla]. by apply (torch_mla_decode_spec rows c context k_lens n).
Qed.

End Backend.
