(* ===== verification/Deepseek.v ===== *)
(** * DeepSeek V2 and V3

    [models/deepseek_v2.py]: a latent attention layer whose keys and values are
    one projection of the latents, expert layers with their router, and the
    decoder made of them. The norms, the rotary embedding and the gated MLP are
    Qwen3's. *)

From S2P Require Import Prelude Tensors Ranks Linear EmbedHead Qwen3 Attention Moe MLA.

Section Deepseek.
Context {F : Type} `{!Scalar F} `{!Torch F}.
Local Abbreviation mat := (list (list F)).

Record DeepseekConfig := {
  dc_vocab_size : nat;
  dc_hidden_size : nat;
  dc_intermediate_size : nat;
  dc_num_hidden_layers : nat;
  dc_num_nextn_predict_layers : option nat;
  dc_num_attention_heads : nat;
  dc_q_lora_rank : option nat;
  dc_kv_lora_rank : nat;
  dc_qk_nope_head_dim : nat;
  dc_qk_rope_head_dim : nat;
  dc_v_head_dim : nat;
  dc_attention_bias : option bool;
  dc_rms_norm_eps : F;
  dc_hidden_act : string;
  dc_topk_method : option string;
  dc_scoring_func : option string;
  dc_num_experts_per_tok : nat;
  dc_n_group : nat;
  dc_topk_group : nat;
  dc_norm_topk_prob : bool;
  dc_routed_scaling_factor : F;
  dc_n_routed_experts : option nat;
  dc_n_shared_experts : option nat;
  dc_moe_intermediate_size : nat;
  dc_moe_layer_freq : option nat;
  dc_first_k_dense_replace : nat;
  dc_tie_word_embeddings : bool
}.

(** ** Attention *)

(** How queries and latents come from the hidden states: by two layers, or with the queries' own low rank. *)
Inductive QueryProj :=
| Direct (q_proj kv_a_proj_with_mqa : Linear F)
| LowRank (q_lora_rank : nat) (fused_qkv_a_proj : Linear F) (q_a_layernorm : RMSNorm F) (q_b_proj : Linear F).

Record DeepseekV2Attention := {
  da_num_local_heads : nat;
  da_kv_lora_rank : nat;
  da_qk_nope_head_dim : nat;
  da_qk_rope_head_dim : nat;
  da_v_head_dim : nat;
  da_query : QueryProj;
  da_kv_a_layernorm : RMSNorm F;
  da_kv_b_proj : Linear F;
  da_o_proj : Linear F;
  da_rotary_emb : RotaryEmbedding F;
  da_scaling : F;
  da_latent_projections : option (Projections F)
}.

Definition da_qk_head_dim (self : DeepseekV2Attention) : nat := da_qk_nope_head_dim self + da_qk_rope_head_dim self.

(** [scaling] is [qk_head_dim**-0.5], and [mscale] what YaRN sharpens the softmax by, where the configuration asks. *)
Definition DeepseekV2Attention_init {S} (g : Group) (c : DeepseekConfig) (rope : RotaryEmbedding F) (scaling : F)
    (mscale : option F) : M S DeepseekV2Attention :=
  let hidden := dc_hidden_size c in
  let heads := dc_num_attention_heads c in
  let qk_head_dim := dc_qk_nope_head_dim c + dc_qk_rope_head_dim c in
  let bias := default false (dc_attention_bias c) in
  let! local := divide heads (world_size g) in
  let! query :=
    match dc_q_lora_rank c with
    | None =>
        let! q := ColumnParallelLinear g hidden (heads * qk_head_dim) false in
        ret (Direct q (ReplicatedLinear g hidden (dc_kv_lora_rank c + dc_qk_rope_head_dim c) bias))
    | Some q_lora_rank =>
        let fused := MergedReplicatedLinear g hidden [q_lora_rank; dc_kv_lora_rank c + dc_qk_rope_head_dim c] bias in
        let! q_b := ColumnParallelLinear g q_lora_rank (heads * qk_head_dim) false in
        ret (LowRank q_lora_rank fused (RMSNorm_init q_lora_rank (dc_rms_norm_eps c)) q_b)
    end in
  let! kv_b := ColumnParallelLinear g (dc_kv_lora_rank c) (heads * (dc_qk_nope_head_dim c + dc_v_head_dim c)) false in
  let! o := RowParallelLinear g (heads * dc_v_head_dim c) hidden bias in
  ret {| da_num_local_heads := local; da_kv_lora_rank := dc_kv_lora_rank c; da_qk_nope_head_dim := dc_qk_nope_head_dim c;
         da_qk_rope_head_dim := dc_qk_rope_head_dim c; da_v_head_dim := dc_v_head_dim c; da_query := query;
         da_kv_a_layernorm := RMSNorm_init (dc_kv_lora_rank c) (dc_rms_norm_eps c); da_kv_b_proj := kv_b; da_o_proj := o;
         da_rotary_emb := rope;
         da_scaling := match mscale with Some m => fmul (fmul scaling m) m | None => scaling end;
         da_latent_projections := None |}.

(** Keys and values of cached latents. A latent of another width raises in [split]; the cache has none. *)
Definition DeepseekV2Attention_expand (self : DeepseekV2Attention) (latent : mat) : list mat * list mat :=
  let L := da_kv_lora_rank self in
  let P := da_qk_nope_head_dim self in
  let kv_nope := pieces (P + da_v_head_dim self) (da_num_local_heads self)
    <$> Linear_forward (da_kv_b_proj self) (take L <$> latent) in
  (zip_with (fun (heads : mat) c => (fun h => take P h ++ drop L c) <$> heads) kv_nope latent,
   (fun heads : mat => drop P <$> heads) <$> kv_nope).

(** The transpose of a matrix of [n] columns. *)
Definition transpose (n : nat) (m : mat) : mat := (fun l => (fun r : list F => default fzero (r !! l)) <$> m) <$> seq 0 n.

(** [kv_b_proj.weight.T.view(L, N, P + V)], split and permuted per head. *)
Definition kv_b_views (self : DeepseekV2Attention) : Projections F :=
  let L := da_kv_lora_rank self in
  let N := da_num_local_heads self in
  let P := da_qk_nope_head_dim self in
  let view := pieces (P + da_v_head_dim self) N <$> transpose L (as_mat (weight (da_kv_b_proj self))) in
  let W_UK := (fun row : mat => take P <$> row) <$> view in
  let W_UV := (fun row : mat => drop P <$> row) <$> view in
  {| pj_W_UK_T := (fun n => transpose P ((fun row : mat => default [] (row !! n)) <$> W_UK)) <$> seq 0 N;
     pj_W_UV := (fun n => (fun row : mat => default [] (row !! n)) <$> W_UV) <$> seq 0 N |}.

Definition DeepseekV2Attention_latent_projections (self : DeepseekV2Attention) : Projections F :=
  match da_latent_projections self with
  | Some p => p
  | None => kv_b_views self
  end.

#[export] Instance eta_DeepseekV2Attention : Eta DeepseekV2Attention := fun a =>
  Build_DeepseekV2Attention (da_num_local_heads a) (da_kv_lora_rank a) (da_qk_nope_head_dim a) (da_qk_rope_head_dim a)
    (da_v_head_dim a) (da_query a) (da_kv_a_layernorm a) (da_kv_b_proj a) (da_o_proj a) (da_rotary_emb a) (da_scaling a)
    (da_latent_projections a).

(** Once the weights are loaded. *)
Definition process_weights_after_loading (self : DeepseekV2Attention) : DeepseekV2Attention :=
  let self := self <| da_latent_projections := None |> in
  self <| da_latent_projections := Some (DeepseekV2Attention_latent_projections self) |>.

(** [mla_attn], the runner's budget for its chunks set. *)
Definition mla_attn (self : DeepseekV2Attention) (max_context_chunk : Z) : MLAAttention F :=
  {| ma_num_heads := da_num_local_heads self; ma_head_dim := da_qk_head_dim self; ma_v_head_dim := da_v_head_dim self;
     ma_scale := da_scaling self; ma_nope_dim := da_qk_nope_head_dim self; ma_kv_lora_rank := da_kv_lora_rank self;
     ma_expand := DeepseekV2Attention_expand self;
     ma_latent_projections := DeepseekV2Attention_latent_projections self;
     ma_max_context_chunk := max_context_chunk |}.

(** [x.split([a, b], dim=-1)] of a row. *)
Definition split2 {S} (a b : nat) (r : list F) : M S (list F * list F) :=
  if a + b =? length r then ret (take a r, drop a r)
  else raise (RuntimeError "split_with_sizes expects split_sizes to sum exactly").

(** Up to attention: the queries, and the latents that the step caches. *)
Definition DeepseekV2Attention_project {S} (self : DeepseekV2Attention) (positions : list Z) (hidden_states : mat)
    : M S (list mat * mat) :=
  let L := da_kv_lora_rank self in
  let P := da_qk_nope_head_dim self in
  let R := da_qk_rope_head_dim self in
  let! (q, kv_lora) :=
    match da_query self with
    | Direct q_proj kv_a => ret (Linear_forward q_proj hidden_states, Linear_forward kv_a hidden_states)
    | LowRank q_lora_rank fused norm q_b =>
        let! rows := collect (Linear_forward fused hidden_states) (split2 q_lora_rank (L + R)) in
        ret (Linear_forward q_b (rms_forward norm (fst <$> rows)), snd <$> rows)
    end in
  let q := pieces (da_qk_head_dim self) (da_num_local_heads self) <$> q in
  let! rows := collect kv_lora (split2 L R) in
  let kv_c_normed := rms_forward (da_kv_a_layernorm self) (fst <$> rows) in
  let! (q_pe, k_pe) := Rotary_forward (da_rotary_emb self) positions
    ((fun heads : mat => drop P <$> heads) <$> q) ((fun r : list F * list F => [r.2]) <$> rows) in
  ret (zip_with (fun heads pe => zip_with (fun h r => take P h ++ r) heads pe) q q_pe,
       zip_with (fun c pe => c ++ concat pe) kv_c_normed k_pe).

(** From attention's output back to the residual stream. *)
Definition DeepseekV2Attention_combine (self : DeepseekV2Attention) (attn_out : list mat) : Prog F mat :=
  RowParallel_forward (da_o_proj self) ((fun heads => concat heads) <$> attn_out).

(** ** Experts *)

Context `{!Softmax F} `{!TorchGroups F} `{!Ordered F} `{!TopK F}.

Record DeepseekV2MoE := {
  dm_topk_method : string;
  dm_scoring_func : string;
  dm_top_k : nat;
  dm_num_expert_group : nat;
  dm_topk_group : nat;
  dm_renormalize : bool;
  dm_routed_scaling_factor : F;
  dm_gate : Linear F;
  dm_e_score_correction_bias : option (Param F);
  dm_experts : FusedMoE F;
  dm_shared_experts : option (Qwen3MLP (F := F))
}.

Definition DeepseekV2MoE_init {S} (g : Group) (c : DeepseekConfig) (n_routed_experts : nat) (enable_expert_parallel : bool)
    : M S DeepseekV2MoE :=
  let topk_method := default "noaux_tc"%string (dc_topk_method c) in
  let scoring_func := default (if String.eqb topk_method "noaux_tc" then "sigmoid" else "softmax")%string (dc_scoring_func c) in
  assert_ (bool_decide (topk_method ∈ ["greedy"; "group_limited_greedy"; "noaux_tc"]%string)) "unsupported topk_method";;;
  assert_ (bool_decide (scoring_func ∈ ["softmax"; "sigmoid"]%string)) "unsupported scoring_func";;;
  let! experts := FusedMoE_init g n_routed_experts (dc_num_experts_per_tok c) (dc_hidden_size c) (dc_moe_intermediate_size c)
    enable_expert_parallel in
  let! shared :=
    match dc_n_shared_experts c with
    | Some (S _ as n) =>
        let! m := Qwen3MLP_init g (dc_hidden_size c) (dc_moe_intermediate_size c * n) (dc_hidden_act c) in ret (Some m)
    | _ => ret None
    end in
  ret {| dm_topk_method := topk_method; dm_scoring_func := scoring_func; dm_top_k := dc_num_experts_per_tok c;
         dm_num_expert_group := dc_n_group c; dm_topk_group := dc_topk_group c; dm_renormalize := dc_norm_topk_prob c;
         dm_routed_scaling_factor := dc_routed_scaling_factor c;
         dm_gate := ReplicatedLinear g (dc_hidden_size c) n_routed_experts false;
         dm_e_score_correction_bias := if String.eqb topk_method "noaux_tc" then Some (empty1 n_routed_experts) else None;
         dm_experts := experts; dm_shared_experts := shared |}.

Definition DeepseekV2MoE_route {S} (self : DeepseekV2MoE) (hidden_states : mat) : M S (mat * list (list Z)) :=
  let router_logits := linear hidden_states (as_mat (weight (dm_gate self))) None in
  let grouped := negb (String.eqb (dm_topk_method self) "greedy") in
  torch_select_experts router_logits (dm_top_k self) (dm_renormalize self) (dm_routed_scaling_factor self)
    (if grouped then dm_num_expert_group self else 1) (if grouped then dm_topk_group self else 1)
    (dm_scoring_func self) (as_vec <$> dm_e_score_correction_bias self).

(** The shared experts' weights, which the routed experts' layer runs. *)
Definition shared_weights (m : Qwen3MLP (F := F)) : mat * mat :=
  (as_mat (weight (mg_linear (gate_up_proj m))), as_mat (weight (down_proj m))).

Definition DeepseekV2MoE_forward (self : DeepseekV2MoE) (hidden_states : mat) : Prog F mat :=
  pbind (run_local (DeepseekV2MoE_route self hidden_states)) (fun '(weights, ids) =>
    FusedMoE_forward (dm_experts self) hidden_states weights ids (shared_weights <$> dm_shared_experts self)).

(** ** Layers *)

Inductive DeepseekMLP := Routed (m : DeepseekV2MoE) | Dense (m : Qwen3MLP (F := F)).

Record DeepseekV2DecoderLayer := {
  dl_self_attn : DeepseekV2Attention;
  dl_mlp : DeepseekMLP;
  dl_input_layernorm : RMSNorm F;
  dl_post_attention_layernorm : RMSNorm F
}.

(** How many routed experts a layer has, if it is an expert layer. *)
Definition is_moe_layer (c : DeepseekConfig) (layer_idx : nat) : option nat :=
  let freq := match dc_moe_layer_freq c with Some (S _ as n) => n | _ => 1 end in
  match dc_n_routed_experts c with
  | Some n => if (dc_first_k_dense_replace c <=? layer_idx) && (layer_idx mod freq =? 0) then Some n else None
  | None => None
  end.

Definition DeepseekV2DecoderLayer_init {S} (g : Group) (c : DeepseekConfig) (layer_idx : nat) (enable_expert_parallel : bool)
    (rope : RotaryEmbedding F) (scaling : F) (mscale : option F) : M S DeepseekV2DecoderLayer :=
  let! attn := DeepseekV2Attention_init g c rope scaling mscale in
  let! mlp :=
    match is_moe_layer c layer_idx with
    | Some n => let! m := DeepseekV2MoE_init g c n enable_expert_parallel in ret (Routed m)
    | None => let! m := Qwen3MLP_init g (dc_hidden_size c) (dc_intermediate_size c) (dc_hidden_act c) in ret (Dense m)
    end in
  let norm := RMSNorm_init (dc_hidden_size c) (dc_rms_norm_eps c) in
  ret {| dl_self_attn := attn; dl_mlp := mlp; dl_input_layernorm := norm; dl_post_attention_layernorm := norm |}.

Definition DeepseekMLP_forward (m : DeepseekMLP) (x : mat) : Prog F mat :=
  match m with Routed m => DeepseekV2MoE_forward m x | Dense m => Qwen3MLP_forward m x end.

Definition DeepseekV2DecoderLayer_pre_attention {S} (self : DeepseekV2DecoderLayer) (positions : list Z) (hidden_states : mat)
    (residual : option mat) : M S (list mat * mat * mat) :=
  let '(hidden_states, residual) :=
    match residual with
    | None => (rms_forward (dl_input_layernorm self) hidden_states, hidden_states)
    | Some r => add_rms_forward (dl_input_layernorm self) hidden_states r
    end in
  let! q_latent := DeepseekV2Attention_project (dl_self_attn self) positions hidden_states in
  ret (q_latent, residual).

Definition DeepseekV2DecoderLayer_post_attention (self : DeepseekV2DecoderLayer) (attn_out : list mat) (residual : mat)
    : Prog F (mat * mat) :=
  pbind (DeepseekV2Attention_combine (dl_self_attn self) attn_out) (fun hidden_states =>
    let '(hidden_states, residual) := add_rms_forward (dl_post_attention_layernorm self) hidden_states residual in
    pbind (DeepseekMLP_forward (dl_mlp self) hidden_states) (fun hidden_states => Done (hidden_states, residual))).

(** A pass: [attend l q latent] is what the latent layer [l] gives on this rank. *)
Section Pass.
Variable attend : nat -> list mat -> mat -> list mat.

Definition DeepseekV2DecoderLayer_forward (self : DeepseekV2DecoderLayer) (l : nat) (positions : list Z) (hidden_states : mat)
    (residual : option mat) : Prog F (mat * mat) :=
  pbind (run_local (DeepseekV2DecoderLayer_pre_attention self positions hidden_states residual)) (fun '(q, latent, residual) =>
    DeepseekV2DecoderLayer_post_attention self (attend l q latent) residual).

Fixpoint deepseek_layers (ls : list DeepseekV2DecoderLayer) (l : nat) (positions : list Z) (hidden_states : mat) (residual : option mat)
    : Prog F (mat * option mat) :=
  match ls with
  | [] => Done (hidden_states, residual)
  | layer :: ls' =>
      pbind (DeepseekV2DecoderLayer_forward layer l positions hidden_states residual)
        (fun '(hidden_states, residual) => deepseek_layers ls' (S l) positions hidden_states (Some residual))
  end.

End Pass.

(** ** The model *)

Record DeepseekV2Model := {
  dk_embed_tokens : VocabParallelEmbedding F;
  dk_layers : list DeepseekV2DecoderLayer;
  dk_norm : RMSNorm F
}.

Definition DeepseekV2Model_init {S} (g : Group) (c : DeepseekConfig) (enable_expert_parallel : bool) (rope : RotaryEmbedding F)
    (scaling : F) (mscale : option F) : M S DeepseekV2Model :=
  let! e := VocabParallelEmbedding_init g (dc_vocab_size c) (dc_hidden_size c) in
  let! ls := collect (seq 0 (dc_num_hidden_layers c)) (fun i =>
    DeepseekV2DecoderLayer_init g c i enable_expert_parallel rope scaling mscale) in
  ret {| dk_embed_tokens := e; dk_layers := ls; dk_norm := RMSNorm_init (dc_hidden_size c) (dc_rms_norm_eps c) |}.

Definition DeepseekV2Model_forward (attend : nat -> list mat -> mat -> list mat) (self : DeepseekV2Model) (input_ids positions : list Z)
    : Prog F mat :=
  pbind (Embedding_forward (dk_embed_tokens self) input_ids) (fun hidden_states =>
    pbind (deepseek_layers attend (dk_layers self) 0 positions hidden_states None) (fun '(hidden_states, residual) =>
      match residual with
      | Some r => Done (add_rms_forward (dk_norm self) hidden_states r).1
      | None => Raised TypeError  (* no layers: the norm returns one tensor, which does not unpack to two *)
      end)).

(** Checkpoint projections that load as shards of one fused parameter, in the order the loader tries them. *)
Definition packed_modules_mapping (c : DeepseekConfig) : list (string * (string * nat)) :=
  [("gate_proj", ("gate_up_proj", 0)); ("up_proj", ("gate_up_proj", 1))]%string ++
  match dc_q_lora_rank c with
  | Some _ => [("q_a_proj", ("fused_qkv_a_proj", 0)); ("kv_a_proj_with_mqa", ("fused_qkv_a_proj", 1))]%string
  | None => []
  end.

(** [f"model.layers.{i}."] of the prediction layers, which the drafter loads. *)
Definition skipped_weight_prefixes (c : DeepseekConfig) : list string :=
  (fun i => "model.layers." +:+ pretty (dc_num_hidden_layers c + i)%nat +:+ ".")%string
    <$> seq 0 (default 0 (dc_num_nextn_predict_layers c)).

Record DeepseekV2ForCausalLM := {
  dk_packed_modules_mapping : list (string * (string * nat));
  dk_skipped_weight_prefixes : list string;
  dk_model : DeepseekV2Model;
  dk_lm_head : VocabParallelEmbedding F
}.

(** A tied head's weight is the embedding's. *)
Definition DeepseekV2ForCausalLM_init {S} (g : Group) (c : DeepseekConfig) (enable_expert_parallel : bool)
    (rope : RotaryEmbedding F) (scaling : F) (mscale : option F) : M S DeepseekV2ForCausalLM :=
  let! m := DeepseekV2Model_init g c enable_expert_parallel rope scaling mscale in
  let! head := LMHead_init g (dc_vocab_size c) (dc_hidden_size c) false in
  ret {| dk_packed_modules_mapping := packed_modules_mapping c; dk_skipped_weight_prefixes := skipped_weight_prefixes c;
         dk_model := m; dk_lm_head := if dc_tie_word_embeddings c then dk_embed_tokens m else head |}.

Definition DeepseekV2_forward (attend : nat -> list mat -> mat -> list mat) (self : DeepseekV2ForCausalLM) (input_ids positions : list Z)
    : Prog F mat :=
  DeepseekV2Model_forward attend (dk_model self) input_ids positions.

Definition DeepseekV2_compute_logits (self : DeepseekV2ForCausalLM) (logits_indices : option (list Z)) (hidden_states : mat) : Prog F mat :=
  LMHead_forward (dk_lm_head self) logits_indices hidden_states.

End Deepseek.

Arguments DeepseekConfig : clear implicits.
Arguments QueryProj : clear implicits.
Arguments DeepseekV2Attention : clear implicits.
Arguments DeepseekV2MoE : clear implicits.
Arguments DeepseekV2DecoderLayer : clear implicits.
