(* ===== verification/DeepseekFacts.v ===== *)
(** * A DeepSeek layer's two ways to attend agree

    The projections that a decode moves its queries through are those that the
    latents of a prompt expand by. Then the expert layer: built and loaded from
    a checkpoint's tensors in any order, and run by the ranks together. *)


From S2P Require Import Prelude Tensors Ranks Linear EmbedHead Qwen3 Qwen3Load Qwen3Facts Attention Moe MLA MoeFacts.
From S2P Require Import MoeRanks MLAFacts Deepseek.

Section Transpose.
Context {F : Type} `{!Scalar F}.
Local Abbreviation mat := (list (list F)).

Add Ring scalar_transpose : scalar_ring.

Lemma dot_comm (x y : list F) : dot x y = dot y x.
Proof.
  unfold dot, vmul. f_equal. revert y. induction x as [|a x IH]; intros [|b y]; try done. cbn [zip_with]. rewrite IH. f_equal. ring.
Qed.

Lemma transpose_lookup n (m : mat) l : l < n -> transpose n m !! l = Some ((fun r : list F => default fzero (r !! l)) <$> m).
Proof. intros Hl. unfold transpose. by rewrite list_lookup_fmap, lookup_seq_lt. Qed.

Lemma transpose_wide n (m : mat) : wide (length m) (transpose n m).
Proof. apply Forall_fmap, Forall_forall. intros l _. simpl. apply length_fmap. Qed.

Lemma transpose_length n (m : mat) : length (transpose n m) = n.
Proof. unfold transpose. by rewrite length_fmap, length_seq. Qed.

Lemma transpose_twice n (m : mat) : wide n m -> transpose (length m) (transpose n m) = m.
Proof.
  intros Hw. apply list_eq. intros i. destruct (m !! i) as [r|] eqn:Hr.
  - rewrite transpose_lookup by (by eapply lookup_lt_Some). f_equal. pose proof (Forall_lookup_1 _ _ _ _ Hw Hr) as Lr. simpl in Lr.
    apply list_eq. intros l. rewrite list_lookup_fmap. destruct (decide (l < n)) as [Hl|Hl].
    + rewrite transpose_lookup by done. cbn [fmap option_fmap option_map]. rewrite list_lookup_fmap, Hr. simpl.
      destruct (lookup_lt_is_Some_2 r l) as [x Hx]; [lia|]. by rewrite Hx.
    + rewrite !lookup_ge_None_2; [done|lia|]. unfold transpose. rewrite length_fmap, length_seq. lia.
  - apply lookup_ge_None in Hr. apply lookup_ge_None_2. by rewrite transpose_length.
Qed.

(** A vector times a transposed matrix: its products with the rows. *)
Lemma row_times_transpose n (x : list F) (m : mat) : wide n m -> length x = n ->
  row_times (length m) x (transpose n m) = (fun r => dot r x) <$> m.
Proof.
  intros Hw Hx. pose proof (transpose_wide n m) as Wt.
  assert (Hl : length (row_times (length m) x (transpose n m)) = length m) by by apply row_times_length.
  assert (Hent : forall k (a : list F) (t : mat), wide k t -> length a = length t -> forall i, i < k ->
    row_times k a t !! i = Some (fsum (zip_with fmul a ((fun r : list F => default fzero (r !! i)) <$> t)))).
  { clear. intros k a t Wt. revert a. induction Wt as [|r t Hr Wt IH]; intros [|b a] Hl i Hi; try done.
    - unfold row_times. simpl. rewrite lookup_replicate_2 by done. done.
    - unfold row_times in *. cbn [zip_with foldr]. simpl in Hl. rewrite fmap_cons. cbn [zip_with]. unfold vadd. rewrite lookup_zip_with.
      rewrite list_lookup_fmap. destruct (lookup_lt_is_Some_2 r i) as [y Hy]; [lia|]. rewrite Hy. simpl.
      rewrite IH by (lia || done). done. }
  apply list_eq. intros i. destruct (decide (i < length m)) as [Hi|Hi].
  - rewrite Hent by (rewrite ?transpose_length; done). rewrite list_lookup_fmap. destruct (lookup_lt_is_Some_2 m i Hi) as [r Hr]. rewrite Hr. simpl.
    f_equal. rewrite dot_comm. unfold dot, vmul. do 2 f_equal. pose proof (Forall_lookup_1 _ _ _ _ Hw Hr) as Lr. simpl in Lr.
    apply list_eq. intros l. rewrite list_lookup_fmap. destruct (decide (l < n)) as [Hln|Hln].
    + rewrite transpose_lookup by done. cbn [fmap option_fmap option_map]. rewrite list_lookup_fmap, Hr. simpl.
      destruct (lookup_lt_is_Some_2 r l) as [y Hy]; [lia|]. by rewrite Hy.
    + rewrite !lookup_ge_None_2; [done|lia|]. rewrite transpose_length. lia.
  - rewrite !lookup_ge_None_2; [done|rewrite length_fmap; lia|lia].
Qed.

End Transpose.

Section Views.
Context {F : Type} `{!Scalar F} `{!Torch F} `{!Softmax F} `{!LogSumExp F}.
Local Abbreviation mat := (list (list F)).
Variable self : DeepseekV2Attention F.
Local Abbreviation N := (da_num_local_heads self).
Local Abbreviation P := (da_qk_nope_head_dim self).
Local Abbreviation V := (da_v_head_dim self).
Local Abbreviation L := (da_kv_lora_rank self).

(** The layer with a loaded [kv_b_proj]: a row for each head's key and value entries. *)
Record KvOk (W : mat) : Prop := {
  kv_weight : as_mat (Linear.weight (da_kv_b_proj self)) = W;
  kv_bias : bias (da_kv_b_proj self) = None;
  kv_rows : length W = N * (P + V);
  kv_cols : wide L W;
  kv_heads : 0 < N;
  kv_views : da_latent_projections self = None \/ da_latent_projections self = Some (kv_b_views self)
}.

Variable W : mat.
Hypothesis Hkv : KvOk W.

(** Head [n]'s rows of the weight: first the key's, then the value's. *)
Definition key_rows (n : nat) : mat := cut (n * (P + V)) P W.
Definition value_rows (n : nat) : mat := cut (n * (P + V) + P) V W.

Lemma head_rows n : n < N -> length (key_rows n) = P /\ length (value_rows n) = V /\ wide L (key_rows n) /\ wide L (value_rows n).
Proof using Hkv.
  intros Hn. destruct Hkv as [_ _ Hr Hc _ _]. unfold key_rows, value_rows. rewrite !cut_length.
  split_and!; [nia|nia| |]; unfold cut; by apply Forall_take, Forall_drop.
Qed.

(** A row of the view, by its head. *)
Lemma view_head (r : list F) n : n < N -> length r = N * (P + V) ->
  pieces (P + V) N r !! n = Some (cut (n * (P + V)) P r ++ cut (n * (P + V) + P) V r).
Proof using.
  clear. intros Hn Hr. rewrite pieces_cuts, list_lookup_fmap, lookup_seq_lt by done. cbn [fmap option_fmap option_map]. f_equal. rewrite Nat.add_0_l.
  unfold cut. rewrite <-drop_drop. set (d := drop (n * (P + V)) r). rewrite <-(take_drop P (take (P + V) d)) at 1.
  rewrite take_take, Nat.min_l by lia. f_equal. rewrite take_drop_commute. done.
Qed.

Lemma views_eq : kv_b_views self = {| pj_W_UK_T := key_rows <$> seq 0 N; pj_W_UV := (fun n => transpose L (value_rows n)) <$> seq 0 N |}.
Proof using Hkv.
  destruct Hkv as [Hw _ Hr Hc _ _]. unfold kv_b_views. rewrite Hw.
  set (view := pieces (P + V) N <$> transpose L W).
  assert (Hcol : forall n, n < N -> (fun row : mat => default [] (row !! n)) <$> ((fun row : mat => take P <$> row) <$> view) = transpose L (key_rows n) /\
    (fun row : mat => default [] (row !! n)) <$> ((fun row : mat => drop P <$> row) <$> view) = transpose L (value_rows n)).
  { intros n Hn. unfold view, transpose. rewrite <-!list_fmap_compose.
    split; apply list_fmap_ext; intros _ l _; unfold compose;
      rewrite list_lookup_fmap, view_head by (done || by rewrite length_fmap); cbn [fmap option_fmap option_map default];
      unfold key_rows, value_rows; rewrite <-!cut_fmap; unfold id.
    - rewrite take_app_length'; [done|]. rewrite cut_length, length_fmap. nia.
    - rewrite drop_app_length'; [done|]. rewrite cut_length, length_fmap. nia. }
  f_equal; apply list_fmap_ext; intros _ n Hn%list_elem_of_lookup_2%elem_of_seq.
  - destruct (Hcol n) as [-> _]; [lia|]. destruct (head_rows n) as (L1 & _ & W1 & _); [lia|].
    rewrite <-L1 at 1. by apply transpose_twice.
  - by destruct (Hcol n) as [_ ->]; [lia|].
Qed.

(** What a latent expands to. *)
Lemma expand_eq (latent : mat) : wide (L + da_qk_rope_head_dim self) latent ->
  DeepseekV2Attention_expand self latent =
    ((fun c => (fun n => ((fun r => dot r (take L c)) <$> key_rows n) ++ drop L c) <$> seq 0 N) <$> latent,
     (fun c => (fun n => (fun r => dot r (take L c)) <$> value_rows n) <$> seq 0 N) <$> latent).
Proof using Hkv.
  intros Hl. destruct Hkv as [Hw Hb Hr Hc _ _]. unfold DeepseekV2Attention_expand, Linear_forward. rewrite Hw, Hb. cbn [bias_vec fmap option_fmap option_map].
  rewrite (linear_eq _ _ _ L); [|apply Forall_fmap; eapply Forall_impl; [exact Hl|]; intros c Hcl; simpl in *; rewrite length_take; lia|done|done].
  rewrite <-!list_fmap_compose.
  assert (Hpieces : forall c : list F, pieces (P + V) N (dot (take L c) <$> W) =
    (fun n => ((fun r => dot r (take L c)) <$> key_rows n) ++ ((fun r => dot r (take L c)) <$> value_rows n)) <$> seq 0 N).
  { intros c. apply list_eq. intros n. rewrite list_lookup_fmap. destruct (decide (n < N)) as [Hn|Hn].
    - rewrite view_head by (done || by rewrite length_fmap). rewrite lookup_seq_lt by done. cbn [fmap option_fmap option_map]. rewrite Nat.add_0_l. f_equal.
      unfold key_rows, value_rows. rewrite <-!cut_fmap. assert (He : dot (take L c) <$> W = (fun r => dot r (take L c)) <$> W).
      { apply list_fmap_ext. intros _ r _. apply dot_comm. }
      by rewrite He.
    - rewrite lookup_seq_ge by lia. apply lookup_ge_None_2. rewrite pieces_length. lia. }
  f_equal.
  - clear -Hpieces Hkv. induction latent as [|c latent IH]; [done|]. rewrite !fmap_cons. cbn [zip_with]. rewrite IH. f_equal.
    unfold compose. simpl. rewrite Hpieces, <-list_fmap_compose. apply list_fmap_ext. intros _ n Hn%list_elem_of_lookup_2%elem_of_seq. unfold compose.
    destruct (head_rows n) as (L1 & _ & _ & _); [lia|]. rewrite take_app_length'; [done|]. by rewrite length_fmap.
  - apply list_fmap_ext. intros _ c _. unfold compose. simpl. rewrite Hpieces, <-list_fmap_compose.
    apply list_fmap_ext. intros _ n Hn%list_elem_of_lookup_2%elem_of_seq. unfold compose.
    destruct (head_rows n) as (L1 & _ & _ & _); [lia|]. rewrite drop_app_length'; [done|]. by rewrite length_fmap.
Qed.

(** Both ways are the one projection's. *)
Lemma projections_ok budget : ProjectionsOk (mla_attn self budget) (da_qk_rope_head_dim self).
Proof using Hkv.
  assert (Hp : DeepseekV2Attention_latent_projections self = kv_b_views self).
  { unfold DeepseekV2Attention_latent_projections. by destruct (kv_views _ Hkv) as [-> | ->]. }
  pose proof views_eq as Hv.
  assert (Hall : forall (Q : mat -> Prop) f, (forall n, n < N -> Q (f n)) -> Forall Q (f <$> seq 0 N)).
  { intros Q f Hf. apply Forall_fmap, Forall_forall. intros n Hn%elem_of_seq. apply Hf. lia. }
  split.
  - done.
  - cbn [mla_attn ma_num_heads ma_latent_projections]. rewrite Hp, Hv. cbn [pj_W_UK_T pj_W_UV]. rewrite !length_fmap, length_seq.
    split_and!; [apply Hkv|done|done].
  - cbn [mla_attn ma_latent_projections ma_nope_dim ma_kv_lora_rank]. rewrite Hp, Hv. apply Hall. intros n Hn. by destruct (head_rows n Hn) as (? & _ & ? & _).
  - cbn [mla_attn ma_latent_projections ma_v_head_dim ma_kv_lora_rank]. rewrite Hp, Hv. apply Hall. intros n Hn. split; [apply transpose_length|].
    destruct (head_rows n Hn) as (_ & <- & _). apply transpose_wide.
  - cbn [mla_attn ma_expand ma_kv_lora_rank]. intros l Hl. rewrite expand_eq by done. unfold key_of, value_of.
    cbn [mla_attn ma_latent_projections ma_kv_lora_rank ma_v_head_dim]. rewrite Hp, Hv. cbn [pj_W_UK_T pj_W_UV].
    f_equal; apply list_fmap_ext; intros i c Hc; pose proof (Forall_lookup_1 _ _ _ _ Hl Hc) as Lc; simpl in Lc; rewrite <-list_fmap_compose;
      apply list_fmap_ext; intros _ n Hn%list_elem_of_lookup_2%elem_of_seq; unfold compose; [done|].
    destruct (head_rows n) as (_ & L2 & _ & W2); [lia|]. rewrite <-L2 at 1. symmetry. apply row_times_transpose; [done|].
    rewrite length_take. lia.
Qed.

End Views.

(** ** From the checkpoint *)

Section Built.
Context {F : Type} `{!Scalar F} `{!Torch F} `{!Softmax F} `{!LogSumExp F}.
Local Abbreviation mat := (list (list F)).
Variable c : DeepseekConfig F.
Local Abbreviation P := (dc_qk_nope_head_dim c).
Local Abbreviation V := (dc_v_head_dim c).
Local Abbreviation L := (dc_kv_lora_rank c).
Local Abbreviation R := (dc_qk_rope_head_dim c).

(** The loader's step for [kv_b_proj]. *)
Definition load_kv_b {S} (w : mat) (a : DeepseekV2Attention F) : M S (DeepseekV2Attention F) :=
  let! l := load_weight (ColumnParallel_weight_loader (da_kv_b_proj a) (Mat L w)) (da_kv_b_proj a) in
  ret {| da_num_local_heads := da_num_local_heads a; da_kv_lora_rank := da_kv_lora_rank a;
         da_qk_nope_head_dim := da_qk_nope_head_dim a; da_qk_rope_head_dim := da_qk_rope_head_dim a;
         da_v_head_dim := da_v_head_dim a; da_query := da_query a; da_kv_a_layernorm := da_kv_a_layernorm a;
         da_kv_b_proj := l; da_o_proj := da_o_proj a; da_rotary_emb := da_rotary_emb a; da_scaling := da_scaling a;
         da_latent_projections := da_latent_projections a |}.

(** A layer whose weights have come. *)
Definition attention_build {S} (g : Group) (rope : RotaryEmbedding F) (scaling : F) (mscale : option F) (w : mat)
    : M S (DeepseekV2Attention F) :=
  let! a := DeepseekV2Attention_init g c rope scaling mscale in
  let! a := load_kv_b w a in
  ret (process_weights_after_loading a).

Variable n N : nat.
Variable w : mat.
Hypothesis Hn : 0 < n.
Hypothesis HN : 0 < N.
Hypothesis Hheads : dc_num_attention_heads c = n * N.
Hypothesis Hw : length w = n * N * (P + V) /\ wide L w.

(** A key's and a value's entries of global head [h], from a latent. *)
Definition whole_key (h : nat) (l : list F) : list F := ((fun r => dot r (take L l)) <$> cut (h * (P + V)) P w) ++ drop L l.
Definition whole_value (h : nat) (l : list F) : list F := (fun r => dot r (take L l)) <$> cut (h * (P + V) + P) V w.

Record BuiltOk (i : nat) (a : DeepseekV2Attention F) : Prop := {
  bo_sizes : da_num_local_heads a = N /\ da_kv_lora_rank a = L /\ da_qk_nope_head_dim a = P /\ da_qk_rope_head_dim a = R /\ da_v_head_dim a = V;
  bo_kv : KvOk a (shard n i w)
}.

Lemma attention_build_spec {S} i rope scaling mscale (s : S) : i < n ->
  wp (attention_build {| rank := i; world_size := n |} rope scaling mscale w) s (fun a s' => s' = s /\ BuiltOk i a).
Proof using Hn HN Hheads Hw.
  intros Hi. destruct Hw as [Hwl Hww]. unfold attention_build, DeepseekV2Attention_init. cbv zeta. cbn [world_size].
  rewrite Hheads. apply wp_bind, wp_bind, wp_divide; [done|]. apply wp_bind.
  set (qk := P + R).
  assert (Hq : wp match dc_q_lora_rank c with
      | Some q_lora_rank =>
          let! q_b := ColumnParallelLinear {| rank := i; world_size := n |} q_lora_rank (n * N * qk) false in
          ret (LowRank q_lora_rank (MergedReplicatedLinear {| rank := i; world_size := n |} (dc_hidden_size c) [q_lora_rank; L + R]
            (default false (dc_attention_bias c))) (RMSNorm_init q_lora_rank (dc_rms_norm_eps c)) q_b)
      | None =>
          let! q := ColumnParallelLinear {| rank := i; world_size := n |} (dc_hidden_size c) (n * N * qk) false in
          ret (Direct q (ReplicatedLinear {| rank := i; world_size := n |} (dc_hidden_size c) (L + R) (default false (dc_attention_bias c))))
      end s (fun _ s' => s' = s)).
  { unfold ColumnParallelLinear. cbn [world_size]. rewrite <-(Nat.mul_assoc n N qk).
    destruct (dc_q_lora_rank c); apply wp_bind, wp_bind, wp_divide; try done; apply wp_ret; by apply wp_ret. }
  eapply wp_mono; [exact Hq|]. clear Hq. intros query s' ->. apply wp_bind. unfold ColumnParallelLinear at 1. cbn [world_size].
  rewrite <-(Nat.mul_assoc n N (P + V)). apply wp_bind, wp_divide; [done|]. apply wp_ret, wp_bind. unfold RowParallelLinear.
  cbn [world_size]. rewrite <-(Nat.mul_assoc n N V). apply wp_bind, wp_divide; [done|]. apply wp_ret, wp_ret.
  unfold load_kv_b, load_weight, LinearBase. cbn [da_kv_b_proj weight tp_dim tp_rank tp_size bias rank world_size].
  destruct (empty2_rows (N * (P + V)) L) as (m0 & He & Hm0). rewrite !He. apply wp_bind, wp_bind, wp_bind, wp_run_on. eapply wp_mono.
  { apply (Column_load (Mat L) (fun r => length r = L) _ m0 w (N * (P + V)) n); try done. lia. }
  intros _ p ->. cbn [tp_rank]. apply wp_ret, wp_ret, wp_ret. split; [done|].
  unfold process_weights_after_loading. split; [done|]. split; cbn; try done.
  - rewrite (shard_length n i (N * (P + V))); [done|lia|done].
  - by apply wide_shard.
  - by right.
Qed.

(** What rank [i]'s layer expands a latent to: its own heads of the whole. *)
Lemma built_expand i a (latent : mat) : i < n -> BuiltOk i a -> wide (L + R) latent ->
  DeepseekV2Attention_expand a latent =
    ((fun l => (fun h => whole_key (i * N + h) l) <$> seq 0 N) <$> latent,
     (fun l => (fun h => whole_value (i * N + h) l) <$> seq 0 N) <$> latent).
Proof using Hn HN Hw.
  clear Hheads. intros Hi [(H1 & H2 & H3 & H4 & H5) Hkv] Hl. destruct Hw as [Hwl _]. rewrite (expand_eq a _ Hkv) by by rewrite H2, H4.
  assert (Hcut : forall h o k, h < N -> o + k <= P + V -> cut (h * (P + V) + o) k (shard n i w) = cut ((i * N + h) * (P + V) + o) k w).
  { intros h o k Hh Hk. rewrite (shard_cut n i (N * (P + V))) by (done || lia).
    assert (h * (P + V) + (P + V) <= N * (P + V)) by nia. rewrite cut_cut by lia. f_equal. lia. }
  unfold key_rows, value_rows, whole_key, whole_value. rewrite H1, H2, H3, H5.
  f_equal; apply list_fmap_ext; intros _ l _; apply list_fmap_ext; intros _ h Hh%list_elem_of_lookup_2%elem_of_seq.
  - do 2 f_equal. rewrite <-(Nat.add_0_r (h * _)), <-(Nat.add_0_r ((i * N + h) * _)). apply Hcut; lia.
  - f_equal. apply Hcut; lia.
Qed.

End Built.

(** ** A DeepSeek expert layer over the ranks

    Every rank builds the layer, loads it, scores the tokens with the whole
    router and runs its part of the experts: together they mix each token's
    best experts. *)


(** *** Loads of separate parameters

    Each tensor of a checkpoint goes to one parameter, so the order that counts
    is that of each parameter's own tensors. *)

Definition on_part {S A} (get : S -> option A) (set : A -> S -> S) (m : M A unit) : M S unit := fun s =>
  match get s with None => (inl AttributeError, s) | Some a => match m a with (r, a') => (r, set a' s) end end.

Section Interleaved.
Context {S K T : Type} `{EqDecision K} {C : K -> Type}.
Variable get : forall k, S -> option (C k).
Variable set : forall k, C k -> S -> S.
Variable blank : S -> S.
Variable param_of : T -> K.
Variable load : forall k, T -> M (C k) unit.
Hypothesis get_set : forall k a s, is_Some (get k s) -> get k (set k a s) = Some a.
Hypothesis get_other : forall k k' a s, k' <> k -> get k' (set k a s) = get k' s.
Hypothesis blank_set : forall k a s, blank (set k a s) = blank s.

Definition own_tensors (k : K) (ts : list T) : list T := filter (fun t => param_of t = k) ts.

Lemma interleaved ts s (goal : forall k, option (C k)) :
  (forall t, t ∈ ts -> is_Some (get (param_of t) s)) ->
  (forall k a, get k s = Some a -> wp (for_each (own_tensors k ts) (load k)) a (fun _ a' => goal k = Some a')) ->
  (forall k, get k s = None -> goal k = None) ->
  wp (for_each ts (fun t => on_part (get (param_of t)) (set (param_of t)) (load (param_of t) t))) s
    (fun _ s' => blank s' = blank s /\ forall k, get k s' = goal k).
Proof.
  revert s. induction ts as [|t ts IH]; intros s Hin Hown Hno.
  - apply wp_ret. split; [done|]. intros k. destruct (get k s) as [a|] eqn:Hk; [|by rewrite Hno]. symmetry. by apply (Hown k a).
  - cbn [for_each]. destruct (Hin t ltac:(constructor)) as [a Ha]. pose proof (Hown _ a Ha) as Ht. unfold own_tensors in Ht.
    rewrite filter_cons_True in Ht by done. cbn [for_each] in Ht. apply wp_bind_inv in Ht. apply wp_bind. unfold wp at 1, on_part. rewrite Ha.
    unfold wp at 1 in Ht. destruct (load (param_of t) t a) as [[e|[]] a1]; [done|]. set (s1 := set (param_of t) a1 s).
    assert (H1 : get (param_of t) s1 = Some a1) by by apply get_set.
    eapply wp_mono; [apply (IH s1)|].
    + intros u Hu. destruct (decide (param_of u = param_of t)) as [->|Hne]; [by rewrite H1|].
      unfold s1. rewrite get_other by done. apply Hin. by constructor.
    + intros k b Hk. destruct (decide (k = param_of t)) as [->|Hne].
      * rewrite H1 in Hk. injection Hk as <-. exact Ht.
      * unfold s1 in Hk. rewrite get_other in Hk by done. specialize (Hown k b Hk). unfold own_tensors in Hown.
        by rewrite filter_cons_False in Hown.
    + intros k Hk. destruct (decide (k = param_of t)) as [->|Hne]; [by rewrite H1 in Hk|]. unfold s1 in Hk. rewrite get_other in Hk by done. by apply Hno.
    + intros _ s' [Hb Hg]. split; [|done]. rewrite Hb. apply blank_set.
Qed.

(** The tensors of a list made of one kind. *)
Lemma own_all {A} (f : A -> T) l k : (forall x, param_of (f x) = k) -> own_tensors k (f <$> l) = f <$> l.
Proof using. clear. intros Hf. unfold own_tensors. induction l as [|x l IH]; [done|]. rewrite fmap_cons, filter_cons_True by done. by f_equal. Qed.

Lemma own_none {A} (f : A -> T) l k : (forall x, param_of (f x) <> k) -> own_tensors k (f <$> l) = [].
Proof using. clear. intros Hf. unfold own_tensors. induction l as [|x l IH]; [done|]. rewrite fmap_cons. by rewrite filter_cons_False. Qed.

Lemma own_permuted {A} (f : A -> T) k ts all (l : list A) : ts ≡ₚ all -> own_tensors k all = f <$> l ->
  exists l', own_tensors k ts = f <$> l' /\ l' ≡ₚ l.
Proof using.
  clear. intros Hp Hl. assert (Hf : own_tensors k ts ≡ₚ f <$> l) by (rewrite <-Hl; unfold own_tensors; by rewrite Hp).
  destruct (Permutation_map_inv _ _ Hf) as (l' & Hl' & Hp'). exists l'. by split.
Qed.

End Interleaved.

Section Load.
Context {F : Type} `{!Scalar F} `{!Torch F} `{!Softmax F} `{!TorchGroups F} `{!Ordered F} `{!TopK F}.
Local Abbreviation mat := (list (list F)).

(** An expert layer's tensors in the checkpoint. *)
Record MoeWeights := {
  mw_gate : mat;
  mw_bias : list F;
  mw_experts : ExpertWeights F;
  mw_shared : SharedWeights F
}.

Definition shared_tensor (w : SharedWeights F) (j : nat) : mat := match j with 0 => sh_gate w | _ => sh_up w end.

(** Its tensors, by what they are of, and its parameters. *)
Inductive MoeTensor :=
| GateTensor | BiasTensor | ExpertGateUp (e : nat) (proj : string) | ExpertDown (e : nat) | SharedGateUp (j : nat) | SharedDown.

Inductive MoeParam := GateParam | BiasParam | GateUpParam | DownParam | SharedGateUpParam | SharedDownParam.

#[export] Instance MoeParam_eq_dec : EqDecision MoeParam.
Proof. solve_decision. Defined.

Definition param_of (t : MoeTensor) : MoeParam :=
  match t with
  | GateTensor => GateParam
  | BiasTensor => BiasParam
  | ExpertGateUp _ _ => GateUpParam
  | ExpertDown _ => DownParam
  | SharedGateUp _ => SharedGateUpParam
  | SharedDown => SharedDownParam
  end.

(** The stacked parameters are the experts', one after the other. *)
Definition param_type (k : MoeParam) : Type := match k with GateUpParam | DownParam => list (Param F) | _ => Param F end.

#[local] Instance eta_Linear : Eta (Linear F) := fun l => Build_Linear (tp_dim l) (tp_rank l) (tp_size l) (weight l) (bias l).
#[local] Instance eta_Merged : Eta (Merged F) := fun m => Build_Merged (mg_linear m) (output_sizes m).
#[local] Instance eta_MLP : Eta (Qwen3MLP (F := F)) := fun m => Build_Qwen3MLP (gate_up_proj m) (down_proj m).
#[local] Instance eta_FusedMoE : Eta (FusedMoE F) := fun m =>
  Build_FusedMoE (moe_tp_rank m) (moe_tp_size m) (ep_rank m) (ep_size m) (num_experts m) (Moe.top_k m) (intermediate m)
    (local_num_experts m) (local_expert_ids m) (moe_gate_up m) (moe_down m) (expert_map m).
#[local] Instance eta_MoE : Eta (DeepseekV2MoE F) := fun m =>
  Build_DeepseekV2MoE (dm_topk_method m) (dm_scoring_func m) (dm_top_k m) (dm_num_expert_group m) (dm_topk_group m)
    (dm_renormalize m) (dm_routed_scaling_factor m) (dm_gate m) (dm_e_score_correction_bias m) (dm_experts m) (dm_shared_experts m).

(** [model.get_parameter]. *)
Definition get_param (k : MoeParam) (m : DeepseekV2MoE F) : option (param_type k) :=
  match k with
  | GateParam => Some (weight (dm_gate m))
  | BiasParam => dm_e_score_correction_bias m
  | GateUpParam => Some (moe_gate_up (dm_experts m))
  | DownParam => Some (moe_down (dm_experts m))
  | SharedGateUpParam => (fun s => weight (mg_linear (gate_up_proj s))) <$> dm_shared_experts m
  | SharedDownParam => (fun s => weight (down_proj s)) <$> dm_shared_experts m
  end.

Definition set_param (k : MoeParam) : param_type k -> DeepseekV2MoE F -> DeepseekV2MoE F :=
  match k with
  | GateParam => fun p m => m <| dm_gate ::= fun l => l <| weight := p |> |>
  | BiasParam => fun p m => m <| dm_e_score_correction_bias ::= fmap (fun _ => p) |>
  | GateUpParam => fun p m => m <| dm_experts ::= fun x => x <| moe_gate_up := p |> |>
  | DownParam => fun p m => m <| dm_experts ::= fun x => x <| moe_down := p |> |>
  | SharedGateUpParam => fun p m => m <| dm_shared_experts ::= fmap (fun s : Qwen3MLP (F := F) =>
      s <| gate_up_proj ::= fun g => g <| mg_linear ::= fun l => l <| weight := p |> |> |>) |>
  | SharedDownParam => fun p m => m <| dm_shared_experts ::= fmap (fun s : Qwen3MLP (F := F) =>
      s <| down_proj ::= fun l => l <| weight := p |> |>) |>
  end.

(** All but the parameters. *)
Definition blank_mlp (s : Qwen3MLP (F := F)) : Qwen3MLP (F := F) :=
  s <| gate_up_proj ::= fun g => g <| mg_linear ::= fun l => l <| weight := Vec [] |> |> |> <| down_proj ::= fun l => l <| weight := Vec [] |> |>.

Definition blank_experts (x : FusedMoE F) : FusedMoE F := x <| moe_gate_up := [] |> <| moe_down := [] |>.

Definition blank (m : DeepseekV2MoE F) : DeepseekV2MoE F :=
  m <| dm_gate ::= fun l => l <| weight := Vec [] |> |> <| dm_e_score_correction_bias ::= fmap (fun _ => Vec []) |>
    <| dm_experts ::= blank_experts |> <| dm_shared_experts ::= fmap blank_mlp |>.

Lemma blank_fields m : blank m = {| dm_topk_method := dm_topk_method m; dm_scoring_func := dm_scoring_func m; dm_top_k := dm_top_k m;
  dm_num_expert_group := dm_num_expert_group m; dm_topk_group := dm_topk_group m; dm_renormalize := dm_renormalize m;
  dm_routed_scaling_factor := dm_routed_scaling_factor m; dm_gate := (dm_gate m) <| weight := Vec [] |>;
  dm_e_score_correction_bias := (fun _ => Vec []) <$> dm_e_score_correction_bias m; dm_experts := blank_experts (dm_experts m);
  dm_shared_experts := blank_mlp <$> dm_shared_experts m |}.
Proof. done. Qed.

Lemma get_set_param k a m : is_Some (get_param k m) -> get_param k (set_param k a m) = Some a.
Proof.
  destruct m as [? ? ? ? ? ? ? ? bi ? sh]. destruct k; simpl; try done; intros [x Hx].
  - by destruct bi.
  - by destruct sh.
  - by destruct sh.
Qed.

Lemma get_other_param k k' a m : k' <> k -> get_param k' (set_param k a m) = get_param k' m.
Proof. destruct m as [? ? ? ? ? ? ? ? bi ? sh]. destruct k, k'; try done; intros _; by destruct sh. Qed.

Lemma blank_set_param k a m : blank (set_param k a m) = blank m.
Proof. destruct m as [? ? ? ? ? ? ? ? bi ? sh]. destruct k; try done; [by destruct bi|by destruct sh..]. Qed.

Lemma blank_present m m' k : blank m = blank m' -> is_Some (get_param k m) -> is_Some (get_param k m').
Proof.
  rewrite !blank_fields. intros Hb. pose proof (f_equal dm_e_score_correction_bias Hb) as H1. pose proof (f_equal dm_shared_experts Hb) as H2.
  clear Hb. destruct m as [? ? ? ? ? ? ? ? bi ? sh], m' as [? ? ? ? ? ? ? ? bi' ? sh']. cbn in *.
  destruct k; cbn; try (intros _; by eexists); rewrite ?fmap_is_Some; intros [x Hx]; subst; cbn in *; [destruct bi'; [by eexists|done]|destruct sh'; [by eexists|done]..].
Qed.

(** A layer is its parameters and the rest. *)
Lemma same_params m m' : blank m = blank m' -> (forall k, get_param k m = get_param k m') -> m = m'.
Proof.
  destruct m as [? ? ? ? ? ? ? [] bi [] sh], m' as [? ? ? ? ? ? ? [] bi' [] sh']. unfold blank. cbn. intros Hb Hp.
  pose proof (Hp GateParam) as P1. pose proof (Hp BiasParam) as P2. pose proof (Hp GateUpParam) as P3. pose proof (Hp DownParam) as P4.
  pose proof (Hp SharedGateUpParam) as P5. pose proof (Hp SharedDownParam) as P6. cbn in *. clear Hp.
  destruct sh as [[[[] ?] []]|], sh' as [[[[] ?] []]|]; cbn in *; simplify_eq; done.
Qed.

Section Tensors.
Variable c : DeepseekConfig F.
Variable ck : MoeWeights.

(** The parameters' loaders: methods of the layer as it was built. *)
Definition loader (m0 : DeepseekV2MoE F) (k : MoeParam) (t : MoeTensor) : M (param_type k) unit :=
  match k return M (param_type k) unit with
  | GateParam => Replicated_weight_loader (Mat (dc_hidden_size c) (mw_gate ck))
  | BiasParam => copy_whole (Vec (mw_bias ck))
  | GateUpParam =>
      match t with
      | ExpertGateUp e proj =>
          moe_weight_loader (dm_experts m0) (Mat (dc_hidden_size c) (expert_tensor (mw_experts ck) e proj)) e proj
      | _ => ret tt
      end
  | DownParam =>
      match t with
      | ExpertDown e => moe_weight_loader (dm_experts m0) (Mat (dc_moe_intermediate_size c) (e_down (mw_experts ck) e)) e "down_proj"%string
      | _ => ret tt
      end
  | SharedGateUpParam =>
      match t, dm_shared_experts m0 with
      | SharedGateUp j, Some s => MergedColumn_weight_loader (gate_up_proj s) (Mat (dc_hidden_size c) (shared_tensor (mw_shared ck) j)) j
      | _, _ => ret tt
      end
  | SharedDownParam =>
      match dm_shared_experts m0 with
      | Some s => RowParallel_weight_loader (down_proj s)
          (Mat (dc_moe_intermediate_size c * default 0 (dc_n_shared_experts c)) (sh_down (mw_shared ck)))
      | None => ret tt
      end
  end.

(** [load_model]'s loop over the layer's tensors: a tensor of a parameter that the layer does not have raises. *)
Definition load_moe (ts : list MoeTensor) (m0 : DeepseekV2MoE F) : M (DeepseekV2MoE F) unit :=
  for_each ts (fun t => on_part (get_param (param_of t)) (set_param (param_of t)) (loader m0 (param_of t) t)).

End Tensors.

Definition moe_layer_build {S} (g : Group) (c : DeepseekConfig F) (experts : nat) (ep : bool) (ts : list MoeTensor) (ck : MoeWeights)
    : M S (DeepseekV2MoE F) :=
  let! m := DeepseekV2MoE_init g c experts ep in run_on m (load_moe c ck ts m).

(** The tensors that a checkpoint has of it. *)
Definition moe_tensors (c : DeepseekConfig F) (experts : nat) : list MoeTensor :=
  [GateTensor] ++ (if String.eqb (default "noaux_tc"%string (dc_topk_method c)) "noaux_tc" then [BiasTensor] else []) ++
  ((fun x => ExpertGateUp x.1 x.2) <$> gate_up_loads experts) ++ (ExpertDown <$> seq 0 experts) ++
  match dc_n_shared_experts c with Some (Datatypes.S _) => (SharedGateUp <$> seq 0 2) ++ [SharedDown] | _ => [] end.

End Load.

Arguments MoeWeights : clear implicits.

Section Layer.
Context {F : Type} `{!Scalar F} `{!Torch F} `{!Softmax F} `{!TorchGroups F} `{!Ordered F} `{!TopK F}.
Local Abbreviation mat := (list (list F)).
Variable c : DeepseekConfig F.
Variable experts : nat.
Variable ck : MoeWeights F.
Local Abbreviation d := (dc_hidden_size c).
Local Abbreviation K := (dc_num_experts_per_tok c).
Local Abbreviation inter := (dc_moe_intermediate_size c).

(** ** The configuration and the checkpoint *)

Definition method_of : string := default "noaux_tc"%string (dc_topk_method c).
Definition scoring_of : string :=
  default (if String.eqb method_of "noaux_tc" then "sigmoid" else "softmax")%string (dc_scoring_func c).
Definition bias_of : option (list F) := if String.eqb method_of "noaux_tc" then Some (mw_bias ck) else None.
Definition biased_of : bool := match bias_of with Some _ => true | None => false end.
Definition groups : nat := if String.eqb method_of "greedy" then 1 else dc_n_group c.
Definition best_groups : nat := if String.eqb method_of "greedy" then 1 else dc_topk_group c.
Definition shared_of : option (SharedWeights F) :=
  match dc_n_shared_experts c with Some (S _) => Some (mw_shared ck) | _ => None end.

Record MoeOk (n : nat) (ep : bool) : Prop := {
  mk_ranks : 0 < n /\ inter mod n = 0 /\ (ep = true -> n <= experts);
  mk_top_k : 0 < K <= experts;
  mk_method : method_of ∈ ["greedy"; "group_limited_greedy"; "noaux_tc"]%string /\ scoring_of ∈ ["softmax"; "sigmoid"]%string;
  mk_groups : 1 < groups -> let size := experts / groups in
    experts = groups * size /\ 0 < size /\ best_groups <= groups /\ K <= best_groups * size /\ (biased_of = true -> 2 <= size);
  mk_act : dc_hidden_act c = "silu"%string;
  mk_gate : length (mw_gate ck) = experts /\ wide d (mw_gate ck);
  mk_bias : length (mw_bias ck) = experts;
  mk_experts : ExpertsOk experts d inter (mw_experts ck);
  mk_shared : SharedOk d 1 (inter * default 0 (dc_n_shared_experts c)) (mw_shared ck)
}.

(** ** A rank's part *)

Definition moe_layer_part (ep : bool) (n i : nat) : DeepseekV2MoE F :=
  {| dm_topk_method := method_of; dm_scoring_func := scoring_of; dm_top_k := K; dm_num_expert_group := dc_n_group c;
     dm_topk_group := dc_topk_group c; dm_renormalize := dc_norm_topk_prob c;
     dm_routed_scaling_factor := dc_routed_scaling_factor c;
     dm_gate := {| tp_dim := None; tp_rank := i; tp_size := n; weight := Mat d (mw_gate ck); bias := None |};
     dm_e_score_correction_bias := Vec <$> bias_of;
     dm_experts := moe_part experts K d inter (mw_experts ck) ep n i;
     dm_shared_experts := (fun w => gated_part n i d (inter / n * default 0 (dc_n_shared_experts c)) (shared_tensor w) (sh_down w)) <$> shared_of |}.

Variable n : nat.
Variable ep : bool.
Hypothesis Hok : MoeOk n ep.

Lemma inter_eq : inter = n * (inter / n).
Proof using Hok. destruct Hok as [(_ & Hd & _) _ _ _ _ _ _ _ _]. by apply Nat.Div0.div_exact. Qed.

(** *** Loading it *)

Lemma for_each_fmap {S A B} (f : A -> B) l (g : B -> M S unit) : for_each (f <$> l) g = for_each l (fun x => g (f x)).
Proof using. clear. induction l as [|x l IH]; [done|]. rewrite fmap_cons. cbn [for_each]. by rewrite IH. Qed.

Lemma wp_one {S} (m : M S unit) s Q : wp m s Q -> wp (m;;; ret tt) s Q.
Proof using. clear. intros Hm. apply wp_bind. eapply wp_mono; [exact Hm|]. intros [] s' Hq. by apply wp_ret. Qed.

(** The two parameters of the experts, and of the shared ones. *)
Lemma load_experts_params {T} hidden m1 gu dn w (m m' : FusedMoE F) (s : T) :
  wp (load_experts hidden m1 gu dn w m) s (fun x s' => s' = s /\ x = m') ->
  wp (for_each gu (fun x => moe_weight_loader m (Mat hidden (expert_tensor w x.1 x.2)) x.1 x.2)) (moe_gate_up m) (fun _ p => p = moe_gate_up m') /\
  wp (for_each dn (fun e => moe_weight_loader m (Mat m1 (e_down w e)) e "down_proj"%string)) (moe_down m) (fun _ p => p = moe_down m') /\
  blank_experts m = blank_experts m'.
Proof using.
  clear. unfold load_experts, wp, run_on, bind, ret.
  destruct (for_each gu _ (moe_gate_up m)) as [[e|[]] p]; [done|]. destruct (for_each dn _ (moe_down m)) as [[e|[]] q]; [done|].
  by intros [_ <-].
Qed.

Lemma load_gated_params {T} hidden m1 order gu dn (m m' : Qwen3MLP (F := F)) (s : T) :
  wp (load_gated hidden m1 order gu dn m) s (fun x _ => x = m') ->
  wp (for_each order (fun j => MergedColumn_weight_loader (gate_up_proj m) (Mat hidden (gu j)) j)) (weight (mg_linear (gate_up_proj m)))
    (fun _ p => p = weight (mg_linear (gate_up_proj m'))) /\
  wp (RowParallel_weight_loader (down_proj m) (Mat m1 dn)) (weight (down_proj m)) (fun _ p => p = weight (down_proj m')) /\
  blank_mlp m = blank_mlp m'.
Proof using.
  clear. unfold load_gated, load_weight, wp, run_on, bind, ret.
  destruct (for_each order _ _) as [[e|[]] p]; [done|]. destruct (RowParallel_weight_loader _ _ _) as [[e|[]] q]; [done|]. by intros <-.
Qed.

(** A parameter's tensors, the stacked ones in the orders given. *)
Definition grouped (gu : list (nat * string)) (dn sh : list nat) (k : MoeParam) : list MoeTensor :=
  match k with
  | GateParam => [GateTensor]
  | BiasParam => [BiasTensor]
  | GateUpParam => (fun x => ExpertGateUp x.1 x.2) <$> gu
  | DownParam => ExpertDown <$> dn
  | SharedGateUpParam => SharedGateUp <$> sh
  | SharedDownParam => [SharedDown]
  end.

(** The layer as it is built, from which each parameter's own tensors load the rank's part of it. *)
Definition Built (gu : list (nat * string)) (dn sh : list nat) (m0 m : DeepseekV2MoE F) : Prop :=
  blank m0 = blank m /\ forall k a, get_param k m0 = Some a -> wp (for_each (grouped gu dn sh k) (loader c ck m0 k)) a (fun _ a' => get_param k m = Some a').

Lemma moe_layer_built {T} i gu dn sh (s : T) : i < n -> gu ≡ₚ gate_up_loads experts -> dn ≡ₚ seq 0 experts -> sh ≡ₚ seq 0 2 ->
  wp (DeepseekV2MoE_init {| rank := i; world_size := n |} c experts ep) s (fun m0 s' => s' = s /\ Built gu dn sh m0 (moe_layer_part ep n i)).
Proof using Hok.
  intros Hi Hgu Hdn Hsh. pose proof inter_eq as Hinter.
  destruct Hok as [(Hn & Hdiv & Hep) [HK HKe] [Hm Hsc] _ Hact [Hgl Hgw] Hbl Hexp [HsG HsU HsD]].
  unfold DeepseekV2MoE_init. cbv zeta. fold method_of scoring_of.
  apply wp_bind, wp_assert; [by apply bool_decide_eq_true|]. apply wp_bind, wp_assert; [by apply bool_decide_eq_true|].
  pose proof (moe_build_spec experts K d inter (mw_experts ck) Hexp ep n i gu dn s Hi Hdiv Hgu Hdn) as Hbuild.
  unfold moe_build in Hbuild. apply wp_bind_inv in Hbuild. apply wp_bind.
  assert (Hpure : wp (FusedMoE_init {| rank := i; world_size := n |} experts K d inter ep) s (fun m0 s0 => s0 = s /\
    wp (load_experts d inter gu dn (mw_experts ck) m0) s
      (fun m s' => s' = s /\ m = moe_part experts K d inter (mw_experts ck) ep n i))).
  { revert Hbuild. unfold wp at 1 3. unfold FusedMoE_init, divide, determine_expert_map, bind, assert_, ret, raise.
    repeat case_match; simplify_eq; try done. }
  eapply wp_mono; [exact Hpure|]. clear Hpure Hbuild. intros m0 s0 [-> (Lg & Ld & Lb)%load_experts_params].
  assert (Hgate : wp (Replicated_weight_loader (Mat d (mw_gate ck))) (weight (ReplicatedLinear {| rank := i; world_size := n |} d experts false))
    (fun _ a' => Some (Mat d (mw_gate ck)) = Some a')).
  { unfold ReplicatedLinear, LinearBase, Replicated_weight_loader. cbn [weight]. destruct (empty2_rows experts d) as (w0 & -> & Hw0).
    by apply (wp_copy_whole (Mat d) (fun r => length r = d)); [|rewrite Hw0|]. }
  assert (Hbias : wp (copy_whole (Vec (mw_bias ck))) (empty1 experts) (fun _ a' => Some (Vec (mw_bias ck)) = Some a')).
  { destruct (empty1_rows experts) as (v0 & -> & Hv0). by apply (wp_copy_whole Vec (fun _ => True)); [apply Forall_true|rewrite Hv0|]. }
  assert (Hend : forall shared0 : option (Qwen3MLP (F := F)),
    let m1 := {| dm_topk_method := method_of; dm_scoring_func := scoring_of; dm_top_k := K;
      dm_num_expert_group := dc_n_group c; dm_topk_group := dc_topk_group c; dm_renormalize := dc_norm_topk_prob c;
      dm_routed_scaling_factor := dc_routed_scaling_factor c;
      dm_gate := ReplicatedLinear {| rank := i; world_size := n |} d experts false;
      dm_e_score_correction_bias := if String.eqb method_of "noaux_tc" then Some (empty1 experts) else None;
      dm_experts := m0; dm_shared_experts := shared0 |} in
    (blank_mlp <$> shared0) = (blank_mlp <$> dm_shared_experts (moe_layer_part ep n i)) ->
    (forall k, k = SharedGateUpParam \/ k = SharedDownParam -> forall a, get_param k m1 = Some a -> wp (for_each (grouped gu dn sh k) (loader c ck m1 k)) a (fun _ a' => get_param k (moe_layer_part ep n i) = Some a')) ->
    Built gu dn sh m1 (moe_layer_part ep n i)).
  { intros shared0 m1 Hsb Hs. split_and!.
    - rewrite !blank_fields, <-Hsb. unfold moe_layer_part, m1. cbn [dm_topk_method dm_scoring_func dm_top_k dm_num_expert_group dm_topk_group
        dm_renormalize dm_routed_scaling_factor dm_gate dm_e_score_correction_bias dm_experts dm_shared_experts]. rewrite Lb. f_equal.
      unfold bias_of. by destruct (String.eqb method_of "noaux_tc").
    - intros [] a Ha; [| | | |by apply Hs; [left|]|by apply Hs; [right|]].
      + injection Ha as <-. by apply wp_one.
      + cbn in Ha |- *. unfold bias_of. destruct (String.eqb method_of "noaux_tc"); [|done]. injection Ha as <-. by apply wp_one.
      + injection Ha as <-. cbn [grouped]. rewrite for_each_fmap. eapply wp_mono; [exact Lg|]. by intros [] p ->.
      + injection Ha as <-. cbn [grouped]. rewrite for_each_fmap. eapply wp_mono; [exact Ld|]. by intros [] p ->. }
  apply wp_bind. destruct (dc_n_shared_experts c) as [[|ns]|] eqn:Hns.
  - apply wp_ret, wp_ret. split; [done|].
    assert (Hno : dm_shared_experts (moe_layer_part ep n i) = None) by (unfold moe_layer_part, shared_of; cbn [dm_shared_experts]; by rewrite Hns).
    apply Hend; [by rewrite Hno|]. by intros k [->| ->].
  - cbn [default from_option id] in *. apply wp_bind. rewrite Hact.
    assert (Hsi : inter * S ns = n * (inter / n * S ns)) by (rewrite Hinter at 1; lia).
    rewrite Hsi. eapply wp_mono; [by apply (gated_spec n Hn i d (inter / n * S ns))|]. intros p s' [-> Hp]. apply wp_ret, wp_ret. split; [done|].
    specialize (Hp (shared_tensor (mw_shared ck)) (sh_down (mw_shared ck)) sh). rewrite <-Hsi in Hp.
    destruct (load_gated_params d (inter * S ns) sh (shared_tensor (mw_shared ck)) (sh_down (mw_shared ck)) p
      (gated_part n i d (inter / n * S ns) (shared_tensor (mw_shared ck)) (sh_down (mw_shared ck))) s) as (Gg & Gd & Gb).
    { apply Hp; [|by rewrite Nat.mul_1_l in HsD|done|done]. rewrite Nat.mul_1_l in HsG, HsU. intros [|[|j]] Hj; [done|done|lia]. }
    apply Hend; [unfold moe_layer_part, shared_of; rewrite Hns; cbn [dm_shared_experts fmap option_fmap option_map default from_option id]; by f_equal|].
    intros k [->| ->] a [= <-]; unfold moe_layer_part, shared_of; rewrite Hns;
      cbn [get_param dm_shared_experts fmap option_fmap option_map grouped default from_option id].
    + rewrite for_each_fmap. eapply wp_mono; [exact Gg|]. by intros [] q ->.
    + apply wp_one. cbn [loader dm_shared_experts]. rewrite Hns. eapply wp_mono; [exact Gd|]. by intros [] q ->.
  - apply wp_ret, wp_ret. split; [done|].
    assert (Hno : dm_shared_experts (moe_layer_part ep n i) = None) by (unfold moe_layer_part, shared_of; cbn [dm_shared_experts]; by rewrite Hns).
    apply Hend; [by rewrite Hno|]. by intros k [->| ->].
Qed.

(** What the checkpoint has for each parameter. *)
Lemma own_moe_tensors k : own_tensors param_of k (moe_tensors c experts) =
  match k with
  | BiasParam => if String.eqb method_of "noaux_tc" then [BiasTensor] else []
  | SharedGateUpParam => match dc_n_shared_experts c with Some (S _) => SharedGateUp <$> seq 0 2 | _ => [] end
  | SharedDownParam => match dc_n_shared_experts c with Some (S _) => [SharedDown] | _ => [] end
  | k => grouped (gate_up_loads experts) (seq 0 experts) [] k
  end.
Proof using.
  clear. unfold moe_tensors. fold method_of. unfold own_tensors. rewrite !filter_app. fold (own_tensors param_of k (ExpertDown <$> seq 0 experts)).
  fold (own_tensors param_of k ((fun x => ExpertGateUp x.1 x.2) <$> gate_up_loads experts)).
  destruct k.
  1, 2, 5, 6: rewrite !own_none by done.
  5: rewrite own_all, own_none by done.
  6: rewrite own_none, own_all by done.
  all: destruct (String.eqb method_of "noaux_tc"), (dc_n_shared_experts c) as [[|]|]; cbn [app]; rewrite ?app_nil_r; reflexivity.
Qed.

(** Whatever order the tensors come in. *)
Lemma moe_layer_spec {T} i ts (s : T) : i < n -> ts ≡ₚ moe_tensors c experts ->
  wp (moe_layer_build {| rank := i; world_size := n |} c experts ep ts ck) s (fun m s' => s' = s /\ m = moe_layer_part ep n i).
Proof using Hok.
  intros Hi Hts. pose proof (fun A f => own_permuted param_of (A := A) f) as Hperm.
  destruct (Hperm _ (fun x : nat * string => ExpertGateUp x.1 x.2) GateUpParam ts _ (gate_up_loads experts) Hts) as (gu & Egu & Hgu); [by rewrite own_moe_tensors|].
  destruct (Hperm _ ExpertDown DownParam ts _ (seq 0 experts) Hts) as (dn & Edn & Hdn); [by rewrite own_moe_tensors|].
  assert (Hsh : exists sh, sh ≡ₚ seq 0 2 /\ (is_Some shared_of -> own_tensors param_of SharedGateUpParam ts = SharedGateUp <$> sh)).
  { pose proof (own_moe_tensors SharedGateUpParam) as Ho. unfold shared_of. destruct (dc_n_shared_experts c) as [[|ns]|];
      try (exists (seq 0 2); split; [done|by intros []]).
    destruct (Hperm _ SharedGateUp SharedGateUpParam ts _ (seq 0 2) Hts Ho) as (sh & Es & Hp). by exists sh. }
  destruct Hsh as (sh & Hsh & Esh).
  assert (Hone : forall k t, own_tensors param_of k (moe_tensors c experts) = [t] -> own_tensors param_of k ts = [t]).
  { intros k t Ht. apply Permutation_singleton_r. rewrite <-Ht. unfold own_tensors. by rewrite Hts. }
  unfold moe_layer_build. apply wp_bind. eapply wp_mono; [by apply (moe_layer_built i gu dn sh)|]. intros m0 s' [-> [Hb Hload]].
  apply wp_run_on. eapply wp_mono.
  - apply (interleaved get_param set_param blank param_of (loader c ck m0) get_set_param get_other_param blank_set_param ts m0 
      (fun k => get_param k (moe_layer_part ep n i))).
    + intros t Ht. apply (blank_present (moe_layer_part ep n i)); [by rewrite Hb|]. rewrite Hts in Ht. clear -Ht. unfold moe_tensors in Ht. fold method_of in Ht.
      rewrite !elem_of_app in Ht. unfold moe_layer_part, bias_of, shared_of. destruct Ht as [Ht|[Ht|[Ht|[Ht|Ht]]]].
      * apply list_elem_of_singleton in Ht as ->. by eexists.
      * destruct (String.eqb method_of "noaux_tc"); [|by apply elem_of_nil in Ht]. apply list_elem_of_singleton in Ht as ->. by eexists.
      * apply list_elem_of_fmap in Ht as (x & -> & _). by eexists.
      * apply list_elem_of_fmap in Ht as (x & -> & _). by eexists.
      * cbn [dm_shared_experts]. destruct (dc_n_shared_experts c) as [[|ns]|]; [by apply elem_of_nil in Ht| |by apply elem_of_nil in Ht].
        apply elem_of_app in Ht as [Ht|Ht]; [apply list_elem_of_fmap in Ht as (x & -> & _)|apply list_elem_of_singleton in Ht as ->]; by eexists.
    + intros k a Ha. pose proof (Hload k a Ha) as Hk.
      assert (Hp : is_Some (get_param k (moe_layer_part ep n i))) by (apply (blank_present m0); [done|by exists a]).
      assert (He : own_tensors param_of k ts = grouped gu dn sh k); [|by rewrite He]. pose proof (own_moe_tensors k) as Ho.
      destruct k; [by apply Hone| |done|done| |].
      * apply Hone. rewrite Ho. cbn in Hp. unfold bias_of in Hp. destruct (String.eqb method_of "noaux_tc"); [done|by destruct Hp].
      * apply Esh. cbn in Hp. destruct shared_of; [by eexists|by destruct Hp].
      * apply Hone. rewrite Ho. cbn in Hp. unfold shared_of in Hp. destruct (dc_n_shared_experts c) as [[|ns]|]; [by destruct Hp|done|by destruct Hp].
    + intros k Hk. destruct (get_param k (moe_layer_part ep n i)) as [x|] eqn:Hx; [|done].
      destruct (blank_present (moe_layer_part ep n i) m0 k) as [y Hy]; [by rewrite Hb|by exists x|]. congruence.
  - intros [] m [Hbm Hg]. split; [done|]. apply same_params; [by rewrite Hbm|done].
Qed.

(** ** What the ranks compute *)

(** The token's experts, chosen over the whole router's scores. *)
Definition routed_row (t : list F) : list F * list nat -> Prop :=
  let scores := scores_of scoring_of ((fun r => dot t r) <$> mw_gate ck) in
  RoutedRow K groups best_groups biased_of (dc_norm_topk_prob c) (dc_routed_scaling_factor c) scores (choice_of bias_of scores).

Lemma route_spec i (x : mat) : wide d x ->
  wp (DeepseekV2MoE_route (moe_layer_part ep n i) x) tt (fun o _ => exists rows, Forall2 routed_row x rows /\
    o = (rows.*1, (fun r : list F * list nat => Z.of_nat <$> r.2) <$> rows)).
Proof using Hok.
  intros Hx. destruct Hok as [_ [HK HKe] _ Hgr _ [Hgl Hgw] Hbl _ _]. unfold DeepseekV2MoE_route, moe_layer_part.
  cbn [dm_gate dm_topk_method dm_top_k dm_renormalize dm_routed_scaling_factor dm_num_expert_group dm_topk_group dm_scoring_func
    dm_e_score_correction_bias weight as_mat].
  assert (Hb : as_vec <$> (Vec <$> bias_of) = bias_of) by by destruct bias_of. rewrite Hb. clear Hb.
  assert (Hg : (if negb (String.eqb method_of "greedy") then dc_n_group c else 1) = groups /\
    (if negb (String.eqb method_of "greedy") then dc_topk_group c else 1) = best_groups).
  { unfold groups, best_groups. by destruct (String.eqb method_of "greedy"). }
  destruct Hg as [-> ->]. rewrite (linear_eq _ _ _ d) by done. cbn [add_bias].
  eapply wp_mono; [apply (select_experts_spec _ K _ _ groups best_groups scoring_of bias_of experts)|].
  - apply Forall_fmap, Forall_forall. intros t _. simpl. by rewrite length_fmap.
  - intros b Hb. unfold bias_of in Hb. destruct (String.eqb method_of "noaux_tc"); [|done]. by injection Hb as <-.
  - lia.
  - exact Hgr.
  - intros o _ (_ & rows & -> & Hrows). exists rows. split; [|done]. rewrite Forall2_fmap_l in Hrows. exact Hrows.
Qed.

Lemma routed_sizes (x : mat) rows : Forall2 routed_row x rows ->
  (length rows.*1 = length x /\ wide K rows.*1) /\
  let ids := (fun r : list F * list nat => Z.of_nat <$> r.2) <$> rows in
  length ids = length x /\ wide K ids /\ Forall (Forall (fun i => (0 <= i < Z.of_nat experts)%Z)) ids.
Proof using Hok.
  intros Hr. destruct Hok as [_ _ _ _ _ [Hgl _] _ _ _]. pose proof (Forall2_length _ _ _ Hr) as Hl.
  assert (Hall : Forall (fun r : list F * list nat => length r.1 = K /\ length r.2 = K /\ Forall (fun i => i < experts) r.2) rows).
  { apply Forall_forall. intros r Hin. apply list_elem_of_lookup in Hin as [t Ht]. rewrite Forall2_lookup in Hr. specialize (Hr t).
    rewrite Ht in Hr. inversion Hr as [tok r' Hrow Htok|]. subst. destruct Hrow as [(H1 & _ & H2) _ Hw].
    rewrite scores_length, length_fmap, Hgl in H2. split_and!; [|done|done]. rewrite Hw, !length_fmap. done. }
  clear Hr. cbv zeta. rewrite !length_fmap. split; [split; [done|]|split; [done|split]]; apply Forall_fmap; (eapply Forall_impl; [exact Hall|]).
  - by intros r (H1 & _).
  - intros r (_ & H2 & _). simpl. by rewrite length_fmap.
  - intros r (_ & _ & H3). simpl. apply Forall_fmap. eapply Forall_impl; [exact H3|]. intros j Hj. simpl in *. unfold compose. lia.
Qed.

Lemma layer_shared i : i < n -> shared_weights <$> dm_shared_experts (moe_layer_part ep n i) = shared_part n i <$> shared_of.
Proof using. clear. intros Hi. cbn [moe_layer_part dm_shared_experts]. destruct shared_of as [w|]; [|done]. cbn [fmap option_fmap option_map]. unfold shared_weights, shared_part, gated_part.
  cbn [gate_up_proj mg_linear weight as_mat down_proj]. unfold merged_rows. cbn [seq fmap list_fmap concat shared_tensor]. by rewrite app_nil_r.
Qed.

Lemma moe_layer_spmd (x : mat) (Q : (nat -> mat) -> Prop) : wide d x ->
  (forall rows, Forall2 routed_row x rows ->
    Q (fun _ => moe_whole K d inter (mw_experts ck) x rows.*1 ((fun r : list F * list nat => Z.of_nat <$> r.2) <$> rows) shared_of)) ->
  spmd n (fun i => DeepseekV2MoE_forward (moe_layer_part ep n i) x) Q.
Proof using Hok.
  intros Hx HQ. pose proof inter_eq as Hinter. destruct Hok as [(Hn & Hdiv & Hep) [HK HKe] _ _ _ _ _ Hexp [HsG HsU HsD]].
  destruct (wp_run _ _ _ (route_spec 0 x Hx)) as (o & [] & Hroute & rows & Hrows & ->).
  destruct (routed_sizes x rows Hrows) as [Hw Hids]. unfold DeepseekV2MoE_forward. apply spmd_bind.
  apply spmd_ext with (fun i => Done (rows.*1, (fun r : list F * list nat => Z.of_nat <$> r.2) <$> rows)).
  { intros i Hi. unfold run_local. assert (He : DeepseekV2MoE_route (moe_layer_part ep n i) x tt = DeepseekV2MoE_route (moe_layer_part ep n 0) x tt) by done.
    by rewrite He, Hroute. }
  apply spmd_ret; [done|].
  apply spmd_ext with (fun i => FusedMoE_forward (moe_part experts K d inter (mw_experts ck) ep n i) x rows.*1
    ((fun r : list F * list nat => Z.of_nat <$> r.2) <$> rows) (shared_part n i <$> shared_of)).
  { intros i Hi. by rewrite layer_shared. }
  apply (moe_spmd experts K d inter (mw_experts ck) Hexp HK ltac:(lia) x _ _ Hx Hw Hids ep n shared_of
    (inter / n * default 0 (dc_n_shared_experts c))); [done|done|done| |by apply HQ].
  intros w Hsw. unfold shared_of in Hsw. destruct (dc_n_shared_experts c) as [[|ns]|]; try done. injection Hsw as <-. cbn [default from_option id] in *.
  assert (Hsi : inter * S ns = n * (inter / n * S ns)) by (rewrite Hinter at 1; lia). rewrite Nat.mul_1_l, Hsi in *. by split.
Qed.

End Layer.
