(* ===== verification/Passes.v ===== *)
(** * Passes over the paged cache

    [engine/model_runner.py]: how a step's arrays reach the model, directly, in
    a piecewise graph's bucket, or in a full graph's buffers. The model is an
    interface; what it promises is stated here against a sequence model that
    sees a sequence's own earlier cache entries and nothing else. *)

From S2P Require Import Prelude Output Sequence Arrays AttnContext ModelRunner ModelRunnerFacts Tensors Attention MLA.
From S2P Require Import TorchAttention TorchFacts AttentionFacts MLAFacts MLAStep StepAttention.

(** ** The device

    The layers' caches, which the passes share by slot: an entry is what all
    the layers keep of a token. And the module's one context. *)

Record Device (C : Type) := { dv_cache : C; dv_context : AttentionContext }.
Arguments dv_cache {C} _.
Arguments dv_context {C} _.
Arguments Build_Device {C} _ _.

#[export] Instance eta_Device C : Eta (Device C) := fun d => Build_Device (dv_cache d) (dv_context d).

Definition fresh (f : Fields) : AttentionContext := {| cx_fields := f; cx_decode_splits := None |}.

Definition context_fields {C} : M (Device C) Fields := gets (fun d => cx_fields (dv_context d)).

(** [compute_logits]: the head takes the context's rows, or all. *)
Definition select_logits {C H F} (head : H -> list F) (hidden_states : list H) : M (Device C) (list (list F)) :=
  let! c := context_fields in
  let! rows := match cx_logits_indices c with Some idx => gather hidden_states idx | None => ret hidden_states end in
  ret (head <$> rows).

(** ** Rows

    A row has the entries that the cache holds of it, and new tokens, each with
    what the pass takes beside its id. *)

Section Rows.
Context {X H E : Type}.

(** The model of a sequence: the entry and the output of a token after the entries before it. *)
Variable cell : list E -> Z * X -> E * H.

Fixpoint run_cells (entries : list E) (tokens : list (Z * X)) : list (E * H) :=
  match tokens with
  | [] => []
  | t :: tokens' => let c := cell entries t in c :: run_cells (entries ++ [c.1]) tokens'
  end.

Record PassRow := { pr_old : list E; pr_new : list (Z * X); pr_table : list Z }.

Definition pass_cells (r : PassRow) : list (E * H) := run_cells (pr_old r) (pr_new r).
Definition old_len (r : PassRow) : nat := length (pr_old r).
Definition new_len (r : PassRow) : nat := length (pr_new r).
Definition row_len (r : PassRow) : Z := Z.of_nat (old_len r + new_len r).
Definition row_positions (r : PassRow) : list Z := seqZ (Z.of_nat (old_len r)) (Z.of_nat (new_len r)).

Definition row_slots (c : Pages E) (rows : list PassRow) : list Z := concat (slots_of pr_table old_len new_len c <$> rows).

(** A pass of these rows' tokens, with padding after them, on a device whose context is [context]: what it has to give. *)
Definition Passes (run : list (Z * X) -> list Z -> M (Device (Pages E)) (list H)) (context : Fields) (rows : list PassRow) (pads : nat)
    (c : Pages E) : Prop :=
  forall padding positions, length padding = pads -> length positions = pads ->
  wp (run (concat (pr_new <$> rows) ++ padding) (concat (row_positions <$> rows) ++ positions))
    {| dv_cache := c; dv_context := fresh context |} (fun o d => exists rest,
      o = concat ((fun r => (pass_cells r).*2) <$> rows) ++ rest /\ length rest = pads /\
      Stored c (row_slots c rows) (concat ((fun r => (pass_cells r).*1) <$> rows)) (dv_cache d) /\
      PagesOk (fun _ => True) (dv_cache d) /\ cx_fields (dv_context d) = context).

(** Rows whose earlier entries the cache holds, with slots of their own for the new ones. *)
Record RowsReady (c : Pages E) (rows : list PassRow) : Prop := {
  rr_some : rows <> [];
  rr_new : Forall (fun r => 0 < new_len r) rows;
  rr_size : PagesOk (fun _ => True) c;
  rr_placed : Placed pr_table old_len new_len c rows;
  rr_held : Forall (fun r => Holds c (pr_table r) (pr_old r)) rows;
  rr_range : Forall (fun s => 0 <= s < Z.of_nat (numel c))%Z (row_slots c rows)
}.

(** A step's context, as the runner prepares it: padded to a bucket of [pads] more rows, or not. The host's key lengths are
    bounds, and exact where cached entries are expanded: everywhere if [latents] is false, else in the rows a prefill takes. *)
Record BatchRows (latents : bool) (c : Pages E) (context : Fields) (rows : list PassRow) (pads : nat) : Prop := {
  br_start : exists k_lens, BatchContext context (Z.of_nat ∘ new_len <$> rows) k_lens (row_len <$> rows) (pr_table <$> rows) /\
    Forall2 (fun r n => (row_len r <= n)%Z) rows k_lens /\
    (latents = false \/ cx_is_prefill context = true ->
       let n := if latents then leading_rows (cx_decode_query_len context) (Z.of_nat ∘ new_len <$> rows) else 0 in
       drop n k_lens = drop n (row_len <$> rows)) /\
    (exists w, Forall (fun r => Zlen (pr_table r) = w) rows /\ Forall (fun n => (n <= w * Z.of_nat (pg_size c))%Z) k_lens);
  br_uniform : cx_is_prefill context = false -> exists n, Forall (fun r => new_len r = n) rows;
  br_ids : Forall (fun r => Forall (fun b => (b < Z.of_nat (length (pg_blocks c)))%Z) (pr_table r)) rows;
  br_slots : cx_slot_mapping context = Some (row_slots c rows);
  br_graph : cx_full_graph_size context = None;
  br_pads : match cx_num_actual_tokens context with
    | None => pads = 0 /\ cx_piecewise_size context = None
    | Some n => n = Zlen (concat (pr_new <$> rows)) /\ cx_piecewise_size context = Some (n + Z.of_nat pads)%Z
    end
}.

(** A draft step's: one token a row, and of the key lengths only a bound on the host. *)
Record StepRows (c : Pages E) (context : Fields) (rows : list PassRow) : Prop := {
  sr_prefill : cx_is_prefill context = false;
  sr_one : Forall (fun r => new_len r = 1) rows;
  sr_q : cx_cu_seqlens_q context = Some (arange (Zlen rows + 1)) /\ cx_cu_seqlens_q_host context = Some (arange (Zlen rows + 1)) /\
    cx_max_seqlen_q context = 1%Z;
  sr_k : cx_cu_seqlens_k context = Some (cumulative (row_len <$> rows)) /\ cx_cu_seqlens_k_host context = None /\
    Forall (fun r => (row_len r <= cx_max_seqlen_k context)%Z) rows;
  sr_lens : cx_context_lens context = Some (row_len <$> rows);
  sr_tables : cx_block_tables context = Some (pr_table <$> rows) /\
    (exists w, Forall (fun r => Zlen (pr_table r) = w /\ (row_len r <= w * Z.of_nat (pg_size c))%Z) rows) /\
    Forall (fun r => Forall (fun b => (b < Z.of_nat (length (pg_blocks c)))%Z) (pr_table r)) rows;
  sr_slots : cx_slot_mapping context = Some (row_slots c rows);
  sr_rest : cx_num_actual_tokens context = None /\ cx_full_graph_size context = None /\ cx_piecewise_size context = None
}.

(** A full graph's, over its buffers: the rows, of [q] tokens each, then padding rows that attend nothing and write no slot.
    Past a row's length, and in a padding row, a block table holds anything. *)
Record GraphRows (c : Pages E) (context : Fields) (rows : list PassRow) (q : nat) (pad_tables : list (list Z)) : Prop := {
  gr_len : Forall (fun r => new_len r = q) rows;
  gr_context : context = default_Fields
    <| cx_slot_mapping := Some (row_slots c rows ++ replicate (length pad_tables * q) (-1)%Z) |>
    <| cx_context_lens := Some ((row_len <$> rows) ++ replicate (length pad_tables) 0%Z) |>
    <| cx_block_tables := Some ((pr_table <$> rows) ++ pad_tables) |>
    <| cx_full_graph_size := Some (Z.of_nat (length rows + length pad_tables)) |>
}.

(** What a model promises: on the runner's batches, on draft steps, and in full graphs. *)
Definition BatchPassOk latents run : Prop := forall c context rows pads,
  RowsReady c rows -> BatchRows latents c context rows pads -> Passes run context rows pads c.
Definition StepPassOk run : Prop := forall c context rows,
  RowsReady c rows -> StepRows c context rows -> Passes run context rows 0 c.
Definition GraphPassOk run : Prop := forall c context rows q pad_tables,
  RowsReady c rows -> GraphRows c context rows q pad_tables -> Passes run context rows (length pad_tables * q) c.

End Rows.

Arguments PassRow : clear implicits.
Arguments Build_PassRow {X E} _ _ _.

(** ** Buffers

    Assigning [v] to the first [n] entries of a buffer; a single value is broadcast. *)
Definition copy_upto {S A} (n : Z) (buffer v : list A) : M S (list A) :=
  let m := py_pos buffer n in
  if length v =? m then ret (v ++ drop m buffer)
  else match v with [x] => ret (replicate m x ++ drop m buffer) | _ => raise (RuntimeError "shape mismatch") end.

(** [buffer[:n, :w] = rows]. *)
Definition copy_rows {S} (n w : Z) (buffer rows : list (list Z)) : M S (list (list Z)) :=
  let m := py_pos buffer n in
  let rows := match rows with [row] => replicate m row | _ => rows end in
  if (length rows =? m) && forallb (fun row => (Zlen row =? w)%Z) rows && forallb (fun b => (w <=? Zlen b)%Z) (take m buffer)
  then ret (zip_with (fun row b => row ++ drop (Z.to_nat w) b) rows (take m buffer) ++ drop m buffer)
  else raise (RuntimeError "shape mismatch").

Lemma py_pos_length {A} (l : list A) (n : nat) : n <= length l -> py_pos l (Z.of_nat n) = n.
Proof. intros Hn. unfold py_pos. destruct (Z.ltb_spec (Z.of_nat n) 0); lia. Qed.

Lemma copy_upto_ok {S A} n (buffer v : list A) (s : S) Q : n = Zlen v -> length v <= length buffer ->
  Q (v ++ drop (length v) buffer) s -> wp (copy_upto n buffer v) s Q.
Proof. intros -> Hv HQ. unfold copy_upto, Zlen. rewrite py_pos_length by done. cbn zeta. rewrite Nat.eqb_refl. by apply wp_ret. Qed.

Lemma copy_rows_ok {S} n w (buffer rows : list (list Z)) (s : S) Q : n = Zlen rows -> length rows <= length buffer ->
  Forall (fun row => Zlen row = w) rows -> Forall (fun b => (w <= Zlen b)%Z) buffer ->
  Q (zip_with (fun row b => row ++ drop (Z.to_nat w) b) rows (take (length rows) buffer) ++ drop (length rows) buffer) s ->
  wp (copy_rows n w buffer rows) s Q.
Proof.
  intros -> Hl Hw Hb HQ. assert (Hm : py_pos buffer (Zlen rows) = length rows) by by apply py_pos_length.
  unfold copy_rows. rewrite Hm.
  assert (He : match rows with [row] => replicate (length rows) row | _ => rows end = rows) by (by destruct rows as [|row [|]]).
  rewrite He. rewrite Nat.eqb_refl. cbn [andb].
  assert (H1 : forallb (fun row => (Zlen row =? w)%Z) rows = true).
  { apply forallb_forall. intros row Hr%list_elem_of_In. rewrite Forall_forall in Hw. by apply Z.eqb_eq, Hw. }
  assert (H2 : forallb (fun b => (w <=? Zlen b)%Z) (take (length rows) buffer) = true).
  { apply forallb_forall. intros b Hr%list_elem_of_In. rewrite Forall_forall in Hb. apply Z.leb_le, Hb.
    by apply elem_of_take in Hr as (i & Hi & _); apply list_elem_of_lookup_2 in Hi. }
  rewrite H1, H2. by apply wp_ret.
Qed.

(** ** Cells *)

Section Cells.
Context {X H E : Type}.
Variable cell : list E -> Z * X -> E * H.
Local Abbreviation run_cells := (run_cells cell).

Lemma run_cells_length es l : length (run_cells es l) = length l.
Proof. revert es. induction l as [|t l IH]; intros es; simpl; [done|]. by rewrite IH. Qed.

Lemma run_cells_app es a b : run_cells es (a ++ b) = run_cells es a ++ run_cells (es ++ (run_cells es a).*1) b.
Proof.
  revert es. induction a as [|t a IH]; intros es; cbn [app Passes.run_cells fmap list_fmap]; [by rewrite app_nil_r|].
  rewrite IH. cbn [app]. by rewrite <-app_assoc.
Qed.

Lemma run_cells_take es l k : take k (run_cells es l) = run_cells es (take k l).
Proof.
  revert es k. induction l as [|t l IH]; intros es [|k]; simpl; try done. by rewrite IH.
Qed.

(** A row with other tables that place its entries at the same slots. *)
Definition same_slots (c : Pages E) (r r' : PassRow X E) : Prop :=
  pr_old r' = pr_old r /\ pr_new r' = pr_new r /\ forall p, p < old_len r + new_len r -> table_slot c (pr_table r') p = table_slot c (pr_table r) p.

Lemma same_row_slots c rows rows' : Forall2 (same_slots c) rows rows' -> row_slots c rows' = row_slots c rows.
Proof.
  intros Hs. unfold row_slots. f_equal. apply list_eq. intros i. rewrite !list_lookup_fmap. rewrite Forall2_lookup in Hs.
  specialize (Hs i). inversion Hs as [r r' (Ho & Hn & Ht)|]; [|done]. simpl. f_equal. unfold slots_of, old_len, new_len. rewrite Ho, Hn.
  apply list_fmap_ext. intros _ p Hp%list_elem_of_lookup_2%elem_of_seq. f_equal. apply Ht. unfold old_len, new_len. lia.
Qed.

Lemma same_ready c rows rows' : Forall2 (same_slots c) rows rows' -> RowsReady c rows -> RowsReady c rows'.
Proof.
  intros Hs [H1 H2 H3 H4 H5 H6]. pose proof (same_row_slots c rows rows' Hs) as Hsl.
  assert (Hin : forall r', r' ∈ rows' -> exists r, r ∈ rows /\ same_slots c r r').
  { intros r' [i Hi]%list_elem_of_lookup. rewrite Forall2_lookup in Hs. specialize (Hs i). rewrite Hi in Hs.
    inversion Hs as [r x Hr Hx|]. subst. exists r. split; [by eapply list_elem_of_lookup_2|done]. }
  split.
  - intros ->. apply Forall2_nil_inv_r in Hs. done.
  - rewrite Forall_forall in *. intros r' (r & Hr & _ & Hn & _)%Hin. unfold new_len. rewrite Hn. by apply H2.
  - done.
  - destruct H4 as [Hm Hp Ha]. unfold row_slots in Hsl. split.
    + intros r' p (r & Hr & Ho & Hn & Ht)%Hin Hlt. unfold old_len, new_len in *. rewrite Ho, Hn in Hlt.
      rewrite Ht by done. by apply Hm.
    + by rewrite Hsl.
    + intros r' p s (r & Hr & Ho & Hn & Ht)%Hin Hlt Hsl'. unfold old_len, new_len in *. rewrite Ho in Hlt.
      rewrite Ht in Hsl' by lia. rewrite Hsl. by apply (Ha r p).
  - rewrite Forall_forall in *. intros r' (r & Hr & Ho & Hn & Ht)%Hin p e He. rewrite Ho in He. destruct (H5 r Hr p e He) as (s & Hsl' & Hse).
    exists s. split; [|done]. rewrite Ht; [done|]. apply lookup_lt_Some in He. unfold old_len. lia.
  - by rewrite Hsl.
Qed.

(** After a pass the cache holds its rows' entries. *)
Lemma pass_held c c' rows r : RowsReady c rows -> Stored c (row_slots c rows) (concat ((fun r => (pass_cells cell r).*1) <$> rows)) c' ->
  r ∈ rows -> Holds c' (pr_table r) (pr_old r ++ (pass_cells cell r).*1).
Proof.
  intros [_ _ _ Hpl Hheld _] Hst Hr. rewrite Forall_forall in Hheld.
  apply (stored_held pr_table old_len new_len c rows Hpl c c' (fun r => pr_old r ++ (pass_cells cell r).*1)); try done.
  - intros x _. unfold pass_cells. by rewrite length_app, length_fmap, run_cells_length.
  - intros x Hx. unfold old_len. rewrite take_app_length. by apply Hheld.
  - replace ((fun x => drop (old_len x) (pr_old x ++ (pass_cells cell x).*1)) <$> rows) with ((fun x => (pass_cells cell x).*1) <$> rows); [done|].
    apply list_fmap_ext. intros _ x _. unfold old_len. by rewrite drop_app_length.
Qed.

Lemma row_slots_length (c : Pages E) (rows : list (PassRow X E)) : length (row_slots c rows) = length (concat (pr_new <$> rows)).
Proof.
  unfold row_slots. induction rows as [|r rows IH]; [done|]. rewrite !fmap_cons. cbn [concat]. rewrite !length_app, IH.
  unfold slots_of. by rewrite length_fmap, length_seq.
Qed.

End Cells.

(** ** Buffers that hold more than a step *)

(** The buffers of a graph or a bucket: the step's values, then what they held. *)
Lemma upto_buffer {A} (v buffer : list A) (n b : nat) : length v = n -> n <= b <= length buffer ->
  py_upto (v ++ drop n buffer) (Z.of_nat b) = v ++ take (b - n) (drop n buffer).
Proof.
  intros Hv Hb. unfold py_upto. rewrite py_pos_length by (rewrite length_app, length_drop; lia).
  rewrite take_app_ge by lia. by rewrite Hv.
Qed.

Lemma upto_replicate {A} (v : list A) (x : A) (n b len : nat) : length v = n -> n <= b <= len ->
  py_upto (v ++ drop n (replicate len x)) (Z.of_nat b) = v ++ replicate (b - n) x.
Proof.
  intros Hv Hb. rewrite upto_buffer by (rewrite ?length_replicate; lia). rewrite drop_replicate, take_replicate. do 2 f_equal. lia.
Qed.

Lemma upto_length {A} (l : list A) w : (0 <= w <= Zlen l)%Z -> Zlen (py_upto l w) = w.
Proof. intros Hw. unfold Zlen, py_upto, py_pos in *. rewrite length_take. destruct (Z.ltb_spec w 0); lia. Qed.

Lemma buffer_length {A} (v buffer : list A) n : length buffer = n -> length v <= n -> length (v ++ drop (length v) buffer) = n.
Proof. intros <- Hv. rewrite length_app, length_drop. lia. Qed.

Lemma width_of tables (w : Z) : tables <> [] -> Forall (fun t : list Z => Zlen t = w) tables -> table_width tables = w.
Proof. intros Hne Hw. destruct tables as [|t l]; [done|]. by apply Forall_cons in Hw as [Hw _]. Qed.

(** ** Full graphs

    The rows, with other tables: those that a graph's buffer holds. *)

Section Graphs.
Context {X H E : Type}.
Variable cell : list E -> Z * X -> E * H.
Variable c : Pages E.
Variable rows : list (PassRow X E).

Definition with_tables (tables : list (list Z)) : list (PassRow X E) :=
  zip_with (fun r t => {| pr_old := pr_old r; pr_new := pr_new r; pr_table := t |}) rows tables.

Lemma with_tables_eq {A} (f : PassRow X E -> A) tables : length tables = length rows ->
  (forall r t, f {| pr_old := pr_old r; pr_new := pr_new r; pr_table := t |} = f r) -> f <$> with_tables tables = f <$> rows.
Proof.
  intros Hl Hf. unfold with_tables. apply list_eq. intros i. rewrite !list_lookup_fmap, lookup_zip_with.
  destruct (rows !! i) as [r|] eqn:Hr; [|done]. assert (i < length tables) as [t Ht]%lookup_lt_is_Some_2.
  { rewrite Hl. by apply lookup_lt_Some in Hr. }
  rewrite Ht. simpl. f_equal. apply Hf.
Qed.

Lemma with_tables_table tables : length tables = length rows -> pr_table <$> with_tables tables = tables.
Proof.
  intros Hl. unfold with_tables. apply list_eq. intros i. rewrite list_lookup_fmap, lookup_zip_with.
  destruct (rows !! i) as [r|] eqn:Hr; simpl; [by destruct (tables !! i)|]. symmetry. apply lookup_ge_None. apply lookup_ge_None in Hr. lia.
Qed.

(** Tables whose first columns are the rows', as far as these go. *)
Definition covering (tables : list (list Z)) (width : Z) : Prop :=
  length tables = length rows /\
  (forall i r t, rows !! i = Some r -> tables !! i = Some t -> exists rest, t = py_upto (pr_table r) width ++ rest) /\
  forall r, r ∈ rows -> ((row_len r - 1) / Z.of_nat (pg_size c) < width <= Zlen (pr_table r))%Z.

Lemma covering_same tables width : 0 < pg_size c -> covering tables width -> Forall2 (same_slots c) rows (with_tables tables).
Proof.
  intros Hsz (Hl & Ht & Hw). apply Forall2_lookup. intros i. unfold with_tables. rewrite lookup_zip_with.
  destruct (rows !! i) as [r|] eqn:Hr; simpl; [|constructor].
  assert (i < length tables) as [t Hti]%lookup_lt_is_Some_2 by (rewrite Hl; by apply lookup_lt_Some in Hr).
  rewrite Hti. simpl. constructor. split_and!; [done|done|]. intros p Hp. cbn [pr_table].
  destruct (Ht i r t Hr Hti) as [rest ->]. destruct (Hw r (list_elem_of_lookup_2 _ _ _ Hr)) as [Hw1 Hw2].
  unfold table_slot, py_upto. f_equal.
  assert (Hpw : p / pg_size c < Z.to_nat width).
  { assert (Z.of_nat p / Z.of_nat (pg_size c) <= (row_len r - 1) / Z.of_nat (pg_size c))%Z by (apply Z.div_le_mono; [lia|unfold row_len; lia]).
    rewrite <-Nat2Z.inj_div in *. lia. }
  assert (Hpos : py_pos (pr_table r) width = Z.to_nat width).
  { unfold py_pos, Zlen in *. destruct (Z.ltb_spec width 0); lia. }
  rewrite Hpos, lookup_app_l by (rewrite length_take; unfold Zlen in Hw2; lia). by apply lookup_take_lt.
Qed.

Definition graph_fields (q : nat) (tables pad_tables : list (list Z)) : Fields := default_Fields
  <| cx_slot_mapping := Some (row_slots c rows ++ replicate (length pad_tables * q) (-1)%Z) |>
  <| cx_context_lens := Some ((row_len <$> rows) ++ replicate (length pad_tables) 0%Z) |>
  <| cx_block_tables := Some (tables ++ pad_tables) |> <| cx_full_graph_size := Some (Z.of_nat (length rows + length pad_tables)) |>.

(** A graph's pass over buffers that hold the rows is a pass over the rows. *)
Lemma graph_passes run q tables pad_tables width : GraphPassOk cell run -> RowsReady c rows -> Forall (fun r => new_len r = q) rows ->
  covering tables width -> Passes cell run (graph_fields q tables pad_tables) rows (length pad_tables * q) c.
Proof.
  intros Hrun Hready Hq Hcov. pose proof Hcov as (Hl & _). destruct (rr_size _ _ Hready) as [Hsz _].
  pose proof (covering_same _ _ Hsz Hcov) as Hsame. pose proof (same_row_slots c _ _ Hsame) as Hslots.
  intros padding positions Hpad Hpos.
  assert (Hrows : GraphRows c (graph_fields q tables pad_tables) (with_tables tables) q pad_tables).
  { split.
    - apply Forall_forall. intros r (i & y & t & -> & Hy & _)%elem_of_lookup_zip_with. rewrite Forall_forall in Hq.
      apply (Hq y). by apply list_elem_of_lookup_2 in Hy.
    - unfold graph_fields. rewrite Hslots, with_tables_table by done. rewrite (with_tables_eq row_len) by done.
      unfold with_tables. rewrite length_zip_with. replace (Nat.min (length rows) (length tables)) with (length rows) by lia. done. }
  pose proof (Hrun c _ _ q pad_tables (same_ready c _ _ Hsame Hready) Hrows padding positions Hpad Hpos) as Hp.
  by rewrite (with_tables_eq pr_new), (with_tables_eq row_positions), (with_tables_eq (fun r => (pass_cells cell r).*2)),
    (with_tables_eq (fun r => (pass_cells cell r).*1)), Hslots in Hp by done.
Qed.

(** Copying the first [width] columns of the rows' tables into a buffer. *)
Definition copied (width : Z) (buffer : list (list Z)) : list (list Z) :=
  zip_with (fun row b => row ++ drop (Z.to_nat width) b) ((fun row => py_upto row width) <$> (pr_table <$> rows)) (take (length rows) buffer).

Lemma copied_covering buffer width : length rows <= length buffer ->
  (forall r, r ∈ rows -> ((row_len r - 1) / Z.of_nat (pg_size c) < width <= Zlen (pr_table r))%Z) -> covering (copied width buffer) width.
Proof.
  intros Hl Hw. unfold copied. split_and!; [rewrite length_zip_with, !length_fmap, length_take; lia| |done].
  intros i r t Hr Ht. rewrite lookup_zip_with, <-list_fmap_compose, list_lookup_fmap, Hr in Ht. simpl in Ht.
  destruct (take (length rows) buffer !! i) as [b|]; [|done]. simpl in Ht. injection Ht as <-. by eexists.
Qed.

Lemma copied_length buffer width : length rows <= length buffer -> length (copied width buffer) = length rows.
Proof. intros Hl. unfold copied. rewrite length_zip_with, !length_fmap, length_take. lia. Qed.

Lemma copied_widths buffer width w : (0 <= width <= w)%Z -> Forall (fun r => width <= Zlen (pr_table r))%Z rows -> Forall (fun t => Zlen t = w) buffer ->
  Forall (fun t => Zlen t = w) (copied width buffer ++ drop (length rows) buffer).
Proof.
  intros Hw Hr Hb. apply Forall_app. split; [|by apply Forall_drop]. apply Forall_forall.
  intros t (k & row & buf & -> & Hrow & Hbuf)%elem_of_lookup_zip_with.
  apply list_elem_of_lookup_2, elem_of_take in Hbuf as (k' & Hbuf & _). apply list_elem_of_lookup_2 in Hbuf.
  rewrite <-list_fmap_compose in Hrow. apply list_elem_of_lookup_2, list_elem_of_fmap in Hrow as (r & -> & Hr').
  rewrite Forall_forall in Hb. specialize (Hb buf Hbuf). rewrite Forall_forall in Hr. specialize (Hr r Hr'). simpl in Hb, Hr.
  rewrite Zlen_app. unfold compose. rewrite upto_length by lia. unfold Zlen in *. rewrite length_drop. lia.
Qed.

Lemma copy_tables_ok {S} n buffer width w (st : S) Q : n = Zlen rows -> rows <> [] -> length rows <= length buffer ->
  (0 <= width <= w)%Z -> Forall (fun r => width <= Zlen (pr_table r))%Z rows -> Forall (fun t => Zlen t = w) buffer ->
  Q (copied width buffer ++ drop (length rows) buffer) st ->
  wp (copy_rows n width buffer ((fun row => py_upto row width) <$> (pr_table <$> rows))) st Q.
Proof.
  intros -> Hne Hl Hw Hr Hb HQ. apply copy_rows_ok; [unfold Zlen; by rewrite !length_fmap|rewrite !length_fmap; lia| | |].
  - rewrite <-list_fmap_compose. apply Forall_fmap. eapply Forall_impl; [exact Hr|]. intros r Hr'. simpl in *. apply upto_length. lia.
  - eapply Forall_impl; [exact Hb|]. intros t ->. lia.
  - rewrite !length_fmap. exact HQ.
Qed.

End Graphs.

(** ** A prepared batch as a pass

    The arrays that the runner prepares describe a pass over the batch's
    sequences, whatever the pass takes beside their token ids. *)

Section Batch.
Context {X E : Type}.
Variable r : Runner.
Variable seqs : list Sequence.
Hypothesis Hready : Ready r seqs.
Local Abbreviation batch := (batch_of r seqs).

(** The entries of each sequence's earlier tokens, and what the pass takes of its new ones. *)
Variable old : Sequence -> list E.
Variable new : nat * Sequence -> list (Z * X).
Hypothesis Hold : forall s, s ∈ batch -> Zlen (old s) = start_of r s.
Hypothesis Hnew : forall x, x ∈ tagged batch -> Zlen (new x) = num_scheduled_tokens x.2.

Definition step_row (x : nat * Sequence) : PassRow X E :=
  {| pr_old := old x.2; pr_new := new x; pr_table := batch_table r seqs x.2 |}.
Local Abbreviation rows := (step_row <$> tagged batch).

Lemma tagged_in x : x ∈ tagged batch -> batch !! x.1 = Some x.2 /\ x.2 ∈ batch.
Proof using.
  clear. intros [i Hi]%list_elem_of_lookup. rewrite tagged_lookup in Hi. destruct (batch !! i) as [s|] eqn:Hs; [|done].
  injection Hi as <-. split; [done|]. by apply list_elem_of_lookup_2 in Hs.
Qed.

Lemma rows_map {A} (f : PassRow X E -> A) (g : Sequence -> A) : (forall x, x ∈ tagged batch -> f (step_row x) = g x.2) -> f <$> rows = g <$> batch.
Proof using.
  clear. intros Hf. rewrite <-list_fmap_compose, <-(tagged_fmap g). apply list_fmap_ext. intros i x Hx%list_elem_of_lookup_2. by apply Hf.
Qed.

Lemma row_counts x : x ∈ tagged batch -> old_len (step_row x) = batch_old r x.2 /\ new_len (step_row x) = batch_new x.2 /\
  row_len (step_row x) = end_of r x.2 /\ Z.of_nat (new_len (step_row x)) = num_scheduled_tokens x.2.
Proof using Hready Hold Hnew.
  intros Hx. destruct (tagged_in x Hx) as [_ Hs]. destruct (batch_ok r seqs Hready x.2 Hs) as [Hr _]. pose proof (ro_len _ _ Hr). pose proof (ro_start _ _ Hr).
  pose proof (Hold x.2 Hs) as Ho. pose proof (Hnew x Hx) as Hn. unfold row_len, old_len, new_len, batch_old, batch_new, end_of, Zlen in *. simpl. lia.
Qed.

Lemma step_positions : concat (row_positions <$> rows) = concat (positions_of r <$> batch).
Proof using Hready Hold Hnew.
  f_equal. apply rows_map. intros x Hx. destruct (row_counts x Hx) as (Ho & _ & _ & Hn). unfold row_positions, positions_of. rewrite Hn, Ho.
  destruct (tagged_in x Hx) as [_ Hs]. destruct (batch_ok r seqs Hready x.2 Hs) as [Hr _]. pose proof (ro_start _ _ Hr). unfold batch_old. f_equal. lia.
Qed.

Section Cache.
Variable c : Pages E.
Hypothesis Hsize : Z.of_nat (pg_size c) = mr_block_size r.

Lemma step_slots_eq : row_slots c rows = concat ((fun s => slot_of r s <$> positions_of r s) <$> batch).
Proof using Hready Hold Hnew Hsize.
  rewrite <-(all_batch_slots r seqs Hready c) by done. unfold row_slots. f_equal. apply rows_map. intros x Hx.
  destruct (row_counts x Hx) as (Ho & Hn & _). unfold slots_of. by rewrite Ho, Hn.
Qed.

Hypothesis Hpages : PagesOk (fun _ => True) c.
Hypothesis Hheld : forall s, s ∈ batch -> SlotsHold r c s (old s) (start_of r s).
Hypothesis Hown : OwnSlots r seqs.
Hypothesis Hblocks : forall s, s ∈ batch -> Forall (fun b => b < length (pg_blocks c)) (block_table s).

Lemma batch_ids s : s ∈ batch -> Forall (fun b => (b < Z.of_nat (length (pg_blocks c)))%Z) (batch_table r seqs s).
Proof using Hblocks.
  intros Hs. unfold batch_table, pad_table. apply Forall_app. split; [|apply Forall_replicate; lia]. apply Forall_fmap.
  eapply Forall_impl; [by apply Hblocks|]. intros b Hb. simpl in *. lia.
Qed.

Lemma step_rows_ready : RowsReady c rows.
Proof using Hready Hold Hnew Hsize Hpages Hheld Hown Hblocks.
  pose proof (batch_placed r seqs Hready c Hsize Hown) as [Hm Hp Ha]. pose proof step_slots_eq as Hsl. unfold row_slots in Hsl.
  rewrite (all_batch_slots r seqs Hready) in Hp by done.
  assert (Hin : forall row, row ∈ rows -> exists x, row = step_row x /\ x ∈ tagged batch).
  { intros row (x & -> & Hx)%list_elem_of_fmap. by exists x. }
  split.
  - intros He. apply fmap_nil_inv in He. apply (batch_some r seqs Hready), length_zero_iff_nil. by rewrite <-tagged_length, He.
  - apply Forall_forall. intros row (x & -> & Hx)%Hin. destruct (row_counts x Hx) as (_ & _ & _ & Hn).
    destruct (tagged_in x Hx) as [_ Hs]. destruct (batch_ok r seqs Hready x.2 Hs) as [Hr _]. pose proof (ro_len _ _ Hr). lia.
  - done.
  - split.
    + intros row p (x & -> & Hx)%Hin Hlt. destruct (row_counts x Hx) as (Ho & Hn & _). destruct (tagged_in x Hx) as [_ Hs].
      apply (Hm x.2 p Hs). lia.
    + by rewrite Hsl.
    + intros row p sl (x & -> & Hx)%Hin Hlt Hs. destruct (row_counts x Hx) as (Ho & _). destruct (tagged_in x Hx) as [_ Hin'].
      rewrite Hsl, <-(all_batch_slots r seqs Hready c) by done. rewrite Ho in Hlt. by apply (Ha x.2 p).
  - apply Forall_forall. intros row (x & -> & Hx)%Hin. destruct (tagged_in x Hx) as [_ Hs]. simpl.
    pose proof (old_held r seqs Hready c Hsize (old x.2) x.2 Hs (Hheld x.2 Hs)) as Hh.
    rewrite take_ge in Hh; [done|]. pose proof (Hold x.2 Hs). unfold batch_old, Zlen in *. lia.
  - rewrite step_slots_eq, <-(all_batch_slots r seqs Hready c) by done.
    apply (slots_in_range _ _ _ _ _ (batch_placed r seqs Hready c Hsize Hown)); [apply Hpages|apply batch_ids].
Qed.

(** The context of a pass over the batch, in a bucket or not. *)
Definition pass_context (f : Fields) (pads : option nat) : Fields :=
  match pads with
  | None => f
  | Some pads => let n := Zlen (concat (new <$> tagged batch)) in
      f <| cx_piecewise_size := Some (n + Z.of_nat pads)%Z |> <| cx_num_actual_tokens := Some n |>
  end.

Lemma step_batch_rows latents start li pads : (mr_decodes_latents r = true -> latents = true) -> HostStart r seqs start ->
  BatchRows latents c (pass_context ((device_context r seqs start) <| cx_logits_indices := li |>) pads) rows (default 0 pads).
Proof using Hready Hold Hnew Hsize Hblocks.
  intros Hlat Hh.
  assert (Hq : Z.of_nat ∘ new_len <$> rows = num_scheduled_tokens <$> batch) by (apply rows_map; intros x Hx; by apply row_counts).
  assert (Hl : row_len <$> rows = end_of r <$> batch) by (apply rows_map; intros x Hx; by apply row_counts).
  assert (Ht : pr_table <$> rows = batch_table r seqs <$> batch) by (by apply rows_map).
  set (arow := fun s : Sequence => {| ar_q := replicate (Z.to_nat (num_scheduled_tokens s)) ([] : list (list unit));
    ar_keys := replicate (Z.to_nat (end_of r s)) []; ar_values := []; ar_table := batch_table r seqs s |}).
  assert (Hpos : forall s, s ∈ batch -> (0 <= num_scheduled_tokens s /\ 0 <= end_of r s)%Z).
  { intros s Hs. destruct (batch_ok r seqs Hready s Hs) as [Hr _]. pose proof (ro_start _ _ Hr). pose proof (ro_len _ _ Hr). unfold end_of. lia. }
  destruct (batch_context r seqs Hready c Hsize arow start Hh) as [Hb Hbd Hids (w & Hw & Hwk)].
  { intros s Hs. destruct (Hpos s Hs). unfold arow, Zlen. simpl. rewrite !length_replicate. split_and!; [lia|lia|done]. }
  { done. }
  assert (Hmap : forall A (f : AttnRow unit -> A) g, (forall s, s ∈ batch -> f (arow s) = g s) -> f <$> (arow <$> batch) = g <$> batch).
  { intros A f g Hf. rewrite <-list_fmap_compose. apply list_fmap_ext. intros i s Hs%list_elem_of_lookup_2. by apply Hf. }
  assert (Hbatch : BatchContext (device_context r seqs start) (num_scheduled_tokens <$> batch) (host_ends r seqs start) (end_of r <$> batch)
    (batch_table r seqs <$> batch)).
  { rewrite <-!(list_fmap_compose _ Zlen) in Hb. rewrite (Hmap _ (Zlen ∘ ar_q) num_scheduled_tokens), (Hmap _ (Zlen ∘ ar_keys) (end_of r)),
      (Hmap _ ar_table (batch_table r seqs)) in Hb; [done|done| |]; intros s Hs; destruct (Hpos s Hs); unfold compose, arow, Zlen; simpl;
    rewrite length_replicate; lia. }
  split.
  - exists (host_ends r seqs start). rewrite Hq, Hl, Ht. split_and!.
    + destruct Hbatch. by destruct pads.
    + rewrite Forall2_fmap_l in Hbd. apply Forall2_fmap_l. apply Forall2_lookup. intros i. rewrite Forall2_lookup in Hbd. specialize (Hbd i).
      rewrite tagged_lookup. destruct (batch !! i) as [s|] eqn:Hs; simpl in *; inversion Hbd as [a b Hab Ha Hb'|]; [|constructor]. constructor.
      subst. assert (Hin : (i, s) ∈ tagged batch) by (apply list_elem_of_lookup; exists i; by rewrite tagged_lookup, Hs).
      destruct (row_counts (i, s) Hin) as (_ & _ & Hrl & _). destruct (Hpos s) as [_ He]; [by apply list_elem_of_lookup_2 in Hs|].
      unfold arow, Zlen in Hab. simpl in *. rewrite length_replicate in Hab. lia.
    + intros Hcase. replace (cx_decode_query_len _) with (query_len_of r seqs) by (by destruct pads).
      apply host_lens_exact; [done|done|]. by destruct pads.
    + exists w. split; [|done]. apply Forall_fmap, Forall_forall. intros x Hx. destruct (tagged_in x Hx) as [_ Hs].
      rewrite Forall_fmap, Forall_forall in Hw. exact (Hw x.2 Hs).
  - intros Hp. destruct (decode_rows_uniform r seqs Hready) as (n & Hn); [by destruct pads|].
    exists (Z.to_nat n). apply Forall_fmap, Forall_forall. intros x Hx. destruct (tagged_in x Hx) as [_ Hs]. simpl.
    destruct (row_counts x Hx) as (_ & -> & _). rewrite Forall_forall in Hn. unfold batch_new. by rewrite (Hn x.2 Hs).
  - apply Forall_fmap, Forall_forall. intros x Hx. destruct (tagged_in x Hx) as [_ Hs]. rewrite Forall_fmap, Forall_forall in Hids.
    exact (Hids x.2 Hs).
  - rewrite step_slots_eq. by destruct pads.
  - by destruct pads.
  - destruct pads as [pads|]; [|done]. simpl. rewrite <-list_fmap_compose. done.
Qed.

End Cache.
End Batch.
