(* ===== verification/Proposer.v ===== *)
(** * The drafter

    [spec_decode/mtp_proposer.py]: the drafts of a step, from the target's
    hidden states. The first pass runs over the target's batch, each token
    beside the one after it; each further pass has one token a row, and the
    passes take the MTP layers of [models/deepseek_mtp.py] in turn, each layer
    with a cache of its own. *)

From S2P Require Import Prelude Sequence Arrays AttnContext ModelRunner Tensors Attention Moe AttentionFacts Passes.

Section Proposer.
Context {F H E : Type} `{!Ordered F}.

(** What the proposer is given: each MTP layer with the target's embedding, on its own cache; the target's head; and the backends' hooks. *)
Class Drafter := {
  num_mtp_layers : Z;
  zero_hidden : H;
  mtp_layer : Z -> list Z -> list Z -> list H -> M (Device (Pages E)) (list H);
  drafter_head : H -> list F;
  before_full_graph_replay : Fields -> Z -> M (Device (list (Pages E))) unit
}.
Context `{!Drafter}.

(** [self.layers[k](...)], on the device's one context and that layer's cache. *)
Definition on_layer {A} (k : Z) (m : M (Device (Pages E)) A) : M (Device (list (Pages E))) A :=
  let! caches := gets dv_cache in
  let! c := or_raise (py_get caches k) IndexError in
  zoom (fun d => {| dv_cache := c; dv_context := dv_context d |})
    (fun x d => {| dv_cache := <[Z.to_nat k := dv_cache x]> (dv_cache d); dv_context := dv_context x |}) m.

(** [DeepSeekMTP.forward], from the token ids. *)
Definition drafter (spec_step_idx : Z) (input_ids positions : list Z) (hidden_states : list H) : M (Device (list (Pages E))) (list H) :=
  if (num_mtp_layers =? 0)%Z then raise ZeroDivisionError else
  let k := (spec_step_idx mod num_mtp_layers)%Z in
  on_layer k (mtp_layer k input_ids positions hidden_states).

Record PiecewiseVars := { pv_input_ids : list Z; pv_positions : list Z; pv_hidden_states : list H }.

Record DraftGraphVars := {
  dg_input_ids : list Z;
  dg_positions : list Z;
  dg_hidden_states : list H;
  dg_slot_mapping : list Z;
  dg_context_lens : list Z;
  dg_block_tables : list (list Z);
  dg_outputs : list H
}.

#[export] Instance eta_DraftGraphVars : Eta DraftGraphVars := fun v =>
  Build_DraftGraphVars (dg_input_ids v) (dg_positions v) (dg_hidden_states v) (dg_slot_mapping v) (dg_context_lens v)
    (dg_block_tables v) (dg_outputs v).

Record Proposer := {
  pp_num_speculative_tokens : Z;
  pp_block_size : Z;
  pp_max_model_len : Z;
  pp_graph_bs : list Z;
  pp_piecewise_bs : list Z;
  pp_piecewise_vars : option PiecewiseVars;
  pp_graph_vars : option DraftGraphVars;
  pp_graphs : list (Z * Z);
  pp_device : Device (list (Pages E))
}.

#[export] Instance eta_Proposer : Eta Proposer := fun p =>
  Build_Proposer (pp_num_speculative_tokens p) (pp_block_size p) (pp_max_model_len p) (pp_graph_bs p) (pp_piecewise_bs p)
    (pp_piecewise_vars p) (pp_graph_vars p) (pp_graphs p) (pp_device p).

Definition on_device {A} (m : M (Device (list (Pages E))) A) : M Proposer A := zoom pp_device (fun d p => p <| pp_device := d |>) m.

(** A context for a part of a method. *)
Definition with_context {A} (f : Fields) (body : M Proposer A) : M Proposer A := fun p =>
  match body (p <| pp_device ::= fun d => d <| dv_context := fresh f |> |>) with
  | (r, p') => (r, p' <| pp_device ::= fun d => d <| dv_context := dv_context (pp_device p) |> |>)
  end.

(** [argmax(dim=-1)]: the first of the greatest. *)
Fixpoint argmax_row_from (i best_i : Z) (best : F) (l : list F) : Z :=
  match l with
  | [] => best_i
  | x :: l' => if decide (fle x best) then argmax_row_from (i + 1) best_i best l' else argmax_row_from (i + 1) i x l'
  end.

Definition argmax_row (l : list F) : Z := match l with [] => 0 | x :: l' => argmax_row_from 1 0 x l' end.

(** [_draft]. *)
Definition draft (hidden_states : list H) : M Proposer (list Z) :=
  let! logits := on_device (select_logits drafter_head hidden_states) in
  ret (argmax_row <$> logits).

(** [_run_first_pass]. *)
Definition run_first_pass (input_ids positions : list Z) (hidden_states : list H) : M Proposer (list H) :=
  let n := Zlen input_ids in
  let! p := gets id in
  let! o :=
    match first_at_least n (pp_piecewise_bs p) with
    | None => on_device (drafter 0 input_ids positions hidden_states)
    | Some bucket =>
        let! v := or_raise (pp_piecewise_vars p) AttributeError in
        let! ids := copy_upto n (pv_input_ids v) input_ids in
        let! ps := copy_upto n (pv_positions v) positions in
        let! hs := copy_upto n (pv_hidden_states v) hidden_states in
        modify (fun p => p <| pp_piecewise_vars := Some {| pv_input_ids := ids; pv_positions := ps; pv_hidden_states := hs |} |>);;;
        on_device (modify (fun d => d <| dv_context ::= fun x => x <| cx_fields ::= fun f =>
          f <| cx_piecewise_size := Some bucket |> <| cx_num_actual_tokens := Some n |> |> |>));;;
        on_device (drafter 0 (py_upto ids bucket) (py_upto ps bucket) (py_upto hs bucket))
    end in
  ret (py_upto o n).

(** [_step_context]. *)
Definition step_context {S} (p : Proposer) (sample_positions : list Z) (table : option (list (list Z))) (cu_seqlens_q : list Z)
    (max_position step : Z) : M S (list Z * Fields) :=
  let bs := pp_block_size p in
  let last := (pp_max_model_len p - 1)%Z in
  let cu_q := arange (Zlen cu_seqlens_q) in
  let positions := (fun q => Z.min (q + step) last) <$> sample_positions in
  let context := default_Fields <| cx_max_seqlen_q := 1%Z |> <| cx_cu_seqlens_q := Some cu_seqlens_q |> <| cx_cu_seqlens_q_host := Some cu_q |> in
  match table with
  | None => ret (positions, context <| cx_cu_seqlens_k := Some cu_seqlens_q |> <| cx_max_seqlen_k := 1%Z |> <| cx_cu_seqlens_k_host := Some cu_q |>)
  | Some table =>
      let lens := (fun q => q + 1)%Z <$> positions in
      let! blocks := or_raise (mapM (fun row : list Z * Z => if (row.2 <? 0)%Z then None else py_get row.1 (row.2 / bs)) (zip table positions))
        (RuntimeError "index out of bounds") in
      ret (positions, context
        <| cx_cu_seqlens_k := Some (cumulative lens) |>
        <| cx_max_seqlen_k := (Z.min (max_position + step) last + 1)%Z |>
        <| cx_slot_mapping := Some (zip_with (fun b q => b * bs + q mod bs)%Z blocks positions) |>
        <| cx_context_lens := Some lens |>
        <| cx_block_tables := Some table |>)
  end.

(** [_graph_pass], over the buffers as they are: a graph's replay runs it again. *)
Definition graph_context (bs : Z) (v : DraftGraphVars) : Fields :=
  default_Fields <| cx_slot_mapping := Some (py_upto (dg_slot_mapping v) bs) |> <| cx_context_lens := Some (py_upto (dg_context_lens v) bs) |>
    <| cx_block_tables := Some (py_upto (dg_block_tables v) bs) |> <| cx_full_graph_size := Some bs |>.

Definition graph_pass (layer bs : Z) : M Proposer unit :=
  let! p := gets id in
  let! v := or_raise (pp_graph_vars p) AttributeError in
  let! o := with_context (graph_context bs v)
    (on_device (drafter layer (py_upto (dg_input_ids v) bs) (py_upto (dg_positions v) bs) (py_upto (dg_hidden_states v) bs))) in
  let! outputs := copy_upto bs (dg_outputs v) o in
  modify (fun p => p <| pp_graph_vars := Some (v <| dg_outputs := outputs |>) |>).

(** [_replay]. *)
Definition replay (layer bs : Z) (input_ids positions : list Z) (hidden_states : list H) : M Proposer (list H) :=
  let! context := on_device context_fields in
  let! slot_mapping := or_raise (cx_slot_mapping context) (AssertionError "") in
  let! context_lens := or_raise (cx_context_lens context) (AssertionError "") in
  let! block_tables := or_raise (cx_block_tables context) (AssertionError "") in
  let! p := gets id in
  let! v := or_raise (pp_graph_vars p) AttributeError in
  let n := Zlen input_ids in
  let! ids := copy_upto n (dg_input_ids v) input_ids in
  let! ps := copy_upto n (dg_positions v) positions in
  let! hs := copy_upto n (dg_hidden_states v) hidden_states in
  let! slots := copy_upto n (replicate (length (dg_slot_mapping v)) (-1)%Z) slot_mapping in
  let! lens := copy_upto n (replicate (length (dg_context_lens v)) 0%Z) context_lens in
  let width := Z.min (table_width block_tables) (table_width (dg_block_tables v)) in
  let! tables := copy_rows n width (dg_block_tables v) ((fun row => py_upto row width) <$> block_tables) in
  modify (fun p => p <| pp_graph_vars := Some {| dg_input_ids := ids; dg_positions := ps; dg_hidden_states := hs; dg_slot_mapping := slots;
    dg_context_lens := lens; dg_block_tables := tables; dg_outputs := dg_outputs v |} |>);;;
  on_device (before_full_graph_replay context bs);;;
  (if bool_decide ((layer, bs) ∈ pp_graphs p) then graph_pass layer bs else raise KeyError);;;
  let! v := gets pp_graph_vars in
  ret (py_upto (default [] (dg_outputs <$> v)) n).

(** The passes after the first: [drafts] are each pass's so far, the latest last. *)
Fixpoint further_drafts (graph_bs : option Z) (steps : list (list Z * Fields)) (step : Z) (hidden_states : list H) (drafts : list (list Z))
    : M Proposer (list (list Z)) :=
  match steps with
  | [] => ret drafts
  | (positions, context) :: steps' =>
      let! r := with_context context
        (let latest := default [] (last drafts) in
         let! hidden_states :=
           match graph_bs, cx_block_tables context with
           | Some bs, Some _ => replay (step mod num_mtp_layers) bs latest positions hidden_states
           | _, _ => on_device (drafter step latest positions hidden_states)
           end in
         let! d := draft hidden_states in
         ret (hidden_states, d)) in
      further_drafts graph_bs steps' (step + 1) r.1 (drafts ++ [r.2])
  end.

(** [torch.stack(drafts, dim=1)]. *)
Definition stack_columns (num_rows : Z) (columns : list (list Z)) : list (list Z) :=
  (fun i => (fun column => default 0%Z (py_get column i)) <$> columns) <$> arange num_rows.

(** [x.roll(-1)]. *)
Definition roll_back {A} (l : list A) : list A := drop 1 l ++ take 1 l.

Definition propose (inputs : DraftInputs) (context : Fields) (target_hidden_states : list H) (num_accepted next_token_ids : list Z)
    : M Proposer (list (list Z)) :=
  let! p := gets id in
  let num_rows := Zlen num_accepted in
  let not_sampling := (fun t => 0 <=? t)%Z <$> di_next_token_ids inputs in
  let fixed_index := masked (di_last_index inputs) not_sampling in
  let fixed_token_ids := masked (di_next_token_ids inputs) not_sampling in
  let! lasts := gather (di_last_index inputs) (di_sampling_rows inputs) in
  let first_draft_index := zip_with Z.sub lasts (di_num_draft_tokens inputs) in
  let cu_seqlens_q := arange (num_rows + 1) in
  let! table :=
    match di_block_table inputs with
    | Some t => let! rows := gather t (di_sampling_rows inputs) in ret (Some rows)
    | None => ret None
    end in
  let! input_ids := scatter (roll_back (di_input_ids inputs)) fixed_index fixed_token_ids in
  let sample_index := zip_with Z.add first_draft_index num_accepted in
  let! input_ids := scatter input_ids sample_index next_token_ids in
  let positions := di_positions inputs in
  let! (hidden_states, first) := with_context (context <| cx_logits_indices := None |>)
    (let! hidden_states := run_first_pass input_ids positions target_hidden_states in
     let! hidden_states := gather hidden_states sample_index in
     let! d := draft hidden_states in
     ret (hidden_states, d)) in
  if (num_rows =? 0)%Z then ret [] else
  let! sample_positions := gather positions sample_index in
  let! steps := collect (seqZ 1 (pp_num_speculative_tokens p - 1)) (fun step =>
    step_context p sample_positions table cu_seqlens_q (di_max_position inputs) step) in
  let graph_bs := first_at_least num_rows (pp_graph_bs p) in
  let! drafts := further_drafts graph_bs steps 1 hidden_states [first] in
  ret (stack_columns num_rows drafts).

(** ** Capture *)

(** [capture_piecewise], in the runner's capture context. *)
Definition draft_capture_piecewise (size : Z) : M Proposer unit :=
  let! p := gets id in
  (if bool_decide (pp_piecewise_bs p = []) then
     modify (fun p => p <| pp_piecewise_vars := Some {|
       pv_input_ids := replicate (Z.to_nat size) 0%Z; pv_positions := replicate (Z.to_nat size) 0%Z;
       pv_hidden_states := replicate (Z.to_nat size) zero_hidden |} |>)
   else ret tt);;;
  let! p := gets id in
  let! v := or_raise (pp_piecewise_vars p) AttributeError in
  let! _ := on_device (drafter 0 (py_upto (pv_input_ids v) size) (py_upto (pv_positions v) size) (py_upto (pv_hidden_states v) size)) in
  modify (fun p => p <| pp_piecewise_bs ::= fun l => sorted_set (l ++ [size]) |>).

(** [_capture]: a run outside the graph; under capture the pass is recorded and runs nothing. *)
Definition draft_capture (layer bs : Z) : M Proposer unit :=
  graph_pass layer bs;;;
  modify (fun p => p <| pp_graphs ::= fun l => (layer, bs) :: l |>).

Definition draft_capture_cudagraphs (sizes : list Z) (max_num_blocks : Z) : M Proposer unit :=
  let! p := gets id in
  let layers := sorted_set ((fun step => step mod num_mtp_layers)%Z <$> seqZ 1 (pp_num_speculative_tokens p - 1)) in
  if bool_decide (layers = []) then ret tt else
  let! max_bs := or_raise (last sizes) IndexError in
  let n := Z.to_nat max_bs in
  modify (fun p => p <| pp_graph_vars := Some {|
    dg_input_ids := replicate n 0%Z; dg_positions := replicate n 0%Z; dg_hidden_states := replicate n zero_hidden;
    dg_slot_mapping := replicate n 0%Z; dg_context_lens := replicate n (pp_max_model_len p);
    dg_block_tables := replicate n (replicate (Z.to_nat max_num_blocks) 0%Z); dg_outputs := replicate n zero_hidden |} |>);;;
  for_each (reverse sizes) (fun bs => for_each layers (fun layer => draft_capture layer bs));;;
  modify (fun p => p <| pp_graph_bs := sizes |>).

End Proposer.

Arguments Drafter : clear implicits.
Arguments Proposer : clear implicits.
Arguments DraftGraphVars : clear implicits.
Arguments PiecewiseVars : clear implicits.
