(* ===== verification/ProposerFacts.v ===== *)
(** * What the drafter drafts

    The first pass puts each token beside the one after it, so that the
    drafter's cache follows the target's; the later passes extend it a token at
    a time, each in the cache of its own layer. A row's drafts follow one from
    the other, the first of them from the row's own kept tokens. *)

From S2P Require Import Prelude Output Sequence Arrays AttnContext ModelRunner ModelRunnerFacts Tensors Attention Moe.
From S2P Require Import MLA TorchAttention TorchFacts AttentionFacts MLAFacts MLAStep StepAttention Passes Proposer.

(** ** Arrays *)

Lemma inserts_out {A} (l : list A) idx vals i : i ∉ idx -> inserts l idx vals !! i = l !! i.
Proof.
  revert l vals. induction idx as [|j idx IH]; intros l [|v vals] Hi; try done. apply not_elem_of_cons in Hi as [Hj Hi].
  simpl. rewrite IH by done. by apply list_lookup_insert_ne.
Qed.

(** A list cut in pieces of given lengths. *)
Fixpoint split_rows {A} (lens : list nat) (l : list A) : list (list A) :=
  match lens with [] => [] | n :: lens' => take n l :: split_rows lens' (drop n l) end.

Lemma concat_split_rows {A} lens (l : list A) : length l = sum_list lens -> concat (split_rows lens l) = l.
Proof.
  revert l. induction lens as [|n lens IH]; intros l Hl; simpl in *; [by apply length_zero_iff_nil in Hl|].
  rewrite IH by (rewrite length_drop; lia). apply take_drop.
Qed.

Lemma split_rows_length {A} lens (l : list A) : length (split_rows lens l) = length lens.
Proof. revert l. induction lens as [|n lens IH]; intros l; simpl; [done|]. by rewrite IH. Qed.

Lemma split_rows_lookup {A} lens (l : list A) j n : length l = sum_list lens -> lens !! j = Some n ->
  exists piece, split_rows lens l !! j = Some piece /\ length piece = n /\
    forall t, t < n -> piece !! t = l !! (sum_list (take j lens) + t).
Proof.
  revert l j. induction lens as [|m lens IH]; intros l [|j] Hl Hj; try done; simpl in *.
  - injection Hj as ->. exists (take n l). split_and!; [done|rewrite length_take; lia|]. intros t Ht. by apply lookup_take_lt.
  - destruct (IH (drop m l) j) as (piece & Hp & Hn & Ht); [rewrite length_drop; lia|done|]. exists piece. split_and!; [done|done|].
    intros t Hlt. rewrite Ht, lookup_drop by done. f_equal. lia.
Qed.

Lemma masked_pair {A B} (a : list A) (b : list B) mask j x y : a !! j = Some x -> b !! j = Some y -> mask !! j = Some true ->
  exists k, masked a mask !! k = Some x /\ masked b mask !! k = Some y.
Proof.
  revert a b j. induction mask as [|m mask IH]; intros [|u a] [|w b] [|j] Ha Hb Hm; try done; simpl in *.
  - injection Ha as ->. injection Hb as ->. injection Hm as ->. exists 0. by rewrite !masked_cons.
  - destruct (IH a b j Ha Hb Hm) as (k & H1 & H2). rewrite !masked_cons. destruct m; [by exists (S k)|by exists k].
Qed.

Lemma masked_in {A} (a : list A) mask x : x ∈ masked a mask -> exists j, a !! j = Some x /\ mask !! j = Some true.
Proof.
  revert a. induction mask as [|m mask IH]; intros [|u a]; try (by intros []%elem_of_nil).
  rewrite masked_cons. assert (Hrec : x ∈ masked a mask -> exists j, (u :: a) !! j = Some x /\ (m :: mask) !! j = Some true).
  { intros (j & H1 & H2)%IH. by exists (S j). }
  destruct m; [|done]. intros [->|Hx]%elem_of_cons; [by exists 0|by apply Hrec].
Qed.

Lemma masked_NoDup {A} (a : list A) mask : NoDup a -> NoDup (masked a mask).
Proof.
  revert a. induction mask as [|m mask IH]; intros [|u a] Hnd; try (constructor; done). 
  apply NoDup_cons in Hnd as [Hu Hnd]. rewrite masked_cons. destruct m; [|by apply IH].
  apply NoDup_cons. split; [|by apply IH]. intros (j & Hj & _)%masked_in. apply Hu. by apply list_elem_of_lookup_2 in Hj.
Qed.

(** ** What the drafter promises *)

Section Drafts.
Context {F H E : Type} `{!Ordered F} `{!Drafter F H E}.
Variable cell : nat -> list E -> Z * H -> E * H.

(** The layer that makes the pass [step], and what each layer promises of its passes on its own cache: layer 0 takes the
    runner's batches, and any of them the later passes. *)
Definition layer_of (step : Z) : nat := Z.to_nat (step mod num_mtp_layers).

Class DrafterOk (latents : bool) := {
  do_layers : (0 < num_mtp_layers)%Z;
  do_batch : BatchPassOk (cell 0) latents (fun l ps => mtp_layer 0 l.*1 ps l.*2);
  do_step k : (Z.of_nat k < num_mtp_layers)%Z -> StepPassOk (cell k) (fun l ps => mtp_layer (Z.of_nat k) l.*1 ps l.*2);
  do_graph k : (Z.of_nat k < num_mtp_layers)%Z -> GraphPassOk (cell k) (fun l ps => mtp_layer (Z.of_nat k) l.*1 ps l.*2);
  do_hook c size d : wp (before_full_graph_replay c size) d (fun _ d' => d' = d)
}.

(** A row's state between passes: what each layer's cache has at its positions, its last draft, and the hidden state beside it. *)
Record DraftState := { ds_entries : nat -> list E; ds_token : Z; ds_hidden : H }.

Definition choose (h : H) : Z := argmax_row (drafter_head h).

(** The pass [step]: the draft at the next position, or the last the model has. *)
Definition draft_position (max_len pos step : Z) : Z := Z.min (pos + step) (max_len - 1).

Definition draft_cell (max_len pos step : Z) (st : DraftState) : E * H :=
  cell (layer_of step) (take (Z.to_nat (draft_position max_len pos step)) (ds_entries st (layer_of step))) (ds_token st, ds_hidden st).

(** A position's entry written over what was there. *)
Definition put_entry (q : nat) (e : E) (es : list E) : list E := take q es ++ e :: drop (S q) es.

Definition draft_next (max_len pos step : Z) (st : DraftState) : DraftState :=
  let c := draft_cell max_len pos step st in
  {| ds_entries k := if k =? layer_of step then put_entry (Z.to_nat (draft_position max_len pos step)) c.1 (ds_entries st k)
                     else ds_entries st k;
     ds_token := choose c.2; ds_hidden := c.2 |}.

(** The drafts of a row, one after the other: [n] more after the state's. *)
Fixpoint draft_chain (max_len pos : Z) (n : nat) (step : Z) (st : DraftState) : list Z :=
  ds_token st :: match n with O => [] | S n' => draft_chain max_len pos n' (step + 1) (draft_next max_len pos step st) end.

(** With one layer, what is past the position before the next draft makes no difference. *)
Lemma one_layer_chain max_len pos n step st st' : num_mtp_layers = 1%Z -> ds_token st = ds_token st' -> ds_hidden st = ds_hidden st' ->
  let q := Z.to_nat (draft_position max_len pos step) in
  take q (ds_entries st 0) = take q (ds_entries st' 0) -> q <= length (ds_entries st 0) -> q <= length (ds_entries st' 0) ->
  draft_chain max_len pos n step st = draft_chain max_len pos n step st'.
Proof.
  intros Hn. revert step st st'. induction n as [|n IH]; intros step st st' Ht Hh q He Hl Hl'; cbn [draft_chain]; rewrite Ht; [done|]. f_equal.
  assert (Hk : layer_of step = 0) by (unfold layer_of; by rewrite Hn, Z.mod_1_r).
  assert (Hc : draft_cell max_len pos step st = draft_cell max_len pos step st').
  { unfold draft_cell. rewrite Hk. fold q. by rewrite He, Ht, Hh. }
  assert (Hq : Z.to_nat (draft_position max_len pos (step + 1)) <= S q) by (unfold q, draft_position; lia).
  assert (Htake : forall x, q <= length (ds_entries x 0) -> forall e, take (S q) (put_entry q e (ds_entries x 0)) = take q (ds_entries x 0) ++ [e]).
  { intros x Hx e. unfold put_entry. rewrite take_app. rewrite length_take. replace (S q - q `min` length (ds_entries x 0)) with 1 by lia.
    rewrite take_take. by replace (S q `min` q) with q by lia. }
  apply IH; unfold draft_next; rewrite ?Hc; cbn [ds_token ds_hidden ds_entries]; rewrite ?Hk; try done; cbn [Nat.eqb]; fold q.
  - assert (Hmin : forall l : list E, take (Z.to_nat (draft_position max_len pos (step + 1))) l = take (Z.to_nat (draft_position max_len pos (step + 1))) (take (S q) l))
      by (intros l; rewrite take_take; f_equal; lia).
    rewrite (Hmin (put_entry _ _ (ds_entries st 0))), (Hmin (put_entry _ _ (ds_entries st' 0))), !Htake by done. by rewrite He.
  - unfold put_entry. rewrite length_app, length_cons, length_drop, length_take. lia.
  - unfold put_entry. rewrite length_app, length_cons, length_drop, length_take. lia.
Qed.

(** ** The passes after the first *)

Record DraftRow := { dw_table : list Z; dw_pos : Z }.

Section Steps.
Context {latents : bool} `{!DrafterOk latents}.
Variable max_len bs K max_position : Z.
Variable rows : list DraftRow.
Variable geometry : Pages E.

Local Abbreviation pos_at step x := (draft_position max_len (dw_pos x) step).
Definition limit (x : DraftRow) : Z := pos_at (K - 1) x + 1.

(** Tables that reach the last draft, at slots of their own. *)
Record RowsPlaced : Prop := {
  rp_some : rows <> [];
  rp_len : (1 <= max_len)%Z;
  rp_size : (0 < bs)%Z /\ Z.of_nat (pg_size geometry) = bs;
  rp_pos x : x ∈ rows -> (0 <= dw_pos x <= max_position)%Z /\ (dw_pos x < max_len)%Z;
  rp_tables : exists w, Forall (fun x => Zlen (dw_table x) = w) rows;
  rp_ids : Forall (fun x => Forall (fun b => (b < Z.of_nat (length (pg_blocks geometry)))%Z) (dw_table x)) rows;
  rp_mapped x p : x ∈ rows -> (Z.of_nat p < limit x)%Z -> is_Some (table_slot geometry (dw_table x) p);
  rp_own i j x y p q s : rows !! i = Some x -> rows !! j = Some y -> (pos_at 1 x <= Z.of_nat p < limit x)%Z -> (Z.of_nat q < limit y)%Z ->
    table_slot geometry (dw_table x) p = Some s -> table_slot geometry (dw_table y) q = Some s -> i = j /\ p = q
}.
Hypothesis Hplaced : RowsPlaced.

Variable gbs pbs : list Z.

(** Buffers of one size that hold every captured one, and tables that reach the model's length. *)
Record GraphVarsOk (v : DraftGraphVars H) (graphs : list (Z * Z)) : Prop := {
  gv_sizes : exists n, length (dg_input_ids v) = n /\ length (dg_positions v) = n /\ length (dg_hidden_states v) = n /\
    length (dg_slot_mapping v) = n /\ length (dg_context_lens v) = n /\ length (dg_block_tables v) = n /\ length (dg_outputs v) = n /\
    Forall (fun b => (0 < b <= Z.of_nat n)%Z /\ forall step, (1 <= step <= K - 1)%Z -> (step mod num_mtp_layers, b)%Z ∈ graphs) gbs;
  gv_tables : exists w, Forall (fun t => Zlen t = w) (dg_block_tables v) /\ (max_len <= w * bs)%Z
}.

Record PiecewiseVarsOk (v : PiecewiseVars H) : Prop := {
  wv_sizes : exists n, length (pv_input_ids v) = n /\ length (pv_positions v) = n /\ length (pv_hidden_states v) = n /\
    Forall (fun b => (b <= Z.of_nat n)%Z) pbs
}.

(** A proposer of these constants, with what it has captured. *)
Record ProposerOk (p : Proposer H E) : Prop := {
  po_k : pp_num_speculative_tokens p = K;
  po_bs : pp_block_size p = bs;
  po_len : pp_max_model_len p = max_len;
  po_graph_bs : pp_graph_bs p = gbs;
  po_graphs : gbs <> [] -> exists v, pp_graph_vars p = Some v /\ GraphVarsOk v (pp_graphs p);
  po_piecewise_bs : pp_piecewise_bs p = pbs;
  po_piecewise : pbs <> [] -> exists v, pp_piecewise_vars p = Some v /\ PiecewiseVarsOk v
}.

Definition of_geometry (c : Pages E) : Prop :=
  PagesOk (fun _ => True) c /\ pg_size c = pg_size geometry /\ length (pg_blocks c) = length (pg_blocks geometry).

Lemma slot_geometry c t p : of_geometry c -> table_slot c t p = table_slot geometry t p.
Proof using. clear. intros (_ & Hs & _). by apply table_slot_size. Qed.

(** A layer's cache holds what a row's state says of it. *)
Definition LayerOk (k : nat) (c : Pages E) (x : DraftRow * DraftState) : Prop :=
  Z.of_nat (length (ds_entries x.2 k)) = limit x.1 /\ Holds c (dw_table x.1) (ds_entries x.2 k).

Definition StateOk (caches : list (Pages E)) (x : DraftRow * DraftState) : Prop := forall k c, caches !! k = Some c -> LayerOk k c x.

Definition LayersOk (caches : list (Pages E)) : Prop :=
  length caches = Z.to_nat num_mtp_layers /\ forall k c, caches !! k = Some c -> of_geometry c.

(** Every layer's cache keeps these slots. *)
Definition KeepsSlots (P : Z -> Prop) (caches caches' : list (Pages E)) : Prop :=
  forall k c c' slot, caches !! k = Some c -> caches' !! k = Some c' -> (0 <= slot)%Z -> P slot -> slot_entry c' slot = slot_entry c slot.

Definition pass_row (step : Z) (x : DraftRow * DraftState) : PassRow H E :=
  {| pr_old := take (Z.to_nat (pos_at step x.1)) (ds_entries x.2 (layer_of step)); pr_new := [(ds_token x.2, ds_hidden x.2)];
     pr_table := dw_table x.1 |}.

Definition next_state (step : Z) (x : DraftRow * DraftState) : DraftRow * DraftState :=
  (x.1, draft_next max_len (dw_pos x.1) step x.2).

Section AtStep.
Variable step : Z.
Hypothesis Hstep : (1 <= step <= K - 1)%Z.
Local Abbreviation layer := (layer_of step).

Lemma layer_bound : (Z.of_nat layer < num_mtp_layers)%Z /\ Z.of_nat layer = (step mod num_mtp_layers)%Z.
Proof using DrafterOk0. pose proof do_layers. unfold layer_of. pose proof (Z.mod_pos_bound step num_mtp_layers). lia. Qed.

Lemma pos_at_bounds x : x ∈ rows -> (0 <= pos_at step x <= pos_at (step - 1) x + 1)%Z /\ (pos_at 1 x <= pos_at step x < limit x)%Z.
Proof using Hplaced Hstep.
  intros Hx. destruct (rp_pos Hplaced x Hx) as [Hp Hm]. pose proof (rp_len Hplaced). unfold limit, draft_position. lia.
Qed.

(** The pass's positions and context. *)
Definition step_slots : list Z := (fun x => default 0%Z (table_slot geometry (dw_table x) (Z.to_nat (pos_at step x)))) <$> rows.

Definition step_fields : Fields :=
  let lens := (fun x => pos_at step x + 1)%Z <$> rows in
  default_Fields <| cx_max_seqlen_q := 1%Z |> <| cx_cu_seqlens_q := Some (arange (Zlen rows + 1)) |>
    <| cx_cu_seqlens_q_host := Some (arange (Zlen rows + 1)) |> <| cx_cu_seqlens_k := Some (cumulative lens) |>
    <| cx_max_seqlen_k := (Z.min (max_position + step) (max_len - 1) + 1)%Z |> <| cx_slot_mapping := Some step_slots |>
    <| cx_context_lens := Some lens |> <| cx_block_tables := Some (dw_table <$> rows) |>.

Lemma slot_at x : x ∈ rows -> exists b, dw_table x !! Z.to_nat (pos_at step x / bs) = Some b /\ (0 <= b)%Z /\
  table_slot geometry (dw_table x) (Z.to_nat (pos_at step x)) = Some (b * bs + pos_at step x mod bs)%Z.
Proof using Hplaced Hstep.
  intros Hx. destruct (pos_at_bounds x Hx) as [Hb H1]. destruct (rp_size Hplaced) as [Hbs Hsz].
  destruct (rp_mapped Hplaced x (Z.to_nat (pos_at step x)) Hx ltac:(lia)) as [s Hs]. pose proof Hs as Hs'.
  unfold table_slot in Hs. rewrite <-Hsz. set (q := pos_at step x) in *.
  assert (Hq : q = Z.of_nat (Z.to_nat q)) by lia. rewrite Hq, <-Nat2Z.inj_div, <-Nat2Z.inj_mod, !Nat2Z.id by lia.
  destruct (dw_table x !! (Z.to_nat q / pg_size geometry)) as [b|] eqn:Hlk; [|done]. simpl in Hs.
  destruct (Z.leb_spec 0 b); [|done]. injection Hs as <-. by exists b.
Qed.

Lemma step_context_spec {S} p (st : S) Q : ProposerOk p -> Q (((fun x => pos_at step x) <$> rows), step_fields) st ->
  wp (step_context p (dw_pos <$> rows) (Some (dw_table <$> rows)) (arange (Zlen rows + 1)) max_position step) st Q.
Proof using Hplaced Hstep.
  intros [_ Hbs Hlen _ _ _ _] HQ. unfold step_context. rewrite Hbs, Hlen, <-!list_fmap_compose.
  apply wp_bind, wp_or_raise with ((fun x => default 0%Z (dw_table x !! Z.to_nat (pos_at step x / bs))) <$> rows).
  - rewrite zip_with_same. apply mapM_Some_2, Forall2_fmap, Forall_Forall2_diag, Forall_forall. intros x Hx.
    destruct (slot_at x Hx) as (b & Hb & H0 & _). destruct (pos_at_bounds x Hx) as [Hp _]. destruct (rp_size Hplaced).
    cbn [fst snd]. unfold compose. fold (draft_position max_len (dw_pos x) step). destruct (Z.ltb_spec (pos_at step x) 0); [lia|].
    rewrite py_get_lookup by (apply Z.div_pos; lia). by rewrite Hb.
  - assert (Hpos : ((fun q => Z.min (q + step) (max_len - 1)) ∘ dw_pos) <$> rows = (fun x => pos_at step x) <$> rows) by done.
    rewrite Hpos, zip_with_same.
    assert (Hcu : Zlen (arange (Zlen rows + 1)) = (Zlen rows + 1)%Z) by (unfold arange, Zlen; rewrite length_seqZ; lia).
    rewrite Hcu. apply wp_ret.
    assert (Hsl : (fun x => (default 0 (dw_table x !! Z.to_nat (pos_at step x / bs)) * bs + pos_at step x mod bs)%Z) <$> rows = step_slots).
    { apply list_fmap_ext. intros _ x Hx%list_elem_of_lookup_2. destruct (slot_at x Hx) as (b & -> & _ & ->). done. }
    rewrite Hsl. exact HQ.
Qed.

Section Pass.
Variable states : list (DraftRow * DraftState).
Hypothesis Hrows : states.*1 = rows.
Variable c : Pages E.
Hypothesis Hc : of_geometry c.
Hypothesis Hstates : Forall (LayerOk layer c) states.

Lemma state_row x : x ∈ states -> x.1 ∈ rows.
Proof using Hrows. clear -Hrows. intros Hx. rewrite <-Hrows. by apply list_elem_of_fmap_2. Qed.

Lemma pass_row_old x : x ∈ states -> Z.of_nat (old_len (pass_row step x)) = pos_at step x.1 /\ row_len (pass_row step x) = (pos_at step x.1 + 1)%Z.
Proof using Hplaced Hrows Hstates Hstep.
  intros Hx. rewrite Forall_forall in Hstates. destruct (Hstates x Hx) as [Hl _].
  destruct (pos_at_bounds x.1 (state_row x Hx)) as (Hb & Hlim).
  unfold row_len, old_len, new_len. simpl. rewrite length_take. lia.
Qed.

Lemma pass_rows_slots : row_slots c (pass_row step <$> states) =
  (fun x => default 0%Z (table_slot geometry (dw_table x) (Z.to_nat (pos_at step x)))) <$> rows.
Proof using Hplaced Hrows Hc Hstates Hstep.
  unfold row_slots. rewrite <-Hrows, <-!list_fmap_compose. assert (Hin : forall x, x ∈ states -> x ∈ states) by done. revert Hin.
  generalize states at 1 3 4. intros l Hin. induction l as [|x l IH]; [done|]. rewrite !fmap_cons. cbn [concat].
  rewrite IH by (intros y Hy; apply Hin; by constructor). destruct (pass_row_old x (Hin x ltac:(constructor))) as [Ho _].
  unfold compose, slots_of. cbn [new_len pass_row pr_new length seq fmap list_fmap app pr_table]. rewrite (slot_geometry c) by done.
  replace (old_len (pass_row step x)) with (Z.to_nat (pos_at step x.1)) by lia. done.
Qed.

(** The pass's rows are ready. *)
Lemma pass_rows_ready : RowsReady c (pass_row step <$> states).
Proof using Hplaced Hrows Hc Hstates Hstep.
  pose proof pass_rows_slots as Hsl. unfold row_slots in Hsl.
  assert (Hmap : forall x p, x ∈ rows -> (Z.of_nat p <= pos_at step x)%Z -> is_Some (table_slot geometry (dw_table x) p)).
  { intros x p Hx Hp. apply (rp_mapped Hplaced); [done|]. destruct (pos_at_bounds x Hx). lia. }
  assert (Hat : forall x, x ∈ rows -> exists s, table_slot geometry (dw_table x) (Z.to_nat (pos_at step x)) = Some s).
  { intros x Hx. apply Hmap; [done|]. destruct (pos_at_bounds x Hx). lia. }
  split.
  - intros He. apply (rp_some Hplaced). rewrite <-Hrows. apply fmap_nil_inv in He. by rewrite He.
  - apply Forall_fmap, Forall_forall. intros x _. unfold new_len. simpl. lia.
  - apply Hc.
  - split.
    + intros r p (x & -> & Hx)%list_elem_of_fmap Hp. destruct (pass_row_old x Hx) as [_ Hl]. unfold row_len in Hl.
      cbn [pass_row pr_table]. rewrite (slot_geometry c) by done. apply Hmap; [by apply state_row|]. lia.
    + rewrite Hsl. apply NoDup_fmap_2_strong; [|].
      * intros x y Hx Hy He. destruct (Hat x Hx) as [s Hs]. destruct (Hat y Hy) as [s' Hs']. rewrite Hs, Hs' in He. simpl in He. subst s'.
        apply list_elem_of_lookup in Hx as [i Hi]. apply list_elem_of_lookup in Hy as [j Hj].
        pose proof (list_elem_of_lookup_2 _ _ _ Hi) as Hx. pose proof (list_elem_of_lookup_2 _ _ _ Hj) as Hy.
        destruct (pos_at_bounds x Hx) as [Hb H1]. destruct (pos_at_bounds y Hy) as [Hb' H2].
        destruct (rp_own Hplaced i j x y (Z.to_nat (pos_at step x)) (Z.to_nat (pos_at step y)) s Hi Hj ltac:(lia) ltac:(lia) Hs Hs') as [-> _]. congruence.
      * apply NoDup_alt. intros i j x Hi Hj. pose proof (list_elem_of_lookup_2 _ _ _ Hi) as Hx. destruct (Hat x Hx) as [s Hs].
        destruct (pos_at_bounds x Hx) as [Hb H1].
        by destruct (rp_own Hplaced i j x x (Z.to_nat (pos_at step x)) (Z.to_nat (pos_at step x)) s Hi Hj ltac:(lia) ltac:(lia) Hs Hs).
    + intros r p s (x & -> & Hx)%list_elem_of_fmap Hp Hs Hin. rewrite Hsl in Hin. apply list_elem_of_fmap in Hin as (y & -> & Hy).
      destruct (Hat y Hy) as [s Hs']. rewrite Hs' in Hs. simpl in Hs. cbn [pass_row pr_table] in Hs. rewrite (slot_geometry c) in Hs by done.
      destruct (pass_row_old x Hx) as [Ho _]. pose proof (state_row x Hx) as Hxr.
      apply list_elem_of_lookup in Hxr as [j Hj]. pose proof (list_elem_of_lookup_2 _ _ _ Hj) as Hxr. apply list_elem_of_lookup in Hy as [i Hi]. pose proof (list_elem_of_lookup_2 _ _ _ Hi) as Hy.
      destruct (pos_at_bounds y Hy) as [Hb H1]. destruct (pos_at_bounds x.1 Hxr) as [Hb' H2].
      destruct (rp_own Hplaced i j y x.1 (Z.to_nat (pos_at step y)) p s Hi Hj ltac:(lia) ltac:(lia) Hs' Hs) as [-> He]. rewrite Hj in Hi. injection Hi as <-. lia.
  - apply Forall_fmap, Forall_forall. intros x Hx p e He. rewrite Forall_forall in Hstates. destruct (Hstates x Hx) as [_ Hh].
    apply lookup_take_Some in He as [He _]. by apply Hh.
  - unfold row_slots. rewrite Hsl. apply Forall_fmap, Forall_forall. intros x Hx. destruct (Hat x Hx) as [s Hs]. unfold compose. rewrite Hs. simpl.
    destruct Hc as (Hpg & Hcs & Hcb). split; [by eapply table_slot_nonneg|].
    assert (Hn : numel c = numel geometry) by (unfold numel; by rewrite Hcs, Hcb). rewrite Hn. eapply table_slot_bound; [| |exact Hs].
    + destruct Hpg as [Hpg _]. by rewrite <-Hcs.
    + pose proof (rp_ids Hplaced) as Hids. rewrite Forall_forall in Hids. by apply Hids.
Qed.

(** The pass's context describes its rows. *)
Lemma step_rows : StepRows c step_fields (pass_row step <$> states).
Proof using Hplaced Hrows Hc Hstates Hstep.
  assert (Hlen : Zlen (pass_row step <$> states) = Zlen rows) by (unfold Zlen; by rewrite <-Hrows, !length_fmap).
  assert (Hlens : row_len <$> (pass_row step <$> states) = (fun x => pos_at step x + 1)%Z <$> rows).
  { rewrite <-Hrows, <-!list_fmap_compose. apply list_fmap_ext. intros _ x Hx%list_elem_of_lookup_2. by apply pass_row_old. }
  assert (Hin : forall r, r ∈ pass_row step <$> states -> exists x, x ∈ rows /\ pr_table r = dw_table x /\ row_len r = (pos_at step x + 1)%Z).
  { intros r (x & -> & Hx)%list_elem_of_fmap. exists x.1. split_and!; [by apply state_row|done|by apply pass_row_old]. }
  destruct (rp_tables Hplaced) as [w Hw]. destruct (rp_size Hplaced) as [Hbs Hsz]. pose proof (rp_ids Hplaced) as Hids.
  rewrite Forall_forall in Hw. rewrite Forall_forall in Hids. destruct Hc as (_ & Hcs & Hcb). split; rewrite ?Hlen, ?Hlens; try done.
  - by apply Forall_fmap, Forall_forall.
  - split_and!; [done|done|]. apply Forall_forall. intros r (x & Hx & _ & ->)%Hin. destruct (rp_pos Hplaced x Hx).
    simpl. unfold draft_position. lia.
  - split_and!.
    + simpl. f_equal. by rewrite <-Hrows, <-!list_fmap_compose.
    + exists w. apply Forall_forall. intros r (x & Hx & -> & ->)%Hin. split; [by apply Hw|].
      destruct (slot_at x Hx) as (b & Hb & _). destruct (pos_at_bounds x Hx) as [H0 _]. apply lookup_lt_Some in Hb.
      specialize (Hw x Hx). simpl in Hw. unfold Zlen in Hw. rewrite Hcs, Hsz.
      assert (pos_at step x / bs < w)%Z by (pose proof (Z.div_pos (pos_at step x) bs); lia).
      pose proof (Z.mul_succ_div_gt (pos_at step x) bs Hbs). nia.
    + apply Forall_forall. intros r (x & Hx & -> & _)%Hin. rewrite Hcb. by apply Hids.
  - simpl. f_equal. symmetry. by apply pass_rows_slots.
Qed.

(** What the pass gives. *)
Local Abbreviation nexts := (next_state step <$> states).
Definition PassedTo (c' : Pages E) : Prop :=
  Stored c (row_slots c (pass_row step <$> states)) (concat ((fun r => (pass_cells (cell layer) r).*1) <$> (pass_row step <$> states))) c'.

Lemma pass_tokens : concat (pr_new <$> (pass_row step <$> states)) = (fun x => (ds_token x.2, ds_hidden x.2)) <$> states.
Proof using. clear. induction states as [|x l IH]; [done|]. rewrite !fmap_cons. cbn [concat]. by rewrite IH. Qed.

Lemma pass_positions : concat (row_positions <$> (pass_row step <$> states)) = (fun x => pos_at step x) <$> rows.
Proof using Hplaced Hrows Hstates Hstep.
  rewrite <-Hrows, <-list_fmap_compose. assert (Hin : forall x, x ∈ states -> x ∈ states) by done. revert Hin.
  generalize states at 1 3 4. intros l Hin. induction l as [|x l IH]; [done|]. rewrite !fmap_cons. cbn [concat].
  rewrite IH by (intros y Hy; apply Hin; by constructor). destruct (pass_row_old x (Hin x ltac:(constructor))) as [Ho _].
  unfold row_positions, compose. by rewrite Ho.
Qed.

Lemma pass_outputs : concat ((fun r => (pass_cells (cell layer) r).*2) <$> (pass_row step <$> states)) = ds_hidden ∘ snd <$> nexts.
Proof using. clear. induction states as [|x l IH]; [done|]. rewrite !fmap_cons. cbn [concat]. by rewrite IH. Qed.

(** The rows' entries of this layer after it. *)
Lemma passed_layer c' : PassedTo c' -> PagesOk (fun _ => True) c' -> of_geometry c' /\ Forall (LayerOk layer c') nexts.
Proof using Hplaced Hrows Hc Hstates Hstep.
  intros Hp Hpg. pose proof pass_rows_ready as Hready. pose proof Hc as (_ & Hcs & Hcb). pose proof Hp as [Hs Hb _ Hold].
  assert (Hg : of_geometry c') by (split_and!; [done|lia|lia]). split; [done|].
  apply Forall_fmap, Forall_forall. intros x Hx. destruct (pass_row_old x Hx) as [Ho _]. unfold old_len in Ho. cbn [pass_row pr_old] in Ho.
  pose proof Hstates as Hall. rewrite Forall_forall in Hall. destruct (Hall x Hx) as [Hl Hh]. pose proof (state_row x Hx) as Hxr.
  destruct (pos_at_bounds x.1 Hxr) as [Hb0 Hb1]. set (q := Z.to_nat (pos_at step x.1)) in *.
  split; cbn [next_state fst snd draft_next ds_entries]; rewrite Nat.eqb_refl; fold q; unfold put_entry.
  - rewrite length_app, length_cons, length_drop. lia.
  - intros p e He. destruct (Nat.lt_trichotomy p q) as [Hlt|[->|Hgt]].
    + apply (pass_held (cell layer) c c' (pass_row step <$> states) (pass_row step x) Hready Hp); [by apply list_elem_of_fmap_2|].
      rewrite lookup_app_l in He by lia. cbn [pass_row pr_old]. fold q. rewrite lookup_app_l by lia. exact He.
    + apply (pass_held (cell layer) c c' (pass_row step <$> states) (pass_row step x) Hready Hp); [by apply list_elem_of_fmap_2|].
      rewrite lookup_app_r in He by lia. cbn [pass_row pr_old]. fold q. rewrite lookup_app_r by lia.
      rewrite length_take in He |- *. replace (q - q `min` length (ds_entries x.2 layer)) with 0 in He |- * by lia. exact He.
    + rewrite lookup_app_r in He by lia. rewrite length_take in He. replace (p - q `min` length (ds_entries x.2 layer)) with (S (p - S q)) in He by lia.
      cbn [lookup list_lookup] in He. change (drop (S q) (ds_entries x.2 layer) !! (p - S q) = Some e) in He. rewrite lookup_drop in He.
      replace (S q + (p - S q)) with p in He by lia. destruct (Hh p e He) as (s & Hsl & Hse). pose proof (lookup_lt_Some _ _ _ He) as Hlt.
      exists s. rewrite (slot_geometry c') by done. rewrite (slot_geometry c) in Hsl by done. split; [done|]. rewrite Hold; [done|by eapply table_slot_nonneg|].
      rewrite pass_rows_slots. intros (y & He' & Hy)%list_elem_of_fmap.
      destruct (pos_at_bounds y Hy) as [Hy0 Hy1]. destruct (rp_mapped Hplaced y (Z.to_nat (pos_at step y)) Hy ltac:(lia)) as [s' Hs']. rewrite Hs' in He'. simpl in He'. subst s'.
      apply list_elem_of_lookup in Hy as [i Hi]. apply list_elem_of_lookup in Hxr as [j Hj].
      destruct (rp_own Hplaced i j y x.1 (Z.to_nat (pos_at step y)) p s Hi Hj ltac:(lia) ltac:(lia) Hs' Hsl) as [-> Hp'].
      assert (y = x.1) as -> by congruence. unfold q in Hgt. lia.
Qed.

(** The slots that it writes are those of the rows' later positions. *)
Definition drafted_slot (slot : Z) : Prop :=
  exists x p, x ∈ rows /\ (pos_at 1 x <= Z.of_nat p < limit x)%Z /\ table_slot geometry (dw_table x) p = Some slot.

Lemma passed_others c' slot : PassedTo c' -> (0 <= slot)%Z -> ~ drafted_slot slot -> slot_entry c' slot = slot_entry c slot.
Proof using Hplaced Hrows Hc Hstates Hstep.
  intros [_ _ _ Hold] H0 Hn. apply Hold; [done|]. rewrite pass_rows_slots. intros (x & -> & Hx)%list_elem_of_fmap. apply Hn.
  destruct (pos_at_bounds x Hx) as [Hb H1]. exists x, (Z.to_nat (pos_at step x)). split_and!; [done|lia|lia|].
  destruct (rp_mapped Hplaced x (Z.to_nat (pos_at step x)) Hx ltac:(lia)) as [s Hs]. by rewrite Hs.
Qed.

Local Abbreviation tokens := (ds_token ∘ snd <$> states).
Local Abbreviation positions := ((fun x => pos_at step x) <$> rows).
Local Abbreviation hiddens := (ds_hidden ∘ snd <$> states).

Lemma pass_split pads (ids : list Z) (hs : list H) : length ids = pads -> length hs = pads ->
  (((fun x : DraftRow * DraftState => (ds_token x.2, ds_hidden x.2)) <$> states) ++ zip ids hs).*1 = tokens ++ ids /\
  (((fun x : DraftRow * DraftState => (ds_token x.2, ds_hidden x.2)) <$> states) ++ zip ids hs).*2 = hiddens ++ hs.
Proof using.
  clear. intros Hi Hh. rewrite !fmap_app, fst_zip, snd_zip, <-!list_fmap_compose by lia. done.
Qed.

(** The layer's pass, among the layers' caches. *)
Variable caches : list (Pages E).
Hypothesis Hlayer : caches !! layer = Some c.

Lemma wp_drafter at_step (ids ps : list Z) (hs : list H) d Q : (at_step mod num_mtp_layers = Z.of_nat layer)%Z -> dv_cache d = caches ->
  wp (mtp_layer (Z.of_nat layer) ids ps hs) {| dv_cache := c; dv_context := dv_context d |}
    (fun o x => Q o {| dv_cache := <[layer := dv_cache x]> caches; dv_context := dv_context x |}) ->
  wp (drafter at_step ids ps hs) d Q.
Proof using Hlayer DrafterOk0.
  intros Hk Hd Hp. unfold drafter. pose proof do_layers. destruct (Z.eqb_spec num_mtp_layers 0); [lia|]. rewrite Hk. unfold on_layer. wp_steps.
  rewrite Hd. apply wp_or_raise with c; [by rewrite py_get_nth|]. apply wp_zoom. rewrite Nat2Z.id. eapply wp_mono; [exact Hp|]. intros o x HQ. by rewrite Hd.
Qed.

(** Eagerly. *)
Lemma eager_pass (p : Proposer H E) : pp_device p = {| dv_cache := caches; dv_context := fresh step_fields |} ->
  wp (on_device (drafter step tokens positions hiddens)) p (fun o p' => o = ds_hidden ∘ snd <$> nexts /\
    exists d c', p' = p <| pp_device := d |> /\ dv_cache d = <[layer := c']> caches /\ PassedTo c' /\ PagesOk (fun _ => True) c' /\
    cx_fields (dv_context d) = step_fields).
Proof using Hplaced Hrows Hc Hstates Hstep Hlayer DrafterOk0.
  intros Hd. destruct layer_bound as [Hb He]. unfold on_device. apply wp_zoom. rewrite Hd. apply wp_drafter; [done|done|].
  pose proof (do_step layer Hb c step_fields (pass_row step <$> states) pass_rows_ready step_rows [] [] eq_refl eq_refl) as Hp.
  rewrite pass_tokens, pass_positions in Hp. destruct (pass_split 0 [] [] eq_refl eq_refl) as [H1 H2]. cbn [zip_with] in H1, H2.
  rewrite H1, H2, !app_nil_r in Hp.
  eapply wp_mono; [exact Hp|]. intros o d (rest & -> & Hrest & Hst & Hpg & Hx). apply length_zero_iff_nil in Hrest as ->.
  rewrite app_nil_r, pass_outputs. split; [done|]. by eexists _, (dv_cache d).
Qed.

(** In a full graph. *)
Lemma states_length : length states = length rows.
Proof using Hrows. clear -Hrows. by rewrite <-Hrows, length_fmap. Qed.

Lemma pass_places : step_slots = row_slots c (pass_row step <$> states).
Proof using Hplaced Hrows Hc Hstates Hstep. symmetry. by apply pass_rows_slots. Qed.

Lemma wp_with_context {A} (f : Fields) (body : M (Proposer H E) A) p Q :
  wp body (p <| pp_device ::= fun d => d <| dv_context := fresh f |> |>)
    (fun a p' => Q a (p' <| pp_device ::= fun d => d <| dv_context := dv_context (pp_device p) |> |>)) -> wp (with_context f body) p Q.
Proof using. unfold wp, with_context. by destruct (body _) as [[e|a] p']. Qed.

Lemma set_device {C} (d : Device C) x : d <| dv_context := x |> = {| dv_cache := dv_cache d; dv_context := x |}.
Proof using. done. Qed.

Local Abbreviation prows := (pass_row step <$> states).

Lemma pass_tables : pr_table <$> prows = dw_table <$> rows.
Proof using Hrows. clear -Hrows. rewrite <-Hrows, <-!list_fmap_compose. done. Qed.

Lemma pass_lens : row_len <$> prows = (fun x => pos_at step x + 1)%Z <$> rows.
Proof using Hplaced Hrows Hstates Hstep.
  rewrite <-Hrows, <-!list_fmap_compose. apply list_fmap_ext. intros _ x Hx%list_elem_of_lookup_2. by apply pass_row_old.
Qed.

Lemma pass_ones : Forall (fun r => new_len r = 1) prows.
Proof using. clear. apply Forall_fmap, Forall_forall. by intros x _. Qed.

(** What a graph's buffers hold for the pass. *)
Record Filled (v : DraftGraphVars H) (b : Z) (k : nat) (tables pad_tables : list (list Z)) (width : Z) : Prop := {
  fl_size : b = Z.of_nat (length rows + k) /\ length rows + k <= length (dg_outputs v) /\ length pad_tables = k;
  fl_ids : exists rest, py_upto (dg_input_ids v) b = tokens ++ rest /\ length rest = k;
  fl_positions : exists rest, py_upto (dg_positions v) b = positions ++ rest /\ length rest = k;
  fl_hiddens : exists rest, py_upto (dg_hidden_states v) b = hiddens ++ rest /\ length rest = k;
  fl_context : graph_context b v = graph_fields c prows 1 tables pad_tables;
  fl_covering : covering c prows tables width
}.

Lemma graph_pass_ok (p : Proposer H E) v b k tables pad_tables width : pp_graph_vars p = Some v -> dv_cache (pp_device p) = caches ->
  Filled v b k tables pad_tables width ->
  wp (graph_pass (step mod num_mtp_layers) b) p (fun _ p' => exists d c' rest,
    p' = p <| pp_device := d |> <| pp_graph_vars := Some (v <| dg_outputs := (ds_hidden ∘ snd <$> nexts) ++ rest |>) |> /\
    length ((ds_hidden ∘ snd <$> nexts) ++ rest) = length (dg_outputs v) /\
    dv_cache d = <[layer := c']> caches /\ PassedTo c' /\ PagesOk (fun _ => True) c' /\ dv_context d = dv_context (pp_device p)).
Proof using Hplaced Hrows Hc Hstates Hstep Hlayer DrafterOk0.
  destruct layer_bound as [Hlb Hle]. intros Hv Hcache [(Hb & Ho & Hk) (ri & Hi & Li) (rp & Hp & Lp) (rh & Hh & Lh) Hx Hcov].
  pose proof (graph_passes (cell layer) c prows _ 1 tables pad_tables width (do_graph layer Hlb) pass_rows_ready pass_ones Hcov (zip ri rh) rp) as Hpass.
  rewrite length_zip_with, Hk, Nat.mul_1_r, Lp in Hpass. specialize (Hpass ltac:(lia) ltac:(done)).
  rewrite pass_tokens, pass_positions, pass_outputs in Hpass. destruct (pass_split k ri rh Li Lh) as [E1 E2]. rewrite E1, E2 in Hpass.
  unfold graph_pass. wp_steps. change (id p) with p. rewrite Hv. apply wp_or_raise with v; [done|]. apply wp_bind, wp_with_context.
  unfold on_device. apply wp_zoom. rewrite Hi, Hp, Hh, Hx. cbn [update_field pp_device].
  rewrite set_device, Hcache. apply wp_drafter; [by rewrite Zmod_mod|done|].
  eapply wp_mono; [exact Hpass|]. cbn beta. intros o d (rest & -> & Hrest & Hst & Hpg & Hx').
  assert (Hol : length ((ds_hidden ∘ snd <$> nexts) ++ rest) = length rows + k).
  { rewrite length_app, !length_fmap, Hrest, states_length. done. }
  rewrite Hb. apply wp_bind, copy_upto_ok; [unfold Zlen; lia|lia|]. apply wp_modify.
  exists {| dv_cache := <[layer := dv_cache d]> caches; dv_context := dv_context (pp_device p) |}, (dv_cache d), (rest ++ drop (length rows + k) (dg_outputs v)).
  rewrite app_assoc, Hol. split_and!; [done| |done..]. rewrite length_app, length_drop, Hol. lia.
Qed.

Lemma some_row : exists x, x ∈ rows.
Proof using Hplaced. pose proof (rp_some Hplaced) as Hne. clear -Hne. destruct rows as [|x l]; [done|]. exists x. constructor. Qed.

(** The columns that a replay copies: as many as both have, and enough for the pass. *)
Lemma copied_width (buffer : list (list Z)) w0 w : Forall (fun x => Zlen (dw_table x) = w0) rows -> Forall (fun t => Zlen t = w) buffer -> buffer <> [] ->
  (max_len <= w * bs)%Z -> (0 <= Z.min w0 w <= w)%Z /\ Forall (fun r => (Z.min w0 w <= Zlen (pr_table r))%Z) prows /\
    forall r, r ∈ prows -> ((row_len r - 1) / Z.of_nat (pg_size c) < Z.min w0 w <= Zlen (pr_table r))%Z.
Proof using Hplaced Hrows Hc Hstates Hstep.
  intros Hw0 Hw Hne Hmax. rewrite Forall_forall in Hw0.
  assert (H0 : (0 <= w)%Z) by (destruct buffer as [|t ?]; [done|]; apply Forall_cons in Hw as [<- _]; apply Zlen_nonneg).
  assert (Hat : forall r, r ∈ prows -> ((row_len r - 1) / Z.of_nat (pg_size c) < Z.min w0 w <= Zlen (pr_table r))%Z).
  { intros r (x & -> & Hx)%list_elem_of_fmap. destruct (pass_row_old x Hx) as [_ ->]. pose proof (state_row x Hx) as Hxr. specialize (Hw0 x.1 Hxr).
    destruct (slot_at x.1 Hxr) as (b & Hb & _). destruct (pos_at_bounds x.1 Hxr) as [Hp _]. destruct (rp_size Hplaced) as [Hbs Hsz].
    destruct Hc as (_ & Hcs & _). rewrite Hcs, Hsz. replace (pos_at step x.1 + 1 - 1)%Z with (pos_at step x.1) by lia.
    apply lookup_lt_Some in Hb. pose proof (Z.div_pos (pos_at step x.1) bs ltac:(lia) ltac:(lia)). simpl in Hw0. cbn [pass_row pr_table].
    assert (pos_at step x.1 / bs < w)%Z by (apply Z.div_lt_upper_bound; [lia|]; unfold draft_position; lia). unfold Zlen in *. lia. }
  split_and!; [|by apply Z.le_min_r| |done].
  - destruct some_row as [x Hx]. specialize (Hw0 x Hx). simpl in Hw0. pose proof (Zlen_nonneg (dw_table x)). lia.
  - apply Forall_forall. intros r Hr. by apply Hat.
Qed.

(** The buffers after a replay's copies. *)
Definition copied_vars (v : DraftGraphVars H) (width : Z) : DraftGraphVars H :=
  {| dg_input_ids := tokens ++ drop (length tokens) (dg_input_ids v); dg_positions := positions ++ drop (length positions) (dg_positions v);
     dg_hidden_states := hiddens ++ drop (length hiddens) (dg_hidden_states v);
     dg_slot_mapping := step_slots ++ drop (length step_slots) (replicate (length (dg_slot_mapping v)) (-1)%Z);
     dg_context_lens := ((fun x => pos_at step x + 1)%Z <$> rows) ++
       drop (length ((fun x => pos_at step x + 1)%Z <$> rows)) (replicate (length (dg_context_lens v)) 0%Z);
     dg_block_tables := copied prows width (dg_block_tables v) ++ drop (length prows) (dg_block_tables v);
     dg_outputs := dg_outputs v |}.

Lemma step_lengths : length tokens = length rows /\ length positions = length rows /\ length hiddens = length rows /\
  length step_slots = length rows /\ length prows = length rows.
Proof using Hrows. pose proof states_length as Hsl. unfold step_slots. rewrite !length_fmap. by rewrite Hsl. Qed.

Lemma copied_filled v graphs (b width : Z) : GraphVarsOk v graphs -> b ∈ gbs -> (Zlen rows <= b)%Z ->
  (forall r, r ∈ prows -> ((row_len r - 1) / Z.of_nat (pg_size c) < width <= Zlen (pr_table r))%Z) ->
  let k := Z.to_nat b - length rows in
  Filled (copied_vars v width) b k (copied prows width (dg_block_tables v)) (take k (drop (length rows) (dg_block_tables v))) width.
Proof using Hplaced Hrows Hc Hstates Hstep.
  intros [(n & Li & Lp & Lh & Ls & Lc & Lt & Lo & Hsizes) _] Hb Hnb Hw k. rewrite Forall_forall in Hsizes. destruct (Hsizes b Hb) as [Hbn _].
  destruct step_lengths as (L1 & L2 & L3 & L4 & L5). set (m := length rows) in *. set (bn := Z.to_nat b) in *.
  assert (Hbz : b = Z.of_nat bn) by lia. assert (Hmb : m <= bn) by (unfold Zlen in Hnb; lia).
  assert (Hpads : length (take k (drop m (dg_block_tables v))) = k) by (rewrite length_take, length_drop; lia).
  pose proof (copied_length prows (dg_block_tables v) width ltac:(lia)) as Lcov.
  split; rewrite ?Hbz; cbn [copied_vars dg_input_ids dg_positions dg_hidden_states dg_slot_mapping dg_context_lens dg_block_tables dg_outputs].
  - split_and!; [fold m; lia|fold m; lia|done].
  - rewrite L1, upto_buffer by lia. eexists. split; [done|]. rewrite length_take, length_drop. lia.
  - rewrite L2, upto_buffer by lia. eexists. split; [done|]. rewrite length_take, length_drop. lia.
  - rewrite L3, upto_buffer by lia. eexists. split; [done|]. rewrite length_take, length_drop. lia.
  - unfold graph_context, graph_fields. cbn [copied_vars dg_slot_mapping dg_context_lens dg_block_tables].
    rewrite pass_rows_slots, pass_lens, L5, Hpads, Nat.mul_1_r. fold step_slots.
    rewrite L4, length_fmap. fold m. rewrite !upto_replicate by (rewrite ?length_fmap; lia).
    rewrite upto_buffer by lia. by replace (Z.of_nat (m + k)) with (Z.of_nat bn) by lia.
  - apply copied_covering; [lia|done].
Qed.

Lemma copied_ok v graphs (width w : Z) outputs : GraphVarsOk v graphs -> Forall (fun t => Zlen t = w) (dg_block_tables v) -> (max_len <= w * bs)%Z ->
  (0 <= width <= w)%Z -> Forall (fun r => (width <= Zlen (pr_table r))%Z) prows -> length rows <= length (dg_outputs v) ->
  length outputs = length (dg_outputs v) -> GraphVarsOk ((copied_vars v width) <| dg_outputs := outputs |>) graphs.
Proof using Hrows.
  intros [(n & Li & Lp & Lh & Ls & Lc & Lt & Lo & Hsizes) _] Hw Hmax Hle Hr Hm Hout. destruct step_lengths as (L1 & L2 & L3 & L4 & L5). split.
  - exists n. cbn. rewrite Hout. split_and!; try done.
    1-5: apply buffer_length; [by rewrite ?length_replicate|rewrite ?L1, ?L2, ?L3, ?L4, ?length_fmap; lia].
    rewrite length_app, length_drop, copied_length by lia. lia.
  - exists w. split; [|done]. cbn. by apply copied_widths.
Qed.

Lemma replay_pass (p : Proposer H E) (b : Z) : ProposerOk p -> pp_device p = {| dv_cache := caches; dv_context := fresh step_fields |} ->
  b ∈ gbs -> (Zlen rows <= b)%Z ->
  wp (replay (step mod num_mtp_layers) b tokens positions hiddens) p (fun o p' => o = ds_hidden ∘ snd <$> nexts /\ ProposerOk p' /\
    exists c', dv_cache (pp_device p') = <[layer := c']> caches /\ PassedTo c' /\ PagesOk (fun _ => True) c' /\
    cx_fields (dv_context (pp_device p')) = step_fields).
Proof using Hplaced Hrows Hc Hstates Hstep Hlayer DrafterOk0.
  intros Hok Hd Hb Hnb. pose proof Hok as [H1 H2 H3 H4 Hgr H6 H7].
  assert (Hne : gbs <> []) by (intros He; rewrite He in Hb; by apply elem_of_nil in Hb).
  destruct (Hgr Hne) as (v & Hv & Hvok). pose proof Hvok as [(n & Li & Lp & Lh & Ls & Lc & Lt & Lo & Hsizes) (w & Hw & Hreach)].
  rewrite Forall_forall in Hsizes. destruct (Hsizes b Hb) as [Hbn Hcap]. destruct step_lengths as (L1 & L2 & L3 & L4 & L5).
  assert (Hm : Zlen tokens = Zlen rows /\ length rows <= n /\ 0 < length rows) by (pose proof (rp_some Hplaced); unfold Zlen in *; rewrite L1; destruct rows; simpl in *; [done|lia]).
  destruct Hm as (Hm & Hmn & Hpos). destruct (rp_tables Hplaced) as [w0 Hw0].
  assert (Hw0' : table_width (dw_table <$> rows) = w0).
  { apply width_of; [|by apply Forall_fmap]. intros He. apply fmap_nil_inv in He. by apply (rp_some Hplaced). }
  assert (Hne' : dg_block_tables v <> []) by (intros He; rewrite He in Lt; simpl in Lt; lia).
  assert (Hw' : table_width (dg_block_tables v) = w) by by apply width_of.
  destruct (copied_width (dg_block_tables v) w0 w Hw0 Hw Hne' Hreach) as (W1 & W2 & W3).
  unfold replay, on_device, context_fields. rewrite Hm. wp_steps. rewrite Hd. cbn [dv_context fresh cx_fields].
  apply wp_or_raise with step_slots; [done|]. apply wp_bind. eapply wp_or_raise; [done|]. apply wp_bind. eapply wp_or_raise; [done|].
  wp_steps. change (pp_graph_vars (id (p <| pp_device := ?d |>))) with (pp_graph_vars p).
  apply wp_or_raise with v; [done|]. rewrite Hw0', Hw', <-pass_tables.
  do 3 (apply wp_bind, copy_upto_ok; [unfold Zlen; lia|lia|]).
  apply wp_bind, copy_upto_ok; [unfold Zlen; lia|rewrite length_replicate; lia|].
  apply wp_bind, copy_upto_ok; [by unfold Zlen; rewrite length_fmap|rewrite length_fmap, length_replicate; lia|].
  apply wp_bind, copy_tables_ok with w; [by unfold Zlen; rewrite L5|apply (rr_some _ _ pass_rows_ready)|lia|done|done|done|].
  apply wp_bind, wp_modify, wp_bind, wp_zoom. eapply wp_mono; [apply do_hook|]. intros [] d ->.
  rewrite bool_decide_eq_true_2 by exact (Hcap step Hstep). apply wp_bind.
  wp_call (graph_pass_ok _ (copied_vars v (Z.min w0 w))); [done|done|by apply (copied_filled _ (pp_graphs p))|].
  intros [] p' (d & c' & rest & -> & Hlen & Hcd & Hp & Hpg & Hx). wp_steps. cbn [update_field eta_expand eta_Proposer pp_graph_vars pp_device].
  split_and!; [| |exists c'; split_and!; [exact Hcd|exact Hp|exact Hpg|cbn; by rewrite Hx]].
  - cbn. unfold py_upto, Zlen. rewrite py_pos_length by (rewrite Hlen; cbn; lia). apply take_app_length'. rewrite !length_fmap. by rewrite states_length.
  - split; try done. intros _. eexists. split; [reflexivity|]. by apply (copied_ok v _ _ w); [..|lia|].
Qed.

End Pass.

(** ** The loop *)

Lemma draft_ok (p : Proposer H E) hs Q : cx_logits_indices (cx_fields (dv_context (pp_device p))) = None -> Q (choose <$> hs) p -> wp (draft hs) p Q.
Proof using.
  clear. intros Hx HQ. unfold draft, select_logits, on_device, context_fields. wp_steps. rewrite Hx. wp_steps.
  assert (He : p <| pp_device := pp_device p |> = p) by by destruct p. rewrite He, <-list_fmap_compose. exact HQ.
Qed.

(** The state of the proposer between passes. *)
Record Between (p : Proposer H E) (states : list (DraftRow * DraftState)) : Prop := {
  bw_ok : ProposerOk p;
  bw_rows : states.*1 = rows;
  bw_caches : LayersOk (dv_cache (pp_device p));
  bw_states : Forall (StateOk (dv_cache (pp_device p))) states
}.

Lemma ProposerOk_device (p : Proposer H E) d : ProposerOk p -> ProposerOk (p <| pp_device := d |>).
Proof using. clear. by intros []. Qed.

Definition fits (graph_bs : option Z) : Prop := match graph_bs with Some b => b ∈ gbs /\ (Zlen rows <= b)%Z | None => True end.

(** One of the passes, whichever way it runs. *)
Lemma one_pass (p : Proposer H E) states graph_bs : Between p states -> fits graph_bs ->
  wp (with_context step_fields
        (let latest := ds_token ∘ snd <$> states in
         let! hidden_states :=
           match graph_bs, cx_block_tables step_fields with
           | Some b, Some _ => replay (step mod num_mtp_layers) b latest ((fun x => pos_at step x) <$> rows) (ds_hidden ∘ snd <$> states)
           | _, _ => on_device (drafter step latest ((fun x => pos_at step x) <$> rows) (ds_hidden ∘ snd <$> states))
           end in
         let! d := draft hidden_states in
         ret (hidden_states, d))) p (fun r p' =>
    let nexts := next_state step <$> states in
    r = (ds_hidden ∘ snd <$> nexts, ds_token ∘ snd <$> nexts) /\ Between p' nexts /\
    dv_context (pp_device p') = dv_context (pp_device p) /\
    KeepsSlots (fun slot => ~ drafted_slot slot) (dv_cache (pp_device p)) (dv_cache (pp_device p'))).
Proof using Hplaced Hstep DrafterOk0.
  intros [Hok Hrows [Hlen Hgeo] Hst] Hfits. apply wp_with_context. cbn zeta. apply wp_bind.
  set (caches := dv_cache (pp_device p)) in *. destruct layer_bound as [Hlb Hle].
  destruct (lookup_lt_is_Some_2 caches layer) as [c Hlayer]; [lia|]. pose proof (Hgeo _ _ Hlayer) as Hc.
  assert (Hlay : Forall (LayerOk layer c) states) by (eapply Forall_impl; [exact Hst|]; intros x Hx; by apply Hx).
  set (p1 := p <| pp_device ::= fun d => d <| dv_context := fresh step_fields |> |>).
  assert (Hok1 : ProposerOk p1) by by apply ProposerOk_device.
  assert (Hd1 : pp_device p1 = {| dv_cache := caches; dv_context := fresh step_fields |}) by done.
  assert (Hpass : wp (match graph_bs, cx_block_tables step_fields with
    | Some b, Some _ => replay (step mod num_mtp_layers) b (ds_token ∘ snd <$> states) ((fun x => pos_at step x) <$> rows) (ds_hidden ∘ snd <$> states)
    | _, _ => on_device (drafter step (ds_token ∘ snd <$> states) ((fun x => pos_at step x) <$> rows) (ds_hidden ∘ snd <$> states))
    end) p1 (fun o p' => o = ds_hidden ∘ snd <$> (next_state step <$> states) /\ ProposerOk p' /\
      exists c', dv_cache (pp_device p') = <[layer := c']> caches /\ PassedTo states c c' /\ PagesOk (fun _ => True) c' /\
      cx_fields (dv_context (pp_device p')) = step_fields)).
  { destruct graph_bs as [b|]; cbn [cx_block_tables step_fields update_field].
    - destruct Hfits as [Hb Hn]. by apply (replay_pass states Hrows c Hc Hlay caches Hlayer).
    - eapply wp_mono; [by apply (eager_pass states Hrows c Hc Hlay caches Hlayer p1)|]. intros o p' (-> & d & c' & -> & Hcd & H1 & H2 & H3).
      split_and!; [done|by apply ProposerOk_device|]. by exists c'. }
  eapply wp_mono; [exact Hpass|]. intros o p' (-> & Hok' & c' & Hcd & Hto & Hpg & Hx). apply wp_bind, draft_ok; [by rewrite Hx|].
  apply wp_ret. destruct (passed_layer states Hrows c Hc Hlay c' Hto Hpg) as [Hgeo' Hst'].
  assert (Hlt : layer < length caches) by by eapply lookup_lt_Some.
  split_and!.
  - f_equal. rewrite <-!list_fmap_compose. by apply list_fmap_ext.
  - split; cbn [update_field eta_expand eta_Proposer pp_device eta_Device dv_cache]; [by apply ProposerOk_device| |rewrite Hcd|rewrite Hcd].
    + transitivity (states.*1); [|exact Hrows]. rewrite <-list_fmap_compose. by apply list_fmap_ext.
    + split; [by rewrite length_insert|]. intros k ck Hk. apply list_lookup_insert_Some in Hk as [(_ & <- & _)|(_ & Hk)]; [done|by eapply Hgeo].
    + apply Forall_fmap, Forall_forall. intros x Hxs k ck Hk. apply list_lookup_insert_Some in Hk as [(<- & <- & _)|(Hne & Hk)].
      * rewrite Forall_fmap, Forall_forall in Hst'. by apply Hst'.
      * rewrite Forall_forall in Hst. destruct (Hst x Hxs k ck Hk) as [H1 H2]. unfold LayerOk. cbn [next_state fst snd draft_next ds_entries].
        destruct (Nat.eqb_spec k layer); [congruence|done].
  - done.
  - cbn [update_field eta_expand eta_Proposer pp_device eta_Device dv_cache]. rewrite Hcd.
    intros k c1 c2 slot Hk1 Hk2 H0 Hn. fold caches in Hk1. apply list_lookup_insert_Some in Hk2 as [(<- & <- & _)|(_ & Hk2)]; [|congruence].
    replace c1 with c by congruence. by apply (passed_others states Hrows c Hc Hlay).
Qed.

End AtStep.

Lemma KeepsSlots_trans P c1 c2 c3 : length c2 = length c1 -> KeepsSlots P c1 c2 -> KeepsSlots P c2 c3 -> KeepsSlots P c1 c3.
Proof using.
  clear. intros Hl H1 H2 k a b slot Ha Hb H0 HP. destruct (lookup_lt_is_Some_2 c2 k) as [m Hm]; [rewrite Hl; by eapply lookup_lt_Some|].
  rewrite (H2 k m b slot Hm Hb H0 HP). by apply (H1 k).
Qed.

Lemma next_chain step n x : 
  draft_chain max_len (dw_pos x.1) (S n) step x.2 =
  ds_token x.2 :: draft_chain max_len (dw_pos x.1) n (step + 1) (next_state step x).2.
Proof using. done. Qed.

Lemma further_drafts_ok n step (p : Proposer H E) states graph_bs drafts : (1 <= step)%Z -> (step + Z.of_nat n = K)%Z ->
  Between p states -> fits graph_bs -> last drafts = Some (ds_token ∘ snd <$> states) ->
  wp (further_drafts graph_bs ((fun k => ((fun x => pos_at k x) <$> rows, step_fields k)) <$> seqZ step (Z.of_nat n)) step
        (ds_hidden ∘ snd <$> states) drafts) p (fun columns p' => exists more, columns = drafts ++ more /\
    (forall i x, states !! i = Some x ->
       (fun column => default 0%Z (column !! i)) <$> more = tail (draft_chain max_len (dw_pos x.1) n step x.2)) /\
    ProposerOk p' /\ LayersOk (dv_cache (pp_device p')) /\ dv_context (pp_device p') = dv_context (pp_device p) /\
    KeepsSlots (fun slot => ~ drafted_slot slot) (dv_cache (pp_device p)) (dv_cache (pp_device p'))).
Proof using Hplaced DrafterOk0.
  revert step p states drafts. induction n as [|n IH]; intros step p states drafts H1 Hk Hbw Hfits Hlast.
  - apply wp_ret. exists []. rewrite app_nil_r. destruct Hbw as [? ? ? _]. split_and!; try done. intros k c c' slot Hc Hc' _ _. congruence.
  - rewrite seqZ_cons by lia. rewrite fmap_cons. cbn [further_drafts]. rewrite Hlast. cbn [default from_option id].
    apply wp_bind. eapply wp_mono; [by apply (one_pass step ltac:(lia) p states)|].
    intros r p1 (-> & Hbw1 & Hx1 & Hold1). cbn [fst snd].
    replace (Z.succ step) with (step + 1)%Z by lia. replace (Z.pred (Z.of_nat (S n))) with (Z.of_nat n) by lia.
    eapply wp_mono; [apply IH; [lia|lia|done|done|by rewrite last_snoc]|].
    intros columns p2 (more & -> & Hmore & Hok & Hgeo & Hx2 & Hold2).
    exists ((ds_token ∘ snd <$> (next_state step <$> states)) :: more). rewrite <-app_assoc. split_and!; try done.
    + intros i x Hi. rewrite next_chain, fmap_cons. cbn [tail].
      rewrite (Hmore i (next_state step x)) by by rewrite list_lookup_fmap, Hi.
      rewrite !list_lookup_fmap, Hi. cbn [fmap option_fmap option_map default from_option id].
      destruct n; done.
    + by rewrite Hx2.
    + eapply KeepsSlots_trans; [|exact Hold1|exact Hold2]. pose proof (proj1 (bw_caches _ _ Hbw)). pose proof (proj1 (bw_caches _ _ Hbw1)). congruence.
Qed.

End Steps.
End Drafts.
