(* ===== verification/DrafterStep.v ===== *)
(** * A drafter's step

    From a prepared batch: the first pass's tokens are each sequence's, moved
    by one, and the drafts are each sampling sequence's own. *)

From S2P Require Import Prelude Output Sequence Arrays AttnContext ModelRunner ModelRunnerFacts Tensors Attention Moe.
From S2P Require Import MLA TorchAttention TorchFacts MoeFacts AttentionFacts MLAFacts MLAStep StepAttention Passes.
From S2P Require Import Proposer ProposerFacts.

(** ** Places in rows laid end to end *)

Lemma sum_take_S (lens : list nat) j n : lens !! j = Some n -> sum_list (take (S j) lens) = sum_list (take j lens) + n.
Proof. intros Hj. rewrite (take_S_r _ _ _ Hj), sum_list_with_app. simpl. lia. Qed.

Lemma sum_take_mono (lens : list nat) j k : j <= k -> sum_list (take j lens) <= sum_list (take k lens).
Proof.
  intros Hjk. replace k with (j + (k - j)) by lia. rewrite <-take_take_drop, sum_list_with_app. lia.
Qed.

Lemma place_below (lens : list nat) j n t : lens !! j = Some n -> t < n -> sum_list (take j lens) + t < sum_list lens.
Proof.
  intros Hj Ht. pose proof (sum_take_S lens j n Hj). pose proof (sum_take_mono lens (S j) (length lens)) as Hl.
  rewrite (take_ge lens (length lens)) in Hl by lia. apply lookup_lt_Some in Hj. lia.
Qed.

Lemma place_inj (lens : list nat) j k n m t u : lens !! j = Some n -> lens !! k = Some m -> t < n -> u < m ->
  sum_list (take j lens) + t = sum_list (take k lens) + u -> j = k /\ t = u.
Proof.
  intros Hj Hk Ht Hu He. destruct (Nat.lt_trichotomy j k) as [Hlt|[->|Hlt]].
  - pose proof (sum_take_S lens j n Hj). pose proof (sum_take_mono lens (S j) k ltac:(lia)). lia.
  - split; [done|lia].
  - pose proof (sum_take_S lens k m Hk). pose proof (sum_take_mono lens (S k) j ltac:(lia)). lia.
Qed.

Lemma concat_place {A} (rows : list (list A)) j row t : rows !! j = Some row -> t < length row ->
  concat rows !! (sum_list (take j (length <$> rows)) + t) = row !! t.
Proof.
  revert j. induction rows as [|x rows IH]; intros [|j] Hj Ht; try done; simpl in *.
  - injection Hj as ->. by rewrite lookup_app_l.
  - change (list_fmap (list A) nat length rows) with (length <$> rows). rewrite lookup_app_r by lia. rewrite <-(IH j Hj Ht). f_equal. lia.
Qed.

Lemma Zsum_nats (lens : list nat) : Zsum (Z.of_nat <$> lens) = Z.of_nat (sum_list lens).
Proof. induction lens as [|n l IH]; [done|]. rewrite fmap_cons. unfold Zsum in *. simpl. lia. Qed.

Lemma length_concat_sum {A} (rows : list (list A)) : length (concat rows) = sum_list (length <$> rows).
Proof. induction rows as [|x rows IH]; [done|]. simpl. by rewrite length_app, IH. Qed.

(** Reading what is always there. *)
Lemma omap_total {A B} (f : A -> option B) l : (forall x, x ∈ l -> is_Some (f x)) ->
  length (omap f l) = length l /\ forall i x, l !! i = Some x -> omap f l !! i = f x.
Proof.
  induction l as [|x l IH]; intros Hf; [done|]. destruct (Hf x ltac:(constructor)) as [y Hy].
  destruct IH as [IH1 IH2]; [intros z Hz; apply Hf; by constructor|]. change (omap f (x :: l)) with (match f x with Some y => y :: omap f l | None => omap f l end). rewrite Hy. cbn [length]. split; [by rewrite IH1|].
  intros [|i] z Hz; [injection Hz as <-; by rewrite Hy|by apply IH2].
Qed.

Lemma slot_entry_some {E} P (c : Pages E) slot : PagesOk P c -> (0 <= slot < Z.of_nat (numel c))%Z -> is_Some (slot_entry c slot).
Proof.
  intros [Hsz Hb] Hs. unfold slot_entry, numel in *.
  assert (Hlt : Z.to_nat (slot / Z.of_nat (pg_size c)) < length (pg_blocks c)).
  { pose proof (Z.div_lt_upper_bound slot (Z.of_nat (pg_size c)) (Z.of_nat (length (pg_blocks c))) ltac:(lia) ltac:(lia)).
    pose proof (Z.div_pos slot (Z.of_nat (pg_size c)) ltac:(lia) ltac:(lia)). lia. }
  apply lookup_lt_is_Some_2 in Hlt as [b Hb']. rewrite Hb'. cbn [mbind option_bind]. rewrite Forall_forall in Hb.
  destruct (Hb b) as [Hl _]; [by eapply list_elem_of_lookup_2|]. apply lookup_lt_is_Some_2. rewrite Hl.
  pose proof (Z.mod_pos_bound slot (Z.of_nat (pg_size c)) ltac:(lia)). lia.
Qed.

(** Rolling a list back moves each row's entries by one. *)
Lemma roll_back_length {A} (l : list A) : length (roll_back l) = length l.
Proof. unfold roll_back. rewrite length_app, length_drop, length_take. lia. Qed.

Lemma roll_back_lookup {A} (l : list A) i : S i < length l -> roll_back l !! i = l !! S i.
Proof. intros Hi. unfold roll_back. rewrite lookup_app_l by (rewrite length_drop; lia). by rewrite lookup_drop. Qed.

(** ** The first pass's tokens *)

Section Batch.
Variable r : Runner.
Variable seqs : list Sequence.
Hypothesis Hready : Ready r seqs.
Local Abbreviation batch := (batch_of r seqs).
Local Abbreviation sampled := (filter (fun s => samples s = true) seqs).
Local Abbreviation num s := (Z.to_nat (num_scheduled_tokens s)).
Local Abbreviation lens := ((fun s => num s) <$> batch).

(** What each sampling row kept of its drafts, and the token after them. *)
Variable acc next : Sequence -> Z.
Hypothesis Hacc : forall s, s ∈ seqs -> samples s = true -> (0 <= acc s <= num_drafts_of s)%Z.
Hypothesis Hnd : NoDup seqs.

(** A row's kept tokens, and the token after them. *)
Definition kept (s : Sequence) : nat := if samples s then Z.to_nat (num_scheduled_tokens s - num_drafts_of s + acc s) else num s.
Definition next_id (s : Sequence) : Z := if samples s then next s else default 0%Z (py_get (token_ids s) (end_of r s)).
Definition kept_ids (s : Sequence) : list Z := take (kept s - 1) (drop 1 (ids_of r s)) ++ [next_id s].

Hypothesis Hnext : forall s, s ∈ seqs -> samples s = false -> (0 <= next_id s)%Z.

Lemma batch_NoDup : NoDup batch.
Proof using Hnd. clear -Hnd. unfold batch_of. by rewrite by_mask_perm. Qed.

Lemma row_ok s : s ∈ batch -> RowOk r s.
Proof using Hready. clear -Hready. intros Hs. by apply (batch_ok r seqs Hready). Qed.

Lemma kept_bounds s : s ∈ batch -> 0 < kept s <= num s /\ (samples s = true -> Z.of_nat (kept s) = num_scheduled_tokens s - num_drafts_of s + acc s)%Z.
Proof using Hready Hacc.
  intros Hs. pose proof (ro_len _ _ (row_ok s Hs)). unfold kept. destruct (samples s) eqn:Hsm; [|split; [lia|done]].
  pose proof (Hacc s (batch_in r seqs s Hs) Hsm). pose proof (num_drafts_bounds r seqs (rd_rows _ _ Hready) s Hs). split; [lia|intros _; lia].
Qed.

Lemma ids_len s : s ∈ batch -> length (ids_of r s) = num s.
Proof using Hready. intros Hs. pose proof (ids_length r seqs (rd_runner _ _ Hready) (rd_rows _ _ Hready) s Hs) as Hl. unfold Zlen in Hl. lia. Qed.

Lemma flat_length : length (concat (ids_of r <$> batch)) = sum_list lens.
Proof using Hready.
  rewrite length_concat_sum. f_equal. rewrite <-list_fmap_compose. apply list_fmap_ext. intros _ s Hs%list_elem_of_lookup_2. by apply ids_len.
Qed.

Lemma lens_at j s : batch !! j = Some s -> lens !! j = Some (num s).
Proof using. clear. intros Hj. by rewrite list_lookup_fmap, Hj. Qed.

Definition place (j t : nat) : nat := sum_list (take j lens) + t.

Lemma rolled_at j s t : batch !! j = Some s -> S t < num s -> roll_back (concat (ids_of r <$> batch)) !! place j t = ids_of r s !! S t.
Proof using Hready.
  intros Hj Ht. pose proof (list_elem_of_lookup_2 _ _ _ Hj) as Hs. pose proof (place_below lens j _ (S t) (lens_at j s Hj) Ht) as Hb.
  unfold place in *. rewrite roll_back_lookup by (rewrite flat_length; lia).
  assert (Hl : lens = length <$> (ids_of r <$> batch)).
  { rewrite <-list_fmap_compose. apply list_fmap_ext. intros _ x Hx%list_elem_of_lookup_2. symmetry. by apply ids_len. }
  rewrite Hl. replace (S (sum_list (take j (length <$> (ids_of r <$> batch))) + t)) with (sum_list (take j (length <$> (ids_of r <$> batch))) + S t) by lia.
  apply concat_place; [by rewrite list_lookup_fmap, Hj|]. by rewrite ids_len.
Qed.

(** Where the tokens after the chunks go ... *)
Definition unsampled_mask : list bool := (fun s => negb (samples s)) <$> batch.
Definition last_places : list nat := (fun j => place j (default 0 (lens !! j) - 1)) <$> seq 0 (length batch).
Definition fixed_places : list nat := masked last_places unsampled_mask.

Lemma last_place_at j s : batch !! j = Some s -> last_places !! j = Some (place j (num s - 1)).
Proof using.
  clear. intros Hj. unfold last_places. rewrite list_lookup_fmap, lookup_seq_lt by by eapply lookup_lt_Some.
  simpl. by rewrite (lens_at j s Hj).
Qed.

Lemma num_pos j s : batch !! j = Some s -> 0 < num s.
Proof using Hready. intros Hj. pose proof (ro_len _ _ (row_ok s (list_elem_of_lookup_2 _ _ _ Hj))). lia. Qed.

Lemma last_indices : (fun c => c - 1)%Z <$> tail (cumulative (num_scheduled_tokens <$> batch)) = Z.of_nat <$> last_places.
Proof using Hready.
  assert (Hl : num_scheduled_tokens <$> batch = Z.of_nat <$> lens).
  { rewrite <-list_fmap_compose. apply list_fmap_ext. intros _ s Hs%list_elem_of_lookup_2. pose proof (ro_len _ _ (row_ok s Hs)). unfold compose. lia. }
  apply list_eq. intros j. rewrite !list_lookup_fmap. unfold cumulative. cbn [tail]. destruct (batch !! j) as [s|] eqn:Hj.
  - rewrite (last_place_at j s Hj). rewrite cumsum_from_lookup by (rewrite length_fmap; by eapply lookup_lt_Some).
    simpl. f_equal. rewrite Hl, <-fmap_take, Zsum_nats, (sum_take_S lens j _ (lens_at j s Hj)). unfold place.
    pose proof (num_pos j s Hj). lia.
  - apply lookup_ge_None in Hj. rewrite !lookup_ge_None_2; [done| |].
    + unfold last_places. by rewrite length_fmap, length_seq.
    + by rewrite cumsum_from_length, length_fmap.
Qed.

Lemma fixed_NoDup : NoDup fixed_places.
Proof using Hready.
  apply masked_NoDup, NoDup_alt. intros i j x Hi Hj.
  assert (Hlt : i < length batch /\ j < length batch).
  { apply lookup_lt_Some in Hi. apply lookup_lt_Some in Hj. unfold last_places in *. rewrite length_fmap, length_seq in *. done. }
  destruct Hlt as [[s Hs]%lookup_lt_is_Some_2 [s' Hs']%lookup_lt_is_Some_2].
  rewrite (last_place_at i s Hs) in Hi. rewrite (last_place_at j s' Hs') in Hj. injection Hi as <-. injection Hj as Hj.
  pose proof (num_pos i s Hs). pose proof (num_pos j s' Hs').
  by destruct (place_inj lens j i _ _ (num s' - 1) (num s - 1) (lens_at j s' Hs') (lens_at i s Hs) ltac:(lia) ltac:(lia) Hj) as [-> _].
Qed.

Lemma fixed_in i : i ∈ fixed_places -> exists j s, batch !! j = Some s /\ samples s = false /\ i = place j (num s - 1).
Proof using.
  clear. intros (j & Hj & Hm)%masked_in. unfold unsampled_mask in Hm. rewrite list_lookup_fmap in Hm.
  destruct (batch !! j) as [s|] eqn:Hs; [|done]. injection Hm as Hm. rewrite (last_place_at j s Hs) in Hj. injection Hj as <-.
  exists j, s. split_and!; [done|by apply negb_true_iff|done].
Qed.

(** ... and the sampled tokens. *)
Definition sampled_places : list nat := zip_with (fun b s => place (Z.to_nat b) (kept s - 1)) (sampling_batch_rows r seqs) sampled.

Lemma sampled_place_in i : i ∈ sampled_places -> exists j s, batch !! j = Some s /\ samples s = true /\ i = place j (kept s - 1).
Proof using.
  clear. intros (k & b & s & -> & Hb & Hs)%elem_of_lookup_zip_with. pose proof (sampling_rows_spec r seqs) as Hf.
  rewrite Forall2_lookup in Hf. specialize (Hf k). rewrite Hb, Hs in Hf. inversion Hf as [? ? (j & -> & Hj)|]. subst.
  exists j, s. rewrite Nat2Z.id. split_and!; [done| |done]. by apply list_elem_of_lookup_2, list_elem_of_filter in Hs as [Hs _].
Qed.

Lemma sampled_at j s : batch !! j = Some s -> samples s = true -> exists k, sampling_batch_rows r seqs !! k = Some (Z.of_nat j) /\
  sampled !! k = Some s /\ sampled_places !! k = Some (place j (kept s - 1)).
Proof using Hnd.
  intros Hj Hs. assert (Hin : s ∈ sampled).
  { apply list_elem_of_filter. split; [done|]. apply (batch_in r seqs s). by apply list_elem_of_lookup_2 in Hj. }
  apply list_elem_of_lookup in Hin as [k Hk]. pose proof (sampling_rows_spec r seqs) as Hf.
  rewrite Forall2_lookup in Hf. specialize (Hf k). rewrite Hk in Hf. inversion Hf as [b ? (j' & -> & Hj') Hb|]. subst.
  assert (j' = j) as -> by by eapply (NoDup_lookup batch); [apply batch_NoDup| |].
  exists k. split_and!; [done|done|]. unfold sampled_places. rewrite lookup_zip_with, <-Hb, Hk. simpl. by rewrite Nat2Z.id.
Qed.

Lemma sampled_NoDup : NoDup sampled_places.
Proof using Hready Hacc Hnd.
  apply NoDup_alt. intros k k' x Hk Hk'. unfold sampled_places in *. rewrite !lookup_zip_with in *.
  pose proof (sampling_rows_spec r seqs) as Hf. rewrite Forall2_lookup in Hf. pose proof (Hf k) as H1. pose proof (Hf k') as H2.
  destruct (sampled !! k) as [s|] eqn:Hs; [|by destruct (sampling_batch_rows r seqs !! k)].
  destruct (sampled !! k') as [s'|] eqn:Hs'; [|by destruct (sampling_batch_rows r seqs !! k')].
  inversion H1 as [b y (j & -> & Hj) Hb|]. inversion H2 as [b' y' (j' & -> & Hj') Hb'|]. subst. rewrite <-Hb in Hk. rewrite <-Hb' in Hk'.
  simpl in *. rewrite !Nat2Z.id in *. injection Hk as <-. injection Hk' as He.
  pose proof (kept_bounds s (list_elem_of_lookup_2 _ _ _ Hj)) as [B1 _]. pose proof (kept_bounds s' (list_elem_of_lookup_2 _ _ _ Hj')) as [B2 _].
  destruct (place_inj lens j' j _ _ (kept s' - 1) (kept s - 1) (lens_at j' s' Hj') (lens_at j s Hj) ltac:(lia) ltac:(lia) He) as [-> _].
  rewrite Hj in Hj'. injection Hj' as <-. assert (Hns : NoDup sampled) by by apply NoDup_filter. by eapply NoDup_lookup.
Qed.

Variable start : Sequence -> Z.
Hypothesis Hstart : HostStart r seqs start.
Hypothesis Hprop : mr_has_proposer r = true.
Local Abbreviation ends := (fun s => start s + num_scheduled_tokens s)%Z.

Lemma next_token_at s : s ∈ batch -> next_token_of ends s = if samples s then (-1)%Z else next_id s.
Proof using Hready Hstart Hprop.
  intros Hs. unfold next_token_of, next_id. destruct (samples s) eqn:Hsm; [done|]. do 2 f_equal.
  pose proof (rd_prompts _ _ Hready Hprop) as Hp. rewrite Forall_forall in Hp.
  destruct (Hp s (batch_in r seqs s Hs) Hsm) as [Hpend _]. pose proof (hs_between _ _ _ Hstart s Hs) as Hb.
  assert (Hst : start_of r s = num_cached_tokens s).
  { unfold start_of, rejected_of. rewrite Hpend. destruct (mr_in_flight_drafts r); lia. }
  unfold end_of. lia.
Qed.

Definition fixed_values : list Z := masked (next_token_of ends <$> batch) unsampled_mask.

Lemma unsampled_mask_eq : (fun t => 0 <=? t)%Z <$> (next_token_of ends <$> batch) = unsampled_mask.
Proof using Hready Hstart Hprop Hnext.
  unfold unsampled_mask. rewrite <-list_fmap_compose. apply list_fmap_ext. intros _ s Hs%list_elem_of_lookup_2. unfold compose.
  rewrite next_token_at by done. destruct (samples s) eqn:Hsm; [done|]. apply Z.leb_le. apply Hnext; [by apply (batch_in r)|done].
Qed.

Definition first_ids : list Z :=
  inserts (inserts (roll_back (concat (ids_of r <$> batch))) fixed_places fixed_values) sampled_places (next <$> sampled).

Lemma first_ids_length : length first_ids = sum_list lens.
Proof using Hready. unfold first_ids. by rewrite !inserts_length, roll_back_length, flat_length. Qed.

Lemma fixed_lengths : length fixed_places = length fixed_values.
Proof using.
  clear. unfold fixed_places, fixed_values. assert (H : forall A B (a : list A) (b : list B) m, length a = length b -> length (masked a m) = length (masked b m)).
  { intros A B a b m. revert a b. induction m as [|x m IH]; intros [|u a] [|w b] Hl; try done. rewrite !masked_cons. injection Hl as Hl.
    destruct x; simpl; by rewrite (IH a b Hl). }
  apply H. unfold last_places. by rewrite !length_fmap, length_seq.
Qed.

Lemma sampled_lengths : length sampled_places = length (next <$> sampled).
Proof using.
  clear. unfold sampled_places. rewrite length_zip_with, length_fmap. pose proof (Forall2_length _ _ _ (sampling_rows_spec r seqs)). lia.
Qed.

Lemma place_of j s t i : batch !! j = Some s -> t < num s -> i ∈ sampled_places \/ i ∈ fixed_places -> i = place j t ->
  (samples s = true /\ t = kept s - 1) \/ (samples s = false /\ t = num s - 1).
Proof using Hready Hacc.
  intros Hj Ht Hin ->. destruct Hin as [(j' & s' & Hj' & Hs' & He)%sampled_place_in|(j' & s' & Hj' & Hs' & He)%fixed_in].
  - pose proof (kept_bounds s' (list_elem_of_lookup_2 _ _ _ Hj')) as [Hk _].
    destruct (place_inj lens j j' _ _ t (kept s' - 1) (lens_at j s Hj) (lens_at j' s' Hj') Ht ltac:(lia) He) as [-> ->].
    rewrite Hj in Hj'. injection Hj' as <-. by left.
  - pose proof (num_pos j' s' Hj').
    destruct (place_inj lens j j' _ _ t (num s' - 1) (lens_at j s Hj) (lens_at j' s' Hj') Ht ltac:(lia) He) as [-> ->].
    rewrite Hj in Hj'. injection Hj' as <-. by right.
Qed.

(** A row of the first pass: its kept tokens, then what is left of the drafts that were rejected. *)
Lemma first_row j s : batch !! j = Some s -> exists row, split_rows lens first_ids !! j = Some row /\ length row = num s /\ take (kept s) row = kept_ids s.
Proof using Hready Hacc Hnd Hstart Hprop.
  intros Hj. pose proof (list_elem_of_lookup_2 _ _ _ Hj) as Hs. destruct (kept_bounds s Hs) as [Hk _].
  destruct (split_rows_lookup lens first_ids j (num s) first_ids_length (lens_at j s Hj)) as (row & Hrow & Hlen & Hat).
  exists row. split_and!; [done|done|]. apply list_eq. intros t. unfold kept_ids.
  assert (Hbelow : forall u, u < num s -> place j u < sum_list lens) by (intros u Hu; apply (place_below lens j (num s)); [by apply lens_at|done]).
  assert (Hlk : length (take (kept s - 1) (drop 1 (ids_of r s))) = kept s - 1).
  { rewrite length_take, length_drop, ids_len by done. lia. }
  destruct (Nat.lt_trichotomy t (kept s - 1)) as [Ht|[->|Ht]].
  - rewrite (lookup_take_lt row) by lia. rewrite lookup_app_l by (rewrite Hlk; lia). rewrite lookup_take_lt by lia. rewrite lookup_drop.
    rewrite Hat by lia. fold (place j t). unfold first_ids.
    assert (Hno : forall i, i ∈ sampled_places \/ i ∈ fixed_places -> i <> place j t).
    { intros i Hi He. destruct (place_of j s t i Hj ltac:(lia) Hi He) as [[_ Hx]|[Hsm Hx]]; [lia|]. unfold kept in Ht. rewrite Hsm in Ht. lia. }
    rewrite !inserts_out.
    + by apply rolled_at; [|lia].
    + intros Hi. by apply (Hno (place j t) (or_intror Hi)).
    + intros Hi. by apply (Hno (place j t) (or_introl Hi)).
  - rewrite (lookup_take_lt row) by lia. rewrite Hat by lia. fold (place j (kept s - 1)). rewrite lookup_app_r by (rewrite Hlk; lia). rewrite Hlk, Nat.sub_diag. cbn [lookup list_lookup].
    unfold first_ids. destruct (samples s) eqn:Hsm.
    + destruct (sampled_at j s Hj Hsm) as (k & _ & Hks & Hkp). apply (inserts_in _ _ _ k); [apply sampled_NoDup|apply sampled_lengths|done| |].
      * rewrite list_lookup_fmap, Hks. unfold next_id. by rewrite Hsm.
      * rewrite inserts_length, roll_back_length, flat_length. apply Hbelow. lia.
    + assert (Hkn : kept s = num s) by (unfold kept; by rewrite Hsm). rewrite Hkn in *. rewrite inserts_out.
      * destruct (masked_pair last_places (next_token_of ends <$> batch) unsampled_mask j (place j (num s - 1)) (next_id s)) as (k & H1 & H2).
        -- by apply last_place_at.
        -- rewrite list_lookup_fmap, Hj. simpl. rewrite next_token_at by done. by rewrite Hsm.
        -- unfold unsampled_mask. rewrite list_lookup_fmap, Hj. simpl. by rewrite Hsm.
        -- apply (inserts_in _ _ _ k); [apply fixed_NoDup|apply fixed_lengths|done|done|].
           rewrite roll_back_length, flat_length. apply Hbelow. lia.
      * intros Hi. destruct (place_of j s (num s - 1) _ Hj ltac:(lia) (or_introl Hi) eq_refl) as [[Hx _]|[_ _]]; [congruence|].
        apply sampled_place_in in Hi as (j' & s' & Hj' & Hs' & He). pose proof (kept_bounds s' (list_elem_of_lookup_2 _ _ _ Hj')) as [Hk' _].
        destruct (place_inj lens j j' _ _ (num s - 1) (kept s' - 1) (lens_at j s Hj) (lens_at j' s' Hj') ltac:(lia) ltac:(lia) He) as [-> _].
        congruence.
  - rewrite !lookup_ge_None_2; [done| |rewrite length_take; lia]. rewrite length_app, Hlk. simpl. lia.
Qed.

(** The indices are in range. *)
Lemma fixed_in_range : Forall (fun i => i < sum_list lens) fixed_places.
Proof using Hready.
  apply Forall_forall. intros i (j & s & Hj & _ & ->)%fixed_in. pose proof (num_pos j s Hj).
  apply (place_below lens j (num s)); [by apply lens_at|lia].
Qed.

Lemma sampled_in_range : Forall (fun i => i < sum_list lens) sampled_places.
Proof using Hready Hacc.
  apply Forall_forall. intros i (j & s & Hj & _ & ->)%sampled_place_in. pose proof (kept_bounds s (list_elem_of_lookup_2 _ _ _ Hj)) as [Hk _].
  apply (place_below lens j (num s)); [by apply lens_at|lia].
Qed.

Lemma gather_last : Forall2 (fun i v => py_get ((fun c => c - 1)%Z <$> tail (cumulative (num_scheduled_tokens <$> batch))) i = Some v)
  (sampling_batch_rows r seqs) (last_of r seqs <$> sampling_batch_rows r seqs).
Proof using.
  clear. apply Forall2_fmap_r. pose proof (sampling_rows_spec r seqs) as Hf. induction Hf as [|b s bs ss Hb _ IH]; constructor; [|done].
  by apply (last_index_at r seqs b s).
Qed.

Lemma gather_tables : Forall2 (fun i v => py_get (padded_tables (block_table <$> batch)) i = Some v)
  (sampling_batch_rows r seqs) (batch_table r seqs <$> sampled).
Proof using.
  clear. apply Forall2_fmap_r. pose proof (sampling_rows_spec r seqs) as Hf. induction Hf as [|b s bs ss Hb _ IH]; constructor; [|done].
  destruct Hb as (j & -> & Hj). unfold padded_tables. rewrite py_get_nth, !list_lookup_fmap, Hj. done.
Qed.

(** The code's indices are these places. *)
Lemma sample_index_eq : zip_with Z.add (zip_with Z.sub (last_of r seqs <$> sampling_batch_rows r seqs) (num_drafts_of <$> sampled)) (acc <$> sampled) =
  Z.of_nat <$> sampled_places.
Proof using Hready Hacc.
  assert (Hin : forall s, s ∈ sampled -> s ∈ seqs /\ samples s = true) by (intros s [H1 H2]%list_elem_of_filter; done).
  unfold sampled_places. pose proof (sampling_rows_spec r seqs) as Hf. revert Hin Hf. generalize sampled at 1 2 3 4 5. generalize (sampling_batch_rows r seqs).
  intros bs ss Hin Hf. induction Hf as [|b s bs ss (j & -> & Hj) _ IH]; [done|]. rewrite !fmap_cons. cbn [zip_with].
  rewrite fmap_cons. f_equal; [|apply IH; intros x Hx; apply Hin; by constructor]. rewrite Nat2Z.id.
  destruct (Hin s ltac:(constructor)) as [_ Hsm]. destruct (kept_bounds s (list_elem_of_lookup_2 _ _ _ Hj)) as [Hk Hkz]. specialize (Hkz Hsm).
  unfold last_of. rewrite Nat2Z.id.
  assert (Hl : num_scheduled_tokens <$> batch = Z.of_nat <$> lens).
  { rewrite <-list_fmap_compose. apply list_fmap_ext. intros _ x Hx%list_elem_of_lookup_2. pose proof (ro_len _ _ (row_ok x Hx)). unfold compose. lia. }
  rewrite Hl, <-fmap_take, Zsum_nats, (sum_take_S lens j _ (lens_at j s Hj)). unfold place. pose proof (num_pos j s Hj). lia.
Qed.

End Batch.

(** ** Proposing *)

Section Propose.
Context {F H E : Type} `{!Ordered F} `{!Drafter F H E}.
Variable cell : nat -> list E -> Z * H -> E * H.
Context {latents : bool} `{!DrafterOk cell latents}.
Variable r : Runner.
Variable seqs : list Sequence.
Local Abbreviation batch := (batch_of r seqs).
Local Abbreviation sampled := (filter (fun s => samples s = true) seqs).
Local Abbreviation lens := ((fun s => Z.to_nat (num_scheduled_tokens s)) <$> batch).
Local Abbreviation K := (mr_num_speculative_tokens r).
Local Abbreviation bs := (mr_block_size r).
Local Abbreviation max_len := (mr_max_model_len r).

(** Of each sequence: the first layer's entries of its earlier tokens, and the target's hidden states of its new ones; of each
    that samples, how many drafts it kept and the token after them. *)
Record DraftStep := { st_hist : Sequence -> list E; st_hid : Sequence -> list H; st_acc : Sequence -> Z; st_next : Sequence -> Z }.
Variable d : DraftStep.
Local Abbreviation kept := (kept (st_acc d)).
Local Abbreviation kept_ids := (kept_ids r (st_acc d) (st_next d)).

(** The first layer's cells of a sequence's kept tokens, each token after the target's hidden state before it. *)
Definition kept_cells (s : Sequence) : list (E * H) := run_cells (cell 0) (st_hist d s) (zip (kept_ids s) (take (kept s) (st_hid d s))).
Definition kept_entries (s : Sequence) : list E := st_hist d s ++ (kept_cells s).*1.
Definition last_position (s : Sequence) : Z := start_of r s + Z.of_nat (kept s) - 1.
Definition last_hidden (s : Sequence) : H := default zero_hidden (last (kept_cells s).*2).

(** How far the drafts' positions go, and what a cache has at a sequence's first [n] positions. *)
Definition draft_limit (s : Sequence) : Z := draft_position max_len (last_position s) (K - 1) + 1.
Definition held_at (c : Pages E) (s : Sequence) (n : Z) : list E := omap (fun q => slot_entry c (slot_of r s q)) (seqZ 0 n).

(** What each layer's cache has of a sequence after the first pass. The first layer's, by then [first], has the kept tokens' entries, and
    past them what the rejected drafts or earlier steps left; the others have what they had in [caches], before the step: no pass but
    their own writes them. *)
Definition first_entries (caches : list (Pages E)) (first : Pages E) (s : Sequence) (k : nat) : list E :=
  match k with
  | O => kept_entries s ++ drop (length (kept_entries s)) (held_at first s (draft_limit s))
  | S _ => match caches !! k with Some c => held_at c s (draft_limit s) | None => [] end
  end.

Definition first_draft (caches : list (Pages E)) (first : Pages E) (s : Sequence) : DraftState (H := H) (E := E) :=
  {| ds_entries := first_entries caches first s; ds_token := choose (last_hidden s); ds_hidden := last_hidden s |}.

(** The drafts of a sequence: the first from layer 0's pass over its kept tokens, and each later one from the next layer in turn, at the
    next position, after that layer's entries of the positions before. *)
Definition drafts_from (caches : list (Pages E)) (first : Pages E) (s : Sequence) : list Z :=
  draft_chain cell max_len (last_position s) (Z.to_nat (K - 1)) 1 (first_draft caches first s).

(** How far a step writes: a sampling row's blocks reach its drafts' positions. *)
Definition reach (s : Sequence) : Z :=
  if samples s then Z.max (end_of r s) (Z.min (end_of r s + K - 1) max_len) else end_of r s.

(** How far the drafter's cache is sure to hold a sequence's kept entries after it. *)
Definition safe (s : Sequence) : Z :=
  if samples s then Z.min (start_of r s + Z.of_nat (kept s)) (max_len - 1) else end_of r s.

Variable gbs pbs : list Z.

Record DraftReady (p : Proposer H E) : Prop := {
  dr_ready : Ready r seqs;
  dr_proposer : mr_has_proposer r = true;
  dr_drafts : (1 <= K)%Z;
  dr_latents : mr_decodes_latents r = true -> latents = true;
  dr_acc s : s ∈ seqs -> samples s = true -> (0 <= st_acc d s <= num_drafts_of s)%Z;
  dr_next s : s ∈ seqs -> samples s = false -> (0 <= next_id r (st_next d) s)%Z;
  dr_hid s : s ∈ batch -> Zlen (st_hid d s) = num_scheduled_tokens s;
  dr_hist s : s ∈ batch -> Zlen (st_hist d s) = start_of r s;
  dr_layers : length (dv_cache (pp_device p)) = Z.to_nat num_mtp_layers;
  dr_held c s : dv_cache (pp_device p) !! 0 = Some c -> s ∈ batch -> SlotsHold r c s (st_hist d s) (start_of r s);
  dr_own : OwnWithin r seqs reach;
  dr_len s : s ∈ batch -> (end_of r s <= max_len)%Z;
  dr_blocks c s : c ∈ dv_cache (pp_device p) -> s ∈ batch -> Forall (fun b => b < length (pg_blocks c)) (block_table s);
  dr_reach s : s ∈ batch -> (reach s <= bs * Zlen (block_table s))%Z;
  dr_pages c : c ∈ dv_cache (pp_device p) -> PagesOk (fun _ => True) c /\ Z.of_nat (pg_size c) = bs;
  dr_same c c' : c ∈ dv_cache (pp_device p) -> c' ∈ dv_cache (pp_device p) -> length (pg_blocks c) = length (pg_blocks c');
  dr_ok : ProposerOk max_len bs K gbs pbs p
}.

Variable p : Proposer H E.
Hypothesis Hok : DraftReady p.
Variable start : Sequence -> Z.
Hypothesis Hstart : HostStart r seqs start.
Local Abbreviation caches := (dv_cache (pp_device p)).
Variable c : Pages E.
Hypothesis Hc0 : caches !! 0 = Some c.

Lemma c_in : c ∈ caches.
Proof using Hc0. clear -Hc0. by eapply list_elem_of_lookup_2. Qed.

Lemma reach_ge s : (end_of r s <= reach s)%Z.
Proof using. clear. unfold reach. destruct (samples s); lia. Qed.

Lemma bounds s : s ∈ batch -> (0 <= start_of r s < end_of r s)%Z.
Proof using Hok Hc0.
  intros Hs. destruct (batch_ok r seqs (dr_ready _ Hok) s Hs) as [Hr _]. pose proof (ro_start _ _ Hr). pose proof (ro_len _ _ Hr). unfold end_of. lia.
Qed.

Lemma seqs_NoDup : NoDup seqs.
Proof using Hok Hc0.
  assert (Hb : NoDup batch).
  { apply NoDup_alt. intros i j s Hi Hj. pose proof (bounds s (list_elem_of_lookup_2 _ _ _ Hi)). pose proof (reach_ge s).
    by destruct (dr_own _ Hok i j s s (start_of r s) (start_of r s) Hi Hj ltac:(lia) ltac:(lia) eq_refl). }
  unfold batch_of in Hb. by rewrite by_mask_perm in Hb.
Qed.

Lemma own_slots : OwnSlots r seqs.
Proof using Hok Hc0.
  intros i j s s' q q' Hi Hj Hq Hq'. pose proof (reach_ge s). pose proof (reach_ge s'). apply (dr_own _ Hok); [done|done|lia|lia].
Qed.

(** The first pass's rows. *)
Local Abbreviation ids := (first_ids r seqs (st_acc d) (st_next d) start).
Definition first_tokens (x : nat * Sequence) : list (Z * H) := zip (default [] (split_rows lens ids !! x.1)) (st_hid d x.2).

Lemma first_tokens_ok x : x ∈ tagged batch -> Zlen (first_tokens x) = num_scheduled_tokens x.2 /\
  take (kept x.2) (first_tokens x) = zip (kept_ids x.2) (take (kept x.2) (st_hid d x.2)).
Proof using Hok Hstart Hc0.
  intros Hx. destruct (tagged_in r seqs x Hx) as [Hi Hs].
  destruct (first_row r seqs (dr_ready _ Hok) (st_acc d) (st_next d) (dr_acc _ Hok) seqs_NoDup start Hstart (dr_proposer _ Hok) x.1 x.2 Hi)
    as (row & Hrow & Hlen & Htake).
  unfold first_tokens. rewrite Hrow. cbn [default from_option id]. pose proof (dr_hid _ Hok x.2 Hs) as Hh. pose proof (bounds x.2 Hs). unfold end_of, Zlen in *.
  split; [rewrite length_zip_with; lia|]. by rewrite zip_with_take, Htake.
Qed.

Lemma first_pieces : split_rows lens ids = (fun x => default [] (split_rows lens ids !! x.1)) <$> tagged batch.
Proof using.
  clear. apply list_eq. intros i. rewrite list_lookup_fmap, tagged_lookup. destruct (batch !! i) as [s|] eqn:Hi.
  - assert (i < length (split_rows lens ids)) as [row Hrow]%lookup_lt_is_Some_2 by (rewrite split_rows_length, length_fmap; by eapply lookup_lt_Some).
    simpl. by rewrite Hrow.
  - simpl. apply lookup_ge_None. rewrite split_rows_length, length_fmap. by apply lookup_ge_None.
Qed.

Lemma first_tokens_split : (concat (first_tokens <$> tagged batch)).*1 = ids /\ (concat (first_tokens <$> tagged batch)).*2 = concat (st_hid d <$> batch).
Proof using Hok Hstart Hc0.
  pose proof (dr_ready _ Hok) as Hready.
  assert (Hpiece : forall x, x ∈ tagged batch -> length (default [] (split_rows lens ids !! x.1)) = length (st_hid d x.2)).
  { intros x Hx. destruct (tagged_in r seqs x Hx) as [Hi Hs].
    destruct (first_row r seqs (dr_ready _ Hok) (st_acc d) (st_next d) (dr_acc _ Hok) seqs_NoDup start Hstart (dr_proposer _ Hok) x.1 x.2 Hi)
      as (row & -> & Hlen & _). pose proof (dr_hid _ Hok x.2 Hs) as Hh. pose proof (bounds x.2 Hs). unfold end_of, Zlen in *. simpl. lia. }
  split.
  - transitivity (concat (split_rows lens ids)); [|by apply concat_split_rows, first_ids_length].
    rewrite first_pieces, (fmap_concat_rows fst).
    f_equal. apply list_fmap_ext. intros i x Hx%list_elem_of_lookup_2. unfold first_tokens. rewrite fst_zip; [done|]. by rewrite Hpiece.
  - rewrite (fmap_concat_rows snd). f_equal. rewrite <-(tagged_fmap (st_hid d)). apply list_fmap_ext. intros i x Hx%list_elem_of_lookup_2.
    unfold first_tokens. rewrite snd_zip; [done|]. by rewrite Hpiece.
Qed.

Local Abbreviation row := (step_row r seqs (st_hist d) first_tokens).
Local Abbreviation rows := (row <$> tagged batch).
Local Abbreviation places := (sampled_places r seqs (st_acc d)).

Lemma kept_cells_of x : x ∈ tagged batch -> take (kept x.2) (pass_cells (cell 0) (row x)) = kept_cells x.2.
Proof using Hok Hstart Hc0.
  intros Hx. unfold pass_cells, kept_cells. rewrite run_cells_take. cbn [step_row pr_old pr_new].
  by destruct (first_tokens_ok x Hx) as [_ ->].
Qed.

Lemma kept_pos s : s ∈ batch -> 0 < kept s <= Z.to_nat (num_scheduled_tokens s).
Proof using Hok Hc0. intros Hs. by apply (kept_bounds r seqs (dr_ready _ Hok) _ (dr_acc _ Hok) s Hs). Qed.

Lemma kept_cells_length s : s ∈ batch -> length (kept_cells s) = kept s.
Proof using Hok Hstart Hc0.
  intros Hs. destruct (proj1 (list_elem_of_lookup _ _) Hs) as [i Hi].
  assert (Hx : (i, s) ∈ tagged batch) by (apply list_elem_of_lookup; exists i; by rewrite tagged_lookup, Hi).
  pose proof (kept_cells_of (i, s) Hx) as Hc. cbn [snd] in Hc. rewrite <-Hc, length_take. unfold pass_cells. rewrite run_cells_length. cbn [step_row pr_new].
  destruct (first_tokens_ok (i, s) Hx) as [Hl _]. pose proof (kept_pos s Hs). unfold Zlen in Hl. simpl in Hl. lia.
Qed.

(** Taking the sampling rows' last kept tokens. *)
Lemma gather_kept {A} (f : nat * Sequence -> list A) (v : Sequence -> A) :
  (forall x, x ∈ tagged batch -> length (f x) = Z.to_nat (num_scheduled_tokens x.2)) ->
  (forall x, x ∈ tagged batch -> samples x.2 = true -> f x !! (kept x.2 - 1) = Some (v x.2)) ->
  Forall2 (fun i y => py_get (concat (f <$> tagged batch)) i = Some y) (Z.of_nat <$> places) (v <$> sampled).
Proof using Hok Hc0.
  intros Hf Hv. apply Forall2_lookup. intros k. rewrite !list_lookup_fmap. unfold sampled_places. rewrite lookup_zip_with.
  pose proof (sampling_rows_spec r seqs) as Hs. rewrite Forall2_lookup in Hs. specialize (Hs k).
  destruct (sampled !! k) as [s|] eqn:Hk; [|inversion Hs; constructor]. inversion Hs as [b ? (j & -> & Hj) Hb|]. subst. simpl. constructor.
  rewrite Nat2Z.id, py_get_nth. assert (Hx : (j, s) ∈ tagged batch) by (apply list_elem_of_lookup; exists j; by rewrite tagged_lookup, Hj).
  assert (Hsm : samples s = true) by by apply list_elem_of_lookup_2, list_elem_of_filter in Hk as [Hk _].
  pose proof (kept_pos s (list_elem_of_lookup_2 _ _ _ Hj)) as Hp.
  assert (Hl : lens = length <$> (f <$> tagged batch)).
  { rewrite <-list_fmap_compose, <-(tagged_fmap (fun s => Z.to_nat (num_scheduled_tokens s))). apply list_fmap_ext.
    intros i x Hi%list_elem_of_lookup_2. symmetry. by apply Hf. }
  pose proof (Hv (j, s) Hx Hsm) as Hvs. cbn [snd] in Hvs. unfold place. rewrite Hl, <-Hvs. apply concat_place.
  - by rewrite list_lookup_fmap, tagged_lookup, Hj.
  - rewrite (Hf (j, s) Hx). simpl. lia.
Qed.

Lemma gather_outputs : Forall2 (fun i y => py_get (concat ((fun x => (pass_cells (cell 0) x).*2) <$> rows)) i = Some y)
  (Z.of_nat <$> places) (last_hidden <$> sampled).
Proof using Hok Hstart Hc0.
  rewrite <-list_fmap_compose. apply (gather_kept ((fun x => (pass_cells (cell 0) x).*2) ∘ row)).
  - intros x Hx. unfold compose, pass_cells. rewrite length_fmap, run_cells_length. destruct (first_tokens_ok x Hx) as [Hl _].
    cbn [step_row pr_new]. unfold Zlen in Hl. lia.
  - intros x Hx _. unfold compose. destruct (tagged_in r seqs x Hx) as [_ Hs]. pose proof (kept_pos x.2 Hs) as Hp.
    rewrite list_lookup_fmap. pose proof (kept_cells_length x.2 Hs) as Hl. pose proof (kept_cells_of x Hx) as Hc.
    assert (Hlt : kept x.2 - 1 < length (kept_cells x.2)) by lia. apply lookup_lt_is_Some_2 in Hlt as [y Hy].
    rewrite <-(lookup_take_lt _ (kept x.2)), Hc, Hy by lia. simpl. f_equal. unfold last_hidden. rewrite last_lookup, length_fmap, Hl.
    replace (Nat.pred (kept x.2)) with (kept x.2 - 1) by lia. by rewrite list_lookup_fmap, Hy.
Qed.

Lemma gather_positions : Forall2 (fun i y => py_get (concat (positions_of r <$> batch)) i = Some y)
  (Z.of_nat <$> places) (last_position <$> sampled).
Proof using Hok Hc0.
  rewrite <-(tagged_fmap (positions_of r)). apply (gather_kept (fun x => positions_of r x.2)).
  - intros x Hx. unfold positions_of. by rewrite length_seqZ.
  - intros x Hx _. destruct (tagged_in r seqs x Hx) as [_ Hs]. pose proof (kept_pos x.2 Hs) as Hp. unfold positions_of.
    rewrite lookup_seqZ_lt by lia. f_equal. unfold last_position. lia.
Qed.

(** The rows of the further passes. *)
Definition further_rows : list DraftRow := (fun s => {| dw_table := batch_table r seqs s; dw_pos := last_position s |}) <$> sampled.
Local Abbreviation max_position := (max_default (0%Z :: ((fun s => start s + num_scheduled_tokens s - 1)%Z <$> sampled)) 0).

Lemma sampled_batch s : s ∈ sampled -> s ∈ batch /\ samples s = true.
Proof using.
  clear. intros Hs. split; [|by apply list_elem_of_filter in Hs as [Hs _]]. by apply (sampled_in r seqs).
Qed.

Lemma last_position_bounds s : s ∈ batch -> (start_of r s <= last_position s < end_of r s)%Z.
Proof using Hok Hc0. intros Hs. pose proof (kept_pos s Hs). pose proof (bounds s Hs). unfold last_position, end_of in *. lia. Qed.

Lemma below_max s : s ∈ sampled -> (last_position s <= max_position)%Z.
Proof using Hok Hstart Hc0.
  intros Hs. destruct (sampled_batch s Hs) as [Hb _]. pose proof (last_position_bounds s Hb). pose proof (hs_between _ _ _ Hstart s Hb).
  destruct (max_default_spec (0%Z :: ((fun s => start s + num_scheduled_tokens s - 1)%Z <$> sampled)) 0 ltac:(done)) as [_ Hall].
  rewrite Forall_forall in Hall. specialize (Hall (start s + num_scheduled_tokens s - 1)%Z). unfold end_of in *.
  assert (start s + num_scheduled_tokens s - 1 <= max_position)%Z; [|lia]. apply Hall. apply elem_of_cons. right.
  by apply (list_elem_of_fmap_2 (fun s => start s + num_scheduled_tokens s - 1)%Z).
Qed.

Lemma reach_slot s q : s ∈ batch -> (Z.of_nat q < reach s)%Z -> table_slot c (batch_table r seqs s) q = Some (slot_of r s (Z.of_nat q)).
Proof using Hok Hc0.
  intros Hs Hq. pose proof (dr_reach _ Hok s Hs) as Hr. apply (pad_slot_at r seqs (dr_ready _ Hok)); [done|apply (dr_pages _ Hok _ c_in)|lia].
Qed.

Lemma limit_reach s : s ∈ sampled -> let x := {| dw_table := batch_table r seqs s; dw_pos := last_position s |} in
  (limit max_len K x <= reach s)%Z /\ (start_of r s <= draft_position max_len (last_position s) 1)%Z.
Proof using Hok Hc0.
  intros Hs x. destruct (sampled_batch s Hs) as [Hb Hsm]. pose proof (last_position_bounds s Hb). pose proof (dr_len _ Hok s Hb). pose proof (bounds s Hb).
  unfold limit, reach, draft_position, x. rewrite Hsm. simpl. lia.
Qed.

Lemma further_rows_placed : sampled <> [] -> RowsPlaced max_len bs K max_position further_rows c.
Proof using Hok Hstart Hc0.
  intros Hne. pose proof (dr_ready _ Hok) as Hready. destruct (dr_pages _ Hok _ c_in) as [Hpg Hsz].
  assert (Hin : forall x, x ∈ further_rows -> exists s, x = {| dw_table := batch_table r seqs s; dw_pos := last_position s |} /\ s ∈ sampled).
  { intros x (s & -> & Hs)%list_elem_of_fmap. by exists s. }
  assert (Hat : forall i x, further_rows !! i = Some x -> exists s j, x = {| dw_table := batch_table r seqs s; dw_pos := last_position s |} /\
    s ∈ sampled /\ sampled !! i = Some s /\ batch !! j = Some s).
  { intros i x Hx. unfold further_rows in Hx. apply list_lookup_fmap_Some in Hx as (s & -> & Hs). pose proof (list_elem_of_lookup_2 _ _ _ Hs) as Hs'.
    destruct (sampled_batch s Hs') as [Hb _]. apply list_elem_of_lookup in Hb as [j Hj]. by exists s, j. }
  split.
  - unfold further_rows. intros He. by apply fmap_nil_inv in He.
  - destruct sampled as [|s ss] eqn:Hs; [done|]. destruct (sampled_batch s) as [Hb _]; [rewrite Hs; constructor|].
    pose proof (dr_len _ Hok s Hb). pose proof (bounds s Hb). lia.
  - split; [apply (rk_bs _ (rd_runner _ _ Hready))|done].
  - intros x (s & -> & Hs)%Hin. destruct (sampled_batch s Hs) as [Hb _]. pose proof (last_position_bounds s Hb). pose proof (dr_len _ Hok s Hb).
    pose proof (bounds s Hb) as B1. pose proof (below_max s Hs) as B2. cbn [dw_pos]. lia.
  - exists (width r seqs). apply Forall_forall. intros x (s & -> & Hs)%Hin. destruct (sampled_batch s Hs) as [Hb _]. simpl.
    by apply (pad_table_length r seqs).
  - apply Forall_forall. intros x (s & -> & Hs)%Hin. destruct (sampled_batch s Hs) as [Hb _]. pose proof (dr_blocks _ Hok _ s c_in Hb) as Hbl.
    unfold batch_table, pad_table. simpl. apply Forall_app. split; [|apply Forall_replicate; lia]. apply Forall_fmap.
    eapply Forall_impl; [exact Hbl|]. intros b Hb'. simpl in *. lia.
  - intros x q (s & -> & Hs)%Hin Hq. destruct (sampled_batch s Hs) as [Hb _]. destruct (limit_reach s Hs) as [Hl _].
    cbn [dw_table]. rewrite reach_slot; [by eexists|done|lia].
  - intros i j x y q q' sl Hi Hj Hq Hq' Hsl Hsl'.
    destruct (Hat i x Hi) as (s & bi & -> & Hs & His & Hbi). destruct (Hat j y Hj) as (s' & bj & -> & Hs' & Hjs & Hbj).
    cbn [dw_table dw_pos] in *. destruct (limit_reach s Hs) as [L1 L2]. destruct (limit_reach s' Hs') as [L1' _].
    destruct (sampled_batch s Hs) as [Hb _]. destruct (sampled_batch s' Hs') as [Hb' _].
    rewrite reach_slot in Hsl by (try done; lia). rewrite reach_slot in Hsl' by (try done; lia). injection Hsl as <-. injection Hsl' as He.
    destruct (dr_own _ Hok bi bj s s' (Z.of_nat q) (Z.of_nat q') Hbi Hbj ltac:(lia) ltac:(lia) ltac:(done)) as [-> Hqq].
    rewrite Hbi in Hbj. injection Hbj as <-. split; [|lia].
    assert (Hns : NoDup sampled) by apply NoDup_filter, seqs_NoDup. by eapply NoDup_lookup.
Qed.

(** The first pass: directly, or in the buffers of a bucket. *)
Local Abbreviation start_context := ((device_context r seqs start) <| cx_logits_indices := None |>).
Local Abbreviation outputs := (concat ((fun x => (pass_cells (cell 0) x).*2) <$> rows)).
Local Abbreviation stored := (concat ((fun x => (pass_cells (cell 0) x).*1) <$> rows)).

Lemma first_rows_ready : RowsReady c rows.
Proof using Hok Hstart Hc0.
  apply (step_rows_ready r seqs (dr_ready _ Hok)); [apply (dr_hist _ Hok)|by intros x Hx; apply first_tokens_ok|apply (dr_pages _ Hok _ c_in)..|
    by intros s; apply (dr_held _ Hok)|apply own_slots|]. intros s Hs. by apply (dr_blocks _ Hok _ s c_in).
Qed.

Lemma first_batch_rows pads :
  BatchRows latents c (pass_context r seqs first_tokens start_context pads) rows (default 0 pads).
Proof using Hok Hstart Hc0.
  apply (step_batch_rows r seqs (dr_ready _ Hok)); [apply (dr_hist _ Hok)|by intros x Hx; apply first_tokens_ok|apply (dr_pages _ Hok _ c_in)| |
    apply (dr_latents _ Hok)|done].
  intros s Hs. by apply (dr_blocks _ Hok _ s c_in).
Qed.

Lemma first_pass_lengths : length ids = sum_list lens /\ length (concat (positions_of r <$> batch)) = sum_list lens /\
  length (concat (st_hid d <$> batch)) = sum_list lens /\ length outputs = sum_list lens.
Proof using Hok Hstart Hc0.
  pose proof (dr_ready _ Hok) as Hready.
  assert (Hsum : forall A (f : Sequence -> list A), (forall s, s ∈ batch -> length (f s) = Z.to_nat (num_scheduled_tokens s)) ->
    length (concat (f <$> batch)) = sum_list lens).
  { intros A f Hf. rewrite length_concat_sum, <-list_fmap_compose. f_equal. apply list_fmap_ext. intros _ s Hs%list_elem_of_lookup_2. by apply Hf. }
  split_and!.
  - by apply first_ids_length.
  - apply Hsum. intros s _. unfold positions_of. by rewrite length_seqZ.
  - apply Hsum. intros s Hs. pose proof (dr_hid _ Hok s Hs) as Hl. unfold Zlen in Hl. lia.
  - rewrite <-list_fmap_compose, length_concat_sum, <-list_fmap_compose. f_equal.
    rewrite <-(tagged_fmap (fun s => Z.to_nat (num_scheduled_tokens s))). apply list_fmap_ext. intros i x Hx%list_elem_of_lookup_2.
    unfold compose, pass_cells. rewrite length_fmap, run_cells_length. cbn [step_row pr_new].
    destruct (first_tokens_ok x Hx) as [Hl _]. unfold Zlen in Hl. lia.
Qed.

(** The first layer's cache after the first pass. *)
Definition FirstPassed (c1 : Pages E) : Prop := Stored c (row_slots c rows) stored c1 /\ PagesOk (fun _ => True) c1.

Definition AfterFirst (o : list H) (c1 : Pages E) (p' : Proposer H E) : Prop :=
  o = outputs /\ ProposerOk max_len bs K gbs pbs p' /\ dv_cache (pp_device p') = <[0 := c1]> caches /\ FirstPassed c1 /\
  cx_logits_indices (cx_fields (dv_context (pp_device p'))) = None.

(** The pass that the model makes, with [pads] more tokens after the batch's. *)
Lemma first_pass_run pads padding more hs : length padding = default 0 pads -> length more = default 0 pads -> length hs = default 0 pads ->
  wp (drafter 0 (ids ++ padding) (concat (positions_of r <$> batch) ++ more) (concat (st_hid d <$> batch) ++ hs))
    {| dv_cache := caches; dv_context := fresh (pass_context r seqs first_tokens start_context pads) |} (fun o dev => exists rest c1,
      o = outputs ++ rest /\ length rest = default 0 pads /\ dv_cache dev = <[0 := c1]> caches /\ FirstPassed c1 /\
      cx_logits_indices (cx_fields (dv_context dev)) = None).
Proof using Hok Hstart Hc0 DrafterOk0.
  intros Hpad Hmore Hhs. destruct first_tokens_split as [T1 T2].
  assert (Hz : length (zip padding hs) = default 0 pads) by (rewrite length_zip_with; lia).
  assert (Hl0 : layer_of 0 = 0) by (unfold layer_of; pose proof (do_layers cell); by rewrite Z.mod_0_l by lia).
  pose proof (do_layers cell) as Hn. eapply (wp_drafter cell 0 c caches); [by rewrite Hl0|rewrite Hl0; by apply Z.mod_0_l; lia|done|]. rewrite Hl0.
  pose proof (do_batch cell c _ rows _ first_rows_ready (first_batch_rows pads) (zip padding hs) more Hz Hmore) as Hp.
  rewrite (step_positions r seqs (dr_ready _ Hok)) in Hp; [|apply (dr_hist _ Hok)|by intros x Hx; apply first_tokens_ok].
  rewrite <-list_fmap_compose in Hp. change (pr_new ∘ row) with first_tokens in Hp.
  rewrite !fmap_app, T1, T2, fst_zip, snd_zip in Hp by lia.
  eapply wp_mono; [exact Hp|]. intros o dev (rest & -> & Hr & Hst & Hpg & Hx). exists rest, (dv_cache dev). split_and!; try done.
  cbn [dv_context]. rewrite Hx. by destruct pads.
Qed.

Lemma first_pass_ok : 
  wp (run_first_pass ids (concat (positions_of r <$> batch)) (concat (st_hid d <$> batch)))
    (p <| pp_device ::= fun dev => dev <| dv_context := fresh start_context |> |>) (fun o p' => exists c1, AfterFirst o c1 p').
Proof using Hok Hstart Hc0 DrafterOk0.
  destruct first_pass_lengths as (L1 & L2 & L3 & L4). pose proof (dr_ok _ Hok) as Hpok. pose proof Hpok as [_ _ _ _ _ Hpbs Hpv].
  set (p1 := p <| pp_device ::= _ |>). assert (Hp1 : ProposerOk max_len bs K gbs pbs p1) by by apply ProposerOk_device.
  unfold run_first_pass. wp_steps. change (pp_piecewise_bs (id p1)) with (pp_piecewise_bs p).
  change (pp_piecewise_vars (id p1)) with (pp_piecewise_vars p). rewrite Hpbs.
  destruct (first_at_least (Zlen ids) pbs) as [bucket|] eqn:Hb.
  - apply first_at_least_in in Hb as [Hin Hn]. assert (Hne : pbs <> []) by (intros He; rewrite He in Hin; by apply elem_of_nil in Hin).
    destruct (Hpv Hne) as (v & Hv & [(n & V1 & V2 & V3 & Hsizes)]). pose proof Hsizes as Hall. rewrite Forall_forall in Hsizes.
    specialize (Hsizes bucket Hin). unfold Zlen in Hn. rewrite L1 in Hn. set (m := sum_list lens) in *.
    set (bn := Z.to_nat bucket). assert (Hbn : bucket = Z.of_nat bn) by lia.
    apply wp_bind. eapply wp_or_raise; [exact Hv|].
    apply wp_bind, copy_upto_ok; [done|lia|]. apply wp_bind, copy_upto_ok; [unfold Zlen; lia|lia|]. apply wp_bind, copy_upto_ok; [unfold Zlen; lia|lia|].
    apply wp_bind, wp_modify. unfold on_device. apply wp_bind, wp_zoom, wp_modify. apply wp_zoom.
    rewrite L1, L2, L3, Hbn, !upto_buffer by lia.
    assert (Hx : pass_context r seqs first_tokens start_context (Some (bn - m)) =
      start_context <| cx_piecewise_size := Some (Z.of_nat bn) |> <| cx_num_actual_tokens := Some (Zlen ids) |>).
    { destruct first_tokens_split as [T1 _]. unfold pass_context. cbn zeta.
      assert (Hlen : Zlen (concat (first_tokens <$> tagged batch)) = Zlen ids) by (unfold Zlen; by rewrite <-T1, length_fmap).
      rewrite Hlen. assert (Hsum : (Zlen ids + Z.of_nat (bn - m))%Z = Z.of_nat bn) by (unfold Zlen; lia). by rewrite Hsum. }
    pose proof (first_pass_run (Some (bn - m)) (take (bn - m) (drop m (pv_input_ids v))) (take (bn - m) (drop m (pv_positions v)))
      (take (bn - m) (drop m (pv_hidden_states v)))) as Hrun. rewrite Hx in Hrun. cbn [default from_option id] in Hrun.
    eapply wp_mono; [apply Hrun; rewrite length_take, length_drop; lia|].
    intros o dev (rest & c1 & -> & Hr & Hcd & Hf & Hlx). apply wp_ret. exists c1. split_and!; try done.
    + unfold py_upto, Zlen. rewrite L1, py_pos_length by (rewrite length_app; lia). by rewrite <-L4, take_app_length.
    + destruct Hp1 as [P1 P2 P3 P4 P5 P6 P7]. split; try done. intros _. eexists. split; [reflexivity|]. split. exists n. cbn.
      rewrite !length_app, !length_drop. split_and!; [lia|lia|lia|done].
  - unfold on_device. apply wp_zoom.
    pose proof (first_pass_run None [] [] [] eq_refl eq_refl eq_refl) as Hrun. rewrite !app_nil_r in Hrun.
    eapply wp_mono; [exact Hrun|]. intros o dev (rest & c1 & -> & Hr & Hcd & Hf & Hlx). apply length_zero_iff_nil in Hr as ->. rewrite app_nil_r.
    apply wp_ret. exists c1. split_and!; try done; [|by apply ProposerOk_device]. unfold py_upto, Zlen. rewrite L1, <-L4, py_pos_length by lia. by apply take_ge.
Qed.

(** What the cache holds after it. *)
Lemma first_held c1 s : FirstPassed c1 -> s ∈ batch -> Holds c1 (batch_table r seqs s) (kept_entries s).
Proof using Hok Hstart Hc0.
  intros [Hst _] Hs. destruct (proj1 (list_elem_of_lookup _ _) Hs) as [i Hi].
  assert (Hx : (i, s) ∈ tagged batch) by (apply list_elem_of_lookup; exists i; by rewrite tagged_lookup, Hi).
  pose proof (pass_held (cell 0) c _ rows (row (i, s)) first_rows_ready Hst (list_elem_of_fmap_2 _ _ _ Hx)) as Hh.
  cbn [step_row pr_table pr_old snd] in Hh. pose proof (kept_cells_of (i, s) Hx) as Hc. cbn [snd] in Hc.
  intros q e He. apply Hh. unfold kept_entries in He. rewrite <-Hc, fmap_take in He.
  destruct (decide (q < length (st_hist d s))) as [Hq|Hq].
  - rewrite lookup_app_l in He by done. by rewrite lookup_app_l.
  - rewrite lookup_app_r in He by lia. rewrite lookup_app_r by lia. by apply lookup_take_Some in He as [He _].
Qed.

Lemma first_others c1 slot : FirstPassed c1 -> (0 <= slot)%Z ->
  (forall s q, s ∈ batch -> (start_of r s <= q < end_of r s)%Z -> slot <> slot_of r s q) ->
  slot_entry c1 slot = slot_entry c slot.
Proof using Hok Hstart Hc0.
  intros [[_ _ _ Hold] _] H0 Hn. apply Hold; [done|].
  rewrite (step_slots_eq r seqs (dr_ready _ Hok)); [|apply (dr_hist _ Hok)|by intros x Hx; apply first_tokens_ok|apply (dr_pages _ Hok _ c_in)].
  intros Hin. apply list_elem_of_In, in_concat in Hin as (l & Hl%list_elem_of_In & Hin%list_elem_of_In).
  apply list_elem_of_fmap in Hl as (s & -> & Hs). apply list_elem_of_fmap in Hin as (q & -> & Hq%elem_of_seqZ). apply (Hn s q Hs); [unfold end_of in *; lia|done].
Qed.

Lemma kept_entries_length s : s ∈ batch -> Z.of_nat (length (kept_entries s)) = (last_position s + 1)%Z.
Proof using Hok Hstart Hc0.
  intros Hs. unfold kept_entries, last_position. rewrite length_app, length_fmap, kept_cells_length by done.
  pose proof (dr_hist _ Hok s Hs) as Hl. unfold Zlen in Hl. lia.
Qed.

(** What a cache has at a sequence's positions. *)
Local Abbreviation geometry := (of_geometry c).

Lemma caches_geometry k ck : caches !! k = Some ck -> geometry ck.
Proof using Hok Hc0.
  intros Hk%list_elem_of_lookup_2. destruct (dr_pages _ Hok _ Hk) as [Hpg Hsz]. destruct (dr_pages _ Hok _ c_in) as [_ Hsz'].
  split_and!; [done|lia|]. by apply (dr_same _ Hok), c_in.
Qed.

Lemma passed_geometry c1 : FirstPassed c1 -> geometry c1.
Proof using. clear. intros [[H1 H2 _ _] Hpg]. by split_and!. Qed.

Lemma limit_pos s : s ∈ sampled -> (0 <= last_position s + 1 <= draft_limit s)%Z /\ (draft_limit s <= reach s)%Z.
Proof using Hok Hc0.
  intros Hs. destruct (sampled_batch s Hs) as [Hb _]. destruct (limit_reach s Hs) as [Hl _]. pose proof (last_position_bounds s Hb).
  pose proof (dr_len _ Hok s Hb). pose proof (dr_drafts _ Hok). pose proof (bounds s Hb). unfold limit in Hl. cbn [dw_pos] in Hl.
  unfold draft_limit, draft_position in *. lia.
Qed.

Lemma held_at_ok ck s : geometry ck -> s ∈ sampled -> Z.of_nat (length (held_at ck s (draft_limit s))) = draft_limit s /\
  Holds ck (batch_table r seqs s) (held_at ck s (draft_limit s)).
Proof using Hok Hc0.
  intros Hg Hs. pose proof Hg as (Hpg & Hsz & Hnb). destruct (sampled_batch s Hs) as [Hb _]. destruct (limit_pos s Hs) as [H0 Hr].
  pose proof (dr_blocks _ Hok _ s c_in Hb) as Hbl.
  assert (Hslot : forall q : nat, (Z.of_nat q < draft_limit s)%Z -> table_slot ck (batch_table r seqs s) q = Some (slot_of r s (Z.of_nat q))).
  { intros q Hq. rewrite (slot_geometry c ck) by done. apply reach_slot; [done|lia]. }
  assert (Hsome : forall q, q ∈ seqZ 0 (draft_limit s) -> is_Some (slot_entry ck (slot_of r s q))).
  { intros q Hq%elem_of_seqZ. pose proof (Hslot (Z.to_nat q) ltac:(lia)) as Hsl. rewrite Z2Nat.id in Hsl by lia.
    apply (slot_entry_some _ ck _ Hpg). split; [by eapply table_slot_nonneg|]. eapply table_slot_bound; [apply Hpg| |exact Hsl].
    unfold batch_table, pad_table. apply Forall_app. split; [|apply Forall_replicate; lia]. apply Forall_fmap.
    eapply Forall_impl; [exact Hbl|]. intros b Hb'. simpl in *. lia. }
  destruct (omap_total _ _ Hsome) as [Hlen Hat]. unfold held_at. rewrite Hlen, length_seqZ. split; [lia|].
  intros q e He. pose proof (lookup_lt_Some _ _ _ He) as Hlt. rewrite Hlen, length_seqZ in Hlt.
  rewrite (Hat q (Z.of_nat q)) in He by (rewrite lookup_seqZ_lt by lia; f_equal; lia). exists (slot_of r s (Z.of_nat q)). split; [apply Hslot; lia|done].
Qed.

(** The states of the further passes. *)
Definition first_states (c1 : Pages E) : list (DraftRow * DraftState (H := H) (E := E)) :=
  (fun s => ({| dw_table := batch_table r seqs s; dw_pos := last_position s |}, first_draft caches c1 s)) <$> sampled.

Lemma first_caches o c1 p' : AfterFirst o c1 p' -> LayersOk c (dv_cache (pp_device p')).
Proof using Hok Hc0.
  intros (_ & _ & -> & Hf & _). split; [by rewrite length_insert, (dr_layers _ Hok)|].
  intros k ck Hk. apply list_lookup_insert_Some in Hk as [(_ & <- & _)|(_ & Hk)]; [by apply passed_geometry|by eapply caches_geometry].
Qed.

Lemma first_between o c1 p' : AfterFirst o c1 p' -> Between max_len bs K further_rows c gbs pbs p' (first_states c1).
Proof using Hok Hstart Hc0.
  intros Haf. pose proof Haf as (_ & Hp & Hcs & Hf & _). split; [done| |by eapply first_caches|].
  - unfold first_states, further_rows. by rewrite <-list_fmap_compose.
  - rewrite Hcs. apply Forall_fmap, Forall_forall. intros s Hs k ck Hk. unfold LayerOk. cbn [fst snd first_draft ds_entries dw_table dw_pos].
    change (limit max_len K {| dw_table := batch_table r seqs s; dw_pos := last_position s |}) with (draft_limit s).
    destruct (sampled_batch s Hs) as [Hb _]. destruct (limit_pos s Hs) as [H0 _].
    apply list_lookup_insert_Some in Hk as [(<- & <- & _)|(Hne & Hk)].
    + destruct (held_at_ok c1 s (passed_geometry c1 Hf) Hs) as [Hlen Hh]. pose proof (kept_entries_length s Hb) as Hkl.
      unfold first_entries. split; [rewrite length_app, length_drop; lia|].
      intros q e He. destruct (decide (q < length (kept_entries s))) as [Hq|Hq].
      * rewrite lookup_app_l in He by done. by apply (first_held c1 s Hf Hb).
      * rewrite lookup_app_r, lookup_drop in He by lia. apply Hh. rewrite <-He. f_equal. lia.
    + destruct k as [|k]; [done|]. unfold first_entries. rewrite Hk. by apply held_at_ok; [eapply caches_geometry|].
Qed.

(** The slots of the drafts are the sampling rows', after what they keep. *)
Lemma drafted_in slot : drafted_slot max_len K further_rows c slot -> exists s q, s ∈ sampled /\ slot = slot_of r s q /\
  (safe s <= q < reach s)%Z /\ (start_of r s <= q)%Z.
Proof using Hok Hc0.
  intros (x & q & (s & -> & Hs)%list_elem_of_fmap & Hq & Hsl). cbn [dw_table dw_pos] in *. destruct (sampled_batch s Hs) as [Hb Hsm].
  destruct (limit_reach s Hs) as [L1 L2]. pose proof (last_position_bounds s Hb). rewrite reach_slot in Hsl by (done || lia). injection Hsl as <-.
  exists s, (Z.of_nat q). split_and!; [done|done| |lia|lia]. unfold safe. rewrite Hsm. unfold draft_position, last_position in *. lia.
Qed.

Lemma safe_reach s : s ∈ batch -> (safe s <= reach s)%Z.
Proof using Hok Hc0.
  intros Hb. pose proof (last_position_bounds s Hb). pose proof (reach_ge s). unfold safe, last_position in *. destruct (samples s); lia.
Qed.

Lemma safe_not_drafted s q : s ∈ batch -> (0 <= q < safe s)%Z -> ~ drafted_slot max_len K further_rows c (slot_of r s q).
Proof using Hok Hc0.
  intros Hb Hq (s' & q' & Hs' & He & Hq' & Hst)%drafted_in. pose proof (safe_reach s Hb).
  destruct (sampled_batch s' Hs') as [Hb' _]. apply list_elem_of_lookup in Hb as [i Hi], Hb' as [j Hj].
  destruct (dr_own _ Hok j i s' s q' q Hj Hi ltac:(lia) ltac:(lia) ltac:(done)) as [-> ->]. rewrite Hi in Hj. injection Hj as <-. lia.
Qed.

(** What the step leaves, whether the further passes run or not. *)
Record StepDone (p' : Proposer H E) : Prop := {
  dn_ok : ProposerOk max_len bs K gbs pbs p';
  dn_context : dv_context (pp_device p') = dv_context (pp_device p);
  dn_geometry : Forall2 (fun c c' => PagesOk (fun _ => True) c' /\ pg_size c' = pg_size c /\ length (pg_blocks c') = length (pg_blocks c))
    (dv_cache (pp_device p)) (dv_cache (pp_device p'));
  dn_held c' s : dv_cache (pp_device p') !! 0 = Some c' -> s ∈ batch -> SlotsHold r c' s (kept_entries s) (safe s);
  dn_others : KeepsSlots (fun slot => forall s q, s ∈ batch -> (start_of r s <= q < reach s)%Z -> slot <> slot_of r s q)
    (dv_cache (pp_device p)) (dv_cache (pp_device p'))
}.

(** What the first pass left in the first layer's cache: nothing but the batch's new tokens is written. *)
Record FirstDone (c1 : Pages E) : Prop := {
  fp_held s : s ∈ batch -> SlotsHold r c1 s (kept_entries s) (start_of r s + Z.of_nat (kept s));
  fp_others slot c0 : dv_cache (pp_device p) !! 0 = Some c0 -> (0 <= slot)%Z ->
    (forall s q, s ∈ batch -> (start_of r s <= q < end_of r s)%Z -> slot <> slot_of r s q) -> slot_entry c1 slot = slot_entry c0 slot
}.

Lemma slot_of_nonneg s q : s ∈ batch -> (0 <= q)%Z -> (0 <= slot_of r s q)%Z.
Proof using Hok Hc0.
  intros Hs Hq. pose proof (rk_bs _ (rd_runner _ _ (dr_ready _ Hok))). unfold slot_of. pose proof (Z.mod_pos_bound q bs ltac:(lia)). nia.
Qed.

Lemma step_done o c1 p1 p' : AfterFirst o c1 p1 -> ProposerOk max_len bs K gbs pbs p' -> dv_context (pp_device p') = dv_context (pp_device p) ->
  LayersOk c (dv_cache (pp_device p')) ->
  KeepsSlots (fun slot => ~ drafted_slot max_len K further_rows c slot) (dv_cache (pp_device p1)) (dv_cache (pp_device p')) -> StepDone p'.
Proof using Hok Hstart Hc0.
  intros Haf Hp Hx [Hlen Hg] Hold. pose proof Haf as (_ & _ & Hcs & Hf & _).
  assert (Hlt : 0 < length caches) by by eapply lookup_lt_Some.
  assert (H10 : dv_cache (pp_device p1) !! 0 = Some c1) by (rewrite Hcs; by apply list_lookup_insert_eq).
  split; [done|done| | |].
  - apply Forall2_lookup. intros k. destruct (caches !! k) as [ck|] eqn:Hk.
    + destruct (lookup_lt_is_Some_2 (dv_cache (pp_device p')) k) as [ck' Hk']; [rewrite Hlen, <-(dr_layers _ Hok); by eapply lookup_lt_Some|].
      rewrite Hk'. constructor. destruct (Hg _ _ Hk') as (Q1 & Q2 & Q3). destruct (caches_geometry _ _ Hk) as (_ & Q4 & Q5). split_and!; [done|congruence|congruence].
    + rewrite lookup_ge_None_2; [constructor|]. apply lookup_ge_None in Hk. by rewrite Hlen, <-(dr_layers _ Hok).
  - intros c' s Hc' Hs q e Hq He. pose proof (safe_reach s Hs).
    rewrite (Hold 0 c1 c' _ H10 Hc'); [|apply slot_of_nonneg; [done|lia]|apply safe_not_drafted; [done|lia]].
    destruct (first_held c1 s Hf Hs q e He) as (sl & Hsl & Hse).
    rewrite (slot_geometry c c1) in Hsl by by apply passed_geometry. rewrite reach_slot in Hsl by (done || lia). injection Hsl as <-. exact Hse.
  - intros k ck ck' slot Hk Hk' H0 Hn.
    assert (Hnd : ~ drafted_slot max_len K further_rows c slot).
    { intros (s & q & Hs & -> & Hq & Hst)%drafted_in. destruct (sampled_batch s Hs) as [Hb _]. by apply (Hn s q Hb); [lia|]. }
    destruct k as [|k].
    + rewrite (Hold 0 c1 ck' slot H10 Hk' H0 Hnd). replace ck with c by congruence. apply (first_others c1 slot Hf H0).
      intros s q Hs Hq. pose proof (reach_ge s). apply (Hn s q Hs). lia.
    + apply (Hold (S k) ck ck' slot); [|done..]. by rewrite Hcs, list_lookup_insert_ne.
Qed.

Lemma first_done o c1 p1 : AfterFirst o c1 p1 -> StepDone (p1 <| pp_device ::= fun dev => dev <| dv_context := dv_context (pp_device p) |> |>).
Proof using Hok Hstart Hc0.
  intros Haf. pose proof Haf as (_ & Hp1 & _). apply (step_done o c1 p1); try done; [by apply ProposerOk_device|exact (first_caches o c1 p1 Haf)|].
  intros k ck ck' slot Hk Hk' _ _. cbn in Hk'. congruence.
Qed.

Lemma first_pass_done c1 : FirstPassed c1 -> FirstDone c1.
Proof using Hok Hstart Hc0.
  intros Hf. split.
  - intros s Hs q e Hq He. destruct (first_held c1 s Hf Hs q e He) as (sl & Hsl & Hse).
    rewrite (slot_geometry c c1) in Hsl by by apply passed_geometry.
    pose proof (last_position_bounds s Hs). pose proof (reach_ge s). unfold last_position in *.
    rewrite reach_slot in Hsl by (done || lia). injection Hsl as <-. exact Hse.
  - intros slot c0 Hc' H0 Hn. replace c0 with c by congruence. by apply first_others.
Qed.

(** ** The further passes *)

Lemma wp_exact {S A} (m : M S A) s v : wp m s (fun a s' => a = v /\ s' = s) -> m s = (inr v, s).
Proof using. clear. unfold wp. destruct (m s) as [[e|a] s']; [done|]. by intros [-> ->]. Qed.

Lemma further_columns (q : Proposer H E) : sampled <> [] ->
  collect (seqZ 1 (K - 1)) (fun step => step_context p (last_position <$> sampled) (Some (batch_table r seqs <$> sampled))
    (arange (Zlen sampled + 1)) max_position step) q =
  (inr ((fun k => ((fun x => draft_position max_len (dw_pos x) k) <$> further_rows, step_fields max_len max_position further_rows c k)) <$>
    seqZ 1 (K - 1)), q).
Proof using Hok Hstart Hc0.
  intros Hne. apply collect_total. intros step Hs%elem_of_seqZ. apply wp_exact.
  pose proof (step_context_spec max_len bs K max_position further_rows c (further_rows_placed Hne) gbs pbs step ltac:(lia) p q) as Hsp.
  assert (H1 : dw_pos <$> further_rows = last_position <$> sampled) by (unfold further_rows; by rewrite <-list_fmap_compose).
  assert (H2 : dw_table <$> further_rows = batch_table r seqs <$> sampled) by (unfold further_rows; by rewrite <-list_fmap_compose).
  assert (H3 : Zlen further_rows = Zlen sampled) by (unfold further_rows, Zlen; by rewrite length_fmap).
  rewrite H1, H2, H3 in Hsp. by apply Hsp; [apply (dr_ok _ Hok)|].
Qed.

Lemma stacked c1 (more : list (list Z)) :
  (forall i x, first_states c1 !! i = Some x -> (fun column => default 0%Z (column !! i)) <$> more =
     tail (draft_chain cell max_len (dw_pos x.1) (Z.to_nat (K - 1)) 1 x.2)) ->
  stack_columns (Zlen sampled) ((choose ∘ last_hidden <$> sampled) :: more) = drafts_from caches c1 <$> sampled.
Proof using.
  clear. intros Hm. unfold stack_columns, arange. apply list_eq. intros i. rewrite !list_lookup_fmap.
  destruct (sampled !! i) as [s|] eqn:Hi.
  - pose proof (lookup_lt_Some _ _ _ Hi) as Hlt. rewrite lookup_seqZ_lt by (unfold Zlen; lia). cbn [fmap option_fmap option_map]. f_equal.
    specialize (Hm i ({| dw_table := batch_table r seqs s; dw_pos := last_position s |}, first_draft caches c1 s)).
    unfold first_states in Hm. rewrite list_lookup_fmap, Hi in Hm. specialize (Hm eq_refl). cbn [fst snd dw_pos] in Hm.
    rewrite fmap_cons. replace (0 + Z.of_nat i)%Z with (Z.of_nat i) by lia. rewrite py_get_nth, list_lookup_fmap, Hi.
    transitivity (choose (last_hidden s) :: tail (drafts_from caches c1 s)); [|unfold drafts_from; by destruct (Z.to_nat (K - 1))].
    f_equal. unfold drafts_from. rewrite <-Hm. apply list_fmap_ext. intros _ col _. by rewrite py_get_nth.
  - apply lookup_ge_None in Hi. rewrite lookup_seqZ_ge by (unfold Zlen; lia). done.
Qed.

Lemma further_ok o c1 p1 p2 : AfterFirst o c1 p1 -> p2 = p1 <| pp_device ::= fun dev => dev <| dv_context := dv_context (pp_device p) |> |> ->
  sampled <> [] ->
  wp (let! steps := collect (seqZ 1 (K - 1)) (fun step => step_context p (last_position <$> sampled)
        (Some (batch_table r seqs <$> sampled)) (arange (Zlen sampled + 1)) max_position step) in
      let! drafts := further_drafts (first_at_least (Zlen sampled) gbs) steps 1 (last_hidden <$> sampled) [choose ∘ last_hidden <$> sampled] in
      ret (stack_columns (Zlen sampled) drafts)) p2
    (fun o' p' => o' = drafts_from caches c1 <$> sampled /\ StepDone p').
Proof using Hok Hstart Hc0 DrafterOk0.
  intros Haf Hp2 Hne. pose proof Haf as (Ho & Hp1 & Hcs & Hf & Hx).
  pose proof (first_between o c1 p1 Haf) as [B1 B2 B3 B4].
  assert (Hb : Between max_len bs K further_rows c gbs pbs p2 (first_states c1)).
  { rewrite Hp2. split; [by apply ProposerOk_device|done..]. }
  apply wp_bind. pose proof (dr_drafts _ Hok) as HK.
  unfold wp at 1. rewrite (further_columns p2 Hne). cbn beta iota.
  replace (K - 1)%Z with (Z.of_nat (Z.to_nat (K - 1))) at 1 by lia.
  assert (Hhs : last_hidden <$> sampled = ds_hidden ∘ snd <$> first_states c1) by (unfold first_states; by rewrite <-list_fmap_compose).
  rewrite Hhs. apply wp_bind.
  eapply wp_mono; [eapply (further_drafts_ok cell max_len bs K max_position further_rows c (further_rows_placed Hne) gbs pbs (Z.to_nat (K - 1)) 1);
    [lia|lia|exact Hb| |]|].
  - unfold fits. destruct (first_at_least (Zlen sampled) gbs) as [b|] eqn:Hfa; [|done]. apply first_at_least_in in Hfa as [H1 H2].
    split; [done|]. unfold further_rows, Zlen in *. by rewrite length_fmap.
  - unfold first_states. cbn [last]. by rewrite <-list_fmap_compose.
  - intros columns p3 (more & -> & Hmore & Hok3 & Hgeo & Hx3 & Hold). apply wp_ret. split; [by apply stacked|].
    apply (step_done o c1 p1); [done|done| |done|].
    + by rewrite Hx3, Hp2.
    + rewrite Hp2 in Hold. exact Hold.
Qed.

Lemma propose_first :
  wp (propose (drafter_inputs r seqs start) (device_context r seqs start) (concat (st_hid d <$> batch)) (st_acc d <$> sampled) (st_next d <$> sampled)) p
    (fun drafts p' => exists c1, FirstDone c1 /\ drafts = drafts_from caches c1 <$> sampled /\ StepDone p').
Proof using Hok Hstart Hc0 DrafterOk0.
  pose proof (dr_ready _ Hok) as Hready. pose proof (dr_acc _ Hok) as Hacc.
  pose proof (dr_proposer _ Hok) as Hprop. pose proof (dr_ok _ Hok) as [HK _ _ Hgbs _ _ _].
  unfold propose. wp_steps. cbn [drafter_inputs draft_inputs_of di_last_index di_next_token_ids di_sampling_rows di_num_draft_tokens di_block_table
    di_input_ids di_positions di_max_position update_field]. change (id p) with p. rewrite HK, Hgbs.
  rewrite (unsampled_mask_eq r seqs Hready (st_next d) (dr_next _ Hok) start Hstart Hprop).
  apply gather_ok with (last_of r seqs <$> sampling_batch_rows r seqs); [apply gather_last|].
  apply wp_bind, wp_bind, gather_ok with (batch_table r seqs <$> sampled); [apply gather_tables|]. apply wp_ret.
  rewrite (last_indices r seqs Hready), masked_fmap. apply wp_bind, scatter_ok.
  { rewrite roll_back_length, (flat_length r seqs Hready). by apply fixed_in_range. }
  rewrite (sample_index_eq r seqs Hready _ Hacc). apply wp_bind, scatter_ok.
  { rewrite inserts_length, roll_back_length, (flat_length r seqs Hready). by apply sampled_in_range. }
  apply wp_bind, wp_with_context, wp_bind.
  assert (Hpos : tokens_at r seqs (start_of r) (fun _ p => p) = concat (positions_of r <$> batch)) by apply tokens_at_id.
  fold (first_ids r seqs (st_acc d) (st_next d) start). rewrite Hpos.
  eapply wp_mono; [exact first_pass_ok|].
  intros o p1 [c1 Haf]. pose proof Haf as (-> & _ & _ & Hf & Hx). apply wp_bind.
  eapply gather_ok; [exact gather_outputs|].
  apply wp_bind, draft_ok; [exact Hx|]. apply wp_ret. rewrite <-list_fmap_compose.
  assert (Hn : Zlen (st_acc d <$> sampled) = Zlen (sampled))
    by (unfold Zlen; by rewrite length_fmap). rewrite Hn.
  destruct (Z.eqb_spec (Zlen (sampled)) 0) as [H0|H0].
  - assert (Hnil : sampled = []) by (apply length_zero_iff_nil; unfold Zlen in H0; lia).
    apply wp_ret. rewrite Hnil. exists c1. split_and!; [by apply first_pass_done|done|]. by apply (first_done _ c1 p1 Haf).
  - apply wp_bind. eapply gather_ok; [exact gather_positions|].
    eapply wp_mono; [apply (further_ok _ c1 p1 _ Haf); [done|]; intros He; by rewrite He in H0|].
    intros o' p' [-> Hdone]. exists c1. by split_and!; [apply first_pass_done|..].
Qed.

End Propose.

(** [propose]: with one layer, the drafts are those of the kept tokens alone. *)
Section Proposed.
Context {F H E : Type} `{!Ordered F} `{!Drafter F H E} (cell : nat -> list E -> Z * H -> E * H) {latents : bool} `{!DrafterOk cell latents}.
Variables (r : Runner) (seqs : list Sequence) (d : DraftStep (H := H) (E := E)) (gbs pbs : list Z) (p : Proposer H E).
Hypothesis Hok : DraftReady (latents := latents) r seqs d gbs pbs p.
Local Abbreviation sampled := (filter (fun s => samples s = true) seqs).
Local Abbreviation drafts := (drafts_from cell r d (dv_cache (pp_device p))).

Lemma propose_ok start : HostStart r seqs start ->
  wp (propose (drafter_inputs r seqs start) (device_context r seqs start) (concat (st_hid d <$> batch_of r seqs)) (st_acc d <$> sampled) (st_next d <$> sampled)) p
    (fun rows p' => exists c1, FirstDone cell r seqs d p c1 /\ rows = drafts c1 <$> sampled /\ StepDone cell r seqs d gbs pbs p p').
Proof using Hok DrafterOk0.
  intros Hstart. destruct (lookup_lt_is_Some_2 (dv_cache (pp_device p)) 0) as [c Hc].
  { rewrite (dr_layers _ _ _ _ _ _ Hok). pose proof (do_layers cell). lia. }
  by apply (propose_first cell r seqs d gbs pbs p Hok start Hstart c Hc).
Qed.

Lemma one_layer_drafts c1 c2 s : num_mtp_layers = 1%Z -> s ∈ sampled -> drafts c1 s = drafts c2 s.
Proof using Hok DrafterOk0.
  intros Hn Hs. pose proof (exact_HostStart r seqs (rd_rows _ _ (dr_ready _ _ _ _ _ _ Hok))) as Hstart.
  destruct (lookup_lt_is_Some_2 (dv_cache (pp_device p)) 0) as [c Hc].
  { rewrite (dr_layers _ _ _ _ _ _ Hok). pose proof (do_layers cell). lia. }
  destruct (sampled_batch r seqs s Hs) as [Hb _].
  pose proof (kept_entries_length cell r seqs d gbs pbs p Hok (start_of r) Hstart c Hc s Hb) as Hlen.
  assert (Hq : Z.to_nat (draft_position (mr_max_model_len r) (last_position r d s) 1) <= length (kept_entries cell r d s))
    by (unfold draft_position; lia).
  apply one_layer_chain; [done|done|done| | |]; cbn [first_draft ds_entries first_entries].
  - by rewrite !take_app_le.
  - rewrite length_app. lia.
  - rewrite length_app. lia.
Qed.

End Proposed.
