(* ===== verification/Sampler.v ===== *)
(** * Sampling

    [layers/sampler.py] and the draws of [spec_decode/rejection_sampler.py]:
    temperatures, top-k and top-p, and a token by each row's probabilities. A
    row of logits is the list of its entries, -inf is [None], and the random
    numbers are arguments. *)

From S2P Require Import Scheduler Prelude Tensors Attention Moe Proposer SpecDecode Arrays.

(** [torch.sort] gives the order of a row, of equal entries in any; [of_Qc] takes a host's number to the device. *)
Class Sampling (F : Type) `{!Ordered F} := { of_Qc : Qc -> F; argsort : list F -> list nat }.

Definition less {F} `{!Ordered F} (x y : F) : Prop := ~ fle y x.

#[export] Instance less_dec {F} `{!Ordered F} (x y : F) : Decision (less x y).
Proof. unfold less. apply _. Defined.

(** An ordered field with exponentials, as far as probabilities need it. *)
Class SamplingOk (F : Type) `{!Scalar F} `{!Softmax F} `{!Ordered F} `{!Sampling F} := {
  argsort_perm l : argsort l ≡ₚ seq 0 (length l);
  argsort_sorted l i j a b x y : argsort l !! i = Some a -> argsort l !! j = Some b -> i <= j -> l !! a = Some x -> l !! b = Some y -> fle x y;
  exp_above x : less fzero (fexp x);
  add_le x y z : fle x y -> fle (fadd x z) (fadd y z);
  mul_above x y : less fzero x -> less fzero y -> less fzero (fmul x y);
  inv_above x : less fzero x -> less fzero (finv x);
  inv_eq x : less fzero x -> fmul x (finv x) = fone;
  of_Qc_above q : (0 < q)%Qc -> less fzero (of_Qc q)
}.

Section Sampler.
Context {F : Type} `{!Scalar F} `{!Softmax F} `{!Ordered F} `{!Sampling F}.
Local Abbreviation mat := (list (list F)).

(** [torch.softmax(dim=-1)] and [cumsum(dim=-1)] of one row, in which some entry is not -inf. *)
Definition exp_of (x : option F) : F := match x with Some x => fexp x | None => fzero end.

Definition softmax_of (l : list (option F)) : list F :=
  let total := fsum (exp_of <$> l) in (fun x => fmul (exp_of x) (finv total)) <$> l.

Fixpoint cumsum_of (acc : F) (l : list F) : list F :=
  match l with [] => [] | x :: l' => fadd acc x :: cumsum_of (fadd acc x) l' end.

(** ** [apply_top_k_top_p], one row of it *)

(** The [k]-th largest is the cutoff. *)
Definition top_k_row (k : Z) (sorted : list F) : list (option F) :=
  let vocab_size := Zlen sorted in
  let k := Z.min (if (0 <? k)%Z then k else vocab_size) vocab_size in
  match py_get sorted (vocab_size - k) with
  | Some cutoff => (fun x => if decide (less x cutoff) then None else Some x) <$> sorted
  | None => Some <$> sorted
  end.

(** The least likely with at most [1 - p] in all, but never the last. *)
Definition top_p_mask (p : Qc) (sorted : list (option F)) : list bool :=
  let probs_sum := cumsum_of fzero (softmax_of sorted) in
  let mask := (fun s => bool_decide (fle s (fsub fone (of_Qc p)))) <$> probs_sum in
  <[length mask - 1 := false]> mask.

Definition masked_fill (l : list (option F)) (mask : list bool) : list (option F) :=
  zip_with (fun x (b : bool) => if b then None else x) l mask.

Definition filter_row (k : option Z) (p : option Qc) (logits : list F) : list (option F) :=
  match k, p with
  | None, None => Some <$> logits
  | _, _ =>
      let logits_idx := argsort logits in
      let logits_sort := (fun i => default fzero (logits !! i)) <$> logits_idx in
      let logits_sort := match k with Some k => top_k_row k logits_sort | None => Some <$> logits_sort end in
      let logits_sort := match p with Some p => masked_fill logits_sort (top_p_mask p logits_sort) | None => logits_sort end in
      inserts (Some <$> logits) logits_idx logits_sort
  end.

(** A value a row, or none for all. *)
Definition per_row {A} (o : option (list A)) (n : nat) : list (option A) :=
  match o with Some l => Some <$> l | None => replicate n None end.

Definition apply_top_k_top_p (logits : mat) (k : option (list Z)) (p : option (list Qc)) : list (list (option F)) :=
  zip_with (fun kp l => filter_row kp.1 kp.2 l) (zip (per_row k (length logits)) (per_row p (length logits))) logits.

(** ** [Sampler] *)

Definition EPS : Qc := Q2Qc (QArith_base.Qmake 1 10000000000).

Definition scale_row (t : Qc) (logits : list F) : list F :=
  (fun x => fmul x (finv (of_Qc (if Qc_le_dec t EPS then EPS else t)))) <$> logits.

(** [probs.div_(noise.clamp_min_(1e-10)).argmax(dim=-1)]. *)
Definition clamp_min (x low : F) : F := if decide (fle x low) then low else x.

Definition race (probs noise : list F) : Z :=
  argmax_row (zip_with (fun p e => fmul p (finv (clamp_min e (of_Qc EPS)))) probs noise).

(** [Sampler.sample], with the noise of each row's entries. *)
Definition sample (logits : mat) (temperatures : list Qc) (top_k : option (list Z)) (top_p : option (list Qc)) (noise : mat) : list Z :=
  let greedy_tokens := argmax_row <$> logits in
  let scaled := zip_with scale_row temperatures logits in
  let probs := softmax_of <$> apply_top_k_top_p scaled top_k top_p in
  let sample_tokens := zip_with race probs noise in
  zip_with (fun t (gs : Z * Z) => if bool_decide (t = 0%Qc) then gs.1 else gs.2) temperatures (zip greedy_tokens sample_tokens).

Definition Sampler_forward (logits : mat) (temperatures : option (list Qc)) (top_k : option (list Z)) (top_p : option (list Qc)) (noise : mat) : list Z :=
  match temperatures with
  | None => argmax_row <$> logits
  | Some ts => sample logits ts top_k top_p noise
  end.

(** ** [RejectionSampler]'s draws *)

(** [probs[draft_index, draft_token_ids] = 0]. *)
Definition exclude (probs : mat) (draft_index : list nat) (draft_token_ids : list Z) : mat :=
  foldl (fun m (p : nat * Z) => alter (fun row => <[Z.to_nat p.2 := fzero]> row) p.1 m) probs (zip draft_index draft_token_ids).

Definition draws_of (logits : mat) (draft_token_ids : list Z) (num_draft_tokens : list nat) (temperatures : list Qc)
    (top_k : option (list Z)) (top_p : option (list Qc)) (coin : list F) (noise : mat) : Draws :=
  let num_logits := num_logits num_draft_tokens in
  let index := draft_index draft_token_ids num_draft_tokens in
  let scaled := zip_with scale_row (repeat_interleave temperatures num_logits) logits in
  let top_k := (fun l => repeat_interleave l num_logits) <$> top_k in
  let top_p := (fun l => repeat_interleave l num_logits) <$> top_p in
  let probs := softmax_of <$> apply_top_k_top_p scaled top_k top_p in
  let draft_probs := zip_with (fun i d => default fzero (row ← probs !! i; row !! Z.to_nat d)) index draft_token_ids in
  {| coins := zip_with (fun u q => bool_decide (less u q)) coin draft_probs;
     draw := zip_with race (exclude probs index draft_token_ids) noise |}.

Definition RejectionSampler_forward (logits : mat) (draft_token_ids : list Z) (num_draft_tokens : list nat) (temperatures : option (list Qc))
    (max_num_drafts : nat) (top_k : option (list Z)) (top_p : option (list Qc)) (coin : list F) (noise : mat) : list (list Z) :=
  rejection_sample (argmax_row <$> logits) draft_token_ids num_draft_tokens temperatures
    (match temperatures with
     | Some ts => draws_of logits draft_token_ids num_draft_tokens ts top_k top_p coin noise
     | None => {| coins := []; draw := [] |}
     end) max_num_drafts.

End Sampler.

(** ** Sums of what is not negative *)

Section Sums.
Context {F : Type} `{!Scalar F} `{!Softmax F} `{!Ordered F} `{!Sampling F} `{!SamplingOk F}.
Add Ring scalars : (scalar_ring (F := F)).

Lemma less_le x y : less x y -> fle x y.
Proof using. unfold less. intros Hn. by destruct (fle_total x y). Qed.

Lemma le_less_trans x y z : fle x y -> less y z -> less x z.
Proof using. intros H1 H2 H3. apply H2. by eapply fle_trans. Qed.

Lemma less_le_trans x y z : less x y -> fle y z -> less x z.
Proof using. intros H1 H2 H3. apply H1. by eapply fle_trans. Qed.

Lemma add_le_l x y z : fle x y -> fle (fadd z x) (fadd z y).
Proof using Type*. intros Hl. replace (fadd z x) with (fadd x z) by ring. replace (fadd z y) with (fadd y z) by ring. by apply add_le. Qed.

Lemma fsum_nonneg l : Forall (fle fzero) l -> fle fzero (fsum l).
Proof using Type*.
  induction 1 as [|x l Hx _ IH]; [apply fle_refl|]. simpl. eapply fle_trans; [exact IH|].
  replace (fsum l) with (fadd fzero (fsum l)) at 1 by ring. by apply add_le.
Qed.

Lemma fsum_above l : Forall (fle fzero) l -> Exists (less fzero) l -> less fzero (fsum l).
Proof using Type*.
  intros Hl. induction 1 as [x l Hx|x l Hx IH]; apply Forall_cons in Hl as [H1 H2]; simpl.
  - eapply less_le_trans; [exact Hx|]. replace x with (fadd x fzero) at 1 by ring. by apply add_le_l, fsum_nonneg.
  - eapply less_le_trans; [by apply IH|]. replace (fsum l) with (fadd fzero (fsum l)) at 1 by ring. by apply add_le.
Qed.

Lemma fsum_mono l k : Forall2 fle l k -> fle (fsum l) (fsum k).
Proof using Type*.
  induction 1 as [|x y l k Hx _ IH]; [apply fle_refl|]. simpl. eapply fle_trans; [by apply add_le|]. by apply add_le_l.
Qed.

Lemma fsum_perm l k : l ≡ₚ k -> fsum l = fsum k.
Proof using Type*. induction 1; simpl; [done|congruence|ring|congruence]. Qed.

Lemma fsum_times c l : fsum ((fun x => fmul x c) <$> l) = fmul (fsum l) c.
Proof using Type*. induction l as [|x l IH]; [simpl; ring|]. rewrite fmap_cons. simpl. rewrite IH. ring. Qed.

Lemma cumsum_of_at acc l j : j < length l -> cumsum_of acc l !! j = Some (fadd acc (fsum (take (S j) l))).
Proof using Type*.
  revert acc j. induction l as [|x l IH]; intros acc [|j] Hj; simpl in *; try lia; [f_equal; ring|].
  rewrite IH by lia. f_equal. simpl. ring.
Qed.

Lemma cumsum_of_length acc l : length (cumsum_of acc l) = length l.
Proof using. clear. revert acc. induction l as [|x l IH]; intros acc; [done|]. simpl. by rewrite IH. Qed.

(** ** Probabilities *)

Definition some_entry (l : list (option F)) : Prop := Exists is_Some l.

Lemma exp_of_nonneg x : fle fzero (exp_of x).
Proof using Type*. destruct x as [x|]; [apply less_le, exp_above|apply fle_refl]. Qed.

Lemma total_above l : some_entry l -> less fzero (fsum (exp_of <$> l)).
Proof using Type*.
  intros Hs. apply fsum_above; [apply Forall_fmap, Forall_forall; intros x _; apply exp_of_nonneg|].
  unfold some_entry in Hs. rewrite Exists_exists in Hs. destruct Hs as (x & Hx & y & ->). apply Exists_exists. exists (fexp y).
  split; [by apply (list_elem_of_fmap_2 exp_of l (Some y))|apply exp_above].
Qed.

Lemma softmax_total l : some_entry l -> fsum (softmax_of l) = fone.
Proof using Type*.
  intros Hs. transitivity (fsum ((fun e => fmul e (finv (fsum (exp_of <$> l)))) <$> (exp_of <$> l))); [by rewrite <-list_fmap_compose|].
  rewrite fsum_times. by apply inv_eq, total_above.
Qed.

Lemma softmax_at l i x : some_entry l -> l !! i = Some x -> exists q, softmax_of l !! i = Some q /\ (x = None -> q = fzero) /\ (is_Some x -> less fzero q).
Proof using Type*.
  intros Hs Hi. unfold softmax_of. rewrite list_lookup_fmap, Hi. eexists. split; [done|]. split.
  - intros ->. simpl. ring.
  - intros [y ->]. apply mul_above; [apply exp_above|by apply inv_above, total_above].
Qed.

Lemma softmax_length (l : list (option F)) : length (softmax_of l) = length l.
Proof using. clear. apply length_fmap. Qed.

Lemma softmax_nonneg l : some_entry l -> Forall (fle fzero) (softmax_of l).
Proof using Type*.
  intros Hs. apply Forall_lookup. intros i q Hq. assert (Hi : i < length l) by (rewrite <-softmax_length; by eapply lookup_lt_Some).
  apply lookup_lt_is_Some_2 in Hi as [x Hx]. destruct (softmax_at l i x Hs Hx) as (q' & Hq' & H0 & H1). rewrite Hq in Hq'. injection Hq' as <-.
  destruct x; [apply less_le, H1; by eexists|rewrite H0 by done; apply fle_refl].
Qed.

(** ** The winner *)

Lemma winner_from_spec (l pre : list F) bi best : pre !! bi = Some best -> Forall (fun x => fle x best) pre ->
  exists i x, argmax_row_from (Zlen pre) (Z.of_nat bi) best l = Z.of_nat i /\ (pre ++ l) !! i = Some x /\ Forall (fun y => fle y x) (pre ++ l).
Proof using.
  clear. revert pre bi best. induction l as [|y l IH]; intros pre bi best Hb Hall; simpl.
  - exists bi, best. by rewrite app_nil_r.
  - assert (Hz : (Zlen pre + 1)%Z = Zlen (pre ++ [y])) by (unfold Zlen; rewrite length_app; simpl; lia). rewrite Hz.
    replace (pre ++ y :: l) with ((pre ++ [y]) ++ l) by by rewrite <-app_assoc. case_decide as Hy.
    + apply IH; [by apply lookup_app_l_Some|]. apply Forall_app. by repeat constructor.
    + apply (IH (pre ++ [y]) (length pre) y); [by apply list_lookup_middle|]. apply Forall_app. split; [|repeat constructor; apply fle_refl].
      eapply Forall_impl; [exact Hall|]. intros z Hz'. eapply fle_trans; [exact Hz'|]. by destruct (fle_total best y).
Qed.

Lemma argmax_row_spec l : l <> [] -> exists i x, argmax_row l = Z.of_nat i /\ l !! i = Some x /\ Forall (fun y => fle y x) l.
Proof using.
  clear. destruct l as [|x l]; [done|]. intros _. destruct (winner_from_spec l [x] 0 x) as (i & y & H1 & H2 & H3); [done|repeat constructor; apply fle_refl|].
  by exists i, y.
Qed.

Lemma clamp_above x low : less fzero low -> less fzero (clamp_min x low).
Proof using.
  clear. intros Hl. unfold clamp_min. case_decide as Hx; [done|]. intros Hn. apply Hl. destruct (fle_total low x) as [H1|H1]; [by eapply fle_trans|done].
Qed.

Lemma eps_above : less fzero (of_Qc EPS).
Proof using Type*. apply of_Qc_above. by vm_compute. Qed.

(** A race is won by an entry with some probability. *)
Lemma race_won probs noise : length noise = length probs -> Exists (less fzero) probs ->
  Forall (fun q => q = fzero \/ less fzero q) probs -> exists i q, race probs noise = Z.of_nat i /\ probs !! i = Some q /\ less fzero q.
Proof using Type*.
  intros Hl Hs Hz. unfold race. set (scores := zip_with _ probs noise).
  assert (Hsc : forall i q e, probs !! i = Some q -> noise !! i = Some e -> scores !! i = Some (fmul q (finv (clamp_min e (of_Qc EPS))))).
  { intros i q e Hq He. unfold scores. by rewrite lookup_zip_with, Hq, He. }
  apply Exists_exists in Hs as (q0 & Hq0 & Habove). apply list_elem_of_lookup in Hq0 as [j Hj].
  destruct (lookup_lt_is_Some_2 noise j) as [e0 He0]; [rewrite Hl; by eapply lookup_lt_Some|].
  assert (Hinv : forall e, less fzero (finv (clamp_min e (of_Qc EPS)))) by (intros e; apply inv_above, clamp_above, eps_above).
  destruct (argmax_row_spec scores) as (i & x & -> & Hi & Hmax).
  { intros Hn. pose proof (Hsc j q0 e0 Hj He0) as Hx. by rewrite Hn in Hx. }
  pose proof Hi as Hi'. unfold scores in Hi'. apply lookup_zip_with_Some in Hi' as (q & e & Hx & Hq & He). exists i, q. split_and!; [done|done|].
  rewrite Forall_forall in Hz. destruct (Hz q (list_elem_of_lookup_2 _ _ _ Hq)) as [H0|H0]; [|done]. exfalso.
  rewrite Forall_forall in Hmax. pose proof (Hmax _ (list_elem_of_lookup_2 _ _ _ (Hsc j q0 e0 Hj He0))) as Hle. rewrite Hx, H0 in Hle.
  replace (fmul fzero (finv (clamp_min e (of_Qc EPS)))) with fzero in Hle by ring. by apply (mul_above q0 (finv (clamp_min e0 (of_Qc EPS)))).
Qed.

End Sums.

(** ** What the filters keep *)

Section Filters.
Context {F : Type} `{!Scalar F} `{!Softmax F} `{!Ordered F} `{!Sampling F} `{!SamplingOk F}.
Add Ring scalars2 : (scalar_ring (F := F)).

(** The probability of the entries above [x], of what is left of a row. *)
Definition mass_above (kept : list (option F)) (x : F) : F :=
  fsum (zip_with (fun q y => match y with Some y => if decide (less x y) then q else fzero | None => fzero end) (softmax_of kept) kept).

(** Entry [i] is among the [k] largest, and those above it that top-k leaves have less than [p] in all. *)
Definition passes_filters (k : option Z) (p : option Qc) (l : list F) (i : nat) : Prop := exists x, l !! i = Some x /\
  (forall k', k = Some k' -> (0 < k')%Z -> (Z.of_nat (length (filter (less x) l)) < k')%Z) /\
  (forall p', p = Some p' -> (0 < p')%Qc -> less (mass_above (filter_row k None l) x) (of_Qc p')).

Section Row.
Variable l : list F.
Hypothesis Hl : l <> [].
Local Abbreviation idx := (argsort l).
Local Abbreviation sorted := ((fun i => default fzero (l !! i)) <$> idx).

Lemma idx_length : length idx = length l.
Proof using SamplingOk0. clear Hl. rewrite (argsort_perm l). apply length_seq. Qed.

Lemma idx_NoDup : NoDup idx.
Proof using SamplingOk0. clear Hl. rewrite (argsort_perm l). apply NoDup_seq. Qed.

Lemma idx_at i : i < length l -> exists j, idx !! j = Some i.
Proof using SamplingOk0. clear Hl. intros Hi. apply list_elem_of_lookup. rewrite (argsort_perm l). apply elem_of_seq. lia. Qed.

Lemma idx_range j i : idx !! j = Some i -> i < length l /\ j < length l.
Proof using SamplingOk0.
  clear Hl. intros Hj. rewrite <-idx_length at 2. split; [|by eapply lookup_lt_Some]. apply list_elem_of_lookup_2 in Hj.
  rewrite (argsort_perm l) in Hj. apply elem_of_seq in Hj. lia.
Qed.

Lemma sorted_at j i x : idx !! j = Some i -> l !! i = Some x -> sorted !! j = Some x.
Proof using. clear. intros Hj Hi. by rewrite list_lookup_fmap, Hj; simpl; rewrite Hi. Qed.

Lemma sorted_perm : sorted ≡ₚ l.
Proof using SamplingOk0.
  clear Hl. rewrite (argsort_perm l). apply (reflexive_eq (R := (≡ₚ))), list_eq. intros i. rewrite list_lookup_fmap.
  destruct (decide (i < length l)) as [Hi|Hi].
  - rewrite lookup_seq_lt by done. simpl. apply lookup_lt_is_Some_2 in Hi as [x ->]. done.
  - rewrite lookup_seq_ge by lia. simpl. symmetry. apply lookup_ge_None. lia.
Qed.

Lemma sorted_le i j x y : sorted !! i = Some x -> sorted !! j = Some y -> i <= j -> fle x y.
Proof using SamplingOk0.
  clear Hl. intros Hi Hj Hij. apply list_lookup_fmap_Some in Hi as (a & -> & Ha). apply list_lookup_fmap_Some in Hj as (b & -> & Hb).
  destruct (idx_range i a Ha) as [Hla _]. destruct (idx_range j b Hb) as [Hlb _].
  apply lookup_lt_is_Some_2 in Hla as [x Hx]. apply lookup_lt_is_Some_2 in Hlb as [y Hy]. rewrite Hx, Hy.
  by apply (argsort_sorted l i j a b).
Qed.

Lemma sorted_length : length sorted = length l.
Proof using SamplingOk0. clear Hl. by rewrite length_fmap, idx_length. Qed.

(** Back in the row's own order. *)
Lemma unsorted j i s : idx !! j = Some i -> length s = length l -> inserts (Some <$> l) idx s !! i = s !! j.
Proof using SamplingOk0.
  clear Hl. intros Hj Hs. destruct (idx_range j i Hj) as [Hi Hjl]. destruct (lookup_lt_is_Some_2 s j) as [v Hv]; [lia|]. rewrite Hv.
  apply (inserts_in _ _ _ j); [apply idx_NoDup|by rewrite idx_length|done|done|by rewrite length_fmap].
Qed.

(** *** Top-k *)

Lemma top_k_length k : length (top_k_row k sorted) = length l.
Proof using SamplingOk0. clear Hl. unfold top_k_row. destruct (py_get _ _); by rewrite length_fmap, sorted_length. Qed.

Lemma top_k_last k : exists x, top_k_row k sorted !! (length l - 1) = Some (Some x).
Proof using SamplingOk0 Hl.
  assert (Hn : length l <> 0) by by destruct l. destruct (lookup_lt_is_Some_2 sorted (length l - 1)) as [x Hx]; [rewrite sorted_length; lia|]. exists x.
  unfold top_k_row. set (k' := Z.min _ _). destruct (py_get sorted (Zlen sorted - k')) as [cutoff|] eqn:Hc; rewrite list_lookup_fmap, Hx; simpl; [|done].
  rewrite decide_False; [done|]. intros Hlt. apply Hlt. 
  assert (Hk : (0 < k' <= Zlen sorted)%Z).
  { unfold k', Zlen. rewrite sorted_length. destruct (Z.ltb_spec 0 k); lia. }
  replace (Zlen sorted - k')%Z with (Z.of_nat (Z.to_nat (Zlen sorted - k'))) in Hc by lia. rewrite py_get_nth in Hc.
  apply (sorted_le _ _ _ _ Hc Hx). unfold Zlen in *. rewrite sorted_length in *. lia.
Qed.

Lemma top_k_kept k j x : top_k_row k sorted !! j = Some (Some x) -> sorted !! j = Some x /\
  ((0 < k)%Z -> (Z.of_nat (length (filter (less x) l)) < k)%Z).
Proof using SamplingOk0.
  clear Hl. unfold top_k_row. set (k' := Z.min _ _). intros Hj. destruct (py_get sorted (Zlen sorted - k')) as [cutoff|] eqn:Hc.
  - apply list_lookup_fmap_Some in Hj as (y & Hy & Hj). case_decide as Hlt; [done|]. injection Hy as ->. split; [done|]. intros Hk.
    assert (Hlen : (0 < Zlen sorted)%Z) by (apply lookup_lt_Some in Hj; unfold Zlen; lia).
    assert (Hk' : (0 < k' <= Zlen sorted /\ k' <= k)%Z) by (unfold k'; destruct (Z.ltb_spec 0 k); lia).
    set (m := Z.to_nat (Zlen sorted - k')). replace (Zlen sorted - k')%Z with (Z.of_nat m) in Hc by lia. rewrite py_get_nth in Hc.
    rewrite <-sorted_perm. rewrite <-(take_drop (S m) sorted), filter_app, length_app.
    assert (Hnil : filter (less y) (take (S m) sorted) = []).
    { apply filter_Forall_not, Forall_lookup. intros i z Hz. apply lookup_take_Some in Hz as [Hz Hi].
      intros Hn. apply Hlt. intros Hcy. apply Hn. eapply fle_trans; [|exact Hcy]. apply (sorted_le _ _ _ _ Hz Hc). lia. }
    rewrite Hnil. pose proof (length_filter (less y) (drop (S m) sorted)) as Hf. rewrite length_drop in Hf. simpl in *. unfold Zlen in *. lia.
  - apply list_lookup_fmap_Some in Hj as (y & Hy & Hj). injection Hy as ->. exfalso.
    assert (Hlen : (0 < Zlen sorted)%Z) by (apply lookup_lt_Some in Hj; unfold Zlen; lia).
    assert (Hk' : (0 < k' <= Zlen sorted)%Z) by (unfold k'; destruct (Z.ltb_spec 0 k); lia).
    replace (Zlen sorted - k')%Z with (Z.of_nat (Z.to_nat (Zlen sorted - k'))) in Hc by lia. rewrite py_get_nth in Hc.
    apply lookup_ge_None in Hc. unfold Zlen in *. lia.
Qed.

(** *** Top-p *)

Definition filtered_k (k : option Z) : list (option F) := match k with Some k => top_k_row k sorted | None => Some <$> sorted end.
Definition filtered (k : option Z) (p : option Qc) : list (option F) :=
  match p with Some p => masked_fill (filtered_k k) (top_p_mask p (filtered_k k)) | None => filtered_k k end.

Lemma filtered_k_length k : length (filtered_k k) = length l.
Proof using SamplingOk0. clear Hl. destruct k; [by apply top_k_length|]. cbn [filtered_k]. by rewrite length_fmap, sorted_length. Qed.

Lemma filtered_k_last k : exists x, filtered_k k !! (length l - 1) = Some (Some x).
Proof using SamplingOk0 Hl.
  destruct k as [k|]; [by apply top_k_last|]. assert (Hn : length l <> 0) by by destruct l.
  destruct (lookup_lt_is_Some_2 sorted (length l - 1)) as [x Hx]; [rewrite sorted_length; lia|]. exists x. cbn [filtered_k]. by rewrite list_lookup_fmap, Hx.
Qed.

Lemma filtered_k_kept k j x : filtered_k k !! j = Some (Some x) -> sorted !! j = Some x /\
  (forall k', k = Some k' -> (0 < k')%Z -> (Z.of_nat (length (filter (less x) l)) < k')%Z).
Proof using SamplingOk0.
  clear Hl. destruct k as [k|]; intros Hj.
  - apply top_k_kept in Hj as [Hj Hk]. split; [done|]. by intros k' [= <-].
  - apply list_lookup_fmap_Some in Hj as (y & [= ->] & Hj). done.
Qed.

Lemma some_filtered k : some_entry (filtered_k k).
Proof using SamplingOk0 Hl.
  destruct (filtered_k_last k) as [x Hx]. apply Exists_exists. exists (Some x). split; [by eapply list_elem_of_lookup_2|by eexists].
Qed.

Lemma top_p_kept p s j x : some_entry s -> (0 < p)%Qc -> masked_fill s (top_p_mask p s) !! j = Some (Some x) ->
  s !! j = Some (Some x) /\ less (fsum (drop (S j) (softmax_of s))) (of_Qc p).
Proof using SamplingOk0.
  clear Hl. intros Hs Hp Hj. unfold masked_fill in Hj. apply lookup_zip_with_Some in Hj as (y & b & Hy & Hsj & Hb). destruct b; [done|]. subst y.
  split; [done|]. assert (Hlt : j < length (softmax_of s)) by (rewrite softmax_length; by eapply lookup_lt_Some).
  unfold top_p_mask in Hb. set (mask := (fun t => bool_decide _) <$> _) in Hb.
  assert (Hml : length mask = length (softmax_of s)) by (unfold mask; by rewrite length_fmap, cumsum_of_length).
  destruct (decide (j = length mask - 1)) as [->|Hne].
  - rewrite drop_ge by lia. simpl. by apply of_Qc_above.
  - rewrite list_lookup_insert_ne in Hb by done. unfold mask in Hb. rewrite list_lookup_fmap, cumsum_of_at in Hb by done. injection Hb as Hb.
    apply bool_decide_eq_false in Hb. pose proof (softmax_total s Hs) as Ht. rewrite <-(take_drop (S j) (softmax_of s)), fsum_app in Ht.
    set (c := fsum (take (S j) (softmax_of s))) in *. set (m := fsum (drop (S j) (softmax_of s))) in *. intros Hle. apply Hb.
    apply (add_le _ _ (fsub c (of_Qc p))) in Hle. replace (fadd (of_Qc p) (fsub c (of_Qc p))) with (fadd fzero c) in Hle by ring.
    replace (fadd m (fsub c (of_Qc p))) with (fsub (fadd c m) (of_Qc p)) in Hle by ring. by rewrite Ht in Hle.
Qed.

Lemma filtered_length k p : length (filtered k p) = length l.
Proof using SamplingOk0.
  clear Hl. unfold filtered. destruct p as [p|]; [|apply filtered_k_length]. unfold masked_fill, top_p_mask.
  rewrite length_zip_with, length_insert, length_fmap, cumsum_of_length, softmax_length, filtered_k_length. lia.
Qed.

Lemma filtered_last k p : exists x, filtered k p !! (length l - 1) = Some (Some x).
Proof using SamplingOk0 Hl.
  assert (Hn : length l <> 0) by by destruct l. destruct (filtered_k_last k) as [x Hx]. exists x. unfold filtered. destruct p as [p|]; [|done].
  unfold masked_fill. rewrite lookup_zip_with, Hx. unfold top_p_mask. simpl.
  set (mask := (fun t => bool_decide _) <$> _). assert (Hml : length mask = length l).
  { unfold mask. by rewrite length_fmap, cumsum_of_length, softmax_length, filtered_k_length. }
  rewrite Hml, list_lookup_insert_eq by lia. done.
Qed.

(** Masses do not depend on the order. *)
Lemma mass_above_sum s x : mass_above s x = fsum ((fun y => match y with Some z => if decide (less x z) then fmul (exp_of y) (finv (fsum (exp_of <$> s))) else fzero
  | None => fzero end) <$> s).
Proof using.
  clear. unfold mass_above, softmax_of. f_equal. generalize (finv (fsum (exp_of <$> s))). intros c. induction s as [|y s IH]; [done|].
  rewrite !fmap_cons. cbn [zip_with]. f_equal. exact IH.
Qed.

Lemma mass_above_perm s s' x : s ≡ₚ s' -> mass_above s x = mass_above s' x.
Proof using SamplingOk0.
  clear Hl. intros Hp. rewrite !mass_above_sum. rewrite (fsum_perm (exp_of <$> s) (exp_of <$> s')) by by rewrite Hp.
  apply fsum_perm. by rewrite Hp.
Qed.

Lemma unsorted_perm s : length s = length l -> inserts (Some <$> l) idx s ≡ₚ s.
Proof using SamplingOk0.
  clear Hl. intros Hs. set (kept := inserts _ _ s). assert (Hkl : length kept = length l) by (unfold kept; by rewrite inserts_length, length_fmap).
  transitivity ((fun i => default None (kept !! i)) <$> idx).
  - rewrite (argsort_perm l). apply (reflexive_eq (R := (≡ₚ))), list_eq. intros i. rewrite list_lookup_fmap. destruct (decide (i < length l)) as [Hi|Hi].
    + rewrite lookup_seq_lt by done. simpl. destruct (lookup_lt_is_Some_2 kept i) as [x Hx]; [lia|]. by rewrite Hx.
    + rewrite lookup_seq_ge by lia. simpl. apply lookup_ge_None. lia.
  - apply (reflexive_eq (R := (≡ₚ))), list_eq. intros j. rewrite list_lookup_fmap. destruct (idx !! j) as [i|] eqn:Hj.
    + simpl. unfold kept. rewrite (unsorted j i s Hj Hs). destruct (idx_range j i Hj) as [_ Hjl].
      destruct (lookup_lt_is_Some_2 s j) as [v Hv]; [lia|]. by rewrite Hv.
    + simpl. symmetry. apply lookup_ge_None. apply lookup_ge_None in Hj. rewrite idx_length in Hj. lia.
Qed.

Lemma kept_k_perm k : filter_row k None l ≡ₚ filtered_k k.
Proof using SamplingOk0.
  clear Hl. destruct k as [k|]; cbn [filter_row filtered_k]; [by apply unsorted_perm, top_k_length|]. symmetry. by rewrite sorted_perm.
Qed.

(** Those above an entry are after it. *)
Lemma mass_after k j x : filtered_k k !! j = Some (Some x) -> fle (mass_above (filtered_k k) x) (fsum (drop (S j) (softmax_of (filtered_k k)))).
Proof using SamplingOk0 Hl.
  intros Hj. destruct (filtered_k_kept k j x Hj) as [Hsj _]. set (s := filtered_k k) in *. unfold mass_above. set (f := fun q y => _).
  rewrite <-(take_drop (S j) (zip_with f (softmax_of s) s)), fsum_app. rewrite zip_with_take, zip_with_drop.
  assert (H0 : fsum (zip_with f (take (S j) (softmax_of s)) (take (S j) s)) = fzero).
  { assert (Hz : Forall (fun v => v = fzero) (zip_with f (take (S j) (softmax_of s)) (take (S j) s))).
    { apply Forall_lookup. intros i v Hv. apply lookup_zip_with_Some in Hv as (q & y & -> & _ & Hy). apply lookup_take_Some in Hy as [Hy Hi].
      unfold f. destruct y as [y|]; [|done]. rewrite decide_False; [done|]. intros Hn. apply Hn.
      destruct (filtered_k_kept k i y Hy) as [Hsi _]. apply (sorted_le _ _ _ _ Hsi Hsj). lia. }
    clear -Hz SamplingOk0. induction Hz as [|v vs -> _ IH]; [done|]. simpl. rewrite IH. ring. }
  rewrite H0. replace (fadd fzero (fsum (zip_with f (drop (S j) (softmax_of s)) (drop (S j) s)))) with
    (fsum (zip_with f (drop (S j) (softmax_of s)) (drop (S j) s))) by ring.
  apply fsum_mono. pose proof (softmax_nonneg s (some_filtered k)) as Hnn.
  assert (Hlen : length (drop (S j) (softmax_of s)) = length (drop (S j) s)) by (rewrite !length_drop, softmax_length; lia).
  apply (Forall_drop _ (S j)) in Hnn. revert Hnn Hlen. generalize (drop (S j) (softmax_of s)) (drop (S j) s).
  intros qs. clear -qs SamplingOk0. induction qs as [|q qs IH]; intros ys Hq Hlen; [constructor|]. destruct ys as [|y ys]; [done|].
  apply Forall_cons in Hq as [Hq Hqs]. injection Hlen as Hlen. constructor; [|by apply IH]. unfold f. destruct y as [y|]; [|done]. case_decide; [apply fle_refl|done].
Qed.

(** *** Both *)

Lemma filter_row_cases k p : (k = None /\ p = None /\ filter_row k p l = Some <$> l) \/ filter_row k p l = inserts (Some <$> l) idx (filtered k p).
Proof using. clear. destruct k, p; auto. Qed.

Lemma filter_row_length k p : length (filter_row k p l) = length l.
Proof using. clear. destruct (filter_row_cases k p) as [(_ & _ & ->)| ->]; [apply length_fmap|]. by rewrite inserts_length, length_fmap. Qed.

Lemma kept_passes k p i x : filter_row k p l !! i = Some (Some x) -> passes_filters k p l i.
Proof using SamplingOk0 Hl.
  intros Hi. pose proof (lookup_lt_Some _ _ _ Hi) as Hlt. rewrite filter_row_length in Hlt.
  destruct (filter_row_cases k p) as [(-> & -> & He)|He]; rewrite He in Hi.
  - apply list_lookup_fmap_Some in Hi as (y & [= ->] & Hy). by exists y.
  - destruct (idx_at i Hlt) as [j Hj]. rewrite (unsorted j i) in Hi by (done || apply filtered_length).
    assert (Hk : filtered_k k !! j = Some (Some x) /\ forall p', p = Some p' -> (0 < p')%Qc -> less (fsum (drop (S j) (softmax_of (filtered_k k)))) (of_Qc p')).
    { unfold filtered in Hi. destruct p as [p|]; [|done]. split.
      - unfold masked_fill in Hi. apply lookup_zip_with_Some in Hi as (y & b & Hy & Hsj & _). destruct b; [done|by subst].
      - intros p' [= <-] Hp. by apply (top_p_kept p _ j x (some_filtered k)). }
    destruct Hk as [Hkj Hmass]. destruct (filtered_k_kept k j x Hkj) as [Hsj Hcount]. exists x. split_and!; [|exact Hcount|].
    + apply lookup_lt_is_Some_2 in Hlt as [y Hy]. pose proof (sorted_at j i y Hj Hy) as Hs'. rewrite Hsj in Hs'. by injection Hs' as ->.
    + intros p' Hp' Hpos. eapply le_less_trans; [|by apply Hmass]. rewrite (mass_above_perm _ _ x (kept_k_perm k)). by apply mass_after.
Qed.

Lemma some_kept k p : some_entry (filter_row k p l).
Proof using SamplingOk0 Hl.
  destruct (filter_row_cases k p) as [(_ & _ & ->)| ->].
  - destruct l as [|x l']; [done|]. apply Exists_exists. exists (Some x). split; [constructor|by eexists].
  - destruct (filtered_last k p) as [x Hx]. apply Exists_exists. exists (Some x). split; [|by eexists].
    rewrite (unsorted_perm _ (filtered_length k p)). by eapply list_elem_of_lookup_2.
Qed.

(** A sampled entry is one that the filters keep. *)
Lemma race_passes k p noise : length noise = length l -> exists i, race (softmax_of (filter_row k p l)) noise = Z.of_nat i /\ passes_filters k p l i.
Proof using SamplingOk0 Hl.
  intros Hn. set (kept := filter_row k p l). pose proof (some_kept k p) as Hs. fold kept in Hs.
  assert (Hat : forall i q, softmax_of kept !! i = Some q -> exists x, kept !! i = Some x /\ (x = None -> q = fzero) /\ (is_Some x -> less fzero q)).
  { intros i q Hq. assert (Hi : i < length kept) by (rewrite <-softmax_length; by eapply lookup_lt_Some). apply lookup_lt_is_Some_2 in Hi as [x Hx].
    destruct (softmax_at kept i x Hs Hx) as (q' & Hq' & H0 & H1). rewrite Hq in Hq'. injection Hq' as <-. by exists x. }
  destruct (race_won (softmax_of kept) noise) as (i & q & Hr & Hq & Hpos).
  - unfold kept; by rewrite softmax_length, Hn, filter_row_length.
  - apply Exists_exists in Hs as (x & Hx & Hsome). apply list_elem_of_lookup in Hx as [i Hx].
    destruct (softmax_at kept i x (some_kept k p) Hx) as (q & Hq & _ & H1). apply Exists_exists. exists q. split; [by eapply list_elem_of_lookup_2|by apply H1].
  - apply Forall_lookup. intros i q Hq. destruct (Hat i q Hq) as ([x|] & _ & H0 & H1); [right; apply H1; by eexists|left; by apply H0].
  - exists i. split; [done|]. destruct (Hat i q Hq) as ([x|] & Hx & H0 & _); [by apply (kept_passes k p i x)|].
    exfalso. apply Hpos. rewrite H0 by done. apply fle_refl.
Qed.

End Row.
End Filters.

(** ** Sampling a batch *)

Section Batch.
Context {F : Type} `{!Scalar F} `{!Softmax F} `{!Ordered F} `{!Sampling F} `{!SamplingOk F}.
Add Ring scalars3 : (scalar_ring (F := F)).

Definition row_value {A} (o : option (list A)) (i : nat) : option A := l ← o; l !! i.
Definition given_rows {A} (o : option (list A)) (n : nat) : Prop := forall l, o = Some l -> length l = n.

Lemma per_row_at {A} (o : option (list A)) n i : given_rows o n -> i < n -> per_row o n !! i = Some (row_value o i).
Proof using.
  clear. intros Hg Hi. destruct o as [l|]; simpl; [|by rewrite lookup_replicate_2]. specialize (Hg l eq_refl).
  rewrite list_lookup_fmap. destruct (lookup_lt_is_Some_2 l i) as [x Hx]; [lia|]. by rewrite Hx.
Qed.

Lemma apply_at logits k p i l : given_rows k (length logits) -> given_rows p (length logits) -> logits !! i = Some l ->
  apply_top_k_top_p logits k p !! i = Some (filter_row (row_value k i) (row_value p i) l).
Proof using.
  clear. intros Hk Hp Hi. pose proof (lookup_lt_Some _ _ _ Hi) as Hlt. unfold apply_top_k_top_p.
  rewrite lookup_zip_with, lookup_zip_with, !per_row_at, Hi by done. done.
Qed.

Lemma scaled_at ts (logits : list (list F)) i t l : ts !! i = Some t -> logits !! i = Some l -> zip_with scale_row ts logits !! i = Some (scale_row t l).
Proof using. clear. intros Ht Hl. by rewrite lookup_zip_with, Ht, Hl. Qed.

(** [Sampler.sample]: greedy rows take their greatest logit, the others a token that their filters keep. *)
Lemma sample_row logits ts k p noise i t l e : length ts = length logits -> given_rows k (length logits) -> given_rows p (length logits) ->
  logits !! i = Some l -> ts !! i = Some t -> noise !! i = Some e -> l <> [] -> length e = length l ->
  exists x, sample logits ts k p noise !! i = Some x /\ (t = 0%Qc -> x = argmax_row l) /\
    (t <> 0%Qc -> exists j, x = Z.of_nat j /\ passes_filters (row_value k i) (row_value p i) (scale_row t l) j).
Proof using SamplingOk0.
  intros Hlen Hk Hp Hl Ht He Hne Hel. unfold sample.
  assert (Hsl : length (zip_with scale_row ts logits) = length logits) by (rewrite length_zip_with; lia).
  assert (Hpr : (softmax_of <$> apply_top_k_top_p (zip_with scale_row ts logits) k p) !! i =
    Some (softmax_of (filter_row (row_value k i) (row_value p i) (scale_row t l)))).
  { rewrite list_lookup_fmap, (apply_at _ k p i (scale_row t l)); [done|by rewrite Hsl|by rewrite Hsl|by apply scaled_at]. }
  destruct (race_passes (scale_row t l)) with (k := row_value k i) (p := row_value p i) (noise := e) as (j & Hr & Hpass).
  { unfold scale_row. intros Hn. by apply fmap_nil_inv in Hn. }
  { unfold scale_row. by rewrite Hel, length_fmap. }
  eexists. split.
  { rewrite lookup_zip_with, Ht, lookup_zip_with, list_lookup_fmap, Hl, lookup_zip_with, Hpr, He. reflexivity. }
  cbn [fst snd]. split; intros Hz.
  - by rewrite bool_decide_eq_true_2.
  - rewrite bool_decide_eq_false_2 by done. by exists j.
Qed.

(** ** What [exclude] leaves *)

Lemma exclude_out probs index (ds : list Z) j : j ∉ index -> exclude probs index ds !! j = probs !! j.
Proof using.
  clear. unfold exclude. revert probs ds. induction index as [|i index IH]; intros probs [|d ds] Hj; try done. apply not_elem_of_cons in Hj as [H1 H2].
  cbn [zip zip_with foldl fst snd]. rewrite IH by done. by apply list_lookup_alter_ne.
Qed.

Lemma exclude_in probs index (ds : list Z) m j d : NoDup index -> index !! m = Some j -> ds !! m = Some d ->
  exclude probs index ds !! j = (fun row => <[Z.to_nat d := fzero]> row) <$> probs !! j.
Proof using.
  clear. unfold exclude. revert probs ds m. induction index as [|i index IH]; intros probs [|d' ds] m Hnd Hm Hd; try done.
  apply NoDup_cons in Hnd as [H1 H2]. cbn [zip zip_with foldl fst snd]. destruct m as [|m].
  - injection Hm as ->. injection Hd as ->. pose proof (exclude_out (alter (fun row => <[Z.to_nat d:=fzero]> row) j probs) index ds j H1) as Ho.
    unfold exclude in Ho. rewrite Ho. apply list_lookup_alter_eq.
  - rewrite (IH _ ds m) by done. f_equal. apply list_lookup_alter_ne. intros ->. apply H1. by eapply list_elem_of_lookup_2.
Qed.

Lemma fsum_insert (l : list F) d q : l !! d = Some q -> fsum l = fadd (fsum (<[d := fzero]> l)) q.
Proof using SamplingOk0.
  revert d. induction l as [|x l IH]; intros [|d] Hd; try done; simpl.
  - injection Hd as ->. ring.
  - rewrite (IH d Hd). ring.
Qed.

(** With an entry of less than all the mass left out, the race is won by another that is kept. *)
Lemma race_excluded k p l noise d q : l <> [] -> length noise = length l -> softmax_of (filter_row k p l) !! d = Some q -> less q fone ->
  exists i, race (<[d := fzero]> (softmax_of (filter_row k p l))) noise = Z.of_nat i /\ passes_filters k p l i /\ i <> d.
Proof using SamplingOk0.
  intros Hl Hn Hd Hq. set (kept := filter_row k p l) in *. pose proof (some_kept l Hl k p) as Hs. fold kept in Hs. set (qs := softmax_of kept) in *.
  assert (Hlen : length qs = length kept) by apply softmax_length.
  assert (Hcase : forall i v, <[d := fzero]> qs !! i = Some v -> v = fzero \/ (less fzero v /\ i <> d /\ exists x, kept !! i = Some (Some x))).
  { intros i v Hv. destruct (decide (d = i)) as [<-|Hne].
    - rewrite list_lookup_insert_eq in Hv by (by eapply lookup_lt_Some). injection Hv as <-. by left.
    - rewrite list_lookup_insert_ne in Hv by done. destruct (lookup_lt_is_Some_2 kept i) as [x Hx]; [rewrite <-Hlen; by eapply lookup_lt_Some|].
      destruct (softmax_at kept i x Hs Hx) as (v' & Hv' & H0 & H1). change (softmax_of kept) with qs in Hv'. rewrite Hv in Hv'. injection Hv' as <-.
      destruct x as [x|]; [right; split_and!; [apply H1; by eexists|done|by exists x]|left; by apply H0]. }
  assert (Hpos : Exists (less fzero) (<[d := fzero]> qs)).
  { destruct (decide (Exists (less fzero) (<[d := fzero]> qs))) as [|Hno]; [done|]. exfalso.
    assert (Hz : Forall (fun v => v = fzero) (<[d := fzero]> qs)).
    { apply Forall_lookup. intros i v Hv. destruct (Hcase i v Hv) as [|(Hv' & _)]; [done|]. exfalso. apply Hno, Exists_exists. exists v.
      split; [by eapply list_elem_of_lookup_2|done]. }
    assert (Hsum : fsum (<[d := fzero]> qs) = fzero).
    { clear -Hz SamplingOk0. induction Hz as [|v vs -> _ IH]; [done|]. simpl. rewrite IH. ring. }
    pose proof (softmax_total kept Hs) as Ht. change (softmax_of kept) with qs in Ht. rewrite (fsum_insert qs d q Hd), Hsum in Ht.
    apply Hq. rewrite <-Ht. replace (fadd fzero q) with q by ring. apply fle_refl. }
  destruct (race_won (<[d := fzero]> qs) noise) as (i & v & Hr & Hv & Hvp).
  - rewrite length_insert, Hlen, Hn. symmetry. apply filter_row_length.
  - done.
  - apply Forall_lookup. intros i v Hv. destruct (Hcase i v Hv) as [|(H1 & _)]; [by left|by right].
  - exists i. destruct (Hcase i v Hv) as [H0|(_ & Hne & x & Hx)]; [exfalso; apply Hvp; rewrite H0; apply fle_refl|].
    split_and!; [done| |done]. by apply (kept_passes l Hl k p i x).
Qed.

End Batch.

(** ** Verifying a batch *)

(** A batch for the rejection sampler, of [V] tokens: a row of logits for each draft and one more for each sequence; coins are in [0, 1). *)
Record VerifyOk {F} `{!Scalar F} `{!Ordered F} (logits : list (list F)) (drafts : list Z) (ns : list nat) (ts : list Qc) (k : option (list Z))
    (p : option (list Qc)) (coin : list F) (noise : list (list F)) (width V : nat) : Prop := {
  vo_wide : Forall (fun l => length l = V) logits;
  vo_vocab : 0 < V;
  vo_logits : length logits = sum_list (S <$> ns);
  vo_drafts : length drafts = sum_list ns;
  vo_ids : Forall (fun d => 0 <= d < Z.of_nat V)%Z drafts;
  vo_width r n : ns !! r = Some n -> n <= width;
  vo_ts : length ts = length ns;
  vo_k : given_rows k (length ns);
  vo_p : given_rows p (length ns);
  vo_coin : length coin = sum_list ns;
  vo_unit : Forall (fun u => fle fzero u /\ less u fone) coin;
  vo_noise : length noise = sum_list (S <$> ns);
  vo_noise_wide : Forall (fun l => length l = V) noise
}.

Section Verify.
Context {F : Type} `{!Scalar F} `{!Softmax F} `{!Ordered F} `{!Sampling F} `{!SamplingOk F}.
Variable logits : list (list F).
Variable drafts : list Z.
Variable ns : list nat.
Variable ts : list Qc.
Variable k : option (list Z).
Variable p : option (list Qc).
Variable coin : list F.
Variable noise : list (list F).
Variable width V : nat.
Local Abbreviation total := (sum_list (S <$> ns)).
Hypothesis Hwide : Forall (fun l => length l = V) logits.
Hypothesis Hvocab : 0 < V.
Hypothesis Hlogits : length logits = total.
Hypothesis Hdrafts : length drafts = sum_list ns.
Hypothesis Hids : Forall (fun d => 0 <= d < Z.of_nat V)%Z drafts.
Hypothesis Hwidth : forall r n, ns !! r = Some n -> n <= width.
Hypothesis Hts : length ts = length ns.
Hypothesis Hk : given_rows k (length ns).
Hypothesis Hp : given_rows p (length ns).
Hypothesis Hcoin : length coin = sum_list ns.
Hypothesis Hunit : Forall (fun u => fle fzero u /\ less u fone) coin.
Hypothesis Hnoise : length noise = total.
Hypothesis Hnoise_wide : Forall (fun l => length l = V) noise.

Local Abbreviation index := (draft_index drafts ns).
Local Abbreviation kk := ((fun l => repeat_interleave l (S <$> ns)) <$> k).
Local Abbreviation pp := ((fun l => repeat_interleave l (S <$> ns)) <$> p).
Local Abbreviation probs := (softmax_of <$> apply_top_k_top_p (zip_with scale_row (repeat_interleave ts (S <$> ns)) logits) kk pp).
Local Abbreviation draws := (draws_of logits drafts ns ts k p coin noise).
Local Abbreviation greedy := (argmax_row <$> logits).
Definition logits_row (r c : nat) : nat := offset ns r + r + c.

Lemma repeated_at {A} (l : list A) r n c : length l = length ns -> ns !! r = Some n -> c < S n -> repeat_interleave l (S <$> ns) !! logits_row r c = l !! r.
Proof using.
  clear. intros Hl Hr Hc. unfold logits_row. rewrite <-offset_logits by (apply lookup_lt_Some in Hr; lia).
  apply (repeat_interleave_lookup _ _ r (S n)); [by rewrite length_fmap|by rewrite list_lookup_fmap, Hr|done].
Qed.

Lemma row_in_range r n c : ns !! r = Some n -> c < S n -> logits_row r c < total.
Proof using.
  clear. intros Hr Hc. unfold logits_row. rewrite <-offset_logits by (apply lookup_lt_Some in Hr; lia).
  pose proof (offset_bound (S <$> ns) r (S n)) as Hb. rewrite list_lookup_fmap, Hr in Hb. specialize (Hb eq_refl). lia.
Qed.

Lemma repeated_value {A} (o : option (list A)) r n c : given_rows o (length ns) -> ns !! r = Some n -> c < S n ->
  given_rows ((fun l => repeat_interleave l (S <$> ns)) <$> o) total /\ row_value ((fun l => repeat_interleave l (S <$> ns)) <$> o) (logits_row r c) = row_value o r.
Proof using.
  clear. intros Ho Hr Hc. destruct o as [l|]; [|done]. specialize (Ho l eq_refl). split.
  - intros l' [= <-]. rewrite repeat_interleave_length; [done|by rewrite length_fmap].
  - by apply (repeated_at l r n c).
Qed.

(** The row that place [c] of sequence [r] samples from. *)
Definition place_row (r c : nat) : list F := scale_row (default 1%Qc (ts !! r)) (default [] (logits !! logits_row r c)).

Lemma row_probs r n c : ns !! r = Some n -> c < S n ->
  probs !! logits_row r c = Some (softmax_of (filter_row (row_value k r) (row_value p r) (place_row r c))) /\ length (place_row r c) = V /\ place_row r c <> [].
Proof using Hwide Hvocab Hlogits Hts Hk Hp.
  clear Hdrafts Hcoin Hnoise. intros Hr Hc. pose proof (row_in_range r n c Hr Hc) as Hlt. rewrite <-Hlogits in Hlt. apply lookup_lt_is_Some_2 in Hlt as [l Hl].
  destruct (lookup_lt_is_Some_2 ts r) as [t Ht]; [rewrite Hts; by eapply lookup_lt_Some|].
  assert (Hrow : place_row r c = scale_row t l) by (unfold place_row; by rewrite Ht, Hl).
  assert (HV : length (place_row r c) = V).
  { rewrite Hrow. unfold scale_row. rewrite length_fmap. rewrite Forall_lookup in Hwide. by apply (Hwide _ _ Hl). }
  split_and!; [|done|by intros Hn; rewrite Hn in HV; simpl in HV; lia].
  destruct (repeated_value k r n c Hk Hr Hc) as [Hk1 Hk2]. destruct (repeated_value p r n c Hp Hr Hc) as [Hp1 Hp2].
  assert (Hsl : length (zip_with scale_row (repeat_interleave ts (S <$> ns)) logits) = total).
  { rewrite length_zip_with, repeat_interleave_length by by rewrite length_fmap. lia. }
  rewrite list_lookup_fmap, (apply_at _ kk pp (logits_row r c) (scale_row t l)).
  - rewrite Hk2, Hp2, Hrow. done.
  - by rewrite Hsl.
  - by rewrite Hsl.
  - apply scaled_at; [|done]. by rewrite (repeated_at ts r n c).
Qed.

Lemma index_at r n c : ns !! r = Some n -> c < n -> index !! (offset ns r + c) = Some (logits_row r c).
Proof using Hdrafts. clear -Hdrafts. intros Hr Hc. by apply (draft_index_lookup (replicate total 0%Z) drafts ns Hdrafts (length_replicate _ _) r n c). Qed.

Lemma index_length : length index = sum_list ns.
Proof using Hdrafts.
  clear -Hdrafts. unfold draft_index. rewrite length_zip_with, (draft_cols_length (replicate total 0%Z) drafts ns Hdrafts (length_replicate _ _)). unfold SpecDecode.gather. rewrite length_fmap, draft_rows_length. lia.
Qed.

Lemma index_inv j i : index !! j = Some i -> exists r n c, ns !! r = Some n /\ c < n /\ j = offset ns r + c /\ i = logits_row r c.
Proof using Hdrafts.
  clear -Hdrafts. intros Hj. destruct (offset_inv ns j) as (r & n & c & Hr & Hc & ->); [rewrite <-index_length; by eapply lookup_lt_Some|].
  rewrite (index_at r n c Hr Hc) in Hj. injection Hj as <-. by exists r, n, c.
Qed.

Lemma rows_distinct r n c r' n' c' : ns !! r = Some n -> ns !! r' = Some n' -> c < S n -> c' < S n' -> logits_row r c = logits_row r' c' -> r = r' /\ c = c'.
Proof using.
  clear. intros Hr Hr' Hc Hc' He. unfold logits_row in He. rewrite <-!offset_logits in He by (apply lookup_lt_Some in Hr, Hr'; lia).
  apply (offset_inj (S <$> ns) r (S n) c r' (S n') c'); [by rewrite list_lookup_fmap, Hr|by rewrite list_lookup_fmap, Hr'|done|done|done].
Qed.

Lemma index_NoDup : NoDup index.
Proof using Hdrafts.
  clear -Hdrafts. apply NoDup_alt. intros i j x (r & n & c & Hr & Hc & -> & ->)%index_inv (r' & n' & c' & Hr' & Hc' & -> & He)%index_inv.
  destruct (rows_distinct r n c r' n' c' Hr Hr') as [-> ->]; [lia|lia|done|done].
Qed.

(** A draft's coin, and the probability that it was thrown for. *)
Lemma coin_at r n c : ns !! r = Some n -> c < n -> exists u d q, coin !! (offset ns r + c) = Some u /\ fle fzero u /\ less u fone /\
  drafts !! (offset ns r + c) = Some (Z.of_nat d) /\ softmax_of (filter_row (row_value k r) (row_value p r) (place_row r c)) !! d = Some q /\
  coins draws !! (offset ns r + c) = Some (bool_decide (less u q)).
Proof using Hwide Hvocab Hlogits Hts Hk Hp Hdrafts Hids Hcoin Hunit.
  clear Hnoise. intros Hr Hc. pose proof (offset_bound ns r n Hr) as Hb. destruct (lookup_lt_is_Some_2 coin (offset ns r + c)) as [u Hu]; [lia|].
  destruct (lookup_lt_is_Some_2 drafts (offset ns r + c)) as [d Hd]; [lia|]. pose proof Hunit as Hun. pose proof Hids as Hdi.
  rewrite Forall_lookup in Hun. rewrite Forall_lookup in Hdi.
  destruct (Hun _ _ Hu) as [Hu0 Hu1]. pose proof (Hdi _ _ Hd) as Hdr. cbn beta in Hdr. destruct (row_probs r n c Hr ltac:(lia)) as (Hq & HV & _).
  set (kept := filter_row _ _ _) in *. destruct (lookup_lt_is_Some_2 (softmax_of kept) (Z.to_nat d)) as [q Hqd].
  { rewrite softmax_length. unfold kept. rewrite filter_row_length, HV. lia. }
  exists u, (Z.to_nat d), q. rewrite Z2Nat.id by lia. split_and!; try done.
  unfold draws_of. cbn [coins]. rewrite lookup_zip_with, Hu, lookup_zip_with, (index_at r n c Hr Hc), Hd. simpl.
  change (SpecDecode.num_logits ns) with (S <$> ns). rewrite Hq. simpl. by rewrite Hqd.
Qed.

(** The replacement or bonus token of a place: one that the filters keep, and not the draft that a thrown coin rejected. *)
Lemma draw_at r n c : ns !! r = Some n -> c < S n ->
  (c < n -> coins draws !! (offset ns r + c) = Some false) -> exists i, draw draws !! logits_row r c = Some (Z.of_nat i) /\
    passes_filters (row_value k r) (row_value p r) (place_row r c) i /\ (c < n -> drafts !! (offset ns r + c) <> Some (Z.of_nat i)).
Proof using All.
  intros Hr Hc Hcoins. destruct (row_probs r n c Hr Hc) as (Hq & HV & Hne). pose proof (row_in_range r n c Hr Hc) as Hlt. rewrite <-Hnoise in Hlt.
  apply lookup_lt_is_Some_2 in Hlt as [e He]. rewrite Forall_lookup in Hnoise_wide. pose proof (Hnoise_wide _ _ He) as Hel. rewrite <-HV in Hel.
  unfold draws_of. cbn [draw]. change (SpecDecode.num_logits ns) with (S <$> ns). rewrite lookup_zip_with, He.
  destruct (decide (c < n)) as [Hcn|Hcn].
  - destruct (coin_at r n c Hr Hcn) as (u & d & q & _ & _ & Hu1 & Hd & Hqd & Hcd). rewrite (Hcoins Hcn) in Hcd. injection Hcd as Hcd.
    symmetry in Hcd. apply bool_decide_eq_false in Hcd. assert (Hq1 : less q fone).
    { eapply le_less_trans; [|exact Hu1]. destruct (decide (fle q u)) as [|Hn]; [done|]. by destruct Hcd. }
    rewrite (exclude_in _ _ _ _ _ _ index_NoDup (index_at r n c Hr Hcn) Hd), Hq, Nat2Z.id. simpl.
    destruct (race_excluded _ _ _ e d q Hne Hel Hqd Hq1) as (i & -> & Hpass & Hid). exists i. split_and!; [done|done|]. intros _. rewrite Hd. intros [= ?]. lia.
  - rewrite exclude_out; [rewrite Hq; simpl|].
    + destruct (race_passes _ Hne (row_value k r) (row_value p r) e Hel) as (i & -> & Hpass). by exists i.
    + intros (j & Hj)%list_elem_of_lookup. apply index_inv in Hj as (r' & n' & c' & Hr' & Hc' & -> & He').
      destruct (rows_distinct r n c r' n' c' Hr Hr' Hc ltac:(lia) He') as [-> ->]. rewrite Hr in Hr'. injection Hr' as ->. lia.
Qed.

Lemma draws_lengths t : Some ts = Some t -> length t = length ns /\ length (coins draws) = sum_list ns /\ length (draw draws) = total.
Proof using Hlogits Hdrafts Hts Hk Hp Hcoin Hnoise.
  clear Hvocab. intros [= <-]. split; [done|]. unfold draws_of. cbn [coins draw]. split.
  - rewrite !length_zip_with, index_length. lia.
  - assert (He : forall m i ds, length (exclude (F := F) m i ds) = length m).
    { clear. intros m i ds. unfold exclude. revert m. generalize (zip i ds). intros l. induction l as [|x l IH]; intros m; [done|]. simpl. by rewrite IH, length_alter. }
    rewrite length_zip_with, He, length_fmap. unfold apply_top_k_top_p. change (SpecDecode.num_logits ns) with (S <$> ns).
    assert (Hsl : length (zip_with (scale_row (F := F)) (repeat_interleave ts (S <$> ns)) logits) = total).
    { rewrite length_zip_with, repeat_interleave_length by by rewrite length_fmap. lia. }
    assert (Hpr : forall A (o : option (list A)), given_rows o (length ns) -> length (per_row ((fun l => repeat_interleave l (S <$> ns)) <$> o) total) = total).
    { clear. intros A o Ho. destruct o as [l|]; simpl; [|apply length_replicate]. rewrite length_fmap, repeat_interleave_length; [done|].
      rewrite length_fmap. by apply Ho. }
    rewrite Hsl. rewrite length_zip_with, length_zip_with, Hsl, !Hpr by done. lia.
Qed.

(** A token of some probability passes the filters of its place. *)
Lemma positive_passes r n c u q d : ns !! r = Some n -> c < S n -> softmax_of (filter_row (row_value k r) (row_value p r) (place_row r c)) !! d = Some q ->
  fle fzero u -> less u q -> passes_filters (row_value k r) (row_value p r) (place_row r c) d.
Proof using Hwide Hvocab Hlogits Hts Hk Hp SamplingOk0.
  intros Hr Hc Hq Hu0 Huq. destruct (row_probs r n c Hr Hc) as (_ & HV & Hrow).
  set (kept := filter_row _ _ _) in *. destruct (lookup_lt_is_Some_2 kept d) as [x Hx]; [rewrite <-softmax_length; by eapply lookup_lt_Some|].
  destruct (softmax_at kept d x (some_kept _ Hrow _ _) Hx) as (q' & Hq' & H0 & _). rewrite Hq in Hq'. injection Hq' as <-.
  destruct x as [x|]; [by apply (kept_passes _ Hrow _ _ d x)|]. exfalso. apply Huq. rewrite H0 by done. exact Hu0.
Qed.

(** A row that does not decode greedily: it keeps drafts while their coins are below their probabilities, then takes one token more, which
    is not the draft it replaces; all of them are ones that its filters keep. *)
Lemma verified_passes r n t : ns !! r = Some n -> ts !! r = Some t -> t <> 0%Qc -> exists m i, m <= n /\
  RejectionSampler_forward logits drafts ns (Some ts) width k p coin noise !! r =
    Some (take m (slice drafts (offset ns r) n) ++ [Z.of_nat i] ++ replicate (width - m) PLACEHOLDER_TOKEN_ID) /\
  (forall c, c < n -> c <= m -> exists u d q, coin !! (offset ns r + c) = Some u /\ drafts !! (offset ns r + c) = Some (Z.of_nat d) /\
    softmax_of (filter_row (row_value k r) (row_value p r) (place_row r c)) !! d = Some q /\ (c < m <-> less u q) /\
    (c < m -> passes_filters (row_value k r) (row_value p r) (place_row r c) d)) /\
  passes_filters (row_value k r) (row_value p r) (place_row r m) i /\ (m < n -> drafts !! (offset ns r + m) <> Some (Z.of_nat i)).
Proof using All.
  intros Hr Ht Hz. assert (Hg : length greedy = total) by by rewrite length_fmap.
  pose proof (accepted_length greedy drafts ns (Some ts) draws Hdrafts Hg draws_lengths) as Hal. pose proof (offset_bound ns r n Hr) as Hb.
  set (bits := row_bits greedy drafts ns (Some ts) draws r n). assert (Hbl : length bits = n) by (apply slice_length; lia).
  (* a bit is its coin *)
  assert (Hbit : forall c, c < n -> bits !! c = coins draws !! (offset ns r + c)).
  { intros c Hc. unfold bits, row_bits. rewrite slice_lookup by done. unfold accepted. destruct (coin_at r n c Hr Hc) as (u & d & q & _ & _ & _ & _ & _ & Hcd).
    destruct (greedy_hits_lookup greedy drafts ns Hdrafts Hg r n c Hr Hc) as (g & d' & _ & _ & Hh).
    assert (Htr : SpecDecode.gather 1%Qc ts (draft_rows ns) !! (offset ns r + c) = Some t).
    { rewrite (gather_lookup _ _ _ _ r) by by eapply draft_rows_lookup. by rewrite Ht. }
    rewrite lookup_zip_with, Htr, lookup_zip_with, Hh, Hcd. simpl. by rewrite bool_decide_eq_false_2. }
  set (m := leading bits). assert (Hm : m <= n) by (rewrite <-Hbl; apply leading_le).
  assert (Hlead : (forall c, c < m -> bits !! c = Some true) /\ (m < n -> bits !! m = Some false)).
  { unfold m. rewrite <-Hbl. clear. induction bits as [|[] bits IH]; simpl; [split; intros; lia| |split; [intros; lia|done]].
    destruct IH as [H1 H2]. split; [intros [|c] Hc; [done|]; apply H1; lia|intros Hlt; apply H2; lia]. }
  destruct Hlead as [Hkept Hrej].
  destruct (draw_at r n m Hr ltac:(lia)) as (i & Hi & Hpass & Hne).
  { intros Hlt. rewrite <-Hbit by done. by apply Hrej. }
  exists m, i. split_and!; [done| | |done|done].
  - unfold RejectionSampler_forward. rewrite (rejection_sample_rows greedy drafts ns (Some ts) draws width Hdrafts Hwidth Hg draws_lengths).
    rewrite list_lookup_imap, Hr. cbn [fmap option_fmap option_map]. f_equal. unfold verified_row. fold bits m. f_equal. f_equal.
    rewrite slice_lookup by lia. unfold candidates. fold (logits_row r m). change (SpecDecode.num_logits ns) with (S <$> ns).
    rewrite lookup_zip_with, (repeated_at ts r n m Hts Hr), Ht, lookup_zip_with, Hi by lia.
    destruct (lookup_lt_is_Some_2 greedy (logits_row r m)) as [g Hgr]; [rewrite Hg; apply (row_in_range r n m Hr); lia|].
    rewrite Hgr. simpl. by rewrite bool_decide_eq_false_2.
  - intros c Hcn Hcm. destruct (coin_at r n c Hr Hcn) as (u & d & q & Hu & Hu0 & _ & Hd & Hq & Hcd).
    assert (Hiff : c < m <-> less u q).
    { rewrite <-(bool_decide_eq_true (less u q)). rewrite <-Hbit in Hcd by done. destruct (decide (c < m)) as [Hlt|Hge].
      - rewrite (Hkept c Hlt) in Hcd. injection Hcd as <-. done.
      - assert (c = m) as -> by lia. rewrite (Hrej Hcn) in Hcd. injection Hcd as <-. split; [lia|done]. }
    exists u, d, q. split_and!; [done|done|done|exact Hiff|]. intros Hlt. apply Hiff in Hlt as Huq. apply (positive_passes r n c u q d Hr ltac:(lia) Hq Hu0 Huq).
Qed.

End Verify.
