(* ===== verification/ModelStep.v ===== *)
(** * The runner's step

    [engine/model_runner.py]: the passes of a step, directly, in a bucket, or by
    replaying a captured graph, and [run], which prepares a batch, runs the
    model, samples or verifies, drafts, and leaves what the next step needs. *)

From S2P Require Import Prelude Output Sequence Sampler SpecDecode Arrays AttnContext ModelRunner Tensors Attention Moe Passes Proposer.

(** The model and its head, and the backends' hooks before a graph's replay. *)
Class TargetModel (F H E : Type) := {
  target_model : list Z -> list Z -> M (Device (Pages E)) (list H);
  target_head : H -> list F;
  target_zero : H;
  target_replay_hook : Fields -> Z -> M (Device (Pages E)) unit
}.

Record GraphVars (H : Type) := {
  gv_input_ids : list Z;
  gv_positions : list Z;
  gv_slot_mapping : list Z;
  gv_context_lens : list Z;
  gv_block_tables : list (list Z);
  gv_outputs : list H
}.
Arguments gv_input_ids {H} _.
Arguments gv_positions {H} _.
Arguments gv_slot_mapping {H} _.
Arguments gv_context_lens {H} _.
Arguments gv_block_tables {H} _.
Arguments gv_outputs {H} _.
Arguments Build_GraphVars {H} _ _ _ _ _ _.

#[export] Instance eta_GraphVars H : Eta (GraphVars H) := fun v =>
  Build_GraphVars (gv_input_ids v) (gv_positions v) (gv_slot_mapping v) (gv_context_lens v) (gv_block_tables v) (gv_outputs v).

Section Step.
Context {F H E E' : Type} `{!Scalar F} `{!Softmax F} `{!Ordered F} `{!Sampling F} `{!TargetModel F H E} `{!Drafter F H E'}.

(** The runner: its host's state, the model's cache with the module's context, the buffers, and the drafter, whose cache is its own. *)
Record ModelRunner := {
  md_host : Runner;
  md_device : Device (Pages E);
  md_graph_vars : option (GraphVars H);
  md_graphs : list Z;
  md_piecewise_vars : option (list Z * list Z);
  md_hidden_states : option (list H);
  md_proposer : option (Proposer H E')
}.

#[export] Instance eta_ModelRunner : Eta ModelRunner := fun m =>
  Build_ModelRunner (md_host m) (md_device m) (md_graph_vars m) (md_graphs m) (md_piecewise_vars m) (md_hidden_states m) (md_proposer m).

Definition on_host {A} (m : M Runner A) : M ModelRunner A := zoom md_host (fun r s => s <| md_host := r |>) m.
Definition on_target {A} (m : M (Device (Pages E)) A) : M ModelRunner A := zoom md_device (fun d s => s <| md_device := d |>) m.

(** The drafter's passes read the one context. *)
Definition on_proposer {A} (m : M (Proposer H E') A) : M ModelRunner A := fun s =>
  match md_proposer s with
  | None => (inl AttributeError, s)
  | Some p =>
      match m (p <| pp_device ::= fun d => d <| dv_context := dv_context (md_device s) |> |>) with
      | (r, p') => (r, s <| md_proposer := Some p' |> <| md_device ::= fun d => d <| dv_context := dv_context (pp_device p') |> |>)
      end
  end.

Definition in_context {A} (f : Fields) (body : M ModelRunner A) : M ModelRunner A := fun s =>
  match body (s <| md_device ::= fun d => d <| dv_context := fresh f |> |>) with
  | (r, s') => (r, s' <| md_device ::= fun d => d <| dv_context := dv_context (md_device s) |> |>)
  end.

(** ** Passes *)

(** [_full_graph_pass], in its captured context of the buffers: a replay runs it again over what they hold by then. *)
Definition full_graph_context (bs q : Z) (v : GraphVars H) : Fields :=
  default_Fields <| cx_slot_mapping := Some (py_upto (gv_slot_mapping v) (bs * q)) |> <| cx_context_lens := Some (py_upto (gv_context_lens v) bs) |>
    <| cx_block_tables := Some (py_upto (gv_block_tables v) bs) |> <| cx_full_graph_size := Some bs |>.

Definition full_graph_pass (bs q : Z) : M ModelRunner unit :=
  let! s := gets id in
  let! v := or_raise (md_graph_vars s) AttributeError in
  let n := (bs * q)%Z in
  let! o := in_context (full_graph_context bs q v) (on_target (target_model (py_upto (gv_input_ids v) n) (py_upto (gv_positions v) n))) in
  let! outputs := copy_upto n (gv_outputs v) o in
  modify (fun s => s <| md_graph_vars := Some (v <| gv_outputs := outputs |>) |>).

(** [_replay_full]. *)
Definition replay_full (input_ids positions : list Z) : M ModelRunner (list H) :=
  let num_tokens := Zlen input_ids in
  let! s := gets id in
  let q := mr_graph_query_len (md_host s) in
  let bs := (num_tokens / q)%Z in
  let context := cx_fields (dv_context (md_device s)) in
  let! graph_bs := or_raise (replay_size num_tokens (md_host s)) (ExternalError "StopIteration") in
  (if bool_decide (graph_bs ∈ md_graphs s) then ret tt else raise KeyError);;;
  let! v := or_raise (md_graph_vars s) AttributeError in
  let! ids := copy_upto num_tokens (gv_input_ids v) input_ids in
  let! ps := copy_upto num_tokens (gv_positions v) positions in
  let! slot_mapping := or_raise (cx_slot_mapping context) TypeError in
  let! slots := copy_upto num_tokens (replicate (length (gv_slot_mapping v)) (-1)%Z) slot_mapping in
  let! context_lens := or_raise (cx_context_lens context) TypeError in
  let! lens := copy_upto bs (replicate (length (gv_context_lens v)) 0%Z) context_lens in
  let! block_tables := or_raise (cx_block_tables context) AttributeError in
  let! tables := copy_rows bs (table_width block_tables) (gv_block_tables v) block_tables in
  modify (fun s => s <| md_graph_vars := Some {| gv_input_ids := ids; gv_positions := ps; gv_slot_mapping := slots; gv_context_lens := lens;
    gv_block_tables := tables; gv_outputs := gv_outputs v |} |>);;;
  on_target (target_replay_hook context graph_bs);;;
  full_graph_pass graph_bs q;;;
  let! v := gets md_graph_vars in
  ret (py_upto (default [] (gv_outputs <$> v)) num_tokens).

(** [_replay_piecewise]. *)
Definition replay_piecewise (input_ids positions : list Z) : M ModelRunner (list H) :=
  let num_tokens := Zlen input_ids in
  let! s := gets id in
  let bucket := piecewise_bucket num_tokens (md_host s) in
  let! v := or_raise (md_piecewise_vars s) AttributeError in
  let! ids := copy_upto num_tokens v.1 input_ids in
  let! ps := copy_upto num_tokens v.2 positions in
  modify (fun s => s <| md_piecewise_vars := Some (ids, ps) |>);;;
  on_target (modify (fun d => d <| dv_context ::= fun x => x <| cx_fields ::= fun f =>
    f <| cx_piecewise_size := bucket |> <| cx_num_actual_tokens := Some num_tokens |> |> |>));;;
  let upto l := match bucket with Some n => py_upto l n | None => l end in
  let! o := on_target (target_model (upto ids) (upto ps)) in
  ret (py_upto o num_tokens).

(** [run_model]. *)
Definition run_model (input_ids positions : list Z) (is_prefill : bool) : M ModelRunner (list (list F)) :=
  let! c := on_target context_fields in
  on_host (modify (fun r => r <| mr_step_kind := step_kind_of is_prefill (Zlen input_ids) (cx_decode_query_len c) r |>));;;
  let! r := gets md_host in
  let! hidden_states :=
    (if String.eqb (mr_step_kind r) "graph" then replay_full input_ids positions
     else if String.eqb (mr_step_kind r) "piecewise" then replay_piecewise input_ids positions
     else on_target (target_model input_ids positions)) in
  when (mr_has_proposer r) (modify (fun s => s <| md_hidden_states := Some hidden_states |>));;;
  on_target (select_logits target_head hidden_states).

(** ** Sampling *)

(** [_verify]. *)
Definition verify (r : Runner) (logits : list (list F)) (temperatures : option (list Qc)) (coin : list F) (noise : list (list F)) : list (list Z) :=
  RejectionSampler_forward logits (mr_spec_inputs r).1 (Z.to_nat <$> (mr_spec_inputs r).2) temperatures
    (Z.to_nat (mr_num_speculative_tokens r)) (fst <$> mr_top_k_top_p r) (snd <$> mr_top_k_top_p r) coin noise.

(** [run], with the step's random numbers: a coin for each draft and noise for each entry of the logits. *)
Definition run (coin : list F) (noise : list (list F)) (seqs : list Sequence) : M ModelRunner (list (list Z)) :=
  let! b := on_host (prepare_batch seqs) in
  let! sampled := in_context (ba_context b)
    (let! logits := run_model (ba_input_ids b) (ba_positions b) (cx_is_prefill (ba_context b)) in
     let! r := gets md_host in
     ret (if mr_has_proposer r then inr (verify r logits (ba_temperatures b) coin noise)
          else inl (Sampler_forward logits (ba_temperatures b) (fst <$> mr_top_k_top_p r) (snd <$> mr_top_k_top_p r) noise))) in
  match sampled with
  | inl tokens =>
      let! tokens := on_host (record_tokens tokens) in
      ret ((fun t => [t]) <$> tokens)
  | inr verified =>
      let! (num_accepted, next_token_ids) := next_tokens verified in
      let! s := gets id in
      let! inputs := or_raise (mr_draft_inputs (md_host s)) AttributeError in
      let! hidden_states := or_raise (md_hidden_states s) AttributeError in
      let! drafts := on_proposer (propose inputs (ba_context b) hidden_states num_accepted next_token_ids) in
      on_host (record_drafts verified drafts num_accepted next_token_ids)
  end.

(** ** Capture *)

(** [capture_cudagraph]: each size's pass runs once, and is then recorded, which runs nothing. *)
Definition capture_cudagraph : M ModelRunner unit :=
  on_host (modify capture_cudagraph_sizes);;;
  let! s := gets id in
  let r := md_host s in
  let q := mr_graph_query_len r in
  match last (mr_graph_bs r) with
  | None => ret tt
  | Some max_bs =>
      let n := Z.to_nat (max_bs * q) in
      modify (fun s => s <| md_graph_vars := Some {|
        gv_input_ids := replicate n 0%Z; gv_positions := replicate n 0%Z; gv_slot_mapping := replicate n 0%Z;
        gv_context_lens := replicate (Z.to_nat max_bs) (mr_max_model_len r);
        gv_block_tables := replicate (Z.to_nat max_bs) (replicate (Z.to_nat (max_num_blocks r)) 0%Z);
        gv_outputs := replicate n target_zero |} |>);;;
      for_each (reverse (mr_graph_bs r)) (fun bs =>
        full_graph_pass bs q;;;
        modify (fun s => s <| md_graphs ::= fun l => bs :: l |>))
  end.

(** [capture_piecewise]: the prompts it makes have ids from [first_id] on. *)
Definition capture_piecewise `{!SeqSettings} (now : Qc) (first_id : nat) : M ModelRunner unit :=
  on_host (modify capture_piecewise_sizes);;;
  let! r := gets md_host in
  let sizes := mr_piecewise_bs r in
  let! largest := or_raise (last sizes) IndexError in
  let zeros := replicate (Z.to_nat largest) 0%Z in
  modify (fun s => s <| md_piecewise_vars := Some (zeros, zeros) |>);;;
  for_each (zip (seq first_id (length sizes)) (reverse sizes)) (fun '(sid, size) =>
    match new_Sequence sid now (replicate (Z.to_nat size) 0%Z) None None with
    | inl e => raise e
    | inr s =>
        let! b := on_host (prepare_batch [s <| num_scheduled_tokens := size |>]) in
        in_context ((ba_context b) <| cx_slot_mapping := Some (replicate (Z.to_nat size) (-1)%Z) |> <| cx_piecewise_size := Some size |>)
          (let! s := gets id in
           let! _ := on_target (target_model (py_upto (default [] (fst <$> md_piecewise_vars s)) size)
             (py_upto (default [] (snd <$> md_piecewise_vars s)) size)) in
           when (mr_has_proposer r) (on_proposer (draft_capture_piecewise size)))
    end).

End Step.

Arguments ModelRunner : clear implicits.
