(* ===== verification/ModelStepFacts.v ===== *)
(** * What a step decodes

    Whatever path a step's pass takes, it gives each row's own cells; with
    greedy sampling a row's tokens are the model's greedy continuation,
    whatever was drafted; and a sampled token passes its own row's filters.
    A second step starts from what the first one left, and goes on with its
    text. *)


From S2P Require Import Scheduler Prelude Output Sequence SpecDecode Arrays AttnContext ModelRunner ModelRunnerFacts.
From S2P Require Import Tensors Attention Moe MLA TorchAttention TorchFacts MoeFacts AttentionFacts MLAFacts MLAStep.
From S2P Require Import StepAttention Passes Proposer ProposerFacts DrafterStep Sampler ModelStep.

(** ** Greedy decoding *)

Section Greedy.
Context {E H : Type}.
Variable cell : list E -> Z * unit -> E * H.
Variable choice : H -> Z.

(** [n] tokens after [t], each the model's choice after the ones before it. *)
Fixpoint greedy_from (es : list E) (t : Z) (n : nat) : list Z :=
  match n with
  | O => []
  | S n' => let c := cell es (t, tt) in choice c.2 :: greedy_from (es ++ [c.1]) (choice c.2) n'
  end.

Definition with_unit (ids : list Z) : list (Z * unit) := (fun t => (t, tt)) <$> ids.

Lemma with_unit_fst ids : (with_unit ids).*1 = ids.
Proof. unfold with_unit. rewrite <-list_fmap_compose. apply list_fmap_id. Qed.

Lemma with_unit_length ids : length (with_unit ids) = length ids.
Proof. apply length_fmap. Qed.

(** The choices after a token and its drafts. *)
Definition choices_of (es : list E) (ids : list Z) : list Z := choice <$> (run_cells cell es (with_unit ids)).*2.

Definition hits_of (choices drafts : list Z) : nat := leading (zip_with (fun x y : Z => bool_decide (x = y)) choices drafts).

(** As far as drafts are the choices before them, and one more, the choices are the greedy continuation. *)
Lemma choices_greedy es x ds : let choices := choices_of es (x :: ds) in let k := hits_of choices ds in
  take (S k) choices = greedy_from es x (S k).
Proof.
  revert es x. induction ds as [|y ds IH]; intros es x; [done|]. cbn zeta.
  unfold choices_of, hits_of in *. cbn [with_unit fmap list_fmap Passes.run_cells zip_with leading]. fold (with_unit ds).
  case_bool_decide as Hy; [|done]. cbn [leading]. specialize (IH (es ++ [(cell es (x, tt)).1]) y). cbn zeta in IH.
  cbn [with_unit fmap list_fmap Passes.run_cells] in IH. rewrite Hy in *.
  set (r := leading _) in *. cbn [greedy_from]. rewrite Hy. cbn [take]. f_equal. exact IH.
Qed.

Lemma choices_length es ids : length (choices_of es ids) = length ids.
Proof. unfold choices_of. by rewrite !length_fmap, run_cells_length, with_unit_length. Qed.

End Greedy.

(** Slices of rows laid end to end. *)
Lemma slice_concat {A} (rows : list (list A)) r row : rows !! r = Some row -> slice (concat rows) (offset (length <$> rows) r) (length row) = row.
Proof.
  intros Hr. apply list_eq. intros i. unfold slice, offset. destruct (decide (i < length row)) as [Hi|Hi].
  - rewrite lookup_take_lt, lookup_drop by done. by apply concat_place.
  - rewrite lookup_take_ge by lia. symmetry. apply lookup_ge_None. lia.
Qed.

(** ** The target's pass *)

Lemma wp_target_context {H E E' A} (f : Fields) (body : M (ModelRunner H E E') A) s Q :
  wp body (s <| md_device ::= fun d => d <| dv_context := fresh f |> |>)
    (fun a s' => Q a (s' <| md_device ::= fun d => d <| dv_context := dv_context (md_device s) |> |>)) -> wp (in_context f body) s Q.
Proof. unfold wp, in_context. by destruct (body _) as [[e|a] s']. Qed.


Section Step.
Context {F H E E' : Type} `{!Ordered F} `{!TargetModel F H E} `{!Drafter F H E'}.
Variable cell : list E -> Z * unit -> E * H.

(** What the model promises on a batch, in a bucket or not, and in a full graph. *)
Class TargetOk (latents : bool) := {
  to_batch : BatchPassOk cell latents (fun l ps => target_model l.*1 ps);
  to_graph : GraphPassOk cell (fun l ps => target_model l.*1 ps);
  to_hook c size d : wp (target_replay_hook c size) d (fun _ d' => d' = d)
}.
Context {latents : bool} `{!TargetOk latents}.

Variable r : Runner.
Variable seqs : list Sequence.
Local Abbreviation batch := (batch_of r seqs).
Local Abbreviation sampled := (filter (fun s => samples s = true) seqs).

(** The cache's entries of each sequence's earlier tokens. *)
Variable hist : Sequence -> list E.
Definition step_cells (s : Sequence) : list (E * H) := run_cells cell (hist s) (with_unit (ids_of r s)).
Definition outs (s : Sequence) : list H := (step_cells s).*2.
Definition entries_after (s : Sequence) : list E := hist s ++ (step_cells s).*1.

(** Buffers that a captured runner has: of [n] rows, with tables of [mw] blocks. *)
Record GraphVarsReady (v : GraphVars H) (graphs gbs : list Z) (q mw : Z) : Prop := {
  gr_sizes : exists n, length (gv_input_ids v) = n * Z.to_nat q /\ length (gv_positions v) = n * Z.to_nat q /\
    length (gv_slot_mapping v) = n * Z.to_nat q /\ length (gv_outputs v) = n * Z.to_nat q /\
    length (gv_context_lens v) = n /\ length (gv_block_tables v) = n /\ Forall (fun b => (0 < b <= Z.of_nat n)%Z /\ b ∈ graphs) gbs;
  gr_widths : Forall (fun t => Zlen t = mw) (gv_block_tables v)
}.

Record BuffersReady (mw : Z) (s : ModelRunner H E E') : Prop := {
  br_graphs : mr_graph_bs r <> [] -> exists v, md_graph_vars s = Some v /\ GraphVarsReady v (md_graphs s) (mr_graph_bs r) (mr_graph_query_len r) mw;
  br_piecewise : mr_piecewise_bs r <> [] -> exists ids ps n, md_piecewise_vars s = Some (ids, ps) /\ length ids = n /\ length ps = n /\
    Forall (fun b => (b <= Z.of_nat n)%Z) (mr_piecewise_bs r)
}.

Variable mw : Z.

Record StepReady (s : ModelRunner H E E') : Prop := {
  se_host : md_host s = r;
  se_ready : Ready r seqs;
  se_latents : mr_decodes_latents r = true -> latents = true;
  se_hist x : x ∈ batch -> Zlen (hist x) = start_of r x;
  se_held x : x ∈ batch -> SlotsHold r (dv_cache (md_device s)) x (hist x) (start_of r x);
  se_own : OwnSlots r seqs;
  se_blocks x : x ∈ batch -> Forall (fun b => b < length (pg_blocks (dv_cache (md_device s)))) (block_table x);
  se_pages : PagesOk (fun _ => True) (dv_cache (md_device s)) /\ Z.of_nat (pg_size (dv_cache (md_device s))) = mr_block_size r;
  se_width : (width r seqs <= mw)%Z;
  se_buffers : BuffersReady mw s
}.

Variable s0 : ModelRunner H E E'.
Hypothesis Hok : StepReady s0.
Variable start : Sequence -> Z.
Hypothesis Hstart : HostStart r seqs start.
Local Abbreviation c := (dv_cache (md_device s0)).
Local Abbreviation context := (device_context r seqs start).
Local Abbreviation ids := (concat (ids_of r <$> batch)).
Local Abbreviation positions := (concat (positions_of r <$> batch)).
Local Abbreviation new := (fun x : nat * Sequence => with_unit (ids_of r x.2)).
Local Abbreviation rows := (step_row r seqs hist new <$> tagged batch).
Local Abbreviation outputs := (concat (outs <$> batch)).

Lemma step_ids_length x : x ∈ batch -> Zlen (ids_of r x) = num_scheduled_tokens x.
Proof using Hok. intros Hx. by apply (ids_length r seqs (rd_runner _ _ (se_ready _ Hok)) (rd_rows _ _ (se_ready _ Hok))). Qed.

Lemma new_lens x : x ∈ tagged batch -> Zlen (new x) = num_scheduled_tokens x.2.
Proof using Hok. intros Hx. destruct (tagged_in r seqs x Hx) as [_ Hs]. unfold Zlen. rewrite with_unit_length. by apply step_ids_length. Qed.

Lemma target_rows_ready : RowsReady c rows.
Proof using Hok.
  apply (step_rows_ready r seqs (se_ready _ Hok)); [apply (se_hist _ Hok)|apply new_lens|apply (se_pages _ Hok)..|apply (se_held _ Hok)|
    apply (se_own _ Hok)|apply (se_blocks _ Hok)].
Qed.

Lemma rows_new : (concat (pr_new <$> rows)).*1 = ids.
Proof using.
  clear. rewrite fmap_concat_rows. f_equal. rewrite <-list_fmap_compose, <-(tagged_fmap (ids_of r)). apply list_fmap_ext.
  intros _ x _. apply with_unit_fst.
Qed.

Lemma rows_positions : concat (row_positions <$> rows) = positions.
Proof using Hok. apply (step_positions r seqs (se_ready _ Hok)); [apply (se_hist _ Hok)|apply new_lens]. Qed.

Lemma rows_outputs : concat ((fun x => (pass_cells cell x).*2) <$> rows) = outputs.
Proof using. clear. f_equal. rewrite <-(tagged_fmap outs), <-list_fmap_compose. done. Qed.

Lemma row_count : length rows = length batch.
Proof using. clear. by rewrite length_fmap, tagged_length. Qed.

(** What a pass leaves. *)
Definition Passed (dev : Device (Pages E)) : Prop :=
  Stored c (row_slots c rows) (concat ((fun x => (pass_cells cell x).*1) <$> rows)) (dv_cache dev) /\ PagesOk (fun _ => True) (dv_cache dev).

Lemma target_pass f pads pad_ids more : Passes cell (fun l ps => target_model l.*1 ps) f rows pads c -> length pad_ids = pads -> length more = pads ->
  wp (target_model (ids ++ pad_ids) (positions ++ more)) {| dv_cache := c; dv_context := fresh f |} (fun o dev => exists rest,
    o = outputs ++ rest /\ length rest = pads /\ Passed dev /\ cx_fields (dv_context dev) = f).
Proof using Hok.
  intros Hp H1 H2. pose proof (Hp (with_unit pad_ids) more) as Hw. rewrite with_unit_length in Hw. specialize (Hw H1 H2).
  rewrite fmap_app, rows_new, with_unit_fst, rows_positions, rows_outputs in Hw. eapply wp_mono; [exact Hw|].
  intros o dev (rest & -> & Hr & Hst & Hpg & Hx). exists rest. by split_and!.
Qed.

Lemma token_count : length ids = sum_list ((fun s => Z.to_nat (num_scheduled_tokens s)) <$> batch) /\ length positions = length ids /\
  length outputs = length ids /\ length (row_slots c rows) = length ids.
Proof using Hok.
  assert (Hsum : forall A (f : Sequence -> list A), (forall s, s ∈ batch -> length (f s) = Z.to_nat (num_scheduled_tokens s)) ->
    length (concat (f <$> batch)) = sum_list ((fun s => Z.to_nat (num_scheduled_tokens s)) <$> batch)).
  { intros A f Hf. rewrite length_concat_sum, <-list_fmap_compose. f_equal. apply list_fmap_ext. intros _ s Hs%list_elem_of_lookup_2. by apply Hf. }
  assert (Hi : forall s, s ∈ batch -> length (ids_of r s) = Z.to_nat (num_scheduled_tokens s)).
  { intros s Hs. pose proof (step_ids_length s Hs). unfold Zlen in *. lia. }
  rewrite row_slots_length, <-(length_fmap fst), rows_new, (Hsum _ (ids_of r)) by done. split_and!; [done| | |done].
  - apply Hsum. intros s _. unfold positions_of. by rewrite length_seqZ.
  - apply Hsum. intros s Hs. unfold outs, step_cells. rewrite length_fmap, run_cells_length, with_unit_length. by apply Hi.
Qed.

(** A state in which the pass runs: the context is the batch's. *)
Record AtPass (s1 : ModelRunner H E E') : Prop := {
  ap_device : md_device s1 = {| dv_cache := c; dv_context := fresh context |};
  ap_graph_vars : md_graph_vars s1 = md_graph_vars s0;
  ap_graphs : md_graphs s1 = md_graphs s0;
  ap_piecewise_vars : md_piecewise_vars s1 = md_piecewise_vars s0;
  ap_graph_bs : mr_graph_bs (md_host s1) = mr_graph_bs r;
  ap_query_len : mr_graph_query_len (md_host s1) = mr_graph_query_len r;
  ap_piecewise_bs : mr_piecewise_bs (md_host s1) = mr_piecewise_bs r
}.

Definition PassEnd (s1 : ModelRunner H E E') (o : list H) (s2 : ModelRunner H E E') : Prop :=
  o = outputs /\ Passed (md_device s2) /\ cx_logits_indices (cx_fields (dv_context (md_device s2))) = cx_logits_indices context /\
  md_host s2 = md_host s1 /\ md_proposer s2 = md_proposer s1 /\ BuffersReady mw s2.

Lemma step_batch pads : BatchRows latents c (pass_context r seqs new context pads) rows (default 0 pads).
Proof using Hok Hstart.
  apply (step_batch_rows r seqs (se_ready _ Hok) hist new (se_hist _ Hok) new_lens c (proj2 (se_pages _ Hok)) (se_blocks _ Hok) latents start
    (cx_logits_indices context) pads (se_latents _ Hok) Hstart).
Qed.

Lemma target_batch pads pad_ids more : length pad_ids = default 0 pads -> length more = default 0 pads ->
  wp (target_model (ids ++ pad_ids) (positions ++ more)) {| dv_cache := c; dv_context := fresh (pass_context r seqs new context pads) |}
    (fun o dev => exists rest, o = outputs ++ rest /\ length rest = default 0 pads /\ Passed dev /\
      cx_logits_indices (cx_fields (dv_context dev)) = cx_logits_indices context).
Proof using Hok Hstart TargetOk0.
  intros H1 H2. eapply wp_mono.
  - apply (target_pass (pass_context r seqs new context pads) (default 0 pads)); [|done|done].
    apply to_batch; [apply target_rows_ready|apply step_batch].
  - intros o dev (rest & -> & Hr & Hp & Hx). exists rest. split_and!; [done..|]. rewrite Hx. by destruct pads.
Qed.

(** Directly. *)
Lemma eager_target s1 : AtPass s1 -> wp (on_target (target_model ids positions)) s1 (PassEnd s1).
Proof using Hok Hstart TargetOk0.
  intros [Hd Hgv Hg Hpv H1 H2 H3]. unfold on_target. apply wp_zoom. rewrite Hd.
  pose proof (target_batch None [] [] eq_refl eq_refl) as Hp. rewrite !app_nil_r in Hp.
  eapply wp_mono; [exact Hp|]. intros o dev (rest & -> & Hr & Hps & Hx). apply length_zero_iff_nil in Hr as ->. rewrite app_nil_r.
  split_and!; try done. destruct (se_buffers _ Hok) as [B1 B2]. split; cbn; rewrite ?Hgv, ?Hg, ?Hpv; done.
Qed.

(** In a bucket. *)
Lemma piecewise_target s1 : AtPass s1 -> (exists size, piecewise_bucket (Zlen ids) r = Some size /\ first_at_least (Zlen ids) (mr_piecewise_bs r) = Some size) ->
  wp (replay_piecewise ids positions) s1 (PassEnd s1).
Proof using Hok Hstart TargetOk0.
  intros [Hd Hgv Hg Hpv H1 H2 H3] (size & Hb & Hf). apply first_at_least_in in Hf as [Hin Hn]. destruct token_count as (T1 & T2 & T3 & T4).
  destruct (se_buffers _ Hok) as [B1 B2]. destruct B2 as (bi & bp & n & Hv & V1 & V2 & Hsz); [by intros He; rewrite He in Hin; apply elem_of_nil in Hin|].
  pose proof Hsz as Hall. rewrite Forall_forall in Hsz. specialize (Hsz size Hin). set (m := length ids) in *.
  set (bn := Z.to_nat size). assert (Hbn : size = Z.of_nat bn /\ m <= bn /\ bn <= n) by (unfold Zlen in Hn; fold m in Hn; lia).
  destruct Hbn as (Hbn & Hmb & Hbl).
  assert (Hbk : piecewise_bucket (Zlen ids) (md_host s1) = Some size) by (unfold piecewise_bucket in *; by rewrite H3).
  unfold replay_piecewise. wp_steps. change (md_piecewise_vars (id s1)) with (md_piecewise_vars s1). change (md_host (id s1)) with (md_host s1).
  rewrite Hpv, Hbk. eapply wp_or_raise; [exact Hv|]. cbn [fst snd].
  apply wp_bind, copy_upto_ok; [done|lia|]. apply wp_bind, copy_upto_ok; [unfold Zlen; lia|lia|].
  apply wp_bind, wp_modify. unfold on_target. apply wp_bind, wp_zoom, wp_modify, wp_bind, wp_zoom.
  rewrite T2. fold m. rewrite Hbn, !upto_buffer by lia. change (md_device (s1 <| md_piecewise_vars := Some _ |>)) with (md_device s1).
  cbn [md_device update_field eta_expand eta_ModelRunner]. rewrite Hd.
  assert (Hx : pass_context r seqs new context (Some (bn - m)) = context <| cx_piecewise_size := Some (Z.of_nat bn) |> <| cx_num_actual_tokens := Some (Zlen ids) |>).
  { unfold pass_context. cbn zeta. assert (Hl : Zlen (concat (new <$> tagged batch)) = Zlen ids).
    { unfold Zlen. rewrite <-rows_new, length_fmap, <-list_fmap_compose. done. }
    rewrite Hl. assert (Hs : (Zlen ids + Z.of_nat (bn - m))%Z = Z.of_nat bn) by (unfold Zlen; fold m; lia). by rewrite Hs. }
  pose proof (target_batch (Some (bn - m)) (take (bn - m) (drop m bi)) (take (bn - m) (drop m bp))) as Hp. rewrite Hx in Hp. cbn [default from_option id] in Hp.
  eapply wp_mono; [apply Hp; rewrite length_take, length_drop; lia|].
  intros o dev (rest & -> & Hr & Hps & Hlx). apply wp_ret. split_and!; try done.
  - unfold py_upto, Zlen. fold m. rewrite py_pos_length by (rewrite length_app; lia). by rewrite <-T3, take_app_length.
  - split; cbn; rewrite ?Hgv, ?Hg; [done|]. intros _. eexists _, _, n. split; [done|]. rewrite !length_app, !length_drop. split_and!; [lia|lia|done].
Qed.

(** In a full graph: a batch of decodes of one length. *)
Section FullGraph.
Hypothesis Hdecode : is_prefill_of r seqs = false.
Local Abbreviation q := (query_len_of r seqs).
Local Abbreviation qn := (Z.to_nat q).
Hypothesis Hquery : mr_graph_query_len r = q.

Lemma graph_row_lens s : s ∈ batch -> num_scheduled_tokens s = q /\ (0 < q)%Z.
Proof using Hok Hdecode.
  intros Hs. pose proof (batch_in r seqs s Hs) as Hin. pose proof (decode_lens r seqs s Hdecode Hin) as Hl.
  destruct (batch_ok r seqs (se_ready _ Hok) s Hs) as [Hr _]. pose proof (ro_len _ _ Hr). lia.
Qed.

Lemma graph_rows_uniform : Forall (fun x => new_len x = qn) rows.
Proof using Hok Hdecode.
  apply Forall_fmap, Forall_forall. intros x Hx. destruct (tagged_in r seqs x Hx) as [_ Hs]. destruct (graph_row_lens x.2 Hs) as [Hl _].
  pose proof (new_lens x Hx) as Hn. unfold new_len, Zlen in *. simpl in *. lia.
Qed.

Lemma graph_counts : length ids = length rows * qn /\ (0 < q)%Z /\ 0 < length rows.
Proof using cell Hok Hdecode.
  assert (Hne : batch <> []) by apply (batch_some r seqs (se_ready _ Hok)). assert (Hq : (0 < q)%Z).
  { destruct (batch_of r seqs) as [|s l] eqn:Hb; [done|]. apply (graph_row_lens s). rewrite Hb. constructor. }
  rewrite row_count. destruct token_count as (-> & _). split_and!; [|done|revert Hne; destruct (batch_of r seqs); [done|simpl; lia]].
  assert (Hall : Forall (fun s => Z.to_nat (num_scheduled_tokens s) = qn) batch).
  { apply Forall_forall. intros s Hs. by destruct (graph_row_lens s Hs) as [-> _]. }
  clear -Hall. induction Hall as [|s l Hs _ IH]; [done|]. rewrite fmap_cons. cbn [length]. simpl. rewrite Hs. unfold sum_list in *. simpl in *. lia.
Qed.

(** The buffers after the copies. *)
Definition step_vars (v : GraphVars H) : GraphVars H :=
  {| gv_input_ids := ids ++ drop (length ids) (gv_input_ids v); gv_positions := positions ++ drop (length positions) (gv_positions v);
     gv_slot_mapping := row_slots c rows ++ drop (length (row_slots c rows)) (replicate (length (gv_slot_mapping v)) (-1)%Z);
     gv_context_lens := (row_len <$> rows) ++ drop (length (row_len <$> rows)) (replicate (length (gv_context_lens v)) 0%Z);
     gv_block_tables := copied rows (width r seqs) (gv_block_tables v) ++ drop (length rows) (gv_block_tables v);
     gv_outputs := gv_outputs v |}.

Lemma step_row_at x : x ∈ rows -> exists s, s ∈ batch /\ pr_table x = batch_table r seqs s /\ row_len x = end_of r s.
Proof using Hok.
  intros (y & -> & Hy)%list_elem_of_fmap. destruct (tagged_in r seqs y Hy) as [_ Hs]. exists y.2. split_and!; [done|done|].
  by apply (row_counts r seqs (se_ready _ Hok) hist new (se_hist _ Hok) new_lens y Hy).
Qed.

Lemma row_widths x : x ∈ rows -> ((row_len x - 1) / Z.of_nat (pg_size c) < width r seqs <= Zlen (pr_table x))%Z.
Proof using Hok.
  intros (s & Hs & -> & ->)%step_row_at. rewrite (pad_table_length r seqs s Hs). split; [|lia]. rewrite (proj2 (se_pages _ Hok)).
  destruct (batch_ok r seqs (se_ready _ Hok) s Hs) as [Hr Hb]. pose proof (ro_blocks _ _ Hr Hb). pose proof (ro_start _ _ Hr).
  pose proof (table_width_le r seqs s Hs). pose proof (rk_bs _ (rd_runner _ _ (se_ready _ Hok))) as Hbs. unfold end_of in *.
  apply Z.div_lt_upper_bound; [lia|]. nia.
Qed.

Lemma step_tables : padded_tables (block_table <$> batch) = pr_table <$> rows.
Proof using.
  clear. transitivity (batch_table r seqs <$> batch); [unfold padded_tables; by rewrite <-list_fmap_compose|].
  rewrite <-(tagged_fmap (batch_table r seqs)), <-list_fmap_compose. done.
Qed.

Lemma step_lens : end_of r <$> batch = row_len <$> rows.
Proof using Hok.
  symmetry. apply (rows_map r seqs hist new). intros x Hx. by apply (row_counts r seqs (se_ready _ Hok) hist new (se_hist _ Hok) new_lens x Hx).
Qed.

Lemma step_slots_tokens : cx_slot_mapping context = Some (row_slots c rows).
Proof using Hok.
  rewrite (step_slots_eq r seqs (se_ready _ Hok) hist new (se_hist _ Hok) new_lens c (proj2 (se_pages _ Hok))). done.
Qed.

Lemma width_bounds : (0 <= width r seqs <= mw)%Z.
Proof using Hok.
  split; [|apply (se_width _ Hok)]. pose proof (batch_some r seqs (se_ready _ Hok)) as Hne.
  assert (exists s, s ∈ batch) as [s Hs] by (destruct (batch_of r seqs) as [|s l]; [done|exists s; constructor]).
  pose proof (table_width_le r seqs s Hs). pose proof (Zlen_nonneg (block_table s)). lia.
Qed.

Lemma step_widths : Forall (fun t => Zlen t = width r seqs) (pr_table <$> rows).
Proof using Hok.
  apply Forall_fmap, Forall_forall. intros x (s & Hs & Ht & _)%step_row_at. simpl. rewrite Ht. by apply pad_table_length.
Qed.

Lemma whole_tables : (fun row => py_upto row (width r seqs)) <$> (pr_table <$> rows) = pr_table <$> rows.
Proof using Hok.
  pose proof step_widths as Hw. rewrite Forall_forall in Hw. rewrite <-(list_fmap_id (pr_table <$> rows)) at 2. apply list_fmap_ext.
  intros _ t Ht%list_elem_of_lookup_2. rewrite <-(Hw t Ht). unfold py_upto. unfold Zlen. rewrite py_pos_length by lia. by apply take_ge.
Qed.

(** The captured context over them is that of the rows. *)
Lemma step_vars_context v graphs b : GraphVarsReady v graphs (mr_graph_bs r) q mw -> b ∈ mr_graph_bs r -> (Zlen rows <= b)%Z ->
  let k := Z.to_nat b - length rows in
  full_graph_context b q (step_vars v) = graph_fields c rows qn (copied rows (width r seqs) (gv_block_tables v))
    (take k (drop (length rows) (gv_block_tables v))) /\ length (take k (drop (length rows) (gv_block_tables v))) = k.
Proof using cell Hok Hdecode.
  intros [(n & L1 & L2 & L3 & L4 & L5 & L6 & Hsz) _] Hb Hnb k. rewrite Forall_forall in Hsz. destruct (Hsz b Hb) as [Hbn _].
  destruct graph_counts as (T0 & Hq & _). destruct token_count as (_ & _ & _ & T4). set (m := length rows) in *. set (bn := Z.to_nat b) in *.
  assert (Hbz : b = Z.of_nat bn /\ m <= bn /\ bn <= n /\ q = Z.of_nat qn) by (unfold Zlen in Hnb; fold m in Hnb; lia).
  destruct Hbz as (Hbz & Hmb & Hbl & Hqz). assert (Hbq : (b * q)%Z = Z.of_nat (bn * qn)) by lia.
  assert (Hk : length (take k (drop m (gv_block_tables v))) = k) by (rewrite length_take, length_drop; lia). split; [|done].
  unfold full_graph_context, graph_fields. cbn [step_vars gv_slot_mapping gv_context_lens gv_block_tables]. rewrite Hbq, Hbz.
  assert (Hmul : m * qn <= bn * qn /\ bn * qn <= n * qn) by nia.
  assert (Lr : length (row_len <$> rows) = m) by apply length_fmap.
  assert (Lc : length (copied rows (width r seqs) (gv_block_tables v)) = m) by (apply copied_length; fold m; lia).
  rewrite T4, !upto_replicate by lia. rewrite Hk, Lr. rewrite (upto_buffer (copied _ _ _)) by (fold m; lia). fold m. rewrite T0, <-Nat.mul_sub_distr_r. fold k.
  by replace (Z.of_nat (m + k)) with (Z.of_nat bn) by lia.
Qed.

Lemma step_vars_ready v graphs outputs : GraphVarsReady v graphs (mr_graph_bs r) q mw -> length rows <= length (gv_block_tables v) ->
  length ids <= length (gv_input_ids v) -> length outputs = length (gv_outputs v) ->
  GraphVarsReady ((step_vars v) <| gv_outputs := outputs |>) graphs (mr_graph_bs r) q mw.
Proof using cell Hok.
  intros [(n & L1 & L2 & L3 & L4 & L5 & L6 & Hsz) Hw] Hl Hi Ho. destruct token_count as (_ & T2 & _ & T4). pose proof (se_width _ Hok) as Hmw.
  assert (Lr : length (row_len <$> rows) = length rows) by apply length_fmap. split.
  - exists n. cbn. rewrite Ho. split_and!; try done.
    1-4: apply buffer_length; [by rewrite ?length_replicate|lia].
    rewrite length_app, length_drop, copied_length by lia. lia.
  - cbn. apply copied_widths; [|by apply Forall_forall; intros x Hx; apply row_widths|done].
    apply width_bounds.
Qed.

Lemma full_graph_target (s1 : ModelRunner H E E') v b : md_device s1 = {| dv_cache := c; dv_context := fresh context |} -> md_graph_vars s1 = Some (step_vars v) ->
  GraphVarsReady v (md_graphs s1) (mr_graph_bs r) q mw -> b ∈ mr_graph_bs r -> (Zlen rows <= b)%Z ->
  wp (full_graph_pass b q) s1 (fun _ s2 => exists dev rest, length (outputs ++ rest) = length (gv_outputs v) /\
    s2 = s1 <| md_device := dev |> <| md_graph_vars := Some ((step_vars v) <| gv_outputs := outputs ++ rest |>) |> /\
    Passed dev /\ dv_context dev = fresh context).
Proof using Hok Hdecode TargetOk0.
  intros Hd Hv Hvr Hb Hnb. destruct (step_vars_context v _ b Hvr Hb Hnb) as [Hctx Hk]. pose proof Hvr as [(n & L1 & L2 & L3 & L4 & L5 & L6 & Hsz) _].
  rewrite Forall_forall in Hsz. destruct (Hsz b Hb) as [Hbn _]. destruct graph_counts as (T0 & Hq & _). destruct token_count as (_ & T2 & T3 & _).
  set (m := length rows) in *. set (bn := Z.to_nat b) in *. set (k := bn - m) in *.
  assert (Hbz : (b * q)%Z = Z.of_nat (bn * qn) /\ m <= bn /\ bn <= n) by (unfold Zlen in Hnb; fold m in Hnb; lia).
  destruct Hbz as (Hbq & Hmb & Hbl). assert (Hmul : m * qn <= bn * qn /\ bn * qn <= n * qn) by nia.
  assert (Hcov : covering c rows (copied rows (width r seqs) (gv_block_tables v)) (width r seqs)).
  { apply copied_covering; [fold m; lia|apply row_widths]. }
  pose proof (graph_passes cell c rows _ qn _ (take k (drop m (gv_block_tables v))) (width r seqs) to_graph target_rows_ready graph_rows_uniform Hcov) as Hps.
  rewrite Hk in Hps. pose proof (target_pass _ _ (take (k * qn) (drop (length ids) (gv_input_ids v))) (take (k * qn) (drop (length ids) (gv_positions v))) Hps) as Hrun.
  rewrite !length_take, !length_drop in Hrun. specialize (Hrun ltac:(nia) ltac:(nia)). rewrite <-Hctx in Hrun.
  unfold full_graph_pass. wp_steps. change (md_graph_vars (id s1)) with (md_graph_vars s1). rewrite Hv. apply wp_or_raise with (step_vars v); [done|].
  apply wp_bind, wp_target_context. unfold on_target. apply wp_zoom. cbn [md_device update_field eta_expand eta_ModelRunner]. rewrite Hd.
  cbn [step_vars gv_input_ids gv_positions gv_outputs]. rewrite Hbq, T2, !upto_buffer by lia.
  replace (bn * qn - length ids) with (k * qn) by (unfold k; nia).
  eapply wp_mono; [exact Hrun|]. intros o dev (rest & -> & Hr & Hpd & Hx).
  assert (Ho : length (outputs ++ rest) = bn * qn) by (rewrite length_app; unfold k in *; nia).
  apply wp_bind, copy_upto_ok; [unfold Zlen; lia|lia|]. apply wp_modify.
  exists (dev <| dv_context := fresh context |>), (rest ++ drop (bn * qn) (gv_outputs v)). rewrite app_assoc, Ho. split_and!; try done.
  rewrite length_app, length_drop. lia.
Qed.

Lemma replay_target s1 : AtPass s1 -> (exists largest, last (mr_graph_bs r) = Some largest /\ (Zlen ids <= largest * q)%Z) ->
  wp (replay_full ids positions) s1 (PassEnd s1).
Proof using Hok Hdecode Hquery TargetOk0.
  intros [Hd Hgv Hg Hpv H1 H2 H3] (largest & Hlast & Hlen). destruct (se_buffers _ Hok) as [B1 B2]. destruct graph_counts as (T0 & Hq & Hpos).
  destruct B1 as (v & Hv & Hvr); [by intros He; rewrite He in Hlast|]. rewrite Hquery in Hvr.
  assert (Hbs : (Zlen ids / q)%Z = Zlen rows) by (unfold Zlen; rewrite T0, Nat2Z.inj_mul, Z2Nat.id by lia; by rewrite Z.div_mul by lia).
  destruct (first_at_least_ok (Zlen rows) _ _ Hlast) as (b & Hb & Hin & Hnb).
  { unfold Zlen in *. rewrite T0 in Hlen. nia. }
  pose proof Hvr as [(n & L1 & L2 & L3 & L4 & L5 & L6 & Hsz) Hw]. rewrite Forall_forall in Hsz. destruct (Hsz b Hin) as [Hbn Hcap].
  destruct token_count as (_ & T2 & T3 & T4). assert (Hmn : length rows <= n /\ length ids <= n * qn) by (unfold Zlen in Hnb; nia). destruct Hmn as [Hmn Hin'].
  assert (Hrep : replay_size (Zlen ids) (md_host s1) = Some b) by (unfold replay_size; by rewrite H1, H2, Hquery, Hbs).
  unfold replay_full. wp_steps. change (id s1) with s1. rewrite Hrep, H2, Hquery, Hbs, Hg, Hgv, Hv, Hd. eapply wp_or_raise; [done|].
  rewrite bool_decide_eq_true_2 by exact Hcap. wp_steps. eapply wp_or_raise; [done|].
  apply wp_bind, copy_upto_ok; [done|lia|]. apply wp_bind, copy_upto_ok; [unfold Zlen; lia|lia|].
  cbn [dv_context fresh cx_fields]. rewrite step_slots_tokens. apply wp_bind. eapply wp_or_raise; [done|].
  apply wp_bind, copy_upto_ok; [unfold Zlen; lia|rewrite length_replicate; lia|]. apply wp_bind. eapply wp_or_raise; [done|].
  rewrite step_lens. apply wp_bind, copy_upto_ok; [unfold Zlen; by rewrite (length_fmap row_len)|rewrite (length_fmap row_len), length_replicate; lia|].
  apply wp_bind. eapply wp_or_raise; [done|].
  assert (Hne : rows <> []) by (intros He; rewrite He in Hpos; simpl in Hpos; lia).
  rewrite step_tables, (width_of _ (width r seqs)); [|by intros He%fmap_nil_inv|apply step_widths].
  rewrite <-whole_tables. apply wp_bind, copy_tables_ok with mw; [done|done|lia|apply width_bounds| |done|].
  { apply Forall_forall. intros x Hx. by apply row_widths. }
  apply wp_bind, wp_modify. unfold on_target. apply wp_bind, wp_zoom. eapply wp_mono; [apply to_hook|]. intros [] d ->. apply wp_bind.
  wp_call (full_graph_target _ v b); [by rewrite <-Hd|done|by cbn; rewrite Hg|done|done|].
  intros [] s2 (dev & rest & Hl & -> & Hpd & Hx). wp_steps. split_and!.
  - cbn. unfold py_upto, Zlen. rewrite py_pos_length by (rewrite Hl; lia). by rewrite <-T3, take_app_length.
  - exact Hpd.
  - cbn. by rewrite Hx.
  - done.
  - done.
  - split; cbn; rewrite ?Hpv; [|done]. intros _. eexists. split; [done|]. rewrite Hg, Hquery. apply step_vars_ready; [done|lia|lia|done].
Qed.

End FullGraph.

(** Whichever path the step takes. *)
Lemma outs_length s : s ∈ batch -> Zlen (outs s) = num_scheduled_tokens s.
Proof using Hok.
  intros Hs. pose proof (step_ids_length s Hs) as Hl. unfold outs, step_cells, Zlen in *. by rewrite length_fmap, run_cells_length, with_unit_length.
Qed.

Lemma step_logits (dev : Device (Pages E)) : cx_logits_indices (cx_fields (dv_context dev)) = cx_logits_indices context ->
  wp (select_logits target_head outputs) dev (fun l dev' => dev' = dev /\ l = target_head <$> concat (tail_of outs <$> sampled)).
Proof using Hok.
  intros Hx. pose proof (se_ready _ Hok) as Hready. unfold select_logits, context_fields. wp_steps. rewrite Hx.
  cbn [device_context context_of cx_logits_indices]. destruct (is_prefill_of r seqs) eqn:Hp.
  - eapply gather_ok; [by apply (logits_gather r seqs (rd_rows _ _ Hready) outs), outs_length|]. by apply wp_ret.
  - apply wp_ret. apply wp_ret. by rewrite (decode_logits r seqs (rd_rows _ _ Hready) outs (rd_some _ _ Hready) Hp).
Qed.

Lemma run_model_ok s1 : AtPass s1 ->
  wp (run_model ids positions (is_prefill_of r seqs)) s1 (fun logits s2 =>
    logits = target_head <$> concat (tail_of outs <$> sampled) /\ Passed (md_device s2) /\
    (exists kind, md_host s2 = (md_host s1) <| mr_step_kind := kind |>) /\ md_proposer s2 = md_proposer s1 /\ BuffersReady mw s2 /\
    (mr_has_proposer (md_host s1) = true -> md_hidden_states s2 = Some outputs)).
Proof using Hok Hstart TargetOk0.
  intros Hap. pose proof Hap as [Hd _ _ _ H1 H2 H3]. unfold run_model, on_target, on_host, context_fields. wp_steps. rewrite Hd.
  cbn [dv_context fresh cx_fields]. change (cx_decode_query_len context) with (query_len_of r seqs).
  set (kind := step_kind_of _ _ _ _). set (s1' := s1 <| md_device := _ |> <| md_host := _ |>).
  assert (Hap' : AtPass s1') by (destruct Hap; by split).
  assert (Hpass : wp (if String.eqb kind "graph" then replay_full ids positions
     else if String.eqb kind "piecewise" then replay_piecewise ids positions
     else zoom md_device (fun d s => s <| md_device := d |>) (target_model ids positions)) s1' (PassEnd s1')).
  { destruct (String.eqb_spec kind "graph") as [Hk|_]; [|destruct (String.eqb_spec kind "piecewise") as [Hk|_]].
    - apply graph_step_spec in Hk as (Hp & Hq & largest & Hl & Hn). change (last (mr_graph_bs (md_host s1)) = Some largest) in Hl.
      change (query_len_of r seqs = mr_graph_query_len (md_host s1)) in Hq. rewrite H1 in Hl. rewrite H2 in Hq.
      apply replay_target; [done|by rewrite Hq|done|]. by exists largest.
    - apply piecewise_step_spec in Hk as (size & Hb & Hf). apply piecewise_target; [done|]. exists size.
      change (first_at_least (Zlen ids) (mr_piecewise_bs (md_host s1)) = Some size) in Hf.
      change (piecewise_bucket (Zlen ids) (md_host s1) = Some size) in Hb. unfold piecewise_bucket in *. by rewrite H3 in *.
    - by apply eager_target. }
  eapply wp_mono; [exact Hpass|]. intros o s2 (-> & Hpd & Hx & Hh & Hp & Hb). apply wp_bind.
  set (Q := fun (logits : list (list F)) (s2 : ModelRunner H E E') => _).
  assert (Hend : forall s3, md_device s3 = md_device s2 -> md_host s3 = md_host s2 -> md_proposer s3 = md_proposer s2 -> BuffersReady mw s3 ->
    (mr_has_proposer (md_host s1) = true -> md_hidden_states s3 = Some outputs) ->
    wp (zoom md_device (fun d s => s <| md_device := d |>) (select_logits target_head outputs)) s3 Q).
  { intros s3 E1 E2 E3 Hb3 Hhs. apply wp_zoom. eapply wp_mono; [apply step_logits; by rewrite E1|].
    intros l dev (-> & ->). assert (Hid : s3 <| md_device := md_device s3 |> = s3) by by destruct s3. rewrite Hid.
    split_and!; [done|by rewrite E1|exists kind; by rewrite E2, Hh|by rewrite E3, Hp|done|done]. }
  apply wp_when; intros Hpr.
  - apply wp_modify, Hend; try done. by destruct Hb.
  - apply Hend; try done. intros Hpr'. change (mr_has_proposer (md_host s1')) with (mr_has_proposer (md_host s1)) in Hpr. congruence.
Qed.

End Step.

(** ** Speculative decoding decodes greedily

    A whole step of the runner with a drafter and greedy sampling: the tokens
    of a row are the model's own greedy continuation, whatever was drafted. *)


(** ** Verification by rows *)

(** The sampler's rows, of choices and drafts laid end to end. *)
Lemma verify_rows {A} (f g : A -> list Z) (l : list A) width draws :
  (forall x, x ∈ l -> length (f x) = S (length (g x)) /\ length (g x) <= width) ->
  rejection_sample (concat (f <$> l)) (concat (g <$> l)) ((fun x => length (g x)) <$> l) None draws width =
  (fun x => take (S (hits_of (f x) (g x))) (f x) ++ replicate (width - hits_of (f x) (g x)) PLACEHOLDER_TOKEN_ID) <$> l.
Proof.
  intros Hl. assert (Hg : (fun x => length (g x)) <$> l = length <$> (g <$> l)) by by rewrite <-list_fmap_compose.
  assert (Hf : S <$> ((fun x => length (g x)) <$> l) = length <$> (f <$> l)).
  { rewrite <-!list_fmap_compose. apply list_fmap_ext. intros _ x Hx%list_elem_of_lookup_2. unfold compose. by destruct (Hl x Hx). }
  rewrite rejection_sample_greedy.
  - apply list_eq. intros i. rewrite list_lookup_imap, !list_lookup_fmap. destruct (l !! i) as [x|] eqn:Hi; [|done]. simpl. f_equal.
    destruct (Hl x (list_elem_of_lookup_2 _ _ _ Hi)) as [Hx _]. pose proof (lookup_lt_Some _ _ _ Hi) as Hlt.
    assert (Hrc : row_choices (concat (f <$> l)) ((fun x => length (g x)) <$> l) i (length (g x)) = f x).
    { unfold row_choices. rewrite <-Hx, <-offset_logits by (rewrite length_fmap; lia). rewrite Hf. apply slice_concat. by rewrite list_lookup_fmap, Hi. }
    assert (Hrd : row_drafts (concat (g <$> l)) ((fun x => length (g x)) <$> l) i (length (g x)) = g x).
    { unfold row_drafts. rewrite Hg. apply slice_concat. by rewrite list_lookup_fmap, Hi. }
    unfold row_hits. by rewrite Hrc, Hrd.
  - by rewrite length_concat_sum, Hg.
  - intros i n (x & -> & Hx)%list_lookup_fmap_Some. by destruct (Hl x (list_elem_of_lookup_2 _ _ _ Hx)).
  - by rewrite length_concat_sum, Hf.
Qed.

(** Rows of tokens, then placeholders. *)
Lemma num_accepted_tokens toks m : Forall (fun t => 0 <= t)%Z toks -> num_accepted_of (toks ++ replicate m PLACEHOLDER_TOKEN_ID) = (Zlen toks - 1)%Z.
Proof.
  intros Ht. unfold num_accepted_of. rewrite filter_app, filter_Forall by done.
  rewrite filter_Forall_not by (apply Forall_replicate; unfold PLACEHOLDER_TOKEN_ID; lia). by rewrite app_nil_r.
Qed.

Lemma next_tokens_rows {S A} (toks : A -> list Z) (pad : A -> nat) (l : list A) (s : S) :
  (forall x, x ∈ l -> toks x <> [] /\ Forall (fun t => 0 <= t)%Z (toks x)) ->
  wp (next_tokens ((fun x => toks x ++ replicate (pad x) PLACEHOLDER_TOKEN_ID) <$> l)) s (fun o s' => s' = s /\
    o = ((fun x => Zlen (toks x) - 1)%Z <$> l, (fun x => default 0%Z (last (toks x))) <$> l)).
Proof.
  intros Hl. unfold next_tokens. set (vs := (fun x => toks x ++ _) <$> l).
  assert (Hn : num_accepted_of <$> vs = (fun x => Zlen (toks x) - 1)%Z <$> l).
  { unfold vs. rewrite <-list_fmap_compose. apply list_fmap_ext. intros _ x Hx%list_elem_of_lookup_2. unfold compose.
    apply num_accepted_tokens. by destruct (Hl x Hx). }
  rewrite Hn. apply wp_bind.
  assert (Hz : zip vs ((fun x => Zlen (toks x) - 1)%Z <$> l) = (fun x => (toks x ++ replicate (pad x) PLACEHOLDER_TOKEN_ID, Zlen (toks x) - 1)%Z) <$> l).
  { unfold vs. clear. induction l as [|x l IH]; [done|]. rewrite !fmap_cons. simpl. by f_equal. }
  rewrite Hz. clear Hz Hn vs.
  assert (Hc : forall x, x ∈ l -> (if (Zlen (toks x) - 1 <? 0)%Z then None else
    py_get (toks x ++ replicate (pad x) PLACEHOLDER_TOKEN_ID) (Zlen (toks x) - 1)) = Some (default 0%Z (last (toks x)))).
  { intros x Hx. destruct (Hl x Hx) as [Hne _]. destruct (last (toks x)) as [t|] eqn:Hlast; [|by apply last_None in Hlast].
    rewrite last_lookup in Hlast. pose proof (lookup_lt_Some _ _ _ Hlast) as Hlt. unfold Zlen. destruct (Z.ltb_spec (Z.of_nat (length (toks x)) - 1) 0); [lia|].
    replace (Z.of_nat (length (toks x)) - 1)%Z with (Z.of_nat (Nat.pred (length (toks x)))) by lia. rewrite py_get_nth. simpl.
    by apply lookup_app_l_Some. }
  clear Hl. match goal with |- wp (collect ?l' ?f) _ _ => set (body := f) end.
  assert (Hb : collect ((fun x => (toks x ++ replicate (pad x) PLACEHOLDER_TOKEN_ID, Zlen (toks x) - 1)%Z) <$> l) body s =
    (inr ((fun x => default 0%Z (last (toks x))) <$> l), s)).
  { induction l as [|x l IH]; [done|]. rewrite !fmap_cons. cbn [collect]. unfold bind, body at 1. cbn [fst snd].
    rewrite (Hc x) by by constructor. cbn [or_raise ret]. rewrite IH; [done|]. intros y Hy. apply Hc. by constructor. }
  unfold wp. rewrite Hb. done.
Qed.

(** The choice of a row of logits is one of its columns. *)
Lemma argmax_row_from_nonneg {F} `{!Ordered F} (l : list F) i best_i best : (0 <= i)%Z -> (0 <= best_i)%Z -> (0 <= argmax_row_from i best_i best l)%Z.
Proof. revert i best_i best. induction l as [|x l IH]; intros i best_i best H1 H2; [done|]. simpl. case_decide; apply IH; lia. Qed.

Lemma argmax_row_nonneg {F} `{!Ordered F} (l : list F) : (0 <= argmax_row l)%Z.
Proof. destruct l; [done|]. by apply argmax_row_from_nonneg. Qed.

Lemma greedy_from_nonneg {E H} (cell : list E -> Z * unit -> E * H) (choice : H -> Z) es t n :
  (forall h, 0 <= choice h)%Z -> Forall (fun t => 0 <= t)%Z (greedy_from cell choice es t n).
Proof. intros Hc. revert es t. induction n as [|n IH]; intros es t; constructor; [apply Hc|apply IH]. Qed.

Lemma greedy_from_length {E H} (cell : list E -> Z * unit -> E * H) (choice : H -> Z) es t n : length (greedy_from cell choice es t n) = n.
Proof. revert es t. induction n as [|n IH]; intros es t; [done|]. simpl. by rewrite IH. Qed.

Lemma wp_on_proposer {H E E' A} (m : M (Proposer H E') A) (s : ModelRunner H E E') p Q : md_proposer s = Some p ->
  wp m (p <| pp_device ::= fun d => d <| dv_context := dv_context (md_device s) |> |>)
    (fun a p' => Q a (s <| md_proposer := Some p' |> <| md_device ::= fun d => d <| dv_context := dv_context (pp_device p') |> |>)) ->
  wp (on_proposer m) s Q.
Proof. unfold wp, on_proposer. intros ->. by destruct (m _) as [[e|a] p']. Qed.

(** A drafter is as ready in another context. *)
Definition in_device_context {H E C} (x : Device C) (p : Proposer H E) : Proposer H E :=
  p <| pp_device ::= fun d => d <| dv_context := dv_context x |> |>.

Lemma DraftReady_context {F H E C} `{!Drafter F H E} {latents} r seqs (d : DraftStep) gbs pbs (p : Proposer H E) (x : Device C) :
  DraftReady (latents := latents) r seqs d gbs pbs p -> DraftReady (latents := latents) r seqs d gbs pbs (in_device_context x p).
Proof. intros []. split; try done. by apply ProposerOk_device. Qed.

(** A greedy continuation goes on from where it was left. *)
Lemma greedy_from_app {E H} (cell : list E -> Z * unit -> E * H) (choice : H -> Z) es t n m : let ts := greedy_from cell choice es t (S n) in
  greedy_from cell choice es t (S n + m) =
  ts ++ greedy_from cell choice (es ++ (run_cells cell es (with_unit (t :: take n ts))).*1) (default 0%Z (last ts)) m.
Proof.
  revert es t. induction n as [|n IH]; intros es t ts; [done|]. subst ts. specialize (IH (es ++ [(cell es (t, tt)).1]) (choice (cell es (t, tt)).2)).
  cbn zeta in IH. change (S (S n) + m) with (S (S n + m)). change (greedy_from cell choice es t (S (S n + m))) with
    (choice (cell es (t, tt)).2 :: greedy_from cell choice (es ++ [(cell es (t, tt)).1]) (choice (cell es (t, tt)).2) (S n + m)).
  change (greedy_from cell choice es t (S (S n))) with
    (choice (cell es (t, tt)).2 :: greedy_from cell choice (es ++ [(cell es (t, tt)).1]) (choice (cell es (t, tt)).2) (S n)).
  rewrite IH. set (ts := greedy_from cell choice _ _ (S n)). cbn [app]. f_equal. f_equal.
  cbn [take with_unit fmap list_fmap Passes.run_cells]. rewrite <-app_assoc. done.
Qed.

(** The drafts that are kept are the choices before them. *)
Lemma hits_taken choices drafts : take (hits_of choices drafts) drafts = take (hits_of choices drafts) choices.
Proof.
  unfold hits_of. revert drafts. induction choices as [|x choices IH]; intros [|y drafts]; try done. cbn [zip_with leading].
  case_bool_decide as Hxy; [|done]. cbn [leading take]. by rewrite IH, Hxy.
Qed.

(** The rows by sequence: each is found where it is. *)
Lemma rows_by_id_at rows i s : NoDup (seq_id <$> rows) -> rows !! i = Some s -> rows_by_id rows !! seq_id s = Some (Z.of_nat i).
Proof.
  intros Hnd. unfold rows_by_id, arange, Zlen.
  assert (Hgen : forall l k (m : gmap nat Z) j x, NoDup (seq_id <$> l) -> l !! j = Some x ->
    foldl (fun (m : gmap nat Z) p => <[seq_id p.2 := p.1]> m) m (zip (seqZ k (Z.of_nat (length l))) l) !! seq_id x = Some (k + Z.of_nat j)%Z).
  { assert (Hout : forall l k (m : gmap nat Z) y, y ∉ seq_id <$> l ->
      foldl (fun (m : gmap nat Z) p => <[seq_id p.2 := p.1]> m) m (zip (seqZ k (Z.of_nat (length l))) l) !! y = m !! y).
    { intros l. induction l as [|z l IH]; intros k m y Hy; [by rewrite zip_with_nil_r|]. rewrite fmap_cons in Hy. apply not_elem_of_cons in Hy as [H1 H2].
      cbn [length]. rewrite (seqZ_cons k) by lia. cbn [zip zip_with foldl fst snd].
      replace (Z.pred (Z.of_nat (S (length l)))) with (Z.of_nat (length l)) by lia. rewrite IH by done. by rewrite lookup_insert_ne. }
    intros l. induction l as [|z l IH]; intros k m j x Hl Hj; [done|]. rewrite fmap_cons in Hl. apply NoDup_cons in Hl as [H1 H2].
    cbn [length]. rewrite (seqZ_cons k) by lia. cbn [zip zip_with foldl fst snd].
    replace (Z.pred (Z.of_nat (S (length l)))) with (Z.of_nat (length l)) by lia. destruct j as [|j].
    - injection Hj as ->. rewrite Hout by done. rewrite lookup_insert_eq. f_equal. lia.
    - rewrite (IH (Z.succ k) _ j x H2 Hj). f_equal. lia. }
  intros Hi. rewrite (Hgen rows 0%Z ∅ i s Hnd Hi). done.
Qed.

(** ** The step *)

Section Decode.
Context {F H E E' : Type} `{!Scalar F} `{!Softmax F} `{!Ordered F} `{!Sampling F} `{!TargetModel F H E} `{!Drafter F H E'}.
Variable cell : list E -> Z * unit -> E * H.
Variable drafter_cell : nat -> list E' -> Z * H -> E' * H.
Context {latents : bool} `{!TargetOk cell latents} `{!DrafterOk drafter_cell latents}.
Variable r : Runner.
Variable seqs : list Sequence.
Local Abbreviation batch := (batch_of r seqs).
Local Abbreviation sampled := (filter (fun s => samples s = true) seqs).
Local Abbreviation K := (mr_num_speculative_tokens r).

(** The entries of each sequence's earlier tokens, in the model's cache and in the drafter's first layer's. *)
Variable hist : Sequence -> list E.
Variable drafter_hist : Sequence -> list E'.
Local Abbreviation outs := (outs cell r hist).

(** The model's choice after a token. *)
Definition target_choice (h : H) : Z := argmax_row (target_head h).

(** The last of a sequence's own tokens, after which its drafts come, and the entries before it. *)
Definition fed (s : Sequence) : nat := Z.to_nat (num_scheduled_tokens s - num_logits_of s).
Definition last_id (s : Sequence) : Z := default 0%Z (ids_of r s !! fed s).
Definition entries_before (s : Sequence) : list E := hist s ++ (run_cells cell (hist s) (with_unit (take (fed s) (ids_of r s)))).*1.

(** How many of a row's drafts are kept, and the tokens that the step decodes for it. *)
Definition row_choices_of (s : Sequence) : list Z := choices_of cell target_choice (entries_before s) (last_id s :: drafts_of r s).
Definition hits (s : Sequence) : nat := hits_of (row_choices_of s) (drafts_of r s).
Definition decoded (s : Sequence) : list Z := greedy_from cell target_choice (entries_before s) (last_id s) (S (hits s)).

(** What the drafter starts from. *)
Definition decoded_step : DraftStep :=
  {| st_hist := drafter_hist; st_hid := outs; st_acc s := Z.of_nat (hits s); st_next s := default 0%Z (last (decoded s)) |}.

Variable mw : Z.
Variable s0 : ModelRunner H E E'.
Hypothesis Hok : StepReady (latents := latents) r seqs hist mw s0.
Hypothesis Hdrafts : forall s, s ∈ sampled -> (num_drafts_of s <= K)%Z.

Lemma decoded_nonneg s : Forall (fun t => 0 <= t)%Z (decoded s).
Proof using. apply greedy_from_nonneg. intros h. apply argmax_row_nonneg. Qed.

Lemma decoded_length s : length (decoded s) = S (hits s).
Proof using. apply greedy_from_length. Qed.

Lemma row_bounds s : s ∈ batch -> length (ids_of r s) = Z.to_nat (num_scheduled_tokens s) /\ (0 <= num_drafts_of s < num_scheduled_tokens s)%Z.
Proof using Hok.
  intros Hs. pose proof (step_ids_length r seqs hist mw s0 Hok s Hs) as Hl. unfold Zlen in Hl. split; [lia|].
  by apply (num_drafts_bounds r seqs (rd_rows _ _ (se_ready _ _ _ _ _ Hok))).
Qed.

Lemma ids_split s : s ∈ batch -> ids_of r s = take (fed s) (ids_of r s) ++ last_id s :: drafts_of r s.
Proof using Hok.
  intros Hs. destruct (row_bounds s Hs) as [Hl Hd]. rewrite <-(take_drop (fed s) (ids_of r s)) at 1. f_equal.
  unfold last_id, drafts_of. destruct (lookup_lt_is_Some_2 (ids_of r s) (fed s)) as [x Hx]; [unfold fed, num_logits_of in *; lia|].
  rewrite Hx. rewrite (drop_S _ _ _ Hx). simpl. do 2 f_equal. unfold fed, num_logits_of. lia.
Qed.

(** The logits' choices are those after the row's last token and its drafts. *)
Lemma tail_choices s : s ∈ batch -> target_choice <$> tail_of outs s = row_choices_of s.
Proof using Hok.
  intros Hs. unfold tail_of, ModelStepFacts.outs, step_cells. pose proof (ids_split s Hs) as Hi. destruct (row_bounds s Hs) as [Hl Hd]. fold (fed s).
  rewrite Hi at 1. unfold with_unit at 1. rewrite fmap_app, run_cells_app, fmap_app. fold (with_unit (take (fed s) (ids_of r s))).
  rewrite drop_app_length'; [done|]. rewrite length_fmap, run_cells_length, with_unit_length, length_take. unfold fed, num_logits_of. lia.
Qed.

Lemma drafts_of_length s : s ∈ batch -> length (drafts_of r s) = Z.to_nat (num_drafts_of s).
Proof using Hok. intros Hs. destruct (row_bounds s Hs) as [Hl Hd]. unfold drafts_of. rewrite length_drop, Hl. lia. Qed.

Lemma hits_le s : s ∈ batch -> (Z.of_nat (hits s) <= num_drafts_of s)%Z.
Proof using Hok.
  intros Hs. pose proof (drafts_of_length s Hs). destruct (row_bounds s Hs) as [_ Hd].
  assert (hits s <= length (drafts_of r s)); [|lia]. unfold hits, hits_of. etransitivity; [apply leading_le|]. rewrite length_zip_with. lia.
Qed.

Lemma decoded_take s : decoded s = take (S (hits s)) (row_choices_of s).
Proof using. symmetry. apply (choices_greedy cell target_choice). Qed.

(** Verification keeps the greedy continuation. *)
Lemma verify_greedy r' coin noise : mr_spec_inputs r' = (concat (drafts_of r <$> sampled), num_drafts_of <$> sampled) -> mr_num_speculative_tokens r' = K ->
  verify r' (target_head <$> concat (tail_of outs <$> sampled)) None coin noise =
  (fun s => decoded s ++ replicate (Z.to_nat K - hits s) PLACEHOLDER_TOKEN_ID) <$> sampled.
Proof using Hok Hdrafts.
  intros Hsp HK. unfold verify, RejectionSampler_forward. rewrite Hsp, HK. cbn [fst snd].
  assert (Hin : forall s, s ∈ sampled -> s ∈ batch) by (intros s Hs; by apply (sampled_in r seqs)).
  assert (Hc : argmax_row <$> (target_head <$> concat (tail_of outs <$> sampled)) = concat (row_choices_of <$> sampled)).
  { rewrite <-list_fmap_compose. change (argmax_row ∘ target_head) with target_choice. rewrite fmap_concat_rows. f_equal.
    apply list_fmap_ext. intros _ s Hs%list_elem_of_lookup_2. by apply tail_choices, Hin. }
  assert (Hn : Z.to_nat <$> (num_drafts_of <$> sampled) = (fun s => length (drafts_of r s)) <$> sampled).
  { rewrite <-list_fmap_compose. apply list_fmap_ext. intros _ s Hs%list_elem_of_lookup_2. symmetry. by apply drafts_of_length, Hin. }
  rewrite Hc, Hn, verify_rows.
  - apply list_fmap_ext. intros _ s _. by rewrite decoded_take.
  - intros s Hs. unfold row_choices_of. rewrite choices_length. split; [done|]. rewrite drafts_of_length by by apply Hin.
    pose proof (Hdrafts s Hs). lia.
Qed.

(** What the pass leaves in the model's cache. *)
Lemma passed_held dev s : Passed cell r seqs hist s0 dev -> s ∈ batch -> SlotsHold r (dv_cache dev) s (entries_after cell r hist s) (end_of r s).
Proof using Hok.
  intros [Hst Hpg] Hs. pose proof (se_ready _ _ _ _ _ Hok) as Hready. destruct (proj1 (list_elem_of_lookup _ _) Hs) as [i Hi].
  assert (Hx : (i, s) ∈ tagged batch) by (apply list_elem_of_lookup; exists i; by rewrite tagged_lookup, Hi).
  pose proof (pass_held cell _ _ _ _ (target_rows_ready r seqs hist mw s0 Hok) Hst (list_elem_of_fmap_2 _ _ _ Hx)) as Hh.
  eapply (held_slots r seqs Hready); [|done|exact Hh].
  destruct Hst as [Hs1 _ _ _]. rewrite Hs1. apply (se_pages _ _ _ _ _ Hok).
Qed.

Lemma pass_keeps_others dev slot : Passed cell r seqs hist s0 dev -> (0 <= slot)%Z ->
  (forall s q, s ∈ batch -> (start_of r s <= q < end_of r s)%Z -> slot <> slot_of r s q) ->
  slot_entry (dv_cache dev) slot = slot_entry (dv_cache (md_device s0)) slot.
Proof using Hok.
  intros [[_ _ _ Hold] _] H0 Hn. pose proof (step_slots_tokens r seqs hist mw s0 Hok (start_of r)) as Hsl. injection Hsl as Hsl.
  apply Hold; [done|]. rewrite <-Hsl.
  intros (l & Hl%list_elem_of_In & Hin%list_elem_of_In)%list_elem_of_In%in_concat.
  apply list_elem_of_fmap in Hl as (s & -> & Hs). apply list_elem_of_fmap in Hin as (q & -> & Hq%elem_of_seqZ).
  by apply (Hn s q Hs).
Qed.

(** The entries that the kept tokens leave. *)
Lemma kept_history s : s ∈ batch -> let n := Z.to_nat (end_of r s - num_drafts_of s + Z.of_nat (hits s)) in
  take n (entries_after cell r hist s) =
    entries_before s ++ (run_cells cell (entries_before s) (with_unit (last_id s :: take (hits s) (decoded s)))).*1 /\
  n = length (entries_before s) + S (hits s).
Proof using Hok.
  intros Hs n. destruct (row_bounds s Hs) as [Hl Hd]. pose proof (se_hist _ _ _ _ _ Hok s Hs) as Hh. unfold Zlen in Hh.
  assert (Hlen : length (entries_before s) = length (hist s) + fed s).
  { unfold entries_before. rewrite length_app, length_fmap, run_cells_length, with_unit_length, length_take. unfold fed, num_logits_of. lia. }
  assert (Hn : n = length (entries_before s) + S (hits s)) by (subst n; rewrite Hlen; unfold end_of, fed, num_logits_of; lia).
  split; [|done]. rewrite Hn. unfold entries_after, step_cells. rewrite (ids_split s Hs) at 1. unfold with_unit at 1. rewrite fmap_app, run_cells_app, fmap_app, app_assoc.
  fold (with_unit (take (fed s) (ids_of r s))). fold (entries_before s). rewrite take_app_add. f_equal. rewrite <-fmap_take, run_cells_take. do 2 f_equal.
  rewrite <-fmap_take. cbn [take]. f_equal. rewrite decoded_take. rewrite take_take, Nat.min_l by lia. unfold hits. f_equal. apply hits_taken.
Qed.

(** A step without a drafter: a token a row, of the row's own last output. *)
Lemma run_samples coin noise : mr_has_proposer r = false ->
  wp (run coin noise seqs) s0 (fun rows s => exists tokens, rows = (fun t => [t]) <$> tokens /\
    tokens = Sampler_forward (target_head <$> concat (tail_of outs <$> sampled)) (temperatures_of sampled)
      (fst <$> top_k_top_p_of sampled) (snd <$> top_k_top_p_of sampled) noise /\
    mr_prev_tokens (md_host s) = Some (inl tokens) /\ mr_prev_rows (md_host s) = Some (rows_by_id sampled) /\ BuffersReady r mw s /\
    forall x, x ∈ batch -> SlotsHold r (dv_cache (md_device s)) x (entries_after cell r hist x) (end_of r x)).
Proof using Hok TargetOk0.
  clear Hdrafts. intros Hprop. unfold run, on_host. wp_steps. rewrite (se_host _ _ _ _ _ Hok). wp_call (prepare_ready r seqs (se_ready _ _ _ _ _ Hok)).
  intros b r1 (start & Hstart & Hr1 & ->). cbn [ba_input_ids ba_positions ba_temperatures ba_context].
  unfold runner_after in Hr1. rewrite Hprop in Hr1. apply wp_bind, wp_target_context. set (s1 := _ <| md_device ::= _ |>). apply wp_bind.
  assert (Hap : AtPass r seqs s0 start s1) by (split; try done; by rewrite <-?(se_host _ _ _ _ _ Hok) in *; subst s1 r1).
  eapply wp_mono; [exact (run_model_ok cell r seqs hist mw s0 Hok start Hstart s1 Hap)|].
  intros logits s2 (-> & Hpd & (kind & Hh) & _ & Hb & _). wp_steps. rewrite Hh.
  change (mr_has_proposer ((md_host s1) <| mr_step_kind := kind |>)) with (mr_has_proposer r1). rewrite Hr1 at 1.
  cbn [mr_has_proposer update_field eta_expand eta_Runner]. rewrite Hprop. apply wp_ret. unfold record_tokens. apply wp_bind, wp_zoom, wp_bind, wp_modify, wp_ret, wp_ret.
  eexists. split; [done|]. split_and!; [by cbn; rewrite Hr1|done| |by destruct Hb|].
  - cbn. rewrite Hh. cbn. by rewrite Hr1.
  - intros x Hin. by apply passed_held.
Qed.

(** *** Each row by its own parameters *)

Context `{!SamplingOk F}.

(** Where no row truncates, there is nothing to pass. *)
Definition within_filters (s : Sequence) (l : list F) (j : nat) : Prop := exists x, l !! j = Some x /\
  ((0 < Sequence.top_k s)%Z -> (Z.of_nat (length (filter (less x) l)) < Sequence.top_k s)%Z) /\
  ((0 < top_p s)%Qc -> (top_p s < 1)%Qc -> less (mass_above (filter_row (Some (Sequence.top_k s)) None l) x) (of_Qc (top_p s))).

Lemma passes_within rows i s l j : rows !! i = Some s ->
  passes_filters (row_value (fst <$> top_k_top_p_of rows) i) (row_value (snd <$> top_k_top_p_of rows) i) l j -> within_filters s l j.
Proof using.
  clear. intros Hi (x & Hx & Hk & Hp). exists x. split; [done|]. unfold top_k_top_p_of in *.
  destruct (existsb _ rows) eqn:He; cbn [fmap option_fmap option_map fst snd row_value mbind option_bind] in *.
  - rewrite list_lookup_fmap, Hi in Hk, Hp. rewrite list_lookup_fmap, Hi in Hp. split; [by apply Hk|]. intros H0 _. by apply Hp.
  - assert (Hs : ((0 <? Sequence.top_k s)%Z || Qc_ltb (top_p s) 1) = false).
    { destruct (_ || _) eqn:Hb; [|done]. exfalso. apply not_true_iff_false in He. apply He, existsb_exists. exists s.
      split; [by apply list_elem_of_In; eapply list_elem_of_lookup_2|done]. }
    apply orb_false_iff in Hs as [H1%Z.ltb_ge H2]. split; [intros; lia|]. intros _ H3. unfold Qc_ltb in H2. by apply bool_decide_eq_false in H2.
Qed.

Definition own_logits (s : Sequence) : list F := target_head (default target_zero (last (outs s))).

Lemma plain_logits : (forall s, s ∈ sampled -> num_drafts_of s = 0%Z) -> target_head <$> concat (tail_of outs <$> sampled) = own_logits <$> sampled.
Proof using Hok.
  clear Hdrafts. intros H0. assert (Ht : tail_of outs <$> sampled = (fun s => [default target_zero (last (outs s))]) <$> sampled).
  { apply list_fmap_ext. intros _ s Hs%list_elem_of_lookup_2. pose proof (sampled_in r seqs s Hs) as Hb.
    pose proof (outs_length cell r seqs hist mw s0 Hok s Hb) as Hl. pose proof (row_bounds s Hb) as [_ Hd]. unfold tail_of, num_logits_of. rewrite (H0 s Hs) in *.
    unfold Zlen in Hl. destruct (last (outs s)) as [h|] eqn:Hh; [|apply last_None in Hh; rewrite Hh in Hl; simpl in Hl; lia].
    rewrite last_lookup in Hh. replace (Z.to_nat (num_scheduled_tokens s - (0 + 1))) with (Nat.pred (length (outs s))) by lia.
    rewrite (drop_S _ _ _ Hh), drop_ge by lia. done. }
  rewrite Ht. clear Ht H0. induction sampled as [|s l IH]; [done|]. rewrite !fmap_cons. cbn [concat]. rewrite fmap_app, IH. done.
Qed.

Lemma run_samples_within coin noise : mr_has_proposer r = false -> (forall s, s ∈ sampled -> num_drafts_of s = 0%Z) ->
  (forall h, target_head h <> []) -> Forall2 (fun e s => length e = length (own_logits s)) noise sampled ->
  wp (run coin noise seqs) s0 (fun rows s => Forall2 (fun row x => exists t, row = [t] /\
      (temperature x = 0%Qc -> t = argmax_row (own_logits x)) /\
      (temperature x <> 0%Qc -> exists j, t = Z.of_nat j /\ within_filters x (scale_row (temperature x) (own_logits x)) j)) rows sampled /\
    BuffersReady r mw s /\ forall x, x ∈ batch -> SlotsHold r (dv_cache (md_device s)) x (entries_after cell r hist x) (end_of r x)).
Proof using Hok TargetOk0 SamplingOk0.
  clear Hdrafts. intros Hprop H0 Hhead Hnoise. eapply wp_mono; [exact (run_samples coin noise Hprop)|].
  intros rows s (tokens & -> & Htok & _ & _ & Hbuf & Hheld). split_and!; [|done|done]. rewrite (plain_logits H0) in Htok.
  apply Forall2_fmap_l. set (logits := own_logits <$> sampled) in *.
  assert (Hll : length logits = length sampled) by apply length_fmap. pose proof (Forall2_length _ _ _ Hnoise) as Hnl.
  assert (Hgk : given_rows (fst <$> top_k_top_p_of sampled) (length logits) /\ given_rows (snd <$> top_k_top_p_of sampled) (length logits)).
  { unfold top_k_top_p_of. destruct (existsb _ _); split; intros l Hl; try done; injection Hl as <-; by rewrite length_fmap. }
  destruct Hgk as [Hgk Hgp].
  assert (Hat : forall i x, sampled !! i = Some x -> exists t, tokens !! i = Some t /\ (temperature x = 0%Qc -> t = argmax_row (own_logits x)) /\
      (temperature x <> 0%Qc -> exists j, t = Z.of_nat j /\ within_filters x (scale_row (temperature x) (own_logits x)) j)).
  { intros i x Hx. assert (Hlx : logits !! i = Some (own_logits x)) by (unfold logits; by rewrite list_lookup_fmap, Hx).
    rewrite Forall2_lookup in Hnoise. specialize (Hnoise i). rewrite Hx in Hnoise. destruct (noise !! i) as [e|] eqn:He; [|inversion Hnoise].
    inversion Hnoise as [? ? Hel|]; subst. unfold temperatures_of, Sampler_forward. destruct (forallb _ sampled) eqn:Hz.
    - eexists. split; [by rewrite list_lookup_fmap, Hlx|]. split; [done|]. intros Hn. exfalso. rewrite forallb_forall in Hz. apply Hn.
      pose proof (Hz x ltac:(apply list_elem_of_In; by eapply list_elem_of_lookup_2)) as Hb. by apply bool_decide_eq_true in Hb.
    - assert (Htl : length (temperature <$> sampled) = length logits) by by rewrite length_fmap, Hll.
      assert (Htx : (temperature <$> sampled) !! i = Some (temperature x)) by by rewrite list_lookup_fmap, Hx.
      destruct (sample_row logits _ _ _ noise i _ _ e Htl Hgk Hgp Hlx Htx He (Hhead _) Hel) as (t & Ht & Hg & Hs).
      exists t. split_and!; [done|done|]. intros Hn. destruct (Hs Hn) as (j & -> & Hj). exists j. split; [done|]. by apply (passes_within sampled i). }
  apply Forall2_lookup. intros i. destruct (sampled !! i) as [x|] eqn:Hx.
  - destruct (Hat i x Hx) as (t & -> & Hg & Hs). constructor. exists t. done.
  - destruct (tokens !! i) as [t|] eqn:Ht; [|constructor]. exfalso. apply lookup_ge_None in Hx. apply lookup_lt_Some in Ht.
    assert (Htl : length tokens <= length sampled); [|lia]. rewrite Htok. unfold Sampler_forward, sample.
    destruct (temperatures_of sampled); rewrite ?length_zip_with, ?length_fmap; lia.
Qed.

(** ** The whole step *)

Variable gbs pbs : list Z.
Variable p : Proposer H E'.
Hypothesis Hproposer : md_proposer s0 = Some p.
Hypothesis Hdraft : DraftReady (latents := latents) r seqs decoded_step gbs pbs p.
Hypothesis Hgreedy : Forall (fun s => temperature s = 0%Qc) seqs.

Lemma no_temperatures : temperatures_of sampled = None.
Proof using Hgreedy.
  unfold temperatures_of. assert (Hb : forallb (fun s => Qc_eqb (temperature s) 0) sampled = true); [|by rewrite Hb].
  rewrite Forall_forall in Hgreedy. apply forallb_forall. intros s Hs%list_elem_of_In. apply list_elem_of_filter in Hs as [_ Hs].
  rewrite (Hgreedy s Hs). by vm_compute.
Qed.

Section WithDrafts.
(** The drafts, when the drafter's first pass has left its first layer's cache as [first]. *)
Variable first : Pages E'.
Local Abbreviation drafts s := (drafts_from drafter_cell r decoded_step (dv_cache (pp_device p)) first s).

(** What the step leaves for the next one. *)
Record Decoded (s : ModelRunner H E E') : Prop := {
  dc_in_flight : mr_in_flight_drafts (md_host s) = Some {| fd_next_token_ids := (fun s => default 0%Z (last (decoded s))) <$> sampled;
    fd_draft_token_ids := (fun s => drafts s) <$> sampled; fd_num_rejected := (fun s => num_drafts_of s - Z.of_nat (hits s))%Z <$> sampled |};
  dc_settings : mr_block_size (md_host s) = mr_block_size r /\ mr_num_speculative_tokens (md_host s) = K /\ mr_max_model_len (md_host s) = mr_max_model_len r /\
    mr_has_proposer (md_host s) = true /\ mr_decodes_latents (md_host s) = mr_decodes_latents r /\ mr_graph_bs (md_host s) = mr_graph_bs r /\
    mr_graph_query_len (md_host s) = mr_graph_query_len r /\ mr_piecewise_bs (md_host s) = mr_piecewise_bs r;
  dc_rows : mr_prev_rows (md_host s) = Some (rows_by_id sampled);
  dc_buffers : BuffersReady r mw s;
  dc_context : dv_context (md_device s) = dv_context (md_device s0);
  dc_pages : PagesOk (fun _ => True) (dv_cache (md_device s)) /\ pg_size (dv_cache (md_device s)) = pg_size (dv_cache (md_device s0)) /\
    length (pg_blocks (dv_cache (md_device s))) = length (pg_blocks (dv_cache (md_device s0)));
  dc_held x : x ∈ batch -> SlotsHold r (dv_cache (md_device s)) x (entries_after cell r hist x) (end_of r x);
  dc_others slot : (0 <= slot)%Z -> (forall x q, x ∈ batch -> (start_of r x <= q < end_of r x)%Z -> slot <> slot_of r x q) ->
    slot_entry (dv_cache (md_device s)) slot = slot_entry (dv_cache (md_device s0)) slot;
  dc_drafter : exists p', md_proposer s = Some p' /\ StepDone drafter_cell r seqs decoded_step gbs pbs (in_device_context (md_device s0) p) p'
}.

End WithDrafts.

Lemma run_decodes coin noise :
  wp (run coin noise seqs) s0 (fun rows s => exists first, FirstDone drafter_cell r seqs decoded_step p first /\
    rows = (fun x => spec_row K (decoded x) (drafts_from drafter_cell r decoded_step (dv_cache (pp_device p)) first x)) <$> sampled /\
    Decoded first s).
Proof using Hok Hdrafts Hproposer Hdraft Hgreedy TargetOk0 DrafterOk0.
  pose proof (se_ready _ _ _ _ _ Hok) as Hready. pose proof (dr_proposer _ _ _ _ _ _ Hdraft) as Hprop.
  unfold run, on_host. wp_steps. rewrite (se_host _ _ _ _ _ Hok). wp_call (prepare_ready r seqs Hready).
  intros b r1 (start & Hstart & -> & ->). cbn [ba_input_ids ba_positions ba_temperatures ba_context]. rewrite no_temperatures.
  assert (Hr1 : runner_after r seqs start = (r <| mr_top_k_top_p := top_k_top_p_of sampled |> <| mr_draft_inputs := Some (drafter_inputs r seqs start) |>
    <| mr_spec_inputs := (concat (drafts_of r <$> sampled), num_drafts_of <$> sampled) |>) <| mr_sampling_rows := sampled |>)
    by (unfold runner_after; by rewrite Hprop).
  rewrite Hr1. set (r1 := _ <| mr_sampling_rows := _ |>). apply wp_bind, wp_target_context. set (s1 := _ <| md_device ::= _ |>). apply wp_bind.
  assert (Hap : AtPass r seqs s0 start s1) by by split.
  eapply wp_mono; [exact (run_model_ok cell r seqs hist mw s0 Hok start Hstart s1 Hap)|].
  intros logits s2 (-> & Hpd & (kind & Hh) & Hp & Hb & Hhs). specialize (Hhs Hprop). wp_steps. rewrite Hh.
  change (mr_has_proposer ((md_host s1) <| mr_step_kind := kind |>)) with (mr_has_proposer r). rewrite Hprop.
  rewrite verify_greedy by done. apply wp_ret. apply wp_bind.
  wp_call (next_tokens_rows decoded (fun s => Z.to_nat K - hits s) sampled).
  { intros x _. split; [|apply decoded_nonneg]. intros He. pose proof (decoded_length x) as Hl. by rewrite He in Hl. }
  intros o s3 [-> ->]. wp_steps. set (s3 := s2 <| md_device ::= _ |>). change (id s3) with s3.
  apply wp_or_raise with (drafter_inputs r seqs start); [change (md_host s3) with (md_host s2); by rewrite Hh|].
  apply wp_bind, wp_or_raise with (concat (outs <$> batch)); [done|]. apply wp_bind, wp_on_proposer with p; [by change (md_proposer s2 = Some p); rewrite Hp|].
  assert (Hacc : (fun x => Zlen (decoded x) - 1)%Z <$> sampled = st_acc decoded_step <$> sampled).
  { apply list_fmap_ext. intros _ x _. unfold Zlen. rewrite decoded_length. cbn [decoded_step st_acc]. lia. }
  rewrite Hacc.
  eapply wp_mono; [exact (propose_ok drafter_cell r seqs decoded_step gbs pbs _ (DraftReady_context _ _ _ _ _ p (md_device s0) Hdraft) start Hstart)|].
  intros o p' (first & Hfirst & -> & Hdone). pose proof (dn_context _ _ _ _ _ _ _ _ Hdone) as Hx. unfold record_drafts. apply wp_zoom. wp_steps.
  exists first. split; [by destruct Hfirst|]. split.
  - apply list_eq. intros i. rewrite lookup_zip_with, !list_lookup_fmap. destruct (sampled !! i) as [x|]; [|done]. cbn [fmap option_fmap option_map mbind option_bind].
    f_equal. unfold spec_row. rewrite decoded_length, <-app_assoc. pose proof (dr_drafts _ _ _ _ _ _ Hdraft).
    by replace (Z.to_nat (K + 1) - S (hits x)) with (Z.to_nat K - hits x) by lia.
  - split.
    + cbn. rewrite Hh. cbn. do 2 f_equal. clear. induction sampled as [|x l IH]; [done|]. rewrite !fmap_cons. simpl. by f_equal.
    + cbn. rewrite Hh. by split_and!.
    + cbn. by rewrite Hh.
    + by destruct Hb.
    + exact Hx.
    + destruct Hpd as [[Q1 Q2 _ _] Hpg]. by split_and!.
    + intros x Hin. by apply passed_held.
    + intros slot H0 Hn. by apply pass_keeps_others.
    + exists p'. done.
Qed.

(** ** The next step *)

(** A sequence in the step after one that it sampled in: its newest token is still the device's, and the scheduler counts every draft of
    that step as cached. *)
Record NextRow (s s' : Sequence) : Prop := {
  nx_id : seq_id s' = seq_id s;
  nx_decodes : is_prefill s' = false;
  nx_samples : samples s' = true;
  nx_pending : pending s' = true;
  nx_cached : num_cached_tokens s' = end_of r s;
  nx_scheduled : num_scheduled_tokens s' = (1 + Zlen (spec_token_ids s'))%Z;
  nx_drafts : (Zlen (spec_token_ids s') <= K)%Z;
  nx_table : block_table s `prefix_of` block_table s';
  nx_blocks : (num_cached_tokens s' + num_scheduled_tokens s' <= mr_block_size r * Zlen (block_table s'))%Z
}.

Variable first : Pages E'.
Local Abbreviation drafts s := (drafts_from drafter_cell r decoded_step (dv_cache (pp_device p)) first s).
Variable s1 : ModelRunner H E E'.
Hypothesis Hdecoded : Decoded first s1.
Hypothesis Hids : NoDup (seq_id <$> sampled).
Variable s s' : Sequence.
Hypothesis Hs : s ∈ sampled.
Hypothesis Hnext : NextRow s s'.
Local Abbreviation r' := (md_host s1).

Lemma next_lookup {A} (f : Sequence -> A) : exists i, prev_row r' s' = Some (Z.of_nat i) /\ py_get (f <$> sampled) (Z.of_nat i) = Some (f s).
Proof using Hdecoded Hids Hs Hnext.
  apply list_elem_of_lookup in Hs as [i Hi]. exists i. split.
  - unfold prev_row. rewrite (dc_rows _ _ Hdecoded). cbn [mbind option_bind]. rewrite (nx_id _ _ Hnext). by apply rows_by_id_at.
  - by rewrite py_get_nth, list_lookup_fmap, Hi.
Qed.

Lemma next_start : start_of r' s' = (end_of r s - num_drafts_of s + Z.of_nat (hits s))%Z.
Proof using Hdecoded Hids Hs Hnext.
  destruct (next_lookup (fun s => num_drafts_of s - Z.of_nat (hits s))%Z) as (i & Hp & Hg).
  unfold start_of, rejected_of. rewrite (dc_in_flight _ _ Hdecoded), (nx_pending _ _ Hnext), (nx_cached _ _ Hnext), Hp. cbn [mbind option_bind fd_num_rejected].
  rewrite Hg. simpl. lia.
Qed.

Lemma next_ids : ids_of r' s' = default 0%Z (last (decoded s)) :: take (length (spec_token_ids s')) (drafts s).
Proof using Hdecoded Hids Hs Hnext.
  destruct (next_lookup (fun s => default 0%Z (last (decoded s)))) as (i & Hp & Hg).
  destruct (next_lookup (fun s => drafts s)) as (j & Hp' & Hg'). rewrite Hp in Hp'. injection Hp' as Hij. assert (j = i) as -> by lia.
  unfold ids_of, head_ids. rewrite (dc_in_flight _ _ Hdecoded), (nx_decodes _ _ Hnext), (nx_pending _ _ Hnext), Hp.
  cbn [orb negb default from_option id fd_next_token_ids fd_draft_token_ids]. rewrite Hg, Hg'. done.
Qed.

(** The entries that the next step finds of the sequence. *)
Definition next_hist : list E := take (Z.to_nat (start_of r' s')) (entries_after cell r hist s).

Lemma next_row_bounds : s ∈ batch /\ (0 <= start_of r' s')%Z /\ (start_of r' s' <= end_of r s)%Z.
Proof using Hok Hdecoded Hids Hs Hnext.
  assert (Hb : s ∈ batch) by by apply (sampled_in r seqs). destruct (row_bounds s Hb) as [Hl Hd]. split; [done|]. rewrite next_start.
  destruct (batch_ok r seqs (se_ready _ _ _ _ _ Hok) s Hb) as [Hrow _]. pose proof (ro_start _ _ Hrow). unfold end_of in *.
  pose proof (hits_le s Hb). lia.
Qed.

(** The sequence keeps its slots. *)
Lemma next_slot q : (0 <= q < end_of r s)%Z -> slot_of r' s' q = slot_of r s q.
Proof using Hok Hdecoded Hids Hs Hnext.
  intros Hq. destruct next_row_bounds as (Hb & _). destruct (dc_settings _ _ Hdecoded) as (Hbs & _).
  pose proof (se_ready _ _ _ _ _ Hok) as Hready. pose proof (rk_bs _ (rd_runner _ _ Hready)) as Hpos.
  destruct (batch_ok r seqs Hready s Hb) as [Hrow Hbl]. pose proof (ro_blocks _ _ Hrow Hbl) as Hlen. pose proof (ro_start _ _ Hrow).
  destruct (nx_table _ _ Hnext) as [more Hmore]. unfold slot_of. rewrite Hbs, Hmore, app_nth1; [done|].
  unfold end_of in *. pose proof (Z.div_lt_upper_bound q (mr_block_size r) (Zlen (block_table s)) Hpos).
  pose proof (Z.div_pos q (mr_block_size r)). unfold Zlen in *. lia.
Qed.

Lemma next_hist_held : Zlen next_hist = start_of r' s' /\ SlotsHold r' (dv_cache (md_device s1)) s' next_hist (start_of r' s').
Proof using Hok Hdecoded Hids Hs Hnext.
  destruct next_row_bounds as (Hb & H0 & He). destruct (kept_history s Hb) as [Hk Hn]. rewrite <-next_start in Hk, Hn. split.
  - unfold next_hist. rewrite Hk. unfold Zlen. rewrite length_app, length_fmap, run_cells_length, with_unit_length. cbn [length].
    rewrite length_take, decoded_length. lia.
  - intros q e Hq Hqe. unfold next_hist in Hqe. apply lookup_take_Some in Hqe as [Hqe _]. rewrite next_slot by lia.
    apply (dc_held _ _ Hdecoded s Hb q e); [lia|done].
Qed.

(** The row is well-formed, as far as the runner sees it. *)
Lemma next_row_ok : RowOk r' s'.
Proof using Hok Hdecoded Hids Hs Hnext.
  destruct next_row_bounds as (Hb & H0 & He). pose proof (nx_scheduled _ _ Hnext) as Hn. pose proof (nx_decodes _ _ Hnext) as Hd.
  pose proof (Zlen_nonneg (spec_token_ids s')).
  destruct (dc_settings _ _ Hdecoded) as (Hbs & HK & _). split; rewrite ?Hd, ?Hbs, ?HK, ?(nx_cached _ _ Hnext); try done.
  - lia.
  - intros _. apply (nx_samples _ _ Hnext).
  - intros _. apply list_elem_of_lookup in Hs as [i Hi]. exists (Z.of_nat i). split.
    + unfold prev_row. rewrite (dc_rows _ _ Hdecoded). cbn [mbind option_bind]. rewrite (nx_id _ _ Hnext). by apply rows_by_id_at.
    + split; [lia|]. rewrite (dc_in_flight _ _ Hdecoded). cbn [fd_next_token_ids fd_num_rejected fd_draft_token_ids]. unfold Zlen.
      rewrite !length_fmap. apply lookup_lt_Some in Hi. pose proof (nx_drafts _ _ Hnext) as Hdr. unfold Zlen in Hdr. lia.
  - intros _. rewrite <-(nx_cached _ _ Hnext). apply (nx_blocks _ _ Hnext).
Qed.

(** From there on it is the same continuation. *)
Lemma next_continues n : decoded s ++ greedy_from cell target_choice next_hist (default 0%Z (last (decoded s))) n =
  greedy_from cell target_choice (entries_before s) (last_id s) (S (hits s) + n).
Proof using Hok Hdecoded Hids Hs Hnext.
  destruct next_row_bounds as (Hb & _). destruct (kept_history s Hb) as [Hk _]. rewrite <-next_start in Hk. unfold next_hist. rewrite Hk.
  symmetry. apply greedy_from_app.
Qed.

End Decode.

(** ** Steps in a row *)

Section Steps.
Context {F H E E' : Type} `{!Scalar F} `{!Softmax F} `{!Ordered F} `{!Sampling F} `{!TargetModel F H E} `{!Drafter F H E'}.
Variable cell : list E -> Z * unit -> E * H.
Variable drafter_cell : nat -> list E' -> Z * H -> E' * H.
Context {latents : bool} `{!DrafterOk drafter_cell latents}.
Variables (r : Runner) (seqs : list Sequence) (hist : Sequence -> list E) (drafter_hist : Sequence -> list E') (mw : Z).
Variables (s0 : ModelRunner H E E') (gbs pbs : list Z) (p : Proposer H E') (first : Pages E') (s1 : ModelRunner H E E').
Local Abbreviation sampled := (filter (fun s => samples s = true) seqs).
Local Abbreviation K := (mr_num_speculative_tokens r).
Local Abbreviation r' := (md_host s1).
Local Abbreviation step := (decoded_step cell r hist drafter_hist).
Local Abbreviation next_proposer := (default p (md_proposer s1)).

(** A batch for the next step: some rows go on from this one, and the others are of sequences that do not wait for its tokens, whose earlier
    entries the caches hold. *)
Record NextBatch (seqs' : list Sequence) (hist' : Sequence -> list E) (drafter_hist' : Sequence -> list E') : Prop := {
  nb_some : seqs' <> [];
  nb_pending s' : s' ∈ seqs' -> pending s' = true -> exists s, s ∈ sampled /\ NextRow r s s';
  nb_rows s' : s' ∈ seqs' -> pending s' = false -> RowOk r' s' /\ (num_drafts_of s' <= K)%Z /\
    (samples s' = false -> (0 <= num_cached_tokens s' /\ num_cached_tokens s' + num_scheduled_tokens s' < Zlen (token_ids s'))%Z /\
      (0 <= default 0 (py_get (token_ids s') (end_of r' s')))%Z);
  nb_held s' : s' ∈ seqs' -> pending s' = false -> Zlen (hist' s') = start_of r' s' /\
    SlotsHold r' (dv_cache (md_device s1)) s' (hist' s') (start_of r' s');
  nb_drafter_held s' c : s' ∈ seqs' -> pending s' = false -> dv_cache (pp_device next_proposer) !! 0 = Some c ->
    Zlen (drafter_hist' s') = start_of r' s' /\ SlotsHold r' c s' (drafter_hist' s') (start_of r' s');
  nb_own : OwnWithin r' seqs' (reach r');
  nb_len s' : s' ∈ seqs' -> (end_of r' s' <= mr_max_model_len r)%Z;
  nb_table s' : s' ∈ seqs' -> block_table s' <> [] /\ (reach r' s' <= mr_block_size r * Zlen (block_table s'))%Z;
  nb_blocks s' : s' ∈ seqs' -> Forall (fun b => b < length (pg_blocks (dv_cache (md_device s0)))) (block_table s');
  nb_drafter_blocks s' c : s' ∈ seqs' -> c ∈ dv_cache (pp_device p) -> Forall (fun b => b < length (pg_blocks c)) (block_table s');
  nb_width : (width r' seqs' <= mw)%Z;
  nb_greedy : Forall (fun s' => temperature s' = 0%Qc) seqs'
}.

(** What the caches hold of a row when the next step starts. *)
Definition previous (s' : Sequence) : option Sequence := snd <$> list_find (fun s => seq_id s = seq_id s') sampled.
Definition continued (hist' : Sequence -> list E) (s' : Sequence) : list E :=
  if pending s' then from_option (fun s => next_hist cell r hist s1 s s') [] (previous s') else hist' s'.
Definition drafter_continued (drafter_hist' : Sequence -> list E') (s' : Sequence) : list E' :=
  if pending s' then from_option (kept_entries drafter_cell r step) [] (previous s') else drafter_hist' s'.

Hypothesis Hok : StepReady (latents := latents) r seqs hist mw s0.
Hypothesis Hdraft : DraftReady (latents := latents) r seqs step gbs pbs p.
Hypothesis Hdec : Decoded cell drafter_cell r seqs hist drafter_hist mw s0 gbs pbs p first s1.
Hypothesis Hids : NoDup (seq_id <$> sampled).

Lemma previous_row s s' : s ∈ sampled -> NextRow r s s' -> previous s' = Some s.
Proof using Hids.
  clear -Hids. intros [i Hi]%list_elem_of_lookup Hn. unfold previous. destruct (list_find _ sampled) as [[j x]|] eqn:Hf.
  - apply list_find_Some in Hf as (Hj & Hx & _). simpl. f_equal. rewrite (nx_id _ _ _ Hn) in Hx.
    assert (j = i) as ->; [|congruence]. eapply (NoDup_lookup (seq_id <$> sampled)); [done| |by rewrite list_lookup_fmap, Hi].
    rewrite list_lookup_fmap, Hj. simpl. by f_equal.
  - apply list_find_None in Hf. rewrite Forall_forall in Hf. exfalso. apply (Hf s); [by eapply list_elem_of_lookup_2|].
    symmetry. apply (nx_id _ _ _ Hn).
Qed.

Lemma draft_chain_length n max_len pos k st : length (draft_chain drafter_cell max_len pos n k st) = S n.
Proof using. clear. revert k st. induction n as [|n IH]; intros k st; [done|]. cbn [draft_chain length]. by rewrite IH. Qed.

Lemma next_runner_ok : RunnerOk r'.
Proof using Hok Hdraft Hdec.
  clear Hids. destruct (dc_settings _ _ _ _ _ _ _ _ _ _ _ _ _ Hdec) as (Hbs & HK & _). pose proof (rd_runner _ _ (se_ready _ _ _ _ _ Hok)) as [R1 R2 _].
  pose proof (dr_drafts _ _ _ _ _ _ Hdraft). split; rewrite ?Hbs, ?HK; [done|done|].
  intros f Hf. rewrite (dc_in_flight _ _ _ _ _ _ _ _ _ _ _ _ _ Hdec) in Hf. injection Hf as <-. cbn [fd_draft_token_ids].
  apply Forall_fmap, Forall_forall. intros x _. unfold compose, drafts_from, Zlen. rewrite draft_chain_length. lia.
Qed.

Variables (seqs' : list Sequence) (hist' : Sequence -> list E) (drafter_hist' : Sequence -> list E').
Hypothesis Hbatch : NextBatch seqs' hist' drafter_hist'.
Local Abbreviation batch' := (batch_of r' seqs').

Lemma next_ready : Ready r' seqs'.
Proof using Hok Hdraft Hdec Hids Hbatch.
  split; [apply next_runner_ok| |apply (nb_some _ _ _ Hbatch)| |].
  - apply Forall_forall. intros s' Hs'. destruct (pending s') eqn:Hp; [|by apply (nb_rows _ _ _ Hbatch)].
    destruct (nb_pending _ _ _ Hbatch s' Hs' Hp) as (s & Hs & Hn).
    by eapply (next_row_ok cell drafter_cell r seqs hist drafter_hist mw s0 Hok gbs pbs p first s1 Hdec Hids s s').
  - apply Forall_forall. intros s' Hs'. by apply (nb_table _ _ _ Hbatch).
  - intros _. apply Forall_forall. intros s' Hs' Hsm. destruct (pending s') eqn:Hp; [|by split; [|by apply (nb_rows _ _ _ Hbatch)]].
    destruct (nb_pending _ _ _ Hbatch s' Hs' Hp) as (s & _ & Hn). rewrite (nx_samples _ _ _ Hn) in Hsm. done.
Qed.

Lemma within_shorter rr ss f g : (forall s, g s <= f s)%Z -> OwnWithin rr ss f -> OwnWithin rr ss g.
Proof using. clear. intros Hle Ho i j x y q q' Hi Hj Hq Hq' He. pose proof (Hle x). pose proof (Hle y). apply (Ho i j x y q q' Hi Hj); [lia|lia|done]. Qed.

Lemma next_step_ready : StepReady (latents := latents) r' seqs' (continued hist') mw s1.
Proof using Hok Hdraft Hdec Hids Hbatch.
  pose proof next_ready as Hready. destruct (dc_settings _ _ _ _ _ _ _ _ _ _ _ _ _ Hdec) as (Hbs & HK & _ & _ & Hl & G1 & G2 & G3).
  destruct (dc_pages _ _ _ _ _ _ _ _ _ _ _ _ _ Hdec) as (P1 & P2 & P3). destruct (se_pages _ _ _ _ _ Hok) as [_ P4].
  assert (Hh : forall s', s' ∈ seqs' -> Zlen (continued hist' s') = start_of r' s' /\
    SlotsHold r' (dv_cache (md_device s1)) s' (continued hist' s') (start_of r' s')).
  { intros s' Hs'. unfold continued. destruct (pending s') eqn:Hp; [|by apply (nb_held _ _ _ Hbatch)].
    destruct (nb_pending _ _ _ Hbatch s' Hs' Hp) as (s & Hs & Hn). rewrite (previous_row s s' Hs Hn). cbn [from_option].
    by eapply (next_hist_held cell drafter_cell r seqs hist drafter_hist mw s0 Hok gbs pbs p first s1 Hdec Hids s s'). }
  split; try done.
  - rewrite Hl. apply (se_latents _ _ _ _ _ Hok).
  - intros x Hx%batch_in. by apply Hh.
  - intros x Hx%batch_in. by apply Hh.
  - eapply within_shorter; [|exact (nb_own _ _ _ Hbatch)]. intros s'. unfold reach. destruct (samples s'); lia.
  - intros x Hx%batch_in. rewrite P3. by apply (nb_blocks _ _ _ Hbatch).
  - split; [done|]. rewrite P2, P4. done.
  - apply (nb_width _ _ _ Hbatch).
  - destruct (dc_buffers _ _ _ _ _ _ _ _ _ _ _ _ _ Hdec) as [B1 B2]. split; rewrite ?G1, ?G2, ?G3; done.
Qed.

(** The drafter's first layer has the kept tokens' entries. *)
Lemma next_drafter_held s s' p' c : md_proposer s1 = Some p' -> dv_cache (pp_device p') !! 0 = Some c -> s ∈ sampled -> NextRow r s s' ->
  (start_of r' s' < mr_max_model_len r)%Z ->
  Zlen (kept_entries drafter_cell r step s) = start_of r' s' /\ SlotsHold r' c s' (kept_entries drafter_cell r step s) (start_of r' s').
Proof using Hok Hdraft Hdec Hids DrafterOk0.
  intros Hp Hc Hs Hn Hlt. destruct (sampled_batch r seqs s Hs) as [Hb Hsm].
  destruct (dc_drafter _ _ _ _ _ _ _ _ _ _ _ _ _ Hdec) as (p1 & Hp1 & Hdone). rewrite Hp in Hp1. injection Hp1 as <-.
  pose proof (exact_HostStart r seqs (rd_rows _ _ (se_ready _ _ _ _ _ Hok))) as Hstart.
  destruct (lookup_lt_is_Some_2 (dv_cache (pp_device p)) 0) as [c0 Hc0].
  { rewrite (dr_layers _ _ _ _ _ _ Hdraft). pose proof (do_layers drafter_cell). lia. }
  pose proof (kept_entries_length drafter_cell r seqs step gbs pbs p Hdraft (start_of r) Hstart c0 Hc0 s Hb) as Hlen.
  destruct (kept_bounds r seqs (se_ready _ _ _ _ _ Hok) (st_acc step) (dr_acc _ _ _ _ _ _ Hdraft) s Hb) as [_ Hk]. specialize (Hk Hsm).
  pose proof (next_start cell drafter_cell r seqs hist drafter_hist mw s0 gbs pbs p first s1 Hdec Hids s s' Hs Hn) as Hst.
  destruct (next_row_bounds cell drafter_cell r seqs hist drafter_hist mw s0 Hok gbs pbs p first s1 Hdec Hids s s' Hs Hn) as (_ & H0 & He).
  change (st_acc step s) with (Z.of_nat (hits cell r hist s)) in Hk. unfold last_position in Hlen. unfold end_of in *. split; [unfold Zlen; lia|].
  intros q e Hq Hqe. rewrite (next_slot cell drafter_cell r seqs hist drafter_hist mw s0 Hok gbs pbs p first s1 Hdec Hids s s' Hs Hn) by (unfold end_of; lia).
  apply (dn_held _ _ _ _ _ _ _ _ Hdone c s Hc Hb q e); [|done]. unfold safe. rewrite Hsm. lia.
Qed.

Lemma next_draft_ready : exists p', md_proposer s1 = Some p' /\
  DraftReady (latents := latents) r' seqs' (decoded_step cell r' (continued hist') (drafter_continued drafter_hist')) gbs pbs p'.
Proof using Hok Hdraft Hdec Hids Hbatch DrafterOk0.
  pose proof next_ready as Hready. pose proof next_step_ready as Hstep.
  destruct (dc_settings _ _ _ _ _ _ _ _ _ _ _ _ _ Hdec) as (Hbs & HK & Hml & Hpr & Hl & G1 & G2 & G3).
  destruct (dc_drafter _ _ _ _ _ _ _ _ _ _ _ _ _ Hdec) as (p' & Hp' & Hdone). exists p'. split; [done|].
  pose proof (dn_geometry _ _ _ _ _ _ _ _ Hdone) as Hgeo.
  assert (Hold : forall c', c' ∈ dv_cache (pp_device p') -> exists c, c ∈ dv_cache (pp_device p) /\
    PagesOk (fun _ => True) c' /\ pg_size c' = pg_size c /\ length (pg_blocks c') = length (pg_blocks c)).
  { intros c' [k Hk]%list_elem_of_lookup. destruct (Forall2_lookup_r _ _ _ _ _ Hgeo Hk) as (c & Hc & Hg). exists c.
    split; [by eapply list_elem_of_lookup_2|done]. }
  assert (Hh : forall c s', dv_cache (pp_device p') !! 0 = Some c -> s' ∈ seqs' -> Zlen (drafter_continued drafter_hist' s') = start_of r' s' /\
    SlotsHold r' c s' (drafter_continued drafter_hist' s') (start_of r' s')).
  { intros c s' Hc Hs'. unfold drafter_continued. destruct (pending s') eqn:Hp.
    - destruct (nb_pending _ _ _ Hbatch s' Hs' Hp) as (s & Hs & Hn). rewrite (previous_row s s' Hs Hn). cbn [from_option].
      apply (next_drafter_held s s' p' c Hp' Hc Hs Hn). pose proof (nb_len _ _ _ Hbatch s' Hs'). unfold end_of in *.
      pose proof (nx_scheduled _ _ _ Hn). pose proof (Zlen_nonneg (spec_token_ids s')). lia.
    - apply (nb_drafter_held _ _ _ Hbatch); [done|done|]. by rewrite Hp'. }
  assert (Hcaches : exists c, dv_cache (pp_device p') !! 0 = Some c).
  { apply lookup_lt_is_Some_2. pose proof (Forall2_length _ _ _ Hgeo) as Hlen. rewrite <-Hlen. change (dv_cache (pp_device (in_device_context (md_device s0) p))) with (dv_cache (pp_device p)).
    rewrite (dr_layers _ _ _ _ _ _ Hdraft). pose proof (do_layers drafter_cell). lia. }
  destruct Hcaches as [c0 Hc0].
  assert (Hspec : forall s', s' ∈ seqs' -> samples s' = true -> (0 <= Z.of_nat (hits cell r' (continued hist') s') <= num_drafts_of s')%Z).
  { intros s' Hs' _. assert (Hb : s' ∈ batch') by (unfold batch_of; by rewrite by_mask_perm).
    pose proof (hits_le cell r' seqs' (continued hist') mw s1 Hstep s' Hb). lia. }
  split; rewrite ?Hbs, ?HK, ?Hml; try done.
  - apply (dr_drafts _ _ _ _ _ _ Hdraft).
  - rewrite Hl. apply (se_latents _ _ _ _ _ Hok).
  - intros s' Hs' Hsm. unfold next_id. rewrite Hsm. destruct (pending s') eqn:Hp.
    + destruct (nb_pending _ _ _ Hbatch s' Hs' Hp) as (s & _ & Hn). rewrite (nx_samples _ _ _ Hn) in Hsm. done.
    + by apply (nb_rows _ _ _ Hbatch s' Hs' Hp).
  - intros s' Hs'. by apply (outs_length cell r' seqs' (continued hist') mw s1 Hstep).
  - intros s' Hs'%batch_in. by apply (Hh c0).
  - rewrite <-(Forall2_length _ _ _ Hgeo). apply (dr_layers _ _ _ _ _ _ Hdraft).
  - intros c s' Hc Hs'%batch_in. by apply (Hh c).
  - apply (nb_own _ _ _ Hbatch).
  - intros s' Hs'%batch_in. by apply (nb_len _ _ _ Hbatch).
  - intros c' s' Hc' Hs'%batch_in. destruct (Hold c' Hc') as (c & Hc & _ & _ & ->). by apply (nb_drafter_blocks _ _ _ Hbatch).
  - intros s' Hs'%batch_in. by apply (nb_table _ _ _ Hbatch).
  - intros c' Hc'. destruct (Hold c' Hc') as (c & Hc & Hg & -> & _). split; [done|]. by apply (dr_pages _ _ _ _ _ _ Hdraft).
  - intros c1 c2 H1 H2. destruct (Hold c1 H1) as (d1 & D1 & _ & _ & ->). destruct (Hold c2 H2) as (d2 & D2 & _ & _ & ->).
    by apply (dr_same _ _ _ _ _ _ Hdraft).
  - apply (dn_ok _ _ _ _ _ _ _ _ Hdone).
Qed.

(** The next step's tokens come right after. *)
Lemma next_decoded s s' : s ∈ sampled -> pending s' = true -> NextRow r s s' -> 
  decoded cell r hist s ++ decoded cell r' (continued hist') s' =
  greedy_from cell target_choice (entries_before cell r hist s) (last_id r s) (S (hits cell r hist s) + S (hits cell r' (continued hist') s')).
Proof using Hok Hdec Hids.
  intros Hs Hp Hn. rewrite <-(next_continues cell drafter_cell r seqs hist drafter_hist mw s0 Hok gbs pbs p first s1 Hdec Hids s s' Hs Hn). f_equal.
  pose proof (next_ids cell drafter_cell r seqs hist drafter_hist mw s0 gbs pbs p first s1 Hdec Hids s s' Hs Hn) as Hi.
  assert (Hfed : fed s' = 0) by (unfold fed, num_logits_of, num_drafts_of; rewrite (nx_decodes _ _ _ Hn); lia).
  assert (Hc : continued hist' s' = next_hist cell r hist s1 s s') by (unfold continued; by rewrite Hp, (previous_row s s' Hs Hn)).
  unfold decoded, entries_before, last_id. rewrite Hfed, Hc, Hi. cbn [take with_unit fmap list_fmap Passes.run_cells]. by rewrite app_nil_r.
Qed.

(** What the engine reads of a step's rows. *)
Lemma split_decoded rr ss hh mm (st : ModelRunner H E E') (drafts : Sequence -> list Z) : StepReady (latents := latents) rr ss hh mm st ->
  (forall s, s ∈ filter (fun s => samples s = true) ss -> (num_drafts_of s <= mr_num_speculative_tokens rr)%Z) ->
  (0 <= mr_num_speculative_tokens rr)%Z -> let l := filter (fun s => samples s = true) ss in
  split_sampled ((fun x => spec_row (mr_num_speculative_tokens rr) (decoded cell rr hh x) (drafts x)) <$> l) (mr_num_speculative_tokens rr) =
  (decoded cell rr hh <$> l, drafts <$> l).
Proof using.
  clear. intros Hst Hd HK l.
  pose proof (split_sampled_rows (mr_num_speculative_tokens rr) ((fun x => (decoded cell rr hh x, drafts x)) <$> l) HK) as Hsp.
  rewrite <-!list_fmap_compose in Hsp. apply Hsp. apply Forall_fmap, Forall_forall. intros x Hx. split; [|apply decoded_nonneg].
  cbn [fst]. unfold Zlen. rewrite decoded_length. pose proof (Hd x Hx). destruct (sampled_batch rr ss x Hx) as [Hb _].
  pose proof (hits_le cell rr ss hh mm st Hst x Hb). lia.
Qed.

End Steps.

Local Abbreviation sampled_of ss := (filter (fun s => samples s = true) ss).

(** Two steps, each from what the one before left. *)
Lemma run_twice {F H E E'} `{!Scalar F} `{!Softmax F} `{!Ordered F} `{!Sampling F} `{!TargetModel F H E} `{!Drafter F H E'} (cell : list E -> Z * unit -> E * H)
    (drafter_cell : nat -> list E' -> Z * H -> E' * H) {latents} `{!TargetOk cell latents} `{!DrafterOk drafter_cell latents}
    r seqs hist drafter_hist mw (s0 : ModelRunner H E E') gbs pbs p coin noise :
  let K := mr_num_speculative_tokens r in
  StepReady (latents := latents) r seqs hist mw s0 -> md_proposer s0 = Some p ->
  DraftReady (latents := latents) r seqs (decoded_step cell r hist drafter_hist) gbs pbs p ->
  (forall s, s ∈ sampled_of seqs -> (num_drafts_of s <= K)%Z) -> Forall (fun s => temperature s = 0%Qc) seqs -> NoDup (seq_id <$> sampled_of seqs) ->
  wp (run coin noise seqs) s0 (fun rows s1 => forall seqs' hist' drafter_hist' coin' noise',
    NextBatch r seqs mw s0 p s1 seqs' hist' drafter_hist' ->
    wp (run coin' noise' seqs') s1 (fun rows' _ =>
      let step1 := split_sampled rows K in
      let step2 := split_sampled rows' K in
      forall i j s s', sampled_of seqs !! i = Some s -> sampled_of seqs' !! j = Some s' -> pending s' = true -> seq_id s' = seq_id s ->
      exists new drafts new', step1.1 !! i = Some new /\ step1.2 !! i = Some drafts /\ step2.1 !! j = Some new' /\ new <> [] /\ new' <> [] /\
        start_of (md_host s1) s' = (end_of r s - num_drafts_of s + Zlen new - 1)%Z /\
        ids_of (md_host s1) s' = default 0%Z (last new) :: take (length (spec_token_ids s')) drafts /\
        new ++ new' = greedy_from cell target_choice (entries_before cell r hist s) (last_id r s) (length (new ++ new')))).
Proof.
  intros K. subst K. intros Hok Hp Hd Hk Ht Hids. pose proof (rk_k _ (rd_runner _ _ (se_ready _ _ _ _ _ Hok))) as HK0.
  eapply wp_mono; [by apply (run_decodes cell drafter_cell r seqs hist drafter_hist mw s0 Hok Hk gbs pbs p Hp Hd Ht)|].
  intros rows s1 (first & _ & -> & Hdec) seqs' hist' dh' coin' noise' Hb.
  pose proof (next_step_ready cell drafter_cell r seqs hist drafter_hist mw s0 gbs pbs p first s1 Hok Hd Hdec Hids seqs' hist' dh' Hb) as Hok'.
  destruct (next_draft_ready cell drafter_cell r seqs hist drafter_hist mw s0 gbs pbs p first s1 Hok Hd Hdec Hids seqs' hist' dh' Hb) as (p' & Hp' & Hd').
  destruct (dc_settings _ _ _ _ _ _ _ _ _ _ _ _ _ Hdec) as (_ & HK & _).
  assert (Hk' : forall s', s' ∈ sampled_of seqs' -> (num_drafts_of s' <= mr_num_speculative_tokens (md_host s1))%Z).
  { intros s' [_ Hs']%list_elem_of_filter. rewrite HK. destruct (pending s') eqn:Hpend; [|by apply (nb_rows _ _ _ _ _ _ _ _ _ Hb)].
    destruct (nb_pending _ _ _ _ _ _ _ _ _ Hb s' Hs' Hpend) as (s & _ & Hn). unfold num_drafts_of.
    rewrite (nx_decodes _ _ _ Hn), (nx_scheduled _ _ _ Hn). pose proof (nx_drafts _ _ _ Hn). lia. }
  eapply wp_mono; [by apply (run_decodes cell drafter_cell _ seqs' _ _ mw s1 Hok' Hk' gbs pbs p' Hp' Hd' (nb_greedy _ _ _ _ _ _ _ _ _ Hb))|].
  intros rows' s2 (first' & _ & -> & _). cbn zeta. rewrite (split_decoded cell r seqs hist mw s0 _ Hok Hk HK0).
  pose proof (split_decoded cell _ seqs' (continued cell r seqs hist s1 hist') mw s1
    (drafts_from drafter_cell (md_host s1) (decoded_step cell (md_host s1) (continued cell r seqs hist s1 hist')
      (drafter_continued cell drafter_cell r seqs hist drafter_hist dh')) (dv_cache (pp_device p')) first') Hok' Hk') as Hsplit.
  rewrite HK in Hsplit. specialize (Hsplit HK0). cbn zeta in Hsplit. rewrite HK. rewrite Hsplit. clear Hsplit. cbn [fst snd].
  intros i j s s' Hi Hj Hpend Hid. pose proof (list_elem_of_lookup_2 _ _ _ Hi) as Hs. pose proof (list_elem_of_lookup_2 _ _ _ Hj) as [_ Hs']%list_elem_of_filter.
  assert (Hn : NextRow r s s').
  { destruct (nb_pending _ _ _ _ _ _ _ _ _ Hb s' Hs' Hpend) as (x & [k Hx]%list_elem_of_lookup & Hn). assert (k = i) as ->; [|congruence].
    eapply (NoDup_lookup (seq_id <$> sampled_of seqs)); [done| |by rewrite list_lookup_fmap, Hi]. rewrite list_lookup_fmap, Hx. simpl.
    by rewrite <-(nx_id _ _ _ Hn), Hid. }
  rewrite !list_lookup_fmap, Hi, Hj. eexists _, _, _. split; [done|]. split; [done|]. split; [done|].
  assert (Hne : forall rr hh x, decoded cell rr hh x <> []) by (intros rr hh x He; pose proof (decoded_length cell rr hh x) as Hl; by rewrite He in Hl).
  split; [apply Hne|]. split; [apply Hne|]. unfold Zlen. rewrite length_app, !decoded_length. split_and!.
  - rewrite (next_start cell drafter_cell r seqs hist drafter_hist mw s0 gbs pbs p first s1 Hdec Hids s s' Hs Hn). lia.
  - exact (next_ids cell drafter_cell r seqs hist drafter_hist mw s0 gbs pbs p first s1 Hdec Hids s s' Hs Hn).
  - exact (next_decoded cell drafter_cell r seqs hist drafter_hist mw s0 gbs pbs p first s1 Hok Hdec Hids hist' s s' Hs Hpend Hn).
Qed.
