(* ===== verification/RunnerInstances.v ===== *)
(** * A concrete step of the model runner

    On which the witnesses of the runner and of attention are evaluated: three
    rows, one of which decodes two drafts after a step with drafts. *)


From S2P Require Import Prelude Output Moe Sequence Arrays AttnContext ModelRunner ModelRunnerFacts Instances Tensors.
From S2P Require Import Attention MLA TorchAttention TorchFacts AttentionFacts MLAFacts MLAStep StepAttention.
From S2P Require Import Passes Proposer ProposerFacts DrafterStep Sampler ModelStep ModelStepFacts.

Definition demo_row (id : nat) (tokens : list Z) (prompt cached pend n : Z) (drafts : list Z) (pre : bool)
    (blocks : list nat) : Sequence :=
  {| seq_id := id; request_id := pretty id; status := RUNNING; token_ids := tokens;
     last_token := default 0%Z (last tokens); num_tokens := Zlen tokens; num_prompt_tokens := prompt;
     num_cached_tokens := cached; num_pending_tokens := pend; num_published_blocks := 0;
     num_scheduled_tokens := n; num_new_tokens := 0; spec_token_ids := drafts; is_prefill := pre;
     block_table := blocks; block_hashes := []; temperature := 0%Qc; top_p := 1%Qc; top_k := 0;
     max_tokens := 8; ignore_eos := false; stop_token_ids := []; skip_special_tokens := true; priority := 0;
     kv_transfer_params := None; kv_transfer_result := None; finish_reason := None; num_preemptions := 0;
     arrival_time := 0%Qc; first_scheduled_time := None; first_token_time := None; finish_time := None |}.

Definition demo_seqs : list Sequence :=
  [demo_row 2 [21; 22; 23; 24; 25]%Z 5 0 0 2 [] true [3; 4];
   demo_row 1 [11; 12; 13]%Z 2 5 3 3 [-1; -1]%Z false [0; 1; 2];
   demo_row 3 [31; 32; 33; 34; 35]%Z 5 2 0 3 [] true [5; 6]].

Definition demo_runner : Runner :=
  {| mr_block_size := 4; mr_max_num_seqs := 4; mr_max_num_batched_tokens := 64; mr_max_model_len := 32;
     mr_num_speculative_tokens := 2; mr_has_proposer := true; mr_decodes_latents := true;
     mr_cudagraph_mode := "full_and_piecewise"; mr_graph_bs := [2; 4]%Z; mr_graph_query_len := 3; mr_piecewise_bs := [6; 9; 16]%Z;
     mr_step_kind := "";
     mr_in_flight_drafts := Some {| fd_next_token_ids := [90; 91]%Z; fd_draft_token_ids := [[80; 81]; [82; 83]]%Z;
                                    fd_num_rejected := [0; 1]%Z |};
     mr_prev_tokens := None; mr_prev_rows := Some {[1 := 1%Z]}; mr_top_k_top_p := None; mr_spec_inputs := ([], []);
     mr_draft_inputs := None; mr_sampling_rows := [] |}.

Lemma demo_ready : Ready demo_runner demo_seqs.
Proof.
  constructor.
  - constructor; [done|done|]. intros f [= <-]. by repeat constructor.
  - repeat apply Forall_cons_2; [..|constructor]; constructor; try done; try (vm_compute; naive_solver).
  - done.
  - by repeat constructor.
  - intros _. repeat apply Forall_cons_2; [..|constructor]; vm_compute; naive_solver.
Defined.

(** Without drafts: request 1 decodes one token, the others run their prompts. *)
Definition plain_seqs : list Sequence :=
  [demo_row 2 [21; 22; 23; 24; 25]%Z 5 0 0 2 [] true [3; 4];
   demo_row 1 [11; 12; 13; 14; 15; 16]%Z 2 5 0 1 [] false [0; 1; 2];
   demo_row 3 [31; 32; 33; 34; 35]%Z 5 2 0 3 [] true [5; 6]].

(** A model of two plain layers. *)
Definition plain_layers : list LayerInfo := replicate 2 {| li_latent := false; li_supports_mla_decode := false |}.

Definition plain_runner : Runner :=
  {| mr_block_size := 4; mr_max_num_seqs := 4; mr_max_num_batched_tokens := 64; mr_max_model_len := 32;
     mr_num_speculative_tokens := 0; mr_has_proposer := false; mr_decodes_latents := decodes_latents plain_layers;
     mr_cudagraph_mode := "none"; mr_graph_bs := []; mr_graph_query_len := 1; mr_piecewise_bs := [];
     mr_step_kind := ""; mr_in_flight_drafts := None; mr_prev_tokens := None; mr_prev_rows := None;
     mr_top_k_top_p := None; mr_spec_inputs := ([], []); mr_draft_inputs := None; mr_sampling_rows := [] |}.

Lemma plain_no_drafts s : s ∈ plain_seqs -> num_drafts_of s = 0%Z.
Proof. revert s. apply Forall_forall. by repeat constructor. Qed.

Lemma plain_ready : Ready plain_runner plain_seqs.
Proof.
  constructor.
  - by constructor.
  - repeat apply Forall_cons_2; [..|constructor]; constructor; try done; try (vm_compute; naive_solver).
  - done.
  - by repeat constructor.
  - done.
Defined.

(** ** A model over the paged cache

    The least that keeps the passes' promises: it reads a row's entries through
    its block table, runs the sequence model on its new tokens, and writes their
    entries to the slots of the context. The witnesses run it. *)


Section Paged.
Context {X H E : Type}.
Variable cell : list E -> Z * X -> E * H.
Variable pad_output : H.

Lemma masked_false {A} (l : list A) n : masked l (replicate n false) = [].
Proof using. clear. revert n. induction l as [|x l IH]; intros [|n]; try done. cbn [replicate]. by rewrite masked_cons. Qed.

(** The entries of a table's first positions. *)
Definition cached_entries (c : Pages E) (table : list Z) (n : nat) : list E :=
  omap (fun p => s ← table_slot c table p; slot_entry c s) (seq 0 n).

Definition query_lens (f : Fields) (num_tokens : nat) : list nat :=
  match cx_full_graph_size f with
  | Some n => replicate (Z.to_nat n) (num_tokens / Z.to_nat n)
  | None => Z.to_nat <$> diffs (default [] (cx_cu_seqlens_q f))
  end.

Definition paged_row (c : Pages E) (row : list Z * Z) (new : list (Z * X)) : list (E * H) :=
  run_cells cell (cached_entries c row.1 (Z.to_nat row.2 - length new)) new.

Definition paged_run (l : list (Z * X)) (positions : list Z) : M (Device (Pages E)) (list H) :=
  let! f := context_fields in
  let! tables := or_raise (cx_block_tables f) (AssertionError "") in
  let! lens := or_raise (cx_context_lens f) (AssertionError "") in
  let! slots := or_raise (cx_slot_mapping f) (AssertionError "") in
  let! c := gets dv_cache in
  let cells := concat (zip_with (paged_row c) (zip tables lens) (split_rows (query_lens f (length l)) l)) in
  let keep := (fun s => 0 <=? s)%Z <$> slots in
  let! c' := put_pages c (masked slots keep) (masked cells.*1 keep) in
  modify (fun d => d <| dv_cache := c' |>);;;
  ret (cells.*2 ++ replicate (length l - length cells) pad_output).

Lemma cached_held c table es : Holds c table es -> cached_entries c table (length es) = es.
Proof using.
  clear. revert table. unfold cached_entries. intros table. induction es as [|e es IH] using rev_ind; [done|]. intros Hh.
  rewrite length_app. cbn [length]. rewrite Nat.add_1_r, seq_S, omap_app, IH.
  - destruct (Hh (length es) e) as (s & Hs & Hse); [by rewrite lookup_app_r, Nat.sub_diag|]. f_equal. cbn. rewrite Hs. simpl. by rewrite Hse.
  - intros p e' He. apply Hh. by apply lookup_app_l_Some.
Qed.

Lemma split_rows_app {A} (xs : list (list A)) ns rest : split_rows ((length <$> xs) ++ ns) (concat xs ++ rest) = xs ++ split_rows ns rest.
Proof using.
  clear. induction xs as [|x xs IH]; [done|]. rewrite fmap_cons. cbn [app split_rows concat]. rewrite <-app_assoc, take_app_length, drop_app_length.
  by rewrite IH.
Qed.

Lemma paged_row_length c x new : length (paged_row c x new) = length new.
Proof using. unfold paged_row. apply run_cells_length. Qed.

Section Run.
Variable c : Pages E.
Variable context : Fields.
Variable rows : list (PassRow X E).
Variable k q extra : nat.
Variable pad_tables : list (list Z).
Hypothesis Hready : RowsReady c rows.
Hypothesis Hk : length pad_tables = k.
Hypothesis Htables : cx_block_tables context = Some ((pr_table <$> rows) ++ pad_tables).
Hypothesis Hlens : cx_context_lens context = Some ((row_len <$> rows) ++ replicate k 0%Z).
Hypothesis Hslots : cx_slot_mapping context = Some (row_slots c rows ++ replicate (k * q) (-1)%Z).
Hypothesis Hq : forall n, n = length (concat (pr_new <$> rows)) + (k * q + extra) -> query_lens context n = (new_len <$> rows) ++ replicate k q.

Lemma row_results : zip_with (paged_row c) (zip (pr_table <$> rows) (row_len <$> rows)) (pr_new <$> rows) = pass_cells cell <$> rows.
Proof using Hready.
  pose proof (rr_held _ _ Hready) as Hheld. clear -Hheld. induction Hheld as [|r l Hr _ IH]; [done|]. rewrite !fmap_cons. cbn [zip zip_with]. f_equal; [|exact IH].
  unfold paged_row, pass_cells. cbn [fst snd]. f_equal.
  transitivity (cached_entries c (pr_table r) (length (pr_old r))); [|by apply cached_held]. f_equal. unfold row_len, new_len, old_len. lia.
Qed.

Lemma row_sizes : length (concat (pass_cells cell <$> rows)) = length (concat (pr_new <$> rows)) /\
  length (row_slots c rows) = length (concat (pr_new <$> rows)).
Proof using.
  clear. split; [|apply row_slots_length]. induction rows as [|r l IH]; [done|]. rewrite !fmap_cons. cbn [concat]. rewrite !length_app, IH.
  unfold pass_cells. by rewrite run_cells_length.
Qed.

Lemma pad_sizes (padding : list (Z * X)) : k * q <= length padding ->
  length (concat (zip_with (paged_row c) (zip pad_tables (replicate k 0%Z)) (split_rows (replicate k q) padding))) = k * q.
Proof using Hk.
  clear -Hk. revert padding k Hk. induction pad_tables as [|t l IH]; intros padding k <- Hp; [done|]. cbn [length replicate split_rows zip zip_with concat] in *.
  rewrite length_app, paged_row_length, length_take, IH; [lia|done|rewrite length_drop; lia].
Qed.

Lemma paged_passes : Passes cell paged_run context rows (k * q + extra) c.
Proof using Hready Hk Htables Hlens Hslots Hq.
  intros padding positions Hpad Hpos. destruct row_sizes as [S1 S2]. set (n := length (concat (pr_new <$> rows))) in *.
  unfold paged_run, context_fields. wp_steps. cbn [dv_context fresh cx_fields]. rewrite Htables, Hlens, Hslots. cbn [or_raise]. wp_steps.
  cbn [dv_cache]. rewrite Hq by (rewrite length_app; lia).
  assert (Hnew : new_len <$> rows = length <$> (pr_new <$> rows)) by by rewrite <-list_fmap_compose.
  rewrite Hnew, split_rows_app, !zip_with_app, row_results by (rewrite ?length_zip_with, ?length_fmap; lia).
  set (pad_cells := zip_with (paged_row c) (zip pad_tables _) _).
  assert (Hpc : length (concat pad_cells) = k * q) by (apply pad_sizes; lia).
  rewrite concat_app, !fmap_app, fmap_replicate. cbn [Z.leb].
  assert (Hkeep : Forall (fun b => b = true) ((fun s => 0 <=? s)%Z <$> row_slots c rows)).
  { apply Forall_fmap. eapply Forall_impl; [apply (rr_range _ _ Hready)|]. intros s Hs. simpl in *. apply Z.leb_le. lia. }
  rewrite !masked_app by (rewrite ?length_fmap, ?length_replicate; lia).
  rewrite (masked_true (row_slots c rows)), (masked_true (concat (pass_cells cell <$> rows)).*1) by (done || (rewrite !length_fmap; lia)).
  rewrite (masked_false (replicate _ _)), (masked_false (concat pad_cells).*1), !app_nil_r.
  wp_call (put_pages_spec (fun _ => True) c (row_slots c rows) (concat (pass_cells cell <$> rows)).*1);
    [apply (rr_size _ _ Hready)|rewrite length_fmap; lia|by apply Forall_true|apply (pc_private _ _ _ _ _ (rr_placed _ _ Hready))|apply (rr_range _ _ Hready)|].
  intros c' d (-> & Hpg & Hst). wp_steps. exists ((concat pad_cells).*2 ++ replicate (n + (k * q + extra) - (n + k * q)) pad_output).
  rewrite <-!fmap_concat_rows in *. split_and!.
  - rewrite app_assoc. f_equal. f_equal. rewrite !length_app. fold n. lia.
  - rewrite length_app, length_fmap, length_replicate. lia.
  - exact Hst.
  - exact Hpg.
  - done.
Qed.

End Run.

Lemma nat_counts (rows : list (PassRow X E)) : Z.to_nat <$> (Z.of_nat ∘ new_len <$> rows) = new_len <$> rows.
Proof using. clear. rewrite <-list_fmap_compose. apply list_fmap_ext. intros _ r _. unfold compose. lia. Qed.

(** The three kinds of pass. *)
Lemma paged_batch latents : BatchPassOk cell latents paged_run.
Proof using.
  intros c context rows pads Hready [(k_lens & Hb & _) _ _ Hs Hg _]. destruct Hb.
  apply (paged_passes c context rows 0 0 pads [] Hready); rewrite ?app_nil_r; try done.
  intros n _. unfold query_lens. rewrite Hg, bc_dev_q. cbn [default from_option id]. by rewrite diffs_cumulative, nat_counts.
Qed.

Lemma diffs_arange n : (0 <= n)%Z -> diffs (arange (n + 1)) = replicate (Z.to_nat n) 1%Z.
Proof using.
  clear. intros Hn. unfold diffs, arange. apply list_eq. intros i. rewrite lookup_zip_with, lookup_tail.
  destruct (decide (Z.of_nat i < n)%Z) as [Hi|Hi].
  - rewrite !lookup_seqZ_lt by lia. rewrite lookup_replicate_2 by lia. simpl. f_equal. lia.
  - rewrite (lookup_seqZ_ge _ _ (S i)) by lia. simpl. symmetry. apply lookup_replicate_None. lia.
Qed.

Lemma paged_step : StepPassOk cell paged_run.
Proof using.
  intros c context rows Hready [_ H1 (Hq & _) _ Hl (Ht & _) Hs (_ & Hg & _)].
  apply (paged_passes c context rows 0 0 0 [] Hready); rewrite ?app_nil_r; try done.
  intros n _. unfold query_lens. rewrite Hg, Hq. cbn [default from_option id]. rewrite diffs_arange, fmap_replicate by apply Zlen_nonneg.
  unfold Zlen. rewrite Nat2Z.id. clear -H1. induction H1 as [|r l Hr _ IH]; [done|]. cbn [length replicate]. rewrite fmap_cons, Hr. by f_equal.
Qed.

Lemma paged_graph : GraphPassOk cell paged_run.
Proof using.
  intros c context rows q pad_tables Hready [Hlen Hx].
  pose proof (paged_passes c context rows (length pad_tables) q 0 pad_tables Hready) as Hp. rewrite Nat.add_0_r in Hp.
  rewrite Hx in Hp |- *. apply Hp; try done.
  intros n ->. unfold query_lens. cbn [cx_full_graph_size update_field]. rewrite Nat2Z.id.
  assert (Hn : length (concat (pr_new <$> rows)) = length rows * q).
  { clear -Hlen. induction Hlen as [|r l Hr _ IH]; [done|]. rewrite fmap_cons. cbn [concat length]. rewrite length_app, IH.
    unfold new_len in Hr. lia. }
  assert (Hne : length rows <> 0) by (pose proof (rr_some _ _ Hready) as Hne; by destruct rows).
  rewrite Hn, <-Nat.mul_add_distr_r, Nat.mul_comm, Nat.div_mul by lia. rewrite replicate_add. f_equal.
  clear -Hlen. induction Hlen as [|r l Hr _ IH]; [done|]. rewrite fmap_cons, Hr. cbn [length replicate]. by f_equal.
Qed.

End Paged.

(** A drafter of [layers] layers, each a cell of its own. *)
Section PagedDrafter.
Context {F H E : Type} `{!Ordered F}.
Variable layers : Z.
Variable cell : nat -> list E -> Z * H -> E * H.
Variable zero : H.
Variable head : H -> list F.

Definition paged_drafter : Drafter F H E :=
  {| num_mtp_layers := layers; zero_hidden := zero;
     mtp_layer := fun k ids positions hidden_states => paged_run (cell (Z.to_nat k)) zero (zip ids hidden_states) positions;
     drafter_head := head; before_full_graph_replay := fun _ _ => ret tt |}.

Lemma zip_parts {A B} (l : list (A * B)) : zip l.*1 l.*2 = l.
Proof using. clear. induction l as [|[a b] l IH]; [done|]. rewrite !fmap_cons. cbn [zip zip_with fst snd]. by rewrite IH. Qed.

Lemma paged_drafter_ok latents : (0 < layers)%Z -> DrafterOk (Drafter0 := paged_drafter) cell latents.
Proof using.
  intros Hn. assert (Hz : forall k context rows pads c, Passes (cell k) (paged_run (cell k) zero) context rows pads c ->
    Passes (cell k) (fun l ps => paged_run (cell k) zero (zip l.*1 l.*2) ps) context rows pads c).
  { intros k context rows pads c Hp padding ps H1 H2. rewrite zip_parts. by apply Hp. }
  split; [done| | | |by intros; apply wp_ret].
  - intros c context rows pads H1 H2. by apply Hz, (paged_batch (cell 0) zero latents).
  - intros k _ c context rows H1 H2. cbn [mtp_layer paged_drafter]. rewrite Nat2Z.id. by apply Hz, paged_step.
  - intros k _ c context rows q pad_tables H1 H2. cbn [mtp_layer paged_drafter]. rewrite Nat2Z.id. by apply Hz, paged_graph.
Qed.

End PagedDrafter.

(** A model of one layer. *)
Section PagedTarget.
Context {F H E : Type}.
Variable cell : list E -> Z * unit -> E * H.
Variable zero : H.
Variable head : H -> list F.

Definition paged_target : TargetModel F H E :=
  {| target_model := fun ids positions => paged_run cell zero (with_unit ids) positions;
     target_head := head; target_zero := zero; target_replay_hook := fun _ _ => ret tt |}.

Lemma unit_parts (l : list (Z * unit)) : with_unit l.*1 = l.
Proof using. clear. unfold with_unit. rewrite <-list_fmap_compose. rewrite <-(list_fmap_id l) at 2. apply list_fmap_ext. by intros _ [t []] _. Qed.

Lemma paged_target_ok latents : TargetOk (TargetModel0 := paged_target) cell latents.
Proof using.
  assert (Hu : forall context rows pads c, Passes cell (paged_run cell zero) context rows pads c ->
    Passes cell (fun l ps => paged_run cell zero (with_unit l.*1) ps) context rows pads c).
  { intros context rows pads c Hp padding ps H1 H2. rewrite unit_parts. by apply Hp. }
  split; [| |by intros; apply wp_ret].
  - intros c context rows pads H1 H2. by apply Hu, (paged_batch cell zero latents).
  - intros c context rows q pad_tables H1 H2. by apply Hu, paged_graph.
Qed.

End PagedTarget.

(** ** Sampling with rational numbers

    Any positive function does for the exponential. *)

#[export] Instance Qc_scalar : Scalar Qc := {| fzero := 0%Qc; fone := 1%Qc; fadd := Qcplus; fmul := Qcmult; fsub := Qcminus; fopp := Qcopp; scalar_ring := Qcrt |}.
#[export, program] Instance Qc_ordered : Ordered Qc := {| fle := Qcle |}.
Next Obligation. intros x. apply Qcle_refl. Qed.
Next Obligation. intros x y z. apply Qcle_trans. Qed.
Next Obligation. intros x y. destruct (Qclt_le_dec x y); [left; by apply Qclt_le_weak|by right]. Qed.

Definition growing (q : Qc) : Qc := if Qclt_le_dec q 0 then / (1 - q) else 1 + q.
#[export] Instance Qc_softmax : Softmax Qc := {| fexp := growing; finv := Qcinv |}.

Definition entry_le (l : list Qc) (i j : nat) : Prop := (default 0 (l !! i) <= default 0 (l !! j))%Qc.
#[export] Instance entry_le_dec l i j : Decision (entry_le l i j).
Proof. unfold entry_le. apply _. Defined.
#[export] Instance Qc_sampling : Sampling Qc := {| of_Qc := id; argsort := fun l => merge_sort (entry_le l) (seq 0 (length l)) |}.

Lemma less_lt (x y : Qc) : less x y <-> (x < y)%Qc.
Proof. unfold less. cbn [fle Qc_ordered]. split; [apply Qcnot_le_lt|apply Qclt_not_le]. Qed.

Lemma growing_pos q : (0 < growing q)%Qc.
Proof.
  unfold growing. destruct (Qclt_le_dec q 0) as [H|H].
  - apply Qcinv_pos. apply Qclt_minus_iff in H. replace (1 - q)%Qc with (1 + (0 + - q))%Qc by ring. apply Qcplus_pos_pos; [by vm_compute|done].
  - apply Qcplus_pos_nonneg; [by vm_compute|done].
Qed.

Lemma sorted_at_le {A} (R : relation A) l i j x y : StronglySorted R l -> l !! i = Some x -> l !! j = Some y -> i < j -> R x y.
Proof.
  intros Hs. revert i j. induction Hs as [|z l Hs IH Hz]; intros i j Hi Hj Hij; [done|]. destruct j as [|j]; [lia|]. destruct i as [|i].
  - injection Hi as ->. rewrite Forall_lookup in Hz. by apply (Hz j).
  - apply (IH i j); [done|done|lia].
Qed.

#[export] Instance Qc_sampling_ok : SamplingOk Qc.
Proof.
  split.
  - intros l. apply merge_sort_Permutation.
  - intros l i j a b x y Hi Hj Hij Hx Hy. destruct (decide (i = j)) as [->|Hne].
    + rewrite Hi in Hj. injection Hj as ->. rewrite Hx in Hy. injection Hy as ->. apply Qcle_refl.
    + assert (Hs : StronglySorted (entry_le l) (argsort l)).
      { apply StronglySorted_merge_sort; [intros u v w; apply Qcle_trans|]. intros u v. unfold entry_le.
        destruct (Qclt_le_dec (default 0%Qc (l !! u)) (default 0%Qc (l !! v))); [left; by apply Qclt_le_weak|by right]. }
      pose proof (sorted_at_le _ _ i j a b Hs Hi Hj ltac:(lia)) as Hr. unfold entry_le in Hr. by rewrite Hx, Hy in Hr.
  - intros x. apply less_lt, growing_pos.
  - intros x y z H. by apply Qcplus_le_mono_r.
  - intros x y Hx%less_lt Hy%less_lt. apply less_lt. by apply Qcmult_pos_pos.
  - intros x Hx%less_lt. apply less_lt. by apply Qcinv_pos.
  - intros x Hx%less_lt. apply Qcmult_inv_r. intros ->. by apply Qclt_not_eq in Hx.
  - intros q Hq. by apply less_lt.
Qed.
