(* ===== verification/LayerInstances.v ===== *)
(** * Concrete layers

    Integers for scalars and simple functions for PyTorch's, a small Qwen3
    checkpoint and a small expert layer, on which the witnesses of the layers
    are evaluated. *)

From S2P Require Import Prelude Arrays Tensors Ranks Linear EmbedHead Qwen3 Qwen3Load Attention Moe TorchAttention.
From S2P Require Import MoeRanks Deepseek DeepseekFacts.

Definition group (i n : nat) : Group := {| rank := i; world_size := n |}.

(** Integers, with simple functions for PyTorch's. *)
Module Sample.

#[global] Instance Z_scalar : Scalar Z := {|
  fzero := 0%Z; fone := 1%Z; fadd := Z.add; fmul := Z.mul; fsub := Z.sub; fopp := Z.opp; scalar_ring := Zth |}.

#[global, program] Instance Z_torch : Torch Z := {|
  linear x w b := (fun r => add_bias b (dot r <$> w)) <$> x;
  embedding ids w := (fun i => default [] (w !! Z.to_nat i)) <$> ids;
  silu x := (x * x)%Z; rsqrt x := (x + 1)%Z; mean := fsum; garbage i := 77%Z |}.
Next Obligation. done. Qed.
Next Obligation.
  intros ids w Hi. induction Hi as [|i ids [H0 H1] _ IH]; constructor; [|done].
  destruct (lookup_lt_is_Some_2 w (Z.to_nat i)) as [r Hr]; [unfold Zlen in H1; lia|]. by rewrite Hr.
Qed.

(** An attention that scales each head's queries by its number. *)
Definition demo_attend (l h : nat) (q : list (list (list Z))) (k v : list (list Z)) : list (list (list Z)) :=
  (fun heads : list (list Z) => (fun x : list Z => Z.mul (Z.of_nat (S h)) <$> x) <$> heads) <$> q.

#[global, program] Instance Z_attention : HeadAttention Z := {|
  attention l r nh nkv q k v := headwise (demo_attend l) (r * nkv) nkv (nh / nkv) q k v;
  attend_head := demo_attend |}.
Next Obligation.
  intros l r nkv g q k v _ _ _ _ _. destruct nkv as [|nkv].
  - unfold headwise. apply imap_ext. done.
  - by rewrite (Nat.mul_comm (S nkv) g), Nat.div_mul.
Qed.
Next Obligation.
  intros l h g d q k v Hg Hd _ _. unfold demo_attend. rewrite length_fmap. split; [done|]. split.
  - apply Forall_fmap. eapply Forall_impl; [exact Hg|]. intros heads Hh. simpl in *. by rewrite length_fmap.
  - apply Forall_fmap. eapply Forall_impl; [exact Hd|]. intros heads Hh. simpl in *.
    apply Forall_fmap. eapply Forall_impl; [exact Hh|]. intros x Hx. simpl in *. by rewrite length_fmap.
Qed.

Definition cfg : Qwen3Config (F := Z) :=
  {| vocab_size := 4; hidden_size := 2; num_hidden_layers := 1; num_attention_heads := 4; num_key_value_heads := 2;
     intermediate_size := 2; rms_norm_eps := 1%Z; attention_bias := Some false; cf_head_dim := Some 2;
     hidden_act := "silu"; tie_word_embeddings := true |}.

Definition sizes : Sizes := {| hk := 1; gq := 2; dim := 2; hid := 2; im := 1; vk := 2 |}.

Definition rows_from (a : Z) (n k : nat) : list (list Z) :=
  (fun i => (fun j => a + Z.of_nat (i * k + j))%Z <$> seq 0 k) <$> seq 0 n.

Definition weights : LayerWeights Z :=
  {| w_qkv := fun j => match j with 0 => rows_from 1 8 2 | 1 => rows_from 2 4 2 | _ => rows_from 3 4 2 end;
     b_qkv := fun _ => []; w_o := rows_from 1 2 8; w_q_norm := [1; 2]%Z; w_k_norm := [2; 1]%Z;
     w_gate_up := fun j => rows_from (Z.of_nat j) 2 2; w_down := rows_from 1 2 2;
     w_input_norm := [1; 1]%Z; w_post_norm := [1; 2]%Z |}.

Definition ckpt : Checkpoint Z :=
  {| w_embed := rows_from 0 4 2; w_layers := [weights]; w_norm := [1; 1]%Z; w_head := [] |}.

Definition rope : RotaryEmbedding Z := {| is_neox_style := true; cos_sin_cache := [[1; 0]; [0; 1]; [1; 1]]%Z |}.

Definition orders : Orders := {| qkv_order := [1; 0; 2]; bias_order := [0; 1; 2]; gate_up_order := [1; 0] |}.

Definition built (i n : nat) : option (Qwen3ForCausalLM (F := Z)) :=
  match (build (group i n) cfg rope (fun _ => orders) ckpt tt).1 with inr m => Some m | inl _ => None end.

Lemma demo_config_ok : ConfigOk 2 sizes cfg.
Proof. by split; simpl; try lia; split; try lia. Qed.

Lemma rows_from_wide a n k : wide k (rows_from a n k).
Proof. apply Forall_fmap, Forall_forall. intros i _. simpl. by rewrite length_fmap, length_seq. Qed.

Lemma ckpt_ok : CheckpointOk 2 sizes cfg ckpt.
Proof.
  split; simpl; try done.
  - split; [done|]. apply (rows_from_wide 0 4 2).
  - split; [done|]. constructor; [|constructor]. split; simpl; try done.
    + intros j k Hj. destruct j as [|[|[|j]]]; try done; injection Hj as <-; (split; [done|]); repeat constructor.
    + split; [done|]. repeat constructor.
    + intros j Hj. split; [done|]. apply (rows_from_wide (Z.of_nat j) 2 2).
    + split; [done|]. repeat constructor.
Qed.

Lemma orders_ok : OrdersOk orders.
Proof.
  unfold OrdersOk. simpl. split_and!; [|done|]; [|constructor].
  - apply (perm_swap 0 1 [2]).
Qed.

(** A sort that reverses ties, and grouped products with rows of 99 past the last group. *)
Definition later_first (p q : Z * nat) : Prop := (p.1 < q.1)%Z \/ (p.1 = q.1 /\ q.2 <= p.2).

#[global] Instance later_first_dec : RelDecision later_first.
Proof. intros p q. unfold later_first. apply _. Defined.

#[global] Instance later_first_total : Total later_first.
Proof. intros p q. unfold later_first. lia. Qed.

#[global] Instance later_first_trans : Transitive later_first.
Proof. intros p q r. unfold later_first. lia. Qed.

Definition demo_sort (l : list Z) : list (Z * nat) := merge_sort later_first (zip l (seq 0 (length l))).

Fixpoint group_of (j : Z) (e : nat) (offs : list Z) : option nat :=
  match offs with [] => None | o :: offs' => if (j <? o)%Z then Some e else group_of j (S e) offs' end.

Lemma group_of_spec j e offs k lo hi base : StronglySorted Z.le offs -> Forall (fun o => (base <= o)%Z) offs ->
  (base :: offs) !! k = Some lo -> offs !! k = Some hi -> (lo <= j < hi)%Z -> group_of j e offs = Some (e + k).
Proof.
  revert e k base lo. induction offs as [|o offs IH]; intros e k base lo Hs Hb Hlo Hhi Hj; [done|].
  apply StronglySorted_inv in Hs as [Hs Ho]. simpl. destruct k as [|k]; simpl in *.
  - injection Hhi as ->. destruct (Z.ltb_spec j hi); [f_equal; lia|lia].
  - assert (o <= lo)%Z.
    { destruct k as [|k]; simpl in Hlo; [injection Hlo as ->; lia|].
      exact (Forall_lookup_1 _ _ k lo Ho Hlo). }
    destruct (Z.ltb_spec j o); [lia|]. rewrite (IH (S e) k o lo) by done. f_equal. lia.
Qed.

Definition demo_grouped (x : list (list Z)) (ws : list (list (list Z))) (offs : list Z) : list (list Z) :=
  let m := match ws with w :: _ => length w | [] => 0 end in
  imap (fun j r => match group_of (Z.of_nat j) 0 offs with
                   | Some e => dot r <$> default [] (ws !! e)
                   | None => replicate m 99%Z
                   end) x.

Lemma group_of_bound j e offs k : group_of j e offs = Some k -> e <= k < e + length offs.
Proof.
  revert e. induction offs as [|o offs IH]; intros e Hg; [done|]. simpl in *.
  destruct (j <? o)%Z; [injection Hg as <-; lia|]. specialize (IH _ Hg). lia.
Qed.

Lemma later_first_values k : StronglySorted later_first k -> StronglySorted Z.le k.*1.
Proof.
  induction 1 as [|p k Hk IH Hf]; [constructor|]. rewrite fmap_cons. constructor; [done|].
  apply Forall_fmap. eapply Forall_impl; [exact Hf|]. intros q Hq. unfold later_first in Hq. simpl. lia.
Qed.

#[global, program] Instance Z_groups : TorchGroups Z := {|
  sort l := ((demo_sort l).*1, (demo_sort l).*2); grouped_mm := demo_grouped |}.
Next Obligation.
  intros l. cbn [fst snd]. unfold demo_sort. assert (Hp := merge_sort_Permutation later_first (zip l (seq 0 (length l)))).
  split_and!.
  - rewrite Hp. rewrite snd_zip by (rewrite length_seq; lia). done.
  - assert (Hs := StronglySorted_merge_sort later_first (zip l (seq 0 (length l)))).
    by apply later_first_values.
  - apply Forall2_fmap, Forall_Forall2_diag, Forall_forall. intros [v j] Hin. rewrite Hp in Hin.
    apply list_elem_of_lookup in Hin as [t Ht]. apply lookup_zip_Some in Ht as [Hv Hj]. cbn [fst snd] in *.
    apply lookup_seq in Hj as [-> _]. exact Hv.
Qed.
Next Obligation.
  intros x ws offs d m Hx Hne Hws Hl Hs Ho. unfold demo_grouped. rewrite length_imap. split_and!; [done| |].
  - apply Forall_lookup. intros j y Hy. rewrite list_lookup_imap in Hy. destruct (x !! j) as [r|]; [|done]. injection Hy as <-.
    destruct (group_of (Z.of_nat j) 0 offs) as [e|] eqn:Hg.
    + apply group_of_bound in Hg. destruct (lookup_lt_is_Some_2 ws e) as [w Hw]; [lia|]. rewrite Hw. simpl.
      rewrite length_fmap. by destruct (Forall_lookup_1 _ _ e w Hws Hw).
    + rewrite length_replicate. destruct ws as [|w ws]; [done|]. by destruct (Forall_inv Hws).
  - intros j r e w lo hi Hr Hw Hlo Hhi Hb. rewrite list_lookup_imap, Hr. simpl.
    rewrite (group_of_spec (Z.of_nat j) 0 offs e lo hi 0); [by rewrite Nat.add_0_l, Hw|done| |done|done|done].
    eapply Forall_impl; [exact Ho|]. intros o Hoo. simpl in *. lia.
Qed.

Definition expert_weights : ExpertWeights Z :=
  {| e_gate := fun e => rows_from (Z.of_nat e) 2 2; e_up := fun e => rows_from (Z.of_nat e + 1) 2 2;
     e_down := fun e => rows_from (2 - Z.of_nat e) 2 2 |}.

Definition shared_weights : SharedWeights Z :=
  {| sh_gate := rows_from 1 2 2; sh_up := rows_from 2 2 2; sh_down := rows_from 3 2 2 |}.

Definition moe_built (i n : nat) : option (FusedMoE Z) :=
  match (moe_build (group i n) 3 2 2 2 true (gate_up_loads 3) (seq 0 3) expert_weights tt).1 with
  | inr m => Some m
  | inl _ => None
  end.

Lemma moe_built_eq i n m : moe_built i n = Some m ->
  moe_build (group i n) 3 2 2 2 true (gate_up_loads 3) (seq 0 3) expert_weights tt = (inr m, tt).
Proof.
  unfold moe_built. destruct (moe_build _ _ _ _ _ _ _ _ _ _) as [[e|m'] []]; [done|]. cbn [fst]. by intros [= ->].
Qed.

(** A softmax of squares, without its division. *)
#[global] Instance Z_softmax : Softmax Z := {| fexp := fun x => (x * x + 1)%Z; finv := fun x => x |}.

#[global, program] Instance Z_sdpa : Sdpa Z := {|
  sdpa := fun q k v mask scale => zip_with (fun qi mi => attend_over scale qi (masked (zip k v) mi)) q mask |}.
Next Obligation. intros q k v mask scale d e i qi mi _ _ _ _ _ _ Hq Hm _. simpl. by rewrite lookup_zip_with, Hq, Hm. Qed.

(** Two query heads over one key head of one entry. *)
Definition attention_layer : TorchAttention Z := {| ta_num_heads := 2; ta_head_dim := 1; ta_scale := 1%Z; ta_num_kv_heads := 1 |}.

(** Indices by their values, the largest first. *)
#[global, program] Instance Z_ordered : Ordered Z := {| fle := Z.le |}.
Next Obligation. simpl. lia. Qed.
Next Obligation. simpl. lia. Qed.
Next Obligation. simpl. lia. Qed.

Definition at_index (l : list (option Z)) (i : nat) : option Z := default None (l !! i).
Definition largest_first (l : list (option Z)) (i j : nat) : Prop := choice_le (at_index l j) (at_index l i).

#[global] Instance largest_first_dec l i j : Decision (largest_first l i j).
Proof. unfold largest_first. apply _. Defined.

#[global] Instance largest_first_total l : Total (largest_first l).
Proof. intros i j. destruct (choice_le_total (at_index l i) (at_index l j)); [by right|by left]. Qed.

#[global] Instance largest_first_trans l : Transitive (largest_first l).
Proof. intros i j k Hij Hjk. by eapply choice_le_trans. Qed.

Definition indices_by_value (l : list (option Z)) : list nat := merge_sort (largest_first l) (seq 0 (length l)).

#[global, program] Instance Z_topk : TopK Z := {| topk k l := take k (indices_by_value l) |}.
Next Obligation.
  intros k l Hk. assert (Hp := merge_sort_Permutation (largest_first l) (seq 0 (length l))). fold (indices_by_value l) in Hp.
  assert (Hs := StronglySorted_merge_sort (largest_first l) (seq 0 (length l))). fold (indices_by_value l) in Hs.
  assert (Hnd : NoDup (indices_by_value l)) by (rewrite Hp; apply NoDup_seq).
  assert (Hsplit := take_drop k (indices_by_value l)). split_and!.
  - rewrite length_take, Hp, length_seq. lia.
  - rewrite <-Hsplit in Hnd. by apply NoDup_app in Hnd as (? & _ & _).
  - apply Forall_take. rewrite Hp. apply Forall_forall. intros i Hi%elem_of_seq. lia.
  - intros i j x y Hi Hj Hx Hy. assert (Hjd : j ∈ drop k (indices_by_value l)).
    { assert (Hin : j ∈ indices_by_value l) by (rewrite Hp; apply elem_of_seq; apply lookup_lt_Some in Hy; lia).
      rewrite <-Hsplit in Hin. apply elem_of_app in Hin as [|]; done. }
    rewrite <-Hsplit in Hs. pose proof (StronglySorted_app_1_elem_of _ _ _ i j Hs Hi Hjd) as Hij.
    unfold largest_first, at_index in Hij. by rewrite Hx, Hy in Hij.
Qed.

(** Two layers' shapes: four experts in two groups, two shared, one key-value projection for two heads. *)
Definition deepseek_cfg : DeepseekConfig Z :=
  {| dc_vocab_size := 4; dc_hidden_size := 2; dc_intermediate_size := 2; dc_num_hidden_layers := 1;
     dc_num_nextn_predict_layers := None; dc_num_attention_heads := 2; dc_q_lora_rank := None; dc_kv_lora_rank := 2;
     dc_qk_nope_head_dim := 1; dc_qk_rope_head_dim := 2; dc_v_head_dim := 1; dc_attention_bias := None; dc_rms_norm_eps := 0%Z;
     dc_hidden_act := "silu"%string; dc_topk_method := None; dc_scoring_func := None; dc_num_experts_per_tok := 2;
     dc_n_group := 2; dc_topk_group := 1; dc_norm_topk_prob := true; dc_routed_scaling_factor := 2%Z;
     dc_n_routed_experts := Some 4; dc_n_shared_experts := Some 1; dc_moe_intermediate_size := 2; dc_moe_layer_freq := None;
     dc_first_k_dense_replace := 0; dc_tie_word_embeddings := false |}.

Definition deepseek_experts : MoeWeights Z :=
  {| mw_gate := rows_from 1 4 2; mw_bias := [1; 0; 3; 2]%Z; mw_experts := expert_weights; mw_shared := shared_weights |}.

(** Its tensors, the last first. *)
Definition deepseek_tensors : list MoeTensor := reverse (moe_tensors deepseek_cfg 4).

End Sample.
