(* ===== verification/MemoryProperties.v ===== *)
(** * Properties of the KV cache's blocks

    The block manager under every run of the scheduler: reference counts,
    sharing by prefix, private slots, and the blocks an idle scheduler has
    back. *)

From S2P Require Import Prelude Output Sequence BlockManager BlockManagerFacts Policy KVBase Scheduler Lifecycle.
From S2P Require Import SchedulerInv SchedulerSteps ScheduleFacts AdmitFacts LaunchFacts ReconcileFacts.
From S2P Require Import SchedulerReach NixlConnector Engine EngineFacts Instances.

Section Properties.
Context `{SeqSettings} `{!SettingsOk} `{SetOrder}.
Context {Q C : Type} `{SchedulingPolicyLaws Q} `{KVConnectorLaws C}.
Variable clock : nat -> Qc.
Local Abbreviation Sch := (Scheduler Q C).

(** C1. In every state the scheduler reaches from its start, by admissions,
    aborts, launched and reconciled steps in any order the engine drives them,
    each block's reference count is the number of block-table entries that name
    it, a block is in the free queue exactly when no table names it, once, and
    the free and the used blocks make up the cache. *)
Theorem reachable_blocks_accounted (c : SchedulerConfig) (q : Q) (conn : option C) p :
  CfgOk c -> cfg_enable_prefix_caching c = enable_prefix_caching -> pol_iter q = [] ->
  rtc (sched_step clock) (new_Scheduler c q conn, []) p ->
  let m := block_manager p.1 in
  (forall j b, blocks m !! j = Some b -> ref_count b = Z.of_nat (total_refs (heap p.1) j)) /\
  (forall j, j ∈ free_block_queue m <-> j < length (blocks m) /\ total_refs (heap p.1) j = 0) /\
  NoDup (free_block_queue m) /\
  length (free_block_queue m) + size (used_block_ids m) = length (blocks m) /\
  (forall i s j, heap p.1 !! i = Some s -> j ∈ block_table s -> j ∈ used_block_ids m /\ j < length (blocks m)).
Proof.
  intros Hc Hcache Hq Hr. pose proof (new_Scheduler_inv c q conn Hc Hcache Hq) as Hstart.
  pose proof (reachable_inv clock (new_Scheduler c q conn, []) p Hstart Hr) as Hp.
  pose proof (mem_inv _ _ (inv_mem _ _ _ Hp)) as Hm. simpl. split_and!.
  - intros j b Hb. by apply (inv_block _ _ Hm).
  - apply (inv_free _ _ Hm).
  - apply (inv_free_nodup _ _ Hm).
  - by apply (blocks_conserved _ _ Hm).
  - intros i s j Hi Hj.
    assert (0 < total_refs (heap p.1) j) as Hpos.
    { rewrite (total_refs_split _ i s) by done. unfold refs_with. apply occ_pos in Hj. lia. }
    split; [by apply (inv_used _ _ Hm) | by apply (inv_dom _ _ Hm)].
Qed.

(** C2. Two sequences whose tables name the same block hold it at the same
    place, and their prompts and outputs agree on every token up to the end of
    that block, with a hash that has no collisions: KV is only shared between
    equal prefixes. *)
Theorem shared_block_same_prefix x run rows i k s t a b j :
  CollisionFree -> Inv (Q := Q) (C := C) x run rows ->
  heap x !! i = Some s -> heap x !! k = Some t -> i <> k ->
  block_table s !! a = Some j -> block_table t !! b = Some j ->
  a = b /\ take (S a * Z.to_nat block_size) (token_ids s) = take (S a * Z.to_nat block_size) (token_ids t) /\
  S a * Z.to_nat block_size <= length (token_ids s).
Proof. intros. edestruct (shared_prefix x run rows i k s t a b j) as (? & ? & ? & _); eauto. Qed.

(** C3. The slots a scheduled sequence computes in a step belong to blocks
    that no other table entry names and no prefix-cache entry can hand out: a
    step writes KV nobody else reads. *)
Theorem scheduled_slots_are_private x rows :
  Inv (Q := Q) (C := C) x (running x) rows ->
  wp (schedule clock) x (fun o x' => forall i s pos, i ∈ scheduled o -> heap x' !! i = Some s ->
    (num_cached_tokens s <= pos < num_cached_tokens s + num_scheduled_tokens s)%Z ->
    exists j b, block_table s !! Z.to_nat (pos / block_size) = Some j /\
      blocks (block_manager x') !! j = Some b /\ b_hash b = (-1)%Z /\
      total_refs (heap x') j = 1 /\
      (forall h, hash_to_block_id (block_manager x') !! h <> Some j)).
Proof.
  intros Hx. wp_call (schedule_spec clock); [exact Hx|]. intros o x' [Hx' Ho] i s pos Hi Hs Hpos.
  assert (exists P, OutputOk P x' o) as [P Hout] by (destruct Ho as [|(_ & _ & ?)]; eauto).
  pose proof (so_sched _ _ _ Hout) as Hall. rewrite Forall_forall in Hall.
  destruct (Hall i Hi) as (s' & Hs' & Hok & _). rewrite Hs in Hs'. injection Hs' as <-.
  by eapply scheduled_slot_private.
Qed.

(** C4. A scheduler that reports itself finished has every block of the cache
    back in its free queue, once, and no request left. *)
Theorem idle_scheduler_has_every_block x rows :
  Inv (Q := Q) (C := C) x (running x) rows -> sch_is_finished x = true ->
  free_block_queue (block_manager x) ≡ₚ seq 0 (length (blocks (block_manager x))) /\
  used_block_ids (block_manager x) = ∅ /\ seqs x = ∅.
Proof. apply idle_all_free. Qed.

End Properties.

(** ** Witnesses, on the run of [Instances] *)

Import Demo.

Lemma reachable_blocks_accounted_witness :
  length (free_block_queue (block_manager scheduler0)) = 6 /\
  length (free_block_queue (block_manager scheduler0)) + size (used_block_ids (block_manager scheduler0)) = 6.
Proof.
  split; [reflexivity|].
  apply (reachable_blocks_accounted clock cfg Fcfs.init None (scheduler0, [])).
  - apply cfg_ok.
  - reflexivity.
  - reflexivity.
  - apply rtc_refl.
Defined.

Lemma shared_block_same_prefix_witness :
  block_table <$> heap scheduler6 !! 1 = Some [2; 3] /\
  block_table <$> heap scheduler6 !! 2 = Some [2; 4] /\
  forall s t, heap scheduler6 !! 1 = Some s -> heap scheduler6 !! 2 = Some t ->
  take 16 (token_ids s) = take 16 (token_ids t).
Proof.
  assert (block_table <$> heap scheduler6 !! 1 = Some [2; 3]) as Hs by (vm_compute; reflexivity).
  assert (block_table <$> heap scheduler6 !! 2 = Some [2; 4]) as Ht by (vm_compute; reflexivity).
  split; [exact Hs|]. split; [exact Ht|]. intros s t Es Et. rewrite Es in Hs. rewrite Et in Ht.
  simpl in Hs, Ht. injection Hs as Hs. injection Ht as Ht.
  refine (proj1 (proj2 (shared_block_same_prefix scheduler6 (running scheduler6) rows6 1 2 s t 0 0 2
    _ _ Es Et _ _ _))).
  - exact collision_free.
  - exact scheduler6_inv.
  - done.
  - by rewrite Hs.
  - by rewrite Ht.
Defined.

Lemma scheduled_slots_are_private_witness :
  wp (schedule clock) scheduler2 (fun o x' => scheduled o = [0; 1] /\
    forall i s pos, i ∈ scheduled o -> heap x' !! i = Some s ->
    (num_cached_tokens s <= pos < num_cached_tokens s + num_scheduled_tokens s)%Z ->
    exists j b, block_table s !! Z.to_nat (pos / 16) = Some j /\
      blocks (block_manager x') !! j = Some b /\ b_hash b = (-1)%Z /\
      total_refs (heap x') j = 1 /\
      (forall h, hash_to_block_id (block_manager x') !! h <> Some j)).
Proof.
  pose proof (scheduled_slots_are_private clock scheduler2 [] scheduler2_inv) as Hs.
  assert (match (schedule clock scheduler2).1 with inr o => scheduled o = [0; 1] | inl _ => False end) as Hn
    by (vm_compute; reflexivity).
  unfold wp in *. destruct (schedule clock scheduler2) as [[e|o] x']; [destruct Hs | split; [exact Hn | exact Hs]].
Defined.

Lemma idle_scheduler_has_every_block_witness :
  sch_is_finished scheduler0 = true /\
  free_block_queue (block_manager scheduler0) ≡ₚ [0; 1; 2; 3; 4; 5].
Proof.
  split; [reflexivity|].
  apply (idle_scheduler_has_every_block scheduler0 []); [|reflexivity].
  exact (ei_sched _ _ engine0_inv).
Defined.
