(* ===== verification/SchedulerProperties.v ===== *)
(** * Properties of the scheduler

    What each operation of [engine/scheduler.py] does to any state the
    scheduler can be in: the limits of a step, the tokens it never touches, the
    rows it launches, what reconciling them commits, aborts, admissions, and
    the connector's reports. *)

From S2P Require Import Prelude Output Sequence BlockManager BlockManagerFacts Policy KVBase Scheduler Lifecycle.
From S2P Require Import SchedulerInv SchedulerSteps ScheduleFacts AdmitFacts LaunchFacts ReconcileFacts.
From S2P Require Import SchedulerReach NixlConnector Frames Engine EngineFacts Instances.

Section Properties.
Context `{SeqSettings} `{!SettingsOk} `{SetOrder}.
Context {Q C : Type} `{SchedulingPolicyLaws Q} `{KVConnectorLaws C} `{!KVConnectorFrame C}.
Variable clock : nat -> Qc.
Local Abbreviation Sch := (Scheduler Q C).

(** C5. A call of [schedule] ends without an exception and within the
    configured limits: at most [max_num_seqs] distinct running sequences, whose
    planned tokens add up to the counted ones and fit [max_num_batched_tokens];
    with chunked prefill each gets a token at least, and what was preempted
    waits again and what was dropped is finished. *)
Theorem schedule_within_limits x rows :
  Inv (Q := Q) (C := C) x (running x) rows ->
  wp (schedule clock) x (fun o x' => Inv x' (running x') rows /\
    NoDup (scheduled o) /\ (forall i, i ∈ scheduled o -> i ∈ running x') /\
    (Zlen (scheduled o) <= max_num_seqs (config x'))%Z /\
    step_tokens x' (scheduled o) = (num_prefill_tokens o + num_decode_tokens o)%Z /\
    (num_prefill_tokens o + num_decode_tokens o <= max_num_batched_tokens (config x'))%Z /\
    Forall (fun i => exists s, heap x' !! i = Some s /\ ScheduledOk s /\
      (enable_chunked_prefill (config x) = true -> 1 <= num_scheduled_tokens s)%Z) (scheduled o) /\
    Forall (status_at x' WAITING) (preempted o) /\ Forall (status_at x' FINISHED) (dropped o)).
Proof.
  intros Hx. wp_call (schedule_spec clock); [exact Hx|]. intros o x' [Hx' Ho].
  destruct Ho as [Ho | (Hc & _ & Ho)]; destruct Ho; split_and!; try done;
    (eapply Forall_impl; [eassumption|]; intros i (s & Hs & Hok & HP); exists s; split_and!; try done).
  congruence.
Qed.

(** Scheduling, preempting and dropping never touch a request's tokens:
    after [schedule] every sequence has the tokens, the counts and the limits
    it had, and no sequence appears. *)
Theorem schedule_keeps_tokens x :
  forall i s, heap x !! i = Some s -> exists s', heap (schedule (Q := Q) (C := C) clock x).2 !! i = Some s' /\
    token_ids s' = token_ids s /\ num_tokens s' = num_tokens s /\
    num_prompt_tokens s' = num_prompt_tokens s /\ num_new_tokens s' = num_new_tokens s /\
    request_id s' = request_id s /\ max_tokens s' = max_tokens s.
Proof. exact (ht_seqs _ _ (keeps_schedule clock x)). Qed.

(** C7. [advance] moves each scheduled sequence on by its scheduled tokens and
    launches one row for each sequence that samples, in order, reserving a
    place for the sampled token and each draft; it touches no other sequence. *)
Theorem advance_launches_rows x run rows l :
  Inv (Q := Q) (C := C) x run rows -> NoDup l ->
  Forall (fun i => exists s, heap x !! i = Some s /\ ScheduledOk s) l ->
  wp (advance l) x (fun rows' x' => rows' = rows_for x l /\ Inv x' run (rows ++ rows') /\
    (forall i, i ∉ l -> heap x' !! i = heap x !! i) /\
    (forall i s, i ∈ l -> heap x !! i = Some s -> exists s', heap x' !! i = Some s' /\ Advanced s s')).
Proof.
  intros Hx Hd Hl. wp_call advance_spec; [exact Hx | done | done |].
  by intros rows' x' (? & ? & _ & ? & ?).
Qed.

(** C6. [reconcile] commits the sampled tokens of exactly the rows whose
    sequence neither finished nor was preempted since their launch: each of
    these appends its row's tokens up to the first one that ends it and
    finishes with that reason; every other sequence is untouched, and the rows
    launched later stay owed. *)
Theorem reconcile_commits_valid_rows rows toks drafts later x :
  Inv (Q := Q) (C := C) x (running x) (rows ++ later) -> TokensOk rows toks ->
  NoDup (row_seq <$> rows) -> length rows <= length toks ->
  (forall d, drafts = Some d -> length rows <= length d) ->
  wp (reconcile clock rows toks drafts) x (fun done_ x' =>
    done_ = row_seq <$> filter (fun row => row_valid_in x row) rows /\ RowsDone x x' rows toks) /\
  wp (reconcile clock rows toks drafts) x (fun _ x' => Inv x' (running x') later).
Proof.
  intros Hx Ht Hnd Hl Hd. split.
  - by eapply (reconcile_rows_exact clock rows toks drafts 0 later).
  - wp_call (reconcile_spec clock rows toks drafts later); try done. by intros ? ? (? & _).
Qed.

(** [abort] answers whether the request was in flight; after it no request
    has that id, and aborting an id that is not in flight changes nothing. *)
Theorem abort_forgets_request x rows r reason :
  Inv (Q := Q) (C := C) x (running x) rows ->
  wp (abort clock r reason) x (fun b x' => Inv x' (running x') rows /\
    b = bool_decide (is_Some (seqs x !! r)) /\ seqs x' = delete r (seqs x) /\
    (b = false -> x' = x)).
Proof. apply abort_spec. Qed.

(** [add] refuses an id that is in flight and changes nothing then;
    otherwise the new sequence waits under its id and every other sequence is
    as it was. *)
Theorem add_registers_or_refuses x run rows s :
  Inv (Q := Q) (C := C) x run rows -> heap x !! seq_id s = None -> SeqWf s -> status s = WAITING ->
  num_preemptions s = 0%Z -> SeqOk (connector x) s ->
  if in_flight x (request_id s)
  then add s x = (inl (DuplicateRequestId (request_id s +:+ " is already in flight")), x)
  else wp (add s) x (fun _ x' => Inv x' run rows /\
    heap x' = <[seq_id s := s]> (heap x) /\ seqs x' = <[request_id s := seq_id s]> (seqs x)).
Proof.
  intros Hx Hn Hw Hs Hp Ho. destruct (in_flight x (request_id s)) eqn:Hf; [by apply add_refused|].
  wp_call add_spec; try done. by intros _ x' (? & _ & ? & ?).
Qed.

(** The connector's reports, when each names a load in progress: nothing
    running stops running and no running or waiting sequence changes, so a
    report can only free blocks and resume the requests whose load ended. *)
Theorem update_resumes_loads x rows o :
  Inv (Q := Q) (C := C) x (running x) rows ->
  (forall r, r ∈ finished_recving o ∪ failed_recving o -> is_Some (recving x !! r)) ->
  wp (update_from_kv_connector_output o) x (fun _ x' => Inv x' (running x') rows /\
    (exists l, running x' = running x ++ l) /\ KeepsActive x x').
Proof. apply update_spec. Qed.

(** C8. What the block manager answers for a sequence that waits, with no block and no token pending: the sequence's longest
    published prefix is the longest list of cached blocks that hold, under the sequence's own hashes, its first blocks
    token by token, and that stops short of its last block. [can_allocate] answers with that prefix's length, less the
    last hit where hits are recomputed for the drafter, and nothing with prefix caching off; or it refuses, when
    fewer blocks are free than the sequence needs beside the kept hits that others hold. Asking changes nothing, and
    after an answer that is not a refusal [allocate] succeeds: the table starts with the kept hits, has a block for every
    token and lookahead slot, and the manager's invariant holds. *)
Theorem can_allocate_longest_prefix m refs s la :
  BMInv m refs -> BMConfig m -> SeqWf s -> num_pending_tokens s = 0%Z -> block_table s = [] -> (0 <= la)%Z ->
  exists kept, (if enable_prefix_caching then exists ids, LongestPrefix m s ids /\ kept = kept_hits m ids else kept = []) /\
    let needed := (num_blocks_for m s la - Z.of_nat (held_count m kept))%Z in
    let answer := if (Zlen (free_block_queue m) <? needed)%Z then (-1)%Z else Zlen kept in
    can_allocate la (m, s) = (inr answer, (m, s)) /\
    (answer <> (-1)%Z -> wp (allocate answer la) (m, s) (fun _ p => Allocated refs m s kept la p.1 p.2)).
Proof.
  intros Hi Hcfg Hwf Hp Htab Hla. exists (cached_prefix m s). split.
  - destruct enable_prefix_caching eqn:He; [apply cached_prefix_longest; [done|done|lia|done]|by apply cached_prefix_off].
  - split; [by apply (can_allocate_eq m refs)|]. intros Ha. apply allocate_spec; [done..|lia|done|done|exact Ha].
Qed.

End Properties.

(** ** Witnesses, on the runs of [Instances] *)

Import Demo.

Lemma schedule_within_limits_witness :
  wp (schedule clock) scheduler2 (fun o x' => scheduled o = [0; 1] /\
    (num_prefill_tokens o + num_decode_tokens o <= 24)%Z).
Proof.
  pose proof (schedule_within_limits clock scheduler2 [] scheduler2_inv) as Hs.
  assert (match schedule clock scheduler2 with
    | (inr o, x') => scheduled o = [0; 1] /\ max_num_batched_tokens (config x') = 24%Z
    | _ => False end) as Hn by (vm_compute; split; reflexivity).
  unfold wp in *. destruct (schedule clock scheduler2) as [[e|o] x']; [destruct Hs|].
  destruct Hn as [Hn1 Hn2]. destruct Hs as (_ & _ & _ & _ & _ & Hb & _). rewrite Hn2 in Hb. split; [exact Hn1 | exact Hb].
Defined.

Lemma schedule_keeps_tokens_witness :
  token_ids <$> heap scheduler2 !! 0 = Some prompt0 /\
  token_ids <$> heap (schedule clock scheduler2).2 !! 0 = Some prompt0.
Proof.
  assert (token_ids <$> heap scheduler2 !! 0 = Some prompt0) as Hs by (vm_compute; reflexivity).
  split; [exact Hs|]. destruct (heap scheduler2 !! 0) as [s|] eqn:Hl; [|discriminate].
  destruct (schedule_keeps_tokens clock scheduler2 0 s Hl) as (s' & -> & Ht & _).
  injection Hs as Hs. cbn. by rewrite Ht, Hs.
Defined.

Lemma advance_launches_rows_witness :
  match schedule clock scheduler2 with
  | (inr o, x') => wp (advance (scheduled o)) x' (fun rows' _ => row_seq <$> rows' = [0])
  | _ => False
  end.
Proof.
  pose proof (schedule_spec clock scheduler2 [] scheduler2_inv) as Hs.
  assert (match schedule clock scheduler2 with
    | (inr o, x') => row_seq <$> rows_for x' (scheduled o) = [0] | _ => False end) as Hn
    by (vm_compute; reflexivity).
  unfold wp in Hs. destruct (schedule clock scheduler2) as [[e|o] x']; [destruct Hs|]. destruct Hs as [Hx' Ho].
  assert (exists P, OutputOk P x' o) as [P Hout] by (destruct Ho as [|(_ & _ & ?)]; eauto).
  pose proof (advance_launches_rows x' (running x') [] (scheduled o) Hx' (so_nodup _ _ _ Hout)) as Ha.
  eapply wp_mono; [apply Ha|].
  - eapply Forall_impl; [apply (so_sched _ _ _ Hout)|]. intros i (s & ? & ? & _). eauto.
  - intros rows' x2 [-> _]. exact Hn.
Defined.

Lemma reconcile_commits_valid_rows_witness :
  row_seq <$> flight_rows (e_in_flight engine3) = [0] /\
  wp (reconcile clock (flight_rows (e_in_flight engine3)) [inl 7%Z] None) (e_scheduler engine3)
    (fun done_ x' => done_ = [0] /\ RowsDone (e_scheduler engine3) x' (flight_rows (e_in_flight engine3)) [inl 7%Z]).
Proof.
  assert (row_seq <$> flight_rows (e_in_flight engine3) = [0]) as Hr by (vm_compute; reflexivity).
  split; [exact Hr|].
  assert (row_valid_in (e_scheduler engine3) <$> flight_rows (e_in_flight engine3) = [true]) as Hv
    by (vm_compute; reflexivity).
  assert (row_num_draft_tokens <$> flight_rows (e_in_flight engine3) = [0%Z]) as Hd by (vm_compute; reflexivity).
  pose proof (ei_sched _ _ engine3_inv) as Hx. revert Hr Hv Hd Hx.
  generalize (flight_rows (e_in_flight engine3)) (e_scheduler engine3). intros rows x Hr Hv Hd Hx.
  destruct rows as [|row [|]]; try discriminate. cbn in Hr, Hd. change ([row_valid_in x row] = [true]) in Hv.
  eapply wp_mono.
  - refine (proj1 (reconcile_commits_valid_rows clock [row] [inl 7%Z] None [] x _ _ _ _ _)).
    + exact Hx.
    + intros [|k] row' t [= <-] [= <-]. injection Hd as Hd. unfold RowTokens, Zlen. simpl. lia.
    + apply NoDup_singleton.
    + simpl. lia.
    + intros d [=].
  - cbv beta. intros d x' [-> Hdone]. split; [|exact Hdone]. injection Hv as Hv.
    rewrite filter_cons, decide_True; [exact Hr | by apply Is_true_eq_left].
Defined.

Lemma abort_forgets_request_witness :
  wp (abort clock "req-0" "abort") scheduler2 (fun b x' => b = true /\ seqs x' !! "req-0" = None).
Proof.
  eapply wp_mono; [apply (abort_forgets_request clock scheduler2 [] "req-0" "abort" scheduler2_inv)|].
  intros b x' (_ & -> & -> & _). split; [vm_compute; reflexivity | apply lookup_delete_eq].
Defined.

(** A fresh request joins, and one with an id in flight does not. *)
Lemma add_registers_or_refuses_witness :
  match new_Sequence 7 0%Qc [5%Z] (Some params) (Some "new"), new_Sequence 8 0%Qc [5%Z] (Some params) (Some "req-0") with
  | inr s, inr t => wp (add s) scheduler2 (fun _ x' => seqs x' !! "new" = Some 7) /\
      add t scheduler2 = (inl (DuplicateRequestId ("req-0 is already in flight")), scheduler2)
  | _, _ => False
  end.
Proof.
  assert (forall n r, n = 7 \/ n = 8 -> match new_Sequence n 0%Qc [5%Z] (Some params) (Some r) with
    | inr s => if in_flight scheduler2 (request_id s)
        then add s scheduler2 = (inl (DuplicateRequestId (request_id s +:+ " is already in flight")), scheduler2)
        else wp (add s) scheduler2 (fun _ x' => Inv x' (running scheduler2) [] /\
          heap x' = <[seq_id s := s]> (heap scheduler2) /\ seqs x' = <[request_id s := seq_id s]> (seqs scheduler2))
    | _ => False end) as Ha.
  { intros n r Hn.
    assert (RequestOk model_validate [5%Z] params 100 64 None) as Hr.
    { apply validate_request_iff. vm_compute. reflexivity. }
    destruct (new_Sequence_spec n 0%Qc [5%Z] (Some params) (Some r)) as (s & Hs & _); [done|].
    destruct (new_request_fresh model_validate checked no_kv_ok (connector scheduler2) n 0%Qc [5%Z] params (Some r) s 100 64 None Hr params_ok Hs)
      as (? & ? & ? & ? & _ & _ & ?).
    rewrite Hs. apply (add_registers_or_refuses scheduler2 (running scheduler2) [] s); try done.
    - exact scheduler2_inv.
    - replace (seq_id s) with n. destruct Hn as [-> | ->]; vm_compute; reflexivity. }
  pose proof (Ha 7 "new" (or_introl eq_refl)) as H7. pose proof (Ha 8 "req-0" (or_intror eq_refl)) as H8.
  cbn in H7, H8 |- *. split; [|exact H8].
  eapply wp_mono; [exact H7|]. intros _ x' (_ & _ & ->). cbn. apply lookup_insert_eq.
Defined.

(** The load of [kv_scheduler2] ends, and its request runs. *)
Lemma update_resumes_loads_witness :
  let report := empty_KVConnectorOutput <| finished_recving := {["req-0"]} |> in
  running kv_scheduler2 = [] /\
  wp (update_from_kv_connector_output report) kv_scheduler2 (fun _ x' => running x' = [0] /\
    Inv x' (running x') []).
Proof.
  assert (running (update_from_kv_connector_output
    (empty_KVConnectorOutput <| finished_recving := {["req-0"]} |>) kv_scheduler2).2 = [0]) as Hn by (vm_compute; reflexivity).
  split; [vm_compute; reflexivity|].
  assert (forall r, r ∈ {["req-0"]} ∪ (∅ : gset string) -> is_Some (recving kv_scheduler2 !! r)) as Hr.
  { clear Hn. intros r [Hr|[]%not_elem_of_empty]%elem_of_union. apply elem_of_singleton in Hr as ->. exists 0. vm_compute. reflexivity. }
  pose proof (update_resumes_loads kv_scheduler2 []
    (empty_KVConnectorOutput <| finished_recving := {["req-0"]} |>) kv_scheduler2_inv Hr) as Hu.
  revert Hn Hu. unfold wp. generalize (update_from_kv_connector_output
    (empty_KVConnectorOutput <| finished_recving := {["req-0"]} |>) kv_scheduler2).
  intros [[e|u] x'] Hn Hu; [destruct Hu|]. split; [exact Hn | apply Hu].
Defined.

(** The third request of the run: its first block is published, and held. *)
Definition manager5 : BlockManager := block_manager (e_scheduler engine5).

Lemma request5 : exists s, heap (e_scheduler engine5) !! 2 = Some s /\ num_pending_tokens s = 0%Z /\ block_table s = [] /\
  (can_allocate 0 (manager5, s)).1 = inr 1%Z.
Proof. eexists. split; [vm_compute; reflexivity|]. repeat split. Qed.

Lemma returned {E A B} (x y : A) (s : B) : (@inr E A x, s).1 = inr y -> x = y.
Proof. by intros [= ->]. Qed.

Lemma accepted (b : bool) n : (if b then (-1)%Z else n) = 1%Z -> n = 1%Z.
Proof. by destruct b. Qed.

Lemma manager5_keeps : recompute_last_hit manager5 = false.
Proof. vm_compute. reflexivity. Qed.

Lemma can_allocate_longest_prefix_witness : exists s ids, heap (e_scheduler engine5) !! 2 = Some s /\
  LongestPrefix manager5 s ids /\ Zlen ids = 1%Z /\
  wp (allocate 1 0) (manager5, s) (fun _ p => Allocated (total_refs (heap (e_scheduler engine5))) manager5 s ids 0 p.1 p.2).
Proof.
  destruct request5 as (s & Hs & Hp & Ht & Hans). pose proof (inv_mem _ _ _ (ei_sched _ _ engine5_inv)) as Hm.
  destruct (can_allocate_longest_prefix manager5 (total_refs (heap (e_scheduler engine5))) s 0 (mem_inv _ _ Hm) (mem_cfg _ _ Hm)
    (proj1 (proj2 (mem_seq _ _ Hm 2 s Hs))) Hp Ht ltac:(lia)) as (kept & (ids & Hl & Hk) & Heq & Hall).
  assert (Hkept : kept = ids) by (rewrite Hk; unfold kept_hits; by rewrite manager5_keeps). clear Hk. subst kept. exists s, ids. split; [exact Hs|]. split; [exact Hl|].
  rewrite Heq in Hans. apply returned in Hans. rewrite Hans in Hall. split; [by apply accepted in Hans|]. by apply Hall.
Defined.
