(* ===== verification/RequestProperties.v ===== *)
(** * Properties of requests, queues and outputs

    The life of a request outside the scheduler: its tokens and block hashes,
    its pickled form, the waiting queue's policies, its detokenized output and
    the stop strings that end it. *)

From S2P Require Import Prelude Output Sequence BlockManager BlockManagerFacts Policy KVBase Scheduler Lifecycle.
From S2P Require Import SchedulerInv SchedulerSteps ScheduleFacts ReconcileFacts SchedulerReach NixlConnector.
From S2P Require Import StopChecker OutputProcessor Instances.

Section Sequences.
Context `{SeqSettings} `{!SettingsOk}.

(** C9. Committing a row's sampled tokens appends a prefix of them: all, or
    up to the first one that ends the sequence, whose reason is the result.
    The sequence stays well formed, its cached block hashes included, and each
    committed token uses one reserved place. *)
Theorem commit_tokens_prefix {Q C} i toks (x : Scheduler Q C) s :
  heap x !! i = Some s -> SeqWf s -> (Zlen toks <= num_pending_tokens s)%Z ->
  wp (commit_tokens i toks) x (fun r x' => exists s' k,
    x' = x <| heap ::= <[i := s']> |> /\ SeqWf s' /\
    token_ids s' = token_ids s ++ take k toks /\
    num_pending_tokens s' = (num_pending_tokens s - Z.of_nat k)%Z /\
    (r = None -> k = length toks) /\ (toks <> [] -> 0 < k <= length toks) /\
    (forall t, toks !! pred k = Some t -> stop_reason (eos (config x)) s' t = r)).
Proof.
  intros Hi Hw Hp. wp_call (commit_tokens_run i toks x s Hi Hw Hp).
  intros r x' [-> ->]. destruct (commit_upto_ok (eos (config x)) s toks Hw Hp) as [k [? ? ? ? ? ? ? ? ? ?]].
  exists (commit_upto (eos (config x)) s toks).1, k. split_and!; auto.
Qed.

(** C10. A sequence pickled for a worker and unpickled there has every field
    the worker reads, with its tokens while it prefills and only the last one
    after. *)
Theorem worker_pickle_roundtrip s :
  SeqWf s ->
  exists w, setstate (getstate s) = inr w /\
    ws_seq_id w = seq_id s /\ ws_temperature w = temperature s /\
    ws_top_k w = top_k s /\ ws_top_p w = top_p s /\
    ws_num_tokens w = num_tokens s /\ ws_num_prompt_tokens w = num_prompt_tokens s /\
    ws_num_cached_tokens w = num_cached_tokens s /\
    ws_num_scheduled_tokens w = num_scheduled_tokens s /\
    ws_num_pending_tokens w = num_pending_tokens s /\ ws_is_prefill w = is_prefill s /\
    ws_block_table w = block_table s /\ ws_spec_token_ids w = spec_token_ids s /\
    ws_last_token w = last_token s /\
    ws_token_ids w = (if is_prefill s then token_ids s else []).
Proof. apply pickle_roundtrip. Qed.


End Sequences.

(** The priority queue pops a request that none waiting precedes: lowest
    priority value, then earliest arrival, then lowest id, however the queue
    was built. *)
Theorem priority_pops_first q x q' y :
  priority_built q -> Priority.pop q = Some (x, q') -> y ∈ Priority.heap q -> key_le x y.
Proof. intros Hb. by apply sorted_head_min, built_sorted. Qed.

(** [by_urgency] sorts the running requests by priority and arrival and
    keeps the order of equals, and [victim] takes one that is least urgent. *)
Lemma urgency_order q l :
  Priority.by_urgency q l ≡ₚ l /\ StronglySorted urgency_le (Priority.by_urgency q l) /\
  (forall y, peers y (Priority.by_urgency q l) = peers y l) /\
  (forall v, Priority.victim q l = Some v -> v ∈ l /\ forall y, y ∈ l -> urgency_le y v).
Proof.
  split_and!.
  - unfold Priority.by_urgency. induction l as [|x l IH]; simpl; [done|]. by rewrite insert_perm, IH.
  - apply by_urgency_sorted.
  - intros y. apply by_urgency_stable.
  - intros v. apply victim_least_urgent.
Qed.

(** Whatever pieces a text arrives in, what a stop checker lets through is
    the text before the first stop string in what it was given, or, when there
    is none, everything given less a held-back end that [flush] returns. *)
Lemma stop_checker_cuts_at_first_stop stops ts :
  wp (stream_texts ts) (new_StopChecker stops) (fun r c =>
    (exists n k, matched c = true /\ first_stop (stop c) (concat (take n ts)) k /\
       r = take k (concat (take n ts))) \/
    (matched c = false /\ no_stop (stop c) (concat ts) /\
     wp flush c (fun tail _ => r ++ tail = concat ts))).
Proof.
  wp_call (stream_texts_spec ts (new_StopChecker stops) [] []).
  - apply new_StopChecker_wf.
  - apply new_StopChecker_streaming.
  - intros r c (n & [Hs | Hs] & _).
    + right. split; [by apply sg_unmatched in Hs|]. split; [by apply sg_none in Hs|].
      wp_call (flush_spec c _ _ Hs). by intros tail c' [? _].
    + left. destruct Hs as (Hm & k & Hk & Hr). by exists n, k.
Qed.

(** C12. Each request gets exactly its own outputs, in order, up to and with
    the final one, changed at most in their text, into its stream or else into
    the returned list; a request with a final output is forgotten, and nothing
    is delivered for a request that is not registered. *)
Theorem outputs_reach_their_request `{TokenizerLaws} outs p :
  StreamsOk p ->
  wp (process_outputs outs) p (fun l p' => StreamsOk p' /\ forall r, Delivered r outs p p' l).
Proof. apply process_outputs_spec. Qed.

(** ** Witnesses *)

Import Demo.

Lemma commit_tokens_prefix_witness :
  match new_Sequence 7 0%Qc [5%Z] (Some params) (Some "r") with
  | inr s => wp (commit_tokens 7 [9; 2; 8]%Z)
      (scheduler0 <| heap ::= <[7 := s <| num_pending_tokens := 3%Z |>]> |>)
      (fun r x' => exists s' k, heap x' !! 7 = Some s' /\ token_ids s' = [5%Z] ++ take k [9; 2; 8]%Z)
  | inl _ => False
  end.
Proof.
  destruct (new_Sequence_spec 7 0%Qc [5%Z] (Some params) (Some "r"))
    as (s & -> & Hw & _ & _ & Ht & _); [done|].
  eapply wp_mono; [apply (commit_tokens_prefix 7 [9; 2; 8]%Z _ (s <| num_pending_tokens := 3%Z |>))|].
  - apply lookup_insert_eq.
  - destruct Hw. by split.
  - by vm_compute.
  - intros r x' (s' & k & -> & _ & Htok & _). exists s', k. split; [apply lookup_insert_eq|].
    rewrite Htok. cbn. by rewrite Ht.
Defined.

Lemma worker_pickle_roundtrip_witness :
  match new_Sequence 7 0%Qc [5; 6]%Z (Some params) (Some "r") with
  | inr s => exists w, setstate (getstate s) = inr w /\ ws_token_ids w = [5; 6]%Z
  | inl _ => False
  end.
Proof.
  destruct (new_Sequence_spec 7 0%Qc [5; 6]%Z (Some params) (Some "r"))
    as (s & -> & Hw & _ & _ & Ht & _ & _ & _ & _ & Hp & _); [done|].
  destruct (worker_pickle_roundtrip s Hw) as (w & Hg & Hrest). exists w. split; [exact Hg|].
  do 13 destruct Hrest as [_ Hrest]. rewrite Hp, Ht in Hrest. exact Hrest.
Defined.


Definition item (i : nat) (p : Z) : QItem := {| qi_id := i; qi_priority := p; qi_arrival := 0%Qc |}.

Definition two_items : Priority.Queue := Priority.add (item 1 5) (Priority.add (item 0 (-3)) Priority.init).

Lemma priority_pops_first_witness :
  match Priority.pop two_items with
  | Some (x, _) => qi_id x = 0 /\ key_le x (item 1 5)
  | None => False
  end.
Proof.
  assert (match Priority.pop two_items with Some (x, _) => qi_id x = 0 | None => False end) as Hn
    by (vm_compute; reflexivity).
  destruct (Priority.pop two_items) as [[x q']|] eqn:Hpop; [|destruct Hn]. split; [exact Hn|].
  apply (priority_pops_first two_items x q' (item 1 5)).
  - repeat constructor.
  - exact Hpop.
  - apply list_elem_of_In. vm_compute. auto.
Defined.

(** A stream and an output for it. *)
Definition one_stream : OutputProcessor :=
  op_add_request "a" [5%Z] true (Some 0) ((new_OutputProcessor true) <| streams := {[0 := []]} |>).

Definition last_output : RequestOutput :=
  {| ro_request_id := "a"; ro_token_ids := [9%Z]; ro_text := ""; ro_finished := true;
     ro_finish_reason := Some "stop"; ro_metrics := None; ro_kv_transfer_params := None |}.

Lemma outputs_reach_their_request_witness :
  request_states one_stream !! "a" <> None /\
  wp (process_outputs [last_output]) one_stream (fun _ p' =>
    request_states p' !! "a" = None /\ exists o, streams p' !! 0 = Some [inl o] /\ ro_token_ids o = [9%Z]).
Proof.
  split; [done|].
  eapply wp_mono; [apply (outputs_reach_their_request [last_output] one_stream)|].
  - unfold one_stream, op_add_request, new_OutputProcessor. split; cbn.
    + intros r st a [[_ <-] | [_ [=]]]%lookup_insert_Some [= <-]. by eexists.
    + intros r1 r2 s1 s2 a [[<- _] | [_ [=]]]%lookup_insert_Some [[<- _] | [_ [=]]]%lookup_insert_Some. done.
  - intros l p' [_ Hd]. specialize (Hd "a"). unfold Delivered in Hd. cbn in Hd.
    destruct Hd as (new & Hn & (q & [= <-] & Hq & _) & Hr). split; [exact Hr|].
    apply Forall2_cons_inv_l in Hn as (o & k & Ho & ->%Forall2_nil_inv_l & ->).
    exists o. split; [exact Hq|]. by rewrite Ho.
Defined.
