(* ===== verification/ConnectorProperties.v ===== *)
(** * Properties of the KV transfer

    The ranks' shares of the attention heads, the end of sends and loads, and
    the aggregation of the ranks' reports. *)

From S2P Require Import Prelude Output Sequence KVBase NixlConnector NixlTransfer Instances.

(** C13. A load is reported once, in the step in which the last of the
    [world_size] ranks reports its end, as failed exactly when one of the ranks
    failed; until then no step's report names it, however the reports are
    spread over steps. *)
Theorem load_ends_with_last_rank r before b o ws :
  let all := concat before ++ b ++ [o] in
  reported (load_report r <$> concat before ++ b) = (ws - 1)%Z -> (load_report r o).2 = true ->
  wp (aggregates (before ++ [b ++ [o]])) (new_KVOutputAggregator ws) (fun results a' =>
    exists early final, results = early ++ [final] /\ length early = length before /\
      Forall (fun res => loads_ended r res = false) early /\
      loads_of a' r = (0%Z, false) /\
      (r ∈ failed_recving final <-> exists o, o ∈ all /\ r ∈ failed_recving o) /\
      (r ∈ finished_recving final <-> forall o, o ∈ all -> r ∉ failed_recving o)).
Proof. apply aggregates_settled. Qed.

(** C14. With [H] heads over [tp] local and [rtp] remote ranks, each local head
    is in exactly one share, every share lies within both ranks' heads and
    pairs a local head with the same global head of its remote rank, and the
    consumer ranks that read a producer rank are as many as the readers the
    notifications announce to it. *)
Theorem head_shares_partition rank tp rtp H :
  (0 < H / tp)%Z -> (0 < H / rtp)%Z ->
  (forall h, (0 <= h < H / tp)%Z -> exists s, s ∈ head_shares rank tp rtp H /\
     (sh_local_head s <= h < sh_local_head s + sh_num_heads s)%Z /\
     forall s', s' ∈ head_shares rank tp rtp H ->
       (sh_local_head s' <= h < sh_local_head s' + sh_num_heads s')%Z -> s' = s) /\
  (forall s, s ∈ head_shares rank tp rtp H ->
     (0 < sh_num_heads s)%Z /\
     (0 <= sh_local_head s)%Z /\ (sh_local_head s + sh_num_heads s <= H / tp)%Z /\
     (0 <= sh_remote_head s)%Z /\ (sh_remote_head s + sh_num_heads s <= H / rtp)%Z /\
     global_head (H / rtp) (sh_remote_rank s) (sh_remote_head s) =
     global_head (H / tp) rank (sh_local_head s)) /\
  ((0 < tp)%Z -> (tp | H)%Z -> (rtp | H)%Z -> forall p, (0 <= p < rtp)%Z ->
   length (filter (fun rank => p ∈ sh_remote_rank <$> head_shares rank tp rtp H) (seqZ 0 tp)) =
   length (head_shares p rtp tp H)).
Proof.
  intros Hl Hr. split_and!.
  - intros h Hh. by apply head_shares_cover.
  - intros s Hs. by apply head_shares_match.
  - intros Htp Hdl Hdr p Hp. by rewrite readers_exact, length_fmap by done.
Qed.

(** C15. While a producer rank waits for a send's readers, fewer than all of
    them have notified it: posting the send, each notification, in either
    order, and collecting the results keep this, so a send that all its readers
    have read is released by the step that completes it. *)
Theorem sends_await_readers now timeout w :
  SendInv w ->
  (forall ids, SendInv (start_sends now timeout ids w)) /\
  (forall r n, SendInv (take_notification now r n w)) /\
  wp (get_finished now timeout) w (fun _ w' => SendInv w' /\ ss_finished w' = empty_KVConnectorOutput) /\
  (forall r d e, ss_reqs_to_send w !! r = Some d ->
     ss_notified w !! r = Some e -> (nt_readers e <= nt_count e + 1)%Z -> forall n,
     r ∈ finished_sending (ss_finished (take_notification now r n w)) /\
     ss_reqs_to_send (take_notification now r n w) !! r = None).
Proof.
  intros Hw. split_and!.
  - intros ids. by apply start_sends_inv.
  - intros r n. by apply take_notification_inv.
  - by apply get_finished_inv.
  - intros r d e Hd He Hn n. unfold take_notification. rewrite He. cbn [default from_option].
    match goal with |- context [release_if_read r ?w1] => destruct (released_when_read r w1 d
      {| nt_count := nt_count e + 1; nt_readers := nt_readers e; nt_seen := nt_seen e |}) as (? & ? & _) end;
      [exact Hd | apply lookup_insert_eq | simpl; lia | by split].
Qed.

(** Polling the transfers decides each load by its own reads alone: it
    stays while a read is in flight, and is otherwise reported, as failed when
    it or one of its reads failed, else as finished with its time and bytes. *)
Theorem poll_decides_each_load state now w r l :
  lds_loads w !! r = Some l -> PollOutcome state now r l (poll state now w).
Proof. apply poll_outcome. Qed.

(** C16. Posting a load always ends, whatever the network and NIXL answer, and
    leaves no rank unnotified. A load that is not failed has told every producer
    rank with a share: either NIXL gave the rank's read, which carries the
    notification, a handle that the load keeps polling and answered the transfer
    of that handle with another state than ERR, or, where nothing is read, NIXL
    took the notification itself. After a failure every such rank is told in this
    sense too, with two exceptions: a rank whose notification NIXL refused by
    raising, which is left to the producer's timeout, and a rank for which the
    worker does not know the agent the request names. *)
Theorem posting_leaves_no_rank_waiting `{Peer} r req w now :
  WorkerOk w ->
  wp (start_load r req now) w (fun _ w' => exists l, nw_loads w' !! r = Some l /\ ld_unnotified l = ∅ /\
    if ld_failed l then divisible req w = true -> forall p, p ∈ share_ranks req w -> Settled r req w w' p
    else divisible req w = true /\ forall p, p ∈ share_ranks req w -> Told r req w w' p).
Proof.
  intros Hw. wp_call (start_load_settles r req w Hw now). intros _ w' (_ & l & Hl & _ & Hu & Hc). by exists l.
Qed.

(** A producer rank reads back from a consumer's notification the request
    and the number of readers it carries, whatever the request's id is. *)
Theorem notification_text_roundtrip rid n : (0 <= n)%Z -> parse_notification (notification rid n) = Some (rid, n).
Proof. apply notification_roundtrip. Qed.

(** A negative [tp_size] in a request's transfer parameters leaves no
    shares: the load makes no call, so reads nothing, and the next poll reports
    it finished, not failed. *)
Theorem negative_tp_size_reads_nothing `{Peer} r req w now k state later fin :
  (0 <= nw_rank w)%Z -> (0 <= k)%Z -> (heads_of w req / remote_tp_size req < 0)%Z ->
  (heads_of w req / nw_tp_size w = k * - (heads_of w req / remote_tp_size req))%Z ->
  wp (start_load r req now) w (fun _ w' => nw_calls w' = nw_calls w /\
    r ∈ finished_recving (lds_finished (poll state later {| lds_loads := nw_loads w'; lds_finished := fin |}))).
Proof.
  intros Hr Hk Hn Hl. wp_call (negative_tp_start r req now w k Hr Hk Hn Hl).
  intros _ w' (Hc & l & Hlk & Hh & Hf). split; [done|].
  pose proof (poll_outcome state later {| lds_loads := nw_loads w'; lds_finished := fin |} r l Hlk) as Hp.
  unfold PollOutcome in Hp. rewrite Hh, Hf in Hp. cbn -[poll] in Hp. by destruct Hp as (_ & Hp & _).
Qed.

(** ** Witnesses *)

Import Demo.

Definition half : KVConnectorOutput := empty_KVConnectorOutput <| finished_recving := {["r"]} |>.
Definition lost : KVConnectorOutput := empty_KVConnectorOutput <| failed_recving := {["r"]} |>.

Lemma load_ends_with_last_rank_witness :
  wp (aggregates ([[lost]] ++ [[] ++ [half]])) (new_KVOutputAggregator 2) (fun results _ =>
    exists early final, results = early ++ [final] /\ Forall (fun res => loads_ended "r" res = false) early /\
      "r" ∈ failed_recving final).
Proof.
  eapply wp_mono; [apply (load_ends_with_last_rank "r" [[lost]] [] half 2); vm_compute; reflexivity|].
  intros results a' (early & final & -> & _ & He & _ & Hf & _). exists early, final.
  split; [done|]. split; [exact He|]. apply Hf. exists lost. split.
  - cbn. apply list_elem_of_here.
  - cbn. by apply elem_of_singleton.
Defined.

(** Two consumer ranks over four producer ranks, eight heads. *)
Lemma head_shares_partition_witness :
  length (filter (fun rank => 2%Z ∈ sh_remote_rank <$> head_shares rank 2 4 8) (seqZ 0 2)) =
  length (head_shares 2 4 2 8) /\ length (head_shares 2 4 2 8) = 1.
Proof.
  split; [|reflexivity].
  apply (head_shares_partition 0 2 4 8); try done; [by exists 4%Z | by exists 2%Z].
Defined.

Definition sends0 : SendState :=
  {| ss_reqs_to_send := {["r" := Qc_of_Z 9]}; ss_notified := {["r" := {| nt_count := 1; nt_readers := 2; nt_seen := Qc_of_Z 1 |}]};
     ss_finished := empty_KVConnectorOutput |}.

Lemma sends_await_readers_witness :
  "r" ∈ finished_sending (ss_finished (take_notification (Qc_of_Z 3) "r" 2 sends0)) /\
  ss_reqs_to_send (take_notification (Qc_of_Z 3) "r" 2 sends0) !! "r" = None.
Proof.
  assert (SendInv sends0) as Hw.
  { intros r e Hr He. cbn in He. by apply lookup_singleton_Some in He as [<- <-]. }
  destruct (sends_await_readers (Qc_of_Z 3) (Qc_of_Z 5) sends0 Hw) as (_ & _ & _ & Hr).
  eapply Hr; [apply lookup_singleton_eq | apply lookup_singleton_eq | cbn; lia].
Defined.

Definition req0 : ReqToRecv :=
  {| local_block_ids := [3; 4]; remote_block_ids := [7; 8]%Z; remote_request_id := "req-9";
     remote_engine_id := "prefill"; remote_host := "10.0.0.1"; remote_port := 14579; remote_tp_size := 1 |}.

Definition load0 : Load :=
  {| ld_req := req0; ld_handles := [0; 1]; ld_unnotified := ∅; ld_started := Qc_of_Z 0; ld_num_bytes := 64;
     ld_failed := false |}.

Lemma poll_decides_each_load_witness :
  "r" ∈ failed_recving (lds_finished (poll (fun h => if h =? 0 then ERR else DONE) (Qc_of_Z 1)
    {| lds_loads := {["r" := load0]}; lds_finished := empty_KVConnectorOutput |})).
Proof.
  pose proof (poll_decides_each_load (fun h => if h =? 0 then ERR else DONE) (Qc_of_Z 1)
    {| lds_loads := {["r" := load0]}; lds_finished := empty_KVConnectorOutput |} "r" load0
    (lookup_singleton_eq _ _)) as Hp.
  unfold PollOutcome in Hp. cbn -[poll] in Hp. apply Hp.
Defined.

(** A producer of one rank, with sixteen blocks and one region; everything
    succeeds. *)
Definition cache0 : Cache :=
  {| ca_ptr := 4096; ca_itemsize := 2; ca_dtype := "bf16"; ca_shape := [2; 16; 4; 16; 8]%Z;
     ca_strides := [8192; 512; 128; 8; 1]%Z; ca_is_cuda := false; ca_device := -1 |}.

Definition worker0 : NixlWorker :=
  {| nw_engine_id := "decode"; nw_rank := 0; nw_tp_size := 1; nw_block_size := 16; nw_caches := [cache0];
     nw_remotes := ∅; nw_loads := ∅; nw_calls := [] |}.

Definition producer0 : Description :=
  {| ds_engine_id := "prefill"; ds_tp_size := 1; ds_layout := nw_layout worker0; ds_regions := nw_regions worker0;
     ds_num_blocks := 16; ds_mem_type := "DRAM"; ds_device_id := 0 |}.

#[local] Instance peer0 : Peer := {|
  handshake_answer := fun _ => inr (Some (Described producer0, "metadata"));
  add_answer := fun _ => inr "agent";
  remove_answer := fun _ => inr tt;
  read_answer := fun _ => inr 0;
  transfer_answer := fun _ => inr PROC;
  notify_answer := fun _ => inr tt |}.

Lemma posting_leaves_no_rank_waiting_witness :
  wp (start_load "r" req0 (Qc_of_Z 0)) worker0 (fun _ w' => exists l, nw_loads w' !! "r" = Some l /\
    ld_unnotified l = ∅ /\ ld_failed l = false /\ Told "r" req0 worker0 w' 0%Z).
Proof.
  pose proof (posting_leaves_no_rank_waiting "r" req0 worker0 (Qc_of_Z 0)) as Hp.
  assert (match start_load "r" req0 (Qc_of_Z 0) worker0 with
    | (inr _, w') => ld_failed <$> nw_loads w' !! "r" = Some false | _ => False end) as Hn by (vm_compute; reflexivity).
  assert (share_ranks req0 worker0 = [0%Z]) as Hs by (vm_compute; reflexivity). unfold wp in *.
  destruct (start_load "r" req0 (Qc_of_Z 0) worker0) as [[e|u] w']; [destruct Hn|].
  destruct Hp as (l & Hl & Hu & Hc); [split; [|right]; vm_compute; reflexivity|].
  rewrite Hl in Hn. injection Hn as Hn. rewrite Hn in Hc. exists l. split_and!; try assumption.
  apply (proj2 Hc). rewrite Hs. apply list_elem_of_here.
Defined.

Lemma notification_text_roundtrip_witness : parse_notification "req:9:12" = Some ("req:9", 12%Z).
Proof. apply (notification_text_roundtrip "req:9" 12). lia. Defined.

Definition req_negative : ReqToRecv :=
  {| local_block_ids := [3; 4]; remote_block_ids := [7; 8]%Z; remote_request_id := "req-9";
     remote_engine_id := "prefill"; remote_host := "10.0.0.1"; remote_port := 14579; remote_tp_size := -1 |}.

Lemma negative_tp_size_reads_nothing_witness :
  wp (start_load "r" req_negative (Qc_of_Z 0)) worker0 (fun _ w' => nw_calls w' = [] /\
    "r" ∈ finished_recving (lds_finished (poll (fun _ => DONE) (Qc_of_Z 1)
      {| lds_loads := nw_loads w'; lds_finished := empty_KVConnectorOutput |}))).
Proof.
  apply (negative_tp_size_reads_nothing "r" req_negative worker0 (Qc_of_Z 0) 1 (fun _ => DONE) (Qc_of_Z 1) empty_KVConnectorOutput);
    vm_compute; try reflexivity; discriminate.
Defined.
