(* ===== verification/EngineProperties.v ===== *)
(** * Properties of the engine

    What a step of [LLMEngine] reports, which requests it admits, the metrics
    it records, and the verification of drafted tokens. *)

From S2P Require Import Prelude Output Sequence BlockManager BlockManagerFacts Policy KVBase Scheduler Lifecycle.
From S2P Require Import SchedulerInv SchedulerSteps ScheduleFacts AdmitFacts LaunchFacts ReconcileFacts.
From S2P Require Import SchedulerReach NixlConnector OutputProcessor Frames Metrics SpecDecode Engine EngineFacts.
From S2P Require Import Instances.

Section Properties.
Context `{SeqSettings} `{!SettingsOk} `{SetOrder} `{TokenizerLaws}.
Context {Q C R : Type} `{SchedulingPolicyLaws Q} `{KVConnectorLaws C} `{!KVConnectorFrame C}.
Context (spec : option Z) `{!ModelRunner R} `{!ModelRunnerLaws R spec}.
Variable clock : nat -> Qc.
Variable encode : string -> list Z.
Variable model_validate : gmap string pyval -> option (string * string).

(** C17. A step of the engine ends without an exception and in a good state.
    Its outputs are, once each: one for every sequence that gained tokens,
    carrying exactly the tokens appended to it since the previous state; then a
    final one without tokens for every other sequence that this step finished,
    that is, exactly those not finished before the step and finished after it
    (the ones dropped for capacity). No other sequence gains a token, and the
    output processor delivers the outputs per request. *)
Theorem step_outputs_new_tokens (e : @LLMEngine _ Q C R) :
  EngInv spec e -> StepReportsOk clock e ->
  wp (step clock) e (fun r e' => EngInv spec e' /\
    exists raw, StepOutputs e e' raw /\ texts_filled e raw r.1.1 e').
Proof. intros. by apply step_spec. Qed.

(** C18. Adding a request either registers it, when its prompt and parameters
    pass the checks, or raises [InvalidRequest] or [DuplicateRequestId] and
    leaves the requests, the streams and the metrics as they were: only the
    clock has been read. *)
Theorem add_request_all_or_nothing prompt sp rid (e : @LLMEngine _ Q C R) :
  (forall d kv, check_kv_transfer_params model_validate (PDict (map_to_list d)) d kv = None -> kv_ok (Some d)) ->
  kv_ok None -> EngInv spec e -> SamplingParamsOk sp ->
  match engine_add_request clock encode model_validate prompt sp rid e with
  | (inr r, e') => EngInv spec e' /\ is_Some (seqs (e_scheduler e') !! r) /\
      RequestOk model_validate (match prompt with inl text => encode text | inr ids => ids end) sp
        (vocab_size (e_config e)) (max_model_len (e_config e)) (kv_transfer (e_config e))
  | (inl ex, e') => EngInv spec e' /\ e_output_processor e' = e_output_processor e /\ e_metrics e' = e_metrics e /\
      (exists k, e_scheduler e' = (e_scheduler e) <| ticks := k |>) /\
      ((exists m, ex = InvalidRequest m) \/ (exists m, ex = DuplicateRequestId m))
  end.
Proof. intros Hc Hn He Hs. by apply (add_request_spec spec clock encode model_validate Hc Hn prompt sp rid e He Hs). Qed.

(** Aborting a request through the engine answers whether it was in flight
    and leaves neither the scheduler nor the output processor with it. *)
Theorem abort_request_everywhere rid reason (e : @LLMEngine _ Q C R) :
  EngInv spec e ->
  wp (engine_abort_request clock rid reason) e (fun b e' => EngInv spec e' /\
    b = bool_decide (is_Some (seqs (e_scheduler e) !! rid)) /\
    seqs (e_scheduler e') = delete rid (seqs (e_scheduler e)) /\
    (forall op, e_output_processor e' = Some op -> request_states op !! rid = None)).
Proof. intros. by apply abort_request_spec. Qed.

End Properties.

(** [validate_request] accepts exactly a non-empty prompt of known tokens
    that leaves room for the completion within the model's context, with
    transfer parameters the connector accepts; it refuses anything else with
    [InvalidRequest]. *)
Theorem validate_request_exact model_validate prompt sp vocab max_len kv :
  (validate_request model_validate prompt sp vocab max_len kv = inr tt <->
   RequestOk model_validate prompt sp vocab max_len kv) /\
  (forall ex, validate_request model_validate prompt sp vocab max_len kv = inl ex ->
   exists m, ex = InvalidRequest m).
Proof. split; [apply validate_request_iff | intros ex; apply validate_request_error]. Qed.

(** The recorded metrics stay consistent through every recording: the
    steps are the graph steps and the eager steps, the seconds by kind add up
    to the busy seconds, the accepted tokens to the accepted per position, and
    each successful transfer has one time. *)
Theorem metrics_stay_balanced {Q C} `{SchedulingPolicy Q} (m : Metrics) :
  Balanced m ->
  (forall (x : Scheduler Q C) o outs d kind, wp (record_step x o outs d kind) m (fun _ m' => Balanced m')) /\
  (forall rows toks, Forall (fun t => t <> []) toks ->
     wp (record_spec_decoding rows toks) m (fun _ m' => Balanced m')) /\
  (forall o, wp (record_kv_transfer o) m (fun _ m' => Balanced m')) /\
  (forall o, wp (record_aborted o) m (fun _ m' => Balanced m')).
Proof.
  intros Hm.
  assert (forall r : M Metrics unit, appends Balanced r -> wp r m (fun _ m' => Balanced m')) as Happ.
  { intros r Hr. destruct (appends_run _ _ m Hr) as [k Hk]. wp_call Hk.
    intros _ m' [-> Hb]. by apply Balanced_app. }
  split_and!; intros; apply Happ.
  - apply appends_record_step.
  - by apply appends_record_spec_decoding.
  - apply appends_record_kv_transfer.
  - apply appends_record_aborted.
Qed.

(** A speculative step's rows, padded into one matrix by the runner, split
    back into each row's sampled tokens and next drafts. *)
Theorem split_sampled_roundtrip k (rows : list (list Z * list Z)) :
  (0 <= k)%Z ->
  Forall (fun r => (Zlen r.1 <= k + 1)%Z /\ Forall (fun t => 0 <= t)%Z r.1) rows ->
  split_sampled ((fun r => spec_row k r.1 r.2) <$> rows) k = (rows.*1, rows.*2).
Proof. apply split_sampled_rows. Qed.

(** Without temperatures, the vectorised rejection sampler computes, for
    each row, greedy decoding: the drafts as far as they equal the model's
    choices, then the model's next choice, then placeholders. *)
Theorem rejection_sampler_is_greedy (greedy drafts : list Z) (ns : list nat) (draws : Draws) (width : nat) :
  length drafts = sum_list ns -> length greedy = sum_list (S <$> ns) -> Forall (fun n => n <= width) ns ->
  rejection_sample greedy drafts ns None draws width =
  imap (fun r n =>
    let choices := slice greedy (offset ns r + r) (S n) in
    let hits := leading (zip_with (fun x y : Z => bool_decide (x = y)) choices (slice drafts (offset ns r) n)) in
    take (S hits) choices ++ replicate (width - hits) PLACEHOLDER_TOKEN_ID) ns.
Proof.
  intros Hd Hg Hw. apply rejection_sample_greedy; [done | | done].
  intros r n Hr. by eapply (Forall_lookup_1 (fun n => n <= width)).
Qed.

(** ** Witnesses *)

Import Demo.

Lemma step_outputs_new_tokens_witness :
  wp (step clock) engine3 (fun r e' => EngInv None e' /\ exists raw, StepOutputs engine3 e' raw).
Proof.
  eapply wp_mono; [apply (step_outputs_new_tokens None clock engine3 engine3_inv engine3_reports)|].
  intros r e' [He (raw & Hr & _)]. split; [exact He | by exists raw].
Defined.

(** A prompt token out of the vocabulary is refused. *)
Lemma add_request_all_or_nothing_witness :
  match engine_add_request clock encode_text model_validate (inr [200%Z]) params None engine3 with
  | (inr _, _) => False
  | (inl ex, e') => e_output_processor e' = e_output_processor engine3 /\ exists m, ex = InvalidRequest m
  end.
Proof.
  pose proof (add_request_all_or_nothing None clock encode_text model_validate (inr [200%Z]) params None engine3
    checked no_kv_ok engine3_inv params_ok) as Ha.
  assert (match engine_add_request clock encode_text model_validate (inr [200%Z]) params None engine3 with
    | (inr _, _) => False | (inl (InvalidRequest _), _) => True | _ => False end) as Hn by (vm_compute; exact I).
  destruct (engine_add_request clock encode_text model_validate (inr [200%Z]) params None engine3) as [[ex|r] e'];
    [|destruct Hn].
  split; [apply Ha|]. destruct ex; try destruct Hn. by eexists.
Defined.

Lemma abort_request_everywhere_witness :
  wp (engine_abort_request clock "req-0" "abort") engine3 (fun b e' => b = true /\ seqs (e_scheduler e') !! "req-0" = None).
Proof.
  eapply wp_mono; [apply (abort_request_everywhere None clock "req-0" "abort" engine3 engine3_inv)|].
  intros b e' (_ & -> & -> & _). split; [vm_compute; reflexivity | apply lookup_delete_eq].
Defined.

Lemma validate_request_exact_witness :
  RequestOk model_validate [5%Z] params 100 64 None /\
  exists ex m, validate_request model_validate [] params 100 64 None = inl ex /\ ex = InvalidRequest m.
Proof.
  split; [apply validate_request_exact; vm_compute; reflexivity|].
  destruct (validate_request model_validate [] params 100 64 None) as [ex|u] eqn:Hv; [|vm_compute in Hv; discriminate].
  destruct (proj2 (validate_request_exact model_validate [] params 100 64 None) ex Hv) as [m Hm]. by exists ex, m.
Defined.

Lemma metrics_stay_balanced_witness :
  wp (record_aborted (abort_output "req-0")) new_Metrics (fun _ m' => Balanced m').
Proof. apply (metrics_stay_balanced (Q := Fcfs.Queue) (C := NixlConnectorScheduler) new_Metrics). apply Balanced_nil. Defined.

(** Two rows of a step with three drafts: two accepted and a choice; none. *)
Lemma split_sampled_roundtrip_witness :
  split_sampled [[4; 5; 6; -1; 7; 8; 9]; [3; -1; -1; -1; 1; 1; 2]]%Z 3 =
  ([[4; 5; 6]; [3]], [[7; 8; 9]; [1; 1; 2]])%Z.
Proof.
  apply (split_sampled_roundtrip 3 [([4; 5; 6], [7; 8; 9]); ([3], [1; 1; 2])]%Z); [lia|].
  repeat first [apply Forall_nil_2 | apply Forall_cons_2 | split]; unfold Zlen; cbn; lia.
Defined.

(** A row keeps two of its three drafts, another has none. *)
Lemma rejection_sampler_is_greedy_witness :
  rejection_sample [4; 5; 6; 7; 9]%Z [4; 5; 8]%Z [3; 0] None {| coins := []; draw := [] |} 3 = [[4; 5; 6; -1]; [9; -1; -1; -1]]%Z.
Proof. rewrite (rejection_sampler_is_greedy [4; 5; 6; 7; 9]%Z [4; 5; 8]%Z [3; 0] {| coins := []; draw := [] |} 3); [reflexivity | done | done|]. repeat constructor; lia. Defined.
