(* ===== verification/ServingProperties.v ===== *)
(** * Properties of the serving processes

    The engine core's process and its clients in the server's process: every
    request is answered, a shutdown ends the core, and neither a death nor a
    stop leaves anyone waiting. *)


From S2P Require Import Prelude Output Sequence BlockManager BlockManagerFacts Policy KVBase Scheduler Lifecycle.
From S2P Require Import SchedulerInv SchedulerSteps ScheduleFacts AdmitFacts LaunchFacts ReconcileFacts.
From S2P Require Import SchedulerReach NixlConnector OutputProcessor Frames Metrics SpecDecode Engine EngineFacts.
From S2P Require Import Core CoreClient AsyncLLM Instances.
(** ** The engine behind the core

    [LLMEngine] implements the core's interface, as [make_engine] builds it,
    and the composition: a core serving this engine answers what it takes and
    stops when asked. *)


Section Service.
Context `{SeqSettings} `{!SettingsOk} `{SetOrder} `{TokenizerLaws}.
Context {Q C R : Type} `{SchedulingPolicyLaws Q} `{KVConnectorLaws C} `{!KVConnectorFrame C}.
Context (spec : option Z) `{!ModelRunner R} `{!ModelRunnerLaws R spec}.
Variable clock : nat -> Qc.
Variable encode : string -> list Z.
Variable model_validate : gmap string pyval -> option (string * string).
(** [Metrics.render]: the exposition format is library code. *)
Variable render : Metrics -> string.
Local Abbreviation Eng := (@LLMEngine _ Q C R).

Local Instance LLMEngine_ops : EngineOps Eng := {|
  eng_add_request prompt sp rid := engine_add_request clock encode model_validate (inr prompt) sp (Some rid);
  eng_abort_request rid reason := engine_abort_request clock rid reason;
  eng_step := step clock;
  eng_is_finished := engine_is_finished;
  eng_render_metrics e := render (e_metrics e) |}.

(** What [m] raises is an [Exception]. *)
Definition raises_exceptions {S A} (m : M S A) : Prop := forall s x s', m s = (inl x, s') -> is_Exception x = true.

Lemma raises_bind {S A B} (m : M S A) (k : A -> M S B) :
  raises_exceptions m -> (forall a, raises_exceptions (k a)) -> raises_exceptions (bind m k).
Proof.
  intros Hm Hk s x s'. unfold bind. destruct (m s) as [[y|a] s1] eqn:Hms; [|apply Hk].
  intros [= <- <-]. by apply (Hm s y s1).
Qed.

Lemma raises_zoom {S T A} (get : S -> T) put (m : M T A) : raises_exceptions m -> raises_exceptions (zoom get put m).
Proof.
  intros Hm s x s'. unfold zoom. destruct (m (get s)) as [[y|a] t'] eqn:Hms; [|done].
  intros [= <- _]. by apply (Hm (get s) y t').
Qed.

Lemma raises_ret {S A} (a : A) : raises_exceptions (ret (S := S) a).
Proof. by intros s x s' [=]. Qed.
Lemma raises_gets {S A} (f : S -> A) : raises_exceptions (gets f).
Proof. by intros s x s' [=]. Qed.
Lemma raises_modify {S} (f : S -> S) : raises_exceptions (modify f).
Proof. by intros s x s' [=]. Qed.
Lemma raises_raise {S A} e : is_Exception e = true -> raises_exceptions (raise (S := S) (A := A) e).
Proof. by intros He s x s' [= <- _]. Qed.
Lemma raises_or_fail {S A} (r : exn + A) :
  (forall e, r = inl e -> is_Exception e = true) -> raises_exceptions (or_fail (S := S) r).
Proof. destruct r as [e|a]; intros He; [apply raises_raise; auto | apply raises_ret]. Qed.

Lemma add_raises : raises_exceptions (on_sched (Q := Q) (C := C) (R := R) (perf_counter clock)) /\
  forall s, raises_exceptions (on_sched (Q := Q) (C := C) (R := R) (add s)).
Proof.
  split; [|intros s]; apply raises_zoom.
  - unfold perf_counter. repeat first [apply raises_bind; [|intros] | apply raises_gets | apply raises_modify | apply raises_ret].
  - unfold add. apply raises_bind; [apply raises_gets|]. intros x.
    destruct (_ || _); [by apply raises_raise | apply raises_modify].
Qed.

#[local] Instance LLMEngine_ops_laws : EngineOpsLaws Eng.
Proof.
  constructor. intros prompt sp rid. cbn [eng_add_request LLMEngine_ops]. unfold engine_add_request.
  fold (raises_exceptions (S := Eng) (A := string)).
  apply raises_bind; [apply raises_gets|]. intros c.
  apply raises_bind.
  { apply raises_or_fail. intros e He. by apply validate_request_error in He as [m ->]. }
  intros _. apply raises_bind; [apply raises_gets|]. intros n.
  apply raises_bind; [apply raises_modify|]. intros _.
  apply raises_bind; [apply add_raises|]. intros now.
  apply raises_bind.
  { apply raises_or_fail. intros e. destruct prompt as [|t prompt].
    - rewrite new_Sequence_empty. by intros [= <-].
    - destruct (new_Sequence_spec n now (t :: prompt) (Some sp) (Some rid)) as (s & -> & _); [done | intros [=]]. }
  intros s. apply raises_bind; [apply add_raises|]. intros _.
  apply raises_bind; [apply raises_zoom, raises_modify|]. intros _.
  apply raises_bind; [|intros; apply raises_ret]. unfold on_processor.
  apply raises_bind; [apply raises_gets|]. intros [p|]; [apply raises_zoom, raises_modify | apply raises_ret].
Qed.

(** The strict model accepts only what the connector reads, and the worker
    reports only loads in progress. *)
Hypothesis checked_params : forall d kv,
  check_kv_transfer_params model_validate (PDict (map_to_list d)) d kv = None -> kv_ok (Some d).
Hypothesis no_params : kv_ok None.
Hypothesis worker_reports : forall e : Eng, EngInv spec e -> StepReportsOk clock e.

Lemma LLMEngine_safe : EngineSafe (EngInv spec (Q := Q) (C := C) (R := R)) SamplingParamsOk.
Proof.
  split_and!.
  - intros prompt sp rid e He Hsp. cbn [eng_add_request LLMEngine_ops].
    pose proof (add_request_spec spec clock encode model_validate checked_params no_params (inr prompt) sp (Some rid) e He Hsp) as Ha.
    destruct (engine_add_request _ _ _ _ _ _ _) as [[x|r] e']; [exists (inl x), e' | exists (inr r), e']; split; try done; apply Ha.
  - intros rid reason e He. wp_call (abort_request_spec spec clock rid reason e He). by intros b e' [? _].
  - intros e He _. wp_call (step_spec spec clock e He (worker_reports e He)). by intros r e' [? _].
Qed.

(** The process: it serves until the shutdown among the messages. *)
Lemma core_serves survives repr gone fuel e arrivals :
  EngInv spec e -> Forall (known SamplingParamsOk) (concat arrivals) -> MsgShutdown ∈ concat arrivals ->
  length (concat arrivals) < fuel -> S (length arrivals) < fuel ->
  exists c taken left_, run_engine_core survives repr gone fuel (inr e) arrivals = (Ready, Some c) /\
    core_running c = false /\ concat arrivals = taken ++ left_ /\ Answers taken (core_output c).
Proof.
  intros He Hk Hs Hf Ha. cbn [run_engine_core].
  pose proof (core_run_stops survives repr gone (EngInv spec) SamplingParamsOk LLMEngine_safe fuel
    (new_EngineCore e arrivals)) as Hr.
  pose proof (proto_run survives repr gone fuel (new_EngineCore e arrivals)) as Hp. unfold wp in Hr.
  destruct (core_run survives repr gone fuel (new_EngineCore e arrivals)) as [[x|u] c].
  - destruct Hr; [by split_and!; [| |right] | done | done | done].
  - destruct (Hp (inr u) c eq_refl) as (taken & sent & Htk & Hout & Hans).
    exists c, taken, (pending c). split_and!; [done | | exact Htk | by rewrite Hout].
    apply Hr; [by split_and!; [| |right] | done | done | done].
Qed.

End Service.

Section CoreServes.
Context `{SeqSettings} `{!SettingsOk} `{SetOrder} `{TokenizerLaws}.
Context {Q C R : Type} `{SchedulingPolicyLaws Q} `{KVConnectorLaws C} `{!KVConnectorFrame C}.
Context (spec : option Z) `{!ModelRunner R} `{!ModelRunnerLaws R spec}.
Variable clock : nat -> Qc.
Variable encode : string -> list Z.
Variable model_validate : gmap string pyval -> option (string * string).
Variable render : Metrics -> string.
Local Existing Instance LLMEngine_ops.
Local Abbreviation Eng := (@LLMEngine _ Q C R).

(** C19. A core process serving the engine, given a shutdown among the messages
    its client sends, runs to a clean end: it acknowledges every request it
    takes, once and in order, answers every metrics call, and never reports a
    death. *)
Theorem core_answers_until_shutdown survives repr gone fuel (e : Eng) arrivals :
  (forall d kv, check_kv_transfer_params model_validate (PDict (map_to_list d)) d kv = None -> kv_ok (Some d)) ->
  kv_ok None -> (forall e : Eng, EngInv spec e -> StepReportsOk clock e) ->
  EngInv spec e -> Forall (known SamplingParamsOk) (concat arrivals) -> MsgShutdown ∈ concat arrivals ->
  length (concat arrivals) < fuel -> S (length arrivals) < fuel ->
  exists c taken left_,
    run_engine_core (H := LLMEngine_ops clock encode model_validate render)
      survives repr gone fuel (inr e) arrivals = (Ready, Some c) /\
    core_running c = false /\ concat arrivals = taken ++ left_ /\ Answers taken (core_output c).
Proof. intros. by apply (core_serves spec). Qed.

End CoreServes.

Section Clients.
Context `{TokenizerLaws}.
Variable repr_exn : exn -> string.
Variable encode : string -> list Z.

(** C20. In every state the server's engine reaches, by requests, cancels,
    messages, process exits, aborts, metrics calls and stops in any order, a
    dead or stopped core leaves no coroutine waiting on it, every stream of a
    dead or stopped engine has ended, and the death is announced at most once.
    After a stop from another thread, whose callback the loop has yet to run,
    the streams end with that callback, whatever ran in between. *)
Theorem no_one_waits_on_a_dead_core has_tokenizer s :
  rtc (sys_step repr_exn encode) (initial has_tokenizer) s ->
  (closed (al_core (sys_llm s)) ->
     (forall t, t ∈ sys_adds s -> fut_done (outcome_of (sys_llm s) (at_future t)) = true) /\
     (forall n a, (n, a) ∈ sys_calls s -> fut_done (outcome_of (sys_llm s) a) = true)) /\
  (is_dead (sys_llm s) || al_stopped (sys_llm s) = true ->
     (al_closing (sys_llm s) = false -> forall a q, streams (al_processor (sys_llm s)) !! a = Some q -> ended q) /\
     forall a q, streams (al_processor (run_scheduled (sys_llm s))) !! a = Some q -> ended q) /\
  al_deaths (sys_llm s) <= 1.
Proof.
  intros Hr. destruct (sys_inv_no_hang s) as (H1 & H2 & H3); [by eapply sys_inv_reachable|]. split_and!; [exact H1| |exact H3].
  intros Hd. split; [|by apply H2]. intros Hc a q Hq. apply (H2 Hd a q). unfold run_scheduled. by rewrite Hc.
Qed.

(** C21. Once the core has died, the output handler's turns, at most one per
    queued item, deliver the death to the engine, unless a stop is already
    ending the streams. *)
Theorem death_reaches_the_streams has_tokenizer s :
  rtc (sys_step repr_exn encode) (initial has_tokenizer) s ->
  al_handling (sys_llm s) = true -> al_closing (sys_llm s) = false -> is_Some (cl_error (al_core (sys_llm s))) ->
  exists n s', n <= length (cl_outputs (al_core (sys_llm s))) /\ nsteps handle_turn n s s' /\
    is_dead (sys_llm s') = true /\
    forall a q, streams (al_processor (sys_llm s')) !! a = Some q -> ended q.
Proof.
  intros Hr Hh Hcl He.
  destruct (death_delivered s) as (n & s' & Hn & Hs & Hi & Hd & Hc); [by eapply sys_inv_reachable | done | done | done|].
  exists n, s'. split_and!; [done | done | done|]. intros a q Hq.
  destruct (sys_inv_no_hang s' Hi) as (_ & He' & _). apply (He' ltac:(by rewrite Hd) a q). unfold run_scheduled. by rewrite Hc.
Qed.

End Clients.

(** ** Witnesses *)

Import Demo.

(** The unit runner's worker reports nothing. *)
Lemma worker_reports (e : Eng) : EngInv None e -> StepReportsOk clock e.
Proof.
  intros _. unfold StepReportsOk, ReportsOk. destruct (async_scheduling (e_config e)); [|intros stepped e1 _];
    intros o x1 m report r' _ _ [= <- _] r Hr; exfalso; revert Hr; cbn; set_solver.
Qed.

Definition text_of (e : exn) : string := "error".

(** Two adds, the second with a token the vocabulary lacks, then a shutdown. *)
Definition messages : list (list InMessage) :=
  [[MsgAdd "a" [5%Z] params]; []; [MsgAdd "b" [500%Z] params; MsgShutdown]].

Lemma core_answers_until_shutdown_witness :
  exists c taken left_,
    run_engine_core (H := LLMEngine_ops clock encode_text model_validate (fun _ => ""))
      (fun _ => true) text_of (fun _ => false) 10 (inr engine0) messages = (Ready, Some c) /\
    core_running c = false /\ concat messages = taken ++ left_ /\ Answers taken (core_output c).
Proof.
  apply (core_answers_until_shutdown None clock encode_text model_validate (fun _ => "")).
  - exact checked.
  - exact no_kv_ok.
  - exact worker_reports.
  - exact engine0_inv.
  - repeat first [apply Forall_nil_2 | apply Forall_cons_2]; cbn; try exact params_ok; exact I.
  - cbn. apply list_elem_of_further, list_elem_of_further, list_elem_of_here.
  - cbn. lia.
  - cbn. lia.
Defined.

(** A request is admitted; then the core's process exits. *)
Definition sys1 : System :=
  let p := al_add_begin text_of encode_text (inr [5%Z]) params "a" (sys_llm (initial true)) in
  {| sys_llm := p.2; sys_adds := [{| at_request := "a"; at_future := 0; at_stream := 0; at_cancelled := false |}];
     sys_calls := []; sys_used := {["a"]} ∪ ∅ |}.

Definition sys2 : System :=
  with_llm ((sys_llm sys1) <| al_core ::= on_process_exit text_of "1" |>) sys1.

Lemma sys2_reachable : rtc (sys_step text_of encode_text) (initial true) sys2.
Proof.
  eapply rtc_l; [|apply rtc_once; apply step_exit].
  eapply (step_add text_of encode_text (inr [5%Z]) params "a" 0 0); [set_solver|]. vm_compute. reflexivity.
Defined.

(** Or another thread stops the engine. *)
Definition sys3 : System := with_llm (al_stop false (fun _ => true) (sys_llm sys1)) sys1.

Lemma sys3_reachable : rtc (sys_step text_of encode_text) (initial true) sys3.
Proof.
  eapply rtc_l; [|apply rtc_once; apply step_stop].
  eapply (step_add text_of encode_text (inr [5%Z]) params "a" 0 0); [set_solver|]. vm_compute. reflexivity.
Defined.

Lemma no_one_waits_on_a_dead_core_witness :
  length (sys_adds sys2) = 1 /\
  (forall t, t ∈ sys_adds sys2 -> fut_done (outcome_of (sys_llm sys2) (at_future t)) = true) /\
  al_closing (sys_llm sys3) = true /\ streams (al_processor (sys_llm sys3)) !! 0 = Some [] /\
  forall a q, streams (al_processor (run_scheduled (sys_llm sys3))) !! a = Some q -> ended q.
Proof.
  split; [reflexivity|]. split; [|split; [reflexivity|split; [reflexivity|]]].
  2: { destruct (no_one_waits_on_a_dead_core text_of encode_text true sys3 sys3_reachable) as (_ & Hs & _). apply Hs. reflexivity. }
  destruct (no_one_waits_on_a_dead_core text_of encode_text true sys2 sys2_reachable) as (Hc & _).
  destruct Hc as [Hc _]; [|exact Hc]. left. vm_compute. by eexists.
Defined.

Lemma death_reaches_the_streams_witness :
  exists n s', n <= 1 /\ nsteps handle_turn n sys2 s' /\ is_dead (sys_llm s') = true.
Proof.
  destruct (death_reaches_the_streams text_of encode_text true sys2 sys2_reachable) as (n & s' & Hn & Hs & Hd & _).
  - vm_compute. reflexivity.
  - vm_compute. reflexivity.
  - vm_compute. by eexists.
  - exists n, s'. split; [exact Hn|]. split; [exact Hs | exact Hd].
Defined.
