(* ===== verification/HttpProperties.v ===== *)
(** * Properties of the HTTP server

    What a call leaves behind and what it answers, over every interleaving of
    its coroutine with the rest of the server; and what a body may ask for. *)

From S2P Require Import Prelude Output StopChecker OutputProcessor Core CoreClient AsyncLLM Protocol ApiServer.
From S2P Require Import ApiFacts Instances.

Section Http.
Context `{TokenizerLaws}.
Variable repr_exn : exn -> string.
Variable repr_str : string -> string.
Variable encode : string -> list Z.

(** C22. However a call goes - refused, completed, failed by the engine, dropped,
    streamed to its end, or left by its client before, during or between its
    chunks - its actions are steps of the engine's system, and once it has
    answered the engine's front end knows nothing of its request any more. *)
Theorem call_leaves_no_request has_tokenizer model body ids chat created hex leave schedule s :
  rtc (sys_step repr_exn encode) (initial has_tokenizer) s ->
  request_id chat hex ∉ sys_used s -> Forall (Rely repr_exn encode) schedule ->
  wp (serve repr_exn repr_str encode model body ids chat created hex leave schedule) s (fun a s' =>
    rtc (sys_step repr_exn encode) s s' /\
    (a = AWaiting \/ request_states (al_processor (sys_llm s')) !! request_id chat hex = None)).
Proof.
  intros Hr Hu Hrely. destruct (registered_reachable _ _ _ _ Hr) as [Hi Hreg].
  destruct (serve_spec repr_exn repr_str encode model body ids chat created hex leave schedule s
    Hrely Hi Hu) as (r & s' & Hs & Hrun & Hf & _).
  { apply eq_None_not_Some. intros [st Hst]. by apply Hu, (Hreg _ st). }
  unfold wp. rewrite Hs. split; [exact Hrun|]. destruct Hf as [->|Hf]; [by left | by right].
Qed.

(** C23. The text a client reads, in one reply or over a stream sent to its end,
    is the text of the outputs the engine put in the call's stream, cut before
    the first stop string if one occurs; the finish reason, the token counts
    and the transfer parameters are those of the outputs it took. *)
Theorem answer_is_cut_at_stop has_tokenizer model body ids chat created hex leave schedule s :
  rtc (sys_step repr_exn encode) (initial has_tokenizer) s ->
  request_id chat hex ∉ sys_used s -> Forall (Rely repr_exn encode) schedule ->
  wp (serve repr_exn repr_str encode model body ids chat created hex leave schedule) s (fun a s' =>
    finished_answer a = true ->
    exists q t reason n kv,
      streams (al_processor (sys_llm s')) !! al_next_stream (sys_llm s) = Some q /\
      Completed (stops_of body) (read_stream q).1 t reason n kv /\
      answer_text a = of_text t /\ answer_reason a = Some reason /\
      answer_usage a =
        (if rq_stream body && negb (include_usage body) then None else Some (usage (Zlen ids) n)) /\
      (rq_stream body = false -> answer_kv a = kv)).
Proof.
  intros Hr Hu Hrely. destruct (registered_reachable _ _ _ _ Hr) as [Hi Hreg].
  destruct (serve_spec repr_exn repr_str encode model body ids chat created hex leave schedule s
    Hrely Hi Hu) as (r & s' & Hs & Hrun & _ & Ha).
  { apply eq_None_not_Some. intros [st Hst]. by apply Hu, (Hreg _ st). }
  unfold wp. rewrite Hs. intros Hfin. destruct r as [e|a]; [by destruct e|].
  destruct a; try done; destruct Ha as (q & Hq & Ha);
    destruct (answered_completed _ _ _ _ _ _ _ _ Ha Hfin) as (t & reason & n & kv & Hc);
    exists q, t, reason, n, kv; by split.
Qed.

End Http.

(** The parameters of a validated body pass their own checks. *)
Lemma body_sampling_params_ok b : fields_ok b = true ->
  wp SamplingParams_post_init (body_sampling_params b) (fun _ p => SamplingParamsOk p).
Proof.
  unfold fields_ok. rewrite !andb_true_iff. intros [[[Hm Ht] Hp] Hk].
  destruct (SamplingParams_post_init (body_sampling_params b)) as [[e|[]] p] eqn:Hi.
  - exfalso. unfold SamplingParams_post_init, bind, gets, id, body_sampling_params in Hi. simpl in Hi.
    rewrite Ht, Hm in Hi. simpl in Hi.
    assert (Hp' : Qc_ltb 0 (match rq_top_p b with None => 1%Qc | Some p => p end) &&
      Qc_leb (match rq_top_p b with None => 1%Qc | Some p => p end) 1 = true)
      by by destruct (rq_top_p b).
    assert (Hk' : (-1 <=? match rq_top_k b with None => 0%Z | Some k => k end)%Z = true)
      by by destruct (rq_top_k b).
    rewrite Hp', Hk' in Hi. simpl in Hi. by destruct (Qc_eqb _ 0).
  - unfold wp. rewrite Hi. by eapply SamplingParams_post_init_ok.
Qed.

(** A body that asks for something the server does not implement is refused
    with the first such field's name and reason; any other is validated without
    the no-op fields, and what is then taken makes acceptable sampling
    parameters and asks for one completion. *)
Theorem unsupported_fields_refused {B} (base : B -> BaseRequest) bounds coerce oob d :
  let result := validate_body base bounds coerce oob (PDict d) in
  (exists before row after, UNSUPPORTED = before ++ row :: after /\ asked d row /\
     (forall r, r ∈ before -> ~ asked d r) /\
     result = inl (ValueError (unsupported_message row.1 row.2.2))) \/
  ((forall r, r ∈ UNSUPPORTED -> ~ asked d r) /\
   result = validate_fields base bounds coerce oob (PDict (filter (fun p => p.1 ∉ UNSUPPORTED.*1) d)) /\
   forall b, result = inr b -> rq_n (base b) = 1%Z /\
     wp SamplingParams_post_init (body_sampling_params (base b)) (fun _ p => SamplingParamsOk p)).
Proof.
  intros result. pose proof (refuse_fields_spec UNSUPPORTED d UNSUPPORTED_NoDup) as Hr.
  pose proof (fun b => validate_body_ok base bounds coerce oob (PDict d) b) as Hok.
  unfold result, validate_body, refuse_unsupported in *.
  destruct (for_each UNSUPPORTED refuse_field d) as [[e|[]] d'].
  - left. destruct Hr as (before & row & after & Hu & Ha & Hb & ->). by exists before, row, after.
  - right. destruct Hr as [-> Hall]. split_and!; [done..|]. intros b Hb.
    destruct (Hok b Hb) as [Hf Hn]. split; [done | by apply body_sampling_params_ok].
Qed.

(** ** Witnesses *)

Import Demo.

Definition text_of (e : exn) : string := "error".

(** The core's messages arrive; the output handler takes its turn. *)
Definition messages_arrive (ms : list OutMessage) (s : System) : System :=
  if cl_reading (al_core (sys_llm s))
  then with_llm ((sys_llm s) <| al_core ::= read_outputs text_of ms |>) s else s.

Definition handler_turn (s : System) : System :=
  if al_handling (sys_llm s) then with_llm (handle_output (sys_llm s)).2 s else s.

Lemma messages_rely ms s : rtc (sys_step text_of encode_text) s (messages_arrive ms s).
Proof.
  unfold messages_arrive. destruct (cl_reading _) eqn:Hr; [|constructor].
  by apply rtc_once, step_messages.
Qed.

Lemma turn_rely s : rtc (sys_step text_of encode_text) s (handler_turn s).
Proof.
  unfold handler_turn. destruct (al_handling _) eqn:Hr; [|constructor].
  by apply rtc_once, step_handle.
Qed.

(** A wake with the messages that led to it. *)
Definition wake (ms : list OutMessage) (s : System) : System := handler_turn (messages_arrive ms s).

Definition output_of_tokens (rid : string) (ids : list Z) (reason : option string) : RequestOutput :=
  {| ro_request_id := rid; ro_token_ids := ids; ro_text := ""; ro_finished := bool_decide (is_Some reason);
     ro_finish_reason := reason; ro_metrics := None; ro_kv_transfer_params := None |}.

(** A stream of tokens 5 and 67, then 8, stopped at the text "7". *)
Definition demo_body : BaseRequest :=
  (default_BaseRequest "m") <| rq_stop := Some (inl "7"%string) |> <| rq_stream := true |>.

Definition demo_schedule : list (System -> System) :=
  [wake [OutAdded "cmpl-0" None];
   wake [OutOutputs [output_of_tokens "cmpl-0" [5%Z] None]];
   wake [OutOutputs [output_of_tokens "cmpl-0" [67%Z] None]];
   wake [OutOutputs [output_of_tokens "cmpl-0" [8%Z] (Some "length")]]].

Lemma demo_rely : Forall (Rely text_of encode_text) demo_schedule.
Proof.
  repeat (apply Forall_cons; split;
    [intros s _; eapply rtc_trans; [apply messages_rely | apply turn_rely]|]).
  apply Forall_nil_2.
Qed.

Definition demo_call : M System Answer :=
  serve text_of (fun s => s) encode_text "m" demo_body [5%Z] false 0 "0" WhileWaiting demo_schedule.

Lemma call_leaves_no_request_witness :
  (exists a, (demo_call (initial true)).1 = inr a /\ answer_text a = "56"%string) /\
  wp demo_call (initial true) (fun a s' => a = AWaiting \/
    request_states (al_processor (sys_llm s')) !! "cmpl-0"%string = None).
Proof.
  split; [eexists; split; [vm_compute; reflexivity | reflexivity]|].
  eapply wp_mono; [apply (call_leaves_no_request text_of (fun s => s) encode_text true)|].
  - constructor.
  - apply not_elem_of_empty.
  - exact demo_rely.
  - intros a s' [_ Hf]. exact Hf.
Defined.

Lemma answer_is_cut_at_stop_witness :
  (exists a, (demo_call (initial true)).1 = inr a /\ finished_answer a = true /\
     answer_reason a = Some "stop"%string) /\
  wp demo_call (initial true) (fun a s' => finished_answer a = true ->
    exists q t reason n kv, streams (al_processor (sys_llm s')) !! 0 = Some q /\
      Completed (stops_of demo_body) (read_stream q).1 t reason n kv /\ answer_text a = of_text t).
Proof.
  split; [eexists; split; [vm_compute; reflexivity | split; reflexivity]|].
  eapply wp_mono; [apply (answer_is_cut_at_stop text_of (fun s => s) encode_text true)|].
  - constructor.
  - apply not_elem_of_empty.
  - exact demo_rely.
  - intros a s' Ha Hfin. destruct (Ha Hfin) as (q & t & reason & n & kv & Hq & Hc & Ht & _).
    exists q, t, reason, n, kv. split; [exact Hq|]. split; [exact Hc | exact Ht].
Defined.
