(* ===== verification/RunnerProperties.v ===== *)
(** * Properties of the model runner

    The arrays of a step are its rows' tokens, positions and cache slots, laid
    end to end; attention's two groups are its rows by query length; and a step
    that replays a graph has one that fits. *)

From S2P Require Import Prelude Output Sequence Arrays AttnContext ModelRunner ModelRunnerFacts RunnerInstances.

(** C24. A prepared batch is its rows laid end to end, the rows of the chosen
    query length first: the input tokens of each, with the tokens and drafts
    that the last step left on the device; its positions and cache slots and
    key lengths, moved back by the drafts the device rejected (the host's key
    lengths stay upper bounds); and logits for
    every sampling row's drafts and next token, in the scheduler's order - all
    the tokens of the batch where no choice is made. *)
Theorem batch_is_its_rows r seqs : Ready r seqs ->
  wp (prepare_batch seqs) r (fun b r' =>
    let batch := batch_of r seqs in
    let sampling := filter (fun s => samples s = true) seqs in
    ba_input_ids b = concat (ids_of r <$> batch) /\
    ba_positions b = concat (positions_of r <$> batch) /\
    cx_slot_mapping (ba_context b) = Some (concat ((fun s => slot_of r s <$> positions_of r s) <$> batch)) /\
    (exists start, RowsContext r (ba_context b) start batch /\
       forall s, s ∈ batch -> (start_of r s <= start s <= num_cached_tokens s)%Z) /\
    (let tokens s := pair (seq_id s) <$> positions_of r s in
     match cx_logits_indices (ba_context b) with
     | Some idx => Forall2 (fun i v => py_get (concat (tokens <$> batch)) i = Some v)
                     idx (concat (tail_of tokens <$> sampling))
     | None => concat (tail_of tokens <$> sampling) = concat (tokens <$> batch)
     end) /\
    mr_sampling_rows r' = sampling /\
    (mr_has_proposer r = true -> (mr_spec_inputs r').1 = concat (drafts_of r <$> sampling))).
Proof.
  intros Hready. eapply wp_mono; [by apply prepare_ready|]. intros b r' (start & Hh & -> & ->). cbn zeta.
  cbn [ba_input_ids ba_positions ba_context]. split_and!; try done.
  - exists start. split; [apply device_rows|apply Hh].
  - cbn [device_context context_of cx_logits_indices]. destruct (is_prefill_of r seqs) eqn:Hp.
    2: by apply (decode_logits r seqs (rd_rows _ _ Hready)); [apply (rd_some _ _ Hready)|].
    apply (logits_gather r seqs (rd_rows _ _ Hready)). intros s Hs.
    pose proof (ro_len _ _ (batch_row r seqs (rd_rows _ _ Hready) s Hs)). unfold Zlen.
    rewrite length_fmap. unfold positions_of. rewrite length_seqZ. lia.
  - unfold runner_after. by intros ->.
Qed.

(** C25. Splitting a prepared batch at its query length gives the rows of that
    length to decode attention and the others, all of them, to prefill
    attention, each group in the scheduler's order with its own lengths and
    blocks; and the key lengths that the host plans a prefill's rows with, or
    any row where latents are not decoded, are the device's exact ones. *)
Theorem split_separates_rows r seqs : Ready r seqs ->
  wp (prepare_batch seqs) r (fun b _ =>
    wp (split_decodes_and_prefills (cx_decode_query_len (ba_context b)))
      {| cx_fields := ba_context b; cx_decode_splits := None |} (fun s _ => exists start,
        sp_rows s = Zlen (decode_rows r seqs) /\
        match sp_decodes s with
        | None => decode_rows r seqs = []
        | Some d => RowsContext r d start (decode_rows r seqs) /\
            cx_max_seqlen_q d = cx_decode_query_len (ba_context b)
        end /\
        match prefill_part (ba_context b) (sp_prefills s) with
        | None => other_rows r seqs = []
        | Some p => RowsContext r p start (other_rows r seqs) /\
            (cx_is_prefill (ba_context b) = true -> cx_cu_seqlens_k_host p = cx_cu_seqlens_k p)
        end /\
        (mr_decodes_latents r = false ->
           cx_cu_seqlens_k_host (ba_context b) = cx_cu_seqlens_k (ba_context b)))).
Proof.
  intros Hready. eapply wp_mono; [by apply prepare_ready|]. intros b r' (start & Hh & _ & ->).
  cbn [ba_context]. destruct (device_rows r seqs start) as [w Hb].
  eapply wp_mono; [by eapply split_spec|]. intros s x' (Hsplit & _).
  exists start. destruct (split_rows r seqs start w _ s Hb Hsplit) as (Hrows & Hd & Hp).
  assert (Hexact : forall rows : list Sequence, (forall s, s ∈ rows -> s ∈ batch_of r seqs) ->
    (forall s, s ∈ rows -> mr_decodes_latents r = false \/
       (is_prefill_of r seqs = true /\ num_scheduled_tokens s <> query_len_of r seqs)) ->
    (fun s => start s + num_scheduled_tokens s)%Z <$> rows = end_of r <$> rows).
  { intros rows Hin Hc. apply list_fmap_ext. intros i x Hx. apply list_elem_of_lookup_2 in Hx.
    unfold end_of. by rewrite (hs_exact _ _ _ Hh x (Hin x Hx) (Hc x Hx)). }
  split_and!; [done|done| |].
  - destruct (prefill_part _ _) as [p|]; [|done]. split; [done|]. intros Hpre. destruct Hp as [w' Hp].
    rewrite (bc_k _ _ _ _ _ Hp), (bc_dev_k _ _ _ _ _ Hp). do 2 f_equal. apply Hexact.
    + intros x Hx. unfold batch_of, by_mask. apply elem_of_app. by right.
    + intros x Hx. right. split; [exact Hpre|]. pose proof (other_rows_len r seqs) as Hl.
      rewrite Forall_forall in Hl. by apply Hl.
  - intros Hlat. rewrite (bc_k _ _ _ _ _ Hb), (bc_dev_k _ _ _ _ _ Hb). do 2 f_equal. apply Hexact; [done|]. by left.
Qed.

(** After capture, a step that is said to replay a full graph is a decode
    step of the captured query length, and the least captured size that takes
    its rows exists, within the limits on sequences and tokens; a piecewise
    step's bucket exists, is the least captured size that takes its tokens, and
    is within the token budget. *)
Theorem replay_has_a_size r is_prefill rows q :
  (0 <= mr_num_speculative_tokens r)%Z -> (0 < mr_max_num_batched_tokens r)%Z ->
  let kind := step_kind_of is_prefill (rows * q) q (captured r) in
  (kind = "graph"%string -> is_prefill = false /\ q = (1 + mr_num_speculative_tokens r)%Z /\
     exists size, replay_size (rows * q) (captured r) = Some size /\ size ∈ mr_graph_bs (captured r) /\
       (rows <= size <= mr_max_num_seqs r)%Z /\ (size * q <= mr_max_num_batched_tokens r)%Z /\
       forall other, other ∈ mr_graph_bs (captured r) -> (rows <= other)%Z -> (size <= other)%Z) /\
  (kind = "piecewise"%string ->
     exists size, piecewise_bucket (rows * q) (captured r) = Some size /\
       (rows * q <= size <= mr_max_num_batched_tokens r)%Z /\
       forall other, other ∈ mr_piecewise_bs (captured r) -> (rows * q <= other)%Z -> (size <= other)%Z).
Proof.
  intros Hk Htok kind. pose proof (capture_sizes_sorted (mr_max_num_seqs r) (mr_max_num_batched_tokens r)) as Hsorted.
  pose proof (capture_sizes_bounds (mr_max_num_seqs r) (mr_max_num_batched_tokens r)) as Hbounds.
  assert (Hgs : StronglySorted Z.le (mr_graph_bs (captured r))) by (by do 2 apply filter_sorted).
  split; intros Hkind.
  - destruct (graph_step_spec is_prefill (rows * q) q (captured r) Hkind) as (-> & Hq & largest & Hl & Hle).
    change (mr_graph_query_len (captured r)) with (1 + mr_num_speculative_tokens r)%Z in Hq. split; [done|]. split; [done|].
    destruct (first_at_least_ok rows _ _ Hl) as (size & Hs & Hin & Hrs); [nia|].
    assert (Hrep : replay_size (rows * q) (captured r) = Some size).
    { unfold replay_size. change (mr_graph_query_len (captured r)) with (1 + mr_num_speculative_tokens r)%Z.
      rewrite <-Hq, Z.div_mul by lia. done. }
    exists size. split; [done|]. split; [done|].
    pose proof Hin as Hin'. apply list_elem_of_filter in Hin' as [Hsq Hin']. apply list_elem_of_filter in Hin' as [Hss Hin'].
    rewrite Hq. split_and!; try done. intros other Ho Hro.
    exact (first_at_least_least _ _ _ _ Hgs Hs Ho Hro).
  - destruct (piecewise_step_spec is_prefill (rows * q) q (captured r) Hkind) as (size & Hs & Hf).
    exists size. destruct (first_at_least_in _ _ _ Hf) as [Hin Hle].
    split_and!; [done|done|by apply Hbounds|]. intros other Ho Hro.
    exact (first_at_least_least _ _ _ _ Hsorted Hf Ho Hro).
Qed.

(** ** Witnesses

    A step of three rows after one with drafts: request 1 decodes its pending
    token and two drafts, of which the device rejected one; request 2 runs a
    chunk of its prompt; request 3 ends its prompt. *)

Lemma batch_is_its_rows_witness :
  match (prepare_batch demo_seqs demo_runner).1 with
  | inr b => ba_input_ids b = [91; 82; 83; 33; 34; 35; 21; 22]%Z /\
             ba_positions b = [4; 5; 6; 2; 3; 4; 0; 1]%Z /\
             cx_slot_mapping (ba_context b) = Some [4; 5; 6; 22; 23; 24; 12; 13]%Z
  | inl _ => False
  end.
Proof.
  destruct (wp_run _ _ _ (batch_is_its_rows demo_runner demo_seqs demo_ready))
    as (b & r' & Hrun & Hids & Hpos & Hslots & _).
  rewrite Hrun. cbn [fst]. rewrite Hids, Hpos, Hslots. by vm_compute.
Defined.

Lemma split_separates_rows_witness :
  seq_id <$> decode_rows demo_runner demo_seqs = [1; 3] /\ seq_id <$> other_rows demo_runner demo_seqs = [2] /\
  match (prepare_batch demo_seqs demo_runner).1 with
  | inr b => match (split_decodes_and_prefills 3 {| cx_fields := ba_context b; cx_decode_splits := None |}).1 with
             | inr s => sp_rows s = 2%Z
             | inl _ => False
             end
  | inl _ => False
  end.
Proof.
  split_and!; [by vm_compute..|].
  pose proof (split_separates_rows demo_runner demo_seqs demo_ready) as Hp.
  destruct (wp_run _ _ _ Hp) as (b & r' & Hrun & Hs). rewrite Hrun. cbn [fst].
  assert (Hl : cx_decode_query_len (ba_context b) = 3%Z).
  { assert (He : match (prepare_batch demo_seqs demo_runner).1 with
      | inr b => cx_decode_query_len (ba_context b) = 3%Z | inl _ => False end) by by vm_compute.
    by rewrite Hrun in He. }
  rewrite Hl in Hs. destruct (wp_run _ _ _ Hs) as (s & x & Hsp & start & Hrows & _).
  rewrite Hsp. cbn [fst]. rewrite Hrows. by vm_compute.
Defined.

Lemma replay_has_a_size_witness :
  replay_size 6 (captured demo_runner) = Some 2%Z /\ piecewise_bucket 7 (captured demo_runner) = Some 8%Z.
Proof.
  destruct (replay_has_a_size demo_runner false 2 3) as [Hg _]; [done|done|].
  destruct (replay_has_a_size demo_runner true 7 1) as [_ Hp]; [done|done|].
  destruct Hg as (_ & _ & size & Hs & _ & _ & _ & Hleast); [by vm_compute|].
  destruct Hp as (size' & Hs' & _ & _); [by vm_compute|].
  change (2 * 3)%Z with 6%Z in Hs. change (7 * 1)%Z with 7%Z in Hs'. split; [rewrite Hs|rewrite Hs'].
  - rewrite <-Hs. by vm_compute.
  - rewrite <-Hs'. by vm_compute.
Defined.
