(* ===== verification/LayerProperties.v ===== *)
(** * Properties of the tensor-parallel layers

    A rank's model is its part of the checkpoint, and the ranks together
    compute what one process computes. *)


From Stdlib Require Import Reals.
From S2P Require Import Prelude Arrays Tensors Ranks Linear EmbedHead Qwen3 Qwen3Load Qwen3Facts Attention Moe MLA.
From S2P Require Import MoeFacts MoeRanks MLAFacts Deepseek DeepseekFacts LayerInstances.

(** A step's logits on one rank: the model, then the head on the rows that sample. *)
Definition logits_program {F} `{!Scalar F} `{!Torch F} `{!HeadAttention F} (m : Qwen3ForCausalLM (F := F))
    (ids positions : list Z) (logits_indices : option (list Z)) : Prog F (list (list F)) :=
  pbind (Qwen3_forward m ids positions) (compute_logits m logits_indices).

(** ** One process *)

(** The sizes of a group of one. *)
Definition whole_sizes (n : nat) (z : Sizes) : Sizes :=
  {| hk := n * hk z; gq := gq z; dim := dim z; hid := hid z; im := n * im z; vk := n * vk z |}.

Section One.
Context {F : Type} `{!Scalar F} `{!Torch F} `{!HeadAttention F}.
Local Abbreviation mat := (list (list F)).
Variable n : nat.
Variable z : Sizes.
Variable c : Qwen3Config (F := F).
Hypothesis Hn : 0 < n.

Lemma ConfigOk_one : ConfigOk n z c -> ConfigOk 1 (whole_sizes n z) c.
Proof using Hn. intros [Cq Ckv Cd Ch Ci Cv Ca Cp]. split; simpl; try done; try nia. Qed.

Lemma LayerOk_one ck : LayerOk n z c ck -> LayerOk 1 (whole_sizes n z) c ck.
Proof using.
  clear Hn. intros [Lq Lb Lo Ln Lg Ld Lnorm].
  assert (Hk : forall j k, qkv_rows (whole_sizes n z) !! j = Some k -> exists k', qkv_rows z !! j = Some k' /\ k = n * k').
  { intros j k Hj. destruct j as [|[|[|j]]]; try done; injection Hj as <-; eexists; (split; [done|]); lia. }
  split; simpl; try done.
  - intros j k Hj. destruct (Hk j k Hj) as (k' & Hj' & ->). destruct (Lq j k' Hj'). by rewrite Nat.add_0_r.
  - intros j k Hb Hj. destruct (Hk j k Hj) as (k' & Hj' & ->). rewrite Nat.add_0_r. by apply Lb.
  - destruct Lo as [L1 L2]. split; [done|]. eapply Forall_impl; [exact L2|]. intros r Hr. simpl in *. lia.
  - intros j Hj. destruct (Lg j Hj). by rewrite Nat.add_0_r.
  - destruct Ld as [L1 L2]. split; [done|]. eapply Forall_impl; [exact L2|]. intros r Hr. simpl in *. lia.
Qed.

Lemma CheckpointOk_one ck : CheckpointOk n z c ck -> CheckpointOk 1 (whole_sizes n z) c ck.
Proof using.
  clear Hn. intros [Ke [Kl Ko] Kn Kh]. split; simpl; rewrite ?Nat.add_0_r; try done.
  split; [done|]. eapply Forall_impl; [exact Ko|]. apply LayerOk_one.
Qed.

Lemma mapM_in_range (x : mat) idx : Forall (fun i => (0 <= i < Zlen x)%Z) idx ->
  exists rows, mapM (py_get x) idx = Some rows.
Proof using.
  clear Hn. intros Hi. apply mapM_is_Some_2. eapply Forall_impl; [exact Hi|]. intros i [H0 H1]. simpl.
  rewrite py_get_lookup by done. apply lookup_lt_is_Some. unfold Zlen in H1. lia.
Qed.

(** The logits of the whole model. *)
Definition logits_whole (rope : RotaryEmbedding F) (ck : Checkpoint F) (cs : mat) (ids : list Z) (idx : option (list Z))
    : option mat :=
  h ← model_whole n z c rope ck (fun i => default [] (w_embed ck !! Z.to_nat i)) cs ids;
  rows ← match idx with Some l => mapM (py_get h) l | None => Some h end;
  Some (linear rows (if tie_word_embeddings c then w_embed ck else w_head ck) None).

Lemma logits_spmd rope ck cs ids pos idx y (m : nat -> Qwen3ForCausalLM (F := F)) :
  (exists e, dim z = 2 * e) -> RopeOk z rope -> CheckpointOk n z c ck -> w_layers ck <> [] ->
  (forall i, i < n -> is_part n z c i rope ck (m i)) ->
  mapM (py_get (cos_sin_cache rope)) pos = Some cs -> length ids = length pos ->
  Forall (fun id => (0 <= id < Zlen (w_embed ck))%Z) ids ->
  logits_whole rope ck cs ids idx = Some y ->
  spmd n (fun i => logits_program (m i) ids pos idx) (fun a => forall i, a i = y).
Proof using Hn.
  intros Heven Hrope Hck Hne Hm Hcs Hl Hids Hy. unfold logits_program.
  set (parts i := embedding_part n i (vk z) (hid z) (if tie_word_embeddings c then w_embed ck else w_head ck)).
  apply spmd_ext with (fun i => pbind (Qwen3_forward (model_part n z c i rope ck (lm_head (m i))) ids pos)
    (LMHead_forward (parts i) idx)).
  { intros i Hi. destruct (Hm i Hi) as (h & He & Hh). unfold compute_logits. rewrite Hh.
    rewrite He at 1. by rewrite He. }
  apply spmd_bind. unfold logits_whole in Hy.
  apply (model_spmd n z c rope Hn Heven Hrope ck _ (fun i => default [] (w_embed ck !! Z.to_nat i)) pos cs ids);
    [done|done|done|done| |].
  { intros id Hid. rewrite Forall_forall in Hids. specialize (Hids id Hid). split; [done|].
    destruct (lookup_lt_is_Some_2 (w_embed ck) (Z.to_nat id)) as [r Hr]; [unfold Zlen in Hids; lia|]. by rewrite Hr. }
  intros h Hh [Hhl Hhw]. rewrite Hh in Hy. cbn [mbind option_bind] in Hy.
  destruct (match idx with Some l => mapM (py_get h) l | None => Some h end) as [rows|] eqn:Hrows; [|done].
  injection Hy as <-. destruct Hck as [Ke _ _ Kh].
  apply (head_spmd n (vk z) (hid z) _ h idx rows); [done| | |done| |done].
  - destruct (tie_word_embeddings c); [by destruct Ke|by destruct Kh].
  - destruct (tie_word_embeddings c); [by destruct Ke|by destruct Kh].
  - destruct idx as [l|]; [done|]. by injection Hrows.
Qed.

End One.

Lemma fmap_const {A} (y : A) (a : nat -> A) n : (forall i, a i = y) -> a <$> seq 0 n = replicate n y.
Proof.
  intros Ha. generalize 0. induction n as [|n IH]; intros k; [done|]. simpl. by rewrite Ha, IH.
Qed.

(** C36. Every rank of a tensor-parallel group builds its Qwen3 model and loads it from the checkpoint without an
    error, whatever order the shards of the merged parameters come in, and every parameter ends as the rank's part
    of the checkpoint's tensor, of the shape its layer was built with: the rows of its heads and of its slice of the
    MLP and of the vocabulary, the columns of the row-parallel weights. *)
Theorem ranks_load_their_part {F} `{!Scalar F} `{!Torch F} n z (c : Qwen3Config (F := F)) rope ck os i :
  i < n -> ConfigOk n z c -> CheckpointOk n z c ck -> (forall l, OrdersOk (os l)) ->
  exists m, build (group i n) c rope os ck tt = (inr m, tt) /\ is_part n z c i rope ck m.
Proof.
  intros Hi Hc Hck Hos. destruct (wp_run _ _ _ (build_spec n z c ltac:(lia) Hc i rope ck os tt Hi Hck Hos))
    as (m & s & Hr & -> & Hm). by exists m.
Qed.

(** C35. The ranks of a tensor-parallel group, each running the Qwen3 model it built on its own weights and meeting
    the others in every all-reduce and all-gather, neither hang nor raise, and every rank returns the logits a single
    process with the whole checkpoint returns, in exact arithmetic. *)
Theorem ranks_compute_the_whole {F} `{!Scalar F} `{!Torch F} `{!HeadAttention F} n z (c : Qwen3Config (F := F)) rope ck
    os os1 ids pos idx (m : nat -> Qwen3ForCausalLM (F := F)) m1 :
  0 < n -> ConfigOk n z c -> CheckpointOk n z c ck -> w_layers ck <> [] ->
  (exists e, dim z = 2 * e) -> RopeOk z rope ->
  (forall i l, OrdersOk (os i l)) -> (forall l, OrdersOk (os1 l)) ->
  (forall i, i < n -> build (group i n) c rope (os i) ck tt = (inr (m i), tt)) ->
  build (group 0 1) c rope os1 ck tt = (inr m1, tt) ->
  length ids = length pos -> Forall (fun id => (0 <= id < Zlen (w_embed ck))%Z) ids ->
  Forall (fun p => (0 <= p < Zlen (cos_sin_cache rope))%Z) pos ->
  (forall l, idx = Some l -> Forall (fun i => (0 <= i < Zlen pos)%Z) l) ->
  exists y, run_ranks 1 (fun _ => logits_program m1 ids pos idx) = Some [y] /\
            run_ranks n (fun i => logits_program (m i) ids pos idx) = Some (replicate n y).
Proof.
  intros Hn Hc Hck Hne Heven Hrope Hos Hos1 Hm Hm1 Hl Hids Hpos Hidx.
  pose proof (ConfigOk_one n z c Hn Hc) as Hc1. pose proof (CheckpointOk_one n z c ck Hck) as Hck1.
  assert (Hpart : forall i, i < n -> is_part n z c i rope ck (m i)).
  { intros i Hi. exact (proj2 (wp_elim _ _ _ _ _ (build_spec n z c Hn Hc i rope ck (os i) tt Hi Hck (Hos i)) (Hm i Hi))). }
  assert (Hpart1 : is_part 1 (whole_sizes n z) c 0 rope ck m1).
  { exact (proj2 (wp_elim _ _ _ _ _
      (build_spec 1 (whole_sizes n z) c ltac:(lia) Hc1 0 rope ck os1 tt ltac:(lia) Hck1 Hos1) Hm1)). }
  destruct (mapM_in_range (cos_sin_cache rope) pos Hpos) as [cs Hcs].
  set (row i := default [] (w_embed ck !! Z.to_nat i)).
  assert (Hh : exists h, model_whole n z c rope ck row cs ids = Some h /\ length h = length pos).
  { assert (Hs : spmd n (fun i => Qwen3_forward (model_part n z c i rope ck (lm_head (m i))) ids pos)
      (fun _ => exists h, model_whole n z c rope ck row cs ids = Some h /\ length h = length pos)).
    { apply (model_spmd n z c rope Hn Heven Hrope ck _ row pos cs ids); [done|done|done|done| |].
      - intros id Hid. rewrite Forall_forall in Hids. specialize (Hids id Hid). split; [done|]. unfold row.
        destruct (lookup_lt_is_Some_2 (w_embed ck) (Z.to_nat id)) as [r Hr]; [unfold Zlen in Hids; lia|]. by rewrite Hr.
      - intros h Hh [Hhl _]. by exists h. }
    by destruct Hs as (_ & _ & Hs). }
  destruct Hh as (h & Hh & Hhl).
  assert (Hy : exists y, logits_whole n z c rope ck cs ids idx = Some y).
  { unfold logits_whole. fold row. rewrite Hh. cbn [mbind option_bind]. destruct idx as [l|]; [|by eexists].
    destruct (mapM_in_range h l) as [rows ->]; [|by eexists].
    eapply Forall_impl; [by apply Hidx|]. intros i. unfold Zlen. by rewrite Hhl. }
  destruct Hy as [y Hy]. exists y. split.
  - destruct (logits_spmd 1 (whole_sizes n z) c ltac:(lia) rope ck cs ids pos idx y (fun _ => m1)) as (a & Hr & Ha);
      [done|done|done|done|by intros i Hi; assert (i = 0) as -> by lia|done|done|done| |].
    + rewrite <-Hy. unfold logits_whole, model_whole, whole_sizes. cbn [hk gq dim]. by rewrite Nat.mul_1_l.
    + rewrite Hr. simpl. by rewrite Ha.
  - destruct (logits_spmd n z c Hn rope ck cs ids pos idx y m) as (a & Hr & Ha); try done.
    rewrite Hr. f_equal. by apply fmap_const.
Qed.

(** C39. Rotary embedding turns positions into distances: moving a query and a key by the same number of positions
    leaves their score unchanged, for both pairings of a head's entries and for any frequencies and scale. *)
Theorem rope_is_relative {F} `{!Scalar F} `{!Angles F} freqs (m : F) neox head max rope p p' d (x y : list F) :
  RotaryEmbedding_init fcos fsin head head max freqs m neox tt = (inr rope, tt) ->
  head = 2 * length freqs -> length x = head -> length y = head -> p + d < max -> p' + d < max ->
  dot (rotated_at rope (p + d) x) (rotated_at rope (p' + d) y) = dot (rotated_at rope p x) (rotated_at rope p' y).
Proof.
  intros Hr Hh Hx Hy Hp Hp'. unfold RotaryEmbedding_init in Hr. rewrite Nat.eqb_refl in Hr. injection Hr as <-.
  rewrite Hh in Hx, Hy. rewrite !rotated_score by (done || lia).
  destruct (halves_length neox _ x Hx). destruct (halves_length neox _ y Hy). by apply score_shift.
Qed.

(** An expert layer's ranks, whether each holds a slice of every expert or whole experts of its own, with the
    experts' weights loaded in any order, neither hang nor raise, and their partial sums meet in what one process
    computes: for each token the weighted sum of its routed experts' outputs, plus the shared experts'. The sort
    behind the grouped products need not be stable, and their undefined rows never reach the output. *)
Theorem experts_add_up {F} `{!Scalar F} `{!Torch F} `{!TorchGroups F} experts K d inter ck ep n
    x wts ids sw ms (m : nat -> FusedMoE F) m1 gu gu1 dn dn1 :
  0 < n -> 0 < K -> 0 < experts -> inter mod n = 0 -> (ep = true -> n <= experts) -> ExpertsOk experts d inter ck ->
  wide d x -> length wts = length x /\ wide K wts ->
  length ids = length x /\ wide K ids /\ Forall (Forall (fun i => (0 <= i < Z.of_nat experts)%Z)) ids ->
  (forall w, sw = Some w -> SharedOk d n ms w) ->
  (forall i, gu i ≡ₚ gate_up_loads experts) -> gu1 ≡ₚ gate_up_loads experts ->
  (forall i, dn i ≡ₚ seq 0 experts) -> dn1 ≡ₚ seq 0 experts ->
  (forall i, i < n -> moe_build (group i n) experts K d inter ep (gu i) (dn i) ck tt = (inr (m i), tt)) ->
  moe_build (group 0 1) experts K d inter ep gu1 dn1 ck tt = (inr m1, tt) ->
  let y := moe_whole K d inter ck x wts ids sw in
  run_ranks 1 (fun _ => FusedMoE_forward m1 x wts ids (shared_part 1 0 <$> sw)) = Some [y] /\
  run_ranks n (fun i => FusedMoE_forward (m i) x wts ids (shared_part n i <$> sw)) = Some (replicate n y).
Proof.
  intros Hn HK Hexp Hdiv Hep Hck Hx Hw Hids Hsw Hgu Hgu1 Hdn Hdn1 Hm Hm1 y.
  assert (Hpart : forall i, i < n -> m i = moe_part experts K d inter ck ep n i).
  { intros i Hi. exact (proj2 (wp_elim _ _ _ _ _
      (moe_build_spec experts K d inter ck Hck ep n i (gu i) (dn i) tt Hi Hdiv (Hgu i) (Hdn i)) (Hm i Hi))). }
  assert (Hpart1 : m1 = moe_part experts K d inter ck ep 1 0).
  { exact (proj2 (wp_elim _ _ _ _ _ (moe_build_spec experts K d inter ck Hck ep 1 0 gu1 dn1 tt ltac:(lia)
      ltac:(apply Nat.mod_1_r) Hgu1 Hdn1) Hm1)). }
  split.
  - destruct (moe_spmd experts K d inter ck Hck HK Hexp x wts ids Hx Hw Hids ep 1 sw (n * ms) (fun a => forall i, a i = y))
      as (a & Hr & Ha); [lia|apply Nat.mod_1_r|lia| |done|].
    + intros w Hs. destruct (Hsw w Hs) as [Hg Hu Hd]. split; by rewrite Nat.mul_1_l.
    + rewrite (run_ranks_ext 1 _ (fun i => FusedMoE_forward (moe_part experts K d inter ck ep 1 i) x wts ids (shared_part 1 i <$> sw))).
      * rewrite Hr. simpl. by rewrite Ha.
      * intros i Hi. assert (i = 0) as -> by lia. by rewrite Hpart1.
  - destruct (moe_spmd experts K d inter ck Hck HK Hexp x wts ids Hx Hw Hids ep n sw ms (fun a => forall i, a i = y))
      as (a & Hr & Ha); [done|done|done|done|done|].
    rewrite (run_ranks_ext n _ (fun i => FusedMoE_forward (moe_part experts K d inter ck ep n i) x wts ids (shared_part n i <$> sw))).
    + rewrite Hr. f_equal. by apply fmap_const.
    + intros i Hi. by rewrite Hpart.
Qed.

(** ** Witnesses *)

Lemma ranks_load_their_part_witness :
  exists m, build (group 1 2) Sample.cfg Sample.rope (fun _ => Sample.orders) Sample.ckpt tt = (inr m, tt) /\
    is_part 2 Sample.sizes Sample.cfg 1 Sample.rope Sample.ckpt m.
Proof.
  apply (ranks_load_their_part 2 Sample.sizes Sample.cfg Sample.rope Sample.ckpt (fun _ => Sample.orders) 1);
    [lia|exact Sample.demo_config_ok|exact Sample.ckpt_ok|intros _; exact Sample.orders_ok].
Defined.

Lemma ranks_compute_the_whole_witness :
  exists m0 m1 whole y,
    Sample.built 0 2 = Some m0 /\ Sample.built 1 2 = Some m1 /\ Sample.built 0 1 = Some whole /\
    run_ranks 1 (fun _ => logits_program whole [3; 0; 2]%Z [0; 1; 2]%Z (Some [2]%Z)) = Some [y] /\
    run_ranks 2 (fun i => logits_program (if i =? 0 then m0 else m1) [3; 0; 2]%Z [0; 1; 2]%Z (Some [2]%Z)) =
      Some (replicate 2 y).
Proof.
  destruct (Sample.built 0 2) as [m0|] eqn:E0; [|by vm_compute in E0].
  destruct (Sample.built 1 2) as [m1|] eqn:E1; [|by vm_compute in E1].
  destruct (Sample.built 0 1) as [w|] eqn:E2; [|by vm_compute in E2].
  assert (Hb : forall i n m, Sample.built i n = Some m ->
    build (group i n) Sample.cfg Sample.rope (fun _ => Sample.orders) Sample.ckpt tt = (inr m, tt)).
  { intros i n m Hm. unfold Sample.built in Hm.
    destruct (build (group i n) Sample.cfg Sample.rope (fun _ => Sample.orders) Sample.ckpt tt) as [[e|m'] []]; [done|].
    by injection Hm as ->. }
  enough (exists y, run_ranks 1 (fun _ => logits_program w [3; 0; 2]%Z [0; 1; 2]%Z (Some [2]%Z)) = Some [y] /\
    run_ranks 2 (fun i => logits_program (if i =? 0 then m0 else m1) [3; 0; 2]%Z [0; 1; 2]%Z (Some [2]%Z)) =
      Some (replicate 2 y)) as (y & Hw & Hy) by by exists m0, m1, w, y.
  apply (ranks_compute_the_whole 2 Sample.sizes Sample.cfg Sample.rope Sample.ckpt (fun _ _ => Sample.orders)
    (fun _ => Sample.orders) [3; 0; 2]%Z [0; 1; 2]%Z (Some [2]%Z) (fun i => if i =? 0 then m0 else m1) w).
  - lia.
  - exact Sample.demo_config_ok.
  - exact Sample.ckpt_ok.
  - done.
  - by exists 1.
  - repeat constructor.
  - intros _ _. exact Sample.orders_ok.
  - intros _. exact Sample.orders_ok.
  - intros i Hi. destruct i as [|[|i]]; [by apply Hb|by apply Hb|lia].
  - by apply Hb.
  - done.
  - repeat (constructor; [unfold Zlen; simpl; lia|]); constructor.
  - repeat (constructor; [unfold Zlen; simpl; lia|]); constructor.
  - intros l [= <-]. repeat (constructor; [unfold Zlen; simpl; lia|]); constructor.
Defined.

Lemma rope_is_relative_witness :
  exists rope, RotaryEmbedding_init fcos fsin 4 4 8 [1; / 2]%R 1%R true tt = (inr rope, tt) /\
    dot (rotated_at rope 5 [1; 2; 3; 4]%R) (rotated_at rope 7 [4; 3; 2; 1]%R) =
    dot (rotated_at rope 2 [1; 2; 3; 4]%R) (rotated_at rope 4 [4; 3; 2; 1]%R).
Proof.
  eexists. split; [reflexivity|].
  apply (rope_is_relative [1; / 2]%R 1%R true 4 8 _ 2 4 3); [reflexivity|done|done|done|lia|lia].
Defined.

Lemma experts_add_up_witness :
  exists m0 m1 whole, let y := moe_whole 2 2 2 Sample.expert_weights [[1; 2]; [3; -1]]%Z [[2; 1]; [1; 3]]%Z [[0; 2]; [2; 1]]%Z
      (Some Sample.shared_weights) in
    run_ranks 1 (fun _ => FusedMoE_forward whole [[1; 2]; [3; -1]]%Z [[2; 1]; [1; 3]]%Z [[0; 2]; [2; 1]]%Z
      (Some (shared_part 1 0 Sample.shared_weights))) = Some [y] /\
    run_ranks 2 (fun i => FusedMoE_forward (if i =? 0 then m0 else m1) [[1; 2]; [3; -1]]%Z [[2; 1]; [1; 3]]%Z
      [[0; 2]; [2; 1]]%Z (Some (shared_part 2 i Sample.shared_weights))) = Some (replicate 2 y).
Proof.
  destruct (Sample.moe_built 0 2) as [m0|] eqn:E0; [|by vm_compute in E0].
  destruct (Sample.moe_built 1 2) as [m1|] eqn:E1; [|by vm_compute in E1].
  destruct (Sample.moe_built 0 1) as [w|] eqn:E2; [|by vm_compute in E2].
  exists m0, m1, w.
  apply (experts_add_up 3 2 2 2 Sample.expert_weights true 2 [[1; 2]; [3; -1]]%Z [[2; 1]; [1; 3]]%Z [[0; 2]; [2; 1]]%Z
    (Some Sample.shared_weights) 1 (fun i => if i =? 0 then m0 else m1) w (fun _ => gate_up_loads 3) (gate_up_loads 3)
    (fun _ => seq 0 3) (seq 0 3)).
  - lia.
  - lia.
  - lia.
  - done.
  - lia.
  - split; intros e _; (split; [done|repeat constructor]).
  - repeat constructor.
  - split; [done|repeat constructor].
  - split_and!; [done|repeat constructor|]. repeat (constructor; [repeat (constructor; [lia|]); constructor|]); constructor.
  - intros v [= <-]. split; (split; [done|repeat constructor]).
  - done.
  - done.
  - done.
  - done.
  - intros i Hi. destruct i as [|[|i]]; [by apply Sample.moe_built_eq|by apply Sample.moe_built_eq|lia].
  - by apply Sample.moe_built_eq.
Defined.

(** ** Properties of the DeepSeek layers

    A latent layer built on its rank keeps the promise its two ways to attend
    rest on; an expert layer's ranks mix each token's best experts. *)


(** C37. A DeepSeek attention layer that a rank builds and loads has one projection in two forms: the keys and values
    that it expands cached latents to are those of the rank's own heads under the checkpoint's [kv_b_proj], each key
    ending with the shared rotary entries, and the views that a decode absorbs into its queries and outputs, taken
    of the same parameter after it is loaded, are the same matrices, so that prefill and decode agree. *)
Theorem latents_expand_as_absorbed {F} `{!Scalar F} `{!Torch F} (c : DeepseekConfig F) n N w
    rope scaling mscale budget i :
  i < n -> 0 < N -> dc_num_attention_heads c = n * N ->
  length w = n * N * (dc_qk_nope_head_dim c + dc_v_head_dim c) /\ wide (dc_kv_lora_rank c) w ->
  exists a, attention_build c (group i n) rope scaling mscale w tt = (inr a, tt) /\
    ProjectionsOk (mla_attn a budget) (dc_qk_rope_head_dim c) /\
    forall latent, wide (dc_kv_lora_rank c + dc_qk_rope_head_dim c) latent ->
      DeepseekV2Attention_expand a latent =
        ((fun l => (fun h => whole_key c w (i * N + h) l) <$> seq 0 N) <$> latent,
         (fun l => (fun h => whole_value c w (i * N + h) l) <$> seq 0 N) <$> latent).
Proof.
  intros Hi HN Hh Hw. destruct (wp_run _ _ _ (attention_build_spec c n N w ltac:(lia) HN Hh Hw i rope scaling mscale tt Hi))
    as (a & [] & Ha & _ & Hok).
  exists a. split; [exact Ha|]. split.
  - destruct Hok as [(_ & _ & _ & <- & _) Hkv]. by eapply projections_ok.
  - intros latent Hl. by apply (built_expand c n N w ltac:(lia) HN Hw i a latent Hi Hok).
Qed.

(** C38. Every rank of an expert layer builds and loads it without an error, whatever order the checkpoint's tensors come in, those of
    one parameter among those of the others, for each of the three ways to route; the ranks then choose for each token the same experts: as many as asked, of the
    groups with the best scores, none left out that scores above a chosen one, weighted by their scores (the
    correction bias steering the choice alone), normalised and scaled as configured. Each rank returns what one
    process does: the weighted sum of the token's experts' outputs, and the shared experts'. *)
Theorem ranks_mix_best_experts {F} `{!Scalar F} `{!Torch F} `{!Softmax F} `{!TorchGroups F} `{!Ordered F} `{!TopK F}
    (c : DeepseekConfig F) experts ck n ep (ts : nat -> list MoeTensor) x :
  MoeOk c experts ck n ep -> (forall i, ts i ≡ₚ moe_tensors c experts) -> wide (dc_hidden_size c) x ->
  exists (m : nat -> DeepseekV2MoE F) rows,
    (forall i, i < n -> moe_layer_build (group i n) c experts ep (ts i) ck tt = (inr (m i), tt)) /\
    Forall2 (routed_row c ck) x rows /\
    run_ranks n (fun i => DeepseekV2MoE_forward (m i) x) =
      Some (replicate n (moe_whole (dc_num_experts_per_tok c) (dc_hidden_size c) (dc_moe_intermediate_size c) (mw_experts ck) x
        rows.*1 ((fun r : list F * list nat => Z.of_nat <$> r.2) <$> rows) (shared_of c ck))).
Proof.
  intros Hok Ho Hx. exists (moe_layer_part c experts ck ep n).
  destruct (moe_layer_spmd c experts ck n ep Hok x (fun a => exists rows, Forall2 (routed_row c ck) x rows /\
    a = fun _ => moe_whole (dc_num_experts_per_tok c) (dc_hidden_size c) (dc_moe_intermediate_size c) (mw_experts ck) x
      rows.*1 ((fun r : list F * list nat => Z.of_nat <$> r.2) <$> rows) (shared_of c ck)) Hx) as (a & Hrun & rows & Hrows & ->).
  - intros rows Hrows. by exists rows.
  - exists rows. split_and!; [|done|].
    + intros i Hi. destruct (wp_run _ _ _ (moe_layer_spec c experts ck n ep Hok i (ts i) tt Hi (Ho i))) as (m & [] & Hm & _ & ->). exact Hm.
    + rewrite Hrun. f_equal. by rewrite fmap_const_replicate, length_seq.
Qed.

(** ** Witnesses *)

Lemma deepseek_experts_ok : MoeOk Sample.deepseek_cfg 4 Sample.deepseek_experts 2 true.
Proof.
  split; try done.
  - simpl. repeat split; lia.
  - simpl. lia.
  - unfold method_of, scoring_of. cbn. split; repeat (constructor || apply list_elem_of_further).
  - intros _. cbv. repeat split; lia.
  - split; [done|repeat constructor].
  - split; intros e _; (split; [done|repeat constructor]).
  - split; (split; [done|repeat constructor]).
Qed.

Lemma ranks_mix_best_experts_witness :
  exists (m : nat -> DeepseekV2MoE Z) rows,
    (forall i, i < 2 -> moe_layer_build (group i 2) Sample.deepseek_cfg 4 true Sample.deepseek_tensors Sample.deepseek_experts tt = (inr (m i), tt)) /\
    Forall2 (routed_row Sample.deepseek_cfg Sample.deepseek_experts) [[1; 2]; [3; -1]]%Z rows /\
    run_ranks 2 (fun i => DeepseekV2MoE_forward (m i) [[1; 2]; [3; -1]]%Z) =
      Some (replicate 2 (moe_whole 2 2 2 Sample.expert_weights [[1; 2]; [3; -1]]%Z
        rows.*1 ((fun r : list Z * list nat => Z.of_nat <$> r.2) <$> rows) (Some Sample.shared_weights))).
Proof.
  apply (ranks_mix_best_experts Sample.deepseek_cfg 4 Sample.deepseek_experts 2 true (fun _ => Sample.deepseek_tensors) [[1; 2]; [3; -1]]%Z).
  - exact deepseek_experts_ok.
  - intros _. apply reverse_Permutation.
  - repeat constructor.
Defined.

Lemma latents_expand_as_absorbed_witness :
  exists a, attention_build Sample.deepseek_cfg (group 1 2) {| is_neox_style := false; cos_sin_cache := [] |} 1%Z None (Sample.rows_from 1 4 2) tt = (inr a, tt) /\
    ProjectionsOk (mla_attn a 8) 2 /\
    DeepseekV2Attention_expand a [[1; 2; 5; 6]]%Z = ([[[17; 5; 6]]]%Z, [[[23]]]%Z).
Proof.
  destruct (latents_expand_as_absorbed Sample.deepseek_cfg 2 1 (Sample.rows_from 1 4 2) {| is_neox_style := false; cos_sin_cache := [] |} 1%Z None 8 1)
    as (a & Ha & Hp & He); [lia|lia|done|split; [done|repeat constructor]|].
  exists a. split_and!; [exact Ha|exact Hp|]. rewrite He by repeat constructor. vm_compute. reflexivity.
Defined.
