(* ===== verification/AttentionProperties.v ===== *)
(** * Properties of paged attention

    The portable backend computes causal attention from padded rows and pages,
    and a layer's step over a prepared batch gives every token attention over
    its own sequence. *)

From S2P Require Import Prelude Sequence Arrays AttnContext ModelRunner ModelRunnerFacts Tensors Attention.
From S2P Require Import TorchAttention TorchFacts AttentionFacts StepAttention RunnerInstances LayerInstances.

(** The keys or values that a step adds, of all its sequences. *)
Definition step_entries {F} (r : Runner) (entries : Sequence -> list (list (list F))) (seqs : list Sequence)
    : list (list (list F)) :=
  concat ((fun s => drop (Z.to_nat (start_of r s)) (entries s)) <$> batch_of r seqs).

(** C26. A step of a plain attention layer, of a model without a drafter, over the batch that the runner prepared, on
    any backend that keeps its promises, and whatever the runner found of its latent layers: each token of each sequence attends exactly the sequence's own tokens up to itself, those of earlier
    steps read from the cache's pages; after it the pages hold all the sequences' tokens for the next step, and no
    other slot of the caches has changed. *)
Theorem step_attends_own_tokens {F} `{!Scalar F} `{!Softmax F} `{B : !AttentionBackend F} scale nh nkv d
    `{!BackendOk scale nh nkv d} garbage r seqs t c :
  Ready r seqs -> (forall s, s ∈ seqs -> num_drafts_of s = 0%Z) -> TokensOk r seqs nh nkv d t -> CachesReady r seqs nkv d t c ->
  OwnSlots r seqs ->
  wp (prepare_batch seqs) r (fun b _ =>
    wp (attention_forward garbage (concat (tk_q t <$> batch_of r seqs)) (step_entries r (tk_keys t) seqs)
          (step_entries r (tk_values t) seqs))
      (c, {| cx_fields := ba_context b; cx_decode_splits := None |}) (fun o s =>
        o = concat (own_attention r nh nkv t scale <$> batch_of r seqs) /\
        (forall q, q ∈ batch_of r seqs -> SlotsHold r (k_cache s.1) q (tk_keys t q) (end_of r q) /\
                                          SlotsHold r (v_cache s.1) q (tk_values t q) (end_of r q)) /\
        (forall slot, (0 <= slot)%Z -> slot ∉ concat ((fun s => slot_of r s <$> positions_of r s) <$> batch_of r seqs) ->
           slot_entry (k_cache s.1) slot = slot_entry (k_cache c) slot /\
           slot_entry (v_cache s.1) slot = slot_entry (v_cache c) slot))).
Proof.
  intros Hready Hlat Ht Hc Hown. eapply wp_mono; [by apply prepare_ready|]. intros b r' (start & Hh & _ & ->).
  cbn [ba_context]. destruct (batch_step r seqs nh nkv d Hready t Ht c Hc Hown start Hlat Hh) as (k_lens & Hstep & Hcached).
  assert (Hrows : forall X (f : AttnRow F -> X) g, (forall s, s ∈ batch_of r seqs -> f (attn_row r seqs t s) = g s) ->
    f <$> (attn_row r seqs t <$> batch_of r seqs) = g <$> batch_of r seqs).
  { intros X f g Hf. rewrite <-list_fmap_compose. apply list_fmap_ext. intros i s Hs%list_elem_of_lookup_2. by apply Hf. }
  assert (Hold : forall s, s ∈ batch_of r seqs -> num_old (attn_row r seqs t s) = batch_old r s)
    by (intros s Hs; by apply (attn_row_ok r seqs nh nkv d Hready t Ht)).
  unfold attention_forward, actual_rows, step_entries. wp_steps. cbn [snd cx_num_actual_tokens cx_fields device_context context_of].
  rewrite <-(Hrows _ ar_q (tk_q t)), <-(Hrows _ new_keys), <-(Hrows _ new_values) by
    (intros s Hs; unfold new_keys, new_values; by rewrite ?Hold).
  eapply wp_mono; [by apply (attend_spec scale nh nkv d (attn_row r seqs t <$> batch_of r seqs) c _ k_lens)|].
  intros o s (-> & _ & _ & Hc' & Hheld & Hk & Hv). apply wp_ret.
  pose proof Hc as [Hcaches Hsz Hblk _]. split_and!.
  - unfold id. cbn [cx_fields cx_num_actual_tokens device_context context_of].
    rewrite drop_ge by by rewrite length_fmap, length_seq. rewrite app_nil_r. f_equal. apply Hrows. intros q Hq.
    by apply (own_attention_eq r seqs nh nkv d Hready t Ht).
  - intros q Hq. unfold RowsHeld in Hheld. rewrite Forall_forall in Hheld.
    destruct (Hheld (attn_row r seqs t q)) as [H1 H2]; [by apply list_elem_of_fmap_2|].
    split; apply (held_slots r seqs Hready); try done.
    + by rewrite (sd_size _ _ _ _ Hk).
    + rewrite (sd_size _ _ _ _ Hv). by destruct Hcaches as [_ _ -> _].
  - intros slot H0 Hn. rewrite (slots_eq r seqs nh nkv d Hready t Ht c) in Hk, Hv by done.
    split; [by apply (sd_old _ _ _ _ Hk)|by apply (sd_old _ _ _ _ Hv)].
Qed.

(** C27. The portable backend keeps a backend's promises, for any number of query heads to a key head: storing writes
    the slots it is given and no others; a step's rows, of any lengths, padded to a rectangle and with keys gathered
    from pages under the mask, come out as causal attention of each row over its own keys, and so do a decode
    step's. *)
Theorem torch_attention_is_causal {F} `{!Scalar F} `{!Softmax F} `{!Sdpa F} (self : TorchAttention F) g d :
  0 < ta_num_kv_heads self -> 0 < g -> ta_num_heads self = ta_num_kv_heads self * g ->
  BackendOk (H := torch_backend self) (ta_scale self) (ta_num_heads self) (ta_num_kv_heads self) d.
Proof. intros. by apply (torch_ok self g d). Qed.

(** ** Witnesses *)

(** A token's key and value, from its sequence and position. *)
Definition sample_entry (id : nat) (p : nat) : list (list Z) := [[Z.of_nat (10 * id + p)]].

Definition sample_tokens : Tokens (F := Z) :=
  let all s := sample_entry (seq_id s) <$> seq 0 (Z.to_nat (end_of plain_runner s)) in
  {| tk_q := fun s => replicate (Z.to_nat (num_scheduled_tokens s)) [[1]; [2]]%Z; tk_keys := all; tk_values := all |}.

(** Seven blocks of four: 0 to 2 of the first sequence, 3 and 4 of the second, 5 and 6 of the third. *)
Definition sample_pages : Pages (list (list Z)) :=
  {| pg_size := 4; pg_blocks := (fun b => (fun o =>
       if b <? 3 then sample_entry 1 (4 * b + o)
       else if b <? 5 then sample_entry 2 (4 * (b - 3) + o) else sample_entry 3 (4 * (b - 5) + o)) <$> seq 0 4) <$> seq 0 7 |}.

Definition sample_caches : Caches Z := {| k_cache := sample_pages; v_cache := sample_pages |}.

Lemma in_sample_batch (P : Sequence -> Prop) : Forall P plain_seqs -> forall s, s ∈ batch_of plain_runner plain_seqs -> P s.
Proof. intros Hp s Hs%batch_in. rewrite Forall_forall in Hp. by apply Hp. Qed.

Lemma sample_tokens_ok : TokensOk plain_runner plain_seqs 2 1 1 sample_tokens.
Proof.
  split; apply in_sample_batch; repeat (constructor; [vm_compute; split; [repeat constructor|done]|]); constructor.
Qed.

Lemma sample_held (cache : Pages (list (list Z))) s entries n :
  forallb (fun p => bool_decide (slot_entry cache (slot_of plain_runner s (Z.of_nat p)) = entries !! p)) (seq 0 (Z.to_nat n)) = true ->
  SlotsHold plain_runner cache s entries n.
Proof.
  intros Hall p e Hp He. rewrite forallb_forall in Hall. specialize (Hall p). rewrite bool_decide_eq_true in Hall.
  rewrite Hall; [done|]. apply in_seq. lia.
Qed.

Lemma sample_ready : CachesReady plain_runner plain_seqs 1 1 sample_tokens sample_caches.
Proof.
  split.
  - split; try done; (split; [simpl; lia|]); repeat (constructor; [vm_compute; split; [done|repeat constructor]|]); constructor.
  - done.
  - apply in_sample_batch; repeat (constructor; [simpl; repeat (constructor; [lia|]); constructor|]); constructor.
  - apply in_sample_batch. repeat (constructor; [split; apply sample_held; by vm_compute|]). constructor.
Qed.

Lemma sample_own : OwnSlots plain_runner plain_seqs.
Proof. apply own_within_ok. by vm_compute. Qed.

Lemma step_attends_own_tokens_witness :
  match (prepare_batch plain_seqs plain_runner).1 with
  | inr b => exists c,
      attention_forward (H := torch_backend Sample.attention_layer) (fun _ => [])
        (concat (tk_q sample_tokens <$> batch_of plain_runner plain_seqs))
        (step_entries plain_runner (tk_keys sample_tokens) plain_seqs)
        (step_entries plain_runner (tk_values sample_tokens) plain_seqs)
        (sample_caches, {| cx_fields := ba_context b; cx_decode_splits := None |}) =
      (inr (concat (own_attention plain_runner 2 1 sample_tokens 1%Z <$> batch_of plain_runner plain_seqs)), c)
  | inl _ => False
  end.
Proof.
  pose proof (torch_ok Sample.attention_layer 2 1 ltac:(simpl; lia) ltac:(lia) eq_refl) as Hok.
  destruct (wp_run _ _ _ (step_attends_own_tokens (B := torch_backend Sample.attention_layer) 1%Z 2 1 1 (fun _ => [])
    plain_runner plain_seqs sample_tokens sample_caches plain_ready plain_no_drafts sample_tokens_ok sample_ready sample_own))
    as (b & r' & Hrun & Hs).
  rewrite Hrun. cbn [fst]. destruct (wp_run _ _ _ Hs) as (o & c & Ho & -> & _). by exists c.
Defined.

Lemma torch_attention_is_causal_witness :
  BackendOk (H := torch_backend Sample.attention_layer) 1%Z 2 1 1.
Proof. apply (torch_attention_is_causal Sample.attention_layer 2 1); simpl; lia. Defined.
