(* ===== verification/MLAProperties.v ===== *)
(** * Properties of latent attention

    A step of a latent layer gives every token attention over the keys and
    values that its own sequence's latents stand for, however the step is cut
    into decodes, prompts and chunks of cached latents. *)

From Stdlib Require Import Reals Lra.
From S2P Require Import Prelude Sequence Arrays AttnContext ModelRunner ModelRunnerFacts Tensors Qwen3Facts Attention.
From S2P Require Import MLA TorchAttention AttentionFacts MLAFacts MLAStep StepAttention TorchMLAFacts.
From S2P Require Import RunnerInstances.

(** The latents that a step adds, of all its sequences. *)
Definition step_latents {F} (r : Runner) (t : LatentTokens (F := F)) (seqs : list Sequence) : list (list F) :=
  concat ((fun s => drop (Z.to_nat (start_of r s)) (lk_latents t s)) <$> batch_of r seqs).

(** A latent layer's state as a pass begins: nothing split or planned. *)
Definition fresh_state {F} (c : Pages (list F)) (context : Fields) : MLAState F :=
  {| ms_latents := c; ms_context := {| cx_fields := context; cx_decode_splits := None |}; ms_chunks := None; ms_split_chunks := None |}.

(** C28. A step of a latent attention layer over the batch that the runner prepared, on any backend that keeps its
    promises: however the rows are split into decodes, which attend the latents themselves, and others, whose latents
    expand chunk by chunk and merge by log-sum-exp, each token of each sequence attends exactly the keys and values
    that its own sequence's latents stand for, up to itself; the cache then holds all the sequences' latents, and no
    other slot has changed. *)
Theorem mla_attends_own_latents {F} `{!Scalar F} `{!Softmax F} `{!LogSumExp F} `{B : !AttentionBackend F} `{B' : !MLABackend F}
    (self : MLAAttention F) rope
    `{!MLABackendOk (ma_scale self) (ma_num_heads self) (ma_nope_dim self + rope) (ma_v_head_dim self)
        (ma_kv_lora_rank self + rope) (ma_kv_lora_rank self)} garbage r seqs t c :
  ProjectionsOk self rope -> (0 < ma_max_context_chunk self)%Z ->
  Ready r seqs -> (mr_decodes_latents r = true -> supports_mla_decode = true) -> LatentTokensOk r seqs self rope t ->
  LatentsReady r seqs self rope t c -> OwnSlots r seqs ->
  wp (prepare_batch seqs) r (fun b _ =>
    wp (mla_forward self garbage (concat (lk_q t <$> batch_of r seqs)) (step_latents r t seqs)) (fresh_state c (ba_context b)) (fun o s =>
      o = concat (own_latent_attention r self t <$> batch_of r seqs) /\
      (forall q, q ∈ batch_of r seqs -> SlotsHold r (ms_latents s) q (lk_latents t q) (end_of r q)) /\
      (forall slot, (0 <= slot)%Z -> slot ∉ concat ((fun s => slot_of r s <$> positions_of r s) <$> batch_of r seqs) ->
         slot_entry (ms_latents s) slot = slot_entry c slot))).
Proof.
  intros Hp Hbudget Hready Hsup Ht Hc Hown. eapply wp_mono; [by apply prepare_ready|]. intros b r' (start & Hh & _ & ->).
  cbn [ba_context]. destruct (batch_latent_step r seqs self rope Hready t Ht c Hc Hown start Hsup Hh) as [Hstep Hkept].
  assert (Hrows : forall X (f : MLARow F -> X) g, (forall s, s ∈ batch_of r seqs -> f (latent_of r seqs t s) = g s) ->
    f <$> (latent_of r seqs t <$> batch_of r seqs) = g <$> batch_of r seqs).
  { intros X f g Hf. rewrite <-list_fmap_compose. apply list_fmap_ext. intros i s Hs%list_elem_of_lookup_2. by apply Hf. }
  unfold mla_forward, actual_rows, step_latents. wp_steps. cbn [ms_context fresh_state cx_num_actual_tokens cx_fields device_context context_of].
  rewrite <-(Hrows _ ml_q (lk_q t)), <-(Hrows _ new_latents) by (try done; intros s Hs; unfold new_latents;
    by destruct (latent_of_ok r seqs self rope Hready t Ht s Hs) as (_ & -> & _)).
  eapply wp_mono; [by apply (mla_attend_ok self rope Hp Hbudget _ (host_ends r seqs start) (fresh_state c (device_context r seqs start)) Hstep), Hkept|].
  intros o s (-> & _ & _ & _ & Hheld & Hst). apply wp_ret. cbn [ms_latents fresh_state] in Hst.
  rewrite drop_ge by by rewrite length_fmap, length_seq. rewrite app_nil_r. split_and!.
  - f_equal. rewrite <-list_fmap_compose. apply Hrows. intros q Hq. by apply (own_latent_attention_eq r seqs self rope Hready t Ht).
  - intros q Hq. apply (held_slots r seqs Hready); [|done|].
    + rewrite (sd_size _ _ _ _ Hst). apply (ly_size _ _ _ _ _ _ Hc).
    + rewrite Forall_forall in Hheld. apply (Hheld (latent_of r seqs t q)). by apply list_elem_of_fmap_2.
  - intros slot H0 Hn. rewrite (latent_slots r seqs self rope Hready t Ht c Hc) in Hst. by apply (sd_old _ _ _ _ Hst).
Qed.

(** C29. The portable backend keeps a backend's promises to a latent layer: stored latents go to their slots and
    nowhere else; attention with its log-sum-exp, written out over padded rows with masked scores, is the softmax
    attention of each row over the keys that its queries see, and the logarithm of its total weight; attention over
    the latents as they are, in rows of several queries, is causal over each row's own. *)
Theorem torch_attends_latents {F} `{!Scalar F} `{!Softmax F} `{!LogSumExp F} `{!Sdpa F} (self : TorchAttention F) nh d e lat L :
  0 < nh -> ta_num_heads self = nh -> ta_num_kv_heads self = nh ->
  MLABackendOk (AttentionBackend0 := torch_backend self) (MLABackend0 := torch_mla self) (ta_scale self) nh d e lat L.
Proof. intros. by apply torch_mla_ok. Qed.

(** ** Witnesses: the reals *)

#[export] Instance R_softmax : Softmax R := {| fexp := exp; finv := Rinv |}.

#[export, program] Instance R_log : LogSumExp R := {| flog := ln; nan := 0%R; positive := fun x => (0 < x)%R |}.
Next Obligation. apply exp_pos. Qed.
Next Obligation. intros x y Hx Hy. by apply Rplus_lt_0_compat. Qed.
Next Obligation. intros x Hx. simpl. apply Rinv_r. lra. Qed.
Next Obligation. apply exp_ln. Qed.
Next Obligation. intros x y. simpl. unfold Rminus. by rewrite exp_plus, exp_Ropp. Qed.

#[export, program] Instance R_sdpa : Sdpa R := {|
  sdpa := fun q k v mask scale => zip_with (fun qi mi => attend_over scale qi (masked (zip k v) mi)) q mask |}.
Next Obligation. intros q k v mask scale d e i qi mi _ _ _ _ _ _ Hq Hm _. simpl. by rewrite lookup_zip_with, Hq, Hm. Qed.

(** One head: keys of a latent entry and a position entry, values of one; latents expand by two numbers. *)
Definition demo_projections : Projections R := {| pj_W_UK_T := [[[2%R]]]; pj_W_UV := [[[3%R]]] |}.

Definition demo_layer : MLAAttention R :=
  {| ma_num_heads := 1; ma_head_dim := 2; ma_v_head_dim := 1; ma_scale := 1%R; ma_nope_dim := 1; ma_kv_lora_rank := 1;
     ma_expand := fun l =>
       ((fun c => (fun w : list (list R) => ((fun r => dot r (take 1 c)) <$> w) ++ drop 1 c) <$> pj_W_UK_T demo_projections) <$> l,
        (fun c => (fun w => row_times 1 (take 1 c) w) <$> pj_W_UV demo_projections) <$> l);
     ma_latent_projections := demo_projections; ma_max_context_chunk := 4 |}.

Definition demo_backend : TorchAttention R := {| ta_num_heads := 1; ta_head_dim := 2; ta_scale := 1%R; ta_num_kv_heads := 1 |}.

(** A token's latent, from its sequence and position. *)
Definition demo_latent (n : Z) : list R := [IZR n; 1%R].
Definition demo_number (id p : nat) : Z := Z.of_nat (10 * id + p).
Definition demo_numbers (s : Sequence) : list Z := demo_number (seq_id s) <$> seq 0 (Z.to_nat (end_of demo_runner s)).

Definition demo_tokens : LatentTokens (F := R) :=
  {| lk_q := fun s => replicate (Z.to_nat (num_scheduled_tokens s)) [[1%R; 1%R]]; lk_latents := fun s => demo_latent <$> demo_numbers s |}.

(** Seven blocks of four: 0 to 2 of the first sequence, 3 and 4 of the second, 5 and 6 of the third. *)
Definition demo_pages : Pages Z :=
  {| pg_size := 4; pg_blocks := (fun b => (fun o =>
       if b <? 3 then demo_number 1 (4 * b + o)
       else if b <? 5 then demo_number 2 (4 * (b - 3) + o) else demo_number 3 (4 * (b - 5) + o)) <$> seq 0 4) <$> seq 0 7 |}.

Definition map_pages {E E'} (f : E -> E') (c : Pages E) : Pages E' :=
  {| pg_size := pg_size c; pg_blocks := (fun b : list E => f <$> b) <$> pg_blocks c |}.

Lemma map_pages_hold {E E'} (f : E -> E') r (c : Pages E) s entries n :
  SlotsHold r c s entries n -> SlotsHold r (map_pages f c) s (f <$> entries) n.
Proof.
  intros Hh p e Hp He. rewrite list_lookup_fmap in He. destruct (entries !! p) as [x|] eqn:Hx; [|done]. injection He as <-.
  pose proof (Hh p x Hp Hx) as Hs. unfold slot_entry in *. simpl. rewrite list_lookup_fmap.
  destruct (pg_blocks c !! _) as [b|]; [|done]. simpl in *. by rewrite list_lookup_fmap, Hs.
Qed.

Lemma in_demo_batch (Q : Sequence -> Prop) : Forall Q demo_seqs -> forall s, s ∈ batch_of demo_runner demo_seqs -> Q s.
Proof. intros Hq s Hs%batch_in. rewrite Forall_forall in Hq. by apply Hq. Qed.

Lemma demo_tokens_ok : LatentTokensOk demo_runner demo_seqs demo_layer 1 demo_tokens.
Proof.
  split; intros s Hs; destruct (batch_ok demo_runner demo_seqs demo_ready s Hs) as [Hr _]; pose proof (ro_len _ _ Hr); pose proof (ro_start _ _ Hr).
  - split.
    + by apply Forall_replicate; split; [|repeat constructor].
    + unfold Zlen. simpl. rewrite length_replicate. lia.
  - split.
    + apply Forall_fmap, Forall_forall. by intros n _.
    + unfold Zlen. simpl. unfold demo_numbers. rewrite !length_fmap, length_seq. unfold end_of. lia.
Qed.

Lemma demo_latents_ready : LatentsReady demo_runner demo_seqs demo_layer 1 demo_tokens (map_pages demo_latent demo_pages).
Proof.
  split.
  - split; [simpl; lia|]. apply Forall_fmap. unfold demo_pages. cbn [pg_blocks pg_size]. apply Forall_fmap, Forall_forall. intros b _.
    unfold compose. split; [by rewrite !length_fmap|]. apply Forall_fmap, Forall_forall. by intros n _.
  - done.
  - apply in_demo_batch; repeat (constructor; [simpl; repeat (constructor; [lia|]); constructor|]); constructor.
  - intros s Hs. apply map_pages_hold. revert s Hs. apply in_demo_batch.
    assert (Hc : forall s, forallb (fun p => bool_decide (slot_entry demo_pages (slot_of demo_runner s (Z.of_nat p)) = demo_numbers s !! p))
        (seq 0 (Z.to_nat (start_of demo_runner s))) = true -> SlotsHold demo_runner demo_pages s (demo_numbers s) (start_of demo_runner s)).
    { intros s Hall p e Hp He. rewrite forallb_forall in Hall. specialize (Hall p). rewrite bool_decide_eq_true in Hall.
      rewrite Hall; [done|]. apply in_seq. lia. }
    repeat (constructor; [apply Hc; by vm_compute|]). constructor.
Qed.

Lemma demo_own : OwnSlots demo_runner demo_seqs.
Proof. apply own_within_ok. by vm_compute. Qed.

Lemma demo_projections_ok : ProjectionsOk demo_layer 1.
Proof. split; simpl; try done; repeat constructor. Qed.

Lemma mla_attends_own_latents_witness :
  match (prepare_batch demo_seqs demo_runner).1 with
  | inr b => exists s,
      mla_forward (AttentionBackend0 := torch_backend demo_backend) (H := torch_mla demo_backend) demo_layer (fun _ => [])
        (concat (lk_q demo_tokens <$> batch_of demo_runner demo_seqs)) (step_latents demo_runner demo_tokens demo_seqs)
        (fresh_state (map_pages demo_latent demo_pages) (ba_context b)) =
      (inr (concat (own_latent_attention demo_runner demo_layer demo_tokens <$> batch_of demo_runner demo_seqs)), s)
  | inl _ => False
  end.
Proof.
  pose proof (torch_mla_ok demo_backend 1 2 1 2 1 ltac:(simpl; lia)) as Hok.
  destruct (wp_run _ _ _ (mla_attends_own_latents (B := torch_backend demo_backend) (B' := torch_mla demo_backend) demo_layer 1 (fun _ => [])
    demo_runner demo_seqs demo_tokens (map_pages demo_latent demo_pages) demo_projections_ok eq_refl demo_ready (fun _ => eq_refl)
    demo_tokens_ok demo_latents_ready demo_own)) as (b & r' & Hrun & Hs).
  rewrite Hrun. cbn [fst]. destruct (wp_run _ _ _ Hs) as (o & s & Ho & -> & _). by exists s.
Defined.

Lemma torch_attends_latents_witness :
  MLABackendOk (AttentionBackend0 := torch_backend demo_backend) (MLABackend0 := torch_mla demo_backend) 1%R 1 2 1 2 1.
Proof. apply (torch_attends_latents demo_backend 1 2 1 2 1); simpl; lia. Defined.
