(* ===== verification/DrafterProperties.v ===== *)
(** * Properties of a step with its drafts

    What [run] samples, verifies and drafts: one text for each sequence, by its
    own parameters, whatever path the passes take and whatever else shares the
    batch. *)

From S2P Require Import Prelude Output Sequence SpecDecode Arrays AttnContext ModelRunner ModelRunnerFacts Tensors.
From S2P Require Import Attention Moe MLA TorchAttention TorchFacts AttentionFacts MLAFacts MLAStep StepAttention.
From S2P Require Import Passes Proposer ProposerFacts DrafterStep Sampler ModelStep ModelStepFacts RunnerInstances.
From S2P Require Import LayerInstances.

(** C34. [propose] on the inputs that the runner prepared, over any drafter whose layers keep their passes'
    promises, as many as it has: whatever buckets and graphs its passes go through, a sampling row's first draft is what layer 0
    makes of the row's own kept tokens, and the draft of each later pass [step] what layer [step mod num_mtp_layers] makes of the
    one before, after the entries that this layer's cache has of the row's earlier positions. The first pass leaves in layer 0's
    cache the kept tokens' entries and changes no slot but the batch's new tokens'; with one layer, the drafts follow from
    the kept tokens alone, whatever the rejected drafts left. Afterwards layer 0's cache holds, for every row, the entries
    of its kept tokens, up to the first slot a draft may take; in every layer's cache only slots of the batch's own rows have
    changed, the module's context is the one before, and the buffers are ready for the next step. *)
Theorem drafts_are_autoregressive {F H E} `{!Ordered F} `{!Drafter F H E} (cell : nat -> list E -> Z * H -> E * H) latents
    `{!DrafterOk cell latents} (r : Runner) (seqs : list Sequence) (d : DraftStep) (gbs pbs : list Z) (p : Proposer H E) (start : Sequence -> Z) :
  DraftReady (latents := latents) r seqs d gbs pbs p -> HostStart r seqs start ->
  let sampled := filter (fun s => samples s = true) seqs in
  let drafts first s := drafts_from cell r d (dv_cache (pp_device p)) first s in
  wp (propose (drafter_inputs r seqs start) (device_context r seqs start) (concat (st_hid d <$> batch_of r seqs))
       (st_acc d <$> sampled) (st_next d <$> sampled)) p
    (fun rows p' => exists first, FirstDone cell r seqs d p first /\ rows = drafts first <$> sampled /\
       (num_mtp_layers = 1%Z -> forall other s, s ∈ sampled -> drafts first s = drafts other s) /\
       StepDone cell r seqs d gbs pbs p p').
Proof.
  intros Hok Hstart sampled drafts. eapply wp_mono; [exact (propose_ok cell r seqs d gbs pbs p Hok start Hstart)|].
  intros rows p' (first & Hfirst & Hrows & Hdone). exists first. split_and!; [done|done| |done].
  intros Hn other s Hs. by apply (one_layer_drafts cell r seqs d gbs pbs p Hok).
Qed.

(** The step of [demo_seqs], with a drafter of two layers, a graph of the second for its two rows, and a bucket for its eight tokens. *)
Definition sample_cell (layer : nat) (es : list Z) (x : Z * Z) : Z * Z := ((x.1 + x.2)%Z, (Zsum es + x.1 + 2 * Z.of_nat layer)%Z).
Definition sample_head (h : Z) : list Z := (fun k => (h + 3 * k) mod 11)%Z <$> seqZ 0 6.
#[local] Instance sample_drafter : Drafter Z Z Z := paged_drafter 2 sample_cell 0%Z sample_head.

Definition sample_hist (s : Sequence) : list Z := replicate (Z.to_nat (start_of demo_runner s)) 0%Z.

Definition sample_step : DraftStep (H := Z) (E := Z) :=
  {| st_hist := sample_hist; st_hid s := seqZ 1 (num_scheduled_tokens s);
     st_acc s := if seq_id s =? 1 then 1%Z else 0%Z; st_next s := (100 + Z.of_nat (seq_id s))%Z |}.

Definition sample_cache : Pages Z := {| pg_size := 4; pg_blocks := replicate 8 (replicate 4 0%Z) |}.
Definition second_cache : Pages Z := {| pg_size := 4; pg_blocks := replicate 8 (replicate 4 1%Z) |}.

Definition sample_proposer : Proposer Z Z :=
  {| pp_num_speculative_tokens := 2; pp_block_size := 4; pp_max_model_len := 32; pp_graph_bs := [2; 4]%Z; pp_piecewise_bs := [9; 16]%Z;
     pp_piecewise_vars := Some {| pv_input_ids := replicate 16 0%Z; pv_positions := replicate 16 0%Z; pv_hidden_states := replicate 16 0%Z |};
     pp_graph_vars := Some {| dg_input_ids := replicate 4 0%Z; dg_positions := replicate 4 0%Z; dg_hidden_states := replicate 4 0%Z;
       dg_slot_mapping := replicate 4 0%Z; dg_context_lens := replicate 4 32%Z; dg_block_tables := replicate 4 (replicate 8 0%Z);
       dg_outputs := replicate 4 0%Z |};
     pp_graphs := [(1, 2); (1, 4)]%Z;
     pp_device := {| dv_cache := [sample_cache; second_cache]; dv_context := fresh default_Fields |} |}.

Lemma for_rows (P : Sequence -> Prop) : Forall P demo_seqs -> forall s, s ∈ demo_seqs -> P s.
Proof. by rewrite Forall_forall. Qed.

Lemma for_batch (P : Sequence -> Prop) : Forall P demo_seqs -> forall s, s ∈ batch_of demo_runner demo_seqs -> P s.
Proof. intros Hf s Hin%batch_in. by apply (for_rows P). Qed.

#[local] Ltac each_row H :=
  let s := fresh in let Hin := fresh in intros s Hin; pattern s; refine (H _ _ s Hin); clear s Hin; repeat apply Forall_cons_2; [..|constructor].

(** Where every slot that a row reads holds 0. *)
Lemma zeros_slots r s : forallb (fun q => bool_decide (slot_entry sample_cache (slot_of r s (Z.of_nat q)) = Some 0%Z)) (seq 0 (Z.to_nat (start_of r s))) = true ->
  SlotsHold r sample_cache s (replicate (Z.to_nat (start_of r s)) 0%Z) (start_of r s).
Proof.
  intros Hb q e Hq He. assert (e = 0%Z) as -> by by apply lookup_replicate in He as [-> _]. rewrite forallb_forall in Hb.
  eapply bool_decide_eq_true_1, Hb, list_elem_of_In, elem_of_seq. lia.
Qed.

Lemma zeros_held s : s ∈ batch_of demo_runner demo_seqs -> SlotsHold demo_runner sample_cache s (sample_hist s) (start_of demo_runner s).
Proof.
  intros Hin. assert (Hc : Forall (fun s => forallb (fun q => bool_decide (slot_entry sample_cache
    (slot_of demo_runner s (Z.of_nat q)) = Some 0%Z)) (seq 0 (Z.to_nat (start_of demo_runner s))) = true) demo_seqs).
  { repeat apply Forall_cons_2; [..|constructor]; by vm_compute. }
  by apply zeros_slots, (for_batch _ Hc s Hin).
Qed.

(** Whatever its rows keep, a drafter's step on them is ready. *)
Lemma zeros_ready d : st_hist d = sample_hist ->
  (forall s, s ∈ demo_seqs -> samples s = true -> (0 <= st_acc d s <= num_drafts_of s)%Z) ->
  (forall s, s ∈ batch_of demo_runner demo_seqs -> Zlen (st_hid d s) = num_scheduled_tokens s) ->
  DraftReady (latents := true) demo_runner demo_seqs d [2; 4]%Z [9; 16]%Z sample_proposer.
Proof.
  intros Hh Hacc Hhid. split; try done.
  - apply demo_ready.
  - each_row for_rows; vm_compute; intuition congruence.
  - rewrite Hh. each_row for_batch; by vm_compute.
  - rewrite Hh. intros c s [= <-]. apply zeros_held.
  - apply own_within_ok. by vm_compute.
  - each_row for_batch; by vm_compute.
  - intros c s Hc. assert (length (pg_blocks c) = 8) as ->.
    { revert c Hc. apply Forall_forall. by repeat constructor. }
    revert s. each_row for_batch; repeat constructor; simpl; lia.
  - each_row for_batch; by vm_compute.
  - apply Forall_forall. by repeat constructor.
  - assert (Hl : forall c, c ∈ dv_cache (pp_device sample_proposer) -> length (pg_blocks c) = 8) by (apply Forall_forall; by repeat constructor).
    intros c c' Hc Hc'. by rewrite !Hl.
  - split; try done.
    + intros _. eexists. split; [reflexivity|]. split; [|exists 8%Z; split; [by repeat constructor|done]].
      exists 4. split_and!; try done. repeat (apply Forall_cons_2; [split; [lia|]|]); [| |done]; intros step Hstep; cbn in Hstep;
        assert (step = 1%Z) as -> by lia; set_solver.
    + intros _. eexists. split; [reflexivity|]. split. exists 16. split_and!; try done. by repeat constructor.
Qed.

Lemma sample_draft_ready : DraftReady (latents := true) demo_runner demo_seqs sample_step [2; 4]%Z [9; 16]%Z sample_proposer.
Proof. apply zeros_ready; [done|each_row for_rows; vm_compute; intuition congruence|each_row for_batch; by vm_compute]. Qed.

Lemma drafts_are_autoregressive_witness :
  let sampled := filter (fun s => samples s = true) demo_seqs in exists first p',
  propose (drafter_inputs demo_runner demo_seqs (start_of demo_runner)) (device_context demo_runner demo_seqs (start_of demo_runner))
     (concat (st_hid sample_step <$> batch_of demo_runner demo_seqs)) (st_acc sample_step <$> sampled) (st_next sample_step <$> sampled)
     sample_proposer = (inr [[4; 3]; [0; 1]]%Z, p') /\
  FirstDone sample_cell demo_runner demo_seqs sample_step sample_proposer first /\
  StepDone sample_cell demo_runner demo_seqs sample_step [2; 4]%Z [9; 16]%Z sample_proposer p'.
Proof.
  pose proof (paged_drafter_ok 2 sample_cell 0%Z sample_head true ltac:(lia)) as Hok.
  destruct (wp_run _ _ _ (drafts_are_autoregressive sample_cell true demo_runner demo_seqs sample_step [2; 4]%Z [9; 16]%Z sample_proposer
    (start_of demo_runner) sample_draft_ready (exact_HostStart demo_runner demo_seqs (rd_rows _ _ demo_ready))))
    as (drafts & p' & Hrun & first & Hfirst & Hd & _ & Hdone).
  exists first, p'. split; [|split; [exact Hfirst|exact Hdone]]. rewrite Hrun, Hd. by vm_compute.
Defined.

(** C30. A whole step of [run] with a drafter and greedy temperatures, over any model and drafter that keep their
    passes' promises: from a state whose caches hold each row's earlier entries, on whatever path the pass takes (directly, in a
    bucket, or replaying a full graph over its buffers), the call returns, and a sampling row's result is the model's own greedy
    continuation of that sequence, whatever had been drafted for it: as many tokens as drafts that it would have chosen itself, and
    one more, then placeholders, then the row's new drafts, from the kept tokens by the drafter's layers in turn. Afterwards the
    caches hold the new tokens' entries, slots of other rows are untouched, the drafts, the next tokens and the numbers of
    rejected drafts are what the next step reads, and the context and the buffers are ready for it. *)
Theorem step_decodes_greedily {F H E E'} `{!Scalar F} `{!Softmax F} `{!Ordered F} `{!Sampling F} `{!TargetModel F H E} `{!Drafter F H E'} (cell : list E -> Z * unit -> E * H)
    (drafter_cell : nat -> list E' -> Z * H -> E' * H) latents `{!TargetOk cell latents} `{!DrafterOk drafter_cell latents}
    (r : Runner) (seqs : list Sequence) (hist : Sequence -> list E) (drafter_hist : Sequence -> list E') (mw : Z) (gbs pbs : list Z)
    (p : Proposer H E') (s0 : ModelRunner H E E') (coin : list F) (noise : list (list F)) :
  let step := decoded_step cell r hist drafter_hist in
  let sampled := filter (fun s => samples s = true) seqs in
  StepReady (latents := latents) r seqs hist mw s0 -> md_proposer s0 = Some p -> DraftReady (latents := latents) r seqs step gbs pbs p ->
  (forall s, s ∈ sampled -> (num_drafts_of s <= mr_num_speculative_tokens r)%Z) -> Forall (fun s => temperature s = 0%Qc) seqs ->
  wp (run coin noise seqs) s0 (fun rows s => exists first, FirstDone drafter_cell r seqs step p first /\
    rows = (fun x => spec_row (mr_num_speculative_tokens r) (decoded cell r hist x)
                       (drafts_from drafter_cell r step (dv_cache (pp_device p)) first x)) <$> sampled /\
    Decoded cell drafter_cell r seqs hist drafter_hist mw s0 gbs pbs p first s).
Proof. intros step sampled Hok Hp Hd Hk Ht. by apply (run_decodes cell drafter_cell r seqs hist drafter_hist mw s0). Qed.

(** The same step, from the start: a prompt and a sequence with two drafts, of which it keeps one. *)
Definition step_cell (es : list Z) (x : Z * unit) : Z * Z := (x.1, (Zsum es + x.1)%Z).
Definition step_head (h : Z) : list Z := (fun k => if k =? (h + 81) mod 90 then 1 else 0)%Z <$> seqZ 0 90.
(** Greedy rows draw nothing. *)
#[local] Instance no_exponentials : Softmax Z := {| fexp := id; finv := id |}.
#[local] Instance no_sampling : Sampling Z := {| of_Qc := fun _ => 0%Z; argsort := fun l => seq 0 (length l) |}.
#[local] Instance sample_target : TargetModel Z Z Z := paged_target step_cell 0%Z step_head.

Definition sample_start : ModelRunner Z Z Z :=
  {| md_host := demo_runner; md_device := {| dv_cache := sample_cache; dv_context := fresh default_Fields |};
     md_graph_vars := Some {| gv_input_ids := replicate 12 0%Z; gv_positions := replicate 12 0%Z; gv_slot_mapping := replicate 12 0%Z;
       gv_context_lens := replicate 4 32%Z; gv_block_tables := replicate 4 (replicate 8 0%Z); gv_outputs := replicate 12 0%Z |};
     md_graphs := [2; 4]%Z; md_piecewise_vars := Some (replicate 16 0%Z, replicate 16 0%Z); md_hidden_states := None;
     md_proposer := Some sample_proposer |}.

Lemma sample_step_ready : StepReady (latents := true) demo_runner demo_seqs sample_hist 8 sample_start.
Proof.
  split; try done.
  - apply demo_ready.
  - each_row for_batch; by vm_compute.
  - apply zeros_held.
  - apply own_within_ok. by vm_compute.
  - each_row for_batch; repeat constructor; simpl; lia.
  - split; [repeat constructor|done].
  - split.
    + intros _. eexists. split; [reflexivity|]. split; [exists 4; split_and!; try done; repeat constructor; lia|by repeat constructor].
    + intros _. eexists _, _, 16. split_and!; try done. by repeat constructor.
Qed.

Lemma sample_decoded_ready :
  DraftReady (latents := true) demo_runner demo_seqs (decoded_step step_cell demo_runner sample_hist sample_hist) [2; 4]%Z [9; 16]%Z sample_proposer.
Proof. apply zeros_ready; [done|each_row for_rows; vm_compute; intuition congruence|each_row for_batch; by vm_compute]. Qed.

Lemma sample_spec_ids s : s ∈ filter (fun s => samples s = true) demo_seqs -> (num_drafts_of s <= 2)%Z.
Proof. intros [_ Hs]%list_elem_of_filter. revert s Hs. each_row for_rows; by vm_compute. Qed.

Lemma sample_greedy : Forall (fun s => temperature s = 0%Qc) demo_seqs.
Proof. by repeat constructor. Qed.

Lemma step_decodes_greedily_witness : exists first s,
  run [] [] demo_seqs sample_start = (inr [[82; 74; -1; 5; 2]; [3; -1; -1; 1; 4]]%Z, s) /\
  Decoded step_cell sample_cell demo_runner demo_seqs sample_hist sample_hist 8 sample_start [2; 4]%Z [9; 16]%Z sample_proposer first s.
Proof.
  pose proof (paged_drafter_ok 2 sample_cell 0%Z sample_head true ltac:(lia)) as Hd. pose proof (paged_target_ok step_cell 0%Z step_head true) as Ht.
  destruct (wp_run _ _ _ (step_decodes_greedily step_cell sample_cell true demo_runner demo_seqs sample_hist sample_hist 8 [2; 4]%Z [9; 16]%Z
    sample_proposer sample_start [] [] sample_step_ready eq_refl
    sample_decoded_ready sample_spec_ids sample_greedy)) as (rows & s & Hrun & first & _ & Hr & Hdone).
  exists first, s. split; [|exact Hdone]. rewrite Hrun, Hr. by vm_compute.
Defined.

(** C31. Two calls of [run] in a row decode one text. Whatever the first step kept or rejected of its drafts, the second
    returns from the state that it left, for any batch of rows that go on from it and of others whose earlier entries the caches hold.
    A row that goes on is of a sequence whose newest token is still on the device, so the scheduler has counted
    every draft of the first step as cached: it starts where the kept tokens end, it is fed the last of the tokens that the first
    step returned and then the drafts that it returned, and the tokens that the engine reads of the two results are, one after the
    other, the model's own greedy continuation of the sequence. *)
Theorem steps_decode_one_text {F H E E'} `{!Scalar F} `{!Softmax F} `{!Ordered F} `{!Sampling F} `{!TargetModel F H E} `{!Drafter F H E'} (cell : list E -> Z * unit -> E * H)
    (drafter_cell : nat -> list E' -> Z * H -> E' * H) latents `{!TargetOk cell latents} `{!DrafterOk drafter_cell latents}
    (r : Runner) (seqs : list Sequence) (hist : Sequence -> list E) (drafter_hist : Sequence -> list E') (mw : Z) (gbs pbs : list Z)
    (p : Proposer H E') (s0 : ModelRunner H E E') (coin : list F) (noise : list (list F)) :
  let sampled ss := filter (fun s => samples s = true) ss in
  let K := mr_num_speculative_tokens r in
  StepReady (latents := latents) r seqs hist mw s0 -> md_proposer s0 = Some p ->
  DraftReady (latents := latents) r seqs (decoded_step cell r hist drafter_hist) gbs pbs p ->
  (forall s, s ∈ sampled seqs -> (num_drafts_of s <= K)%Z) -> Forall (fun s => temperature s = 0%Qc) seqs -> NoDup (seq_id <$> sampled seqs) ->
  wp (run coin noise seqs) s0 (fun rows s1 => forall seqs' hist' drafter_hist' coin' noise',
    NextBatch r seqs mw s0 p s1 seqs' hist' drafter_hist' ->
    wp (run coin' noise' seqs') s1 (fun rows' _ =>
      let step1 := split_sampled rows K in
      let step2 := split_sampled rows' K in
      forall i j s s', sampled seqs !! i = Some s -> sampled seqs' !! j = Some s' -> pending s' = true -> seq_id s' = seq_id s ->
      exists new drafts new', step1.1 !! i = Some new /\ step1.2 !! i = Some drafts /\ step2.1 !! j = Some new' /\ new <> [] /\ new' <> [] /\
        start_of (md_host s1) s' = (end_of r s - num_drafts_of s + Zlen new - 1)%Z /\
        ids_of (md_host s1) s' = default 0%Z (last new) :: take (length (spec_token_ids s')) drafts /\
        new ++ new' = greedy_from cell target_choice (entries_before cell r hist s) (last_id r s) (length (new ++ new')))).
Proof. intros sampled K Hok Hp Hd Hk Ht Hids. by apply (run_twice cell drafter_cell r seqs hist drafter_hist mw s0 gbs pbs p). Qed.

(** The step after that of the sample, of the sequence with drafts. *)
Definition sample_next : Sequence := demo_row 1 [11; 12; 13]%Z 2 7 3 3 [-1; -1]%Z false [0; 1; 2].

Lemma sample_decoded : exists first rows s1, run [] [] demo_seqs sample_start = (inr rows, s1) /\
  Decoded step_cell sample_cell demo_runner demo_seqs sample_hist sample_hist 8 sample_start [2; 4]%Z [9; 16]%Z sample_proposer first s1 /\
  (split_sampled rows 2).1 = [[82; 74]; [3]]%Z.
Proof.
  pose proof (paged_drafter_ok 2 sample_cell 0%Z sample_head true ltac:(lia)) as Hd. pose proof (paged_target_ok step_cell 0%Z step_head true) as Ht.
  destruct (wp_run _ _ _ (run_decodes step_cell sample_cell demo_runner demo_seqs sample_hist sample_hist 8 sample_start sample_step_ready
    sample_spec_ids [2; 4]%Z [9; 16]%Z sample_proposer eq_refl sample_decoded_ready sample_greedy [] [])) as (rows & s & Hrun & first & _ & Hr & Hdone).
  exists first, rows, s. split; [exact Hrun|]. split; [exact Hdone|]. rewrite Hr. by vm_compute.
Qed.

Definition sample_first : Sequence := nth 1 demo_seqs sample_next.

Lemma sample_first_at : filter (fun s => samples s = true) demo_seqs !! 0 = Some sample_first.
Proof. done. Qed.

Lemma sample_ids : NoDup (seq_id <$> filter (fun s => samples s = true) demo_seqs).
Proof. apply (bool_decide_eq_true_1 (NoDup _)). by vm_compute. Qed.

Lemma sample_next_row : NextRow demo_runner sample_first sample_next.
Proof. by split. Qed.

Lemma sample_slot r q : mr_block_size r = 4%Z -> (0 <= q < 12)%Z -> slot_of r sample_next q = q.
Proof.
  intros Hbs Hq. unfold slot_of. rewrite Hbs. assert (Hd : (q / 4 = 0 \/ q / 4 = 1 \/ q / 4 = 2)%Z) by (Z.to_euclidean_division_equations; lia).
  rewrite (Z.div_mod q 4) at 3 by lia. destruct Hd as [Hd|[Hd|Hd]]; rewrite Hd; simpl; lia.
Qed.

Lemma one_row r s : batch_of r [s] = [s].
Proof. apply Permutation_singleton_r. unfold batch_of. by rewrite by_mask_perm. Qed.

(** The sequence's next row alone. *)
Lemma sample_next_batch first s1 :
  Decoded step_cell sample_cell demo_runner demo_seqs sample_hist sample_hist 8 sample_start [2; 4]%Z [9; 16]%Z sample_proposer first s1 ->
  NextBatch demo_runner demo_seqs 8 sample_start sample_proposer s1 [sample_next] (fun _ => []) (fun _ => []).
Proof.
  intros Hdec. pose proof (list_elem_of_lookup_2 _ _ _ sample_first_at) as Hin.
  pose proof (next_start step_cell sample_cell demo_runner demo_seqs sample_hist sample_hist 8 sample_start [2; 4]%Z [9; 16]%Z sample_proposer
    first s1 Hdec sample_ids sample_first sample_next Hin sample_next_row) as Hst.
  assert (Hs : start_of (md_host s1) sample_next = 6%Z) by (rewrite Hst; by vm_compute). clear Hst.
  destruct (dc_settings _ _ _ _ _ _ _ _ _ _ _ _ _ Hdec) as (Hbs & HK & Hml & _).
  change (mr_block_size demo_runner) with 4%Z in Hbs. change (mr_num_speculative_tokens demo_runner) with 2%Z in HK.
  change (mr_max_model_len demo_runner) with 32%Z in Hml.
  assert (He : end_of (md_host s1) sample_next = 9%Z) by (unfold end_of; by rewrite Hs).
  assert (Hr : reach (md_host s1) sample_next = 10%Z) by (unfold reach; by rewrite He, HK, Hml).
  split.
  - done.
  - intros s' ->%list_elem_of_singleton _. exists sample_first. split; [exact Hin|exact sample_next_row].
  - by intros s' ->%list_elem_of_singleton.
  - by intros s' ->%list_elem_of_singleton.
  - by intros s' c ->%list_elem_of_singleton.
  - intros [|i] [|j] x y q q'; rewrite one_row; try done. intros [= <-] [= <-]. rewrite Hr, Hs. intros Hq Hq'.
    rewrite !sample_slot by (done || lia). done.
  - intros s' ->%list_elem_of_singleton. by rewrite He.
  - intros s' ->%list_elem_of_singleton. by rewrite Hr.
  - intros s' ->%list_elem_of_singleton. cbn [block_table sample_next demo_row]. repeat constructor; simpl; lia.
  - intros s' c ->%list_elem_of_singleton Hc. assert (length (pg_blocks c) = 8) as ->.
    { revert c Hc. apply Forall_forall. by repeat constructor. }
    repeat constructor; simpl; lia.
  - unfold width. by rewrite one_row.
  - by repeat constructor.
Qed.

Lemma steps_decode_one_text_witness : exists rows s1 rows' s2 new',
  run [] [] demo_seqs sample_start = (inr rows, s1) /\ run [] [] [sample_next] s1 = (inr rows', s2) /\
  (split_sampled rows 2).1 !! 0 = Some [82; 74]%Z /\ (split_sampled rows' 2).1 !! 0 = Some (58%Z :: new') /\ start_of (md_host s1) sample_next = 6%Z.
Proof.
  pose proof (paged_drafter_ok 2 sample_cell 0%Z sample_head true ltac:(lia)) as Hd. pose proof (paged_target_ok step_cell 0%Z step_head true) as Ht.
  destruct sample_decoded as (first & rows & s1 & Hrun & Hdec & Hnew).
  pose proof (wp_elim _ _ _ _ _ (steps_decode_one_text step_cell sample_cell true demo_runner demo_seqs sample_hist sample_hist 8 [2; 4]%Z [9; 16]%Z
    sample_proposer sample_start [] [] sample_step_ready eq_refl sample_decoded_ready sample_spec_ids sample_greedy sample_ids) Hrun) as Hnext.
  destruct (wp_run _ _ _ (Hnext [sample_next] _ _ [] [] (sample_next_batch first s1 Hdec))) as (rows' & s2 & Hrun' & Htext).
  destruct (Htext 0 0 sample_first sample_next sample_first_at eq_refl eq_refl eq_refl) as (new & drafts & new' & H1 & _ & H2 & _ & Hne & Hst & _ & Hg).
  change (mr_num_speculative_tokens demo_runner) with 2%Z in H1, H2. rewrite Hnew in H1. injection H1 as <-.
  clear Htext Hnext. destruct new' as [|t new']; [exfalso; by apply Hne|]. exists rows, s1, rows', s2, new'. split; [exact Hrun|]. split; [exact Hrun'|].
  split; [rewrite Hnew; reflexivity|]. split; [|rewrite Hst; by vm_compute]. rewrite H2. apply (f_equal (fun l => default 0%Z (l !! 2))) in Hg.
  cbn [app length] in Hg. change (default 0%Z ((82 :: 74 :: t :: new')%Z !! 2)) with t in Hg. revert Hg. generalize (length new'). clear. intros n Hg.
  assert (t = 58%Z) as ->; [|reflexivity]. etransitivity; [exact Hg|]. by vm_compute.
Defined.

(** C32. A step of [run] without a drafter, over any model that keeps its passes' promises, whatever path its pass takes: each
    sampling sequence gets one token, by its own parameters and from the model's output at its own last token. At temperature 0
    it is the greatest logit; otherwise it is a token with fewer than [top_k] logits above it, where that is positive, and of
    those that top-k keeps, the ones above it have less than [top_p] of the probability, where that is below 1: what else
    shares the batch makes no difference. *)
Theorem step_samples_within_filters {F H E E'} `{!Scalar F} `{!Softmax F} `{!Ordered F} `{!Sampling F} `{!TargetModel F H E} `{!Drafter F H E'}
    (cell : list E -> Z * unit -> E * H) latents `{!TargetOk cell latents} `{!SamplingOk F} (r : Runner) (seqs : list Sequence)
    (hist : Sequence -> list E) (mw : Z) (s0 : ModelRunner H E E') (coin : list F) (noise : list (list F)) :
  let sampled := filter (fun s => samples s = true) seqs in
  StepReady (latents := latents) r seqs hist mw s0 -> mr_has_proposer r = false -> (forall s, s ∈ sampled -> num_drafts_of s = 0%Z) ->
  (forall h, target_head h <> []) -> Forall2 (fun e s => length e = length (own_logits cell r hist s)) noise sampled ->
  wp (run coin noise seqs) s0 (fun rows s =>
    Forall2 (fun row x => exists t, row = [t] /\
      (temperature x = 0%Qc -> t = argmax_row (own_logits cell r hist x)) /\
      (temperature x <> 0%Qc -> exists j, t = Z.of_nat j /\
        within_filters x (scale_row (temperature x) (own_logits cell r hist x)) j)) rows sampled /\
    BuffersReady r mw s /\
    forall x, x ∈ batch_of r seqs -> SlotsHold r (dv_cache (md_device s)) x (entries_after cell r hist x) (end_of r x)).
Proof. intros sampled Hok Hp Hd Hh Hn. exact (run_samples_within cell r seqs hist mw s0 Hok coin noise Hp Hd Hh Hn). Qed.

(** Three sequences, of which two sample, at temperature 1, two tokens to choose from. *)
Definition sampling_seqs : list Sequence :=
  (fun s : Sequence => s <| temperature := 1%Qc |> <| Sequence.top_k := 2%Z |> <| top_p := Q2Qc (QArith_base.Qmake 3 4) |>) <$> plain_seqs.

Definition rational_head (h : Z) : list Qc := (fun k => Q2Qc (QArith_base.inject_Z ((h + k) mod 4))) <$> seqZ 0 4.
#[local] Instance rational_target : TargetModel Qc Z Z := paged_target step_cell 0%Z rational_head.
#[local] Instance rational_drafter : Drafter Qc Z Z := paged_drafter 2 sample_cell 0%Z rational_head.

Definition plain_start : ModelRunner Z Z Z :=
  {| md_host := plain_runner; md_device := {| dv_cache := sample_cache; dv_context := fresh default_Fields |}; md_graph_vars := None;
     md_graphs := []; md_piecewise_vars := None; md_hidden_states := None; md_proposer := None |}.

Definition plain_hist (s : Sequence) : list Z := replicate (Z.to_nat (start_of plain_runner s)) 0%Z.

Lemma sampling_rows (P : Sequence -> Prop) : Forall P sampling_seqs -> forall s, s ∈ batch_of plain_runner sampling_seqs -> P s.
Proof. intros Hf s Hin%batch_in. rewrite Forall_forall in Hf. by apply Hf. Qed.

Lemma plain_held s : s ∈ batch_of plain_runner sampling_seqs -> SlotsHold plain_runner sample_cache s (plain_hist s) (start_of plain_runner s).
Proof.
  intros Hin. assert (Hc : Forall (fun s => forallb (fun q => bool_decide (slot_entry sample_cache
    (slot_of plain_runner s (Z.of_nat q)) = Some 0%Z)) (seq 0 (Z.to_nat (start_of plain_runner s))) = true) sampling_seqs).
  { repeat apply Forall_cons_2; [..|constructor]; by vm_compute. }
  by apply zeros_slots, (sampling_rows _ Hc s Hin).
Qed.

Lemma sampling_ready : Ready plain_runner sampling_seqs.
Proof.
  constructor; [by constructor| |done|by repeat constructor|done].
  repeat apply Forall_cons_2; [..|constructor]; constructor; try done; try (vm_compute; naive_solver).
Qed.

Lemma plain_step_ready : StepReady (latents := true) plain_runner sampling_seqs plain_hist 8 plain_start.
Proof.
  split; try done.
  - apply sampling_ready.
  - each_row sampling_rows; by vm_compute.
  - apply plain_held.
  - apply own_within_ok. by vm_compute.
  - each_row sampling_rows; repeat constructor; simpl; lia.
  - split; [repeat constructor|done].
Qed.

Lemma step_samples_within_filters_witness : exists rows s, run [] (replicate 2 (replicate 4 1%Qc)) sampling_seqs plain_start = (inr rows, s) /\
  Forall2 (fun row x => exists j, row = [Z.of_nat j] /\
    within_filters (F := Qc) x (scale_row 1%Qc (own_logits step_cell plain_runner plain_hist x)) j) rows (filter (fun s => samples s = true) sampling_seqs).
Proof.
  pose proof (paged_target_ok step_cell 0%Z rational_head true) as Ht.
  assert (Hno : forall s, s ∈ filter (fun s => samples s = true) sampling_seqs -> num_drafts_of s = 0%Z).
  { intros s [_ Hs]%list_elem_of_filter. revert s Hs. apply Forall_forall. by repeat constructor. }
  assert (Hnoise : Forall2 (fun e s => length e = length (own_logits step_cell plain_runner plain_hist s)) (replicate 2 (replicate 4 1%Qc))
    (filter (fun s => samples s = true) sampling_seqs)) by (repeat constructor).
  assert (Hone : forall s, s ∈ sampling_seqs -> temperature s = 1%Qc) by (apply Forall_forall; by repeat constructor).
  assert (Hhead : forall h : Z, target_head h <> []).
  { intros h Hn%(f_equal length). unfold target_head, rational_target, paged_target, rational_head in Hn. by rewrite length_fmap, length_seqZ in Hn. }
  destruct (wp_run _ _ _ (step_samples_within_filters step_cell true plain_runner sampling_seqs plain_hist 8 plain_start [] _ plain_step_ready
    eq_refl Hno Hhead Hnoise)) as (rows & s & Hrun & Hrows & _).
  exists rows, s. split; [exact Hrun|]. apply Forall2_lookup. intros i. rewrite Forall2_lookup in Hrows. specialize (Hrows i).
  destruct (filter (fun s => samples s = true) sampling_seqs !! i) as [x|] eqn:Hx; [|inversion Hrows; constructor].
  assert (Htx : temperature x = 1%Qc).
  { apply Hone. apply list_elem_of_lookup_2, list_elem_of_filter in Hx as [_ Hx]. exact Hx. }
  inversion Hrows as [row ? (t & -> & _ & Hs)|]; subst. rewrite Htx in Hs. constructor. destruct (Hs ltac:(intros Hz; discriminate Hz)) as (j & -> & Hj). exists j. split; [reflexivity|exact Hj].
Defined.

(** C33. The rejection sampler on a row that does not decode greedily, in any batch of rows laid end to end: it keeps the row's drafts in
    order while each one's coin is below the probability that the target gives it, by the row's own temperature, top-k and top-p, and then
    adds exactly one token: after all the drafts the bonus token, and otherwise one in the place of the first draft rejected, which is
    another. Each token it returns is one that the row's filters keep; the rest of the row is padding. *)
Theorem drafts_verified_by_probability {F} `{!Scalar F} `{!Softmax F} `{!Ordered F} `{!Sampling F} `{!SamplingOk F} (logits : list (list F))
    (drafts : list Z) (ns : list nat) (ts : list Qc) (k : option (list Z)) (p : option (list Qc)) (coin : list F) (noise : list (list F))
    (width V r n : nat) (t : Qc) :
  VerifyOk logits drafts ns ts k p coin noise width V -> ns !! r = Some n -> ts !! r = Some t -> t <> 0%Qc ->
  let own c := place_row logits ns ts r c in
  let at_ c := offset ns r + c in
  exists m i, m <= n /\
    RejectionSampler_forward logits drafts ns (Some ts) width k p coin noise !! r =
      Some (take m (slice drafts (offset ns r) n) ++ [Z.of_nat i] ++ replicate (width - m) Scheduler.PLACEHOLDER_TOKEN_ID) /\
    (forall c, c < n -> c <= m -> exists u d q, coin !! at_ c = Some u /\ drafts !! at_ c = Some (Z.of_nat d) /\
      softmax_of (filter_row (row_value k r) (row_value p r) (own c)) !! d = Some q /\ (c < m <-> less u q) /\
      (c < m -> passes_filters (row_value k r) (row_value p r) (own c) d)) /\
    passes_filters (row_value k r) (row_value p r) (own m) i /\ (m < n -> drafts !! at_ m <> Some (Z.of_nat i)).
Proof. intros [H1 H2 H3 H4 H5 H6 H7 H8 H9 H10 H11 H12 H13]. exact (verified_passes logits drafts ns ts k p coin noise width V H1 H2 H3 H4 H5 H6 H7 H8 H9 H10 H11 H12 H13 r n t). Qed.

(** Two rows, of one draft and of none, over a vocabulary of three; the draft's coin is zero, so it is kept where the filters keep it. *)
Definition verify_logits : list (list Qc) := [[1; 2; 0]; [0; 1; 1]; [2; 0; 1]]%Qc.

Lemma verify_ok : VerifyOk verify_logits [1%Z] [1; 0] [1; 1]%Qc (Some [2; 0]%Z) None [0%Qc] (replicate 3 [1; 1; 1]%Qc) 1 3.
Proof.
  split; [by repeat constructor|lia|done|done|by repeat constructor| |done|by intros ? [= <-]|done|done| |done|by repeat constructor].
  - intros [|[|r]] n [= <-]; lia.
  - repeat constructor; [apply fle_refl|by vm_compute].
Qed.

Lemma drafts_verified_by_probability_witness : exists m i, m <= 1 /\
  RejectionSampler_forward verify_logits [1%Z] [1; 0] (Some [1; 1]%Qc) 1 (Some [2; 0]%Z) None [0%Qc] (replicate 3 [1; 1; 1]%Qc) !! 0 =
    Some (take m [1%Z] ++ [Z.of_nat i] ++ replicate (1 - m) Scheduler.PLACEHOLDER_TOKEN_ID).
Proof.
  destruct (drafts_verified_by_probability verify_logits [1%Z] [1; 0] [1; 1]%Qc (Some [2; 0]%Z) None [0%Qc] (replicate 3 [1; 1; 1]%Qc) 1 3 0 1 1%Qc
    verify_ok eq_refl eq_refl ltac:(intros Hz; discriminate Hz)) as (m & i & Hm & Hrow & _).
  exists m, i. split; [exact Hm|exact Hrow].
Defined.
