(* ===== verification/ConfigProperties.v ===== *)
(** * Properties: the configuration

    What an engine may be built on, and which backend a layer gets. *)

From S2P Require Import Prelude Sequence KVBase SpecDecode Arrays AttnContext ModelRunner Config.

(** ** A machine without a GPU *)

Definition cpu_machine : Machine := {| imports := fun _ => false; torch_device := inr; cuda_available := false; capability := 0 |}.

Definition mla_checkpoint : HFConfig :=
  {| architectures := Some ["DeepseekV3ForCausalLM"%string]; num_nextn_predict_layers := Some 1%Z; max_position_embeddings := 2048;
     kv_lora_rank := Some 512%Z; qk_nope_head_dim := 128; qk_rope_head_dim := 64; hf_num_attention_heads := 16;
     hf_dtype := bfloat16 |}.

Definition cpu_outside : Outside :=
  {| os_environ := {[ "LEAN_VLLM_DEVICE" := "cpu" ]}%string; os_machine := cpu_machine; os_isdir := fun _ => true;
     os_free_port := 4000; os_pretrained := fun _ => inr mla_checkpoint;
     os_kv_json := fun _ => inl (ValueError "json"); os_spec_json := fun _ => inr {| sc_method := "mtp"; sc_num_speculative_tokens := 1 |} |}.

Definition speculative_config : Config :=
  (new_Config "model") <| cg_tensor_parallel_size := 2%Z |> <| cg_enable_expert_parallel := true |>
    <| cg_speculative_config := "{}"%string |>.

Lemma speculative_config_accepted : Accepted cpu_outside speculative_config mla_checkpoint.
Proof.
  split; try done; try (simpl; lia); try (by repeat constructor).
  - exists DeepseekV3ForCausalLM. done.
  - intros _ _. by eexists.
  - intros _. split_and!; try done. by exists 1%Z.
  - intros rank _. split; [simpl; lia|]. split; [exists "cpu"%string; split; [done|by repeat constructor]|by repeat constructor].
Qed.

(** C40. No configuration escapes the checks, and one that meets them is accepted. Whatever was asked for, the settings
    that [Config.__post_init__] returns with are sound: the model is a directory, the page size a multiple of 16, the
    graph mode and the hash known, the ranks between 1 and 8, the cache's layout NHD or HND, the length within the
    checkpoint's positions, expert parallelism asked of a model with experts, and speculation of a checkpoint of an
    architecture that has a drafter, with prediction layers of its own, and never beside transfers. The settings of
    [Accepted] return: each check is met, and a latent layer gets a backend, which is the one that the environment names
    where that one is known and serves the layer, and without a name is asked of a known device and a dtype of PyTorch's
    backend. The page size is then the one that the backend reads. *)
Theorem config_is_checked (o : Outside) (c : Config) :
  (forall c', post_init o c = (inr tt, c') -> Sound o c') /\
  forall h, Accepted o c h -> wp (post_init o) c (fun _ c' => Sound o c' /\ Checked o c h c').
Proof.
  assert (Hs : forall c', post_init o c = (inr tt, c') -> Sound o c').
  { intros c' Hr. pose proof (post_init_sound o c) as H. unfold ends in H. by rewrite Hr in H. }
  split; [exact Hs|]. intros h Ha. destruct (wp_run _ _ _ (post_init_ok o c h Ha)) as ([] & c' & Hr & Hc).
  apply (run_wp _ _ tt c'); [exact Hr|]. by split; [apply Hs|].
Qed.

Lemma config_is_checked_witness :
  wp (post_init cpu_outside) speculative_config (fun _ c' => Sound cpu_outside c' /\
    Checked cpu_outside speculative_config mla_checkpoint c').
Proof. apply (proj2 (config_is_checked cpu_outside speculative_config)), speculative_config_accepted. Defined.

(** A layer's backend is the first of the list that can serve it, and the list ends with one that serves any layer
    of its dtypes whose query heads group over its key heads. Where they do not group, or the dtype is another, no
    backend serves, and the choice raises. *)
Theorem first_backend_serves (env : Environ) (m : Machine) (spec : LayerSpec) (s : unit) : DeviceOk env m ->
  ls_num_kv_heads spec <> 0%Z -> LEAN_VLLM_ATTENTION_BACKEND env = None ->
  match get_attention_backend env m spec None s with
  | (inr b, _) => unsupported env m b spec s = (inr [], s) /\
      exists l k, BACKENDS = l ++ b :: k /\ Forall (fun x => exists e r, unsupported env m x spec s = (inr (e :: r), s)) l
  | (inl e, _) => e = ExternalError "StopIteration" /\ ~ TorchServes spec
  end.
Proof.
  intros Hd Hk He. unfold get_attention_backend. rewrite He. destruct (decide (TorchServes spec)) as [Ht|Hn].
  - destruct (first_supported_spec s env m spec BACKENDS Hd Hk ltac:(repeat constructor) Ht) as (b & Hb & l & k & Hl & Hs & Hr).
    rewrite (Hb s). split; [apply Hs|]. exists l, k. split; [done|]. eapply Forall_impl; [exact Hr|].
    intros x (e & r & Hx). exists e, r. apply Hx.
  - by rewrite (first_supported_none s env m BACKENDS spec Hd Hk Hn).
Qed.

Definition ungrouped : LayerSpec :=
  {| ls_head_size := 64; ls_num_heads := 6; ls_num_kv_heads := 4; ls_dtype := bfloat16; ls_latent_dim := 0 |}.

Lemma first_backend_serves_witness :
  get_attention_backend (os_environ cpu_outside) cpu_machine ungrouped None tt = (inl (ExternalError "StopIteration"), tt) /\
  ~ TorchServes ungrouped.
Proof.
  assert (Hd : DeviceOk (os_environ cpu_outside) cpu_machine) by (exists "cpu"%string; split; [done|by repeat constructor]).
  pose proof (first_backend_serves (os_environ cpu_outside) cpu_machine ungrouped tt Hd ltac:(done) eq_refl) as H.
  split; [reflexivity|exact (proj2 H)].
Defined.
